(* ===== verification/_CoqProject ===== *)
-Q . S2P
Prelude.v
Numerals.v
Libc.v
Stdio.v
Context.v
Json.v
JsonText.v
JsonBudget.v
JsonRoundTrip.v
JsonSize.v
JsonObject.v
TraceStream.v
Lcs.v
TraceDiff.v
JsonPrint.v
CtlFeed.v
AgentRegistry.v
Journal.v
JournalChain.v
Glob.v
Redact.v
LogRing.v
LogFlusher.v
FilterDsl.v
FilterGrammar.v
FilterEval.v
FilterCompile.v
OpenAddr.v
ConfigCache.v
Rpc.v
AgentRing.v
PolicySig.v
AgentEvent.v
Agent.v
Daemon.v
Ctl.v
Fleet.v
CtlTree.v
CtlThaw.v
Supervisor.v
ScriptResolver.v
Sandbox.v
SandboxPolicy.v
Sockaddr.v
Registry.v
RealCache.v
CallHash.v
PrintfFormat.v
Lanes.v
Faults.v
Replay.v
Fuzz.v
LogFilter.v
Engine.v
Freeze.v
ProtoLibc.v
ProtoSystem.v
ProtoNet.v
ProtoTables.v
SortedTable.v
Correlate.v
Profile.v
ProfileDiff.v
Jail.v
Capability.v
ProfileDoc.v
DataTypes.v
FilterAction.v
Logger.v
LogParams.v
CallTrace.v
ParamActions.v
