(* ===== verification/Prelude.v ===== *)
(** * Verification of retrace: the prelude and an overview

    retrace is a library that is loaded into a program (or traces it) and
    intercepts its calls of the C library. For each call the engine looks up
    the prototype of the function, asks the configuration for a script, and
    either lets the real function run or runs the script's actions, which may
    log, change, refuse or make the call. What is logged goes through a ring of
    the thread to a flusher, which writes a trace; tools compare traces, look for
    escapes in them and make profiles, from which jails are written. An agent
    thread connects the program to a daemon, which holds a policy for all
    programs of a fleet, records their events in a journal and is commanded over
    a control socket.

    This library models those parts as executable functions and step relations
    over explicit states and proves what they promise. C strings are lists of
    characters ([bytes]), machine integers are [Z] with their wrap-around
    written out, a pointer that may be NULL is an option or a [Z] with 0 for
    NULL, and what the platform provides (the loader, dladdr, malloc's success,
    the memory of a process, clocks, files, OpenSSL, the conversions between
    doubles and text, qsort) is a parameter, with its documented behaviour as
    named hypotheses or the laws of a class ([DoubleText], [Qsort]). Paths below
    are under src/; [core/], [config/], [supervisor/] and [backends/] are in
    src/src/, [tools/] in src/tools/.

    ** The parts

    Shared:
    - [Prelude], [Numerals], [Libc], [Stdio]: strings, integers, tactics; decimal
      and hexadecimal text; the functions of the C library that the code uses.
    - [Json], [JsonText], [JsonBudget], [JsonRoundTrip], [JsonSize],
      [JsonObject], [JsonPrint]: config/json/parson.c. Values and accessors, the
      parser with its budget and nesting bound, both serialisers, members and
      arrays with the UTF-8 check; and the JSON that programs print with
      snprintf.
    - [Context]: prototypes, parameters and the thread context (core/funcs.h,
      engine.h, backends/arch_spec.h), clean-up and guard (cleanup.c,
      reentrance_guard.c).

    The engine and its lookups:
    - [OpenAddr], [ConfigCache], [ScriptResolver], [Registry], [RealCache]: open
      addressing once, and its users config_cache.c and the name cache of
      engine.c; the chained tables of funcs.c and actions.c; the resolver of
      scripts with the matching of callers (script_resolver.c, caller_match.c,
      caller_cache.c).
    - [Lanes]: the frames the engine decides on, as an interface ([Lanes]) with
      laws ([LaneLaws]), and the x86-64 trampoline
      (backends/preload_elf/x86_64/arch_spec_bottom.c, core/as_call_real.c) and
      the ptrace lane (backends/ptrace/as_ptrace.c) as its instance.
    - [Engine]: the wrapper of an intercepted call (core/engine.c), the
      dispatcher (backends/as_ops.c), the runner (action_runner.c), the thread
      context (thread_context.c) and the integer actions (actions/basic.c),
      verified against [Lanes].
    - [ProtoLibc], [ProtoSystem], [ProtoNet], [ProtoTables]: every prototype of
      core/prototypes/ as a value, and the section of a POSIX build.
    - [PrintfFormat], [DataTypes]: printf formats, and the registry and printers
      of data types (printf_compat.h, data_types.c, datatypes/), over the bytes
      of values in either byte order.
    - [CallHash]: the hash of a thread's calls (call_hash.c).

    The actions:
    - [Glob], [FilterDsl], [FilterGrammar], [FilterEval], [FilterCompile]: the
      filter expressions of core/filter_dsl.c. The parser is written once over an
      interface ([Builder]) with two instances: the arrays, pointers and
      relocation of the code, where a stale pointer is undefined, and abstract
      trees. [Glob] also has the matcher of redact.c; both matchers are instances
      of one backtracking loop. [FilterAction]: actions/filter.c with its cache,
      and the resolver of names over a call.
    - [Sandbox], [SandboxPolicy], [Sockaddr]: the policies (actions/sandbox.c,
      addr_deny.c, sockaddr_inspect.c); [SandboxPolicy] states the policy of the
      sandbox as its documentation has it, apart from the code.
    - [Faults], [Freeze], [Replay], [Fuzz]: counters, leading failures, the freeze
      and short transfers; the record of random outcomes (core/replay.c); and the
      fuzzing actions with their dictionaries.
    - [LogParams], [ParamActions]: log_params, and the actions of
      actions/basic.c that replace what a parameter points to.

    The logging path:
    - [LogRing], [LogFlusher], [Redact], [LogFilter], [Logger]: the
      single-producer single-consumer rings, their registry and the drains
      (log_ring.c, log_flusher.c), with a step relation for producer and consumer
      whose atomics are sequentially consistent; the redaction of evidence
      (redact.c); the function filter and the logger from its environment to the
      texts of its outputs (logger.c).

    The tools:
    - [TraceStream], [Lcs], [TraceDiff]: the scanner and loader of traces
      (tools/common/), and their comparison (tools/trace-diff/).
    - [SortedTable], [Correlate]: tables that are searched by halving, and the
      search for escapes from a virtual file system (tools/correlate/).
    - [Profile], [ProfileDiff], [Jail], [Capability], [ProfileDoc]: the profiler
      (tools/profiler/): aggregation, drift, jails and other filters made from a
      profile, the scan of binaries, and the documents and modes of the program.
    - [CallTrace]: the composition of [LogParams], [Logger], [TraceStream] and
      [Profile].

    The supervisor:
    - [Rpc]: frames, messages and the reassembly of a stream
      (supervisor/protocol.c).
    - [AgentRing], [AgentEvent], [PolicySig], [Agent]: the agent in the program
      (supervisor/agent_posix.c, agent_ring.c, policy_sig.c).
    - [AgentRegistry], [Journal], [JournalChain], [Daemon]: the registry, the
      drift matcher and the gates of the daemon, its journal, and its agent plane
      (tools/retraced/registry.c, drift_hits.c, peer_gate.c, journal.c,
      daemon_frame.c, main.c).
    - [CtlFeed], [Ctl], [CtlTree], [CtlThaw], [Fleet]: the controller plane
      (retraced_ctl.c, tls_gate.c) and the daemon as one transition system.
    - [Supervisor]: the composition of the agent, the protocol, the daemon and the
      journal.

    ** The theorems

    - The engine: a dispatch returns and is what its specification says, what
      the caller sees on any lawful lane, nested calls are transparent, a script
      that only calls the real function is transparent.
    - The lookups: caches answer as the scans they replace, the shortcut of the
      resolver is sound where the rules agree with it, registries answer by
      name, all prototypes and data types register and are well formed.
    - The filter expressions: compilation ends, refines the abstract parser
      within the first capacities of its arrays, is inverse to printing, and
      accepts typed expressions only; a script that starts with filters goes on
      exactly if all of them hold.
    - The policies and faults: the sandbox follows its policy (openat apart), the
      address filter denies what its specifications cover, faults fall in their
      windows, a recorded run of the fuzzer is reproduced, a freeze of the fleet
      keeps every intercepted function from running (nothing is promised of sleep
      and usleep, which it holds against its documentation).
    - Parameters: what log_params logs is exactly the call; the blocks that
      replace strings and arrays are freed once each and never used after it.
    - The logging path: every interleaving of producer and consumer is a bounded
      queue, memory safe and wait-free on both sides; the file that a run of the logger
      leaves is one document of the accepted entries; redaction leaves no
      matching token.
    - JSON: what is written is read back, the budget never rejects an input that
      parses without it.
    - The tools: the comparison gates by its thresholds, the correlation is the
      decision over all records, the profile says exactly what the trace holds
      and survives its file, the drift of two profiles is their difference, a
      program runs in the jail made from its own trace.
    - From calls to the profile: calls of threads in any order are counted each
      once, and exactly the paths they pass are accessed ([calls_profiled]).
    - The supervisor: frames are reassembled from any pieces, the ring of events is
      a bounded queue, signed policies need their signature, the policy in force
      is the one that is served; over every run of the daemon only connections that
      presented the nonce are sent a policy, and all of them hold the current one; a controller changes what its claims cover;
      the journal survives crashes and shows changes; the events a program emits
      are recovered from the journal in order; the drift matcher does what its
      header promises.
    - Each theorem has the conditions that the code needs, in its statement and in
      the comment above it: sizes of buffers and rings, text that is UTF-8, a
      journal that does not rotate, sends that are whole, and the like. Where the
      code does not test a condition, a lemma shows what happens without it.
    - Behaviour that differs from the documentation, and faults of the code, are
      lemmas beside their component, for example [glob_star_text_missed],
      [ring_get_dangling], [script_find_shadows], [long_name_leaks],
      [clock_not_pinned], [two_params_equal], [sync_not_redacted],
      [signal_loses_name], [send_length_is_text], [int_over_block].

    ** Fuel and bounds

    The recursive-descent parser of filters has six calls for each character left,
    which [filter_compile_total] shows to be enough; the JSON parser recurses over
    the levels of nesting that are left, and its loops have the length of the text
    ([JsonBudget]); the glob loop has a measure on pattern and text
    ([glob_terminates]); open addressing probes each slot once; the format parser
    takes a character in each round; frames are cut off a buffer that gets shorter
    ([Rpc]); a drain has the size of its ring; the string of a traced process is
    read in at most one round for each byte of its cap. A [None] or [NoFuel]
    stands for a loop that does not end and an [Undef] or [None] for undefined
    behaviour, and the theorems exclude them under the conditions they state. The
    bounds of the code (64 elements of an array, 1024 agents, 4096 bytes of a
    buffer and the like) are kept as they are.

    ** Not modelled

    - Assembly, the resolution of symbols, and the start of the library: they
      belong to the loader and the machine.
    - The other architectures, Windows and the ptrace loop: the same operations
      over other frames, or hooks that patch code.
    - Threads racing on the name cache, and relaxed memory: the atomics of the
      rings are sequentially consistent and the other parts are used by one
      thread or under a lock.
    - The decoders of network buffers (DNS, HTTP, TLS) and delays: they print or
      wait, and nothing depends on them.
    - OTLP: network output through a third-party library.
    - The command line, the poll loop and the TLS handshake of the daemon, and the
      client of the control socket: process and socket calls around the modelled
      handlers.
    - Journal seals and the converters and viewers of traces: separate programs
      over the formats modelled here. *)

From Stdlib Require Export Ascii String ZArith Lia.
From stdpp Require Export base option list gmap strings.

#[global] Open Scope Z_scope.
#[global] Open Scope nat_scope.

(** ** Bytes and C strings

    A C string is the list of the bytes that precede its terminator; reading
    at or past the end of the list gives the terminator [NUL]. *)

Abbreviation bytes := (list ascii).

Definition NUL : ascii := "000"%char.


(** A byte-string literal. *)
Definition lit (s : string) : bytes := list_ascii_of_string s.

(** [*p] for a pointer modelled by the suffix it points at. *)
Definition deref (s : bytes) : ascii := default NUL (head s).

(** [s[i]]. *)
Definition char_at (s : bytes) (i : nat) : ascii := default NUL (s !! i).

(** The value of a [char] converted to [unsigned char]. *)
Definition uchar (c : ascii) : Z := Z.of_N (N_of_ascii c).

(** The value of a plain [char] where it is signed (x86-64, Darwin) or
    unsigned (the AArch64 and PowerPC Linux ABIs). *)
Definition char_val (char_signed : bool) (c : ascii) : Z :=
  if char_signed && (128 <=? uchar c)%Z then (uchar c - 256)%Z else uchar c.

(** A byte string without an embedded terminator: what a [char *] can hold. *)
Definition no_nul (s : bytes) : Prop := Forall (λ c, c ≠ NUL) s.

(** Equality of characters and of strings as the booleans the code tests. *)
Definition ceq (a b : ascii) : bool := bool_decide (a = b).
Definition streq (a b : bytes) : bool := bool_decide (a = b).

(** The value of a computation that is known to succeed. *)
Lemma default_some {A} (x : A) o : match o with Some _ => true | None => false end = true → o = Some (default x o).
Proof. by destruct o. Qed.

(** ** Machine integers *)

Definition wrap_u (w : Z) (z : Z) : Z := (z mod 2 ^ w)%Z.
Definition u32 (z : Z) : Z := wrap_u 32 z.
Definition u64 (z : Z) : Z := wrap_u 64 z.

(** Two's complement reading of the low 64 bits. *)
Definition i64 (z : Z) : Z :=
  ((z + 2 ^ 63) mod 2 ^ 64 - 2 ^ 63)%Z.

#[global] Arguments Nat.modulo : simpl never.

(** ** Tactics *)

Create HintDb retrace discriminated.
Create Rewrite HintDb retrace.

Ltac bool_to_prop :=
  repeat match goal with
  | H : bool_decide _ = true |- _ => apply bool_decide_eq_true in H
  | H : bool_decide _ = false |- _ => apply bool_decide_eq_false in H
  | H : ceq _ _ = true |- _ => apply bool_decide_eq_true in H
  | H : ceq _ _ = false |- _ => apply bool_decide_eq_false in H
  | H : streq _ _ = true |- _ => apply bool_decide_eq_true in H
  | H : streq _ _ = false |- _ => apply bool_decide_eq_false in H
  | H : (_ && _) = true |- _ => apply andb_true_iff in H; destruct H
  | H : (_ || _) = false |- _ => apply orb_false_iff in H; destruct H
  | H : negb _ = true |- _ => apply negb_true_iff in H
  | H : negb _ = false |- _ => apply negb_false_iff in H
  end.

(** Opens conjunctions and existentials of the context. *)
Ltac unpack :=
  repeat match goal with
  | H : _ ∧ _ |- _ => destruct H
  | H : ∃ _, _ |- _ => destruct H
  end.

(** Case analysis on the tests of the code, one [if] or [match] at a time. *)
Ltac case_if :=
  match goal with
  | |- context [if ?b then _ else _] => destruct b eqn:?
  end; bool_to_prop.

(** ** Lemmas *)

Lemma ceq_true a b : ceq a b = true ↔ a = b.
Proof. apply bool_decide_eq_true. Qed.

Lemma ceq_false a b : ceq a b = false ↔ a ≠ b.
Proof. apply bool_decide_eq_false. Qed.

Lemma ceq_refl a : ceq a a = true.
Proof. by apply ceq_true. Qed.

Lemma streq_true a b : streq a b = true ↔ a = b.
Proof. apply bool_decide_eq_true. Qed.

Lemma streq_false a b : streq a b = false ↔ a ≠ b.
Proof. apply bool_decide_eq_false. Qed.

Lemma streq_refl a : streq a a = true.
Proof. by apply streq_true. Qed.

Lemma no_nul_cons c s : no_nul (c :: s) ↔ c ≠ NUL ∧ no_nul s.
Proof. unfold no_nul. by rewrite Forall_cons. Qed.

Lemma no_nul_take n s : no_nul s → no_nul (take n s).
Proof. apply Forall_take. Qed.

Lemma no_nul_drop n s : no_nul s → no_nul (drop n s).
Proof. apply Forall_drop. Qed.

Lemma deref_nul s : no_nul s → deref s = NUL ↔ s = [].
Proof.
  destruct s as [|c s]; [done|].
  rewrite no_nul_cons; intros [Hc _]; split; [|done].
  by intros ?; destruct Hc.
Qed.

Lemma char_at_lookup s i c : s !! i = Some c → char_at s i = c.
Proof. unfold char_at; by intros ->. Qed.

Lemma char_at_ge s i : length s ≤ i → char_at s i = NUL.
Proof. intros H; unfold char_at; by rewrite lookup_ge_None_2. Qed.

Lemma uchar_range c : (0 ≤ uchar c < 256)%Z.
Proof.
  unfold uchar. pose proof (N_ascii_bounded c). lia.
Qed.

Lemma wrap_u_range w z : (0 ≤ w → 0 ≤ wrap_u w z < 2 ^ w)%Z.
Proof. intros. apply Z.mod_pos_bound. lia. Qed.

Lemma NoDup_drop {A} n (l : list A) : NoDup l → NoDup (drop n l).
Proof. rewrite <- (take_drop n l) at 1. by intros (_ & _ & H)%NoDup_app. Qed.

#[export] Hint Rewrite ceq_refl streq_refl : retrace.
#[export] Hint Resolve uchar_range : retrace.
