(* ===== verification/Numerals.v ===== *)
(** * Numerals

    The decimal and hexadecimal conversions of [printf] ([%u], [%x]) and what
    makes a text built from them readable back: a numeral determines its
    number, and a separator that occurs in none of the parts determines the
    parts. *)

From S2P Require Import Prelude.

Module Numerals.

Definition digit (d : Z) : ascii :=
  ascii_of_nat (Z.to_nat (if (d <? 10)%Z then 48 + d else 87 + d)).

Fixpoint digits (b : Z) (fuel : nat) (z : Z) (acc : bytes) : bytes :=
  match fuel with
  | O => acc
  | S fuel =>
      if (z <? b)%Z then digit z :: acc
      else digits b fuel (z / b) (digit (z mod b) :: acc)
  end.

(** [%u] and [%x] of an unsigned int. *)
Definition fmt_u (z : Z) : bytes := digits 10 10 z [].
Definition fmt_x (z : Z) : bytes := digits 16 8 z [].

(** ** Reading back *)

Definition digit_val (c : ascii) : Z :=
  if (uchar c <? 58)%Z then uchar c - 48 else uchar c - 87.

Definition read_num (b : Z) (s : bytes) : Z := foldl (λ v c, v * b + digit_val c)%Z 0%Z s.

Definition is_hex (c : ascii) : bool :=
  ((48 <=? uchar c)%Z && (uchar c <=? 57)%Z) || ((97 <=? uchar c)%Z && (uchar c <=? 102)%Z).

Lemma digit_ok d : (0 ≤ d < 16)%Z → digit_val (digit d) = d ∧ is_hex (digit d) = true ∧
                                    ((d < 10)%Z → (48 ≤ uchar (digit d) ≤ 57)%Z).
Proof.
  intros H. assert (d = 0 ∨ d = 1 ∨ d = 2 ∨ d = 3 ∨ d = 4 ∨ d = 5 ∨ d = 6 ∨ d = 7 ∨ d = 8 ∨ d = 9 ∨
    d = 10 ∨ d = 11 ∨ d = 12 ∨ d = 13 ∨ d = 14 ∨ d = 15)%Z as Hd by lia.
  repeat destruct Hd as [-> | Hd]; subst; split_and!; try done; intros; vm_compute; split; congruence.
Qed.

Section Base.
Variable b : Z.
Hypothesis base : (2 ≤ b ≤ 16)%Z.

Lemma read_digits fuel z acc v :
  (0 ≤ z < b ^ Z.of_nat fuel)%Z → fuel ≠ 0 → v = 0%Z →
  foldl (λ v c, v * b + digit_val c)%Z v (digits b fuel z acc) =
  foldl (λ v c, v * b + digit_val c)%Z z acc.
Proof.
  intros Hz Hf ->. revert z acc Hz Hf. induction fuel as [|fuel IH]; intros z acc Hz Hf; [done|].
  cbn [digits]. destruct (Z.ltb_spec z b).
  - cbn [foldl]. rewrite (proj1 (digit_ok z ltac:(lia))). f_equal.
  - rewrite Nat2Z.inj_succ, Z.pow_succ_r in Hz by lia.
    assert (fuel ≠ 0) by (intros ->; cbn in Hz; lia).
    rewrite IH; [|split; [apply Z.div_pos; lia|apply Z.div_lt_upper_bound; lia]|done].
    pose proof (Z.mod_pos_bound z b ltac:(lia)).
    cbn [foldl]. rewrite (proj1 (digit_ok (z mod b) ltac:(lia))). f_equal.
    rewrite (Z.div_mod z b) at 3 by lia. lia.
Qed.

Lemma digits_inj fuel z1 z2 :
  (0 ≤ z1 < b ^ Z.of_nat fuel)%Z → (0 ≤ z2 < b ^ Z.of_nat fuel)%Z → fuel ≠ 0 →
  digits b fuel z1 [] = digits b fuel z2 [] → z1 = z2.
Proof.
  intros H1 H2 Hf E.
  pose proof (read_digits fuel z1 [] 0 H1 Hf eq_refl) as R1.
  pose proof (read_digits fuel z2 [] 0 H2 Hf eq_refl) as R2.
  rewrite E in R1. cbn in R1, R2. congruence.
Qed.

Lemma digits_forall (P : ascii → Prop) fuel z acc :
  (∀ d, (0 ≤ d < b)%Z → P (digit d)) → (0 ≤ z)%Z → Forall P acc → Forall P (digits b fuel z acc).
Proof.
  intros HP. revert z acc. induction fuel as [|fuel IH]; intros z acc Hz Ha; [done|]. cbn.
  destruct (Z.ltb_spec z b); [constructor; [apply HP; lia|done]|].
  apply IH; [apply Z.div_pos; lia|]. constructor; [|done]. apply HP, Z.mod_pos_bound. lia.
Qed.

Lemma digits_nonempty fuel z acc : fuel ≠ 0 → digits b fuel z acc ≠ [].
Proof.
  revert z acc. induction fuel as [|fuel IH]; intros z acc Hf; [done|]. cbn.
  destruct (z <? b)%Z; [done|]. destruct fuel; [done|]. by apply IH.
Qed.
End Base.

Lemma fmt_u_inj z1 z2 : (0 ≤ z1 < 2 ^ 32)%Z → (0 ≤ z2 < 2 ^ 32)%Z → fmt_u z1 = fmt_u z2 → z1 = z2.
Proof. intros H1 H2. apply digits_inj; [lia|lia|lia|done]. Qed.

Lemma fmt_x_inj z1 z2 : (0 ≤ z1 < 2 ^ 32)%Z → (0 ≤ z2 < 2 ^ 32)%Z → fmt_x z1 = fmt_x z2 → z1 = z2.
Proof. intros H1 H2. apply digits_inj; [lia|lia|lia|done]. Qed.

Lemma fmt_u_digits z : (0 ≤ z)%Z → Forall (λ c, (48 ≤ uchar c ≤ 57)%Z) (fmt_u z).
Proof.
  intros Hz. apply digits_forall; [lia| |done|constructor]. intros d Hd. by apply digit_ok; lia.
Qed.

Lemma fmt_x_hex z : (0 ≤ z)%Z → Forall (λ c, is_hex c = true) (fmt_x z).
Proof.
  intros Hz. apply digits_forall; [lia| |done|constructor]. intros d Hd. by apply digit_ok.
Qed.

Lemma fmt_u_nonempty z : fmt_u z ≠ [].
Proof. by apply digits_nonempty. Qed.

Lemma fmt_x_nonempty z : fmt_x z ≠ [].
Proof. by apply digits_nonempty. Qed.

(** ** Separators *)

Lemma sep_inj (c : ascii) s1 s2 r1 r2 :
  c ∉ s1 → c ∉ s2 → s1 ++ c :: r1 = s2 ++ c :: r2 → s1 = s2 ∧ r1 = r2.
Proof.
  revert s2. induction s1 as [|x s1 IH]; intros [|y s2] H1 H2 E; cbn in E.
  - by injection E.
  - injection E as <- _. set_solver.
  - injection E as -> _. set_solver.
  - injection E as -> E. destruct (IH s2) as [-> ->]; [set_solver|set_solver|done|done].
Qed.

Lemma not_in_digits (P : ascii → Prop) c s : Forall P s → ¬ P c → c ∉ s.
Proof. intros Hs Hc Hin. apply Hc. by apply (proj1 (Forall_forall P s) Hs). Qed.

End Numerals.
