(* ===== verification/Libc.v ===== *)
(** * The C library functions the tools and the JSON reader use

    Characters are classified as in the C locale. A pointer into a string is
    the suffix it points at; a search that fails gives NULL, that is [None]. *)

From S2P Require Import Prelude.

Module Libc.

(** ** ctype.h *)

Definition in_range (lo hi : Z) (c : ascii) : bool := ((lo <=? uchar c) && (uchar c <=? hi))%Z.

Definition isspace (c : ascii) : bool := ceq c " " || in_range 9 13 c.
Definition isdigit (c : ascii) : bool := in_range 48 57 c.
Definition isxdigit (c : ascii) : bool := isdigit c || in_range 65 70 c || in_range 97 102 c.
Definition isupper (c : ascii) : bool := in_range 65 90 c.
Definition islower (c : ascii) : bool := in_range 97 122 c.
Definition isalpha (c : ascii) : bool := isupper c || islower c.
Definition isalnum (c : ascii) : bool := isalpha c || isdigit c.

Definition tolower (c : ascii) : ascii :=
  if isupper c then ascii_of_N (N_of_ascii c + 32) else c.

(** ** string.h *)

(** [strncmp (s, p, strlen (p)) == 0]. *)
Fixpoint has_prefix (p s : bytes) : bool :=
  match p, s with
  | [], _ => true
  | c :: p, d :: s => ceq c d && has_prefix p s
  | _ :: _, [] => false
  end.

Fixpoint strchr (s : bytes) (c : ascii) : option bytes :=
  match s with
  | [] => None
  | d :: s' => if ceq d c then Some s else strchr s' c
  end.

Fixpoint strstr (s p : bytes) : option bytes :=
  if has_prefix p s then Some s
  else match s with [] => None | _ :: s' => strstr s' p end.

(** The longest prefix, or what follows it, of the characters of a class. *)
Fixpoint span (f : ascii → bool) (s : bytes) : nat :=
  match s with
  | [] => 0
  | c :: s' => if f c then S (span f s') else 0
  end.

Fixpoint skip (f : ascii → bool) (s : bytes) : bytes :=
  match s with
  | [] => []
  | c :: s' => if f c then skip f s' else s
  end.

(** A C string that sits in a buffer: the bytes before the first
    terminator. *)
Fixpoint cstr (b : bytes) : bytes :=
  match b with
  | [] => []
  | c :: b' => if ceq c NUL then [] else c :: cstr b'
  end.

(** ** Lemmas *)

Lemma has_prefix_spec p s : has_prefix p s = true ↔ p `prefix_of` s.
Proof.
  revert s; induction p as [|c p IH]; intros s; cbn.
  { split; [intros _; apply prefix_nil | done]. }
  destruct s as [|d s].
  { split; [done | intros H%prefix_nil_inv; done]. }
  rewrite andb_true_iff, ceq_true, IH. split.
  - intros [-> H]. by apply prefix_cons.
  - intros H. split; [by apply prefix_cons_inv_1 in H | by apply prefix_cons_inv_2 in H].
Qed.

Lemma has_prefix_app p s : has_prefix p (p ++ s) = true.
Proof. apply has_prefix_spec. by exists s. Qed.

Lemma strchr_suffix s c r : strchr s c = Some r → ∃ p, s = p ++ r ∧ c ∉ p ∧ ∃ r', r = c :: r'.
Proof.
  revert r; induction s as [|d s IH]; intros r; cbn; [done|].
  destruct (ceq d c) eqn:E; bool_to_prop.
  - intros [= <-]. exists []. split; [done|]. split; [by apply not_elem_of_nil|]. subst. by eexists.
  - intros (p & -> & Hp & Hr)%IH. exists (d :: p). split; [done|]. split; [|done].
    rewrite elem_of_cons. naive_solver.
Qed.

Lemma strchr_none s c : strchr s c = None ↔ c ∉ s.
Proof.
  induction s as [|d s IH]; cbn.
  { split; [intros _; apply not_elem_of_nil | done]. }
  destruct (ceq d c) eqn:E; bool_to_prop.
  - subst. split; [done|]. intros []. by left.
  - rewrite IH, elem_of_cons. naive_solver.
Qed.

Lemma strchr_app p c r : c ∉ p → strchr (p ++ c :: r) c = Some (c :: r).
Proof.
  induction p as [|d p IH]; cbn.
  { by rewrite ceq_refl. }
  rewrite elem_of_cons. intros H. destruct (ceq d c) eqn:E; bool_to_prop; [naive_solver|].
  apply IH. naive_solver.
Qed.

Lemma strstr_suffix s p r : strstr s p = Some r → (∃ q, s = q ++ r) ∧ has_prefix p r = true.
Proof.
  revert r; induction s as [|c s IH]; intros r; cbn [strstr]; case_if; try done.
  - intros [= <-]. split; [by exists [] | done].
  - intros [= <-]. split; [by exists [] | done].
  - intros ((q & ->) & ?)%IH. split; [by exists (c :: q) | done].
Qed.

Lemma skip_suffix f s : ∃ p, s = p ++ skip f s ∧ Forall (λ c, f c = true) p.
Proof.
  induction s as [|c s IH]; cbn; [by exists []|].
  case_if.
  - destruct IH as (p & E & Hp). exists (c :: p). split; [cbn; by f_equal | by constructor].
  - by exists [].
Qed.

Lemma skip_length f s : length (skip f s) ≤ length s.
Proof. induction s as [|c s IH]; cbn; [done|]. case_if; cbn; lia. Qed.

Lemma skip_app f p s : Forall (λ c, f c = true) p → skip f (p ++ s) = skip f s.
Proof. induction 1 as [|c p H _ IH]; cbn; [done|]. by rewrite H. Qed.

Lemma skip_id f s : f (deref s) = false → skip f s = s.
Proof. destruct s as [|c s]; cbn; [done|]. by intros ->. Qed.

Lemma span_app f p s :
  Forall (λ c, f c = true) p → f (deref s) = false → span f (p ++ s) = length p.
Proof.
  induction 1 as [|c p H _ IH]; cbn; intros Hs.
  - destruct s as [|c s]; cbn in *; [done | by rewrite Hs].
  - rewrite H. by rewrite IH.
Qed.

Lemma span_le f s : span f s ≤ length s.
Proof. induction s as [|c s IH]; cbn; [done|]. case_if; lia. Qed.

Lemma cstr_no_nul b : no_nul (cstr b).
Proof.
  induction b as [|c b IH]; cbn; [constructor|]. case_if; [constructor|].
  by apply no_nul_cons.
Qed.

Lemma cstr_id b : no_nul b → cstr b = b.
Proof.
  induction b as [|c b IH]; cbn; [done|]. rewrite no_nul_cons. intros [H ?].
  destruct (ceq c NUL) eqn:E; bool_to_prop; [done|]. by rewrite IH.
Qed.

Lemma cstr_length b : length (cstr b) ≤ length b.
Proof. induction b as [|c b IH]; cbn; [done|]. case_if; cbn; lia. Qed.

End Libc.
