(* ===== verification/Stdio.v ===== *)
(** * The formatted text and the line input of the C library

    The conversions of [snprintf] that the daemon and the agent write their
    records with, [strtoull] in base 16, which reads the links of the journal
    back, and the sequence of the lines [fgets] returns. *)

From S2P Require Import Prelude Numerals Libc.

Module Stdio.

Import Numerals Libc.

Definition NL : ascii := "010"%char.

(** A literal in which a single quote stands for a double one. *)
Definition jlit (s : string) : bytes := map (λ c, if ceq c "'" then "034"%char else c) (lit s).

(** ** printf *)

(** [%llu] and [%zu] of a 64-bit number. *)
Definition fmt_llu (z : Z) : bytes := digits 10 20 z [].

(** [%ld]. *)
Definition fmt_ld (z : Z) : bytes :=
  if (z <? 0)%Z then "-"%char :: fmt_llu (- z) else fmt_llu z.

(** [%016llx], [%04x]: [n] hexadecimal digits. *)
Fixpoint fmt_hex (n : nat) (z : Z) : bytes :=
  match n with
  | O => []
  | S n => fmt_hex n (z / 16) ++ [digit (z mod 16)]
  end.

(** [%04d] of a number that is not negative. *)
Definition fmt_04d (z : Z) : bytes :=
  repeat "0"%char (4 - length (fmt_llu z)) ++ fmt_llu z.

(** What [snprintf] leaves in a buffer of [cap] bytes. *)
Definition snprintf (cap : nat) (s : bytes) : bytes := take (cap - 1) s.

(** ** strtoull *)

Definition hex_val (c : ascii) : Z :=
  if isdigit c then uchar c - 48
  else if in_range 65 70 c then uchar c - 55 else uchar c - 87.

Fixpoint hex_run (s : bytes) (acc : Z) : Z :=
  match s with
  | [] => acc
  | c :: s => if isxdigit c then hex_run s (acc * 16 + hex_val c) else acc
  end.

(** [strtoull (s, NULL, 16)]: white space, a sign, [0x], the digits; the
    largest number stands for all that do not fit. *)
Definition strtoull16 (s : bytes) : Z :=
  let s := skip isspace s in
  let neg := ceq (deref s) "-" in
  let s := if ceq (deref s) "-" || ceq (deref s) "+" then drop 1 s else s in
  let s := if ceq (deref s) "0" && ceq (tolower (char_at s 1)) "x" && isxdigit (char_at s 2)
           then drop 2 s else s in
  let v := hex_run s 0 in
  if (2 ^ 64 - 1 <? v)%Z then 2 ^ 64 - 1 else if neg then u64 (- v) else v.

(** ** fgets *)

(** The results of successive calls of [fgets] with a buffer of [S room]
    bytes; [cur] is what the current call has read, last byte first, and
    [free] how much still fits. *)
Fixpoint fgets_from (room free : nat) (cur s : bytes) : list bytes :=
  match s with
  | [] => match cur with [] => [] | _ => [rev cur] end
  | c :: s =>
      if ceq c NL then rev (c :: cur) :: fgets_from room room [] s
      else match free with
           | S (S free) => fgets_from room (S free) (c :: cur) s
           | _ => rev (c :: cur) :: fgets_from room room [] s
           end
  end.

Definition fgets_lines (size : nat) (s : bytes) : list bytes := fgets_from (size - 1) (size - 1) [] s.

(** ** Lemmas *)

Lemma fgets_line room cur l s free :
  NL ∉ l → length l < free →
  fgets_from room free cur (l ++ NL :: s) = (rev cur ++ l ++ [NL]) :: fgets_from room room [] s.
Proof.
  revert cur free. induction l as [|c l IH]; intros cur free Hl Hn; cbn [app fgets_from].
  - rewrite ceq_refl. by cbn.
  - apply not_elem_of_cons in Hl as [Hc Hl]. cbn [length] in Hn.
    rewrite (proj2 (ceq_false c NL)) by congruence.
    destruct free as [|[|free]]; [lia|lia|]. rewrite IH by (done || lia). cbn [rev].
    by rewrite <- app_assoc.
Qed.

Lemma fgets_tail room cur l free :
  NL ∉ l → length l < free → l ≠ [] → fgets_from room free cur l = [rev cur ++ l].
Proof.
  revert cur free. induction l as [|c l IH]; intros cur free Hl Hn Hne; [done|].
  apply not_elem_of_cons in Hl as [Hc Hl]. cbn [length] in Hn. cbn [fgets_from].
  rewrite (proj2 (ceq_false c NL)) by congruence. destruct free as [|[|free]]; [lia|lia|].
  destruct l as [|d l]; [done|]. rewrite IH by (done || lia). cbn [rev]. by rewrite <- app_assoc.
Qed.

(** A line that fits the buffer is one result. *)
Lemma fgets_lines_cons size l s :
  NL ∉ l → S (length l) < size → fgets_lines size ((l ++ [NL]) ++ s) = (l ++ [NL]) :: fgets_lines size s.
Proof.
  intros Hl Hn. unfold fgets_lines. rewrite <- app_assoc. cbn [app].
  rewrite fgets_line by (done || lia). done.
Qed.

Lemma fgets_lines_tail size l : NL ∉ l → S (length l) < size → l ≠ [] → fgets_lines size l = [l].
Proof. intros. unfold fgets_lines. by rewrite fgets_tail by (done || lia). Qed.

Lemma fmt_hex_length n z : length (fmt_hex n z) = n.
Proof. revert z. induction n as [|n IH]; intros z; cbn; [done|]. rewrite length_app, IH. cbn. lia. Qed.

Definition digit_facts (d : Z) : bool :=
  let c := digit d in
  isxdigit c && (hex_val c =? d)%Z && negb (isspace c) && negb (ceq c "-") && negb (ceq c "+")
  && negb (ceq (tolower c) "x") && negb (ceq c NL) && negb (ceq c NUL) && negb (ceq c "034")
  && negb (ceq c "\") && negb (ceq c "/") && negb (uchar c <? 32)%Z.

Lemma hex_facts_all d : (0 ≤ d < 16)%Z → digit_facts d = true.
Proof.
  intros H. assert (d = 0 ∨ d = 1 ∨ d = 2 ∨ d = 3 ∨ d = 4 ∨ d = 5 ∨ d = 6 ∨ d = 7 ∨ d = 8 ∨ d = 9 ∨
    d = 10 ∨ d = 11 ∨ d = 12 ∨ d = 13 ∨ d = 14 ∨ d = 15)%Z as Hd by lia.
  repeat destruct Hd as [-> | Hd]; subst; reflexivity.
Qed.

Lemma fmt_hex_forall (P : ascii → Prop) n z :
  (∀ d, (0 ≤ d < 16)%Z → P (digit d)) → Forall P (fmt_hex n z).
Proof.
  intros HP. revert z. induction n as [|n IH]; intros z; cbn; [constructor|].
  apply Forall_app. split; [apply IH|]. constructor; [|constructor]. apply HP, Z.mod_pos_bound. lia.
Qed.

Lemma hex_run_app s r acc :
  Forall (λ c, isxdigit c = true) s → hex_run (s ++ r) acc = hex_run r (hex_run s acc).
Proof.
  intros Hs. revert acc. induction Hs as [|c s Hc _ IH]; intros acc; cbn; [done|]. by rewrite Hc.
Qed.

Lemma hex_run_fmt n z acc :
  (0 ≤ z < 16 ^ Z.of_nat n)%Z → hex_run (fmt_hex n z) acc = (acc * 16 ^ Z.of_nat n + z)%Z.
Proof.
  revert z acc. induction n as [|n IH]; intros z acc Hz.
  { cbn in *. lia. }
  cbn [fmt_hex]. rewrite hex_run_app.
  2: { apply fmt_hex_forall. intros d Hd. pose proof (hex_facts_all d Hd) as H.
       unfold digit_facts in H. by bool_to_prop. }
  rewrite Nat2Z.inj_succ, Z.pow_succ_r in * by lia. rewrite IH.
  2: { split; [apply Z.div_pos; lia|apply Z.div_lt_upper_bound; lia]. }
  pose proof (Z.mod_pos_bound z 16 ltac:(lia)) as Hm.
  pose proof (hex_facts_all (z mod 16) Hm) as H. unfold digit_facts in H. bool_to_prop.
  cbn [hex_run]. rewrite H.
  match goal with E : (hex_val _ =? _)%Z = true |- _ => apply Z.eqb_eq in E; rewrite E end.
  rewrite (Z.div_mod z 16) at 3 by lia. lia.
Qed.

(** [strtoull] reads the link of a record back. *)
Lemma strtoull_fmt z r :
  (0 ≤ z < 2 ^ 64)%Z → isxdigit (deref r) = false → strtoull16 (fmt_hex 16 z ++ r) = z.
Proof.
  intros Hz Hr.
  assert (Forall (λ c, ∃ d, (0 ≤ d < 16)%Z ∧ c = digit d) (fmt_hex 16 z)) as Hd
    by (apply fmt_hex_forall; eauto).
  pose proof (fmt_hex_length 16 z) as Hl.
  pose proof (hex_run_fmt 16 z 0 Hz) as Hv.
  assert (Forall (λ c, isxdigit c = true) (fmt_hex 16 z)) as Hx.
  { eapply Forall_impl; [exact Hd|]. cbn. intros c (d & Hd' & ->). pose proof (hex_facts_all d Hd').
    unfold digit_facts in *. by bool_to_prop. }
  destruct (fmt_hex 16 z) as [|c1 [|c2 s]]; [done|done|].
  rewrite !Forall_cons in Hd. destruct Hd as ((d1 & H1 & ->) & (d2 & H2 & ->) & _).
  pose proof (hex_facts_all d1 H1) as F1. pose proof (hex_facts_all d2 H2) as F2.
  unfold digit_facts in F1, F2. bool_to_prop. unfold strtoull16.
  cbn [app]. rewrite skip_id by done.
  change (deref (digit d1 :: digit d2 :: s ++ r)) with (digit d1).
  change (char_at (digit d1 :: digit d2 :: s ++ r) 1) with (digit d2).
  rewrite (proj2 (ceq_false (digit d1) "-")), (proj2 (ceq_false (digit d1) "+")) by done.
  cbv zeta. cbn [orb]. change (deref (digit d1 :: digit d2 :: s ++ r)) with (digit d1).
  change (char_at (digit d1 :: digit d2 :: s ++ r) 1) with (digit d2).
  rewrite (proj2 (ceq_false (tolower (digit d2)) "x")) by done. rewrite andb_false_r. cbn [andb].
  change (digit d1 :: digit d2 :: s ++ r) with ((digit d1 :: digit d2 :: s) ++ r).
  rewrite hex_run_app by done. rewrite Hv.
  assert (∀ acc, hex_run r acc = acc) as -> by (intros; destruct r; cbn in *; [done|by rewrite Hr]).
  rewrite Z.mul_0_l, Z.add_0_l. rewrite (proj2 (Z.ltb_ge _ _)) by lia. done.
Qed.

Lemma digits_length b fuel z acc : length (digits b fuel z acc) ≤ fuel + length acc.
Proof.
  revert z acc. induction fuel as [|fuel IH]; intros z acc; cbn; [lia|].
  case_if; cbn; [lia|]. etransitivity; [apply IH|]. cbn. lia.
Qed.

Lemma fmt_ld_length z : length (fmt_ld z) ≤ 21.
Proof.
  unfold fmt_ld, fmt_llu. pose proof (digits_length 10 20 z []). pose proof (digits_length 10 20 (- z) []).
  cbn [length] in *. case_if; cbn [length]; lia.
Qed.

Lemma fmt_llu_digits z : (0 ≤ z)%Z → Forall (λ c, (48 ≤ uchar c ≤ 57)%Z) (fmt_llu z).
Proof.
  intros Hz. apply digits_forall; [lia| |done|constructor]. intros d Hd. by apply digit_ok; lia.
Qed.

#[global] Arguments fmt_llu : simpl never.
#[global] Arguments fmt_ld : simpl never.
#[global] Arguments fmt_hex : simpl never.
#[global] Arguments fmt_04d : simpl never.

End Stdio.
