(* ===== verification/Context.v ===== *)
(** * Prototypes, parameters and the thread context

    The data the engine and the actions share: [struct ParamMeta] and
    [struct FuncPrototype] of [src/core/funcs.h], [struct FuncParam] of
    [src/backends/arch_spec.h], [struct ThreadContext] of [src/core/engine.h],
    with its reset ([src/core/cleanup.c]), the reentrance guard
    ([src/core/reentrance_guard.c]) and the lookup of a parameter by its name
    ([src/core/action_utils.h]). *)

From S2P Require Import Prelude.

Module Context.

(** ** Prototypes *)

(** [enum CDataModifiers]. *)
Definition CDM_NOMOD : Z := 0.
Definition CDM_POINTER : Z := 1.
Definition CDM_VOLATILE : Z := 2.
Definition CDM_CONST : Z := 4.
Definition CDM_ARRAY : Z := 8.

Definition has_mod (m flag : Z) : bool := negb (Z.land m flag =? 0)%Z.

Inductive ParamDirections := PDIR_IN | PDIR_OUT | PDIR_INOUT.
Inductive CallingConventions := CC_INVALID | CC_SYSTEM_V | CC_MICROSOFT.
Inductive FormatArchTypes := FAT_NOVARARGS | FAT_PRINTF | FAT_SCANF | FAT_STRFTIME.

#[export] Instance ParamDirections_eq_dec : EqDecision ParamDirections.
Proof. solve_decision. Defined.
#[export] Instance CallingConventions_eq_dec : EqDecision CallingConventions.
Proof. solve_decision. Defined.
#[export] Instance FormatArchTypes_eq_dec : EqDecision FormatArchTypes.
Proof. solve_decision. Defined.

Definition MAXLEN_FUNC_NAME : nat := 64.
Definition MAXLEN_PARAM_NAME : nat := 32.
Definition MAXLEN_DATATYPE_NAME : nat := 32.
Definition MAXCOUNT_PARAMS : nat := 16.

Record ParamMeta := mkMeta {
  pm_name : bytes;
  pm_type_name : bytes;
  pm_modifiers : Z;
  pm_direction : ParamDirections;
  pm_ref_type_name : bytes;
  pm_array_cnt_param : bytes;
}.

Record FuncPrototype := mkProto {
  fp_name : bytes;
  fp_conv : CallingConventions;
  fp_params : list ParamMeta;   (** the initialised elements of the array *)
  fp_params_cnt : nat;
  fp_type_name : bytes;
  fp_fmt : FormatArchTypes;
  fp_fmt_param_idx : Z;
}.

(** ** The context of a thread *)

(** A parameter of the intercepted call. [val] is its slot, a number or an
    address. *)
Record FuncParam := mkParam {
  param_meta : ParamMeta;
  val : Z;
  free_val : bool;
}.

(** Addresses are integers, NULL is 0; [params] holds the [params_cnt] valid
    elements of the array; an ops table is named by a number. *)
Record ThreadContext := mkContext {
  prototype : option FuncPrototype;
  real_impl : Z;
  ret_val : Z;
  ret_errno : Z;
  params : list FuncParam;
  arch_spec_ctx : Z;
  ret_addr : Z;
  lane_ops : option nat;
  dispatch_depth : Z;
}.

Definition zero_context : ThreadContext := mkContext None 0 0 0 [] 0 0 None 0.

Definition params_cnt (t : ThreadContext) : nat := length (params t).

Definition set_prototype (p : option FuncPrototype) (t : ThreadContext) : ThreadContext :=
  mkContext p (real_impl t) (ret_val t) (ret_errno t) (params t) (arch_spec_ctx t)
    (ret_addr t) (lane_ops t) (dispatch_depth t).
Definition set_ret_val (v : Z) (t : ThreadContext) : ThreadContext :=
  mkContext (prototype t) (real_impl t) v (ret_errno t) (params t) (arch_spec_ctx t)
    (ret_addr t) (lane_ops t) (dispatch_depth t).
Definition set_ret_errno (e : Z) (t : ThreadContext) : ThreadContext :=
  mkContext (prototype t) (real_impl t) (ret_val t) e (params t) (arch_spec_ctx t)
    (ret_addr t) (lane_ops t) (dispatch_depth t).
Definition set_params (l : list FuncParam) (t : ThreadContext) : ThreadContext :=
  mkContext (prototype t) (real_impl t) (ret_val t) (ret_errno t) l (arch_spec_ctx t)
    (ret_addr t) (lane_ops t) (dispatch_depth t).
Definition set_lane_ops (o : option nat) (t : ThreadContext) : ThreadContext :=
  mkContext (prototype t) (real_impl t) (ret_val t) (ret_errno t) (params t) (arch_spec_ctx t)
    (ret_addr t) o (dispatch_depth t).
Definition set_depth (d : Z) (t : ThreadContext) : ThreadContext :=
  mkContext (prototype t) (real_impl t) (ret_val t) (ret_errno t) (params t) (arch_spec_ctx t)
    (ret_addr t) (lane_ops t) d.

(** [retrace_thread_context_clear]: what it frees, and the zeroed context. *)
Definition retrace_thread_context_clear (t : ThreadContext) : list Z * ThreadContext :=
  (val <$> filter (λ p, free_val p = true) (params t), zero_context).

(** ** The reentrance guard *)

Definition RETRANCE_GUARD_PERMANENT : Z := 1.

Definition retrace_reentrance_guard_active (t : ThreadContext) : bool :=
  negb (real_impl t =? 0)%Z.

Definition retrace_reentrance_guard_enter (t : ThreadContext) (real ctx : Z) : ThreadContext :=
  mkContext (prototype t) real (ret_val t) (ret_errno t) (params t) ctx
    (ret_addr t) (lane_ops t) (dispatch_depth t).

Definition retrace_reentrance_guard_enter_permanent (t : ThreadContext) (ctx : Z) : ThreadContext :=
  retrace_reentrance_guard_enter t RETRANCE_GUARD_PERMANENT ctx.

(** ** Parameters by name *)

(** [retrace_action_find_param]. *)
Definition retrace_action_find_param (t : ThreadContext) (name : bytes) : option nat :=
  fst <$> list_find (λ p, pm_name (param_meta p) = name) (params t).

(** A parameter that holds a pointer to a C string. *)
Definition is_sz_param (p : FuncParam) : bool :=
  has_mod (pm_modifiers (param_meta p)) CDM_POINTER && negb (val p =? 0)%Z &&
  streq (pm_ref_type_name (param_meta p)) (lit "sz").

(** ** Lemmas *)

Lemma find_param_Some t name i :
  retrace_action_find_param t name = Some i →
  ∃ p, params t !! i = Some p ∧ pm_name (param_meta p) = name ∧
       ∀ j q, j < i → params t !! j = Some q → pm_name (param_meta q) ≠ name.
Proof.
  unfold retrace_action_find_param. destruct (list_find _ _) as [[j p]|] eqn:E; [|done].
  intros [= <-]. apply list_find_Some in E as (? & ? & Hn). exists p. split_and!; [done..|].
  intros k q Hk Hq. by apply (Hn k).
Qed.

Lemma find_param_None t name :
  retrace_action_find_param t name = None ↔
  Forall (λ p, pm_name (param_meta p) ≠ name) (params t).
Proof.
  unfold retrace_action_find_param. rewrite fmap_None. apply list_find_None.
Qed.

End Context.
