(* ===== verification/Json.v ===== *)
(** * JSON values and their accessors

    The values the configuration is made of and the accessors of
    [src/config/json/parson.c] the engine reads them through. A pointer that
    may be NULL is an option; an accessor of a missing or differently typed
    value gives NULL, 0 or -1 as the code does. *)

From S2P Require Import Prelude.

Module Json.

(** A finite [double]: [d_man * 2 ^ d_exp]. *)
Record double := mkDouble { d_man : Z; d_exp : Z }.

Definition d_zero : double := mkDouble 0 0.
Definition d_int (z : Z) : double := mkDouble z 0.

(** The test of a double against 0.0. *)
Definition d_is_zero (d : double) : bool := (d_man d =? 0)%Z.

(** The conversion of a double to an integer type: the fraction is
    discarded. *)
Definition d_trunc (d : double) : Z :=
  if (0 <=? d_exp d)%Z then (d_man d * 2 ^ d_exp d)%Z else Z.quot (d_man d) (2 ^ (- d_exp d)).

(** The conversion of an integer to [double], to the nearest and to even. *)
Definition d_of_int (z : Z) : double :=
  let a := Z.abs z in
  if (a <=? 2 ^ 53)%Z then d_int z
  else
    let s := (Z.log2 a - 52)%Z in
    let q := (a / 2 ^ s)%Z in
    let r := (a mod 2 ^ s)%Z in
    let half := (2 ^ (s - 1))%Z in
    let q := if ((half <? r) || ((half =? r) && Z.odd q))%Z then (q + 1)%Z else q in
    mkDouble (Z.sgn z * q) s.

(** A sum and a product, to the nearest and to even; overflow to infinity and
    underflow are not modelled. *)
Definition d_scale (e : Z) (d : double) : double := mkDouble (d_man d) (d_exp d + e).

Definition d_add (a b : double) : double :=
  let e := Z.min (d_exp a) (d_exp b) in
  d_scale e (d_of_int (d_man a * 2 ^ (d_exp a - e) + d_man b * 2 ^ (d_exp b - e))).

Definition d_mul (a b : double) : double := d_scale (d_exp a + d_exp b) (d_of_int (d_man a * d_man b)).

Definition d_leb (a b : double) : bool :=
  let e := Z.min (d_exp a) (d_exp b) in
  (d_man a * 2 ^ (d_exp a - e) <=? d_man b * 2 ^ (d_exp b - e))%Z.

Inductive JSON_Value :=
  | JSONNull
  | JSONString (s : bytes)
  | JSONNumber (d : double)
  | JSONObject (o : list (bytes * JSON_Value))
  | JSONArray (a : list JSON_Value)
  | JSONBoolean (b : bool).

Abbreviation JSON_Object := (list (bytes * JSON_Value)).
Abbreviation JSON_Array := (list JSON_Value).

(** ** Values *)

Definition json_value_get_object (v : option JSON_Value) : option JSON_Object :=
  match v with Some (JSONObject o) => Some o | _ => None end.
Definition json_value_get_array (v : option JSON_Value) : option JSON_Array :=
  match v with Some (JSONArray a) => Some a | _ => None end.
Definition json_value_get_string (v : option JSON_Value) : option bytes :=
  match v with Some (JSONString s) => Some s | _ => None end.
Definition json_value_get_number (v : option JSON_Value) : double :=
  match v with Some (JSONNumber d) => d | _ => d_zero end.
Definition json_value_get_boolean (v : option JSON_Value) : Z :=
  match v with Some (JSONBoolean b) => if b then 1 else 0 | _ => -1 end%Z.

(** ** Objects *)

(** [json_object_nget_value] on a whole name: the first member of the name. *)
Fixpoint json_object_nget_value (o : JSON_Object) (name : bytes) : option JSON_Value :=
  match o with
  | [] => None
  | (n, v) :: o => if streq n name then Some v else json_object_nget_value o name
  end.

Definition json_object_get_value (o : option JSON_Object) (name : string) : option JSON_Value :=
  match o with None => None | Some o => json_object_nget_value o (lit name) end.

Definition json_object_get_string (o : option JSON_Object) (name : string) : option bytes :=
  json_value_get_string (json_object_get_value o name).
Definition json_object_get_number (o : option JSON_Object) (name : string) : double :=
  json_value_get_number (json_object_get_value o name).
Definition json_object_get_object (o : option JSON_Object) (name : string) : option JSON_Object :=
  json_value_get_object (json_object_get_value o name).
Definition json_object_get_array (o : option JSON_Object) (name : string) : option JSON_Array :=
  json_value_get_array (json_object_get_value o name).
Definition json_object_get_boolean (o : option JSON_Object) (name : string) : Z :=
  json_value_get_boolean (json_object_get_value o name).

(** ** Arrays *)

Definition json_array_get_count (a : option JSON_Array) : nat :=
  match a with None => 0 | Some a => length a end.
Definition json_array_get_value (a : option JSON_Array) (i : nat) : option JSON_Value :=
  match a with None => None | Some a => a !! i end.
Definition json_array_get_string (a : option JSON_Array) (i : nat) : option bytes :=
  json_value_get_string (json_array_get_value a i).
Definition json_array_get_object (a : option JSON_Array) (i : nat) : option JSON_Object :=
  json_value_get_object (json_array_get_value a i).

End Json.
