(* ===== verification/JsonText.v ===== *)
(** * JSON text: the reader and the writer of the configuration and the traces

    [src/config/json/parson.c]: the recursive-descent parser with its string
    decoding, number syntax, nesting limit and allocation budget, the removal
    of comments, and the serialiser, compact and pretty.

    A parser is a function of the text that is left and of the bytes allocated
    so far. It returns a value with the text that follows it, or NULL; the
    third outcome marks a loop that ran out of fuel, and the totality theorem
    shows that it never occurs. Recursion through [parse_value] is structural
    in the number of nesting levels that are left, [MAX_NESTING + 1 - nesting]
    of the code.

    The conversion of a decimal text to a double and the text of a double
    under ["%1.17g"] belong to the C library: they are the operations of the
    class [DoubleText]. The syntax [strtod] accepts is modelled here. *)

From S2P Require Import Prelude Libc Json.

Module JsonText.

Import Libc Json.

(** ** strtod *)

Inductive strtod_value := Finite (d : double) | NonFinite | Erange.

Class DoubleText := {
  dec_value : bytes → strtod_value;
  fmt_g17 : double → bytes;
}.

Definition scan_sign (s : bytes) : bytes :=
  if ceq (deref s) "-" || ceq (deref s) "+" then drop 1 s else s.

(** The length of the digits of a class with an optional point, if there is a
    digit at all. *)
Definition scan_mantissa (f : ascii → bool) (s : bytes) : option nat :=
  let n1 := span f s in
  let r := drop n1 s in
  let point := ceq (deref r) "." in
  let n2 := if point then span f (drop 1 r) else 0 in
  if n1 + n2 =? 0 then None else Some (n1 + (if point then 1 + n2 else 0)).

(** The length of an exponent, 0 where there is none. *)
Definition scan_exponent (lo up : ascii) (s : bytes) : nat :=
  if ceq (deref s) lo || ceq (deref s) up then
    let r := scan_sign (drop 1 s) in
    let n := span isdigit r in
    if n =? 0 then 0 else length s - length r + n
  else 0.

Definition scan_decimal (s : bytes) : option nat :=
  match scan_mantissa isdigit s with
  | None => None
  | Some n => Some (n + scan_exponent "e" "E" (drop n s))
  end.

Definition scan_hex (s : bytes) : option nat :=
  if ceq (deref s) "0" && (ceq (char_at s 1) "x" || ceq (char_at s 1) "X") then
    match scan_mantissa isxdigit (drop 2 s) with
    | None => None
    | Some n => Some (2 + n + scan_exponent "p" "P" (drop (2 + n) s))
    end
  else None.

(** [strtod] on a text that starts with a sign or a digit: the value and the
    end pointer. Without a conversion the value is 0 and the end pointer is
    the start. *)
Definition strtod `{DoubleText} (s : bytes) : strtod_value * bytes :=
  let r := scan_sign s in
  let low := map tolower r in
  if has_prefix (lit "inf") low || has_prefix (lit "nan") low then (NonFinite, drop 3 r)
  else
    match (match scan_hex r with Some n => Some n | None => scan_decimal r end) with
    | None => (Finite d_zero, s)
    | Some n =>
        let len := length s - length r + n in
        (dec_value (take len s), drop len s)
    end.

(** ** The parser monad *)

Inductive presult (A : Type) :=
  | POk (a : A) (rest : bytes) (total : Z)
  | PNull
  | PFuel.
#[global] Arguments POk {A}.
#[global] Arguments PNull {A}.
#[global] Arguments PFuel {A}.

Definition parser (A : Type) : Type := bytes → Z → presult A.

#[global] Instance parser_ret : MRet parser := λ A a s t, POk a s t.
#[global] Instance parser_bind : MBind parser := λ A B f p s t,
  match p s t with
  | POk a s' t' => f a s' t'
  | PNull => PNull
  | PFuel => PFuel
  end.

Definition null {A} : parser A := λ s t, PNull.
Definition out_of_fuel {A} : parser A := λ s t, PFuel.
Definition text : parser bytes := λ s t, POk s s t.
Definition seek (s' : bytes) : parser () := λ s t, POk () s' t.

(** [**string], [SKIP_CHAR] and [SKIP_WHITESPACES]. *)
Definition peek : parser ascii := λ s t, POk (deref s) s t.
Definition SKIP_CHAR : parser () := λ s t, POk () (drop 1 s) t.
Definition SKIP_WHITESPACES : parser () := λ s t, POk () (skip isspace s) t.

Definition STARTING_CAPACITY : Z := 16.
Definition MAX_NESTING : nat := 2048.
Definition PARSON_ALLOC_BUDGET_MULTIPLIER : Z := 1000.

(** Sizes on a 64-bit target. *)
Definition sizeof_pointer : Z := 8.
Definition sizeof_JSON_Value : Z := 24.
Definition sizeof_JSON_Object : Z := 40.
Definition sizeof_JSON_Array : Z := 32.

(** ** Characters and UTF-16 escapes *)

Definition hex_char_to_int (c : ascii) : Z :=
  if in_range 48 57 c then uchar c - 48
  else if in_range 97 102 c then uchar c - 97 + 10
  else if in_range 65 70 c then uchar c - 65 + 10
  else -1.

Definition parse_utf16_hex (s : bytes) : option Z :=
  if ceq (char_at s 0) NUL || ceq (char_at s 1) NUL || ceq (char_at s 2) NUL
     || ceq (char_at s 3) NUL then None
  else
    let x1 := hex_char_to_int (char_at s 0) in
    let x2 := hex_char_to_int (char_at s 1) in
    let x3 := hex_char_to_int (char_at s 2) in
    let x4 := hex_char_to_int (char_at s 3) in
    if ((x1 =? -1) || (x2 =? -1) || (x3 =? -1) || (x4 =? -1))%Z then None
    else Some (Z.lor (Z.shiftl x1 12) (Z.lor (Z.shiftl x2 8) (Z.lor (Z.shiftl x3 4) x4))).

Definition byte (z : Z) : ascii := ascii_of_N (Z.to_N z).
Definition cont_byte (z : Z) : ascii := byte (Z.lor (Z.land z 63) 128).

(** [parse_utf16] at the [u] of an escape: the bytes it writes and the pointer
    it leaves, on the last digit of the escape. *)
Definition parse_utf16 (unprocessed : bytes) : option (bytes * bytes) :=
  let p := drop 1 unprocessed in
  match parse_utf16_hex p with
  | None => None
  | Some cp =>
      if (cp <? 128)%Z then Some ([byte cp], drop 3 p)
      else if (cp <? 2048)%Z then
        Some ([byte (Z.lor (Z.land (Z.shiftr cp 6) 31) 192); cont_byte cp], drop 3 p)
      else if ((cp <? 55296) || (57343 <? cp))%Z then
        Some ([byte (Z.lor (Z.land (Z.shiftr cp 12) 15) 224); cont_byte (Z.shiftr cp 6);
               cont_byte cp], drop 3 p)
      else if ((55296 <=? cp) && (cp <=? 56319))%Z then
        let p := drop 4 p in
        if negb (ceq (deref p) "\") || negb (ceq (char_at p 1) "u") then None
        else
          let p := drop 2 p in
          match parse_utf16_hex p with
          | None => None
          | Some trail =>
              if ((trail <? 56320) || (57343 <? trail))%Z then None
              else
                let cp := (Z.lor (Z.shiftl (Z.land (cp - 55296) 1023) 10)
                                 (Z.land (trail - 56320) 1023) + 65536)%Z in
                Some ([byte (Z.lor (Z.land (Z.shiftr cp 18) 7) 240);
                       cont_byte (Z.shiftr cp 12); cont_byte (Z.shiftr cp 6);
                       cont_byte cp], drop 3 p)
          end
      else None
  end.

(** The escapes of one character of [process_string]. *)
Definition simple_escape (c : ascii) : option ascii :=
  if ceq c "034" then Some "034"%char
  else if ceq c "\" then Some "\"%char
  else if ceq c "/" then Some "/"%char
  else if ceq c "b" then Some "008"%char
  else if ceq c "f" then Some "012"%char
  else if ceq c "n" then Some "010"%char
  else if ceq c "r" then Some "013"%char
  else if ceq c "t" then Some "009"%char
  else None.

(** The copy loop of [process_string]: [p] is [input_ptr], [left] is
    [len - (input_ptr - input)], [out] is what lies before [output_ptr]. *)
Fixpoint process_loop (fuel : nat) (p : bytes) (left : nat) (out : bytes)
    : option (option bytes) :=
  match fuel with
  | 0 => None
  | S fuel =>
      if ceq (deref p) NUL || (left =? 0) then Some (Some out)
      else if ceq (deref p) "\" then
        match simple_escape (char_at p 1) with
        | Some c => process_loop fuel (drop 2 p) (left - 2) (out ++ [c])
        | None =>
            if ceq (char_at p 1) "u" then
              match parse_utf16 (drop 1 p) with
              | None => Some None
              | Some (bs, q) =>
                  let p' := drop 1 q in
                  process_loop fuel p' (left - (length p - length p')) (out ++ bs)
              end
            else Some None
        end
      else if (uchar (deref p) <? 32)%Z then Some None
      else process_loop fuel (drop 1 p) (left - 1) (out ++ [deref p])
  end.

(** [skip_quotes] after the opening quote: the text behind the closing one. *)
Fixpoint skip_quotes_loop (s : bytes) : option bytes :=
  match s with
  | [] => None
  | c :: s' =>
      if ceq c "034" then Some s'
      else if ceq c "\" then
        match s' with
        | [] => None
        | _ :: s'' => skip_quotes_loop s''
        end
      else skip_quotes_loop s'
  end.

Definition skip_quotes (s : bytes) : option bytes :=
  if negb (ceq (deref s) "034") then None else skip_quotes_loop (drop 1 s).

(** ** Numbers *)

Definition is_decimal (s : bytes) (length : nat) : bool :=
  if (1 <? length) && ceq (char_at s 0) "0" && negb (ceq (char_at s 1) ".") then false
  else if (2 <? length) && has_prefix (lit "-0") s && negb (ceq (char_at s 2) ".") then false
  else forallb (λ c, negb (ceq c "x" || ceq c "X")) (take length s).

Section parser.
Context {DT : DoubleText}.

(** [parson_alloc_budget]: 0 where no budget is set. *)
Variable budget : Z.

(** [parson_budgeted_malloc]; without a budget it is [malloc]. *)
Definition parson_malloc (sz : Z) : parser () := λ s t,
  if ((0 <? budget) && (budget <? t + sz))%Z then PNull else POk () s (t + sz).

Definition parson_strdup (str : bytes) : parser bytes :=
  _ ← parson_malloc (Z.of_nat (length str) + 1); mret str.

Definition json_value_init (v : JSON_Value) : parser JSON_Value :=
  _ ← parson_malloc sizeof_JSON_Value; mret v.

Definition json_value_init_number (v : strtod_value) : parser JSON_Value :=
  match v with
  | Finite d => json_value_init (JSONNumber d)
  | NonFinite | Erange => null
  end.

Definition process_string (input : bytes) (len : nat) : parser bytes :=
  _ ← parson_malloc (Z.of_nat len + 1);
  match process_loop (S (length input)) input len [] with
  | None => out_of_fuel
  | Some None => null
  | Some (Some out) =>
      _ ← parson_malloc (Z.of_nat (length out) + 1);
      mret (cstr out)
  end.

Definition get_quoted_string : parser bytes :=
  s ← text;
  match skip_quotes s with
  | None => null
  | Some s' =>
      _ ← seek s';
      process_string (drop 1 s) (length s - length s' - 2)
  end.

(** ** Objects and arrays under construction: members or items, and the
    capacity *)

Definition json_object_resize (new_capacity : Z) : parser () :=
  if (new_capacity =? 0)%Z then null
  else
    _ ← parson_malloc (new_capacity * sizeof_pointer);
    parson_malloc (new_capacity * sizeof_pointer).

Definition json_object_add (o : JSON_Object) (capacity : Z) (name : bytes) (v : JSON_Value)
    : parser (JSON_Object * Z) :=
  match json_object_nget_value o name with
  | Some _ => null
  | None =>
      capacity ← (if (capacity <=? Z.of_nat (length o))%Z then
                    let new_capacity := Z.max (capacity * 2) STARTING_CAPACITY in
                    _ ← json_object_resize new_capacity; mret new_capacity
                  else mret capacity);
      name ← parson_strdup name;
      mret (o ++ [(name, v)], capacity)
  end.

Definition json_array_resize (new_capacity : Z) : parser () :=
  if (new_capacity =? 0)%Z then null
  else parson_malloc (new_capacity * sizeof_pointer).

Definition json_array_add (a : JSON_Array) (capacity : Z) (v : JSON_Value)
    : parser (JSON_Array * Z) :=
  capacity ← (if (capacity <=? Z.of_nat (length a))%Z then
                let new_capacity := Z.max (capacity * 2) STARTING_CAPACITY in
                _ ← json_array_resize new_capacity; mret new_capacity
              else mret capacity);
  mret (a ++ [v], capacity).

(** ** Values *)

Definition json_value_init_object : parser JSON_Object :=
  _ ← parson_malloc sizeof_JSON_Value;
  _ ← parson_malloc sizeof_JSON_Object;
  mret [].

Definition json_value_init_array : parser JSON_Array :=
  _ ← parson_malloc sizeof_JSON_Value;
  _ ← parson_malloc sizeof_JSON_Array;
  mret [].

Definition parse_string_value : parser JSON_Value :=
  new_string ← get_quoted_string;
  json_value_init (JSONString new_string).

Definition parse_boolean_value : parser JSON_Value :=
  s ← text;
  if has_prefix (lit "true") s then
    _ ← seek (drop 4 s); json_value_init (JSONBoolean true)
  else if has_prefix (lit "false") s then
    _ ← seek (drop 5 s); json_value_init (JSONBoolean false)
  else null.

Definition parse_null_value : parser JSON_Value :=
  s ← text;
  if has_prefix (lit "null") s then _ ← seek (drop 4 s); json_value_init JSONNull
  else null.

Definition parse_number_value : parser JSON_Value :=
  s ← text;
  match strtod s with
  | (Erange, _) => null
  | (number, e) =>
      if negb (is_decimal s (length s - length e)) then null
      else _ ← seek e; json_value_init_number number
  end.

(** The member loop and the item loop; [pv] is [parse_value] at the nesting of
    the members. *)
Fixpoint object_loop (pv : parser JSON_Value) (fuel : nat) (o : JSON_Object) (capacity : Z)
    : parser JSON_Object :=
  match fuel with
  | 0 => out_of_fuel
  | S fuel =>
      c ← peek;
      if ceq c NUL then mret o
      else
        new_key ← get_quoted_string;
        _ ← SKIP_WHITESPACES;
        c ← peek;
        if negb (ceq c ":") then null
        else
          _ ← SKIP_CHAR;
          new_value ← pv;
          oc ← json_object_add o capacity new_key new_value;
          _ ← SKIP_WHITESPACES;
          c ← peek;
          if negb (ceq c ",") then mret (fst oc)
          else
            _ ← SKIP_CHAR;
            _ ← SKIP_WHITESPACES;
            object_loop pv fuel (fst oc) (snd oc)
  end.

Fixpoint array_loop (pv : parser JSON_Value) (fuel : nat) (a : JSON_Array) (capacity : Z)
    : parser JSON_Array :=
  match fuel with
  | 0 => out_of_fuel
  | S fuel =>
      c ← peek;
      if ceq c NUL then mret a
      else
        new_array_value ← pv;
        ac ← json_array_add a capacity new_array_value;
        _ ← SKIP_WHITESPACES;
        c ← peek;
        if negb (ceq c ",") then mret (fst ac)
        else
          _ ← SKIP_CHAR;
          _ ← SKIP_WHITESPACES;
          array_loop pv fuel (fst ac) (snd ac)
  end.

Definition parse_object_value (pv : parser JSON_Value) : parser JSON_Value :=
  o ← json_value_init_object;
  c ← peek;
  if negb (ceq c "{") then null
  else
    _ ← SKIP_CHAR;
    _ ← SKIP_WHITESPACES;
    c ← peek;
    if ceq c "}" then _ ← SKIP_CHAR; mret (JSONObject o)
    else
      s ← text;
      o ← object_loop pv (S (length s)) o 0;
      _ ← SKIP_WHITESPACES;
      c ← peek;
      if negb (ceq c "}") then null
      else
        _ ← json_object_resize (Z.of_nat (length o));
        _ ← SKIP_CHAR;
        mret (JSONObject o).

Definition parse_array_value (pv : parser JSON_Value) : parser JSON_Value :=
  a ← json_value_init_array;
  c ← peek;
  if negb (ceq c "[") then null
  else
    _ ← SKIP_CHAR;
    _ ← SKIP_WHITESPACES;
    c ← peek;
    if ceq c "]" then _ ← SKIP_CHAR; mret (JSONArray a)
    else
      s ← text;
      a ← array_loop pv (S (length s)) a 0;
      _ ← SKIP_WHITESPACES;
      c ← peek;
      if negb (ceq c "]") then null
      else
        _ ← json_array_resize (Z.of_nat (length a));
        _ ← SKIP_CHAR;
        mret (JSONArray a).

(** [parse_value] with [levels] = [MAX_NESTING + 1 - nesting] levels left: the
    test [nesting > MAX_NESTING] succeeds where none is. *)
Fixpoint parse_value (levels : nat) : parser JSON_Value :=
  match levels with
  | 0 => null
  | S levels =>
      _ ← SKIP_WHITESPACES;
      c ← peek;
      if ceq c "{" then parse_object_value (parse_value levels)
      else if ceq c "[" then parse_array_value (parse_value levels)
      else if ceq c "034" then parse_string_value
      else if ceq c "f" || ceq c "t" then parse_boolean_value
      else if ceq c "-" || isdigit c then parse_number_value
      else if ceq c "n" then parse_null_value
      else null
  end.

(** What a caller sees of a run: the value or NULL. *)
Definition value_of (r : presult JSON_Value) : option JSON_Value :=
  match r with POk v _ _ => Some v | _ => None end.

End parser.

(** ** Comments and the entry points *)

Definition blanks (n : nat) : bytes := repeat " "%char n.

(** The loop of [remove_comments]: what the text from [s] on becomes. *)
Fixpoint remove_loop (fuel : nat) (start_token end_token : bytes) (in_string escaped : bool)
    (s : bytes) : option bytes :=
  match fuel with
  | 0 => None
  | S fuel =>
      match s with
      | [] => Some []
      | c :: s' =>
          if ceq c "\" && negb escaped then
            cons c <$> remove_loop fuel start_token end_token in_string true s'
          else if ceq c "034" && negb escaped then
            cons c <$> remove_loop fuel start_token end_token (negb in_string) false s'
          else if negb in_string && has_prefix start_token s then
            let r := drop (length start_token) s in
            match strstr r end_token with
            | None => Some (blanks (length start_token) ++ r)
            | Some ptr =>
                let n := length r - length ptr + length end_token in
                app (blanks (length start_token) ++ blanks n) <$>
                  remove_loop fuel start_token end_token in_string false (drop n r)
            end
          else cons c <$> remove_loop fuel start_token end_token in_string false s'
      end
  end.

Definition remove_comments (s start_token end_token : bytes) : option bytes :=
  if (length start_token =? 0) || (length end_token =? 0) then Some s
  else remove_loop (S (length s)) start_token end_token false false s.

(** The two passes over the mutable copy. *)
Definition strip_comments (s : bytes) : option bytes :=
  match remove_comments s (lit "/*") (lit "*/") with
  | None => None
  | Some s => remove_comments s (lit "//") ["010"%char]
  end.

Section entry.
Context {DT : DoubleText}.

Definition json_parse_string (s : bytes) : option JSON_Value :=
  let s := if ceq (char_at s 0) "239" && ceq (char_at s 1) "187" && ceq (char_at s 2) "191"
           then drop 3 s else s in
  value_of (parse_value 0%Z (S MAX_NESTING) s 0%Z).

Definition json_parse_string_with_comments (s : bytes) : option JSON_Value :=
  let budget := (Z.of_nat (length s) * PARSON_ALLOC_BUDGET_MULTIPLIER)%Z in
  match parson_strdup budget s s 0%Z with
  | POk copy _ total =>
      match strip_comments copy with
      | None => None
      | Some copy => value_of (parse_value budget (S MAX_NESTING) copy total)
      end
  | _ => None
  end.

End entry.

(** ** The serialiser *)

Definition escape_char (c : ascii) : bytes :=
  if ceq c "034" then ["\"%char; "034"%char]
  else if ceq c "\" then lit "\\"
  else if ceq c "/" then lit "\/"
  else if ceq c "008" then lit "\b"
  else if ceq c "012" then lit "\f"
  else if ceq c "010" then lit "\n"
  else if ceq c "013" then lit "\r"
  else if ceq c "009" then lit "\t"
  else if (uchar c <? 32)%Z then
    lit "\u00" ++ [if (uchar c <? 16)%Z then "0"%char else "1"%char;
                   let d := (uchar c mod 16)%Z in
                   byte (if (d <? 10)%Z then 48 + d else 97 + (d - 10))]
  else [c].

Definition json_serialize_string (s : bytes) : bytes :=
  ["034"%char] ++ concat (map escape_char s) ++ ["034"%char].

Definition append_indent (level : nat) : bytes := concat (repeat (lit "    ") level).

Section serialize.
Context {DT : DoubleText}.

Definition newline (is_pretty : bool) : bytes := if is_pretty then ["010"%char] else [].
Definition indent (is_pretty : bool) (level : nat) : bytes :=
  if is_pretty then append_indent level else [].
Definition comma (i count : nat) : bytes := if i <? count - 1 then lit "," else [].

(** The loop over the items of an array of [count] items, from index [i]. *)
Definition serialize_items (ser : JSON_Value → option bytes) (is_pretty : bool) (level count : nat)
    : JSON_Array → nat → option bytes :=
  fix go a i :=
    match a with
    | [] => Some []
    | v :: a =>
        text ← ser v;
        rest ← go a (S i);
        Some (indent is_pretty (level + 1) ++ text ++ comma i count ++ newline is_pretty ++ rest)
    end.

(** [f] of [json_object_get_value (object, key)], [d] where it is NULL. *)
Definition with_value {A} (f : JSON_Value → A) (d : A) (key : bytes) : JSON_Object → A :=
  fix go o :=
    match o with
    | [] => d
    | (n, v) :: o => if streq n key then f v else go o
    end.

(** The loop over the names of an object, which looks every value up by its
    name in the whole object. *)
Definition serialize_members (get : bytes → option bytes) (is_pretty : bool) (level count : nat)
    : JSON_Object → nat → option bytes :=
  fix go o i :=
    match o with
    | [] => Some []
    | (key, _) :: o =>
        text ← get key;
        rest ← go o (S i);
        Some (indent is_pretty (level + 1) ++ json_serialize_string key ++ lit ":"
              ++ (if is_pretty then lit " " else []) ++ text ++ comma i count
              ++ newline is_pretty ++ rest)
    end.

(** [json_serialize_to_buffer_r]: the text it writes, whose length is its
    result, or [None] for -1. *)
Fixpoint json_serialize_to_buffer_r (is_pretty : bool) (v : JSON_Value) (level : nat)
    : option bytes :=
  match v with
  | JSONArray a =>
      let count := length a in
      body ← serialize_items (λ v, json_serialize_to_buffer_r is_pretty v (level + 1))
               is_pretty level count a 0;
      Some (lit "[" ++ (if 0 <? count then newline is_pretty else []) ++ body
            ++ (if 0 <? count then indent is_pretty level else []) ++ lit "]")
  | JSONObject o =>
      let count := length o in
      body ← serialize_members
               (λ key, with_value (λ v, json_serialize_to_buffer_r is_pretty v (level + 1))
                         None key o)
               is_pretty level count o 0;
      Some (lit "{" ++ (if 0 <? count then newline is_pretty else []) ++ body
            ++ (if 0 <? count then indent is_pretty level else []) ++ lit "}")
  | JSONString s => Some (json_serialize_string s)
  | JSONBoolean b => Some (if b then lit "true" else lit "false")
  | JSONNumber d => Some (fmt_g17 d)
  | JSONNull => Some (lit "null")
  end.

(** [json_serialization_size]: 0 for a value that cannot be written, else the
    size of the text with its terminator. *)
Definition json_serialization_size (is_pretty : bool) (v : JSON_Value) : Z :=
  match json_serialize_to_buffer_r is_pretty v 0 with
  | None => 0
  | Some text => Z.of_nat (length text) + 1
  end.

(** [json_serialize_to_buffer] for a buffer of the size given: what it holds
    afterwards, without the terminator, or failure. *)
Definition json_serialize_to_buffer (is_pretty : bool) (v : JSON_Value) (buf_size : Z)
    : option bytes :=
  let needed := json_serialization_size is_pretty v in
  if ((needed =? 0) || (buf_size <? needed))%Z then None
  else json_serialize_to_buffer_r is_pretty v 0.

Definition json_serialize_to_string (is_pretty : bool) (v : JSON_Value) : option bytes :=
  let size := json_serialization_size is_pretty v in
  if (size =? 0)%Z then None else json_serialize_to_buffer is_pretty v size.

End serialize.

End JsonText.
