(* ===== verification/JsonBudget.v ===== *)
(** * The parser terminates, and its allocation budget never rejects an input

    [json_parse_string_with_comments] makes every allocation fail once the
    sum of the allocated sizes passes 1000 bytes per byte of input. The
    parser with a budget follows the parser without one until an allocation
    is refused; and the parser without one allocates at most
    [400 * consumed + 24] bytes. The growth of the arrays is accounted for by
    a potential, [16 * (2 * count - capacity)]. *)

From S2P Require Import Prelude Libc Json JsonText.

Module JsonBudget.

Import Libc Json JsonText.

(** [p] under the budget [B] follows [q] until [q] has allocated more. *)
Definition follows {A} (B : Z) (p q : parser A) : Prop :=
  ∀ s t, match q s t with
         | POk a r t' => (t ≤ t')%Z ∧ (p s t = POk a r t' ∨ (p s t = PNull ∧ (B < t')%Z))
         | PNull => p s t = PNull
         | PFuel => True
         end.

Lemma follows_bind {A B'} B (p q : parser A) (f g : A → parser B') :
  follows B p q → (∀ a, follows B (f a) (g a)) → follows B (p ≫= f) (q ≫= g).
Proof.
  intros Hp Hf s t. unfold mbind, parser_bind. specialize (Hp s t).
  destruct (q s t) as [a r t1| |]; [|by rewrite Hp|done].
  destruct Hp as [Ht [-> | [-> HB]]]; specialize (Hf a r t1);
    destruct (g a r t1) as [b r' t2| |]; try done.
  - destruct Hf as [? Hf]. split; [lia|]. done.
  - destruct Hf as [? Hf]. split; [lia|]. right; split; [done | lia].
Qed.

(** A parser that allocates nothing, or returns nothing. *)
Definition pure_parser {A} (p : parser A) : Prop :=
  ∀ s t, match p s t with POk _ _ t' => t' = t | _ => True end.

Lemma follows_pure {A} B (p : parser A) : pure_parser p → follows B p p.
Proof.
  intros H s t. specialize (H s t). destruct (p s t) as [a r t'| |]; [|done..].
  subst. split; [lia | by left].
Qed.

Lemma follows_malloc B n :
  (0 < B)%Z → (0 ≤ n)%Z → follows B (parson_malloc B n) (parson_malloc 0 n).
Proof.
  intros HB Hn s t. unfold parson_malloc at 1. cbn. split; [lia|].
  unfold parson_malloc. rewrite (proj2 (Z.ltb_lt 0 B)) by done. cbn.
  destruct (B <? t + n)%Z eqn:E; [right; split; [done|lia] | by left].
Qed.

Lemma pure_ret {A} (a : A) : pure_parser (mret a).
Proof. done. Qed.
Lemma pure_null {A} : pure_parser (@null A).
Proof. done. Qed.
Lemma pure_fuel {A} : pure_parser (@out_of_fuel A).
Proof. done. Qed.
Lemma pure_text : pure_parser text.
Proof. done. Qed.
Lemma pure_seek s : pure_parser (seek s).
Proof. done. Qed.
Lemma pure_peek : pure_parser peek.
Proof. done. Qed.
Lemma pure_skip_char : pure_parser SKIP_CHAR.
Proof. done. Qed.
Lemma pure_skip_ws : pure_parser SKIP_WHITESPACES.
Proof. done. Qed.

#[local] Hint Resolve follows_pure follows_malloc pure_ret pure_null pure_fuel pure_text
  pure_seek pure_peek pure_skip_char pure_skip_ws : core.

(** Walks a parser: binds, then tests, then the leaves. *)
Ltac follow :=
  repeat lazymatch goal with
  | |- follows _ (mbind _ _) _ => apply follows_bind; [|intros ?]
  | |- follows _ (match ?x with _ => _ end) _ => destruct x
  | |- follows _ (parson_malloc _ _) _ => apply follows_malloc; [assumption | lia]
  | |- follows _ _ _ => solve [eauto 3]
  end.

Section follows.
Context {DT : DoubleText} (B : Z) (HB : (0 < B)%Z).

Lemma follows_strdup s : follows B (parson_strdup B s) (parson_strdup 0 s).
Proof. unfold parson_strdup. follow. Qed.

Lemma follows_value v : follows B (json_value_init B v) (json_value_init 0 v).
Proof. unfold json_value_init, sizeof_JSON_Value. follow. Qed.

Lemma follows_number v : follows B (json_value_init_number B v) (json_value_init_number 0 v).
Proof. unfold json_value_init_number. pose proof follows_value. follow. Qed.

Lemma follows_quoted : follows B (get_quoted_string B) (get_quoted_string 0).
Proof. unfold get_quoted_string, process_string. follow. Qed.

Lemma follows_object_resize n :
  (0 ≤ n)%Z → follows B (json_object_resize B n) (json_object_resize 0 n).
Proof. intros. unfold json_object_resize, sizeof_pointer. follow. Qed.

Lemma follows_array_resize n :
  (0 ≤ n)%Z → follows B (json_array_resize B n) (json_array_resize 0 n).
Proof. intros. unfold json_array_resize, sizeof_pointer. follow. Qed.

Lemma follows_object_add o cap n v :
  follows B (json_object_add B o cap n v) (json_object_add 0 o cap n v).
Proof.
  unfold json_object_add, STARTING_CAPACITY. pose proof follows_strdup.
  case_match; [eauto|]. follow. apply follows_object_resize. lia.
Qed.

Lemma follows_array_add a cap v :
  follows B (json_array_add B a cap v) (json_array_add 0 a cap v).
Proof.
  unfold json_array_add, STARTING_CAPACITY. follow. apply follows_array_resize. lia.
Qed.

#[local] Hint Resolve follows_strdup follows_value follows_number follows_quoted
  follows_object_add follows_array_add : core.

Lemma follows_object_loop pv pv0 fuel o cap :
  follows B pv pv0 → follows B (object_loop B pv fuel o cap) (object_loop 0 pv0 fuel o cap).
Proof.
  intros Hpv. revert o cap. induction fuel as [|fuel IH]; intros o cap; cbn [object_loop]; follow.
Qed.

Lemma follows_array_loop pv pv0 fuel a cap :
  follows B pv pv0 → follows B (array_loop B pv fuel a cap) (array_loop 0 pv0 fuel a cap).
Proof.
  intros Hpv. revert a cap. induction fuel as [|fuel IH]; intros a cap; cbn [array_loop]; follow.
Qed.

#[local] Hint Resolve follows_object_loop follows_array_loop : core.

Lemma follows_parse levels : follows B (parse_value B levels) (parse_value 0 levels).
Proof.
  induction levels as [|levels IH]; cbn [parse_value]; [eauto|].
  follow; unfold parse_object_value, parse_array_value, parse_string_value, parse_boolean_value,
    parse_number_value, parse_null_value, json_value_init_object, json_value_init_array,
    sizeof_JSON_Value, sizeof_JSON_Object, sizeof_JSON_Array; follow;
    try (apply follows_object_resize; lia); apply follows_array_resize; lia.
Qed.

End follows.

(** ** Strings: the decoded text fits the buffer *)

Lemma hex_char_plain c : hex_char_to_int c ≠ (-1)%Z → c ≠ "034"%char ∧ c ≠ "\"%char.
Proof. intros H. split; intros ->; by apply H. Qed.

Lemma skip_quotes_plain c s :
  c ≠ "034"%char → c ≠ "\"%char → skip_quotes_loop (c :: s) = skip_quotes_loop s.
Proof.
  intros H1 H2. cbn. by rewrite (proj2 (ceq_false _ _) H1), (proj2 (ceq_false _ _) H2).
Qed.

Lemma utf16_hex_inv s cp :
  parse_utf16_hex s = Some cp →
  ∃ a b c d r, s = a :: b :: c :: d :: r ∧ skip_quotes_loop s = skip_quotes_loop r.
Proof.
  unfold parse_utf16_hex. case_if; [done|].
  destruct s as [|a [|b [|c [|d r]]]]; try done.
  unfold char_at. cbn [lookup list_lookup default from_option id]. case_if; [done|]. intros _.
  repeat match goal with H : (_ =? _)%Z = false |- _ => apply Z.eqb_neq, hex_char_plain in H as [? ?] end.
  exists a, b, c, d, r. split; [done|]. by rewrite !skip_quotes_plain.
Qed.

Lemma skip_quotes_shrinks s r : skip_quotes_loop s = Some r → length r < length s.
Proof.
  remember (length s) as n eqn:Hn. revert s Hn. induction (lt_wf n) as [n _ IH]; intros s ->.
  destruct s as [|c s]; cbn; [done|]. repeat case_if; [intros [= <-]; lia|..].
  - destruct s as [|d s]; [done|]. intros H%(IH (length s)); cbn; [lia|cbn; lia|done].
  - intros H%(IH (length s)); cbn; [lia|cbn; lia|done].
Qed.

(** A decoded escape is no longer than its text and stays inside the quotes. *)
Lemma parse_utf16_inside p bs q :
  parse_utf16 p = Some (bs, q) →
  length bs + length (drop 1 q) ≤ length p ∧ length (drop 1 q) < length p ∧
  skip_quotes_loop (drop 1 p) = skip_quotes_loop (drop 1 q).
Proof.
  unfold parse_utf16. destruct (parse_utf16_hex (drop 1 p)) as [cp|] eqn:E; [|done].
  apply utf16_hex_inv in E as (a & b & c & d & r & Ep & Es).
  assert (length p = 5 + length r) as Hl.
  { destruct p as [|u p]; [done|]. change (drop 1 (u :: p)) with p in Ep. by rewrite Ep. }
  rewrite Es, Ep. cbn [drop]. rewrite ?drop_0.
  repeat case_if; try done; try (intros [= <- <-]; cbn; rewrite ?drop_0; split_and!; [lia..|done]).
  destruct (parse_utf16_hex _) as [trail|] eqn:E2; [|done].
  apply utf16_hex_inv in E2 as (a' & b' & c' & d' & r' & Er & Es').
  destruct r as [|x [|y r]]; try done. unfold deref, char_at in *. cbn in *. rewrite ?drop_0 in *.
  subst. case_if; [done|]. intros [= <- <-]. cbn. rewrite drop_0. cbn in *.
  split_and!; [lia..|exact Es'].
Qed.

(** The loop of [process_string] ends, and between the quotes that
    [skip_quotes] found it writes no more bytes than it reads. *)
Lemma process_loop_fits fuel p left out rest :
  length p < fuel → skip_quotes_loop p = Some rest → left = length p - length rest - 1 →
  ∃ r, process_loop fuel p left out = Some r ∧
       match r with Some o => length o ≤ length out + left | None => True end.
Proof.
  revert p left out. induction fuel as [|fuel IH]; intros p left out Hf Hq ->; [lia|].
  pose proof (skip_quotes_shrinks _ _ Hq) as Hs.
  cbn [process_loop]. case_if; [exists (Some out); split; [done|cbn; lia]|].
  destruct p as [|c p]; [done|]. cbn [deref head default from_option id] in *.
  (* every remaining case recurs on a later pointer inside the quotes *)
  assert (∀ p' o, length p' < fuel → length p' ≤ S (length p) → skip_quotes_loop p' = Some rest →
      length o + length p' ≤ length out + S (length p) →
      ∃ r, process_loop fuel p' (S (length p) - length rest - 1 - (S (length p) - length p')) o = Some r ∧
           match r with
           | Some o => length o ≤ length out + (S (length p) - length rest - 1)
           | None => True
           end) as Rec.
  { intros p' o Hf' Hl' Hq' Hb. pose proof (skip_quotes_shrinks _ _ Hq').
    destruct (IH p' (length p' - length rest - 1) o Hf' Hq' eq_refl) as (r & Hr & Ho).
    cbn in Hs. exists r.
    replace (S (length p) - length rest - 1 - (S (length p) - length p'))
      with (length p' - length rest - 1) by lia.
    split; [done|]. destruct r; [lia|done]. }
  destruct (ceq c "034") eqn:Eq.
  { bool_to_prop; subst. cbn in Hq. injection Hq as <-. cbn [length] in *.
    match goal with H : (_ =? _) = false |- _ => apply Nat.eqb_neq in H end. lia. }
  cbn [skip_quotes_loop length] in *. rewrite Eq in Hq.
  destruct (ceq c "\") eqn:Eb.
  - destruct p as [|x p]; [done|]. change (char_at (c :: x :: p) 1) with x. cbn [drop length] in *.
    destruct (simple_escape x) as [e|].
    { destruct (Rec p (out ++ [e])) as (r & Hr & Ho); [lia|lia|done|rewrite length_app; cbn; lia|].
      exists r. split; [|done]. rewrite <- Hr. f_equal. lia. }
    destruct (ceq x "u"); [|by eexists]. destruct (parse_utf16 _) as [[bs q]|] eqn:E; [|by eexists].
    apply parse_utf16_inside in E as (H1 & H2 & H3). cbn [drop length] in *.
    apply Rec; [lia|lia|by rewrite <- H3|rewrite length_app; lia].
  - case_if; [by eexists|]. cbn [drop].
    destruct (Rec p (out ++ [c])) as (r & Hr & Ho); [lia|lia|done|rewrite length_app; cbn; lia|].
    exists r. split; [|done]. rewrite <- Hr. f_equal. lia.
Qed.

(** ** What an unbudgeted run allocates *)

(** A run returns, with [Q] of its result if it is not NULL. *)
Definition returns {A} (p : parser A) (s : bytes) (t : Z) (Q : A → bytes → Z → Prop) : Prop :=
  match p s t with POk a r t' => Q a r t' | PNull => True | PFuel => False end.

Lemma returns_bind {A B} (p : parser A) (f : A → parser B) s t Q :
  returns p s t (λ a r t', returns (f a) r t' Q) → returns (p ≫= f) s t Q.
Proof. unfold returns, mbind, parser_bind. by destruct (p s t). Qed.

Lemma returns_mono {A} (p : parser A) s t (Q Q' : A → bytes → Z → Prop) :
  returns p s t Q → (∀ a r t', Q a r t' → Q' a r t') → returns p s t Q'.
Proof. unfold returns. destruct (p s t); naive_solver. Qed.

Lemma returns_malloc n s t (Q : () → bytes → Z → Prop) :
  Q () s (t + n)%Z → returns (parson_malloc 0 n) s t Q.
Proof. done. Qed.

Definition len (s : bytes) : Z := Z.of_nat (length s).

(** Runs the primitives of the parser. *)
Ltac step :=
  lazymatch goal with
  | |- returns (mbind _ _) _ _ _ => apply returns_bind
  | |- returns (parson_malloc _ _) _ _ _ => apply returns_malloc
  | |- returns null _ _ _ => exact I
  | |- returns (mret _) _ _ _ => red; cbn [mret parser_ret]
  | |- returns text _ _ _ => red; cbn [text]
  | |- returns (seek _) _ _ _ => red; cbn [seek]
  | |- returns peek _ _ _ => red; cbn [peek]
  | |- returns SKIP_CHAR _ _ _ => red; cbn [SKIP_CHAR]
  | |- returns SKIP_WHITESPACES _ _ _ => red; cbn [SKIP_WHITESPACES]
  end.

Section cost.
Context {DT : DoubleText}.

(** The bound of a value: 400 bytes for each byte read and 24 more. *)
Definition cheap {A} (p : parser A) : Prop :=
  ∀ s t, returns p s t (λ _ r t',
    (length r ≤ length s)%nat ∧ (t' ≤ t + 400 * (len s - len r) + sizeof_JSON_Value)%Z).

Lemma quoted_cost s t :
  returns (get_quoted_string 0) s t (λ str r t',
    (length r + 2 ≤ length s)%nat ∧ (Z.of_nat (length str) + 2 ≤ len s - len r)%Z ∧
    (t' ≤ t + 2 * (len s - len r))%Z).
Proof.
  unfold get_quoted_string. do 2 step. unfold skip_quotes. case_if; [step|].
  destruct (skip_quotes_loop (drop 1 s)) as [r|] eqn:E; [|step]. do 2 step.
  pose proof (skip_quotes_shrinks _ _ E) as Hs. rewrite length_drop in Hs.
  unfold process_string. do 2 step.
  destruct (process_loop_fits (S (length (drop 1 s))) (drop 1 s) (length s - length r - 2) [] r)
    as (o & -> & Ho); [lia|done|rewrite length_drop; lia|].
  destruct o as [o|]; [|step]. do 3 step. cbn in Ho.
  pose proof (cstr_length o). unfold len. lia.
Qed.

Lemma scan_sign_length s : length (scan_sign s) ≤ length s.
Proof. unfold scan_sign. case_if; [rewrite length_drop|]; lia. Qed.

Lemma strtod_shrinks s v e : strtod s = (v, e) → length e ≤ length s.
Proof.
  unfold strtod. pose proof (scan_sign_length s).
  case_if; [intros [= _ <-]; rewrite length_drop; lia|].
  case_match; intros [= _ <-]; [rewrite length_drop|]; lia.
Qed.

Lemma number_cost : cheap (parse_number_value 0).
Proof.
  intros s t. unfold parse_number_value. do 2 step.
  destruct (strtod s) as [v e] eqn:E. apply strtod_shrinks in E.
  destruct v; try step; (case_if; [step|do 2 step]).
  - unfold json_value_init_number, json_value_init. do 3 step. unfold len. lia.
  - exact I.
Qed.

Lemma token_cost v n s t :
  n ≤ length s →
  returns (seek (drop n s) ≫= λ _, json_value_init 0 v) s t (λ _ r t',
    (length r ≤ length s)%nat ∧ (t' ≤ t + 400 * (len s - len r) + sizeof_JSON_Value)%Z).
Proof.
  intros H. unfold json_value_init. do 5 step. unfold len. rewrite length_drop. lia.
Qed.

Lemma boolean_cost : cheap (parse_boolean_value 0).
Proof.
  intros s t. unfold parse_boolean_value. do 2 step.
  destruct (has_prefix (lit "true") s) eqn:E.
  { apply token_cost. apply has_prefix_spec in E as [r ->]. rewrite length_app. cbn; lia. }
  destruct (has_prefix (lit "false") s) eqn:E'; [|step].
  apply token_cost. apply has_prefix_spec in E' as [r ->]. rewrite length_app. cbn; lia.
Qed.

Lemma null_cost : cheap (parse_null_value 0).
Proof.
  intros s t. unfold parse_null_value. do 2 step.
  destruct (has_prefix (lit "null") s) eqn:E; [|step].
  apply token_cost. apply has_prefix_spec in E as [r ->]. rewrite length_app. cbn; lia.
Qed.

Lemma string_cost : cheap (parse_string_value 0).
Proof.
  intros s t. unfold parse_string_value. step.
  eapply returns_mono; [apply quoted_cost|]. intros str r t' (? & ? & ?).
  unfold json_value_init. do 3 step. unfold len in *. lia.
Qed.

(** The capacities a growing array goes through. *)
Definition grown (n : nat) (capacity : Z) : Prop :=
  (n = 0 ∧ capacity = 0%Z) ∨
  (n ≠ 0 ∧ (16 ≤ capacity)%Z ∧ (Z.of_nat n ≤ capacity)%Z ∧
   (capacity = 16 ∨ capacity ≤ 2 * Z.of_nat n - 2)%Z).

Definition potential (n : nat) (capacity : Z) : Z := (16 * (2 * Z.of_nat n - capacity))%Z.

Lemma array_add_cost a cap v s t :
  grown (length a) cap →
  returns (json_array_add 0 a cap v) s t (λ ac r t',
    r = s ∧ length (fst ac) = S (length a) ∧ grown (length (fst ac)) (snd ac) ∧
    (t' + potential (length (fst ac)) (snd ac) ≤ t + potential (length a) cap + 32)%Z).
Proof.
  intros Hg. unfold json_array_add, STARTING_CAPACITY, json_array_resize, sizeof_pointer. step.
  destruct (cap <=? Z.of_nat (length a))%Z eqn:E; cbv zeta; [|do 2 step].
  - step. destruct (_ =? 0)%Z eqn:E0; [step|]. do 3 step. cbn [fst snd]. rewrite length_app.
    cbn [length]. unfold grown, potential in *. split_and!; [done|lia..].
  - cbn [fst snd]. rewrite length_app. cbn [length]. unfold grown, potential in *.
    split_and!; [done|lia..].
Qed.

(** The names and the values of an object grow together. *)
Lemma object_add_cost o cap n v s t :
  grown (length o) cap →
  returns (json_object_add 0 o cap n v) s t (λ oc r t',
    r = s ∧ length (fst oc) = S (length o) ∧ grown (length (fst oc)) (snd oc) ∧
    (t' + 2 * potential (length (fst oc)) (snd oc)
       ≤ t + 2 * potential (length o) cap + 64 + Z.of_nat (length n) + 1)%Z).
Proof.
  intros Hg. unfold json_object_add, parson_strdup, STARTING_CAPACITY, json_object_resize,
    sizeof_pointer.
  destruct (json_object_nget_value o n); [step|]. step.
  destruct (cap <=? Z.of_nat (length o))%Z eqn:E; cbv zeta; [|repeat step].
  - step. destruct (_ =? 0)%Z eqn:E0; [step|]. repeat step. cbn [fst snd]. rewrite length_app.
    cbn [length]. unfold grown, potential in *. split_and!; [done|lia..].
  - cbn [fst snd]. rewrite length_app. cbn [length]. unfold grown, potential in *.
    split_and!; [done|lia..].
Qed.

Lemma skip_ws_len s : length (skip isspace s) ≤ length s.
Proof. apply skip_length. Qed.

(** The loops return with fuel for the text, and a comma pays for every
    element but the last. *)
Lemma array_loop_cost pv fuel a cap s t :
  cheap pv → length s < fuel → grown (length a) cap →
  returns (array_loop 0 pv fuel a cap) s t (λ a' r t',
    (length r ≤ length s)%nat ∧ (length a ≤ length a')%nat ∧
    (t' + 16 * (Z.of_nat (length a') - Z.of_nat (length a))
       ≤ t + 400 * (len s - len r) + 296 + potential (length a) cap)%Z).
Proof.
  intros Hpv. revert a cap s t. induction fuel as [|fuel IH]; intros a cap s t Hf Hg; [lia|].
  cbn [array_loop]. do 2 step. case_if.
  { step. unfold grown, potential in *. split_and!; [lia..|]. lia. }
  step. eapply returns_mono; [apply Hpv|]. intros v r t1 [Hr Ht1].
  step. eapply returns_mono; [by apply array_add_cost|]. intros [a' cap'] r' t2 (-> & Ha & Hg' & Ht2).
  cbn [fst snd] in *. do 4 step. pose proof (skip_ws_len r) as Hw.
  unfold sizeof_JSON_Value, len in *.
  destruct (ceq (deref (skip isspace r)) ",") eqn:Ec; cbn [negb].
  - bool_to_prop. destruct (skip isspace r) as [|c r1] eqn:Er; [done|]. do 4 step. cbn [drop].
    pose proof (skip_ws_len r1). cbn in Hw. rewrite ?drop_0.
    eapply returns_mono; [apply IH; [lia|done]|]. intros a'' r2 t3 (? & ? & ?).
    unfold len in *. split_and!; [lia..|]. lia.
  - step. unfold grown, potential in *. split_and!; lia.
Qed.

Lemma object_loop_cost pv fuel o cap s t :
  cheap pv → length s < fuel → grown (length o) cap →
  returns (object_loop 0 pv fuel o cap) s t (λ o' r t',
    (length r ≤ length s)%nat ∧ (length o ≤ length o')%nat ∧
    (t' + 16 * (Z.of_nat (length o') - Z.of_nat (length o))
       ≤ t + 400 * (len s - len r) + 600 + 2 * potential (length o) cap)%Z).
Proof.
  intros Hpv. revert o cap s t. induction fuel as [|fuel IH]; intros o cap s t Hf Hg; [lia|].
  cbn [object_loop]. do 2 step. case_if.
  { step. unfold grown, potential in *. split_and!; [lia..|]. lia. }
  step. eapply returns_mono; [apply quoted_cost|]. intros key r0 t0 (Hr0 & Hk & Ht0).
  do 4 step. pose proof (skip_ws_len r0) as Hw0. case_if; [step|]. do 3 step.
  eapply returns_mono; [apply Hpv|]. intros v r t1 [Hr Ht1].
  step. eapply returns_mono; [by apply object_add_cost|]. intros [o' cap'] r' t2 (-> & Ha & Hg' & Ht2).
  rewrite length_drop in Hr. cbn [fst snd] in *. do 4 step. pose proof (skip_ws_len r) as Hw.
  unfold sizeof_JSON_Value, len in *. rewrite length_drop in *.
  destruct (ceq (deref (skip isspace r)) ",") eqn:Ec; cbn [negb].
  - bool_to_prop. destruct (skip isspace r) as [|c r1] eqn:Er; [done|]. do 4 step. cbn [drop].
    pose proof (skip_ws_len r1). cbn in Hw. rewrite ?drop_0.
    eapply returns_mono; [apply IH; [lia|done]|]. intros o'' r2 t3 (? & ? & ?).
    unfold len in *. split_and!; [lia..|]. lia.
  - step. unfold grown, potential in *. split_and!; lia.
Qed.

Lemma object_cost pv : cheap pv → cheap (parse_object_value 0 pv).
Proof.
  intros Hpv s t. unfold parse_object_value, json_value_init_object, sizeof_JSON_Value,
    sizeof_JSON_Object. repeat step. case_if; [step|]. bool_to_prop.
  destruct s as [|c s]; [done|]. repeat step. change (drop 1 (c :: s)) with s.
  pose proof (skip_ws_len s) as Hw. unfold len in *. cbn [length] in *.
  case_if; repeat step.
  { rewrite length_drop. split; [lia|]. destruct (skip isspace s) eqn:Es; [done|]. cbn in *. lia. }
  eapply returns_mono; [apply object_loop_cost; [done|lia|by left]|].
  intros o r t1 (Hr & Ho & Ht1). repeat step. pose proof (skip_ws_len r) as Hw1.
  case_if; [step|]. bool_to_prop. unfold json_object_resize, sizeof_pointer. step.
  destruct (Z.of_nat (length o) =? 0)%Z eqn:E0; [step|]. repeat step.
  destruct (skip isspace r) as [|c' r'] eqn:Er; [done|]. change (drop 1 (c' :: r')) with r'.
  unfold len, potential, sizeof_JSON_Value in *. cbn [length] in *. lia.
Qed.

Lemma array_cost pv : cheap pv → cheap (parse_array_value 0 pv).
Proof.
  intros Hpv s t. unfold parse_array_value, json_value_init_array, sizeof_JSON_Value,
    sizeof_JSON_Array. repeat step. case_if; [step|]. bool_to_prop.
  destruct s as [|c s]; [done|]. repeat step. change (drop 1 (c :: s)) with s.
  pose proof (skip_ws_len s) as Hw. unfold len in *. cbn [length] in *.
  case_if; repeat step.
  { rewrite length_drop. split; [lia|]. destruct (skip isspace s) eqn:Es; [done|]. cbn in *. lia. }
  eapply returns_mono; [apply array_loop_cost; [done|lia|by left]|].
  intros a r t1 (Hr & Ho & Ht1). repeat step. pose proof (skip_ws_len r) as Hw1.
  case_if; [step|]. bool_to_prop. unfold json_array_resize, sizeof_pointer. step.
  destruct (Z.of_nat (length a) =? 0)%Z eqn:E0; [step|]. repeat step.
  destruct (skip isspace r) as [|c' r'] eqn:Er; [done|]. change (drop 1 (c' :: r')) with r'.
  unfold len, potential, sizeof_JSON_Value in *. cbn [length] in *. lia.
Qed.

Lemma cheap_skip {A} (p : parser A) s t Q :
  cheap p → (∀ a r t', (length r ≤ length (skip isspace s))%nat →
    (t' ≤ t + 400 * (len (skip isspace s) - len r) + sizeof_JSON_Value)%Z → Q a r t') →
  returns p (skip isspace s) t Q.
Proof. intros Hp HQ. eapply returns_mono; [apply Hp|]. intros a r t' [? ?]. by apply HQ. Qed.

Lemma parse_cheap levels : cheap (parse_value 0 levels).
Proof.
  induction levels as [|levels IH]; intros s t; cbn [parse_value]; [step|].
  repeat step. pose proof (skip_ws_len s) as Hw.
  repeat (case_if; [apply cheap_skip;
    [eauto using object_cost, array_cost, string_cost, boolean_cost, number_cost, null_cost
    |unfold len in *; intros; lia]|]).
  step.
Qed.

(** Without a budget the result does not depend on what was allocated
    before. *)
Definition uniform {A} (p : parser A) : Prop :=
  ∀ s t k, p s (t + k)%Z = match p s t with
                           | POk a r t' => POk a r (t' + k)%Z
                           | PNull => PNull
                           | PFuel => PFuel
                           end.

Lemma uniform_bind {A B} (p : parser A) (f : A → parser B) :
  uniform p → (∀ a, uniform (f a)) → uniform (p ≫= f).
Proof.
  intros Hp Hf s t k. unfold mbind, parser_bind. rewrite Hp.
  destruct (p s t) as [a r t'| |]; [apply Hf|done..].
Qed.

Lemma uniform_malloc n : uniform (parson_malloc 0 n).
Proof. intros s t k. unfold parson_malloc. cbn. f_equal. lia. Qed.

Ltac uniform_walk :=
  repeat lazymatch goal with
  | |- uniform (mbind _ _) => apply uniform_bind; [|intros ?]
  | |- uniform (match ?x with _ => _ end) => destruct x
  | |- uniform (parson_malloc _ _) => apply uniform_malloc
  | |- uniform _ => first [by intros ??? | solve [eauto 3]]
  end.

Lemma uniform_quoted : uniform (get_quoted_string 0).
Proof. unfold get_quoted_string, process_string. uniform_walk. Qed.

Lemma uniform_object_add o cap n v : uniform (json_object_add 0 o cap n v).
Proof. unfold json_object_add, parson_strdup, json_object_resize. cbv zeta. uniform_walk. Qed.

Lemma uniform_array_add a cap v : uniform (json_array_add 0 a cap v).
Proof. unfold json_array_add, json_array_resize. cbv zeta. uniform_walk. Qed.

#[local] Hint Resolve uniform_quoted uniform_object_add uniform_array_add : core.

Lemma uniform_object_loop pv fuel o cap : uniform pv → uniform (object_loop 0 pv fuel o cap).
Proof.
  intros Hpv. revert o cap. induction fuel; intros o cap; cbn [object_loop]; uniform_walk.
Qed.

Lemma uniform_array_loop pv fuel a cap : uniform pv → uniform (array_loop 0 pv fuel a cap).
Proof.
  intros Hpv. revert a cap. induction fuel; intros a cap; cbn [array_loop]; uniform_walk.
Qed.

#[local] Hint Resolve uniform_object_loop uniform_array_loop : core.

Lemma uniform_parse levels : uniform (parse_value 0 levels).
Proof.
  induction levels as [|levels IH]; cbn [parse_value]; uniform_walk;
    unfold parse_object_value, parse_array_value, parse_string_value, parse_boolean_value,
      parse_number_value, parse_null_value, json_value_init_object, json_value_init_array,
      json_value_init, json_object_resize, json_array_resize; uniform_walk;
    unfold json_value_init_number, json_value_init; uniform_walk.
Qed.

(** ** Comments *)

Lemma remove_loop_total fuel st en ins esc s :
  length st ≠ 0 → length en ≠ 0 → length s < fuel →
  ∃ s', remove_loop fuel st en ins esc s = Some s' ∧ length s' = length s.
Proof.
  intros Hst Hen. revert ins esc s. induction fuel as [|fuel IH]; intros ins esc s Hf; [lia|].
  cbn [remove_loop]. destruct s as [|c s]; [by eexists|]. cbn [length] in Hf.
  assert (∀ ins esc, ∃ s', cons c <$> remove_loop fuel st en ins esc s = Some s' ∧
                           length s' = length (c :: s)) as Rec.
  { intros i e. destruct (IH i e s) as (s' & -> & Hs'); [lia|].
    eexists; split; [done|]. cbn. by rewrite Hs'. }
  repeat (case_if; [by apply Rec|]). case_if; [|by apply Rec].
  match goal with H : has_prefix _ _ = true |- _ => apply has_prefix_spec in H as [r Hr] end.
  rewrite Hr, drop_app_length, length_app.
  assert (length (c :: s) = length st + length r) as Hl by (by rewrite Hr, length_app).
  cbn [length] in Hl.
  destruct (strstr r en) as [ptr|] eqn:E.
  - apply strstr_suffix in E as [[q ->] [e ->]%has_prefix_spec].
    rewrite !length_app in *.
    set (n := length q + (length en + length e) - (length en + length e) + length en).
    destruct (IH ins false (drop n (q ++ en ++ e))) as (s' & -> & Hs').
    { rewrite length_drop, !length_app. lia. }
    eexists; split; [done|]. rewrite !length_app, Hs', length_drop, !length_app.
    unfold blanks. rewrite !repeat_length. subst n. lia.
  - eexists; split; [done|]. unfold blanks. by rewrite length_app, repeat_length.
Qed.

Lemma remove_comments_total s st en :
  ∃ s', remove_comments s st en = Some s' ∧ length s' = length s.
Proof.
  unfold remove_comments. destruct (length st =? 0) eqn:E1; [by eexists|].
  destruct (length en =? 0) eqn:E2; [by eexists|]. cbn [orb].
  apply Nat.eqb_neq in E1, E2. apply remove_loop_total; lia.
Qed.

Lemma strip_comments_total s : ∃ s', strip_comments s = Some s' ∧ length s' = length s.
Proof.
  unfold strip_comments.
  destruct (remove_comments_total s (lit "/*") (lit "*/")) as (s1 & -> & H1).
  destruct (remove_comments_total s1 (lit "//") ["010"%char]) as (s2 & -> & H2).
  exists s2. split; [done|lia].
Qed.

(** A run returns, whatever the budget. *)
Lemma parse_returns B levels s t : (0 ≤ B)%Z → parse_value B levels s t ≠ PFuel.
Proof.
  intros HB. pose proof (parse_cheap levels s t) as H0. red in H0.
  destruct (Z.eq_dec B 0%Z) as [->|Hne]; [by intros E; rewrite E in H0|].
  pose proof (follows_parse B ltac:(lia) levels s t) as Hf.
  destruct (parse_value 0%Z levels s t) as [a r t'| |]; [|by rewrite Hf|done].
  by destruct Hf as [_ [-> | [-> _]]].
Qed.

(** The reader of configurations: the parser without a budget on the text
    without its comments. *)
Definition parse_stripped (s : bytes) : option JSON_Value :=
  match strip_comments s with
  | None => None
  | Some copy => value_of (parse_value 0 (S MAX_NESTING) copy 0%Z)
  end.

(** Every run of the parser ends, under any budget and at any nesting: it
    returns a value or NULL, and both passes over the comments return a text
    of the same length, as they work in place. *)
Theorem json_parse_returns B levels s t :
  (0 ≤ B)%Z →
  parse_value B levels s t ≠ PFuel ∧ ∃ s', strip_comments s = Some s' ∧ length s' = length s.
Proof. intros HB. split; [by apply parse_returns | apply strip_comments_total]. Qed.

Lemma json_budget_equiv s : json_parse_string_with_comments s = parse_stripped s.
Proof.
  unfold json_parse_string_with_comments, parse_stripped, PARSON_ALLOC_BUDGET_MULTIPLIER.
  destruct (strip_comments_total s) as (c & Hc & Hl).
  set (B := (Z.of_nat (length s) * 1000)%Z). set (n := (Z.of_nat (length s) + 1)%Z).
  assert (parson_strdup B s s 0%Z = POk s s (0 + n)%Z) as ->.
  { unfold parson_strdup, parson_malloc, mbind, parser_bind.
    fold n. destruct ((0 <? B) && (B <? 0 + n))%Z eqn:E; [lia|done]. }
  rewrite Hc. pose proof (parse_cheap (S MAX_NESTING) c 0%Z) as Hcost. red in Hcost.
  pose proof (uniform_parse (S MAX_NESTING) c 0%Z n) as Hu.
  destruct (Z.eq_dec B 0%Z) as [HB|HB].
  { rewrite HB, Hu. by destruct (parse_value _ _ _ _). }
  pose proof (follows_parse B ltac:(lia) (S MAX_NESTING) c (0 + n)%Z) as Hf. rewrite Hu in Hf.
  destruct (parse_value 0%Z (S MAX_NESTING) c 0%Z) as [v r t'| |]; [|by rewrite Hf|done].
  destruct Hf as [_ [-> | [_ Hbad]]]; [done|].
  unfold len, sizeof_JSON_Value in Hcost. lia.
Qed.

(** C38 (bounds). The allocation budget of 1000 bytes per byte of input never rejects
    anything: the parser that reads configurations gives for every text the
    result the parser without a budget gives. *)
Theorem json_budget_never_rejects s : json_parse_string_with_comments s = parse_stripped s.
Proof. apply json_budget_equiv. Qed.

End cost.

End JsonBudget.
