(* ===== verification/JsonRoundTrip.v ===== *)
(** * What the serialiser writes, the parser reads back

    For a value whose objects have distinct names, whose strings hold no
    terminator and whose numbers survive their decimal text, both serialisers
    of [parson.c] succeed and the parser gives the value back, or NULL when
    the value is nested deeper than [MAX_NESTING]; and the text contains
    nothing that the removal of comments would touch. *)

From S2P Require Import Prelude Numerals Libc Json JsonText JsonBudget.

Module JsonRoundTrip.

Import Libc Json JsonText JsonBudget.

(** The texts ["%1.17g"] prints for a finite number: a sign, an integer part
    without superfluous zeros, a fraction and an exponent, where 0 has no
    exponent. *)
Definition digits_only (s : bytes) : Prop := Forall (λ c, isdigit c = true) s.

Record g_text (t : bytes) : Prop := mkGText {
  g_sign : bytes;
  g_first : ascii;
  g_int : bytes;
  g_frac : bytes;
  g_exp : bytes;
  g_eq : t = g_sign ++ g_first :: g_int ++ g_frac ++ g_exp;
  g_sign_ok : g_sign = [] ∨ g_sign = lit "-";
  g_int_ok : digits_only (g_first :: g_int);
  g_zero : g_first = "0"%char → g_int = [] ∧ g_exp = [];
  g_frac_ok : g_frac = [] ∨ ∃ ds, g_frac = "."%char :: ds ∧ digits_only ds;
  g_exp_ok : g_exp = [] ∨ ∃ c d ds, g_exp = "e"%char :: c :: d :: ds ∧
             (c = "+"%char ∨ c = "-"%char) ∧ digits_only (d :: ds);
}.

Section wf.
Context {DT : DoubleText}.

(** The C library's guarantee for a number in the normal range of [double]: 17
    significant digits identify it. *)
Definition number_ok (d : double) : Prop :=
  g_text (fmt_g17 d) ∧ dec_value (fmt_g17 d) = Finite d.

(** The values the serialiser can write and the parser can build. *)
Fixpoint json_ok (v : JSON_Value) : Prop :=
  match v with
  | JSONNull | JSONBoolean _ => True
  | JSONString s => no_nul s
  | JSONNumber d => number_ok d
  | JSONArray a =>
      (fix all a := match a with [] => True | v :: a => json_ok v ∧ all a end) a
  | JSONObject o =>
      NoDup (map fst o) ∧
      (fix all o := match o with
                    | [] => True
                    | (n, v) :: o => (no_nul n ∧ json_ok v) ∧ all o
                    end) o
  end.

End wf.

(** The number of nested values. *)
Fixpoint json_depth (v : JSON_Value) : nat :=
  match v with
  | JSONArray a =>
      S ((fix go a := match a with [] => 0 | v :: a => Nat.max (json_depth v) (go a) end) a)
  | JSONObject o =>
      S ((fix go o := match o with [] => 0 | (_, v) :: o => Nat.max (json_depth v) (go o) end) o)
  | _ => 1
  end.

Definition items_depth (a : JSON_Array) : nat := foldr (λ v n, Nat.max (json_depth v) n) 0 a.
Definition members_depth (o : JSON_Object) : nat := items_depth (map snd o).

Lemma depth_array a : json_depth (JSONArray a) = S (items_depth a).
Proof. done. Qed.

Lemma depth_object o : json_depth (JSONObject o) = S (members_depth o).
Proof.
  cbn. f_equal. unfold members_depth. induction o as [|[n v] o IH]; [done|]. cbn. by rewrite IH.
Qed.

Lemma depth_pos v : 1 ≤ json_depth v.
Proof. destruct v; cbn; lia. Qed.

(** Induction over the values inside a value. *)
Lemma JSON_Value_nested_ind (P : JSON_Value → Prop) :
  P JSONNull → (∀ s, P (JSONString s)) → (∀ d, P (JSONNumber d)) →
  (∀ o, Forall P (map snd o) → P (JSONObject o)) → (∀ a, Forall P a → P (JSONArray a)) →
  (∀ b, P (JSONBoolean b)) → ∀ v, P v.
Proof.
  intros Hn Hs Hd Ho Ha Hb.
  fix IH 1. intros [|s|d|o|a|b]; [apply Hn|apply Hs|apply Hd| | |apply Hb].
  - apply Ho. induction o as [|[n v] o IHo]; cbn; constructor; [apply IH|apply IHo].
  - apply Ha. induction a as [|v a IHa]; constructor; [apply IH|apply IHa].
Qed.

Section ok.
Context {DT : DoubleText}.

Lemma ok_array a : json_ok (JSONArray a) ↔ Forall json_ok a.
Proof.
  cbn. induction a as [|v a IH]; [done|]. by rewrite IH, Forall_cons.
Qed.

Lemma ok_object o :
  json_ok (JSONObject o) ↔
  NoDup (map fst o) ∧ Forall no_nul (map fst o) ∧ Forall json_ok (map snd o).
Proof.
  cbn. apply and_iff_compat_l. induction o as [|[n v] o IH]; cbn; [done|].
  rewrite IH, !Forall_cons. tauto.
Qed.

End ok.

(** ** Strings *)

(** The text of a character is one of the forms [process_string] decodes to
    it. *)
Definition reads_as (text : bytes) (c : ascii) : bool :=
  match text with
  | [e] => ceq e c && negb (ceq c "034") && negb (ceq c "\") && negb (uchar c <? 32)%Z
  | [b; e] => ceq b "\" && bool_decide (simple_escape e = Some c)
  | [b; u; h1; h2; h3; h4] =>
      ceq b "\" && ceq u "u" && bool_decide (parse_utf16 [u; h1; h2; h3; h4] = Some ([c], [h4]))
      && ceq h1 "0" && ceq h2 "0" && bool_decide (simple_escape u = None)
      && bool_decide (hex_char_to_int h3 ≠ -1)%Z && bool_decide (hex_char_to_int h4 ≠ -1)%Z
  | _ => false
  end.

Definition reads_back (c : ascii) : bool := reads_as (escape_char c) c.

Lemma reads_back_all c : reads_back c = true.
Proof. by destruct c as [[] [] [] [] [] [] [] []]. Qed.

Lemma parse_utf16_app u h1 h2 h3 h4 c p :
  parse_utf16 [u; h1; h2; h3; h4] = Some ([c], [h4]) →
  parse_utf16 (u :: h1 :: h2 :: h3 :: h4 :: p) = Some ([c], h4 :: p).
Proof.
  unfold parse_utf16. change (parse_utf16_hex (drop 1 (u :: h1 :: h2 :: h3 :: h4 :: p)))
    with (parse_utf16_hex (drop 1 [u; h1; h2; h3; h4])).
  destruct (parse_utf16_hex _) as [cp|]; [|done].
  case_if; [by intros [= <-]|]. repeat (case_if; [done|]). repeat case_if; done.
Qed.

(** Reading the text of one character writes the character. *)
Lemma reads_as_step e c fuel p left out :
  reads_as e c = true → c ≠ NUL →
  process_loop (S fuel) (e ++ p) (length e + left) out = process_loop fuel p left (out ++ [c]).
Proof.
  intros Hr Hc. unfold reads_as in Hr.
  destruct e as [|b [|e [|h1 [|h2 [|h3 [|h4 [|]]]]]]]; try done; bool_to_prop; subst;
    cbn [process_loop app deref head default from_option id length Nat.add orb].
  - rewrite (proj2 (ceq_false _ _) Hc). cbn [orb Nat.eqb].
    match goal with H : c ≠ "\"%char |- _ => rewrite (proj2 (ceq_false _ _) H) end.
    match goal with H : (_ <? _)%Z = false |- _ => rewrite H end.
    change (drop 1 (c :: p)) with p. by replace (S left - 1) with left by lia.
  - change (ceq "\" NUL) with false. cbn [orb Nat.eqb]. change (ceq "\" "\") with true. cbv iota.
    change (char_at ("\"%char :: e :: p) 1) with e.
    match goal with H : simple_escape e = _ |- _ => rewrite H end. cbn [drop]. rewrite drop_0.
    by replace (S (S left) - 2) with left by lia.
  - change (ceq "\" NUL) with false. cbn [orb Nat.eqb]. change (ceq "\" "\") with true. cbv iota.
    change (char_at _ 1) with "u"%char. change (simple_escape "u") with (@None ascii).
    change (ceq "u" "u") with true. cbv iota. cbn [drop].
    erewrite parse_utf16_app by done. cbv zeta. cbn [drop length]. rewrite drop_0.
    f_equal. lia.
Qed.

Lemma reads_as_quotes e c p : reads_as e c = true → skip_quotes_loop (e ++ p) = skip_quotes_loop p.
Proof.
  intros Hr. unfold reads_as in Hr.
  destruct e as [|b [|e [|h1 [|h2 [|h3 [|h4 [|]]]]]]]; try done; bool_to_prop; subst;
    cbn [app].
  - by apply skip_quotes_plain.
  - done.
  - repeat match goal with
    | H : bool_decide (hex_char_to_int _ ≠ _) = true |- _ =>
        apply bool_decide_eq_true, hex_char_plain in H as [? ?]
    | H : hex_char_to_int _ ≠ _ |- _ => apply hex_char_plain in H as [? ?]
    end.
    change (skip_quotes_loop ("0"%char :: "0"%char :: h3 :: h4 :: p) = skip_quotes_loop p).
    by rewrite !skip_quotes_plain.
Qed.

Lemma escape_step c fuel p left out :
  c ≠ NUL →
  process_loop (S fuel) (escape_char c ++ p) (length (escape_char c) + left) out =
  process_loop fuel p left (out ++ [c]).
Proof. apply reads_as_step, reads_back_all. Qed.

Lemma escape_quotes c p : skip_quotes_loop (escape_char c ++ p) = skip_quotes_loop p.
Proof. apply (reads_as_quotes _ c), reads_back_all. Qed.

(** A string written character by character with [esc]. *)
Definition written (esc : ascii → bytes) (s : bytes) : bytes := concat (map esc s).

Definition writes (esc : ascii → bytes) (s : bytes) : Prop :=
  Forall (λ c, reads_as (esc c) c = true ∧ c ≠ NUL) s.

Definition escaped (s : bytes) : bytes := concat (map escape_char s).

Lemma escapes s : no_nul s → writes escape_char s.
Proof. intros Hs. eapply Forall_impl; [exact Hs|]. intros c Hc. by split; [apply reads_back_all|]. Qed.

Lemma written_quotes esc s rest :
  writes esc s → skip_quotes_loop (written esc s ++ "034"%char :: rest) = Some rest.
Proof.
  induction 1 as [|c s [Hc _] _ IH]; cbn [written map concat]; [done|].
  by rewrite <- app_assoc, (reads_as_quotes _ c).
Qed.

Lemma written_process esc s fuel rest out :
  writes esc s → length s < fuel →
  process_loop fuel (written esc s ++ "034"%char :: rest) (length (written esc s)) out = Some (Some (out ++ s)).
Proof.
  intros Hs. revert fuel out. induction Hs as [|c s [Hr Hc] _ IH]; intros fuel out Hf.
  { destruct fuel; [lia|]. cbn. by rewrite app_nil_r. }
  cbn [written map concat length] in *. fold (written esc s).
  destruct fuel as [|fuel]; [lia|].
  rewrite <- app_assoc, length_app, (reads_as_step _ c) by done.
  rewrite IH by (done || lia). by rewrite <- app_assoc.
Qed.

Lemma written_length esc s : writes esc s → length s ≤ length (written esc s).
Proof.
  induction 1 as [|c s [Hr _] _ IH]; cbn [written map concat length]; [done|].
  rewrite length_app. fold (written esc s). unfold reads_as in Hr. destruct (esc c); [done|cbn; lia].
Qed.

Lemma escaped_quotes s rest : no_nul s → skip_quotes_loop (escaped s ++ "034"%char :: rest) = Some rest.
Proof. intros Hs. by apply (written_quotes escape_char), escapes. Qed.

Lemma escaped_length s : no_nul s → length s ≤ length (escaped s).
Proof. intros Hs. by apply (written_length escape_char), escapes. Qed.

Definition quoted (esc : ascii → bytes) (s : bytes) : bytes := ["034"%char] ++ written esc s ++ ["034"%char].

(** A run of the unbudgeted parser gives this value and leaves this text. *)
Definition gives {A} (p : parser A) (s : bytes) (t : Z) (a : A) (r : bytes) : Prop :=
  ∃ t', p s t = POk a r t'.

Lemma gives_bind {A B} (p : parser A) (f : A → parser B) s t a r b r' :
  gives p s t a r → (∀ t', gives (f a) r t' b r') → gives (p ≫= f) s t b r'.
Proof.
  intros [t1 H1] H2. destruct (H2 t1) as [t2 H]. exists t2. unfold mbind, parser_bind. by rewrite H1.
Qed.

Lemma gives_ret {A} (a : A) s t : gives (mret a) s t a s.
Proof. by eexists. Qed.

Lemma gives_malloc n s t : gives (parson_malloc 0 n) s t () s.
Proof. by eexists. Qed.

(** The same for a run that may give NULL. *)
Definition runs {A} (p : parser A) (s : bytes) (t : Z) (o : option (A * bytes)) : Prop :=
  match o with Some (a, r) => gives p s t a r | None => p s t = PNull end.

Lemma runs_bind {A B} (p : parser A) (f : A → parser B) s t a r o :
  gives p s t a r → (∀ t', runs (f a) r t' o) → runs (p ≫= f) s t o.
Proof.
  intros Hp Hf. destruct o as [[b r']|]; [by eapply gives_bind|].
  destruct Hp as [t' Hp]. unfold runs, mbind, parser_bind. rewrite Hp. apply (Hf t').
Qed.

Lemma null_bind {A B} (p : parser A) (f : A → parser B) s t :
  p s t = PNull → runs (p ≫= f) s t None.
Proof. intros H. unfold runs, mbind, parser_bind. by rewrite H. Qed.

(** ** Numbers *)

(** The characters that follow a value in what the serialiser writes. *)
Definition delimiter (c : ascii) : bool :=
  ceq c NUL || ceq c "," || ceq c "]" || ceq c "}" || ceq c "010".

Definition digit_facts (c : ascii) : bool :=
  implb (isdigit c)
    (negb (ceq c "-") && negb (ceq c "+") && negb (ceq "i" (tolower c)) && negb (ceq "n" (tolower c))
     && negb (ceq c "x") && negb (ceq c "X") && negb (isspace c) && negb (ceq c NUL) && negb (ceq c "]")
     && negb (ceq c "}") && negb (ceq c "{") && negb (ceq c "[") && negb (ceq c "034")
     && negb (ceq c "f") && negb (ceq c "t") && negb (ceq c "239") && negb (ceq c "/") && negb (ceq c "\")).

Lemma digit_facts_all c : digit_facts c = true.
Proof. by destruct c as [[] [] [] [] [] [] [] []]. Qed.

Definition delimiter_facts (c : ascii) : bool :=
  implb (delimiter c)
    (negb (isdigit c) && negb (ceq c ".") && negb (ceq c "e") && negb (ceq c "E")
     && negb (ceq c "x") && negb (ceq c "X")).

Lemma delimiter_facts_all c : delimiter_facts c = true.
Proof. by destruct c as [[] [] [] [] [] [] [] []]. Qed.

Ltac digit_facts H :=
  let F := fresh "F" in
  match type of H with isdigit ?c = true =>
    pose proof (digit_facts_all c) as F; unfold digit_facts in F; rewrite H in F;
    cbn [implb] in F; repeat (apply andb_true_iff in F as [F ?]);
    repeat match goal with H : negb _ = true |- _ => apply negb_true_iff in H end
  end.

Ltac delimiter_facts H :=
  let F := fresh "F" in
  match type of H with delimiter ?c = true =>
    pose proof (delimiter_facts_all c) as F; unfold delimiter_facts in F; rewrite H in F;
    cbn [implb] in F; repeat (apply andb_true_iff in F as [F ?]);
    repeat match goal with H : negb _ = true |- _ => apply negb_true_iff in H end
  end.

Section values.
Context {DT : DoubleText}.

Lemma quoted_with_back esc str rest t :
  writes esc str → gives (get_quoted_string 0) (quoted esc str ++ rest) t str rest.
Proof.
  intros Hs. unfold get_quoted_string, quoted.
  rewrite <- !app_assoc. cbn [app].
  eapply gives_bind; [by eexists|]. intros t1.
  unfold skip_quotes. cbn [deref head default from_option id].
  change (negb (ceq "034" "034")) with false. cbv iota. cbn [drop]. rewrite ?drop_0.
  rewrite written_quotes by done. eapply gives_bind; [by eexists|]. intros t2.
  unfold process_string. eapply gives_bind; [apply gives_malloc|]. intros t3.
  pose proof (written_length esc str Hs).
  replace (length _ - length rest - 2) with (length (written esc str)).
  2:{ cbn [length]. rewrite length_app. cbn [length]. lia. }
  rewrite written_process; [|done|rewrite length_app; cbn; lia]. cbn [app].
  eapply gives_bind; [apply gives_malloc|]. intros t4. rewrite cstr_id; [apply gives_ret|].
  eapply Forall_impl; [exact Hs|]. by intros c [_ ?].
Qed.

Lemma quoted_back str rest t :
  no_nul str →
  gives (get_quoted_string 0) (json_serialize_string str ++ rest) t str rest.
Proof. intros Hs. by apply (quoted_with_back escape_char), escapes. Qed.

(** What follows the integer part: no digit. *)
Lemma exponent_scan e rest :
  (e = [] ∨ ∃ c d ds, e = "e"%char :: c :: d :: ds ∧
     (c = "+"%char ∨ c = "-"%char) ∧ digits_only (d :: ds)) →
  delimiter (deref rest) = true →
  scan_exponent "e" "E" (e ++ rest) = length e ∧ isdigit (deref (e ++ rest)) = false ∧
  ceq (deref (e ++ rest)) "." = false.
Proof.
  intros He Hd. delimiter_facts Hd. destruct He as [->|(c & d & ds & -> & Hc & Hds)].
  - cbn [app]. split_and!; try done. unfold scan_exponent.
    by match goal with H : ceq _ "e" = false, H' : ceq _ "E" = false |- _ => rewrite H, H' end.
  - split; [|done]. cbn [app]. unfold scan_exponent. cbn [deref head default from_option id].
    change (ceq "e" "e" || ceq "e" "E") with true. cbv iota. cbn [drop].
    assert (scan_sign (c :: d :: ds ++ rest) = d :: ds ++ rest) as ->.
    { unfold scan_sign. by destruct Hc as [-> | ->]. }
    change (d :: ds ++ rest) with ((d :: ds) ++ rest).
    rewrite span_app by done. rewrite (proj2 (Nat.eqb_neq _ 0)) by (cbn; lia).
    cbn [length]. rewrite !length_app. cbn [length]. lia.
Qed.

Lemma mantissa_scan i f e rest :
  digits_only i → i ≠ [] → (f = [] ∨ ∃ ds, f = "."%char :: ds ∧ digits_only ds) →
  isdigit (deref (e ++ rest)) = false → ceq (deref (e ++ rest)) "." = false →
  scan_mantissa isdigit (i ++ f ++ e ++ rest) = Some (length i + length f).
Proof.
  intros Hi Hne Hf He Hdot. unfold scan_mantissa.
  assert (isdigit (deref (f ++ e ++ rest)) = false) as Hfd
    by (by destruct Hf as [->|(ds & -> & _)]).
  rewrite span_app by done. rewrite drop_app_length.
  assert (length i ≠ 0) by (by destruct i).
  destruct Hf as [->|(ds & -> & Hds)].
  - cbn [app]. rewrite Hdot, Nat.add_0_r. cbn [length]. rewrite Nat.add_0_r.
    by rewrite (proj2 (Nat.eqb_neq (length i) 0)).
  - cbn [app deref head default from_option id]. change (ceq "." ".") with true. cbv iota.
    cbn [drop]. rewrite ?drop_0, span_app by done.
    rewrite (proj2 (Nat.eqb_neq _ 0)) by lia. done.
Qed.

Lemma strtod_back t rest :
  g_text t → delimiter (deref rest) = true → strtod (t ++ rest) = (dec_value t, rest).
Proof.
  intros [sg c i f e -> Hsg Hi Hz Hf He] Hd.
  pose proof (proj1 (Forall_cons _ _ _) Hi) as [Hc _]. digit_facts Hc.
  destruct (exponent_scan e rest He Hd) as (Es & Ed & Edot).
  assert (scan_sign ((sg ++ c :: i ++ f ++ e) ++ rest) = (c :: i) ++ f ++ e ++ rest) as Hs.
  { rewrite <- !app_assoc. cbn [app]. rewrite <- !app_assoc.
    destruct Hsg as [-> | ->]; [|done]. unfold scan_sign. cbn [app deref head default from_option id].
    by match goal with H : ceq c "+" = false |- _ => rewrite F, H end. }
  unfold strtod. rewrite Hs.
  assert (scan_hex ((c :: i) ++ f ++ e ++ rest) = None) as ->.
  { unfold scan_hex. cbn [app deref head default from_option id].
    destruct (ceq c "0") eqn:E0; [|done]. bool_to_prop. destruct (Hz E0) as [-> ->]. cbn [app].
    delimiter_facts Hd.
    destruct Hf as [->|(ds & -> & _)]; [|done]. cbn [app].
    change (char_at (c :: rest) 1) with (default NUL (rest !! 0)).
    replace (default NUL (rest !! 0)) with (deref rest) by (by destruct rest).
    by match goal with H : ceq _ "x" = false, H' : ceq (deref _) "X" = false |- _ => rewrite H' end;
       match goal with H : ceq (deref _) "x" = false |- _ => rewrite H end. }
  unfold scan_decimal. rewrite mantissa_scan by done.
  assert (drop (length (c :: i) + length f) ((c :: i) ++ f ++ e ++ rest) = e ++ rest) as ->.
  { rewrite app_assoc, <- length_app. apply drop_app_length. }
  rewrite Es.
  assert (has_prefix (lit "inf") (map tolower ((c :: i) ++ f ++ e ++ rest)) ||
          has_prefix (lit "nan") (map tolower ((c :: i) ++ f ++ e ++ rest)) = false) as ->.
  { cbn. by repeat match goal with H : ceq _ (tolower c) = false |- _ => rewrite H; clear H end. }
  set (t := sg ++ c :: i ++ f ++ e).
  replace (length (t ++ rest) - length ((c :: i) ++ f ++ e ++ rest) +
           (length (c :: i) + length f + length e)) with (length t).
  - by rewrite take_app_length, drop_app_length.
  - subst t. rewrite !length_app. cbn [length]. rewrite !length_app. lia.
Qed.

Definition no_x (c : ascii) : bool := negb (ceq c "x" || ceq c "X").

Lemma digits_no_x ds : digits_only ds → forallb no_x ds = true.
Proof.
  induction 1 as [|c ds Hc _ IH]; [done|]. cbn. rewrite IH, andb_true_r. digit_facts Hc.
  unfold no_x. by match goal with H : ceq c "x" = false, H' : ceq c "X" = false |- _ => rewrite H, H' end.
Qed.

Lemma g_text_no_x t : g_text t → forallb no_x t = true.
Proof.
  intros [sg c i f e -> Hsg Hi Hz Hf He].
  rewrite forallb_app. change (c :: i ++ f ++ e) with ((c :: i) ++ f ++ e).
  rewrite !forallb_app, (digits_no_x (c :: i)) by done.
  assert (forallb no_x sg = true) as -> by (by destruct Hsg as [-> | ->]).
  assert (forallb no_x f = true) as ->.
  { destruct Hf as [->|(ds & -> & Hds)]; [done|]. exact (digits_no_x ds Hds). }
  destruct He as [->|(s1 & d & ds & -> & Hs & Hds)]; [done|].
  by destruct Hs as [-> | ->]; apply (digits_no_x (d :: ds)).
Qed.

Lemma is_decimal_back t rest : g_text t → is_decimal (t ++ rest) (length t) = true.
Proof.
  intros Hg. unfold is_decimal. rewrite take_app_length.
  change (λ c, negb (ceq c "x" || ceq c "X")) with no_x. rewrite g_text_no_x by done.
  destruct Hg as [sg c i f e -> Hsg Hi Hz Hf He].
  pose proof (proj1 (Forall_cons _ _ _) Hi) as [Hc _]. digit_facts Hc.
  destruct (ceq c "0") eqn:E0; bool_to_prop.
  - destruct (Hz E0) as [-> ->]. subst c.
    by destruct Hsg as [-> | ->]; destruct Hf as [->|([|? ds] & -> & _)].
  - assert (ceq c "0" = false) as Ec by (by apply ceq_false).
    assert (ceq "0" c = false) as Ec' by (apply ceq_false; congruence).
    assert (ceq "-" c = false) as Em by (apply ceq_false; by intros <-).
    destruct Hsg as [-> | ->]; unfold char_at; cbn [app lookup list_lookup default from_option id].
    + rewrite Ec, andb_false_r. cbn [andb]. cbn [has_prefix lit list_ascii_of_string].
      by rewrite Em, andb_false_r.
    + change (ceq "-" "0") with false. rewrite andb_false_r. cbn [andb lit list_ascii_of_string app has_prefix].
      by rewrite Ec', andb_false_r.
Qed.

Lemma number_back x d rest t :
  g_text x → dec_value x = Finite d → delimiter (deref rest) = true →
  gives (parse_number_value 0) (x ++ rest) t (JSONNumber d) rest.
Proof.
  intros Hg Hv Hd. unfold parse_number_value. eapply gives_bind; [by eexists|]. intros t1.
  rewrite strtod_back by done. rewrite Hv.
  replace (length (x ++ rest) - length rest) with (length x) by (rewrite length_app; lia).
  rewrite is_decimal_back by done. cbn [negb].
  eapply gives_bind; [by eexists|]. intros t2. by eexists.
Qed.

(** ** Whole values *)

(** What a run on the text of [v] and [rest] with [levels] levels left must
    give. *)
Definition outcome (v : JSON_Value) (levels : nat) (rest : bytes) : option (JSON_Value * bytes) :=
  if json_depth v <=? levels then Some (v, rest) else None.

(** The first character of a value's text. *)
Definition opener (c : ascii) : bool :=
  negb (isspace c) && negb (ceq c NUL) && negb (ceq c "]") && negb (ceq c "}") && negb (ceq c "239").

Definition reads (v : JSON_Value) (text : bytes) : Prop :=
  opener (deref text) = true ∧
  ∀ levels rest t, delimiter (deref rest) = true →
    runs (parse_value 0 levels) (text ++ rest) t (outcome v levels rest).

Lemma opener_skip s r : opener (deref s) = true → skip isspace (s ++ r) = s ++ r.
Proof.
  intros H. apply skip_id. unfold opener in H. destruct s as [|c s]; [done|]. cbn in *.
  by destruct (isspace c).
Qed.

Lemma opener_nonempty s : opener (deref s) = true → ∃ c s', s = c :: s'.
Proof. destruct s as [|c s]; [done|by repeat eexists]. Qed.

(** A value without parts: the parser chosen by the first character gives
    it. *)
Lemma scalar_outcome v levels rest text t p :
  json_depth v = 1 → opener (deref text) = true →
  (∀ levels, parse_value 0 (S levels) (text ++ rest) t = p (text ++ rest) t) →
  gives p (text ++ rest) t v rest →
  runs (parse_value 0 levels) (text ++ rest) t (outcome v levels rest).
Proof.
  intros Hv Ho Hp [t' Hg]. unfold outcome. rewrite Hv.
  destruct levels as [|levels]; [done|]. exists t'. by rewrite Hp, Hg.
Qed.

Lemma parse_value_head levels text rest t c s :
  text = c :: s → opener c = true →
  parse_value 0 (S levels) (text ++ rest) t =
  (if ceq c "{" then parse_object_value 0 (parse_value 0 levels)
   else if ceq c "[" then parse_array_value 0 (parse_value 0 levels)
   else if ceq c "034" then parse_string_value 0
   else if ceq c "f" || ceq c "t" then parse_boolean_value 0
   else if ceq c "-" || isdigit c then parse_number_value 0
   else if ceq c "n" then parse_null_value 0
   else null) (text ++ rest) t.
Proof.
  intros -> Hc. cbn [parse_value]. unfold mbind, parser_bind, SKIP_WHITESPACES, peek.
  by rewrite opener_skip.
Qed.

Lemma written_reads esc str : writes esc str → reads (JSONString str) (quoted esc str).
Proof.
  intros Hs. split; [done|]. intros levels rest t Hd.
  apply (scalar_outcome _ _ _ _ _ (parse_string_value 0)); [done|done| |].
  - intros l. by rewrite (parse_value_head l _ rest t "034"%char (written esc str ++ ["034"%char])).
  - unfold parse_string_value. eapply gives_bind; [by apply quoted_with_back|]. intros t'. by eexists.
Qed.

Lemma string_reads str : no_nul str → reads (JSONString str) (json_serialize_string str).
Proof. intros Hs. by apply (written_reads escape_char), escapes. Qed.

Lemma boolean_reads b : reads (JSONBoolean b) (if b then lit "true" else lit "false").
Proof.
  split; [by destruct b|]. intros levels rest t Hd.
  apply (scalar_outcome _ _ _ _ _ (parse_boolean_value 0)); [done|by destruct b| |].
  - intros l. destruct b.
    + by rewrite (parse_value_head l _ rest t "t"%char (lit "rue")).
    + by rewrite (parse_value_head l _ rest t "f"%char (lit "alse")).
  - destruct b; cbn; by eexists.
Qed.

Lemma null_reads : reads JSONNull (lit "null").
Proof.
  split; [done|]. intros levels rest t Hd.
  apply (scalar_outcome _ _ _ _ _ (parse_null_value 0)); [done|done| |].
  - intros l. by rewrite (parse_value_head l _ rest t "n"%char (lit "ull")).
  - cbn. by eexists.
Qed.

Lemma number_reads x d : g_text x → dec_value x = Finite d → reads (JSONNumber d) x.
Proof.
  intros Hg Hv.
  assert (∃ c s, x = c :: s ∧ (c = "-"%char ∨ isdigit c = true)) as (c & s & Ec & Hc).
  { destruct Hg as [sg c i f e -> [-> | ->] Hi _ _ _]; cbn; repeat eexists; [|by left].
    right. by apply Forall_cons in Hi as [? _]. }
  assert (opener c = true) as Ho.
  { destruct Hc as [-> | Hc]; [done|]. digit_facts Hc. unfold opener.
    by repeat match goal with H : ?x = false |- context [negb ?x] => rewrite H end. }
  split; [by rewrite Ec|]. intros levels rest t Hd.
  apply (scalar_outcome _ _ _ _ _ (parse_number_value 0)); [done|by rewrite Ec| |by apply number_back].
  intros l. erewrite parse_value_head by done.
  destruct Hc as [-> | Hc]; [done|]. digit_facts Hc.
  repeat match goal with H : ceq c _ = false |- _ => rewrite H; clear H end.
  by rewrite Hc.
Qed.

(** ** Arrays and objects *)

Lemma spaces_indent b n : Forall (λ c, isspace c = true) (indent b n).
Proof.
  destruct b; [|constructor]. unfold indent, append_indent.
  induction n as [|n IH]; cbn; [constructor|]. by repeat constructor.
Qed.

Lemma spaces_newline b : Forall (λ c, isspace c = true) (newline b).
Proof. destruct b; by repeat constructor. Qed.

Lemma array_add_back a cap v s t : ∃ cap', gives (json_array_add 0 a cap v) s t (a ++ [v], cap') s.
Proof.
  unfold json_array_add, json_array_resize, STARTING_CAPACITY. cbv zeta.
  destruct (cap <=? Z.of_nat (length a))%Z; eexists;
    (eapply gives_bind; [|intros t'; apply gives_ret]); [|apply gives_ret].
  eapply gives_bind; [|intros t'; apply gives_ret].
  rewrite (proj2 (Z.eqb_neq _ 0)) by lia. apply gives_malloc.
Qed.

Lemma object_add_back o cap n v s t :
  n ∉ map fst o → ∃ cap', gives (json_object_add 0 o cap n v) s t (o ++ [(n, v)], cap') s.
Proof.
  intros Hn. unfold json_object_add, json_object_resize, STARTING_CAPACITY, parson_strdup. cbv zeta.
  assert (json_object_nget_value o n = None) as ->.
  { induction o as [|[n' v'] o IH]; cbn in *; [done|]. apply not_elem_of_cons in Hn as [? ?].
    destruct (streq n' n) eqn:E; bool_to_prop; [done|]. by apply IH. }
  destruct (cap <=? Z.of_nat (length o))%Z; eexists;
    (eapply gives_bind; [|intros t'; eapply gives_bind;
       [eapply gives_bind; [apply gives_malloc|intros; apply gives_ret]|intros; apply gives_ret]]);
    [|apply gives_ret].
  eapply gives_bind; [|intros t'; apply gives_ret].
  rewrite (proj2 (Z.eqb_neq _ 0)) by lia. eapply gives_bind; [apply gives_malloc|].
  intros; apply gives_malloc.
Qed.

(** What follows an element: a separator and the next one, or the end. *)
Lemma comma_last i count : i + 1 = count → comma i count = [].
Proof. intros <-. unfold comma. by rewrite (proj2 (Nat.ltb_ge _ _)) by lia. Qed.

Lemma comma_inner i count : i + 1 < count → comma i count = lit ",".
Proof. intros H. unfold comma. by rewrite (proj2 (Nat.ltb_lt _ _)) by lia. Qed.

(** The end of a pretty or compact list is a delimiter, and white space up to
    the bracket. *)
Lemma tail_delimiter b n c rest :
  delimiter c = true → delimiter (deref (newline b ++ indent b n ++ c :: rest)) = true.
Proof. by destruct b. Qed.

Lemma tail_skip b n c rest :
  isspace c = false → skip isspace (newline b ++ indent b n ++ c :: rest) = c :: rest.
Proof.
  intros H. rewrite skip_app by apply spaces_newline. rewrite skip_app by apply spaces_indent.
  by apply skip_id.
Qed.

Definition element_ok (ser : JSON_Value → option bytes) (v : JSON_Value) : Prop :=
  ∃ text, ser v = Some text ∧ reads v text.

(** The step of either loop behind an element that is not the last. *)
Lemma next_skip b n x y :
  opener (deref x) = true →
  skip isspace (newline b ++ indent b n ++ x ++ y) = x ++ y.
Proof.
  intros H. rewrite skip_app by apply spaces_newline. rewrite skip_app by apply spaces_indent.
  by apply opener_skip.
Qed.

Lemma array_loop_last pv fuel acc cap s t v r c r' :
  ceq (deref s) NUL = false → (∀ t, gives pv s t v r) → skip isspace r = c :: r' → ceq c "," = false →
  gives (array_loop 0 pv (S fuel) acc cap) s t (acc ++ [v]) (c :: r').
Proof.
  intros Hs Hv Hr Hc. cbn [array_loop]. eapply gives_bind; [by eexists|]. intros t1. rewrite Hs.
  eapply gives_bind; [apply Hv|]. intros t2. destruct (array_add_back acc cap v r t2) as [cap' Ha].
  eapply gives_bind; [apply Ha|]. intros t3.
  eapply gives_bind; [by eexists|]. intros t4. rewrite Hr.
  eapply gives_bind; [by eexists|]. intros t5. cbn [deref head default from_option id].
  rewrite Hc. apply gives_ret.
Qed.

Lemma array_loop_next pv fuel acc cap s t v r r' o :
  ceq (deref s) NUL = false → (∀ t, gives pv s t v r) → skip isspace r = ","%char :: r' →
  (∀ cap t, runs (array_loop 0 pv fuel (acc ++ [v]) cap) (skip isspace r') t o) →
  runs (array_loop 0 pv (S fuel) acc cap) s t o.
Proof.
  intros Hs Hv Hr Ho. cbn [array_loop]. eapply runs_bind; [by eexists|]. intros t1. rewrite Hs.
  eapply runs_bind; [apply Hv|]. intros t2. destruct (array_add_back acc cap v r t2) as [cap' Ha].
  eapply runs_bind; [apply Ha|]. intros t3.
  eapply runs_bind; [by eexists|]. intros t4. rewrite Hr.
  eapply runs_bind; [by eexists|]. intros t5. cbn [deref head default from_option id].
  change (negb (ceq "," ",")) with false. cbv iota.
  eapply runs_bind; [by eexists|]. intros t6. eapply runs_bind; [by eexists|]. intros t7.
  apply Ho.
Qed.

Lemma array_loop_null pv fuel acc cap s t :
  ceq (deref s) NUL = false → (∀ t, pv s t = PNull) →
  runs (array_loop 0 pv (S fuel) acc cap) s t None.
Proof.
  intros Hs Hv. cbn [array_loop]. eapply runs_bind; [by eexists|]. intros t1. rewrite Hs.
  by apply null_bind.
Qed.

Lemma opener_not_nul x y : opener (deref x) = true → ceq (deref (x ++ y)) NUL = false.
Proof.
  intros Ho. destruct x as [|c x]; [done|]. cbn in *. unfold opener in Ho.
  by destruct (ceq c NUL), (isspace c).
Qed.

Lemma max_leb x y n : (Nat.max x y <=? n) = (x <=? n) && (y <=? n).
Proof.
  destruct (Nat.leb_spec x n), (Nat.leb_spec y n), (Nat.leb_spec (Nat.max x y) n); (done || lia).
Qed.

Lemma items_back ser b level count a i :
  Forall (element_ok ser) a → a ≠ [] → i + length a = count →
  ∃ x body, serialize_items ser b level count a i = Some (indent b (level + 1) ++ x ++ body) ∧
    opener (deref x) = true ∧
    ∀ levels rest fuel acc cap t, length (x ++ body ++ indent b level ++ "]"%char :: rest) < fuel →
    runs (array_loop 0 (parse_value 0 levels) fuel acc cap)
      (x ++ body ++ indent b level ++ "]"%char :: rest) t
      (if items_depth a <=? levels then Some (acc ++ a, "]"%char :: rest) else None).
Proof.
  intros Ha. revert i. induction Ha as [|v a (text & Hv & Hr) Ha IH]; intros i Hne Hc; [done|].
  change (serialize_items ser b level count (v :: a) i) with
    (text ← ser v; rest ← serialize_items ser b level count a (S i);
     Some (indent b (level + 1) ++ text ++ comma i count ++ newline b ++ rest)).
  rewrite Hv. cbn [mbind option_bind length items_depth foldr] in *. pose proof (proj1 Hr) as Ho.
  destruct a as [|v' a].
  - cbn [serialize_items mbind option_bind length] in *. rewrite comma_last by lia.
    exists text, (newline b). split; [by rewrite app_nil_r|]. split; [done|].
    intros levels rest fuel acc cap t Hf. destruct fuel as [|fuel]; [lia|]. rewrite Nat.max_0_r.
    pose proof (λ t, proj2 Hr levels _ t (tail_delimiter b level "]" rest eq_refl)) as Hp.
    unfold outcome in Hp.
    destruct (json_depth v <=? levels).
    + eapply array_loop_last; [by apply opener_not_nul|exact Hp|by apply tail_skip|done].
    + apply array_loop_null; [by apply opener_not_nul|exact Hp].
  - destruct (IH (S i)) as (x & body & -> & Hx & Hloop); [done|cbn [length] in *; lia|].
    cbn [mbind option_bind length] in *. rewrite comma_inner by lia.
    exists text, (lit "," ++ newline b ++ indent b (level + 1) ++ x ++ body).
    split; [done|]. split; [done|]. intros levels rest fuel acc cap t Hf. destruct fuel as [|fuel]; [lia|].
    rewrite <- !app_assoc in *. rewrite !length_app in Hf. cbn [app lit list_ascii_of_string] in *.
    pose proof (λ t, proj2 Hr levels
      (","%char :: newline b ++ indent b (level + 1) ++ x ++ body ++ indent b level ++ "]"%char :: rest)
      t eq_refl) as Hp. unfold outcome in Hp.
    set (d := foldr _ 0 (v' :: a)) in *.
    destruct (json_depth v <=? levels) eqn:Ev.
    + eapply array_loop_next; [by apply opener_not_nul|exact Hp|done|]. intros cap' t'.
      rewrite next_skip by done.
      rewrite max_leb, Ev.
      specialize (Hloop levels rest fuel (acc ++ [v]) cap' t'). rewrite <- app_assoc in Hloop. apply Hloop.
      cbn [length] in Hf. rewrite !length_app in *. cbn [length] in *; lia.
    + rewrite max_leb, Ev.
      apply array_loop_null; [by apply opener_not_nul|exact Hp].
Qed.

(** A container, from the outcome of its loop. *)
Lemma array_value_back pv x s rest t a o :
  opener (deref x) = true → a ≠ [] →
  (∀ t, runs (array_loop 0 pv (S (length (x ++ s))) [] 0) (x ++ s) t o) →
  o = Some (a, "]"%char :: rest) ∨ o = None →
  ∀ w, Forall (λ c, isspace c = true) w →
  runs (parse_array_value 0 pv) ("["%char :: w ++ x ++ s) t
    (match o with Some _ => Some (JSONArray a, rest) | None => None end).
Proof.
  intros Hx Ha Hl Ho w Hw. unfold parse_array_value, json_value_init_array.
  eapply runs_bind; [eapply gives_bind; [apply gives_malloc|intros];
    eapply gives_bind; [apply gives_malloc|intros; apply gives_ret]|]. intros t1.
  eapply runs_bind; [by eexists|]. intros t2. cbn [deref head default from_option id].
  change (negb (ceq "[" "[")) with false. cbv iota.
  eapply runs_bind; [by eexists|]. intros t3. eapply runs_bind; [by eexists|]. intros t4.
  cbn [drop]. rewrite ?drop_0. rewrite skip_app by done. rewrite opener_skip by done.
  eapply runs_bind; [by eexists|]. intros t5.
  assert (ceq (deref (x ++ s)) "]" = false) as ->.
  { destruct x as [|c x]; [done|]. cbn in *. unfold opener in Hx.
    by destruct (ceq c "]"), (isspace c), (ceq c NUL). }
  eapply runs_bind; [by eexists|]. intros t6. specialize (Hl t6).
  destruct Ho as [-> | ->]; [|by apply null_bind].
  eapply runs_bind; [apply Hl|]. intros t7. eapply runs_bind; [by eexists|]. intros t8.
  eapply runs_bind; [by eexists|]. intros t9. cbn [skip deref head default from_option id].
  change (negb _) with false. cbv iota. unfold json_array_resize.
  rewrite (proj2 (Z.eqb_neq _ 0)) by (destruct a; cbn; [done|lia]).
  eapply runs_bind; [apply gives_malloc|]. intros t10. eapply runs_bind; [by eexists|]. intros t11.
  apply gives_ret.
Qed.

Lemma runs_eq {A} (p q : parser A) s s' t t' o :
  p s t = q s' t' → runs q s' t' o → runs p s t o.
Proof. unfold runs, gives. by intros ->. Qed.

Lemma array_reads b a level :
  Forall (element_ok (λ v, json_serialize_to_buffer_r b v (level + 1))) a →
  ∃ text, json_serialize_to_buffer_r b (JSONArray a) level = Some text ∧ reads (JSONArray a) text.
Proof.
  intros Ha. cbn [json_serialize_to_buffer_r]. cbv zeta. destruct a as [|v a].
  { exists (lit "[]"). split; [done|]. split; [done|]. intros levels rest t Hd.
    unfold outcome. destruct levels as [|levels]; [done|]. cbn. by eexists. }
  destruct (items_back _ b level (length (v :: a)) (v :: a) 0 Ha) as (x & body & -> & Ho & Hl); [done..|].
  cbn [mbind option_bind]. eexists. split; [done|]. split; [done|].
  intros levels rest t Hd. unfold outcome. rewrite depth_array.
  destruct levels as [|levels]; [done|].
  change (S (items_depth (v :: a)) <=? S levels) with (items_depth (v :: a) <=? levels).
  change (0 <? length (v :: a)) with true. cbv iota. rewrite <- !app_assoc.
  cbn [lit list_ascii_of_string app].
  eapply (runs_eq _ (parse_array_value 0 (parse_value 0 levels))); [done|].
  rewrite (app_assoc (newline b)).
  pose proof (array_value_back (parse_value 0 levels) x (body ++ indent b level ++ "]"%char :: rest)
    rest t (v :: a) (if items_depth (v :: a) <=? levels then Some (v :: a, "]"%char :: rest) else None)
    Ho ltac:(done)) as Hback.
  destruct (items_depth (v :: a) <=? levels) eqn:E; apply Hback;
    try (by left); try (by right); try (apply Forall_app; split; [apply spaces_newline|apply spaces_indent]);
    intros t'; specialize (Hl levels rest (S (length (x ++ body ++ indent b level ++ "]"%char :: rest))) [] 0%Z t');
    rewrite E in Hl; apply Hl; lia.
Qed.

(** ** Objects *)

Lemma parse_value_spaces levels w s t :
  Forall (λ c, isspace c = true) w → parse_value 0 levels (w ++ s) t = parse_value 0 levels s t.
Proof.
  intros Hw. destruct levels as [|levels]; [done|]. cbn [parse_value].
  unfold mbind, parser_bind, SKIP_WHITESPACES. by rewrite skip_app.
Qed.

Definition space (b : bool) : bytes := if b then lit " " else [].

Lemma spaces_space b : Forall (λ c, isspace c = true) (space b).
Proof. destruct b; by repeat constructor. Qed.

(** The text of a member up to its value, read by the loop. *)
Lemma object_loop_key levels fuel o cap key b s t out :
  no_nul key →
  (∀ t, runs (new_value ← parse_value 0 levels;
              oc ← json_object_add 0 o cap key new_value;
              _ ← SKIP_WHITESPACES;
              c ← peek;
              if negb (ceq c ",") then mret (fst oc)
              else _ ← SKIP_CHAR; _ ← SKIP_WHITESPACES;
                   object_loop 0 (parse_value 0 levels) fuel (fst oc) (snd oc)) s t out) →
  runs (object_loop 0 (parse_value 0 levels) (S fuel) o cap)
    (json_serialize_string key ++ lit ":" ++ space b ++ s) t out.
Proof.
  intros Hk Ho. cbn [object_loop]. eapply runs_bind; [by eexists|]. intros t1.
  change (ceq (deref (json_serialize_string key ++ lit ":" ++ space b ++ s)) NUL) with false.
  cbv iota. eapply runs_bind; [by apply quoted_back|]. intros t2.
  eapply runs_bind; [by eexists|]. intros t3. rewrite (skip_id isspace (lit ":" ++ _)) by done.
  eapply runs_bind; [by eexists|]. intros t4.
  change (negb (ceq (deref (lit ":" ++ space b ++ s)) ":")) with false. cbv iota.
  eapply runs_bind; [by eexists|]. intros t5. cbn [lit list_ascii_of_string app drop]. rewrite ?drop_0.
  eapply runs_eq; [|apply (Ho t5)].
  unfold mbind, parser_bind. by rewrite parse_value_spaces by apply spaces_space.
Qed.

Definition member_ok (get : bytes → option bytes) (m : bytes * JSON_Value) : Prop :=
  no_nul (fst m) ∧ ∃ text, get (fst m) = Some text ∧ reads (snd m) text.

Lemma object_loop_last levels fuel o cap key b v text t r c r' :
  no_nul key → key ∉ map fst o → (∀ t, gives (parse_value 0 levels) (text ++ r) t v r) →
  skip isspace r = c :: r' → ceq c "," = false →
  gives (object_loop 0 (parse_value 0 levels) (S fuel) o cap)
    (json_serialize_string key ++ lit ":" ++ space b ++ text ++ r) t (o ++ [(key, v)]) (c :: r').
Proof.
  intros Hk Hd Hv Hr Hc.
  apply (object_loop_key levels fuel o cap key b (text ++ r) t (Some (o ++ [(key, v)], c :: r')) Hk).
  intros t1. eapply gives_bind; [apply Hv|]. intros t2.
  destruct (object_add_back o cap key v r t2 Hd) as [cap' Ha].
  eapply gives_bind; [apply Ha|]. intros t3. eapply gives_bind; [by eexists|]. intros t4. rewrite Hr.
  eapply gives_bind; [by eexists|]. intros t5. cbn [deref head default from_option id].
  rewrite Hc. apply gives_ret.
Qed.

Lemma object_loop_next levels fuel o cap key b v text t r r' out :
  no_nul key → key ∉ map fst o → (∀ t, gives (parse_value 0 levels) (text ++ r) t v r) →
  skip isspace r = ","%char :: r' →
  (∀ cap t, runs (object_loop 0 (parse_value 0 levels) fuel (o ++ [(key, v)]) cap)
              (skip isspace r') t out) →
  runs (object_loop 0 (parse_value 0 levels) (S fuel) o cap)
    (json_serialize_string key ++ lit ":" ++ space b ++ text ++ r) t out.
Proof.
  intros Hk Hd Hv Hr Ho. apply object_loop_key; [done|]. intros t1.
  eapply runs_bind; [apply Hv|]. intros t2.
  destruct (object_add_back o cap key v r t2 Hd) as [cap' Ha].
  eapply runs_bind; [apply Ha|]. intros t3. eapply runs_bind; [by eexists|]. intros t4. rewrite Hr.
  eapply runs_bind; [by eexists|]. intros t5. cbn [deref head default from_option id].
  change (negb (ceq "," ",")) with false. cbv iota.
  eapply runs_bind; [by eexists|]. intros t6. eapply runs_bind; [by eexists|]. intros t7. apply Ho.
Qed.

Lemma object_loop_null levels fuel o cap key b s t :
  no_nul key → (∀ t, parse_value 0 levels s t = PNull) →
  runs (object_loop 0 (parse_value 0 levels) (S fuel) o cap)
    (json_serialize_string key ++ lit ":" ++ space b ++ s) t None.
Proof. intros Hk Hv. apply object_loop_key; [done|]. intros t1. by apply null_bind. Qed.

Lemma key_opener key : opener (deref (json_serialize_string key)) = true.
Proof. done. Qed.

Lemma members_back get b level count o i :
  Forall (member_ok get) o → o ≠ [] → i + length o = count → NoDup (map fst o) →
  ∃ x body, serialize_members get b level count o i = Some (indent b (level + 1) ++ x ++ body) ∧
    opener (deref x) = true ∧
    ∀ levels rest fuel acc cap t, length (x ++ body ++ indent b level ++ "}"%char :: rest) < fuel →
    (∀ n, n ∈ map fst o → n ∉ map fst acc) →
    runs (object_loop 0 (parse_value 0 levels) fuel acc cap)
      (x ++ body ++ indent b level ++ "}"%char :: rest) t
      (if members_depth o <=? levels then Some (acc ++ o, "}"%char :: rest) else None).
Proof.
  intros Ho. revert i. induction Ho as [|[key v] o [Hk (text & Hv & Hr)] Ho IH];
    intros i Hne Hc Hnd; [done|].
  change (serialize_members get b level count ((key, v) :: o) i) with
    (text ← get key; rest ← serialize_members get b level count o (S i);
     Some (indent b (level + 1) ++ json_serialize_string key ++ lit ":" ++ space b
           ++ text ++ comma i count ++ newline b ++ rest)).
  cbn [fst snd] in *. rewrite Hv. unfold members_depth in *.
  cbn [mbind option_bind length map items_depth foldr fst snd] in *.
  apply NoDup_cons in Hnd as [Hkey Hnd].
  destruct o as [|[key' v'] o].
  - cbn [serialize_members mbind option_bind length map foldr] in *. rewrite comma_last by lia.
    exists (json_serialize_string key), (lit ":" ++ space b ++ text ++ newline b).
    split; [by rewrite app_nil_r|]. split; [done|].
    intros levels rest fuel acc cap t Hf Hacc. destruct fuel as [|fuel]; [lia|].
    rewrite Nat.max_0_r. rewrite <- !app_assoc.
    pose proof (λ t, proj2 Hr levels _ t (tail_delimiter b level "}" rest eq_refl)) as Hp.
    unfold outcome in Hp. destruct (json_depth v <=? levels).
    + eapply object_loop_last; [done|apply Hacc; by left|exact Hp|by apply tail_skip|done].
    + apply object_loop_null; [done|exact Hp].
  - destruct (IH (S i)) as (x & body & -> & Hx & Hloop); [done|cbn [length] in *; lia|done|].
    cbn [mbind option_bind length] in *. rewrite comma_inner by lia.
    exists (json_serialize_string key),
      (lit ":" ++ space b ++ text ++ lit "," ++ newline b ++ indent b (level + 1) ++ x ++ body).
    split; [done|]. split; [done|].
    intros levels rest fuel acc cap t Hf Hacc. destruct fuel as [|fuel]; [lia|].
    rewrite <- !app_assoc in *. rewrite !length_app in Hf.
    pose proof (λ t, proj2 Hr levels
      (lit "," ++ newline b ++ indent b (level + 1) ++ x ++ body ++ indent b level ++ "}"%char :: rest)
      t eq_refl) as Hp. unfold outcome in Hp.
    set (d := foldr _ 0 (map snd ((key', v') :: o))) in *.
    destruct (json_depth v <=? levels) eqn:Ev.
    + eapply object_loop_next; [done|apply Hacc; by left|exact Hp|done|]. intros cap' t'.
      rewrite next_skip by done.
      rewrite max_leb, Ev.
      specialize (Hloop levels rest fuel (acc ++ [(key, v)]) cap' t').
      rewrite <- app_assoc in Hloop. apply Hloop.
      * unfold lit in *. cbn [length list_ascii_of_string] in *. rewrite !length_app in *.
        cbn [length] in *. lia.
      * intros n Hn. rewrite map_app, elem_of_app. cbn. rewrite list_elem_of_singleton.
        intros [Hn'| ->]; [|done]. eapply Hacc; [|done]. by right.
    + rewrite max_leb, Ev.
      apply object_loop_null; [done|exact Hp].
Qed.


Lemma object_value_back pv x s rest t o out :
  opener (deref x) = true → o ≠ [] →
  (∀ t, runs (object_loop 0 pv (S (length (x ++ s))) [] 0) (x ++ s) t out) →
  out = Some (o, "}"%char :: rest) ∨ out = None →
  ∀ w, Forall (λ c, isspace c = true) w →
  runs (parse_object_value 0 pv) ("{"%char :: w ++ x ++ s) t
    (match out with Some _ => Some (JSONObject o, rest) | None => None end).
Proof.
  intros Hx Ha Hl Ho w Hw. unfold parse_object_value, json_value_init_object.
  eapply runs_bind; [eapply gives_bind; [apply gives_malloc|intros];
    eapply gives_bind; [apply gives_malloc|intros; apply gives_ret]|]. intros t1.
  eapply runs_bind; [by eexists|]. intros t2. cbn [deref head default from_option id].
  change (negb (ceq "{" "{")) with false. cbv iota.
  eapply runs_bind; [by eexists|]. intros t3. eapply runs_bind; [by eexists|]. intros t4.
  cbn [drop]. rewrite ?drop_0. rewrite skip_app by done. rewrite opener_skip by done.
  eapply runs_bind; [by eexists|]. intros t5.
  assert (ceq (deref (x ++ s)) "}" = false) as ->.
  { destruct x as [|c x]; [done|]. cbn in *. unfold opener in Hx.
    by destruct (ceq c "}"), (ceq c "]"), (isspace c), (ceq c NUL). }
  eapply runs_bind; [by eexists|]. intros t6. specialize (Hl t6).
  destruct Ho as [-> | ->]; [|by apply null_bind].
  eapply runs_bind; [apply Hl|]. intros t7. eapply runs_bind; [by eexists|]. intros t8.
  eapply runs_bind; [by eexists|]. intros t9. cbn [skip deref head default from_option id].
  change (negb _) with false. cbv iota. unfold json_object_resize.
  rewrite (proj2 (Z.eqb_neq _ 0)) by (destruct o; cbn; [done|lia]).
  eapply runs_bind; [eapply gives_bind; [apply gives_malloc|intros; apply gives_malloc]|]. intros t10.
  eapply runs_bind; [by eexists|]. intros t11. apply gives_ret.
Qed.

(** The lookup of a member's own name finds its value where the names are
    distinct. *)
Lemma with_value_own {A} (f : JSON_Value → A) d o n v :
  NoDup (map fst o) → (n, v) ∈ o → with_value f d n o = f v.
Proof.
  induction o as [|[n' v'] o IH]; cbn; intros Hnd Hin; [by apply not_elem_of_nil in Hin|].
  apply NoDup_cons in Hnd as [Hn Hnd]. apply elem_of_cons in Hin as [[= -> ->]|Hin].
  - by rewrite streq_refl.
  - destruct (streq n' n) eqn:E; bool_to_prop; [|by apply IH].
    subst. destruct Hn. apply list_elem_of_fmap. by exists (n, v).
Qed.

(** The text of an object, from the texts of its members. *)
Lemma members_read get b o level :
  Forall (member_ok get) o → NoDup (map fst o) → o ≠ [] →
  ∃ body, serialize_members get b level (length o) o 0 = Some body ∧
    reads (JSONObject o) (lit "{" ++ newline b ++ body ++ indent b level ++ lit "}").
Proof.
  intros Hm Hnd Hne.
  destruct (members_back get b level (length o) o 0 Hm) as (x & body & -> & Ho & Hl); [done..|].
  eexists. split; [done|]. split; [done|].
  intros levels rest t Hd. unfold outcome. rewrite depth_object.
  destruct levels as [|levels]; [done|].
  change (S (members_depth o) <=? S levels) with (members_depth o <=? levels).
  rewrite <- !app_assoc. cbn [lit list_ascii_of_string app].
  eapply (runs_eq _ (parse_object_value 0 (parse_value 0 levels))); [done|].
  rewrite (app_assoc (newline b)).
  pose proof (object_value_back (parse_value 0 levels) x (body ++ indent b level ++ "}"%char :: rest)
    rest t o (if members_depth o <=? levels then Some (o, "}"%char :: rest) else None)
    Ho Hne) as Hback.
  destruct (members_depth o <=? levels) eqn:E; apply Hback;
    try (by left); try (by right); try (apply Forall_app; split; [apply spaces_newline|apply spaces_indent]);
    intros t'; specialize (Hl levels rest (S (length (x ++ body ++ indent b level ++ "}"%char :: rest))) [] 0%Z t');
    rewrite E in Hl; apply Hl; (lia || (intros ? _; apply not_elem_of_nil)).
Qed.

Lemma object_reads b o level :
  NoDup (map fst o) → Forall no_nul (map fst o) →
  Forall (element_ok (λ v, json_serialize_to_buffer_r b v (level + 1))) (map snd o) →
  ∃ text, json_serialize_to_buffer_r b (JSONObject o) level = Some text ∧ reads (JSONObject o) text.
Proof.
  intros Hnd Hn Ha. cbn [json_serialize_to_buffer_r]. cbv zeta. set (get := λ key, with_value _ _ key o).
  assert (Forall (member_ok get) o) as Hm.
  { apply Forall_forall. intros [n v] Hin. rewrite Forall_forall in Hn; rewrite Forall_forall in Ha.
    assert (n ∈ map fst o) by (apply list_elem_of_fmap; by exists (n, v)).
    assert (v ∈ map snd o) by (apply list_elem_of_fmap; by exists (n, v)).
    split; [by apply Hn|]. destruct (Ha v) as (text & Ht & Hr); [done|].
    exists text. split; [|done]. subst get. cbn beta. by rewrite (with_value_own _ _ o _ v). }
  destruct o as [|m o].
  { exists (lit "{}"). split; [done|]. split; [done|]. intros levels rest t Hd.
    unfold outcome. destruct levels as [|levels]; [done|]. cbn. by eexists. }
  destruct (members_read get b (m :: o) level Hm Hnd) as (body & -> & Hr); [done|].
  eexists. split; [done|]. exact Hr.
Qed.

(** An object written field by field, as the programs that print JSON do it. *)
Record jfield := mkField { f_key : bytes; f_text : bytes; f_value : JSON_Value }.

Definition field_text (f : jfield) : bytes := json_serialize_string (f_key f) ++ lit ":" ++ f_text f.

Fixpoint join_fields (fs : list jfield) : bytes :=
  match fs with
  | [] => []
  | [f] => field_text f
  | f :: fs => field_text f ++ lit "," ++ join_fields fs
  end.

Fixpoint field_get (fs : list jfield) (key : bytes) : option bytes :=
  match fs with
  | [] => None
  | f :: fs => if streq (f_key f) key then Some (f_text f) else field_get fs key
  end.

Definition fields_object (fs : list jfield) : JSON_Object := map (λ f, (f_key f, f_value f)) fs.

Lemma fields_keys fs : map fst (fields_object fs) = map f_key fs.
Proof. unfold fields_object. rewrite map_map. done. Qed.

Lemma field_get_own fs f : NoDup (map f_key fs) → f ∈ fs → field_get fs (f_key f) = Some (f_text f).
Proof.
  induction fs as [|g fs IH]; intros Hnd Hf; [by apply not_elem_of_nil in Hf|]. cbn in Hnd |- *.
  apply NoDup_cons in Hnd as [Hg Hnd]. apply elem_of_cons in Hf as [->|Hf]; [by rewrite streq_refl|].
  rewrite (proj2 (streq_false _ _)); [by apply IH|]. intros E. apply Hg. rewrite E.
  apply list_elem_of_fmap. by exists f.
Qed.

Lemma fields_body get level fs n i :
  Forall (λ f, get (f_key f) = Some (f_text f)) fs → i + length fs = n → fs ≠ [] →
  serialize_members get false level n (fields_object fs) i = Some (join_fields fs).
Proof.
  intros Hg. revert i. induction Hg as [|f fs Hf Hg IH]; intros i Hi Hne; [done|].
  cbn [fields_object map serialize_members]. rewrite Hf. cbn [mbind option_bind].
  destruct fs as [|g fs].
  - cbn [map serialize_members mbind option_bind]. unfold comma. cbn [length] in Hi.
    rewrite (proj2 (Nat.ltb_ge _ _)) by lia. cbn [indent newline app join_fields]. unfold field_text.
    by rewrite !app_nil_r.
  - fold (fields_object (g :: fs)). rewrite IH by (done || cbn [length] in *; lia). cbn [mbind option_bind].
    unfold comma. cbn [length] in Hi. rewrite (proj2 (Nat.ltb_lt _ _)) by lia.
    cbn [indent newline app join_fields]. unfold field_text. by rewrite <- !app_assoc.
Qed.

Lemma fields_read fs :
  NoDup (map f_key fs) → Forall (λ f, no_nul (f_key f) ∧ reads (f_value f) (f_text f)) fs →
  reads (JSONObject (fields_object fs)) (lit "{" ++ join_fields fs ++ lit "}").
Proof.
  intros Hnd Hf. destruct (decide (fs = [])) as [->|Hne].
  { destruct (object_reads false [] 0) as (text & E & Hr); [constructor..|]. apply (inj Some) in E as <-. exact Hr. }
  assert (Forall (member_ok (field_get fs)) (fields_object fs)) as Hm.
  { apply Forall_forall. intros m (f & -> & Hin)%list_elem_of_fmap. rewrite Forall_forall in Hf.
    destruct (Hf f Hin) as [Hk Hr]. split; [done|]. exists (f_text f). split; [|done]. by apply field_get_own. }
  destruct (members_read (field_get fs) false (fields_object fs) 0 Hm) as (body & Hb & Hr).
  - by rewrite fields_keys.
  - by destruct fs.
  - unfold fields_object in Hb at 1. rewrite length_map, fields_body in Hb; [|apply Forall_forall|done..].
    + apply (inj Some) in Hb as <-. exact Hr.
    + intros f Hin. by apply field_get_own.
Qed.

(** Every value that can be written is read back. *)
Lemma value_reads b v :
  json_ok v → ∀ level, ∃ text, json_serialize_to_buffer_r b v level = Some text ∧ reads v text.
Proof.
  induction v as [|s|d|o IH|a IH|x] using JSON_Value_nested_ind; intros Hok level.
  - eexists. split; [done|apply null_reads].
  - eexists. split; [done|by apply string_reads].
  - destruct Hok. eexists. split; [done|by apply number_reads].
  - apply ok_object in Hok as (Hnd & Hn & Hok). apply object_reads; [done..|].
    rewrite Forall_forall in *. intros v Hv. by apply IH; [|apply Hok].
  - apply ok_array in Hok. apply array_reads.
    rewrite Forall_forall in *. intros v Hv. by apply IH; [|apply Hok].
  - eexists. split; [done|apply boolean_reads].
Qed.

End values.

(** ** Properties of every text the serialiser writes

    A property of texts that holds of strings and of texts without quotes,
    backslashes, slashes, brackets and NUL, and that concatenation and brackets
    preserve, holds of the text of every value. *)

Definition plain_char (c : ascii) : bool :=
  negb (ceq c "\" || ceq c "034" || ceq c "/" || ceq c "{" || ceq c "}" || ceq c "[" || ceq c "]" || ceq c NUL).

Class TextClosed (T : bytes → Prop) : Prop := {
  closed_app a b : T a → T b → T (a ++ b);
  closed_string s : T (json_serialize_string s);
  closed_plain s : forallb plain_char s = true → T s;
  closed_array s : T s → T (lit "[" ++ s ++ lit "]");
  closed_object s : T s → T (lit "{" ++ s ++ lit "}");
}.

Lemma digits_plain ds : digits_only ds → forallb plain_char ds = true.
Proof.
  induction 1 as [|c ds Hc _ IH]; [done|]. cbn. rewrite IH, andb_true_r. digit_facts Hc.
  unfold plain_char. by repeat match goal with H : ceq c _ = false |- _ => rewrite H; clear H end.
Qed.

Lemma g_text_plain t : g_text t → forallb plain_char t = true.
Proof.
  intros [sg c i f e -> Hsg Hi Hz Hf He].
  rewrite forallb_app. change (c :: i ++ f ++ e) with ((c :: i) ++ f ++ e).
  rewrite !forallb_app, (digits_plain (c :: i)) by done.
  assert (forallb plain_char sg = true) as -> by (by destruct Hsg as [-> | ->]).
  assert (forallb plain_char f = true) as ->.
  { destruct Hf as [->|(ds & -> & Hds)]; [done|]. exact (digits_plain ds Hds). }
  destruct He as [->|(s1 & d & ds & -> & Hs & Hds)]; [done|].
  by destruct Hs as [-> | ->]; apply (digits_plain (d :: ds)).
Qed.

Lemma spaces_plain w : Forall (λ c, isspace c = true) w → forallb plain_char w = true.
Proof.
  induction 1 as [|c w Hc _ IH]; [done|]. cbn. rewrite IH, andb_true_r. clear -Hc.
  by destruct c as [[] [] [] [] [] [] [] []].
Qed.

Lemma comma_plain i n : forallb plain_char (comma i n) = true.
Proof. unfold comma. by case_if. Qed.

Section closed.
Context {DT : DoubleText} (T : bytes → Prop) {TC : TextClosed T}.

Ltac closed :=
  repeat lazymatch goal with
  | |- T (_ ++ _) => apply closed_app
  | |- T (json_serialize_string _) => apply closed_string
  | |- T (comma _ _) => apply closed_plain, comma_plain
  | |- T (indent _ _) => apply closed_plain, spaces_plain, spaces_indent
  | |- T (newline _) => apply closed_plain, spaces_plain, spaces_newline
  | |- T (space _) => apply closed_plain, spaces_plain, spaces_space
  | |- T (lit _) => by apply closed_plain
  | |- T [] => by apply closed_plain
  | |- T (if _ then _ else _) => case_if
  end.

Lemma items_closed ser b level count a i body :
  Forall (λ v, ∀ text, ser v = Some text → T text) a →
  serialize_items ser b level count a i = Some body → T body.
Proof.
  intros Ha. revert i body. induction Ha as [|v a Hv Ha IH]; intros i body; [intros [= <-]; closed|].
  change (serialize_items ser b level count (v :: a) i) with
    (text ← ser v; rest ← serialize_items ser b level count a (S i);
     Some (indent b (level + 1) ++ text ++ comma i count ++ newline b ++ rest)).
  destruct (ser v) as [text|]; [|done]. cbn [mbind option_bind].
  destruct (serialize_items _ _ _ _ a _) as [r|] eqn:E; [|done]. intros <-%(inj Some). closed; eauto.
Qed.

Lemma members_closed get b level count o i body :
  (∀ n text, get n = Some text → T text) →
  serialize_members get b level count o i = Some body → T body.
Proof.
  intros Hg. revert i body. induction o as [|[n v] o IH]; intros i body; [intros [= <-]; closed|].
  change (serialize_members get b level count ((n, v) :: o) i) with
    (text ← get n; rest ← serialize_members get b level count o (S i);
     Some (indent b (level + 1) ++ json_serialize_string n ++ lit ":" ++ space b
           ++ text ++ comma i count ++ newline b ++ rest)).
  destruct (get n) as [text|] eqn:En; [|done]. cbn [mbind option_bind].
  destruct (serialize_members _ _ _ _ o _) as [r|] eqn:E; [|done]. intros <-%(inj Some). closed; eauto.
Qed.

Lemma with_value_in {A} (f : JSON_Value → option A) o n x :
  with_value f None n o = Some x → ∃ v, v ∈ map snd o ∧ f v = Some x.
Proof.
  induction o as [|[n' v] o IH]; cbn; [done|]. case_if.
  - intros H. exists v. split; [by left|done].
  - intros (v' & ? & ?)%IH. exists v'. split; [by right|done].
Qed.

Lemma value_closed b v :
  json_ok v → ∀ level text, json_serialize_to_buffer_r b v level = Some text → T text.
Proof.
  induction v as [|s|d|o IH|a IH|x] using JSON_Value_nested_ind; intros Hok level text;
    cbn [json_serialize_to_buffer_r]; cbv zeta; try (intros <-%(inj Some); closed).
  - apply closed_plain, g_text_plain, Hok.
  - apply ok_object in Hok as (_ & _ & Hok).
    destruct (serialize_members _ _ _ _ _ _) as [body|] eqn:E; [|done]. cbn [mbind option_bind].
    intros <-%(inj Some). eapply members_closed in E.
    + rewrite (app_assoc _ body), (app_assoc (_ ++ body)). apply closed_object. by closed.
    + intros n t (v & Hv & Ht)%with_value_in. rewrite Forall_forall in IH, Hok.
      eapply IH; [done|by apply Hok|done].
  - apply ok_array in Hok. destruct (serialize_items _ _ _ _ _ _) as [body|] eqn:E; [|done].
    cbn [mbind option_bind]. intros <-%(inj Some). eapply items_closed in E.
    + rewrite (app_assoc _ body), (app_assoc (_ ++ body)). apply closed_array. by closed.
    + rewrite Forall_forall in *. intros v Hv t Ht. eapply IH; [done|by apply Hok|done].
Qed.

Lemma object_body_closed b o level text :
  json_ok (JSONObject o) → json_serialize_to_buffer_r b (JSONObject o) level = Some text →
  ∃ mid, text = lit "{" ++ mid ++ lit "}" ∧ T mid.
Proof.
  intros (_ & _ & Hok)%ok_object. cbn [json_serialize_to_buffer_r]. cbv zeta.
  destruct (serialize_members _ _ _ _ _ _) as [body|] eqn:E; [|done]. cbn [mbind option_bind].
  intros <-%(inj Some). eapply members_closed in E.
  - rewrite (app_assoc _ body), (app_assoc (_ ++ body)). eexists. split; [done|]. by closed.
  - intros n t (v & Hv & Ht)%with_value_in. rewrite Forall_forall in Hok.
    eapply value_closed; [by apply Hok|done].
Qed.

End closed.

(** ** The text holds no NUL *)

Lemma nul_free_app a b : no_nul (a ++ b) ↔ no_nul a ∧ no_nul b.
Proof. apply Forall_app. Qed.

Lemma escape_char_no_nul c : no_nul (escape_char c).
Proof. unfold no_nul. by destruct c as [[] [] [] [] [] [] [] []]; repeat (apply Forall_cons; split). Qed.

#[global] Instance no_nul_closed : TextClosed no_nul.
Proof.
  split.
  - intros a b Ha Hb. by apply nul_free_app.
  - intros s. unfold json_serialize_string. rewrite !nul_free_app. split; [by repeat (apply Forall_cons; split)|].
    split; [|by repeat (apply Forall_cons; split)].
    induction s as [|c s IH]; cbn; [constructor|]. apply nul_free_app. split; [apply escape_char_no_nul|done].
  - intros s Hs. apply Forall_forall. intros c Hc ->. apply forallb_forall with (x := NUL) in Hs; [done|by apply list_elem_of_In].
  - intros s Hs. rewrite !nul_free_app. by split; [|split]; try done; repeat (apply Forall_cons; split).
  - intros s Hs. rewrite !nul_free_app. by split; [|split]; try done; repeat (apply Forall_cons; split).
Qed.

(** ** The text holds no comments *)

Section comments.
Context {DT : DoubleText} (token en : bytes).

(** Both kinds of comment start with a slash. *)
Let st : bytes := "/"%char :: token.

Definition transparent (text : bytes) : Prop :=
  ∀ f rest, remove_loop (length text + f) st en false false (text ++ rest) =
            app text <$> remove_loop f st en false false rest.

(** The same inside a string. *)
Definition transparent_inside (text : bytes) : Prop :=
  ∀ f rest, remove_loop (length text + f) st en true false (text ++ rest) =
            app text <$> remove_loop f st en true false rest.

Lemma transparent_nil : transparent [].
Proof. intros f rest. cbn. by destruct (remove_loop _ _ _ _ _ _). Qed.

Lemma transparent_app a b : transparent a → transparent b → transparent (a ++ b).
Proof.
  intros Ha Hb f rest. rewrite length_app, <- app_assoc, <- Nat.add_assoc, Ha, Hb.
  destruct (remove_loop f _ _ _ _ rest); [|done]. cbn. by rewrite <- app_assoc.
Qed.

Lemma transparent_char c :
  ceq c "\" = false → ceq c "034" = false → ceq c "/" = false → transparent [c].
Proof.
  intros Hb Hq Hs f rest.
  cbn [length Nat.add app remove_loop]. rewrite Hb, Hq. cbn [andb negb st has_prefix].
  assert (ceq "/" c = false) as -> by (apply ceq_false; apply ceq_false in Hs; congruence).
  by destruct (remove_loop f _ _ _ _ rest).
Qed.

Lemma transparent_plain s : forallb plain_char s = true → transparent s.
Proof.
  induction s as [|c s IH]; [intros _; apply transparent_nil|]. cbn. intros [Hc Hs]%andb_true_iff.
  unfold plain_char in Hc. bool_to_prop.
  apply (transparent_app [c] s); [by apply transparent_char; apply ceq_false|by apply IH].
Qed.

Lemma inside_app a b : transparent_inside a → transparent_inside b → transparent_inside (a ++ b).
Proof.
  intros Ha Hb f rest. rewrite length_app, <- app_assoc, <- Nat.add_assoc, Ha, Hb.
  destruct (remove_loop f _ _ _ _ rest); [|done]. cbn. by rewrite <- app_assoc.
Qed.

Lemma inside_char c : ceq c "\" = false → ceq c "034" = false → transparent_inside [c].
Proof.
  intros Hb Hq f rest. cbn [length Nat.add app remove_loop]. rewrite Hb, Hq.
  cbn [andb negb]. by destruct (remove_loop f _ _ _ _ rest).
Qed.

Lemma inside_pair e : transparent_inside ["\"%char; e].
Proof.
  intros f rest. cbn [length Nat.add app remove_loop].
  change (ceq "\" "\" && negb false) with true. cbv iota. rewrite !andb_false_r. cbn [andb negb].
  by destruct (remove_loop f _ _ _ _ rest).
Qed.

Lemma inside_escape c : transparent_inside (escape_char c).
Proof.
  pose proof (reads_back_all c) as Hr. unfold reads_back, reads_as in Hr.
  destruct (escape_char c) as [|b [|e [|h1 [|h2 [|h3 [|h4 [|]]]]]]]; try done; bool_to_prop; subst.
  - by apply inside_char; apply ceq_false.
  - apply inside_pair.
  - repeat match goal with H : hex_char_to_int _ ≠ _ |- _ => apply hex_char_plain in H as [? ?] end.
    apply (inside_app ["\"%char; "u"%char] ["0"%char; "0"%char; h3; h4]); [apply inside_pair|].
    apply (inside_app ["0"%char] ["0"%char; h3; h4]); [by apply inside_char|].
    apply (inside_app ["0"%char] [h3; h4]); [by apply inside_char|].
    apply (inside_app [h3] [h4]); by apply inside_char; apply ceq_false.
Qed.

Lemma inside_escaped s : transparent_inside (escaped s).
Proof.
  induction s as [|c s IH]; cbn [escaped map concat].
  - intros f rest. cbn. by destruct (remove_loop _ _ _ _ _ _).
  - apply inside_app; [apply inside_escape|done].
Qed.

Lemma transparent_string s : transparent (json_serialize_string s).
Proof.
  intros f rest. unfold json_serialize_string. fold (escaped s).
  rewrite !length_app, <- !app_assoc. cbn [length Nat.add app remove_loop].
  change (ceq "034" "\") with false. change (ceq "034" "034") with true. cbn [andb negb].
  rewrite <- Nat.add_assoc, (inside_escaped s). cbn [length Nat.add app remove_loop].
  change (ceq "034" "\") with false. change (ceq "034" "034") with true. cbn [andb negb].
  destruct (remove_loop f _ _ _ _ rest); [|done]. cbn. by rewrite <- app_assoc.
Qed.

#[global] Instance transparent_closed : TextClosed transparent.
Proof.
  split; [apply transparent_app|apply transparent_string|apply transparent_plain| |]; intros s Hs;
    repeat apply transparent_app; try done; by apply transparent_char.
Qed.

End comments.

Section round_trip.
Context {DT : DoubleText}.

Lemma remove_comments_id token en b v text :
  json_ok v → json_serialize_to_buffer_r b v 0 = Some text → length en ≠ 0 →
  remove_comments text ("/"%char :: token) en = Some text.
Proof.
  intros Hok Ht Hen. pose proof (value_closed (transparent token en) b v Hok 0 text Ht 1 []) as H.
  unfold remove_comments. rewrite (proj2 (Nat.eqb_neq (length en) 0)) by done. cbn [length Nat.eqb orb].
  rewrite app_nil_r, Nat.add_1_r in H. rewrite H. cbn. by rewrite app_nil_r.
Qed.

Lemma written_text b v :
  json_ok v → ∃ text, json_serialize_to_string b v = Some text ∧
    json_serialize_to_buffer_r b v 0 = Some text ∧ reads v text.
Proof.
  intros Hok. destruct (value_reads b v Hok 0) as (text & Ht & Hr).
  exists text. split; [|done]. unfold json_serialize_to_string, json_serialize_to_buffer,
    json_serialization_size. rewrite Ht. cbv zeta.
  rewrite (proj2 (Z.eqb_neq _ 0)) by lia. cbn [orb]. by rewrite Z.ltb_irrefl.
Qed.

Lemma written_back b v :
  json_ok v →
  ∃ text, json_serialize_to_string b v = Some text ∧ json_serialize_to_buffer_r b v 0 = Some text ∧
    let back := if json_depth v <=? S MAX_NESTING then Some v else None in
    json_parse_string text = back ∧ json_parse_string_with_comments text = back.
Proof.
  intros Hok. destruct (written_text b v Hok) as (text & Hs & Ht & Ho & Hr).
  exists text. split; [done|]. split; [done|].
  assert (value_of (parse_value 0%Z (S MAX_NESTING) text 0%Z) =
          (if json_depth v <=? S MAX_NESTING then Some v else None)) as Hp.
  { specialize (Hr (S MAX_NESTING) [] 0%Z eq_refl). rewrite app_nil_r in Hr. unfold outcome in Hr.
    destruct (json_depth v <=? S MAX_NESTING); [destruct Hr as [t' ->]|red in Hr; rewrite Hr]; done. }
  cbv zeta. split.
  - unfold json_parse_string.
    replace (ceq (char_at text 0) "239") with false; [exact Hp|].
    destruct text as [|c text]; [done|]. unfold opener in Ho. cbn in Ho |- *.
    by destruct (ceq c "239"), (ceq c "}"), (ceq c "]"), (isspace c), (ceq c NUL).
  - rewrite json_budget_equiv. unfold parse_stripped, strip_comments.
    change (lit "/*") with ("/"%char :: lit "*"). change (lit "//") with ("/"%char :: lit "/").
    by rewrite (remove_comments_id _ _ b v), (remove_comments_id _ _ b v).
Qed.

(** C32 (roundtrip). What either serialiser writes for a value, both readers read back as the
    same value when it is nested at most [MAX_NESTING] deep, and as NULL when
    it is nested deeper; the reader that removes comments first finds none. *)
Theorem json_round_trip b v :
  json_ok v →
  ∃ text, json_serialize_to_string b v = Some text ∧
    let back := if json_depth v <=? S MAX_NESTING then Some v else None in
    json_parse_string text = back ∧ json_parse_string_with_comments text = back.
Proof. intros Hok. destruct (written_back b v Hok) as (text & Hs & _ & H). by exists text. Qed.

(** ** What the reader rejects *)

Lemma escaped_process_to a fuel p out :
  no_nul a → ∀ left,
  process_loop (length a + fuel) (escaped a ++ p) (length (escaped a) + left) out =
  process_loop fuel p left (out ++ a).
Proof.
  intros Ha left. revert out. induction a as [|c a IH]; intros out; [by rewrite app_nil_r|].
  apply no_nul_cons in Ha as [Hc Ha]. cbn [escaped map concat length Nat.add]. fold (escaped a).
  rewrite <- app_assoc, length_app, <- Nat.add_assoc, escape_step by done.
  rewrite IH by done. by rewrite <- app_assoc.
Qed.

Lemma escaped_quotes_to a p : skip_quotes_loop (escaped a ++ p) = skip_quotes_loop p.
Proof.
  induction a as [|c a IH]; cbn [escaped map concat]; [done|].
  by rewrite <- app_assoc, escape_quotes.
Qed.

Lemma parse_quoted s t levels :
  runs (get_quoted_string 0) ("034"%char :: s) t None →
  parse_value 0 (S levels) ("034"%char :: s) t = PNull.
Proof. intros H. by apply (null_bind _ (λ str, json_value_init 0 (JSONString str))) in H. Qed.

Lemma quoted_unterminated a t :
  runs (get_quoted_string 0) ("034"%char :: escaped a) t None.
Proof.
  unfold get_quoted_string. eapply runs_bind; [by eexists|]. intros t1.
  unfold skip_quotes. cbn [deref head default from_option id].
  change (negb (ceq "034" "034")) with false. cbv iota. cbn [drop]. rewrite ?drop_0.
  rewrite <- (app_nil_r (escaped a)), escaped_quotes_to. done.
Qed.

Lemma quoted_control a c s t :
  no_nul a → c ≠ NUL → (uchar c < 32)%Z →
  runs (get_quoted_string 0) ("034"%char :: escaped a ++ c :: s) t None.
Proof.
  intros Ha Hn Hc. unfold get_quoted_string. eapply runs_bind; [by eexists|]. intros t1.
  unfold skip_quotes. cbn [deref head default from_option id].
  change (negb (ceq "034" "034")) with false. cbv iota. cbn [drop]. rewrite ?drop_0.
  assert (c ≠ "034"%char ∧ c ≠ "\"%char) as [Hq Hb] by (split; intros ->; by vm_compute in Hc).
  rewrite escaped_quotes_to, skip_quotes_plain by done.
  destruct (skip_quotes_loop s) as [r|] eqn:E; [|done]. apply skip_quotes_shrinks in E.
  eapply runs_bind; [by eexists|]. intros t2. unfold process_string.
  eapply runs_bind; [apply gives_malloc|]. intros t3. pose proof (escaped_length a Ha).
  cbn [length]. rewrite length_app. cbn [length].
  replace (S (length (escaped a) + S (length s)) - length r - 2)
    with (length (escaped a) + S (length s - length r - 1)) by lia.
  replace (S (length (escaped a) + S (length s)))
    with (length a + S (length (escaped a) - length a + S (length s))) by lia.
  rewrite escaped_process_to by done. cbn [process_loop deref head default from_option id].
  rewrite (proj2 (ceq_false _ _) Hn), (proj2 (ceq_false _ _) Hb). cbn [orb Nat.eqb].
  by rewrite (proj2 (Z.ltb_lt _ _) Hc).
Qed.

Lemma parse_quoted_null s :
  (∀ t, runs (get_quoted_string 0) ("034"%char :: s) t None) →
  json_parse_string ("034"%char :: s) = None.
Proof.
  intros H. unfold json_parse_string. change (ceq (char_at ("034"%char :: s) 0) "239") with false.
  cbn [andb]. by rewrite parse_quoted.
Qed.

(** A string that is not closed and a string with an unescaped control
    character are rejected, whatever precedes the error in the string and
    follows it in the text. *)
Theorem json_bad_string_rejected a c rest :
  no_nul a → c ≠ NUL → (uchar c < 32)%Z →
  json_parse_string ("034"%char :: escaped a) = None ∧
  json_parse_string ("034"%char :: escaped a ++ c :: rest) = None.
Proof.
  intros Ha Hn Hc. split; apply parse_quoted_null; intros t.
  - apply quoted_unterminated.
  - by apply quoted_control.
Qed.

End round_trip.

(** ** What the reader returns *)

(** Objects with distinct names, names and strings without terminators. *)
Fixpoint json_shape (v : JSON_Value) : Prop :=
  match v with
  | JSONString s => no_nul s
  | JSONArray a => (fix all a := match a with [] => True | v :: a => json_shape v ∧ all a end) a
  | JSONObject o =>
      NoDup (map fst o) ∧
      (fix all o := match o with
                    | [] => True
                    | (n, v) :: o => (no_nul n ∧ json_shape v) ∧ all o
                    end) o
  | _ => True
  end.

Lemma shape_array a : json_shape (JSONArray a) ↔ Forall json_shape a.
Proof. cbn. induction a as [|v a IH]; [done|]. by rewrite IH, Forall_cons. Qed.

Lemma shape_object o :
  json_shape (JSONObject o) ↔
  NoDup (map fst o) ∧ Forall no_nul (map fst o) ∧ Forall json_shape (map snd o).
Proof.
  cbn. apply and_iff_compat_l. induction o as [|[n v] o IH]; cbn; [done|].
  rewrite IH, !Forall_cons. tauto.
Qed.

Lemma ok_shape {DT : DoubleText} v : json_ok v → json_shape v.
Proof.
  induction v as [|s|d|o IH|a IH|x] using JSON_Value_nested_ind; intros Hok; try done.
  - apply ok_object in Hok as (Hnd & Hn & Hok). apply shape_object. split_and!; [done..|].
    rewrite Forall_forall in IH, Hok |- *. intros v Hv. by apply IH; [|apply Hok].
  - apply ok_array in Hok. apply shape_array.
    rewrite Forall_forall in *. intros v Hv. by apply IH; [|apply Hok].
Qed.

(** Every result of a parser satisfies [Q]. *)
Definition yields {A} (p : parser A) (Q : A → Prop) : Prop :=
  ∀ s t, match p s t with POk a _ _ => Q a | _ => True end.

Lemma yields_bind {A B} (p : parser A) (f : A → parser B) (P : A → Prop) (Q : B → Prop) :
  yields p P → (∀ a, P a → yields (f a) Q) → yields (p ≫= f) Q.
Proof.
  intros Hp Hf s t. unfold mbind, parser_bind. specialize (Hp s t).
  destruct (p s t) as [a r t'| |]; [by apply Hf|done..].
Qed.

Lemma yields_any {A} (p : parser A) : yields p (λ _, True).
Proof. intros s t. by destruct (p s t). Qed.

Lemma yields_ret {A} (a : A) (Q : A → Prop) : Q a → yields (mret a) Q.
Proof. intros H s t. done. Qed.

Lemma yields_null {A} (Q : A → Prop) : yields null Q.
Proof. by intros s t. Qed.

Lemma yields_fuel {A} (Q : A → Prop) : yields out_of_fuel Q.
Proof. by intros s t. Qed.

#[local] Hint Resolve yields_ret yields_null yields_fuel : core.

(** Walks the binds whose intermediate results do not matter. *)
Ltac yield :=
  repeat lazymatch goal with
  | |- yields (mbind _ _) _ => eapply yields_bind; [apply yields_any|intros ? _]
  | |- yields (match ?x with _ => _ end) _ => destruct x eqn:?
  | |- yields _ _ => solve [eauto]
  end.

Section shape.
Context {DT : DoubleText} (B : Z).

Definition shaped (levels : nat) (v : JSON_Value) : Prop := json_shape v ∧ json_depth v ≤ levels.

Lemma quoted_yields : yields (get_quoted_string B) no_nul.
Proof.
  unfold get_quoted_string, process_string. yield. apply yields_ret, cstr_no_nul.
Qed.

Lemma init_yields v (Q : JSON_Value → Prop) : Q v → yields (json_value_init B v) Q.
Proof. intros H. unfold json_value_init. yield. Qed.

Lemma nget_none o n : json_object_nget_value o n = None → n ∉ map fst o.
Proof.
  induction o as [|[n' v] o IH]; cbn; [intros _; apply not_elem_of_nil|]. case_if; [done|].
  intros H. apply not_elem_of_cons. split; [done|by apply IH].
Qed.

Definition members_ok (levels : nat) (o : JSON_Object) : Prop :=
  NoDup (map fst o) ∧ Forall no_nul (map fst o) ∧ Forall (shaped levels) (map snd o).

Lemma object_add_yields levels o cap n v :
  members_ok levels o → no_nul n → shaped levels v →
  yields (json_object_add B o cap n v) (λ oc, members_ok levels (fst oc)).
Proof.
  intros (Hnd & Hn & Hv) Hname Hval. unfold json_object_add.
  destruct (json_object_nget_value o n) eqn:E; [auto|]. apply nget_none in E.
  eapply yields_bind; [apply yields_any|intros cap' _].
  eapply (yields_bind _ _ (λ n', n' = n)).
  { unfold parson_strdup. yield. }
  intros ? ->. apply yields_ret. cbn [fst]. unfold members_ok. rewrite !map_app, !Forall_app. cbn.
  rewrite !Forall_singleton. split_and!; try done.
  apply NoDup_app. split_and!; [done| |by apply NoDup_singleton].
  intros x Hx. rewrite list_elem_of_singleton. by intros ->.
Qed.

Lemma array_add_yields levels a cap v :
  Forall (shaped levels) a → shaped levels v →
  yields (json_array_add B a cap v) (λ ac, Forall (shaped levels) (fst ac)).
Proof.
  intros Ha Hv. unfold json_array_add. eapply yields_bind; [apply yields_any|intros cap' _].
  apply yields_ret. cbn. apply Forall_app. by rewrite Forall_singleton.
Qed.

Lemma object_loop_yields levels pv fuel o cap :
  yields pv (shaped levels) → members_ok levels o →
  yields (object_loop B pv fuel o cap) (members_ok levels).
Proof.
  intros Hpv. revert o cap. induction fuel as [|fuel IH]; intros o cap Ho; cbn [object_loop]; [auto|].
  eapply yields_bind; [apply yields_any|intros c _]. destruct (ceq c NUL); [auto|].
  eapply yields_bind; [apply quoted_yields|intros key Hkey].
  do 2 (eapply yields_bind; [apply yields_any|intros ? _]). case_if; [auto|].
  eapply yields_bind; [apply yields_any|intros ? _].
  eapply yields_bind; [apply Hpv|intros v Hv].
  eapply yields_bind; [by apply object_add_yields|intros oc Hoc].
  do 2 (eapply yields_bind; [apply yields_any|intros ? _]). case_if; [auto|].
  do 2 (eapply yields_bind; [apply yields_any|intros ? _]). by apply IH.
Qed.

Lemma array_loop_yields levels pv fuel a cap :
  yields pv (shaped levels) → Forall (shaped levels) a →
  yields (array_loop B pv fuel a cap) (Forall (shaped levels)).
Proof.
  intros Hpv. revert a cap. induction fuel as [|fuel IH]; intros a cap Ha; cbn [array_loop]; [auto|].
  eapply yields_bind; [apply yields_any|intros c _]. destruct (ceq c NUL); [auto|].
  eapply yields_bind; [apply Hpv|intros v Hv].
  eapply yields_bind; [by apply array_add_yields|intros ac Hac].
  do 2 (eapply yields_bind; [apply yields_any|intros ? _]). case_if; [auto|].
  do 2 (eapply yields_bind; [apply yields_any|intros ? _]). by apply IH.
Qed.

Lemma items_depth_le levels a : Forall (shaped levels) a → items_depth a ≤ levels.
Proof. unfold items_depth. induction 1 as [|v a [_ Hv] _ IH]; cbn [foldr]; lia. Qed.

Lemma shaped_array levels a : Forall (shaped levels) a → shaped (S levels) (JSONArray a).
Proof.
  intros Ha. split.
  - apply shape_array. eapply Forall_impl; [done|]. by intros v [? _].
  - rewrite depth_array. apply items_depth_le in Ha. lia.
Qed.

Lemma shaped_object levels o : members_ok levels o → shaped (S levels) (JSONObject o).
Proof.
  intros (Hnd & Hn & Hv). split.
  - apply shape_object. split_and!; [done..|]. eapply Forall_impl; [done|]. by intros v [? _].
  - rewrite depth_object. apply items_depth_le in Hv. unfold members_depth. lia.
Qed.

Lemma object_value_yields levels pv :
  yields pv (shaped levels) → yields (parse_object_value B pv) (shaped (S levels)).
Proof.
  intros Hpv. unfold parse_object_value.
  assert (members_ok levels []) as H0 by (repeat split; constructor).
  eapply (yields_bind _ _ (λ l, l = [])); [unfold json_value_init_object; yield|intros ? ->].
  eapply yields_bind; [apply yields_any|intros ? _]. case_if; [auto|].
  do 3 (eapply yields_bind; [apply yields_any|intros ? _]). case_if.
  { eapply yields_bind; [apply yields_any|intros ? _]. apply yields_ret. by apply shaped_object. }
  eapply yields_bind; [apply yields_any|intros ? _].
  eapply yields_bind; [by apply object_loop_yields|intros members Ho].
  do 2 (eapply yields_bind; [apply yields_any|intros ? _]). case_if; [auto|].
  do 2 (eapply yields_bind; [apply yields_any|intros ? _]). apply yields_ret. by apply shaped_object.
Qed.

Lemma array_value_yields levels pv :
  yields pv (shaped levels) → yields (parse_array_value B pv) (shaped (S levels)).
Proof.
  intros Hpv. unfold parse_array_value.
  eapply (yields_bind _ _ (λ l, l = [])); [unfold json_value_init_array; yield|intros ? ->].
  eapply yields_bind; [apply yields_any|intros ? _]. case_if; [auto|].
  do 3 (eapply yields_bind; [apply yields_any|intros ? _]). case_if.
  { eapply yields_bind; [apply yields_any|intros ? _]. apply yields_ret, shaped_array. constructor. }
  eapply yields_bind; [apply yields_any|intros ? _].
  eapply yields_bind; [by apply array_loop_yields|intros items Ha].
  do 2 (eapply yields_bind; [apply yields_any|intros ? _]). case_if; [auto|].
  do 2 (eapply yields_bind; [apply yields_any|intros ? _]). apply yields_ret. by apply shaped_array.
Qed.

Lemma scalar_shaped v levels : json_shape v → json_depth v = 1 → shaped (S levels) v.
Proof. intros Hs Hd. split; [done|]. rewrite Hd. lia. Qed.

Lemma parse_yields levels : yields (parse_value B levels) (shaped levels).
Proof.
  induction levels as [|levels IH]; cbn [parse_value]; [auto|].
  do 2 (eapply yields_bind; [apply yields_any|intros ? _]).
  case_if; [by apply object_value_yields|]. case_if; [by apply array_value_yields|].
  case_if.
  { unfold parse_string_value. eapply yields_bind; [apply quoted_yields|intros str Hstr].
    apply init_yields. by apply scalar_shaped. }
  unfold parse_boolean_value, parse_number_value, parse_null_value, json_value_init_number.
  yield; apply init_yields; by apply scalar_shaped.
Qed.

End shape.

(** Whatever the text, a value the reader returns has objects with pairwise
    distinct names, no terminator inside a name or a string, and a nesting
    within the limit; so a text with a repeated name is rejected. *)
Theorem json_parse_well_formed {DT : DoubleText} s v :
  json_parse_string s = Some v ∨ json_parse_string_with_comments s = Some v →
  shaped (S MAX_NESTING) v.
Proof.
  unfold json_parse_string, json_parse_string_with_comments, value_of.
  intros [H|H].
  - match type of H with context [parse_value ?B ?l ?s ?t] =>
      pose proof (parse_yields B l s t) as Hy; destruct (parse_value B l s t) end; by simplify_eq.
  - repeat case_match; try done.
    match goal with E : parse_value ?B ?l ?s ?t = _ |- _ =>
      pose proof (parse_yields B l s t) as Hy; rewrite E in Hy end. by simplify_eq.
Qed.

(** ** An instance: whole numbers below 10^10, as ["%1.17g"] and [strtod] treat
    them *)

#[export] Instance whole_numbers : DoubleText := {
  fmt_g17 d := if (d_man d <? 0)%Z then lit "-" ++ Numerals.fmt_u (- d_man d)
               else Numerals.fmt_u (d_man d);
  dec_value s := Finite (d_int (if ceq (deref s) "-" then - Numerals.read_num 10 (drop 1 s)
                                else Numerals.read_num 10 s));
}.

Lemma whole_ok_17 : number_ok (d_int 17).
Proof.
  split; [|reflexivity]. exists [] "1"%char (lit "7") [] []; try done; try (by left).
  by repeat constructor.
Qed.

(** A configuration with a string, a number, a nested array and an escaped
    path. *)
Definition sample : JSON_Value :=
  JSONObject [(lit "func_name", JSONString (lit "open/*"));
              (lit "limits", JSONArray [JSONNumber (d_int 17); JSONNull; JSONArray []]);
              (lit "log", JSONBoolean true)].

Lemma sample_ok : json_ok sample.
Proof.
  cbn. split.
  { apply (bool_decide_eq_true_1 _). vm_compute. reflexivity. }
  assert (∀ s, forallb (λ c, negb (ceq c NUL)) s = true → no_nul s) as H.
  { intros s Hs. apply Forall_forall. intros c Hc. apply list_elem_of_In in Hc.
    eapply forallb_forall in Hs; [|done]. apply negb_true_iff in Hs. by apply ceq_false. }
  split_and!; try (by apply H); try done. apply whole_ok_17.
Qed.

Lemma json_round_trip_witness :
  ∃ text, json_serialize_to_string true sample = Some text ∧
    json_parse_string text = Some sample ∧ json_parse_string_with_comments text = Some sample.
Proof. exact (json_round_trip true sample sample_ok). Defined.

Lemma json_bad_string_rejected_witness :
  json_parse_string ("034"%char :: escaped (lit "ab") ++ "010"%char :: lit "c") = None.
Proof.
  apply (json_bad_string_rejected (lit "ab") "010"%char (lit "c")); [|done|done].
  by repeat constructor.
Defined.

Lemma json_parse_well_formed_witness :
  shaped (S MAX_NESTING) (JSONArray [JSONNumber (d_int 17)]).
Proof. apply (json_parse_well_formed (lit "[17]")). left. vm_compute. reflexivity. Defined.

(** ** Departures from the JSON grammar *)

(** Text after the value is ignored. *)
Theorem json_trailing_text : json_parse_string (lit "{} trailing") = Some (JSONObject []).
Proof. reflexivity. Qed.

(** A lone minus sign is the number 0. *)
Theorem json_lone_minus : json_parse_string (lit "-") = Some (JSONNumber d_zero).
Proof. reflexivity. Qed.

(** A zero with an exponent, a number of the grammar, is rejected. *)
Theorem json_zero_exponent : json_parse_string (lit "0e5") = None.
Proof. reflexivity. Qed.

(** An escaped U+0000 cuts the string. *)
Theorem json_escaped_nul :
  json_parse_string (["034"%char] ++ lit "ab\u0000cd" ++ ["034"%char]) = Some (JSONString (lit "ab")).
Proof. reflexivity. Qed.

(** The removal of comments looks for block comments first, also behind two
    slashes: a path in a line comment can swallow the configuration. *)
Theorem json_comment_swallows :
  json_parse_string_with_comments (lit "[1 // see /etc/*" ++ ["010"%char] ++ lit ",2 /* two */ ]")
  = None ∧
  json_parse_string_with_comments (lit "[1 // see /etc/" ++ ["010"%char] ++ lit ",2 /* two */ ]")
  = Some (JSONArray [JSONNumber (d_int 1); JSONNumber (d_int 2)]).
Proof. split; vm_compute; reflexivity. Qed.

End JsonRoundTrip.
