(* ===== verification/JsonSize.v ===== *)
(** * Strings of a parsed value

    No string of a value the parser of [parson.c] builds is longer than the text
    it was read from. *)

From S2P Require Import Prelude Libc Json JsonText JsonBudget.

Module JsonSize.

Import Libc Json JsonText JsonBudget.

(** Every string in the value has at most [L] bytes. *)
Fixpoint short (L : nat) (v : JSON_Value) : Prop :=
  match v with
  | JSONString s => length s ≤ L
  | JSONArray a => (fix all a := match a with [] => True | v :: a => short L v ∧ all a end) a
  | JSONObject o => (fix all o := match o with [] => True | (_, v) :: o => short L v ∧ all o end) o
  | _ => True
  end.

Lemma short_array L a : short L (JSONArray a) ↔ Forall (short L) a.
Proof.
  induction a as [|v a IH]; [split; [constructor|done]|]. rewrite Forall_cons, <- IH. done.
Qed.

Lemma short_object L o : short L (JSONObject o) ↔ Forall (λ m, short L m.2) o.
Proof.
  induction o as [|[n v] o IH]; [split; [constructor|done]|]. rewrite Forall_cons, <- IH. done.
Qed.

(** What a run returns, if it returns a value. *)
Definition gives {A} (p : parser A) (s : bytes) (t : Z) (Q : A → bytes → Prop) : Prop :=
  match p s t with POk a r _ => Q a r | _ => True end.

Lemma short_bind {A B} (p : parser A) (f : A → parser B) s t Q :
  gives p s t (λ a r, ∀ t', gives (f a) r t' Q) → gives (p ≫= f) s t Q.
Proof. unfold gives, mbind, parser_bind. destruct (p s t); [|done..]. intros H. apply H. Qed.

Lemma gives_mono {A} (p : parser A) s t (Q Q' : A → bytes → Prop) :
  gives p s t Q → (∀ a r, Q a r → Q' a r) → gives p s t Q'.
Proof. unfold gives. destruct (p s t); naive_solver. Qed.

Section size.
Context {DT : DoubleText}.

(** The parser leaves a suffix of its text and builds a value whose strings are
    not longer than it. *)
Definition sized (p : parser JSON_Value) : Prop :=
  ∀ s t L, length s ≤ L → gives p s t (λ v r, length r ≤ length s ∧ short L v).

Ltac run :=
  lazymatch goal with
  | |- gives (mbind _ _) _ _ _ => apply short_bind
  | |- ∀ _ : Z, _ => intros ?
  | |- gives null _ _ _ => exact I
  | |- gives out_of_fuel _ _ _ => exact I
  | |- gives (mret _) _ _ _ => red; cbn [mret parser_ret]
  | |- gives text _ _ _ => red; cbn [text]
  | |- gives (seek _) _ _ _ => red; cbn [seek]
  | |- gives peek _ _ _ => red; cbn [peek]
  | |- gives SKIP_CHAR _ _ _ => red; cbn [SKIP_CHAR]
  | |- gives SKIP_WHITESPACES _ _ _ => red; cbn [SKIP_WHITESPACES]
  | |- gives (parson_malloc _ _) _ _ _ => red; cbn [parson_malloc Z.ltb Z.compare andb]
  end.

Lemma quoted_gives s t : gives (get_quoted_string 0) s t (λ str r, length r ≤ length s ∧ length str ≤ length s).
Proof.
  pose proof (quoted_cost s t) as H. unfold returns in H. unfold gives.
  destruct (get_quoted_string 0 s t) as [str r t'| |]; [|done..]. unfold len in H. lia.
Qed.

Lemma init_gives v s t : gives (json_value_init 0 v) s t (λ v' r, v' = v ∧ r = s).
Proof. unfold json_value_init. by repeat run. Qed.

Lemma array_add_gives a cap v s t : gives (json_array_add 0 a cap v) s t (λ ac r, ac.1 = a ++ [v] ∧ r = s).
Proof.
  unfold json_array_add, json_array_resize. run. destruct (_ <=? _)%Z; cbv zeta; [|by repeat run].
  run. destruct (_ =? 0)%Z; by repeat run.
Qed.

Lemma object_add_gives o cap n v s t :
  gives (json_object_add 0 o cap n v) s t (λ oc r, oc.1 = o ++ [(n, v)] ∧ r = s).
Proof.
  unfold json_object_add, json_object_resize, parson_strdup. destruct (json_object_nget_value o n); [run|].
  run. destruct (_ <=? _)%Z; cbv zeta; [|by repeat run]. run. destruct (_ =? 0)%Z; by repeat run.
Qed.

Lemma array_loop_gives pv fuel a cap s t L :
  sized pv → length s ≤ L → Forall (short L) a →
  gives (array_loop 0 pv fuel a cap) s t (λ a' r, length r ≤ length s ∧ Forall (short L) a').
Proof.
  intros Hpv. revert a cap s t. induction fuel as [|fuel IH]; intros a cap s t Hs Ha; [exact I|].
  cbn [array_loop]. do 3 run. case_if; [by run|].
  run. eapply gives_mono; [by apply Hpv|]. intros v r [Hr Hv] ?.
  run. eapply gives_mono; [apply array_add_gives|]. intros [a' cap'] r' [Ea ->] ?. cbn [fst snd] in *. subst a'.
  pose proof (skip_ws_len r) as Hw. assert (Forall (short L) (a ++ [v])) by (apply Forall_app; by repeat constructor).
  do 6 run. destruct (negb _); [run; split; [lia|done]|].
  do 6 run. pose proof (skip_ws_len (drop 1 (skip isspace r))) as Hw1. rewrite length_drop in Hw1.
  eapply gives_mono; [apply IH; [lia|done]|]. intros a' r' [? ?]. split; [lia|done].
Qed.

Lemma object_loop_gives pv fuel o cap s t L :
  sized pv → length s ≤ L → Forall (λ m, short L m.2) o →
  gives (object_loop 0 pv fuel o cap) s t (λ o' r, length r ≤ length s ∧ Forall (λ m, short L m.2) o').
Proof.
  intros Hpv. revert o cap s t. induction fuel as [|fuel IH]; intros o cap s t Hs Ho; [exact I|].
  cbn [object_loop]. do 3 run. case_if; [by run|].
  run. eapply gives_mono; [apply quoted_gives|]. intros k r0 [Hr0 _] ?. pose proof (skip_ws_len r0) as Hw0.
  do 6 run. destruct (negb _); [run|]. do 4 run. rewrite <- ?length_drop in *.
  assert (length (drop 1 (skip isspace r0)) ≤ length s) as Hd by (rewrite length_drop; lia).
  eapply gives_mono; [apply (Hpv _ _ L); lia|]. intros v r [Hr Hv] ?.
  run. eapply gives_mono; [apply object_add_gives|]. intros [o' cap'] r' [Ea ->] ?. cbn [fst snd] in *. subst o'.
  pose proof (skip_ws_len r) as Hw.
  assert (Forall (λ m, short L m.2) (o ++ [(k, v)])) by (apply Forall_app; by repeat constructor).
  do 6 run. destruct (negb _); [run; split; [lia|done]|].
  do 6 run. pose proof (skip_ws_len (drop 1 (skip isspace r))) as Hw1. rewrite length_drop in Hw1.
  eapply gives_mono; [apply IH; [lia|done]|]. intros o' r' [? ?]. split; [lia|done].
Qed.

Lemma array_sized pv : sized pv → sized (parse_array_value 0 pv).
Proof.
  intros Hpv s t L Hs. unfold parse_array_value, json_value_init_array. repeat run. case_if; [run|].
  repeat run. pose proof (skip_ws_len (drop 1 s)) as Hw. rewrite length_drop in Hw. case_if.
  { repeat run. rewrite length_drop. split; [lia|done]. }
  repeat run. eapply gives_mono; [apply (array_loop_gives pv _ _ _ _ _ L); [done|lia|constructor]|].
  intros a r [Hr Ha] ?. pose proof (skip_ws_len r) as Hw1. repeat run. case_if; [run|]. unfold json_array_resize.
  run. destruct (_ =? 0)%Z; repeat run. rewrite length_drop. split; [lia|by apply short_array].
Qed.

Lemma object_sized pv : sized pv → sized (parse_object_value 0 pv).
Proof.
  intros Hpv s t L Hs. unfold parse_object_value, json_value_init_object. repeat run. case_if; [run|].
  repeat run. pose proof (skip_ws_len (drop 1 s)) as Hw. rewrite length_drop in Hw. case_if.
  { repeat run. rewrite length_drop. split; [lia|done]. }
  repeat run. eapply gives_mono; [apply (object_loop_gives pv _ _ _ _ _ L); [done|lia|constructor]|].
  intros o r [Hr Ho] ?. pose proof (skip_ws_len r) as Hw1. repeat run. case_if; [run|]. unfold json_object_resize.
  run. destruct (_ =? 0)%Z; repeat run. rewrite length_drop. split; [lia|by apply short_object].
Qed.

Lemma string_sized : sized (parse_string_value 0).
Proof.
  intros s t L Hs. unfold parse_string_value. run. eapply gives_mono; [apply quoted_gives|]. intros str r [Hr Hl] ?.
  eapply gives_mono; [apply init_gives|]. intros v r' [-> ->]. split; [done|]. cbn. lia.
Qed.

Lemma init_sized v n s t L :
  short L v → gives (seek (drop n s) ≫= λ _, json_value_init 0 v) s t (λ v r, length r ≤ length s ∧ short L v).
Proof.
  intros Hv. repeat run. eapply gives_mono; [apply init_gives|]. intros v' r [-> ->]. rewrite length_drop. split; [lia|done].
Qed.

Lemma boolean_sized : sized (parse_boolean_value 0).
Proof. intros s t L Hs. unfold parse_boolean_value. repeat run. case_if; [by apply init_sized|]. case_if; [by apply init_sized|run]. Qed.

Lemma null_sized : sized (parse_null_value 0).
Proof. intros s t L Hs. unfold parse_null_value. repeat run. case_if; [by apply init_sized|run]. Qed.

Lemma number_sized : sized (parse_number_value 0).
Proof.
  intros s t L Hs. unfold parse_number_value. repeat run. destruct (strtod s) as [v e] eqn:E. apply strtod_shrinks in E.
  destruct v; try run; (destruct (negb _); [run|]); repeat run; unfold json_value_init_number; [|run].
  eapply gives_mono; [apply init_gives|]. intros v r [-> ->]. by split.
Qed.

Lemma parse_sized levels : sized (parse_value 0 levels).
Proof.
  induction levels as [|levels IH]; intros s t L Hs; [exact I|]. cbn [parse_value]. repeat run.
  pose proof (skip_ws_len s) as Hw.
  assert (∀ p u, sized p → gives p (skip isspace s) u (λ v r, length r ≤ length s ∧ short L v)) as Hgo.
  { intros p u Hp. eapply gives_mono; [apply (Hp _ _ L); lia|]. intros v r [? ?]. split; [lia|done]. }
  repeat (case_if; [apply Hgo; eauto using object_sized, array_sized, string_sized, boolean_sized, number_sized, null_sized|]).
  run.
Qed.

(** The strings of a parsed value. *)
Lemma parsed_short s v : json_parse_string s = Some v → short (length s) v.
Proof.
  unfold json_parse_string. set (s' := if _ && _ then _ else s).
  assert (length s' ≤ length s) as Hl by (unfold s'; case_if; rewrite ?length_drop; lia).
  pose proof (parse_sized (S MAX_NESTING) s' 0%Z (length s) Hl) as H. unfold gives in H.
  destruct (parse_value 0 (S MAX_NESTING) s' 0%Z) as [v' r t'| |]; [|done..]. intros [= <-]. apply H.
Qed.

Lemma member_short L o n v : short L (JSONObject o) → json_object_nget_value o n = Some v → short L v.
Proof.
  rewrite short_object. induction 1 as [|[k w] o Hw _ IH]; cbn [json_object_nget_value]; [done|].
  case_if; [|done]. by intros [= <-].
Qed.

Lemma string_short L v n b :
  short L v → json_object_get_string (json_value_get_object (Some v)) n = Some b → length b ≤ L.
Proof.
  intros Hv. destruct v as [| | |o| |]; try done. unfold json_object_get_string, json_object_get_value.
  cbn [json_value_get_object]. destruct (json_object_nget_value o (lit n)) as [w|] eqn:E; [|done].
  pose proof (member_short _ _ _ _ Hv E) as Hw. destruct w; try done. by intros [= <-].
Qed.

End size.
End JsonSize.
