(* ===== verification/JsonObject.v ===== *)
(** * JSON objects and arrays that are built and edited

    The operations of [src/config/json/parson.c] the tools build their output
    with: setting, removing and looking up members, also along a dotted path,
    editing arrays, copying and validating values, and the UTF-8 check of the
    strings a caller supplies.

    An operation returns the object afterwards, or [None] for [JSONFailure],
    which leaves the object as it was; allocation succeeds. The values passed
    in belong to no other value: their [parent] is NULL. *)

From S2P Require Import Prelude Libc Json JsonText JsonRoundTrip.

Module JsonObject.

Import Libc Json.

(** ** UTF-8 *)

Definition IS_CONT (b : Z) : bool := (Z.land b 192 =? 128)%Z.

Definition num_bytes_in_utf8_sequence (c : Z) : nat :=
  if ((c =? 192) || (c =? 193) || (244 <? c))%Z || IS_CONT c then 0
  else if (Z.land c 128 =? 0)%Z then 1
  else if (Z.land c 224 =? 192)%Z then 2
  else if (Z.land c 240 =? 224)%Z then 3
  else if (Z.land c 248 =? 240)%Z then 4
  else 0.

(** [verify_utf8_sequence]: the length of the sequence, if it is valid. *)
Definition verify_utf8_sequence (s : bytes) : option nat :=
  let b i := uchar (char_at s i) in
  let len := num_bytes_in_utf8_sequence (b 0) in
  let next cp i := Z.lor (Z.shiftl cp 6) (Z.land (b i) 63) in
  let cp :=
    if len =? 1 then Some (b 0)
    else if (len =? 2) && IS_CONT (b 1) then Some (next (Z.land (b 0) 31) 1)
    else if (len =? 3) && IS_CONT (b 1) && IS_CONT (b 2) then
      Some (next (next (Z.land (b 0) 15) 1) 2)
    else if (len =? 4) && IS_CONT (b 1) && IS_CONT (b 2) && IS_CONT (b 3) then
      Some (next (next (next (Z.land (b 0) 7) 1) 2) 3)
    else None in
  match cp with
  | None => None
  | Some cp =>
      if ((cp <? 128)%Z && (1 <? len)) || ((cp <? 2048)%Z && (2 <? len))
         || ((cp <? 65536)%Z && (3 <? len)) then None
      else if (1114111 <? cp)%Z then None
      else if ((55296 <=? cp) && (cp <=? 57343))%Z then None
      else Some len
  end.

Fixpoint utf8_loop (fuel : nat) (s : bytes) : bool :=
  match fuel with
  | 0 => false
  | S fuel =>
      match s with
      | [] => true
      | _ =>
          match verify_utf8_sequence s with
          | None => false
          | Some len => utf8_loop fuel (drop len s)
          end
      end
  end.

Definition is_valid_utf8 (s : bytes) : bool := utf8_loop (S (length s)) s.

Definition json_value_init_string (s : bytes) : option JSON_Value :=
  if negb (is_valid_utf8 s) then None else Some (JSONString s).

(** ** Members *)

Definition object_add (o : JSON_Object) (name : bytes) (v : JSON_Value) : option JSON_Object :=
  match json_object_nget_value o name with
  | Some _ => None
  | None => Some (o ++ [(name, v)])
  end.

(** The value of the first member of the name replaced. *)
Fixpoint replace_value (o : JSON_Object) (name : bytes) (v : JSON_Value) : JSON_Object :=
  match o with
  | [] => []
  | (n, v') :: o => if streq n name then (n, v) :: o else (n, v') :: replace_value o name v
  end.

Definition json_object_set_value (o : JSON_Object) (name : bytes) (v : option JSON_Value)
    : option JSON_Object :=
  match v with
  | None => None
  | Some v =>
      match json_object_nget_value o name with
      | Some _ => Some (replace_value o name v)
      | None => object_add o name v
      end
  end.

Definition json_object_set_string (o : JSON_Object) (name s : bytes) : option JSON_Object :=
  json_object_set_value o name (json_value_init_string s).
Definition json_object_set_number (o : JSON_Object) (name : bytes) (d : double)
    : option JSON_Object :=
  json_object_set_value o name (Some (JSONNumber d)).
Definition json_object_set_boolean (o : JSON_Object) (name : bytes) (b : bool)
    : option JSON_Object :=
  json_object_set_value o name (Some (JSONBoolean b)).
Definition json_object_set_null (o : JSON_Object) (name : bytes) : option JSON_Object :=
  json_object_set_value o name (Some JSONNull).

(** The index of the first member of the name. *)
Fixpoint name_index (o : JSON_Object) (name : bytes) : option nat :=
  match o with
  | [] => None
  | (n, _) :: o => if streq n name then Some 0 else S <$> name_index o name
  end.

(** [json_object_remove]: the last member takes the place of the removed
    one. *)
Definition json_object_remove (o : JSON_Object) (name : bytes) : option JSON_Object :=
  match json_object_nget_value o name with
  | None => None
  | Some _ =>
      let last_item_index := length o - 1 in
      match name_index o name, o !! last_item_index with
      | Some i, Some m =>
          Some (take last_item_index (if i =? last_item_index then o else <[i := m]> o))
      | _, _ => None
      end
  end.

(** ** Dotted paths *)

Definition dot : ascii := ".".

(** The name up to the first dot and what follows the dot. *)
Definition dot_split (name : bytes) : option (bytes * bytes) :=
  match strchr name dot with
  | None => None
  | Some p => Some (take (length name - length p) name, drop 1 p)
  end.

Fixpoint dotget_loop (fuel : nat) (o : option JSON_Object) (name : bytes) : option JSON_Value :=
  match fuel with
  | 0 => None
  | S fuel =>
      match dot_split name with
      | None => match o with None => None | Some o => json_object_nget_value o name end
      | Some (first, rest) =>
          let o := match o with None => None | Some o => json_object_nget_value o first end in
          dotget_loop fuel (json_value_get_object o) rest
      end
  end.

Definition json_object_dotget_value (o : JSON_Object) (name : bytes) : option JSON_Value :=
  dotget_loop (S (length name)) (Some o) name.

(** [json_object_dotset_value]: the object afterwards and the status. The
    object a step descends into is changed in place, so what was created stays
    when a later step fails. *)
Fixpoint dotset_loop (fuel : nat) (o : JSON_Object) (name : bytes) (v : JSON_Value)
    : JSON_Object * bool :=
  match fuel with
  | 0 => (o, false)
  | S fuel =>
      match dot_split name with
      | None =>
          match json_object_set_value o name (Some v) with
          | None => (o, false)
          | Some o => (o, true)
          end
      | Some (current_name, rest) =>
          match json_value_get_object (json_object_nget_value o current_name) with
          | Some temp =>
              let '(temp, ok) := dotset_loop fuel temp rest v in
              (replace_value o current_name (JSONObject temp), ok)
          | None =>
              match object_add o current_name (JSONObject []) with
              | None => (o, false)
              | Some o =>
                  let '(temp, ok) := dotset_loop fuel [] rest v in
                  (replace_value o current_name (JSONObject temp), ok)
              end
          end
      end
  end.

Definition json_object_dotset_value (o : JSON_Object) (name : bytes) (v : JSON_Value)
    : JSON_Object * bool :=
  dotset_loop (S (length name)) o name v.

(** ** Arrays *)

Definition json_array_remove (a : JSON_Array) (ix : nat) : option JSON_Array :=
  if length a <=? ix then None else Some (take ix a ++ drop (S ix) a).

Definition json_array_replace_value (a : JSON_Array) (ix : nat) (v : option JSON_Value)
    : option JSON_Array :=
  match v with
  | None => None
  | Some v => if length a <=? ix then None else Some (<[ix := v]> a)
  end.

Definition json_array_append_value (a : JSON_Array) (v : option JSON_Value) : option JSON_Array :=
  match v with None => None | Some v => Some (a ++ [v]) end.

Definition json_array_append_string (a : JSON_Array) (s : bytes) : option JSON_Array :=
  json_array_append_value a (json_value_init_string s).

(** ** Copies and schemas *)

Definition copy_items (copy : JSON_Value → option JSON_Value) : JSON_Array → JSON_Array → option JSON_Array :=
  fix go a acc :=
    match a with
    | [] => Some acc
    | v :: a => match copy v with None => None | Some v' => go a (acc ++ [v']) end
    end.

(** The copy loop over the names of an object. *)
Definition copy_members (get : bytes → option JSON_Value)
    : JSON_Object → JSON_Object → option JSON_Object :=
  fix go o acc :=
    match o with
    | [] => Some acc
    | (key, _) :: o =>
        match get key with
        | None => None
        | Some v => match object_add acc key v with None => None | Some acc => go o acc end
        end
    end.

Fixpoint json_value_deep_copy (v : JSON_Value) : option JSON_Value :=
  match v with
  | JSONArray a => JSONArray <$> copy_items json_value_deep_copy a []
  | JSONObject o =>
      JSONObject <$> copy_members (λ key, JsonText.with_value json_value_deep_copy None key o) o []
  | JSONBoolean b => Some (JSONBoolean b)
  | JSONNumber d => Some (JSONNumber d)
  | JSONString s => Some (JSONString s)
  | JSONNull => Some JSONNull
  end.

(** [json_validate]: a null schema admits everything, the first item of an
    array schema is the schema of all items. *)
Fixpoint json_validate (schema value : JSON_Value) : bool :=
  match schema, value with
  | JSONNull, _ => true
  | JSONArray sa, JSONArray va =>
      match sa with
      | [] => true
      | s :: _ => forallb (json_validate s) va
      end
  | JSONObject so, JSONObject vo =>
      if length so =? 0 then true
      else if length vo <? length so then false
      else
        forallb (λ key,
          JsonText.with_value
            (λ s, match json_object_nget_value vo key with
                  | None => false
                  | Some v => json_validate s v
                  end) false key so) (map fst so)
  | JSONString _, JSONString _ | JSONNumber _, JSONNumber _ | JSONBoolean _, JSONBoolean _ => true
  | _, _ => false
  end.

(** ** Objects as finite maps *)

Definition names (o : JSON_Object) : list bytes := map fst o.
Definition obj_map (o : JSON_Object) : gmap bytes JSON_Value := list_to_map o.

Lemma nget_lookup o n : json_object_nget_value o n = obj_map o !! n.
Proof.
  induction o as [|[n' v] o IH]; cbn; [done|]. unfold obj_map in *. cbn.
  destruct (streq n' n) eqn:E; bool_to_prop.
  - subst. by rewrite lookup_insert_eq.
  - by rewrite lookup_insert_ne.
Qed.

Lemma nget_absent o n : json_object_nget_value o n = None ↔ n ∉ names o.
Proof. rewrite nget_lookup. symmetry. apply not_elem_of_list_to_map. Qed.

Lemma replace_names o n v : names (replace_value o n v) = names o.
Proof.
  induction o as [|[n' v'] o IH]; cbn; [done|]. case_if; cbn; [done|]. unfold names in IH. by rewrite IH.
Qed.

Lemma replace_map o n v : n ∈ names o → obj_map (replace_value o n v) = <[n := v]> (obj_map o).
Proof.
  induction o as [|[n' v'] o IH]; cbn; intros Hn; [by apply not_elem_of_nil in Hn|].
  unfold obj_map in *. destruct (streq n' n) eqn:E; bool_to_prop; cbn.
  - subst. by rewrite insert_insert_eq.
  - apply elem_of_cons in Hn as [->|Hn]; [done|]. rewrite IH by done. by rewrite insert_insert_ne.
Qed.

Lemma add_map o n v :
  NoDup (names o) → n ∉ names o →
  NoDup (names (o ++ [(n, v)])) ∧ obj_map (o ++ [(n, v)]) = <[n := v]> (obj_map o).
Proof.
  intros Hnd Hn. unfold names in *. rewrite map_app. cbn.
  assert (NoDup (map fst o ++ [n])) as H.
  { apply NoDup_app. split_and!; [done| |by apply NoDup_singleton].
    intros x Hx ->%list_elem_of_singleton. done. }
  split; [done|]. unfold obj_map. rewrite list_to_map_app.
  cbn. apply map_eq. intros k. destruct (decide (k = n)) as [->|Hk].
  - rewrite lookup_insert_eq, lookup_union_r; [by rewrite lookup_insert_eq|].
    by apply not_elem_of_list_to_map.
  - rewrite lookup_insert_ne by done. destruct (list_to_map o !! k) eqn:E.
    + by erewrite lookup_union_Some_l.
    + rewrite lookup_union_r by done. by rewrite lookup_insert_ne.
Qed.

Lemma set_refines o n v :
  NoDup (names o) → ∃ o', json_object_set_value o n (Some v) = Some o' ∧ NoDup (names o') ∧
                          obj_map o' = <[n := v]> (obj_map o).
Proof.
  intros Hnd. unfold json_object_set_value, object_add.
  destruct (json_object_nget_value o n) eqn:E.
  - eexists. split; [done|]. rewrite replace_names. split; [done|]. apply replace_map.
    destruct (decide (n ∈ names o)); [done|]. by rewrite (proj2 (nget_absent o n)) in E.
  - apply nget_absent in E. eexists. split; [done|]. by apply add_map.
Qed.

Lemma name_index_split o n i :
  name_index o n = Some i → ∃ l1 v l2, o = l1 ++ (n, v) :: l2 ∧ length l1 = i.
Proof.
  revert i. induction o as [|[n' v] o IH]; intros i; cbn; [done|]. case_if.
  - intros [= <-]. subst. by exists [], v, o.
  - destruct (name_index o n) as [j|]; [|done]. intros [= <-].
    destruct (IH j eq_refl) as (l1 & v' & l2 & -> & <-). by exists ((n', v) :: l1), v', l2.
Qed.

Lemma name_index_some o n : is_Some (json_object_nget_value o n) → is_Some (name_index o n).
Proof.
  induction o as [|[n' v] o IH]; cbn; [by intros []|]. case_if; [by eexists|].
  intros [j ->]%IH. by eexists.
Qed.

(** The array after a removal holds the other members. *)
Lemma remove_perm o n o' :
  json_object_remove o n = Some o' → ∃ v, o ≡ₚ (n, v) :: o'.
Proof.
  unfold json_object_remove. destruct (json_object_nget_value o n) as [w|]; [|done].
  destruct (name_index o n) as [i|] eqn:Ei; [|done].
  apply name_index_split in Ei as (l1 & v & l2 & -> & <-). rewrite length_app. cbn [length].
  destruct (_ !! _) as [m|] eqn:Em; [|done]. intros [= <-]. exists v.
  destruct l2 as [|x l2 _] using rev_ind.
  - cbn [length]. replace (length l1 + 1 - 1) with (length l1) by lia.
    rewrite Nat.eqb_refl, take_app_length. by rewrite Permutation_app_comm.
  - rewrite length_app in *. cbn [length] in *.
    rewrite (proj2 (Nat.eqb_neq _ _)) by lia.
    assert (m = x) as ->.
    { rewrite lookup_app_r in Em by lia. rewrite app_comm_cons in Em.
      rewrite lookup_app_r in Em by (cbn; lia). cbn [length] in Em.
      replace (length l1 + S (length l2 + 1) - 1 - length l1 - S (length l2)) with 0 in Em by lia.
      by injection Em. }
    rewrite insert_app_r_alt, Nat.sub_diag by lia. cbn [insert list_insert].
    replace (length l1 + S (length l2 + 1) - 1) with (length (l1 ++ x :: l2))
      by (rewrite length_app; cbn; lia).
    assert (l1 ++ x :: l2 ++ [x] = (l1 ++ x :: l2) ++ [x]) as -> by (by rewrite <- app_assoc).
    rewrite take_app_length.
    rewrite <- Permutation_middle. rewrite (Permutation_app_comm l2 [x]). cbn. done.
Qed.

Lemma remove_refines o n :
  NoDup (names o) →
  match json_object_remove o n with
  | Some o' => NoDup (names o') ∧ obj_map o' = delete n (obj_map o) ∧ n ∈ names o
  | None => n ∉ names o
  end.
Proof.
  intros Hnd. destruct (json_object_remove o n) as [o'|] eqn:E.
  - apply remove_perm in E as [v Hp].
    assert (names o ≡ₚ n :: names o') as Hn by (unfold names; by rewrite Hp).
    assert (NoDup (n :: names o')) as [Hni Hnd']%NoDup_cons by (by rewrite <- Hn).
    split_and!; [done| |rewrite Hn; by left].
    unfold obj_map. rewrite (list_to_map_proper o ((n, v) :: o')) by done. cbn.
    rewrite delete_insert_id; [done|]. by apply not_elem_of_list_to_map.
  - apply nget_absent. unfold json_object_remove in E.
    destruct (json_object_nget_value o n) as [w|] eqn:Ew; [|done].
    destruct (name_index_some o n) as [i Hi]; [by rewrite Ew|]. rewrite Hi in E.
    apply name_index_split in Hi as (l1 & v & l2 & -> & _).
    destruct (_ !! _) eqn:Em; [done|]. apply lookup_ge_None in Em.
    rewrite length_app in Em. cbn in Em. lia.
Qed.

(** The member array of an object implements a finite map from names to
    values: looking a name up, setting a member and removing one are the map's
    lookup, insertion and deletion, and the names stay distinct, also when a
    removal moves the last member into the gap. *)
Theorem json_object_is_map o n v :
  NoDup (names o) →
  json_object_nget_value o n = obj_map o !! n ∧
  (∃ o', json_object_set_value o n (Some v) = Some o' ∧ NoDup (names o') ∧
         obj_map o' = <[n := v]> (obj_map o)) ∧
  match json_object_remove o n with
  | Some o' => NoDup (names o') ∧ obj_map o' = delete n (obj_map o) ∧ n ∈ names o
  | None => n ∉ names o
  end.
Proof.
  intros Hnd. split; [apply nget_lookup|]. split; [by apply set_refines|by apply remove_refines].
Qed.

Lemma json_object_is_map_witness :
  NoDup (names [(lit "a", JSONNull); (lit "b", JSONNull)]) ∧
  obj_map [(lit "a", JSONNull); (lit "b", JSONNull)] !! lit "b" = Some JSONNull.
Proof.
  assert (NoDup (names [(lit "a", JSONNull); (lit "b", JSONNull)])) as H.
  { apply (bool_decide_eq_true_1 _). vm_compute. reflexivity. }
  split; [exact H|].
  rewrite <- (proj1 (json_object_is_map [(lit "a", JSONNull); (lit "b", JSONNull)] (lit "b") JSONNull H)).
  reflexivity.
Defined.

(** ** Dotted paths *)

Lemma dot_split_some name a b :
  dot_split name = Some (a, b) → name = a ++ dot :: b.
Proof.
  unfold dot_split. destruct (strchr name dot) as [p|] eqn:E; [|done].
  apply strchr_suffix in E as (q & -> & _ & r & ->). intros [= <- <-].
  rewrite length_app. cbn [length drop]. rewrite drop_0.
  replace (length q + S (length r) - S (length r)) with (length q) by lia.
  by rewrite take_app_length.
Qed.

Lemma replace_nget o n v :
  is_Some (json_object_nget_value o n) → json_object_nget_value (replace_value o n v) n = Some v.
Proof.
  intros H. rewrite nget_lookup, replace_map; [apply lookup_insert_eq|].
  destruct (decide (n ∈ names o)) as [|Hn]; [done|]. apply nget_absent in Hn. rewrite Hn in H. by destruct H.
Qed.

Lemma replace_same o n v : json_object_nget_value o n = Some v → replace_value o n v = o.
Proof.
  induction o as [|[n' v'] o IH]; cbn; [done|]. case_if; [by intros [= ->]|].
  intros H. by rewrite IH.
Qed.

Lemma set_nget o n v o' :
  json_object_set_value o n (Some v) = Some o' → json_object_nget_value o' n = Some v.
Proof.
  unfold json_object_set_value, object_add. destruct (json_object_nget_value o n) eqn:E.
  - intros [= <-]. apply replace_nget. by rewrite E.
  - intros [= <-]. clear -E. induction o as [|[n' v'] o IH]; cbn in *.
    + by rewrite streq_refl.
    + by destruct (streq n' n); [|apply IH].
Qed.

Lemma set_total o n v : is_Some (json_object_set_value o n (Some v)).
Proof. unfold json_object_set_value, object_add. destruct (json_object_nget_value o n); by eexists. Qed.

(** A path below a fresh object can always be set. *)
Lemma dotset_fresh fuel name v :
  length name < fuel → ∃ o, dotset_loop fuel [] name v = (o, true).
Proof.
  revert name. induction fuel as [|fuel IH]; intros name Hf; [lia|]. cbn [dotset_loop].
  destruct (dot_split name) as [[a b]|] eqn:E; [|by eexists].
  apply dot_split_some in E as ->. rewrite length_app in Hf. cbn in *.
  destruct (IH b) as [o ->]; [lia|]. by eexists.
Qed.

Lemma dotset_get fuel o name v :
  length name < fuel →
  let '(o', ok) := dotset_loop fuel o name v in
  if ok then dotget_loop fuel (Some o') name = Some v else o' = o.
Proof.
  revert o name. induction fuel as [|fuel IH]; intros o name Hf; [lia|].
  cbn [dotset_loop dotget_loop]. destruct (dot_split name) as [[a b]|] eqn:E.
  - apply dot_split_some in E as ->. rewrite length_app in Hf. cbn [length] in Hf.
    destruct (json_value_get_object (json_object_nget_value o a)) as [temp|] eqn:Et.
    + specialize (IH temp b ltac:(lia)). destruct (dotset_loop fuel temp b v) as [temp' ok].
      assert (json_object_nget_value o a = Some (JSONObject temp)) as Ea.
      { destruct (json_object_nget_value o a) as [[]|]; cbn in Et; by simplify_eq. }
      destruct ok; [|subst; by apply replace_same].
      by rewrite replace_nget by (by rewrite Ea).
    + unfold object_add. destruct (json_object_nget_value o a) as [w|] eqn:Ea; [done|].
      destruct (dotset_fresh fuel b v) as [temp Ht]; [lia|].
      specialize (IH [] b ltac:(lia)). rewrite Ht in *.
      rewrite replace_nget; [done|].
      pose proof (set_nget o a (JSONObject [])) as Hs. unfold json_object_set_value, object_add in Hs.
      rewrite Ea in Hs. by rewrite (Hs _ eq_refl).
  - destruct (set_total o name v) as [o' Ho]. rewrite Ho. by apply set_nget in Ho.
Qed.

(** Setting a value at a dotted path either succeeds, and the path then leads
    to the value, or fails and leaves the object as it was; it fails only for
    a path that has a step. *)
Theorem json_dot_path o name v :
  let '(o', ok) := json_object_dotset_value o name v in
  if ok then json_object_dotget_value o' name = Some v
  else o' = o ∧ dot ∈ name.
Proof.
  unfold json_object_dotset_value, json_object_dotget_value.
  pose proof (dotset_get (S (length name)) o name v ltac:(lia)) as H.
  destruct (dotset_loop (S (length name)) o name v) as [o' []] eqn:E; [done|]. split; [done|].
  cbn [dotset_loop] in E. destruct (dot_split name) as [[a b]|] eqn:Ed.
  - apply dot_split_some in Ed as ->. apply elem_of_app. right. by left.
  - by destruct (set_total o name v) as [x Hx]; rewrite Hx in E.
Qed.

(** ** Copies *)

Lemma copy_items_all copy a acc :
  Forall (λ v, copy v = Some v) a → copy_items copy a acc = Some (acc ++ a).
Proof.
  intros Ha. revert acc. induction Ha as [|v a Hv _ IH]; intros acc; cbn; [by rewrite app_nil_r|].
  rewrite Hv, IH. by rewrite <- app_assoc.
Qed.

Lemma copy_members_all get o acc :
  (∀ n v, (n, v) ∈ o → get n = Some v) → NoDup (names (acc ++ o)) →
  copy_members get o acc = Some (acc ++ o).
Proof.
  revert acc. induction o as [|[n v] o IH]; intros acc Hg Hnd; cbn; [by rewrite app_nil_r|].
  rewrite (Hg n v) by (by left). unfold object_add.
  assert (json_object_nget_value acc n = None) as ->.
  { apply nget_absent. unfold names in *. rewrite map_app in Hnd. apply NoDup_app in Hnd as (_ & Hd & _).
    intros Hn. apply (Hd n Hn). by left. }
  rewrite IH; [by rewrite <- app_assoc| |by rewrite <- app_assoc].
  intros n' v' H. apply Hg. by right.
Qed.

Lemma deep_copy_all v : JsonRoundTrip.json_shape v → json_value_deep_copy v = Some v.
Proof.
  induction v as [|s|d|o IH|a IH|x] using JsonRoundTrip.JSON_Value_nested_ind; intros Hs; try done.
  - apply JsonRoundTrip.shape_object in Hs as (Hnd & _ & Hs). cbn [json_value_deep_copy].
    rewrite (copy_members_all _ o []); [done| |done].
    intros n v Hin. rewrite (JsonRoundTrip.with_value_own _ _ o n v) by done.
    rewrite Forall_forall in IH, Hs.
    assert (v ∈ map snd o) by (apply list_elem_of_fmap; by exists (n, v)). by apply IH; [|apply Hs].
  - apply JsonRoundTrip.shape_array in Hs. cbn [json_value_deep_copy].
    rewrite (copy_items_all _ a []); [done|]. rewrite Forall_forall in *.
    intros v Hv. by apply IH; [|apply Hs].
Qed.

(** ** UTF-8: exactly the encodings of the Unicode scalar values *)

Definition scalar_value (cp : Z) : Prop := (0 ≤ cp < 55296 ∨ 57343 < cp ≤ 1114111)%Z.

Definition utf8_encode (cp : Z) : bytes :=
  if (cp <? 128)%Z then [JsonText.byte cp]
  else if (cp <? 2048)%Z then [JsonText.byte (192 + cp / 64); JsonText.byte (128 + cp mod 64)]
  else if (cp <? 65536)%Z then
    [JsonText.byte (224 + cp / 4096); JsonText.byte (128 + cp / 64 mod 64);
     JsonText.byte (128 + cp mod 64)]
  else
    [JsonText.byte (240 + cp / 262144); JsonText.byte (128 + cp / 4096 mod 64);
     JsonText.byte (128 + cp / 64 mod 64); JsonText.byte (128 + cp mod 64)].

Definition cont (b : Z) : bool := ((128 <=? b) && (b <=? 191))%Z.

Definition lead (b : Z) : nat :=
  if (b <=? 127)%Z then 1
  else if ((194 <=? b) && (b <=? 223))%Z then 2
  else if ((224 <=? b) && (b <=? 239))%Z then 3
  else if ((240 <=? b) && (b <=? 244))%Z then 4
  else 0.

Lemma byte_facts c :
  IS_CONT (uchar c) = cont (uchar c) ∧ num_bytes_in_utf8_sequence (uchar c) = lead (uchar c) ∧
  Z.land (uchar c) 63 = (uchar c mod 64)%Z ∧ Z.land (uchar c) 31 = (uchar c mod 32)%Z ∧
  Z.land (uchar c) 15 = (uchar c mod 16)%Z ∧ Z.land (uchar c) 7 = (uchar c mod 8)%Z.
Proof. by destruct c as [[] [] [] [] [] [] [] []]. Qed.

Lemma lor_shift a x : (0 ≤ a)%Z → (0 ≤ x < 64)%Z → Z.lor (Z.shiftl a 6) x = (a * 64 + x)%Z.
Proof.
  intros Ha Hx. rewrite Z.shiftl_mul_pow2 by lia. change (2 ^ 6)%Z with 64%Z.
  rewrite <- Z.lxor_lor.
  - symmetry. apply Z.add_nocarry_lxor. apply Z.bits_inj'. intros n Hn.
    rewrite Z.land_spec, Z.bits_0. change 64%Z with (2 ^ 6)%Z.
    destruct (Z.ltb_spec n 6).
    + by rewrite Z.mul_pow2_bits_low.
    + rewrite <- (Z.mod_small x (2 ^ 6)) by done. rewrite Z.mod_pow2_bits_high by lia. apply andb_false_r.
  - apply Z.bits_inj'. intros n Hn. rewrite Z.land_spec, Z.bits_0. change 64%Z with (2 ^ 6)%Z.
    destruct (Z.ltb_spec n 6).
    + by rewrite Z.mul_pow2_bits_low.
    + rewrite <- (Z.mod_small x (2 ^ 6)) by done. rewrite Z.mod_pow2_bits_high by lia. apply andb_false_r.
Qed.

Lemma uchar_byte z : (0 ≤ z < 256)%Z → uchar (JsonText.byte z) = z.
Proof.
  intros H. unfold uchar, JsonText.byte. rewrite N_ascii_embedding by lia. lia.
Qed.

Lemma byte_uchar c : JsonText.byte (uchar c) = c.
Proof. by destruct c as [[] [] [] [] [] [] [] []]. Qed.

(** [verify_utf8_sequence] in arithmetic. *)
Definition verify_arith (b0 b1 b2 b3 : Z) : option nat :=
  let len := lead b0 in
  let cp :=
    if len =? 1 then Some b0
    else if (len =? 2) && cont b1 then Some (b0 mod 32 * 64 + b1 mod 64)%Z
    else if (len =? 3) && cont b1 && cont b2 then
      Some ((b0 mod 16 * 64 + b1 mod 64) * 64 + b2 mod 64)%Z
    else if (len =? 4) && cont b1 && cont b2 && cont b3 then
      Some (((b0 mod 8 * 64 + b1 mod 64) * 64 + b2 mod 64) * 64 + b3 mod 64)%Z
    else None in
  match cp with
  | None => None
  | Some cp =>
      if ((cp <? 128)%Z && (1 <? len)) || ((cp <? 2048)%Z && (2 <? len))
         || ((cp <? 65536)%Z && (3 <? len)) then None
      else if (1114111 <? cp)%Z then None
      else if ((55296 <=? cp) && (cp <=? 57343))%Z then None
      else Some len
  end.

Lemma verify_is_arith s :
  verify_utf8_sequence s =
  verify_arith (uchar (char_at s 0)) (uchar (char_at s 1)) (uchar (char_at s 2)) (uchar (char_at s 3)).
Proof.
  unfold verify_utf8_sequence, verify_arith. cbv zeta.
  destruct (byte_facts (char_at s 0)) as (_ & -> & _ & H31 & H15 & H7).
  destruct (byte_facts (char_at s 1)) as (-> & _ & -> & _).
  destruct (byte_facts (char_at s 2)) as (-> & _ & -> & _).
  destruct (byte_facts (char_at s 3)) as (-> & _ & -> & _).
  rewrite H31, H15, H7. clear.
  pose proof (uchar_range (char_at s 0)) as R0.
  generalize (uchar (char_at s 0)), (uchar (char_at s 1)), (uchar (char_at s 2)), (uchar (char_at s 3)).
  intros b0 b1 b2 b3.
  pose proof (Z.mod_pos_bound b0 32 ltac:(lia)). pose proof (Z.mod_pos_bound b0 16 ltac:(lia)).
  pose proof (Z.mod_pos_bound b0 8 ltac:(lia)). pose proof (Z.mod_pos_bound b1 64 ltac:(lia)).
  pose proof (Z.mod_pos_bound b2 64 ltac:(lia)). pose proof (Z.mod_pos_bound b3 64 ltac:(lia)).
  rewrite (lor_shift (b0 mod 32)), (lor_shift (b0 mod 16)), (lor_shift (b0 mod 8)) by lia.
  rewrite (lor_shift (b0 mod 16 * 64 + b1 mod 64)), (lor_shift (b0 mod 8 * 64 + b1 mod 64)) by lia.
  by rewrite (lor_shift ((b0 mod 8 * 64 + b1 mod 64) * 64 + b2 mod 64)) by lia.
Qed.

Lemma char_at_uchar s i : (0 < uchar (char_at s i))%Z → i < length s.
Proof.
  intros H. destruct (decide (i < length s)) as [|Hi]; [done|].
  rewrite char_at_ge in H by lia. by vm_compute in H.
Qed.

Lemma encode2 b0 b1 :
  (194 ≤ b0 ≤ 223)%Z → (128 ≤ b1 ≤ 191)%Z →
  let cp := (b0 mod 32 * 64 + b1 mod 64)%Z in
  (128 ≤ cp < 2048)%Z ∧ utf8_encode cp = [JsonText.byte b0; JsonText.byte b1].
Proof.
  intros H0 H1. cbv zeta.
  replace (b0 mod 32)%Z with (b0 - 192)%Z by (Z.div_mod_to_equations; lia).
  replace (b1 mod 64)%Z with (b1 - 128)%Z by (Z.div_mod_to_equations; lia).
  set (cp := ((b0 - 192) * 64 + (b1 - 128))%Z). split; [lia|]. unfold utf8_encode.
  rewrite (proj2 (Z.ltb_ge cp 128)), (proj2 (Z.ltb_lt cp 2048)) by lia.
  repeat f_equal; subst cp; Z.div_mod_to_equations; lia.
Qed.

Lemma encode3 b0 b1 b2 :
  (224 ≤ b0 ≤ 239)%Z → (128 ≤ b1 ≤ 191)%Z → (128 ≤ b2 ≤ 191)%Z →
  let cp := ((b0 mod 16 * 64 + b1 mod 64) * 64 + b2 mod 64)%Z in
  (2048 ≤ cp)%Z →
  (cp < 65536)%Z ∧ utf8_encode cp = [JsonText.byte b0; JsonText.byte b1; JsonText.byte b2].
Proof.
  intros H0 H1 H2. cbv zeta.
  replace (b0 mod 16)%Z with (b0 - 224)%Z by (Z.div_mod_to_equations; lia).
  replace (b1 mod 64)%Z with (b1 - 128)%Z by (Z.div_mod_to_equations; lia).
  replace (b2 mod 64)%Z with (b2 - 128)%Z by (Z.div_mod_to_equations; lia).
  set (cp := (((b0 - 224) * 64 + (b1 - 128)) * 64 + (b2 - 128))%Z). intros Hcp.
  split; [lia|]. unfold utf8_encode.
  rewrite (proj2 (Z.ltb_ge cp 128)), (proj2 (Z.ltb_ge cp 2048)), (proj2 (Z.ltb_lt cp 65536)) by lia.
  repeat f_equal; subst cp; Z.div_mod_to_equations; lia.
Qed.

Lemma encode4 b0 b1 b2 b3 :
  (240 ≤ b0 ≤ 244)%Z → (128 ≤ b1 ≤ 191)%Z → (128 ≤ b2 ≤ 191)%Z → (128 ≤ b3 ≤ 191)%Z →
  let cp := (((b0 mod 8 * 64 + b1 mod 64) * 64 + b2 mod 64) * 64 + b3 mod 64)%Z in
  (65536 ≤ cp)%Z →
  utf8_encode cp = [JsonText.byte b0; JsonText.byte b1; JsonText.byte b2; JsonText.byte b3].
Proof.
  intros H0 H1 H2 H3. cbv zeta.
  replace (b0 mod 8)%Z with (b0 - 240)%Z by (Z.div_mod_to_equations; lia).
  replace (b1 mod 64)%Z with (b1 - 128)%Z by (Z.div_mod_to_equations; lia).
  replace (b2 mod 64)%Z with (b2 - 128)%Z by (Z.div_mod_to_equations; lia).
  replace (b3 mod 64)%Z with (b3 - 128)%Z by (Z.div_mod_to_equations; lia).
  set (cp := ((((b0 - 240) * 64 + (b1 - 128)) * 64 + (b2 - 128)) * 64 + (b3 - 128))%Z). intros Hcp.
  unfold utf8_encode.
  rewrite (proj2 (Z.ltb_ge cp 128)), (proj2 (Z.ltb_ge cp 2048)), (proj2 (Z.ltb_ge cp 65536)) by lia.
  repeat f_equal; subst cp; Z.div_mod_to_equations; lia.
Qed.

Lemma lead_range b :
  match lead b with
  | 0 => True
  | 1 => (b ≤ 127)%Z
  | 2 => (194 ≤ b ≤ 223)%Z
  | 3 => (224 ≤ b ≤ 239)%Z
  | 4 => (240 ≤ b ≤ 244)%Z
  | _ => False
  end.
Proof. unfold lead. repeat case_if; lia. Qed.

Lemma take_chars s n : n ≤ length s → take n s = map (char_at s) (seq 0 n).
Proof.
  revert n. induction s as [|c s IH]; intros [|n] Hn; cbn in *; try done; [lia|].
  rewrite IH by lia. f_equal. rewrite <- fmap_S_seq, map_map. done.
Qed.

(** A valid sequence is the encoding of a scalar value. *)
Lemma verify_sound s len :
  s ≠ [] → verify_utf8_sequence s = Some len →
  ∃ cp, scalar_value cp ∧ take len s = utf8_encode cp ∧ 0 < len ≤ length s.
Proof.
  intros Hne. rewrite verify_is_arith. unfold verify_arith, cont, scalar_value. cbv zeta.
  assert (0 < length s) by (destruct s; [done|cbn; lia]).
  pose proof (uchar_range (char_at s 0)) as R0.
  pose proof (λ i H, char_at_uchar s i H) as Hin.
  pose proof (lead_range (uchar (char_at s 0))) as Hl.
  destruct (lead (uchar (char_at s 0))) as [|[|[|[|[|n]]]]];
    cbn [Nat.eqb andb Nat.ltb Nat.leb]; try done; try (case_if; [|done]);
    rewrite ?andb_true_r, ?andb_false_r; cbn [orb]; repeat (case_if; [done|]);
    intros [= <-].
  - eexists. split; [|split; [|split; [lia|done]]]; [|rewrite take_chars by lia].
    + left. instantiate (1 := uchar (char_at s 0)). lia.
    + unfold utf8_encode. rewrite (proj2 (Z.ltb_lt _ 128)) by lia. cbn. by rewrite byte_uchar.
  - destruct (encode2 (uchar (char_at s 0)) (uchar (char_at s 1))) as [Hcp He]; [lia|lia|].
    eexists. split; [|split; [rewrite take_chars; [by rewrite He; cbn; rewrite !byte_uchar|]|]];
      [lia|apply Hin; lia|split; [lia|apply Hin; lia]].
  - destruct (encode3 (uchar (char_at s 0)) (uchar (char_at s 1)) (uchar (char_at s 2)))
      as [Hcp He]; [lia..|].
    eexists. split; [|split; [rewrite take_chars; [by rewrite He; cbn; rewrite !byte_uchar|]|]];
      [lia|apply Hin; lia|split; [lia|apply Hin; lia]].
  - pose proof (encode4 (uchar (char_at s 0)) (uchar (char_at s 1)) (uchar (char_at s 2))
      (uchar (char_at s 3)) ltac:(lia) ltac:(lia) ltac:(lia) ltac:(lia) ltac:(lia)) as He.
    eexists. split; [|split; [rewrite take_chars; [by rewrite He; cbn; rewrite !byte_uchar|]|]];
      [lia|apply Hin; lia|split; [lia|apply Hin; lia]].
Qed.

Lemma lead_is n b :
  match n with
  | 1 => (b ≤ 127)%Z
  | 2 => (194 ≤ b ≤ 223)%Z
  | 3 => (224 ≤ b ≤ 239)%Z
  | 4 => (240 ≤ b ≤ 244)%Z
  | _ => False
  end → lead b = n.
Proof.
  unfold lead. destruct n as [|[|[|[|[|n]]]]]; intros H; try done; repeat case_if; try done; lia.
Qed.

Lemma cont_mod x : cont (128 + x mod 64) = true ∧ ((128 + x mod 64) mod 64 = x mod 64)%Z.
Proof. unfold cont. pose proof (Z.mod_pos_bound x 64 ltac:(lia)). split; [lia|]. Z.div_mod_to_equations; lia. Qed.

(** Decides the range tests on a code point. *)
Ltac decide_ranges :=
  cbn [Nat.ltb Nat.leb]; rewrite ?andb_false_r, ?andb_true_r; cbn [orb];
  repeat (case_if; [exfalso; lia|]); reflexivity.

(** The encoding of a scalar value is a valid sequence. *)
Lemma verify_complete cp rest :
  scalar_value cp → verify_utf8_sequence (utf8_encode cp ++ rest) = Some (length (utf8_encode cp)).
Proof.
  intros Hcp. unfold scalar_value in Hcp. rewrite verify_is_arith. unfold utf8_encode.
  destruct (Z.ltb_spec cp 128); [|destruct (Z.ltb_spec cp 2048); [|destruct (Z.ltb_spec cp 65536)]];
    unfold char_at; cbn [app lookup list_lookup default from_option id length];
    rewrite !uchar_byte by (Z.div_mod_to_equations; lia); unfold verify_arith; cbv zeta.
  - rewrite (lead_is 1) by lia. cbn [Nat.eqb]. decide_ranges.
  - rewrite (lead_is 2) by (Z.div_mod_to_equations; lia). cbn [Nat.eqb andb].
    destruct (cont_mod cp) as [-> ->].
    replace ((192 + cp / 64) mod 32 * 64 + cp mod 64)%Z with cp by (Z.div_mod_to_equations; lia).
    decide_ranges.
  - rewrite (lead_is 3) by (Z.div_mod_to_equations; lia). cbn [Nat.eqb andb].
    destruct (cont_mod cp) as [-> ->]. destruct (cont_mod (cp / 64)) as [-> ->].
    replace (((224 + cp / 4096) mod 16 * 64 + cp / 64 mod 64) * 64 + cp mod 64)%Z with cp
      by (Z.div_mod_to_equations; lia).
    decide_ranges.
  - rewrite (lead_is 4) by (Z.div_mod_to_equations; lia). cbn [Nat.eqb andb].
    destruct (cont_mod cp) as [-> ->]. destruct (cont_mod (cp / 64)) as [-> ->].
    destruct (cont_mod (cp / 4096)) as [-> ->].
    replace ((((240 + cp / 262144) mod 8 * 64 + cp / 4096 mod 64) * 64 + cp / 64 mod 64) * 64 + cp mod 64)%Z
      with cp by (Z.div_mod_to_equations; lia).
    decide_ranges.
Qed.

Lemma utf8_loop_spec fuel s :
  length s < fuel →
  utf8_loop fuel s = true ↔ ∃ cps, Forall scalar_value cps ∧ s = concat (map utf8_encode cps).
Proof.
  revert s. induction fuel as [|fuel IH]; intros s Hf; [lia|]. cbn [utf8_loop].
  destruct s as [|c s].
  { split; [intros _; by exists []|done]. }
  split.
  - destruct (verify_utf8_sequence (c :: s)) as [len|] eqn:E; [|done].
    apply verify_sound in E as (cp & Hcp & Ht & Hl); [|done].
    intros (cps & Hcps & Hd)%IH; [|rewrite length_drop; cbn [length] in *; lia].
    exists (cp :: cps). split; [by constructor|]. cbn. rewrite <- Ht, <- Hd. by rewrite take_drop.
  - intros ([|cp cps] & Hcps & Hs); [done|]. apply Forall_cons in Hcps as [Hcp Hcps].
    cbn [map concat] in Hs. rewrite Hs, verify_complete, drop_app_length by done.
    apply IH; [|by exists cps]. apply (f_equal length) in Hs. rewrite length_app in Hs.
    assert (0 < length (utf8_encode cp)) by (unfold utf8_encode; repeat case_if; cbn; lia).
    cbn [length] in *. lia.
Qed.

(** A string a caller supplies is accepted exactly when it is the UTF-8
    encoding of a sequence of Unicode scalar values: no overlong form, no
    surrogate, nothing above U+10FFFF and no truncated sequence. *)
Theorem json_utf8_exact s :
  (∃ v, json_value_init_string s = Some v) ↔
  ∃ cps, Forall scalar_value cps ∧ s = concat (map utf8_encode cps).
Proof.
  rewrite <- (utf8_loop_spec (S (length s))) by lia.
  unfold json_value_init_string, is_valid_utf8. destruct (utf8_loop _ s); cbn.
  - split; [done|]. intros _. by eexists.
  - split; [intros [v Hv]; done|done].
Qed.

End JsonObject.
