(* ===== verification/TraceStream.v ===== *)
(** * Reading a trace: the stream scanner of the tools

    [tools/common/stream.c] and [tools/common/trace_load.c]: a trace is a text
    with JSON objects in it, one per logged call, and whatever the writer put
    between them. The scanner cuts the objects out by counting braces outside
    strings, parses each slice and hands it to a callback, which for
    [trace_load_file] appends a copy to an array. *)

From S2P Require Import Prelude Libc Json JsonText JsonBudget JsonRoundTrip JsonObject.

Module TraceStream.

Import Json JsonText JsonBudget JsonRoundTrip JsonObject.

(** The locals of [corr_stream_scan], with the values the callback got so far
    and the count of the slices that did not parse. *)
Record Scan := mkScan {
  sc_start : nat;
  sc_depth : nat;
  sc_in_str : bool;
  sc_esc : bool;
  sc_found : list JSON_Value;
  sc_skipped : nat;
}.

Section scan.
Context {DT : DoubleText}.

(** The whole input. *)
Variable input : bytes.

(** The slice that ends at index [i], parsed. *)
Definition stream_slice (st : Scan) (i : nat) : Scan :=
  let olen := i - sc_start st + 1 in
  match json_parse_string (take olen (drop (sc_start st) input)) with
  | Some v => mkScan (sc_start st) 0 (sc_in_str st) (sc_esc st) (sc_found st ++ [v]) (sc_skipped st)
  | None => mkScan (sc_start st) 0 (sc_in_str st) (sc_esc st) (sc_found st) (S (sc_skipped st))
  end.

(** One iteration, at index [i] with the character [c]. *)
Definition stream_step (i : nat) (c : ascii) (st : Scan) : Scan :=
  let set_depth d := mkScan (sc_start st) d (sc_in_str st) (sc_esc st) (sc_found st) (sc_skipped st) in
  let set_str s e := mkScan (sc_start st) (sc_depth st) s e (sc_found st) (sc_skipped st) in
  if sc_depth st =? 0 then
    if ceq c "{" then mkScan i 1 false false (sc_found st) (sc_skipped st) else st
  else if sc_in_str st then
    if sc_esc st then set_str true false
    else if ceq c "\" then set_str true true
    else if ceq c "034" then set_str false false
    else st
  else if ceq c "034" then set_str true (sc_esc st)
  else if ceq c "{" then set_depth (S (sc_depth st))
  else if ceq c "}" then
    if sc_depth st - 1 =? 0 then stream_slice st i else set_depth (sc_depth st - 1)
  else st.

Fixpoint stream_loop (i : nat) (text : bytes) (st : Scan) : Scan :=
  match text with
  | [] => st
  | c :: text => stream_loop (S i) text (stream_step i c st)
  end.

End scan.

Section load.
Context {DT : DoubleText}.

(** [corr_stream_scan]: the values given to the callback, in order, and the
    number of slices skipped. *)
Definition corr_stream_scan (text : bytes) : list JSON_Value * nat :=
  let st := stream_loop text 0 text (mkScan 0 0 false false [] 0) in
  (sc_found st, sc_skipped st).

(** The callback of [trace_load_file]: a copy of the entry appended to the
    array. *)
Definition collect (dst : JSON_Array) (entry : JSON_Value) : JSON_Array :=
  match json_value_deep_copy entry with
  | Some copy => default dst (json_array_append_value dst (Some copy))
  | None => dst
  end.

(** [trace_load_file] on the bytes of a file that could be read. *)
Definition trace_load (content : bytes) : JSON_Value * nat :=
  let '(entries, skipped) := corr_stream_scan content in
  (JSONArray (foldl collect [] entries), skipped).

End load.

(** ** The scanner reads what the serialiser wrote *)

Section back.
Context {DT : DoubleText} (input : bytes).

(** Outside strings at some depth. *)
Definition at_depth (d : nat) (st : Scan) : Prop :=
  sc_depth st = S d ∧ sc_in_str st = false ∧ sc_esc st = false.

Lemma loop_app i a b st :
  stream_loop input i (a ++ b) st = stream_loop input (i + length a) b (stream_loop input i a st).
Proof.
  revert i st. induction a as [|c a IH]; intros i st; cbn; [by rewrite Nat.add_0_r|].
  rewrite IH. f_equal. lia.
Qed.

(** A text that leaves the scanner as it is inside an object. *)
Definition quiet (w : bytes) : Prop :=
  ∀ i d st, at_depth d st → stream_loop input i w st = st.

Lemma quiet_app a b : quiet a → quiet b → quiet (a ++ b).
Proof. intros Ha Hb i d st Hst. rewrite loop_app, (Ha i d) by done. by apply (Hb _ d). Qed.

Lemma quiet_plain w : forallb plain_char w = true → quiet w.
Proof.
  induction w as [|c w IH]; intros Hw i d st Hst; [done|]. cbn in Hw.
  apply andb_true_iff in Hw as [Hc Hw]. cbn [stream_loop].
  replace (stream_step input i c st) with st; [by apply (IH Hw _ d)|].
  destruct Hst as (Hd & Hs & He). unfold stream_step. rewrite Hd, Hs. cbn [Nat.eqb].
  unfold plain_char in Hc. bool_to_prop.
  by rewrite !(proj2 (ceq_false _ _)).
Qed.

(** The scanner inside a string at some depth. *)
Lemma step_in_string st d :
  at_depth d st →
  let st' := mkScan (sc_start st) (sc_depth st) true false (sc_found st) (sc_skipped st) in
  ∀ i s, stream_loop input i (escaped s) st' = st'.
Proof.
  intros (Hd & _ & _) st' i s. revert i. induction s as [|c s IH]; intros i; [done|].
  cbn [escaped map concat]. rewrite loop_app. fold (escaped s).
  replace (stream_loop input i (escape_char c) st') with st'; [apply IH|].
  pose proof (reads_back_all c) as Hr. unfold reads_back, reads_as in Hr.
  assert (∀ j x, x ≠ "034"%char → x ≠ "\"%char → stream_step input j x st' = st') as Hp.
  { intros j x Hq Hb. unfold stream_step. subst st'. cbn. rewrite Hd. cbn.
    by rewrite !(proj2 (ceq_false _ _)). }
  assert (∀ j x, stream_step input (S j) x (stream_step input j "\" st') = st') as He.
  { intros j x. unfold stream_step. subst st'. cbn. rewrite Hd. cbn. by rewrite ?Hd. }
  destruct (escape_char c) as [|b [|e [|h1 [|h2 [|h3 [|h4 [|]]]]]]]; try done; bool_to_prop; subst;
    cbn [stream_loop].
  - by rewrite Hp.
  - by rewrite He.
  - repeat match goal with H : hex_char_to_int _ ≠ _ |- _ => apply hex_char_plain in H as [? ?] end.
    rewrite He. do 2 rewrite (Hp _ "0"%char) by done. by rewrite (Hp _ h3), (Hp _ h4) by done.
Qed.

Lemma quiet_string s : quiet (json_serialize_string s).
Proof.
  intros i d st Hst. unfold json_serialize_string. fold (escaped s).
  rewrite !loop_app. cbn [stream_loop length].
  pose proof (step_in_string st d Hst) as Hin. destruct Hst as (Hd & Hs & He).
  assert (stream_step input i "034" st =
          mkScan (sc_start st) (sc_depth st) true false (sc_found st) (sc_skipped st)) as ->.
  { unfold stream_step. rewrite Hd, Hs, He. done. }
  rewrite Hin. unfold stream_step. cbn. rewrite Hd. cbn. destruct st; cbn in *; by subst.
Qed.

#[global] Instance quiet_closed : TextClosed quiet.
Proof.
  split; [apply quiet_app|apply quiet_string|apply quiet_plain| |]; intros s Hs i d st Hst.
  - assert (∀ c, c = "["%char ∨ c = "]"%char → quiet [c]) as Hb.
    { intros c Hc j e st' (Hd & Hi & _). cbn [stream_loop]. unfold stream_step. rewrite Hd, Hi.
      by destruct Hc as [-> | ->]. }
    revert i d st Hst. apply quiet_app; [apply Hb; by left|]. apply quiet_app; [done|apply Hb; by right].
  - rewrite !loop_app. cbn [lit list_ascii_of_string stream_loop length].
    destruct Hst as (Hd & Hi & He).
    assert (at_depth (S d) (stream_step input i "{" st)) as H1.
    { unfold stream_step, at_depth. rewrite Hd, Hi. done. }
    rewrite (Hs _ _ _ H1). unfold stream_step at 1. destruct H1 as (-> & -> & _). cbn [Nat.eqb].
    unfold stream_step. rewrite Hd, Hi, He. cbn. destruct st; cbn in *; by subst.
Qed.

Lemma separator_quiet i w st :
  sc_depth st = 0 → "{"%char ∉ w → stream_loop input i w st = st.
Proof.
  revert i. induction w as [|c w IH]; intros i Hd Hw; [done|]. apply not_elem_of_cons in Hw as [Hc Hw].
  cbn [stream_loop]. unfold stream_step at 1. rewrite Hd. cbn [Nat.eqb].
  rewrite (proj2 (ceq_false c "{")) by done. by apply IH.
Qed.

(** The scanner cuts out exactly the text of an object. *)
Lemma object_found b o text pre post st :
  json_ok (JSONObject o) → json_depth (JSONObject o) ≤ S MAX_NESTING →
  json_serialize_to_string b (JSONObject o) = Some text →
  input = pre ++ text ++ post → sc_depth st = 0 →
  stream_loop input (length pre) text st =
  mkScan (length pre) 0 false false (sc_found st ++ [JSONObject o]) (sc_skipped st).
Proof.
  intros Hok Hdepth Ht Hin Hd.
  destruct (written_back b (JSONObject o) Hok) as (text' & Ht' & Hs & Hp & _).
  rewrite Ht in Ht'. injection Ht' as <-. rewrite (proj2 (Nat.leb_le _ _) Hdepth) in Hp.
  destruct (object_body_closed quiet b o 0 text Hok Hs) as (mid & Htext & Hm).
  rewrite Htext at 1. rewrite !loop_app. cbn [lit list_ascii_of_string stream_loop length].
  set (i := length pre) in *.
  assert (stream_step input i "{" st = mkScan i 1 false false (sc_found st) (sc_skipped st)) as ->.
  { unfold stream_step. by rewrite Hd. }
  rewrite (Hm _ 0) by done. unfold stream_step. cbn.
  unfold stream_slice. cbn [sc_start sc_in_str sc_esc sc_found sc_skipped].
  replace (take _ (drop i input)) with text; [by rewrite Hp|].
  subst i. rewrite Hin, drop_app_length.
  replace (length pre + 1 + length mid - length pre + 1) with (length text)
    by (rewrite Htext, !length_app; cbn; lia).
  by rewrite take_app_length.
Qed.

End back.

(** ** Whole traces *)

Section log.
Context {DT : DoubleText} (b : bool).

(** A log: every entry with the text in front of it, and the text behind the
    last one. *)
Fixpoint write_log (log : list (bytes * JSON_Object)) (tail : bytes) : option bytes :=
  match log with
  | [] => Some tail
  | (sep, o) :: log =>
      text ← json_serialize_to_string b (JSONObject o);
      rest ← write_log log tail;
      Some (sep ++ text ++ rest)
  end.

Definition entry_ok (e : bytes * JSON_Object) : Prop :=
  "{"%char ∉ fst e ∧ json_ok (JSONObject (snd e)) ∧ json_depth (JSONObject (snd e)) ≤ S MAX_NESTING.

Definition entries (log : list (bytes * JSON_Object)) : list JSON_Value := map (JSONObject ∘ snd) log.

Lemma log_scanned input pre log tail text st :
  Forall entry_ok log → "{"%char ∉ tail → write_log log tail = Some text → input = pre ++ text →
  sc_depth st = 0 →
  let st' := stream_loop input (length pre) text st in
  sc_found st' = sc_found st ++ entries log ∧ sc_skipped st' = sc_skipped st.
Proof.
  intros Hlog. revert pre text st.
  induction Hlog as [|[sep o] log (Hsep & Hok & Hdepth) Hlog IH]; intros pre text st Htail Ht Hin Hd;
    cbn [write_log fst snd] in *.
  { injection Ht as <-. rewrite separator_quiet by done. by rewrite app_nil_r. }
  destruct (json_serialize_to_string b (JSONObject o)) as [otext|] eqn:Eo; [|done].
  cbn [mbind option_bind] in Ht. destruct (write_log log tail) as [rest|]; [|done].
  apply (inj Some) in Ht as <-. rewrite !loop_app, (separator_quiet input _ sep) by done.
  rewrite <- !length_app, (object_found input b o otext (pre ++ sep) rest st); try done.
  2:{ by rewrite Hin, <- app_assoc. }
  specialize (IH ((pre ++ sep) ++ otext) rest
    (mkScan (length (pre ++ sep)) 0 false false (sc_found st ++ [JSONObject o]) (sc_skipped st))
    Htail eq_refl ltac:(by rewrite Hin, <- !app_assoc) eq_refl).
  cbn [sc_found sc_skipped] in IH. destruct IH as [-> ->]. by rewrite <- app_assoc.
Qed.

Lemma log_written log tail : Forall entry_ok log → is_Some (write_log log tail).
Proof.
  induction 1 as [|[sep o] log (_ & Hok & _) _ [rest IH]]; [by eexists|]. cbn [write_log snd] in *.
  destruct (written_back b _ Hok) as (text & -> & _). cbn. rewrite IH. by eexists.
Qed.

Lemma collect_all vs acc :
  Forall json_shape vs → foldl collect acc vs = acc ++ vs.
Proof.
  intros H. revert acc. induction H as [|v vs Hv _ IH]; intros acc; cbn; [by rewrite app_nil_r|].
  unfold collect at 2. rewrite deep_copy_all by done. cbn. rewrite IH. by rewrite <- app_assoc.
Qed.

Lemma load_back log tail text :
  Forall entry_ok log → "{"%char ∉ tail → write_log log tail = Some text →
  trace_load text = (JSONArray (entries log), 0).
Proof.
  intros Hlog Htail Ht. unfold trace_load, corr_stream_scan.
  destruct (log_scanned text [] log tail text (mkScan 0 0 false false [] 0)) as [H1 H2]; [done..|].
  cbn [length] in *. rewrite H1, H2. cbn. rewrite collect_all; [done|].
  unfold entries. rewrite Forall_map. eapply Forall_impl; [done|].
  intros [sep o] (_ & Hok & _). by apply ok_shape.
Qed.

(** A trace is read back entry for entry: whatever lies between the entries,
    as long as it has no opening brace, the scanner finds exactly the objects
    the log was written from, in order, skips nothing, and the loaded array
    holds them unchanged, whatever braces, quotes and escapes their strings
    contain. *)
Theorem trace_read_back log tail :
  Forall entry_ok log → "{"%char ∉ tail →
  ∃ text, write_log log tail = Some text ∧ trace_load text = (JSONArray (entries log), 0).
Proof.
  intros Hlog Htail. destruct (log_written log tail Hlog) as [text Ht]. exists text.
  split; [done|]. by eapply load_back.
Qed.

End log.

(** Two entries with braces and quotes in their strings. *)
Definition sample_log : list (bytes * JSON_Object) :=
  [(lit "[", [(lit "func", JSONString (lit "a{b"))]);
   (lit ",", [(lit "func", JSONString ["}"%char; "034"%char; "\"%char])])].

Lemma trace_read_back_witness :
  ∃ text, write_log (DT := whole_numbers) false sample_log (lit "]") = Some text ∧
          trace_load (DT := whole_numbers) text = (JSONArray (entries sample_log), 0).
Proof.
  apply (trace_read_back (DT := whole_numbers)).
  - repeat constructor; try done; try (apply (bool_decide_eq_true_1 _); vm_compute; reflexivity);
      try (apply Nat.leb_le; vm_compute; reflexivity).
  - apply (bool_decide_eq_true_1 _). vm_compute. reflexivity.
Defined.

End TraceStream.
