(* ===== verification/Lcs.v ===== *)
(** * The order diff: longest common subsequence

    [tools/trace-diff/lcs.c]: a table of the lengths of the longest common
    subsequences of all prefixes, filled row by row, and the walk back through
    it that emits the alignment of two call sequences, from the end. The table
    is the flat array of the code, [dp[i * cols + j]]; [calloc] succeeds. *)

From S2P Require Import Prelude.

Module Lcs.

Inductive diff_lcs_type := DIFF_LCS_MATCH | DIFF_LCS_DELETE | DIFF_LCS_INSERT.

#[global] Instance diff_lcs_type_eq : EqDecision diff_lcs_type.
Proof. solve_decision. Defined.

Record diff_lcs_item := mkItem { item_type : diff_lcs_type; item_name : bytes }.

Definition name_at (s : list bytes) (i : nat) : bytes := default [] (s !! i).

Section table.
Variables a b : list bytes.

Definition cols : nat := length b + 1.

Definition cell (dp : list nat) (i j : nat) : nat := default 0 (dp !! (i * cols + j)).

(** The assignment to [dp[i * cols + j]]. *)
Definition fill_cell (i : nat) (dp : list nat) (j : nat) : list nat :=
  <[i * cols + j :=
      if streq (name_at a (i - 1)) (name_at b (j - 1)) then cell dp (i - 1) (j - 1) + 1
      else if cell dp i (j - 1) <? cell dp (i - 1) j then cell dp (i - 1) j
      else cell dp i (j - 1)]> dp.

Definition fill_row (dp : list nat) (i : nat) : list nat :=
  foldl (fill_cell i) dp (seq 1 (length b)).

Definition lcs_build_table : list nat :=
  foldl fill_row (replicate ((length a + 1) * cols) 0) (seq 1 (length a)).

(** The loops of [diff_lcs_walk] from the indices [i] and [j]: the items in the
    order in which the callback gets them. *)
Fixpoint walk (dp : list nat) (fuel i j : nat) : option (list diff_lcs_item) :=
  match fuel with
  | 0 => None
  | S fuel =>
      match i, j with
      | S i', S j' =>
          if streq (name_at a i') (name_at b j') then
            cons (mkItem DIFF_LCS_MATCH (name_at a i')) <$> walk dp fuel i' j'
          else if cell dp i j' <=? cell dp i' j then
            cons (mkItem DIFF_LCS_DELETE (name_at a i')) <$> walk dp fuel i' j
          else cons (mkItem DIFF_LCS_INSERT (name_at b j')) <$> walk dp fuel i j'
      | S i', 0 => cons (mkItem DIFF_LCS_DELETE (name_at a i')) <$> walk dp fuel i' 0
      | 0, S j' => cons (mkItem DIFF_LCS_INSERT (name_at b j')) <$> walk dp fuel 0 j'
      | 0, 0 => Some []
      end
  end.

End table.

Definition diff_lcs_len (a b : list bytes) : nat :=
  if (length a =? 0) || (length b =? 0) then 0
  else cell b (lcs_build_table a b) (length a) (length b).

(** [diff_lcs_walk] with a callback that never stops it. *)
Definition diff_lcs_walk (a b : list bytes) : option (list diff_lcs_item) :=
  if (length a =? 0) && (length b =? 0) then Some []
  else walk a b (lcs_build_table a b) (S (length a + length b)) (length a) (length b).

(** ** The specification: common subsequences *)

Definition common (c a b : list bytes) : Prop := c `sublist_of` a ∧ c `sublist_of` b.

(** The recurrence the table is filled by, on the lengths of prefixes. *)
Fixpoint lcs_ref (a b : list bytes) (i : nat) : nat → nat :=
  match i with
  | 0 => λ _, 0
  | S i' =>
      fix go j :=
        match j with
        | 0 => 0
        | S j' =>
            if streq (name_at a i') (name_at b j') then S (lcs_ref a b i' j')
            else Nat.max (lcs_ref a b i' j) (go j')
        end
  end.

Lemma lcs_ref_0 a b i : lcs_ref a b i 0 = 0.
Proof. by destruct i. Qed.

Lemma lcs_ref_S a b i j :
  lcs_ref a b (S i) (S j) =
  if streq (name_at a i) (name_at b j) then S (lcs_ref a b i j)
  else Nat.max (lcs_ref a b i (S j)) (lcs_ref a b (S i) j).
Proof. done. Qed.

Section correct.
Variables a b : list bytes.

Let cols' := cols b.

Lemma index_inj i j i' j' :
  j < cols' → j' < cols' → i * cols' + j = i' * cols' + j' → i = i' ∧ j = j'.
Proof.
  intros Hj Hj' H.
  assert (i = i').
  { apply (f_equal (λ n, n / cols')) in H. rewrite !Nat.div_add_l, !Nat.div_small in H by lia. lia. }
  subst. lia.
Qed.

(** The table agrees with the recurrence on the cells before [(i, j)] in row
    order and is 0 on the others. *)
Definition filled (dp : list nat) (i j : nat) : Prop :=
  length dp = (length a + 1) * cols' ∧
  ∀ i' j', i' ≤ length a → j' ≤ length b →
    cell b dp i' j' = if (i' <? i) || ((i' =? i) && (j' <? j)) then lcs_ref a b i' j' else 0.

Lemma index_bound i j : i ≤ length a → j ≤ length b → i * cols' + j < (length a + 1) * cols'.
Proof. unfold cols', cols. intros. nia. Qed.

Lemma cell_insert dp i j i' j' v :
  length dp = (length a + 1) * cols' → i ≤ length a → j ≤ length b → j' ≤ length b →
  cell b (<[i * cols' + j := v]> dp) i' j' =
  if (i' =? i) && (j' =? j) then v else cell b dp i' j'.
Proof.
  intros Hl Hi Hj Hj'. unfold cell. fold cols'.
  destruct (Nat.eqb_spec i' i) as [->|Hne]; [destruct (Nat.eqb_spec j' j) as [->|Hne]|]; cbn [andb].
  - rewrite list_lookup_insert_eq by (rewrite Hl; by apply index_bound). done.
  - rewrite list_lookup_insert_ne; [done|]. lia.
  - rewrite list_lookup_insert_ne; [done|]. intros H. apply index_inj in H as [? _]; [lia| |];
      unfold cols', cols; lia.
Qed.

Lemma fill_cell_ok dp i j :
  1 ≤ i ≤ length a → 1 ≤ j ≤ length b → filled dp i j → filled (fill_cell a b i dp j) i (j + 1).
Proof.
  intros Hi Hj [Hl Hc]. unfold fill_cell. split; [by rewrite length_insert|].
  intros i' j' Hi' Hj'. rewrite cell_insert by (done || lia).
  destruct i as [|i]; [lia|]. destruct j as [|j]; [lia|]. cbn [Nat.sub]. rewrite !Nat.sub_0_r.
  rewrite !Hc by lia.
  replace (i <? S i) with true by (symmetry; apply Nat.ltb_lt; lia).
  replace (S i <? S i) with false by (symmetry; apply Nat.ltb_ge; lia).
  replace (j <? S j) with true by (symmetry; apply Nat.ltb_lt; lia).
  rewrite Nat.eqb_refl. cbn [orb andb].
  destruct (Nat.eqb_spec i' (S i)) as [->|Hne]; cbn [andb]; [destruct (Nat.eqb_spec j' (S j)) as [->|Hnj]|].
  - rewrite Nat.ltb_irrefl. cbn [orb]. rewrite (proj2 (Nat.ltb_lt (S j) (S j + 1))) by lia.
    rewrite lcs_ref_S. case_if; [lia|]. destruct (Nat.ltb_spec (lcs_ref a b (S i) j) (lcs_ref a b i (S j))); lia.
  - rewrite Nat.ltb_irrefl. cbn [orb].
    destruct (Nat.ltb_spec j' (S j)), (Nat.ltb_spec j' (S j + 1)); (done || lia).
  - done.
Qed.

Lemma fill_row_ok dp i :
  1 ≤ i ≤ length a → filled dp i 1 → filled (fill_row a b dp i) (i + 1) 1.
Proof.
  intros Hi Hf. unfold fill_row.
  assert (∀ n dp j, 1 ≤ j → j + n = length b + 1 → filled dp i j →
            filled (foldl (fill_cell a b i) dp (seq j n)) i (length b + 1)) as H.
  { induction n as [|n IH]; intros dp' j Hj Hn Hf'; cbn [seq foldl].
    - by replace (length b + 1) with j by lia.
    - apply IH; [lia|lia|]. replace (S j) with (j + 1) by lia. apply fill_cell_ok; [done|lia|done]. }
  destruct (H (length b) dp 1) as [Hl Hc]; [lia|lia|done|]. split; [done|].
  intros i' j' Hi' Hj'. rewrite Hc by done.
  destruct (Nat.eqb_spec i' i), (Nat.eqb_spec i' (i + 1)), (Nat.ltb_spec i' i), (Nat.ltb_spec i' (i + 1)),
    (Nat.ltb_spec j' (length b + 1)), (Nat.ltb_spec j' 1); cbn [andb orb]; try lia; try done.
  replace j' with 0 by lia. by rewrite lcs_ref_0.
Qed.

Lemma table_ok i j :
  i ≤ length a → j ≤ length b → cell b (lcs_build_table a b) i j = lcs_ref a b i j.
Proof.
  intros Hi Hj. unfold lcs_build_table.
  assert (∀ n dp k, 1 ≤ k → k + n = length a + 1 → filled dp k 1 →
            filled (foldl (fill_row a b) dp (seq k n)) (length a + 1) 1) as H.
  { induction n as [|n IH]; intros dp k Hk Hn Hf; cbn [seq foldl].
    - by replace (length a + 1) with k by lia.
    - apply IH; [lia|lia|]. replace (S k) with (k + 1) by lia. apply fill_row_ok; [lia|done]. }
  destruct (H (length a) (replicate ((length a + 1) * cols b) 0) 1) as [_ Hc]; [lia|lia| |].
  - split; [apply length_replicate|]. intros i' j' Hi' Hj'. unfold cell.
    rewrite lookup_replicate_2 by (by apply index_bound). cbn [default from_option id].
    destruct (Nat.ltb_spec i' 1); [by replace i' with 0 by lia|].
    destruct (Nat.eqb_spec i' 1), (Nat.ltb_spec j' 1); cbn [orb andb]; try done.
    replace j' with 0 by lia. by rewrite lcs_ref_0.
  - rewrite Hc by done. by rewrite (proj2 (Nat.ltb_lt i (length a + 1))) by lia.
Qed.

(** ** The recurrence gives the length of a longest common subsequence *)

Lemma take_snoc (l : list bytes) i : i < length l → take (S i) l = take i l ++ [name_at l i].
Proof.
  intros H. destruct (lookup_lt_is_Some_2 l i H) as [x Hx].
  rewrite (take_S_r l i x) by done. unfold name_at. by rewrite Hx.
Qed.

Lemma sublist_snoc (c l : list bytes) x :
  c `sublist_of` l ++ [x] → c `sublist_of` l ∨ ∃ c', c = c' ++ [x] ∧ c' `sublist_of` l.
Proof.
  intros (k1 & k2 & -> & H1 & H2)%sublist_app_r.
  apply sublist_cons_r in H2 as [H2|(k & -> & H2)].
  - apply sublist_nil_r in H2 as ->. left. by rewrite app_nil_r.
  - apply sublist_nil_r in H2 as ->. right. by exists k1.
Qed.

Lemma snoc_length_le (c l : list bytes) x :
  c ++ [x] `sublist_of` l → c `sublist_of` l.
Proof. intros H. etrans; [|done]. by apply sublist_inserts_r. Qed.

Lemma lcs_ref_attained i j :
  i ≤ length a → j ≤ length b → ∃ c, common c (take i a) (take j b) ∧ length c = lcs_ref a b i j.
Proof.
  revert j. induction i as [|i IHi]; intros j Hi Hj.
  { exists []. split; [split; apply sublist_nil_l|done]. }
  induction j as [|j IHj].
  { exists []. split; [split; apply sublist_nil_l|by rewrite lcs_ref_0]. }
  rewrite lcs_ref_S, !take_snoc by lia. destruct (streq _ _) eqn:E; bool_to_prop.
  - destruct (IHi j) as (c & [H1 H2] & Hc); [lia..|]. exists (c ++ [name_at a i]).
    split; [|rewrite length_app; cbn; lia].
    split; [by apply sublist_app|rewrite E; by apply sublist_app].
  - destruct (IHi (S j)) as (c1 & [H1 H2] & Hc1); [lia..|].
    destruct IHj as (c2 & [H3 H4] & Hc2); [lia|].
    rewrite take_snoc in H2 by lia. rewrite take_snoc in H3 by lia.
    destruct (Nat.max_spec (lcs_ref a b i (S j)) (lcs_ref a b (S i) j)) as [[_ ->]|[_ ->]].
    + exists c2. split; [|done]. split; [done|]. by apply sublist_inserts_r.
    + exists c1. split; [|done]. split; [|done]. by apply sublist_inserts_r.
Qed.

Lemma lcs_ref_bound i j c :
  i ≤ length a → j ≤ length b → common c (take i a) (take j b) → length c ≤ lcs_ref a b i j.
Proof.
  revert j c. induction i as [|i IHi]; intros j c Hi Hj.
  { intros [H1%sublist_nil_r _]. by subst. }
  revert c. induction j as [|j IHj]; intros c.
  { intros [_ H2%sublist_nil_r]. subst. cbn. lia. }
  rewrite lcs_ref_S, !take_snoc by lia. intros [H1 H2].
  apply sublist_snoc in H1 as [H1|(c1 & -> & H1)].
  - pose proof (IHi (S j) c ltac:(lia) Hj) as HA. rewrite take_snoc in HA by lia.
    specialize (HA (conj H1 H2)). destruct (streq _ _) eqn:E; [|lia].
    apply sublist_snoc in H2 as [H2|(c2 & -> & H2)].
    + specialize (IHi j c ltac:(lia) ltac:(lia) (conj H1 H2)). lia.
    + rewrite length_app in *. cbn [length] in *. apply snoc_length_le in H1.
      specialize (IHi j c2 ltac:(lia) ltac:(lia) (conj H1 H2)). lia.
  - rewrite length_app. cbn [length]. apply sublist_snoc in H2 as [H2|(c2 & Heq & H2)].
    + specialize (IHj ltac:(lia) (c1 ++ [name_at a i])). rewrite take_snoc in IHj by lia.
      rewrite length_app in IHj. cbn [length] in IHj.
      assert (length c1 + 1 ≤ lcs_ref a b (S i) j) as HB.
      { apply IHj. split; [by apply sublist_app|done]. }
      destruct (streq _ _) eqn:E; [|lia]. apply snoc_length_le in H2.
      specialize (IHi j c1 ltac:(lia) ltac:(lia) (conj H1 H2)). lia.
    + apply app_inj_tail in Heq as [-> Heq]. rewrite <- Heq, streq_refl.
      specialize (IHi j c2 ltac:(lia) ltac:(lia) (conj H1 H2)). lia.
Qed.

(** ** The alignment *)

(** The names an alignment takes from the first and from the second
    sequence, and the calls it finds in both. *)
Definition before_of (l : list diff_lcs_item) : list bytes :=
  item_name <$> filter (λ x, item_type x ≠ DIFF_LCS_INSERT) l.
Definition after_of (l : list diff_lcs_item) : list bytes :=
  item_name <$> filter (λ x, item_type x ≠ DIFF_LCS_DELETE) l.
Definition matches (l : list diff_lcs_item) : list bytes :=
  item_name <$> filter (λ x, item_type x = DIFF_LCS_MATCH) l.

(** The walk from [(i, j)] is an alignment of the prefixes, emitted from the
    end, with as many matches as the table promises. *)
Lemma walk_ok fuel i j :
  i ≤ length a → j ≤ length b → i + j < fuel →
  ∃ l, walk a b (lcs_build_table a b) fuel i j = Some l ∧
    reverse (before_of l) = take i a ∧ reverse (after_of l) = take j b ∧
    length (matches l) = lcs_ref a b i j.
Proof.
  revert i j. induction fuel as [|fuel IH]; intros i j Hi Hj Hf; [lia|]. cbn [walk].
  assert (∀ n x l, n < length x → reverse (item_name <$> l) = take n x → ∀ ty,
            reverse (item_name <$> mkItem ty (name_at x n) :: l) = take (S n) x) as Hsnoc.
  { intros n x l Hn Hl ty. rewrite take_snoc by done. by rewrite fmap_cons, reverse_cons, Hl. }
  destruct i as [|i]; [destruct j as [|j]|destruct j as [|j]].
  - by exists [].
  - destruct (IH 0 j) as (l & -> & Hb & Ha & Hm); [lia..|]. eexists. split; [done|].
    split; [done|]. split; [by apply Hsnoc; [lia|]|done].
  - destruct (IH i 0) as (l & -> & Hb & Ha & Hm); [lia..|]. eexists. split; [done|].
    split; [by apply Hsnoc; [lia|]|]. split; [done|]. by rewrite lcs_ref_0 in *.
  - rewrite !table_ok by lia. destruct (streq (name_at a i) (name_at b j)) eqn:E.
    + destruct (IH i j) as (l & -> & Hb & Ha & Hm); [lia..|]. eexists. split; [done|].
      split; [by apply Hsnoc; [lia|]|]. split; [|by rewrite lcs_ref_S, E, <- Hm].
      apply streq_true in E. rewrite E. by apply Hsnoc; [lia|].
    + rewrite lcs_ref_S, E. case_if.
      * destruct (IH i (S j)) as (l & -> & Hb & Ha & Hm); [lia..|]. eexists. split; [done|].
        split; [by apply Hsnoc; [lia|]|]. split; [done|]. apply Nat.leb_le in Heqb0.
        rewrite Nat.max_l by done. done.
      * destruct (IH (S i) j) as (l & -> & Hb & Ha & Hm); [lia..|]. eexists. split; [done|].
        split; [done|]. split; [by apply Hsnoc; [lia|]|]. apply Nat.leb_gt in Heqb0.
        rewrite Nat.max_r by lia. done.
Qed.

End correct.

(** ** The contract of the module *)

Lemma lcs_len_ref a b : diff_lcs_len a b = lcs_ref a b (length a) (length b).
Proof.
  unfold diff_lcs_len. destruct (Nat.eqb_spec (length a) 0) as [->|]; [done|].
  destruct (Nat.eqb_spec (length b) 0) as [->|]; [by rewrite lcs_ref_0|]. by apply table_ok.
Qed.

Lemma lcs_longest a b :
  (∃ c, common c a b ∧ length c = diff_lcs_len a b) ∧
  ∀ c, common c a b → length c ≤ diff_lcs_len a b.
Proof.
  rewrite lcs_len_ref. split.
  - destruct (lcs_ref_attained a b (length a) (length b)) as (c & Hc & Hl); [done..|].
    rewrite !firstn_all in Hc. by exists c.
  - intros c Hc. apply lcs_ref_bound; [done..|]. by rewrite !firstn_all.
Qed.

Lemma walk_alignment a b :
  ∃ l, diff_lcs_walk a b = Some l ∧ reverse (before_of l) = a ∧ reverse (after_of l) = b ∧
       length (matches l) = diff_lcs_len a b.
Proof.
  rewrite lcs_len_ref. unfold diff_lcs_walk.
  destruct ((length a =? 0) && (length b =? 0)) eqn:E.
  - apply andb_true_iff in E as [Ha Hb]. apply Nat.eqb_eq, nil_length_inv in Ha, Hb. subst.
    by exists [].
  - destruct (walk_ok a b (S (length a + length b)) (length a) (length b)) as (l & Hl & Hb & Ha & Hm);
      [lia..|]. exists l. by rewrite !firstn_all in *.
Qed.

(** The number of items that are not matches. *)
Definition edit_count (l : list diff_lcs_item) : nat :=
  length (filter (λ x, item_type x ≠ DIFF_LCS_MATCH) l).

Lemma edit_count_eq l :
  edit_count l + 2 * length (matches l) = length (before_of l) + length (after_of l).
Proof.
  unfold edit_count, matches, before_of, after_of. rewrite !length_fmap.
  induction l as [|[[] n] l IH]; [done| | |]; rewrite !filter_cons; cbn in *;
    repeat case_decide; simplify_eq; cbn; try done; lia.
Qed.

Lemma matches_common l : common (matches l) (before_of l) (after_of l).
Proof.
  unfold common, matches, before_of, after_of.
  induction l as [|[[] n] l [IH1 IH2]]; [by split| | |]; rewrite !filter_cons; cbn in *;
    repeat case_decide; simplify_eq; cbn; split; try done; by constructor.
Qed.

(** The length the order diff computes is the length of a longest common
    subsequence of the two call sequences; its walk ends with an alignment
    that, read from the end, goes through the whole of both sequences and
    matches that many calls, so no alignment has fewer insertions and
    deletions. *)
Theorem lcs_alignment_optimal a b :
  ((∃ c, common c a b ∧ length c = diff_lcs_len a b) ∧
   ∀ c, common c a b → length c ≤ diff_lcs_len a b) ∧
  ∃ l, diff_lcs_walk a b = Some l ∧ reverse (before_of l) = a ∧ reverse (after_of l) = b ∧
       ∀ l', before_of l' = a → after_of l' = b → edit_count l ≤ edit_count l'.
Proof.
  split; [apply lcs_longest|]. destruct (walk_alignment a b) as (l & Hl & Hb & Ha & Hm).
  exists l. split_and!; try done. intros l' Hb' Ha'.
  pose proof (edit_count_eq l) as H1. pose proof (edit_count_eq l') as H2.
  apply (f_equal length) in Hb, Ha. rewrite length_reverse in Hb, Ha.
  assert (length (matches l') ≤ diff_lcs_len a b); [|subst; lia].
  apply lcs_longest. subst a b. apply matches_common.
Qed.

End Lcs.
