(* ===== verification/TraceDiff.v ===== *)
(** * retrace-diff: two traces compared

    [tools/trace-diff]: [normalize.c] sums a trace up per function,
    [threshold.c] and [stats.c] decide in double arithmetic whether a change
    counts, [diff.c] walks two summaries, prints the differences and gates a
    CI run by its exit code.

    Doubles are the IEEE binary64 numbers of the standard library's
    [SpecFloat], with its correctly rounded operations. Files are read by
    [read_file], the bytes of a path if it can be read; [atof] is the C
    library's conversion. *)

From Stdlib Require Import SpecFloat.
From S2P Require Import Prelude Libc Json JsonText JsonRoundTrip JsonObject TraceStream Lcs.

Module TraceDiff.

Import Json Lcs.

(** ** Doubles *)

Definition dbl_of_Z (z : Z) : spec_float := binary_normalize 53 1024 z 0 false.
Definition dbl_add : spec_float → spec_float → spec_float := SFadd 53 1024.
Definition dbl_sub : spec_float → spec_float → spec_float := SFsub 53 1024.
Definition dbl_mul : spec_float → spec_float → spec_float := SFmul 53 1024.
Definition dbl_div : spec_float → spec_float → spec_float := SFdiv 53 1024.
Definition dbl_sqrt : spec_float → spec_float := SFsqrt 53 1024.
Definition dbl_zero : spec_float := S754_zero false.

(** ** normalize.c *)

Record FuncStat := mkStat { fs_name : bytes; call_count : Z; total_duration_us : Z }.

Abbreviation NormalizedLog := (list FuncStat).

Definition NAME_SIZE : nat := 64.

(** [set_fixed]: the string truncated to the buffer. *)
Definition set_fixed (dstsz : nat) (src : bytes) : bytes :=
  take (if dstsz <=? length src then dstsz - 1 else length src) src.

Fixpoint find_index (log : NormalizedLog) (name : bytes) : option nat :=
  match log with
  | [] => None
  | s :: log => if streq (fs_name s) name then Some 0 else S <$> find_index log name
  end.

(** The log, with an entry for the name, and the index of the entry. *)
Definition log_get_or_create (log : NormalizedLog) (name : bytes) : NormalizedLog * nat :=
  match find_index log name with
  | Some i => (log, i)
  | None => (log ++ [mkStat (set_fixed NAME_SIZE name) 0 0], length log)
  end.

(** The function and the duration of an entry that records a call. *)
Definition entry_call (trace : JSON_Array) (i : nat) : option (bytes * double) :=
  match json_array_get_object (Some trace) i with
  | None => None
  | Some entry =>
      match json_object_get_object (Some entry) "message" with
      | None => None
      | Some msg =>
          match json_object_get_string (Some msg) "func",
                json_object_get_value (Some msg) "call_duration_us" with
          | Some func, Some _ => Some (func, json_object_get_number (Some msg) "call_duration_us")
          | _, _ => None
          end
      end
  end.

Definition add_call (log : NormalizedLog) (call : bytes * double) : NormalizedLog :=
  let '(log, i) := log_get_or_create log (fst call) in
  alter (λ st, mkStat (fs_name st) (u64 (call_count st + 1))
                 (u64 (total_duration_us st + u64 (d_trunc (snd call))))) i log.

Definition normalize_from_trace (trace : JSON_Array) : NormalizedLog :=
  foldl (λ log i, match entry_call trace i with
                  | None => log
                  | Some call => add_call log call
                  end) [] (seq 0 (length trace)).

Fixpoint normalize_find (log : NormalizedLog) (name : bytes) : option FuncStat :=
  match log with
  | [] => None
  | s :: log => if streq (fs_name s) name then Some s else normalize_find log name
  end.

Definition normalize_call_sequence (trace : JSON_Array) : list bytes :=
  foldl (λ seq i, match entry_call trace i with
                  | None => seq
                  | Some (func, _) => seq ++ [func]
                  end) [] (seq 0 (length trace)).

(** ** threshold.c *)

Definition diff_exceeds_threshold (before after : Z) (threshold_pct : spec_float) : bool :=
  if (before =? after)%Z then false
  else if SFleb threshold_pct dbl_zero then true
  else if (before =? 0)%Z then true
  else
    let delta := dbl_of_Z (i64 (i64 after - i64 before)) in
    let pct := dbl_div (dbl_mul (dbl_of_Z 100)
                          (if SFltb delta dbl_zero then SFopp delta else delta))
                       (dbl_of_Z before) in
    SFltb threshold_pct pct.

(** ** stats.c *)

Record diff_stats := mkStats {
  st_mean : spec_float;
  st_stddev : spec_float;
  st_z : spec_float;
  st_no_variance : bool;
  st_significant : bool;
}.

Definition diff_stats_compute (counts : list Z) (test_count : Z) (threshold : spec_float)
    : option diff_stats :=
  if length counts =? 0 then None
  else
    let n := dbl_of_Z (Z.of_nat (length counts)) in
    let sum := foldl (λ sum c, dbl_add sum (dbl_of_Z c)) dbl_zero counts in
    let mean := dbl_div sum n in
    let ssd := foldl (λ ssd c, let d := dbl_sub (dbl_of_Z c) mean in
                               dbl_add ssd (dbl_mul d d)) dbl_zero counts in
    let stddev := dbl_sqrt (dbl_div ssd n) in
    if SFeqb stddev dbl_zero then
      Some (mkStats mean stddev dbl_zero true (negb (SFeqb (dbl_of_Z test_count) mean)))
    else
      let z := dbl_div (dbl_sub (dbl_of_Z test_count) mean) stddev in
      Some (mkStats mean stddev z false (SFltb threshold (SFabs z))).

(** ** diff.c: the function diff *)

Record DiffConfig := mkDiffConfig { threshold_pct : spec_float; order_diff : bool }.

(** The lines of [print_func_diff]. *)
Inductive diff_line :=
  | L_function (name : bytes)
  | L_absent_before (a_count : Z)
  | L_absent_after (b_count : Z)
  | L_count (b_count a_count : Z)
  | L_time (b_us a_us : Z).

Definition print_func_diff (name : bytes) (before after : option FuncStat) : list diff_line :=
  let b_count := match before with Some s => call_count s | None => 0%Z end in
  let a_count := match after with Some s => call_count s | None => 0%Z end in
  let b_us := match before with Some s => total_duration_us s | None => 0%Z end in
  let a_us := match after with Some s => total_duration_us s | None => 0%Z end in
  if ((b_count =? a_count) && (b_us =? a_us))%Z then []
  else
    L_function name ::
    match before, after with
    | None, _ => [L_absent_before a_count]
    | Some _, None => [L_absent_after b_count]
    | Some _, Some _ =>
        (if (b_count =? a_count)%Z then [] else [L_count b_count a_count]) ++
        (if (b_us =? a_us)%Z then [] else [L_time b_us a_us])
    end.

(** The first loop of [print_all_diffs]: a function of [before]. *)
Definition before_diff (after : NormalizedLog) (cfg : DiffConfig) (b : FuncStat)
    : list diff_line * nat :=
  let a := normalize_find after (fs_name b) in
  let same := match a with
              | Some a => (call_count a =? call_count b)%Z
                          && (total_duration_us a =? total_duration_us b)%Z
              | None => false
              end in
  if same then ([], 0)
  else
    let count_exceeds :=
      match a with
      | Some a => diff_exceeds_threshold (call_count b) (call_count a) (threshold_pct cfg)
      | None => true
      end in
    let time_exceeds :=
      match a with
      | Some a => diff_exceeds_threshold (total_duration_us b) (total_duration_us a)
                    (threshold_pct cfg)
      | None => true
      end in
    (print_func_diff (fs_name b) (Some b) a, if count_exceeds || time_exceeds then 1 else 0).

(** The second loop: a function of [after]. *)
Definition after_diff (before : NormalizedLog) (a : FuncStat) : list diff_line * nat :=
  match normalize_find before (fs_name a) with
  | Some _ => ([], 0)
  | None => (print_func_diff (fs_name a) None (Some a), 1)
  end.

Definition print_all_diffs (before after : NormalizedLog) (cfg : DiffConfig)
    : list diff_line * nat :=
  let r := map (before_diff after cfg) before ++ map (after_diff before) after in
  (concat (map fst r), foldr Nat.add 0 (map snd r)).

(** ** diff.c: the order diff *)

(** [print_item] on every item: the printed lines, a mark and a name, and the
    number of edits. *)
Definition print_item (ctx : list (ascii * bytes) * nat) (item : diff_lcs_item)
    : list (ascii * bytes) * nat :=
  match item_type item with
  | DIFF_LCS_MATCH => (fst ctx ++ [(" "%char, item_name item)], snd ctx)
  | DIFF_LCS_DELETE => (fst ctx ++ [("-"%char, item_name item)], S (snd ctx))
  | DIFF_LCS_INSERT => (fst ctx ++ [("+"%char, item_name item)], S (snd ctx))
  end.

Definition print_order_diff (before_seq after_seq : list bytes)
    : option (list (ascii * bytes) * nat) :=
  if (length before_seq =? 0) && (length after_seq =? 0) then Some ([], 0)
  else foldl print_item ([], 0) <$> diff_lcs_walk before_seq after_seq.

(** ** diff.c: the two modes and the exit code *)

Section main.
Context {DT : JsonText.DoubleText}.
Variable read_file : bytes → option bytes.
Variable atof : bytes → spec_float.

(** [load_trace]: the summary of the file and its entries. *)
Definition load_trace (path : bytes) : option (NormalizedLog * JSON_Array) :=
  match read_file path with
  | None => None
  | Some content =>
      match json_value_get_array (Some (fst (TraceStream.trace_load content))) with
      | None => None
      | Some arr => Some (normalize_from_trace arr, arr)
      end
  end.

(** [strtok (list, ",")]: the non-empty fields. *)
Fixpoint strtok_fields (cur s : bytes) : list bytes :=
  match s with
  | [] => if length cur =? 0 then [] else [cur]
  | c :: s =>
      if ceq c "," then (if length cur =? 0 then [] else [cur]) ++ strtok_fields [] s
      else strtok_fields (cur ++ [c]) s
  end.

Definition MAX_BASELINES : nat := 64.

(** [run_stats_mode] returns the number of significant functions, or -1; the
    write behind the end of [counts] is an outcome of its own. *)
Inductive stats_outcome := Stats_returns (z : Z) | Stats_overflow.

Definition significant_in_test (baselines : list NormalizedLog) (zscore : spec_float)
    (f : FuncStat) : bool :=
  let counts := map (λ b, match normalize_find b (fs_name f) with
                          | Some s => call_count s
                          | None => 0%Z
                          end) baselines in
  match diff_stats_compute counts (call_count f) zscore with
  | None => false
  | Some st => st_significant st
  end.

(** The scan for removed functions: the report needs [j == 0]. *)
Definition absent_in_test (baselines : list NormalizedLog) (test : NormalizedLog) : nat :=
  foldr Nat.add 0
    (map (λ j, length (filter (λ f,
            normalize_find test (fs_name f) = None ∧
            forallb (λ m, match normalize_find (default [] (baselines !! m)) (fs_name f) with
                          | Some _ => false
                          | None => true
                          end) (seq 0 j) = true ∧ j = 0)
          (default [] (baselines !! j))))
       (seq 0 (length baselines))).

Definition run_stats_mode (baseline_list test_path : bytes) (zscore : spec_float)
    : stats_outcome :=
  match mapM (λ path, fst <$> load_trace path) (strtok_fields [] baseline_list) with
  | None => Stats_returns (-1)
  | Some baselines =>
      if length baselines <? 2 then Stats_returns (-1)
      else
        match load_trace test_path with
        | None => Stats_returns (-1)
        | Some (test, _) =>
            if (MAX_BASELINES <? length baselines) && (0 <? length test) then Stats_overflow
            else Stats_returns
                   (Z.of_nat (length (filter (λ f, significant_in_test baselines zscore f = true) test)
                              + absent_in_test baselines test))
        end
  end.

(** The exit code of the statistics mode. *)
Definition stats_exit (baselines test : bytes) (zscore : spec_float) : option Z :=
  match run_stats_mode baselines test zscore with
  | Stats_overflow => None
  | Stats_returns diffs => Some (if (0 <? diffs)%Z then 1 else 0)%Z
  end.

(** The locals of [main] the options set. *)
Record Args := mkArgs {
  before_path : option bytes;
  after_path : option bytes;
  cfg_threshold : spec_float;
  cfg_order : bool;
  stats_baselines : option bytes;
  stats_zscore : spec_float;
}.

(** [--threshold] with its value. *)
Definition set_threshold (val : bytes) (st : Args) : Z + Args :=
  let val := if Libc.has_prefix (lit "pct=") val then drop 4 val else val in
  if SFltb (atof val) dbl_zero then inl 2%Z
  else inr (mkArgs (before_path st) (after_path st) (atof val) (cfg_order st)
              (stats_baselines st) (stats_zscore st)).

(** An argument that takes no further one: [--threshold=], an unknown option or
    a path. *)
Definition other_arg (arg : bytes) (st : Args) : Z + Args :=
  if Libc.has_prefix (lit "--threshold") arg then
    if ceq (char_at arg 11) "=" then set_threshold (drop 12 arg) st else inl 2%Z
  else if ceq (char_at arg 0) "-" then inl 2%Z
  else
    match before_path st, after_path st with
    | None, _ => inr (mkArgs (Some arg) (after_path st) (cfg_threshold st) (cfg_order st)
                        (stats_baselines st) (stats_zscore st))
    | Some _, None => inr (mkArgs (before_path st) (Some arg) (cfg_threshold st) (cfg_order st)
                             (stats_baselines st) (stats_zscore st))
    | Some _, Some _ => inl 2%Z
    end.

(** The argument loop: an early exit with its code, or the settings. *)
Fixpoint parse_args (argv : list bytes) (st : Args) : Z + Args :=
  match argv with
  | [] => inr st
  | arg :: rest =>
      let other := match other_arg arg st with inl c => inl c | inr st => parse_args rest st end in
      if streq arg (lit "--help") || streq arg (lit "-h") then inl 0%Z
      else if streq arg (lit "--order") then
        parse_args rest (mkArgs (before_path st) (after_path st) (cfg_threshold st) true
                           (stats_baselines st) (stats_zscore st))
      else
        match rest with
        | [] => other
        | val :: rest' =>
            if streq arg (lit "--stats") then
              parse_args rest' (mkArgs (before_path st) (after_path st) (cfg_threshold st)
                                 (cfg_order st) (Some val) (stats_zscore st))
            else if streq arg (lit "--zscore") then
              parse_args rest' (mkArgs (before_path st) (after_path st) (cfg_threshold st)
                                 (cfg_order st) (stats_baselines st) (atof val))
            else if streq arg (lit "--threshold") then
              match set_threshold val st with inl c => inl c | inr st => parse_args rest' st end
            else other
        end
  end.

(** The two-file mode: the number [diffs] at the end of [main]. *)
Definition compare_traces (b_log a_log : NormalizedLog) (b_arr a_arr : JSON_Array)
    (cfg : DiffConfig) : nat :=
  let diffs := snd (print_all_diffs b_log a_log cfg) in
  if order_diff cfg then
    match print_order_diff (normalize_call_sequence b_arr) (normalize_call_sequence a_arr) with
    | None => diffs
    | Some (_, order_edits) => if 0 <? order_edits then diffs + 1 else diffs
    end
  else diffs.

(** [main]: the exit code, or the overflow of the statistics mode. *)
Definition main (argv : list bytes) : option Z :=
  match parse_args argv (mkArgs None None dbl_zero false None (dbl_of_Z 2)) with
  | inl code => Some code
  | inr st =>
      match stats_baselines st with
      | Some baselines =>
          match before_path st with
          | None => match after_path st with
                    | None => Some 2%Z
                    | Some test => stats_exit baselines test (stats_zscore st)
                    end
          | Some test => stats_exit baselines test (stats_zscore st)
          end
      | None =>
          match before_path st, after_path st with
          | Some b, Some a =>
              match load_trace b, load_trace a with
              | Some (b_log, b_arr), Some (a_log, a_arr) =>
                  let cfg := mkDiffConfig (cfg_threshold st) (cfg_order st) in
                  Some (if (0 <? compare_traces b_log a_log b_arr a_arr cfg)%nat then 1 else 0)%Z
              | _, _ => Some 2%Z
              end
          | _, _ => Some 2%Z
          end
      end
  end.

End main.

(** ** The summary of a trace *)

(** The calls a trace records, in order. *)
Definition calls (trace : JSON_Array) : list (bytes * double) :=
  omap (entry_call trace) (seq 0 (length trace)).

Lemma foldl_omap {A B C} (f : A → B → A) (g : C → option B) l a :
  foldl (λ a x, match g x with None => a | Some b => f a b end) a l = foldl f a (omap g l).
Proof. revert a. induction l as [|x l IH]; intros a; cbn; [done|]. rewrite IH. by destruct (g x). Qed.

Lemma normalize_calls trace : normalize_from_trace trace = foldl add_call [] (calls trace).
Proof. apply foldl_omap. Qed.

Lemma sequence_calls trace : normalize_call_sequence trace = map fst (calls trace).
Proof.
  unfold normalize_call_sequence, calls. generalize (seq 0 (length trace)).
  assert (∀ l acc, foldl (λ seq i, match entry_call trace i with
            | None => seq | Some (func, _) => seq ++ [func] end) acc l =
          acc ++ map fst (omap (entry_call trace) l)) as H.
  { induction l as [|i l IH]; intros acc; cbn; [by rewrite app_nil_r|].
    rewrite IH. destruct (entry_call trace i) as [[f d]|]; cbn; [by rewrite <- app_assoc|done]. }
  intros l. by rewrite H.
Qed.

(** The number of calls and the time of a function, in 64-bit arithmetic. *)
Definition stat_step (st : option (Z * Z)) (d : double) : Z * Z :=
  let '(c, t) := default (0, 0)%Z st in (u64 (c + 1), u64 (t + u64 (d_trunc d))).

Definition summary (cs : list (bytes * double)) (n : bytes) : option (Z * Z) :=
  foldl (λ st call, if streq (fst call) n then Some (stat_step st (snd call)) else st) None cs.

Definition pair_of (s : FuncStat) : Z * Z := (call_count s, total_duration_us s).

Definition short (name : bytes) : Prop := length name < NAME_SIZE.

Lemma set_fixed_short n : short n → set_fixed NAME_SIZE n = n.
Proof.
  intros H. unfold set_fixed. rewrite (proj2 (Nat.leb_gt _ _)) by done. by rewrite firstn_all.
Qed.

Lemma find_index_none log n : find_index log n = None ↔ normalize_find log n = None.
Proof. induction log as [|s log IH]; cbn; [done|]. case_if; [done|]. rewrite <- IH. by destruct (find_index log n). Qed.

Lemma find_snoc log s m :
  normalize_find (log ++ [s]) m =
  match normalize_find log m with
  | Some x => Some x
  | None => if streq (fs_name s) m then Some s else None
  end.
Proof. induction log as [|x log IH]; cbn; [done|]. by case_if. Qed.

(** Changing the entry a name is found at changes what is found for that name
    only. *)
Lemma find_alter f log n i m :
  (∀ s, fs_name (f s) = fs_name s) → find_index log n = Some i →
  normalize_find (alter f i log) m = if streq m n then f <$> normalize_find log n else normalize_find log m.
Proof.
  intros Hf. revert i. induction log as [|s log IH]; intros i; cbn; [done|].
  destruct (streq (fs_name s) n) eqn:E.
  - intros [= <-]. cbn. rewrite Hf. apply streq_true in E. subst n.
    destruct (streq m (fs_name s)) eqn:Em; bool_to_prop; [subst; by rewrite streq_refl|].
    by rewrite (proj2 (streq_false _ _)).
  - destruct (find_index log n) as [j|]; [|done]. intros [= <-]. cbn.
    rewrite (IH j eq_refl). destruct (streq m n) eqn:Em; [|by case_if].
    apply streq_true in Em. subst. by rewrite E.
Qed.

Lemma add_call_find log call m :
  short (fst call) →
  pair_of <$> normalize_find (add_call log call) m =
  if streq (fst call) m then Some (stat_step (pair_of <$> normalize_find log m) (snd call))
  else pair_of <$> normalize_find log m.
Proof.
  destruct call as [n d]. cbn [fst snd]. intros Hn. unfold add_call, log_get_or_create. cbn [fst].
  assert (∀ x y, streq x y = streq y x) as Hsym.
  { intros x y. unfold streq. by apply bool_decide_ext. }
  destruct (find_index log n) as [i|] eqn:Ei.
  - rewrite (find_alter _ log n) by done. rewrite (Hsym m n). case_if; [|done]. subst m.
    destruct (normalize_find log n) as [s|] eqn:Es; [done|].
    apply find_index_none in Es. by rewrite Es in Ei.
  - pose proof Ei as En. apply find_index_none in En.
    rewrite (find_alter _ _ n); [|done|].
    + rewrite !find_snoc. cbn [fs_name]. rewrite set_fixed_short, En, streq_refl by done.
      rewrite (Hsym m n). case_if; [subst; by rewrite En|]. by destruct (normalize_find log m).
    + clear -Ei Hn. induction log as [|s log IH]; cbn [find_index app fs_name length fmap option_fmap option_map] in *.
      * by rewrite set_fixed_short, streq_refl.
      * case_if; [done|]. destruct (find_index log n); [done|]. by rewrite IH.
Qed.

Lemma normalize_summary cs n :
  Forall (λ c, short (fst c)) cs →
  pair_of <$> normalize_find (foldl add_call [] cs) n = summary cs n.
Proof.
  unfold summary. assert (∀ log, Forall (λ c, short (fst c)) cs →
    pair_of <$> normalize_find (foldl add_call log cs) n =
    foldl (λ st call, if streq (fst call) n then Some (stat_step st (snd call)) else st)
      (pair_of <$> normalize_find log n) cs) as H; [|by apply H].
  induction cs as [|c cs IH]; intros log Hs; [done|]. apply Forall_cons in Hs as [Hc Hs]. cbn [foldl].
  by rewrite IH, add_call_find.
Qed.

Lemma find_some log n s : normalize_find log n = Some s → s ∈ log ∧ fs_name s = n.
Proof.
  induction log as [|x log IH]; cbn; [done|]. case_if.
  - intros [= <-]. split; [by left|done].
  - intros [? ?]%IH. split; [by right|done].
Qed.

Lemma find_own log s : NoDup (map fs_name log) → s ∈ log → normalize_find log (fs_name s) = Some s.
Proof.
  induction log as [|x log IH]; cbn; intros Hnd Hs; [by apply not_elem_of_nil in Hs|].
  apply NoDup_cons in Hnd as [Hx Hnd]. apply elem_of_cons in Hs as [->|Hs]; [by rewrite streq_refl|].
  destruct (streq (fs_name x) (fs_name s)) eqn:E; bool_to_prop; [|by apply IH].
  destruct Hx. rewrite E. apply list_elem_of_fmap. by exists s.
Qed.

Lemma find_none log n : normalize_find log n = None ↔ n ∉ map fs_name log.
Proof.
  induction log as [|x log IH]; cbn; [split; [intros _; apply not_elem_of_nil|done]|].
  case_if; rewrite not_elem_of_cons; [split; [done|naive_solver]|]. rewrite IH. naive_solver.
Qed.

Lemma add_call_names log call :
  short (fst call) → NoDup (map fs_name log) → NoDup (map fs_name (add_call log call)).
Proof.
  destruct call as [n d]. intros Hn Hnd. unfold add_call, log_get_or_create. cbn [fst snd] in *.
  assert (∀ f i l, (∀ s, fs_name (f s) = fs_name s) → map fs_name (alter f i l) = map fs_name l) as Ha.
  { intros f i l Hf. revert i. induction l as [|x l IH]; intros [|i]; cbn; try done; [by rewrite Hf|].
    f_equal. apply IH. }
  destruct (find_index log n) as [i|] eqn:Ei; rewrite Ha by done; [done|].
  rewrite map_app. cbn [map fs_name]. rewrite set_fixed_short by done.
  apply find_index_none, find_none in Ei.
  apply NoDup_app. split_and!; [done| |by apply NoDup_singleton].
  intros x Hx ->%list_elem_of_singleton. done.
Qed.

Lemma normalize_names cs :
  Forall (λ c, short (fst c)) cs → NoDup (map fs_name (foldl add_call [] cs)).
Proof.
  assert (∀ log, NoDup (map fs_name log) → Forall (λ c, short (fst c)) cs →
    NoDup (map fs_name (foldl add_call log cs))) as H; [|intros; apply H; [constructor|done]].
  induction cs as [|c cs IH]; intros log Hnd Hs; [done|]. apply Forall_cons in Hs as [Hc Hs]. cbn.
  apply IH; [|done]. by apply add_call_names.
Qed.

Lemma exceeds_any x y thr :
  SFleb thr dbl_zero = true → diff_exceeds_threshold x y thr = negb (x =? y)%Z.
Proof. intros H. unfold diff_exceeds_threshold. rewrite H. by destruct (x =? y)%Z. Qed.

Lemma before_diff_zero after cfg s :
  SFleb (threshold_pct cfg) dbl_zero = true →
  snd (before_diff after cfg s) = 0 ↔ pair_of <$> normalize_find after (fs_name s) = Some (pair_of s).
Proof.
  intros Hc. unfold before_diff. destruct (normalize_find after (fs_name s)) as [a|]; cbn [fmap option_fmap option_map].
  - rewrite !exceeds_any by done. unfold pair_of.
    destruct (Z.eqb_spec (call_count a) (call_count s)), (Z.eqb_spec (total_duration_us a) (total_duration_us s));
      cbn [andb snd]; rewrite ?(Z.eqb_sym (call_count s)), ?(Z.eqb_sym (total_duration_us s)).
    + split; [|done]. intros _. congruence.
    + rewrite (proj2 (Z.eqb_neq (total_duration_us a) _)) by done. cbn. rewrite orb_true_r. split; [done|congruence].
    + rewrite (proj2 (Z.eqb_neq (call_count a) _)) by done. cbn. split; [done|congruence].
    + rewrite (proj2 (Z.eqb_neq (call_count a) _)) by done. cbn. split; [done|congruence].
  - done.
Qed.

Lemma after_diff_zero before s :
  snd (after_diff before s) = 0 ↔ is_Some (normalize_find before (fs_name s)).
Proof.
  unfold after_diff. destruct (normalize_find before (fs_name s)); cbn.
  - split; [by eexists|done].
  - split; [done|by intros []].
Qed.

Lemma sum_zero l : foldr Nat.add 0 l = 0 ↔ Forall (λ n, n = 0) l.
Proof.
  induction l as [|x l IH]; cbn; [done|]. rewrite Forall_cons, <- IH. lia.
Qed.

Lemma diffs_zero before after cfg :
  NoDup (map fs_name before) → NoDup (map fs_name after) →
  SFleb (threshold_pct cfg) dbl_zero = true →
  snd (print_all_diffs before after cfg) = 0 ↔
  ∀ n, pair_of <$> normalize_find before n = pair_of <$> normalize_find after n.
Proof.
  intros Hb Ha Hc. unfold print_all_diffs. cbn [snd]. rewrite sum_zero, map_app, Forall_app, !map_map.
  rewrite !Forall_map, !Forall_forall. split.
  - intros [H1 H2] n. destruct (normalize_find before n) as [s|] eqn:Eb.
    + apply find_some in Eb as [Hs <-]. specialize (H1 s Hs). cbn in H1.
      apply before_diff_zero in H1; [|done]. by rewrite H1.
    + destruct (normalize_find after n) as [s|] eqn:Ea; [|done].
      apply find_some in Ea as [Hs <-]. specialize (H2 s Hs). cbn in H2.
      apply after_diff_zero in H2. rewrite Eb in H2. by destruct H2.
  - intros H. split; intros s Hs; cbn.
    + apply before_diff_zero; [done|]. by rewrite <- H, find_own.
    + apply after_diff_zero. specialize (H (fs_name s)). rewrite (find_own after) in H by done.
      destruct (normalize_find before (fs_name s)); [by eexists|done].
Qed.

(** ** The order diff *)

Definition line_of (x : diff_lcs_item) : ascii * bytes :=
  (match item_type x with
   | DIFF_LCS_MATCH => " " | DIFF_LCS_DELETE => "-" | DIFF_LCS_INSERT => "+"
   end%char, item_name x).

Lemma print_items l ctx :
  foldl print_item ctx l = (fst ctx ++ map line_of l, snd ctx + edit_count l).
Proof.
  revert ctx. induction l as [|[[] n] l IH]; intros [out e]; cbn [foldl].
  { cbn. by rewrite app_nil_r, Nat.add_0_r. }
  all: rewrite IH; cbn [print_item item_type item_name fst snd map line_of]; rewrite <- app_assoc.
  all: unfold edit_count; rewrite filter_cons; cbn; try done.
  all: rewrite decide_True by done; cbn [length]; f_equal; lia.
Qed.

(** The lines are printed in the order of the walk, from the last call to the
    first; there is no edit exactly when the sequences are equal. *)
Lemma order_diff_spec a b :
  ∃ l, print_order_diff a b = Some (map line_of l, edit_count l) ∧
    reverse (before_of l) = a ∧ reverse (after_of l) = b ∧ (edit_count l = 0 ↔ a = b).
Proof.
  destruct (walk_alignment a b) as (l & Hl & Hb & Ha & Hm). exists l.
  split; [|split; [done|split; [done|]]].
  - unfold print_order_diff. destruct (_ && _) eqn:E.
    + unfold diff_lcs_walk in Hl. rewrite E in Hl. by simplify_eq.
    + rewrite Hl. cbn. by rewrite print_items.
  - pose proof (edit_count_eq l) as He. destruct (lcs_longest a b) as [_ Hmax].
    apply (f_equal length) in Hb as Hbl, Ha as Hal. rewrite length_reverse in Hbl, Hal. split.
    + intros H0. rewrite <- Hb, <- Ha. f_equal. clear -H0. unfold edit_count in H0.
      apply nil_length_inv in H0. unfold before_of, after_of.
      induction l as [|[[] n] l IH]; [done| | |]; rewrite !filter_cons in *; cbn in *;
        repeat case_decide; simplify_eq; try done.
      cbn. f_equal. by apply IH.
    + intros ->. specialize (Hmax b (conj (reflexivity b) (reflexivity b))). lia.
Qed.

(** ** From two files to the exit code *)

Section gate.
Context {DT : JsonText.DoubleText}.
Variable read_file : bytes → option bytes.
Variable atof : bytes → spec_float.

Definition plain_arg (p : bytes) : Prop := p ≠ [] ∧ char_at p 0 ≠ "-"%char.

Lemma plain_args p st :
  plain_arg p → streq p (lit "--help") || streq p (lit "-h") = false ∧ streq p (lit "--order") = false ∧
  streq p (lit "--stats") = false ∧ streq p (lit "--zscore") = false ∧ streq p (lit "--threshold") = false ∧
  other_arg atof p st =
    match before_path st, after_path st with
    | None, _ => inr (mkArgs (Some p) (after_path st) (cfg_threshold st) (cfg_order st)
                        (stats_baselines st) (stats_zscore st))
    | Some _, None => inr (mkArgs (before_path st) (Some p) (cfg_threshold st) (cfg_order st)
                             (stats_baselines st) (stats_zscore st))
    | Some _, Some _ => inl 2%Z
    end.
Proof.
  intros [Hne Hc]. destruct p as [|c p]; [done|]. change (char_at (c :: p) 0) with c in Hc.
  assert (∀ s, streq (c :: p) ("-"%char :: s) = false) as H.
  { intros s. apply streq_false. by intros [= -> _]. }
  unfold lit. cbn [list_ascii_of_string]. rewrite !H. repeat (split; [done|]).
  unfold other_arg. change (char_at (c :: p) 0) with c. unfold lit. cbn [list_ascii_of_string Libc.has_prefix].
  assert (ceq "-" c = false) as -> by (apply ceq_false; congruence).
  by rewrite (proj2 (ceq_false c "-")).
Qed.

Lemma main_two_files (order : bool) p1 p2 :
  plain_arg p1 → plain_arg p2 →
  main read_file atof ((if order then [lit "--order"] else []) ++ [p1; p2]) =
  match load_trace read_file p1, load_trace read_file p2 with
  | Some (b_log, b_arr), Some (a_log, a_arr) =>
      Some (if (0 <? compare_traces b_log a_log b_arr a_arr (mkDiffConfig dbl_zero order))%nat
            then 1 else 0)%Z
  | _, _ => Some 2%Z
  end.
Proof.
  intros H1 H2. unfold main.
  assert (parse_args atof ((if order then [lit "--order"] else []) ++ [p1; p2])
            (mkArgs None None dbl_zero false None (dbl_of_Z 2)) =
          inr (mkArgs (Some p1) (Some p2) dbl_zero order None (dbl_of_Z 2))) as ->; [|done].
  assert (∀ st, before_path st = None → after_path st = None →
            parse_args atof [p1; p2] st =
            inr (mkArgs (Some p1) (Some p2) (cfg_threshold st) (cfg_order st)
                   (stats_baselines st) (stats_zscore st))) as H.
  { intros st Hb Ha. cbn [parse_args].
    destruct (plain_args p1 st H1) as (-> & -> & -> & -> & -> & ->). rewrite Hb.
    match goal with |- context [other_arg atof p2 ?x] =>
      destruct (plain_args p2 x H2) as (-> & -> & _ & _ & _ & ->) end. cbn. by rewrite Ha. }
  destruct order; [|by apply H].
  transitivity (parse_args atof [p1; p2] (mkArgs None None dbl_zero true None (dbl_of_Z 2)));
    [done|by apply H].
Qed.

(** The calls an entry list records. *)
Lemma load_written b log tail text p :
  Forall TraceStream.entry_ok log → "{"%char ∉ tail →
  TraceStream.write_log b log tail = Some text → read_file p = Some text →
  load_trace read_file p =
  Some (normalize_from_trace (TraceStream.entries log), TraceStream.entries log).
Proof.
  intros Hlog Htail Ht Hr. unfold load_trace. rewrite Hr.
  by rewrite (TraceStream.load_back b log tail text).
Qed.

Definition short_names (trace : JSON_Array) : Prop := Forall (λ c, short (fst c)) (calls trace).

Lemma compare_zero order t1 t2 :
  short_names t1 → short_names t2 →
  compare_traces (normalize_from_trace t1) (normalize_from_trace t2) t1 t2 (mkDiffConfig dbl_zero order) = 0 ↔
  (∀ n, summary (calls t1) n = summary (calls t2) n) ∧
  (order = true → map fst (calls t1) = map fst (calls t2)).
Proof.
  intros H1 H2. unfold compare_traces. cbn [order_diff].
  assert (snd (print_all_diffs (normalize_from_trace t1) (normalize_from_trace t2)
            (mkDiffConfig dbl_zero order)) = 0 ↔ ∀ n, summary (calls t1) n = summary (calls t2) n) as Hf.
  { rewrite !normalize_calls, diffs_zero; [|by apply normalize_names..|done].
    split; intros H n; specialize (H n); by rewrite !normalize_summary in *. }
  destruct order; [|rewrite Hf; naive_solver].
  rewrite !sequence_calls.
  destruct (order_diff_spec (map fst (calls t1)) (map fst (calls t2))) as (l & -> & _ & _ & He).
  rewrite <- Hf, <- He. destruct (0 <? edit_count l) eqn:E.
  - apply Nat.ltb_lt in E. split; [lia|]. intros [_ H]. specialize (H eq_refl). lia.
  - apply Nat.ltb_ge in E. split; [|naive_solver]. intros H. split; [done|]. intros _. lia.
Qed.

(** C33 (functional). The gate of a CI run, from the bytes of two trace files to the exit code:
    [retrace-diff BEFORE AFTER] exits 0 exactly when every function has the
    same number of calls and the same total time in both traces, and with
    [--order] only when moreover the calls come in the same order; otherwise it
    exits 1. *)
Theorem trace_diff_gate (order b : bool) log1 log2 tail text1 text2 p1 p2 :
  Forall TraceStream.entry_ok log1 → Forall TraceStream.entry_ok log2 → "{"%char ∉ tail →
  TraceStream.write_log b log1 tail = Some text1 → TraceStream.write_log b log2 tail = Some text2 →
  read_file p1 = Some text1 → read_file p2 = Some text2 → plain_arg p1 → plain_arg p2 →
  let t1 := TraceStream.entries log1 in
  let t2 := TraceStream.entries log2 in
  short_names t1 → short_names t2 →
  ∃ code, main read_file atof ((if order then [lit "--order"] else []) ++ [p1; p2]) = Some code ∧
    (code = 0%Z ∨ code = 1%Z) ∧
    (code = 0%Z ↔ (∀ n, summary (calls t1) n = summary (calls t2) n) ∧
                  (order = true → map fst (calls t1) = map fst (calls t2))).
Proof.
  intros Hl1 Hl2 Htail Ht1 Ht2 Hr1 Hr2 Hp1 Hp2 t1 t2 Hs1 Hs2.
  rewrite main_two_files by done.
  rewrite (load_written b log1 tail text1), (load_written b log2 tail text2) by done.
  pose proof (compare_zero order t1 t2 Hs1 Hs2) as Hz. fold t1 t2.
  eexists. split; [done|]. rewrite <- Hz.
  destruct (Nat.ltb_spec 0 (compare_traces (normalize_from_trace t1) (normalize_from_trace t2) t1 t2
    (mkDiffConfig dbl_zero order))); split; try (by auto); split; try done; lia.
Qed.

End gate.

(** ** A concrete pair of traces *)

#[local] Existing Instance JsonRoundTrip.whole_numbers.

Definition call_entry (func : bytes) (us : Z) : JSON_Object :=
  [(lit "message", JSONObject [(lit "func", JSONString func);
                               (lit "call_duration_us", JSONNumber (d_int us))])].

Definition log_one : list (bytes * JSON_Object) :=
  [(lit "[", call_entry (lit "open") 17); (lit ",", call_entry (lit "close") 17)].
Definition log_two : list (bytes * JSON_Object) :=
  [(lit "[", call_entry (lit "close") 17); (lit ",", call_entry (lit "open") 17)].

Definition file_of (log : list (bytes * JSON_Object)) : bytes :=
  default [] (TraceStream.write_log false log (lit "]")).

Definition two_files (p : bytes) : option bytes :=
  if streq p (lit "a") then Some (file_of log_one)
  else if streq p (lit "b") then Some (file_of log_two) else None.

Lemma call_entry_ok sep func :
  forallb (λ c, negb (ceq c NUL)) func = true → "{"%char ∉ sep →
  TraceStream.entry_ok (sep, call_entry func 17).
Proof.
  intros Hf Hsep. split; [done|]. cbn [snd].
  assert (∀ s, forallb (λ c, negb (ceq c NUL)) s = true → no_nul s) as H.
  { intros s Hs. apply Forall_forall. intros c Hc. apply list_elem_of_In in Hc.
    eapply forallb_forall in Hs; [|done]. apply negb_true_iff in Hs. by apply ceq_false. }
  split; [|apply Nat.leb_le; reflexivity]. cbn.
  repeat split; try (by apply H); try done;
    try (apply (bool_decide_eq_true_1 _); vm_compute; reflexivity); apply JsonRoundTrip.whole_ok_17.
Qed.

Lemma trace_diff_gate_witness :
  ∃ code, main two_files (λ _, dbl_zero) [lit "--order"; lit "a"; lit "b"] = Some code ∧
    (code = 0%Z ∨ code = 1%Z) ∧ code ≠ 0%Z.
Proof.
  destruct (trace_diff_gate two_files (λ _, dbl_zero) true false log_one log_two (lit "]")
    (file_of log_one) (file_of log_two) (lit "a") (lit "b")) as (code & Hm & Hc & Hz).
  - apply Forall_cons; split; [|apply Forall_cons; split; [|constructor]]; apply call_entry_ok; try done;
      apply (bool_decide_eq_true_1 _); vm_compute; reflexivity.
  - apply Forall_cons; split; [|apply Forall_cons; split; [|constructor]]; apply call_entry_ok; try done;
      apply (bool_decide_eq_true_1 _); vm_compute; reflexivity.
  - apply (bool_decide_eq_true_1 _); vm_compute; reflexivity.
  - vm_compute; reflexivity.
  - vm_compute; reflexivity.
  - reflexivity.
  - reflexivity.
  - split; [done|]. by intros ?.
  - split; [done|]. by intros ?.
  - apply (bool_decide_eq_true_1 _); vm_compute; reflexivity.
  - apply (bool_decide_eq_true_1 _); vm_compute; reflexivity.
  - exists code. split; [exact Hm|]. split; [exact Hc|].
    intros E. apply Hz in E as [_ E]. specialize (E eq_refl). by vm_compute in E.
Defined.

(** ** Where the code departs from its documentation *)

(** An unreadable file in the statistics mode exits 0, "no diff". *)
Theorem stats_error_exits_zero :
  main (λ _, None) (λ _, dbl_zero) [lit "--stats"; lit "x,y"; lit "z"] = Some 0%Z.
Proof. reflexivity. Qed.

(** More than 64 baselines overrun the array of counts. *)
Theorem stats_overflow :
  main two_files (λ _, dbl_zero) [lit "--stats"; concat (repeat (lit "a,") 65); lit "b"] = None.
Proof. vm_compute. reflexivity. Qed.

(** A function that only a later baseline has is not reported as absent. *)
Theorem absent_only_first_baseline :
  absent_in_test [[mkStat (lit "f") 1 0]; [mkStat (lit "f") 1 0; mkStat (lit "g") 1 0]]
    [mkStat (lit "f") 1 0] = 0.
Proof. reflexivity. Qed.

(** A name of 64 characters gets one entry per call, so a trace differs from
    itself. *)
Theorem long_name_self_diff :
  let name := repeat "f"%char 64 in
  let log := foldl add_call [] [(name, d_int 1); (name, d_int 2)] in
  length log = 2 ∧ snd (print_all_diffs log log (mkDiffConfig dbl_zero false)) = 1.
Proof. split; reflexivity. Qed.

(** The order diff is printed from the last call to the first. *)
Theorem order_printed_backwards :
  print_order_diff [lit "open"; lit "close"] [lit "open"; lit "close"] =
  Some ([(" "%char, lit "close"); (" "%char, lit "open")], 0).
Proof. reflexivity. Qed.

End TraceDiff.
