(* ===== verification/JsonPrint.v ===== *)
(** * JSON the programs print

    The agent, the daemon and the journal write JSON with [snprintf], field by
    field. Strings that are their own JSON text, whole numbers and objects of
    such fields are read by the parser as what was printed. *)

From S2P Require Import Prelude Numerals Libc Stdio Json JsonText JsonRoundTrip.

Module JsonPrint.

Import Numerals Libc Stdio Json JsonText JsonRoundTrip.

(** The C library's guarantee for whole numbers: their decimal text is read
    as a finite number, and up to 2^53 as the number itself. *)
Class IntText `{DoubleText} : Prop := int_text :
  ∀ z, (0 ≤ z < 2 ^ 64)%Z →
  ∃ d, dec_value (fmt_llu z) = Finite d ∧ ((z ≤ 2 ^ 53)%Z → d_trunc d = z).

(** A string that is its own JSON text. *)
Definition raw_text (s : bytes) : Prop := Forall (λ c, escape_char c = [c] ∧ c ≠ NUL) s.

Definition one_line (s : bytes) : Prop := Forall (λ c, c ≠ NL ∧ c ≠ NUL) s.

Lemma raw_string s : raw_text s → json_serialize_string s = ["034"%char] ++ s ++ ["034"%char].
Proof.
  intros Hs. unfold json_serialize_string. f_equal. f_equal.
  induction Hs as [|c s [Hc _] _ IH]; cbn; [done|]. by rewrite Hc, IH.
Qed.

Lemma raw_no_nul s : raw_text s → no_nul s.
Proof. intros Hs. eapply Forall_impl; [exact Hs|]. cbn. tauto. Qed.

Definition raw_facts (c : ascii) : bool :=
  implb (bool_decide (escape_char c = [c])) (negb (ceq c NL) && negb (ceq c "034") && negb (ceq c "\")).

Lemma raw_facts_all c : raw_facts c = true.
Proof. by destruct c as [[] [] [] [] [] [] [] []]. Qed.

Lemma raw_one_line s : raw_text s → one_line s.
Proof.
  intros Hs. eapply Forall_impl; [exact Hs|]. cbn. intros c [Hc Hn]. split; [|done].
  pose proof (raw_facts_all c) as F. unfold raw_facts in F. rewrite bool_decide_eq_true_2 in F by done.
  cbn in F. by bool_to_prop.
Qed.

Lemma hex_raw n z : raw_text (fmt_hex n z).
Proof.
  apply fmt_hex_forall. intros d Hd.
  assert (d = 0 ∨ d = 1 ∨ d = 2 ∨ d = 3 ∨ d = 4 ∨ d = 5 ∨ d = 6 ∨ d = 7 ∨ d = 8 ∨ d = 9 ∨
    d = 10 ∨ d = 11 ∨ d = 12 ∨ d = 13 ∨ d = 14 ∨ d = 15)%Z as H by lia.
  by repeat destruct H as [-> | H]; subst.
Qed.

Lemma digits_raw z : (0 ≤ z)%Z → raw_text (fmt_llu z).
Proof.
  intros Hz. unfold fmt_llu. apply digits_forall; [lia| |done|constructor]. intros d Hd.
  assert (d = 0 ∨ d = 1 ∨ d = 2 ∨ d = 3 ∨ d = 4 ∨ d = 5 ∨ d = 6 ∨ d = 7 ∨ d = 8 ∨ d = 9)%Z as H by lia.
  by repeat destruct H as [-> | H]; subst.
Qed.

Lemma digits_lead fuel z acc :
  (0 < z < 10 ^ Z.of_nat fuel)%Z → ∃ c s, digits 10 fuel z acc = c :: s ∧ c ≠ "0"%char.
Proof.
  revert z acc. induction fuel as [|fuel IH]; intros z acc Hz; [cbn in Hz; lia|].
  cbn [digits]. destruct (Z.ltb_spec z 10).
  - exists (digit z), acc. split; [done|]. intros E.
    pose proof (proj1 (digit_ok z ltac:(lia))) as Hd. rewrite E in Hd. by vm_compute in Hd; lia.
  - apply IH. rewrite Nat2Z.inj_succ, Z.pow_succ_r in Hz by lia.
    split; [apply Z.div_str_pos; lia|apply Z.div_lt_upper_bound; lia].
Qed.

Lemma fmt_llu_text z : (0 ≤ z < 2 ^ 64)%Z → g_text (fmt_llu z).
Proof.
  intros Hz. assert (digits_only (fmt_llu z)) as Hd.
  { eapply Forall_impl; [apply fmt_llu_digits; lia|]. cbn. intros c Hc. unfold isdigit, in_range.
    by rewrite !(proj2 (Z.leb_le _ _)) by lia. }
  assert (∃ c s, fmt_llu z = c :: s ∧ (c = "0"%char → s = [])) as (c & s & E & H0).
  { destruct (decide (z = 0%Z)) as [->|]; [by exists "0"%char, []|].
    destruct (digits_lead 20 z []) as (c & s & E & Hc); [lia|]. exists c, s. split; [exact E|done]. }
  rewrite E in *. exists [] c s [] []; try done; try (by left).
  - by rewrite !app_nil_r.
  - intros Hc. by rewrite H0.
Qed.

Section reading.
Context {DT : DoubleText} {IT : IntText}.

Lemma int_reads z :
  (0 ≤ z < 2 ^ 64)%Z →
  ∃ d, reads (JSONNumber d) (fmt_llu z) ∧ ((z ≤ 2 ^ 53)%Z → d_trunc d = z).
Proof.
  intros Hz. destruct (int_text z Hz) as (d & Hd & Ht). exists d. split; [|done].
  apply number_reads; [by apply fmt_llu_text|done].
Qed.

(** A text that reads as a value parses as it, also before a line end. *)
Lemma reads_parse v text rest :
  reads v text → delimiter (deref rest) = true → json_depth v ≤ S MAX_NESTING →
  json_parse_string (text ++ rest) = Some v.
Proof.
  intros [Ho Hr] Hd Hdepth. unfold json_parse_string.
  replace (ceq (char_at (text ++ rest) 0) "239") with false.
  - specialize (Hr (S MAX_NESTING) rest 0%Z Hd). unfold outcome in Hr.
    rewrite (proj2 (Nat.leb_le _ _) Hdepth) in Hr. destruct Hr as [t' Hr]. cbn [andb].
    by rewrite Hr.
  - destruct text as [|c text]; [done|]. unfold opener in Ho. cbn in Ho |- *.
    by destruct (ceq c "239"), (ceq c "}"), (ceq c "]"), (isspace c), (ceq c NUL).
Qed.

Lemma serialized_reads v text :
  json_ok v → json_serialize_to_buffer_r false v 0 = Some text → reads v text.
Proof. intros Hv E. destruct (value_reads false v Hv 0) as (t & E' & Hr). congruence. Qed.

End reading.

(** ** The instance of whole numbers *)

#[local] Existing Instance JsonRoundTrip.whole_numbers.

Lemma read_llu z : (0 ≤ z < 2 ^ 64)%Z → read_num 10 (fmt_llu z) = z.
Proof. intros Hz. unfold read_num, fmt_llu. by rewrite read_digits; [|lia..|done|done]. Qed.

#[export] Instance whole_int_text : IntText.
Proof.
  intros z Hz. exists (d_int z). split.
  - unfold dec_value, whole_numbers. replace (ceq (deref (fmt_llu z)) "-") with false.
    + by rewrite read_llu.
    + assert (Forall (λ c, (48 ≤ uchar c ≤ 57)%Z) (fmt_llu z)) as Hd by (apply fmt_llu_digits; lia).
      destruct (fmt_llu z) as [|c s]; [done|]. apply Forall_cons in Hd as [Hc _].
      change (deref (c :: s)) with c. unfold ceq. rewrite bool_decide_eq_false_2; [done|]. intros ->. by destruct Hc.
  - intros _. unfold d_trunc, d_int. cbn. lia.
Qed.

End JsonPrint.
