(* ===== verification/CtlFeed.v ===== *)
(** * The byte layer of the controller plane

    [retraced_ctl_feed] of [tools/retraced/retraced_ctl.c]: chunks of a
    connection are copied into a buffer of 8192 bytes and the lines in it are
    handled. The buffer is modelled with all its bytes, because the search for
    the next line goes past the bytes that were received. A chunk that ends at
    most one line has its lines handled as the stream of bytes has them; a chunk
    with three lines in it makes the length of a move wrap around. *)

From S2P Require Import Prelude Libc Stdio.

Module CtlFeed.

Import Libc Stdio.

Definition RBUF : nat := 8192.

Section feed.
Context {S : Type} (handle_line : S → bytes → S).

(** [rbuf] and [rfill]. *)
Record framing := mkFraming { rbuf : bytes; rfill : nat }.

(** The index [strchr] finds. *)
Definition newline_index (b : bytes) : option nat :=
  match strchr (cstr b) NL with
  | Some r => Some (length (cstr b) - length r)
  | None => None
  end.

(** The inner loop. The result is nothing when the length of the move wraps
    around. *)
Fixpoint take_lines (fuel : nat) (s : S) (f : framing) : option (S * framing) :=
  match fuel with
  | O => None
  | Datatypes.S fuel =>
      match newline_index (rbuf f) with
      | None => Some (s, f)
      | Some nl =>
          let b := <[nl := NUL]> (rbuf f) in
          let s := handle_line s (cstr b) in
          if rfill f <? nl + 1 then None
          else
            let n := rfill f - (nl + 1) in
            take_lines fuel s (mkFraming (take n (drop (nl + 1) b) ++ drop n b) n)
      end
  end.

(** [retraced_ctl_feed]: 0, or -1 for a line that exceeds the buffer. *)
Fixpoint feed (fuel : nat) (data : bytes) (s : S) (f : framing) : option (Z * (S * framing)) :=
  match fuel with
  | O => None
  | Datatypes.S fuel =>
      match data with
      | [] => Some (0%Z, (s, f))
      | _ =>
          let room := RBUF - 1 - rfill f in
          if room =? 0 then Some ((-1)%Z, (s, f))
          else
            let n := Nat.min (length data) room in
            let b := take (rfill f) (rbuf f) ++ take n data ++ drop (rfill f + n) (rbuf f) in
            let f := mkFraming (<[rfill f + n := NUL]> b) (rfill f + n) in
            '(s, f) ← take_lines (Datatypes.S (rfill f)) s f;
            feed fuel (drop n data) s f
      end
  end.

Definition retraced_ctl_feed (data : bytes) (s : S) (f : framing) : option (Z * (S * framing)) :=
  feed (Datatypes.S (length data)) data s f.

Definition retraced_ctl_conn_reset (f : framing) : framing := mkFraming (rbuf f) 0.

(** ** The stream of bytes *)

(** What a reader of single bytes does: a line is handled at its end, and there
    is room for 8191 bytes of it. *)
Fixpoint read_bytes (data : bytes) (s : S) (part : bytes) : Z * (S * bytes) :=
  match data with
  | [] => (0%Z, (s, part))
  | c :: data =>
      if length part =? RBUF - 1 then ((-1)%Z, (s, part))
      else if ceq c NL then read_bytes data (handle_line s part) []
      else read_bytes data s (part ++ [c])
  end.

Definition newlines (data : bytes) : nat := length (filter (λ c, c = NL) data).

(** The framing state holds a line that has begun. *)
Record holding (f : framing) (part : bytes) : Prop := mkHolding {
  ho_size : length (rbuf f) = RBUF;
  ho_fill : rfill f = length part;
  ho_room : length part < RBUF;
  ho_part : take (length part) (rbuf f) = part;
  ho_text : Forall (λ c, c ≠ NL ∧ c ≠ NUL) part;
}.

(** ** Strings in the buffer *)

Lemma cstr_drop u v k :
  no_nul u → cstr (drop k (u ++ NUL :: v)) = if k <=? length u then drop k u else cstr (drop (k - length u - 1) v).
Proof.
  revert k. induction u as [|c u IH]; intros k Hu.
  { destruct k as [|k]; [done|]. cbn. by rewrite Nat.sub_0_r. }
  apply Forall_cons in Hu as [Hc Hu]. destruct k as [|k]; [|apply (IH k Hu)].
  specialize (IH 0 Hu). cbn [drop app cstr] in IH |- *. rewrite drop_0 in IH. cbn [Nat.leb] in *.
  rewrite (proj2 (ceq_false _ _) Hc). by rewrite IH.
Qed.

Lemma cstr_until u v : no_nul u → cstr (u ++ NUL :: v) = u.
Proof. intros Hu. apply (cstr_drop u v 0 Hu). Qed.

Lemma newline_found p r : Forall (λ c, c ≠ NL ∧ c ≠ NUL) p → newline_index (p ++ NL :: r) = Some (length p).
Proof.
  intros Hp. unfold newline_index.
  assert (cstr (p ++ NL :: r) = p ++ NL :: cstr r) as ->.
  { induction Hp as [|c p [_ Hc] _ IH]; [done|]. cbn [app cstr]. by rewrite (proj2 (ceq_false _ _) Hc), IH. }
  rewrite strchr_app. 2: { intros H. by destruct (proj1 (Forall_forall _ _) Hp NL H). }
  f_equal. rewrite length_app. lia.
Qed.

Lemma newline_absent b : NL ∉ cstr b → newline_index b = None.
Proof. intros Hb. unfold newline_index. by rewrite (proj2 (strchr_none _ _) Hb). Qed.

Lemma line_no_nul p : Forall (λ c, c ≠ NL ∧ c ≠ NUL) p → no_nul p.
Proof. intros Hp. eapply Forall_impl; [exact Hp|]. by intros c []. Qed.

Lemma text_no_nl p : Forall (λ c, c ≠ NL ∧ c ≠ NUL) p → NL ∉ p.
Proof. intros Hp H. by destruct (proj1 (Forall_forall _ _) Hp NL H). Qed.

Lemma in_drop (x : ascii) k l : x ∈ drop k l → x ∈ l.
Proof. intros H. rewrite <- (take_drop k l), elem_of_app. by right. Qed.

(** What lies behind the rest of a line that was moved to the front has no line
    end before its first terminator. *)
Lemma moved_clean p q rest :
  Forall (λ c, c ≠ NL ∧ c ≠ NUL) p → Forall (λ c, c ≠ NL ∧ c ≠ NUL) q →
  NL ∉ cstr (q ++ drop (length q) (p ++ NUL :: q ++ NUL :: rest)).
Proof.
  intros Hp Hq.
  assert (∀ t, cstr (q ++ t) = q ++ cstr t) as E.
  { intros t. clear -Hq. induction Hq as [|c q [_ Hc] _ IH]; [done|]. cbn [app cstr].
    by rewrite (proj2 (ceq_false _ _) Hc), IH. }
  rewrite E, elem_of_app. intros [H|H]; [by apply (text_no_nl q Hq)|]. revert H.
  rewrite cstr_drop by (by apply line_no_nul). case_if.
  - intros H. apply (text_no_nl p Hp). exact (in_drop _ _ _ H).
  - rewrite cstr_drop by (by apply line_no_nul). rewrite (proj2 (Nat.leb_le _ _)) by lia.
    intros H. apply (text_no_nl q Hq). exact (in_drop _ _ _ H).
Qed.

(** ** One copy into the buffer *)

Lemma take_lines_none s w rest :
  Forall (λ c, c ≠ NL ∧ c ≠ NUL) w →
  take_lines (Datatypes.S (length w)) s (mkFraming (w ++ NUL :: rest) (length w))
  = Some (s, mkFraming (w ++ NUL :: rest) (length w)).
Proof.
  intros Hw. cbn [take_lines rbuf]. rewrite newline_absent; [done|].
  rewrite cstr_until by (by apply line_no_nul). by apply text_no_nl.
Qed.

Lemma take_lines_one s p q rest :
  Forall (λ c, c ≠ NL ∧ c ≠ NUL) p → Forall (λ c, c ≠ NL ∧ c ≠ NUL) q →
  let w := p ++ NL :: q in
  take_lines (Datatypes.S (length w)) s (mkFraming (w ++ NUL :: rest) (length w))
  = Some (handle_line s p, mkFraming (q ++ drop (length q) (p ++ NUL :: q ++ NUL :: rest)) (length q)).
Proof.
  intros Hp Hq w. unfold w. rewrite length_app, <- app_assoc. cbn [length app take_lines rbuf rfill].
  rewrite newline_found by done.
  assert (∀ t, <[length p := NUL]> (p ++ NL :: t) = p ++ NUL :: t) as Hins.
  { intros t. rewrite insert_app_r_alt, Nat.sub_diag by lia. done. }
  rewrite Hins, cstr_until by (by apply line_no_nul).
  rewrite (proj2 (Nat.ltb_ge _ _)) by lia.
  replace (length p + Datatypes.S (length q) - (length p + 1)) with (length q) by lia.
  assert (∀ t, drop (length p + 1) (p ++ NUL :: t) = t) as Hdrop.
  { intros t. replace (length p + 1) with (length (p ++ [NUL])) by (rewrite length_app; done).
    rewrite (cons_middle NUL p t), app_assoc. apply drop_app_length. }
  rewrite Hdrop, take_app_length.
  replace (length p + Datatypes.S (length q)) with (Datatypes.S (length p + length q)) by lia. cbn [take_lines rbuf].
  rewrite newline_absent; [done|]. by apply moved_clean.
Qed.

Lemma no_newlines data : newlines data = 0 → no_nul data → Forall (λ c, c ≠ NL ∧ c ≠ NUL) data.
Proof.
  unfold newlines. intros Hn. induction 1 as [|c data Hc _ IH]; [constructor|].
  rewrite filter_cons in Hn. destruct (decide (c = NL)); [done|]. constructor; [done|]. by apply IH.
Qed.

Lemma newline_split data :
  newlines data ≤ 1 → no_nul data →
  Forall (λ c, c ≠ NL ∧ c ≠ NUL) data ∨
  ∃ p q, data = p ++ NL :: q ∧ Forall (λ c, c ≠ NL ∧ c ≠ NUL) p ∧ Forall (λ c, c ≠ NL ∧ c ≠ NUL) q.
Proof.
  intros Hn Hd. revert Hn. induction Hd as [|c data Hc Hd IH]; intros Hn; [by left|].
  unfold newlines in *. rewrite filter_cons in Hn. destruct (decide (c = NL)) as [->|Hne].
  - right. exists [], data. split; [done|]. split; [constructor|]. apply no_newlines; [|done].
    unfold newlines. cbn in Hn. lia.
  - destruct (IH Hn) as [H|(p & q & -> & Hp & Hq)]; [left; by constructor|].
    right. exists (c :: p), q. split; [done|]. split; [by constructor|done].
Qed.

(** ** The reader of bytes *)

Lemma read_text data more s part :
  Forall (λ c, c ≠ NL ∧ c ≠ NUL) data → length part + length data < RBUF →
  read_bytes (data ++ more) s part = read_bytes more s (part ++ data).
Proof.
  intros Hd. revert part. induction Hd as [|c data [Hc _] _ IH]; intros part Hl; [by rewrite app_nil_r|].
  cbn [app read_bytes length] in *. rewrite (proj2 (Nat.eqb_neq _ _)) by (unfold RBUF in *; lia).
  rewrite (proj2 (ceq_false _ _) Hc), IH by (rewrite length_app; cbn [length]; lia). by rewrite <- app_assoc.
Qed.

Lemma read_line p q more s part :
  Forall (λ c, c ≠ NL ∧ c ≠ NUL) p → Forall (λ c, c ≠ NL ∧ c ≠ NUL) q →
  length part + length (p ++ NL :: q) < RBUF →
  read_bytes ((p ++ NL :: q) ++ more) s part = read_bytes more (handle_line s (part ++ p)) q.
Proof.
  intros Hp Hq Hl. rewrite length_app in Hl. cbn [length] in Hl.
  rewrite <- app_assoc, read_text by (done || lia). cbn [app read_bytes]. rewrite length_app.
  rewrite (proj2 (Nat.eqb_neq _ _)) by (unfold RBUF in *; lia). rewrite ceq_refl. rewrite read_text by (done || (cbn [length]; lia)).
  done.
Qed.

(** The buffer after a copy of [d]: what was received, a terminator and the
    rest. *)
Lemma copied f part d :
  holding f part → length part + length d < RBUF →
  ∃ rest, <[rfill f + length d := NUL]> (take (rfill f) (rbuf f) ++ d ++ drop (rfill f + length d) (rbuf f))
          = (part ++ d) ++ NUL :: rest ∧ length ((part ++ d) ++ NUL :: rest) = RBUF.
Proof.
  intros [Hs Hf Hr Hp Ht] Hl. rewrite Hf, Hp.
  assert (length (drop (length part + length d) (rbuf f)) = RBUF - (length part + length d)) as Hd
    by (rewrite length_drop; lia).
  destruct (drop (length part + length d) (rbuf f)) as [|c rest]; [cbn [length] in Hd; lia|]. cbn [length] in Hd.
  exists rest. rewrite app_assoc, insert_app_r_alt by (rewrite length_app; lia).
  rewrite length_app, Nat.sub_diag. cbn [insert list_insert]. split; [done|].
  rewrite !length_app. cbn [length]. lia.
Qed.

(** A copy and the lines in it, as the reader of bytes has them. *)
Lemma copy_step s f part d :
  holding f part → newlines d ≤ 1 → no_nul d → length part + length d < RBUF →
  let n := rfill f + length d in
  let b := take (rfill f) (rbuf f) ++ d ++ drop n (rbuf f) in
  ∃ s1 f1 part1, take_lines (Datatypes.S n) s (mkFraming (<[n := NUL]> b) n) = Some (s1, f1) ∧ holding f1 part1 ∧
    ∀ more, read_bytes (d ++ more) s part = read_bytes more s1 part1.
Proof.
  intros Hh Hn Hd Hl n b. destruct (copied f part d Hh Hl) as (rest & Hbuf & Hsize).
  pose proof (ho_fill _ _ Hh) as Hf. pose proof (ho_text _ _ Hh) as Ht. unfold b, n. rewrite Hbuf, Hf.
  destruct (newline_split d Hn Hd) as [Hnone|(p & q & -> & Hp & Hq)].
  - assert (Forall (λ c, c ≠ NL ∧ c ≠ NUL) (part ++ d)) as Hw by (by apply Forall_app).
    eexists s, _, (part ++ d). rewrite <- length_app.
    split; [by apply take_lines_none|]. split; [|intros more; by apply read_text].
    split; cbn [rbuf rfill]; [done|done|by rewrite length_app|by rewrite take_app_length|done].
  - assert (Forall (λ c, c ≠ NL ∧ c ≠ NUL) (part ++ p)) as Hpp by (by apply Forall_app).
    eexists (handle_line s (part ++ p)), _, q. rewrite <- length_app, app_assoc.
    split; [by apply take_lines_one|]. split; [|intros more; by apply read_line].
    rewrite !length_app in Hsize, Hl. cbn [length] in Hsize, Hl.
    split; cbn [rbuf rfill]; [|done|lia|by rewrite take_app_length|done].
    rewrite length_app, length_drop. repeat first [rewrite length_app|progress cbn [length]].
    repeat first [rewrite length_app in Hsize|progress cbn [length] in Hsize]. lia.
Qed.

Lemma feed_step fuel data s f part :
  holding f part → newlines data ≤ 1 → no_nul data → length data < fuel →
  ∃ rc s' f' part', feed fuel data s f = Some (rc, (s', f')) ∧ read_bytes data s part = (rc, (s', part')) ∧
    holding f' part'.
Proof.
  revert data s f part. induction fuel as [|fuel IH]; intros data s f part Hh Hn Hd Hl; [lia|].
  destruct data as [|c data]; [by exists 0%Z, s, f, part|]. cbn [feed].
  pose proof (ho_fill _ _ Hh) as Hf. pose proof (ho_room _ _ Hh) as Hr.
  destruct (Nat.eqb_spec (RBUF - 1 - rfill f) 0) as [Hfull|Hroom].
  { exists (-1)%Z, s, f, part. split; [done|]. split; [|done]. cbn [read_bytes].
    by rewrite (proj2 (Nat.eqb_eq _ _)) by lia. }
  cbv zeta. set (all := c :: data). fold all in Hn, Hd, Hl. set (n := Nat.min (length all) (RBUF - 1 - rfill f)).
  assert (0 < length all) by (unfold all; cbn [length]; lia).
  assert (length (take n all) = n) as Hlen by (rewrite length_take; lia).
  assert (newlines (take n all) ≤ 1 ∧ newlines (drop n all) ≤ 1) as [Hn1 Hn2].
  { revert Hn. unfold newlines. rewrite <- (take_drop n all) at 1. rewrite filter_app, length_app. lia. }
  assert (no_nul (take n all) ∧ no_nul (drop n all)) as [Hd1 Hd2].
  { unfold no_nul in *. rewrite <- (take_drop n all) in Hd. by apply Forall_app in Hd. }
  destruct (copy_step s f part (take n all) Hh Hn1 Hd1) as (s1 & f1 & part1 & E & H1 & Hread); [lia|].
  rewrite Hlen in E. cbn [rfill]. rewrite E. cbn [mbind option_bind].
  specialize (Hread (drop n all)). rewrite take_drop in Hread. rewrite Hread.
  apply (IH (drop n all) s1 f1 part1 H1 Hn2 Hd2). rewrite length_drop. lia.
Qed.

(** ** A connection *)

(** The chunks of a connection, until the peer is dropped. *)
Fixpoint feeds (chunks : list bytes) (s : S) (f : framing) : option (Z * (S * framing)) :=
  match chunks with
  | [] => Some (0%Z, (s, f))
  | c :: chunks =>
      '(rc, (s, f)) ← retraced_ctl_feed c s f;
      if (rc =? 0)%Z then feeds chunks s f else Some (rc, (s, f))
  end.

Lemma read_chunks d1 d2 s part :
  read_bytes (d1 ++ d2) s part =
  let '(rc, (s1, part1)) := read_bytes d1 s part in if (rc =? 0)%Z then read_bytes d2 s1 part1 else (rc, (s1, part1)).
Proof.
  revert s part. induction d1 as [|c d1 IH]; intros s part; [done|]. cbn [app read_bytes].
  case_if; [done|]. case_if; apply IH.
Qed.

(** ** Every chunk *)

(** The sizes of the buffer, which hold whatever a peer sends. *)
Definition framed (f : framing) : Prop := length (rbuf f) = RBUF ∧ rfill f < RBUF.

Lemma newline_line b nl : newline_index b = Some nl → nl < length b ∧ length (cstr (<[nl := NUL]> b)) ≤ nl.
Proof.
  unfold newline_index. destruct (strchr (cstr b) NL) as [r|] eqn:E; [|done].
  apply strchr_suffix in E as (q & Eq & _ & r' & ->). intros [= <-]. rewrite Eq, length_app. cbn [length].
  replace (length q + _ - _) with (length q) by lia. pose proof (cstr_length b) as Hl. rewrite Eq, length_app in Hl. cbn [length] in Hl.
  split; [lia|]. generalize (length q) as n. clear. induction b as [|c b IH]; intros [|n]; [exact (Nat.le_0_l _)..|].
  change (<[Datatypes.S n := NUL]> (c :: b)) with (c :: <[n := NUL]> b). cbn [cstr]. destruct (ceq c NUL); [cbn; lia|].
  cbn [length]. apply le_n_S, IH.
Qed.

Section invariant.
Context (P : S → Prop).
Hypothesis handle_keeps : ∀ s line, P s → length line < RBUF → P (handle_line s line).

Lemma take_lines_keeps fuel s f s' f' : P s → framed f → take_lines fuel s f = Some (s', f') → P s' ∧ framed f'.
Proof.
  revert s f. induction fuel as [|fuel IH]; intros s f Hs Hf; [done|]. cbn [take_lines]. destruct Hf as [Hb Hr].
  destruct (newline_index (rbuf f)) as [nl|] eqn:En; [|by intros [= <- <-]].
  apply newline_line in En as [Hnl Hlen]. destruct (Nat.ltb_spec (rfill f) (nl + 1)); [done|].
  apply IH; [apply handle_keeps; [done|lia]|]. split; cbn [rbuf rfill]; [|lia].
  rewrite length_app, length_take, !length_drop, length_insert. lia.
Qed.

Lemma feed_keeps fuel data s f rc s' f' : P s → framed f → feed fuel data s f = Some (rc, (s', f')) → P s' ∧ framed f'.
Proof.
  revert data s f. induction fuel as [|fuel IH]; intros data s f Hs Hf; [done|]. cbn [feed].
  destruct data as [|c data]; [by intros [= <- <- <-]|]. destruct (Nat.eqb_spec (RBUF - 1 - rfill f) 0) as [Hz|Hz]; [by intros [= <- <- <-]|].
  cbv zeta. set (n := Nat.min _ _). destruct (take_lines _ s _) as [[s1 f1]|] eqn:Et; [|done]. cbn [mbind option_bind].
  apply take_lines_keeps in Et as [Hs1 Hf1]; [by apply IH|done|]. destruct Hf as [Hb Hr]. split; cbn [rbuf rfill].
  - rewrite length_insert, !length_app, !length_take, length_drop. lia.
  - lia.
Qed.

End invariant.

(** C12 (refinement). On a connection whose chunks end at most one line each, the
    controller plane handles the lines of the stream as a reader of single bytes
    would, in order and whatever the chunks are, and drops the peer exactly when
    a line has more than 8191 bytes. *)
Theorem ctl_feed_in_lines chunks s f part :
  holding f part → Forall (λ c, newlines c ≤ 1 ∧ no_nul c) chunks →
  ∃ rc s' f' part', feeds chunks s f = Some (rc, (s', f')) ∧ read_bytes (concat chunks) s part = (rc, (s', part')) ∧
    holding f' part'.
Proof.
  intros Hh Hc. revert s f part Hh. induction Hc as [|c chunks [Hn Hd] _ IH]; intros s f part Hh.
  { by exists 0%Z, s, f, part. }
  cbn [feeds concat]. rewrite read_chunks.
  destruct (feed_step (Datatypes.S (length c)) c s f part Hh Hn Hd) as (rc & s1 & f1 & part1 & E & -> & H1); [lia|].
  unfold retraced_ctl_feed. rewrite E. cbn [mbind option_bind]. destruct (rc =? 0)%Z; [by apply IH|].
  by exists rc, s1, f1, part1.
Qed.

End feed.

(** ** Concrete connections *)

Definition empty_framing : framing := mkFraming (repeat NUL RBUF) 0.

Lemma empty_holding : holding empty_framing [].
Proof. split; cbn [empty_framing rbuf rfill]; [apply repeat_length|done|apply Nat.ltb_lt; reflexivity|done|constructor]. Qed.

Definition toy_chunks : list bytes := [lit "stat"; lit "us" ++ [NL] ++ lit "p"; lit "s" ++ [NL]].

Lemma ctl_feed_in_lines_witness :
  ∃ rc s' f' part', feeds (λ s l, (s ++ [l])%list) toy_chunks [] empty_framing = Some (rc, (s', f')) ∧
    read_bytes (λ s l, (s ++ [l])%list) (concat toy_chunks) [] [] = (rc, (s', part')) ∧ holding f' part'.
Proof.
  apply (ctl_feed_in_lines (λ s l, (s ++ [l])%list) toy_chunks [] empty_framing []).
  - exact empty_holding.
  - apply (bool_decide_eq_true_1 _). vm_compute. reflexivity.
Defined.

(** With three lines in a chunk the search can find a line end among the bytes
    of lines that are already handled: the length of the move wraps around. *)
Lemma feed_wraps :
  retraced_ctl_feed (λ s l, (s ++ [l])%list) (lit "aaa" ++ [NL] ++ lit "b" ++ [NL] ++ lit "cd") [] empty_framing = None.
Proof. vm_compute. reflexivity. Qed.

End CtlFeed.
