(* ===== verification/AgentRegistry.v ===== *)
(** * The daemon's registry, its drift matcher and its gates

    [tools/retraced/registry.c]: the agents the daemon knows, in a bounded
    array keyed by the identifier it mints; [drift_hits.c]: the two rings that
    match what the kernel lane observed against what the library lane claimed;
    [peer_gate.c]: who may connect and which nonce is the daemon's.

    A pointer into the array of agents is an index. The clock and the random
    bytes are arguments. *)

From S2P Require Import Prelude Numerals Libc Stdio Json JsonText JsonObject.

Module AgentRegistry.

Import Numerals Libc Stdio Json JsonObject.

(** ** registry.h *)

Definition RETRACED_REGISTRY_MAX : nat := 1024.
Definition RETRACED_AGENT_ID_MAX : nat := 96.
Definition RETRACED_SESSION_MAX : nat := 65.
Definition RETRACED_CMDLINE_MAX : nat := 512.

Inductive agent_state := AGENT_LIVE | AGENT_STALE | AGENT_GONE.

#[global] Instance agent_state_eq_dec : EqDecision agent_state.
Proof. solve_decision. Defined.

Record agent_entry := mkAgent {
  ae_id : bytes;
  session : bytes;
  parent_id : bytes;
  cmdline : bytes;
  pid : Z;
  ppid : Z;
  parent_hole : bool;
  spectator : bool;
  kernel_obs : Z;
  kernel_obs_last : Z;
  policy_epoch : Z;
  last_seq : Z;
  last_hb_ms : Z;
  state : agent_state;
}.

(** The agents in use, [count] of them. *)
Record retraced_registry := mkRegistry { agents : list agent_entry; id_counter : Z }.

Definition set_state (s : agent_state) (e : agent_entry) : agent_entry :=
  mkAgent (ae_id e) (session e) (parent_id e) (cmdline e) (pid e) (ppid e) (parent_hole e)
    (spectator e) (kernel_obs e) (kernel_obs_last e) (policy_epoch e) (last_seq e) (last_hb_ms e) s.
Definition set_session (s : bytes) (e : agent_entry) : agent_entry :=
  mkAgent (ae_id e) s (parent_id e) (cmdline e) (pid e) (ppid e) (parent_hole e)
    (spectator e) (kernel_obs e) (kernel_obs_last e) (policy_epoch e) (last_seq e) (last_hb_ms e)
    (state e).
Definition set_parent (p : bytes) (hole : bool) (e : agent_entry) : agent_entry :=
  mkAgent (ae_id e) (session e) p (cmdline e) (pid e) (ppid e) hole
    (spectator e) (kernel_obs e) (kernel_obs_last e) (policy_epoch e) (last_seq e) (last_hb_ms e)
    (state e).
Definition set_spectator (b : bool) (e : agent_entry) : agent_entry :=
  mkAgent (ae_id e) (session e) (parent_id e) (cmdline e) (pid e) (ppid e) (parent_hole e)
    b (kernel_obs e) (kernel_obs_last e) (policy_epoch e) (last_seq e) (last_hb_ms e) (state e).
Definition set_obs (n last : Z) (e : agent_entry) : agent_entry :=
  mkAgent (ae_id e) (session e) (parent_id e) (cmdline e) (pid e) (ppid e) (parent_hole e)
    (spectator e) n last (policy_epoch e) (last_seq e) (last_hb_ms e) (state e).
Definition set_epoch (n : Z) (e : agent_entry) : agent_entry :=
  mkAgent (ae_id e) (session e) (parent_id e) (cmdline e) (pid e) (ppid e) (parent_hole e)
    (spectator e) (kernel_obs e) (kernel_obs_last e) n (last_seq e) (last_hb_ms e) (state e).
Definition set_seq (seq hb : Z) (e : agent_entry) : agent_entry :=
  mkAgent (ae_id e) (session e) (parent_id e) (cmdline e) (pid e) (ppid e) (parent_hole e)
    (spectator e) (kernel_obs e) (kernel_obs_last e) (policy_epoch e) seq hb (state e).

(** A change of the agent a pointer names. *)
Definition upd (i : nat) (f : agent_entry → agent_entry) (r : retraced_registry) : retraced_registry :=
  mkRegistry (alter f i (agents r)) (id_counter r).

(** ** registry.c *)

Definition retraced_registry_init : retraced_registry := mkRegistry [] 0.

Fixpoint find_from (l : list agent_entry) (agent_id : bytes) : option nat :=
  match l with
  | [] => None
  | e :: l => if streq (ae_id e) agent_id then Some 0 else S <$> find_from l agent_id
  end.

Definition retraced_registry_find (r : retraced_registry) (agent_id : option bytes) : option nat :=
  match agent_id with None => None | Some id => find_from (agents r) id end.

(** The entry a registration fills in. *)
Definition fresh_agent (id : bytes) (pid ppid : Z) (session cmdline : option bytes) : agent_entry :=
  mkAgent (snprintf RETRACED_AGENT_ID_MAX id)
    (snprintf RETRACED_SESSION_MAX (default [] session)) []
    (snprintf RETRACED_CMDLINE_MAX (default [] cmdline)) pid ppid false false 0 0 0 0 0 AGENT_LIVE.

(** The identifier the daemon mints. *)
Definition minted (pid n : Z) : bytes :=
  snprintf RETRACED_AGENT_ID_MAX (lit "boot." ++ fmt_ld pid ++ lit "." ++ fmt_llu n).

Definition retraced_registry_hello (r : retraced_registry) (agent_id_in : option bytes) (pid ppid : Z)
    (session cmdline : option bytes) : retraced_registry * option nat :=
  let mint := match agent_id_in with None | Some [] => true | Some _ => false end in
  let r := if mint then mkRegistry (agents r) (u64 (id_counter r + 1)) else r in
  let id := if mint then minted pid (id_counter r) else default [] agent_id_in in
  match retraced_registry_find r (Some id) with
  | Some i => (upd i (set_state AGENT_LIVE) r, Some i)
  | None =>
      if RETRACED_REGISTRY_MAX <=? length (agents r) then (r, None)
      else (mkRegistry (agents r ++ [fresh_agent id pid ppid session cmdline]) (id_counter r),
            Some (length (agents r)))
  end.

(** The scan for a parent: the first other agent with the process id that is
    not gone. *)
Fixpoint parent_from (l : list agent_entry) (k i : nat) (ppid : Z) : option nat :=
  match l with
  | [] => None
  | cand :: l =>
      if negb (k =? i) && (pid cand =? ppid)%Z && negb (bool_decide (state cand = AGENT_GONE))
      then Some k else parent_from l (S k) i ppid
  end.

Definition retraced_registry_link_parent (r : retraced_registry) (i : nat)
    : retraced_registry * option nat :=
  match agents r !! i with
  | None => (r, None)
  | Some e =>
      if negb (streq (parent_id e) []) || parent_hole e
      then (r, retraced_registry_find r (Some (parent_id e)))
      else
        match parent_from (agents r) 0 i (ppid e) with
        | Some k =>
            let cand_id := match agents r !! k with Some c => ae_id c | None => [] end in
            (upd i (set_parent (snprintf RETRACED_AGENT_ID_MAX cand_id) (parent_hole e)) r, Some k)
        | None => (upd i (set_parent (parent_id e) (1 <? ppid e)%Z) r, None)
        end
  end.

Definition retraced_registry_bye (r : retraced_registry) (agent_id : bytes) : retraced_registry :=
  match retraced_registry_find r (Some agent_id) with
  | Some i => upd i (set_state AGENT_GONE) r
  | None => r
  end.

Definition retraced_registry_heartbeat (r : retraced_registry) (agent_id : bytes) (seq now_ms : Z)
    : Z * retraced_registry :=
  match retraced_registry_find r (Some agent_id) with
  | None => (-1, r)%Z
  | Some i => (0%Z, upd i (λ e, set_state AGENT_LIVE (set_seq seq now_ms e)) r)
  end.

(** An agent whose heartbeat is overdue. *)
Definition overdue (now_ms timeout_ms : Z) (e : agent_entry) : bool :=
  bool_decide (state e = AGENT_LIVE) && (0 <? last_hb_ms e)%Z
  && (timeout_ms <? now_ms - last_hb_ms e)%Z.

Definition retraced_registry_sweep (r : retraced_registry) (now_ms timeout_ms : Z)
    : retraced_registry * nat :=
  (mkRegistry (map (λ e, if overdue now_ms timeout_ms e then set_state AGENT_STALE e else e) (agents r))
     (id_counter r),
   length (filter (λ e, overdue now_ms timeout_ms e = true) (agents r))).

(** The session token: 16 random bytes, the first replaced by the clock and the
    process id when it is 0, in hexadecimal. *)
Definition retraced_registry_mint_session (raw : list Z) (time_pid : Z) : bytes :=
  let raw := match raw with
             | 0%Z :: raw => (time_pid mod 256)%Z :: raw
             | _ => raw
             end in
  concat (map (λ b, [digit (Z.shiftr b 4); digit (Z.land b 15)]) raw).

(** *** The snapshot *)

(** A setter whose failure the caller ignores. *)
Definition try_set (o : JSON_Object) (r : option JSON_Object) : JSON_Object := default o r.

Definition put_string (n : string) (s : bytes) (o : JSON_Object) : JSON_Object :=
  try_set o (json_object_set_string o (lit n) s).
Definition put_number (n : string) (z : Z) (o : JSON_Object) : JSON_Object :=
  try_set o (json_object_set_number o (lit n) (d_of_int z)).
Definition put_value (n : string) (v : JSON_Value) (o : JSON_Object) : JSON_Object :=
  try_set o (json_object_set_value o (lit n) (Some v)).

Definition state_name (s : agent_state) : bytes :=
  match s with
  | AGENT_LIVE => lit "live" | AGENT_STALE => lit "stale" | AGENT_GONE => lit "gone"
  end.

Definition agent_json (e : agent_entry) : JSON_Object :=
  let o := put_string "id" (ae_id e) [] in
  let o := put_string "session" (session e) o in
  let o := if streq (parent_id e) [] then o else put_string "parent" (parent_id e) o in
  let o := put_number "parent_hole" (Z.b2z (parent_hole e)) o in
  let o := put_number "spectator" (Z.b2z (spectator e)) o in
  let o := put_number "kernel_obs" (kernel_obs e) o in
  let o := put_string "cmdline" (cmdline e) o in
  let o := put_number "pid" (pid e) o in
  let o := put_number "ppid" (ppid e) o in
  let o := put_number "policy_epoch" (policy_epoch e) o in
  let o := put_number "last_seq" (last_seq e) o in
  let o := put_number "last_hb_ms" (last_hb_ms e) o in
  put_string "state" (state_name (state e)) o.

Definition retraced_registry_to_json (r : retraced_registry) : JSON_Value :=
  let o := put_number "count" (Z.of_nat (length (agents r))) [] in
  JSONObject (put_value "agents" (JSONArray (map (JSONObject ∘ agent_json) (agents r))) o).

(** ** peer_gate.c *)

Definition retraced_peer_allowed (peer_uid my_euid : Z) : bool :=
  ((peer_uid =? 0) || (peer_uid =? my_euid))%Z.

(** The comparison that takes the same time for every text of the length. *)
Definition retraced_nonce_matches (presented : option bytes) (expected : bytes) : bool :=
  match presented with
  | None => false
  | Some p =>
      if negb (length p =? length expected) then false
      else (foldl Z.lor 0 (zip_with (λ a b, Z.lxor (uchar a) (uchar b)) p expected) =? 0)%Z
  end.

(** ** drift_hits.c *)

Definition CLAIM_RING : nat := 128.
Definition HIT_RING : nat := 64.
Definition CLAIM_WINDOW_S : Z := 5.
Definition HIT_DEDUP_S : Z := 15.
Definition OP_MAX : nat := 32.
Definition PATH_MAX_LEN : nat := 192.

(** [struct claim] and [struct hit_key], which share their layout. *)
Record claim := mkClaim { c_pid : Z; c_op : bytes; c_path : bytes; c_ts : Z }.

Record Drift := mkDrift {
  g_claims : list claim;
  g_claims_next : nat;
  g_hits : list claim;
  g_hits_next : nat;
}.

Definition no_claim : claim := mkClaim 0 [] [] 0.

Definition retrace_drift_hits_reset : Drift :=
  mkDrift (replicate CLAIM_RING no_claim) 0 (replicate HIT_RING no_claim) 0.

Definition key_copy (pid : Z) (op path : option bytes) (now : Z) : claim :=
  mkClaim pid (snprintf OP_MAX (default [] op)) (snprintf PATH_MAX_LEN (default [] path)) now.

Definition same_key (c : claim) (pid : Z) (op path : option bytes) : bool :=
  streq (c_op c) (default [] op) && streq (c_path c) (default [] path)
  && negb ((0 <? pid) && (0 <? c_pid c) && negb (pid =? c_pid c))%Z.

(** An entry of a ring that is in use, not older than the window, and of the
    key. *)
Definition recent (window : Z) (pid : Z) (op path : option bytes) (now : Z) (c : claim) : bool :=
  negb (c_ts c =? 0)%Z && negb (window <? now - c_ts c)%Z && same_key c pid op path.

Definition claim_covers (d : Drift) (pid : Z) (op path : option bytes) (now : Z) : bool :=
  existsb (recent CLAIM_WINDOW_S pid op path now) (g_claims d).

Definition hit_recent (d : Drift) (pid : Z) (op path : option bytes) (now : Z) : bool :=
  existsb (recent HIT_DEDUP_S pid op path now) (g_hits d).

Definition retrace_drift_claim (d : Drift) (pid : Z) (op path : option bytes) (now : Z) : Drift :=
  mkDrift (<[g_claims_next d := key_copy pid op path now]> (g_claims d))
    ((g_claims_next d + 1) mod CLAIM_RING) (g_hits d) (g_hits_next d).

Definition retrace_drift_observe (d : Drift) (pid : Z) (op path : option bytes) (now : Z)
    : bool * Drift :=
  if streq (default [] path) [] then (false, d)
  else if claim_covers d pid op path now then (false, d)
  else if hit_recent d pid op path now then (false, d)
  else (true, mkDrift (g_claims d) (g_claims_next d)
                (<[g_hits_next d := key_copy pid op path now]> (g_hits d))
                ((g_hits_next d + 1) mod HIT_RING)).

(** ** The registry as a map *)

(** The registry as its clients see it: agents by identifier. *)
Definition reg_map (r : retraced_registry) : gmap bytes agent_entry :=
  list_to_map (map (λ e, (ae_id e, e)) (agents r)).

(** Distinct identifiers, within the bound. *)
Record wf (r : retraced_registry) : Prop := mkWf {
  wf_ids : NoDup (map ae_id (agents r));
  wf_count : length (agents r) ≤ RETRACED_REGISTRY_MAX;
}.

(** A change of an entry that keeps its identifier. *)
Definition keeps_id (f : agent_entry → agent_entry) : Prop := ∀ e, ae_id (f e) = ae_id e.

Lemma find_from_spec l id :
  match find_from l id with
  | Some i => ∃ e, l !! i = Some e ∧ ae_id e = id
  | None => id ∉ map ae_id l
  end.
Proof.
  induction l as [|e l IH]; cbn; [apply not_elem_of_nil|].
  destruct (streq (ae_id e) id) eqn:E; bool_to_prop; [by exists e|].
  destruct (find_from l id) as [i|]; cbn; [done|]. rewrite elem_of_cons. naive_solver.
Qed.

Lemma ids_lookup l i j e e' :
  NoDup (map ae_id l) → l !! i = Some e → l !! j = Some e' → ae_id e = ae_id e' → i = j.
Proof.
  intros Hn Hi Hj E. eapply NoDup_lookup; [exact Hn| |]; rewrite list_lookup_fmap.
  - by rewrite Hi.
  - by rewrite Hj, E.
Qed.

Lemma reg_map_lookup r id e :
  wf r → reg_map r !! id = Some e ↔ ∃ i, agents r !! i = Some e ∧ ae_id e = id.
Proof.
  intros [Hn _]. unfold reg_map. rewrite <- elem_of_list_to_map.
  2: { rewrite map_map. cbn. exact Hn. }
  rewrite list_elem_of_fmap. split.
  - intros (e' & [= -> ->] & Hin). apply list_elem_of_lookup in Hin as [i Hi]. by exists i.
  - intros (i & Hi & <-). exists e. split; [done|]. by eapply list_elem_of_lookup_2.
Qed.

Lemma find_map r id :
  wf r → match retraced_registry_find r (Some id) with
         | Some i => ∃ e, agents r !! i = Some e ∧ reg_map r !! id = Some e ∧ ae_id e = id
         | None => reg_map r !! id = None
         end.
Proof.
  intros Hw. cbn. pose proof (find_from_spec (agents r) id) as H.
  destruct (find_from _ _) as [i|].
  - destruct H as (e & Hi & <-). exists e. split; [done|]. split; [|done]. by apply reg_map_lookup; eauto.
  - destruct (reg_map r !! id) as [e|] eqn:E; [|done]. exfalso. apply H.
    apply reg_map_lookup in E as (i & Hi & <-); [|done]. apply list_elem_of_fmap. exists e.
    split; [done|]. by eapply list_elem_of_lookup_2.
Qed.

Lemma map_ids_alter f i l : keeps_id f → map ae_id (alter f i l) = map ae_id l.
Proof.
  intros Hf. revert i. induction l as [|e l IH]; intros [|i]; cbn; try done.
  - by rewrite Hf.
  - by rewrite IH.
Qed.

Lemma upd_wf r i f : wf r → keeps_id f → wf (upd i f r).
Proof.
  intros [Hn Hc] Hf. split; cbn.
  - by rewrite map_ids_alter.
  - by rewrite length_alter.
Qed.

Lemma upd_map r i f e :
  wf r → keeps_id f → agents r !! i = Some e → reg_map (upd i f r) = <[ae_id e := f e]> (reg_map r).
Proof.
  intros Hw Hf Hi. pose proof (upd_wf r i f Hw Hf) as Hw'. apply map_eq. intros id.
  destruct (decide (id = ae_id e)) as [->|Hne].
  - rewrite lookup_insert_eq. apply reg_map_lookup; [done|]. exists i. cbn.
    rewrite list_lookup_alter_eq, Hi. by rewrite Hf.
  - rewrite lookup_insert_ne by done. apply option_eq. intros e'.
    rewrite !reg_map_lookup by done. split; intros (j & Hj & <-).
    + cbn in Hj. destruct (decide (j = i)) as [->|Hji].
      * rewrite list_lookup_alter_eq, Hi in Hj. cbn in Hj. injection Hj as <-. by rewrite Hf in Hne.
      * rewrite list_lookup_alter_ne in Hj by done. by exists j.
    + exists j. split; [|done]. cbn. rewrite list_lookup_alter_ne; [done|]. intros ->. by simplify_eq.
Qed.

Lemma reg_add_map r e :
  wf r → reg_map r !! ae_id e = None → length (agents r) < RETRACED_REGISTRY_MAX → ∀ n,
  wf (mkRegistry (agents r ++ [e]) n) ∧
  reg_map (mkRegistry (agents r ++ [e]) n) = <[ae_id e := e]> (reg_map r).
Proof.
  intros Hw He Hc n. assert (wf (mkRegistry (agents r ++ [e]) n)) as Hw'.
  { destruct Hw as [Hn Hl]. split; cbn.
    - rewrite map_app. apply NoDup_app. split; [done|]. split; [|apply NoDup_singleton].
      intros id Hid. cbn. rewrite list_elem_of_singleton. intros ->.
      apply list_elem_of_fmap in Hid as (e' & E & Hin). apply list_elem_of_lookup in Hin as [i Hi].
      assert (reg_map r !! ae_id e = Some e') by (apply reg_map_lookup; [by split|]; eauto). congruence.
    - rewrite length_app. cbn. lia. }
  split; [done|]. apply map_eq. intros id. destruct (decide (id = ae_id e)) as [->|Hne].
  - rewrite lookup_insert_eq. apply reg_map_lookup; [done|]. exists (length (agents r)). cbn.
    by rewrite list_lookup_middle.
  - rewrite lookup_insert_ne by done. apply option_eq. intros e'. rewrite !reg_map_lookup by done.
    cbn. split; intros (j & Hj & <-).
    + apply lookup_app_Some in Hj as [Hj|[_ Hj]]; [by exists j|].
      apply list_lookup_singleton_Some in Hj as [_ ->]. done.
    + exists j. split; [|done]. by apply lookup_app_l_Some.
Qed.

(** *** Identifiers *)

Lemma fresh_id id p pp s c :
  length id < RETRACED_AGENT_ID_MAX → ae_id (fresh_agent id p pp s c) = id.
Proof.
  change (ae_id _) with (snprintf RETRACED_AGENT_ID_MAX id). unfold snprintf, RETRACED_AGENT_ID_MAX.
  intros. apply take_ge. lia.
Qed.

Lemma fmt_ld_no_dot z : "."%char ∉ fmt_ld z.
Proof.
  assert (∀ y, (0 ≤ y)%Z → "."%char ∉ fmt_llu y) as H.
  { intros y Hy. eapply not_in_digits; [by apply fmt_llu_digits|]. cbn. intros [? _]. by vm_compute in H. }
  unfold fmt_ld. destruct (Z.ltb_spec z 0); [|by apply H].
  apply not_elem_of_cons. split; [done|]. apply H. lia.
Qed.

Lemma minted_full p n : minted p n = lit "boot." ++ fmt_ld p ++ lit "." ++ fmt_llu n.
Proof.
  unfold minted, snprintf. apply take_ge. rewrite !length_app. cbn [length lit list_ascii_of_string].
  pose proof (fmt_ld_length p). pose proof (digits_length 10 20 n []). unfold fmt_llu, RETRACED_AGENT_ID_MAX.
  cbn [length] in *. lia.
Qed.

Lemma minted_fits p n : length (minted p n) < RETRACED_AGENT_ID_MAX.
Proof. unfold minted, snprintf. rewrite length_take. unfold RETRACED_AGENT_ID_MAX. lia. Qed.

(** A minted identifier determines its number. *)
Lemma minted_inj p n p' n' :
  (0 ≤ n < 2 ^ 64)%Z → (0 ≤ n' < 2 ^ 64)%Z → minted p n = minted p' n' → n = n'.
Proof.
  intros Hn Hn'. rewrite !minted_full. intros E%(app_inj_1 _ _ _ _ eq_refl). destruct E as [_ E].
  apply (sep_inj "." (fmt_ld p) (fmt_ld p')) in E as [_ E]; [|apply fmt_ld_no_dot..].
  eapply (digits_inj 10 ltac:(lia) 20); [lia|lia|done|exact E].
Qed.

(** *** The operations on the map *)

(** A registration on the map: a known identifier becomes live again, a new
    one is entered unless the registry is full. *)
Definition hello_spec (m : gmap bytes agent_entry) (full : bool) (id : bytes) (e : agent_entry)
    : gmap bytes agent_entry :=
  match m !! id with
  | Some e' => <[id := set_state AGENT_LIVE e']> m
  | None => if full then m else <[id := e]> m
  end.

(** The identifier a registration is made under. *)
Definition hello_id (r : retraced_registry) (agent_id_in : option bytes) (pid : Z) : bytes :=
  match agent_id_in with
  | None | Some [] => minted pid (u64 (id_counter r + 1))
  | Some id => id
  end.

Definition reg_full (r : retraced_registry) : bool := RETRACED_REGISTRY_MAX <=? length (agents r).

Lemma hello_refines r id_in p pp s c :
  wf r → length (hello_id r id_in p) < RETRACED_AGENT_ID_MAX →
  let id := hello_id r id_in p in
  let '(r', res) := retraced_registry_hello r id_in p pp s c in
  wf r' ∧ reg_map r' = hello_spec (reg_map r) (reg_full r) id (fresh_agent id p pp s c) ∧
  match res with
  | Some i => ∃ e, agents r' !! i = Some e ∧ ae_id e = id ∧ state e = AGENT_LIVE
  | None => reg_map r !! id = None ∧ reg_full r = true
  end.
Proof.
  intros Hw Hl id. subst id. unfold retraced_registry_hello.
  set (mint := match id_in with None | Some [] => true | _ => false end).
  set (r1 := if mint then _ else r). set (id1 := if mint then _ else _).
  assert (agents r1 = agents r) as Ha by (unfold r1; by destruct mint).
  assert (hello_id r id_in p = id1) as Hid1
    by (unfold id1, r1, mint, hello_id; by destruct id_in as [[|]|]).
  rewrite Hid1 in *.
  assert (wf r1) as Hw1 by (destruct Hw; split; by rewrite Ha).
  assert (reg_map r1 = reg_map r) as Hm by (unfold reg_map; by rewrite Ha).
  assert (reg_full r1 = reg_full r) as Hf by (unfold reg_full; by rewrite Ha).
  cbv zeta. pose proof (find_map r1 id1 Hw1) as Hfind. unfold hello_spec. rewrite <- Hm, <- Hf.
  destruct (retraced_registry_find r1 (Some id1)) as [i|].
  - destruct Hfind as (e & Hi & -> & He).
    split; [by apply upd_wf|]. split; [rewrite (upd_map _ _ _ e) by done; by rewrite He|].
    exists (set_state AGENT_LIVE e). split; [|done]. cbn. by rewrite list_lookup_alter_eq, Hi.
  - rewrite Hfind. fold (reg_full r1). destruct (reg_full r1) eqn:Efull; [done|].
    apply Nat.leb_gt in Efull.
    pose proof (fresh_id id1 p pp s c Hl) as Hid.
    destruct (reg_add_map r1 (fresh_agent id1 p pp s c) Hw1) with (n := id_counter r1) as [Hw2 Hm2];
      [by rewrite Hid|done|]. rewrite Hid in Hm2. split; [done|]. split; [done|].
    eexists. cbn. rewrite list_lookup_middle by done. by rewrite Hid.
Qed.

Lemma sweep_refines r now timeout :
  wf r →
  let '(r', n) := retraced_registry_sweep r now timeout in
  wf r' ∧ reg_map r' = (λ e, if overdue now timeout e then set_state AGENT_STALE e else e) <$> reg_map r
  ∧ n = size (filter (λ '(_, e), overdue now timeout e = true) (reg_map r)).
Proof.
  intros Hw. cbn. set (f := λ e, if overdue now timeout e then set_state AGENT_STALE e else e).
  assert (keeps_id f) as Hf by (intros e; unfold f; by destruct (overdue _ _ _)).
  assert (map ae_id (map f (agents r)) = map ae_id (agents r)) as Hids.
  { rewrite map_map. apply map_ext. apply Hf. }
  destruct Hw as [Hn Hc]. split; [|split].
  - split; cbn; [by rewrite Hids|by rewrite length_map].
  - unfold reg_map. cbn. rewrite <- list_to_map_fmap, !map_map. f_equal. cbn.
    clear Hn Hc Hids. induction (agents r) as [|e l IH]; [done|]. cbn. by rewrite Hf, IH.
  - unfold reg_map. revert Hn. clear. induction (agents r) as [|e l IH]; [done|].
    cbn [map]. rewrite NoDup_cons. intros [He Hn]. cbn [list_to_map foldr fst snd].
    set (m := list_to_map (map (λ e, (ae_id e, e)) l)) in *.
    assert (m !! ae_id e = None) as Hm.
    { apply not_elem_of_list_to_map. rewrite map_map. exact He. }
    destruct (overdue now timeout e) eqn:E.
    + rewrite filter_cons_True, map_filter_insert_True by done. cbn [length]. rewrite IH by done.
      rewrite map_size_insert_None; [done|]. apply map_lookup_filter_None. by left.
    + rewrite filter_cons_False by congruence. rewrite IH by done.
      rewrite map_filter_insert_not'; [done|congruence|]. intros y. by rewrite Hm.
Qed.

(** The specification of a registration, a heartbeat, a farewell and a sweep on
    the map of agents. *)
Record registry_ok (r : retraced_registry) : Prop := mkRegistryOk {
  ok_hello id_in p pp s c :
    let id := hello_id r id_in p in
    length id < RETRACED_AGENT_ID_MAX →
    let '(r', res) := retraced_registry_hello r id_in p pp s c in
    wf r' ∧ reg_map r' = hello_spec (reg_map r) (reg_full r) id (fresh_agent id p pp s c) ∧
    match res with
    | Some i => ∃ e, agents r' !! i = Some e ∧ ae_id e = id ∧ state e = AGENT_LIVE
    | None => reg_map r !! id = None ∧ reg_full r = true
    end;
  ok_heartbeat id seq now :
    let '(rc, r') := retraced_registry_heartbeat r id seq now in
    wf r' ∧
    match reg_map r !! id with
    | Some e => rc = 0%Z ∧ reg_map r' = <[id := set_state AGENT_LIVE (set_seq seq now e)]> (reg_map r)
    | None => rc = (-1)%Z ∧ r' = r
    end;
  ok_bye id :
    wf (retraced_registry_bye r id) ∧
    reg_map (retraced_registry_bye r id) = alter (set_state AGENT_GONE) id (reg_map r);
  ok_sweep now timeout :
    let '(r', n) := retraced_registry_sweep r now timeout in
    wf r' ∧
    reg_map r' = (λ e, if overdue now timeout e then set_state AGENT_STALE e else e) <$> reg_map r
    ∧ n = size (filter (λ '(_, e), overdue now timeout e = true) (reg_map r));
}.

(** The array of agents implements a bounded map from
    identifiers to agents: a registration revives a known agent or enters a new
    one and is refused only when the registry is full, a heartbeat, a farewell
    and a sweep change exactly the agents they name, and identifiers stay
    distinct. *)
Theorem registry_is_map r : wf r → registry_ok r.
Proof.
  intros Hw. split.
  - intros id_in p pp s c id Hl. by apply hello_refines.
  - intros id seq now. unfold retraced_registry_heartbeat. pose proof (find_map r id Hw) as H.
    destruct (retraced_registry_find r (Some id)) as [i|]; [|by rewrite H].
    destruct H as (e & Hi & -> & He). split; [by apply upd_wf|]. split; [done|].
    by rewrite (upd_map _ _ _ e), He.
  - intros id. unfold retraced_registry_bye. pose proof (find_map r id Hw) as H.
    destruct (retraced_registry_find r (Some id)) as [i|].
    + destruct H as (e & Hi & Hm & He). split; [by apply upd_wf|].
      rewrite (upd_map _ _ _ e), He by done. apply map_eq. intros id'.
      destruct (decide (id' = id)) as [->|].
      * by rewrite lookup_insert_eq, lookup_alter_eq, Hm.
      * by rewrite lookup_insert_ne, lookup_alter_ne.
    + split; [done|]. apply map_eq. intros id'. destruct (decide (id' = id)) as [->|].
      * by rewrite lookup_alter_eq, H.
      * by rewrite lookup_alter_ne.
  - intros now timeout. by apply sweep_refines.
Qed.

Lemma registry_is_map_witness :
  let r := fst (retraced_registry_hello retraced_registry_init None 7 1 None None) in
  retraced_registry_heartbeat r (lit "boot.7.1") 5 100 =
  (0%Z, upd 0 (λ e, set_state AGENT_LIVE (set_seq 5 100 e)) r) ∧ registry_ok r.
Proof.
  split; [vm_compute; reflexivity|]. apply registry_is_map. split.
  - apply (bool_decide_eq_true_1 _). vm_compute. reflexivity.
  - cbn. unfold RETRACED_REGISTRY_MAX. lia.
Defined.

(** *** Registrations by the daemon *)

(** The daemon registers every agent without an identifier; every identifier
    then comes from the counter. *)
Definition all_minted (r : retraced_registry) : Prop :=
  wf r ∧ (0 ≤ id_counter r < 2 ^ 64)%Z ∧
  ∀ e, e ∈ agents r → ∃ p n, (1 ≤ n ≤ id_counter r)%Z ∧ ae_id e = minted p n.

(** While the counter has not wrapped, a registration without an identifier
    is a new agent. *)
Lemma hello_fresh r p pp s c :
  all_minted r → (id_counter r + 1 < 2 ^ 64)%Z → length (agents r) < RETRACED_REGISTRY_MAX →
  let '(r', res) := retraced_registry_hello r None p pp s c in
  all_minted r' ∧ res = Some (length (agents r)) ∧
  agents r' = agents r ++ [fresh_agent (minted p (id_counter r + 1)) p pp s c].
Proof.
  intros (Hw & Hc & Hm) Hb Hl. set (n := (id_counter r + 1)%Z).
  assert (u64 (id_counter r + 1) = n) as En by (apply Z.mod_small; lia).
  assert (reg_map r !! minted p n = None) as Hnew.
  { destruct (reg_map r !! minted p n) as [e|] eqn:E; [|done].
    apply reg_map_lookup in E as (i & Hi & E); [|done].
    destruct (Hm e) as (p' & n' & Hn' & E'); [by eapply list_elem_of_lookup_2|].
    rewrite E' in E. apply minted_inj in E; unfold n in *; lia. }
  pose proof (hello_refines r None p pp s c Hw (minted_fits _ _)) as H.
  unfold hello_id in H. rewrite En in H. unfold hello_spec in H. rewrite Hnew in H.
  unfold retraced_registry_hello in *. cbv zeta in *. cbn [agents id_counter] in *. rewrite En in *.
  cbn [retraced_registry_find agents] in *.
  destruct (find_from (agents r) (minted p n)) as [i|] eqn:Ef.
  { exfalso. pose proof (find_from_spec (agents r) (minted p n)) as Hs. rewrite Ef in Hs.
    destruct Hs as (e & Hi & He). assert (reg_map r !! minted p n = Some e); [|congruence].
    apply reg_map_lookup; eauto. }
  rewrite (proj2 (Nat.leb_gt _ _)) in * by done. destruct H as (Hw' & _ & _).
  split; [|done]. split; [done|]. split; [cbn; unfold n; lia|]. cbn. intros e Hin.
  apply elem_of_app in Hin as [Hin|Hin].
  - destruct (Hm e Hin) as (p' & n' & ? & ?). exists p', n'. split; [unfold n; lia|done].
  - apply list_elem_of_singleton in Hin as ->. exists p, n. split; [unfold n; lia|].
    apply fresh_id, minted_fits.
Qed.

(** ** The nonce *)

Lemma lor_acc l acc : (0 ≤ acc)%Z → Forall (λ x, 0 ≤ x)%Z l →
  foldl Z.lor acc l = 0%Z ↔ acc = 0%Z ∧ Forall (λ x, x = 0%Z) l.
Proof.
  revert acc. induction l as [|x l IH]; intros acc Ha Hl; cbn.
  { by split; [|intros []]. }
  apply Forall_cons in Hl as [Hx Hl]. rewrite IH; [|by apply Z.lor_nonneg|done].
  rewrite Z.lor_eq_0_iff, Forall_cons. tauto.
Qed.

(** The comparison of the nonce accepts exactly the daemon's own. *)
Theorem nonce_exact presented expected :
  retraced_nonce_matches presented expected = true ↔ presented = Some expected.
Proof.
  destruct presented as [p|]; [|done]. cbn.
  destruct (Nat.eqb_spec (length p) (length expected)) as [Hl|Hl]; cbn; [|by split; [|intros [= ->]]].
  rewrite Z.eqb_eq, lor_acc; [|done|].
  2: { apply Forall_forall. intros x Hx. apply list_elem_of_lookup in Hx as [i Hi].
       apply lookup_zip_with_Some in Hi as (a & b & -> & _). apply Z.lxor_nonneg.
       pose proof (uchar_range a). pose proof (uchar_range b). lia. }
  split.
  - intros [_ H]. f_equal. revert expected Hl H. induction p as [|a p IH]; intros [|b q] Hl H; try done.
    cbn in H. apply Forall_cons in H as [E H]. apply Z.lxor_eq in E.
    f_equal; [|apply IH; [by injection Hl|done]].
    unfold uchar in E. apply N2Z.inj in E.
    by rewrite <- (ascii_N_embedding a), E, ascii_N_embedding.
  - intros [= ->]. split; [done|]. clear. induction expected as [|a q IH]; cbn; [constructor|].
    constructor; [apply Z.lxor_nilpotent|done].
Qed.

(** ** The rings as histories *)

(** The number of entries written after the one in slot [k]. *)
Definition age (N next k : nat) : nat := if k <? next then next - 1 - k else next + N - 1 - k.

(** A ring of [N] slots holds the latest [N] entries of a history, latest
    first. *)
Record ring_holds (N : nat) (slots : list claim) (next : nat) (hist : list claim) : Prop := mkHolds {
  rh_length : length slots = N;
  rh_next : next < N;
  rh_slot k : k < N → slots !! k = Some (nth (age N next k) hist no_claim);
}.

Lemma ring_empty N : 0 < N → ring_holds N (replicate N no_claim) 0 [].
Proof.
  intros HN. split; [apply length_replicate|done|]. intros k Hk.
  rewrite lookup_replicate_2 by done. by destruct (age N 0 k).
Qed.

Lemma ring_push N slots next hist c :
  ring_holds N slots next hist → ring_holds N (<[next := c]> slots) ((next + 1) mod N) (c :: hist).
Proof.
  intros [Hl Hn Hs]. assert ((next + 1) mod N = if next + 1 =? N then 0 else next + 1) as ->.
  { destruct (Nat.eqb_spec (next + 1) N) as [->|]; [apply Nat.Div0.mod_same|apply Nat.mod_small; lia]. }
  split; [by rewrite length_insert|destruct (Nat.eqb_spec (next + 1) N); lia|].
  intros k Hk. destruct (decide (k = next)) as [->|Hne].
  - rewrite list_lookup_insert_eq by lia. unfold age.
    destruct (Nat.eqb_spec (next + 1) N), (Nat.ltb_spec next 0), (Nat.ltb_spec next (next + 1)); try lia.
    + by replace (0 + N - 1 - next) with 0 by lia.
    + by replace (next + 1 - 1 - next) with 0 by lia.
  - rewrite list_lookup_insert_ne by done. rewrite Hs by done.
    assert (age N (if next + 1 =? N then 0 else next + 1) k = S (age N next k)) as ->; [|done].
    unfold age. destruct (Nat.eqb_spec (next + 1) N), (Nat.ltb_spec k next);
      repeat case_match; bool_to_prop; repeat match goal with
        | H : (_ <? _) = true |- _ => apply Nat.ltb_lt in H
        | H : (_ <? _) = false |- _ => apply Nat.ltb_ge in H end; lia.
Qed.

Lemma ring_exists N slots next hist (P : claim → bool) :
  ring_holds N slots next hist → P no_claim = false → existsb P slots = existsb P (take N hist).
Proof.
  intros [Hl Hn Hs] HP. apply eq_true_iff_eq. rewrite !existsb_exists. split.
  - intros (c & Hin & Hc). apply list_elem_of_In, list_elem_of_lookup in Hin as [k Hk].
    pose proof (lookup_lt_Some _ _ _ Hk) as Hlt. rewrite Hs in Hk by lia. injection Hk as Hk.
    exists c. split; [|done]. apply list_elem_of_In, list_elem_of_lookup. exists (age N next k).
    rewrite lookup_take_lt by (unfold age; destruct (Nat.ltb_spec k next); lia).
    destruct (hist !! age N next k) as [c'|] eqn:E.
    + apply nth_lookup_Some with (d := no_claim) in E. congruence.
    + rewrite nth_overflow in Hk by (by apply lookup_ge_None). congruence.
  - intros (c & Hin & Hc). apply list_elem_of_In, list_elem_of_lookup in Hin as [j Hj].
    pose proof (lookup_lt_Some _ _ _ Hj) as Hlt. rewrite length_take in Hlt.
    rewrite lookup_take_lt in Hj by lia. exists c. split; [|done]. apply list_elem_of_In, list_elem_of_lookup.
    exists (if j <? next then next - 1 - j else next + N - 1 - j).
    rewrite Hs by (destruct (Nat.ltb_spec j next); lia). f_equal.
    replace (age N next _) with j by (unfold age; destruct (Nat.ltb_spec j next); case_match; bool_to_prop;
      repeat match goal with
        | H : (_ <? _) = true |- _ => apply Nat.ltb_lt in H
        | H : (_ <? _) = false |- _ => apply Nat.ltb_ge in H end; lia).
    by apply nth_lookup_Some.
Qed.

(** What the two lanes send. *)
Inductive drift_op :=
  | Claim (pid : Z) (op path : option bytes) (now : Z)
  | Observe (pid : Z) (op path : option bytes) (now : Z).

Definition op_time (o : drift_op) : Z := match o with Claim _ _ _ now | Observe _ _ _ now => now end.

(** The code on a sequence of events: the verdicts of the observations. *)
Fixpoint drift_run (d : Drift) (ops : list drift_op) : list bool :=
  match ops with
  | [] => []
  | Claim pid op path now :: ops => drift_run (retrace_drift_claim d pid op path now) ops
  | Observe pid op path now :: ops =>
      let '(hit, d) := retrace_drift_observe d pid op path now in hit :: drift_run d ops
  end.

(** The contract of [drift_hits.h], over whole histories and whole names: what a
    lane saw of a call. *)
Record sighting := mkSighting { s_pid : Z; s_op : bytes; s_path : bytes; s_time : Z }.

Definition seen (pid : Z) (op path : option bytes) (now : Z) : sighting :=
  mkSighting pid (default [] op) (default [] path) now.

(** The same function and path, and the same process where both lanes know it. *)
Definition same_call (a b : sighting) : Prop :=
  s_op a = s_op b ∧ s_path a = s_path b ∧ ((s_pid a ≤ 0)%Z ∨ (s_pid b ≤ 0)%Z ∨ s_pid a = s_pid b).

#[export] Instance same_call_dec a b : Decision (same_call a b).
Proof. unfold same_call. apply _. Defined.

Definition answered (window : Z) (o : sighting) (history : list sighting) : bool :=
  bool_decide (Exists (λ c, (s_time o - s_time c ≤ window)%Z ∧ same_call c o) history).

(** An observation is an escape if it names a path, no claim covers it and it was
    not reported before. *)
Definition escape (claims hits : list sighting) (o : sighting) : bool :=
  bool_decide (s_path o ≠ []) && negb (answered CLAIM_WINDOW_S o claims) && negb (answered HIT_DEDUP_S o hits).

Fixpoint drift_spec (claims hits : list sighting) (ops : list drift_op) : list bool :=
  match ops with
  | [] => []
  | Claim pid op path now :: ops => drift_spec (seen pid op path now :: claims) hits ops
  | Observe pid op path now :: ops =>
      let o := seen pid op path now in
      let hit := escape claims hits o in hit :: drift_spec claims (if hit then o :: hits else hits) ops
  end.

(** Names that the keys have room for, at a time the clock gives. *)
Definition keyed (s : sighting) : Prop := length (s_op s) < OP_MAX ∧ length (s_path s) < PATH_MAX_LEN ∧ (0 < s_time s)%Z.

#[export] Instance keyed_dec s : Decision (keyed s).
Proof. unfold keyed. apply _. Defined.

(** Whatever is older than the latest [n] is out of the window. *)
Definition held (n : nat) (window now : Z) (history : list sighting) : bool :=
  forallb (λ c, (window <? now - s_time c)%Z) (drop n history).

(** Events whose names fit, of which no window has more than the rings hold. *)
Fixpoint moderate (claims hits : list sighting) (ops : list drift_op) : bool :=
  match ops with
  | [] => true
  | Claim pid op path now :: ops =>
      let c := seen pid op path now in bool_decide (keyed c) && moderate (c :: claims) hits ops
  | Observe pid op path now :: ops =>
      let o := seen pid op path now in
      bool_decide (keyed o) && held CLAIM_RING CLAIM_WINDOW_S now claims && held HIT_RING HIT_DEDUP_S now hits &&
      moderate claims (if escape claims hits o then o :: hits else hits) ops
  end.

Definition stored (s : sighting) : claim := mkClaim (s_pid s) (s_op s) (s_path s) (s_time s).

Lemma key_stored pid op path now : keyed (seen pid op path now) → key_copy pid op path now = stored (seen pid op path now).
Proof.
  intros (Ho & Hp & _). unfold key_copy, stored, snprintf. cbn [s_op s_path seen] in *. by rewrite !firstn_all2 by lia.
Qed.

Lemma recent_stored w pid op path now c :
  keyed c → recent w pid op path now (stored c) =
    bool_decide ((now - s_time c ≤ w)%Z ∧ same_call c (seen pid op path now)).
Proof.
  intros (_ & _ & Ht). unfold recent, same_key, same_call, stored, streq. cbn [c_ts c_op c_path c_pid seen s_op s_path s_pid].
  rewrite (proj2 (Z.eqb_neq _ 0)) by lia. apply eq_true_iff_eq. cbn [negb andb].
  rewrite bool_decide_eq_true, !andb_true_iff, !bool_decide_eq_true, !negb_true_iff, Z.ltb_ge.
  rewrite !andb_false_iff, !Z.ltb_ge, negb_false_iff, Z.eqb_eq. naive_solver lia.
Qed.

Lemma ring_answered N w pid op path now slots next history :
  ring_holds N slots next (stored <$> history) → Forall keyed history → held N w now history = true →
  existsb (recent w pid op path now) slots = answered w (seen pid op path now) history.
Proof.
  intros Hr Hk Hh. rewrite (ring_exists _ _ _ _ _ Hr) by done. unfold answered. apply eq_true_iff_eq.
  rewrite bool_decide_eq_true, existsb_exists, Exists_exists. rewrite Forall_forall in Hk. split.
  - intros (c & Hin & Hc). apply list_elem_of_In in Hin. rewrite <- fmap_take in Hin. apply list_elem_of_fmap in Hin as (x & -> & Hx).
    apply elem_of_take in Hx as (i & Hx & _). apply list_elem_of_lookup_2 in Hx. exists x. split; [done|].
    rewrite recent_stored in Hc by auto. by apply bool_decide_eq_true in Hc.
  - intros (x & Hx & Hc). rewrite <- (take_drop N history) in Hx. apply elem_of_app in Hx as [Hx|Hx].
    + exists (stored x). split; [apply list_elem_of_In; rewrite <- fmap_take; by apply list_elem_of_fmap_2|].
      rewrite recent_stored by (apply Hk; rewrite <- (take_drop N history); apply elem_of_app; by left). by apply bool_decide_eq_true.
    + unfold held in Hh. rewrite forallb_forall in Hh. apply list_elem_of_In, Hh, Z.ltb_lt in Hx. cbn in Hc. lia.
Qed.

Lemma drift_run_spec ops d claims hits :
  ring_holds CLAIM_RING (g_claims d) (g_claims_next d) (stored <$> claims) →
  ring_holds HIT_RING (g_hits d) (g_hits_next d) (stored <$> hits) →
  Forall keyed claims → Forall keyed hits → moderate claims hits ops = true →
  drift_run d ops = drift_spec claims hits ops.
Proof.
  revert d claims hits.
  induction ops as [|[pid op path now|pid op path now] ops IH]; intros d claims hits Hc Hh Kc Kh Hm;
    cbn [drift_run drift_spec moderate] in *; [done|..].
  - apply andb_true_iff in Hm as [Hk%bool_decide_eq_true Hm].
    apply IH; [|done|by constructor|done|done]. unfold retrace_drift_claim. cbn [g_claims g_claims_next]. rewrite key_stored by done.
    rewrite fmap_cons. by apply ring_push.
  - rewrite !andb_true_iff in Hm. destruct Hm as [[[Hk%bool_decide_eq_true H1] H2] Hm].
    unfold retrace_drift_observe, claim_covers, hit_recent. rewrite key_stored by done.
    rewrite (ring_answered _ _ _ _ _ _ _ _ _ Hc Kc H1), (ring_answered _ _ _ _ _ _ _ _ _ Hh Kh H2).
    unfold escape in *. change (s_path (seen pid op path now)) with (default [] path) in *.
    destruct (streq (default [] path) []) eqn:E; [apply streq_true in E|apply streq_false in E].
    { rewrite (bool_decide_eq_false_2 (_ ≠ _)) in * by tauto. cbn [andb] in *. f_equal. by apply IH. }
    rewrite (bool_decide_eq_true_2 (_ ≠ _)) in * by done. cbn [andb] in *.
    destruct (answered CLAIM_WINDOW_S _ claims); cbn [negb andb] in *; [f_equal; by apply IH|].
    destruct (answered HIT_DEDUP_S _ hits); cbn [negb andb] in *; [f_equal; by apply IH|].
    f_equal. apply IH; [done|rewrite fmap_cons; by apply ring_push|done|by constructor|done].
Qed.

(** C30 (refinement). The matcher does what its header promises: over every
    sequence of claims and observations it reports an observation that names a
    path exactly when no claim of the same function and path, and of the same
    process where both lanes know it, was made in the last five seconds and no
    such report in the last fifteen. This is so if names have less than 32 and
    paths less than 192 bytes, and if no observation comes when more than 128
    claims or 64 reports are that recent. *)
Theorem drift_verdicts ops :
  moderate [] [] ops = true → drift_run retrace_drift_hits_reset ops = drift_spec [] [] ops.
Proof.
  apply drift_run_spec; [apply (ring_empty CLAIM_RING); unfold CLAIM_RING; lia
    |apply (ring_empty HIT_RING); unfold HIT_RING; lia|constructor|constructor].
Qed.

Lemma drift_verdicts_witness :
  drift_run retrace_drift_hits_reset
    [Claim 7 (Some (lit "open")) (Some (lit "/a")) 10; Observe 7 (Some (lit "open")) (Some (lit "/a")) 12;
     Observe 7 (Some (lit "open")) (Some (lit "/a")) 16; Observe 0 (Some (lit "open")) (Some (lit "/a")) 17;
     Observe 7 (Some (lit "open")) (Some (lit "/a")) 32]
  = [false; true; false; true].
Proof. rewrite drift_verdicts; vm_compute; reflexivity. Defined.

(** A path of 192 characters or more is stored cut and compared whole: it is
    never covered by its claim and every observation of it is a hit. *)
Theorem drift_long_path p pid op now d :
  PATH_MAX_LEN ≤ length p →
  same_key (key_copy pid op (Some p) now) pid op (Some p) = false ∧
  (existsb (λ c, streq (c_path c) p) (g_claims d ++ g_hits d) = false →
   fst (retrace_drift_observe (retrace_drift_claim d pid op (Some p) now) pid op (Some p) now) = true).
Proof.
  intros Hp.
  assert (∀ c, streq (c_path c) p = false → ∀ w, recent w pid op (Some p) now c = false) as Hnot.
  { intros c Hc w. unfold recent, same_key. cbn. rewrite Hc. by rewrite !andb_false_r. }
  assert (streq (snprintf PATH_MAX_LEN p) p = false) as Hcut.
  { apply streq_false. intros E. apply (f_equal length) in E. unfold snprintf in E.
    rewrite length_take in E. unfold PATH_MAX_LEN in *. lia. }
  split.
  { unfold same_key, key_copy. cbn -[snprintf streq PATH_MAX_LEN OP_MAX]. by rewrite Hcut, andb_false_r. }
  rewrite existsb_app, orb_false_iff. intros [Hc Hh].
  assert (∀ w l, existsb (λ c, streq (c_path c) p) l = false →
                 existsb (recent w pid op (Some p) now) l = false) as Hall.
  { intros w l Hl. induction l as [|c l IH]; cbn in *; [done|]. apply orb_false_iff in Hl as [H1 H2].
    rewrite Hnot by done. by apply IH. }
  unfold retrace_drift_observe. change (default [] (Some p)) with p.
  rewrite (proj2 (streq_false p [])) by (intros ->; cbn in Hp; unfold PATH_MAX_LEN in Hp; lia).
  unfold claim_covers, hit_recent, retrace_drift_claim. cbn [g_claims g_hits].
  rewrite (Hall _ (g_hits d)) by done.
  replace (existsb _ (<[_ := _]> _)) with false; [done|]. symmetry. apply Hall.
  revert Hc. generalize (g_claims_next d). induction (g_claims d) as [|c l IH]; intros k; [done|].
  cbn -[snprintf streq PATH_MAX_LEN key_copy]. intros [H1 H2]%orb_false_iff.
  destruct k; cbn -[snprintf streq PATH_MAX_LEN key_copy].
  - change (c_path (key_copy pid op (Some p) now)) with (snprintf PATH_MAX_LEN p). by rewrite Hcut.
  - rewrite H1. by apply IH.
Qed.

(** ** After a restart *)

(** The counter of a restarted daemon starts anew while the agents of the
    journal are known again: a new process that is given the number of an old
    one is bound to its entry, with the process id and the session of the
    replay and not its own. *)
Theorem restart_reuses_identity :
  let replayed := fst (retraced_registry_hello retraced_registry_init (Some (lit "boot.7.1")) 0 0
                         (Some []) (Some [])) in
  let '(r, res) := retraced_registry_hello replayed None 7 1 (Some (lit "fresh")) (Some (lit "cmd")) in
  res = Some 0 ∧ (pid <$> agents r !! 0) = Some 0%Z ∧ (session <$> agents r !! 0) = Some [].
Proof. vm_compute. done. Qed.

End AgentRegistry.
