(* ===== verification/Journal.v ===== *)
(** * The daemon's journal

    [tools/retraced/journal.c]: an append-only file of JSON lines in which
    every line carries the hash of the one before it. Control-plane records
    are flushed as they are written, telemetry stays in the buffer of the
    stream, segments are rotated and pruned, and at the next start the chain is
    verified and the registry rebuilt.

    A disk maps paths to contents. The open stream is the path it was opened
    on and the bytes not yet flushed; a crash leaves any prefix of these bytes
    on the disk. Whether a file can be opened for appending and removed is a
    parameter, and writing to an open stream succeeds. The counters of lines
    and bytes are unbounded. *)

From S2P Require Import Prelude Numerals Libc Stdio Json JsonText JsonObject AgentRegistry.

Module Journal.

Import Libc Stdio Json JsonText AgentRegistry.

Record retraced_journal := mkJournal {
  path : bytes;
  prev_hash : Z;
  lines : Z;
  replay_ok : Z;
  replay_events : Z;
  chain_broken_at : Z;
  stream : option (bytes * bytes);
  clean_close : bool;
  base : bytes;
  rotate_bytes : Z;
  rotate_seconds : Z;
  budget_bytes : Z;
  seg_bytes : Z;
  last_rotate_ts : Z;
  segment_seq : Z;
  rotating : bool;
}.

Abbreviation Disk := (gmap bytes bytes).

(** ** The chain *)

Fixpoint fnv1a (s : bytes) (h : Z) : Z :=
  match s with
  | [] => u64 h
  | c :: s => fnv1a s (u64 (Z.lxor h (uchar c) * 0x01000193))
  end.

Definition retraced_journal_line_hash (line : bytes) (prev : Z) : Z :=
  fnv1a line (Z.lxor prev 0x9e3779b97f4a7c15).

(** The control-plane records. *)
Definition durable_classes : list bytes :=
  [jlit "'name':'retrace.auth."; jlit "'name':'retrace.policy."; jlit "'name':'retrace.session.";
   jlit "'name':'retrace.journal."; jlit "'name':'retrace.ctl."; jlit "'name':'retrace.trace.";
   jlit "'name':'retrace.drift."; jlit "'applied':"].

Definition payload_is_durable (payload : option bytes) : bool :=
  match payload with
  | None => false
  | Some p => existsb (λ c, bool_decide (strstr p c ≠ None)) durable_classes
  end.

(** ** Setters *)

Definition set_stream (s : option (bytes * bytes)) (j : retraced_journal) : retraced_journal :=
  mkJournal (path j) (prev_hash j) (lines j) (replay_ok j) (replay_events j) (chain_broken_at j)
    s (clean_close j) (base j) (rotate_bytes j) (rotate_seconds j) (budget_bytes j) (seg_bytes j)
    (last_rotate_ts j) (segment_seq j) (rotating j).
Definition set_head (h n bytes : Z) (j : retraced_journal) : retraced_journal :=
  mkJournal (path j) h n (replay_ok j) (replay_events j) (chain_broken_at j)
    (stream j) (clean_close j) (base j) (rotate_bytes j) (rotate_seconds j) (budget_bytes j) bytes
    (last_rotate_ts j) (segment_seq j) (rotating j).
Definition set_segment (p : bytes) (seq ts : Z) (j : retraced_journal) : retraced_journal :=
  mkJournal p (prev_hash j) (lines j) (replay_ok j) (replay_events j) (chain_broken_at j)
    (stream j) (clean_close j) (base j) (rotate_bytes j) (rotate_seconds j) (budget_bytes j) (seg_bytes j)
    ts seq (rotating j).
Definition set_rotating (b : bool) (j : retraced_journal) : retraced_journal :=
  mkJournal (path j) (prev_hash j) (lines j) (replay_ok j) (replay_events j) (chain_broken_at j)
    (stream j) (clean_close j) (base j) (rotate_bytes j) (rotate_seconds j) (budget_bytes j) (seg_bytes j)
    (last_rotate_ts j) (segment_seq j) b.
Definition set_replay (ok events broken : Z) (clean : bool) (j : retraced_journal) : retraced_journal :=
  mkJournal (path j) (prev_hash j) (lines j) ok events broken
    (stream j) clean (base j) (rotate_bytes j) (rotate_seconds j) (budget_bytes j) (seg_bytes j)
    (last_rotate_ts j) (segment_seq j) (rotating j).
Definition set_clean (b : bool) (j : retraced_journal) : retraced_journal :=
  set_replay (replay_ok j) (replay_events j) (chain_broken_at j) b j.
Definition set_broken (n : Z) (j : retraced_journal) : retraced_journal :=
  set_replay (replay_ok j) (replay_events j) n (clean_close j) j.

(** ** Segments *)

Definition retraced_journal_segment_path (base : bytes) (seq : Z) (cap : nat) : bytes :=
  snprintf cap (base ++ lit "." ++ fmt_04d seq).

(** The size of a file that exists. *)
Definition retraced_journal_segment_exists (d : Disk) (p : bytes) : option Z :=
  (λ c, Z.of_nat (length c)) <$> d !! p.

(** The first segment that exists, from [seq] on. *)
Fixpoint lo_from (d : Disk) (base : bytes) (n : nat) (seq : Z) : Z :=
  match n with
  | O => -1
  | S n =>
      match retraced_journal_segment_exists d (retraced_journal_segment_path base seq 600) with
      | Some _ => seq
      | None => lo_from d base n (seq + 1)
      end
  end.

Definition retraced_journal_segment_lo (d : Disk) (base : bytes) (hi : Z) : Z :=
  lo_from d base (Z.to_nat (hi + 1)) 0.

(** The last segment that exists, from [seq] down. *)
Fixpoint hi_from (d : Disk) (base : bytes) (n : nat) : Z :=
  match n with
  | O => -1
  | S n =>
      match retraced_journal_segment_exists d (retraced_journal_segment_path base (Z.of_nat n) 600) with
      | Some _ => Z.of_nat n
      | None => hi_from d base n
      end
  end.

Definition retraced_journal_segment_range (d : Disk) (base : bytes) : option (Z * Z) :=
  let hi := hi_from d base (Z.to_nat 10000) in
  if (hi <? 0)%Z then None
  else let lo := retraced_journal_segment_lo d base hi in
       if (lo <? 0)%Z then None else Some (lo, hi).

(** ** Opening *)

Definition retraced_journal_open (p : bytes) : retraced_journal :=
  mkJournal (snprintf 512 p) 0 0 0 0 (-1) None false (snprintf 512 p) 0 0 0 0 0 0 false.

(** The number before the first one of which the next does not exist. *)
Fixpoint live_from (d : Disk) (base : bytes) (n : nat) (seq : Z) : Z :=
  match n with
  | O => seq
  | S n =>
      match retraced_journal_segment_exists d (retraced_journal_segment_path base (seq + 1) 600) with
      | Some _ => live_from d base n (seq + 1)
      | None => seq
      end
  end.

Definition retraced_journal_set_rotation (d : Disk) (j : retraced_journal)
    (bytes_limit seconds budget now : Z) : retraced_journal :=
  let j := mkJournal (path j) (prev_hash j) (lines j) (replay_ok j) (replay_events j)
             (chain_broken_at j) (stream j) (clean_close j) (base j) bytes_limit seconds budget 0 now
             (segment_seq j) (rotating j) in
  if negb (bytes_limit =? 0)%Z || negb (seconds =? 0)%Z then
    let seq := live_from d (base j) (Z.to_nat 9999) 0 in
    set_segment (retraced_journal_segment_path (base j) seq 512) seq now j
  else j.

Section writing.

(** [fopen (p, "a")] and [remove (p)] succeed. *)
Context (fopen_ok remove_ok : bytes → bool).

Definition content (d : Disk) (p : bytes) : bytes := default [] (d !! p).

Definition journal_writer (j : retraced_journal) (d : Disk) : option (retraced_journal * Disk) :=
  match stream j with
  | Some _ => Some (j, d)
  | None =>
      if fopen_ok (path j) then Some (set_stream (Some (path j, [])) j, <[path j := content d (path j)]> d)
      else None
  end.

Definition fflush (j : retraced_journal) (d : Disk) : retraced_journal * Disk :=
  match stream j with
  | Some (p, buf) => (set_stream (Some (p, [])) j, <[p := content d p ++ buf]> d)
  | None => (j, d)
  end.

Definition retraced_journal_flush : retraced_journal → Disk → retraced_journal * Disk := fflush.

(** [fflush] and [fclose]. *)
Definition fclose (j : retraced_journal) (d : Disk) : retraced_journal * Disk :=
  let '(j, d) := fflush j d in (set_stream None j, d).

Definition fputs (line : bytes) (j : retraced_journal) : retraced_journal :=
  match stream j with
  | Some (p, buf) => set_stream (Some (p, buf ++ line)) j
  | None => j
  end.

(** The text of a record. *)
Definition record_line (ts : Z) (agent_id : bytes) (seq prev : Z) (payload : option bytes) : bytes :=
  jlit "{'ts':" ++ fmt_ld ts ++ jlit ",'agent':'" ++ agent_id ++ jlit "','seq':" ++ fmt_llu seq
  ++ jlit ",'prev':'" ++ fmt_hex 16 prev ++ jlit "','ev':" ++ default (lit "{}") payload ++ lit "}" ++ [NL].

Definition LINE_MAX : nat := 2048.

(** [retraced_journal_event], with what it does when a rotation is due. *)
Definition journal_event_with (rotate : Z → retraced_journal → Disk → retraced_journal * Disk)
    (j : retraced_journal) (d : Disk) (ts : Z) (agent_id : bytes) (seq : Z) (payload : option bytes)
    : Z * (retraced_journal * Disk) :=
  let line := record_line ts agent_id seq (prev_hash j) payload in
  if LINE_MAX <=? length line then ((-1)%Z, (j, d))
  else
    let link := retraced_journal_line_hash line (prev_hash j) in
    match journal_writer j d with
    | None => ((-1)%Z, (j, d))
    | Some (j, d) =>
        let j := fputs line j in
        let '(j, d) := if payload_is_durable payload then fflush j d else (j, d) in
        let j := set_head link (lines j + 1) (seg_bytes j + Z.of_nat (length line)) j in
        let due := (negb (rotate_bytes j =? 0) && (rotate_bytes j <=? seg_bytes j))%Z
                   || (negb (rotate_seconds j =? 0) && (rotate_seconds j <=? ts - last_rotate_ts j))%Z in
        if negb (rotating j) && (negb (rotate_bytes j =? 0)%Z || negb (rotate_seconds j =? 0)%Z) && due
        then (0%Z, rotate ts j d) else (0%Z, (j, d))
    end.

(** A record written while a rotation is under way: no rotation is due. *)
Definition marker (j : retraced_journal) (d : Disk) (ts : Z) (payload : bytes)
    : retraced_journal * Disk :=
  snd (journal_event_with (λ _ j d, (j, d)) j d ts (lit "daemon") 0 (Some payload)).

(** The size of the closed segments from [seq] on. *)
Fixpoint closed_sum (d : Disk) (base : bytes) (n : nat) (seq : Z) : Z :=
  match n with
  | O => 0
  | S n =>
      default 0%Z (retraced_journal_segment_exists d (retraced_journal_segment_path base seq 600))
      + closed_sum d base n (seq + 1)
  end.

(** The loop of [journal_retain]: every round removes a segment. *)
Fixpoint journal_retain (fuel : nat) (ts : Z) (j : retraced_journal) (d : Disk)
    : retraced_journal * Disk :=
  match fuel with
  | O => (j, d)
  | S fuel =>
      if (budget_bytes j =? 0)%Z then (j, d)
      else
        let lo := retraced_journal_segment_lo d (base j) (segment_seq j) in
        if (lo <? 0)%Z || (segment_seq j <=? lo)%Z then (j, d)
        else if (closed_sum d (base j) (Z.to_nat (segment_seq j - lo)) lo <=? budget_bytes j)%Z then (j, d)
        else
          let p := retraced_journal_segment_path (base j) lo 600 in
          match retraced_journal_segment_exists d p with
          | None => (j, d)
          | Some sz =>
              if negb (remove_ok p) then (j, d)
              else
                let ev := snprintf 256 (jlit "{'name':'retrace.journal.segment_pruned','segment':'" ++ p
                                        ++ jlit "','bytes':" ++ fmt_ld sz ++ lit "}") in
                let '(j, d) := marker j (delete p d) ts ev in
                journal_retain fuel ts j d
          end
  end.

Definition journal_rotate (ts : Z) (j : retraced_journal) (d : Disk) : retraced_journal * Disk :=
  let head := prev_hash j in
  let old_seq := segment_seq j in
  let j := set_rotating true j in
  let closed := retraced_journal_segment_path (base j) old_seq 600 in
  let ev := snprintf 512 (jlit "{'name':'retrace.journal.segment_closed','segment':'" ++ closed
              ++ jlit "','head':'" ++ fmt_hex 16 head ++ jlit "','lines':" ++ fmt_llu (lines j) ++ lit "}") in
  let '(j, d) := marker j d ts ev in
  let seq := (old_seq + 1)%Z in
  let opened := retraced_journal_segment_path (base j) seq 600 in
  let j := set_segment (retraced_journal_segment_path (base j) seq 512) seq (last_rotate_ts j) j in
  let '(j, d) := fclose j d in
  let j := set_head (prev_hash j) 0 0 j in
  let j := set_segment (path j) (segment_seq j) ts j in
  let '(j, d) := journal_retain (Z.to_nat (segment_seq j) + 1) ts j d in
  let ev := snprintf 512 (jlit "{'name':'retrace.journal.segment_opened','segment':'" ++ opened
              ++ jlit "','prev_segment':'" ++ closed ++ jlit "','prev_head':'" ++ fmt_hex 16 head
              ++ jlit "'}") in
  let '(j, d) := marker j d ts ev in
  (set_rotating false j, d).

Definition retraced_journal_event : retraced_journal → Disk → Z → bytes → Z → option bytes →
    Z * (retraced_journal * Disk) :=
  journal_event_with journal_rotate.

Definition retraced_journal_close (j : retraced_journal) (d : Disk) (now : Z)
    : retraced_journal * Disk :=
  let '(j, d) := snd (retraced_journal_event j d now (lit "daemon") 0
                        (Some (jlit "{'name':'retrace.journal.closed'}"))) in
  let '(j, d) := fclose j d in (set_clean true j, d).

End writing.

(** ** Reading *)

Section reading.
Context {DT : DoubleText}.

Definition BAD_HEAD : Z := 2 ^ 64 - 1.

(** What a scan of a file has come to. *)
Record Replay := mkReplay {
  rp_journal : retraced_journal;
  rp_registry : retraced_registry;
  rp_prev : Z;
  rp_lineno : Z;
}.

(** The agent of a record is registered and live again. *)
Definition replay_agent (o : option JSON_Object) (r : retraced_registry) : retraced_registry :=
  let seq := json_object_get_number o "seq" in
  match json_object_get_string o "agent" with
  | None => r
  | Some agent =>
      let '(r, e) :=
        match retraced_registry_find r (Some agent) with
        | Some i => (r, Some i)
        | None => retraced_registry_hello r (Some agent) (d_trunc (json_object_get_number o "pid")) 0
                    (Some []) (Some [])
        end in
      match e with
      | Some i => upd i (λ e, set_state AGENT_LIVE (set_seq (u64 (d_trunc seq)) (last_hb_ms e) e)) r
      | None => r
      end
  end.

(** The loop of [journal_replay_file]: the state at its end and whether it saw
    a torn line, or a broken chain. *)
Fixpoint replay_lines (ls : list bytes) (s : Replay) : Replay * bool + retraced_journal * retraced_registry :=
  match ls with
  | [] => inl (s, false)
  | chunk :: ls =>
      let line := cstr chunk in
      let lineno := (rp_lineno s + 1)%Z in
      let torn j := inl (mkReplay j (rp_registry s) (rp_prev s) lineno, true) in
      if (length line =? 0) || negb (bool_decide (last line = Some NL)) then torn (rp_journal s)
      else
        let j := set_clean (bool_decide (strstr line (jlit "'name':'retrace.journal.closed'") ≠ None))
                   (rp_journal s) in
        match json_parse_string line with
        | None => torn j
        | Some v =>
            let o := json_value_get_object (Some v) in
            match json_object_get_string o "prev" with
            | None => inr (set_broken lineno j, rp_registry s)
            | Some prev_str =>
                if negb (strtoull16 prev_str =? rp_prev s)%Z then inr (set_broken lineno j, rp_registry s)
                else
                  let r := replay_agent o (rp_registry s) in
                  let j := set_replay (replay_ok j) (replay_events j + 1) (chain_broken_at j)
                             (clean_close j) j in
                  replay_lines ls (mkReplay j r (retraced_journal_line_hash line (rp_prev s)) lineno)
            end
        end
  end.

Definition journal_replay_file (d : Disk) (j : retraced_journal) (r : retraced_registry) (p : bytes)
    (prev : Z) (is_last : bool) : Z * (retraced_journal * retraced_registry) :=
  match d !! p with
  | None => if is_last then (prev, (j, r)) else (BAD_HEAD, (set_broken 0 j, r))
  | Some text =>
      match replay_lines (fgets_lines LINE_MAX text) (mkReplay j r prev 0) with
      | inr (j, r) => (BAD_HEAD, (j, r))
      | inl (s, saw_torn) =>
          let j := rp_journal s in
          let n := (rp_lineno s - Z.b2z saw_torn)%Z in
          let j := set_replay (replay_ok j + n) (replay_events j) (chain_broken_at j) (clean_close j) j in
          let j := if is_last then set_head (prev_hash j) n (seg_bytes j) j else j in
          (rp_prev s, (j, rp_registry s))
      end
  end.

(** The segments of a series, from [seq] on. *)
Fixpoint replay_segments (d : Disk) (n : nat) (seq : Z) (prev : Z) (j : retraced_journal)
    (r : retraced_registry) : option Z * (retraced_journal * retraced_registry) :=
  match n with
  | O => (Some prev, (j, r))
  | S n =>
      let '(prev, (j, r)) := journal_replay_file d j r (retraced_journal_segment_path (base j) seq 600)
                               prev (seq =? segment_seq j)%Z in
      if (prev =? BAD_HEAD)%Z then (None, (j, r)) else replay_segments d n (seq + 1) prev j r
  end.

Definition retraced_journal_replay (d : Disk) (j : retraced_journal) (r : retraced_registry)
    : Z * (retraced_journal * retraced_registry) :=
  let j := set_replay 0 0 (-1) false j in
  if negb (rotate_bytes j =? 0)%Z || negb (rotate_seconds j =? 0)%Z then
    let lo := retraced_journal_segment_lo d (base j) (segment_seq j) in
    if (lo <? 0)%Z then (0%Z, (j, r))
    else
      match replay_segments d (Z.to_nat (segment_seq j - lo + 1)) lo 0 j r with
      | (None, jr) => ((-1)%Z, jr)
      | (Some prev, (j, r)) => (0%Z, (set_head prev (lines j) (seg_bytes j) j, r))
      end
  else
    match d !! path j with
    | None => ((-1)%Z, (j, r))
    | Some _ =>
        let '(prev, (j, r)) := journal_replay_file d j r (path j) 0 true in
        if (prev =? BAD_HEAD)%Z then ((-1)%Z, (j, r))
        else (0%Z, (set_head prev (lines j) (seg_bytes j) j, r))
    end.

(** The result of the evidence reader: the records kept, the place where the
    chain broke (0 if it did not), or the dereference of NULL for a record
    without a link. *)
Inductive tail_result := Tail_ok (kept : list bytes) (chain : Z) | Tail_crash.

Fixpoint tail_lines (ls : list bytes) (last_n : nat) (prev lineno : Z) (kept : list bytes) : tail_result :=
  match ls with
  | [] => Tail_ok kept 0
  | chunk :: ls =>
      let line := cstr chunk in
      let lineno := (lineno + 1)%Z in
      if (length line =? 0) || negb (bool_decide (last line = Some NL)) then Tail_ok kept 0
      else
        match json_parse_string line with
        | None => Tail_ok kept 0
        | Some v =>
            match json_object_get_string (json_value_get_object (Some v)) "prev" with
            | None => Tail_crash
            | Some prev_str =>
                if negb (strtoull16 prev_str =? prev)%Z then Tail_ok kept lineno
                else
                  let kept := kept ++ [line] in
                  tail_lines ls last_n (retraced_journal_line_hash line prev) lineno
                    (if last_n <? length kept then drop 1 kept else kept)
            end
        end
  end.

(** [retraced_journal_tail] on the visible content of the file. *)
Definition retraced_journal_tail (text : option bytes) (last_n : nat) : option tail_result :=
  match text with
  | None => None
  | Some text => Some (tail_lines (fgets_lines LINE_MAX text) (if last_n =? 0 then 1 else last_n) 0 0 [])
  end.

End reading.

(** [retraced_journal_chain_file_from]: the head, the number of lines, and the
    first broken line or 0. *)
Fixpoint chain_lines (ls : list bytes) (stop_at : nat) (prev : Z) (n : nat) : Z * nat * nat :=
  match ls with
  | [] => (prev, n, 0)
  | chunk :: ls =>
      if (0 <? stop_at) && (stop_at <=? n) then (prev, n, 0)
      else
        let line := cstr chunk in
        match strstr line (jlit "'prev':'") with
        | None => (prev, S n, S n)
        | Some p =>
            if negb (strtoull16 (take 16 (drop 8 p)) =? prev)%Z then (prev, S n, S n)
            else chain_lines ls stop_at (retraced_journal_line_hash line prev) (S n)
        end
  end.

Definition retraced_journal_chain_file_from (text : option bytes) (start_prev : Z) (stop_at : nat)
    : Z * (Z * nat * nat) :=
  match text with
  | None => ((-1)%Z, (0%Z, 0, 0))
  | Some text =>
      let '(head, n, broken) := chain_lines (fgets_lines LINE_MAX text) stop_at start_prev 0 in
      (if broken =? 0 then 0%Z else (-1)%Z, (head, n, broken))
  end.

Definition retraced_journal_chain_file (text : option bytes) (stop_at : nat) : Z * (Z * nat * nat) :=
  retraced_journal_chain_file_from text 0 stop_at.

End Journal.
