(* ===== verification/JournalChain.v ===== *)
(** * The journal as a chain of records

    The records of [journal.c] are read back as they were written, whatever a
    crash leaves of the buffered ones; a change of one byte of a record that
    another follows is found; and what the reader does with records that are
    split, torn or edited. *)

From S2P Require Import Prelude Numerals Libc Stdio Json JsonText JsonRoundTrip JsonObject JsonPrint.
From S2P Require Import AgentRegistry Journal.

Module JournalChain.

Import Numerals Libc Stdio Json JsonText JsonRoundTrip JsonPrint AgentRegistry Journal.

(** ** Texts of records *)

Record event := mkEvent { ev_ts : Z; ev_agent : bytes; ev_seq : Z; ev_payload : option bytes }.

Definition ev_text (e : event) : bytes := default (lit "{}") (ev_payload e).

Definition event_line (prev : Z) (e : event) : bytes :=
  record_line (ev_ts e) (ev_agent e) (ev_seq e) prev (ev_payload e).

Section reading.
Context {DT : DoubleText} {IT : IntText}.

(** ** Records *)

Record wf_event (e : event) (v : JSON_Value) : Prop := mkWfEvent {
  wf_ts : (0 ≤ ev_ts e < 2 ^ 63)%Z;
  wf_agent : raw_text (ev_agent e);
  wf_seq : (0 ≤ ev_seq e ≤ 2 ^ 53)%Z;
  wf_payload : reads v (ev_text e);
  wf_depth : json_depth v ≤ MAX_NESTING;
  wf_line : one_line (ev_text e);
}.

(** The object a record is read as. *)
Definition record_object (dts dseq : double) (e : event) (prev : Z) (v : JSON_Value) : JSON_Object :=
  [(lit "ts", JSONNumber dts); (lit "agent", JSONString (ev_agent e)); (lit "seq", JSONNumber dseq);
   (lit "prev", JSONString (fmt_hex 16 prev)); (lit "ev", v)].

(** The text of each member of a record. *)
Definition record_texts (e : event) (prev : Z) (key : bytes) : option bytes :=
  if streq key (lit "ts") then Some (fmt_llu (ev_ts e))
  else if streq key (lit "agent") then Some (json_serialize_string (ev_agent e))
  else if streq key (lit "seq") then Some (fmt_llu (ev_seq e))
  else if streq key (lit "prev") then Some (json_serialize_string (fmt_hex 16 prev))
  else if streq key (lit "ev") then Some (ev_text e) else None.

Lemma record_parses e prev v :
  wf_event e v →
  ∃ dts dseq, json_parse_string (event_line prev e) = Some (JSONObject (record_object dts dseq e prev v)) ∧
    d_trunc dseq = ev_seq e.
Proof.
  intros [Hts Hag Hseq Hp Hdep Hl].
  destruct (int_reads (ev_ts e)) as (dts & Rts & _); [lia|].
  destruct (int_reads (ev_seq e)) as (dseq & Rseq & Ht); [lia|].
  exists dts, dseq. split; [|apply Ht; lia]. set (o := record_object dts dseq e prev v).
  destruct (members_read (record_texts e prev) false o 0) as (body & Hb & Hr).
  - assert (∀ s, forallb (λ c, negb (ceq c NUL)) s = true → no_nul s) as Hn.
    { intros s Hs. apply Forall_forall. intros c Hc. apply list_elem_of_In in Hc.
      eapply forallb_forall in Hs; [|done]. apply negb_true_iff in Hs. by apply ceq_false. }
    assert (∀ key w text, forallb (λ c, negb (ceq c NUL)) key = true → record_texts e prev key = Some text →
              reads w text → member_ok (record_texts e prev) (key, w)) as Hm.
    { intros key w text Hk Ht' Hr. split; [by apply Hn|]. by exists text. }
    unfold o, record_object. repeat apply Forall_cons_2; [..|apply Forall_nil_2];
      (eapply Hm; [reflexivity|reflexivity|]).
    + exact Rts.
    + by apply string_reads, raw_no_nul.
    + exact Rseq.
    + apply string_reads, raw_no_nul, hex_raw.
    + exact Hp.
  - apply (bool_decide_eq_true_1 _). vm_compute. reflexivity.
  - done.
  - assert (body =
      jlit "'ts':" ++ fmt_llu (ev_ts e) ++ jlit ",'agent':" ++ json_serialize_string (ev_agent e) ++
      jlit ",'seq':" ++ fmt_llu (ev_seq e) ++ jlit ",'prev':" ++ json_serialize_string (fmt_hex 16 prev) ++
      jlit ",'ev':" ++ ev_text e ++ []) as ->.
    { apply (inj Some). rewrite <- Hb. reflexivity. }
    rewrite !raw_string, app_nil_r in Hr by (done || apply hex_raw).
    replace (event_line prev e) with ((lit "{" ++ newline false ++
      (jlit "'ts':" ++ fmt_llu (ev_ts e) ++ jlit ",'agent':" ++ (["034"%char] ++ ev_agent e ++ ["034"%char]) ++
       jlit ",'seq':" ++ fmt_llu (ev_seq e) ++ jlit ",'prev':" ++
       (["034"%char] ++ fmt_hex 16 prev ++ ["034"%char]) ++ jlit ",'ev':" ++ ev_text e) ++
      indent false 0 ++ lit "}") ++ [NL]).
    + apply reads_parse; [exact Hr|done|]. rewrite depth_object.
      change (members_depth o) with (Nat.max 1 (Nat.max 1 (Nat.max 1 (Nat.max 1 (Nat.max (json_depth v) 0))))).
      unfold MAX_NESTING in *. lia.
    + unfold event_line, record_line, fmt_ld. rewrite (proj2 (Z.ltb_ge _ _)) by lia.
      rewrite <- !app_assoc. reflexivity.
Qed.

(** ** The chain *)

#[local] Opaque fmt_hex fmt_llu.

Fixpoint journal_lines (prev : Z) (es : list event) : list bytes :=
  match es with
  | [] => []
  | e :: es =>
      let line := event_line prev e in
      line :: journal_lines (retraced_journal_line_hash line prev) es
  end.

Fixpoint journal_head (prev : Z) (es : list event) : Z :=
  match es with
  | [] => prev
  | e :: es => journal_head (retraced_journal_line_hash (event_line prev e) prev) es
  end.

(** What the reader does with a record: the agent is live with its sequence
    number. *)
Definition rebuild (e : event) (r : retraced_registry) : retraced_registry :=
  let '(r, i) :=
    match retraced_registry_find r (Some (ev_agent e)) with
    | Some i => (r, Some i)
    | None => retraced_registry_hello r (Some (ev_agent e)) 0 0 (Some []) (Some [])
    end in
  match i with
  | Some i => upd i (λ a, set_state AGENT_LIVE (set_seq (ev_seq e) (last_hb_ms a) a)) r
  | None => r
  end.

Definition closes (line : bytes) : bool :=
  bool_decide (strstr line (jlit "'name':'retrace.journal.closed'") ≠ None).

Definition replay_one (s : Replay) (e : event) : Replay :=
  let line := event_line (rp_prev s) e in
  let j := rp_journal s in
  mkReplay (set_replay (replay_ok j) (replay_events j + 1) (chain_broken_at j) (closes line) j)
    (rebuild e (rp_registry s)) (retraced_journal_line_hash line (rp_prev s)) (rp_lineno s + 1).

Lemma fnv_range s h : (0 ≤ fnv1a s h < 2 ^ 64)%Z.
Proof.
  revert h. induction s as [|c s IH]; intros h; cbn [fnv1a]; [|apply IH].
  by apply wrap_u_range.
Qed.

Lemma event_line_split prev e : ∃ l, event_line prev e = l ++ [NL] ∧
  l = jlit "{'ts':" ++ fmt_ld (ev_ts e) ++ jlit ",'agent':'" ++ ev_agent e ++ jlit "','seq':" ++
      fmt_llu (ev_seq e) ++ jlit ",'prev':'" ++ fmt_hex 16 prev ++ jlit "','ev':" ++ ev_text e ++ lit "}".
Proof.
  eexists. split; [|done]. unfold event_line, record_line. by rewrite <- !app_assoc.
Qed.

Lemma lit_one_line s : forallb (λ c, negb (ceq c NL) && negb (ceq c NUL)) s = true → one_line s.
Proof.
  intros Hs. apply Forall_forall. intros c Hc. apply list_elem_of_In in Hc.
  eapply forallb_forall in Hs; [|done]. by bool_to_prop.
Qed.

Lemma event_one_line prev e v :
  wf_event e v → ∃ l, event_line prev e = l ++ [NL] ∧ one_line l ∧ l ≠ [].
Proof.
  intros [Hts Hag Hseq Hp Hd Hl]. destruct (event_line_split prev e) as (l & -> & ->).
  eexists. split; [done|]. split; [|done]. unfold fmt_ld. rewrite (proj2 (Z.ltb_ge _ _)) by lia.
  repeat lazymatch goal with
    | |- one_line (_ ++ _) => apply Forall_app; split
    | |- Forall _ ?l => change (one_line l)
    | |- one_line (jlit _) => apply lit_one_line; vm_compute; reflexivity
    | |- one_line (lit _) => apply lit_one_line; vm_compute; reflexivity
    | |- one_line (fmt_llu _) => apply raw_one_line, digits_raw; lia
    | |- one_line (fmt_hex _ _) => apply raw_one_line, hex_raw
    | |- one_line (ev_agent _) => apply raw_one_line, Hag
    | |- one_line (ev_text _) => exact Hl
    end.
Qed.

Lemma one_line_no_nl l : one_line l → NL ∉ l.
Proof. intros H Hin. by destruct (proj1 (Forall_forall _ _) H NL Hin). Qed.

Lemma one_line_cstr l : one_line l → cstr (l ++ [NL]) = l ++ [NL].
Proof.
  intros H. apply cstr_id. apply Forall_app. split; [|by repeat constructor].
  eapply Forall_impl; [exact H|]. cbn. tauto.
Qed.

Lemma record_prev dts dseq e prev v :
  json_object_get_string (Some (record_object dts dseq e prev v)) "prev" = Some (fmt_hex 16 prev).
Proof. reflexivity. Qed.

Lemma record_agent dts dseq e prev v :
  json_object_get_string (Some (record_object dts dseq e prev v)) "agent" = Some (ev_agent e).
Proof. reflexivity. Qed.

Lemma record_seq dts dseq e prev v :
  json_object_get_number (Some (record_object dts dseq e prev v)) "seq" = dseq.
Proof. reflexivity. Qed.

Lemma record_pid dts dseq e prev v :
  json_object_get_number (Some (record_object dts dseq e prev v)) "pid" = d_zero.
Proof. reflexivity. Qed.

Lemma replay_record dts dseq e prev v r :
  d_trunc dseq = ev_seq e → (0 ≤ ev_seq e < 2 ^ 64)%Z →
  replay_agent (Some (record_object dts dseq e prev v)) r = rebuild e r.
Proof.
  intros Hd Hs. unfold replay_agent, rebuild. rewrite record_agent, record_seq, record_pid, Hd.
  unfold u64, wrap_u. by rewrite Z.mod_small.
Qed.

(** One round of the reader's loop on a line that parses. *)
Lemma replay_round s line o prev_str ls :
  cstr line = line → last line = Some NL → json_parse_string line = Some (JSONObject o) →
  json_object_get_string (Some o) "prev" = Some prev_str → strtoull16 prev_str = rp_prev s →
  replay_lines (line :: ls) s =
  replay_lines ls
    (mkReplay (set_replay (replay_ok (rp_journal s)) (replay_events (rp_journal s) + 1)
                 (chain_broken_at (rp_journal s)) (closes line) (rp_journal s))
       (replay_agent (Some o) (rp_registry s))
       (retraced_journal_line_hash line (rp_prev s)) (rp_lineno s + 1)).
Proof.
  intros Hc Hl Hp Hprev Hs. cbn [replay_lines]. cbv zeta. rewrite Hc.
  rewrite (proj2 (Nat.eqb_neq (length line) 0)) by (intros E%nil_length_inv; by subst).
  rewrite bool_decide_eq_true_2 by done. cbn [negb orb]. rewrite Hp. cbn [json_value_get_object].
  rewrite Hprev, Hs, Z.eqb_refl. cbn [negb]. by destruct s as [[] r prev n].
Qed.

Lemma replay_cons s e v ls :
  wf_event e v → (0 ≤ rp_prev s < 2 ^ 64)%Z →
  replay_lines (event_line (rp_prev s) e :: ls) s = replay_lines ls (replay_one s e).
Proof.
  intros Hw Hp. destruct (record_parses e (rp_prev s) v Hw) as (dts & dseq & Hparse & Hd).
  destruct (event_one_line (rp_prev s) e v Hw) as (l & El & Hl & Hne).
  rewrite (replay_round s _ (record_object dts dseq e (rp_prev s) v) (fmt_hex 16 (rp_prev s)) ls);
    [| | |exact Hparse|apply record_prev|].
  - rewrite replay_record; [done|done|]. destruct Hw as [_ _ Hseq _ _ _]. lia.
  - rewrite El. by apply one_line_cstr.
  - by rewrite El, last_snoc.
  - by rewrite <- (app_nil_r (fmt_hex 16 (rp_prev s))), strtoull_fmt.
Qed.

(** The events are well formed, and their records fit the buffer of the
    reader. *)
Definition good (e : event) : Prop :=
  (∃ v, wf_event e v) ∧ length (event_line 0 e) < LINE_MAX.

Lemma event_line_length prev e : length (event_line prev e) = length (event_line 0 e).
Proof. unfold event_line, record_line. by rewrite !length_app, !fmt_hex_length. Qed.

Lemma head_range prev es : (0 ≤ prev < 2 ^ 64)%Z → (0 ≤ journal_head prev es < 2 ^ 64)%Z.
Proof.
  revert prev. induction es as [|e es IH]; intros prev Hp; cbn [journal_head]; [done|].
  apply IH, fnv_range.
Qed.

Lemma replay_all es s ls :
  Forall good es → (0 ≤ rp_prev s < 2 ^ 64)%Z →
  replay_lines (journal_lines (rp_prev s) es ++ ls) s = replay_lines ls (foldl replay_one s es).
Proof.
  intros Hes. revert s. induction Hes as [|e es [[v Hw] Hl] _ IH]; intros s Hp; [done|].
  cbn [journal_lines app foldl]. cbv zeta. rewrite (replay_cons s e v) by done.
  rewrite <- (IH (replay_one s e)); [done|]. apply fnv_range.
Qed.

(** The reader's lines of a written journal and of what a crash leaves of a
    further record. *)
Lemma fgets_journal prev es tail :
  Forall good es →
  fgets_lines LINE_MAX (concat (journal_lines prev es) ++ tail) =
  journal_lines prev es ++ fgets_lines LINE_MAX tail.
Proof.
  intros Hes. revert prev. induction Hes as [|e es [[v Hw] Hl] _ IH]; intros prev; [done|].
  cbn [journal_lines concat]. cbv zeta.
  destruct (event_one_line prev e v Hw) as (l & El & Ho & _).
  rewrite <- (event_line_length prev) in Hl. rewrite El in *.
  rewrite <- app_assoc, fgets_lines_cons.
  - cbn [app]. f_equal. apply IH.
  - by apply one_line_no_nl.
  - rewrite length_app in Hl. cbn in Hl. lia.
Qed.

End reading.

(** ** The writer *)

Lemma lines_app prev es es' :
  journal_lines prev (es ++ es') = journal_lines prev es ++ journal_lines (journal_head prev es) es'.
Proof.
  revert prev. induction es as [|e es IH]; intros prev; [done|].
  cbn [app journal_lines journal_head]. cbv zeta. by rewrite IH.
Qed.

Lemma head_app prev es es' :
  journal_head prev (es ++ es') = journal_head (journal_head prev es) es'.
Proof. revert prev. induction es as [|e es IH]; intros prev; [done|]. apply IH. Qed.

Lemma lines_length prev es : length (journal_lines prev es) = length es.
Proof.
  revert prev. induction es as [|e es IH]; intros prev; [done|]. cbn [journal_lines length]. cbv zeta.
  by rewrite IH.
Qed.

Lemma take_lines prev es k : take k (journal_lines prev es) = journal_lines prev (take k es).
Proof.
  revert prev k. induction es as [|e es IH]; intros prev [|k]; [done|done|done|].
  cbn [take journal_lines]. cbv zeta. by rewrite IH.
Qed.

Definition durable (e : event) : bool := payload_is_durable (ev_payload e).
Definition fits (e : event) : bool := length (event_line 0 e) <? LINE_MAX.

Section writer.
Context (fopen_ok remove_ok : bytes → bool).

Definition write_event (s : retraced_journal * Disk) (e : event) : retraced_journal * Disk :=
  snd (retraced_journal_event fopen_ok remove_ok (fst s) (snd s) (ev_ts e) (ev_agent e) (ev_seq e)
         (ev_payload e)).

(** A journal without rotation at path [p] that holds the records [es], the
    first [k] of them on the disk. *)
Record holds (p : bytes) (es : list event) (k : nat) (s : retraced_journal * Disk) : Prop := mkJHolds {
  h_path : path (fst s) = p;
  h_head : prev_hash (fst s) = journal_head 0 es;
  h_norotate : rotate_bytes (fst s) = 0%Z ∧ rotate_seconds (fst s) = 0%Z;
  h_flushed : k ≤ length es;
  h_durable i e : es !! i = Some e → durable e = true → i < k;
  h_disk : content (snd s) p = concat (take k (journal_lines 0 es));
  h_stream : match stream (fst s) with
             | None => k = length es
             | Some (p', buf) => p' = p ∧ buf = concat (drop k (journal_lines 0 es)) ∧ is_Some (snd s !! p)
             end;
}.

(** What the stream has not written yet. *)
Definition buffered (j : retraced_journal) : bytes :=
  match stream j with Some (_, buf) => buf | None => [] end.

Lemma holds_text p es k s :
  holds p es k s → content (snd s) p ++ buffered (fst s) = concat (journal_lines 0 es).
Proof.
  intros [_ _ _ _ _ Hd Hs]. rewrite Hd. unfold buffered. destruct (stream (fst s)) as [[p' buf]|].
  - destruct Hs as (_ & -> & _). by rewrite <- concat_app, take_drop.
  - rewrite Hs, app_nil_r, firstn_all2; [done|]. by rewrite lines_length.
Qed.

Lemma snoc_durable es e k :
  k ≤ length es → (∀ i e, es !! i = Some e → durable e = true → i < k) →
  ∀ i e', (es ++ [e]) !! i = Some e' → durable e' = true →
  i < if durable e then length es + 1 else k.
Proof.
  intros Hk H i e' Hi He'. apply lookup_app_Some in Hi as [Hi|[Hge Hi]].
  - specialize (H i e' Hi He'). destruct (durable e); lia.
  - apply list_lookup_singleton_Some in Hi as [Hi ->]. rewrite He'. lia.
Qed.

(** A record goes to the end of the journal; a durable one and all before it
    to the disk. *)
Lemma write_holds p es k s e :
  fopen_ok p = true → holds p es k s → fits e = true →
  holds p (es ++ [e]) (if durable e then length es + 1 else k) (write_event s e).
Proof.
  intros Hopen Hh Hf. pose proof (holds_text _ _ _ _ Hh) as Htext.
  destruct s as [j d]. destruct Hh as [Hp Hhead [Hb Hs] Hk Hdur Hd Hst]. cbn [fst snd] in *.
  set (line := event_line (journal_head 0 es) e).
  assert (journal_lines 0 (es ++ [e]) = journal_lines 0 es ++ [line]) as Hlines
    by (by rewrite lines_app).
  assert (journal_head 0 (es ++ [e]) = retraced_journal_line_hash line (journal_head 0 es)) as Hh'
    by (by rewrite head_app).
  assert (length (take k (journal_lines 0 es)) = k) as Hlk by (rewrite length_take, lines_length; lia).
  assert (∃ buf d', journal_writer fopen_ok j d = Some (set_stream (Some (p, buf)) j, d') ∧
            content d' p = content d p ∧ content d p ++ buf = concat (journal_lines 0 es) ∧
            buf = concat (drop k (journal_lines 0 es)) ∧ is_Some (d' !! p)) as (buf & d' & Hw & Hd' & Hbuf & Eb & Hex).
  { unfold journal_writer. rewrite Hp. unfold buffered in Htext.
    destruct (stream j) as [[p' buf]|] eqn:Es.
    - destruct Hst as (-> & Ebuf & Hex). exists buf, d. split; [|done]. destruct j; cbn in *. by subst.
    - rewrite Hopen. exists [], (<[p := content d p]> d). split; [done|].
      split; [unfold content; by rewrite lookup_insert_eq|]. split; [done|].
      split; [|by rewrite lookup_insert_eq]. subst k.
      by rewrite skipn_all2 by (by rewrite lines_length). }
  unfold write_event, retraced_journal_event, journal_event_with. cbn [fst snd]. cbv zeta.
  change (record_line _ _ _ _ _) with (event_line (prev_hash j) e). rewrite Hhead. fold line.
  assert (length line < LINE_MAX) as Hlen by (unfold line; rewrite event_line_length; by apply Nat.ltb_lt).
  rewrite (proj2 (Nat.leb_gt _ _) Hlen). clearbody line. clear Hf Hlen.
  rewrite Hw. change (payload_is_durable (ev_payload e)) with (durable e).
  pose proof (snoc_durable es e k Hk Hdur) as Hdur'.
  destruct (durable e) eqn:Edur; destruct j; cbn in *; subst; rewrite andb_false_r; cbn;
    (split; cbn; [done|by rewrite Hh'|done|rewrite length_app; cbn; lia|exact Hdur'| |]).
  - unfold content in *. rewrite lookup_insert_eq. cbn. rewrite Hd', Hlines, app_assoc, Hbuf.
    rewrite firstn_all2 by (rewrite length_app, lines_length; cbn; lia). by rewrite concat_app; cbn; rewrite app_nil_r.
  - split; [done|]. split; [|by rewrite lookup_insert_eq].
    rewrite Hlines, skipn_all2; [done|]. rewrite length_app, lines_length. cbn. lia.
  - rewrite Hd', Hd, Hlines, take_app_le; [done|]. rewrite lines_length. lia.
  - split; [done|]. split; [|done]. rewrite Hlines, drop_app_le by (rewrite lines_length; lia).
    by rewrite concat_app; cbn; rewrite app_nil_r.
Qed.

Lemma reject_holds p es k s e : holds p es k s → fits e = false → write_event s e = s.
Proof.
  intros _ Hf. destruct s as [j d]. unfold write_event, retraced_journal_event, journal_event_with.
  cbn [fst snd]. cbv zeta. change (record_line _ _ _ _ _) with (event_line (prev_hash j) e).
  unfold fits in Hf. apply Nat.ltb_ge in Hf. rewrite (proj2 (Nat.leb_le _ _)); [done|].
  by rewrite event_line_length.
Qed.

Lemma run_holds p es0 es k s :
  fopen_ok p = true → holds p es0 k s →
  ∃ k', k ≤ k' ∧ holds p (es0 ++ filter (λ e, fits e = true) es) k' (foldl write_event s es).
Proof.
  intros Ho. revert es0 k s. induction es as [|e es IH]; intros es0 k s Hh; cbn [foldl].
  { exists k. by rewrite app_nil_r. }
  pose proof (h_flushed _ _ _ _ Hh). destruct (fits e) eqn:Ef.
  - rewrite filter_cons_True by done. rewrite cons_middle, app_assoc.
    destruct (IH _ _ _ (write_holds p es0 k s e Ho Hh Ef)) as (k' & Hk & Hr). exists k'. split; [|done].
    destruct (durable e); lia.
  - rewrite filter_cons_False by (by rewrite Ef). rewrite (reject_holds p es0 k) by done. by eapply IH.
Qed.

End writer.

(** A prefix of a concatenation: whole parts and a part of the next. *)
Lemma take_concat {A} (ls : list (list A)) n :
  ∃ i part, i ≤ length ls ∧ take n (concat ls) = concat (take i ls) ++ part ∧
    (part = [] ∧ (length (concat ls) ≤ n → i = length ls) ∨
     part ≠ [] ∧ n < length (concat ls) ∧ ∃ l r, ls !! i = Some l ∧ l = part ++ r ∧ r ≠ []).
Proof.
  revert n. induction ls as [|l ls IH]; intros n.
  { exists 0, []. cbn. rewrite take_nil. split; [done|]. split; [done|]. by left. }
  cbn [concat]. destruct (decide (n < length l)) as [Hn|Hn].
  - destruct n as [|n].
    { exists 0, []. split; [lia|]. split; [done|]. left. split; [done|]. rewrite length_app. lia. }
    exists 0, (take (S n) l). split; [lia|]. split; [rewrite take_app_le by lia; done|]. right.
    split; [destruct l; [cbn in Hn; lia|done]|]. split; [rewrite length_app; lia|]. exists l, (drop (S n) l).
    split; [done|]. split; [by rewrite take_drop|]. intros E%(f_equal length). rewrite length_drop in E. cbn in E. lia.
  - destruct (IH (n - length l)) as (i & part & Hi & E & H). exists (S i), part.
    cbn [length take concat]. split; [lia|]. rewrite take_app_ge by lia. rewrite E, app_assoc.
    split; [done|]. rewrite length_app. destruct H as [[-> H]|(Hp & Hlt & l' & r & Hl & Hr & Hne)].
    + left. split; [done|]. intros Hge. rewrite H; lia.
    + right. split; [done|]. split; [lia|]. by exists l', r.
Qed.

Section recovery.
Context {DT : DoubleText} {IT : IntText}.

Lemma torn_line part s :
  one_line part → part ≠ [] →
  replay_lines [part] s =
  inl (mkReplay (rp_journal s) (rp_registry s) (rp_prev s) (rp_lineno s + 1), true).
Proof.
  intros Hl Hne. cbn [replay_lines]. cbv zeta.
  assert (cstr part = part) as ->.
  { apply cstr_id. eapply Forall_impl; [exact Hl|]. cbn. tauto. }
  rewrite bool_decide_eq_false_2; [by rewrite orb_true_r|]. intros E.
  apply one_line_no_nl in Hl. apply Hl. apply last_Some_elem_of in E. done.
Qed.

Lemma folded_journal es s :
  let s' := foldl replay_one s es in
  rp_lineno s' = (rp_lineno s + Z.of_nat (length es))%Z ∧
  rp_prev s' = journal_head (rp_prev s) es ∧
  rp_registry s' = foldl (λ r e, rebuild e r) (rp_registry s) es ∧
  ∃ clean, rp_journal s' =
    set_replay (replay_ok (rp_journal s)) (replay_events (rp_journal s) + Z.of_nat (length es))
      (chain_broken_at (rp_journal s)) clean (rp_journal s).
Proof.
  revert s. induction es as [|e es IH]; intros s; cbn [foldl length].
  { split; [lia|]. split; [done|]. split; [done|]. exists (clean_close (rp_journal s)).
    rewrite Z.add_0_r. by destruct s as [[] r prev n]. }
  destruct (IH (replay_one s e)) as (H1 & H2 & H3 & clean & H4). rewrite Nat2Z.inj_succ.
  split; [rewrite H1; cbn [replay_one rp_lineno]; lia|]. split; [by rewrite H2|]. split; [by rewrite H3|].
  exists clean. rewrite H4. unfold replay_one. cbn [rp_journal].
  destruct (rp_journal s); cbn [set_replay replay_ok replay_events chain_broken_at].
  unfold set_replay. cbn. f_equal. lia.
Qed.

(** The verdict of a restart on the records [es]: they are replayed, the chain
    holds, and the registry has the agents they name. *)
Definition recovered (es : list event) (res : Z * (retraced_journal * retraced_registry)) : Prop :=
  let '(rc, (j, r)) := res in
  rc = 0%Z ∧ chain_broken_at j = (-1)%Z ∧ prev_hash j = journal_head 0 es ∧
  lines j = Z.of_nat (length es) ∧ replay_events j = Z.of_nat (length es) ∧
  r = foldl (λ r e, rebuild e r) retraced_registry_init es.

Lemma replay_text d p es part :
  length p < 512 → Forall good es → one_line part → length part < LINE_MAX - 1 →
  d !! p = Some (concat (journal_lines 0 es) ++ part) → journal_head 0 es ≠ BAD_HEAD →
  recovered es (retraced_journal_replay d (retraced_journal_open p) retraced_registry_init).
Proof.
  intros Hp Hes Hpart Hlen Hd Hbad. unfold retraced_journal_replay, retraced_journal_open.
  assert (snprintf 512 p = p) as -> by (apply take_ge; lia).
  cbn [set_replay rotate_bytes rotate_seconds negb Z.eqb orb path]. rewrite Hd.
  unfold journal_replay_file. rewrite Hd, fgets_journal by done.
  set (s := mkReplay _ retraced_registry_init 0 0).
  rewrite (replay_all es s) by done.
  destruct (folded_journal es s) as (H1 & H2 & H3 & clean & H4).
  assert (∃ s' torn, replay_lines (fgets_lines LINE_MAX part) (foldl replay_one s es) = inl (s', torn) ∧
            rp_journal s' = rp_journal (foldl replay_one s es) ∧ rp_registry s' = rp_registry (foldl replay_one s es) ∧
            rp_prev s' = rp_prev (foldl replay_one s es) ∧
            (rp_lineno s' - Z.b2z torn = rp_lineno (foldl replay_one s es))%Z) as (s' & torn & -> & -> & -> & -> & ->).
  { destruct (decide (part = [])) as [->|Hne].
    - eexists _, false. cbn [fgets_lines]. split; [done|]. cbn. split_and!; try done. lia.
    - rewrite fgets_lines_tail; [|by apply one_line_no_nl|lia|done]. rewrite torn_line by done.
      eexists _, true. split; [done|]. cbn. split_and!; try done. lia. }
  rewrite H2. change (rp_prev s) with 0%Z. rewrite (proj2 (Z.eqb_neq _ _) Hbad).
  rewrite H1, H3, H4. cbn. split_and!; try done; lia.
Qed.

Lemma line_lookup prev es i l :
  journal_lines prev es !! i = Some l → ∃ prev' e, es !! i = Some e ∧ l = event_line prev' e.
Proof.
  revert prev i. induction es as [|e es IH]; intros prev [|i]; try done; cbn [journal_lines]; cbv zeta.
  - intros <-%(inj Some). by exists prev, e.
  - intros H. by apply IH in H.
Qed.

(** A proper prefix of a record has no line end and fits the buffer. *)
Lemma torn_part prev e part r :
  good e → event_line prev e = part ++ r → r ≠ [] → one_line part ∧ length part < LINE_MAX - 1.
Proof.
  intros [[v Hw] Hl] E Hr. destruct (event_one_line prev e v Hw) as (l & El & Hone & _).
  rewrite <- (event_line_length prev), El in Hl. rewrite El in E.
  destruct r as [|x r _] using rev_ind; [done|]. rewrite app_assoc in E.
  apply app_inj_tail in E as [-> _]. rewrite !length_app in Hl. cbn in Hl.
  split; [by apply Forall_app in Hone as [? _]|lia].
Qed.

Lemma crash_recovers fopen_ok remove_ok p es0 es s0 n :
  fopen_ok p = true → length p < 512 → Forall (λ e, ∃ v, wf_event e v) es → Forall good es0 →
  holds p es0 (length es0) s0 →
  let '(j, d) := foldl (write_event fopen_ok remove_ok) s0 es in
  let all := es0 ++ filter (λ e, fits e = true) es in
  ∃ m, length es0 ≤ m ≤ length all ∧ (∀ i e, all !! i = Some e → durable e = true → i < m) ∧
    (length (buffered j) ≤ n → m = length all) ∧
    (journal_head 0 (take m all) ≠ BAD_HEAD →
     recovered (take m all)
       (retraced_journal_replay (<[p := content d p ++ take n (buffered j)]> d) (retraced_journal_open p)
          retraced_registry_init)).
Proof.
  intros Ho Hp Hes Hes0 Hh. set (all := es0 ++ _).
  assert (Forall good all) as Hgood.
  { apply Forall_app. split; [done|]. apply Forall_forall. intros e [Hf Hin]%list_elem_of_filter.
    split; [by apply (proj1 (Forall_forall _ _) Hes)|]. by apply Nat.ltb_lt. }
  destruct (run_holds fopen_ok remove_ok p es0 es _ s0 Ho Hh) as (k & Hk0 & Hk). fold all in Hk.
  destruct (foldl _ s0 es) as [j d] eqn:E. cbv zeta.
  destruct Hk as [_ _ _ Hkl Hdur Hdisk Hst]. cbn [fst snd] in *.
  set (rest := drop k (journal_lines 0 all)).
  assert (buffered j = concat rest) as Hbuf.
  { unfold buffered, rest. destruct (stream j) as [[p' buf]|]; [by destruct Hst as (_ & -> & _)|].
    rewrite Hst, skipn_all2; [done|]. by rewrite lines_length. }
  destruct (take_concat rest n) as (i & part & Hi & Htake & Hpart). exists (k + i).
  assert (length rest = length all - k) as Hlr by (unfold rest; rewrite length_drop, lines_length; lia).
  rewrite Hbuf. split; [lia|]. split; [intros i' e' Hi' He'; specialize (Hdur i' e' Hi' He'); lia|].
  split.
  { intros Hn. destruct Hpart as [[_ Hall]|(_ & Hlt & _)]; [specialize (Hall Hn)|]; lia. }
  intros Hbad.
  assert (one_line part ∧ length part < LINE_MAX - 1) as [Hone Hlen].
  { destruct Hpart as [[-> _]|(_ & _ & l & r & Hl & -> & Hr)].
    - split; [constructor|unfold LINE_MAX; cbn; lia].
    - unfold rest in Hl. rewrite lookup_drop in Hl. apply line_lookup in Hl as (prev & e & He & El).
      eapply (torn_part prev e); [|by symmetry|done].
      by apply (proj1 (Forall_forall _ _) Hgood), (list_elem_of_lookup_2 _ (k + i)). }
  eapply (replay_text _ p _ part); [done|by apply Forall_take|done|done| |done].
  rewrite lookup_insert_eq. f_equal. rewrite Hdisk, Htake, app_assoc. f_equal.
  rewrite <- concat_app. f_equal. rewrite <- take_lines. unfold rest.
  pose proof (take_drop k (take (k + i) (journal_lines 0 all))) as Hsplit.
  rewrite take_take, Nat.min_l in Hsplit by lia. by rewrite take_drop_commute.
Qed.

(** C5 (safety). Let a journal that does not rotate and holds
    intact records be written records whose payload is one line of well-formed
    JSON. Whatever a crash leaves of the buffered part, the next start accepts the
    journal and recovers a prefix of the records that fit the line: all records of
    earlier runs and all control-plane records are in it, all records are when
    nothing was cut, the chain continues from its last record, and the registry
    has the agents it names. The chain hash must not be by chance the value that
    stands for a bad chain. *)
Theorem journal_crash_recovery fopen_ok remove_ok p es0 es s0 n :
  fopen_ok p = true → length p < 512 → Forall (λ e, ∃ v, wf_event e v) es → Forall good es0 →
  holds p es0 (length es0) s0 →
  let '(j, d) := foldl (write_event fopen_ok remove_ok) s0 es in
  let all := es0 ++ filter (λ e, fits e = true) es in
  ∃ m, length es0 ≤ m ≤ length all ∧ (∀ i e, all !! i = Some e → durable e = true → i < m) ∧
    (length (buffered j) ≤ n → m = length all) ∧
    (journal_head 0 (take m all) ≠ BAD_HEAD →
     recovered (take m all)
       (retraced_journal_replay (<[p := content d p ++ take n (buffered j)]> d) (retraced_journal_open p)
          retraced_registry_init)).
Proof. apply crash_recovers. Qed.

End recovery.

(** ** Tampering *)

(** Multiplication by the prime of the hash is invertible modulo 2^64. *)
Definition fnv_inverse : Z := 0x87b58b5d359c449b.

Lemma fnv_mul_inj h h' :
  (0 ≤ h < 2 ^ 64)%Z → (0 ≤ h' < 2 ^ 64)%Z → u64 (h * 0x01000193) = u64 (h' * 0x01000193) → h = h'.
Proof.
  assert (∀ x, (0 ≤ x < 2 ^ 64)%Z → u64 (u64 (x * 0x01000193) * fnv_inverse) = x) as Hinv.
  { intros x Hx. unfold u64, wrap_u, fnv_inverse. rewrite Z.mul_mod_idemp_l by lia.
    rewrite <- Z.mul_assoc, <- Z.mul_mod_idemp_r by lia.
    change (_ mod _)%Z with 1%Z at 2. rewrite Z.mul_1_r. by apply Z.mod_small. }
  intros Hh Hh' E. by rewrite <- (Hinv h), <- (Hinv h'), E.
Qed.

Lemma lxor_range h b : (0 ≤ h < 2 ^ 64)%Z → (0 ≤ b < 256)%Z → (0 ≤ Z.lxor h b < 2 ^ 64)%Z.
Proof.
  intros Hh Hb. assert (0 ≤ Z.lxor h b)%Z by (apply Z.lxor_nonneg; lia). split; [done|].
  destruct (Z.eq_dec (Z.lxor h b) 0%Z) as [->|]; [lia|]. apply Z.log2_lt_pow2; [lia|].
  eapply Z.le_lt_trans; [apply Z.log2_lxor; lia|].
  assert (∀ x, (0 ≤ x < 2 ^ 64)%Z → (Z.log2 x < 64)%Z) as Hlog.
  { intros x Hx. destruct (Z.eq_dec x 0%Z) as [->|]; [done|]. apply Z.log2_lt_pow2; lia. }
  apply Z.max_lub_lt; apply Hlog; lia.
Qed.

Lemma lxor_inj_r h a b : Z.lxor h a = Z.lxor h b → a = b.
Proof.
  intros E. apply (f_equal (Z.lxor h)) in E. by rewrite <- !Z.lxor_assoc, Z.lxor_nilpotent, !Z.lxor_0_l in E.
Qed.

Lemma uchar_inj a b : uchar a = uchar b → a = b.
Proof.
  unfold uchar. intros E%N2Z.inj. by rewrite <- (ascii_N_embedding a), E, ascii_N_embedding.
Qed.

Lemma fnv_step_range h c : (0 ≤ u64 (Z.lxor h (uchar c) * 0x01000193) < 2 ^ 64)%Z.
Proof. by apply wrap_u_range. Qed.

(** The hash of a text determines the state it was started from. *)
Lemma fnv_inj s h h' :
  (0 ≤ h < 2 ^ 64)%Z → (0 ≤ h' < 2 ^ 64)%Z → fnv1a s h = fnv1a s h' → h = h'.
Proof.
  revert h h'. induction s as [|c s IH]; intros h h' Hh Hh' E; cbn [fnv1a] in E.
  { unfold u64, wrap_u in E. by rewrite !Z.mod_small in E. }
  apply IH in E; [|apply fnv_step_range..].
  apply fnv_mul_inj in E; [|by apply lxor_range; [|apply uchar_range]..].
  rewrite !(Z.lxor_comm _ (uchar c)) in E. by apply lxor_inj_r in E.
Qed.

(** A change of one byte changes the hash. *)
Lemma fnv_byte a c c' b h :
  (0 ≤ h < 2 ^ 64)%Z → fnv1a (a ++ c :: b) h = fnv1a (a ++ c' :: b) h → c = c'.
Proof.
  revert h. induction a as [|x a IH]; intros h Hh E; cbn [app fnv1a] in E.
  - apply fnv_inj in E; [|apply fnv_step_range..].
    apply fnv_mul_inj in E; [|by apply lxor_range; [|apply uchar_range]..].
    apply lxor_inj_r in E. by apply uchar_inj.
  - eapply IH; [|exact E]. apply fnv_step_range.
Qed.

Lemma hash_byte a c c' b prev :
  (0 ≤ prev < 2 ^ 64)%Z → c ≠ c' →
  retraced_journal_line_hash (a ++ c :: b) prev ≠ retraced_journal_line_hash (a ++ c' :: b) prev.
Proof.
  intros Hp Hne E. apply Hne. eapply fnv_byte; [|exact E].
  split; [apply Z.lxor_nonneg; lia|].
  destruct (Z.eq_dec (Z.lxor prev 0x9e3779b97f4a7c15) 0%Z) as [->|]; [lia|].
  assert (0 ≤ Z.lxor prev 0x9e3779b97f4a7c15)%Z by (apply Z.lxor_nonneg; lia).
  apply Z.log2_lt_pow2; [lia|]. eapply Z.le_lt_trans; [apply Z.log2_lxor; lia|].
  apply Z.max_lub_lt; [|done]. destruct (Z.eq_dec prev 0%Z) as [->|]; [done|]. apply Z.log2_lt_pow2; lia.
Qed.

(** The lines of a journal file: whole, and within the buffer of the reader. *)
Definition file_line (l : bytes) : Prop :=
  ∃ b, l = b ++ [NL] ∧ one_line b ∧ length l < LINE_MAX.

Lemma fgets_file ls : Forall file_line ls → fgets_lines LINE_MAX (concat ls) = ls.
Proof.
  induction 1 as [|l ls (b & -> & Hb & Hl) _ IH]; [done|]. cbn [concat].
  rewrite fgets_lines_cons; [by rewrite IH|by apply one_line_no_nl|].
  rewrite length_app in Hl. cbn in Hl. lia.
Qed.

Lemma file_line_cstr l : file_line l → cstr l = l.
Proof. intros (b & -> & Hb & _). by apply one_line_cstr. Qed.

(** The link a line carries. *)
Definition stored_link (l : bytes) : option Z :=
  (λ p, strtoull16 (take 16 (drop 8 p))) <$> strstr l (jlit "'prev':'").

Lemma chain_cons l ls prev n :
  file_line l →
  chain_lines (l :: ls) 0 prev n =
  if bool_decide (stored_link l = Some prev) then chain_lines ls 0 (retraced_journal_line_hash l prev) (S n)
  else (prev, S n, S n).
Proof.
  intros Hl. cbn [chain_lines]. cbv zeta. rewrite (file_line_cstr l Hl). cbn [Nat.ltb Nat.leb andb].
  unfold stored_link. destruct (strstr l _) as [p|]; cbn [fmap option_fmap option_map].
  - destruct (Z.eqb_spec (strtoull16 (take 16 (drop 8 p))) prev) as [->|Hne]; cbn [negb].
    + by rewrite bool_decide_eq_true_2.
    + rewrite bool_decide_eq_false_2; [done|]. by intros [= ?].
  - by rewrite bool_decide_eq_false_2.
Qed.

(** A verdict without a broken line has every link in place. *)
Lemma chain_ok_app ls1 ls2 prev n :
  Forall file_line ls1 → snd (chain_lines (ls1 ++ ls2) 0 prev n) = 0 →
  ∃ prev', chain_lines (ls1 ++ ls2) 0 prev n = chain_lines ls2 0 prev' (n + length ls1) ∧
    ((0 ≤ prev < 2 ^ 64)%Z → (0 ≤ prev' < 2 ^ 64)%Z) ∧
    ∀ ls2', chain_lines (ls1 ++ ls2') 0 prev n = chain_lines ls2' 0 prev' (n + length ls1).
Proof.
  intros H1. revert prev n. induction H1 as [|l ls1 Hl _ IH]; intros prev n Hok.
  { exists prev. cbn. by rewrite Nat.add_0_r. }
  cbn [app] in Hok. rewrite chain_cons in Hok by done.
  destruct (bool_decide (stored_link l = Some prev)) eqn:E; [|done].
  destruct (IH _ _ Hok) as (prev' & E1 & Hr & E2). exists prev'. cbn [app length].
  rewrite chain_cons, E, E1 by done. split; [f_equal; lia|]. split; [intros _; apply Hr, fnv_range|].
  intros ls2'. rewrite chain_cons, E, E2 by done. f_equal. lia.
Qed.

Lemma chain_tampered ls1 a c c' b l2 ls2 prev n :
  Forall file_line ls1 → file_line (a ++ c :: b) → file_line (a ++ c' :: b) → file_line l2 →
  (0 ≤ prev < 2 ^ 64)%Z → c ≠ c' →
  snd (chain_lines (ls1 ++ (a ++ c :: b) :: l2 :: ls2) 0 prev n) = 0 →
  let broken := snd (chain_lines (ls1 ++ (a ++ c' :: b) :: l2 :: ls2) 0 prev n) in
  n + length ls1 < broken ≤ n + length ls1 + 2.
Proof.
  intros H1 Hl Hl' H2 Hp Hne Hok. destruct (chain_ok_app _ _ _ _ H1 Hok) as (prev' & E & Hr & E').
  rewrite E in Hok. cbv zeta. rewrite E'. clear E E'. specialize (Hr Hp).
  rewrite chain_cons in Hok by done. rewrite chain_cons by done.
  destruct (bool_decide (stored_link (a ++ c :: b) = _)) eqn:El; [|done].
  destruct (bool_decide (stored_link (a ++ c' :: b) = _)); [|cbn; lia].
  rewrite chain_cons in Hok by done. rewrite chain_cons by done.
  destruct (bool_decide (stored_link l2 = _)) eqn:E2; [|done]. bool_to_prop.
  rewrite bool_decide_eq_false_2; [cbn; lia|]. rewrite E2. intros E%(inj Some).
  by apply (hash_byte a c c' b prev').
Qed.

(** C6 (safety). Tampering is evident: when a journal file verifies, changing
    one byte of a record that another one follows makes the verification fail,
    at that record or at the next. *)
Theorem journal_tamper_evident ls1 a c c' b l2 ls2 start :
  Forall file_line (ls1 ++ (a ++ c :: b) :: l2 :: ls2) → file_line (a ++ c' :: b) → c ≠ c' →
  (0 ≤ start < 2 ^ 64)%Z →
  fst (retraced_journal_chain_file_from (Some (concat (ls1 ++ (a ++ c :: b) :: l2 :: ls2))) start 0) = 0%Z →
  ∃ head n broken,
    retraced_journal_chain_file_from (Some (concat (ls1 ++ (a ++ c' :: b) :: l2 :: ls2))) start 0
    = ((-1)%Z, (head, n, broken)) ∧ length ls1 < broken ≤ length ls1 + 2.
Proof.
  intros Hall Hl' Hne Hs Hok. pose proof Hall as Hall'.
  apply Forall_app in Hall' as [H1 Hall']. apply Forall_cons in Hall' as [Hl Hall'].
  apply Forall_cons in Hall' as [H2 H3].
  assert (Forall file_line (ls1 ++ (a ++ c' :: b) :: l2 :: ls2)) as Hall2
    by (apply Forall_app; split; [done|]; by repeat constructor).
  unfold retraced_journal_chain_file_from in *. rewrite fgets_file in Hok by done. rewrite fgets_file by done.
  pose proof (chain_tampered ls1 a c c' b l2 ls2 start 0 H1 Hl Hl' H2 Hs Hne) as Ht.
  destruct (chain_lines (ls1 ++ (a ++ c :: b) :: _) 0 start 0) as [[head0 n0] broken0].
  destruct (chain_lines (ls1 ++ (a ++ c' :: b) :: _) 0 start 0) as [[head n] broken].
  exists head, n, broken. cbn [snd fst] in *.
  destruct (Nat.eqb_spec broken0 0); [|done]. specialize (Ht ltac:(done)).
  destruct (Nat.eqb_spec broken 0); [lia|]. done.
Qed.

(** ** Concrete journals *)

#[local] Existing Instance JsonRoundTrip.whole_numbers.

Definition named (name : bytes) : JSON_Value := JSONObject [(lit "name", JSONString name)].

Definition sample_event (seq : Z) (name : bytes) : event :=
  mkEvent (1000 + seq) (lit "agent-boot-1") seq (json_serialize_to_buffer_r false (named name) 0).

Definition sample_events : list event :=
  [sample_event 0 (lit "retrace.agent.hello"); sample_event 1 (lit "call"); sample_event 2 (lit "call")].

Definition sample_path : bytes := lit "/var/log/j".

Lemma sample_wf seq name :
  (0 ≤ seq ≤ 1000)%Z → no_nul name → one_line (ev_text (sample_event seq name)) →
  wf_event (sample_event seq name) (named name).
Proof.
  intros Hs Hn Hl. assert (json_ok (named name)) as Hok
    by (repeat constructor; cbn; try set_solver; done).
  destruct (value_reads false _ Hok 0) as (text & E & Hr).
  assert (ev_text (sample_event seq name) = text) as Et
    by (unfold ev_text, sample_event; cbn [ev_payload]; by rewrite E).
  split; try done; rewrite ?Et; cbn [sample_event ev_ts ev_seq ev_agent]; try lia; try done.
  - by repeat constructor.
  - cbn. unfold MAX_NESTING. lia.
Qed.

Lemma sample_events_wf : Forall (λ e, ∃ v, wf_event e v) sample_events.
Proof.
  repeat constructor; eexists; (apply sample_wf; [lia|by repeat constructor|vm_compute; by repeat constructor]).
Qed.

Lemma empty_holds p : length p < 512 → holds p [] 0 (retraced_journal_open p, ∅).
Proof. intros Hp. split; try done; cbn; intros; try lia. apply firstn_all2. lia. Qed.

Lemma journal_crash_recovery_witness :
  let p := sample_path in
  let '(j, d) := foldl (write_event (λ _, true) (λ _, true)) (retraced_journal_open p, ∅) sample_events in
  let all := [] ++ filter (λ e, fits e = true) sample_events in
  ∃ m, 0 ≤ m ≤ length all ∧ (∀ i e, all !! i = Some e → durable e = true → i < m) ∧
    (length (buffered j) ≤ 100 → m = length all) ∧
    (journal_head 0 (take m all) ≠ BAD_HEAD →
     recovered (take m all)
       (retraced_journal_replay (<[p := content d p ++ take 100 (buffered j)]> d) (retraced_journal_open p)
          retraced_registry_init)).
Proof.
  apply (journal_crash_recovery (λ _, true) (λ _, true) sample_path [] sample_events).
  - reflexivity.
  - vm_compute. lia.
  - exact sample_events_wf.
  - constructor.
  - apply empty_holds. vm_compute. lia.
Defined.

(** A line with its newline taken off, within the buffer. *)
Definition whole_line (l : bytes) : bool :=
  match last l with
  | Some c => ceq c NL && forallb (λ c, negb (ceq c NL) && negb (ceq c NUL)) (removelast l)
  | None => false
  end && (length l <? LINE_MAX).

Lemma whole_line_ok l : whole_line l = true → file_line l.
Proof.
  unfold whole_line. destruct (last l) as [c|] eqn:E; [|done]. intros H. bool_to_prop.
  subst c. exists (removelast l). split; [|split; [|by apply Nat.ltb_lt]].
  - apply last_Some in E as [l' ->]. by rewrite removelast_last.
  - apply Forall_forall. intros x Hx. rewrite forallb_forall in H1.
    specialize (H1 x (proj1 (list_elem_of_In _ _) Hx)). by bool_to_prop.
Qed.

Lemma whole_lines ls : forallb whole_line ls = true → Forall file_line ls.
Proof.
  intros H. apply Forall_forall. intros l Hl. rewrite forallb_forall in H. by apply whole_line_ok, H, list_elem_of_In.
Qed.

Definition sample_line (i : nat) : bytes := nth i (journal_lines 0 sample_events) [].

(** The second record of the journal with its "call" changed to "cAll". *)
Definition cut : nat := length (sample_line 1) - 7.

Lemma journal_tamper_evident_witness :
  ∃ head n broken,
    retraced_journal_chain_file_from
      (Some (concat ([sample_line 0] ++
         (take cut (sample_line 1) ++ "A"%char :: drop (S cut) (sample_line 1)) :: sample_line 2 :: []))) 0 0
    = ((-1)%Z, (head, n, broken)) ∧ length [sample_line 0] < broken ≤ length [sample_line 0] + 2.
Proof.
  apply (journal_tamper_evident [sample_line 0] (take cut (sample_line 1)) "a"%char "A"%char
           (drop (S cut) (sample_line 1)) (sample_line 2) [] 0).
  - apply whole_lines. vm_compute. reflexivity.
  - apply whole_line_ok. vm_compute. reflexivity.
  - discriminate.
  - lia.
  - vm_compute. reflexivity.
Defined.

(** What a start of the daemon finds: the verdict, the number of the broken
    line, the records recovered. *)
Definition boot (text : bytes) : Z * Z * Z :=
  let '(rc, (j, _)) := retraced_journal_replay {[sample_path := text]} (retraced_journal_open sample_path)
                         retraced_registry_init in
  (rc, chain_broken_at j, replay_events j).

Definition sample_text : bytes := concat (journal_lines 0 sample_events).

Lemma sample_boots : boot sample_text = (0, -1, 3)%Z.
Proof. vm_compute. reflexivity. Qed.

(** The daemon journals the payload of an agent as it came. A payload with a
    newline splits its record: after a newline between two tokens the next start
    drops this record and all later ones, and a payload that closes the record
    and opens another one makes it refuse the journal. *)
Lemma newline_payload_splits :
  let payload := (lit "{" ++ [NL] ++ jlit "'x':1}")%list in
  let forged := (lit "{}}" ++ [NL] ++ jlit "{'prev':'0'")%list in
  json_parse_string payload ≠ None ∧ json_parse_string forged ≠ None ∧
  boot (concat (journal_lines 0 (mkEvent 5 (lit "agent-boot-1") 0 (Some payload) :: sample_events)))
  = (0, -1, 0)%Z ∧
  boot (concat (journal_lines 0 (mkEvent 5 (lit "agent-boot-1") 0 (Some forged) :: sample_events)))
  = (-1, 2, 1)%Z.
Proof. split_and!; vm_compute; first [discriminate|reflexivity]. Qed.

(** After a crash the writer appends to the torn last record, and everything
    journalled since is taken for the torn tail of the start after it. *)
Lemma torn_tail_absorbs :
  let torn := take (length sample_text - 5) sample_text in
  boot torn = (0, -1, 2)%Z ∧
  boot (torn ++ concat (journal_lines (journal_head 0 (take 2 sample_events)) sample_events)) = (0, -1, 2)%Z.
Proof. split; vm_compute; reflexivity. Qed.

(** An edit that leaves a record unreadable is taken for a torn tail, wherever
    it is: the start accepts the journal and drops every record after it. *)
Lemma edit_taken_for_torn :
  boot (sample_line 0 ++ "#"%char :: drop 1 (sample_line 1) ++ sample_line 2) = (0, -1, 1)%Z.
Proof. vm_compute. reflexivity. Qed.

(** A record without a link makes [retraced_journal_tail] read a null string. *)
Lemma tail_null_link : retraced_journal_tail (Some (lit "{}" ++ [NL])) 1 = Some Tail_crash.
Proof. vm_compute. reflexivity. Qed.

End JournalChain.
