(* ===== verification/Glob.v ===== *)
(** * Glob matching

    The two glob matchers of the program, both an iterative scan that
    remembers the last [*] and backtracks to it:
    - [retrace_filter_glob_match] of [src/core/filter_dsl.c], the matcher of
      the filter expressions: [*], [?], [[...]] classes, [\] escapes;
    - [glob_whole] of [src/core/redact.c], the matcher of the redaction
      patterns: [*] and literals.

    [Module Backtrack] holds what the two share, over an abstract reading of
    the pattern's next token: the language a pattern denotes ([gmatch]), that
    the loop terminates within its fuel, that it only accepts words of the
    language and that it accepts all of them. [Module FilterGlob] and [Module
    RedactGlob] are the two matchers, and their theorems. *)

From S2P Require Import Prelude.

Module Backtrack.

(** A token of a pattern: [*], or a test on one character. *)
Inductive tok :=
  | TStar
  | TOne (test : ascii → bool).

(** What one turn of the loop does with the pattern [p] and the character [c]
    under the text cursor: advance both, record a star, or mismatch. *)
Inductive verdict :=
  | Adv (p' : bytes)
  | NewStar (p' : bytes)
  | Miss.

Section Loop.
Variable classify : bytes → ascii → verdict.
Variable tail_stars : bytes → bool.

(** The loop: [p] and [t] are the cursors, [star] the pattern after the last
    star and the text cursor it was last tried at. A mismatch retries the last
    star one character further; without a star it fails. *)
Fixpoint star_loop (fuel : nat) (p t : bytes) (star : option (bytes * bytes))
  : option bool :=
  match t with
  | [] => Some (tail_stars p)
  | c :: t' =>
      match fuel with
      | O => None
      | S fuel =>
          match classify p c with
          | Adv p' => star_loop fuel p' t' star
          | NewStar p' => star_loop fuel p' t (Some (p', t))
          | Miss =>
              match star with
              | Some (sp, st) =>
                  star_loop fuel sp (tail st) (Some (sp, tail st))
              | None => Some false
              end
          end
      end
  end.

Definition loop_fuel (p t : bytes) : nat := (length t + 2) * (length p + 1).

(** *** Termination *)

Section Terminates.
Hypothesis adv_shrinks : ∀ p c p', classify p c = Adv p' → length p' < length p.
Hypothesis star_shrinks : ∀ p c p', classify p c = NewStar p' → length p' < length p.

(** The pattern and the text of the whole run bound the cursors; the text
    behind the last star is never shorter than the text cursor. *)
Definition bounded (P T : nat) (p t : bytes) (star : option (bytes * bytes)) : Prop :=
  length p ≤ P ∧
  match star with
  | Some (sp, st) => length sp ≤ P ∧ length t ≤ length st ∧ length st ≤ T
  | None => length t ≤ T
  end.

Definition measure (P T : nat) (p : bytes) (star : option (bytes * bytes)) : nat :=
  match star with
  | Some (_, st) => length st * (P + 1) + length p
  | None => (T + 1) * (P + 1) + length p
  end.

Lemma star_loop_total P T fuel p t star :
  bounded P T p t star → measure P T p star ≤ fuel →
  ∃ b, star_loop fuel p t star = Some b.
Proof.
  revert p t star. induction fuel as [|fuel IH]; intros p t star [Hp Hs] Hm.
  - destruct t as [|c t]; [by eexists|].
    destruct star as [[sp st]|]; simpl in *; lia.
  - destruct t as [|c t]; [by eexists|]. simpl.
    destruct (classify p c) as [p'|p'|] eqn:E.
    + apply adv_shrinks in E. apply IH.
      * split; [lia|]. destruct star as [[sp st]|]; simpl in *; lia.
      * destruct star as [[sp st]|]; simpl in *; lia.
    + apply star_shrinks in E. apply IH.
      * split; [lia|]. destruct star as [[sp st]|]; simpl in *; lia.
      * destruct star as [[sp st]|]; simpl in *; nia.
    + destruct star as [[sp st]|]; [|by eexists].
      destruct st as [|d st]; simpl in *; [lia|].
      apply IH; [|simpl; lia]. split; simpl; lia.
Qed.

Lemma star_loop_fuel p t : ∃ b, star_loop (loop_fuel p t) p t None = Some b.
Proof.
  apply (star_loop_total (length p) (length t)).
  - split; [lia|]. done.
  - unfold measure, loop_fuel. lia.
Qed.

End Terminates.

(** *** The language of a pattern *)

Section Language.
Variable next_tok : bytes → option (tok * bytes).

Inductive gmatch : bytes → bytes → Prop :=
  | gm_end p : next_tok p = None → gmatch p []
  | gm_one p f p' c t :
      next_tok p = Some (TOne f, p') → f c = true → gmatch p' t →
      gmatch p (c :: t)
  | gm_star p p' t : next_tok p = Some (TStar, p') → gmatch p' t → gmatch p t
  | gm_more p p' c t :
      next_tok p = Some (TStar, p') → gmatch p t → gmatch p (c :: t).

Lemma gmatch_one_inv p f p' t :
  next_tok p = Some (TOne f, p') → gmatch p t →
  ∃ c t', t = c :: t' ∧ f c = true ∧ gmatch p' t'.
Proof. intros E H; inversion H; simplify_eq; eauto. Qed.

Lemma gmatch_star_absorb p p' s t :
  next_tok p = Some (TStar, p') → s `suffix_of` t → gmatch p s → gmatch p t.
Proof. intros E [k ->] H. induction k; simpl; eauto using gm_more. Qed.

Lemma gmatch_star_inv p p' t :
  next_tok p = Some (TStar, p') → gmatch p t →
  ∃ s, s `suffix_of` t ∧ gmatch p' s.
Proof.
  intros E H. induction H; simplify_eq; [by eexists|].
  destruct IHgmatch as (s & [k ->] & Hs); [done|].
  exists s. split; [by exists (c :: k)|done].
Qed.

(** *** Soundness *)

Section Sound.
Hypothesis adv_tok : ∀ p c p', classify p c = Adv p' →
  (∃ f, next_tok p = Some (TOne f, p') ∧ f c = true) ∨
  next_tok p = Some (TStar, p').
Hypothesis star_tok : ∀ p c p', classify p c = NewStar p' →
  next_tok p = Some (TStar, p').
Hypothesis tail_ok : ∀ p, tail_stars p = true → gmatch p [].

Lemma star_loop_sound fuel p t star :
  star_loop fuel p t star = Some true →
  gmatch p t ∨
  match star with
  | Some (sp, st) => ∃ s, s `suffix_of` st ∧ gmatch sp s
  | None => False
  end.
Proof.
  revert p t star. induction fuel as [|fuel IH]; intros p [|c t] star; simpl; try done.
  1,2: intros [= H]; left; auto.
  destruct (classify p c) as [p'|p'|] eqn:E.
  - intros [H|H]%IH; [left|by right].
    apply adv_tok in E as [(f & E & Hf)|E]; eauto using gm_one, gm_more, gm_star.
  - apply star_tok in E. intros [H|(s & Hs & H)]%IH; left.
    + eauto using gm_star.
    + eapply gmatch_star_absorb; eauto using gm_star.
  - destruct star as [[sp st]|]; [|done].
    intros [H|(s & Hs & H)]%IH; right.
    + exists (tail st). split; [|done]. destruct st; [done|]. by exists [a].
    + exists s. split; [|done]. destruct st; [done|].
      simpl in Hs. by apply suffix_cons_r.
Qed.
End Sound.

(** *** Completeness *)

Section Complete.
(** The characters of the texts the statement is about. *)
Variable ok : ascii → Prop.

Hypothesis adv_one : ∀ p c p', ok c → classify p c = Adv p' →
  ∃ f, next_tok p = Some (TOne f, p') ∧ f c = true.
Hypothesis star_tok : ∀ p c p', classify p c = NewStar p' →
  next_tok p = Some (TStar, p').
Hypothesis miss_tok : ∀ p c, classify p c = Miss →
  next_tok p = None ∨ ∃ f p', next_tok p = Some (TOne f, p') ∧ f c = false.
Hypothesis tail_ok : ∀ p, gmatch p [] → tail_stars p = true.

(** [reach sp st p t]: from [sp] and [st], matching one-character tokens only,
    the cursors get to [p] and [t]. *)
Inductive reach (sp st : bytes) : bytes → bytes → Prop :=
  | reach_refl : reach sp st sp st
  | reach_one p f p' c t :
      reach sp st p (c :: t) → next_tok p = Some (TOne f, p') → f c = true →
      reach sp st p' t.

Lemma reach_suffix sp st p t : reach sp st p t → t `suffix_of` st.
Proof.
  induction 1 as [|p f p' c t _ [k ->] _ _]; [done|].
  exists (k ++ [c]). by rewrite <- app_assoc.
Qed.

(** A later match of [sp] passes through [p] too, further to the right. *)
Lemma reach_later sp st p t s :
  reach sp st p t → gmatch sp s → length s < length st →
  ∃ s', gmatch p s' ∧ s' `suffix_of` s ∧ length s' < length t.
Proof.
  intros Hr Hm Hl. induction Hr as [|p f p' c t Hr IH E _]; [by exists s|].
  destruct IH as (s1 & H1 & Hs1 & Hl1).
  destruct (gmatch_one_inv _ _ _ _ E H1) as (d & s2 & -> & _ & H2).
  exists s2. simpl in *. split_and!; [done| |lia].
  destruct Hs1 as [k ->]. exists (k ++ [d]). by rewrite <- app_assoc.
Qed.

Lemma suffix_shorter (a b l : bytes) :
  a `suffix_of` l → b `suffix_of` l → length a ≤ length b → a `suffix_of` b.
Proof.
  intros [k ->] [k' E] Hl.
  assert (length k' ≤ length k) as Hk.
  { apply (f_equal length) in E. rewrite !length_app in E. lia. }
  exists (drop (length k') k).
  apply (f_equal (drop (length k'))) in E.
  rewrite drop_app_length in E. rewrite <- E, drop_app_le by lia. done.
Qed.

Lemma miss_no_match p c t : classify p c = Miss → ¬ gmatch p (c :: t).
Proof.
  intros E H. apply miss_tok in E as [E|(f & p' & E & Hf)].
  - inversion H; simplify_eq.
  - destruct (gmatch_one_inv _ _ _ _ E H) as (d & t' & [= <- <-] & ? & _). congruence.
Qed.

Definition visited (p t : bytes) (star : option (bytes * bytes)) : Prop :=
  match star with Some (sp, st) => reach sp st p t | None => True end.

Definition no_later (star : option (bytes * bytes)) : Prop :=
  match star with
  | Some (sp, st) =>
      ∀ s, s `suffix_of` st → length s < length st → ¬ gmatch sp s
  | None => True
  end.

Lemma no_later_step p t sp st :
  reach sp st p t →
  (∀ s, s `suffix_of` t → length s < length t → ¬ gmatch p s) →
  no_later (Some (sp, st)).
Proof.
  intros Hr Hp s Hs Hl Hm.
  destruct (reach_later _ _ _ _ _ Hr Hm Hl) as (s' & Hm' & Hs' & Hl').
  apply (Hp s'); [|done..].
  apply (suffix_shorter _ _ st); [by etrans|by eapply reach_suffix|lia].
Qed.

Lemma star_loop_complete fuel p t star :
  Forall ok t → (match star with Some (_, st) => Forall ok st | None => True end) →
  visited p t star → star_loop fuel p t star = Some false →
  ¬ gmatch p t ∧ no_later star.
Proof.
  revert p t star. induction fuel as [|fuel IH]; intros p [|c t] star Ht Hst Hv; simpl; try done.
  1,2: intros [= E]; split; [intros H%tail_ok; congruence|];
    destruct star as [[sp st]|]; [|done];
    eapply no_later_step; [done|]; simpl; lia.
  apply Forall_cons_1 in Ht as [Hc Ht].
  destruct (classify p c) as [p'|p'|] eqn:E.
  - destruct (adv_one _ _ _ Hc E) as (f & En & Hf).
    intros [Hn Hl]%IH; [|done|done|].
    + split; [|done]. intros (d & t' & [= <- <-] & _ & H)%(gmatch_one_inv _ _ _ _ En). done.
    + destruct star as [[sp st]|]; [|done]. simpl in *. eauto using reach_one.
  - apply star_tok in E. intros [Hn Hl]%IH; [|auto..|constructor].
    assert (∀ s, s `suffix_of` (c :: t) → ¬ gmatch p s) as Hall.
    { intros s Hs (s' & Hs' & H)%(gmatch_star_inv _ _ _ E).
      assert (s' `suffix_of` c :: t) as Hs2 by by etrans.
      destruct (decide (length s' < length (c :: t))); [by apply (Hl s')|].
      assert (s' = c :: t) as ->; [|done].
      apply (suffix_length_eq _ _ Hs2). lia. }
    split; [by apply Hall|].
    destruct star as [[sp st]|]; [|done]. eapply no_later_step; [done|]. auto.
  - destruct star as [[sp st]|]; simpl.
    + intros [Hn Hl]%IH; [|by destruct Hst; simpl|by destruct Hst; simpl|constructor].
      split; [by apply miss_no_match|].
      intros s Hs Hls. destruct st as [|d st]; [simpl in *; lia|]. simpl in *.
      assert (s `suffix_of` st) as Hs'.
      { destruct Hs as [[|e k] Hs]; simplify_eq/=; [lia|by exists k]. }
      destruct (decide (length s < length st)); [by apply Hl|].
      assert (s = st) as ->; [|done]. apply suffix_length_eq; [done|lia].
    + intros _. split; [by apply miss_no_match|done].
Qed.
End Complete.

End Language.
End Loop.
End Backtrack.

(** ** [retrace_filter_glob_match] (src/core/filter_dsl.c) *)

Module FilterGlob.
Import Backtrack.

Section Glob.
Variable char_signed : bool.
Local Abbreviation cv := (char_val char_signed).

(** The scan of a class from [q], after the negation mark and a leading [']']:
    whether [c] was seen, and where the scan stopped. *)
Fixpoint class_loop (q : bytes) (c : ascii) (matched : bool) : bool * bytes :=
  match q with
  | [] => (matched, [])
  | x :: q1 =>
      if ceq x "]" then (matched, q)
      else
        match q1 with
        | d :: hi :: q3 =>
            if ceq d "-" && negb (ceq hi "]") then
              class_loop q3 c
                (matched || ((cv x <=? cv c)%Z && (cv c <=? cv hi)%Z))
            else class_loop q1 c (matched || ceq c x)
        | _ => class_loop q1 c (matched || ceq c x)
        end
  end.

(** The ['['] branch; [p1] is the pattern after the bracket. *)
Definition classify_class (p1 : bytes) (c : ascii) : verdict :=
  let '(negate, q) :=
    match p1 with
    | x :: q => if ceq x "!" || ceq x "^" then (true, q) else (false, p1)
    | [] => (false, p1)
    end in
  let '(matched, q) :=
    match q with
    | x :: q' => if ceq x "]" then (ceq c "]", q') else (false, q)
    | [] => (false, q)
    end in
  match class_loop q c matched with
  | (_, []) => if ceq c "[" then Adv p1 else Miss
  | (matched, _ :: q') => if negb (eqb matched negate) then Adv q' else Miss
  end.

(** The branches of the loop body, in the order of the code. *)
Definition classify (p : bytes) (c : ascii) : verdict :=
  match p with
  | [] => Miss
  | x :: p1 =>
      if ceq x "?" then Adv p1
      else
        match ceq x "\", p1 with
        | true, y :: p2 => if ceq c y then Adv p2 else Miss
        | _, _ =>
            if ceq x "[" then classify_class p1 c
            else if ceq x c then Adv p1
            else if ceq x "*" then NewStar p1
            else Miss
        end
  end.

(** [while ( *p == '*') p++; return *p == '\0';] *)
Fixpoint tail_stars (p : bytes) : bool :=
  match p with
  | [] => true
  | x :: p => ceq x "*" && tail_stars p
  end.

Definition retrace_filter_glob_match (pattern text : option bytes) : bool :=
  match pattern, text with
  | Some p, Some t =>
      default false (star_loop classify tail_stars (loop_fuel p t) p t None)
  | _, _ => false
  end.

(** *** The documented pattern language *)

Inductive citem := CChar (c : ascii) | CRange (lo hi : ascii).

Definition citem_has (c : ascii) (i : citem) : bool :=
  match i with
  | CChar x => ceq c x
  | CRange lo hi => (cv lo <=? cv c)%Z && (cv c <=? cv hi)%Z
  end.

(** The items of a class up to its closing bracket, and what follows them. *)
Fixpoint class_items (q : bytes) : list citem * bytes :=
  match q with
  | [] => ([], [])
  | x :: q1 =>
      if ceq x "]" then ([], q)
      else
        match q1 with
        | d :: hi :: q3 =>
            if ceq d "-" && negb (ceq hi "]") then
              let '(l, r) := class_items q3 in (CRange x hi :: l, r)
            else let '(l, r) := class_items q1 in (CChar x :: l, r)
        | _ => let '(l, r) := class_items q1 in (CChar x :: l, r)
        end
  end.

Definition strip_negation (p1 : bytes) : bool * bytes :=
  match p1 with
  | x :: q => if ceq x "!" || ceq x "^" then (true, q) else (false, p1)
  | [] => (false, [])
  end.

(** A class: its negation, its items, the pattern after it. [None] when it is
    not closed. *)
Definition class_of (p1 : bytes) : option (bool * list citem * bytes) :=
  let '(negate, q) := strip_negation p1 in
  let '(items, r) :=
    match q with
    | x :: q' =>
        if ceq x "]" then let '(l, r) := class_items q' in (CChar x :: l, r)
        else class_items q
    | [] => ([], [])
    end in
  match r with
  | [] => None
  | _ :: r' => Some (negate, items, r')
  end.

Definition next_tok (p : bytes) : option (tok * bytes) :=
  match p with
  | [] => None
  | x :: p1 =>
      if ceq x "?" then Some (TOne (λ _, true), p1)
      else
        match ceq x "\", p1 with
        | true, y :: p2 => Some (TOne (λ c, ceq c y), p2)
        | _, _ =>
            if ceq x "[" then
              match class_of p1 with
              | Some (negate, items, r) =>
                  Some (TOne (λ c, xorb negate (existsb (citem_has c) items)), r)
              | None => Some (TOne (λ c, ceq c x), p1)
              end
            else if ceq x "*" then Some (TStar, p1)
            else Some (TOne (λ c, ceq c x), p1)
        end
  end.

(** *** The code's scan against the language *)

Lemma class_loop_items q c m :
  class_loop q c m =
  (m || existsb (citem_has c) (class_items q).1, (class_items q).2).
Proof.
  revert m. induction q as [q IH] using (induction_ltof1 _ (@length ascii)).
  unfold ltof in IH. intros m.
  destruct q as [|x q1]; simpl; [by rewrite orb_false_r|].
  case_if; simpl; [by rewrite orb_false_r|].
  assert (∀ m, class_loop q1 c m =
    (m || existsb (citem_has c) (class_items q1).1, (class_items q1).2)) as IH1
    by (intros; apply IH; simpl; lia).
  destruct q1 as [|d [|hi q3]].
  - rewrite IH1. simpl. by destruct m, (ceq c x).
  - rewrite IH1. destruct (class_items [d]) as [l r]. simpl. by rewrite orb_assoc.
  - case_if.
    + rewrite IH by (simpl; lia). destruct (class_items q3) as [l r]. simpl. by rewrite orb_assoc.
    + rewrite IH1. destruct (class_items (d :: hi :: q3)) as [l r]. simpl. by rewrite orb_assoc.
Qed.

Lemma class_items_length q : length (class_items q).2 ≤ length q.
Proof.
  induction q as [q IH] using (induction_ltof1 _ (@length ascii)).
  unfold ltof in IH. destruct q as [|x q1]; simpl; [lia|].
  case_if; simpl; [lia|].
  assert (length (class_items q1).2 ≤ length q1) by (apply IH; simpl; lia).
  destruct q1 as [|d [|hi q3]]; [simpl; lia|..].
  - destruct (class_items [d]); simpl in *; lia.
  - case_if.
    + assert (length (class_items q3).2 ≤ length q3) by (apply IH; simpl; lia).
      destruct (class_items q3); simpl in *; lia.
    + destruct (class_items (d :: hi :: q3)); simpl in *; lia.
Qed.

(** The class branch decides the class token. *)
Lemma classify_class_spec p1 c :
  classify_class p1 c =
  match class_of p1 with
  | Some (negate, items, r) =>
      if xorb negate (existsb (citem_has c) items) then Adv r else Miss
  | None => if ceq c "[" then Adv p1 else Miss
  end.
Proof.
  unfold classify_class, class_of.
  assert (strip_negation p1 = match p1 with
    | x :: q => if ceq x "!" || ceq x "^" then (true, q) else (false, p1)
    | [] => (false, p1) end) as <- by by destruct p1.
  destruct (strip_negation p1) as [negate q].
  assert (∀ m i : bool, (if negb (eqb m negate) then i else false) =
    (if xorb negate m then i else false)) as Hx by by intros [] []; destruct negate.
  destruct q as [|x q']; [done|].
  assert (∀ (m : bool) (r : bytes), (if negb (eqb m negate) then Adv r else Miss) =
    (if xorb negate m then Adv r else Miss)) as Hn by by intros []; destruct negate.
  case_if; rewrite class_loop_items.
  - subst x. destruct (class_items q') as [l [|y r]]; [done|]. simpl. apply Hn.
  - destruct (class_items (x :: q')) as [l [|y r]]; [done|]. simpl. apply Hn.
Qed.

Lemma class_of_length p1 negate items r :
  class_of p1 = Some (negate, items, r) → length r < length p1.
Proof.
  unfold class_of.
  assert (length (strip_negation p1).2 ≤ length p1) as Hs.
  { destruct p1 as [|x q]; simpl; [lia|]. case_if; simpl; lia. }
  destruct (strip_negation p1) as [n q]. simpl in Hs.
  destruct q as [|x q']; [done|].
  pose proof (class_items_length q') as H1. pose proof (class_items_length (x :: q')) as H2.
  case_if.
  - destruct (class_items q') as [l [|y r']]; [done|]. intros [= <- <- <-]. simpl in *. lia.
  - destruct (class_items (x :: q')) as [l [|y r']]; [done|]. intros [= <- <- <-]. simpl in *. lia.
Qed.

(** One turn of the loop, by the token the pattern starts with. The literal
    test comes before the star test: a star under the pattern cursor consumes
    a star of the text as a literal. *)
Lemma classify_spec p c :
  classify p c =
  match next_tok p with
  | None => Miss
  | Some (TOne f, p') => if f c then Adv p' else Miss
  | Some (TStar, p') => if ceq c "*" then Adv p' else NewStar p'
  end.
Proof.
  destruct p as [|x p1]; [done|]. unfold classify, next_tok.
  destruct (ceq x "?") eqn:Eq; [done|].
  assert (∀ k, (if ceq x "[" then classify_class p1 c else k) =
    match (if ceq x "[" then
              match class_of p1 with
              | Some (negate, items, r) =>
                  Some (TOne (λ c, xorb negate (existsb (citem_has c) items)), r)
              | None => Some (TOne (λ c, ceq c x), p1)
              end else None) with
    | None => k
    | Some (TOne f, p') => if f c then Adv p' else Miss
    | Some (TStar, p') => Miss
    end) as Hc.
  { intros k. case_if; [|done]. subst. rewrite classify_class_spec.
    by destruct (class_of p1) as [[[n i] r]|]. }
  assert ((if ceq x c then Adv p1 else if ceq x "*" then NewStar p1 else Miss) =
    match (if ceq x "*" then Some (TStar, p1) else Some (TOne (λ c, ceq c x), p1)) with
    | None => Miss
    | Some (TOne f, p') => if f c then Adv p' else Miss
    | Some (TStar, p') => if ceq c "*" then Adv p' else NewStar p'
    end) as Hl.
  { unfold ceq. repeat case_bool_decide; subst; done. }
  destruct (ceq x "\"); [destruct p1 as [|y p2]; [|done]|];
    rewrite Hc, Hl; case_if; try done; destruct (class_of _) as [[[? ?] ?]|]; done.
Qed.

Lemma next_tok_length p k p' : next_tok p = Some (k, p') → length p' < length p.
Proof.
  destruct p as [|x p1]; [done|]. unfold next_tok.
  destruct (ceq x "?"); [intros [= _ <-]; simpl; lia|].
  destruct (ceq x "\"), p1 as [|y p2]; try (intros [= _ <-]; simpl; lia);
    (case_if; [|case_if; intros [= _ <-]; simpl; lia]);
    destruct (class_of _) as [[[? ?] ?]|] eqn:E; intros [= _ <-];
    try apply class_of_length in E; simpl in *; lia.
Qed.

Lemma next_tok_star x p p' :
  next_tok (x :: p) = Some (TStar, p') → x = "*"%char ∧ p' = p.
Proof. unfold next_tok. intros. repeat case_match; simplify_eq; bool_to_prop; done. Qed.

Lemma tail_stars_spec p : tail_stars p = true ↔ gmatch next_tok p [].
Proof.
  induction p as [|x p IH]; simpl.
  - split; [|done]. by constructor.
  - rewrite andb_true_iff, IH, ceq_true. split.
    + intros [-> H]. by eapply gm_star.
    + intros H. inversion H as [? E| |? p' ? E H'|]; simplify_eq.
      * unfold next_tok in E. repeat case_match; simplify_eq.
      * by apply next_tok_star in E as [-> ->].
Qed.

(** Case analysis on the token a pattern starts with. *)
Local Ltac tok_cases q :=
  rewrite classify_spec; destruct (next_tok q) as [[[|?] ?]|] eqn:?;
  repeat case_if; intros; simplify_eq; eauto.

Lemma glob_loop_total p t :
  ∃ b, star_loop classify tail_stars (loop_fuel p t) p t None = Some b.
Proof.
  apply star_loop_fuel; intros q c q'; tok_cases q; by eapply next_tok_length.
Qed.

Lemma glob_loop_sound fuel p t :
  star_loop classify tail_stars fuel p t None = Some true → gmatch next_tok p t.
Proof.
  intros [H|H]%(star_loop_sound _ _ next_tok); [done|done|..].
  - intros q c q'; tok_cases q.
  - intros q c q'; tok_cases q.
  - intros q. apply tail_stars_spec.
Qed.

Lemma glob_loop_complete fuel p t :
  "*"%char ∉ t →
  star_loop classify tail_stars fuel p t None = Some false → ¬ gmatch next_tok p t.
Proof.
  intros Ht.
  intros [Hn _]%(star_loop_complete _ _ next_tok (λ c, c ≠ "*"%char)); [done|..|done|done].
  - intros q c q' Hc; tok_cases q; done.
  - intros q c q'; tok_cases q.
  - intros q c; tok_cases q; right; eauto.
  - intros q. apply tail_stars_spec.
  - apply Forall_forall. intros c Hc ->. done.
Qed.

(** *** Properties *)

(** The glob loop returns for every pattern and text: the
    fuel, which bounds the turns by the product of the two lengths, is never
    exhausted, so the [false] of an exhausted run is never an answer. *)
Theorem glob_terminates p t :
  ∃ b, star_loop classify tail_stars (loop_fuel p t) p t None = Some b ∧
       retrace_filter_glob_match (Some p) (Some t) = b.
Proof.
  destruct (glob_loop_total p t) as [b E]. exists b.
  unfold retrace_filter_glob_match. by rewrite E.
Qed.

(** A text the matcher accepts is in the language of the pattern,
    as the header documents it: [*], [?], classes with negation and ranges,
    escapes. *)
Theorem glob_sound p t :
  retrace_filter_glob_match (Some p) (Some t) = true → gmatch next_tok p t.
Proof.
  unfold retrace_filter_glob_match. destruct (glob_loop_total p t) as [b E].
  rewrite E. simpl. intros ->. by eapply glob_loop_sound.
Qed.

(** On every text without a literal star the matcher decides
    the language of the pattern: the last-star backtracking misses nothing. *)
Theorem glob_correct p t :
  "*"%char ∉ t →
  retrace_filter_glob_match (Some p) (Some t) = true ↔ gmatch next_tok p t.
Proof.
  intros Ht. unfold retrace_filter_glob_match.
  destruct (glob_loop_total p t) as [[] E]; rewrite E; simpl.
  - split; [|done]. intros _. by eapply glob_loop_sound.
  - split; [done|]. by intros Hm%(glob_loop_complete _ _ _ Ht E).
Qed.

End Glob.

Lemma glob_sound_witness : gmatch (next_tok true) (lit "a[!x-z]*\*") (lit "abcd*").
Proof. apply (glob_sound true). vm_compute. reflexivity. Defined.

Lemma glob_correct_witness :
  gmatch (next_tok true) (lit "lib*.so.[0-9]") (lit "libfoo.so.6").
Proof.
  apply (glob_correct true); [|vm_compute; reflexivity].
  apply (bool_decide_eq_true_1 _). vm_compute. reflexivity.
Defined.

(** A text that contains a star can be missed: the pattern [*],
    which denotes every text, rejects the text ["*a"], because the code tests
    the literal match before the star. *)
Theorem glob_star_text_missed :
  retrace_filter_glob_match true (Some (lit "*")) (Some (lit "*a")) = false ∧
  gmatch (next_tok true) (lit "*") (lit "*a").
Proof.
  split; [vm_compute; reflexivity|].
  eapply gm_more; [reflexivity|]. eapply gm_more; [reflexivity|].
  eapply gm_star; [reflexivity|]. by apply gm_end.
Qed.

End FilterGlob.

(** ** [glob_whole] (src/core/redact.c) *)

Module RedactGlob.
Import Backtrack.

(** The star test comes first here. *)
Definition rg_classify (p : bytes) (c : ascii) : verdict :=
  match p with
  | [] => Miss
  | x :: p1 =>
      if ceq x "*" then NewStar p1
      else if ceq x c then Adv p1
      else Miss
  end.

Fixpoint rg_tail_stars (p : bytes) : bool :=
  match p with
  | [] => true
  | x :: p => ceq x "*" && rg_tail_stars p
  end.

Definition glob_whole (tok pat : bytes) : bool :=
  default false (star_loop rg_classify rg_tail_stars (loop_fuel pat tok) pat tok None).

(** The documented pattern language: ['*'] is any run, everything else is
    literal. *)
Definition rg_next_tok (p : bytes) : option (Backtrack.tok * bytes) :=
  match p with
  | [] => None
  | x :: p1 =>
      if ceq x "*" then Some (TStar, p1) else Some (TOne (λ c, ceq x c), p1)
  end.

Lemma rg_classify_spec p c :
  rg_classify p c =
  match rg_next_tok p with
  | None => Miss
  | Some (TOne f, p') => if f c then Adv p' else Miss
  | Some (TStar, p') => NewStar p'
  end.
Proof. destruct p as [|x p]; [done|]. simpl. by destruct (ceq x "*"). Qed.

Lemma rg_tail_stars_spec p : rg_tail_stars p = true ↔ gmatch rg_next_tok p [].
Proof.
  induction p as [|x p IH]; simpl.
  - split; [|done]. by constructor.
  - rewrite andb_true_iff, IH, ceq_true. split.
    + intros [-> H]. by eapply gm_star.
    + intros H. inversion H as [? E| |? p' ? E H'|]; simplify_eq/=; case_match;
        simplify_eq; by bool_to_prop.
Qed.

Local Ltac tok_cases q :=
  rewrite rg_classify_spec; destruct (rg_next_tok q) as [[[|?] ?]|] eqn:?;
  repeat case_if; intros; simplify_eq; eauto.

Lemma rg_next_tok_length p k p' : rg_next_tok p = Some (k, p') → length p' < length p.
Proof. destruct p; simpl; [done|]. case_match; intros; simplify_eq; lia. Qed.

(** The redaction glob decides its language on every token. *)
Lemma glob_whole_spec tok pat : glob_whole tok pat = true ↔ gmatch rg_next_tok pat tok.
Proof.
  unfold glob_whole.
  destruct (star_loop_fuel rg_classify rg_tail_stars) with (p := pat) (t := tok) as [b E].
  { intros q c q'; tok_cases q; by eapply rg_next_tok_length. }
  { intros q c q'; tok_cases q; by eapply rg_next_tok_length. }
  rewrite E. simpl. split.
  - intros ->. apply (star_loop_sound _ _ rg_next_tok) in E as [H|H]; [done|done|..].
    + intros q c q'; tok_cases q.
    + intros q c q'; tok_cases q.
    + intros q. apply rg_tail_stars_spec.
  - intros Hm. destruct b; [done|]. exfalso.
    apply (star_loop_complete _ _ rg_next_tok (λ _, True)) in E as [Hn _]; [done|..|done|done].
    + intros q c q' _; tok_cases q.
    + intros q c q'; tok_cases q.
    + intros q c; tok_cases q; right; eauto.
    + intros q. apply rg_tail_stars_spec.
    + by apply Forall_true.
Qed.

End RedactGlob.
