(* ===== verification/Redact.v ===== *)
(** * Evidence redaction

    [src/core/redact.c]: the compiled pattern table and the in-place rewriting
    of an evidence buffer. The table is the list of the patterns the two
    setters keep; the buffer is the string before its terminator, rewritten
    token by token from the cursor on. The pattern matcher is
    [Glob.RedactGlob.glob_whole]. *)

From S2P Require Import Prelude Glob.

Module Redact.
Import RedactGlob.

Definition REDACT_PATTERNS_MAX : nat := 32.
Definition REDACT_PATTERN_LEN : nat := 128.
Definition REDACT_REPLACEMENTS_MAX : nat := 64.

Definition in_range (lo hi c : ascii) : bool :=
  (uchar lo <=? uchar c)%Z && (uchar c <=? uchar hi)%Z.

Definition is_token_char (c : ascii) : bool :=
  in_range "a" "z" c || in_range "A" "Z" c || in_range "0" "9" c ||
  ceq c "_" || ceq c "=" || ceq c "." || ceq c ":" || ceq c "+" ||
  ceq c "@" || ceq c "%" || ceq c "~" || ceq c "-".

(** ** The pattern table *)

(** Whether a pattern fits a slot of the table. *)
Definition fits (p : bytes) : bool :=
  negb (length p =? 0) && (length p <? REDACT_PATTERN_LEN).

Fixpoint set_loop (patterns : list (option bytes)) (table : list bytes) : list bytes :=
  match patterns with
  | [] => table
  | p :: rest =>
      if length table <? REDACT_PATTERNS_MAX then
        match p with
        | Some p => set_loop rest (if fits p then table ++ [p] else table)
        | None => set_loop rest table
        end
      else table
  end.

Definition retrace_redact_set (patterns : option (list (option bytes))) : list bytes :=
  match patterns with
  | None => []
  | Some ps => set_loop ps []
  end.

(** The run up to the next comma, and the text after that comma. *)
Fixpoint upto_comma (p : bytes) : bytes * bytes :=
  match p with
  | [] => ([], [])
  | c :: p' =>
      if ceq c "," then ([], p')
      else let '(w, r) := upto_comma p' in (c :: w, r)
  end.

Fixpoint set_csv_loop (fuel : nat) (p : bytes) (table : list bytes) : list bytes :=
  match fuel, p with
  | O, _ | _, [] => table
  | S fuel, _ =>
      if length table <? REDACT_PATTERNS_MAX then
        let '(w, r) := upto_comma p in
        set_csv_loop fuel r (if fits w then table ++ [w] else table)
      else table
  end.

Definition retrace_redact_set_csv (csv : option bytes) : list bytes :=
  match csv with
  | None => []
  | Some p => set_csv_loop (length p) p []
  end.

Definition retrace_redact_active (table : list bytes) : bool := 0 <? length table.

(** ** The rewriting *)

(** [while (is_token_char( *cur)) cur++]: the token and what follows it. *)
Fixpoint span_token (s : bytes) : bytes * bytes :=
  match s with
  | [] => ([], [])
  | c :: s' =>
      if is_token_char c then let '(t, r) := span_token s' in (c :: t, r)
      else ([], s)
  end.

Definition hit (table : list bytes) (tok : bytes) : bool :=
  existsb (λ pat, glob_whole tok pat) table.

(** At most three stars, never more than the token has characters. *)
Definition stars (tok : bytes) : bytes :=
  replicate (if length tok <? 3 then length tok else 3) "*"%char.

(** The loop from the cursor [cur] with [budget] replacements left. Each turn
    consumes a character, so the length of the buffer is enough fuel. *)
Fixpoint apply_loop (table : list bytes) (fuel budget : nat) (cur : bytes) : bytes :=
  match fuel, budget, cur with
  | O, _, _ | _, O, _ | _, _, [] => cur
  | S fuel, S budget', c :: rest =>
      if negb (is_token_char c) then c :: apply_loop table fuel budget rest
      else
        let '(tok, after) := span_token cur in
        if hit table tok then stars tok ++ apply_loop table fuel budget' after
        else tok ++ apply_loop table fuel budget after
  end.

Definition retrace_redact_apply (table : list bytes) (buf : option bytes) : option bytes :=
  match buf with
  | None => None
  | Some b =>
      if length table =? 0 then Some b
      else Some (apply_loop table (length b) REDACT_REPLACEMENTS_MAX b)
  end.

(** ** What a reader of the buffer sees: its maximal tokens *)

Fixpoint tokens_from (acc s : bytes) : list bytes :=
  match s with
  | [] => if length acc =? 0 then [] else [acc]
  | c :: s' =>
      if is_token_char c then tokens_from (acc ++ [c]) s'
      else (if length acc =? 0 then [] else [acc]) ++ tokens_from [] s'
  end.

Definition tokens (s : bytes) : list bytes := tokens_from [] s.

Definition hits (table : list bytes) (s : bytes) : list bytes :=
  filter (λ t, hit table t = true) (tokens s).

(** ** Lemmas *)

Lemma set_loop_bounds ps table :
  length table ≤ REDACT_PATTERNS_MAX → Forall (λ p, fits p = true) table →
  length (set_loop ps table) ≤ REDACT_PATTERNS_MAX ∧
  Forall (λ p, fits p = true) (set_loop ps table).
Proof.
  revert table. induction ps as [|p ps IH]; intros table Hl Hf; simpl; [done|].
  case_if; [|done]. apply Nat.ltb_lt in Heqb.
  destruct p as [p|]; [|by apply IH]. case_if; apply IH; try done.
  - rewrite length_app. simpl. lia.
  - apply Forall_app; auto.
Qed.

Lemma set_csv_loop_bounds fuel p table :
  length table ≤ REDACT_PATTERNS_MAX → Forall (λ p, fits p = true) table →
  length (set_csv_loop fuel p table) ≤ REDACT_PATTERNS_MAX ∧
  Forall (λ p, fits p = true) (set_csv_loop fuel p table).
Proof.
  revert p table. induction fuel as [|fuel IH]; intros p table Hl Hf; [done|].
  destruct p as [|c p]; [done|]. cbn [set_csv_loop]. case_if; [|done].
  apply Nat.ltb_lt in Heqb. destruct (upto_comma (c :: p)) as [w r].
  case_if; apply IH; try done.
  - rewrite length_app. simpl. lia.
  - apply Forall_app; auto.
Qed.

Lemma upto_comma_length c p : length (upto_comma (c :: p)).2 ≤ length p.
Proof.
  assert (∀ q, length (upto_comma q).2 ≤ length q) as Hle.
  { induction q as [|d q IH]; simpl; [done|]. case_if; simpl; [lia|].
    destruct (upto_comma q); simpl in *; lia. }
  simpl. case_if; [done|]. specialize (Hle p). by destruct (upto_comma p).
Qed.

(** The fuel of the comma loop does not matter once it covers the text. *)
Lemma set_csv_loop_fuel fuel p table :
  length p ≤ fuel → set_csv_loop fuel p table = set_csv_loop (length p) p table.
Proof.
  remember (length p) as n eqn:En. assert (length p ≤ n) as Hn by lia. clear En.
  revert fuel p table Hn. induction n as [|n IH]; intros fuel p table Hn Hf.
  { destruct p; [by destruct fuel|simpl in Hn; lia]. }
  destruct fuel as [|fuel]; [lia|]. destruct p as [|c p]; [done|].
  cbn [set_csv_loop]. case_if; [|done].
  pose proof (upto_comma_length c p). destruct (upto_comma (c :: p)) as [w r].
  simpl in *. apply IH; lia.
Qed.

(** The comma-separated form compiles the table of the list of its fields. *)
Fixpoint split_commas (fuel : nat) (p : bytes) : list bytes :=
  match fuel, p with
  | O, _ | _, [] => []
  | S fuel, _ => let '(w, r) := upto_comma p in w :: split_commas fuel r
  end.

Lemma set_csv_loop_split fuel p table :
  set_csv_loop fuel p table = set_loop (Some <$> split_commas fuel p) table.
Proof.
  revert p table. induction fuel as [|fuel IH]; intros p table; [done|].
  destruct p as [|c p]; [done|]. cbn [set_csv_loop split_commas].
  destruct (upto_comma (c :: p)) as [w r] eqn:E. simpl. by case_if.
Qed.

Lemma span_token_app s t r :
  span_token s = (t, r) → s = t ++ r ∧ Forall (λ c, is_token_char c = true) t ∧
  match r with [] => True | c :: _ => is_token_char c = false end.
Proof.
  revert t r. induction s as [|c s IH]; intros t r; simpl; [by intros [= <- <-]|].
  case_if; [|by intros [= <- <-]].
  destruct (span_token s) as [t' r'] eqn:E. intros [= <- <-].
  destruct (IH _ _ eq_refl) as (-> & ? & ?). auto.
Qed.

Lemma span_token_cons c s t r :
  is_token_char c = true → span_token (c :: s) = (t, r) → length r ≤ length s ∧ t ≠ [].
Proof.
  intros Hc. simpl. rewrite Hc. destruct (span_token s) as [t' r'] eqn:E.
  intros [= <- <-]. apply span_token_app in E as (-> & _). rewrite length_app. split; [lia|done].
Qed.

Lemma tokens_from_tok acc t r :
  Forall (λ c, is_token_char c = true) t →
  tokens_from acc (t ++ r) = tokens_from (acc ++ t) r.
Proof.
  revert acc. induction t as [|c t IH]; intros acc Ht; simpl; [by rewrite app_nil_r|].
  apply Forall_cons_1 in Ht as [Hc Ht]. rewrite Hc, IH by done. by rewrite <- app_assoc.
Qed.

(** After a token, the tokens are that token and those of the rest. *)
Lemma tokens_span t r :
  Forall (λ c, is_token_char c = true) t → t ≠ [] →
  match r with [] => True | c :: _ => is_token_char c = false end →
  tokens (t ++ r) = t :: tokens r.
Proof.
  intros Ht Hne Hr. unfold tokens. rewrite tokens_from_tok by done. simpl.
  assert ((length t =? 0) = false) as Hl by (destruct t; done).
  destruct r as [|c r]; simpl; [by rewrite Hl|]. by rewrite Hr, Hl.
Qed.

Lemma tokens_sep c r : is_token_char c = false → tokens (c :: r) = tokens r.
Proof. intros H. unfold tokens. simpl. by rewrite H. Qed.

Lemma tokens_stars n r : tokens (replicate n "*"%char ++ r) = tokens r.
Proof. induction n; [done|]. simpl. by rewrite tokens_sep. Qed.

(** Induction along the loop: what is written from the cursor on starts like
    what was there, as far as token boundaries go. *)
Lemma apply_loop_head table fuel budget cur :
  match apply_loop table fuel budget cur with
  | [] => True | c :: _ => is_token_char c = false end ∨
  match cur with [] => False | c :: _ => is_token_char c = true end.
Proof.
  destruct cur as [|c cur]; [left; by destruct fuel, budget|].
  destruct (is_token_char c) eqn:Ec; [by right|left].
  destruct fuel, budget; simpl; rewrite ?Ec; simpl; try done.
Qed.

(** The tokens that stay readable: all of them but the first [budget] hits. *)
Fixpoint drop_hits (table : list bytes) (budget : nat) (toks : list bytes) : list bytes :=
  match toks, budget with
  | [], _ => []
  | t :: ts, O => t :: ts
  | t :: ts, S b =>
      if hit table t then drop_hits table b ts else t :: drop_hits table budget ts
  end.

Lemma tokens_apply_loop table fuel budget cur :
  length cur ≤ fuel →
  tokens (apply_loop table fuel budget cur) = drop_hits table budget (tokens cur).
Proof.
  revert budget cur. induction fuel as [|fuel IH]; intros budget cur Hl.
  { destruct cur; [by destruct budget|simpl in Hl; lia]. }
  destruct budget as [|b]; [simpl; by destruct (tokens cur)|].
  destruct cur as [|c rest]; [done|]. cbn [apply_loop].
  destruct (is_token_char c) eqn:Ec; cbn [negb].
  - destruct (span_token (c :: rest)) as [tok after] eqn:Es.
    pose proof (span_token_cons _ _ _ _ Ec Es) as [Hla Hne].
    apply span_token_app in Es as (-> & Ht & Hr). simpl in Hl.
    rewrite (tokens_span tok after) by done. cbn [drop_hits].
    destruct (hit table tok) eqn:Eh.
    + unfold stars. rewrite tokens_stars. apply IH. lia.
    + rewrite tokens_span; [|done..|].
      * f_equal. apply IH. lia.
      * destruct (apply_loop_head table fuel (S b) after) as [?|H]; [done|].
        destruct after; [done|]. congruence.
  - rewrite !tokens_sep by done. apply IH. simpl in Hl. lia.
Qed.

Lemma drop_hits_all table budget toks :
  length (filter (λ t, hit table t = true) toks) ≤ budget →
  drop_hits table budget toks = filter (λ t, hit table t = false) toks.
Proof.
  revert budget. induction toks as [|t ts IH]; intros budget; [done|].
  rewrite !filter_cons. destruct (hit table t) eqn:E; simpl; intros Hl; rewrite ?E.
  - destruct budget; [lia|]. apply IH. lia.
  - destruct budget as [|b].
    + simpl in *. f_equal. rewrite <- (IH 0) by done. by destruct ts.
    + f_equal. by apply IH.
Qed.

Lemma apply_loop_length table fuel budget cur :
  length (apply_loop table fuel budget cur) ≤ length cur.
Proof.
  revert budget cur. induction fuel as [|fuel IH]; intros budget cur; [done|].
  destruct budget as [|b]; [done|]. destruct cur as [|c rest]; [done|].
  cbn [apply_loop]. case_if; [simpl; by apply le_n_S|].
  destruct (span_token (c :: rest)) as [tok after] eqn:Es.
  apply span_token_app in Es as (E & _). rewrite E, length_app. case_if.
  - unfold stars. rewrite length_app, length_replicate. specialize (IH b after).
    case_if; [lia|]. apply Nat.ltb_ge in Heqb2. lia.
  - rewrite length_app. specialize (IH (S b) after). lia.
Qed.

Lemma apply_loop_no_hits table fuel budget cur :
  length cur ≤ fuel → Forall (λ t, hit table t = false) (tokens cur) →
  apply_loop table fuel budget cur = cur.
Proof.
  revert budget cur. induction fuel as [|fuel IH]; intros budget cur Hl; [done|].
  destruct budget as [|b]; [done|]. destruct cur as [|c rest]; [done|].
  cbn [apply_loop]. simpl in Hl. destruct (is_token_char c) eqn:Ec; cbn [negb].
  - destruct (span_token (c :: rest)) as [tok after] eqn:Es.
    pose proof (span_token_cons _ _ _ _ Ec Es) as [Hla Hne].
    apply span_token_app in Es as (-> & Ht & Hr).
    rewrite tokens_span by done. intros [Hh Hf]%Forall_cons_1.
    rewrite Hh. f_equal. apply IH; [lia|done].
  - rewrite tokens_sep by done. intros Hf. f_equal. apply IH; [lia|done].
Qed.

Lemma hit_spec table t :
  hit table t = true ↔ ∃ pat, pat ∈ table ∧ Backtrack.gmatch rg_next_tok pat t.
Proof.
  unfold hit. rewrite existsb_exists. setoid_rewrite glob_whole_spec.
  by setoid_rewrite list_elem_of_In.
Qed.

(** ** Properties *)

(** C37 (safety). With patterns compiled and at most 64 matching tokens in the
    buffer, the rewritten buffer has no token that matches a pattern, and its
    tokens are the tokens that never matched, in order. *)
Theorem redact_no_leak table buf out :
  retrace_redact_active table = true →
  length (hits table buf) ≤ REDACT_REPLACEMENTS_MAX →
  retrace_redact_apply table (Some buf) = Some out →
  (∀ tok pat, tok ∈ tokens out → pat ∈ table → ¬ Backtrack.gmatch rg_next_tok pat tok) ∧
  tokens out = filter (λ t, hit table t = false) (tokens buf).
Proof.
  intros Ha Hh Ho.
  assert (tokens out = filter (λ t, hit table t = false) (tokens buf)) as Ht.
  { unfold retrace_redact_apply in Ho. destruct table as [|p0 table]; [done|].
    simpl length in Ho. cbn [Nat.eqb] in Ho. simplify_eq.
    rewrite tokens_apply_loop by done. by apply drop_hits_all. }
  split; [|done]. intros tok pat Htok Hpat Hm. rewrite Ht in Htok.
  apply list_elem_of_filter in Htok as [Hn _].
  assert (hit table tok = true) by (apply hit_spec; eauto). congruence.
Qed.

Lemma redact_no_leak_witness :
  tokens (default [] (retrace_redact_apply (retrace_redact_set_csv (Some (lit "*_TOKEN*,AWS_*")))
            (Some (lit "env AWS_KEY=abc user=bob MY_TOKEN=q")))) =
  [lit "env"; lit "user=bob"].
Proof.
  eapply (redact_no_leak (retrace_redact_set_csv (Some (lit "*_TOKEN*,AWS_*")))
            (lit "env AWS_KEY=abc user=bob MY_TOKEN=q"));
    [vm_compute; reflexivity|vm_compute; lia|vm_compute; reflexivity].
Defined.

(** The rewriting never grows the buffer and the tables the two
    setters build fit the static arrays: at most 32 patterns of 1 to 127
    characters. *)
Theorem redact_bounds table buf out patterns csv :
  retrace_redact_apply table (Some buf) = Some out →
  length out ≤ length buf ∧
  (∀ t, t = retrace_redact_set patterns ∨ t = retrace_redact_set_csv csv →
    length t ≤ REDACT_PATTERNS_MAX ∧
    Forall (λ p, 0 < length p < REDACT_PATTERN_LEN) t).
Proof.
  intros Ho. split.
  - unfold retrace_redact_apply in Ho. case_match; simplify_eq; [done|].
    apply apply_loop_length.
  - assert (∀ t, length t ≤ REDACT_PATTERNS_MAX ∧ Forall (λ p, fits p = true) t →
      length t ≤ REDACT_PATTERNS_MAX ∧ Forall (λ p, 0 < length p < REDACT_PATTERN_LEN) t) as Hw.
    { intros t [Hl Hf]. split; [done|]. eapply Forall_impl; [done|].
      unfold fits. intros p Hp. bool_to_prop.
      apply Nat.eqb_neq in H. apply Nat.ltb_lt in H0. simpl in *. lia. }
    intros t [-> | ->]; apply Hw.
    + destruct patterns; [|split; [unfold retrace_redact_set; simpl; lia|done]].
      apply set_loop_bounds; simpl; [lia|done].
    + destruct csv; [|split; [unfold retrace_redact_set_csv; simpl; lia|done]].
      apply set_csv_loop_bounds; simpl; [lia|done].
Qed.

Lemma redact_bounds_witness :
  length (lit "***") ≤ length (lit "k=secret") ∧
  length (retrace_redact_set_csv (Some (lit "k=*,,x"))) ≤ REDACT_PATTERNS_MAX.
Proof.
  destruct (redact_bounds [lit "k=*"] (lit "k=secret") (lit "***") None
    (Some (lit "k=*,,x"))) as [H1 H2]; [vm_compute; reflexivity|].
  split; [exact H1|]. apply (H2 _ (or_intror eq_refl)).
Defined.

(** Redaction is idempotent while its budget suffices, so
    the two fan-out points may both run it; and compiling the comma-separated
    form is compiling the list of its fields. *)
Theorem redact_idempotent table buf csv :
  length (hits table buf) ≤ REDACT_REPLACEMENTS_MAX →
  retrace_redact_apply table (retrace_redact_apply table (Some buf)) =
    retrace_redact_apply table (Some buf) ∧
  retrace_redact_set_csv (Some csv) =
    retrace_redact_set (Some (Some <$> split_commas (length csv) csv)).
Proof.
  intros Hh. split; [|apply set_csv_loop_split].
  unfold retrace_redact_apply. destruct (length table =? 0); [done|]. f_equal.
  apply apply_loop_no_hits; [done|].
  rewrite tokens_apply_loop, drop_hits_all by done.
  apply Forall_forall. by intros t [? _]%list_elem_of_filter.
Qed.

Lemma redact_idempotent_witness :
  retrace_redact_apply [lit "p*"] (retrace_redact_apply [lit "p*"] (Some (lit "a pw b"))) =
  retrace_redact_apply [lit "p*"] (Some (lit "a pw b")).
Proof.
  apply (redact_idempotent [lit "p*"] (lit "a pw b") []). vm_compute. lia.
Defined.

(** The match is of whole tokens: a pattern occurring inside a longer token,
    which the header's wording covers, is left readable. *)
Lemma redact_substring_kept :
  retrace_redact_apply [lit "hunter2"] (Some (lit "pw=hunter2")) =
  Some (lit "pw=hunter2").
Proof. vm_compute. reflexivity. Qed.
End Redact.
