(* ===== verification/LogRing.v ===== *)
(** * The per-thread log ring

    [src/core/log_ring.c]: a single-producer single-consumer ring of log
    entries whose texts live on the heap. [Module LogRing] has the data, the
    operations run alone ([retrace_log_ring_push], [retrace_log_ring_drain],
    [ring_free], [ring_alloc], the capacity setting) and the concurrent system:
    one step per shared access of the producer and of the consumer, in any
    interleaving. The heap maps the live text copies to their contents, so a
    read of a freed text, a double free or a leak shows in the state. The
    atomics are modelled as sequentially consistent: each side stores only its
    own index, and reads the other's with acquire order after a release store. *)

From S2P Require Import Prelude.

Module LogRing.

Abbreviation heap := (gmap nat bytes).

Record LogEntry := mkEntry {
  ts_ms : Z;
  e_module : Z;
  e_sev : Z;
  e_reserved : Z;
  e_text : option nat;
}.

Record LogRing := mkRing {
  r_mask : nat;
  r_dropped : Z;
  r_head : nat;
  r_tail : nat;
  r_entries : list LogEntry;
}.

Definition LOG_RING_DEFAULT_CAP : Z := 1024.
Definition LOG_RING_CAP_MIN : Z := 64.
Definition LOG_RING_CAP_MAX : Z := 65536.

(** [(i + 1) & mask]. *)
Definition advance (mask i : nat) : nat := Nat.land (i + 1) mask.

Definition set_entry (i : nat) (e : LogEntry) (r : LogRing) : LogRing :=
  mkRing (r_mask r) (r_dropped r) (r_head r) (r_tail r) (<[i := e]> (r_entries r)).
Definition set_head (h : nat) (r : LogRing) : LogRing :=
  mkRing (r_mask r) (r_dropped r) h (r_tail r) (r_entries r).
Definition set_tail (t : nat) (r : LogRing) : LogRing :=
  mkRing (r_mask r) (r_dropped r) (r_head r) t (r_entries r).
Definition bump_dropped (r : LogRing) : LogRing :=
  mkRing (r_mask r) (u32 (r_dropped r + 1)) (r_head r) (r_tail r) (r_entries r).
Definition clear_text (e : LogEntry) : LogEntry :=
  mkEntry (ts_ms e) (e_module e) (e_sev e) (e_reserved e) None.

(** [free(p)]; freeing NULL does nothing. *)
Definition hfree (p : option nat) (m : heap) : heap :=
  match p with Some l => delete l m | None => m end.

(** ** Allocation and capacity *)

(** [ring_ok] and [entries_ok] are the outcomes of the two allocations; the
    entries are uninitialised memory, [junk]. *)
Definition ring_alloc (ring_ok entries_ok : bool) (junk : LogEntry) (capacity : Z)
  : option LogRing :=
  if (capacity =? 0)%Z || negb (Z.land capacity (u32 (capacity - 1)) =? 0)%Z then None
  else if negb ring_ok then None
  else if negb entries_ok then None
  else Some (mkRing (Z.to_nat (capacity - 1)) 0 0 0
               (replicate (Z.to_nat capacity) junk)).

(** The C library's [atoi] on the decimal text of an [int]. *)
Definition is_space (c : ascii) : bool :=
  ceq c " " || ((9 <=? uchar c)%Z && (uchar c <=? 13)%Z).

Fixpoint skip_spaces (s : bytes) : bytes :=
  match s with
  | [] => []
  | c :: s' => if is_space c then skip_spaces s' else s
  end.

Fixpoint digits_value (acc : Z) (s : bytes) : Z :=
  match s with
  | [] => acc
  | c :: s' =>
      if (48 <=? uchar c)%Z && (uchar c <=? 57)%Z
      then digits_value (acc * 10 + (uchar c - 48)) s' else acc
  end.

Definition atoi (s : bytes) : Z :=
  match skip_spaces s with
  | c :: s' =>
      if ceq c "-" then (- digits_value 0 s')%Z
      else if ceq c "+" then digits_value 0 s'
      else digits_value 0 (c :: s')
  | [] => 0%Z
  end.

(** [env] is the value of RETRACE_LOGGER_RING_CAP. *)
Definition ring_configured_cap (env : option bytes) : Z :=
  match env with
  | None | Some [] => LOG_RING_DEFAULT_CAP
  | Some e =>
      let v := atoi e in
      if (v <? LOG_RING_CAP_MIN)%Z || (LOG_RING_CAP_MAX <? v)%Z
      then LOG_RING_DEFAULT_CAP
      else if negb (Z.land v (v - 1) =? 0)%Z then LOG_RING_DEFAULT_CAP
      else u32 v
  end.

(** ** Push and drain, run alone *)

(** [copy_ok] is the outcome of the allocation of the text copy. *)
Definition retrace_log_ring_push (copy_ok : bool) (r : option LogRing) (m : heap)
    (module sev ts : Z) (text : option bytes) : Z * option LogRing * heap :=
  match r, text with
  | Some r, Some text =>
      if negb copy_ok then ((-1)%Z, Some r, m)
      else
        let text_copy := fresh (dom m) in
        let m := <[text_copy := text]> m in
        let h := r_head r in
        let next := advance (r_mask r) h in
        let t := r_tail r in
        if next =? t then
          ((-1)%Z, Some (bump_dropped r), delete text_copy m)
        else
          let r := set_entry h (mkEntry ts module sev 0 (Some text_copy)) r in
          (0%Z, Some (set_head next r), m)
  | _, _ => ((-1)%Z, r, m)
  end.

Section Drain.
Context {ctx : Type}.
(** The drain callback: the entry and its text, the caller's context; [true]
    stands for a non-zero result. *)
Variable cb : LogEntry → option bytes → ctx → bool * ctx.

Fixpoint drain_loop (fuel : nat) (r : LogRing) (m : heap) (c : ctx)
    (t h count : nat) : LogRing * heap * ctx * nat * nat :=
  if t =? h then (r, m, c, t, count)
  else
    match fuel, r_entries r !! t with
    | S fuel, Some e =>
        let '(stop, c) := cb e (e_text e ≫= λ l, m !! l) c in
        if stop then (r, m, c, t, count)
        else
          drain_loop fuel (set_entry t (clear_text e) r) (hfree (e_text e) m) c
            (advance (r_mask r) t) h (S count)
    | _, _ => (r, m, c, t, count)
    end.

(** The result is the number of entries drained. The ring holds at most
    [mask] entries, so [S mask] turns are enough. *)
Definition retrace_log_ring_drain (r : LogRing) (m : heap) (c : ctx)
  : nat * LogRing * heap * ctx :=
  let '(r, m, c, t, count) :=
    drain_loop (S (r_mask r)) r m c (r_tail r) (r_head r) 0 in
  (count, set_tail t r, m, c).

End Drain.

Fixpoint free_loop (fuel : nat) (r : LogRing) (m : heap) (t h : nat) : heap :=
  if t =? h then m
  else
    match fuel, r_entries r !! t with
    | S fuel, Some e =>
        free_loop fuel (set_entry t (clear_text e) r) (hfree (e_text e) m)
          (advance (r_mask r) t) h
    | _, _ => m
    end.

(** What is left of the text copies when a ring is freed. *)
Definition ring_free (r : option LogRing) (m : heap) : heap :=
  match r with
  | None => m
  | Some r => free_loop (S (r_mask r)) r m (r_tail r) (r_head r)
  end.

(** ** The concurrent system *)

Record msg := mkMsg { m_ts : Z; m_module : Z; m_sev : Z; m_text : bytes }.

Definition entry_of (x : msg) (l : nat) : LogEntry :=
  mkEntry (m_ts x) (m_module x) (m_sev x) 0 (Some l).

(** Where the producer is inside [retrace_log_ring_push]. *)
Inductive ppc :=
  | PIdle
  | PCopied (x : msg) (l : nat)
  | PHead (x : msg) (l h : nat)
  | PRoom (x : msg) (l h : nat)
  | PWritten (x : msg) (l h : nat).

(** Where the consumer is inside [retrace_log_ring_drain]. *)
Inductive cpc :=
  | CIdle
  | CTail (t : nat)
  | CLoop (t h : nat)
  | CFree (t h : nat)
  | CStore (t : nat).

(** The shared ring and heap, the two program counters, and as history the
    messages accepted (a push that returned 0), the messages the callback
    consumed, how many of them [tail] has released, and the drops. *)
Record sys := mkSys {
  s_ring : LogRing;
  s_heap : heap;
  s_prod : ppc;
  s_cons : cpc;
  s_acc : list msg;
  s_emi : list msg;
  s_rel : nat;
  s_drops : nat;
}.

Inductive step : sys → sys → Prop :=
  | p_copy r m c acc emi rel d x l :
      m !! l = None →
      step (mkSys r m PIdle c acc emi rel d)
           (mkSys r (<[l := m_text x]> m) (PCopied x l) c acc emi rel d)
  | p_load_head r m c acc emi rel d x l :
      step (mkSys r m (PCopied x l) c acc emi rel d)
           (mkSys r m (PHead x l (r_head r)) c acc emi rel d)
  | p_full r m c acc emi rel d x l h :
      advance (r_mask r) h = r_tail r →
      step (mkSys r m (PHead x l h) c acc emi rel d)
           (mkSys (bump_dropped r) (delete l m) PIdle c acc emi rel (S d))
  | p_room r m c acc emi rel d x l h :
      advance (r_mask r) h ≠ r_tail r →
      step (mkSys r m (PHead x l h) c acc emi rel d)
           (mkSys r m (PRoom x l h) c acc emi rel d)
  | p_write r m c acc emi rel d x l h :
      step (mkSys r m (PRoom x l h) c acc emi rel d)
           (mkSys (set_entry h (entry_of x l) r) m (PWritten x l h) c acc emi rel d)
  | p_publish r m c acc emi rel d x l h :
      step (mkSys r m (PWritten x l h) c acc emi rel d)
           (mkSys (set_head (advance (r_mask r) h) r) m PIdle c (acc ++ [x]) emi rel d)
  | c_load_tail r m p acc emi rel d :
      step (mkSys r m p CIdle acc emi rel d)
           (mkSys r m p (CTail (r_tail r)) acc emi rel d)
  | c_load_head r m p acc emi rel d t :
      step (mkSys r m p (CTail t) acc emi rel d)
           (mkSys r m p (CLoop t (r_head r)) acc emi rel d)
  | c_emit r m p acc emi rel d t h e l txt :
      t ≠ h → r_entries r !! t = Some e → e_text e = Some l → m !! l = Some txt →
      step (mkSys r m p (CLoop t h) acc emi rel d)
           (mkSys r m p (CFree t h) acc
              (emi ++ [mkMsg (ts_ms e) (e_module e) (e_sev e) txt]) rel d)
  | c_stop r m p acc emi rel d t h :
      t ≠ h →
      step (mkSys r m p (CLoop t h) acc emi rel d)
           (mkSys r m p (CStore t) acc emi rel d)
  | c_free r m p acc emi rel d t h e :
      r_entries r !! t = Some e →
      step (mkSys r m p (CFree t h) acc emi rel d)
           (mkSys (set_entry t (clear_text e) r) (hfree (e_text e) m) p
              (CLoop (advance (r_mask r) t) h) acc emi rel d)
  | c_done r m p acc emi rel d t :
      step (mkSys r m p (CLoop t t) acc emi rel d)
           (mkSys r m p (CStore t) acc emi rel d)
  | c_store r m p acc emi rel d t :
      step (mkSys r m p (CStore t) acc emi rel d)
           (mkSys (set_tail t r) m p CIdle acc emi (length emi) d).

Definition initial (r : LogRing) : sys := mkSys r ∅ PIdle CIdle [] [] 0 0.

Definition reachable (r : LogRing) (s : sys) : Prop := rtc step (initial r) s.

(** ** Index arithmetic *)

Definition cap (r : LogRing) : nat := S (r_mask r).

Definition pow2_ring (r : LogRing) : Prop :=
  (∃ k, cap r = 2 ^ k) ∧ length (r_entries r) = cap r.

Lemma advance_mod k mask i :
  S mask = 2 ^ k → advance mask (i mod S mask) = (i + 1) mod S mask.
Proof.
  intros Hk. unfold advance.
  assert (mask = Nat.ones k) as Hm by (rewrite Nat.ones_equiv; lia).
  rewrite Hm at 2. rewrite Nat.land_ones, <- Hk.
  rewrite Nat.Div0.add_mod_idemp_l. done.
Qed.

Lemma mod_inj n i j : i ≤ j → j < i + n → i mod n = j mod n → i = j.
Proof.
  intros Hij Hj E.
  pose proof (Nat.div_mod_eq i n). pose proof (Nat.div_mod_eq j n).
  assert (i / n = j / n); [|nia].
  assert (i / n ≤ j / n) by (apply Nat.Div0.div_le_mono; lia).
  destruct (decide (i / n < j / n)); [nia|lia].
Qed.

(** ** The invariant of the system

    With [H] accepted and [R] released messages, [head] and [tail] are [H] and
    [R] modulo the capacity and at most [mask] messages are between them. The
    messages from the consumer's position [C] to [H] are in their slots with
    live texts; the heap holds those texts and the producer's copy, each once,
    and nothing else. *)

Definition consumed (s : sys) : nat :=
  match s_cons s with
  | CFree _ _ => pred (length (s_emi s))
  | _ => length (s_emi s)
  end.

Definition prod_owned (p : ppc) : list nat :=
  match p with
  | PIdle => []
  | PCopied _ l | PHead _ l _ | PRoom _ l _ | PWritten _ l _ => [l]
  end.

Definition prod_inv (s : sys) : Prop :=
  match s_prod s with
  | PIdle => True
  | PCopied x l => s_heap s !! l = Some (m_text x)
  | PHead x l h => s_heap s !! l = Some (m_text x) ∧ h = r_head (s_ring s)
  | PRoom x l h =>
      s_heap s !! l = Some (m_text x) ∧ h = r_head (s_ring s) ∧
      length (s_acc s) < s_rel s + r_mask (s_ring s)
  | PWritten x l h =>
      s_heap s !! l = Some (m_text x) ∧ h = r_head (s_ring s) ∧
      length (s_acc s) < s_rel s + r_mask (s_ring s) ∧
      r_entries (s_ring s) !! h = Some (entry_of x l)
  end.

Definition cons_inv (s : sys) : Prop :=
  let n := cap (s_ring s) in
  let H := length (s_acc s) in
  let E := length (s_emi s) in
  match s_cons s with
  | CIdle => s_rel s = E
  | CTail t => s_rel s = E ∧ t = E mod n
  | CLoop t h => t = E mod n ∧ ∃ Hc, h = Hc mod n ∧ s_rel s ≤ E ≤ Hc ∧ Hc ≤ H
  | CFree t h =>
      t = pred E mod n ∧ 0 < E ∧
      ∃ Hc, h = Hc mod n ∧ s_rel s ≤ pred E < Hc ∧ Hc ≤ H
  | CStore t => t = E mod n ∧ s_rel s ≤ E ≤ H
  end.

(** The slots from position [C] on hold the messages [msgs] with the texts
    [ls]. *)
Definition slots (r : LogRing) (m : heap) (C : nat) (msgs : list msg) (ls : list nat) : Prop :=
  Forall2 (λ x l, m !! l = Some (m_text x)) msgs ls ∧
  ∀ j x l, msgs !! j = Some x → ls !! j = Some l →
    r_entries r !! ((C + j) mod cap r) = Some (entry_of x l).

Record inv (s : sys) : Prop := {
  inv_ring : pow2_ring (s_ring s);
  inv_head : r_head (s_ring s) = length (s_acc s) mod cap (s_ring s);
  inv_tail : r_tail (s_ring s) = s_rel s mod cap (s_ring s);
  inv_room : s_rel s ≤ length (s_acc s) ≤ s_rel s + r_mask (s_ring s);
  inv_fifo : s_emi s `prefix_of` s_acc s;
  inv_drops : r_dropped (s_ring s) = u32 (Z.of_nat (s_drops s));
  inv_prod : prod_inv s;
  inv_cons : cons_inv s;
  inv_live : ∃ ls,
    slots (s_ring s) (s_heap s) (consumed s) (drop (consumed s) (s_acc s)) ls ∧
    NoDup (ls ++ prod_owned (s_prod s)) ∧
    dom (s_heap s) = list_to_set (ls ++ prod_owned (s_prod s));
}.

Lemma consumed_bounds s : inv s → s_rel s ≤ consumed s ≤ length (s_acc s).
Proof.
  intros [_ _ _ Hroom Hfifo _ _ Hc _]. apply prefix_length in Hfifo.
  unfold cons_inv, consumed in *. destruct (s_cons s); unpack; lia.
Qed.

(** *** Moves of the live slots *)

Lemma slots_heap_insert r m C msgs ls l txt :
  m !! l = None → slots r m C msgs ls → slots r (<[l := txt]> m) C msgs ls.
Proof.
  intros Hl [Hf He]. split; [|done]. eapply Forall2_impl; [done|].
  intros x l' Hx. simpl in Hx. by rewrite lookup_insert_ne by congruence.
Qed.

Lemma slots_heap_delete r m C msgs ls l :
  l ∉ ls → slots r m C msgs ls → slots r (delete l m) C msgs ls.
Proof.
  intros Hl [Hf He]. split; [|done].
  apply Forall2_same_length_lookup. split; [by eapply Forall2_length|].
  intros i x l' Hx Hl'. rewrite lookup_delete_ne.
  - by eapply (Forall2_lookup_lr _ _ _ i) in Hf.
  - intros ->. apply Hl. by eapply list_elem_of_lookup_2.
Qed.

Lemma slots_set_entry r m C msgs ls i e :
  (∀ j, j < length msgs → (C + j) mod cap r ≠ i) →
  slots r m C msgs ls → slots (set_entry i e r) m C msgs ls.
Proof.
  intros Hi [Hf He]. split; [done|]. intros j x l Hx Hl. simpl.
  rewrite list_lookup_insert_ne.
  - by apply He.
  - intros Hj. apply (Hi j); [by eapply lookup_lt_Some|done].
Qed.

Lemma slots_snoc r m C msgs ls x l :
  slots r m C msgs ls → m !! l = Some (m_text x) →
  r_entries r !! ((C + length msgs) mod cap r) = Some (entry_of x l) →
  slots r m C (msgs ++ [x]) (ls ++ [l]).
Proof.
  intros [Hf He] Hl Hx. split; [by apply Forall2_app; auto|].
  intros j y l' Hy Hl'. pose proof (Forall2_length _ _ _ Hf) as Hlen.
  apply lookup_snoc_Some in Hy as [[Hj Hy]|[-> <-]].
  - rewrite lookup_app_l in Hl' by lia. by apply He.
  - rewrite Hlen, list_lookup_middle in Hl' by done. by simplify_eq.
Qed.

Lemma slots_cons_inv r m C x msgs ls :
  slots r m C (x :: msgs) ls →
  ∃ l ls', ls = l :: ls' ∧ m !! l = Some (m_text x) ∧
    r_entries r !! (C mod cap r) = Some (entry_of x l) ∧
    slots r m (S C) msgs ls'.
Proof.
  intros [Hf He]. apply Forall2_cons_inv_l in Hf as (l & ls' & Hl & Hf & ->).
  exists l, ls'. split_and!; [done|done| |].
  - specialize (He 0 x l eq_refl eq_refl). by rewrite Nat.add_0_r in He.
  - split; [done|]. intros j y l' Hy Hl'.
    specialize (He (S j) y l' Hy Hl'). by rewrite Nat.add_succ_r in He.
Qed.

Lemma u32_succ d : u32 (u32 (Z.of_nat d) + 1) = u32 (Z.of_nat (S d)).
Proof.
  unfold u32, wrap_u. rewrite Zplus_mod_idemp_l. f_equal. lia.
Qed.

(** *** Every step preserves the invariant *)

(** The invariant of a state given by its components. *)
Ltac start_inv I :=
  let HC := fresh "HC" in
  pose proof (consumed_bounds _ I) as HC;
  destruct I as [[[k Hk] Hlen] Hh Ht Hroom Hfifo Hd Hp Hco (ls & Hsl & Hnd & Hdom)];
  unfold prod_inv, cons_inv, consumed in *; simpl in *.

Lemma p_copy_inv r m c acc emi rel d x l :
  m !! l = None → inv (mkSys r m PIdle c acc emi rel d) →
  inv (mkSys r (<[l := m_text x]> m) (PCopied x l) c acc emi rel d).
Proof.
  intros Hl I. start_inv I. rewrite app_nil_r in *.
  assert (l ∉ ls) as Hfr.
  { intros Hin. apply (not_elem_of_dom_2 _ _ Hl). rewrite Hdom. by apply elem_of_list_to_set. }
  split; simpl; try done.
  - by split; [exists k|].
  - unfold prod_inv. simpl. apply lookup_insert_eq.
  - exists ls. split_and!; [by apply slots_heap_insert| |].
    + apply NoDup_app. split_and!; [done|set_solver|by apply NoDup_singleton].
    + rewrite dom_insert_L, Hdom, list_to_set_app_L. set_solver.
Qed.

Lemma p_load_head_inv r m c acc emi rel d x l :
  inv (mkSys r m (PCopied x l) c acc emi rel d) →
  inv (mkSys r m (PHead x l (r_head r)) c acc emi rel d).
Proof.
  intros I. start_inv I. split; simpl; try done; [by split; [exists k|]|by exists ls].
Qed.

Lemma p_full_inv r m c acc emi rel d x l h :
  inv (mkSys r m (PHead x l h) c acc emi rel d) →
  inv (mkSys (bump_dropped r) (delete l m) PIdle c acc emi rel (S d)).
Proof.
  intros I. start_inv I. apply NoDup_app in Hnd as (Hnd & Hdis & _).
  split; simpl; try done.
  - by split; [exists k|].
  - by rewrite Hd, u32_succ.
  - exists ls. rewrite app_nil_r. split_and!; [|done|].
    + apply slots_heap_delete; [set_solver|done].
    + rewrite dom_delete_L, Hdom, list_to_set_app_L. set_solver.
Qed.

Lemma p_room_inv r m c acc emi rel d x l h :
  advance (r_mask r) h ≠ r_tail r →
  inv (mkSys r m (PHead x l h) c acc emi rel d) →
  inv (mkSys r m (PRoom x l h) c acc emi rel d).
Proof.
  intros Hne I. start_inv I. destruct Hp as [Hm ->].
  split; simpl; try done; [by split; [exists k|]| |by exists ls].
  unfold prod_inv; simpl. split_and!; [done..|]. unfold cap in *.
  rewrite Hh, Ht, (advance_mod k) in Hne by done.
  destruct (decide (length acc + 1 = rel + S (r_mask r))) as [E|]; [|lia].
  exfalso. apply Hne. rewrite E, <- (Nat.mul_1_l (S (r_mask r))) at 1.
  apply Nat.Div0.mod_add.
Qed.

Lemma p_write_inv r m c acc emi rel d x l h :
  inv (mkSys r m (PRoom x l h) c acc emi rel d) →
  inv (mkSys (set_entry h (entry_of x l) r) m (PWritten x l h) c acc emi rel d).
Proof.
  intros I. start_inv I. destruct Hp as (Hm & -> & Hrm).
  split; simpl; try done.
  - split; [by exists k|]. simpl. by rewrite length_insert.
  - unfold prod_inv; simpl. split_and!; [done..|]. apply list_lookup_insert_eq.
    rewrite Hh, Hlen. by apply Nat.mod_upper_bound.
  - exists ls. split_and!; [|done..]. apply slots_set_entry; [|done].
    intros j Hj E. rewrite length_drop in Hj. rewrite Hh in E.
    unfold consumed in *; simpl in *. apply mod_inj in E; unfold cap in *; lia.
Qed.

Lemma p_publish_inv r m c acc emi rel d x l h :
  inv (mkSys r m (PWritten x l h) c acc emi rel d) →
  inv (mkSys (set_head (advance (r_mask r) h) r) m PIdle c (acc ++ [x]) emi rel d).
Proof.
  intros I. start_inv I. destruct Hp as (Hm & -> & Hrm & He).
  split; simpl; try done.
  - by split; [exists k|].
  - rewrite Hh, (advance_mod k), length_app by done. done.
  - rewrite length_app. simpl. lia.
  - by apply prefix_app_r.
  - unfold cons_inv; simpl. rewrite length_app; simpl.
    destruct c; unpack; split_and?; eauto with lia.
  - exists (ls ++ [l]). rewrite app_nil_r. split_and!; [|done..].
    unfold consumed; simpl. rewrite drop_app_le by lia.
    apply slots_snoc; [done|done|]. simpl. rewrite length_drop.
    rewrite Nat.add_comm, Nat.sub_add by lia. unfold cap in *. simpl. by rewrite <- Hh.
Qed.

Lemma c_load_tail_inv r m p acc emi rel d :
  inv (mkSys r m p CIdle acc emi rel d) →
  inv (mkSys r m p (CTail (r_tail r)) acc emi rel d).
Proof.
  intros I. start_inv I.
  split; simpl; try done; [by split; [exists k|]| |by exists ls].
  unfold cons_inv; simpl. subst rel. by split.
Qed.

Lemma c_load_head_inv r m p acc emi rel d t :
  inv (mkSys r m p (CTail t) acc emi rel d) →
  inv (mkSys r m p (CLoop t (r_head r)) acc emi rel d).
Proof.
  intros I. start_inv I. destruct Hco as [-> ->].
  split; simpl; try done; [by split; [exists k|]| |by exists ls].
  unfold cons_inv; simpl. split; [done|]. exists (length acc). split; [done|].
  apply prefix_length in Hfifo. lia.
Qed.

(** What the consumer finds at its cursor: the next accepted message. *)
Lemma loop_next r m p t h acc emi rel d :
  inv (mkSys r m p (CLoop t h) acc emi rel d) → t ≠ h →
  ∃ x l, acc !! length emi = Some x ∧ r_entries r !! t = Some (entry_of x l) ∧
    m !! l = Some (m_text x).
Proof.
  intros I Hne. start_inv I. destruct Hco as (-> & Hc & -> & HE & HcH).
  assert (length emi < length acc).
  { destruct (decide (length emi = Hc)) as [<-|]; [done|lia]. }
  destruct (lookup_lt_is_Some_2 acc (length emi)) as [x Hx]; [done|].
  rewrite (drop_S _ _ _ Hx) in Hsl.
  apply slots_cons_inv in Hsl as (l & ls' & -> & Hl & He & _). eauto.
Qed.

Lemma c_emit_inv r m p acc emi rel d t h e l txt :
  t ≠ h → r_entries r !! t = Some e → e_text e = Some l → m !! l = Some txt →
  inv (mkSys r m p (CLoop t h) acc emi rel d) →
  inv (mkSys r m p (CFree t h) acc
         (emi ++ [mkMsg (ts_ms e) (e_module e) (e_sev e) txt]) rel d).
Proof.
  intros Hne He Hl Htxt I. destruct (loop_next _ _ _ _ _ _ _ _ _ I Hne) as (x & l' & Hx & He' & Hl').
  simplify_eq/=.
  assert (mkMsg (m_ts x) (m_module x) (m_sev x) (m_text x) = x) as -> by by destruct x.
  start_inv I. destruct Hco as (-> & Hc & -> & HE & HcH).
  assert (length emi < Hc) as HEc by (destruct (decide (length emi = Hc)) as [<-|]; [done|lia]).
  split; simpl; try done.
  - by split; [exists k|].
  - destruct Hfifo as [rest ->]. rewrite lookup_app_r, Nat.sub_diag in Hx by done.
    destruct rest as [|y rest]; simplify_eq/=. exists rest. by rewrite <- app_assoc.
  - unfold cons_inv; simpl. rewrite length_app, Nat.add_1_r; simpl.
    split_and!; [done|lia|]. exists Hc. split_and!; [done|lia..].
  - exists ls. unfold consumed; simpl. by rewrite length_app, Nat.add_1_r.
Qed.

Lemma c_free_inv r m p acc emi rel d t h e :
  r_entries r !! t = Some e →
  inv (mkSys r m p (CFree t h) acc emi rel d) →
  inv (mkSys (set_entry t (clear_text e) r) (hfree (e_text e) m) p
         (CLoop (advance (r_mask r) t) h) acc emi rel d).
Proof.
  intros He I. start_inv I. destruct Hco as (-> & HE0 & Hc & -> & HE & HcH).
  destruct (lookup_lt_is_Some_2 acc (pred (length emi))) as [x Hx]; [lia|].
  rewrite (drop_S _ _ _ Hx) in Hsl. rewrite (Nat.lt_succ_pred 0) in Hsl by done.
  apply slots_cons_inv in Hsl as (l & ls' & -> & Hl & He' & Hsl). simplify_eq/=.
  rewrite (Nat.lt_succ_pred 0) in Hsl by done.
  apply NoDup_cons in Hnd as [Hnl Hnd].
  split; simpl; try done.
  - split; [by exists k|]. simpl. by rewrite length_insert.
  - unfold prod_inv in *; simpl. assert (r_head r ≠ pred (length emi) mod cap r) as Hhd.
    { rewrite Hh. intros E. symmetry in E. apply mod_inj in E; unfold cap in *; lia. }
    destruct p; simpl in *; unpack; try done; split_and?;
      rewrite ?lookup_delete_ne, ?list_lookup_insert_ne by (set_solver || congruence); done.
  - unfold cons_inv; simpl. split.
    + unfold cap in *. rewrite (advance_mod k) by done. f_equal. lia.
    + exists Hc. split_and!; [done|lia..].
  - exists ls'. split_and!; [|done|].
    + unfold consumed; simpl. apply slots_heap_delete; [set_solver|].
      apply slots_set_entry; [|done]. intros j Hj E. rewrite length_drop in Hj.
      symmetry in E. apply mod_inj in E; unfold cap in *; lia.
    + rewrite dom_delete_L, Hdom. simpl. set_solver.
Qed.

Lemma c_exit_inv r m p acc emi rel d t h :
  inv (mkSys r m p (CLoop t h) acc emi rel d) →
  inv (mkSys r m p (CStore t) acc emi rel d).
Proof.
  intros I. start_inv I. destruct Hco as (-> & Hc & -> & HE & HcH).
  split; simpl; try done; [by split; [exists k|]|by exists ls].
Qed.

Lemma c_store_inv r m p acc emi rel d t :
  inv (mkSys r m p (CStore t) acc emi rel d) →
  inv (mkSys (set_tail t r) m p CIdle acc emi (length emi) d).
Proof.
  intros I. start_inv I. destruct Hco as (-> & HE).
  split; simpl; try done; [by split; [exists k|]|lia| |by exists ls].
  unfold prod_inv in *; destruct p; simpl in *; unpack; split_and?; try done; lia.
Qed.

Lemma step_inv s s' : inv s → step s s' → inv s'.
Proof.
  intros I Hst.
  destruct Hst; eauto using p_copy_inv, p_load_head_inv, p_full_inv, p_room_inv,
    p_write_inv, p_publish_inv, c_load_tail_inv, c_load_head_inv, c_emit_inv,
    c_free_inv, c_exit_inv, c_store_inv.
Qed.

(** A ring fresh from [ring_alloc]. *)
Definition empty_ring (r : LogRing) : Prop :=
  pow2_ring r ∧ r_head r = 0 ∧ r_tail r = 0 ∧ r_dropped r = 0%Z.

Lemma initial_inv r : empty_ring r → inv (initial r).
Proof.
  intros (Hp & Hh & Ht & Hd). split; simpl; try done.
  - rewrite Hh. symmetry. by apply Nat.mod_0_l.
  - rewrite Ht. symmetry. by apply Nat.mod_0_l.
  - lia.
  - exists []. split_and!; [|constructor|done]. by split; [constructor|].
Qed.

Lemma reachable_inv r s : empty_ring r → reachable r s → inv s.
Proof.
  intros He Hr. unfold reachable in Hr.
  assert (inv (initial r)) as I by by apply initial_inv.
  revert I. induction Hr; eauto using step_inv.
Qed.

(** ** The operations run alone, as operations of a bounded queue *)

(** The ring [r] holds the messages [q], whose texts are at [ls]. *)
Definition repr (r : LogRing) (m : heap) (q : list msg) (ls : list nat) : Prop :=
  pow2_ring r ∧ length q ≤ r_mask r ∧ NoDup ls ∧
  ∃ C, r_tail r = C mod cap r ∧ r_head r = (C + length q) mod cap r ∧
       slots r m C q ls.

Lemma slots_length r m C q ls : slots r m C q ls → length q = length ls.
Proof. intros [Hf _]. by eapply Forall2_length. Qed.

Lemma slots_dom r m C q ls l : slots r m C q ls → l ∈ ls → is_Some (m !! l).
Proof.
  intros [Hf _] Hl. apply list_elem_of_lookup in Hl as [i Hi].
  destruct (Forall2_lookup_r _ _ _ _ _ Hf Hi) as (x & _ & Hx). eauto.
Qed.

(** Reduction of [(C + n) + 1 = C] modulo the capacity: the ring is full. *)
Lemma full_test k r C n :
  cap r = 2 ^ k → n ≤ r_mask r →
  advance (r_mask r) ((C + n) mod cap r) = C mod cap r ↔ n = r_mask r.
Proof.
  intros Hk Hn. unfold cap in *. rewrite (advance_mod k) by done. split.
  - intros E. destruct (decide (n = r_mask r)); [done|]. exfalso.
    symmetry in E. apply mod_inj in E; lia.
  - intros ->. replace (C + r_mask r + 1) with (C + 1 * S (r_mask r)) by lia.
    apply Nat.Div0.mod_add.
Qed.

Section Feed.
Context {ctx : Type}.
Variable cb : LogEntry → option bytes → ctx → bool * ctx.

(** The callback over the queue in order, up to its first refusal: how many
    messages it took, and its context. *)
Fixpoint feed (q : list msg) (ls : list nat) (c : ctx) : nat * ctx :=
  match q, ls with
  | x :: q, l :: ls =>
      let '(stop, c) := cb (entry_of x l) (Some (m_text x)) c in
      if stop then (0, c) else let '(n, c) := feed q ls c in (S n, c)
  | _, _ => (0, c)
  end.

Lemma feed_le q ls c : (feed q ls c).1 ≤ length q.
Proof.
  revert ls c. induction q as [|x q IH]; intros [|l ls] c; simpl; try lia.
  destruct (cb _ _ c) as [[] c']; simpl; [lia|].
  specialize (IH ls c'). destruct (feed q ls c'). simpl in *. lia.
Qed.

Definition hfree_all (ls : list nat) (m : heap) : heap := foldl (λ m l, delete l m) m ls.

Lemma drain_loop_spec fuel r m c C q ls cnt :
  pow2_ring r → length q ≤ r_mask r → length q < fuel →
  NoDup ls → slots r m C q ls →
  let n := (feed q ls c).1 in
  ∃ es, drain_loop cb fuel r m c (C mod cap r) ((C + length q) mod cap r) cnt =
    (mkRing (r_mask r) (r_dropped r) (r_head r) (r_tail r) es,
     hfree_all (take n ls) m, (feed q ls c).2, (C + n) mod cap r, cnt + n) ∧
    length es = cap r ∧
    slots (mkRing (r_mask r) (r_dropped r) (r_head r) (r_tail r) es)
      (hfree_all (take n ls) m) (C + n) (drop n q) (drop n ls).
Proof.
  revert fuel r m c C ls cnt.
  induction q as [|x q IH]; intros fuel r m c C ls cnt Hp Hq Hfu Hnd Hsl.
  { apply slots_length in Hsl as Hl0. destruct ls; [|done]. simpl.
    rewrite !Nat.add_0_r. exists (r_entries r). destruct r, Hp.
    destruct fuel; simpl; rewrite Nat.eqb_refl; done. }
  apply slots_cons_inv in Hsl as (l & ls' & -> & Hl & He & Hsl).
  destruct fuel as [|fuel]; [simpl in Hfu; lia|]. cbn [drain_loop].
  destruct ((C mod cap r) =? _) eqn:Et.
  { apply Nat.eqb_eq, mod_inj in Et; unfold cap; simpl in *; lia. }
  rewrite He. simpl e_text. cbn [mbind option_bind]. rewrite Hl. cbn [feed].
  destruct (cb (entry_of x l) (Some (m_text x)) c) as [[] c'] eqn:Ecb.
  { simpl. rewrite !Nat.add_0_r. exists (r_entries r). destruct Hp as [Hk Hlen].
    split; [by destruct r|]. split; [done|]. destruct r; simpl in *.
    split; [constructor; [done|apply Hsl]|]. intros [|j] y l' Hy Hl'; simplify_eq/=.
    - rewrite Nat.add_0_r. done.
    - destruct Hsl as [_ Hsl]. specialize (Hsl j y l' Hy Hl'). by rewrite Nat.add_succ_r. }
  apply NoDup_cons in Hnd as [Hnl Hnd].
  destruct (feed q ls' c') as [n c''] eqn:Ef. simpl in *.
  destruct Hp as [[k Hk] Hlen].
  replace (advance (r_mask r) (C mod cap r)) with (S C mod cap r)
    by (unfold cap in *; rewrite (advance_mod k) by done; f_equal; lia).
  replace (C + S (length q)) with (S C + length q) by lia.
  destruct (IH fuel (set_entry (C mod cap r) (clear_text (entry_of x l)) r) (delete l m) c'
              (S C) ls' (S cnt)) as (es & Hrun & Hles & Hs'); simpl; try lia; try done.
  - split; [by exists k|]. simpl. by rewrite length_insert.
  - apply slots_heap_delete; [done|]. apply slots_set_entry; [|done].
    intros j Hj E. symmetry in E. apply mod_inj in E; unfold cap in *; lia.
  - rewrite Ef in *. simpl in *. exists es. unfold cap in *; simpl in *.
    rewrite Hrun. replace (C + S n) with (S (C + n)) by lia.
    replace (cnt + S n) with (S (cnt + n)) by lia. done.
Qed.

Lemma drain_spec r m c q ls :
  repr r m q ls →
  let n := (feed q ls c).1 in
  ∃ r' m', retrace_log_ring_drain cb r m c = (n, r', m', (feed q ls c).2) ∧
    m' = hfree_all (take n ls) m ∧ repr r' m' (drop n q) (drop n ls) ∧
    r_dropped r' = r_dropped r ∧ r_mask r' = r_mask r.
Proof.
  intros (Hp & Hq & Hnd & C & Ht & Hh & Hsl). simpl.
  pose proof (feed_le q ls c) as Hn.
  destruct (drain_loop_spec (S (r_mask r)) r m c C q ls 0) as (es & Hrun & Hles & Hs);
    try done; [lia|].
  unfold retrace_log_ring_drain. rewrite Ht, Hh, Hrun.
  eexists _, _. split; [done|]. split; [done|]. split; [|done].
  destruct Hp as [Hk Hlen].
  split; [by split|]. split; [rewrite length_drop; simpl; lia|].
  split; [by apply NoDup_drop|]. exists (C + (feed q ls c).1). simpl.
  split_and!; [done| |].
  - rewrite length_drop. unfold cap; simpl. rewrite Hh. unfold cap. f_equal. lia.
  - done.
Qed.

End Feed.

Lemma push_spec r m q ls module sev ts text :
  repr r m q ls →
  let x := mkMsg ts module sev text in
  let '(ret, r', m') := retrace_log_ring_push true (Some r) m module sev ts (Some text) in
  (length q = r_mask r ∧ ret = (-1)%Z ∧ r' = Some (bump_dropped r) ∧ m' = m ∧
     repr (bump_dropped r) m q ls) ∨
  (length q < r_mask r ∧ ret = 0%Z ∧ m' = <[fresh (dom m) := text]> m ∧
     ∃ r1, r' = Some r1 ∧ r_mask r1 = r_mask r ∧ r_dropped r1 = r_dropped r ∧
       repr r1 m' (q ++ [x]) (ls ++ [fresh (dom m)])).
Proof.
  intros (([k Hk] & Hlen) & Hq & Hnd & C & Ht & Hh & Hsl). simpl.
  assert (m !! fresh (dom m) = None) as Hfr by apply not_elem_of_dom, is_fresh.
  destruct (advance (r_mask r) (r_head r) =? r_tail r) eqn:E.
  - apply Nat.eqb_eq in E. rewrite Hh, Ht, (full_test k) in E by done. left.
    split_and!; [done..| |]; [by rewrite delete_insert_id|].
    split; [by split; [exists k|]|]. split; [done|]. split; [done|]. by exists C.
  - apply Nat.eqb_neq in E. rewrite Hh, Ht, (full_test k) in E by done. right.
    split_and!; [lia|done..|]. eexists. split_and!; [done..|].
    assert ((C + length q) mod cap r < length (r_entries r)) as Hb
      by (rewrite Hlen; by apply Nat.mod_upper_bound).
    split. { split; [by exists k|]. simpl. by rewrite length_insert. }
    split. { rewrite length_app. simpl. lia. }
    split.
    { apply NoDup_app. split_and!; [done| |by apply NoDup_singleton].
      intros l Hl ->%list_elem_of_singleton. apply (slots_dom _ _ _ _ _ _ Hsl) in Hl as [? Hl].
      congruence. }
    exists C. simpl. split_and!; [done| |].
    + rewrite Hh, length_app. unfold cap in *; simpl. rewrite (advance_mod k) by done. f_equal. simpl. lia.
    + apply slots_snoc; simpl.
      * destruct (slots_heap_insert r m C q ls _ text Hfr Hsl) as [Hf He]. split; [done|].
        intros j y l Hy Hl. simpl. unfold cap; simpl. rewrite list_lookup_insert_ne; [by apply He|].
        rewrite Hh. intros E2. symmetry in E2. apply lookup_lt_Some in Hy.
        apply mod_inj in E2; unfold cap in *; lia.
      * apply lookup_insert_eq.
      * rewrite Hh. unfold cap; simpl. by apply list_lookup_insert_eq.
Qed.

(** ** Capacity *)

Lemma land_pred_pow2 c :
  (0 < c)%Z → Z.land c (c - 1) = 0%Z ↔ ∃ k : nat, c = (2 ^ Z.of_nat k)%Z.
Proof.
  intros Hc. split.
  - intros E. exists (Z.to_nat (Z.log2 c)). rewrite Z2Nat.id by apply Z.log2_nonneg.
    pose proof (Z.log2_spec c Hc) as [Hlo Hhi].
    destruct (decide (c = 2 ^ Z.log2 c)%Z) as [|Hne]; [done|]. exfalso.
    assert (Z.log2 (c - 1) = Z.log2 c) as Hl.
    { apply Z.log2_unique; [apply Z.log2_nonneg|]. lia. }
    assert (Z.testbit (Z.land c (c - 1)) (Z.log2 c) = true) as Hb.
    { rewrite Z.land_spec, Z.bit_log2 by lia. rewrite <- Hl at 1.
      rewrite Z.bit_log2; [done|].
      assert (0 < 2 ^ Z.log2 c)%Z by (apply Z.pow_pos_nonneg; [lia|apply Z.log2_nonneg]). lia. }
    by rewrite E, Z.bits_0 in Hb.
  - intros [k ->]. rewrite Z.sub_1_r, <- Z.ones_equiv, Z.land_ones by lia.
    by apply Z_mod_same_full.
Qed.

Lemma ring_alloc_some junk c r :
  (0 ≤ c < 2 ^ 32)%Z → ring_alloc true true junk c = Some r →
  (∃ k : nat, c = (2 ^ Z.of_nat k)%Z) ∧ empty_ring r ∧ Z.of_nat (cap r) = c.
Proof.
  intros Hc. unfold ring_alloc.
  destruct (c =? 0)%Z eqn:E0; [done|]. apply Z.eqb_neq in E0. simpl.
  assert (u32 (c - 1) = c - 1)%Z as -> by (apply Z.mod_small; lia).
  destruct (Z.land c (c - 1) =? 0)%Z eqn:El; [|done]. simpl. intros [= <-].
  apply Z.eqb_eq, land_pred_pow2 in El as [k Hk]; [|lia].
  assert (Z.of_nat (S (Z.to_nat (c - 1))) = c) as Hcap by lia.
  split; [by exists k|]. split; [|done].
  split; [|done]. split.
  - exists k. unfold cap; simpl. apply Nat2Z.inj. rewrite Hcap, Hk.
    by rewrite Nat2Z.inj_pow.
  - unfold cap; simpl. rewrite length_replicate. lia.
Qed.

Lemma hfree_all_lookup ls m l :
  hfree_all ls m !! l = if decide (l ∈ ls) then None else m !! l.
Proof.
  revert m. induction ls as [|l' ls IH]; intros m; simpl; [done|].
  rewrite IH. repeat case_decide; try set_solver.
  - destruct (decide (l = l')) as [->|]; [apply lookup_delete_eq|set_solver].
  - apply lookup_delete_ne. set_solver.
Qed.

(** A callback that takes everything. *)
Lemma feed_all {ctx} (cb : LogEntry → option bytes → ctx → bool * ctx) q ls c :
  (∀ e t c, (cb e t c).1 = false) → length q = length ls →
  (feed cb q ls c).1 = length q.
Proof.
  intros Hcb. revert ls c. induction q as [|x q IH]; intros [|l ls] c Hl; try done.
  simpl in *. specialize (Hcb (entry_of x l) (Some (m_text x)) c) as Hx.
  destruct (cb _ _ c) as [b c']. simpl in Hx. subst b.
  specialize (IH ls c' ltac:(lia)). destruct (feed cb q ls c'). simpl in *. lia.
Qed.

(** Freeing a ring is draining it into a callback that takes everything. *)
Lemma free_loop_drain fuel r m t h n :
  free_loop fuel r m t h =
  (drain_loop (λ _ _ c, (false, c)) fuel r m tt t h n).1.1.1.2.
Proof.
  revert r m t n. induction fuel as [|fuel IH]; intros r m t n; simpl.
  - by case_if.
  - case_if; [done|]. destruct (r_entries r !! t); [apply IH|done].
Qed.

Lemma ring_free_spec r m q ls :
  repr r m q ls → ring_free (Some r) m = hfree_all ls m.
Proof.
  intros Hr. destruct (drain_spec (λ _ _ c, (false, c)) r m tt q ls Hr) as (r' & m' & Hd & Hm & _).
  assert (length q = length ls) as Hl by (destruct Hr as (_ & _ & _ & C & _ & _ & Hs); by eapply slots_length).
  rewrite feed_all, Hl, take_ge in Hm by done.
  unfold ring_free, retrace_log_ring_drain in *.
  rewrite (free_loop_drain _ _ _ _ _ 0).
  destruct (drain_loop _ _ _ _ _ _ _ _) as [[[[r1 m1] c1] t1] n1]. by simplify_eq/=.
Qed.

(** A push run alone is a sequence of the producer's steps. *)
Lemma push_steps r m c acc emi rel d module sev ts text ret r' m' :
  retrace_log_ring_push true (Some r) m module sev ts (Some text) = (ret, Some r', m') →
  rtc step (mkSys r m PIdle c acc emi rel d)
    (mkSys r' m' PIdle c (if (ret =? 0)%Z then acc ++ [mkMsg ts module sev text] else acc)
       emi rel (if (ret =? 0)%Z then d else S d)).
Proof.
  intros H. unfold retrace_log_ring_push in H. cbn [negb] in H.
  set (x := mkMsg ts module sev text). set (l := fresh (dom m)) in *.
  eapply rtc_l; [apply (p_copy _ _ _ _ _ _ _ x l), not_elem_of_dom, is_fresh|].
  eapply rtc_l; [apply p_load_head|].
  case_match eqn:E; simplify_eq.
  - apply rtc_once. apply p_full. by apply Nat.eqb_eq.
  - eapply rtc_l; [apply p_room; by apply Nat.eqb_neq|].
    eapply rtc_l; [apply p_write|]. apply rtc_once.
    apply (p_publish (set_entry (r_head r) (entry_of x l) r)).
Qed.

(** ** Properties *)

(** C31 (invariant). In every interleaving of a producer and a consumer on a
    fresh ring, what the callback consumed is a prefix of what the pushes
    accepted: no message is lost, duplicated or reordered; at most [mask]
    messages are between the two indices, and the [dropped] counter is the
    number of refused pushes modulo 2^32. *)
Theorem ring_concurrent_fifo r s :
  empty_ring r → reachable r s →
  s_emi s `prefix_of` s_acc s ∧
  length (s_acc s) ≤ s_rel s + r_mask (s_ring s) ∧
  r_dropped (s_ring s) = u32 (Z.of_nat (s_drops s)).
Proof.
  intros He Hr. destruct (reachable_inv _ _ He Hr). split_and!; [done|lia|done].
Qed.

(** In every interleaving, an entry the consumer is about to pass
    to the callback is the next accepted message, whole, with its text alive;
    and the heap holds exactly one text for each message accepted and not yet
    freed plus the copy a push is working on: nothing is freed twice or
    leaked. *)
Theorem ring_memory_safe r s :
  empty_ring r → reachable r s →
  (∀ t h, s_cons s = CLoop t h → t ≠ h →
    ∃ x l, s_acc s !! length (s_emi s) = Some x ∧
      r_entries (s_ring s) !! t = Some (entry_of x l) ∧
      s_heap s !! l = Some (m_text x)) ∧
  size (s_heap s) =
    length (s_acc s) - consumed s + length (prod_owned (s_prod s)).
Proof.
  intros He Hr. pose proof (reachable_inv _ _ He Hr) as I. split.
  - intros t h Hc Hne. destruct s; simpl in *; subst. by eapply loop_next.
  - destruct I as [_ _ _ _ _ _ _ _ (ls & Hsl & Hnd & Hdom)].
    rewrite <- size_dom, Hdom, size_list_to_set, length_app by done.
    apply slots_length in Hsl. rewrite length_drop in Hsl. lia.
Qed.

(** *** Progress *)

(** A side that is inside its operation has a step of its own. *)
Lemma own_step s :
  inv s →
  (s_prod s ≠ PIdle → ∃ s', step s s' ∧ s_cons s' = s_cons s ∧ s_prod s' ≠ s_prod s) ∧
  (s_cons s ≠ CIdle → ∃ s', step s s' ∧ s_prod s' = s_prod s ∧ s_cons s' ≠ s_cons s).
Proof.
  intros I.
  destruct s as [rg m p c acc emi rel d]. simpl. split; intros Hn.
  - destruct p as [|x l|x l h|x l h|x l h]; [done| | | |].
    + eexists; split; [constructor|]. done.
    + destruct (decide (advance (r_mask rg) h = r_tail rg)).
      * eexists; split; [by apply p_full|]. done.
      * eexists; split; [by apply p_room|]. done.
    + eexists; split; [constructor|]. done.
    + eexists; split; [constructor|]. done.
  - destruct c as [|t|t h|t h|t]; [done| | | |].
    + eexists; split; [constructor|]. done.
    + destruct (decide (t = h)) as [<-|Hne].
      * eexists; split; [apply c_done|]. done.
      * destruct (loop_next _ _ _ _ _ _ _ _ _ I Hne) as (x & l & Hx & Hent & Hl).
        eexists; split; [by eapply c_emit|]. done.
    + assert (is_Some (r_entries rg !! t)) as [e Hent].
      { start_inv I. destruct Hco as (-> & _). apply lookup_lt_is_Some_2.
        rewrite Hlen. by apply Nat.mod_upper_bound. }
      eexists; split; [by eapply c_free|]. done.
    + eexists; split; [constructor|]. done.
Qed.

(** A run from [s] in which one side, of the program counter [pc], stays inside
    its operation and makes [n] steps, with any steps of the other side. *)
Inductive busy {X} (pc : sys → X) (idle : X) : nat → sys → sys → Prop :=
  | busy_now s : pc s ≠ idle → busy pc idle 0 s s
  | busy_own n s s' s'' :
      step s s' → pc s' ≠ pc s → pc s ≠ idle → busy pc idle n s' s'' → busy pc idle (S n) s s''
  | busy_other n s s' s'' : step s s' → pc s' = pc s → busy pc idle n s' s'' → busy pc idle n s s''.

(** How many steps of its own a push has left before its last one. *)
Definition push_left (p : ppc) : nat :=
  match p with PIdle => 4 | PCopied _ _ => 3 | PHead _ _ _ => 2 | PRoom _ _ _ => 1 | PWritten _ _ _ => 0 end.

(** The entries from index [t] to index [h]. *)
Definition distance (n t h : nat) : nat := (h + (n - t)) mod n.

#[local] Arguments distance : simpl never.

Definition drain_left (mask : nat) (c : cpc) : nat :=
  match c with
  | CIdle => 2 * mask + 3
  | CTail _ => 2 * mask + 2
  | CLoop t h => 2 * distance (S mask) t h + 1
  | CFree t h => 2 * distance (S mask) t h
  | CStore _ => 0
  end.

Lemma distance_mod n E k : k < n → distance n (E mod n) ((E + k) mod n) = k.
Proof.
  intros Hk. unfold distance. rewrite Nat.Div0.add_mod_idemp_l.
  pose proof (Nat.div_mod_eq E n). pose proof (Nat.mod_upper_bound E n ltac:(lia)).
  replace (E + k + (n - E mod n)) with (k + (E / n + 1) * n) by nia.
  rewrite Nat.Div0.mod_add. by apply Nat.mod_small.
Qed.

Lemma step_mask s s' : step s s' → r_mask (s_ring s') = r_mask (s_ring s).
Proof. by destruct 1. Qed.

Lemma push_advances s s' :
  step s s' → s_prod s' ≠ s_prod s → s_prod s ≠ PIdle → s_prod s' ≠ PIdle → push_left (s_prod s') < push_left (s_prod s).
Proof. destruct 1; simpl; intros; try done; lia. Qed.

Lemma drain_advances s s' :
  inv s → step s s' → s_cons s' ≠ s_cons s → s_cons s ≠ CIdle → s_cons s' ≠ CIdle →
  drain_left (r_mask (s_ring s)) (s_cons s') < drain_left (r_mask (s_ring s)) (s_cons s).
Proof.
  intros I Hst. destruct Hst; cbn [s_cons s_ring drain_left]; intros; try done; try lia.
  - assert (distance (S (r_mask r)) t (r_head r) < S (r_mask r)) by (apply Nat.mod_upper_bound; lia). lia.
  - start_inv I. destruct Hco as (-> & HE0 & Hc & -> & HE & HcH). unfold cap in *. rewrite (advance_mod k) by done.
    replace (pred (length emi) + 1) with (length emi) by lia.
    assert (∀ E, E ≤ Hc → Hc - E < S (r_mask r) → distance (S (r_mask r)) (E mod S (r_mask r)) (Hc mod S (r_mask r)) = Hc - E) as Hdist.
    { intros E ? ?. replace (Hc mod S (r_mask r)) with ((E + (Hc - E)) mod S (r_mask r)) by (f_equal; lia). by apply distance_mod. }
    rewrite !Hdist by lia. lia.
Qed.

Lemma busy_starts {X} (pc : sys → X) idle n s s' : busy pc idle n s s' → pc s ≠ idle.
Proof. induction 1; congruence. Qed.

(** What every step of a side lowers bounds its steps. *)
Lemma busy_bound {X} (pc : sys → X) idle (left : nat → X → nat) n s s' :
  (∀ s s', inv s → step s s' → pc s' ≠ pc s → pc s ≠ idle → pc s' ≠ idle →
     left (r_mask (s_ring s)) (pc s') < left (r_mask (s_ring s)) (pc s)) →
  inv s → busy pc idle n s s' → n ≤ left (r_mask (s_ring s)) (pc s) ∧ inv s' ∧ pc s' ≠ idle.
Proof.
  intros Hl I Hb. revert I. induction Hb as [s Hi|n s s1 s2 Hs Hne Hi Hb IH|n s s1 s2 Hs He Hb IH]; intros I; [by split; [lia|]|..].
  - destruct (IH (step_inv _ _ I Hs)) as (Hn & ?). rewrite (step_mask _ _ Hs) in Hn.
    specialize (Hl _ _ I Hs Hne Hi (busy_starts _ _ _ _ _ Hb)). split; [lia|done].
  - destruct (IH (step_inv _ _ I Hs)) as (Hn & ?). by rewrite (step_mask _ _ Hs), He in Hn.
Qed.

(** C40 (liveness). The ring is wait-free on both sides: from every reachable
    state and whatever steps the other side makes or does not make, a producer
    inside a push makes at most three steps before its last one, and a consumer
    inside a drain at most two for every place of the ring before its last one,
    however many messages are pushed meanwhile; and the next step of either is
    always possible. *)
Theorem ring_wait_free r s n s' :
  empty_ring r → reachable r s →
  (busy s_prod PIdle n s s' → n ≤ 3 ∧ ∃ s'', step s' s'' ∧ s_cons s'' = s_cons s' ∧ s_prod s'' ≠ s_prod s') ∧
  (busy s_cons CIdle n s s' →
     n ≤ 2 * r_mask (s_ring s) + 2 ∧ ∃ s'', step s' s'' ∧ s_prod s'' = s_prod s' ∧ s_cons s'' ≠ s_cons s').
Proof.
  intros He Hr. pose proof (reachable_inv _ _ He Hr) as I. split; intros Hb.
  - destruct (busy_bound s_prod PIdle (λ _, push_left) n s s') as (Hn & I' & Hi); [by intros; apply push_advances|done|done|].
    split; [|by apply own_step]. apply busy_starts in Hb. destruct (s_prod s); simpl in *; (done || lia).
  - destruct (busy_bound s_cons CIdle drain_left n s s') as (Hn & I' & Hi); [by apply drain_advances|done|done|].
    split; [|by apply own_step]. apply busy_starts in Hb.
    assert (∀ t h, distance (S (r_mask (s_ring s))) t h < S (r_mask (s_ring s))) as Hd by (intros; apply Nat.mod_upper_bound; lia).
    destruct (s_cons s) as [|t|t h|t h|t]; cbn [drain_left] in *; try done; try specialize (Hd t h); lia.
Qed.

(** A push is an enqueue of a queue bounded by [mask]: it
    refuses exactly when the queue is full, then only the counter changes;
    otherwise the message goes to the end of the queue with its own copy of
    the text. And it is a run of the producer's steps of the concurrent
    system. *)
Theorem ring_push_refines r m q ls module sev ts text c acc emi rel d :
  repr r m q ls →
  let x := mkMsg ts module sev text in
  let '(ret, r', m') := retrace_log_ring_push true (Some r) m module sev ts (Some text) in
  ∃ r1, r' = Some r1 ∧
    rtc step (mkSys r m PIdle c acc emi rel d)
      (mkSys r1 m' PIdle c (if (ret =? 0)%Z then acc ++ [x] else acc) emi rel
         (if (ret =? 0)%Z then d else S d)) ∧
    ((length q = r_mask r ∧ ret = (-1)%Z ∧ r1 = bump_dropped r ∧ m' = m ∧ repr r1 m q ls) ∨
     (length q < r_mask r ∧ ret = 0%Z ∧ m' = <[fresh (dom m) := text]> m ∧
      r_dropped r1 = r_dropped r ∧ repr r1 m' (q ++ [x]) (ls ++ [fresh (dom m)]))).
Proof.
  intros Hr. pose proof (push_spec r m q ls module sev ts text Hr) as Hs.
  pose proof (push_steps r m c acc emi rel d module sev ts text) as Hst. simpl in *.
  destruct (_ =? _); destruct Hs as [Hs|Hs]; unpack; simplify_eq;
    (eexists; split; [done|]; split; [by apply Hst|]); eauto 10.
Qed.

(** A drain dequeues: the callback gets the messages of the
    queue in order up to its first refusal, exactly those it took leave the
    queue and their texts are freed, the count returned is their number. A
    callback that never refuses empties the ring, and freeing a ring frees the
    texts of all the messages left in it. *)
Theorem ring_drain_refines {ctx} (cb : LogEntry → option bytes → ctx → bool * ctx) r m c q ls :
  repr r m q ls →
  let n := (feed cb q ls c).1 in
  ∃ r' m', retrace_log_ring_drain cb r m c = (n, r', m', (feed cb q ls c).2) ∧
    repr r' m' (drop n q) (drop n ls) ∧
    (∀ l, m' !! l = if decide (l ∈ take n ls) then None else m !! l) ∧
    ((∀ e t c, (cb e t c).1 = false) → n = length q) ∧
    (∀ l, ring_free (Some r) m !! l = if decide (l ∈ ls) then None else m !! l).
Proof.
  intros Hr. destruct (drain_spec cb r m c q ls Hr) as (r' & m' & Hd & -> & Hr' & _).
  eexists _, _. split; [done|]. split; [done|]. split_and!.
  - intros l. apply hfree_all_lookup.
  - intros Hcb. apply feed_all; [done|].
    destruct Hr as (_ & _ & _ & C & _ & _ & Hs). by eapply slots_length.
  - intros l. rewrite (ring_free_spec _ _ _ _ Hr). apply hfree_all_lookup.
Qed.

(** [ring_alloc] accepts exactly the powers of two, its ring
    is empty with that capacity, and whatever the environment variable holds
    the configured capacity is a power of two between 64 and 65536, so the
    allocation of the ring of a thread only fails for lack of memory. *)
Theorem ring_capacity junk c env :
  (0 ≤ c < 2 ^ 32)%Z →
  (is_Some (ring_alloc true true junk c) ↔ ∃ k : nat, c = (2 ^ Z.of_nat k)%Z) ∧
  (∀ r, ring_alloc true true junk c = Some r → empty_ring r ∧ Z.of_nat (cap r) = c) ∧
  let v := ring_configured_cap env in
  (LOG_RING_CAP_MIN ≤ v ≤ LOG_RING_CAP_MAX)%Z ∧
  is_Some (ring_alloc true true junk v).
Proof.
  intros Hc.
  assert (∀ c, (0 ≤ c < 2 ^ 32)%Z →
    is_Some (ring_alloc true true junk c) ↔ ∃ k : nat, c = (2 ^ Z.of_nat k)%Z) as Hiff.
  { intros v Hv. split; [intros [r Hr]; by apply ring_alloc_some in Hr as [? _]|].
    intros [k Hk]. assert (0 < v)%Z by (rewrite Hk; apply Z.pow_pos_nonneg; lia).
    unfold ring_alloc. assert (u32 (v - 1) = v - 1)%Z as -> by (apply Z.mod_small; lia).
    rewrite (proj2 (land_pred_pow2 v ltac:(lia))) by eauto.
    destruct (v =? 0)%Z eqn:E; [apply Z.eqb_eq in E; lia|]. by eexists. }
  split; [by apply Hiff|]. split; [intros r Hr; by apply ring_alloc_some in Hr as [_ ?]|].
  assert (let v := ring_configured_cap env in (64 ≤ v ≤ 65536)%Z ∧ Z.land v (v - 1) = 0%Z) as [Hb Hp].
  { unfold ring_configured_cap, LOG_RING_DEFAULT_CAP, LOG_RING_CAP_MIN, LOG_RING_CAP_MAX.
    destruct env as [[|x e]|]; [done| |done].
    destruct ((atoi (x :: e) <? 64)%Z || (65536 <? atoi (x :: e))%Z) eqn:E; [done|].
    apply orb_false_iff in E as [E1%Z.ltb_ge E2%Z.ltb_ge].
    destruct (negb _) eqn:E3; [done|]. apply negb_false_iff, Z.eqb_eq in E3.
    assert (u32 (atoi (x :: e)) = atoi (x :: e)) as -> by (apply Z.mod_small; lia). done. }
  simpl. split; [done|]. apply Hiff; [lia|]. apply land_pred_pow2; [lia|done].
Qed.

(** ** Concrete runs *)

Definition demo_ring : LogRing :=
  mkRing 3 0 0 0 (replicate 4 (mkEntry 7 7 7 7 (Some 99))).

Definition demo_msg : msg := mkMsg 5 0 1 (lit "open").

(** One message pushed; a drain under way that has loaded both indices. *)
Definition demo_state : sys :=
  mkSys (set_head 1 (set_entry 0 (entry_of demo_msg 0) demo_ring)) {[0 := lit "open"]}
    PIdle (CLoop 0 1) [demo_msg] [] 0 0.

Lemma demo_empty : empty_ring demo_ring.
Proof. split; [|done]. split; [by exists 2|done]. Qed.

Lemma demo_reachable : reachable demo_ring demo_state.
Proof.
  eapply rtc_l; [apply (p_copy _ _ _ _ _ _ _ demo_msg 0); reflexivity|].
  eapply rtc_l; [apply p_load_head|].
  eapply rtc_l; [apply p_room; vm_compute; discriminate|].
  eapply rtc_l; [apply p_write|].
  eapply rtc_l; [apply p_publish|].
  eapply rtc_l; [apply c_load_tail|].
  eapply rtc_l; [apply c_load_head|].
  match goal with |- rtc _ ?a _ => assert (a = demo_state) as -> by reflexivity end.
  apply rtc_refl.
Qed.

Lemma demo_repr :
  repr (s_ring demo_state) (s_heap demo_state) [demo_msg] [0].
Proof.
  split; [split; [by exists 2|done]|]. split; [simpl; lia|].
  split; [by apply NoDup_singleton|].
  exists 0. split_and!; [done|done|]. split; [by repeat constructor|].
  intros [|j] x l Hx Hl; [|done]. simpl in *. by simplify_eq.
Qed.

Lemma ring_concurrent_fifo_witness : s_emi demo_state `prefix_of` s_acc demo_state.
Proof. apply (ring_concurrent_fifo demo_ring demo_state demo_empty demo_reachable). Defined.

Lemma ring_memory_safe_witness :
  ∃ l, s_heap demo_state !! l = Some (lit "open").
Proof.
  destruct (ring_memory_safe demo_ring demo_state demo_empty demo_reachable) as [H _].
  destruct (H 0 1 eq_refl ltac:(lia)) as (x & l & Hx & _ & Hl).
  exists l. rewrite Hl. injection Hx as <-. reflexivity.
Defined.

Definition demo_emitted : sys :=
  mkSys (s_ring demo_state) (s_heap demo_state) (s_prod demo_state) (CFree 0 1) (s_acc demo_state)
    (s_emi demo_state ++ [demo_msg]) (s_rel demo_state) (s_drops demo_state).

Lemma ring_wait_free_witness : 1 ≤ 2 * 3 + 2 ∧ ∃ s', step demo_emitted s' ∧ s_prod s' = s_prod demo_emitted ∧ s_cons s' ≠ CFree 0 1.
Proof.
  apply (ring_wait_free demo_ring demo_state 1 demo_emitted demo_empty demo_reachable).
  eapply (busy_own _ _ 0 _ demo_emitted).
  - eapply (c_emit _ _ _ _ _ _ _ 0 1 (entry_of demo_msg 0)); [lia|reflexivity..].
  - discriminate.
  - discriminate.
  - constructor. discriminate.
Defined.

Lemma ring_push_refines_witness :
  ∃ r', retrace_log_ring_push true (Some (s_ring demo_state)) (s_heap demo_state) 2 3 6
          (Some (lit "read")) = (0%Z, Some r', <[1 := lit "read"]> (s_heap demo_state)) ∧
    repr r' (<[1 := lit "read"]> (s_heap demo_state))
      [demo_msg; mkMsg 6 2 3 (lit "read")] [0; 1].
Proof.
  destruct (ring_push_refines _ _ _ _ 2 3 6 (lit "read") CIdle [] [] 0 0 demo_repr)
    as (r1 & E & _ & [H|H]).
  - exfalso. destruct H as (H & _). simpl in H. lia.
  - exists r1. destruct H as (_ & _ & _ & _ & H). split; [|exact H].
    rewrite <- E. vm_compute. reflexivity.
Defined.

Lemma ring_drain_refines_witness :
  ∃ r', retrace_log_ring_drain (λ _ t c, (false, c ++ [t])) (s_ring demo_state)
          (s_heap demo_state) [] = (1, r', ∅, [Some (lit "open")]) ∧
    repr r' ∅ [] [].
Proof.
  destruct (ring_drain_refines (λ _ t c, (false, c ++ [t])) (s_ring demo_state)
    (s_heap demo_state) [] _ _ demo_repr) as (r' & m' & E & Hr & Hm & _).
  exists r'. assert (m' = ∅) as ->; [|split; [exact E|exact Hr]].
  apply map_eq. intros l. rewrite Hm, lookup_empty. simpl.
  case_decide as Hl; [reflexivity|]. apply lookup_singleton_ne.
  intros <-. apply Hl. constructor.
Defined.

Lemma ring_capacity_witness :
  is_Some (ring_alloc true true (mkEntry 0 0 0 0 None)
             (ring_configured_cap (Some (lit "4096")))) ∧
  ring_configured_cap (Some (lit "4096")) = 4096%Z.
Proof.
  split; [|vm_compute; reflexivity].
  apply (ring_capacity (mkEntry 0 0 0 0 None) 1 (Some (lit "4096"))). lia.
Defined.

End LogRing.
