(* ===== verification/LogFlusher.v ===== *)
(** * The ring registry and the flusher's walk

    The rest of [src/core/log_ring.c] (the registry of the rings, the ring of
    the calling thread, the walk, the drop total, the teardown) and the drain
    of all rings of [src/core/log_flusher.c]. A ring is named by the number of
    its allocation; [w_rings] holds the rings that are allocated, so a name
    outside it is a dangling pointer. *)

From S2P Require Import Prelude LogRing.

Module LogFlusher.
Import LogRing.

Record world := mkWorld {
  w_rings : gmap nat LogRing;
  w_registry : list nat;
  w_tss : gmap nat nat;
  w_heap : heap;
  w_cap : Z;
}.

(** The outcomes of the allocations and of [rc_tss_set] in one call. *)
Record outcomes := mkOutcomes {
  ring_ok : bool;
  entries_ok : bool;
  node_ok : bool;
  tss_ok : bool;
}.

(** ** The registry *)

Definition registry_add (o : outcomes) (r : nat) (w : world) : world :=
  if node_ok o then
    mkWorld (w_rings w) (r :: w_registry w) (w_tss w) (w_heap w) (w_cap w)
  else
    mkWorld (delete r (w_rings w)) (w_registry w) (w_tss w)
      (ring_free (w_rings w !! r) (w_heap w)) (w_cap w).

(** The ring of thread [tid]; [junk] is the uninitialised memory. *)
Definition retrace_log_ring_get (o : outcomes) (junk : LogEntry) (tid : nat) (w : world)
  : option nat * world :=
  match w_tss w !! tid with
  | Some r => (Some r, w)
  | None =>
      match ring_alloc (ring_ok o) (entries_ok o) junk
              (if (w_cap w =? 0)%Z then LOG_RING_DEFAULT_CAP else w_cap w) with
      | None => (None, w)
      | Some ring =>
          let r := fresh (dom (w_rings w)) in
          let w := mkWorld (<[r := ring]> (w_rings w)) (w_registry w) (w_tss w)
                     (w_heap w) (w_cap w) in
          let w := registry_add o r w in
          if tss_ok o then
            (Some r, mkWorld (w_rings w) (w_registry w) (<[tid := r]> (w_tss w))
                       (w_heap w) (w_cap w))
          else (None, w)
      end
  end.

(** The destructor of the key when thread [tid] exits: its ring stays in the
    registry for the flusher. *)
Definition ring_key_destructor (tid : nat) (w : world) : world :=
  mkWorld (w_rings w) (w_registry w) (delete tid (w_tss w)) (w_heap w) (w_cap w).

(** [retrace_log_ring_walk]: the callback on each registered ring, newest
    first. *)
Fixpoint walk {A} (cb : nat → world * A → world * A) (nodes : list nat) (s : world * A)
  : world * A :=
  match nodes with
  | [] => s
  | r :: nodes => walk cb nodes (cb r s)
  end.

Definition retrace_log_ring_walk {A} (cb : nat → world * A → world * A) (s : world * A)
  : world * A := walk cb (w_registry s.1) s.

Definition dropped_of (w : world) (r : nat) : Z :=
  match w_rings w !! r with Some ring => r_dropped ring | None => 0%Z end.

(** A 64-bit sum of 32-bit counters. *)
Definition retrace_log_ring_total_dropped (w : world) : Z :=
  foldl (λ total r, u64 (total + dropped_of w r)) 0%Z (w_registry w).

Fixpoint deinit_loop (nodes : list nat) (w : world) (total : Z) : world * Z :=
  match nodes with
  | [] => (w, total)
  | r :: nodes =>
      let total := u64 (total + dropped_of w r) in
      let m := ring_free (w_rings w !! r) (w_heap w) in
      deinit_loop nodes
        (mkWorld (delete r (w_rings w)) (w_registry w) (w_tss w) m (w_cap w)) total
  end.

(** The world after the teardown and the drop total it recorded. *)
Definition retrace_log_ring_deinit (w : world) : world * Z :=
  let '(w, total) := deinit_loop (w_registry w) w 0 in
  (mkWorld (w_rings w) [] (w_tss w) (w_heap w) (w_cap w), total).

(** ** The flusher's drain of all rings *)

Section Flush.
Context {ctx : Type}.
(** The emit callback: [true] stands for a non-zero result. *)
Variable emit : LogEntry → option bytes → ctx → bool * ctx.

Record adapter := mkAdapter { a_ctx : ctx; a_emitted : nat; a_stop : bool }.

Definition drain_adapter (e : LogEntry) (text : option bytes) (a : adapter)
  : bool * adapter :=
  if a_stop a then (true, a)
  else
    let '(rc, c) := emit e text (a_ctx a) in
    if rc then (true, mkAdapter c (a_emitted a) true)
    else (false, mkAdapter c (S (a_emitted a)) false).

Definition ring_walk_drain (r : nat) (s : world * adapter) : world * adapter :=
  let '(w, a) := s in
  if a_stop a then (w, a)
  else
    match w_rings w !! r with
    | None => (w, a)
    | Some ring =>
        let '(_, ring, m, a) := retrace_log_ring_drain drain_adapter ring (w_heap w) a in
        (mkWorld (<[r := ring]> (w_rings w)) (w_registry w) (w_tss w) m (w_cap w), a)
    end.

Definition retrace_log_flusher_drain_all (w : world) (c : ctx) : nat * world * ctx :=
  let '(w, a) := retrace_log_ring_walk ring_walk_drain (w, mkAdapter c 0 false) in
  (a_emitted a, w, a_ctx a).

(** ** Specification: one queue, the concatenation of the rings' *)

(** The emit callback over messages in order, up to its first refusal: how
    many it took, whether it refused one, its context. *)
Fixpoint emit_all (q : list (msg * nat)) (c : ctx) : nat * bool * ctx :=
  match q with
  | [] => (0, false, c)
  | (x, l) :: q =>
      let '(rc, c) := emit (entry_of x l) (Some (m_text x)) c in
      if rc then (0, true, c)
      else let '(n, b, c) := emit_all q c in (S n, b, c)
  end.

Lemma emit_all_app q1 q2 c :
  emit_all (q1 ++ q2) c =
  let '(n1, b1, c1) := emit_all q1 c in
  if b1 then (n1, true, c1)
  else let '(n2, b2, c2) := emit_all q2 c1 in (n1 + n2, b2, c2).
Proof.
  revert c. induction q1 as [|[x l] q1 IH]; intros c; simpl.
  - by destruct (emit_all q2 c) as [[??]?].
  - destruct (emit _ _ c) as [[] c1]; [done|]. rewrite IH.
    destruct (emit_all q1 c1) as [[n1 []] c2]; [done|].
    by destruct (emit_all q2 c2) as [[??]?].
Qed.

Lemma emit_all_le q c n b c' : emit_all q c = (n, b, c') →
  n ≤ length q ∧ (b = false → n = length q).
Proof.
  revert c n c'. induction q as [|[x l] q IH]; intros c n c'; simpl; [by intros [= <- <- _]|].
  destruct (emit _ _ c) as [[] c1]; [intros [= <- <- _]; split; [lia|done]|].
  destruct (emit_all q c1) as [[n2 b2] c2] eqn:E. intros [= <- <- _].
  destruct (IH _ _ _ E). split; [lia|]. intros. f_equal. auto.
Qed.

(** The adapter over a ring's queue is [emit_all] on it. *)
Lemma feed_adapter q ls c k :
  length q = length ls →
  feed drain_adapter q ls (mkAdapter c k false) =
  let '(n, b, c') := emit_all (zip q ls) c in (n, mkAdapter c' (k + n) b).
Proof.
  revert ls c k. induction q as [|x q IH]; intros [|l ls] c k Hl; try done.
  { simpl. by rewrite Nat.add_0_r. }
  cbn [feed zip zip_with emit_all]. unfold drain_adapter at 1. simpl.
  destruct (emit _ _ c) as [[] c1]; [by rewrite Nat.add_0_r|].
  rewrite IH by (simpl in Hl; lia). fold (zip q ls).
  destruct (emit_all (zip q ls) c1) as [[n b] c2]. do 2 f_equal. lia.
Qed.

(** The registered rings hold the queues [qs], with disjoint texts. *)
Definition rings_repr (w : world) (nodes : list nat) (qs : list (list (msg * nat))) : Prop :=
  NoDup nodes ∧ NoDup (concat qs).*2 ∧
  Forall2 (λ r q, ∃ ring, w_rings w !! r = Some ring ∧
    repr ring (w_heap w) q.*1 q.*2) nodes qs.

Lemma repr_frame ring m q ls ls' :
  (∀ l, l ∈ ls → l ∉ ls') → repr ring m q ls → repr ring (hfree_all ls' m) q ls.
Proof.
  intros Hd (Hp & Hq & Hnd & C & Ht & Hh & Hf & He). split_and!; [done..|].
  exists C. split_and!; [done..|]. split; [|done].
  apply Forall2_same_length_lookup. split; [by eapply Forall2_length|].
  intros i x l Hx Hl. rewrite hfree_all_lookup, decide_False.
  - by eapply (Forall2_lookup_lr _ _ _ i) in Hf.
  - apply Hd. by eapply list_elem_of_lookup_2.
Qed.

Lemma repr_nil ring m m' : repr ring m [] [] → repr ring m' [] [].
Proof.
  intros (Hp & Hq & Hnd & C & Ht & Hh & _). split_and!; [done..|].
  exists C. split_and!; [done..|]. by split; [constructor|].
Qed.

Lemma walk_stopped nodes w a : a_stop a = true → walk ring_walk_drain nodes (w, a) = (w, a).
Proof. intros Ha. induction nodes as [|r nodes IH]; [done|]. simpl. by rewrite Ha. Qed.

(** The other rings, seen from a world in which one ring was drained. *)
Lemma rings_repr_drained w nodes qs r ring ls :
  r ∉ nodes → (∀ l, l ∈ (concat qs).*2 → l ∉ ls) →
  rings_repr w nodes qs →
  rings_repr (mkWorld (<[r := ring]> (w_rings w)) (w_registry w) (w_tss w)
    (hfree_all ls (w_heap w)) (w_cap w)) nodes qs.
Proof.
  intros Hr Hls (Hn & Hl & Hf). split_and!; [done..|].
  apply Forall2_same_length_lookup. split; [by eapply Forall2_length|].
  intros i r' q Hr' Hq.
  destruct (Forall2_lookup_lr _ _ _ _ _ _ Hf Hr' Hq) as (ring' & Hring & Hrep).
  exists ring'. simpl. split.
  - rewrite lookup_insert_ne; [done|]. intros ->. apply Hr. by eapply list_elem_of_lookup_2.
  - apply repr_frame; [|done]. intros l Hin. apply Hls.
    apply list_elem_of_fmap in Hin as (p & -> & Hp). apply list_elem_of_fmap_2.
    apply list_elem_of_In, in_concat. exists q.
    split; apply list_elem_of_In; [by eapply list_elem_of_lookup_2|done].
Qed.

Lemma rings_repr_cons_inv w r nodes q qs :
  rings_repr w (r :: nodes) (q :: qs) →
  r ∉ nodes ∧ (∀ l, l ∈ (concat qs).*2 → l ∉ q.*2) ∧
  (∃ ring, w_rings w !! r = Some ring ∧ repr ring (w_heap w) q.*1 q.*2) ∧
  rings_repr w nodes qs.
Proof.
  intros (Hn & Hl & Hf). apply NoDup_cons in Hn as [Hr Hn].
  apply Forall2_cons in Hf as [Hring Hf].
  cbn [concat] in Hl. rewrite fmap_app in Hl. apply NoDup_app in Hl as (_ & Hd & Hl).
  split_and!; [done| |done|by split_and!]. intros l H1 H2. by apply (Hd l).
Qed.

Lemma walk_drain_spec nodes qs w c k :
  rings_repr w nodes qs →
  let '(n, b, c') := emit_all (concat qs) c in
  ∃ w' qs', walk ring_walk_drain nodes (w, mkAdapter c k false) = (w', mkAdapter c' (k + n) b) ∧
    rings_repr w' nodes qs' ∧ concat qs' = drop n (concat qs) ∧
    w_registry w' = w_registry w ∧
    (∀ r, r ∉ nodes → w_rings w' !! r = w_rings w !! r).
Proof.
  revert qs w c k. induction nodes as [|r nodes IH]; intros qs w c k Hw.
  { destruct Hw as (Hn & Hl & ->%Forall2_nil_inv_l). simpl.
    exists w, []. rewrite Nat.add_0_r. split_and!; done. }
  destruct qs as [|q qs]; [by destruct Hw as (_ & _ & Hf%Forall2_length)|].
  pose proof Hw as (_ & Hnd & _).
  apply rings_repr_cons_inv in Hw as (Hr & Hdis & (ring & Hring & Hrep) & Hw).
  destruct (drain_spec drain_adapter ring (w_heap w) (mkAdapter c k false) _ _ Hrep)
    as (ring' & m' & Hd & -> & Hrep' & _).
  rewrite feed_adapter, zip_fst_snd in Hd, Hrep' by by rewrite !length_fmap.
  cbn [concat]. rewrite emit_all_app. cbn [walk]. unfold ring_walk_drain at 2. simpl.
  rewrite Hring. destruct (emit_all q c) as [[n1 b1] c1] eqn:E1. simpl in *. rewrite Hd.
  rewrite <- !fmap_drop, <- fmap_take in *.
  set (w1 := mkWorld (<[r := ring']> (w_rings w)) (w_registry w) (w_tss w)
               (hfree_all (take n1 q).*2 (w_heap w)) (w_cap w)).
  assert (rings_repr w1 nodes qs) as Hw1.
  { apply rings_repr_drained; [done| |done]. intros l H1 H2. apply (Hdis l H1).
    rewrite <- (take_drop n1 q), fmap_app. apply elem_of_app. by left. }
  destruct (emit_all_le _ _ _ _ _ E1) as [Hle Hall]. destruct b1.
  - rewrite walk_stopped by done. exists w1, (drop n1 q :: qs). split_and!; [done| | |done|].
    + destruct Hw1 as (Hn1 & Hl1 & Hf1). split_and!; [by constructor| |].
      * cbn [concat]. rewrite <- drop_app_le, fmap_drop by done. by apply NoDup_drop.
      * constructor; [|done]. exists ring'. split; [apply lookup_insert_eq|done].
    + cbn [concat]. by rewrite drop_app_le.
    + intros r' Hr'. simpl. apply lookup_insert_ne. set_solver.
  - specialize (Hall eq_refl) as ->. rewrite drop_ge in Hrep' by done. simpl in Hrep'.
    specialize (IH qs w1 c1 (k + length q) Hw1).
    destruct (emit_all (concat qs) c1) as [[n2 b2] c2].
    destruct IH as (w' & qs' & Hrun & Hw' & Hc & Hreg & Hother).
    exists w', ([] :: qs'). rewrite Hrun, Nat.add_assoc. split_and!; [done| | |done|].
    + destruct Hw' as (Hn1 & Hl1 & Hf1). split_and!; [by constructor|done|].
      constructor; [|done]. exists ring'. split; [|by eapply repr_nil].
      rewrite Hother by done. apply lookup_insert_eq.
    + simpl. rewrite Hc. by rewrite drop_app_add.
    + intros r' Hr'. rewrite Hother by set_solver. apply lookup_insert_ne. set_solver.
Qed.

(** Draining all rings emits the concatenation of their
    queues, newest registered ring first, up to the callback's first refusal:
    the messages emitted are counted, exactly they leave the rings, and every
    other message is still queued in its order. When the callback refuses
    nothing, every ring ends up empty. *)
Theorem flusher_drains_in_order w qs c :
  rings_repr w (w_registry w) qs →
  let '(n, refused, c') := emit_all (concat qs) c in
  ∃ w' qs', retrace_log_flusher_drain_all w c = (n, w', c') ∧
    rings_repr w' (w_registry w') qs' ∧ concat qs' = drop n (concat qs) ∧
    (refused = false → concat qs' = []).
Proof.
  intros Hw. pose proof (walk_drain_spec _ _ _ c 0 Hw) as Hs.
  destruct (emit_all (concat qs) c) as [[n b] c'] eqn:E.
  destruct Hs as (w' & qs' & Hrun & Hw' & Hc & Hreg & _).
  exists w', qs'. unfold retrace_log_flusher_drain_all, retrace_log_ring_walk.
  simpl. rewrite Hrun. split_and!; [done|by rewrite Hreg|done|].
  intros ->. apply emit_all_le in E as [_ Hn]. by rewrite Hc, drop_ge by (rewrite Hn; done).
Qed.

End Flush.
(** ** The registry of live rings *)

(** Every thread's ring is registered and every registered ring is allocated,
    once. *)
Definition wf (w : world) : Prop :=
  (∀ tid r, w_tss w !! tid = Some r → r ∈ w_registry w) ∧
  (∀ r, r ∈ w_registry w → is_Some (w_rings w !! r)) ∧
  NoDup (w_registry w).

Lemma get_wf o junk tid w r w' :
  wf w → node_ok o = true → retrace_log_ring_get o junk tid w = (r, w') →
  wf w' ∧ ∀ r0, r = Some r0 → w_tss w' !! tid = Some r0.
Proof.
  intros (Ht & Hr & Hn) Ho. unfold retrace_log_ring_get.
  destruct (w_tss w !! tid) as [r0|] eqn:Et.
  { intros [= <- <-]. split; [done|]. by intros ? [= <-]. }
  destruct (ring_alloc _ _ _ _) as [ring|]; [|by intros [= <- <-]].
  unfold registry_add. rewrite Ho. simpl. set (r0 := fresh (dom (w_rings w))).
  assert (r0 ∉ w_registry w) as Hfr.
  { intros Hin%Hr%elem_of_dom. by apply (is_fresh (dom (w_rings w))). }
  assert (NoDup (r0 :: w_registry w) ∧
    ∀ r, r ∈ r0 :: w_registry w → is_Some (<[r0 := ring]> (w_rings w) !! r)) as [Hn' Hr'].
  { split; [by constructor|]. intros r1 Hin. destruct (decide (r1 = r0)) as [->|Hne].
    - rewrite lookup_insert_eq. by eexists.
    - rewrite lookup_insert_ne by done. apply Hr. set_solver. }
  destruct (tss_ok o); intros [= <- <-].
  - split; [|intros ? [= <-]; apply lookup_insert_eq]. split_and!; [|done..].
    intros tid' r1. simpl. rewrite lookup_insert. case_decide; [intros [= <-]; set_solver|].
    intros ?%Ht. set_solver.
  - split; [|done]. split_and!; [|done..]. intros tid' r1 ?%Ht. simpl. set_solver.
Qed.

Lemma dropped_of_delete w r r' m reg :
  r ≠ r' →
  dropped_of (mkWorld (delete r (w_rings w)) reg (w_tss w) m (w_cap w)) r' = dropped_of w r'.
Proof. intros. unfold dropped_of. simpl. by rewrite lookup_delete_ne. Qed.

Lemma deinit_loop_total nodes w total :
  NoDup nodes →
  (deinit_loop nodes w total).2 = foldl (λ total r, u64 (total + dropped_of w r)) total nodes ∧
  ∀ r, w_rings (deinit_loop nodes w total).1 !! r =
    if decide (r ∈ nodes) then None else w_rings w !! r.
Proof.
  revert w total. induction nodes as [|r nodes IH]; intros w total Hn; [done|].
  apply NoDup_cons in Hn as [Hr Hn]. cbn [deinit_loop foldl].
  match goal with |- context [deinit_loop nodes ?w1 ?t] => destruct (IH w1 t Hn) as [-> Hd] end.
  split.
  - clear IH Hd. generalize (u64 (total + dropped_of w r)).
    induction nodes as [|r' nodes IHn]; intros z; [done|]. simpl.
    rewrite dropped_of_delete by set_solver. apply IHn; [set_solver|by inversion Hn].
  - intros r'. rewrite Hd. simpl. repeat case_decide; try set_solver.
    + assert (r' = r) as -> by set_solver. apply lookup_delete_eq.
    + apply lookup_delete_ne. set_solver.
Qed.

(** As long as the registry node can be allocated, asking for
    a thread's ring keeps the registry sound, and a ring it returns is
    registered, allocated and the one every later call of the thread returns;
    a thread's exit keeps it sound too. The teardown frees every registered
    ring and records the same drop total the flusher reports. *)
Theorem ring_registry_sound o junk tid w r w' :
  wf w → node_ok o = true → retrace_log_ring_get o junk tid w = (r, w') →
  wf w' ∧ wf (ring_key_destructor tid w') ∧
  (∀ r0, r = Some r0 →
    r0 ∈ w_registry w' ∧ is_Some (w_rings w' !! r0) ∧
    ∀ o', retrace_log_ring_get o' junk tid w' = (Some r0, w')) ∧
  (retrace_log_ring_deinit w').2 = retrace_log_ring_total_dropped w' ∧
  (∀ r0, r0 ∈ w_registry w' → w_rings (retrace_log_ring_deinit w').1 !! r0 = None).
Proof.
  intros Hw Ho Hg. destruct (get_wf _ _ _ _ _ _ Hw Ho Hg) as [Hw' Ht].
  split; [done|]. pose proof Hw' as (Ht' & Hr' & Hn').
  split. { split_and!; [|done..]. intros tid' r1 H. simpl in H. apply lookup_delete_Some in H as [_ H]. by eapply Ht'. }
  split.
  { intros r0 ->. specialize (Ht r0 eq_refl). split_and!; [by eapply Ht'|eauto|].
    intros o'. unfold retrace_log_ring_get. by rewrite Ht. }
  destruct (deinit_loop_total (w_registry w') w' 0 Hn') as [Htot Hdel].
  unfold retrace_log_ring_deinit. destruct (deinit_loop _ _ _) as [w1 total]. simpl in *.
  split; [done|]. intros r0 Hin. rewrite Hdel. by rewrite decide_True.
Qed.

(** When the registry node cannot be allocated, the new ring is
    freed but still returned to the caller and stored as the thread's ring:
    every later push of that thread uses freed memory. *)
Theorem ring_get_dangling junk tid :
  let w := mkWorld ∅ [] ∅ ∅ 1024 in
  let '(r, w') := retrace_log_ring_get (mkOutcomes true true false true) junk tid w in
  ∃ r0, r = Some r0 ∧ w_tss w' !! tid = Some r0 ∧ w_rings w' !! r0 = None.
Proof.
  unfold retrace_log_ring_get. simpl. rewrite lookup_empty.
  eexists. split; [reflexivity|]. simpl. split; [apply lookup_insert_eq|].
  apply lookup_delete_eq.
Qed.

(** ** Concrete runs *)

Definition demo_world : world :=
  mkWorld {[3 := s_ring demo_state]} [3] {[7 := 3]} (s_heap demo_state) 64.

Lemma demo_world_repr : rings_repr demo_world (w_registry demo_world) [[(demo_msg, 0)]].
Proof.
  split_and!; [by apply NoDup_singleton..|]. constructor; [|constructor].
  exists (s_ring demo_state). split; [done|]. apply demo_repr.
Qed.

Lemma flusher_drains_in_order_witness :
  ∃ w', retrace_log_flusher_drain_all (λ _ t c, (false, c ++ [t])) demo_world [] =
    (1, w', [Some (lit "open")]).
Proof.
  destruct (flusher_drains_in_order (λ _ t c, (false, c ++ [t])) demo_world _ []
    demo_world_repr) as (w' & qs' & E & _).
  exists w'. exact E.
Defined.

Lemma demo_world_wf : wf demo_world.
Proof.
  split_and!; [|intros r ->%list_elem_of_singleton; by eexists|by apply NoDup_singleton].
  intros tid r H. simpl in H. apply lookup_singleton_Some in H as [_ <-]. set_solver.
Qed.

Lemma ring_registry_sound_witness :
  ∃ r w', retrace_log_ring_get (mkOutcomes true true true true) (mkEntry 0 0 0 0 None) 8
    demo_world = (Some r, w') ∧ r ∈ w_registry w'.
Proof.
  destruct (retrace_log_ring_get (mkOutcomes true true true true) (mkEntry 0 0 0 0 None) 8
    demo_world) as [[r|] w'] eqn:E; [|exfalso; vm_compute in E; discriminate E].
  exists r, w'. split; [reflexivity|].
  destruct (ring_registry_sound (mkOutcomes true true true true) _ _ _ _ _
    demo_world_wf eq_refl E) as (_ & _ & H & _).
  apply (H r eq_refl).
Defined.

End LogFlusher.
