(* ===== verification/FilterDsl.v ===== *)
(** * The filter expression compiler

    [src/core/filter_dsl.c]: the recursive-descent parser of the filter
    expressions and the compilation into one arena. The parser builds its tree
    through an interface, [Builder]: allocate a string, allocate a node, fill a
    node. Two builders implement it:
    - [HeapBuilder], the arena and the node array of the code, with pointers
      that name the allocation they point into, so that a pointer kept across
      a growth of its array is seen to dangle;
    - [TreeBuilder], which builds the abstract tree and counts what it uses.

    The parser is the code's, once, for both; [compile] is
    [retrace_filter_compile] on the heap builder, relocation included. *)

From S2P Require Import Prelude.

Module FilterDsl.

(** ** Data *)

Inductive fop_kind := FO_EQ | FO_NE | FO_LT | FO_LE | FO_GT | FO_GE | FO_GLOB | FO_NGLOB.

Inductive foperand_kind := FO_NUM | FO_STR | FO_PARAM | FO_FUNC | FO_RET | FO_CALLER.

#[export] Instance fop_kind_eq_dec : EqDecision fop_kind.
Proof. solve_decision. Defined.
#[export] Instance foperand_kind_eq_dec : EqDecision foperand_kind.
Proof. solve_decision. Defined.

(** An operand; [S] is how the strings are referred to. *)
Record foperand (S : Type) := mkOperand {
  o_kind : foperand_kind;
  o_num : Z;
  o_str : option S;
  o_str_len : nat;
}.
Arguments mkOperand {S} _ _ _ _.
Arguments o_kind {S} _.
Arguments o_num {S} _.
Arguments o_str {S} _.
Arguments o_str_len {S} _.

(** The contents of a node; [T] is how the child nodes are referred to. *)
Inductive fbody (T S : Type) :=
  | FN_OR (lhs rhs : T)
  | FN_AND (lhs rhs : T)
  | FN_NOT (child : T)
  | FN_CMP (op : fop_kind) (lhs rhs : foperand S).
Arguments FN_OR {T S} _ _.
Arguments FN_AND {T S} _ _.
Arguments FN_NOT {T S} _.
Arguments FN_CMP {T S} _ _ _.

(** The outcome of a piece of code: a value, undefined behaviour (an access
    through a dangling pointer), or fuel exhausted. *)
Inductive res (A : Type) := Ok (a : A) | Undef | NoFuel.
Arguments Ok {A} _.
Arguments Undef {A}.
Arguments NoFuel {A}.

Definition rbind {A B} (x : res A) (f : A → res B) : res B :=
  match x with Ok a => f a | Undef => Undef | NoFuel => NoFuel end.

Notation "'let!' p := x 'in' k" := (rbind x (λ p, k))
  (at level 200, p pattern, x at level 100, k at level 200, right associativity).

(** What the parser asks of the memory it builds the tree in. *)
Class Builder := {
  bst : Type;
  handle : Type;
  tref : Type;
  sref : Type;
  (** [arena_push] and the copy of the string; [None] when out of memory. *)
  b_string : bytes → bst → option sref * bst;
  (** [node_new]. *)
  b_node : bst → option handle * bst;
  (** The stores through the node pointer. *)
  b_fill : handle → fbody tref sref → bst → res (tref * bst);
  (** The store of a NULL child through the pointer of a negation. *)
  b_null : handle → bst → res bst;
}.

(** ** Characters *)

Definition is_digit (c : ascii) : bool :=
  (uchar "0" <=? uchar c)%Z && (uchar c <=? uchar "9")%Z.

Definition is_alpha (c : ascii) : bool :=
  ((uchar "a" <=? uchar c)%Z && (uchar c <=? uchar "z")%Z) ||
  ((uchar "A" <=? uchar c)%Z && (uchar c <=? uchar "Z")%Z).

Definition is_ident_char (c : ascii) : bool :=
  is_alpha c || is_digit c || ceq c "_".

(** ** The parser *)

Section Parser.
Context `{B : Builder}.

(** The parser's state: the length of the source, what is left of it from the
    cursor on, the first error with its 1-based offset, the memory. *)
Record fparser := mkParser {
  p_len : nat;
  p_rest : bytes;
  p_err : option (string * nat);
  p_mem : bst;
}.

Definition p_pos (p : fparser) : nat := p_len p - length (p_rest p).

Definition set_rest (s : bytes) (p : fparser) : fparser :=
  mkParser (p_len p) s (p_err p) (p_mem p).
Definition set_mem (b : bst) (p : fparser) : fparser :=
  mkParser (p_len p) (p_rest p) (p_err p) b.

(** [perr]: only the first error is kept. *)
Definition perr (at_ : nat) (m : string) (p : fparser) : fparser :=
  match p_err p with
  | Some _ => p
  | None => mkParser (p_len p) (p_rest p) (Some (m, at_ + 1)) (p_mem p)
  end.

Definition fail {A} (m : string) (p : fparser) : res (option A * fparser) :=
  Ok (None, perr (p_pos p) m p).

Definition push_string (s : bytes) (p : fparser) : option sref * fparser :=
  let '(r, b) := b_string s (p_mem p) in
  match r with
  | Some _ => (r, set_mem b p)
  | None => (None, perr (p_pos p) "out of memory" (set_mem b p))
  end.

Definition node_new (p : fparser) : option handle * fparser :=
  let '(r, b) := b_node (p_mem p) in
  match r with
  | Some _ => (r, set_mem b p)
  | None => (None, perr (p_pos p) "out of memory" (set_mem b p))
  end.

Definition fill (h : handle) (body : fbody tref sref) (p : fparser) : res (option tref * fparser) :=
  let! (t, b) := b_fill h body (p_mem p) in Ok (Some t, set_mem b p).

Fixpoint ws_drop (s : bytes) : bytes :=
  match s with
  | [] => []
  | c :: s' => if ceq c " " || ceq c "009" then ws_drop s' else s
  end.

Definition skip_ws (p : fparser) : fparser := set_rest (ws_drop (p_rest p)) p.

Definition starts_with (s kw : bytes) : bool := bool_decide (take (length kw) s = kw).

Definition at_keyword (s kw : bytes) : bool :=
  starts_with s kw && negb (is_ident_char (char_at s (length kw))).

(** The string literal after its opening quote: its unescaped contents and
    what follows the closing quote; [None] when it is not terminated. *)
Fixpoint scan_string (s : bytes) : option (bytes * bytes) :=
  match s with
  | [] => None
  | c :: s' =>
      if ceq c "034" then Some ([], s')
      else
        match ceq c "\", s' with
        | true, d :: s'' =>
            match scan_string s'' with
            | Some (w, r) => Some (d :: w, r)
            | None => None
            end
        | _, _ =>
            match scan_string s' with
            | Some (w, r) => Some (c :: w, r)
            | None => None
            end
        end
  end.

(** The digits at the cursor, accumulated in a [long long]. The standard leaves an
    overflow undefined; it wraps around here, as it does where the compiler does
    not make use of that. *)
Fixpoint scan_digits (v : Z) (s : bytes) : Z * bytes :=
  match s with
  | [] => (v, [])
  | c :: s' =>
      if is_digit c then scan_digits (i64 (v * 10 + (uchar c - 48))) s' else (v, s)
  end.

Fixpoint scan_ident (s : bytes) : bytes * bytes :=
  match s with
  | [] => ([], [])
  | c :: s' =>
      if is_ident_char c then let '(w, r) := scan_ident s' in (c :: w, r)
      else ([], s)
  end.

Definition ident_kind (name : bytes) : foperand_kind :=
  if streq name (lit "func") then FO_FUNC
  else if streq name (lit "ret") then FO_RET
  else if streq name (lit "caller") then FO_CALLER
  else FO_PARAM.

Definition expected_operand : string :=
  "expected operand (name, number, or " ++ String "034" ("string" ++ String "034" ")").

(** A string operand [w] scanned up to [e]: its copy in the arena, and the
    cursor moved on to [r]. *)
Definition str_operand (k : foperand_kind) (w e r : bytes) (p : fparser)
  : res (option (foperand sref) * fparser) :=
  let '(s, p) := push_string w (set_rest e p) in
  match s with
  | None => Ok (None, p)
  | Some s => Ok (Some (mkOperand k 0 (Some s) (length w)), set_rest r p)
  end.

Definition parse_operand (p : fparser) : res (option (foperand sref) * fparser) :=
  let p := skip_ws p in
  let s := p_rest p in
  if ceq (deref s) "034" then
    match scan_string (tail s) with
    | None => fail "unterminated string" (set_rest [] p)
    | Some (w, r) => str_operand FO_STR w ("034"%char :: r) r p
    end
  else if is_digit (deref s) || (ceq (deref s) "-" && is_digit (char_at s 1)) then
    let neg := ceq (deref s) "-" in
    let '(v, r) := scan_digits 0 (if neg then tail s else s) in
    Ok (Some (mkOperand FO_NUM (if neg then i64 (- v) else v) None 0), set_rest r p)
  else if at_keyword s (lit "and") || at_keyword s (lit "or") || at_keyword s (lit "not") then
    fail expected_operand p
  else if is_alpha (deref s) || ceq (deref s) "_" then
    let '(w, r) := scan_ident s in
    str_operand (ident_kind w) w r r p
  else fail expected_operand p.

(** The operator at the cursor, with its length. *)
Definition scan_op (s : bytes) : option (fop_kind * nat) :=
  if starts_with s (lit "==") then Some (FO_EQ, 2)
  else if starts_with s (lit "!=") then Some (FO_NE, 2)
  else if starts_with s (lit "<=") then Some (FO_LE, 2)
  else if starts_with s (lit ">=") then Some (FO_GE, 2)
  else if ceq (deref s) "<" then Some (FO_LT, 1)
  else if ceq (deref s) ">" then Some (FO_GT, 1)
  else if starts_with s (lit "!~") then Some (FO_NGLOB, 2)
  else if ceq (deref s) "~" then Some (FO_GLOB, 1)
  else None.

Definition is_str_kind (k : foperand_kind) : bool :=
  match k with FO_STR | FO_FUNC | FO_CALLER => true | _ => false end.

Definition relational (op : fop_kind) : bool :=
  match op with FO_LT | FO_LE | FO_GT | FO_GE => true | _ => false end.

Definition globbing (op : fop_kind) : bool :=
  match op with FO_GLOB | FO_NGLOB => true | _ => false end.

(** The type rule of a comparison. *)
Definition type_error (op : fop_kind) (l r : foperand_kind) : option string :=
  if relational op && (is_str_kind l || is_str_kind r) then
    Some "relational operators need numeric operands"
  else if globbing op && negb (bool_decide (r = FO_STR)) then
    Some "glob pattern must be a string literal"
  else None.

(** The comparison branch of [parse_primary]. *)
Definition parse_cmp (p : fparser) : res (option tref * fparser) :=
  let '(n, p) := node_new p in
  match n with
  | None => Ok (None, p)
  | Some n =>
      let! (lhs, p) := parse_operand p in
      match lhs with
      | None => Ok (None, p)
      | Some lhs =>
          let p := skip_ws p in
          match scan_op (p_rest p) with
          | None => fail "expected operator (== != < <= > >= ~ !~)" p
          | Some (op, oplen) =>
              let! (rhs, p) := parse_operand (set_rest (drop oplen (p_rest p)) p) in
              match rhs with
              | None => Ok (None, p)
              | Some rhs =>
                  match type_error op (o_kind lhs) (o_kind rhs) with
                  | Some m => fail m p
                  | None => fill n (FN_CMP op lhs rhs) p
                  end
              end
          end
      end
  end.

(** The grammar's productions, in continuation of the cursor. A turn of a loop
    is a call of [and_loop] or [or_loop]. *)
Fixpoint parse_or (fuel : nat) (p : fparser) : res (option tref * fparser) :=
  match fuel with
  | O => NoFuel
  | S fuel =>
      let! (lhs, p) := parse_and fuel p in
      match lhs with
      | None => Ok (None, p)
      | Some lhs => or_loop fuel lhs p
      end
  end
with or_loop (fuel : nat) (lhs : tref) (p : fparser) : res (option tref * fparser) :=
  match fuel with
  | O => NoFuel
  | S fuel =>
      let p := skip_ws p in
      if negb (at_keyword (p_rest p) (lit "or")) then Ok (Some lhs, p)
      else
        let! (rhs, p) := parse_and fuel (set_rest (drop 2 (p_rest p)) p) in
        match rhs with
        | None => Ok (None, p)
        | Some rhs =>
            let '(n, p) := node_new p in
            match n with
            | None => Ok (None, p)
            | Some n =>
                let! (t, p) := fill n (FN_OR lhs rhs) p in
                match t with
                | None => Ok (None, p)
                | Some t => or_loop fuel t p
                end
            end
        end
  end
with parse_and (fuel : nat) (p : fparser) : res (option tref * fparser) :=
  match fuel with
  | O => NoFuel
  | S fuel =>
      let! (lhs, p) := parse_not fuel p in
      match lhs with
      | None => Ok (None, p)
      | Some lhs => and_loop fuel lhs p
      end
  end
with and_loop (fuel : nat) (lhs : tref) (p : fparser) : res (option tref * fparser) :=
  match fuel with
  | O => NoFuel
  | S fuel =>
      let p := skip_ws p in
      if negb (at_keyword (p_rest p) (lit "and")) then Ok (Some lhs, p)
      else
        let! (rhs, p) := parse_not fuel (set_rest (drop 3 (p_rest p)) p) in
        match rhs with
        | None => Ok (None, p)
        | Some rhs =>
            let '(n, p) := node_new p in
            match n with
            | None => Ok (None, p)
            | Some n =>
                let! (t, p) := fill n (FN_AND lhs rhs) p in
                match t with
                | None => Ok (None, p)
                | Some t => and_loop fuel t p
                end
            end
        end
  end
with parse_not (fuel : nat) (p : fparser) : res (option tref * fparser) :=
  match fuel with
  | O => NoFuel
  | S fuel =>
      let p := skip_ws p in
      if at_keyword (p_rest p) (lit "not") then
        let '(n, p) := node_new (set_rest (drop 3 (p_rest p)) p) in
        match n with
        | None => Ok (None, p)
        | Some n =>
            let! (child, p) := parse_not fuel p in
            match child with
            | None => let! b := b_null n (p_mem p) in Ok (None, set_mem b p)
            | Some child => fill n (FN_NOT child) p
            end
        end
      else parse_primary fuel p
  end
with parse_primary (fuel : nat) (p : fparser) : res (option tref * fparser) :=
  match fuel with
  | O => NoFuel
  | S fuel =>
      let p := skip_ws p in
      if ceq (deref (p_rest p)) "(" then
        let! (n, p) := parse_or fuel (set_rest (tail (p_rest p)) p) in
        let p := skip_ws p in
        if negb (ceq (deref (p_rest p)) ")") then fail "expected ')'" p
        else Ok (n, set_rest (tail (p_rest p)) p)
      else parse_cmp p
  end.

(** The fuel the grammar needs: at most six calls for a character. *)
Definition parse_fuel (s : bytes) : nat := 6 * length s + 4.

(** From [parse_or] to the test for trailing input. *)
Definition parse_all (p : fparser) : res (option tref * fparser) :=
  let! (root, p) := parse_or (parse_fuel (p_rest p)) p in
  match root, p_err p with
  | Some root, None =>
      let p := skip_ws p in
      match p_rest p with
      | [] => Ok (Some root, p)
      | _ => fail "unexpected trailing input" p
      end
  | _, _ => Ok (None, p)
  end.

End Parser.
Arguments fparser B : clear implicits.
Arguments mkParser {B} _ _ _ _.

(** ** The abstract tree *)

Inductive ftree :=
  | TOr (l r : ftree)
  | TAnd (l r : ftree)
  | TNot (t : ftree)
  | TCmp (op : fop_kind) (l r : foperand bytes).

Definition tree_of (b : fbody ftree bytes) : ftree :=
  match b with
  | FN_OR l r => TOr l r
  | FN_AND l r => TAnd l r
  | FN_NOT t => TNot t
  | FN_CMP op l r => TCmp op l r
  end.

(** Builds trees of at most [N] nodes and [A] bytes of strings. *)
Definition TreeBuilder (N A : nat) : Builder := {|
  bst := nat * nat;
  handle := unit;
  tref := ftree;
  sref := bytes;
  b_string s '(n, a) :=
    if A <? a + (length s + 1) then (None, (n, a)) else (Some s, (n, a + (length s + 1)));
  b_node '(n, a) := if N <=? n then (None, (n, a)) else (Some tt, (n + 1, a));
  b_fill _ body b := Ok (tree_of body, b);
  b_null _ b := Ok b;
|}.

(** ** The arena and the node array *)

(** A pointer: the allocation and the index in it. *)
Abbreviation ptr := (nat * nat)%type.

Definition hnode := fbody (option ptr) ptr.

Definition zero_node : hnode := FN_OR None None.

Record heap := mkHeap {
  arena_blk : nat;
  arena_cap : nat;
  arena : bytes;
  nodes_blk : nat;
  node_cap : nat;
  nodes : list hnode;
  next_blk : nat;       (** the number of the next allocation *)
}.

Definition body_map {T T' S S'} (f : T → T') (g : S → S') (b : fbody T S) : fbody T' S' :=
  let go o := mkOperand (o_kind o) (o_num o) (g <$> o_str o) (o_str_len o) in
  match b with
  | FN_OR l r => FN_OR (f l) (f r)
  | FN_AND l r => FN_AND (f l) (f r)
  | FN_NOT c => FN_NOT (f c)
  | FN_CMP op l r => FN_CMP op (go l) (go r)
  end.

Section Heap.
(** Whether the [i]th allocation succeeds. *)
Variable alloc_ok : nat → bool.

(** [arena_push (len + 1)] followed by the copy and its terminator. *)
Definition arena_push (s : bytes) (h : heap) : option ptr * heap :=
  let n := length s + 1 in
  let put h :=
    (Some (arena_blk h, length (arena h)),
     mkHeap (arena_blk h) (arena_cap h) (arena h ++ s ++ [NUL])
       (nodes_blk h) (node_cap h) (nodes h) (next_blk h)) in
  if arena_cap h <? length (arena h) + n then
    if alloc_ok (next_blk h) then
      put (mkHeap (next_blk h) (arena_cap h * 2 + n + 64) (arena h)
             (nodes_blk h) (node_cap h) (nodes h) (S (next_blk h)))
    else
      (None, mkHeap (arena_blk h) (arena_cap h) (arena h)
               (nodes_blk h) (node_cap h) (nodes h) (S (next_blk h)))
  else put h.

Definition heap_node_new (h : heap) : option ptr * heap :=
  let put h :=
    (Some (nodes_blk h, length (nodes h)),
     mkHeap (arena_blk h) (arena_cap h) (arena h)
       (nodes_blk h) (node_cap h) (nodes h ++ [zero_node]) (next_blk h)) in
  if length (nodes h) =? node_cap h then
    if alloc_ok (next_blk h) then
      put (mkHeap (arena_blk h) (arena_cap h) (arena h)
             (next_blk h) (node_cap h * 2 + 16) (nodes h) (S (next_blk h)))
    else
      (None, mkHeap (arena_blk h) (arena_cap h) (arena h)
               (nodes_blk h) (node_cap h) (nodes h) (S (next_blk h)))
  else put h.

(** A store through a node pointer: undefined when the array it points into
    has been freed. *)
Definition heap_store (q : ptr) (n : hnode) (h : heap) : res heap :=
  if fst q =? nodes_blk h then
    Ok (mkHeap (arena_blk h) (arena_cap h) (arena h)
          (nodes_blk h) (node_cap h) (<[snd q := n]> (nodes h)) (next_blk h))
  else Undef.

#[local] Instance HeapBuilder : Builder := {|
  bst := heap;
  handle := ptr;
  tref := ptr;
  sref := ptr;
  b_string := arena_push;
  b_node := heap_node_new;
  b_fill q body h := let! h := heap_store q (body_map Some id body) h in Ok (q, h);
  b_null q h := heap_store q (FN_NOT None) h;
|}.

(** ** [retrace_filter_compile] *)

(** A pointer of the finished tree, into the single allocation: NULL, an
    index, or the address that relocating a dangling pointer gives. *)
Inductive rptr := RNull | RAt (i : nat) | RWild.

Definition reloc (blk : nat) (q : option ptr) : rptr :=
  match q with
  | None => RNull
  | Some (b, i) => if b =? blk then RAt i else RWild
  end.

Definition reloc_str (blk : nat) (q : ptr) : rptr := reloc blk (Some q).

Record retrace_filter_ast := mkAst {
  a_arena : bytes;
  a_nodes : list (fbody rptr rptr);
  a_root : rptr;
}.

Definition relocate (h : heap) (root : ptr) : retrace_filter_ast :=
  mkAst (arena h)
    (body_map (reloc (nodes_blk h)) (reloc_str (arena_blk h)) <$> nodes h)
    (reloc (nodes_blk h) (Some root)).

Definition seed_heap : heap := mkHeap 0 128 [] 1 16 [] 2.

Abbreviation error := (string * nat)%type.

Definition retrace_filter_compile (expr : option bytes)
  : res (option retrace_filter_ast * option error) :=
  let oom := Ok (None, Some ("out of memory", 1)) in
  match expr with
  | None | Some [] => Ok (None, Some ("empty expression", 1))
  | Some s =>
      if negb (alloc_ok 0 && alloc_ok 1) then oom
      else
        let! (root, p) := parse_all (mkParser (length s) s None seed_heap) in
        match root with
        | None => Ok (None, p_err p)
        | Some root =>
            let h := p_mem p in
            if negb (alloc_ok (next_blk h)) then oom
            else if negb (alloc_ok (S (next_blk h))) then oom
            else Ok (Some (relocate h root), None)
        end
  end.
End Heap.

(** ** Termination *)

(** A builder's stores run no loop of the parser. *)
Class BuilderTotal (B : Builder) := {
  b_fill_total h body b : b_fill h body b ≠ NoFuel;
  b_null_total h b : b_null h b ≠ NoFuel;
}.

#[export] Instance TreeBuilder_total N A : BuilderTotal (TreeBuilder N A).
Proof. by split. Qed.

#[export] Instance HeapBuilder_total alloc_ok : BuilderTotal (HeapBuilder alloc_ok).
Proof. split; intros; cbn; unfold heap_store; by destruct (_ =? _). Qed.

Lemma ws_drop_length s : length (ws_drop s) ≤ length s.
Proof. induction s as [|c s IH]; [done|]. cbn. case_if; cbn; lia. Qed.

Lemma scan_string_length s w r : scan_string s = Some (w, r) → length r < length s.
Proof.
  revert w r. induction s as [s IH] using (induction_ltof1 _ (@length ascii)).
  unfold ltof in IH. intros w r. destruct s as [|c s]; [done|]. cbn.
  repeat case_match; intros; simplify_eq; cbn in *;
    match goal with H : scan_string _ = _ |- _ => apply IH in H | |- _ => idtac end; cbn in *; lia.
Qed.

Lemma scan_digits_length v s : length (scan_digits v s).2 ≤ length s.
Proof.
  revert v. induction s as [|c s IH]; intros v; cbn; [done|].
  case_if; cbn; [|lia]. specialize (IH (i64 (v * 10 + (uchar c - 48)))). lia.
Qed.

Lemma scan_ident_length s : length (scan_ident s).2 ≤ length s.
Proof.
  induction s as [|c s IH]; cbn; [done|].
  case_if; cbn; [|lia]. destruct (scan_ident s); cbn in *. lia.
Qed.

Lemma starts_with_length s kw : starts_with s kw = true → length kw ≤ length s.
Proof.
  unfold starts_with; intros H; bool_to_prop.
  rewrite <- H. rewrite length_take. lia.
Qed.

Section Termination.
Context {B : Builder} {BL : BuilderTotal B}.

(** The outcome is not a lack of fuel and leaves at most [n] characters. *)
Definition shrinks {A} (n : nat) (r : res (A * fparser B)) : Prop :=
  match r with
  | Ok (_, p) => length (p_rest p) ≤ n
  | Undef => True
  | NoFuel => False
  end.

Lemma shrinks_bind {A C} n m (x : res (A * fparser B)) (k : A * fparser B → res (C * fparser B)) :
  shrinks n x → (∀ a p, length (p_rest p) ≤ n → shrinks m (k (a, p))) → shrinks m (rbind x k).
Proof. destruct x as [[a p]| |]; cbn; auto. Qed.

Lemma shrinks_mono {A} n m (x : res (A * fparser B)) : shrinks n x → n ≤ m → shrinks m x.
Proof. destruct x as [[a p]| |]; cbn; auto. lia. Qed.

Lemma perr_rest a m (p : fparser B) : p_rest (perr a m p) = p_rest p.
Proof. unfold perr. by destruct (p_err p). Qed.

Lemma push_string_rest s (p : fparser B) : p_rest (push_string s p).2 = p_rest p.
Proof.
  unfold push_string. destruct (b_string _ _) as [[?|] ?]; cbn; by rewrite ?perr_rest.
Qed.

Lemma node_new_rest (p : fparser B) : p_rest (node_new p).2 = p_rest p.
Proof.
  unfold node_new. destruct (b_node _) as [[?|] ?]; cbn; by rewrite ?perr_rest.
Qed.

Lemma fail_shrinks {A} n m (p : fparser B) : length (p_rest p) ≤ n → shrinks n (fail (A := A) m p).
Proof. unfold fail; cbn. by rewrite perr_rest. Qed.

Lemma fill_shrinks n h body (p : fparser B) : length (p_rest p) ≤ n → shrinks n (fill h body p).
Proof.
  unfold fill. pose proof (b_fill_total h body (p_mem p)).
  by destruct (b_fill _ _ _) as [[? ?]| |].
Qed.

Lemma str_operand_shrinks n k w e r (p : fparser B) :
  length e ≤ n → length r ≤ n → shrinks n (str_operand k w e r p).
Proof.
  intros. unfold str_operand. pose proof (push_string_rest w (set_rest e p)) as Hr.
  destruct (push_string _ _) as [[?|] ?]; cbn in *; [done|by rewrite Hr].
Qed.

Lemma parse_operand_shrinks n (p : fparser B) :
  length (p_rest p) ≤ n → shrinks n (parse_operand p).
Proof.
  intros Hn. unfold parse_operand. pose proof (ws_drop_length (p_rest p)) as Hw.
  cbn [p_rest skip_ws set_rest]. remember (ws_drop (p_rest p)) as s eqn:Hs.
  case_if; [|case_if; [|case_if; [|case_if]]].
  - destruct (scan_string (tail s)) as [[w r]|] eqn:E.
    + apply scan_string_length in E. assert (length (tail s) ≤ length s - 1) by (destruct s; cbn; lia).
      apply str_operand_shrinks; cbn; lia.
    + apply fail_shrinks; cbn; rewrite <- ?Hs; cbn; lia.
  - destruct (scan_digits _ _) as [v r] eqn:E. cbn.
    pose proof (scan_digits_length 0 (if ceq (deref s) "-" then tail s else s)) as H.
    rewrite E in H; cbn in H. destruct (ceq _ _), s; cbn in *; lia.
  - apply fail_shrinks; cbn; rewrite <- ?Hs; cbn; lia.
  - pose proof (scan_ident_length s) as HI. destruct (scan_ident s) as [w r]; cbn in HI.
    apply str_operand_shrinks; lia.
  - apply fail_shrinks; cbn; rewrite <- ?Hs; cbn; lia.
Qed.

Lemma parse_cmp_shrinks n (p : fparser B) : length (p_rest p) ≤ n → shrinks n (parse_cmp p).
Proof.
  intros Hn. unfold parse_cmp. pose proof (node_new_rest p) as Hr.
  destruct (node_new p) as [[h|] p1]; cbn in Hr; [|by cbn; rewrite Hr].
  eapply shrinks_bind; [apply parse_operand_shrinks; rewrite Hr; exact Hn|].
  intros [l|] p2 H2; [|done]. pose proof (ws_drop_length (p_rest p2)).
  destruct (scan_op _) as [[op k]|]; [|apply fail_shrinks; cbn; lia].
  eapply shrinks_bind.
  { apply (parse_operand_shrinks n). cbn. rewrite length_drop. lia. }
  intros [r|] p3 H3; [|done].
  destruct (type_error _ _ _); [by apply fail_shrinks|by apply fill_shrinks].
Qed.

(** The calls each production makes, for the characters left. *)
Definition fuel_ok (fuel : nat) : Prop :=
  ∀ p : fparser B, let n := length (p_rest p) in
  (6 * n + 4 ≤ fuel → shrinks n (parse_or fuel p)) ∧
  (∀ t, 6 * n + 1 ≤ fuel → shrinks n (or_loop fuel t p)) ∧
  (6 * n + 3 ≤ fuel → shrinks n (parse_and fuel p)) ∧
  (∀ t, 6 * n + 1 ≤ fuel → shrinks n (and_loop fuel t p)) ∧
  (6 * n + 2 ≤ fuel → shrinks n (parse_not fuel p)) ∧
  (6 * n + 1 ≤ fuel → shrinks n (parse_primary fuel p)).

(** A turn of [or_loop] or [and_loop] after its keyword. *)
Lemma loop_shrinks n m (x : res (option tref * fparser B))
    (k : tref → fparser B → res (option tref * fparser B)) (c : tref → fbody tref sref) :
  shrinks m x → m ≤ n →
  (∀ t p, length (p_rest p) ≤ m → shrinks n (k t p)) →
  shrinks n (let! (rhs, p) := x in
             match rhs with
             | None => Ok (None, p)
             | Some rhs =>
                 let '(h, p) := node_new p in
                 match h with
                 | None => Ok (None, p)
                 | Some h =>
                     let! (t, p) := fill h (c rhs) p in
                     match t with
                     | None => Ok (None, p)
                     | Some t => k t p
                     end
                 end
             end).
Proof.
  intros Hx Hm Hk. eapply shrinks_bind; [exact Hx|]. intros [rhs|] p Hp; [|cbn; lia].
  pose proof (node_new_rest p) as Hr. destruct (node_new p) as [[h|] p1]; cbn in Hr; rewrite <- Hr in Hp; [|cbn; lia].
  eapply (shrinks_bind m); [apply fill_shrinks; lia|]. intros [t|] p2 H2; [auto|cbn; lia].
Qed.

Lemma at_keyword_length s kw : at_keyword s kw = true → length kw ≤ length s.
Proof. unfold at_keyword; intros H; bool_to_prop. by apply starts_with_length. Qed.

Lemma fuel_ok_all fuel : fuel_ok fuel.
Proof.
  induction fuel as [|fuel IH]; intros p n; [split_and!; intros; lia|].
  pose proof (ws_drop_length (p_rest p)) as Hw.
  split_and!; [intros Hf|intros t Hf|intros Hf|intros t Hf|intros Hf|intros Hf]; cbn -[Nat.mul].
  - eapply shrinks_bind; [apply IH; lia|]. intros [t|] q Hq; [|done].
    eapply shrinks_mono; [apply IH; lia|lia].
  - destruct (at_keyword (ws_drop (p_rest p)) _) eqn:E; cbn [negb]; [|cbn; lia].
    apply at_keyword_length in E. cbn in E.
    apply (loop_shrinks n (length (ws_drop (p_rest p)) - 2)); [|lia|].
    + eapply shrinks_mono; [apply IH|]; cbn; rewrite ?length_drop; lia.
    + intros t' q Hq. eapply shrinks_mono; [apply IH; lia|lia].
  - eapply shrinks_bind; [apply IH; lia|]. intros [t|] q Hq; [|done].
    eapply shrinks_mono; [apply IH; lia|lia].
  - destruct (at_keyword (ws_drop (p_rest p)) _) eqn:E; cbn [negb]; [|cbn; lia].
    apply at_keyword_length in E. cbn in E.
    apply (loop_shrinks n (length (ws_drop (p_rest p)) - 3)); [|lia|].
    + eapply shrinks_mono; [apply IH|]; cbn; rewrite ?length_drop; lia.
    + intros t' q Hq. eapply shrinks_mono; [apply IH; lia|lia].
  - destruct (at_keyword (ws_drop (p_rest p)) _) eqn:E.
    + apply at_keyword_length in E. cbn in E.
      match goal with |- context [node_new ?q] => pose proof (node_new_rest q) as Hr; destruct (node_new q) as [[h|] p1] end;
        cbn in Hr; assert (length (p_rest p1) ≤ n - 3) by (rewrite Hr, length_drop; lia); [|cbn; lia].
      eapply shrinks_bind; [apply IH; lia|]. intros [t|] q Hq; [apply fill_shrinks; lia|].
      pose proof (b_null_total h (p_mem q)). destruct (b_null _ _); cbn; [lia|done|done].
    + eapply shrinks_mono; [apply IH|]; cbn; lia.
  - case_if; [|apply parse_cmp_shrinks; cbn; lia].
    assert (length (tail (ws_drop (p_rest p))) < length (ws_drop (p_rest p)))
      by (destruct (ws_drop (p_rest p)); [done|cbn; lia]).
    eapply shrinks_bind; [apply IH; cbn; lia|]. cbn. intros t q Hq.
    pose proof (ws_drop_length (p_rest q)).
    case_if; [apply fail_shrinks; cbn; lia|]. cbn. destruct (ws_drop (p_rest q)); cbn in *; lia.
Qed.

Lemma parse_all_total (p : fparser B) : parse_all p ≠ NoFuel.
Proof.
  unfold parse_all, parse_fuel.
  pose proof (proj1 (fuel_ok_all (6 * length (p_rest p) + 4) p) (le_n _)) as H.
  destruct (parse_or _ _) as [[[t|] q]| |]; cbn in *; [|done..].
  by destruct (p_err q); [|destruct (ws_drop _)].
Qed.
End Termination.

(** ** More fuel changes nothing *)

Definition res_le {A} (x y : res A) : Prop := x = NoFuel ∨ x = y.

Lemma res_le_refl {A} (x : res A) : res_le x x.
Proof. by right. Qed.

Lemma res_le_bind {A C} (x y : res A) (k k' : A → res C) :
  res_le x y → (∀ a, res_le (k a) (k' a)) → res_le (rbind x k) (rbind y k').
Proof.
  intros [-> | ->] Hk; [by left|]. destruct y; cbn; [apply Hk|by right|by left].
Qed.

#[export] Hint Resolve res_le_refl : retrace.

Lemma fuel_mono {B : Builder} fuel : ∀ (fuel' : nat) (p : fparser B), fuel ≤ fuel' →
  res_le (parse_or fuel p) (parse_or fuel' p) ∧
  (∀ t, res_le (or_loop fuel t p) (or_loop fuel' t p)) ∧
  res_le (parse_and fuel p) (parse_and fuel' p) ∧
  (∀ t, res_le (and_loop fuel t p) (and_loop fuel' t p)) ∧
  res_le (parse_not fuel p) (parse_not fuel' p) ∧
  res_le (parse_primary fuel p) (parse_primary fuel' p).
Proof.
  induction fuel as [|fuel IH]; intros fuel' p Hle; [split_and!; intros; by left|].
  destruct fuel' as [|fuel']; [lia|]. apply le_S_n in Hle.
  split_and!; intros; cbn [parse_or or_loop parse_and and_loop parse_not parse_primary].
  - apply res_le_bind; [by apply IH|]. intros [[t|] q]; [by apply IH|auto with retrace].
  - case_if; [auto with retrace|]. apply res_le_bind; [by apply IH|].
    intros [[r|] q]; [|auto with retrace]. destruct (node_new q) as [[h|] q']; [|auto with retrace].
    apply res_le_bind; [auto with retrace|]. intros [[t'|] q'']; [by apply IH|auto with retrace].
  - apply res_le_bind; [by apply IH|]. intros [[t|] q]; [by apply IH|auto with retrace].
  - case_if; [auto with retrace|]. apply res_le_bind; [by apply IH|].
    intros [[r|] q]; [|auto with retrace]. destruct (node_new q) as [[h|] q']; [|auto with retrace].
    apply res_le_bind; [auto with retrace|]. intros [[t'|] q'']; [by apply IH|auto with retrace].
  - case_if; [|by apply IH]. destruct (node_new _) as [[h|] q']; [|auto with retrace].
    apply res_le_bind; [by apply IH|]. intros [[t|] q]; auto with retrace.
  - case_if; [|auto with retrace]. apply res_le_bind; [by apply IH|]. auto with retrace.
Qed.

(** [g] gives [v] from some fuel on. *)
Definition evt {A} (g : nat → res A) (v : res A) : Prop := ∃ f, ∀ f', f ≤ f' → g f' = v.

Lemma evt_S {A} (g : nat → res A) v : evt (λ f, g (S f)) v → evt g v.
Proof. intros [f H]. exists (S f). intros [|f'] ?; [lia|]. apply H; lia. Qed.

Lemma evt_ext {A} (g g' : nat → res A) v : (∀ f, g f = g' f) → evt g' v → evt g v.
Proof. intros E [f H]. exists f. intros. rewrite E. auto. Qed.

Lemma evt_const {A} (v : res A) : evt (λ _, v) v.
Proof. by exists 0. Qed.

Lemma evt_bind {A C} (g : nat → res A) (k : nat → A → res C) a v :
  evt g (Ok a) → evt (λ f, k f a) v → evt (λ f, rbind (g f) (k f)) v.
Proof.
  intros [f1 H1] [f2 H2]. exists (f1 + f2). intros f' ?.
  rewrite H1 by lia. cbn. apply H2; lia.
Qed.

(** What holds from some fuel on holds with the fuel of [parse_all]. *)
Lemma parse_or_evt {B : Builder} {BL : BuilderTotal B} (p : fparser B) v :
  evt (λ f, parse_or f p) v → parse_or (parse_fuel (p_rest p)) p = v.
Proof.
  intros [f H]. unfold parse_fuel. set (f0 := 6 * length (p_rest p) + 4).
  pose proof (proj1 (fuel_ok_all f0 p) (le_n _)) as Ht.
  destruct (proj1 (fuel_mono f0 (max f f0) p (Nat.le_max_r _ _))) as [E|E].
  - by rewrite E in Ht.
  - rewrite E. apply H. lia.
Qed.

End FilterDsl.
