(* ===== verification/FilterGrammar.v ===== *)
(** * The grammar of the filter expressions

    What the parser of [FilterDsl] accepts, independently of its code: the
    well-formed trees ([wf_tree]) and a printer that writes one with the
    parentheses its precedence needs. The parser accepts the text of every
    well-formed tree and rebuilds that tree, and every tree it builds is
    well formed. *)

From S2P Require Import Prelude FilterDsl.
Import FilterDsl.

Module FilterGrammar.

(** ** Well-formed trees *)

Definition keyword (w : bytes) : bool :=
  streq w (lit "and") || streq w (lit "or") || streq w (lit "not").

Definition ident_start (c : ascii) : bool := is_alpha c || ceq c "_".

Definition ident_ok (w : bytes) : bool :=
  ident_start (deref w) && forallb is_ident_char w && negb (keyword w).

Definition wf_operand (o : foperand bytes) : bool :=
  match o_kind o, o_str o with
  | FO_NUM, None =>
      bool_decide (o_str_len o = 0) &&
      bool_decide (- 2 ^ 63 ≤ o_num o < 2 ^ 63)%Z
  | FO_NUM, Some _ => false
  | _, None => false
  | FO_STR, Some w =>
      bool_decide (o_str_len o = length w) && bool_decide (o_num o = 0%Z) &&
      bool_decide (no_nul w)
  | k, Some w =>
      bool_decide (o_str_len o = length w) && bool_decide (o_num o = 0%Z) &&
      ident_ok w && bool_decide (k = ident_kind w)
  end.

Definition well_typed (op : fop_kind) (l r : foperand_kind) : bool :=
  match type_error op l r with None => true | Some _ => false end.

Fixpoint wf_tree (t : ftree) : bool :=
  match t with
  | TOr l r | TAnd l r => wf_tree l && wf_tree r
  | TNot t => wf_tree t
  | TCmp op l r => wf_operand l && wf_operand r && well_typed op (o_kind l) (o_kind r)
  end.

(** The nodes and the bytes of string arena a tree takes. *)
Fixpoint tree_size (t : ftree) : nat :=
  match t with
  | TOr l r | TAnd l r => S (tree_size l + tree_size r)
  | TNot t => S (tree_size t)
  | TCmp _ _ _ => 1
  end.

Definition operand_bytes (o : foperand bytes) : nat :=
  match o_str o with Some w => length w + 1 | None => 0 end.

Fixpoint tree_bytes (t : ftree) : nat :=
  match t with
  | TOr l r | TAnd l r => tree_bytes l + tree_bytes r
  | TNot t => tree_bytes t
  | TCmp _ l r => operand_bytes l + operand_bytes r
  end.

(** ** The printer *)

Definition digit_char (d : Z) : ascii := ascii_of_nat (48 + Z.to_nat d).

Fixpoint print_digits (fuel : nat) (z : Z) (acc : bytes) : bytes :=
  match fuel with
  | O => acc
  | S fuel =>
      if (z <? 10)%Z then digit_char z :: acc
      else print_digits fuel (z / 10) (digit_char (z mod 10) :: acc)
  end.

Definition print_num (z : Z) : bytes :=
  if (z <? 0)%Z then "-"%char :: print_digits 20 (- z) [] else print_digits 20 z [].

Fixpoint escape (w : bytes) : bytes :=
  match w with
  | [] => []
  | c :: w => if ceq c "034" || ceq c "\" then "\"%char :: c :: escape w else c :: escape w
  end.

Definition print_operand (o : foperand bytes) : bytes :=
  let w := default [] (o_str o) in
  match o_kind o with
  | FO_NUM => print_num (o_num o)
  | FO_STR => "034"%char :: escape w ++ ["034"%char]
  | _ => w
  end.

Definition print_op (op : fop_kind) : bytes :=
  match op with
  | FO_EQ => lit "==" | FO_NE => lit "!=" | FO_LT => lit "<" | FO_LE => lit "<="
  | FO_GT => lit ">" | FO_GE => lit ">=" | FO_GLOB => lit "~" | FO_NGLOB => lit "!~"
  end.

Inductive level := LOr | LAnd | LNot.

Fixpoint print (l : level) (t : ftree) : bytes :=
  let paren s := "("%char :: s ++ [")"%char] in
  match t with
  | TOr a b =>
      let s := print LOr a ++ lit " or " ++ print LAnd b in
      match l with LOr => s | _ => paren s end
  | TAnd a b =>
      let s := print LAnd a ++ lit " and " ++ print LNot b in
      match l with LNot => paren s | _ => s end
  | TNot t => lit "not " ++ print LNot t
  | TCmp op x y => print_operand x ++ " "%char :: print_op op ++ " "%char :: print_operand y
  end.

(** ** Scanning what was printed *)

(** What may follow an operand. *)
Definition bnd (r : bytes) : Prop := is_ident_char (deref r) = false.

Lemma is_digit_ident c : is_digit c = true → is_ident_char c = true.
Proof. unfold is_ident_char. intros ->. by rewrite orb_true_r. Qed.

Lemma scan_ident_app w r : forallb is_ident_char w = true → bnd r → scan_ident (w ++ r) = (w, r).
Proof.
  intros Hw Hr. induction w as [|c w IH]; cbn in *.
  - destruct r as [|d r]; [done|]. cbn. unfold bnd in Hr; cbn in Hr. by rewrite Hr.
  - bool_to_prop. by rewrite H, IH.
Qed.

Lemma scan_ident_split s w r :
  scan_ident s = (w, r) → s = w ++ r ∧ forallb is_ident_char w = true ∧ bnd r.
Proof.
  revert w r. induction s as [|c s IH]; cbn; intros w r.
  - intros [= <- <-]. done.
  - case_if; [|by intros [= <- <-]]. destruct (scan_ident s) as [w' r'].
    intros [= <- <-]. destruct (IH w' r') as (-> & Hw & Hr); [done|]. cbn. by rewrite Heqb, Hw.
Qed.

(** A keyword at the cursor is the identifier at the cursor. *)
Lemma at_keyword_ident s kw :
  forallb is_ident_char kw = true → at_keyword s kw = streq (scan_ident s).1 kw.
Proof.
  intros Hk. destruct (scan_ident s) as [w r] eqn:E. cbn.
  apply scan_ident_split in E as (-> & Hw & Hr).
  apply eq_bool_prop_intro; split; intros H%Is_true_true.
  - unfold at_keyword, starts_with in H. bool_to_prop.
    rewrite Is_true_true. apply streq_true.
    assert (bnd (drop (length kw) (w ++ r))) as Hb.
    { unfold bnd, deref. rewrite head_lookup, lookup_drop, Nat.add_0_r. exact H0. }
    pose proof (scan_ident_app w r Hw Hr) as E1.
    rewrite <- (take_drop (length kw) (w ++ r)), H, scan_ident_app in E1 by done. congruence.
  - apply streq_true in H as ->. unfold at_keyword, starts_with.
    rewrite take_app_length, bool_decide_true by done. cbn.
    unfold char_at. rewrite lookup_app_r, Nat.sub_diag by lia.
    unfold bnd, deref in Hr. rewrite head_lookup in Hr. by rewrite Hr.
Qed.

Definition kw_free (s : bytes) : Prop := keyword (scan_ident s).1 = false.

Lemma kw_free_at s :
  kw_free s → at_keyword s (lit "and") = false ∧ at_keyword s (lit "or") = false ∧
              at_keyword s (lit "not") = false.
Proof.
  unfold kw_free, keyword. intros H; bool_to_prop.
  by rewrite !at_keyword_ident by done; split_and!; apply streq_false.
Qed.

Lemma scan_string_escape w r : scan_string (escape w ++ "034"%char :: r) = Some (w, r).
Proof.
  induction w as [|c w IH]; [done|]. cbn [escape]. destruct (ceq c "034" || ceq c "\") eqn:E.
  - cbn [app scan_string]. by rewrite IH.
  - bool_to_prop. cbn [app scan_string]. rewrite IH.
    by rewrite !(proj2 (ceq_false _ _)) by done.
Qed.

(** ** Numbers *)

Lemma i64_range z : (- 2 ^ 63 ≤ i64 z < 2 ^ 63)%Z.
Proof. unfold i64. pose proof (Z.mod_pos_bound (z + 2 ^ 63) (2 ^ 64)). lia. Qed.

Lemma i64_id z : (- 2 ^ 63 ≤ z < 2 ^ 63)%Z → i64 z = z.
Proof. intros. unfold i64. rewrite Z.mod_small by lia. lia. Qed.

Lemma i64_mod z : (i64 z mod 2 ^ 64 = z mod 2 ^ 64)%Z.
Proof. unfold i64. rewrite Zminus_mod_idemp_l. f_equal. lia. Qed.

Lemma i64_eq a b : (a mod 2 ^ 64 = b mod 2 ^ 64)%Z → i64 a = i64 b.
Proof.
  intros H. unfold i64. by rewrite <- (Zplus_mod_idemp_l a), H, Zplus_mod_idemp_l.
Qed.

Lemma i64_step a d : i64 (i64 a * 10 + d) = i64 (a * 10 + d).
Proof.
  apply i64_eq. rewrite <- Zplus_mod_idemp_l, <- Zmult_mod_idemp_l, i64_mod.
  by rewrite Zmult_mod_idemp_l, Zplus_mod_idemp_l.
Qed.

Lemma digit_char_ok d :
  (0 ≤ d < 10)%Z → is_digit (digit_char d) = true ∧ (uchar (digit_char d) - 48 = d)%Z.
Proof.
  intros H. assert (d = 0 ∨ d = 1 ∨ d = 2 ∨ d = 3 ∨ d = 4 ∨ d = 5 ∨ d = 6 ∨ d = 7 ∨ d = 8 ∨ d = 9)%Z
    as Hd by lia.
  by repeat destruct Hd as [-> | Hd]; subst.
Qed.

Lemma scan_print_digits fuel z acc r :
  (0 ≤ z < 10 ^ Z.of_nat fuel)%Z → fuel ≠ 0 →
  scan_digits 0 (print_digits fuel z acc ++ r) = scan_digits (i64 z) (acc ++ r).
Proof.
  revert z acc. induction fuel as [|fuel IH]; intros z acc Hz Hf; [done|].
  cbn [print_digits]. destruct (Z.ltb_spec z 10).
  - destruct (digit_char_ok z) as [Hd Hv]; [lia|]. cbn [app scan_digits]. by rewrite Hd, Hv.
  - rewrite Nat2Z.inj_succ, Z.pow_succ_r in Hz by lia.
    assert (fuel ≠ 0) by (intros ->; cbn in Hz; lia).
    rewrite IH; [|split; [apply Z.div_pos; lia|apply Z.div_lt_upper_bound; lia]|done].
    destruct (digit_char_ok (z mod 10)) as [Hd Hv]; [apply Z.mod_pos_bound; lia|].
    cbn [app scan_digits]. rewrite Hd, Hv, i64_step. do 2 f_equal.
    rewrite (Z.div_mod z 10) at 3 by lia. lia.
Qed.

Lemma print_digits_head fuel z acc :
  fuel ≠ 0 → (0 ≤ z)%Z → ∃ c s, print_digits fuel z acc = c :: s ∧ (is_digit c = true).
Proof.
  revert z acc. induction fuel as [|fuel IH]; intros z acc Hf Hz; [done|]. cbn.
  destruct (Z.ltb_spec z 10).
  - eexists _, _. split; [done|]. apply digit_char_ok; lia.
  - destruct fuel; [cbn; eexists _, _; split; [done|apply digit_char_ok, Z.mod_pos_bound; lia]|].
    apply IH; [done|apply Z.div_pos; lia].
Qed.

Lemma scan_digits_stop v r : bnd r → scan_digits v r = (v, r).
Proof.
  destruct r as [|c r]; [done|]. unfold bnd; cbn. intros H. destruct (is_digit c) eqn:E; [|done].
  apply is_digit_ident in E. congruence.
Qed.

(** ** Round trip *)

Definition is_ws (c : ascii) : bool := ceq c " " || ceq c "009".

(** A text the cursor stops at. *)
Definition solid (s : bytes) : Prop := ∃ c s', s = c :: s' ∧ is_ws c = false.

Lemma ws_drop_solid s r : solid s → ws_drop (s ++ r) = s ++ r.
Proof. intros (c & s' & -> & H). cbn. unfold is_ws in H. by rewrite H. Qed.

Lemma ws_drop_idem s : ws_drop (ws_drop s) = ws_drop s.
Proof.
  induction s as [|c s IH]; [done|]. cbn. destruct (ceq c " " || ceq c "009") eqn:E; [done|].
  cbn. by rewrite E.
Qed.

Lemma solid_app s r : solid s → solid (s ++ r).
Proof. intros (c & s' & -> & H). by exists c, (s' ++ r). Qed.

(** The class of a first character, which decides the branch taken. *)
Lemma digit_first c :
  is_digit c = true → ceq c "034" = false ∧ ceq c "-" = false ∧ ceq c "(" = false ∧ is_ws c = false.
Proof.
  intros H. unfold is_ws. split_and!; rewrite ?orb_false_iff, ?ceq_false; [..|split]; by intros ->.
Qed.

Lemma alpha_first c :
  ident_start c = true →
  is_ident_char c = true ∧ is_digit c = false ∧ ceq c "034" = false ∧ ceq c "-" = false ∧
  ceq c "(" = false ∧ is_ws c = false.
Proof.
  intros H. assert (is_digit c = false) as Hd.
  { unfold ident_start, is_alpha, is_digit in *.
    apply orb_true_iff in H as [H | ->%ceq_true]; [|done].
    rewrite !orb_true_iff, !andb_true_iff, !Z.leb_le in H.
    rewrite andb_false_iff, !Z.leb_gt.
    change (uchar "a") with 97%Z in H. change (uchar "z") with 122%Z in H.
    change (uchar "A") with 65%Z in H. change (uchar "Z") with 90%Z in H.
    change (uchar "0") with 48%Z. change (uchar "9") with 57%Z. lia. }
  unfold is_ident_char, is_ws. split_and!; [|done|..];
    rewrite ?orb_false_iff, ?ceq_false; [|by intros -> ..|by split; intros ->].
  unfold ident_start in H. rewrite Hd, orb_false_r. exact H.
Qed.

Lemma ident_ok_cons w :
  ident_ok w = true → ∃ c w', w = c :: w' ∧ ident_start c = true ∧ forallb is_ident_char w = true ∧
                              keyword w = false.
Proof.
  unfold ident_ok. intros H; bool_to_prop. destruct w as [|c w]; [done|]. by exists c, w.
Qed.

(** The shape of a well-formed operand. *)
Inductive operand_view : foperand bytes → Prop :=
  | view_num z : (- 2 ^ 63 ≤ z < 2 ^ 63)%Z → operand_view (mkOperand FO_NUM z None 0)
  | view_str w : no_nul w → operand_view (mkOperand FO_STR 0 (Some w) (length w))
  | view_ident w : ident_ok w = true → operand_view (mkOperand (ident_kind w) 0 (Some w) (length w)).

Lemma wf_operand_view o : wf_operand o = true ↔ operand_view o.
Proof.
  split.
  - destruct o as [k z s n]. unfold wf_operand; cbn.
    destruct k, s as [w|]; intros H; bool_to_prop; subst; try done; try (by constructor);
      match goal with H : _ = ident_kind _ |- _ => rewrite H; by constructor end.
  - intros [z Hz|w Hw|w Hw]; unfold wf_operand; cbn.
    + by rewrite !bool_decide_true.
    + by rewrite !bool_decide_true.
    + assert (ident_kind w ≠ FO_NUM ∧ ident_kind w ≠ FO_STR) as [? ?]
        by (unfold ident_kind; repeat case_match; done).
      destruct (ident_kind w) eqn:E; try done; by rewrite Hw, !bool_decide_true.
Qed.

Lemma print_num_head z : ∃ c s, print_num z = c :: s ∧ (c = "-"%char ∨ is_digit c = true).
Proof.
  unfold print_num. destruct (Z.ltb_spec z 0); [by eexists _, _; split; [|left]|].
  destruct (print_digits_head 20 z []) as (c & s & E & H'); [done|done|].
  exists c, s. auto.
Qed.

Lemma print_operand_solid o : operand_view o → solid (print_operand o).
Proof.
  intros [z Hz|w Hw|w Hw]; unfold print_operand; cbn.
  - destruct (print_num_head z) as (c & s & E & [-> | H]); eexists _, s;
      (split; [exact E|]); [done|apply digit_first, H].
  - by eexists _, _.
  - destruct (ident_ok_cons w Hw) as (c & w' & -> & Hc & _). exists c, w'. split; [|apply alpha_first, Hc].
    unfold ident_kind. by repeat case_match.
Qed.

Lemma print_ident w : print_operand (mkOperand (ident_kind w) 0 (Some w) (length w)) = w.
Proof. unfold print_operand, ident_kind; cbn. by repeat case_match. Qed.

(** No keyword starts an operand. *)
Lemma print_operand_kw o r : operand_view o → bnd r → kw_free (print_operand o ++ r).
Proof.
  intros [z Hz|w Hw|w Hw] Hr; unfold kw_free; [unfold print_operand; cbn..|].
  - destruct (print_num_head z) as (c & s & -> & [-> | H]); [done|]. cbn.
    rewrite (is_digit_ident c H). destruct (scan_ident _) as [w r']. cbn.
    unfold keyword. rewrite !orb_false_iff, !streq_false. split_and!; by intros [= ->].
  - done.
  - rewrite print_ident.
    destruct (ident_ok_cons w Hw) as (c & w' & -> & _ & Hi & Hk). by rewrite scan_ident_app.
Qed.

Section RoundTrip.
Variables N A : nat.
#[local] Existing Instance TreeBuilder.
Abbreviation tparser := (fparser (TreeBuilder N A)).

(** The parser's state after [t] was read, [r] being left. *)
Definition after (p : tparser) (n a : nat) (r : bytes) : tparser :=
  mkParser (B := TreeBuilder N A) (p_len p) r (p_err p) ((p_mem p).1 + n, (p_mem p).2 + a).

Lemma after_after p n a r n' a' r' :
  after (after p n a r) n' a' r' = after p (n + n') (a + a') r'.
Proof. unfold after; cbn. by rewrite !Nat.add_assoc. Qed.

(** There is room for [n] nodes and [a] bytes. *)
Definition room (p : tparser) (n a : nat) : Prop := (p_mem p).1 + n ≤ N ∧ (p_mem p).2 + a ≤ A.

Lemma node_new_room (p : tparser) :
  (p_mem p).1 < N → node_new p = (Some tt, after p 1 0 (p_rest p)).
Proof.
  intros H. unfold node_new. destruct p as [len s e [n a]]. cbn in *.
  destruct (Nat.leb_spec N n); [lia|]. unfold after, set_mem. cbn. by rewrite Nat.add_0_r.
Qed.

Lemma str_operand_room k w e r (p : tparser) :
  (p_mem p).2 + (length w + 1) ≤ A →
  str_operand k w e r p =
  Ok (Some (mkOperand (S := @sref (TreeBuilder N A)) k 0 (Some w) (length w)), after p 0 (length w + 1) r).
Proof.
  intros H. unfold str_operand, push_string. destruct p as [len s er [n a]]. cbn -[Nat.ltb] in *.
  destruct (Nat.ltb_spec A (a + (length w + 1))); [lia|]. unfold after, set_rest. cbn.
  by rewrite Nat.add_0_r.
Qed.

Lemma after_rest (p : tparser) r : set_rest r p = after p 0 0 r.
Proof. destruct p as [? ? ? [? ?]]; unfold after, set_rest; cbn. by rewrite !Nat.add_0_r. Qed.

(** [parse_operand] on a printed number, its sign apart. *)
Lemma scan_print_num z r :
  (- 2 ^ 63 ≤ z < 2 ^ 63)%Z → bnd r →
  let s := print_num z ++ r in
  let neg := ceq (deref s) "-" in
  ceq (deref s) "034" = false ∧
  is_digit (deref s) || (neg && is_digit (char_at s 1)) = true ∧
  ∃ v, scan_digits 0 (if neg then tail s else s) = (v, r) ∧ (if neg then i64 (- v) else v) = z.
Proof.
  intros Hz Hr. cbv zeta. unfold print_num. destruct (Z.ltb_spec z 0).
  - destruct (print_digits_head 20 (- z) []) as (c & s & E & Hc); [done|lia|].
    pose proof (scan_print_digits 20 (- z) [] r) as Hd. rewrite E in *.
    split_and!; [done|cbn; exact Hc|].
    exists (i64 (- z)). split; [change (scan_digits 0 ((c :: s) ++ r) = (i64 (- z), r))|].
    { rewrite Hd by lia. by apply scan_digits_stop. }
    change (i64 (- i64 (- z)) = z). rewrite <- (i64_id z) at 2 by lia. apply i64_eq.
    rewrite <- (Z.mul_1_l (i64 (- z))), <- Z.mul_opp_l, <- Zmult_mod_idemp_r, i64_mod, Zmult_mod_idemp_r.
    f_equal. lia.
  - destruct (print_digits_head 20 z []) as (c & s & E & Hc); [done|lia|].
    pose proof (scan_print_digits 20 z [] r) as Hd. rewrite E in *.
    destruct (digit_first c Hc) as (H1 & H2 & _).
    change (deref ((c :: s) ++ r)) with c. rewrite H1, H2, Hc.
    split_and!; [done|done|]. exists z. split; [|done].
    rewrite (Hd ltac:(lia) ltac:(lia)), i64_id by lia. by apply scan_digits_stop.
Qed.

Lemma parse_operand_print o r (p : tparser) :
  operand_view o → bnd r → (p_mem p).2 + operand_bytes o ≤ A →
  ws_drop (p_rest p) = print_operand o ++ r →
  parse_operand p = Ok (Some o, after p 0 (operand_bytes o) r).
Proof.
  intros Ho Hr Hm Hs. pose proof (kw_free_at _ (print_operand_kw o r Ho Hr)) as (K1 & K2 & K3).
  unfold parse_operand. cbn [skip_ws set_rest p_rest]. rewrite Hs, K1, K2, K3.
  destruct Ho as [z Hz|w Hw|w Hw].
  - destruct (scan_print_num z r Hz Hr) as (H1 & H2 & v & H3 & H4).
    change (print_operand _) with (print_num z) in *. by rewrite H1, H2, H3, H4, after_rest.
  - change (print_operand _ ++ r) with ("034"%char :: (escape w ++ ["034"%char]) ++ r).
    cbn [tail]. rewrite <- app_assoc. cbn [app].
    change (ceq (deref ("034"%char :: _)) "034") with true.
    rewrite scan_string_escape. by rewrite str_operand_room.
  - rewrite print_ident in *. destruct (ident_ok_cons w Hw) as (c & w' & -> & Hc & Hi & Hk).
    rewrite scan_ident_app by done. change (deref ((c :: w') ++ r)) with c.
    destruct (alpha_first c Hc) as (_ & -> & -> & -> & _). unfold ident_start in Hc. rewrite Hc.
    cbn [orb andb]. by rewrite str_operand_room.
Qed.
Lemma scan_op_print op s :
  scan_op (print_op op ++ " "%char :: s) = Some (op, length (print_op op)).
Proof. by destruct op. Qed.

Lemma ws_drop_op op s : ws_drop (" "%char :: print_op op ++ s) = print_op op ++ s.
Proof. by destruct op. Qed.

Lemma ws_drop_space s r : solid s → ws_drop (" "%char :: s ++ r) = s ++ r.
Proof. apply ws_drop_solid. Qed.

Lemma parse_cmp_print op x y r (p : tparser) :
  wf_tree (TCmp op x y) = true → bnd r → room p 1 (tree_bytes (TCmp op x y)) →
  ws_drop (p_rest p) = print LNot (TCmp op x y) ++ r →
  parse_cmp p = Ok (Some (TCmp op x y), after p 1 (tree_bytes (TCmp op x y)) r).
Proof.
  cbn [wf_tree print tree_bytes]. intros Hwf Hr [Hn Ha] Hs. bool_to_prop.
  rename select (wf_operand x = true) into Hx; rename select (wf_operand y = true) into Hy.
  apply wf_operand_view in Hx, Hy.
  rewrite <- app_assoc in Hs. cbn [app] in Hs. rewrite <- app_assoc in Hs. cbn [app] in Hs.
  unfold parse_cmp. rewrite node_new_room by lia.
  erewrite (parse_operand_print x); [|exact Hx| |cbn; lia|exact Hs]; [|done].
  cbn [rbind]. rewrite after_after. cbn [skip_ws set_rest p_rest after].
  rewrite ws_drop_op, scan_op_print, drop_app_length.
  erewrite (parse_operand_print y r); [|done|done|cbn; lia|].
  2:{ cbn. apply ws_drop_space, print_operand_solid, Hy. }
  cbn [rbind]. unfold well_typed in *. destruct (type_error _ _ _); [done|].
  unfold after, fill, set_mem; cbn. do 4 f_equal; lia.
Qed.

Lemma print_solid t l : wf_tree t = true → solid (print l t).
Proof.
  revert l. induction t as [a IHa b IHb|a IHa b IHb|t IH|op x y]; intros l; cbn [print wf_tree]; intros Hw;
    bool_to_prop.
  - destruct l; [by apply solid_app, IHa|by eexists _, _..].
  - destruct l; [by apply solid_app, IHa..|by eexists _, _].
  - by eexists _, _.
  - apply solid_app, print_operand_solid. by apply wf_operand_view.
Qed.

(** What may follow a tree printed at each level. *)
Definition no_kw (kw : string) (r : bytes) : Prop := at_keyword (ws_drop r) (lit kw) = false.

Definition ready (p : tparser) (t : ftree) (l : level) (r : bytes) : Prop :=
  wf_tree t = true ∧ bnd r ∧ room p (tree_size t) (tree_bytes t) ∧
  ws_drop (p_rest p) = print l t ++ r.

Definition done_with (p : tparser) (t : ftree) (r : bytes) : tparser :=
  after p (tree_size t) (tree_bytes t) r.

(** Reading a tree at the level of each production. The productions with a
    loop go on with the loop, so that they hold of the left operands too. *)
Definition reads_not (t : ftree) : Prop := ∀ p r,
  ready p t LNot r → evt (λ f, parse_not f p) (Ok (Some t, done_with p t r)).
Definition reads_and (t : ftree) : Prop := ∀ p r v,
  ready p t LAnd r → evt (λ f, and_loop (B := TreeBuilder N A) f t (done_with p t r)) v → evt (λ f, parse_and f p) v.
Definition reads_or (t : ftree) : Prop := ∀ p r v,
  ready p t LOr r → no_kw "and" r →
  evt (λ f, or_loop (B := TreeBuilder N A) f t (done_with p t (ws_drop r))) v → evt (λ f, parse_or f p) v.

(** A loop stops where its keyword is not. *)
Lemma and_loop_stop t (p : tparser) :
  no_kw "and" (p_rest p) → evt (λ f, and_loop (B := TreeBuilder N A) f t p) (Ok (Some t, skip_ws p)).
Proof.
  intros H. apply evt_S. cbn [and_loop skip_ws set_rest p_rest]. unfold no_kw in H.
  rewrite H. cbn [negb]. apply evt_const.
Qed.

Lemma or_loop_stop t (p : tparser) :
  no_kw "or" (p_rest p) → evt (λ f, or_loop (B := TreeBuilder N A) f t p) (Ok (Some t, skip_ws p)).
Proof.
  intros H. apply evt_S. cbn [or_loop skip_ws set_rest p_rest]. unfold no_kw in H.
  rewrite H. cbn [negb]. apply evt_const.
Qed.

Lemma reads_and_stop t p r :
  reads_and t → ready p t LAnd r → no_kw "and" r →
  evt (λ f, parse_and f p) (Ok (Some t, done_with p t (ws_drop r))).
Proof. intros Ht Hr Hk. eapply Ht; [exact Hr|]. by apply and_loop_stop. Qed.

Lemma bnd_cons c r : is_ident_char c = false → bnd (c :: r).
Proof. done. Qed.

(** The keyword of a loop, read. *)
Lemma at_and s : at_keyword (lit "and " ++ s) (lit "and") = true.
Proof. by rewrite at_keyword_ident. Qed.
Lemma at_or s : at_keyword (lit "or " ++ s) (lit "or") = true.
Proof. by rewrite at_keyword_ident. Qed.
Lemma at_not s : at_keyword (lit "not " ++ s) (lit "not") = true.
Proof. by rewrite at_keyword_ident. Qed.
Lemma or_not_and s : at_keyword (lit "or " ++ s) (lit "and") = false.
Proof. by rewrite at_keyword_ident. Qed.

Lemma room_le (p : tparser) n a n' a' : room p n a → n' ≤ n → a' ≤ a → room p n' a'.
Proof. unfold room. lia. Qed.

Lemma done_two p a b r1 r2 :
  done_with (done_with p a r1) b r2 =
  after p (tree_size a + tree_size b) (tree_bytes a + tree_bytes b) r2.
Proof. apply after_after. Qed.

(** The node of a binary operator, allocated after its operands. *)
Lemma bin_node (p : tparser) n a r (body : fbody ftree bytes)
    (k : ftree → tparser → res (option ftree * tparser)) :
  room p (S n) a →
  (let '(h, p) := node_new (after p n a r) in
   match h with
   | None => Ok (None, p)
   | Some h =>
       let! (t, p) := fill (B := TreeBuilder N A) h body p in
       match t with None => Ok (None, p) | Some t => k t p end
   end) = k (tree_of body) (after p (S n) a r).
Proof.
  intros [Hn Ha]. rewrite node_new_room by (cbn; lia). cbn [rbind fill b_fill TreeBuilder].
  rewrite after_after, Nat.add_1_r, Nat.add_0_r. done.
Qed.

Lemma reads_and_step a b : reads_and a → reads_not b → reads_and (TAnd a b).
Proof.
  intros IHa IHb p r v (Hw & Hr & Hm & Hs) Hv. cbn in Hw; bool_to_prop.
  cbn [print tree_size tree_bytes] in *. rewrite <- !app_assoc in Hs.
  eapply IHa; [split_and!; [done| |eapply room_le; [exact Hm|lia..]|exact Hs]; by apply bnd_cons|].
  apply evt_S. cbn [and_loop skip_ws set_rest p_rest done_with after].
  change (ws_drop (lit " and " ++ ?s)) with (lit "and " ++ s). rewrite at_and. cbn [negb].
  eapply evt_bind; [eapply (IHb _ r); split_and!; [done|done|..]|].
  - destruct Hm. split; cbn; lia.
  - cbn. by apply ws_drop_space, print_solid.
  - eapply evt_ext; [|exact Hv]. intros f. cbv beta iota.
    match goal with |- context [node_new ?q] => change q with (done_with (done_with p a r) b r) end.
    rewrite done_two. by apply (bin_node p _ _ r (FN_AND a b) (λ t q, and_loop (B := TreeBuilder N A) f t q)).
Qed.

Lemma reads_or_step a b : reads_or a → reads_and b → reads_or (TOr a b).
Proof.
  intros IHa IHb p r v (Hw & Hr & Hm & Hs) Hk Hv. cbn in Hw; bool_to_prop.
  cbn [print tree_size tree_bytes] in *. rewrite <- !app_assoc in Hs.
  eapply IHa; [split_and!; [done| |eapply room_le; [exact Hm|lia..]|exact Hs]; by apply bnd_cons| |].
  { apply or_not_and. }
  apply evt_S. cbn [or_loop skip_ws set_rest p_rest done_with after]. rewrite ws_drop_idem.
  change (ws_drop (lit " or " ++ ?s)) with (lit "or " ++ s). rewrite at_or. cbn [negb].
  eapply evt_bind; [eapply (reads_and_stop _ _ r IHb); [split_and!; [done|done|..]|done]|].
  - destruct Hm. split; cbn; lia.
  - cbn. by apply ws_drop_space, print_solid.
  - eapply evt_ext; [|exact Hv]. intros f. cbv beta iota.
    match goal with |- context [node_new ?q] => change q with (done_with (done_with p a r) b (ws_drop r)) end.
    rewrite done_two. by apply (bin_node p _ _ (ws_drop r) (FN_OR a b) (λ t q, or_loop (B := TreeBuilder N A) f t q)).
Qed.

Lemma reads_and_of_not t : print LAnd t = print LNot t → reads_not t → reads_and t.
Proof.
  intros E IH p r v Hr Hv. unfold ready in Hr. rewrite E in Hr.
  apply evt_S. cbn [parse_and]. eapply evt_bind; [by apply IH|exact Hv].
Qed.

Lemma reads_or_of_and t : print LOr t = print LAnd t → reads_and t → reads_or t.
Proof.
  intros E IH p r v Hr Hk Hv. unfold ready in Hr. rewrite E in Hr.
  apply evt_S. cbn [parse_or]. eapply evt_bind; [by apply reads_and_stop|exact Hv].
Qed.

(** A primary: no keyword at the cursor, so that [parse_not] goes on with
    [parse_primary]. *)
Lemma parse_not_primary (p : tparser) v :
  at_keyword (ws_drop (p_rest p)) (lit "not") = false →
  evt (λ f, parse_primary f (skip_ws p)) v → evt (λ f, parse_not f p) v.
Proof.
  intros Hk Hv. apply evt_S. cbn [parse_not skip_ws set_rest p_rest]. by rewrite Hk.
Qed.

Lemma reads_paren t :
  print LNot t = "("%char :: print LOr t ++ [")"%char] → reads_or t → reads_not t.
Proof.
  intros E IH p r (Hw & Hr & Hm & Hs). rewrite E in Hs. cbn [app] in Hs. rewrite <- app_assoc in Hs.
  apply parse_not_primary; [by rewrite Hs, at_keyword_ident|].
  apply evt_S. cbn [parse_primary skip_ws set_rest p_rest]. rewrite ws_drop_idem, Hs.
  change (ceq (deref ("("%char :: _)) "(") with true. cbv iota.
  eapply evt_bind; [eapply (IH _ ([")"%char] ++ r)); [split_and!|..]|].
  - done.
  - done.
  - exact Hm.
  - by apply ws_drop_solid, print_solid.
  - done.
  - by apply or_loop_stop.
  - apply evt_const.
Qed.

Lemma reads_cmp op x y : reads_not (TCmp op x y).
Proof.
  intros p r (Hw & Hr & Hm & Hs). pose proof Hw as Hw'. cbn in Hw'. bool_to_prop.
  assert (operand_view x) as Hx by (by apply wf_operand_view).
  pose proof Hs as Hs'. cbn [print] in Hs'. rewrite <- app_assoc in Hs'.
  apply parse_not_primary.
  { rewrite Hs'. by apply kw_free_at, print_operand_kw. }
  apply evt_S. cbn [parse_primary skip_ws set_rest p_rest]. rewrite ws_drop_idem.
  assert (ceq (deref (ws_drop (p_rest p))) "(" = false) as ->.
  { rewrite Hs'. destruct Hx as [z Hz|w Hno|w Hid]; cbn [app].
    - change (print_operand (mkOperand FO_NUM z None 0)) with (print_num z).
      destruct (print_num_head z) as (c & s & -> & [-> | Hc]); [done|]. apply digit_first, Hc.
    - done.
    - rewrite print_ident. destruct (ident_ok_cons w Hid) as (c & w' & -> & Hc & _). apply alpha_first, Hc. }
  cbv iota. eapply evt_ext; [|apply evt_const]. intros f.
  rewrite (parse_cmp_print op x y r); [done|done|done|exact Hm|].
  cbn [p_rest skip_ws set_rest]. rewrite ?ws_drop_idem. exact Hs.
Qed.

Lemma reads_neg t : reads_not t → reads_not (TNot t).
Proof.
  intros IH p r (Hw & Hr & Hm & Hs). cbn [print wf_tree tree_size tree_bytes] in *.
  rewrite <- app_assoc in Hs. apply evt_S. cbn [parse_not skip_ws set_rest p_rest]. rewrite Hs, at_not.
  rewrite node_new_room by (destruct Hm; cbn; lia).
  eapply evt_bind; [eapply (IH _ r); split_and!; [done|done|..]|].
  - destruct Hm; split; cbn; lia.
  - cbn. by apply ws_drop_space, print_solid.
  - cbn [fill b_fill TreeBuilder rbind]. eapply evt_ext; [|apply evt_const]. intros f.
    unfold done_with. rewrite after_after. done.
Qed.

Lemma reads_all t : reads_not t ∧ reads_and t ∧ reads_or t.
Proof.
  induction t as [a [_ [_ Ha]] b [_ [Hb _]]|a [_ [Ha _]] b [Hb _]|t [H _]|op x y].
  - pose proof (reads_or_step a b Ha Hb) as Ho.
    assert (reads_not (TOr a b)) as Hn by (by apply reads_paren). by auto using reads_and_of_not.
  - pose proof (reads_and_step a b Ha Hb) as Ho.
    assert (reads_or (TAnd a b)) by (by apply reads_or_of_and). by auto using reads_paren.
  - pose proof (reads_neg t H). assert (reads_and (TNot t)) by (by apply reads_and_of_not).
    by auto using reads_or_of_and.
  - pose proof (reads_cmp op x y). assert (reads_and (TCmp op x y)) by (by apply reads_and_of_not).
    by auto using reads_or_of_and.
Qed.

Lemma parse_print t :
  wf_tree t = true → tree_size t ≤ N → tree_bytes t ≤ A →
  let s := print LOr t in
  parse_all (mkParser (B := TreeBuilder N A) (length s) s None (0, 0)) =
  Ok (Some t, mkParser (B := TreeBuilder N A) (length s) [] None (tree_size t, tree_bytes t)).
Proof.
  intros Hw Hn Ha s. unfold parse_all.
  erewrite parse_or_evt.
  2:{ eapply (proj2 (proj2 (reads_all t)) _ []); [split_and!; [done|done|done|]|done|by apply or_loop_stop].
      cbn. rewrite app_nil_r. pose proof (ws_drop_solid s [] (print_solid t LOr Hw)) as H.
      by rewrite app_nil_r in H. }
  done.
Qed.
End RoundTrip.


(** ** The trees the parser builds *)

Section Range.
Variables N A : nat.
Abbreviation tparser := (fparser (TreeBuilder N A)).
Abbreviation after := (after N A).

Lemma bind_ok {X Y} (x : res X) (k : X → res Y) y :
  rbind x k = Ok y → ∃ a, x = Ok a ∧ k a = Ok y.
Proof. destruct x; cbn; intros; [eauto|done..]. Qed.

Lemma no_nul_app s r : no_nul (s ++ r) ↔ no_nul s ∧ no_nul r.
Proof. apply Forall_app. Qed.

Lemma no_nul_ws s : no_nul s → no_nul (ws_drop s).
Proof.
  induction s as [|c s IH]; [done|]. cbn. intros H. case_if; [|done].
  apply no_nul_cons in H as [_ H]; auto.
Qed.

Lemma no_nul_tail s : no_nul s → no_nul (tail s).
Proof. destruct s; [done|]. by intros [_ H]%no_nul_cons. Qed.

Lemma scan_string_nul s w r : scan_string s = Some (w, r) → no_nul s → no_nul w ∧ no_nul r.
Proof.
  revert w r. induction s as [s IH] using (induction_ltof1 _ (@length ascii)). unfold ltof in IH.
  intros w r. destruct s as [|c s]; [done|]. cbn. intros H [Hc Hs]%no_nul_cons.
  assert (∀ d s' v, length s' < S (length s) → d ≠ NUL → no_nul s' →
    match scan_string s' with Some (w, r) => Some (d :: w, r) | None => None end = Some v →
    no_nul v.1 ∧ no_nul v.2) as Hrec.
  { intros d s' v Hl Hd Hs' E. destruct (scan_string s') as [[w' r']|] eqn:E'; [|done].
    apply IH in E' as [? ?]; [|done..]. injection E as <-. cbn. rewrite no_nul_cons. auto. }
  destruct (ceq c "034"); [injection H as <- <-; split; [constructor|done]|].
  destruct (ceq c "\"), s as [|d s]; [by apply (Hrec c [] (w, r)); cbn; try lia| |
    by apply (Hrec c [] (w, r)); cbn; try lia|by apply (Hrec c (d :: s) (w, r)); cbn; try lia].
  apply no_nul_cons in Hs as [? ?]. apply (Hrec d s (w, r)); cbn; try lia; done.
Qed.

Lemma scan_digits_spec v s v' r :
  scan_digits v s = (v', r) → (- 2 ^ 63 ≤ v < 2 ^ 63)%Z → no_nul s →
  (- 2 ^ 63 ≤ v' < 2 ^ 63)%Z ∧ no_nul r.
Proof.
  revert v. induction s as [|c s IH]; cbn; intros v H Hv Hs; [by simplify_eq|].
  destruct (is_digit c); [|by simplify_eq]. apply no_nul_cons in Hs as [_ Hs].
  eapply IH; [exact H|apply i64_range|done].
Qed.

Lemma node_new_inv (p q : tparser) h :
  node_new p = (Some h, q) → q = after p 1 0 (p_rest p) ∧ (p_mem p).1 < N.
Proof.
  unfold node_new. destruct p as [len s e [n a]]. cbn. destruct (Nat.leb_spec N n); [done|].
  intros [= <- <-]. cbn. unfold FilterGrammar.after, set_mem; cbn. by rewrite Nat.add_0_r.
Qed.

Lemma str_operand_inv k w e r (p : tparser) o q :
  str_operand k w e r p = Ok (Some o, q) →
  o = mkOperand k 0 (Some w) (length w) ∧ q = after p 0 (length w + 1) r.
Proof.
  unfold str_operand, push_string. destruct p as [len s er [n a]]. cbn -[Nat.ltb].
  destruct (A <? a + (length w + 1)); [done|]. cbn. intros [= <- <-].
  unfold FilterGrammar.after, set_rest; cbn. by rewrite Nat.add_0_r.
Qed.

Lemma parse_operand_range (p : tparser) o q :
  parse_operand p = Ok (Some o, q) → no_nul (p_rest p) →
  operand_view o ∧ q = after p 0 (operand_bytes o) (p_rest q) ∧ no_nul (p_rest q).
Proof.
  intros H Hn%no_nul_ws. unfold parse_operand in H. cbn [skip_ws set_rest p_rest] in H.
  remember (ws_drop (p_rest p)) as s eqn:Es.
  destruct (ceq (deref s) "034"); [|destruct (is_digit _ || _) eqn:?; [|destruct (at_keyword s _ || _ || _) eqn:Ek;
    [done|destruct (is_alpha (deref s) || _) eqn:Hi; [|done]]]].
  - destruct (scan_string (tail s)) as [[w r]|] eqn:E; [|done].
    apply scan_string_nul in E as [Hw Hr]; [|by apply no_nul_tail].
    apply str_operand_inv in H as [-> ->]. by split_and!; [constructor|..].
  - destruct (scan_digits _ _) as [v r] eqn:E. apply scan_digits_spec in E as [Hv Hr];
      [|lia|destruct (ceq _ _); [by apply no_nul_tail|done]].
    injection H as <- <-. split_and!; [|by rewrite after_rest|done].
    constructor. destruct (ceq _ _); [apply i64_range|done].
  - destruct (scan_ident s) as [w r] eqn:E. apply str_operand_inv in H as [-> ->].
    pose proof E as (-> & Hw & Hb)%scan_ident_split. apply no_nul_app in Hn as [_ Hr].
    split_and!; [constructor|done|done]. unfold ident_ok.
    rewrite !at_keyword_ident, E in Ek by done. unfold keyword. cbn [fst] in Ek. rewrite Ek, Hw.
    unfold ident_start. destruct w as [|c w]; [|cbn in Hi |- *; by rewrite Hi].
    cbn in Hi. unfold bnd, is_ident_char in Hb. apply orb_true_iff in Hi as [Hi | Hi]; rewrite Hi in Hb; try done.
    by rewrite orb_true_r in Hb.
Qed.

(** [q] is [p] after [t] was read; [t] was grown from [t0] between [p] and
    [q]. *)
Definition grown (p : tparser) (n0 a0 : nat) (t : ftree) (q : tparser) : Prop :=
  wf_tree t = true ∧ no_nul (p_rest q) ∧
  ∃ n a, q = after p n a (p_rest q) ∧ tree_size t = n0 + n ∧ tree_bytes t = a0 + a.

Definition built (p : tparser) : ftree → tparser → Prop := grown p 0 0.

Lemma grown_trans p n0 a0 t1 q1 t q :
  grown p n0 a0 t1 q1 → grown q1 (tree_size t1) (tree_bytes t1) t q → grown p n0 a0 t q.
Proof.
  intros (_ & _ & n1 & a1 & Eq1 & S1 & B1) (Hw & Hq & n2 & a2 & Eq2 & S2 & B2).
  split_and!; [done|done|]. exists (n1 + n2), (a1 + a2). split_and!; [|lia..].
  rewrite Eq1, after_after in Eq2. done.
Qed.

Lemma built_skip p s t q : built (set_rest s p) t q → built p t q.
Proof. done. Qed.

Lemma parse_cmp_range (p : tparser) t q :
  no_nul (p_rest p) → parse_cmp p = Ok (Some t, q) → built p t q.
Proof.
  intros Hp H. unfold parse_cmp in H.
  destruct (node_new p) as [[h|] p1] eqn:E1; [|done]. apply node_new_inv in E1 as [-> _].
  apply bind_ok in H as ([[l|] p2] & E2 & H); [|done].
  apply parse_operand_range in E2 as (Hl & E2 & Hp2); [|done].
  destruct (scan_op _) as [[op k]|]; [|done].
  apply bind_ok in H as ([[r|] p3] & E3 & H); [|done].
  apply parse_operand_range in E3 as (Hr & E3 & Hp3); [|by apply no_nul_drop, no_nul_ws].
  destruct (type_error _ _ _) eqn:Et; [done|]. injection H as <- <-.
  split_and!; [cbn|done|].
  - rewrite (proj2 (wf_operand_view l) Hl), (proj2 (wf_operand_view r) Hr).
    change (type_error op (o_kind (S := bytes) l) (o_kind (S := bytes) r) = None) in Et.
    unfold well_typed. by rewrite Et.
  - exists 1, (tree_bytes (TCmp op l r)). split_and!; [|done..]. rewrite E3, E2. cbn.
    unfold FilterGrammar.after, set_mem; cbn. do 2 f_equal; lia.
Qed.

(** A turn of a loop: the right operand, the node, the rest of the loop. *)
Lemma loop_range p t0 x s (c : ftree → fbody ftree bytes) k t q :
  (∀ rhs, tree_size (tree_of (c rhs)) = S (tree_size t0 + tree_size rhs) ∧
          tree_bytes (tree_of (c rhs)) = tree_bytes t0 + tree_bytes rhs ∧
          wf_tree (tree_of (c rhs)) = wf_tree rhs) →
  (∀ rhs p1, x = Ok (Some rhs, p1) → built (set_rest s p) rhs p1) →
  (∀ t1 p2, wf_tree t1 = true → no_nul (p_rest p2) → k t1 p2 = Ok (Some t, q) →
     grown p2 (tree_size t1) (tree_bytes t1) t q) →
  (let! (rhs, p) := x in
   match rhs with
   | None => Ok (None, p)
   | Some rhs =>
       let '(h, p) := node_new p in
       match h with
       | None => Ok (None, p)
       | Some h =>
           let! (t, p) := fill (B := TreeBuilder N A) h (c rhs) p in
           match t with None => Ok (None, p) | Some t => k t p end
       end
   end) = Ok (Some t, q) →
  grown p (tree_size t0) (tree_bytes t0) t q.
Proof.
  intros Hc Hx Hk H. apply bind_ok in H as ([[rhs|] p1] & E1 & H); [|done].
  apply Hx in E1 as (Hw & Hn & n & a & E & Hs & Hb). destruct (Hc rhs) as (C1 & C2 & C3).
  destruct (node_new p1) as [[h|] p2] eqn:E2; [|done]. apply node_new_inv in E2 as [-> _].
  apply bind_ok in H as ([[t1|] p3] & E3 & H); [|done]. injection E3 as <- <-.
  apply Hk in H; [|by rewrite C3|done]. eapply grown_trans; [|exact H].
  split_and!; [by rewrite C3|done|]. exists (n + 1), a. split_and!; [|lia..].
  rewrite E. unfold FilterGrammar.after, set_mem; cbn. do 2 f_equal; lia.
Qed.

Definition range (fuel : nat) : Prop := ∀ p : tparser, no_nul (p_rest p) →
  (∀ t q, parse_or fuel p = Ok (Some t, q) → built p t q) ∧
  (∀ t0 t q, wf_tree t0 = true → or_loop (B := TreeBuilder N A) fuel t0 p = Ok (Some t, q) →
     grown p (tree_size t0) (tree_bytes t0) t q) ∧
  (∀ t q, parse_and fuel p = Ok (Some t, q) → built p t q) ∧
  (∀ t0 t q, wf_tree t0 = true → and_loop (B := TreeBuilder N A) fuel t0 p = Ok (Some t, q) →
     grown p (tree_size t0) (tree_bytes t0) t q) ∧
  (∀ t q, parse_not fuel p = Ok (Some t, q) → built p t q) ∧
  (∀ t q, parse_primary fuel p = Ok (Some t, q) → built p t q).

Lemma grown_refl p s t : wf_tree t = true → no_nul s →
  grown p (tree_size t) (tree_bytes t) t (set_rest s p).
Proof.
  intros. split_and!; [done|done|]. exists 0, 0. rewrite after_rest. split_and!; [done|lia..].
Qed.

Lemma range_all fuel : range fuel.
Proof.
  induction fuel as [|fuel IH]; intros p Hp; [split_and!; intros; done|].
  pose proof (no_nul_ws _ Hp) as Hw.
  assert (∀ n, no_nul (drop n (ws_drop (p_rest p)))) as Hd by (intros; by apply no_nul_drop).
  split_and!; intros t; [|intros t' q Hwf| |intros t' q Hwf|intros q|intros q];
    cbn [parse_or or_loop parse_and and_loop parse_not parse_primary skip_ws set_rest p_rest].
  - intros q H. apply bind_ok in H as ([[l|] p1] & E1 & H); [|done]. apply IH in E1; [|done].
    apply IH in H; [|apply E1..]. by eapply grown_trans.
  - destruct (at_keyword _ _); cbn [negb]; [|intros [= <- <-]; by apply grown_refl].
    apply loop_range with (s := drop 2 (ws_drop (p_rest p))).
    { intros; cbn; rewrite Hwf; done. }
    { intros rhs p1 E. eapply IH in E; [exact E|apply Hd]. }
    intros t1 p2 Hw1 Hn1 H1. by apply IH in H1.
  - intros q H. apply bind_ok in H as ([[l|] p1] & E1 & H); [|done]. apply IH in E1; [|done].
    apply IH in H; [|apply E1..]. by eapply grown_trans.
  - destruct (at_keyword _ _); cbn [negb]; [|intros [= <- <-]; by apply grown_refl].
    apply loop_range with (s := drop 3 (ws_drop (p_rest p))).
    { intros; cbn; rewrite Hwf; done. }
    { intros rhs p1 E. eapply IH in E; [exact E|apply Hd]. }
    intros t1 p2 Hw1 Hn1 H1. by apply IH in H1.
  - destruct (at_keyword _ _); [|intros H; apply IH in H; done].
    destruct (node_new _) as [[h|] p1] eqn:E1; [|done]. apply node_new_inv in E1 as [-> _].
    intros H. apply bind_ok in H as ([[c|] p2] & E2 & H); [|done]. injection H as <- <-.
    apply IH in E2 as (Hc & Hn & n & a & E & Hs & Hb); [|apply Hd].
    split_and!; [done|done|]. exists (1 + n), a. cbn [tree_of tree_size tree_bytes].
    split_and!; [|lia..]. rewrite E, after_after. done.
  - case_if; [|intros H; eapply built_skip, parse_cmp_range; [|exact H]; done].
    intros H. apply bind_ok in H as ([n p1] & E1 & H). destruct (ceq (deref _) ")"); [|done].
    injection H as -> <-. apply IH in E1 as (Hc & Hn & n & a & E & Hs & Hb); [|by apply no_nul_tail].
    split_and!; [done|by apply no_nul_tail, no_nul_ws|]. exists n, a. split_and!; [|done..].
    cbn [p_rest set_rest]. generalize (tail (p_rest (skip_ws p1))). intros s. rewrite E. done.
Qed.
End Range.
End FilterGrammar.
