(* ===== verification/FilterEval.v ===== *)
(** * Compilation and evaluation of the filter expressions

    [retrace_filter_eval_resolved] of [src/core/filter_dsl.c] on the relocated
    arena that [retrace_filter_compile] builds, the meaning of a tree
    ([eval_tree]), and the refinement between the two: an expression whose
    tree fits the arenas the compiler starts with (16 nodes, 128 bytes of
    strings) compiles to an arena that evaluates to the meaning of its tree.
    An expression that makes an array grow does not: the pointers into the
    old array dangle. *)

From S2P Require Import Prelude Glob FilterDsl FilterGrammar.
Import FilterDsl FilterGrammar.

Module FilterEval.

(** ** The evaluator *)

(** [struct retrace_filter_resolver]: what a name is worth as a number
    ([None]: unknown or not numeric) and as a string ([None]: unknown,
    [Some None]: known but not a string). *)
Record retrace_filter_resolver := mkResolver {
  num : bytes → option Z;
  str : bytes → option (option bytes);
}.

Section Eval.
Variable char_signed : bool.
Variable rc : retrace_filter_resolver.

Abbreviation glob := (FilterGlob.retrace_filter_glob_match char_signed).

(** The C string that starts at [i]. *)
Fixpoint cstr (s : bytes) : bytes :=
  match s with
  | [] => []
  | c :: s => if ceq c NUL then [] else c :: cstr s
  end.

Definition read_str (ast : retrace_filter_ast) (q : option rptr) : res (option bytes) :=
  match q with
  | None | Some RNull => Ok None
  | Some (RAt i) => Ok (Some (cstr (drop i (a_arena ast))))
  | Some RWild => Undef
  end.

(** [operand_lookup] with [as_str]. *)
Definition operand_str (ast : retrace_filter_ast) (o : foperand rptr) : res (option (option bytes)) :=
  match o_kind o with
  | FO_STR => let! s := read_str ast (o_str o) in Ok (Some s)
  | FO_NUM => Ok None
  | _ =>
      let! name := read_str ast (o_str o) in
      match name with None => Undef | Some name => Ok (str rc name) end
  end.

(** [operand_lookup] without [as_str]. *)
Definition operand_num (ast : retrace_filter_ast) (o : foperand rptr) : res (option Z) :=
  match o_kind o with
  | FO_STR => Ok None
  | FO_NUM => Ok (Some (o_num o))
  | _ =>
      let! name := read_str ast (o_str o) in
      match name with None => Undef | Some name => Ok (num rc name) end
  end.

Definition compare (op : fop_kind) (l r : Z) : bool :=
  match op with
  | FO_EQ => (l =? r)%Z
  | FO_NE => negb (l =? r)%Z
  | FO_LT => (l <? r)%Z
  | FO_LE => (l <=? r)%Z
  | FO_GT => (r <? l)%Z
  | FO_GE => (r <=? l)%Z
  | _ => false
  end.

(** The [==] or [!=] of two operands that both resolve as strings. *)
Definition str_compare (op : fop_kind) (l r : option bytes) : bool :=
  match l, r with
  | Some l, Some r => eqb (streq l r) (bool_decide (op = FO_EQ))
  | None, None => bool_decide (op = FO_EQ)
  | _, _ => bool_decide (op = FO_NE)
  end.

Definition eval_num (ast : retrace_filter_ast) (op : fop_kind) (lhs rhs : foperand rptr) : res bool :=
  let! l := operand_num ast lhs in
  match l with
  | None => Ok false
  | Some l =>
      let! r := operand_num ast rhs in
      match r with
      | None => Ok false
      | Some r => Ok (compare op l r)
      end
  end.

(** The comparison branch of [eval_node]. *)
Definition eval_cmp (ast : retrace_filter_ast) (op : fop_kind) (lhs rhs : foperand rptr) : res bool :=
  if globbing op then
    let! ls := operand_str ast lhs in
    match ls with
    | None | Some None => Ok false
    | Some (Some ls) =>
        let! pat := read_str ast (o_str rhs) in
        let m := glob pat (Some ls) in
        Ok (if bool_decide (op = FO_GLOB) then m else negb m)
    end
  else if relational op then eval_num ast op lhs rhs
  else
    let! l := operand_str ast lhs in
    let! r := operand_str ast rhs in
    match l, r with
    | Some l, Some r => Ok (str_compare op l r)
    | _, _ => eval_num ast op lhs rhs
    end.

Fixpoint eval_node (fuel : nat) (ast : retrace_filter_ast) (q : rptr) : res bool :=
  match fuel with
  | O => NoFuel
  | S fuel =>
      match q with
      | RAt i =>
          match a_nodes ast !! i with
          | Some (FN_OR l r) =>
              let! b := eval_node fuel ast l in
              if b then Ok true else eval_node fuel ast r
          | Some (FN_AND l r) =>
              let! b := eval_node fuel ast l in
              if b then eval_node fuel ast r else Ok false
          | Some (FN_NOT c) => let! b := eval_node fuel ast c in Ok (negb b)
          | Some (FN_CMP op lhs rhs) => eval_cmp ast op lhs rhs
          | None => Undef
          end
      | _ => Undef
      end
  end.

Definition retrace_filter_eval_resolved (ast : option retrace_filter_ast) : res bool :=
  match ast with
  | None => Ok true
  | Some ast => eval_node (S (length (a_nodes ast))) ast (a_root ast)
  end.

(** ** The meaning of a tree *)

(** An operand's name or literal. *)
Definition text (o : foperand bytes) : bytes := default [] (o_str o).

Definition str_val (o : foperand bytes) : option (option bytes) :=
  match o_kind o with
  | FO_STR => Some (Some (text o))
  | FO_NUM => None
  | _ => str rc (text o)
  end.

Definition num_val (o : foperand bytes) : option Z :=
  match o_kind o with
  | FO_STR => None
  | FO_NUM => Some (o_num o)
  | _ => num rc (text o)
  end.

(** The numeric reading: false unless both operands are numbers. *)
Definition num_meaning (op : fop_kind) (l r : foperand bytes) : bool :=
  match num_val l, num_val r with Some l, Some r => compare op l r | _, _ => false end.

Definition cmp_meaning (op : fop_kind) (l r : foperand bytes) : bool :=
  match op with
  | FO_GLOB | FO_NGLOB =>
      match str_val l with
      | Some (Some s) => xorb (bool_decide (op = FO_NGLOB)) (glob (Some (text r)) (Some s))
      | _ => false
      end
  | FO_EQ | FO_NE =>
      match str_val l, str_val r with
      | Some l, Some r => str_compare op l r
      | _, _ => num_meaning op l r
      end
  | _ => num_meaning op l r
  end.

Fixpoint eval_tree (t : ftree) : bool :=
  match t with
  | TOr l r => eval_tree l || eval_tree r
  | TAnd l r => eval_tree l && eval_tree r
  | TNot t => negb (eval_tree t)
  | TCmp op l r => cmp_meaning op l r
  end.

(** ** Arenas that denote trees *)

Definition operand_denotes (h : heap) (o : foperand ptr) (o' : foperand bytes) : Prop :=
  o_kind o = o_kind o' ∧ o_num o = o_num o' ∧ o_str_len o = o_str_len o' ∧
  match o_str o, o_str o' with
  | None, None => True
  | Some (b, i), Some w => b = arena_blk h ∧ ∃ s, drop i (arena h) = w ++ NUL :: s
  | _, _ => False
  end.

Inductive denotes (h : heap) : ptr → ftree → Prop :=
  | denotes_or i l r tl tr :
      nodes h !! i = Some (FN_OR (Some l) (Some r)) →
      denotes h l tl → denotes h r tr → denotes h (nodes_blk h, i) (TOr tl tr)
  | denotes_and i l r tl tr :
      nodes h !! i = Some (FN_AND (Some l) (Some r)) →
      denotes h l tl → denotes h r tr → denotes h (nodes_blk h, i) (TAnd tl tr)
  | denotes_not i c t :
      nodes h !! i = Some (FN_NOT (Some c)) →
      denotes h c t → denotes h (nodes_blk h, i) (TNot t)
  | denotes_cmp i op l r l' r' :
      nodes h !! i = Some (FN_CMP op l r) →
      operand_denotes h l l' → operand_denotes h r r' →
      denotes h (nodes_blk h, i) (TCmp op l' r').

Lemma cstr_app w s : no_nul w → cstr (w ++ NUL :: s) = w.
Proof.
  induction w as [|c w IH]; [done|]. intros [Hc Hw]%no_nul_cons. cbn.
  rewrite (proj2 (ceq_false c NUL) Hc). by rewrite IH.
Qed.

Lemma ident_no_nul w : forallb is_ident_char w = true → no_nul w.
Proof.
  induction w as [|c w IH]; cbn; intros H; [constructor|]. bool_to_prop. apply no_nul_cons.
  split; [by intros ->|auto].
Qed.

Section Denoted.
Variables (h : heap) (root : ptr).
Let ast := relocate h root.

(** The relocated operand. *)
Definition moved (o : foperand ptr) : foperand rptr :=
  mkOperand (o_kind o) (o_num o) (reloc_str (arena_blk h) <$> o_str o) (o_str_len o).

Lemma read_moved o o' w :
  operand_denotes h o o' → o_str o' = Some w → no_nul w →
  read_str ast (o_str (moved o)) = Ok (Some w).
Proof.
  intros (_ & _ & _ & H) E Hw. unfold moved; cbn. rewrite E in H.
  destruct (o_str o) as [[b i]|]; [|done]. destruct H as [-> [s Hs]]. cbn.
  rewrite Nat.eqb_refl. cbn. by rewrite Hs, cstr_app.
Qed.

Lemma moved_str o o' :
  operand_denotes h o o' → operand_view o' → operand_str ast (moved o) = Ok (str_val o').
Proof.
  intros Hd Hv. unfold operand_str, str_val. destruct (Hd) as (Hk & _).
  cbn [moved o_kind]. rewrite Hk. destruct Hv as [z Hz|w Hw|w Hw]; [done| |].
  - cbn [o_kind]. by rewrite (read_moved o _ w Hd).
  - destruct (ident_ok_cons w Hw) as (c & w' & _ & _ & Hi%ident_no_nul & _).
    rewrite (read_moved o _ w Hd) by done. unfold ident_kind. by repeat case_match.
Qed.

Lemma moved_num o o' :
  operand_denotes h o o' → operand_view o' → operand_num ast (moved o) = Ok (num_val o').
Proof.
  intros Hd Hv. unfold operand_num, num_val. destruct (Hd) as (Hk & Hn & _).
  cbn [moved o_kind o_num]. rewrite Hk, Hn. destruct Hv as [z Hz|w Hw|w Hw]; [done|done|].
  destruct (ident_ok_cons w Hw) as (c & w' & _ & _ & Hi%ident_no_nul & _).
  rewrite (read_moved o _ w Hd) by done. unfold ident_kind. by repeat case_match.
Qed.

Lemma moved_eval_num op l r l' r' :
  operand_denotes h l l' → operand_denotes h r r' → operand_view l' → operand_view r' →
  eval_num ast op (moved l) (moved r) = Ok (num_meaning op l' r').
Proof.
  intros Hl Hr Vl Vr. unfold eval_num, num_meaning.
  rewrite (moved_num l l'), (moved_num r r') by done. cbn. by destruct (num_val l'), (num_val r').
Qed.

Lemma eval_cmp_denotes op l r l' r' :
  operand_denotes h l l' → operand_denotes h r r' → wf_tree (TCmp op l' r') = true →
  eval_cmp ast op (moved l) (moved r) = Ok (cmp_meaning op l' r').
Proof.
  intros Hl Hr Hw. cbn in Hw. bool_to_prop.
  assert (operand_view l') as Vl by (by apply wf_operand_view).
  assert (operand_view r') as Vr by (by apply wf_operand_view).
  pose proof (moved_eval_num op l r l' r' Hl Hr Vl Vr) as En.
  pose proof (moved_str l l' Hl Vl) as Sl. pose proof (moved_str r r' Hr Vr) as Sr.
  unfold eval_cmp, cmp_meaning. destruct (globbing op) eqn:Hg.
  - assert (∃ w, o_str r' = Some w ∧ no_nul w) as (w & Ew & Hnw).
    { unfold well_typed, type_error in *. rewrite Hg in *. destruct Vr as [| w ? | w]; [by destruct op|eauto|].
      destruct op; try done; unfold ident_kind in *; cbn in *; by repeat case_match. }
    rewrite Sl. cbn [rbind]. rewrite (read_moved r r' w) by done. cbn [rbind].
    unfold text. rewrite Ew. destruct op; try done; destruct (str_val l') as [[s|]|]; cbn; try done.
    all: by destruct (glob _ _).
  - destruct (relational op) eqn:Hrel; [by destruct op|].
    rewrite Sl, Sr. cbn [rbind]. destruct op; try done; by destruct (str_val l'), (str_val r').
Qed.

Lemma ast_lookup i :
  a_nodes ast !! i = body_map (reloc (nodes_blk h)) (reloc_str (arena_blk h)) <$> nodes h !! i.
Proof. apply list_lookup_fmap. Qed.

Lemma eval_node_denotes fuel q t :
  denotes h q t → wf_tree t = true → tree_size t ≤ fuel →
  eval_node fuel ast (reloc (nodes_blk h) (Some q)) = Ok (eval_tree t).
Proof.
  intros Hd. revert fuel.
  induction Hd as [i l r tl tr E Hl IHl Hr IHr|i l r tl tr E Hl IHl Hr IHr|i c t E Hc IHc|i op l r l' r' E Hl Hr];
    intros fuel Hw Hf; cbn [tree_size] in Hf; (destruct fuel as [|fuel]; [lia|]);
    cbn [reloc eval_node]; rewrite Nat.eqb_refl, ast_lookup, E;
    cbn [fmap option_fmap option_map body_map].
  - cbn in Hw. bool_to_prop. rewrite IHl by (done || lia). cbn. destruct (eval_tree tl); [done|].
    rewrite IHr by (done || lia). done.
  - cbn in Hw. bool_to_prop. rewrite IHl by (done || lia). cbn. destruct (eval_tree tl); [|done].
    rewrite IHr by (done || lia). done.
  - rewrite IHc by (done || lia). done.
  - by apply eval_cmp_denotes.
Qed.
End Denoted.
End Eval.

End FilterEval.
