(* ===== verification/FilterCompile.v ===== *)
(** * The compiler builds the tree it reads

    The parser of [FilterDsl] on the arena and node array of the code, against
    the same parser on abstract trees: as long as neither array grows, the
    pointers it builds denote the tree. The theorems about
    [retrace_filter_compile] follow. *)

From S2P Require Import Prelude FilterDsl FilterGrammar FilterEval.
Import FilterDsl FilterGrammar FilterEval.

Module FilterCompile.

Section Simulation.
Variable alloc_ok : nat → bool.

Abbreviation TB := (TreeBuilder 16 128).
Abbreviation HB := (HeapBuilder alloc_ok).

(** The two parsers stand at the same place, and the arrays are still the
    ones allocated first. *)
Record rel (p : fparser TB) (q : fparser HB) : Prop := mkRel {
  rel_len : p_len p = p_len q;
  rel_rest : p_rest p = p_rest q;
  rel_err : p_err p = p_err q;
  rel_mem : p_mem p = (length (nodes (p_mem q)), length (arena (p_mem q)));
  rel_blk : arena_blk (p_mem q) = 0 ∧ nodes_blk (p_mem q) = 1 ∧ next_blk (p_mem q) = 2;
  rel_cap : arena_cap (p_mem q) = 128 ∧ node_cap (p_mem q) = 16;
}.

(** What was built stays. *)
Definition ext (h h' : heap) : Prop :=
  nodes h `prefix_of` nodes h' ∧ arena h `prefix_of` arena h' ∧
  nodes_blk h = nodes_blk h' ∧ arena_blk h = arena_blk h'.

Lemma ext_refl h : ext h h.
Proof. done. Qed.

Lemma ext_trans h1 h2 h3 : ext h1 h2 → ext h2 h3 → ext h1 h3.
Proof.
  intros (? & ? & ? & ?) (? & ? & ? & ?). split_and!; [by etrans..|congruence|congruence].
Qed.

Lemma prefix_drop_app {X} (l l' : list X) i w : l `prefix_of` l' → drop i l = w → i ≤ length l →
  ∃ s, drop i l' = w ++ s.
Proof. intros [k ->] <- Hi. exists k. by rewrite drop_app_le. Qed.

Lemma operand_denotes_ext h h' o o' : operand_denotes h o o' → ext h h' → operand_denotes h' o o'.
Proof.
  intros (? & ? & ? & H) (_ & Ha & _ & Hb). split_and!; [done..|].
  destruct (o_str o) as [[b i]|], (o_str o') as [w|]; try done.
  destruct H as [-> [s Hs]]. split; [done|].
  destruct (prefix_drop_app _ _ _ _ Ha Hs) as [s' ->].
  - destruct (decide (i ≤ length (arena h))); [done|]. rewrite drop_ge in Hs by lia. by destruct w.
  - exists (s ++ s'). by rewrite <- app_assoc.
Qed.

Lemma denotes_ext h h' q t : denotes h q t → ext h h' → denotes h' q t.
Proof.
  intros Hd He. pose proof He as (Hn & _ & Hb & _).
  induction Hd; rewrite Hb; econstructor; eauto using prefix_lookup_Some, operand_denotes_ext.
Qed.

(** A store into a node that is still zero. *)
Lemma denotes_store h i n q t :
  nodes h !! i = Some zero_node → denotes h q t →
  denotes (mkHeap (arena_blk h) (arena_cap h) (arena h) (nodes_blk h) (node_cap h)
             (<[i := n]> (nodes h)) (next_blk h)) q t.
Proof.
  intros Hi Hd. set (h' := mkHeap _ _ _ _ _ _ _).
  assert (∀ j m, nodes h !! j = Some m → m ≠ zero_node → nodes h' !! j = Some m) as Hk.
  { intros j m Hj Hm. cbn. rewrite list_lookup_insert_ne; [done|]. intros ->. congruence. }
  induction Hd; change (nodes_blk h) with (nodes_blk h');
    [eapply denotes_or|eapply denotes_and|eapply denotes_not|eapply denotes_cmp]; eauto.
  all: by apply Hk.
Qed.

(** A run of the tree parser that gives a tree is followed by the run of the
    heap parser; [R] relates the values. *)
Definition sim {T V} (R : heap → V → T → Prop) (h0 : heap)
    (x : res (option T * fparser TB)) (y : res (option V * fparser HB)) : Prop :=
  ∀ t p, x = Ok (Some t, p) →
  ∃ v q, y = Ok (Some v, q) ∧ rel p q ∧ ext h0 (p_mem q) ∧ R (p_mem q) v t.

Lemma sim_ok {T V} (R : heap → V → T → Prop) h0 t v p q :
  rel p q → ext h0 (p_mem q) → R (p_mem q) v t → sim R h0 (Ok (Some t, p)) (Ok (Some v, q)).
Proof. intros ? ? ? ? ? [= <- <-]. eauto 6. Qed.

Lemma sim_none {T V} (R : heap → V → T → Prop) h0 p y : sim R h0 (Ok (None, p)) y.
Proof. done. Qed.

Lemma sim_bind {T V T' V'} (R : heap → V → T → Prop) (R' : heap → V' → T' → Prop) h0 x y
    (k : T → fparser TB → res (option T' * fparser TB))
    (k' : V → fparser HB → res (option V' * fparser HB)) n n' :
  sim R h0 x y →
  (∀ p, ∃ p', n p = Ok (None, p')) →
  (∀ t p v q, rel p q → ext h0 (p_mem q) → R (p_mem q) v t → sim R' h0 (k t p) (k' v q)) →
  sim R' h0
    (let! (a, p) := x in match a with None => n p | Some a => k a p end)
    (let! (a, q) := y in match a with None => n' q | Some a => k' a q end).
Proof.
  intros Hx Hn Hk t' p' H. apply bind_ok in H as ([[a|] p] & E & H).
  - apply Hx in E as (v & q & -> & ? & ? & ?). cbn. by eapply Hk.
  - destruct (Hn p) as [? Hp]. rewrite Hp in H. done.
Qed.

Lemma rel_set_rest p q s : rel p q → rel (set_rest s p) (set_rest s q).
Proof. by intros []; constructor. Qed.

Lemma rel_skip p q : rel p q → rel (skip_ws p) (skip_ws q).
Proof. intros H. unfold skip_ws. rewrite (rel_rest _ _ H). by apply rel_set_rest. Qed.

Lemma sim_str_operand k w e r p q :
  rel p q → sim operand_denotes (p_mem q) (str_operand k w e r p) (str_operand k w e r q).
Proof.
  intros Hr o p' H. apply str_operand_inv in H as H'. destruct H' as [-> Hp'].
  unfold str_operand, push_string in *. destruct p as [len s er [n a]], q as [len' s' er' h], Hr.
  cbn -[Nat.ltb] in *. destruct rel_cap0 as [C1 C2]. simplify_eq.
  unfold arena_push. rewrite C1. destruct (128 <? _); [done|]. cbn.
  eexists _, _. split_and!; [done|constructor; cbn; try done| |].
  - rewrite !length_app. cbn. f_equal; lia.
  - by split_and!; [|eexists|..].
  - split_and!; [done..|]. cbn. split; [done|]. exists []. rewrite drop_app_length. done.
Qed.

Lemma sim_parse_operand p q :
  rel p q → sim operand_denotes (p_mem q) (parse_operand p) (parse_operand q).
Proof.
  intros Hr%rel_skip. unfold parse_operand. rewrite (rel_rest _ _ Hr).
  set (s := p_rest (skip_ws q)) in *. change (p_mem q) with (p_mem (skip_ws q)).
  repeat case_if; try apply sim_none.
  - destruct (scan_string _) as [[w r]|]; [by apply sim_str_operand|apply sim_none].
  - destruct (scan_digits _ _) as [v r]. apply sim_ok; [by apply rel_set_rest|apply ext_refl|done].
  - destruct (scan_digits _ _) as [v r]. apply sim_ok; [by apply rel_set_rest|apply ext_refl|done].
  - destruct (scan_ident s) as [w r]. by apply sim_str_operand.
Qed.


(** A node just allocated: it is zero, and beyond what [h0] holds. *)
Definition fresh_node (h0 : heap) (n : ptr) (h : heap) : Prop :=
  fst n = nodes_blk h ∧ nodes h !! snd n = Some zero_node ∧ length (nodes h0) ≤ snd n.

Lemma fresh_node_ext h0 n h h' : fresh_node h0 n h → ext h h' → fresh_node h0 n h'.
Proof.
  intros (? & ? & ?) (? & _ & ? & _). split_and!; [congruence|by eapply prefix_lookup_Some|done].
Qed.

Lemma node_new_sim p q p1 :
  rel p q → node_new p = (Some tt, p1) →
  ∃ n q1, node_new q = (Some n, q1) ∧ rel p1 q1 ∧ ext (p_mem q) (p_mem q1) ∧
          fresh_node (p_mem q) n (p_mem q1).
Proof.
  intros Hr H. unfold node_new in *. destruct p as [len s er [n a]], q as [len' s' er' h], Hr.
  cbn -[Nat.leb] in *. destruct rel_cap0 as [C1 C2]. simplify_eq.
  destruct (Nat.leb_spec 16 (length (nodes h))); [done|]. injection H as <-.
  unfold heap_node_new. rewrite C2. destruct (Nat.eqb_spec (length (nodes h)) 16); [lia|].
  eexists _, _. split_and!; [done|constructor; cbn; try done| |].
  - by rewrite length_app.
  - by split_and!; [eexists|..].
  - unfold fresh_node; cbn. split_and!; [done| |done].
    by rewrite lookup_app_r, Nat.sub_diag by lia.
Qed.

Lemma sim_node {T V} (R : heap → V → T → Prop) p q
    (k : unit → fparser TB → res (option T * fparser TB))
    (k' : ptr → fparser HB → res (option V * fparser HB)) h0 :
  rel p q → ext h0 (p_mem q) →
  (∀ n p1 q1, rel p1 q1 → ext h0 (p_mem q1) → ext (p_mem q) (p_mem q1) → fresh_node h0 n (p_mem q1) →
     p_rest p1 = p_rest p → sim R h0 (k tt p1) (k' n q1)) →
  sim R h0
    (let '(n, p) := node_new p in match n with None => Ok (None, p) | Some n => k n p end)
    (let '(n, q) := node_new q in match n with None => Ok (None, q) | Some n => k' n q end).
Proof.
  intros Hr He Hk. destruct (node_new p) as [[[]|] p1] eqn:E; [|apply sim_none].
  destruct (node_new_sim p q p1 Hr E) as (n & q1 & -> & Hr1 & He1 & Hf & Hz & Hl).
  apply Hk; [done|by eapply ext_trans|done| |].
  - split_and!; [done..|]. destruct He as [Hp _]. apply prefix_length in Hp. lia.
  - by apply node_new_inv in E as [-> _].
Qed.

(** The stores of a node's contents. *)
Lemma sim_fill h0 n p q (body : fbody ftree bytes) (body' : fbody ptr ptr) :
  rel p q → ext h0 (p_mem q) → fresh_node h0 n (p_mem q) →
  (∀ h' i, nodes h' !! i = Some (body_map Some id body') →
     (∀ c t, denotes (p_mem q) c t → denotes h' c t) →
     (∀ o o', operand_denotes (p_mem q) o o' → operand_denotes h' o o') →
     denotes h' (nodes_blk h', i) (tree_of body)) →
  sim denotes h0 (fill (B := TB) tt body p) (fill (B := HB) n body' q).
Proof.
  intros Hr He (Hb & Hz & Hl) Hd. destruct n as [b i]. cbn in Hb, Hz, Hl. subst b.
  unfold fill. cbn. unfold heap_store. cbn. rewrite Nat.eqb_refl. cbn.
  apply sim_ok.
  - destruct Hr, p, q; cbn in *. constructor; cbn; try done. by rewrite length_insert.
  - destruct He as (Hn & Ha & ? & ?). split_and!; [|done..]. cbn.
    destruct Hn as [k Hk]. rewrite Hk, insert_app_r_alt by done. by eexists.
  - apply (Hd (mkHeap _ _ _ _ _ _ _)).
    + cbn. apply list_lookup_insert_eq. by eapply lookup_lt_Some.
    + intros c t. by apply denotes_store.
    + done.
Qed.

Lemma sim_weaken {T V} (R : heap → V → T → Prop) h0 h1 x y : sim R h1 x y → ext h0 h1 → sim R h0 x y.
Proof.
  intros H He t p E. destruct (H t p E) as (v & q & ? & ? & ? & ?).
  exists v, q. split_and!; [done|done|by eapply ext_trans|done].
Qed.

Lemma sim_parse_cmp p q : rel p q → sim denotes (p_mem q) (parse_cmp p) (parse_cmp q).
Proof.
  intros Hr. unfold parse_cmp. apply sim_node; [done|apply ext_refl|].
  intros n p1 q1 Hr1 He1 _ Hf1 _.
  apply (sim_bind (λ h v t, operand_denotes h v t ∧ fresh_node (p_mem q) n h)); [|eauto|].
  { intros o p2 E. destruct (sim_parse_operand p1 q1 Hr1 o p2 E) as (v & q2 & ? & ? & ? & ?).
    exists v, q2. split_and!; [done|done|by eapply ext_trans|done|by eapply fresh_node_ext]. }
  intros l p2 vl q2 Hr2%rel_skip He2 [Hl Hf2]. rewrite (rel_rest _ _ Hr2).
  destruct (scan_op _) as [[op oplen]|]; [|apply sim_none].
  apply (rel_set_rest _ _ (drop oplen (p_rest (skip_ws q2)))) in Hr2.
  apply (sim_bind (λ h v t, operand_denotes h v t ∧ operand_denotes h vl l ∧ fresh_node (p_mem q) n h)); [|eauto|].
  { intros o p3 E. destruct (sim_parse_operand _ _ Hr2 o p3 E) as (v & q3 & ? & ? & He3 & ?).
    exists v, q3. split_and!; [done|done|by eapply ext_trans|done|by eapply operand_denotes_ext|by eapply fresh_node_ext]. }
  intros r p3 vr q3 Hr3 He3 (Hrd & Hld & Hf3).
  destruct (Hld) as (Hkl & _). destruct (Hrd) as (Hkr & _).
  change (@sref HB) with ptr. change (@sref TB) with bytes. rewrite Hkl, Hkr.
  destruct (type_error op (o_kind l) (o_kind r)) eqn:Et; [apply sim_none|].
  apply sim_fill; [done|done|done|]. intros h' i Hi Hc Ho.
  eapply denotes_cmp; [|by apply Ho|by apply Ho]. rewrite Hi. destruct vl as [? ? [] ?], vr as [? ? [] ?]; done.
Qed.

Definition simulates (fuel : nat) : Prop := ∀ p q, rel p q →
  sim denotes (p_mem q) (parse_or fuel p) (parse_or fuel q) ∧
  (∀ t v, denotes (p_mem q) v t →
     sim denotes (p_mem q) (or_loop (B := TB) fuel t p) (or_loop (B := HB) fuel v q)) ∧
  sim denotes (p_mem q) (parse_and fuel p) (parse_and fuel q) ∧
  (∀ t v, denotes (p_mem q) v t →
     sim denotes (p_mem q) (and_loop (B := TB) fuel t p) (and_loop (B := HB) fuel v q)) ∧
  sim denotes (p_mem q) (parse_not fuel p) (parse_not fuel q) ∧
  sim denotes (p_mem q) (parse_primary fuel p) (parse_primary fuel q).

(** [parse_or] and [parse_and]: the first operand, then the loop. *)
Lemma sim_chain h0 x y
    (k : ftree → fparser TB → res (option ftree * fparser TB))
    (k' : ptr → fparser HB → res (option ptr * fparser HB)) :
  sim denotes h0 x y →
  (∀ t v p q, rel p q → denotes (p_mem q) v t → sim denotes (p_mem q) (k t p) (k' v q)) →
  sim denotes h0
    (let! (a, p) := x in match a with None => Ok (None, p) | Some a => k a p end)
    (let! (a, q) := y in match a with None => Ok (None, q) | Some a => k' a q end).
Proof.
  intros Hx Hk. apply (sim_bind denotes); [done|eauto|].
  intros t p v q Hr He Hd. eapply sim_weaken; [by apply Hk|done].
Qed.

(** A turn of a loop. *)
Lemma sim_loop t v x y p0 q0 (c : ftree → fbody ftree bytes) (c' : ptr → fbody ptr ptr)
    (k : ftree → fparser TB → res (option ftree * fparser TB))
    (k' : ptr → fparser HB → res (option ptr * fparser HB)) :
  rel p0 q0 → denotes (p_mem q0) v t →
  (∀ h i r vr, nodes h !! i = Some (body_map Some id (c' vr)) → denotes h v t → denotes h vr r →
     denotes h (nodes_blk h, i) (tree_of (c r))) →
  sim denotes (p_mem q0) x y →
  (∀ t v p q, rel p q → denotes (p_mem q) v t → sim denotes (p_mem q) (k t p) (k' v q)) →
  sim denotes (p_mem q0)
    (let! (rhs, p) := x in
     match rhs with
     | None => Ok (None, p)
     | Some rhs =>
         let '(n, p) := node_new p in
         match n with
         | None => Ok (None, p)
         | Some n =>
             let! (t, p) := fill (B := TB) n (c rhs) p in
             match t with None => Ok (None, p) | Some t => k t p end
         end
     end)
    (let! (rhs, q) := y in
     match rhs with
     | None => Ok (None, q)
     | Some rhs =>
         let '(n, q) := node_new q in
         match n with
         | None => Ok (None, q)
         | Some n =>
             let! (t, q) := fill (B := HB) n (c' rhs) q in
             match t with None => Ok (None, q) | Some t => k' t q end
         end
     end).
Proof.
  intros Hr Hv Hc Hx Hk. apply (sim_bind denotes); [done|eauto|].
  intros r p1 vr q1 Hr1 He1 Hd1. apply sim_node; [done|done|].
  intros n p2 q2 Hr2 He2 He12 Hf _. apply sim_chain; [|done].
  apply sim_fill; [done|done|done|]. intros h' i Hi Hden _.
  eapply Hc; [exact Hi|..]; apply Hden; by eapply denotes_ext.
Qed.

Lemma simulates_all fuel : simulates fuel.
Proof.
  induction fuel as [|fuel IH]; intros p q Hr; [split_and!; intros; done|].
  pose proof (rel_skip p q Hr) as Hs. pose proof (rel_rest _ _ Hs) as Es. cbn in Es.
  assert (∀ n, rel (set_rest (drop n (ws_drop (p_rest q))) (skip_ws p))
                   (set_rest (drop n (ws_drop (p_rest q))) (skip_ws q))) as Hd
    by (intros; by apply rel_set_rest).
  split_and!; [|intros t v Hv| |intros t v Hv| |];
    cbn [parse_or or_loop parse_and and_loop parse_not parse_primary]; cbn [p_rest skip_ws set_rest]; rewrite ?Es.
  - apply sim_chain; [by apply IH|]. intros. by apply IH.
  - case_if; [by apply sim_ok|].
    apply (sim_loop t v _ _ p q (FN_OR t) (FN_OR v)); [done|done|intros; by eapply denotes_or|exact (proj1 (proj2 (proj2 (IH _ _ (Hd 2)))))|].
    intros. by apply IH.
  - apply sim_chain; [by apply IH|]. intros. by apply IH.
  - case_if; [by apply sim_ok|].
    apply (sim_loop t v _ _ p q (FN_AND t) (FN_AND v)); [done|done|intros; by eapply denotes_and|destruct (IH _ _ (Hd 3)) as (_ & _ & _ & _ & H & _); exact H|].
    intros. by apply IH.
  - case_if; [|exact (proj2 (proj2 (proj2 (proj2 (proj2 (IH _ _ Hs))))))].
    apply sim_node; [apply Hd|apply ext_refl|].
    intros n p1 q1 Hr1 He1 _ Hf _.
    apply (sim_bind (λ h v t, denotes h v t ∧ fresh_node (p_mem q) n h)); [|cbn; eauto|].
    { intros o p2 E. destruct (IH p1 q1 Hr1) as (_ & _ & _ & _ & IHn & _).
      destruct (IHn o p2 E) as (v & q2 & ? & ? & ? & ?).
      exists v, q2. split_and!; [done|done|by eapply ext_trans|done|by eapply fresh_node_ext]. }
    intros t p2 v q2 Hr2 He2 [Hv Hf2]. apply sim_fill; [done|done|done|].
    intros h' i Hi Hden _. eapply denotes_not; [exact Hi|by apply Hden].
  - case_if; [|exact (sim_parse_cmp _ _ Hs)].
    intros t p' H. apply bind_ok in H as ([r p1] & E1 & H).
    destruct (ceq (deref _) ")") eqn:Ec; [|done]. injection H as -> <-.
    apply (rel_set_rest _ _ (tail (ws_drop (p_rest q)))) in Hs.
    destruct (proj1 (IH _ _ Hs) t p1 E1) as (v & q1 & E & Hr1%rel_skip & ? & ?).
    rewrite E. cbn [rbind]. pose proof (rel_rest _ _ Hr1) as Er. cbn [p_rest skip_ws set_rest] in Er.
    rewrite Er in *. rewrite Ec.
    exists v, (set_rest (tail (p_rest (skip_ws q1))) (skip_ws q1)).
    split_and!; [done|by apply rel_set_rest|done|done].
Qed.
End Simulation.

(** ** [retrace_filter_compile] *)

Definition start {B : Builder} (s : bytes) (b : bst) : fparser B := mkParser (length s) s None b.

Definition tree_start (s : bytes) := start (B := TreeBuilder 16 128) s (0, 0).

(** The tree of an expression that fits the first arrays. *)
Definition parse_tree (s : bytes) : option ftree :=
  match parse_all (tree_start s) with
  | Ok (Some t, _) => Some t
  | _ => None
  end.

(** The four allocations a compilation makes when no array grows. *)
Definition allocs_ok (alloc_ok : nat → bool) : Prop := ∀ i, i < 4 → alloc_ok i = true.

Lemma parse_all_inv {B : Builder} (p : fparser B) t q :
  parse_all p = Ok (Some t, q) →
  ∃ q0, parse_or (parse_fuel (p_rest p)) p = Ok (Some t, q0) ∧ p_err q0 = None ∧
        ws_drop (p_rest q0) = [] ∧ q = skip_ws q0.
Proof.
  unfold parse_all. intros H. apply bind_ok in H as ([[r|] q0] & E & H); [|done].
  destruct (p_err q0) eqn:Ee; [done|]. cbn in H. destruct (ws_drop (p_rest q0)) eqn:Ew; [|done].
  simplify_eq. eauto.
Qed.

Lemma parse_tree_range s t :
  no_nul s → parse_tree s = Some t →
  wf_tree t = true ∧ ∃ q, parse_all (tree_start s) = Ok (Some t, q) ∧
                          p_mem q = (tree_size t, tree_bytes t).
Proof.
  intros Hs H. unfold parse_tree in H. destruct (parse_all _) as [[[t'|] q]| |] eqn:E; try done.
  injection H as ->. apply parse_all_inv in E as E'. destruct E' as (q0 & E0 & _ & _ & ->).
  destruct (proj1 (range_all 16 128 _ (tree_start s) Hs) _ _ E0) as (Hw & _ & n & a & Eq & -> & ->).
  split; [done|]. exists (skip_ws q0). split; [done|]. rewrite Eq. done.
Qed.

(** Compilation as an instance of the parser's simulation. *)
Lemma compile_denotes alloc_ok s t :
  allocs_ok alloc_ok → no_nul s → parse_tree s = Some t →
  ∃ h root, retrace_filter_compile alloc_ok (Some s) = Ok (Some (relocate h root), None) ∧
            denotes h root t ∧ length (nodes h) = tree_size t.
Proof.
  intros Ha Hs Ht. pose proof (parse_tree_range s t Hs Ht) as (Hw & p & E & Hm).
  apply (parse_all_inv (B := TreeBuilder 16 128)) in E as (p0 & E & Ee & Ew & ->).
  assert (rel alloc_ok (tree_start s) (start (B := HeapBuilder alloc_ok) s seed_heap)) as Hr by by constructor.
  destruct (proj1 (simulates_all alloc_ok _ _ _ Hr) _ _ E) as (v & q & Eq & Hrq & _ & Hd).
  exists (p_mem q), v. pose proof (rel_blk _ _ _ Hrq) as (_ & _ & Hn). split_and!; [|done|].
  - assert (s ≠ []) as Hne by (by intros ->). unfold retrace_filter_compile. destruct s as [|c s]; [done|].
    rewrite !Ha by lia. cbn [andb negb]. unfold parse_all. cbn [p_rest] in *.
    unfold tree_start, start in *. cbn [p_rest] in Eq. rewrite Eq. cbn [rbind]. rewrite <- (rel_err _ _ _ Hrq), Ee.
    cbn [skip_ws set_rest p_rest]. rewrite <- (rel_rest _ _ _ Hrq), Ew. cbn [rbind].
    change (p_mem _) with (p_mem q).
    by rewrite Hn, !Ha by lia.
  - pose proof (rel_mem _ _ _ Hrq) as Em. cbn in Hm. rewrite Em in Hm. by injection Hm.
Qed.

Lemma compile_eval alloc_ok s t :
  allocs_ok alloc_ok → no_nul s → parse_tree s = Some t →
  ∃ ast, retrace_filter_compile alloc_ok (Some s) = Ok (Some ast, None) ∧
  ∀ char_signed rc,
    retrace_filter_eval_resolved char_signed rc (Some ast) = Ok (eval_tree char_signed rc t).
Proof.
  intros Ha Hs Ht. destruct (compile_denotes alloc_ok s t Ha Hs Ht) as (h & root & Hc & Hd & Hl).
  destruct (parse_tree_range s t Hs Ht) as [Hw _].
  exists (relocate h root). split; [done|]. intros cs rc. unfold retrace_filter_eval_resolved.
  apply eval_node_denotes; [done|done|].
  unfold relocate; cbn [a_nodes]. rewrite length_fmap. unfold hnode in *. lia.
Qed.

Lemma print_digits_no_nul fuel z acc : (0 ≤ z)%Z → no_nul acc → no_nul (print_digits fuel z acc).
Proof.
  assert (∀ d, (0 ≤ d < 10)%Z → digit_char d ≠ NUL) as Hc.
  { intros d H E. destruct (digit_char_ok d H) as [Hi _]. by rewrite E in Hi. }
  revert z acc. induction fuel as [|fuel IH]; intros z acc Hz Ha; cbn; [done|].
  destruct (Z.ltb_spec z 10).
  - apply no_nul_cons. split; [apply Hc; lia|done].
  - apply IH; [apply Z.div_pos; lia|]. apply no_nul_cons. split; [|done].
    apply Hc, Z.mod_pos_bound. lia.
Qed.

Lemma print_operand_no_nul o : operand_view o → no_nul (print_operand o).
Proof.
  intros [z Hz|w Hw|w Hw].
  - change (no_nul (print_num z)). unfold print_num.
    destruct (Z.ltb_spec z 0); [apply no_nul_cons; split; [done|]|];
      apply print_digits_no_nul; try lia; constructor.
  - change (no_nul ("034"%char :: escape w ++ ["034"%char])). apply no_nul_cons. split; [done|].
    apply no_nul_app. split; [|by repeat constructor].
    induction w as [|c w IH]; [constructor|]. apply no_nul_cons in Hw as [Hc Hw]. cbn.
    case_if; rewrite !no_nul_cons; auto.
  - rewrite print_ident. destruct (ident_ok_cons w Hw) as (_ & _ & _ & _ & Hi & _). by apply ident_no_nul.
Qed.

Lemma no_nul_paren s : no_nul s → no_nul ("("%char :: s ++ [")"%char]).
Proof. intros. apply no_nul_cons; split; [done|]. apply no_nul_app; split; [done|by repeat constructor]. Qed.

Lemma print_no_nul l t : wf_tree t = true → no_nul (print l t).
Proof.
  revert l. induction t as [a IHa b IHb|a IHa b IHb|t IH|op x y]; intros l Hw; cbn in Hw; bool_to_prop.
  - assert (no_nul (print LOr (TOr a b))) as H'.
    { cbn [print]. rewrite !no_nul_app. split_and!; auto. by repeat constructor. }
    destruct l; [done|by apply no_nul_paren..].
  - assert (no_nul (print LAnd (TAnd a b))) as H'.
    { cbn [print]. rewrite !no_nul_app. split_and!; auto. by repeat constructor. }
    destruct l; [done|done|by apply no_nul_paren].
  - cbn [print]. rewrite no_nul_app. split; [by repeat constructor|auto].
  - cbn [print]. rewrite no_nul_app, no_nul_cons, no_nul_app, no_nul_cons.
    split_and!; [by apply print_operand_no_nul, wf_operand_view|done| |done|
      by apply print_operand_no_nul, wf_operand_view].
    by destruct op; repeat constructor.
Qed.

(** C39 (termination). Compiling any expression, with any allocations failing,
    comes to an end: the parser's recursion and loops never run out of the
    fuel of six calls for a character, on its arrays and on trees alike. *)
Theorem filter_compile_total alloc_ok expr :
  retrace_filter_compile alloc_ok expr ≠ NoFuel ∧ ∀ s, parse_all (tree_start s) ≠ NoFuel.
Proof.
  split; [|intros s; apply parse_all_total]. destruct expr as [[|c s]|]; [done| |done]. unfold retrace_filter_compile.
  destruct (negb _); [done|].
  pose proof (parse_all_total (B := HeapBuilder alloc_ok) (start (B := HeapBuilder alloc_ok) (c :: s) seed_heap)) as H.
  unfold start in H.
  destruct (parse_all _) as [[[r|] p]| |]; cbn [rbind]; [|done..]. by repeat case_if.
Qed.

(** C3 (refinement). An expression whose tree fits the arrays the compiler
    starts with compiles, in four allocations, and the arena it compiles to
    evaluates to the meaning of the tree against every resolver, within its
    memory. *)
Theorem filter_compile_refines alloc_ok s t :
  allocs_ok alloc_ok → no_nul s → parse_tree s = Some t →
  ∃ ast, retrace_filter_compile alloc_ok (Some s) = Ok (Some ast, None) ∧
  ∀ char_signed rc,
    retrace_filter_eval_resolved char_signed rc (Some ast) = Ok (eval_tree char_signed rc t).
Proof. apply compile_eval. Qed.

(** The text of every well-formed tree, written with no more
    parentheses than the precedence of [or], [and] and [not] needs, compiles
    to an arena that means this very tree. *)
Theorem filter_print_compile alloc_ok t :
  allocs_ok alloc_ok → wf_tree t = true → tree_size t ≤ 16 → tree_bytes t ≤ 128 →
  parse_tree (print LOr t) = Some t ∧
  ∃ ast, retrace_filter_compile alloc_ok (Some (print LOr t)) = Ok (Some ast, None) ∧
  ∀ char_signed rc,
    retrace_filter_eval_resolved char_signed rc (Some ast) = Ok (eval_tree char_signed rc t).
Proof.
  intros Ha Hw Hn Hb.
  assert (parse_tree (print LOr t) = Some t) as E.
  { unfold parse_tree, tree_start, start. by rewrite (parse_print 16 128 t). }
  split; [done|]. by apply compile_eval; [|apply print_no_nul|].
Qed.

(** Every expression the compiler reads is well typed: no
    relational operator has an operand that is a string by its form, the
    pattern of a glob is a literal, names are identifiers that are no keyword,
    and numbers fit a [long long]. *)
Theorem filter_compile_typed s t :
  no_nul s → parse_tree s = Some t → wf_tree t = true.
Proof. intros Hs Ht. by destruct (parse_tree_range s t Hs Ht). Qed.

Definition demo_tree : ftree :=
  TOr (TNot (TAnd (TCmp FO_EQ (mkOperand FO_PARAM 0 (Some (lit "fd")) 2) (mkOperand FO_NUM (-3) None 0))
                  (TCmp FO_NE (mkOperand FO_FUNC 0 (Some (lit "func")) 4) (mkOperand FO_STR 0 (Some (lit "op*")) 3))))
      (TCmp FO_LT (mkOperand FO_RET 0 (Some (lit "ret")) 3) (mkOperand FO_NUM 10 None 0)).

Lemma filter_compile_refines_witness :
  ∃ ast, retrace_filter_compile (λ _, true) (Some (print LOr demo_tree)) = Ok (Some ast, None) ∧
  ∀ char_signed rc,
    retrace_filter_eval_resolved char_signed rc (Some ast) = Ok (eval_tree char_signed rc demo_tree).
Proof.
  apply (filter_compile_refines (λ _, true) (print LOr demo_tree) demo_tree).
  - intros i _. reflexivity.
  - apply (bool_decide_eq_true_1 _). vm_compute. reflexivity.
  - vm_compute. reflexivity.
Defined.

Lemma filter_print_compile_witness :
  parse_tree (print LOr demo_tree) = Some demo_tree ∧
  ∃ ast, retrace_filter_compile (λ i, i <? 4) (Some (print LOr demo_tree)) = Ok (Some ast, None) ∧
  ∀ char_signed rc,
    retrace_filter_eval_resolved char_signed rc (Some ast) = Ok (eval_tree char_signed rc demo_tree).
Proof.
  apply (filter_print_compile (λ i, i <? 4) demo_tree).
  - intros i Hi. apply Nat.ltb_lt, Hi.
  - vm_compute. reflexivity.
  - vm_compute. lia.
  - vm_compute. lia.
Defined.

Lemma filter_compile_typed_witness : wf_tree demo_tree = true.
Proof.
  apply (filter_compile_typed (print LOr demo_tree)).
  - apply (bool_decide_eq_true_1 _). vm_compute. reflexivity.
  - vm_compute. reflexivity.
Defined.

(** Nine comparisons joined by [and]: seventeen nodes. *)
Definition nine_terms : bytes :=
  lit "fd==1 and fd==2 and fd==3 and fd==4 and fd==5 and fd==6 and fd==7 and fd==8 and fd==9".

(** Two names of seventy characters: more than 128 bytes of strings. *)
Definition long_names : bytes :=
  let n := replicate 70 "n"%char in n ++ lit "==1 and " ++ n ++ lit "==2".

(** The compiler keeps pointers into its arrays across their
    growth. An expression of seventeen nodes compiles to an arena whose root
    has children that point outside it, and an expression with 129 bytes of
    names to one whose first name does; evaluating either is undefined. A
    negation around the seventeenth node is a store into the freed array
    already while compiling. *)
Theorem filter_compile_dangles :
  (∀ s, s = nine_terms ∨ s = long_names →
   ∃ ast, retrace_filter_compile (λ _, true) (Some s) = Ok (Some ast, None) ∧
   ∀ char_signed rc, retrace_filter_eval_resolved char_signed rc (Some ast) = Undef) ∧
  retrace_filter_compile (λ _, true)
    (Some (take 75 nine_terms ++ lit " and not (fd==9)")) = Undef.
Proof.
  split; [|vm_compute; reflexivity].
  intros s [-> | ->]; (eexists; split; [vm_compute; reflexivity|]); intros cs rc; vm_compute; reflexivity.
Qed.
End FilterCompile.
