(* ===== verification/OpenAddr.v ===== *)
(** * Open addressing with linear probing

    The index the configuration cache builds over its entries: a table of a
    power of two of slots, each empty (0) or holding an entry's number plus
    one, probed from the slot of the key's hash on. The table is described by
    the two loops of the code, [probe_free] (find an empty slot) and
    [probe_key] (find an entry by its key); the lemmas show that a lookup
    ends, and finds the first entry of the key. *)

From S2P Require Import Prelude.

Module OpenAddr.

Section Table.
Variable nb : nat.

(** [z & (nb - 1)]. *)
Definition slot (z : Z) : nat := Z.to_nat (Z.land z (Z.of_nat nb - 1)).

(** [(b + 1) & (nb - 1)]. *)
Definition next_slot (b : nat) : nat := slot (Z.of_nat b + 1).

Definition at_slot (t : list nat) (b : nat) : nat := default 0 (t !! b).

(** [while (t[b] != 0) b = (b + 1) & (nb - 1)]. *)
Fixpoint probe_free (fuel : nat) (t : list nat) (b : nat) : option nat :=
  match fuel with
  | O => None
  | S fuel => if at_slot t b =? 0 then Some b else probe_free fuel t (next_slot b)
  end.

(** The lookup loop, [is_key i] comparing the key of entry [i]: the outer
    [None] is a loop that did not end. *)
Fixpoint probe_key (is_key : nat → bool) (fuel : nat) (t : list nat) (b : nat)
  : option (option nat) :=
  match fuel with
  | O => None
  | S fuel =>
      match at_slot t b with
      | O => Some None
      | S i => if is_key i then Some (Some i) else probe_key is_key fuel t (next_slot b)
      end
  end.

(** Entries [i], [i + 1], ... with hashes [hs] put in the table. *)
Fixpoint fill (i : nat) (hs : list Z) (t : list nat) : option (list nat) :=
  match hs with
  | [] => Some t
  | h :: hs =>
      match probe_free nb t (slot h) with
      | None => None
      | Some b => fill (S i) hs (<[b := S i]> t)
      end
  end.

(** ** Probe sequences *)

Hypothesis pow2 : ∃ k, nb = 2 ^ k.

Lemma nb_pos : 0 < nb.
Proof. destruct pow2 as [k ->]. pose proof (Nat.pow_nonzero 2 k). lia. Qed.

Lemma slot_mod z : slot z = Z.to_nat (z mod Z.of_nat nb).
Proof.
  unfold slot. destruct pow2 as [k Hk]. rewrite Hk, Nat2Z.inj_pow. change (Z.of_nat 2) with 2%Z.
  replace (2 ^ Z.of_nat k - 1)%Z with (Z.ones (Z.of_nat k)) by (rewrite Z.ones_equiv; lia).
  rewrite Z.land_ones by lia. done.
Qed.

Lemma slot_lt z : slot z < nb.
Proof.
  rewrite slot_mod. pose proof nb_pos. pose proof (Z.mod_pos_bound z (Z.of_nat nb)). lia.
Qed.

Definition pos (b d : nat) : nat := (b + d) mod nb.

Lemma pos_0 b : b < nb → pos b 0 = b.
Proof. intros. unfold pos. rewrite Nat.add_0_r. by apply Nat.mod_small. Qed.

Lemma pos_lt b d : pos b d < nb.
Proof. apply Nat.mod_upper_bound. pose proof nb_pos. lia. Qed.

Lemma next_pos b d : next_slot (pos b d) = pos b (S d).
Proof.
  unfold next_slot. rewrite slot_mod. unfold pos. pose proof nb_pos.
  rewrite Nat2Z.inj_mod, Zplus_mod_idemp_l, Nat.add_succ_r.
  change 1%Z with (Z.of_nat 1). rewrite <- Nat2Z.inj_add, <- Nat2Z.inj_mod, Nat2Z.id.
  f_equal. lia.
Qed.

Lemma pos_S b d : pos (next_slot b) d = pos b (S d).
Proof.
  unfold next_slot. rewrite slot_mod. unfold pos. pose proof nb_pos.
  change 1%Z with (Z.of_nat 1). rewrite <- Nat2Z.inj_add, <- Nat2Z.inj_mod, Nat2Z.id.
  rewrite Nat.Div0.add_mod_idemp_l. f_equal. lia.
Qed.

(** Every slot is on the probe sequence. *)
Lemma pos_surj b c : b < nb → c < nb → ∃ d, d < nb ∧ pos b d = c.
Proof.
  intros Hb Hc. destruct (decide (b ≤ c)).
  - exists (c - b). split; [lia|]. unfold pos. replace (b + (c - b)) with c by lia.
    by apply Nat.mod_small.
  - exists (nb + c - b). split; [lia|]. unfold pos. replace (b + (nb + c - b)) with (c + 1 * nb) by lia.
    rewrite Nat.Div0.mod_add. by apply Nat.mod_small.
Qed.

Lemma probe_free_spec fuel t b d :
  d < fuel → at_slot t (pos b d) = 0 → b < nb →
  ∃ e, e ≤ d ∧ probe_free fuel t b = Some (pos b e) ∧ at_slot t (pos b e) = 0 ∧
       ∀ k, k < e → at_slot t (pos b k) ≠ 0.
Proof.
  revert b d. induction fuel as [|fuel IH]; intros b d Hd Hz Hb; [lia|]. cbn.
  destruct (Nat.eqb_spec (at_slot t b) 0) as [E|E].
  - exists 0. rewrite pos_0 by done. split_and!; [lia|done|done|lia].
  - destruct d as [|d]; [rewrite pos_0 in Hz by done; done|].
    rewrite <- pos_S in Hz. destruct (IH (next_slot b) d) as (e & He & Hp & Hez & Hk); [lia|done|apply slot_lt|].
    exists (S e). rewrite <- pos_S. split_and!; [lia|done|done|].
    intros [|k] Hlt; [by rewrite pos_0|]. rewrite <- pos_S. apply Hk. lia.
Qed.

Lemma probe_key_hit is_key fuel t b d i :
  d < fuel → b < nb → at_slot t (pos b d) = S i → is_key i = true →
  (∀ k, k < d → ∃ j, at_slot t (pos b k) = S j ∧ is_key j = false) →
  probe_key is_key fuel t b = Some (Some i).
Proof.
  revert b d. induction fuel as [|fuel IH]; intros b d Hd Hb Hi Hk Hbefore; [lia|]. cbn.
  destruct d as [|d].
  - rewrite pos_0 in Hi by done. by rewrite Hi, Hk.
  - destruct (Hbefore 0) as (j & Hj & Hn); [lia|]. rewrite pos_0 in Hj by done. rewrite Hj, Hn.
    apply (IH _ d); [lia|apply slot_lt|by rewrite pos_S|done|].
    intros k Hlt. rewrite pos_S. apply Hbefore. lia.
Qed.

Lemma probe_key_miss is_key fuel t b d :
  d < fuel → b < nb → at_slot t (pos b d) = 0 →
  (∀ c i, at_slot t c = S i → is_key i = false) →
  probe_key is_key fuel t b = Some None.
Proof.
  revert b d. induction fuel as [|fuel IH]; intros b d Hd Hb Hz Hn; [lia|]. cbn.
  destruct (at_slot t b) as [|i] eqn:E; [done|]. rewrite (Hn b i E).
  destruct d as [|d]; [rewrite pos_0 in Hz by done; congruence|].
  apply (IH _ d); [lia|apply slot_lt|by rewrite pos_S|done].
Qed.

(** ** Filled tables *)

(** The table after the entries of hashes [hs] were put in it: every slot
    taken holds one of them, and each is reached on its probe sequence across
    slots of earlier entries. *)
Record filled (hs : list Z) (t : list nat) : Prop := mkFilled {
  filled_length : length t = nb;
  filled_count : length (filter (λ x, x ≠ 0) t) = length hs;
  filled_range : ∀ b i, at_slot t b = S i → i < length hs;
  filled_reach : ∀ i h, hs !! i = Some h →
    ∃ d, d < nb ∧ at_slot t (pos (slot h) d) = S i ∧
         ∀ k, k < d → ∃ j, at_slot t (pos (slot h) k) = S j ∧ j < i;
}.

Lemma filled_empty : filled [] (replicate nb 0).
Proof.
  assert (∀ b, at_slot (replicate nb 0) b = 0) as Hz.
  { intros b. unfold at_slot. destruct (decide (b < nb)).
    - by rewrite lookup_replicate_2.
    - rewrite lookup_ge_None_2; [done|]. rewrite length_replicate. lia. }
  split; [by rewrite length_replicate| |intros b i; by rewrite Hz|done].
  assert (∀ n, filter (λ x, x ≠ 0) (replicate n 0) = []) as ->; [|done].
  induction n as [|n IH]; [done|]. rewrite replicate_S, filter_cons_False by lia. done.
Qed.

(** A table with fewer entries than slots has an empty one. *)
Lemma filled_free hs t : filled hs t → length hs < nb → ∃ b, b < nb ∧ at_slot t b = 0.
Proof.
  intros H Hlt. destruct (decide (Forall (λ x, x ≠ 0) t)) as [Hall|Hex].
  - pose proof (filled_count _ _ H) as Hc. assert (filter (λ x, x ≠ 0) t = t) as E.
    { clear -Hall. induction Hall; [done|]. rewrite filter_cons_True by done. by f_equal. }
    rewrite E, (filled_length _ _ H) in Hc. lia.
  - apply not_Forall_Exists in Hex; [|solve_decision]. apply Exists_exists in Hex as (x & Hx & Hz).
    apply list_elem_of_lookup in Hx as [b Hb]. exists b. split.
    + rewrite <- (filled_length _ _ H). by eapply lookup_lt_Some.
    + unfold at_slot. rewrite Hb. cbn. destruct x; [done|]. by destruct Hz.
Qed.

Lemma at_slot_insert t b c x : b < length t → at_slot (<[b := x]> t) c = if decide (b = c) then x else at_slot t c.
Proof.
  intros Hb. unfold at_slot. case_decide as E; subst.
  - by rewrite list_lookup_insert_eq.
  - by rewrite list_lookup_insert_ne.
Qed.

Lemma filter_insert_count (t : list nat) b x :
  at_slot t b = 0 → b < length t → x ≠ 0 →
  length (filter (λ x, x ≠ 0) (<[b := x]> t)) = S (length (filter (λ x, x ≠ 0) t)).
Proof.
  revert b. induction t as [|y t IH]; intros [|b] Hz Hl Hx; cbn [length] in Hl; try lia.
  - unfold at_slot in Hz. cbn in Hz. subst y. change (<[0 := x]> (0 :: t)) with (x :: t).
    by rewrite filter_cons_True, filter_cons_False by lia.
  - change (<[S b := x]> (y :: t)) with (y :: <[b := x]> t).
    rewrite !filter_cons. destruct (decide (y ≠ 0)); cbn [length]; rewrite IH; done || lia.
Qed.

Lemma filled_snoc hs t h :
  filled hs t → length hs < nb →
  ∃ b, probe_free nb t (slot h) = Some b ∧ filled (hs ++ [h]) (<[b := S (length hs)]> t).
Proof.
  intros H Hlt. destruct (filled_free hs t H Hlt) as (c & Hc & Hz).
  destruct (pos_surj (slot h) c (slot_lt h) Hc) as (d & Hd & <-).
  destruct (probe_free_spec nb t (slot h) d Hd Hz (slot_lt h)) as (e & He & -> & Hez & Hk).
  eexists; split; [done|]. pose proof (pos_lt (slot h) e) as Hp. pose proof (filled_length _ _ H) as Hl.
  split.
  - by rewrite length_insert.
  - rewrite filter_insert_count, length_app, (filled_count _ _ H) by (done || lia). cbn. lia.
  - intros b i. rewrite at_slot_insert, length_app by lia. cbn. case_decide.
    + intros [= <-]. lia.
    + intros Hi. apply (filled_range _ _ H) in Hi. lia.
  - intros i h' Hi. apply lookup_app_Some in Hi as [Hi|[Hge Hi]].
    + destruct (filled_reach _ _ H i h' Hi) as (d' & Hd' & Hat & Hbefore). exists d'.
      split_and!; [done|..].
      * rewrite at_slot_insert, decide_False by (lia || congruence). done.
      * intros k Hlt'. destruct (Hbefore k Hlt') as (j & Hj & ?). exists j. split; [|done].
        rewrite at_slot_insert, decide_False by (lia || congruence). done.
    + assert (i = length hs ∧ h' = h) as [-> ->].
      { apply lookup_lt_Some in Hi as Hi'. cbn in Hi'. assert (i - length hs = 0) as E by lia.
        rewrite E in Hi. injection Hi as ->. lia. }
      exists e. split_and!; [lia|by rewrite at_slot_insert, decide_True by (lia || done)|].
      intros k Hlt'. specialize (Hk k Hlt'). destruct (at_slot t (pos (slot h) k)) as [|j] eqn:Ej; [done|].
      exists j. split; [|by eapply filled_range]. rewrite at_slot_insert, decide_False by (lia || congruence). done.
Qed.

Lemma fill_filled hs0 hs t :
  filled hs0 t → length hs0 + length hs < nb →
  ∃ t', fill (length hs0) hs t = Some t' ∧ filled (hs0 ++ hs) t'.
Proof.
  revert hs0 t. induction hs as [|h hs IH]; intros hs0 t H Hlt; cbn in *.
  - exists t. by rewrite app_nil_r.
  - destruct (filled_snoc hs0 t h H) as (b & -> & H'); [lia|].
    destruct (IH _ _ H') as (t' & E & Hf); [rewrite length_app; cbn; lia|].
    rewrite length_app, Nat.add_1_r in E. exists t'. by rewrite <- app_assoc in Hf.
Qed.

(** The lookup of a key whose entries all have its hash: the first of them. *)
Lemma probe_key_first is_key hs t h :
  filled hs t → length hs < nb →
  (∀ i, is_key i = true → i < length hs → hs !! i = Some h) →
  (∃ i, probe_key is_key nb t (slot h) = Some (Some i) ∧ i < length hs ∧ is_key i = true ∧
        ∀ j, j < i → is_key j = false) ∨
  (probe_key is_key nb t (slot h) = Some None ∧ ∀ j, j < length hs → is_key j = false).
Proof.
  intros H Hlt Hh. destruct (decide (Exists (λ i, is_key i = true) (seq 0 (length hs)))) as [Hex|Hno].
  - left. apply Exists_exists in Hex as (i0 & Hi0 & Hk0). apply elem_of_seq in Hi0 as [_ Hi0].
    assert (∃ i, i < length hs ∧ is_key i = true ∧ ∀ j, j < i → is_key j = false) as (i & Hi & Hk & Hm).
    { clear Hh. induction (lt_wf i0) as [i0 _ IH].
      destruct (decide (Exists (λ j, is_key j = true) (seq 0 i0))) as [He|He].
      - apply Exists_exists in He as (j & Hj & Hkj). apply elem_of_seq in Hj as [_ Hj]. apply (IH j); [lia|lia|done].
      - exists i0. split_and!; [lia|done|]. intros j Hj. apply not_true_iff_false. intros Hkj. apply He.
        apply Exists_exists. exists j. split; [apply elem_of_seq; lia|done]. }
    exists i. split_and!; [|done..]. destruct (filled_reach _ _ H i h (Hh i Hk Hi)) as (d & Hd & Hat & Hb).
    apply (probe_key_hit _ _ _ _ d); [done|apply slot_lt|done|done|].
    intros k Hkd. destruct (Hb k Hkd) as (j & Hj & Hji). exists j. auto.
  - right. assert (∀ j, j < length hs → is_key j = false) as Hn.
    { intros j Hj. apply not_true_iff_false. intros Hkj. apply Hno, Exists_exists.
      exists j. split; [apply elem_of_seq; lia|done]. }
    split; [|done]. destruct (filled_free hs t H Hlt) as (c & Hc & Hz).
    destruct (pos_surj (slot h) c (slot_lt h) Hc) as (d & Hd & <-).
    apply (probe_key_miss _ _ _ _ d); [done|apply slot_lt|done|].
    intros b i Hi. apply Hn. by eapply filled_range.
Qed.
End Table.

End OpenAddr.
