(* ===== verification/ConfigCache.v ===== *)
(** * The configuration cache

    [src/core/config_cache.c]: the snapshot that maps the function names of
    the intercept scripts to the scripts, with its hash index, built aside and
    published by one pointer store. *)

From S2P Require Import Prelude Json OpenAddr.
Import Json OpenAddr.

Module ConfigCache.

Definition CONFIG_CACHE_MAX_ENTRIES : nat := 256.

Record cache_entry := mkEntry { ce_name : bytes; ce_script : JSON_Object }.

(** [struct cache_snap]: [count] is the number of entries and [nbuckets] the
    length of [buckets], none when their allocation failed. *)
Record cache_snap := mkSnap {
  entries : list cache_entry;
  buckets : list nat;
}.

(** 32-bit FNV-1a. *)
Definition name_hash (s : bytes) : Z :=
  foldl (λ h c, u32 (Z.lxor h (uchar c) * 16777619)) 2166136261%Z s.

(** The loop over the scripts, [count] entries being in the snapshot. *)
Fixpoint collect (scripts : JSON_Array) (count : nat) : list cache_entry :=
  match scripts with
  | [] => []
  | v :: scripts =>
      if CONFIG_CACHE_MAX_ENTRIES <=? count then []
      else
        match json_value_get_object (Some v) with
        | None => collect scripts count
        | Some script =>
            match json_object_get_string (Some script) "func_name" with
            | None | Some [] => collect scripts count
            | Some name =>
                if streq name (lit "*") then collect scripts count
                else mkEntry name script :: collect scripts (S count)
            end
        end
  end.

(** [while (nb < target) nb <<= 1]. *)
Fixpoint grow (fuel nb target : nat) : option nat :=
  match fuel with
  | O => None
  | S fuel => if nb <? target then grow fuel (2 * nb) target else Some nb
  end.

(** The hash index over the entries; [None] when one of its loops does not
    end. *)
Definition index (es : list cache_entry) : option (list nat) :=
  match grow (S (length es * 4)) 8 (length es * 4) with
  | None => None
  | Some nb => fill nb 0 (name_hash ∘ ce_name <$> es) (replicate nb 0)
  end.

Section Build.
(** Whether the two allocations succeed. *)
Variables snap_alloc buckets_alloc : bool.

(** [retrace_config_cache_build]: the return code and the snapshot published,
    [g_snap] being the one before; [None] when a loop does not end. *)
Definition retrace_config_cache_build (conf : option JSON_Object) (g_snap : option cache_snap)
  : option (Z * option cache_snap) :=
  match conf with
  | None => Some ((-1)%Z, g_snap)
  | Some _ =>
      match json_object_get_array conf "intercept_scripts" with
      | None => Some ((-1)%Z, g_snap)
      | Some scripts =>
          if negb snap_alloc then Some ((-1)%Z, g_snap)
          else
            let es := collect scripts 0 in
            if buckets_alloc then
              match index es with
              | None => None
              | Some t => Some (0%Z, Some (mkSnap es t))
              end
            else Some (0%Z, Some (mkSnap es []))
      end
  end.
End Build.

(** The scan that serves a snapshot without an index. *)
Fixpoint scan (es : list cache_entry) (name : bytes) : option JSON_Object :=
  match es with
  | [] => None
  | e :: es => if streq (ce_name e) name then Some (ce_script e) else scan es name
  end.

(** [retrace_config_cache_lookup]; the outer [None] is a loop that does not
    end. *)
Definition retrace_config_cache_lookup (g_snap : option cache_snap) (func_name : option bytes)
  : option (option JSON_Object) :=
  match func_name, g_snap with
  | None, _ | _, None => Some None
  | Some name, Some snap =>
      let nb := length (buckets snap) in
      if 0 <? nb then
        match probe_key nb (λ i, match entries snap !! i with
                              | Some e => streq (ce_name e) name
                              | None => false
                              end) nb (buckets snap) (slot nb (name_hash name)) with
        | None => None
        | Some None => Some None
        | Some (Some i) => Some (ce_script <$> entries snap !! i)
        end
      else Some (scan (entries snap) name)
  end.

Definition retrace_config_cache_clear (alloc : bool) (g_snap : option cache_snap) : option cache_snap :=
  if alloc then Some (mkSnap [] []) else g_snap.

Definition retrace_config_cache_count (g_snap : option cache_snap) : nat :=
  match g_snap with None => 0 | Some snap => length (entries snap) end.

(** ** What the cache promises *)

(** The entry a script gives: one with a function name other than the
    wildcard. *)
Definition named (v : JSON_Value) : option cache_entry :=
  match v with
  | JSONObject o =>
      match json_object_get_string (Some o) "func_name" with
      | Some name => if streq name [] || streq name (lit "*") then None else Some (mkEntry name o)
      | None => None
      end
  | _ => None
  end.

(** The scripts that are cached: the first 256 named ones. *)
Definition cached (scripts : JSON_Array) : list cache_entry :=
  take CONFIG_CACHE_MAX_ENTRIES (omap named scripts).

Definition first_of (es : list cache_entry) (name : bytes) : option JSON_Object :=
  ce_script ∘ snd <$> list_find (λ e, ce_name e = name) es.

(** A published snapshot. *)
Definition snap_ok (snap : cache_snap) : Prop :=
  buckets snap = [] ∨
  (∃ k, length (buckets snap) = 2 ^ k) ∧ length (entries snap) < length (buckets snap) ∧
  filled (length (buckets snap)) (name_hash ∘ ce_name <$> entries snap) (buckets snap).

Lemma collect_cached scripts count :
  count ≤ CONFIG_CACHE_MAX_ENTRIES →
  collect scripts count = take (CONFIG_CACHE_MAX_ENTRIES - count) (omap named scripts).
Proof.
  revert count. induction scripts as [|v scripts IH]; intros count Hc; [symmetry; apply take_nil|].
  cbn [collect]. destruct (Nat.leb_spec CONFIG_CACHE_MAX_ENTRIES count).
  { replace (CONFIG_CACHE_MAX_ENTRIES - count) with 0 by lia. done. }
  destruct v as [| | |o| |]; try (by apply IH). cbn [json_value_get_object omap list_omap named].
  destruct (json_object_get_string (Some o) "func_name") as [[|c n]|]; [by apply IH| |by apply IH].
  destruct (streq (c :: n) (lit "*")) eqn:E.
  - rewrite orb_true_r. by apply IH.
  - cbn [orb]. change (streq (c :: n) []) with false. cbn [orb].
    replace (CONFIG_CACHE_MAX_ENTRIES - count) with (S (CONFIG_CACHE_MAX_ENTRIES - S count)) by lia.
    cbn [take]. f_equal. apply IH. lia.
Qed.

Lemma grow_spec fuel nb target :
  target < fuel + nb → 0 < nb → 0 < fuel → (∃ k, nb = 2 ^ k) →
  ∃ n k, grow fuel nb target = Some n ∧ n = 2 ^ k ∧ target ≤ n ∧ nb ≤ n.
Proof.
  revert nb. induction fuel as [|fuel IH]; intros nb Hf Hn H0 [k ->]; [lia|]. cbn [grow].
  destruct (Nat.ltb_spec (2 ^ k) target); [|exists (2 ^ k), k; split_and!; done || lia].
  destruct fuel as [|fuel]; [lia|].
  destruct (IH (2 * 2 ^ k)) as (n & k' & E & ? & ? & ?); [lia|lia|lia|by exists (S k)|].
  exists n, k'. split_and!; [done|done|done|lia].
Qed.

Lemma index_ok es : ∃ t, index es = Some t ∧ snap_ok (mkSnap es t).
Proof.
  unfold index. destruct (grow_spec (S (length es * 4)) 8 (length es * 4)) as (n & k & -> & Hk & Hn & H8);
    [lia|lia|lia|by exists 3|].
  destruct (fill_filled n (ex_intro _ k Hk) [] (name_hash ∘ ce_name <$> es) (replicate n 0)) as (t & E & Hf).
  - by apply filled_empty.
  - rewrite length_fmap. cbn. lia.
  - exists t. split; [done|]. right. cbn [buckets entries].
    rewrite (filled_length _ _ _ Hf). cbn [app] in Hf.
    split_and!; [by exists k|lia|done].
Qed.

Lemma scan_first es name : scan es name = first_of es name.
Proof.
  unfold first_of. induction es as [|e es IH]; [done|]. cbn.
  destruct (streq (ce_name e) name) eqn:E; bool_to_prop.
  - by rewrite decide_True.
  - rewrite decide_False by done. rewrite IH. by destruct (list_find _ es) as [[i x]|].
Qed.

Lemma first_of_at es name i e :
  es !! i = Some e → ce_name e = name →
  (∀ j x, j < i → es !! j = Some x → ce_name x ≠ name) → first_of es name = Some (ce_script e).
Proof.
  intros Hi Hn Hb. unfold first_of. rewrite (proj2 (list_find_Some _ es i e)); [done|].
  split_and!; [done|done|]. intros j x Hx Hj Hp. by eapply Hb.
Qed.

(** A lookup in a published snapshot ends and gives the first entry. *)
Lemma lookup_first snap name :
  snap_ok snap →
  retrace_config_cache_lookup (Some snap) (Some name) = Some (first_of (entries snap) name).
Proof.
  intros Hok. unfold retrace_config_cache_lookup. destruct Hok as [Hb|(Hk & Hlt & Hf)].
  - rewrite Hb. cbn. by rewrite scan_first.
  - destruct (Nat.ltb_spec 0 (length (buckets snap))); [|lia].
    set (key i := match entries snap !! i with Some e => streq (ce_name e) name | None => false end).
    destruct (probe_key_first _ Hk key _ _ (name_hash name) Hf) as [(i & -> & Hi & Hki & Hm)|[-> Hn]].
    + by rewrite length_fmap.
    + intros i Hki _. unfold key in Hki. rewrite list_lookup_fmap.
      destruct (entries snap !! i) as [e|]; [|done]. cbn. apply streq_true in Hki. by rewrite Hki.
    + f_equal. unfold key in Hki. destruct (entries snap !! i) as [e|] eqn:E; [|done].
      symmetry. apply (first_of_at _ _ i); [done|by apply streq_true|].
      intros j x Hj Hx Hx'. specialize (Hm j Hj). unfold key in Hm. rewrite Hx in Hm.
      apply streq_false in Hm. done.
    + f_equal. symmetry. unfold first_of. rewrite (proj2 (list_find_None _ _)); [done|].
      apply Forall_lookup_2. intros i e He Hx. specialize (Hn i). rewrite length_fmap in Hn.
      specialize (Hn (lookup_lt_Some _ _ _ He)). unfold key in Hn. rewrite He in Hn.
      apply streq_false in Hn. done.
Qed.

(** What a successful build publishes. *)
Lemma build_published snap_alloc buckets_alloc conf g0 g scripts :
  retrace_config_cache_build snap_alloc buckets_alloc conf g0 = Some (0%Z, g) →
  json_object_get_array conf "intercept_scripts" = Some scripts →
  ∃ snap, g = Some snap ∧ snap_ok snap ∧ entries snap = cached scripts.
Proof.
  unfold retrace_config_cache_build. intros Hb Hs. destruct conf as [o|]; [|done].
  rewrite Hs in Hb. destruct snap_alloc; [|done]. cbn [negb] in Hb.
  pose proof (collect_cached scripts 0 ltac:(lia)) as Hc. rewrite Nat.sub_0_r in Hc.
  change (take _ _) with (cached scripts) in Hc. rewrite Hc in Hb.
  destruct buckets_alloc.
  - destruct (index_ok (cached scripts)) as (t & E & Hok). rewrite E in Hb. injection Hb as <-. eauto.
  - injection Hb as <-. eexists. split_and!; [done|by left|done].
Qed.

(** What a build leaves is served. *)
Lemma build_serves snap_alloc buckets_alloc conf g0 :
  ∃ rc g, retrace_config_cache_build snap_alloc buckets_alloc conf g0 = Some (rc, g) ∧
  (rc ≠ 0%Z → g = g0) ∧
  (rc = 0%Z → ∃ scripts, json_object_get_array conf "intercept_scripts" = Some scripts ∧
     retrace_config_cache_count g = length (cached scripts) ∧
     ∀ name, retrace_config_cache_lookup g (Some name) = Some (first_of (cached scripts) name)).
Proof.
  unfold retrace_config_cache_build. destruct conf as [o|]; [|by eexists _, _].
  destruct (json_object_get_array (Some o) _) as [scripts|] eqn:Hs; [|by eexists _, _].
  destruct snap_alloc; [cbn [negb]|by eexists _, _].
  pose proof (build_published true buckets_alloc (Some o) g0) as Hb.
  unfold retrace_config_cache_build in Hb. rewrite Hs in Hb. cbn [negb] in Hb.
  assert (∃ g, (if buckets_alloc then
             match index (collect scripts 0) with
             | Some t => Some (0%Z, Some (mkSnap (collect scripts 0) t))
             | None => None
             end else Some (0%Z, Some (mkSnap (collect scripts 0) []))) = Some (0%Z, g)) as [g E].
  { destruct buckets_alloc; [|by eexists]. destruct (index_ok (collect scripts 0)) as (t & -> & _). by eexists. }
  destruct (Hb g scripts E eq_refl) as (snap & -> & Hok & He). rewrite E.
  eexists _, _. split_and!; [done|done|]. intros _. exists scripts. cbn [retrace_config_cache_count].
  rewrite <- He. split_and!; [done|done|]. intros name. by apply lookup_first.
Qed.

(** Building the cache always ends; it publishes a snapshot
    or leaves the one before. A lookup in what a build published ends, and
    through the hash index as well as without it, it gives the first of the
    (at most 256) scripts that are named by exactly this function. *)
Theorem config_cache_first_match snap_alloc buckets_alloc conf g0 :
  ∃ rc g, retrace_config_cache_build snap_alloc buckets_alloc conf g0 = Some (rc, g) ∧
  (rc ≠ 0%Z → g = g0) ∧
  (rc = 0%Z → ∃ scripts, json_object_get_array conf "intercept_scripts" = Some scripts ∧
     retrace_config_cache_count g = length (cached scripts) ∧
     ∀ name, retrace_config_cache_lookup g (Some name) = Some (first_of (cached scripts) name)).
Proof. apply build_serves. Qed.

End ConfigCache.
