(* ===== verification/Rpc.v ===== *)
(** * The control protocol

    [src/supervisor/protocol.c] and [protocol.h]: the frame codec and the table
    of messages. [Stream] is the loop by which both ends cut a byte stream into
    frames ([tools/retraced/main.c] and [src/supervisor/agent_posix.c]): whatever
    pieces a stream arrives in, the frames handled are those sent, in order. *)

From S2P Require Import Prelude Libc.

Module Rpc.

(** ** Frames *)

Definition RETRACE_RPC_MAGIC : bytes := lit "RTRD".
Definition RETRACE_RPC_VERSION : Z := 1.
Definition RETRACE_RPC_PAYLOAD_MAX : Z := 2 ^ 20.
Definition RETRACE_RPC_HEADER_SZ : nat := 12.

Inductive retrace_rpc_dir := AGENT_TO_DAEMON | DAEMON_TO_AGENT.

Definition RETRACE_RPC_MSG_TABLE : list (Z * bytes * retrace_rpc_dir) :=
  [ (1%Z, lit "HELLO", AGENT_TO_DAEMON)
  ; (2%Z, lit "HEARTBEAT", AGENT_TO_DAEMON)
  ; (3%Z, lit "POLICY_ACK", AGENT_TO_DAEMON)
  ; (4%Z, lit "EVENT", AGENT_TO_DAEMON)
  ; (5%Z, lit "RING_DATA", AGENT_TO_DAEMON)
  ; (6%Z, lit "BYE", AGENT_TO_DAEMON)
  ; (16%Z, lit "WELCOME", DAEMON_TO_AGENT)
  ; (17%Z, lit "POLICY_SET", DAEMON_TO_AGENT)
  ; (18%Z, lit "CMD", DAEMON_TO_AGENT)
  ; (19%Z, lit "PING", DAEMON_TO_AGENT) ].

Definition RETRACE_RPC_MSG_HELLO : Z := 1.
Definition RETRACE_RPC_MSG_HEARTBEAT : Z := 2.
Definition RETRACE_RPC_MSG_POLICY_ACK : Z := 3.
Definition RETRACE_RPC_MSG_EVENT : Z := 4.
Definition RETRACE_RPC_MSG_BYE : Z := 6.
Definition RETRACE_RPC_MSG_WELCOME : Z := 16.
Definition RETRACE_RPC_MSG_POLICY_SET : Z := 17.
Definition RETRACE_RPC_MSG_PING : Z := 19.

Record retrace_rpc_frame := mkFrame { version : Z; type : Z; len : Z }.

(** The conversion to [uint8_t]. *)
Definition to_u8 (z : Z) : ascii := ascii_of_N (Z.to_N (z mod 256)).

Definition put_u16le (v : Z) : bytes := [to_u8 (Z.land v 0xff); to_u8 (Z.shiftr v 8)].

Definition put_u32le (v : Z) : bytes :=
  [to_u8 (Z.land v 0xff); to_u8 (Z.land (Z.shiftr v 8) 0xff);
   to_u8 (Z.land (Z.shiftr v 16) 0xff); to_u8 (Z.land (Z.shiftr v 24) 0xff)].

Definition u8_at (p : bytes) (i : nat) : Z := uchar (char_at p i).

Definition get_u16le (p : bytes) : Z := Z.lor (u8_at p 0) (Z.shiftl (u8_at p 1) 8).

Definition get_u32le (p : bytes) : Z :=
  Z.lor (Z.lor (Z.lor (u8_at p 0) (Z.shiftl (u8_at p 1) 8)) (Z.shiftl (u8_at p 2) 16))
        (Z.shiftl (u8_at p 3) 24).

(** A frame in a buffer of [out_cap] bytes, or the error. The caller's payload
    may be longer than [payload_len]. *)
Definition retrace_rpc_frame_encode (out : option Z) (version type : Z) (payload : option bytes)
    (payload_len : Z) : Z + bytes :=
  match out with
  | None => inl (-1)%Z
  | Some out_cap =>
      if (RETRACE_RPC_PAYLOAD_MAX <? payload_len)%Z then inl (-1)%Z
      else if (0 <? payload_len)%Z && bool_decide (payload = None) then inl (-1)%Z
      else if (out_cap <? Z.of_nat RETRACE_RPC_HEADER_SZ + payload_len)%Z then inl (-2)%Z
      else inr (RETRACE_RPC_MAGIC ++ put_u16le version ++ put_u16le type ++ put_u32le payload_len ++
                take (Z.to_nat payload_len) (default [] payload))
  end.

Definition retrace_rpc_frame_decode (inp : option bytes) : Z + retrace_rpc_frame :=
  match inp with
  | None => inl (-1)%Z
  | Some b =>
      if length b <? RETRACE_RPC_HEADER_SZ then inl (-2)%Z
      else if negb (ceq (char_at b 0) "R" && ceq (char_at b 1) "T" && ceq (char_at b 2) "R" &&
                    ceq (char_at b 3) "D") then inl (-3)%Z
      else
        let out := mkFrame (get_u16le (drop 4 b)) (get_u16le (drop 6 b)) (get_u32le (drop 8 b)) in
        if (RETRACE_RPC_PAYLOAD_MAX <? len out)%Z then inl (-4)%Z else inr out
  end.

Definition retrace_rpc_msg_name (type : Z) : bytes :=
  match filter (λ m, m.1.1 = type) RETRACE_RPC_MSG_TABLE with
  | m :: _ => m.1.2
  | [] => lit "?"
  end.

(** ** Lemmas of the codec *)

Lemma uchar_u8 z : uchar (to_u8 z) = (z mod 256)%Z.
Proof.
  pose proof (Z.mod_pos_bound z 256). unfold uchar, to_u8. rewrite N_ascii_embedding; lia.
Qed.

Lemma u8_uchar c : to_u8 (uchar c) = c.
Proof.
  unfold to_u8. pose proof (uchar_range c). rewrite Z.mod_small by done. unfold uchar.
  by rewrite N2Z.id, ascii_N_embedding.
Qed.

(** The value of four bytes, by their sum. *)
Lemma lor_bytes a b k :
  (0 ≤ k)%Z → (0 ≤ a < 2 ^ k)%Z → (0 ≤ b)%Z → Z.lor a (Z.shiftl b k) = (a + b * 2 ^ k)%Z.
Proof.
  intros Hk Ha Hb. rewrite <- Z.lxor_lor, <- Z.add_nocarry_lxor, Z.shiftl_mul_pow2; try done.
  all: apply Z.bits_inj'; intros n Hn; rewrite Z.land_spec, Z.bits_0, Z.shiftl_spec by done;
    destruct (Z_lt_le_dec n k) as [|];
    [rewrite (Z.testbit_neg_r b) by lia; apply andb_false_r|];
    (destruct (decide (a = 0%Z)) as [->|]; [by rewrite Z.bits_0|]);
    rewrite (Z.bits_above_log2 a); [done|lia|]; apply Z.log2_lt_pow2; [lia|];
    eapply Z.lt_le_trans; [apply Ha|]; apply Z.pow_le_mono_r; lia.
Qed.

Lemma get_u16_sum p : get_u16le p = (u8_at p 0 + u8_at p 1 * 256)%Z.
Proof.
  unfold get_u16le, u8_at. rewrite lor_bytes; [done|lia|apply uchar_range|apply uchar_range].
Qed.

Lemma get_u32_sum p :
  get_u32le p = (u8_at p 0 + u8_at p 1 * 256 + u8_at p 2 * 65536 + u8_at p 3 * 16777216)%Z.
Proof.
  unfold get_u32le, u8_at.
  pose proof (uchar_range (char_at p 0)). pose proof (uchar_range (char_at p 1)).
  pose proof (uchar_range (char_at p 2)). pose proof (uchar_range (char_at p 3)).
  rewrite (lor_bytes (uchar (char_at p 0))) by lia. rewrite (lor_bytes _ (uchar (char_at p 2))) by lia.
  rewrite lor_bytes by lia. lia.
Qed.

Lemma land_ff z : Z.land z 0xff = (z mod 256)%Z.
Proof. change 0xff%Z with (Z.ones 8). by rewrite Z.land_ones. Qed.

Lemma get_put_u16 v r : (0 ≤ v < 2 ^ 16)%Z → get_u16le (put_u16le v ++ r) = v.
Proof.
  intros Hv. rewrite get_u16_sum. unfold u8_at, put_u16le. cbn [app].
  change (char_at _ 0) with (to_u8 (Z.land v 0xff)). change (char_at _ 1) with (to_u8 (Z.shiftr v 8)).
  rewrite !uchar_u8, land_ff, Z.shiftr_div_pow2 by lia. change (2 ^ 8)%Z with 256%Z.
  assert (0 ≤ v / 256 < 256)%Z by (split; [apply Z.div_pos|apply Z.div_lt_upper_bound]; lia).
  pose proof (Z.div_mod v 256). rewrite Z.mod_mod, (Z.mod_small (v / 256)); lia.
Qed.

Lemma get_put_u32 v r : (0 ≤ v < 2 ^ 32)%Z → get_u32le (put_u32le v ++ r) = v.
Proof.
  intros Hv. rewrite get_u32_sum. unfold u8_at, put_u32le. cbn [app].
  change (char_at _ 0) with (to_u8 (Z.land v 0xff)).
  change (char_at _ 1) with (to_u8 (Z.land (Z.shiftr v 8) 0xff)).
  change (char_at _ 2) with (to_u8 (Z.land (Z.shiftr v 16) 0xff)).
  change (char_at _ 3) with (to_u8 (Z.land (Z.shiftr v 24) 0xff)).
  rewrite !uchar_u8, !land_ff, !Z.shiftr_div_pow2, !Z.mod_mod by lia.
  change (2 ^ 8)%Z with 256%Z. change (2 ^ 16)%Z with (256 * 256)%Z.
  change (2 ^ 24)%Z with (256 * (256 * 256))%Z. rewrite <- !Z.div_div by lia.
  pose proof (Z.div_mod v 256). pose proof (Z.div_mod (v / 256) 256).
  pose proof (Z.div_mod (v / 256 / 256) 256). rewrite (Z.mod_small (v / 256 / 256 / 256)); [lia|].
  rewrite !Z.div_div by lia. split; [apply Z.div_pos; lia|apply Z.div_lt_upper_bound; lia].
Qed.

(** A frame as its sender describes it, and its bytes. *)
Record message := mkMessage { m_version : Z; m_type : Z; m_payload : bytes }.

Definition m_len (m : message) : Z := Z.of_nat (length (m_payload m)).

Definition wf_message (m : message) : Prop :=
  (0 ≤ m_version m < 2 ^ 16)%Z ∧ (0 ≤ m_type m < 2 ^ 16)%Z ∧ (m_len m ≤ RETRACE_RPC_PAYLOAD_MAX)%Z.

Definition frame_bytes (m : message) : bytes :=
  RETRACE_RPC_MAGIC ++ put_u16le (m_version m) ++ put_u16le (m_type m) ++ put_u32le (m_len m) ++ m_payload m.

Definition frame_of (m : message) : retrace_rpc_frame := mkFrame (m_version m) (m_type m) (m_len m).

Lemma frame_bytes_length m : length (frame_bytes m) = RETRACE_RPC_HEADER_SZ + length (m_payload m).
Proof. done. Qed.

Lemma encode_message m cap :
  (m_len m ≤ RETRACE_RPC_PAYLOAD_MAX)%Z → (Z.of_nat (length (frame_bytes m)) ≤ cap)%Z →
  retrace_rpc_frame_encode (Some cap) (m_version m) (m_type m) (Some (m_payload m)) (m_len m)
  = inr (frame_bytes m).
Proof.
  intros Hp Hc. unfold retrace_rpc_frame_encode. rewrite frame_bytes_length in Hc.
  destruct (Z.ltb_spec RETRACE_RPC_PAYLOAD_MAX (m_len m)) as [|_]; [lia|].
  rewrite bool_decide_eq_false_2, andb_false_r by done.
  destruct (Z.ltb_spec cap (Z.of_nat RETRACE_RPC_HEADER_SZ + m_len m)) as [|_]; [unfold m_len in *; lia|].
  unfold m_len at 2. cbn [default]. by rewrite Nat2Z.id, firstn_all2.
Qed.

Lemma decode_message m rest :
  wf_message m → retrace_rpc_frame_decode (Some (frame_bytes m ++ rest)) = inr (frame_of m).
Proof.
  intros (Hv & Ht & Hl). unfold retrace_rpc_frame_decode.
  replace (length (frame_bytes m ++ rest) <? RETRACE_RPC_HEADER_SZ) with false
    by (symmetry; apply Nat.ltb_ge; rewrite length_app, frame_bytes_length; lia).
  unfold frame_bytes. rewrite <- !app_assoc. cbn [char_at lookup list_lookup RETRACE_RPC_MAGIC lit
    list_ascii_of_string app default]. rewrite !ceq_refl. cbn [negb andb].
  assert (0 ≤ m_len m < 2 ^ 32)%Z by (unfold m_len, RETRACE_RPC_PAYLOAD_MAX in *; lia).
  change (drop 4 _) with (put_u16le (m_version m) ++ (put_u16le (m_type m) ++ put_u32le (m_len m) ++ m_payload m ++ rest)).
  change (drop 6 _) with (put_u16le (m_type m) ++ (put_u32le (m_len m) ++ m_payload m ++ rest)).
  change (drop 8 _) with (put_u32le (m_len m) ++ (m_payload m ++ rest)).
  rewrite !get_put_u16, get_put_u32 by done. cbn [len].
  by destruct (Z.ltb_spec RETRACE_RPC_PAYLOAD_MAX (m_len m)); [lia|].
Qed.

Lemma put_get_u16 p : 2 ≤ length p → put_u16le (get_u16le p) = take 2 p.
Proof.
  intros Hl. destruct p as [|a [|b p]]; [cbn in Hl; lia..|]. rewrite get_u16_sum. unfold u8_at, put_u16le.
  change (char_at _ 0) with a. change (char_at _ 1) with b. cbn [take].
  pose proof (uchar_range a) as Ha. pose proof (uchar_range b).
  rewrite land_ff, Z.shiftr_div_pow2 by lia. change (2 ^ 8)%Z with 256%Z.
  rewrite Z.mod_add, Z.mod_small, Z.div_add, Z.div_small by lia. by rewrite Z.add_0_l, !u8_uchar.
Qed.

Lemma put_get_u32 p : 4 ≤ length p → put_u32le (get_u32le p) = take 4 p.
Proof.
  intros Hl. destruct p as [|a [|b [|c [|d p]]]]; [cbn in Hl; lia..|].
  rewrite get_u32_sum. unfold u8_at, put_u32le.
  change (char_at _ 0) with a. change (char_at _ 1) with b. change (char_at _ 2) with c.
  change (char_at _ 3) with d. cbn [take].
  pose proof (uchar_range a). pose proof (uchar_range b). pose proof (uchar_range c). pose proof (uchar_range d).
  assert (∀ x q, (0 ≤ x < 256)%Z → (x + q * 256) mod 256 = x)%Z as Hmod
    by (intros x q ?; rewrite Z.mod_add, Z.mod_small; lia).
  assert (∀ x q, (0 ≤ x < 256)%Z → (x + q * 256) / 256 = q)%Z as Hdiv
    by (intros x q ?; rewrite Z.div_add, Z.div_small; lia).
  rewrite !land_ff, !Z.shiftr_div_pow2 by lia.
  change (2 ^ 8)%Z with 256%Z. change (2 ^ 16)%Z with (256 * 256)%Z.
  change (2 ^ 24)%Z with (256 * (256 * 256))%Z. rewrite <- !Z.div_div by lia.
  replace (_ + _ + _ + _)%Z with (uchar a + (uchar b + (uchar c + uchar d * 256) * 256) * 256)%Z by lia.
  rewrite !(Hmod (uchar a)), !(Hdiv (uchar a)), !(Hmod (uchar b)), !(Hdiv (uchar b)) by done.
  rewrite !(Hmod (uchar c)), !(Hdiv (uchar c)) by done.
  by rewrite Z.mod_small, !u8_uchar.
Qed.

(** The message at the head of a buffer. *)
Definition head_message (fr : retrace_rpc_frame) (b : bytes) : message :=
  mkMessage (version fr) (type fr) (take (Z.to_nat (len fr)) (drop RETRACE_RPC_HEADER_SZ b)).

Lemma get_u16_range p : (0 ≤ get_u16le p < 2 ^ 16)%Z.
Proof.
  rewrite get_u16_sum. unfold u8_at. pose proof (uchar_range (char_at p 0)).
  pose proof (uchar_range (char_at p 1)). lia.
Qed.

Lemma get_u32_range p : (0 ≤ get_u32le p < 2 ^ 32)%Z.
Proof.
  rewrite get_u32_sum. unfold u8_at. pose proof (uchar_range (char_at p 0)).
  pose proof (uchar_range (char_at p 1)). pose proof (uchar_range (char_at p 2)).
  pose proof (uchar_range (char_at p 3)). lia.
Qed.

(** A decoded header with its payload is the encoding of a message. *)
Lemma decode_canonical b fr :
  retrace_rpc_frame_decode (Some b) = inr fr →
  (Z.of_nat RETRACE_RPC_HEADER_SZ + len fr ≤ Z.of_nat (length b))%Z →
  let m := head_message fr b in
  wf_message m ∧ fr = frame_of m ∧ b = frame_bytes m ++ drop (RETRACE_RPC_HEADER_SZ + Z.to_nat (len fr)) b.
Proof.
  unfold retrace_rpc_frame_decode. destruct (Nat.ltb_spec (length b) RETRACE_RPC_HEADER_SZ) as [|Hb]; [done|].
  destruct (negb _) eqn:Hmagic; [done|]. cbn [len].
  destruct (Z.ltb_spec RETRACE_RPC_PAYLOAD_MAX (get_u32le (drop 8 b))) as [|Hmax]; [done|].
  intros E%(inj inr) Hlen. subst fr. cbn [len] in Hlen. cbv zeta.
  pose proof (get_u32_range (drop 8 b)) as Hr.
  set (m := head_message _ b).
  assert (m_len m = get_u32le (drop 8 b)) as Hml.
  { unfold m_len, m, head_message. cbn [m_payload len]. rewrite length_take, length_drop. lia. }
  split; [|split].
  - split; [apply get_u16_range|]. split; [apply get_u16_range|]. by rewrite Hml.
  - unfold frame_of. by rewrite Hml.
  - bool_to_prop. unfold frame_bytes. rewrite Hml. unfold m, head_message. cbn [m_version m_type m_payload version type len].
    rewrite !put_get_u16, put_get_u32 by (rewrite length_drop; unfold RETRACE_RPC_HEADER_SZ in *; lia).
    rewrite <- drop_drop, <- !app_assoc, take_drop.
    do 12 (destruct b as [|? b]; [unfold RETRACE_RPC_HEADER_SZ in *; cbn in Hb; lia|]).
    repeat match goal with H : char_at _ _ = _ |- _ => cbv in H; subst end. done.
Qed.

Lemma drop_frame m rest : drop (RETRACE_RPC_HEADER_SZ + length (m_payload m)) (frame_bytes m ++ rest) = rest.
Proof. rewrite <- frame_bytes_length. apply drop_app_length. Qed.

Lemma head_frame m rest : head_message (frame_of m) (frame_bytes m ++ rest) = m.
Proof.
  destruct m as [v t p]. unfold head_message, frame_of, m_len. cbn [version type len m_version m_type m_payload].
  rewrite Nat2Z.id. f_equal. apply (take_app_length p rest).
Qed.

(** Encoding succeeds exactly when the payload and the buffer
    allow it; what is encoded decodes to its header with the payload after it;
    and everything that decodes is the encoding of its message. *)
Theorem rpc_frame_round_trip m cap :
  (0 ≤ m_version m < 2 ^ 16)%Z → (0 ≤ m_type m < 2 ^ 16)%Z →
  (retrace_rpc_frame_encode (Some cap) (m_version m) (m_type m) (Some (m_payload m)) (m_len m)
   = if (RETRACE_RPC_PAYLOAD_MAX <? m_len m)%Z then inl (-1)%Z
     else if (cap <? Z.of_nat (length (frame_bytes m)))%Z then inl (-2)%Z else inr (frame_bytes m)) ∧
  ((m_len m ≤ RETRACE_RPC_PAYLOAD_MAX)%Z → ∀ rest,
   retrace_rpc_frame_decode (Some (frame_bytes m ++ rest)) = inr (frame_of m) ∧
   head_message (frame_of m) (frame_bytes m ++ rest) = m) ∧
  (∀ b fr, retrace_rpc_frame_decode (Some b) = inr fr →
   (Z.of_nat RETRACE_RPC_HEADER_SZ + len fr ≤ Z.of_nat (length b))%Z →
   b = frame_bytes (head_message fr b) ++ drop (RETRACE_RPC_HEADER_SZ + Z.to_nat (len fr)) b).
Proof.
  intros Hv Ht. split; [|split].
  - destruct (Z.ltb_spec RETRACE_RPC_PAYLOAD_MAX (m_len m)) as [Hp|Hp].
    + unfold retrace_rpc_frame_encode. by rewrite (proj2 (Z.ltb_lt _ _) Hp).
    + destruct (Z.ltb_spec cap (Z.of_nat (length (frame_bytes m)))) as [Hc|Hc]; [|by apply encode_message].
      unfold retrace_rpc_frame_encode. rewrite (proj2 (Z.ltb_ge _ _) Hp), bool_decide_eq_false_2, andb_false_r by done.
      rewrite (proj2 (Z.ltb_lt _ _)); [done|]. rewrite frame_bytes_length in Hc. unfold m_len. lia.
  - intros Hp rest. split; [by apply decode_message|]. apply head_frame.
  - intros b fr H1 H2. by apply decode_canonical.
Qed.

(** ** Streams *)

(** Only the header is decoded. *)
Lemma decode_app p r :
  RETRACE_RPC_HEADER_SZ ≤ length p → retrace_rpc_frame_decode (Some (p ++ r)) = retrace_rpc_frame_decode (Some p).
Proof.
  intros Hl. do 12 (destruct p as [|? p]; [unfold RETRACE_RPC_HEADER_SZ in Hl; cbn in Hl; lia|]). done.
Qed.

Section stream.
Context {S : Type} (handle : S → retrace_rpc_frame → bytes → S).

(** The loop over the frames of a connection's buffer. A frame that does not
    decode ends it, with the buffer emptied by the agent ([reset]) and kept by
    the daemon. *)
Fixpoint frame_loop (reset : bool) (fuel : nat) (buf : bytes) (s : S) : S * bytes :=
  match fuel with
  | O => (s, buf)
  | Datatypes.S fuel =>
      if length buf <? RETRACE_RPC_HEADER_SZ then (s, buf)
      else
        match retrace_rpc_frame_decode (Some buf) with
        | inl _ => (s, if reset then [] else buf)
        | inr fr =>
            if (Z.of_nat (length buf) <? Z.of_nat RETRACE_RPC_HEADER_SZ + len fr)%Z then (s, buf)
            else frame_loop reset fuel (drop (RETRACE_RPC_HEADER_SZ + Z.to_nat (len fr)) buf)
                   (handle s fr buf)
        end
  end.

(** One readable event of a connection with a buffer of [cap] bytes: [n] bytes
    are there to read. *)
Definition conn_chunk (cap : Z) (n : nat) (buf pending : bytes) : bytes :=
  take (Nat.min n (Z.to_nat (cap - Z.of_nat (length buf)))) pending.

Definition conn_frames (reset : bool) (chunk : bytes) (c : S * bytes) : S * bytes :=
  frame_loop reset (Datatypes.S (length (c.2 ++ chunk))) (c.2 ++ chunk) c.1.

(** Readable events one after the other, [ns] the bytes there are each time. *)
Fixpoint pump (reset : bool) (cap : Z) (ns : list nat) (c : S * bytes) (pending : bytes)
    : S * bytes * bytes :=
  match ns with
  | [] => (c, pending)
  | n :: ns =>
      let chunk := conn_chunk cap n c.2 pending in
      pump reset cap ns (conn_frames reset chunk c) (drop (length chunk) pending)
  end.

Context (deliver : S → message → S).

(** The handler treats a frame as the message it is. *)
Hypothesis handle_message : ∀ s m rest,
  wf_message m → handle s (frame_of m) (frame_bytes m ++ rest) = deliver s m.

(** A proper prefix of the bytes of a message. *)
Definition partial (m : message) (p : bytes) : Prop :=
  ∃ r, r ≠ [] ∧ frame_bytes m = p ++ r.

Definition stream_bytes (ms : list message) : bytes := concat (frame_bytes <$> ms).

Lemma loop_partial reset fuel m p s :
  wf_message m → partial m p → frame_loop reset fuel p s = (s, p).
Proof.
  intros Hwf (r & Hr & E). destruct fuel as [|fuel]; [done|]. cbn [frame_loop].
  destruct (Nat.ltb_spec (length p) RETRACE_RPC_HEADER_SZ) as [|Hl]; [done|].
  rewrite <- (decode_app p r), <- E, <- (app_nil_r (frame_bytes m)), decode_message by done.
  rewrite (proj2 (Z.ltb_lt _ _)); [done|]. cbn [frame_of len]. unfold m_len.
  apply (f_equal length) in E. rewrite frame_bytes_length, length_app in E.
  destruct r; [done|cbn [length] in E; lia].
Qed.

Lemma loop_message reset fuel m rest s :
  wf_message m →
  frame_loop reset (Datatypes.S fuel) (frame_bytes m ++ rest) s = frame_loop reset fuel rest (deliver s m).
Proof.
  intros Hwf. cbn [frame_loop].
  rewrite (proj2 (Nat.ltb_ge _ _)) by (rewrite length_app, frame_bytes_length; lia).
  rewrite decode_message, (proj2 (Z.ltb_ge _ _)), handle_message by
    (done || rewrite length_app, frame_bytes_length; cbn [frame_of len]; unfold m_len; lia).
  cbn [frame_of len]. unfold m_len. by rewrite Nat2Z.id, drop_frame.
Qed.

(** What is left of a stream after whole messages: nothing, or the beginning of
    the next message. *)
Definition remainder (ms : list message) (p : bytes) : Prop :=
  match ms with [] => p = [] | m :: _ => partial m p end.

Lemma loop_stream reset ms ms' p fuel s :
  Forall wf_message (ms ++ ms') → remainder ms' p → length (stream_bytes ms ++ p) < fuel →
  frame_loop reset fuel (stream_bytes ms ++ p) s = (foldl deliver s ms, p).
Proof.
  revert fuel s. induction ms as [|m ms IH]; intros fuel s Hwf Hp Hf.
  - cbn [stream_bytes fmap list_fmap concat app foldl]. destruct ms' as [|m ms']; cbn [remainder] in Hp.
    + subst p. by destruct fuel.
    + apply Forall_cons in Hwf as [Hm _]. by eapply loop_partial.
  - cbn [app] in Hwf. apply Forall_cons in Hwf as [Hm Hwf].
    change (stream_bytes (m :: ms)) with (frame_bytes m ++ stream_bytes ms) in *.
    destruct fuel as [|fuel]; [lia|]. rewrite <- app_assoc, loop_message by done. apply IH; [done..|].
    rewrite !length_app, frame_bytes_length in Hf. rewrite length_app. unfold RETRACE_RPC_HEADER_SZ in Hf. lia.
Qed.

(** Any prefix of a stream is whole messages and the beginning of the next. *)
Lemma stream_split ms n :
  ∃ k p, k ≤ length ms ∧ take n (stream_bytes ms) = stream_bytes (take k ms) ++ p ∧
         remainder (drop k ms) p ∧ (length (stream_bytes ms) ≤ n → k = length ms).
Proof.
  revert n. induction ms as [|m ms IH]; intros n.
  { exists 0, []. cbn. by rewrite take_nil. }
  change (stream_bytes (m :: ms)) with (frame_bytes m ++ stream_bytes ms).
  destruct (Nat.le_gt_cases (length (frame_bytes m)) n) as [Hn|Hn].
  - destruct (IH (n - length (frame_bytes m))) as (k & p & Hk & E & Hr & Hall).
    exists (Datatypes.S k), p. split; [cbn; lia|]. rewrite take_app_ge, E by done. cbn [take drop].
    change (stream_bytes (m :: take k ms)) with (frame_bytes m ++ stream_bytes (take k ms)).
    split; [by rewrite app_assoc|]. split; [done|]. rewrite length_app. intros. cbn. f_equal. apply Hall. lia.
  - exists 0, (take n (frame_bytes m)). split; [lia|]. rewrite take_app_le by lia. split; [done|]. split.
    + exists (drop n (frame_bytes m)). split; [|by rewrite take_drop].
      intros E%(f_equal length). rewrite length_drop in E. cbn [length] in E. lia.
    + rewrite length_app. lia.
Qed.

Lemma stream_app ms ms' : stream_bytes (ms ++ ms') = stream_bytes ms ++ stream_bytes ms'.
Proof. unfold stream_bytes. by rewrite fmap_app, concat_app. Qed.

(** A connection within a stream: [k] of the messages [ms] are handled, the
    buffer has the beginning of the next, and [pending] is the rest. *)
Record in_stream (cap : Z) (s0 : S) (ms : list message) (k : nat) (c : S * bytes) (pending : bytes)
    : Prop := mkInStream {
  is_count : k ≤ length ms;
  is_state : c.1 = foldl deliver s0 (take k ms);
  is_buf : remainder (drop k ms) c.2;
  is_rest : c.2 ++ pending = stream_bytes (drop k ms);
  is_room : (Z.of_nat (length c.2) < cap)%Z;
}.

Lemma in_stream_room cap ms p :
  Forall (λ m, (Z.of_nat (length (frame_bytes m)) ≤ cap)%Z) ms → (0 < cap)%Z → remainder ms p →
  (Z.of_nat (length p) < cap)%Z.
Proof.
  intros Hfit Hcap. destruct ms as [|m ms]; cbn [remainder]; [by intros ->|].
  apply Forall_cons in Hfit as [Hm _]. intros (r & Hr & E). rewrite E, length_app in Hm.
  destruct r; [done|cbn [length] in Hm; lia].
Qed.

Lemma read_in_stream reset cap s0 ms k c pending n :
  Forall wf_message ms → Forall (λ m, (Z.of_nat (length (frame_bytes m)) ≤ cap)%Z) ms →
  in_stream cap s0 ms k c pending →
  let chunk := conn_chunk cap n c.2 pending in
  ∃ k', in_stream cap s0 ms k' (conn_frames reset chunk c) (drop (length chunk) pending) ∧
    (0 < n → pending ≠ [] → chunk ≠ []).
Proof.
  intros Hwf Hfit [Hk Hs Hb Hr Hroom]. destruct c as [s buf]. cbn [fst snd] in *. cbv zeta.
  set (chunk := conn_chunk cap n buf pending).
  assert (buf ++ chunk = take (length (buf ++ chunk)) (stream_bytes (drop k ms))) as Ht.
  { rewrite <- Hr, length_app, take_app_add. f_equal. unfold chunk, conn_chunk.
    generalize (Nat.min n (Z.to_nat (cap - Z.of_nat (length buf)))). intros N. rewrite length_take.
    destruct (Nat.min_spec N (length pending)) as [[? ->]|[? ->]]; [done|]. by rewrite firstn_all, firstn_all2. }
  destruct (stream_split (drop k ms) (length (buf ++ chunk))) as (i & p & Hi & Ei & Hp & _).
  rewrite <- Ht in Ei. rewrite length_drop in Hi. rewrite drop_drop in Hp.
  assert (conn_frames reset chunk (s, buf) = (foldl deliver s0 (take (k + i) ms), p)) as ->.
  { unfold conn_frames. cbn [fst snd]. rewrite Ei. rewrite (loop_stream _ _ (drop (k + i) ms)).
    - by rewrite Hs, <- take_take_drop, foldl_app.
    - rewrite <- drop_drop, take_drop. by apply Forall_drop.
    - done.
    - lia. }
  exists (k + i). split; [split; cbn [fst snd]|].
  - lia.
  - done.
  - done.
  - apply (app_inv_head (stream_bytes (take i (drop k ms)))). rewrite <- stream_app, <- drop_drop, take_drop, <- Hr.
    rewrite app_assoc, <- Ei, <- app_assoc. f_equal. unfold chunk, conn_chunk.
    generalize (Nat.min n (Z.to_nat (cap - Z.of_nat (length buf)))). intros N.
    rewrite length_take. destruct (Nat.min_spec N (length pending)) as [[? ->]|[? ->]]; [by rewrite take_drop|].
    by rewrite drop_all, app_nil_r, firstn_all2.
  - eapply in_stream_room; [|lia|exact Hp]. by apply Forall_drop.
  - intros Hn Hpend E%(f_equal length). unfold chunk, conn_chunk in E. rewrite length_take in E.
    destruct pending; [done|]. cbn [length] in E. lia.
Qed.

Lemma pump_in_stream reset cap s0 ms ns k c pending :
  Forall wf_message ms → Forall (λ m, (Z.of_nat (length (frame_bytes m)) ≤ cap)%Z) ms →
  Forall (λ n, 0 < n) ns → in_stream cap s0 ms k c pending →
  ∃ k' c' pending', pump reset cap ns c pending = (c', pending') ∧ in_stream cap s0 ms k' c' pending' ∧
    length pending' ≤ length pending - length ns.
Proof.
  intros Hwf Hfit Hns. revert k c pending. induction Hns as [|n ns Hn _ IH]; intros k c pending Hin.
  { exists k, c, pending. cbn. by rewrite Nat.sub_0_r. }
  cbn [pump]. destruct (read_in_stream reset cap s0 ms k c pending n Hwf Hfit Hin) as (k1 & Hin1 & Hchunk).
  destruct (IH _ _ _ Hin1) as (k' & c' & p' & E & Hin' & Hlen). exists k', c', p'.
  split; [done|]. split; [done|]. rewrite length_drop in Hlen. cbn [length].
  destruct pending as [|x pending]; [cbn in Hlen |- *; lia|].
  specialize (Hchunk Hn). destruct (conn_chunk cap n c.2 (x :: pending)); [by destruct Hchunk|].
  cbn [length] in *. lia.
Qed.

End stream.

Lemma pump_delivers {S} (handle : S → retrace_rpc_frame → bytes → S) deliver reset cap ms ns s0 :
  (∀ s m rest, wf_message m → handle s (frame_of m) (frame_bytes m ++ rest) = deliver s m) →
  Forall wf_message ms → Forall (λ m, (Z.of_nat (length (frame_bytes m)) ≤ cap)%Z) ms → (0 < cap)%Z →
  Forall (λ n, 0 < n) ns →
  ∃ k s buf pending, pump handle reset cap ns (s0, []) (stream_bytes ms) = ((s, buf), pending) ∧
    s = foldl deliver s0 (take k ms) ∧ (Z.of_nat (length buf) < cap)%Z ∧
    buf ++ pending = stream_bytes (drop k ms) ∧
    (length (stream_bytes ms) ≤ length ns → s = foldl deliver s0 ms ∧ buf = [] ∧ pending = []).
Proof.
  intros Hh Hwf Hfit Hcap Hns.
  assert (in_stream deliver cap s0 ms 0 (s0, []) (stream_bytes ms)) as Hin.
  { split; cbn [fst snd]; [lia|done| |done|cbn; lia]. rewrite drop_0. destruct ms as [|m ms]; [done|].
    by exists (frame_bytes m). }
  destruct (pump_in_stream handle deliver Hh reset cap s0 ms ns 0 _ _ Hwf Hfit Hns Hin)
    as (k & [s buf] & pending & E & [Hk Hs Hb Hr Hroom] & Hlen).
  exists k, s, buf, pending. cbn [fst snd] in *. split_and!; try done. intros Hall.
  destruct pending; [|cbn in Hlen; lia]. rewrite app_nil_r in Hr.
  assert (drop k ms = []) as Hd.
  { destruct (drop k ms) as [|m ms'] eqn:Ed; [done|]. cbn [remainder] in Hb. destruct Hb as (r & Hne & Er).
    change (stream_bytes (m :: ms')) with (frame_bytes m ++ stream_bytes ms') in Hr.
    rewrite Er, Hr, <- !app_assoc in Hr. apply (f_equal length) in Hr. rewrite !length_app in Hr.
    destruct r; [done|cbn in Hr; lia]. }
  rewrite Hd in Hr, Hb. split; [|by split]. pose proof (take_drop k ms) as Ht.
  rewrite Hd, app_nil_r in Ht. by rewrite Hs, Ht.
Qed.

(** C26 (safety). Whatever pieces a stream of messages arrives in, each of which
    as a frame is no longer than the buffer of the connection, the connection
    handles the messages sent, in order: at any time those that have arrived
    whole, all of them when the stream has been read. The buffer has always room
    for another byte, so the connection is never taken for closed, and as many
    reads as the stream has bytes are enough. *)
Theorem stream_reassembly {S} (handle : S → retrace_rpc_frame → bytes → S) deliver reset cap ms ns s0 :
  (∀ s m rest, wf_message m → handle s (frame_of m) (frame_bytes m ++ rest) = deliver s m) →
  Forall wf_message ms → Forall (λ m, (Z.of_nat (length (frame_bytes m)) ≤ cap)%Z) ms → (0 < cap)%Z →
  Forall (λ n, 0 < n) ns →
  ∃ k s buf pending, pump handle reset cap ns (s0, []) (stream_bytes ms) = ((s, buf), pending) ∧
    s = foldl deliver s0 (take k ms) ∧ (Z.of_nat (length buf) < cap)%Z ∧
    buf ++ pending = stream_bytes (drop k ms) ∧
    (length (stream_bytes ms) ≤ length ns → s = foldl deliver s0 ms ∧ buf = []).
Proof.
  intros Hh Hwf Hfit Hcap Hns.
  destruct (pump_delivers handle deliver reset cap ms ns s0 Hh Hwf Hfit Hcap Hns)
    as (k & s & buf & pending & E & Hs & Hb & Hr & Hall).
  exists k, s, buf, pending. split_and!; try done. by intros (-> & -> & _)%Hall.
Qed.

(** A frame that does not decode stays at the head of the daemon's buffer:
    nothing the peer sends after it is handled. *)
Lemma bad_header_sticks {S} (handle : S → retrace_rpc_frame → bytes → S) fuel buf more e s :
  RETRACE_RPC_HEADER_SZ ≤ length buf → retrace_rpc_frame_decode (Some buf) = inl e →
  frame_loop handle false fuel (buf ++ more) s = (s, buf ++ more).
Proof.
  intros Hl He. destruct fuel as [|fuel]; [done|]. cbn [frame_loop].
  rewrite (proj2 (Nat.ltb_ge _ _)) by (rewrite length_app; lia). by rewrite decode_app, He.
Qed.

(** What the handler keeps, the loop keeps. *)
Lemma frame_loop_keeps {S} (handle : S → retrace_rpc_frame → bytes → S) (P : S → Prop) reset fuel buf s :
  (∀ s fr b, P s → P (handle s fr b)) → P s → P (frame_loop handle reset fuel buf s).1.
Proof.
  intros Hh. revert buf s. induction fuel as [|fuel IH]; intros buf s Hs; [done|]. cbn [frame_loop].
  case_if; [done|]. destruct (retrace_rpc_frame_decode _) as [e|fr]; [done|]. case_if; [done|]. by apply IH, Hh.
Qed.

(** Handlers in step stay in step: where the frames are cut does not depend on
    the handler. *)
Lemma frame_loop_in_step {S T} (h : S → retrace_rpc_frame → bytes → S) (g : T → retrace_rpc_frame → bytes → T)
    (R : S → T → Prop) reset fuel buf s t :
  (∀ s t fr b, R s t → R (h s fr b) (g t fr b)) → R s t →
  R (frame_loop h reset fuel buf s).1 (frame_loop g reset fuel buf t).1.
Proof.
  intros Hh. revert buf s t. induction fuel as [|fuel IH]; intros buf s t Hs; [done|]. cbn [frame_loop].
  case_if; [done|]. destruct (retrace_rpc_frame_decode _) as [e|fr]; [done|]. case_if; [done|]. by apply IH, Hh.
Qed.

(** The frames of a readable event, each with the buffer that begins with it. *)
Definition frames_read (reset : bool) (chunk buf : bytes) : list (retrace_rpc_frame * bytes) :=
  (conn_frames (λ l fr b, l ++ [(fr, b)]) reset chunk ([], buf)).1.

Lemma conn_frames_read {S} (h : S → retrace_rpc_frame → bytes → S) reset chunk s buf :
  (conn_frames h reset chunk (s, buf)).1 = foldl (λ s x, h s x.1 x.2) s (frames_read reset chunk buf).
Proof.
  unfold frames_read, conn_frames. cbn [fst snd].
  apply (frame_loop_in_step h (λ l fr b, l ++ [(fr, b)]) (λ x l, x = foldl (λ s y, h s y.1 y.2) s l)); [|done].
  intros x l fr b ->. by rewrite foldl_app.
Qed.

(** ** Witnesses *)

Definition sample_messages : list message :=
  [mkMessage 1 RETRACE_RPC_MSG_HELLO (lit "{}"); mkMessage 1 RETRACE_RPC_MSG_BYE (lit "{}");
   mkMessage 1 99 []].

Lemma rpc_frame_round_trip_witness :
  let m := mkMessage 1 RETRACE_RPC_MSG_HELLO (lit "{}") in
  (retrace_rpc_frame_encode (Some 14%Z) (m_version m) (m_type m) (Some (m_payload m)) (m_len m)
   = if (RETRACE_RPC_PAYLOAD_MAX <? m_len m)%Z then inl (-1)%Z
     else if (14 <? Z.of_nat (length (frame_bytes m)))%Z then inl (-2)%Z else inr (frame_bytes m)) ∧
  ((m_len m ≤ RETRACE_RPC_PAYLOAD_MAX)%Z → ∀ rest,
   retrace_rpc_frame_decode (Some (frame_bytes m ++ rest)) = inr (frame_of m) ∧
   head_message (frame_of m) (frame_bytes m ++ rest) = m) ∧
  (∀ b fr, retrace_rpc_frame_decode (Some b) = inr fr →
   (Z.of_nat RETRACE_RPC_HEADER_SZ + len fr ≤ Z.of_nat (length b))%Z →
   b = frame_bytes (head_message fr b) ++ drop (RETRACE_RPC_HEADER_SZ + Z.to_nat (len fr)) b).
Proof. apply rpc_frame_round_trip; vm_compute; split; congruence. Defined.

(** The messages in the order they are handled, one byte read at a time. *)
Lemma stream_reassembly_witness :
  let handle s fr b := (s ++ [head_message fr b])%list in
  ∃ k s buf pending,
    pump handle false 64 (repeat 1 60) ([], []) (stream_bytes sample_messages) = ((s, buf), pending) ∧
    s = foldl (λ s m, s ++ [m]) [] (take k sample_messages) ∧ (Z.of_nat (length buf) < 64)%Z ∧
    buf ++ pending = stream_bytes (drop k sample_messages) ∧
    (length (stream_bytes sample_messages) ≤ length (repeat 1 60) →
     s = foldl (λ s m, s ++ [m]) [] sample_messages ∧ buf = []).
Proof.
  apply (stream_reassembly (λ s fr b, (s ++ [head_message fr b])%list) (λ s m, (s ++ [m])%list)).
  - intros s m rest _. cbv beta. by rewrite head_frame.
  - repeat constructor; vm_compute; congruence.
  - repeat constructor; vm_compute; congruence.
  - reflexivity.
  - repeat constructor; lia.
Defined.

End Rpc.
