(* ===== verification/AgentRing.v ===== *)
(** * The agent's event ring

    [src/supervisor/agent_ring.c]: the bounded queue between the threads of the
    target and the agent thread, over a heap of blocks. Every run of its
    operations answers as a bounded queue does, frees each block once and holds
    no block but those of the events queued. *)

From S2P Require Import Prelude Libc.

Module AgentRing.

Import Libc.

Definition AGENT_RING_CAP : nat := 256.
Definition AGENT_RING_INLINE : nat := 768.

(** ** The heap *)

(** The live blocks, and the address the next one gets. *)
Record Mem := mkMem { cells : gmap Z bytes; brk : Z }.

Definition malloc (text : bytes) (m : Mem) : Z * Mem :=
  (brk m, mkMem (<[brk m := text]> (cells m)) (brk m + 1)).

(** [free] of a pointer: none is freed for NULL, and a pointer to no live block
    is an error. *)
Definition free (p : option Z) (m : Mem) : option Mem :=
  match p with
  | None => Some m
  | Some a => if bool_decide (is_Some (cells m !! a)) then Some (mkMem (delete a (cells m)) (brk m)) else None
  end.

(** ** The ring *)

Record agent_ring_slot := mkSlot { heap : option Z; len : nat; buf : bytes }.

Record agent_ring := mkRing {
  slots : list agent_ring_slot;
  head : nat;
  count : nat;
  dropped : Z;
}.

Definition agent_ring_init : agent_ring :=
  mkRing (replicate AGENT_RING_CAP (mkSlot None 0 (replicate AGENT_RING_INLINE NUL))) 0 0 0.

Definition drop_one (r : agent_ring) : agent_ring := mkRing (slots r) (head r) (count r) (dropped r + 1).

Definition queue_slot (i : nat) (s : agent_ring_slot) (r : agent_ring) : agent_ring :=
  mkRing (<[i := s]> (slots r)) (head r) (count r + 1) (dropped r).

(** [slot->heap = NULL] on the way to a refusal is kept. *)
Definition clear_slot (i : nat) (s : agent_ring_slot) (r : agent_ring) : agent_ring :=
  mkRing (<[i := mkSlot None (len s) (buf s)]> (slots r)) (head r) (count r) (dropped r).

(** [malloc_ok] is what the allocator answers if it is asked. *)
Definition ring_push (malloc_ok : bool) (r : agent_ring) (m : Mem) (heap_item : option Z) (item : bytes)
    (n : nat) : option (Z * (agent_ring * Mem)) :=
  if AGENT_RING_CAP <=? count r then
    m ← free heap_item m; Some ((-1)%Z, (drop_one r, m))
  else
    let i := (head r + count r) mod AGENT_RING_CAP in
    s ← slots r !! i;
    match heap_item with
    | Some a => Some (0%Z, (queue_slot i (mkSlot (Some a) n (buf s)) r, m))
    | None =>
        if AGENT_RING_INLINE - 1 <? n then
          if malloc_ok then
            let '(a, m) := malloc (take n item ++ [NUL]) m in
            Some (0%Z, (queue_slot i (mkSlot (Some a) n (buf s)) r, m))
          else Some ((-1)%Z, (drop_one (clear_slot i s r), m))
        else
          Some (0%Z, (queue_slot i (mkSlot None n (take n item ++ [NUL] ++ drop (S n) (buf s))) r, m))
    end.

Definition agent_ring_push_copy (malloc_ok : bool) (r : agent_ring) (m : Mem) (item : bytes) (n : nat)
    : option (Z * (agent_ring * Mem)) :=
  ring_push malloc_ok r m None item n.

Definition agent_ring_push_heap (r : agent_ring) (m : Mem) (heap_item : Z) (n : nat)
    : option (Z * (agent_ring * Mem)) :=
  ring_push true r m (Some heap_item) (default [] (cells m !! heap_item)) n.

(** The bytes a slot shows; none for a pointer to no live block. *)
Definition slot_text (m : Mem) (s : agent_ring_slot) : option bytes :=
  match heap s with Some a => cells m !! a | None => Some (buf s) end.

(** The view of the oldest event, or NULL. *)
Definition agent_ring_peek (r : agent_ring) (m : Mem) : option (option (bytes * nat)) :=
  if count r =? 0 then Some None
  else s ← slots r !! head r; t ← slot_text m s; Some (Some (t, len s)).

Definition agent_ring_pop (r : agent_ring) (m : Mem) : option (agent_ring * Mem) :=
  if count r =? 0 then Some (r, m)
  else
    s ← slots r !! head r;
    m ← free (heap s) m;
    Some (mkRing (<[head r := mkSlot None (len s) (buf s)]> (slots r))
            ((head r + 1) mod AGENT_RING_CAP) (count r - 1) (dropped r), m).

(** ** The queue it implements *)

Inductive ring_op :=
  | PushCopy (item : bytes) (malloc_ok : bool)
  | PushHeap (item : bytes)
  | Peek
  | Pop.

Inductive ring_answer := Queued (rc : Z) | View (item : option bytes) | Done.

(** A string on the heap is allocated by the caller of [agent_ring_push_heap]. *)
Definition ring_do (o : ring_op) (rm : agent_ring * Mem) : option (ring_answer * (agent_ring * Mem)) :=
  let '(r, m) := rm in
  match o with
  | PushCopy item ok =>
      '(rc, rm) ← agent_ring_push_copy ok r m item (length item); Some (Queued rc, rm)
  | PushHeap item =>
      let '(a, m) := malloc (item ++ [NUL]) m in
      '(rc, rm) ← agent_ring_push_heap r m a (length item); Some (Queued rc, rm)
  | Peek => v ← agent_ring_peek r m; Some (View ((λ x, cstr x.1) <$> v), rm)
  | Pop => rm ← agent_ring_pop r m; Some (Done, rm)
  end.

Fixpoint ring_run (os : list ring_op) (rm : agent_ring * Mem)
    : option (list ring_answer * (agent_ring * Mem)) :=
  match os with
  | [] => Some ([], rm)
  | o :: os => '(a, rm) ← ring_do o rm; '(l, rm) ← ring_run os rm; Some (a :: l, rm)
  end.

(** A bounded queue of strings with a counter of refusals. *)
Definition accepts (o : ring_op) (q : list bytes) : bool :=
  match o with
  | PushCopy item ok => (length q <? AGENT_RING_CAP) && (ok || (length item <? AGENT_RING_INLINE))
  | PushHeap _ => length q <? AGENT_RING_CAP
  | _ => true
  end.

Definition queue_do (o : ring_op) (qd : list bytes * Z) : ring_answer * (list bytes * Z) :=
  let '(q, d) := qd in
  match o with
  | PushCopy item _ | PushHeap item =>
      if accepts o q then (Queued 0, (q ++ [item], d)) else (Queued (-1), (q, d + 1)%Z)
  | Peek => (View (List.head q), qd)
  | Pop => (Done, (drop 1 q, d))
  end.

Fixpoint queue_run (os : list ring_op) (qd : list bytes * Z) : list ring_answer * (list bytes * Z) :=
  match os with
  | [] => ([], qd)
  | o :: os => let '(a, qd) := queue_do o qd in let '(l, qd) := queue_run os qd in (a :: l, qd)
  end.

(** ** The relation *)

Definition op_item (o : ring_op) : bytes :=
  match o with PushCopy item _ | PushHeap item => item | _ => [] end.

(** The slots in use, oldest first. *)
Definition used (r : agent_ring) : list agent_ring_slot :=
  (λ i, nth ((head r + i) mod AGENT_RING_CAP) (slots r) (mkSlot None 0 [])) <$> seq 0 (count r).

Record ring_is (r : agent_ring) (m : Mem) (q : list bytes) (d : Z) : Prop := mkRingIs {
  ri_slots : length (slots r) = AGENT_RING_CAP;
  ri_head : head r < AGENT_RING_CAP;
  ri_count : count r = length q;
  ri_cap : count r ≤ AGENT_RING_CAP;
  ri_dropped : dropped r = d;
  ri_texts : (λ s, cstr <$> slot_text m s) <$> used r = Some <$> q;
  ri_owned : dom (cells m) = list_to_set (omap heap (used r));
  ri_once : NoDup (omap heap (used r));
  ri_brk : ∀ a, a ∈ dom (cells m) → (a < brk m)%Z;
}.

Lemma ring_index h i :
  h < AGENT_RING_CAP → i ≤ AGENT_RING_CAP →
  (h + i) mod AGENT_RING_CAP = if h + i <? AGENT_RING_CAP then h + i else h + i - AGENT_RING_CAP.
Proof.
  intros Hh Hi. destruct (Nat.ltb_spec (h + i) AGENT_RING_CAP) as [|Hge]; [by apply Nat.mod_small|].
  rewrite <- (Nat.mod_small (h + i - AGENT_RING_CAP) AGENT_RING_CAP) by lia.
  replace (h + i) with (h + i - AGENT_RING_CAP + 1 * AGENT_RING_CAP) at 1 by lia.
  apply Nat.Div0.mod_add.
Qed.

Lemma ring_index_lt h i : (h + i) mod AGENT_RING_CAP < AGENT_RING_CAP.
Proof. apply Nat.mod_upper_bound. done. Qed.

Lemma ring_index_ne h i j :
  h < AGENT_RING_CAP → i < j → j < AGENT_RING_CAP →
  (h + i) mod AGENT_RING_CAP ≠ (h + j) mod AGENT_RING_CAP.
Proof.
  intros Hh Hij Hj. rewrite !ring_index by lia.
  destruct (Nat.ltb_spec (h + i) AGENT_RING_CAP), (Nat.ltb_spec (h + j) AGENT_RING_CAP); lia.
Qed.

Lemma used_length r : length (used r) = count r.
Proof. unfold used. by rewrite length_fmap, length_seq. Qed.

(** A write to the slot after the last one in use is not seen. *)
Lemma used_frame r s :
  head r < AGENT_RING_CAP → count r < AGENT_RING_CAP →
  (λ i, nth ((head r + i) mod AGENT_RING_CAP)
          (<[(head r + count r) mod AGENT_RING_CAP := s]> (slots r)) (mkSlot None 0 [])) <$> seq 0 (count r)
  = used r.
Proof.
  intros Hh Hc. apply list_fmap_ext. intros k i [-> Hi]%lookup_seq. rewrite !nth_lookup, list_lookup_insert_ne; [done|].
  by apply not_eq_sym, ring_index_ne.
Qed.

Lemma used_queue r s :
  length (slots r) = AGENT_RING_CAP → head r < AGENT_RING_CAP → count r < AGENT_RING_CAP →
  used (queue_slot ((head r + count r) mod AGENT_RING_CAP) s r) = used r ++ [s].
Proof.
  intros Hl Hh Hc. unfold used at 1. cbn [queue_slot slots head count].
  rewrite Nat.add_1_r, seq_S, fmap_app, used_frame by done. f_equal. cbn [fmap list_fmap Nat.add].
  rewrite nth_lookup, list_lookup_insert_eq; [done|]. rewrite Hl. apply ring_index_lt.
Qed.

Lemma used_clear r s0 :
  head r < AGENT_RING_CAP → count r < AGENT_RING_CAP →
  used (clear_slot ((head r + count r) mod AGENT_RING_CAP) s0 r) = used r.
Proof. intros Hh Hc. unfold used at 1. cbn [clear_slot slots head count]. by apply used_frame. Qed.

(** The oldest slot, and the others after it is released. *)
Lemma used_pop r s :
  length (slots r) = AGENT_RING_CAP → head r < AGENT_RING_CAP → 0 < count r ≤ AGENT_RING_CAP →
  ∃ s0, slots r !! head r = Some s0 ∧
    used r = s0 :: used (mkRing (<[head r := s]> (slots r)) ((head r + 1) mod AGENT_RING_CAP)
                          (count r - 1) (dropped r)).
Proof.
  intros Hl Hh Hc. destruct (lookup_lt_is_Some_2 (slots r) (head r)) as [s0 Hs0]; [lia|]. exists s0.
  split; [done|]. unfold used. cbn [slots head count]. destruct (count r) as [|n] eqn:En; [lia|].
  cbn [seq fmap list_fmap]. f_equal.
  - by rewrite Nat.add_0_r, Nat.mod_small, nth_lookup, Hs0.
  - rewrite <- fmap_S_seq, <- list_fmap_compose. replace (S n - 1) with n by lia.
    apply list_fmap_ext. intros k i [-> Hi]%lookup_seq. cbn [compose Nat.add].
    rewrite Nat.Div0.add_mod_idemp_l. replace (head r + 1 + k) with (head r + S k) by lia.
    rewrite !nth_lookup, list_lookup_insert_ne; [done|].
    pose proof (ring_index_ne (head r) 0 (S k)) as H. rewrite Nat.add_0_r, (Nat.mod_small (head r)) in H by done.
    apply H; lia.
Qed.

Lemma cstr_nul item r : no_nul item → cstr (item ++ NUL :: r) = item.
Proof.
  intros H. induction H as [|c item Hc _ IH]; cbn; [done|].
  destruct (ceq c NUL) eqn:E; [by apply ceq_true in E|]. by f_equal.
Qed.

(** Texts survive what does not touch their blocks. *)
Lemma texts_frame (m m' : Mem) (ss : list agent_ring_slot) :
  (∀ a, a ∈ omap heap ss → cells m' !! a = cells m !! a) →
  (λ s, cstr <$> slot_text m' s) <$> ss = (λ s, cstr <$> slot_text m s) <$> ss.
Proof.
  intros H. apply list_fmap_ext. intros i s Hs. unfold slot_text. destruct (heap s) as [a|] eqn:E; [|done].
  rewrite H; [done|]. apply list_elem_of_omap. exists s. by split; [eapply list_elem_of_lookup_2|].
Qed.

Lemma fresh_block m (ss : list agent_ring_slot) :
  dom (cells m) = list_to_set (omap heap ss) → (∀ a, a ∈ dom (cells m) → (a < brk m)%Z) →
  brk m ∉ omap heap ss.
Proof. intros Hd Hb Hin. specialize (Hb (brk m)). rewrite Hd, elem_of_list_to_set in Hb. specialize (Hb Hin). lia. Qed.

(** Queueing a slot that owns no block, or a new one. *)
Lemma ring_is_queue r m m' q d s item :
  ring_is r m q d → count r < AGENT_RING_CAP → cstr <$> slot_text m' s = Some item →
  (heap s = None ∧ m' = m ∨ heap s = Some (brk m) ∧ ∃ t, m' = mkMem (<[brk m := t]> (cells m)) (brk m + 1)) →
  ring_is (queue_slot ((head r + count r) mod AGENT_RING_CAP) s r) m' (q ++ [item]) d.
Proof.
  intros [Hl Hh Hc Hcap Hd Ht Ho Hn Hb] Hroom Htext Hs.
  pose proof (fresh_block m _ Ho Hb) as Hfresh.
  split; rewrite ?used_queue by done; cbn [queue_slot slots head count dropped].
  - by rewrite length_insert.
  - done.
  - rewrite length_app. cbn. lia.
  - lia.
  - done.
  - rewrite !fmap_app. cbn [fmap list_fmap]. rewrite Htext, (texts_frame m), Ht; [done|]. intros a Ha.
    destruct Hs as [[_ ->]|(_ & t & ->)]; [done|]. cbn [cells]. rewrite lookup_insert_ne; [done|]. by intros <-.
  - rewrite omap_app. destruct Hs as [[Hs ->]|(Hs & t & ->)]; cbn [omap list_omap cells]; rewrite Hs.
    + by rewrite app_nil_r.
    + rewrite dom_insert_L, Ho, list_to_set_app_L. cbn. set_solver.
  - rewrite omap_app. destruct Hs as [[Hs ->]|(Hs & t & ->)]; cbn [omap list_omap]; rewrite Hs.
    + by rewrite app_nil_r.
    + apply NoDup_app. split; [done|]. split; [set_solver|apply NoDup_singleton].
  - intros a. destruct Hs as [[Hs ->]|(Hs & t & ->)]; [apply Hb|]. cbn [cells brk]. rewrite dom_insert_L.
    intros [->%elem_of_singleton|H]%elem_of_union; [lia|]. specialize (Hb a H). lia.
Qed.

Lemma ring_is_drop r m q d : ring_is r m q d → ring_is (drop_one r) m q (d + 1).
Proof. intros [Hl Hh Hc Hcap Hd Ht Ho Hn Hb]. split; try done. cbn. by rewrite Hd. Qed.

Lemma ring_is_clear r m q d s0 :
  ring_is r m q d → count r < AGENT_RING_CAP →
  ring_is (clear_slot ((head r + count r) mod AGENT_RING_CAP) s0 r) m q d.
Proof.
  intros [Hl Hh Hc Hcap Hd Ht Ho Hn Hb] Hroom. split; rewrite ?used_clear by done; try done.
  cbn. by rewrite length_insert.
Qed.

Lemma ring_slot r i : length (slots r) = AGENT_RING_CAP → i < AGENT_RING_CAP → is_Some (slots r !! i).
Proof. intros Hl Hi. apply lookup_lt_is_Some_2. lia. Qed.

Lemma cap_test r m q d : ring_is r m q d → (AGENT_RING_CAP <=? count r) = negb (length q <? AGENT_RING_CAP).
Proof. intros Hr. rewrite (ri_count _ _ _ _ Hr). by rewrite Nat.ltb_antisym, negb_involutive. Qed.

(** What one operation leaves and answers. *)
Definition simulates (o : ring_op) (r : agent_ring) (m : Mem) (q : list bytes) (d : Z) : Prop :=
  ∃ r' m', ring_do o (r, m) = Some (fst (queue_do o (q, d)), (r', m')) ∧
    ring_is r' m' (fst (snd (queue_do o (q, d)))) (snd (snd (queue_do o (q, d)))).

Lemma push_copy_simulates item ok r m q d :
  ring_is r m q d → no_nul item → simulates (PushCopy item ok) r m q d.
Proof.
  intros Hr Hi. unfold simulates, ring_do, agent_ring_push_copy, ring_push, queue_do, accepts.
  rewrite (cap_test r m q d Hr). destruct (Nat.ltb_spec (length q) AGENT_RING_CAP) as [Hq|Hq]; cbn [negb andb].
  2: { exists (drop_one r), m. split; [done|]. by apply ring_is_drop. }
  rewrite <- (ri_count _ _ _ _ Hr) in Hq.
  destruct (ring_slot r ((head r + count r) mod AGENT_RING_CAP) (ri_slots _ _ _ _ Hr) (ring_index_lt _ _))
    as [s Hs]. rewrite Hs. cbn [mbind option_bind].
  replace (AGENT_RING_INLINE - 1 <? length item) with (negb (length item <? AGENT_RING_INLINE))
    by (destruct (Nat.ltb_spec (length item) AGENT_RING_INLINE), (Nat.ltb_spec (AGENT_RING_INLINE - 1) (length item));
        unfold AGENT_RING_INLINE in *; cbn; lia).
  rewrite firstn_all. destruct (length item <? AGENT_RING_INLINE); cbn [negb orb].
  - rewrite orb_true_r. eexists _, m. split; [done|]. eapply ring_is_queue; [done..| |by left].
    cbn. by rewrite cstr_nul.
  - rewrite orb_false_r. destruct ok; cbn [malloc].
    + eexists _, _. split; [done|]. eapply ring_is_queue; [done..| |right; split; [done|by eexists]].
      cbn. rewrite lookup_insert_eq. cbn. by rewrite cstr_nul.
    + eexists _, m. split; [done|]. by apply ring_is_drop, ring_is_clear.
Qed.

Lemma push_heap_simulates item r m q d :
  ring_is r m q d → no_nul item → simulates (PushHeap item) r m q d.
Proof.
  intros Hr Hi. unfold simulates, ring_do, agent_ring_push_heap, ring_push, queue_do, accepts. cbn [malloc].
  rewrite (cap_test r m q d Hr). destruct (Nat.ltb_spec (length q) AGENT_RING_CAP) as [Hq|Hq]; cbn [negb].
  - rewrite <- (ri_count _ _ _ _ Hr) in Hq.
    destruct (ring_slot r ((head r + count r) mod AGENT_RING_CAP) (ri_slots _ _ _ _ Hr) (ring_index_lt _ _))
      as [s Hs]. rewrite Hs. cbn [mbind option_bind]. eexists _, _. split; [done|].
    eapply ring_is_queue; [done..| |right; split; [done|by eexists]].
    cbn. rewrite lookup_insert_eq. cbn. by rewrite cstr_nul.
  - cbn [free cells brk]. rewrite bool_decide_eq_true_2 by (rewrite lookup_insert_eq; by eexists).
    cbn [mbind option_bind]. eexists _, _. split; [done|]. apply ring_is_drop.
    destruct Hr as [Hl Hh Hc Hcap Hd Ht Ho Hn Hb]. pose proof (fresh_block m _ Ho Hb) as Hfresh.
    rewrite delete_insert_id.
    2: { apply not_elem_of_dom. by rewrite Ho, elem_of_list_to_set. }
    split; try done. cbn. intros a Ha. specialize (Hb a Ha). lia.
Qed.

Lemma peek_simulates r m q d : ring_is r m q d → simulates Peek r m q d.
Proof.
  intros Hr. unfold simulates, ring_do, agent_ring_peek, queue_do. exists r, m. split; [|done].
  pose proof Hr as [Hl Hh Hc Hcap Hd Ht _ _ _]. destruct (Nat.eqb_spec (count r) 0) as [E|E].
  - rewrite E in Hc. by destruct q.
  - destruct (used_pop r (mkSlot None 0 []) Hl Hh ltac:(lia)) as (s0 & Hs0 & Eu).
    rewrite Eu in Ht. destruct q as [|x q]; [done|]. cbn [fmap list_fmap] in Ht.
    apply (inj2 cons) in Ht as [Hx _]. rewrite Hs0. cbn [mbind option_bind].
    destruct (slot_text m s0) as [t|]; [|done]. apply (inj Some) in Hx. cbn. by rewrite Hx.
Qed.

Lemma pop_simulates r m q d : ring_is r m q d → simulates Pop r m q d.
Proof.
  intros [Hl Hh Hc Hcap Hd Ht Ho Hn Hb]. unfold simulates, ring_do, agent_ring_pop, queue_do. cbn [fst snd].
  destruct (Nat.eqb_spec (count r) 0) as [E|E].
  { exists r, m. split; [done|]. destruct q; [|cbn in Hc; lia]. by split. }
  destruct (slots r !! head r) as [s0|] eqn:Hs0; [|apply lookup_ge_None in Hs0; lia].
  destruct (used_pop r (mkSlot None (len s0) (buf s0)) Hl Hh ltac:(lia)) as (s1 & Hs1 & Eu).
  rewrite Hs0 in Hs1. apply (inj Some) in Hs1 as <-. cbn [mbind option_bind].
  rewrite Eu in Ht, Ho, Hn. destruct q as [|x q]; [done|]. cbn [fmap list_fmap omap list_omap drop] in *. rewrite drop_0.
  apply (inj2 cons) in Ht as [Hx Ht].
  assert (∃ m', free (heap s0) m = Some m' ∧ dom (cells m') = list_to_set (omap heap (used
     (mkRing (<[head r := mkSlot None (len s0) (buf s0)]> (slots r)) ((head r + 1) mod AGENT_RING_CAP)
        (count r - 1) (dropped r)))) ∧ (∀ a, Some a ≠ heap s0 → cells m' !! a = cells m !! a) ∧
     (∀ a, a ∈ dom (cells m') → (a < brk m')%Z)) as (m' & Ef & Hd' & Hsame & Hb').
  { destruct (heap s0) as [a|] eqn:Eh; [|by exists m]. apply NoDup_cons in Hn as [Hna _].
    cbn [free]. rewrite bool_decide_eq_true_2 by (apply elem_of_dom; rewrite Ho; set_solver).
    eexists. split; [done|]. cbn [cells brk]. rewrite dom_delete_L, Ho. split; [set_solver|]. split.
    - intros b Hab. apply lookup_delete_ne. by intros ->.
    - intros b Hb1. apply Hb. rewrite Ho. set_solver. }
  rewrite Ef. cbn [mbind option_bind]. eexists _, m'. split; [done|].
  split; cbn [slots head count dropped length]; try done.
  - by rewrite length_insert.
  - apply ring_index_lt.
  - cbn [length] in Hc. lia.
  - lia.
  - rewrite (texts_frame m), Ht; [done|]. intros a Ha. apply Hsame. intros E'. rewrite <- E' in Hn.
    by apply NoDup_cons in Hn as [Hn _].
  - destruct (heap s0); [by apply NoDup_cons in Hn as [_ Hn]|done].
Qed.

Lemma ring_is_init : ring_is agent_ring_init (mkMem ∅ 0) [] 0.
Proof.
  split; try (by cbn); try (by apply NoDup_nil_2).
  - unfold AGENT_RING_CAP. cbn. lia.
  - unfold AGENT_RING_CAP. cbn. lia.
Qed.

Lemma run_simulates os r m q d :
  ring_is r m q d → Forall (λ o, no_nul (op_item o)) os →
  ∃ r' m', ring_run os (r, m) = Some (fst (queue_run os (q, d)), (r', m')) ∧
    ring_is r' m' (fst (snd (queue_run os (q, d)))) (snd (snd (queue_run os (q, d)))).
Proof.
  intros Hr Hos. revert r m q d Hr. induction Hos as [|o os Ho _ IH]; intros r m q d Hr; [by exists r, m|].
  assert (simulates o r m q d) as (r1 & m1 & E1 & Hr1).
  { destruct o; [by apply push_copy_simulates|by apply push_heap_simulates|by apply peek_simulates|by apply pop_simulates]. }
  cbn [ring_run queue_run]. rewrite E1. destruct (queue_do o (q, d)) as [a [q1 d1]]. cbn [fst snd mbind option_bind] in *.
  destruct (IH _ _ _ _ Hr1) as (r2 & m2 & E2 & Hr2). rewrite E2. destruct (queue_run os (q1, d1)) as [l [q2 d2]].
  by exists r2, m2.
Qed.

(** C29 (refinement). Over every sequence of operations and whatever the
    allocator answers, the ring answers as a queue of at most 256 strings with a
    counter of refusals. No pointer is freed that is not live, no event shows
    the bytes of another, and the heap holds exactly the blocks of the events
    queued. *)
Theorem agent_ring_refines os :
  Forall (λ o, no_nul (op_item o)) os →
  let '(answers, (q, d)) := queue_run os ([], 0%Z) in
  ∃ r m, ring_run os (agent_ring_init, mkMem ∅ 0) = Some (answers, (r, m)) ∧
    dropped r = d ∧ count r = length q ∧ length q ≤ AGENT_RING_CAP ∧
    (λ s, cstr <$> slot_text m s) <$> used r = Some <$> q ∧
    dom (cells m) = list_to_set (omap heap (used r)).
Proof.
  intros Hos. destruct (run_simulates os _ _ _ _ ring_is_init Hos) as (r & m & E & Hr).
  destruct (queue_run os ([], 0%Z)) as [answers [q d]]. cbn [fst snd] in *.
  destruct Hr as [Hl Hh Hc Hcap Hd Ht Ho Hn Hb]. exists r, m. rewrite <- Hc. by split_and!.
Qed.

Lemma agent_ring_refines_witness :
  let os := [PushCopy (lit "a") true; PushHeap (lit "b"); Peek; Pop; Peek] in
  let '(answers, (q, d)) := queue_run os ([], 0%Z) in
  ∃ r m, ring_run os (agent_ring_init, mkMem ∅ 0) = Some (answers, (r, m)) ∧
    dropped r = d ∧ count r = length q ∧ length q ≤ AGENT_RING_CAP ∧
    (λ s, cstr <$> slot_text m s) <$> used r = Some <$> q ∧
    dom (cells m) = list_to_set (omap heap (used r)).
Proof. apply agent_ring_refines. by repeat constructor. Defined.

End AgentRing.
