(* ===== verification/PolicySig.v ===== *)
(** * Signed policies

    [src/supervisor/policy_sig.c]: the keys pinned from the environment, the
    check of a signature wrapper and the validation of a policy against the
    epoch held. OpenSSL is a parameter: reading a key, decoding base64 and the
    verification itself. The applied epochs only grow, and with a key pinned a
    wrapped policy is accepted only when a pinned key verifies its text. *)

From S2P Require Import Prelude Libc Stdio Json JsonText JsonRoundTrip.

Module PolicySig.

Import Libc Stdio Json JsonText.

Definition SIG_B64_MAX : nat := 128.
Definition POLICY_KEYS_MAX : nat := 8.
Definition POLICY_KEY_SEP : ascii := ":"%char.

(** ** Doubles as epochs and times *)

(** The test against 1.0. *)
Definition d_lt_one (d : double) : bool :=
  if (0 <=? d_exp d)%Z then (d_man d * 2 ^ d_exp d <? 1)%Z else (d_man d <? 2 ^ (- d_exp d))%Z.

Definition d_positive (d : double) : bool := (0 <? d_man d)%Z.

(** [strtok_r] over a whole string: the runs of bytes without the separator. *)
Fixpoint strtok_all (sep : ascii) (s : bytes) (cur : bytes) : list bytes :=
  match s with
  | [] => if decide (cur = []) then [] else [cur]
  | c :: s =>
      if ceq c sep then (if decide (cur = []) then [] else [cur]) ++ strtok_all sep s []
      else strtok_all sep s (cur ++ [c])
  end.

(** The literal [\n] of an inline key, into a buffer of [cap] bytes. *)
Fixpoint unescape_nl (cap : nat) (s : bytes) : bytes :=
  match cap, s with
  | S (S _ as cap), c :: s =>
      if ceq c "\" && ceq (deref s) "n" then NL :: match s with _ :: s => unescape_nl cap s | [] => [] end
      else c :: unescape_nl cap s
  | _, _ => []
  end.

(** The number of padding signs [verify_b64] takes off. *)
Definition b64_pad (s : bytes) : nat :=
  if ceq (char_at s (length s - 1)) "=" then
    if ceq (char_at s (length s - 2)) "=" then 2 else 1
  else 0.

Section policy.

(** OpenSSL: [PEM_read_PUBKEY] of a file that opens, [PEM_read_bio_PUBKEY],
    [EVP_DecodeBlock], and [EVP_DigestVerifyInit] with [EVP_DigestVerify]. *)
Context {EVP_PKEY : Type}.
Context (pem_file : bytes → option (option EVP_PKEY)) (pem_bio : bytes → option EVP_PKEY).
Context (decode_block : bytes → option bytes).
Context (digest_verify : EVP_PKEY → bytes → bytes → bool).

(** What the machine makes of a double outside the range of an integer type. *)
Context (out_of_range : double → Z).

Context {DT : DoubleText}.

Definition d_u64 (d : double) : Z :=
  if (0 <=? d_trunc d)%Z && (d_trunc d <? 2 ^ 64)%Z then d_trunc d else out_of_range d.

Definition d_i64 (d : double) : Z :=
  if (- 2 ^ 63 <=? d_trunc d)%Z && (d_trunc d <? 2 ^ 63)%Z then d_trunc d else out_of_range d.

Record Pins := mkPins { g_keys : list EVP_PKEY; g_pinned : bool }.

Definition load_pubkey (spec : bytes) : option EVP_PKEY :=
  match pem_file spec with
  | Some k => k
  | None => pem_bio (unescape_nl 4096 spec)
  end.

Definition verify_b64 (vkey : EVP_PKEY) (sig_b64 msg : bytes) : bool :=
  let blen := length sig_b64 in
  if (blen =? 0) || negb (blen mod 4 =? 0) || (SIG_B64_MAX + 8 <=? blen) then false
  else
    match decode_block sig_b64 with
    | None => false
    | Some raw => digest_verify vkey (take (length raw - b64_pad sig_b64) raw) msg
    end.

(** The keys of the list, until the table is full. *)
Fixpoint pin_keys (toks : list bytes) (keys : list EVP_PKEY) (loaded : bool) : list EVP_PKEY * bool :=
  match toks with
  | [] => (keys, loaded)
  | tok :: toks =>
      match load_pubkey tok with
      | None => pin_keys toks keys loaded
      | Some k =>
          if length keys <? POLICY_KEYS_MAX then pin_keys toks (keys ++ [k]) true else (keys, loaded)
      end
  end.

Definition retrace_policy_sig_init (env : option bytes) (g : Pins) : Z * Pins :=
  if g_pinned g then (0%Z, g)
  else
    match env with
    | None => (0%Z, g)
    | Some spec =>
        if decide (spec = []) then (0%Z, g)
        else
          let '(keys, loaded) := pin_keys (strtok_all POLICY_KEY_SEP (snprintf 2048 spec) []) (g_keys g) false in
          if loaded then (0%Z, mkPins keys true) else ((-1)%Z, mkPins keys false)
    end.

Definition retrace_policy_sig_pinned (g : Pins) : Z := Z.b2z (g_pinned g).

Definition copy_str_field (root : option JSON_Object) (key : string) (cap : nat) : bytes :=
  match json_object_get_string root key with Some v => snprintf cap v | None => [] end.

(** The return code, and the text to apply or the reason of a refusal. *)
Definition retrace_policy_sig_check (g : Pins) (payload : bytes) (blob_cap : nat) : Z * (bytes + string) :=
  match json_parse_string payload with
  | None => ((-1)%Z, inr "malformed json")
  | Some v =>
      let root := json_value_get_object (Some v) in
      match json_object_get_object root "sig", json_object_get_string root "blob" with
      | None, None => (0%Z, inl (snprintf blob_cap payload))
      | Some sig, Some blob =>
          let alg := copy_str_field (Some sig) "alg" 32 in
          let sig_b64 := copy_str_field (Some sig) "sig" SIG_B64_MAX in
          if negb (streq alg (lit "ed25519")) || bool_decide (sig_b64 = []) then
            ((-1)%Z, inr "unsupported signature")
          else if negb (g_pinned g) then (1%Z, inl (snprintf blob_cap blob))
          else if existsb (λ k, verify_b64 k sig_b64 blob) (g_keys g) then (1%Z, inl (snprintf blob_cap blob))
          else ((-1)%Z, inr "signature invalid")
      | _, _ => ((-1)%Z, inr "partial signature wrapper")
      end
  end.

(** What the validation answers: the document and its epoch, the policy held, or
    the reason of a refusal. *)
Inductive verdict := Policy (root : JSON_Object) (epoch : Z) | Held | Refused (reason : string).

Definition validate_document (have_epoch now : Z) (payload_json : bytes) : verdict :=
  match json_parse_string payload_json with
  | None => Refused "malformed json"
  | Some v =>
      let root := json_value_get_object (Some v) in
      match root, json_object_get_object root "policy" with
      | Some r, Some pol =>
          let epoch := json_object_get_number (Some pol) "epoch" in
          let expires := json_object_get_number (Some pol) "expires" in
          if d_lt_one epoch then Refused "policy.epoch missing"
          else if (d_u64 epoch =? have_epoch)%Z then Held
          else if (d_u64 epoch <? have_epoch)%Z then Refused "epoch regression refused"
          else if d_positive expires && (d_i64 expires <=? now)%Z then Refused "policy expired"
          else if bool_decide (json_object_get_array root "intercept_scripts" = None) then
            Refused "no intercept_scripts"
          else Policy r (d_u64 epoch)
      | _, _ => Refused "no policy header"
      end
  end.

Definition retrace_policy_validate (env : option bytes) (g : Pins) (payload_wrapped : option bytes)
    (have_epoch now : Z) : verdict * Pins :=
  match payload_wrapped with
  | None => (Refused "null payload", g)
  | Some payload =>
      let g := snd (retrace_policy_sig_init env g) in
      match retrace_policy_sig_check g payload 8192 with
      | (_, inr reason) => (Refused reason, g)
      | (_, inl payload_json) => (validate_document have_epoch now payload_json, g)
      end
  end.

(** ** Properties *)

Lemma lt_one_trunc d : d_lt_one d = false → (1 ≤ d_trunc d)%Z.
Proof.
  unfold d_lt_one, d_trunc. destruct (Z.leb_spec 0 (d_exp d)) as [He|He]; intros H%Z.ltb_ge; [done|].
  assert (0 < 2 ^ (- d_exp d))%Z by (apply Z.pow_pos_nonneg; lia).
  rewrite Z.quot_div_nonneg by lia. apply Z.div_le_lower_bound; lia.
Qed.

(** A wrapper: both members are there. *)
Definition wrapped (payload : bytes) (sig : JSON_Object) (blob : bytes) : Prop :=
  ∃ v, json_parse_string payload = Some v ∧
    json_object_get_object (json_value_get_object (Some v)) "sig" = Some sig ∧
    json_object_get_string (json_value_get_object (Some v)) "blob" = Some blob.

Lemma validated have now text root epoch :
  validate_document have now text = Policy root epoch →
  json_parse_string text = Some (JSONObject root) ∧ (have < epoch)%Z ∧
  (∃ pol, json_object_get_object (Some root) "policy" = Some pol ∧
     epoch = d_u64 (json_object_get_number (Some pol) "epoch") ∧
     (d_positive (json_object_get_number (Some pol) "expires") = true →
      now < d_i64 (json_object_get_number (Some pol) "expires"))%Z) ∧
  is_Some (json_object_get_array (Some root) "intercept_scripts").
Proof.
  unfold validate_document. destruct (json_parse_string text) as [v|]; [|done]. cbv zeta.
  destruct v as [|?|?|o|?|?]; try done. cbn [json_value_get_object].
  destruct (json_object_get_object (Some o) "policy") as [pol|] eqn:Ep; [|done].
  destruct (d_lt_one _); [done|]. destruct (Z.eqb_spec (d_u64 (json_object_get_number (Some pol) "epoch")) have); [done|].
  destruct (Z.ltb_spec (d_u64 (json_object_get_number (Some pol) "epoch")) have) as [|Hge]; [done|].
  destruct (_ && _) eqn:Hx; [done|]. destruct (bool_decide _) eqn:Ha; [done|]. bool_to_prop.
  intros [= <- <-]. split; [done|]. split; [lia|]. split; [|by destruct (json_object_get_array _ _)].
  exists pol. split; [done|]. split; [done|]. intros Hp. rewrite Hp in Hx. cbn in Hx. by apply Z.leb_gt.
Qed.

Lemma check_wrapped g payload cap sig blob rc text :
  wrapped payload sig blob → g_pinned g = true →
  retrace_policy_sig_check g payload cap = (rc, inl text) →
  text = snprintf cap blob ∧ copy_str_field (Some sig) "alg" 32 = lit "ed25519" ∧
  ∃ k, k ∈ g_keys g ∧ verify_b64 k (copy_str_field (Some sig) "sig" SIG_B64_MAX) blob = true.
Proof.
  intros (v & Hv & Hs & Hb) Hp. unfold retrace_policy_sig_check. rewrite Hv, Hs, Hb, Hp. cbn [negb].
  destruct (negb (streq _ _) || _) eqn:Ea; [done|]. bool_to_prop.
  destruct (existsb _ _) eqn:Ek; [|done]. intros [= _ <-]. split; [done|]. split; [done|].
  apply existsb_exists in Ek as (k & Hk & E). exists k. by split; [apply list_elem_of_In|].
Qed.

(** C28 (safety). With a key pinned, a wrapped policy is accepted only when one
    of the pinned keys verifies the signature over exactly the bytes of its
    blob, and the policy applied is the one read from these bytes; it is newer
    than the one held and has not expired. *)
Theorem policy_signature_required env g payload sig blob have now root epoch g' :
  wrapped payload sig blob →
  retrace_policy_validate env g (Some payload) have now = (Policy root epoch, g') → g_pinned g' = true →
  (∃ k, k ∈ g_keys g' ∧ verify_b64 k (copy_str_field (Some sig) "sig" SIG_B64_MAX) blob = true) ∧
  json_parse_string (take 8191 blob) = Some (JSONObject root) ∧ (have < epoch)%Z ∧
  ∃ pol, json_object_get_object (Some root) "policy" = Some pol ∧
    (d_positive (json_object_get_number (Some pol) "expires") = true →
     now < d_i64 (json_object_get_number (Some pol) "expires"))%Z.
Proof.
  intros Hw. unfold retrace_policy_validate. set (g1 := snd (retrace_policy_sig_init env g)).
  destruct (retrace_policy_sig_check g1 payload 8192) as [rc [text|reason]] eqn:Ec; [|done].
  intros [= Hd <-] Hp. destruct (check_wrapped g1 payload 8192 sig blob rc text Hw Hp Ec) as (-> & _ & Hk).
  apply validated in Hd as (Hparse & Hlt & (pol & Hpol & _ & Hexp) & _). split_and!; try done. by exists pol.
Qed.

(** A key that cannot be read is as no key: the initialisation fails, nobody
    looks at its result, and a wrapper with any signature text passes. *)
Lemma unreadable_pin_ignored env g payload sig blob :
  g = mkPins [] false → (∀ spec, load_pubkey spec = None) → env ≠ [] → wrapped payload sig blob →
  copy_str_field (Some sig) "alg" 32 = lit "ed25519" → copy_str_field (Some sig) "sig" SIG_B64_MAX ≠ [] →
  fst (retrace_policy_sig_init (Some env) g) = (-1)%Z ∧
  retrace_policy_sig_check (snd (retrace_policy_sig_init (Some env) g)) payload 8192 = (1%Z, inl (snprintf 8192 blob)).
Proof.
  intros -> Hk Henv (v & Hv & Hs & Hb) Ha Hsig. unfold retrace_policy_sig_init. cbn [g_pinned g_keys].
  rewrite decide_False by done. set (toks := strtok_all _ _ _).
  assert (pin_keys toks [] false = ([], false)) as ->.
  { induction toks as [|tok toks IH]; [done|]. cbn [pin_keys]. by rewrite Hk. }
  split; [done|]. unfold retrace_policy_sig_check. cbn [snd]. rewrite Hv, Hs, Hb, Ha. cbn [negb g_pinned].
  by rewrite streq_refl, bool_decide_eq_false_2.
Qed.

(** A pinned key does not apply to a policy without a wrapper. *)
Lemma bare_policy_not_verified g payload v cap :
  json_parse_string payload = Some v →
  json_object_get_object (json_value_get_object (Some v)) "sig" = None →
  json_object_get_string (json_value_get_object (Some v)) "blob" = None →
  retrace_policy_sig_check g payload cap = (0%Z, inl (snprintf cap payload)).
Proof. intros Hv Hs Hb. unfold retrace_policy_sig_check. by rewrite Hv, Hs, Hb. Qed.

End policy.

(** ** A concrete signature *)

(** The keys are the names of their files; a signature is the key itself. *)
Definition toy_blob : bytes := jlit "{'policy':{'epoch':3},'intercept_scripts':[]}".

Definition toy_sig : JSON_Object := [(lit "alg", JSONString (lit "ed25519")); (lit "sig", JSONString (lit "key1"))].

Definition toy_payload : bytes :=
  default [] (json_serialize_to_buffer_r (DT := JsonRoundTrip.whole_numbers) false
    (JSONObject [(lit "sig", JSONObject toy_sig); (lit "blob", JSONString toy_blob)]) 0).

Definition toy_root : JSON_Object :=
  [(lit "policy", JSONObject [(lit "epoch", JSONNumber (d_int 3))]); (lit "intercept_scripts", JSONArray [])].

Lemma policy_signature_required_witness :
  (∃ k, k ∈ [lit "key0"; lit "key1"] ∧
     verify_b64 Some (λ k raw _, streq raw k) k (copy_str_field (Some toy_sig) "sig" SIG_B64_MAX) toy_blob = true) ∧
  json_parse_string (DT := JsonRoundTrip.whole_numbers) (take 8191 toy_blob) = Some (JSONObject toy_root) ∧
  (2 < 3)%Z ∧
  ∃ pol, json_object_get_object (Some toy_root) "policy" = Some pol ∧
    (d_positive (json_object_get_number (Some pol) "expires") = true →
     1000 < d_i64 (λ _, 0%Z) (json_object_get_number (Some pol) "expires"))%Z.
Proof.
  apply (policy_signature_required (λ spec, Some (Some spec)) (λ _, None) Some (λ k raw _, streq raw k)
           (λ _, 0%Z) (DT := JsonRoundTrip.whole_numbers) (Some (lit "key0:key1")) (mkPins [] false)
           toy_payload toy_sig toy_blob 2 1000 toy_root 3 (mkPins [lit "key0"; lit "key1"] true)).
  - eexists. split_and!; vm_compute; reflexivity.
  - vm_compute. reflexivity.
  - reflexivity.
Defined.

End PolicySig.
