(* ===== verification/AgentEvent.v ===== *)
(** * The events of the agent

    [src/supervisor/agent_posix.c], the producer's half: the text of an event
    written without allocation when nothing needs escaping, and on the heap
    otherwise. Both write the same text where both can, and the daemon's parser
    reads from it the event that was emitted. *)

From S2P Require Import Prelude Numerals Libc Stdio Json JsonText JsonRoundTrip JsonPrint.

Module AgentEvent.

Import Numerals Libc Stdio Json JsonText JsonRoundTrip JsonPrint.

Definition AGENT_EVENT_INLINE : nat := 768.

(** ** Escaping *)

Definition jesc_char (c : ascii) : bytes :=
  if ceq c "034" || ceq c "\" then ["\"%char; c]
  else if (uchar c <? 32)%Z then lit "\u" ++ fmt_hex 4 (uchar c)
  else [c].

(** [jesc], when its allocation succeeds. *)
Definition jesc (s : bytes) : bytes := concat (map jesc_char s).

(** ** The text *)

Definition event_head (agent_id : bytes) (seq ts : Z) : bytes :=
  jlit "{'agent_id':'" ++ agent_id ++ jlit "','seq':" ++ fmt_llu seq ++ jlit ",'ts':" ++ fmt_ld ts ++
  jlit ",'name':'".

(** The attributes from the [i]-th on, as [build_event_json] writes them. *)
Fixpoint attrs_text (i : nat) (kv : list (bytes * bytes)) : bytes :=
  match kv with
  | [] => []
  | (k, v) :: kv =>
      (if i =? 0 then [] else lit ",") ++ jlit "'" ++ k ++ jlit "':'" ++ v ++ jlit "'" ++ attrs_text (S i) kv
  end.

Definition event_text (agent_id : bytes) (seq ts : Z) (name : bytes) (kv : list (bytes * bytes)) : bytes :=
  event_head agent_id seq ts ++ name ++ jlit "','attrs':{" ++ attrs_text 0 kv ++ lit "}}".

(** ** The fast path *)

(** [APP_STR]: the text so far with the string, unless a character needs
    escaping or the room is used up. *)
Fixpoint app_str (cap : nat) (s out : bytes) : option bytes :=
  match s with
  | [] => Some out
  | c :: s =>
      if ceq c "034" || ceq c "\" then None
      else if (uchar c <? 32)%Z then None
      else if cap <=? length out + 1 then None
      else app_str cap s (out ++ [c])
  end.

(** [if (o + n >= cap) return -1]. *)
Definition room (cap n : nat) (out : bytes) : option bytes :=
  if cap <=? length out + n then None else Some out.

Fixpoint format_attrs (cap : nat) (i : nat) (kv : list (bytes * bytes)) (out : bytes) : option bytes :=
  match kv with
  | [] => Some out
  | (k, v) :: kv =>
      out ← (if i =? 0 then Some out else (λ o, o ++ lit ",") <$> room cap 2 out);
      out ← room cap 2 out;
      out ← app_str cap k (out ++ jlit "'");
      out ← room cap 4 out;
      out ← app_str cap v (out ++ jlit "':'");
      out ← room cap 2 out;
      format_attrs cap (S i) kv (out ++ jlit "'")
  end.

(** The event in a buffer of [cap] bytes, [ts] the time; nothing for -1. *)
Definition retrace_agent_format_event_stack (cap : nat) (agent_id : bytes) (seq ts : Z) (name : bytes)
    (kv : list (bytes * bytes)) : option bytes :=
  let head := event_head agent_id seq ts in
  if cap <=? length head then None
  else
    out ← app_str cap name head;
    out ← room cap 10 out;
    out ← format_attrs cap 0 kv (out ++ jlit "','attrs':{");
    out ← room cap 3 out;
    Some (out ++ lit "}}").

(** ** The heap path *)

(** The room [build_event_json] allocates. *)
Definition event_total (n_esc : bytes) (kv : list (bytes * bytes)) : nat :=
  96 + length n_esc + sum_list ((λ p, length p.1 + length p.2 + 12) <$> kv) + 64.

(** [snprintf(out + o, total - o, ...)] with [o] cut to [total]: the string
    written so far and [o]. *)
Definition append_at (total : nat) (out : bytes) (o : nat) (s : bytes) : bytes * nat :=
  (out ++ take (total - o - 1) s, Nat.min (o + length s) total).

Fixpoint build_attrs (total : nat) (i : nat) (kv : list (bytes * bytes)) (out : bytes) (o : nat) : bytes * nat :=
  match kv with
  | [] => (out, o)
  | (k, v) :: kv =>
      if o <? total then
        let '(out, o) := append_at total out o
          ((if i =? 0 then [] else lit ",") ++ jlit "'" ++ jesc k ++ jlit "':'" ++ jesc v ++ jlit "'") in
        build_attrs total (S i) kv out o
      else (out, o)
  end.

(** [build_event_json], when its allocations succeed. *)
Definition build_event_json (agent_id : bytes) (seq ts : Z) (name : bytes) (kv : list (bytes * bytes)) : bytes :=
  let n_esc := jesc name in
  let total := event_total n_esc kv in
  let '(out, o) := append_at total [] 0 (event_head agent_id seq ts ++ n_esc ++ jlit "','attrs':{") in
  let '(out, o) := build_attrs total 0 kv out o in
  if o <? total then (append_at total out o (lit "}}")).1 else out.

(** The payload [retrace_agent_emit_event] builds with the sequence counter at
    [seq], and the counter afterwards: both paths take a number. *)
Definition emit_payload (agent_id : bytes) (seq ts : Z) (name : bytes) (kv : list (bytes * bytes)) : bytes * Z :=
  match retrace_agent_format_event_stack AGENT_EVENT_INLINE agent_id (u64 (seq + 1)) ts name kv with
  | Some text => (text, u64 (seq + 1))
  | None => (build_event_json agent_id (u64 (seq + 2)) ts name kv, u64 (seq + 2))
  end.

(** ** What they write *)

(** Strings the fast path takes. *)
Definition plain (s : bytes) : bool := forallb (λ c, negb (ceq c "034" || ceq c "\" || (uchar c <? 32)%Z)) s.

Definition jesc_kv (kv : list (bytes * bytes)) : list (bytes * bytes) := (λ p, (jesc p.1, jesc p.2)) <$> kv.

Lemma plain_jesc s : plain s = true → jesc s = s.
Proof.
  induction s as [|c s IH]; [done|]. cbn. intros [Hc Hs]%andb_true_iff. bool_to_prop.
  unfold jesc_char. unfold ceq. rewrite bool_decide_eq_false_2 by done. rewrite bool_decide_eq_false_2 by done.
  match goal with H : (_ <? _)%Z = false |- _ => rewrite H end. cbn [orb app]. f_equal. by apply IH.
Qed.

Lemma app_str_spec cap s out :
  app_str cap s out =
  if plain s && (bool_decide (s = []) || (length out + length s <? cap)) then Some (out ++ s) else None.
Proof.
  revert out. induction s as [|c s IH]; intros out; [cbn; by rewrite app_nil_r|].
  cbn [app_str plain forallb]. rewrite bool_decide_eq_false_2 by done. cbn [orb].
  destruct (ceq c "034" || ceq c "\"); [done|]. destruct (uchar c <? 32)%Z; [done|]. cbn [orb negb andb].
  fold (plain s). rewrite IH, length_app. cbn [length]. rewrite <- app_assoc. cbn [app].
  destruct (plain s); cbn [andb]; [|by destruct (cap <=? length out + 1)].
  destruct (Nat.leb_spec cap (length out + 1)), (Nat.ltb_spec (length out + S (length s)) cap); try lia; try done.
  - rewrite (proj2 (Nat.ltb_lt _ _)) by lia. by rewrite orb_true_r.
  - destruct s; [cbn in *; lia|]. rewrite bool_decide_eq_false_2 by done.
    by rewrite (proj2 (Nat.ltb_ge _ _)) by (cbn in *; lia).
Qed.

Definition plain_kv (kv : list (bytes * bytes)) : bool := forallb (λ p, plain p.1 && plain p.2) kv.

Lemma app_str_some cap s out r : app_str cap s out = Some r → plain s = true ∧ r = out ++ s.
Proof. rewrite app_str_spec. destruct (plain s); [|done]. cbn [andb]. case_if; [|done]. by intros [= <-]. Qed.

Lemma app_str_fits cap s out : plain s = true → length out + length s < cap → app_str cap s out = Some (out ++ s).
Proof.
  intros Hp Hl. by rewrite app_str_spec, Hp, (proj2 (Nat.ltb_lt _ _) Hl), orb_true_r.
Qed.

Lemma room_some cap n out r : room cap n out = Some r → r = out ∧ length out + n < cap.
Proof. unfold room. destruct (Nat.leb_spec cap (length out + n)); [done|]. by intros [= <-]. Qed.

Lemma room_fits cap n out : length out + n < cap → room cap n out = Some out.
Proof. intros H. unfold room. by rewrite (proj2 (Nat.leb_gt _ _)). Qed.

Lemma format_attrs_some cap i kv out r :
  format_attrs cap i kv out = Some r → plain_kv kv = true ∧ r = out ++ attrs_text i kv.
Proof.
  revert i out. induction kv as [|[k v] kv IH]; intros i out; cbn [format_attrs plain_kv forallb attrs_text fst snd].
  { intros [= <-]. by rewrite app_nil_r. }
  intros H. apply bind_Some in H as (o1 & H1 & H).
  assert (o1 = out ++ (if i =? 0 then [] else lit ",")) as ->.
  { destruct (i =? 0); [injection H1 as <-; by rewrite app_nil_r|].
    apply fmap_Some in H1 as (o & Ho & ->). by apply room_some in Ho as [-> _]. }
  apply bind_Some in H as (o2 & [-> _]%room_some & H).
  apply bind_Some in H as (o3 & [Hk ->]%app_str_some & H).
  apply bind_Some in H as (o4 & [-> _]%room_some & H).
  apply bind_Some in H as (o5 & [Hv ->]%app_str_some & H).
  apply bind_Some in H as (o6 & [-> _]%room_some & H).
  apply IH in H as [Hkv ->]. rewrite Hk, Hv. split; [exact Hkv|]. by rewrite <- !app_assoc.
Qed.

Lemma format_attrs_fits cap i kv out :
  plain_kv kv = true → length out + length (attrs_text i kv) + 3 < cap →
  format_attrs cap i kv out = Some (out ++ attrs_text i kv).
Proof.
  revert i out. induction kv as [|[k v] kv IH]; intros i out; cbn [format_attrs plain_kv forallb attrs_text fst snd].
  { intros _ _. by rewrite app_nil_r. }
  intros [[Hk Hv]%andb_true_iff Hkv]%andb_true_iff Hl. rewrite !length_app in Hl.
  change (length (jlit "'")) with 1 in Hl. change (length (jlit "':'")) with 3 in Hl.
  replace (if i =? 0 then Some out else (λ o, o ++ lit ",") <$> room cap 2 out)
    with (Some (out ++ (if i =? 0 then [] else lit ","))).
  2: { revert Hl. destruct (i =? 0); intros Hl; [by rewrite app_nil_r|]. rewrite room_fits; [done|].
       change (length (lit ",")) with 1 in Hl. lia. }
  set (sep := if i =? 0 then [] else lit ",") in *. cbn [mbind option_bind].
  rewrite room_fits by (rewrite length_app; lia). cbn [mbind option_bind].
  rewrite app_str_fits by (done || rewrite !length_app; change (length (jlit "'")) with 1; lia). cbn [mbind option_bind].
  rewrite room_fits by (rewrite !length_app; change (length (jlit "'")) with 1; lia). cbn [mbind option_bind].
  rewrite app_str_fits by (done || rewrite !length_app; change (length (jlit "'")) with 1;
    change (length (jlit "':'")) with 3; lia). cbn [mbind option_bind].
  rewrite room_fits by (rewrite !length_app; change (length (jlit "'")) with 1;
    change (length (jlit "':'")) with 3; lia). cbn [mbind option_bind].
  rewrite IH; [by rewrite <- !app_assoc|done|]. rewrite !length_app. change (length (jlit "'")) with 1.
  change (length (jlit "':'")) with 3. lia.
Qed.

(** The fast path takes exactly the plain events that fit its buffer. *)
Lemma format_event_spec cap agent_id seq ts name kv :
  retrace_agent_format_event_stack cap agent_id seq ts name kv =
  if plain name && plain_kv kv && (length (event_text agent_id seq ts name kv) + 1 <? cap)
  then Some (event_text agent_id seq ts name kv) else None.
Proof.
  unfold retrace_agent_format_event_stack. set (head := event_head agent_id seq ts).
  destruct (_ && _) eqn:Hok.
  - bool_to_prop. apply Nat.ltb_lt in H0. unfold event_text in *. fold head in H0 |- *.
    rewrite !length_app in H0. change (length (jlit "','attrs':{")) with 11 in H0. change (length (lit "}}")) with 2 in H0.
    rewrite (proj2 (Nat.leb_gt _ _)) by lia. rewrite app_str_fits by (done || lia). cbn [mbind option_bind].
    rewrite room_fits by (rewrite length_app; lia). cbn [mbind option_bind].
    rewrite format_attrs_fits; [|done|rewrite !length_app; change (length (jlit "','attrs':{")) with 11; lia].
    cbn [mbind option_bind]. rewrite room_fits; [cbn [mbind option_bind]; by rewrite <- !app_assoc|].
    rewrite !length_app. change (length (jlit "','attrs':{")) with 11. lia.
  - destruct (Nat.leb_spec cap (length head)) as [|Hh]; [done|].
    destruct (_ ≫= _) as [r|] eqn:E; [|done]. exfalso.
    apply bind_Some in E as (o1 & [Hn ->]%app_str_some & E).
    apply bind_Some in E as (o2 & [-> _]%room_some & E).
    apply bind_Some in E as (o3 & [Hkv ->]%format_attrs_some & E).
    apply bind_Some in E as (o4 & [-> Hr]%room_some & E).
    rewrite Hn, Hkv in Hok. cbn [andb] in Hok. apply Nat.ltb_ge in Hok. unfold event_text in Hok. fold head in Hok.
    clearbody head. rewrite !length_app in Hok. rewrite !length_app in Hr. change (length (lit "}}")) with 2 in Hok. lia.
Qed.

Lemma append_at_spec total out o t s :
  0 < total → out = take (total - 1) t → o = Nat.min (length t) total → o < total →
  append_at total out o s = (take (total - 1) (t ++ s), Nat.min (length (t ++ s)) total).
Proof.
  intros Ht -> -> Ho. unfold append_at. rewrite Nat.min_l in * by lia. rewrite length_app. f_equal.
  rewrite (firstn_all2 t) by lia. rewrite take_app_ge by lia. f_equal. f_equal. lia.
Qed.

Lemma build_attrs_spec total i kv out o t :
  0 < total → out = take (total - 1) t → o = Nat.min (length t) total →
  build_attrs total i kv out o =
  (take (total - 1) (t ++ attrs_text i (jesc_kv kv)), Nat.min (length (t ++ attrs_text i (jesc_kv kv))) total).
Proof.
  intros Ht. revert i out o t. induction kv as [|[k v] kv IH]; intros i out o t Hout Ho;
    cbn [build_attrs jesc_kv fmap list_fmap attrs_text fst snd].
  { rewrite app_nil_r. by subst. }
  destruct (Nat.ltb_spec o total) as [Hlt|Hge].
  - rewrite (append_at_spec total out o t) by done. rewrite (IH _ _ _ _ eq_refl eq_refl).
    unfold jesc_kv. by rewrite <- !app_assoc.
  - assert (total ≤ length t) by lia. subst. rewrite take_app_le by lia.
    rewrite length_app, !Nat.min_r by lia. done.
Qed.

(** The heap path writes the escaped text, cut where its room ends. *)
Lemma build_event_spec agent_id seq ts name kv :
  build_event_json agent_id seq ts name kv =
  take (event_total (jesc name) kv - 1) (event_text agent_id seq ts (jesc name) (jesc_kv kv)).
Proof.
  unfold build_event_json. set (total := event_total (jesc name) kv).
  assert (0 < total) as Ht by (unfold total, event_total; lia).
  rewrite (append_at_spec total [] 0 []) by (rewrite ?take_nil; done). cbn [app].
  set (t := event_head agent_id seq ts ++ jesc name ++ jlit "','attrs':{").
  rewrite (build_attrs_spec total 0 kv _ _ t) by done.
  assert (event_text agent_id seq ts (jesc name) (jesc_kv kv) = (t ++ attrs_text 0 (jesc_kv kv)) ++ lit "}}") as ->
    by (unfold event_text, t; by rewrite <- !app_assoc).
  set (t1 := t ++ attrs_text 0 (jesc_kv kv)). clearbody t1 total.
  destruct (Nat.ltb_spec (Nat.min (length t1) total) total) as [Hlt|Hge].
  - by rewrite (append_at_spec total _ _ t1).
  - assert (total ≤ length t1) by lia. by rewrite take_app_le by lia.
Qed.

(** ** What the daemon reads *)

Definition jesc_facts (c : ascii) : bool :=
  ceq c NUL || (reads_as (jesc_char c) c && forallb (λ c, negb (ceq c NL) && negb (ceq c NUL)) (jesc_char c)).

Lemma jesc_facts_all c : jesc_facts c = true.
Proof. destruct c as [[] [] [] [] [] [] [] []]; vm_compute; reflexivity. Qed.

Lemma jesc_writes s : no_nul s → writes jesc_char s.
Proof.
  intros Hs. eapply Forall_impl; [exact Hs|]. intros c Hc. split; [|done].
  pose proof (jesc_facts_all c) as F. unfold jesc_facts in F. rewrite (proj2 (ceq_false _ _) Hc) in F.
  cbn [orb] in F. by apply andb_true_iff in F as [F _].
Qed.

Lemma jesc_one_line s : no_nul s → one_line (jesc s).
Proof.
  induction 1 as [|c s Hc _ IH]; [constructor|]. cbn [jesc map concat]. apply Forall_app. split; [|exact IH].
  pose proof (jesc_facts_all c) as F. unfold jesc_facts in F. rewrite (proj2 (ceq_false _ _) Hc) in F.
  cbn [orb] in F. apply andb_true_iff in F as [_ F]. apply Forall_forall. intros x Hx.
  apply (proj1 (forallb_forall _ _)) with (x := x) in F; [|by apply list_elem_of_In]. by bool_to_prop.
Qed.

Lemma raw_plain s : raw_text s → plain s = true.
Proof.
  induction 1 as [|c s [Hc _] _ IH]; [done|]. cbn [plain forallb]. fold (plain s). rewrite IH, andb_true_r.
  clear -Hc. destruct c as [[] [] [] [] [] [] [] []]; by vm_compute in Hc |- *.
Qed.

(** The members of an event as the daemon reads them. *)
Definition event_object (agent_id : bytes) (dseq dts : double) (name : bytes) (kv : list (bytes * bytes)) : JSON_Object :=
  [(lit "agent_id", JSONString agent_id); (lit "seq", JSONNumber dseq); (lit "ts", JSONNumber dts);
   (lit "name", JSONString name);
   (lit "attrs", JSONObject ((λ p, (p.1, JSONString p.2)) <$> kv))].

Definition attr_fields (kv : list (bytes * bytes)) : list jfield :=
  (λ p, mkField p.1 (quoted jesc_char p.2) (JSONString p.2)) <$> kv.

Lemma attrs_join kv i :
  Forall (λ p, raw_text p.1) kv →
  attrs_text i (jesc_kv kv) = (if (i =? 0) || bool_decide (kv = []) then [] else lit ",") ++ join_fields (attr_fields kv).
Proof.
  intros H. revert i. induction H as [|[k v] kv Hk _ IH]; intros i; [by rewrite orb_true_r|].
  cbn [jesc_kv fmap list_fmap attrs_text fst snd attr_fields]. fold (jesc_kv kv). fold (attr_fields kv).
  rewrite IH, orb_false_r by done. cbn [fst] in Hk. rewrite (plain_jesc k) by (by apply raw_plain).
  f_equal. destruct kv as [|p kv]; cbn [attr_fields fmap list_fmap join_fields]; unfold field_text;
    cbn [f_key f_text]; rewrite (raw_string k) by done; unfold quoted; rewrite <- !app_assoc.
  - rewrite !app_nil_r. done.
  - done.
Qed.

Section reading.
Context {DT : DoubleText} {IT : IntText}.

(** The events the target can emit: keys are names, and no two are the same. *)
Record wf_emit (agent_id : bytes) (seq ts : Z) (name : bytes) (kv : list (bytes * bytes)) : Prop := mkWfEmit {
  we_id : raw_text agent_id;
  we_seq : (0 ≤ seq < 2 ^ 64)%Z;
  we_ts : (0 ≤ ts < 2 ^ 63)%Z;
  we_name : no_nul name;
  we_kv : Forall (λ p, raw_text p.1 ∧ no_nul p.2) kv;
  we_keys : NoDup (map fst kv);
}.

Lemma attrs_read kv :
  Forall (λ p, raw_text p.1 ∧ no_nul p.2) kv → NoDup (map fst kv) →
  reads (JSONObject ((λ p, (p.1, JSONString p.2)) <$> kv)) (lit "{" ++ attrs_text 0 (jesc_kv kv) ++ lit "}").
Proof.
  intros Hkv Hnd. rewrite attrs_join by (eapply Forall_impl; [exact Hkv|by intros p [? _]]). cbn [Nat.eqb orb app].
  replace ((λ p : bytes * bytes, (p.1, JSONString p.2)) <$> kv) with (fields_object (attr_fields kv))
    by (unfold fields_object, attr_fields; rewrite <- list_fmap_compose; done).
  apply fields_read.
  - unfold attr_fields. rewrite map_map. done.
  - apply Forall_fmap. eapply Forall_impl; [exact Hkv|]. intros p [Hk Hv]. cbn.
    split; [by apply raw_no_nul|]. by apply written_reads, jesc_writes.
Qed.

Lemma event_reads agent_id seq ts name kv :
  wf_emit agent_id seq ts name kv →
  ∃ dseq dts, ((seq ≤ 2 ^ 53)%Z → d_trunc dseq = seq) ∧
    reads (JSONObject (event_object agent_id dseq dts name kv))
          (event_text agent_id seq ts (jesc name) (jesc_kv kv)).
Proof.
  intros [Hid Hseq Hts Hname Hkv Hnd].
  destruct (int_reads seq Hseq) as (dseq & Rseq & Hd). destruct (int_reads ts) as (dts & Rts & _); [lia|].
  exists dseq, dts. split; [done|].
  set (fs := [mkField (lit "agent_id") (json_serialize_string agent_id) (JSONString agent_id);
    mkField (lit "seq") (fmt_llu seq) (JSONNumber dseq); mkField (lit "ts") (fmt_llu ts) (JSONNumber dts);
    mkField (lit "name") (quoted jesc_char name) (JSONString name);
    mkField (lit "attrs") (lit "{" ++ attrs_text 0 (jesc_kv kv) ++ lit "}")
      (JSONObject ((λ p, (p.1, JSONString p.2)) <$> kv))]).
  assert (reads (JSONObject (fields_object fs)) (lit "{" ++ join_fields fs ++ lit "}")) as Hr.
  { apply fields_read.
    - apply (bool_decide_eq_true_1 _). vm_compute. reflexivity.
    - unfold fs. repeat apply Forall_cons_2; [..|apply Forall_nil_2]; (split; [by repeat constructor|]); cbn [f_value f_text].
      + by apply string_reads, raw_no_nul.
      + exact Rseq.
      + exact Rts.
      + by apply written_reads, jesc_writes.
      + by apply attrs_read. }
  replace (event_text agent_id seq ts (jesc name) (jesc_kv kv)) with (lit "{" ++ join_fields fs ++ lit "}"); [exact Hr|].
  unfold fs, event_text, event_head, fmt_ld. cbn [join_fields]. unfold field_text. cbn [f_key f_text].
  rewrite (proj2 (Z.ltb_ge _ _)) by lia. rewrite (raw_string agent_id) by done. unfold quoted.
  rewrite <- !app_assoc. reflexivity.
Qed.

Lemma emitted_one_line agent_id seq ts name kv :
  wf_emit agent_id seq ts name kv → one_line (event_text agent_id seq ts (jesc name) (jesc_kv kv)).
Proof.
  intros [Hid Hseq Hts Hname Hkv _]. unfold event_text, event_head, fmt_ld.
  rewrite (proj2 (Z.ltb_ge _ _)) by lia.
  assert (∀ i, one_line (attrs_text i (jesc_kv kv))) as Hattrs.
  { clear -Hkv. induction Hkv as [|[k v] kv [Hk Hv] _ IH]; intros i; [constructor|].
    cbn [jesc_kv fmap list_fmap attrs_text fst snd] in *. fold (jesc_kv kv). unfold one_line in *. rewrite !Forall_app.
    split_and!; try (by repeat constructor); try apply IH.
    - destruct (i =? 0); by repeat constructor.
    - apply jesc_one_line. by apply raw_no_nul.
    - by apply jesc_one_line. }
  unfold one_line in *. rewrite !Forall_app.
  split_and!; try (by repeat constructor); try (by apply raw_one_line);
    try (apply raw_one_line, digits_raw; lia); try (by apply jesc_one_line); apply Hattrs.
Qed.

(** What an emission writes: the event with its strings escaped, under the
    number the counter is left at. *)
Lemma emit_payload_text agent_id seq ts name kv :
  let '(payload, seq') := emit_payload agent_id seq ts name kv in
  length (event_text agent_id seq' ts (jesc name) (jesc_kv kv)) < event_total (jesc name) kv →
  payload = event_text agent_id seq' ts (jesc name) (jesc_kv kv).
Proof.
  unfold emit_payload. rewrite format_event_spec. destruct (_ && _) eqn:E; intros Hl.
  - bool_to_prop. rewrite plain_jesc by done. f_equal. clear -H1. unfold plain_kv in H1.
    induction kv as [|[k v] kv IH]; [done|]. cbn [forallb fst snd] in H1. bool_to_prop.
    cbn [jesc_kv fmap list_fmap fst snd]. rewrite !plain_jesc by done. f_equal. by apply IH.
  - rewrite build_event_spec. apply firstn_all2. lia.
Qed.

Lemma event_depth agent_id dseq dts name kv :
  json_depth (JSONObject (event_object agent_id dseq dts name kv)) ≤ MAX_NESTING.
Proof.
  rewrite depth_object. set (attrs := (λ p : bytes * bytes, (p.1, JSONString p.2)) <$> kv).
  change (members_depth _) with
    (Nat.max 1 (Nat.max 1 (Nat.max 1 (Nat.max 1 (Nat.max (json_depth (JSONObject attrs)) 0))))).
  rewrite depth_object.
  assert (members_depth attrs ≤ 1).
  { clear. unfold attrs. clear attrs. unfold members_depth, items_depth. induction kv as [|p kv IH]; cbn in *; lia. }
  unfold MAX_NESTING. lia.
Qed.

(** What the agent emits for an event is one line that the
    daemon's parser reads as the event: its number, its name and its attributes
    with every character of their values, whichever of the two paths wrote it,
    as long as the heap path has the room the escaped text needs. *)
Theorem agent_event_round_trip agent_id seq ts name kv :
  let '(payload, seq') := emit_payload agent_id seq ts name kv in
  wf_emit agent_id seq' ts name kv →
  length (event_text agent_id seq' ts (jesc name) (jesc_kv kv)) < event_total (jesc name) kv →
  one_line payload ∧
  ∃ dseq dts, ((seq' ≤ 2 ^ 53)%Z → d_trunc dseq = seq') ∧
    json_parse_string payload = Some (JSONObject (event_object agent_id dseq dts name kv)).
Proof.
  pose proof (emit_payload_text agent_id seq ts name kv) as Ht.
  destruct (emit_payload agent_id seq ts name kv) as [payload seq']. intros Hwf Hl. rewrite (Ht Hl). clear Ht Hl.
  split; [by apply emitted_one_line|]. destruct (event_reads agent_id seq' ts name kv Hwf) as (dseq & dts & Hd & Hr).
  exists dseq, dts. split; [done|]. rewrite <- (app_nil_r (event_text _ _ _ _ _)). apply reads_parse; [done|done|].
  apply Nat.le_le_succ_r, event_depth.
Qed.

End reading.

(** ** Concrete events *)

Lemma agent_event_round_trip_witness :
  let kv := [(lit "func", lit "open"); (lit "path", lit "/etc/a" ++ ["034"; "010"]%char)] in
  let payload := fst (emit_payload (lit "boot.7.1") 4 1700000000 (lit "retrace.jail.denied") kv) in
  one_line payload ∧
  ∃ dseq dts, ((6 ≤ 2 ^ 53)%Z → d_trunc dseq = 6%Z) ∧
    json_parse_string (DT := whole_numbers) payload
    = Some (JSONObject (event_object (lit "boot.7.1") dseq dts (lit "retrace.jail.denied") kv)).
Proof.
  pose proof (agent_event_round_trip (DT := whole_numbers) (lit "boot.7.1") 4 1700000000 (lit "retrace.jail.denied")
    [(lit "func", lit "open"); (lit "path", lit "/etc/a" ++ ["034"; "010"]%char)]) as H.
  replace (emit_payload _ _ _ _ _) with
    (fst (emit_payload (lit "boot.7.1") 4 1700000000 (lit "retrace.jail.denied")
       [(lit "func", lit "open"); (lit "path", lit "/etc/a" ++ ["034"; "010"]%char)]), 6%Z) in H
    by (vm_compute; reflexivity).
  apply H.
  - split; try lia; try (by repeat constructor). apply (bool_decide_eq_true_1 _). vm_compute. reflexivity.
  - vm_compute. lia.
Defined.

(** A value whose escapes outgrow the room of the heap path: the text is cut and
    the daemon does not read it. *)
Lemma escaped_event_lost :
  json_parse_string (DT := whole_numbers)
    (fst (emit_payload (lit "pending") 0 1700000000 (lit "retrace.jail.denied") [(lit "path", repeat "034"%char 140)]))
  = None.
Proof. vm_compute. reflexivity. Qed.

(** An event of the heap path takes two numbers: the daemon sees a gap. *)
Lemma heap_event_skips_number :
  snd (emit_payload (lit "pending") 0 1700000000 (lit "call") [(lit "path", ["034"%char])]) = 2%Z.
Proof. vm_compute. reflexivity. Qed.

End AgentEvent.
