(* ===== verification/Agent.v ===== *)
(** * The supervisor agent

    [src/supervisor/agent_posix.c], the consumer's half and the entry points:
    the queue in front of the connection, the frames of the daemon, policies,
    the session token, the turn of the agent thread and fork. The socket is a
    function from what was sent to the result of the next send. The events a
    drain sends are the events queued, in order; the policy in force only grows
    in its epoch and is the one the configuration cache serves. *)

From S2P Require Import Prelude Numerals Libc Stdio Json JsonText JsonRoundTrip ConfigCache Redact Rpc.
From S2P Require Import AgentRing PolicySig AgentEvent.

Module Agent.

Import Libc Stdio Json JsonText PolicySig AgentEvent.

Definition AGENT_BACKOFF_MIN_MS : Z := 500.
Definition AGENT_BACKOFF_MAX_MS : Z := 30000.

(** The inbound buffer: a header and 4096 bytes. *)
Definition RBUF_SIZE : Z := Z.of_nat Rpc.RETRACE_RPC_HEADER_SZ + 4096.

Section agent.
Context {EVP_PKEY : Type}.
Context (pem_file : bytes → option (option EVP_PKEY)) (pem_bio : bytes → option EVP_PKEY).
Context (decode_block : bytes → option bytes) (digest_verify : EVP_PKEY → bytes → bytes → bool).
Context (out_of_range : double → Z).
Context {DT : DoubleText}.

(** [send]: the number of bytes taken, or an error, after the bytes sent on this
    connection. *)
Context (rc_send : bytes → bytes → Z).

(** ** State *)

(** [struct agent_state] with the configuration in force, the pinned keys and
    the session token of the environment. [wire] is what this connection has
    taken. *)
Record agent_state := mkAgent {
  armed : bool;
  agent_id : bytes;
  ring : AgentRing.agent_ring;
  mem : AgentRing.Mem;
  drops_reported : Z;
  seq : Z;
  policy_epoch : Z;
  thread_spawned : bool;
  stop : bool;
  fd : bool;
  connected : bool;
  spawner_pid : Z;
  rbuf : bytes;
  retrace_conf : option JSON_Object;
  g_snap : option ConfigCache.cache_snap;
  pins : Pins (EVP_PKEY := EVP_PKEY);
  session : option bytes;
  wire : bytes;
}.

Definition set_ring (rm : AgentRing.agent_ring * AgentRing.Mem) (a : agent_state) : agent_state :=
  mkAgent (armed a) (agent_id a) rm.1 rm.2 (drops_reported a) (seq a) (policy_epoch a) (thread_spawned a) (stop a)
    (fd a) (connected a) (spawner_pid a) (rbuf a) (retrace_conf a) (g_snap a) (pins a) (session a) (wire a).

Definition set_drops (n : Z) (a : agent_state) : agent_state :=
  mkAgent (armed a) (agent_id a) (ring a) (mem a) n (seq a) (policy_epoch a) (thread_spawned a) (stop a)
    (fd a) (connected a) (spawner_pid a) (rbuf a) (retrace_conf a) (g_snap a) (pins a) (session a) (wire a).

Definition set_seq (n : Z) (a : agent_state) : agent_state :=
  mkAgent (armed a) (agent_id a) (ring a) (mem a) (drops_reported a) n (policy_epoch a) (thread_spawned a) (stop a)
    (fd a) (connected a) (spawner_pid a) (rbuf a) (retrace_conf a) (g_snap a) (pins a) (session a) (wire a).

Definition set_policy (root : option JSON_Object) (snap : option ConfigCache.cache_snap) (epoch : Z)
    (g : Pins) (a : agent_state) : agent_state :=
  mkAgent (armed a) (agent_id a) (ring a) (mem a) (drops_reported a) (seq a) epoch (thread_spawned a) (stop a)
    (fd a) (connected a) (spawner_pid a) (rbuf a) root snap g (session a) (wire a).

Definition set_identity (id : bytes) (s : option bytes) (a : agent_state) : agent_state :=
  mkAgent (armed a) id (ring a) (mem a) (drops_reported a) (seq a) (policy_epoch a) (thread_spawned a) (stop a)
    (fd a) (connected a) (spawner_pid a) (rbuf a) (retrace_conf a) (g_snap a) (pins a) s (wire a).

Definition set_conn (f c : bool) (buf w : bytes) (a : agent_state) : agent_state :=
  mkAgent (armed a) (agent_id a) (ring a) (mem a) (drops_reported a) (seq a) (policy_epoch a) (thread_spawned a) (stop a)
    f c (spawner_pid a) buf (retrace_conf a) (g_snap a) (pins a) (session a) w.

Definition set_thread (spawned halt : bool) (pid : Z) (a : agent_state) : agent_state :=
  mkAgent (armed a) (agent_id a) (ring a) (mem a) (drops_reported a) (seq a) (policy_epoch a) spawned halt
    (fd a) (connected a) pid (rbuf a) (retrace_conf a) (g_snap a) (pins a) (session a) (wire a).

(** ** The producer *)

(** The result of an allocation is given with the call. *)
Definition queue_push (malloc_ok : bool) (item : bytes + bytes) (a : agent_state) : option (Z * agent_state) :=
  match item with
  | inl buf =>
      '(rc, rm) ← AgentRing.agent_ring_push_copy malloc_ok (ring a) (mem a) buf (length buf);
      Some (rc, set_ring rm a)
  | inr heap =>
      let '(p, m) := AgentRing.malloc (heap ++ [NUL]) (mem a) in
      '(rc, rm) ← AgentRing.agent_ring_push_heap (ring a) m p (length heap);
      Some (rc, set_ring rm a)
  end.

(** [create_ok] is the result of [rc_thread_create]. *)
Definition spawn_agent_thread (pid : Z) (create_ok : bool) (a : agent_state) : Z * agent_state :=
  if thread_spawned a then (0%Z, a)
  else if create_ok then (0%Z, set_thread true (stop a) pid a)
  else ((-1)%Z, set_thread false (stop a) pid a).

Definition clear_ring (r : AgentRing.agent_ring) : AgentRing.agent_ring :=
  AgentRing.mkRing (AgentRing.slots r) (AgentRing.head r) 0 (AgentRing.dropped r).

(** The reset of an agent that was inherited over a fork. *)
Definition adopt (pid : Z) (a : agent_state) : agent_state :=
  if thread_spawned a && negb (spawner_pid a =? pid)%Z then
    set_thread true false pid
      (set_identity (lit "pending") (session a)
         (set_ring (clear_ring (ring a), mem a) (set_conn false false [] [] a)))
  else a.

Definition redacted (table : list bytes) (text : bytes) : bytes :=
  if Redact.retrace_redact_active table then default text (Redact.retrace_redact_apply table (Some text)) else text.

(** [kv] is nothing for a null pointer with a count; [build_ok] whether the heap
    path gets its memory. *)
Definition retrace_agent_emit_event (table : list bytes) (ts pid : Z) (malloc_ok build_ok create_ok : bool)
    (name : option bytes) (kv : option (list (bytes * bytes))) (a : agent_state) : option (Z * agent_state) :=
  match name with
  | None => Some ((-1)%Z, a)
  | Some name =>
      if negb (armed a) then Some (0%Z, a)
      else
        match kv with
        | None => Some ((-1)%Z, a)
        | Some kv =>
            let seq1 := u64 (seq a + 1) in
            let adopted a :=
              let '(rc, a) := spawn_agent_thread pid create_ok (adopt pid a) in Some (rc, a) in
            match retrace_agent_format_event_stack AGENT_EVENT_INLINE (agent_id a) seq1 ts name kv with
            | Some text =>
                '(_, a) ← queue_push malloc_ok (inl (redacted table text)) (set_seq seq1 a);
                adopted a
            | None =>
                if build_ok then
                  let seq2 := u64 (seq1 + 1) in
                  let payload := build_event_json (agent_id a) seq2 ts name kv in
                  '(_, a) ← queue_push malloc_ok (inr (redacted table payload)) (set_seq seq2 a);
                  adopted a
                else Some ((-1)%Z, set_seq seq1 a)
            end
        end
  end.

(** ** The connection *)

Definition sock_write (out : bytes) (a : agent_state) : Z * agent_state :=
  let n := rc_send (wire a) out in
  (n, if (n <=? 0)%Z then a else set_conn (fd a) (connected a) (rbuf a) (wire a ++ take (Z.to_nat n) out) a).

Definition send_frame (type : Z) (payload : option bytes) (a : agent_state) : Z * agent_state :=
  let plen := Nat.min (length (default [] payload)) 2048 in
  match Rpc.retrace_rpc_frame_encode (Some (Z.of_nat Rpc.RETRACE_RPC_HEADER_SZ + 2048)%Z)
          Rpc.RETRACE_RPC_VERSION type payload (Z.of_nat plen) with
  | inl _ => ((-1)%Z, a)
  | inr out =>
      let '(n, a) := sock_write (take (Rpc.RETRACE_RPC_HEADER_SZ + plen) out) a in
      if (n <=? 0)%Z then ((-1)%Z, a) else (0%Z, a)
  end.

Definition drop_connection (a : agent_state) : agent_state := set_conn false false [] (wire a) a.

(** ** Policies *)

(** [pubkey] is RETRACE_SUPERVISOR_PUBKEY; the allocations of the cache are given
    with the call. The reason is empty for a policy that is in force. *)
Definition retrace_agent_policy_apply (pubkey : option bytes) (now : Z) (snap_alloc buckets_alloc : bool)
    (payload : bytes) (a : agent_state) : option (Z * string * agent_state) :=
  let '(v, g) := retrace_policy_validate pem_file pem_bio decode_block digest_verify out_of_range pubkey (pins a)
                   (Some payload) (policy_epoch a) now in
  let keep := set_policy (retrace_conf a) (g_snap a) (policy_epoch a) g a in
  match v with
  | Refused reason => Some ((-1)%Z, reason, keep)
  | Held => Some (0%Z, EmptyString, keep)
  | Policy root epoch =>
      '(rc, snap) ← ConfigCache.retrace_config_cache_build snap_alloc buckets_alloc (Some root) (g_snap a);
      if (rc =? 0)%Z then Some (0%Z, EmptyString, set_policy (Some root) snap epoch g a)
      else Some ((-1)%Z, "cache rebuild failed"%string, set_policy (retrace_conf a) snap (policy_epoch a) g a)
  end.

Definition ack_text (applied : bool) (reason : bytes) (a : agent_state) : bytes :=
  jlit "{'agent_id':'" ++ agent_id a ++ jlit "','policy_epoch':" ++ fmt_llu (policy_epoch a) ++
  jlit ",'applied':" ++ (if applied then lit "true" else lit "false") ++ jlit ",'reason':'" ++
  (if applied then [] else if decide (reason = []) then lit "refused" else reason) ++ jlit "'}".

Definition send_policy_ack (applied : bool) (reason : bytes) (a : agent_state) : agent_state :=
  (send_frame Rpc.RETRACE_RPC_MSG_POLICY_ACK (Some (snprintf 320 (ack_text applied reason a))) a).2.

(** ** Frames of the daemon *)

Definition jscan_str (payload key : bytes) (cap : nat) : bytes :=
  let tag := snprintf 48 (jlit "'" ++ key ++ jlit "':'") in
  match strstr payload tag with
  | None => []
  | Some s =>
      let s := drop (length tag) s in
      match strchr s "034" with
      | None => []
      | Some e => take (Nat.min (length s - length e) (cap - 1)) s
      end
  end.

(** The payload of a frame as a string in a buffer of [cap] bytes. *)
Definition frame_string (cap : nat) (fr : Rpc.retrace_rpc_frame) (buf : bytes) : bytes :=
  cstr (take (Nat.min (Z.to_nat (Rpc.len fr)) (cap - 1)) (drop Rpc.RETRACE_RPC_HEADER_SZ buf)).

(** [setenv_ok] is whether the real [setenv] was resolved. *)
Definition join_session (setenv_ok : bool) (token : bytes) (cur : option bytes) : option bytes :=
  if negb (bool_decide (token = [])) && setenv_ok &&
     match cur with None => true | Some c => bool_decide (c = []) || negb (streq c token) end
  then Some token else cur.

(** What a frame finds when it is handled: the environment, the time and the
    allocator. *)
Record Env := mkEnv {
  pubkey : option bytes;
  setenv_ok : bool;
  now : Z;
  snap_alloc : bool;
  buckets_alloc : bool;
}.

Definition handle_frame (env : Env) (buf : bytes) (a : agent_state) : option agent_state :=
  match Rpc.retrace_rpc_frame_decode (Some buf) with
  | inl _ => Some a
  | inr fr =>
      let whole := (Z.of_nat Rpc.RETRACE_RPC_HEADER_SZ + Rpc.len fr <=? Z.of_nat (length buf))%Z in
      if (Rpc.type fr =? Rpc.RETRACE_RPC_MSG_WELCOME)%Z && whole then
        let payload := frame_string 512 fr buf in
        let id := jscan_str payload (lit "agent_id") 96 in
        let token := jscan_str payload (lit "session_token") 80 in
        Some (set_identity id (join_session (setenv_ok env) token (session a)) a)
      else if (Rpc.type fr =? Rpc.RETRACE_RPC_MSG_POLICY_SET)%Z && whole then
        '(_, reason, a) ← retrace_agent_policy_apply (pubkey env) (now env) (snap_alloc env) (buckets_alloc env)
                            (frame_string 4096 fr buf) a;
        let reason := snprintf 96 (lit reason) in
        Some (send_policy_ack (bool_decide (reason = [])) reason a)
      else if (Rpc.type fr =? Rpc.RETRACE_RPC_MSG_PING)%Z then
        Some (send_frame Rpc.RETRACE_RPC_MSG_PING (Some (lit "{}")) a).2
      else Some a
  end.

Definition hello_text (a : agent_state) (nonce : option bytes) (pid ppid : Z) : bytes :=
  jlit "{'session_token':'" ++ default [] (session a) ++ jlit "','nonce':'" ++ default [] nonce ++
  jlit "','pid':" ++ fmt_ld pid ++ jlit ",'ppid':" ++ fmt_ld ppid ++
  jlit ",'boot_id':'proc','cmdline':'','retrace_version':'agent'}".

(** [connect_ok] is the result of the socket and its connection, a new stream. *)
Definition try_connect (connect_ok : bool) (nonce : option bytes) (pid ppid : Z) (a : agent_state) : Z * agent_state :=
  if negb connect_ok then ((-1)%Z, a)
  else
    let a := set_conn true (connected a) (rbuf a) [] a in
    let '(rc, a) := send_frame Rpc.RETRACE_RPC_MSG_HELLO (Some (snprintf 512 (hello_text a nonce pid ppid))) a in
    if (rc =? 0)%Z then (0%Z, a) else ((-1)%Z, drop_connection a).

(** ** The queue on the wire *)

(** The events queued, oldest first, until one cannot be sent; each is released
    after it is sent. *)
Fixpoint drain_loop (fuel : nat) (a : agent_state) : option (bool * agent_state) :=
  match fuel with
  | O => None
  | S fuel =>
      view ← AgentRing.agent_ring_peek (ring a) (mem a);
      match view with
      | None => Some (true, a)
      | Some (item, _) =>
          let '(rc, a) := send_frame Rpc.RETRACE_RPC_MSG_EVENT (Some (cstr item)) a in
          if (rc =? 0)%Z then
            rm ← AgentRing.agent_ring_pop (ring a) (mem a);
            drain_loop fuel (set_ring rm a)
          else Some (false, drop_connection a)
      end
  end.

Definition drop_marker (ts : Z) (a : agent_state) : bytes :=
  let total := AgentRing.dropped (ring a) in
  jlit "{'agent_id':'" ++ agent_id a ++ jlit "','seq':0,'ts':" ++ fmt_ld ts ++
  jlit ",'name':'retrace.agent.dropped','attrs':{'count':'" ++ fmt_llu (u64 (total - drops_reported a)) ++
  jlit "','total':'" ++ fmt_llu total ++ jlit "'}}}}".

Definition drain_queue (ts : Z) (a : agent_state) : option agent_state :=
  '(all, a) ← drain_loop (S (AgentRing.count (ring a))) a;
  if all && negb (AgentRing.dropped (ring a) =? drops_reported a)%Z then
    '(rc, a') ← queue_push true (inl (snprintf 176 (drop_marker ts a))) a;
    Some (if (rc =? 0)%Z then set_drops (AgentRing.dropped (ring a)) a' else a')
  else Some a.

(** ** The turn of the agent thread *)

(** One turn of the loop: whether the connection opens if there is none, the
    bytes the daemon has sent when the socket is readable, and the environment.
    The second result is the bytes that were not read; the third whether the
    turn ends in a pause. *)
Definition heartbeat_text (a : agent_state) : bytes :=
  jlit "{'agent_id':'" ++ agent_id a ++ jlit "','seq':" ++ fmt_llu (seq a) ++ jlit "}".

Definition read_frames (env : Env) (avail : bytes) (a : agent_state) : option (agent_state * bytes) :=
  let chunk := take (Z.to_nat (RBUF_SIZE - Z.of_nat (length (rbuf a)))) avail in
  if decide (chunk = []) then Some (drop_connection a, avail)
  else
    let '(a', buf) := Rpc.conn_frames (λ a _ b, a ≫= handle_frame env b) true chunk (Some a, rbuf a) in
    a' ← a';
    Some (set_conn (fd a') (connected a') buf (wire a') a', drop (length chunk) avail).

Definition heartbeat (a : agent_state) : agent_state :=
  if connected a then
    let '(rc, a) := send_frame Rpc.RETRACE_RPC_MSG_HEARTBEAT (Some (snprintf 256 (heartbeat_text a))) a in
    if (rc =? 0)%Z then a else drop_connection a
  else a.

Definition agent_turn (env : Env) (connect_ok : bool) (nonce : option bytes) (pid ppid : Z)
    (readable : option bytes) (backoff : Z) (a : agent_state) : option (agent_state * Z * bytes) :=
  let '(rc, a, backoff) :=
    if connected a then (0%Z, a, backoff)
    else
      let '(rc, a) := try_connect connect_ok nonce pid ppid a in
      if (rc =? 0)%Z then (0%Z, set_conn (fd a) true (rbuf a) (wire a) a, AGENT_BACKOFF_MIN_MS)
      else (rc, a, Z.min (backoff * 2) AGENT_BACKOFF_MAX_MS) in
  if negb (rc =? 0)%Z then Some (a, backoff, default [] readable)
  else
    a ← drain_queue (now env) a;
    match readable with
    | Some avail =>
        if fd a then '(a, rest) ← read_frames env avail a; Some (heartbeat a, backoff, rest)
        else Some (heartbeat a, backoff, avail)
    | None => Some (heartbeat a, backoff, [])
    end.

(** The end of the thread: a last drain and the farewell. *)
Definition bye_text (a : agent_state) : bytes := jlit "{'agent_id':'" ++ agent_id a ++ jlit "'}".

Definition agent_finish (connect_ok : bool) (nonce : option bytes) (pid ppid ts : Z) (a : agent_state)
    : option agent_state :=
  let a := if connected a then a else
             let '(rc, a) := try_connect connect_ok nonce pid ppid a in
             if (rc =? 0)%Z then set_conn (fd a) true (rbuf a) (wire a) a else a in
  a ← (if connected a then drain_queue ts a else Some a);
  Some (if connected a then (send_frame Rpc.RETRACE_RPC_MSG_BYE (Some (snprintf 128 (bye_text a))) a).2 else a).

(** ** Fork, start and end *)

Definition agent_atfork_child (a : agent_state) : agent_state :=
  set_thread false false (spawner_pid a)
    (set_identity (lit "pending") (session a)
       (set_ring (clear_ring (ring a), mem a) (set_conn false false [] (wire a) a))).

(** The environment variables are RETRACE_SUPERVISOR and
    RETRACE_SUPERVISOR_PUBKEY; the state is zeroed first. *)
Definition retrace_agent_init (supervisor pubkey : option bytes) (a : agent_state) : agent_state :=
  let g := (retrace_policy_sig_init pem_file pem_bio pubkey (pins a)).2 in
  let on := match supervisor with Some e => ceq (deref e) "1" | None => false end in
  mkAgent on (if on then lit "pending" else []) AgentRing.agent_ring_init (mem a) 0 0 0 false false false false 0 []
    (retrace_conf a) (g_snap a) g (session a) [].

(** The flag of the first dispatch, and whether the agent is to start early. *)
Definition retrace_agent_kick (kick_done eager_wanted : bool) (pid : Z) (create_ok : bool) (a : agent_state)
    : bool * agent_state :=
  if kick_done then (true, a)
  else if negb (armed a) || negb eager_wanted then (true, a)
  else if thread_spawned a then (true, a)
  else (true, (spawn_agent_thread pid create_ok a).2).

Definition retrace_agent_deinit (a : agent_state) : agent_state :=
  if negb (armed a) then a
  else if negb (thread_spawned a) then a
  else set_thread true true (spawner_pid a) a.

(** ** The policy in force *)

(** The cache serves the scripts of the configuration. *)
Definition served (a : agent_state) : Prop :=
  ∃ scripts, json_object_get_array (retrace_conf a) "intercept_scripts" = Some scripts ∧
    ∀ name, ConfigCache.retrace_config_cache_lookup (g_snap a) (Some name)
            = Some (ConfigCache.first_of (ConfigCache.cached scripts) name).

(** A turn of policies: nothing changes, or a newer policy that has not expired
    takes the place of the one in force. *)
Definition policy_kept (a a' : agent_state) : Prop :=
  policy_epoch a' = policy_epoch a ∧ retrace_conf a' = retrace_conf a ∧ g_snap a' = g_snap a.

Definition policy_taken (env : Env) (a a' : agent_state) : Prop :=
  (policy_epoch a < policy_epoch a')%Z ∧
  ∃ root pol, retrace_conf a' = Some root ∧ json_object_get_object (Some root) "policy" = Some pol ∧
    policy_epoch a' = d_u64 out_of_range (json_object_get_number (Some pol) "epoch") ∧
    (d_positive (json_object_get_number (Some pol) "expires") = true →
     now env < d_i64 out_of_range (json_object_get_number (Some pol) "expires"))%Z.

Definition apply_one (env : Env) (payload : bytes) (a : agent_state) : option (Z * string * agent_state) :=
  retrace_agent_policy_apply (pubkey env) (now env) (snap_alloc env) (buckets_alloc env) payload a.

Lemma apply_one_steps env payload a :
  served a →
  ∃ rc reason a', apply_one env payload a = Some (rc, reason, a') ∧ served a' ∧
    (policy_kept a a' ∨ rc = 0%Z ∧ reason = EmptyString ∧ policy_taken env a a').
Proof.
  intros Hs. unfold apply_one, retrace_agent_policy_apply, retrace_policy_validate.
  set (g := snd (retrace_policy_sig_init pem_file pem_bio (pubkey env) (pins a))).
  destruct (retrace_policy_sig_check decode_block digest_verify g payload 8192) as [rc [text|reason]].
  2: { eexists _, _, _. split; [done|]. split; [exact Hs|]. by left. }
  destruct (validate_document out_of_range (policy_epoch a) (now env) text) as [root epoch| |reason] eqn:Ev.
  - apply validated in Ev as (_ & Hlt & (pol & Hpol & He & Hx) & Hscripts).
    destruct (ConfigCache.build_serves (snap_alloc env) (buckets_alloc env) (Some root) (g_snap a))
      as (rc' & snap & -> & Hfail & Hok). cbn [mbind option_bind].
    destruct (Z.eqb_spec rc' 0) as [->|Hne].
    + eexists _, _, _. split; [done|]. destruct (Hok eq_refl) as (scripts & Ha & _ & Hl).
      split; [by exists scripts|]. right. split; [done|]. split; [done|]. split; [done|]. by exists root, pol.
    + eexists _, _, _. split; [done|]. rewrite (Hfail Hne). split; [exact Hs|]. by left.
  - eexists _, _, _. split; [done|]. split; [exact Hs|]. by left.
  - eexists _, _, _. split; [done|]. split; [exact Hs|]. by left.
Qed.

(** The states after each of a sequence of policies. *)
Fixpoint policy_trace (ps : list (Env * bytes)) (a : agent_state) : option (list agent_state) :=
  match ps with
  | [] => Some []
  | (env, payload) :: ps =>
      '(_, _, a) ← apply_one env payload a;
      l ← policy_trace ps a;
      Some (a :: l)
  end.

Lemma policy_trace_steps ps a :
  served a →
  ∃ states, policy_trace ps a = Some states ∧ Forall served states ∧
    ∀ i env payload s s', ps !! i = Some (env, payload) → (a :: states) !! i = Some s → states !! i = Some s' →
      policy_kept s s' ∨ policy_taken env s s'.
Proof.
  revert a. induction ps as [|[env payload] ps IH]; intros a Hs.
  { exists []. split; [done|]. split; [constructor|]. done. }
  cbn [policy_trace]. destruct (apply_one_steps env payload a Hs) as (rc & reason & a1 & -> & Hs1 & Hstep).
  cbn [mbind option_bind]. destruct (IH a1 Hs1) as (states & -> & Hall & Hsteps). cbn [mbind option_bind].
  exists (a1 :: states). split; [done|]. split; [by constructor|].
  intros [|i] env' payload' s s' Hp Hi Hi'.
  - cbn in Hp, Hi, Hi'. simplify_eq. destruct Hstep as [?|(_ & _ & ?)]; [by left|by right].
  - by eapply Hsteps.
Qed.

(** C27 (invariant). Whatever policies arrive and however the allocations and the
    verification go, each of them is answered, the configuration in force is the
    one the cache serves, and it changes only to a policy of a greater epoch that
    has not expired. *)
Theorem agent_policy_in_force ps a :
  served a →
  ∃ states, policy_trace ps a = Some states ∧ Forall served states ∧
    ∀ i env payload s s', ps !! i = Some (env, payload) → (a :: states) !! i = Some s → states !! i = Some s' →
      policy_kept s s' ∨ policy_taken env s s'.
Proof. apply policy_trace_steps. Qed.

(** ** The events on the wire *)

(** A socket that takes a frame whole or fails, as a blocking socket whose sends
    no signal interrupts. *)
Definition whole_sends : Prop := ∀ w out, rc_send w out = Z.of_nat (length out) ∨ (rc_send w out ≤ 0)%Z.

Definition agent_message (type : Z) (payload : bytes) : Rpc.message :=
  Rpc.mkMessage Rpc.RETRACE_RPC_VERSION type (take 2048 payload).

Definition event_message (item : bytes) : Rpc.message := agent_message Rpc.RETRACE_RPC_MSG_EVENT item.

Lemma encode_cut type payload :
  Rpc.retrace_rpc_frame_encode (Some (Z.of_nat Rpc.RETRACE_RPC_HEADER_SZ + 2048)%Z) Rpc.RETRACE_RPC_VERSION type
    (Some payload) (Z.of_nat (Nat.min (length payload) 2048)) = inr (Rpc.frame_bytes (agent_message type payload)).
Proof.
  assert (Z.of_nat (Nat.min (length payload) 2048) = Rpc.m_len (agent_message type payload)) as El
    by (unfold Rpc.m_len; cbn [agent_message Rpc.m_payload]; rewrite length_take; f_equal; lia).
  unfold Rpc.retrace_rpc_frame_encode, Rpc.RETRACE_RPC_PAYLOAD_MAX.
  rewrite (proj2 (Z.ltb_ge _ _)) by lia. rewrite bool_decide_eq_false_2, andb_false_r by done.
  rewrite (proj2 (Z.ltb_ge _ _)) by lia. change (default [] (Some payload)) with payload.
  rewrite El. unfold Rpc.frame_bytes. do 5 f_equal. unfold Rpc.m_len. cbn [agent_message Rpc.m_payload].
  rewrite Nat2Z.id, length_take.
  destruct (Nat.min_spec 2048 (length payload)) as [[? ->]|[? ->]]; [done|]. by rewrite firstn_all, firstn_all2.
Qed.

Lemma send_frame_whole type payload a :
  whole_sends →
  let '(rc, a') := send_frame type (Some payload) a in
  (rc = 0%Z ∧ a' = set_conn (fd a) (connected a) (rbuf a) (wire a ++ Rpc.frame_bytes (agent_message type payload)) a) ∨
  (rc = (-1)%Z ∧ a' = a).
Proof.
  intros Hw. unfold send_frame. change (default [] (Some payload)) with payload. rewrite encode_cut.
  set (m := agent_message type payload).
  assert (take (Rpc.RETRACE_RPC_HEADER_SZ + Nat.min (length payload) 2048) (Rpc.frame_bytes m) = Rpc.frame_bytes m) as ->.
  { apply firstn_all2. rewrite Rpc.frame_bytes_length. unfold m, agent_message. cbn [Rpc.m_payload].
    rewrite length_take. lia. }
  unfold sock_write. destruct (Hw (wire a) (Rpc.frame_bytes m)) as [E|E].
  - rewrite E. rewrite (proj2 (Z.leb_gt _ _)) by (rewrite Rpc.frame_bytes_length; unfold Rpc.RETRACE_RPC_HEADER_SZ; lia).
    left. by rewrite Nat2Z.id, firstn_all.
  - rewrite (proj2 (Z.leb_le _ _) E). by right.
Qed.

(** A frame that the socket takes in part counts as sent: the stream goes on in
    the middle of it. *)
Lemma short_send_ignored type payload a :
  let out := Rpc.frame_bytes (agent_message type payload) in
  (0 < rc_send (wire a) out)%Z →
  send_frame type (Some payload) a =
    (0%Z, set_conn (fd a) (connected a) (rbuf a) (wire a ++ take (Z.to_nat (rc_send (wire a) out)) out) a).
Proof.
  intros out Hn. unfold send_frame. change (default [] (Some payload)) with payload. rewrite encode_cut.
  assert (take (Rpc.RETRACE_RPC_HEADER_SZ + Nat.min (length payload) 2048) out = out) as E.
  { apply firstn_all2. unfold out. rewrite Rpc.frame_bytes_length. unfold agent_message. cbn [Rpc.m_payload].
    rewrite length_take. lia. }
  fold out. rewrite E. unfold sock_write. by rewrite (proj2 (Z.leb_gt _ _)).
Qed.

(** The queue of the agent. *)
Definition queue_is (a : agent_state) (q : list bytes) (d : Z) : Prop := AgentRing.ring_is (ring a) (mem a) q d.

Lemma peek_queue a q d :
  queue_is a q d →
  ∃ v, AgentRing.agent_ring_peek (ring a) (mem a) = Some v ∧ (λ x, cstr x.1) <$> v = head q.
Proof.
  intros Hq. destruct (AgentRing.peek_simulates _ _ _ _ Hq) as (r & m & E & _). unfold AgentRing.ring_do in E.
  destruct (AgentRing.agent_ring_peek (ring a) (mem a)) as [v|]; [|done]. exists v. split; [done|].
  cbn in E. by simplify_eq.
Qed.

Lemma pop_queue a q d :
  queue_is a q d →
  ∃ rm, AgentRing.agent_ring_pop (ring a) (mem a) = Some rm ∧ queue_is (set_ring rm a) (drop 1 q) d.
Proof.
  intros Hq. destruct (AgentRing.pop_simulates _ _ _ _ Hq) as (r & m & E & Hr). unfold AgentRing.ring_do in E.
  destruct (AgentRing.agent_ring_pop (ring a) (mem a)) as [rm|]; [|done]. cbn in E. simplify_eq.
  by exists (r, m).
Qed.

Lemma send_keeps type payload a :
  agent_id (send_frame type payload a).2 = agent_id a ∧ drops_reported (send_frame type payload a).2 = drops_reported a.
Proof. unfold send_frame, sock_write. repeat case_match; by simplify_eq. Qed.

Lemma drain_keeps fuel a all a' :
  drain_loop fuel a = Some (all, a') → agent_id a' = agent_id a ∧ drops_reported a' = drops_reported a.
Proof.
  revert a. induction fuel as [|fuel IH]; intros a E; [done|]. cbn [drain_loop] in E.
  destruct (AgentRing.agent_ring_peek _ _) as [[[item n]|]|]; cbn [mbind option_bind] in E; [|by simplify_eq|done].
  pose proof (send_keeps Rpc.RETRACE_RPC_MSG_EVENT (Some (cstr item)) a) as [Hi Hd].
  destruct (send_frame _ _ a) as [rc a1]. cbn [snd] in Hi, Hd. destruct (rc =? 0)%Z.
  - destruct (AgentRing.agent_ring_pop _ _) as [rm|]; cbn [mbind option_bind] in E; [|done].
    apply IH in E as [-> ->]. by cbn.
  - injection E as <- <-. by cbn.
Qed.

Lemma drain_in_order a q d fuel :
  whole_sends → queue_is a q d → length q < fuel →
  ∃ k all a', drain_loop fuel a = Some (all, a') ∧ k ≤ length q ∧ queue_is a' (drop k q) d ∧
    wire a' = wire a ++ Rpc.stream_bytes (event_message <$> take k q) ∧
    if all then k = length q else connected a' = false ∧ fd a' = false.
Proof.
  intros Hw. revert a q. induction fuel as [|fuel IH]; intros a q Hq Hf; [lia|].
  cbn [drain_loop]. destruct (peek_queue a q d Hq) as (v & -> & Hv). cbn [mbind option_bind].
  destruct v as [[item n]|].
  2: { destruct q; [|done]. exists 0, true, a. rewrite take_0, app_nil_r. by split_and!. }
  destruct q as [|x q]; [done|]. cbn [fmap option_fmap option_map head fst] in Hv. apply (inj Some) in Hv.
  rewrite Hv. pose proof (send_frame_whole Rpc.RETRACE_RPC_MSG_EVENT x a Hw) as Hs.
  destruct (send_frame _ (Some x) a) as [rc a1]. destruct Hs as [[-> ->]|[-> ->]].
  - cbn [Z.eqb]. set (a1 := set_conn _ _ _ _ a).
    destruct (pop_queue a1 (x :: q) d Hq) as (rm & E & Hq1). rewrite E. cbn [mbind option_bind].
    cbn [drop] in Hq1. rewrite drop_0 in Hq1. cbn [length] in Hf.
    destruct (IH _ _ Hq1 ltac:(lia)) as (k & all & a' & -> & Hk & Hq' & Hwire & Hall).
    exists (S k), all, a'. split; [done|]. split; [cbn; lia|]. split; [done|]. split.
    + rewrite Hwire. cbn [set_ring wire]. unfold a1. cbn [set_conn wire take fmap list_fmap].
      rewrite <- app_assoc. done.
    + destruct all; [cbn; lia|done].
  - cbn [Z.eqb]. exists 0, false, (drop_connection a). rewrite take_0, app_nil_r. split_and!; try done. lia.
Qed.

(** What a drain leaves alone; a closed connection stays closed. *)
Definition drain_kept (a a' : agent_state) : Prop :=
  armed a' = armed a ∧ thread_spawned a' = thread_spawned a ∧ spawner_pid a' = spawner_pid a ∧
  agent_id a' = agent_id a ∧ seq a' = seq a ∧ (connected a = false → connected a' = false).

#[local] Instance drain_kept_preorder : PreOrder drain_kept.
Proof. split; [done|]. unfold drain_kept. intros a1 a2 a3 H1 H2. naive_solver congruence. Qed.

Lemma send_frame_kept type payload a : drain_kept a (send_frame type payload a).2.
Proof. unfold send_frame, sock_write. repeat case_match; by simplify_eq. Qed.

Lemma drain_loop_kept fuel a all a' : drain_loop fuel a = Some (all, a') → drain_kept a a'.
Proof.
  revert a. induction fuel as [|fuel IH]; intros a E; [done|]. cbn [drain_loop] in E.
  destruct (AgentRing.agent_ring_peek _ _) as [[[item n]|]|]; cbn [mbind option_bind] in E; [|by simplify_eq|done].
  pose proof (send_frame_kept Rpc.RETRACE_RPC_MSG_EVENT (Some (cstr item)) a) as Hk.
  destruct (send_frame _ _ a) as [rc a1]. cbn [snd] in Hk. etransitivity; [exact Hk|]. destruct (rc =? 0)%Z.
  - destruct (AgentRing.agent_ring_pop _ _) as [rm|]; cbn [mbind option_bind] in E; [|done].
    apply IH in E. exact E.
  - by injection E as <- <-.
Qed.

Lemma drain_queue_kept ts a a' : drain_queue ts a = Some a' → drain_kept a a'.
Proof.
  unfold drain_queue. destruct (drain_loop _ a) as [[all a1]|] eqn:E; cbn [mbind option_bind]; [|done].
  apply drain_loop_kept in E. intros E'. etransitivity; [exact E|].
  destruct (_ && _); [|by simplify_eq].
  unfold queue_push in E'. destruct (AgentRing.agent_ring_push_copy _ _ _ _ _) as [[rc rm]|]; [|done].
  cbn in E'. destruct (_ =? _)%Z; by simplify_eq.
Qed.

Lemma marker_no_nul ts a : no_nul (agent_id a) → (0 ≤ ts)%Z → (0 ≤ AgentRing.dropped (ring a))%Z → no_nul (drop_marker ts a).
Proof.
  intros Hid Hts Hd. unfold drop_marker, no_nul, fmt_ld. rewrite (proj2 (Z.ltb_ge _ _)) by lia.
  assert (∀ z, (0 ≤ z)%Z → Forall (λ c, c ≠ NUL) (fmt_llu z)) as Hn.
  { intros z Hz. eapply Forall_impl; [by apply fmt_llu_digits|]. intros c Hc ->. by destruct Hc. }
  rewrite !Forall_app. split_and!; try (by repeat constructor); try done; apply Hn; try done.
  unfold u64. by apply wrap_u_range.
Qed.

Lemma drain_queue_in_order ts a q d :
  whole_sends → queue_is a q d → no_nul (agent_id a) → (0 ≤ ts)%Z → (0 ≤ d)%Z →
  ∃ k a', drain_queue ts a = Some a' ∧ k ≤ length q ∧
    wire a' = wire a ++ Rpc.stream_bytes (event_message <$> take k q) ∧
    ((connected a' = false ∧ fd a' = false ∧ queue_is a' (drop k q) d) ∨
     (k = length q ∧ drops_reported a' = d ∧
      queue_is a' (if decide (drops_reported a = d) then [] else [snprintf 176 (drop_marker ts a)]) d)).
Proof.
  intros Hw Hq Hid Hts Hd. unfold drain_queue.
  assert (AgentRing.count (ring a) = length q) as Ec by apply (AgentRing.ri_count _ _ _ _ Hq).
  destruct (drain_in_order a q d (S (AgentRing.count (ring a))) Hw Hq) as (k & all & a1 & E & Hk & Hq1 & Hwire & Hall); [lia|].
  assert (agent_id a1 = agent_id a ∧ drops_reported a1 = drops_reported a) as [Ei Er] by (by eapply drain_keeps).
  rewrite E. cbn [mbind option_bind]. destruct all; cbn [andb].
  2: { exists k, a1. destruct Hall as [? ?]. split_and!; try done. by left. }
  subst k. rewrite drop_all in Hq1. rewrite (AgentRing.ri_dropped _ _ _ _ Hq1), Er.
  destruct (Z.eqb_spec d (drops_reported a)) as [->|Hne]; cbn [negb].
  { exists (length q), a1. split_and!; try done. right. by rewrite decide_True. }
  assert (drop_marker ts a1 = drop_marker ts a) as Em.
  { unfold drop_marker. by rewrite Ei, Er, (AgentRing.ri_dropped _ _ _ _ Hq1), (AgentRing.ri_dropped _ _ _ _ Hq). }
  assert (no_nul (snprintf 176 (drop_marker ts a))) as Hm.
  { unfold snprintf. apply no_nul_take, marker_no_nul; try done. by rewrite (AgentRing.ri_dropped _ _ _ _ Hq). }
  rewrite Em. destruct (AgentRing.push_copy_simulates _ true _ _ _ _ Hq1 Hm) as (r & m & Ep & Hr).
  unfold AgentRing.ring_do in Ep. unfold queue_push.
  destruct (AgentRing.agent_ring_push_copy true (ring a1) (mem a1) _ _) as [[rc rm]|]; [|done].
  cbn in Ep. injection Ep as -> ->. cbn [mbind option_bind Z.eqb].
  eexists (length q), _. split; [done|]. split; [done|]. split; [exact Hwire|]. right.
  split; [done|]. split; [done|]. rewrite decide_False by done. exact Hr.
Qed.

(** A drain sends the queued events in order, each once, as whole
    frames. When the socket fails it keeps every event it has not sent and the
    connection is closed; when it does not, the queue is empty but for the
    record of what was dropped before, which is then reported in full. *)
Theorem agent_drain_in_order ts a q d :
  whole_sends → queue_is a q d → no_nul (agent_id a) → (0 ≤ ts)%Z → (0 ≤ d)%Z →
  ∃ k a', drain_queue ts a = Some a' ∧ k ≤ length q ∧
    wire a' = wire a ++ Rpc.stream_bytes (event_message <$> take k q) ∧
    ((connected a' = false ∧ fd a' = false ∧ queue_is a' (drop k q) d) ∨
     (k = length q ∧ drops_reported a' = d ∧
      queue_is a' (if decide (drops_reported a = d) then [] else [snprintf 176 (drop_marker ts a)]) d)).
Proof. apply drain_queue_in_order. Qed.

(** ** Losses *)

(** The first event a fork child emits is put in the queue and the queue is
    emptied: nothing of it is left, and no loss is counted. *)
Lemma fork_child_loses_event table ts pid malloc_ok build_ok create_ok name kv a rc a' q d text :
  queue_is a q d → length q < AgentRing.AGENT_RING_CAP → armed a = true → thread_spawned a = true →
  spawner_pid a ≠ pid → no_nul (redacted table text) → length (redacted table text) < AgentRing.AGENT_RING_INLINE →
  retrace_agent_format_event_stack AGENT_EVENT_INLINE (agent_id a) (u64 (seq a + 1)) ts name kv = Some text →
  retrace_agent_emit_event table ts pid malloc_ok build_ok create_ok (Some name) (Some kv) a = Some (rc, a') →
  rc = 0%Z ∧ AgentRing.count (ring a') = 0 ∧ AgentRing.dropped (ring a') = d.
Proof.
  intros Hq Hroom Harm Hsp Hpid Hn Hlen Hf. unfold retrace_agent_emit_event. rewrite Harm, Hf. cbn [negb].
  unfold queue_push. cbn [set_seq ring mem].
  destruct (AgentRing.push_copy_simulates (redacted table text) malloc_ok _ _ _ _ Hq Hn) as (r & m & Ep & Hr).
  unfold AgentRing.ring_do in Ep. destruct (AgentRing.agent_ring_push_copy malloc_ok (ring a) (mem a) _ _) as [[rc1 rm]|]; [|done].
  cbn [mbind option_bind] in Ep. apply (inj Some) in Ep. injection Ep as _ ->.
  cbn [mbind option_bind]. unfold adopt, spawn_agent_thread.
  cbn [set_seq set_ring thread_spawned spawner_pid]. rewrite Hsp, (proj2 (Z.eqb_neq _ _) Hpid). cbn [negb andb set_thread thread_spawned].
  intros [= <- <-]. split_and!; [done|done|]. cbn. rewrite (AgentRing.ri_dropped _ _ _ _ Hr).
  unfold AgentRing.queue_do, AgentRing.accepts. rewrite (proj2 (Nat.ltb_lt _ _) Hroom), (proj2 (Nat.ltb_lt _ _) Hlen).
  by rewrite orb_true_r.
Qed.

(** A frame of more than 4096 bytes fills the buffer before it is whole, and the
    next read is taken for the end of the connection. *)
Lemma large_frame_drops env avail a :
  Z.of_nat (length (rbuf a)) = RBUF_SIZE → read_frames env avail a = Some (drop_connection a, avail).
Proof.
  intros E. unfold read_frames. rewrite E, Z.sub_diag. cbn [Z.to_nat]. by rewrite take_0, decide_True.
Qed.

End agent.

(** ** Concrete agents *)

Definition toy_root (epoch : Z) : JSON_Object :=
  [(lit "policy", JSONObject [(lit "epoch", JSONNumber (d_int epoch))]); (lit "intercept_scripts", JSONArray [])].

(** Two events are queued. *)
Definition toy_events : list bytes := [lit "{}"; jlit "{'a':'b'}"].

Definition toy_ring : AgentRing.agent_ring * AgentRing.Mem :=
  match AgentRing.ring_run ((λ e, AgentRing.PushCopy e true) <$> toy_events)
          (AgentRing.agent_ring_init, AgentRing.mkMem ∅ 0) with
  | Some (_, rm) => rm
  | None => (AgentRing.agent_ring_init, AgentRing.mkMem ∅ 0)
  end.

Definition toy_agent : agent_state (EVP_PKEY := bytes) :=
  mkAgent true (lit "boot.7.1") toy_ring.1 toy_ring.2 0 0 0 true false true true 7 []
    (Some (toy_root 1)) (snd (default (0%Z, None) (ConfigCache.retrace_config_cache_build true true (Some (toy_root 1)) None)))
    (mkPins [] false) None [].

Definition toy_policies : list (Env * bytes) :=
  [(mkEnv None true 1000 true true, jlit "{'policy':{'epoch':3},'intercept_scripts':[]}");
   (mkEnv None true 1000 true true, jlit "{'policy':{'epoch':2},'intercept_scripts':[]}")].

Lemma toy_served : served toy_agent.
Proof.
  destruct (ConfigCache.build_serves true true (Some (toy_root 1)) None) as (rc & g & E & _ & Hok).
  unfold toy_agent, served. cbn [retrace_conf g_snap]. rewrite E. cbn [default snd].
  destruct (Hok) as (scripts & Hs & _ & Hl); [|by exists scripts].
  assert (rc = fst (default (0%Z, None) (ConfigCache.retrace_config_cache_build true true (Some (toy_root 1)) None))) as ->
    by (by rewrite E). vm_compute. reflexivity.
Qed.

Lemma agent_policy_in_force_witness :
  ∃ states, policy_trace (λ spec, Some (Some spec)) (λ _, None) Some (λ k raw _, streq raw k) (λ _, 0%Z)
              (DT := JsonRoundTrip.whole_numbers) toy_policies toy_agent = Some states ∧ Forall served states ∧
    ∀ i env payload s s', toy_policies !! i = Some (env, payload) → (toy_agent :: states) !! i = Some s →
      states !! i = Some s' → policy_kept s s' ∨ policy_taken (λ _, 0%Z) env s s'.
Proof. apply agent_policy_in_force. exact toy_served. Defined.

(** A socket that takes everything. *)
Definition open_socket (w out : bytes) : Z := Z.of_nat (length out).

Lemma toy_queue : queue_is toy_agent toy_events 0.
Proof.
  destruct (AgentRing.run_simulates ((λ e, AgentRing.PushCopy e true) <$> toy_events) _ _ _ _ AgentRing.ring_is_init)
    as (r & m & E & Hr); [by repeat constructor|].
  unfold toy_agent, queue_is, toy_ring. rewrite E. exact Hr.
Qed.

Lemma agent_drain_in_order_witness :
  ∃ k a', drain_queue open_socket 1000 toy_agent = Some a' ∧ k ≤ length toy_events ∧
    wire a' = wire toy_agent ++ Rpc.stream_bytes (event_message <$> take k toy_events) ∧
    ((connected a' = false ∧ fd a' = false ∧ queue_is a' (drop k toy_events) 0) ∨
     (k = length toy_events ∧ drops_reported a' = 0%Z ∧
      queue_is a' (if decide (drops_reported toy_agent = 0%Z) then [] else [snprintf 176 (drop_marker 1000 toy_agent)]) 0)).
Proof.
  apply (agent_drain_in_order open_socket 1000 toy_agent toy_events 0).
  - intros w out. by left.
  - exact toy_queue.
  - by repeat constructor.
  - lia.
  - lia.
Defined.

End Agent.
