(* ===== verification/Daemon.v ===== *)
(** * The daemon's frames

    [tools/retraced/daemon_frame.c] and the agent plane of
    [tools/retraced/main.c]: registration with the nonce and the session,
    heartbeats, events with their drift grading, acknowledgements and farewells,
    over the registry, the journal and the drift rings; the sweep; and the
    connections as a step relation. In every reachable state the journal is a
    chain, identifiers are distinct and every greeted connection has its agent;
    only an agent that presents the nonce is ever sent a policy. *)

From S2P Require Import Prelude Numerals Libc Stdio Json JsonText JsonRoundTrip JsonPrint AgentRegistry.
From S2P Require Import Journal JournalChain Rpc PolicySig.

Module Daemon.

Import Numerals Libc Stdio Json JsonText AgentRegistry Journal.

Definition HB_TIMEOUT_MS : Z := 15000.
Definition SWEEP_INTERVAL_MS : Z := 1000.
Definition POLICY_MAX_BYTES : Z := 4000.

(** A connection: [struct conn] without its buffer, with the frames written to
    it, as type and payload. *)
Record conn := mkConn {
  agent_id : bytes;
  helloed : bool;
  c_spectator : bool;
  out : list (Z * bytes);
}.

Record Daemon := mkDaemon {
  reg : retraced_registry;
  jr : retraced_journal;
  disk : Disk;
  drift : Drift;
  policy_blob : option bytes;
  ctl_epoch : Z;
  nonce : bytes;
}.

Definition set_reg (r : retraced_registry) (d : Daemon) : Daemon :=
  mkDaemon r (jr d) (disk d) (drift d) (policy_blob d) (ctl_epoch d) (nonce d).
Definition set_drift (x : Drift) (d : Daemon) : Daemon :=
  mkDaemon (reg d) (jr d) (disk d) x (policy_blob d) (ctl_epoch d) (nonce d).
Definition set_journal (jd : retraced_journal * Disk) (d : Daemon) : Daemon :=
  mkDaemon (reg d) jd.1 jd.2 (drift d) (policy_blob d) (ctl_epoch d) (nonce d).

(** The clocks and the random bytes a frame finds: [time], the milliseconds of
    [now_ms], the bytes of the random device and what stands in for a zero. *)
Record Tick := mkTick { t_time : Z; t_ms : Z; t_raw : list Z; t_time_pid : Z }.

Section daemon.
Context (fopen_ok remove_ok : bytes → bool).
Context (out_of_range : double → Z).
Context {DT : DoubleText}.

Notation d_u64 := (PolicySig.d_u64 out_of_range).
Notation d_i64 := (PolicySig.d_i64 out_of_range).

(** [retraced_journal_event], whose result is not looked at. *)
Definition journal (ts : Z) (agent : bytes) (seq : Z) (payload : bytes) (d : Daemon) : Daemon :=
  set_journal (snd (retraced_journal_event fopen_ok remove_ok (jr d) (disk d) ts agent seq (Some payload))) d.

Definition write_frame (type : Z) (payload : bytes) (c : conn) : conn :=
  match Rpc.retrace_rpc_frame_encode (Some (Z.of_nat Rpc.RETRACE_RPC_HEADER_SZ + Z.of_nat (length payload))%Z)
          Rpc.RETRACE_RPC_VERSION type (Some payload) (Z.of_nat (length payload)) with
  | inl _ => c
  | inr _ => mkConn (agent_id c) (helloed c) (c_spectator c) (out c ++ [(type, payload)])
  end.

Definition jstr (o : option JSON_Object) (key : string) (cap : nat) : bytes :=
  match json_object_get_string o key with Some v => snprintf cap v | None => [] end.

(** ** daemon_frame.c *)

Definition role (spectator : bool) : bytes := if spectator then lit "spectator" else lit "full".

Definition daemon_frame_welcome (tick : Tick) (c : conn) (d : Daemon) : conn * Daemon :=
  let w := snprintf 256 (jlit "{'agent_id':'" ++ agent_id c ++ jlit "','epoch':" ++ fmt_ld (ctl_epoch d) ++
             jlit ",'role':'" ++ role (c_spectator c) ++ jlit "'}") in
  let c := write_frame Rpc.RETRACE_RPC_MSG_WELCOME w c in
  let ev := snprintf 320 (jlit "{'name':'retrace.auth.agent','agent':'" ++ agent_id c ++ jlit "','role':'" ++
              role (c_spectator c) ++ jlit "','nonce':'" ++ (if c_spectator c then [] else lit "redacted") ++
              jlit "'}") in
  (c, journal (t_time tick) (lit "daemon") 0 ev d).

(** The first attribute whose name ends in the suffix. *)
Definition drift_attr_suffix (attrs : option JSON_Object) (suffix : bytes) : option bytes :=
  match attrs with
  | None => None
  | Some o =>
      match filter (λ m, has_prefix (rev suffix) (rev m.1) = true) o with
      | m :: _ => json_value_get_string (json_object_nget_value o m.1)
      | [] => None
      end
  end.

Definition drift_attr_path (attrs : option JSON_Object) : option bytes := drift_attr_suffix attrs (lit "path").

Definition drift_attr_func (attrs : option JSON_Object) : option bytes :=
  match drift_attr_suffix attrs (lit "func") with
  | Some v => Some v
  | None => drift_attr_suffix attrs (lit "syscall")
  end.

(** One agent's summary, when its count has moved. *)
Definition drift_summary (ts : Z) (i : nat) (d : Daemon) : Daemon :=
  match agents (reg d) !! i with
  | None => d
  | Some e =>
      if (kernel_obs e =? 0)%Z || (kernel_obs e =? kernel_obs_last e)%Z then d
      else
        let ev := snprintf 192 (jlit "{'name':'retrace.drift.summary','agent':'" ++ ae_id e ++
                    jlit "','kernel_obs':" ++ fmt_llu (kernel_obs e) ++ jlit ",'delta':" ++
                    fmt_llu (u64 (kernel_obs e - kernel_obs_last e)) ++ lit "}") in
        let d := journal ts (lit "daemon") 0 ev d in
        set_reg (upd i (set_obs (kernel_obs e) (kernel_obs e)) (reg d)) d
  end.

Definition daemon_frame_drift_summaries (ts : Z) (d : Daemon) : Daemon :=
  foldl (λ d i, drift_summary ts i d) d (seq 0 (length (agents (reg d)))).

(** What the matcher is told of an event that names its source. *)
Definition grade_event (tick : Tick) (o : option JSON_Object) (source : bytes) (pid : Z) (d : Daemon) : Daemon :=
  let attrs := json_object_get_object o "attrs" in
  if streq source (lit "kernel") then
    let op := json_object_get_string attrs "syscall" in
    let path := drift_attr_path attrs in
    let '(hit, x) := retrace_drift_observe (drift d) pid op path (t_time tick) in
    let d := set_drift x d in
    if hit then
      journal (t_time tick) (lit "daemon") 0
        (snprintf 288 (jlit "{'name':'retrace.drift.hit','op':'" ++ default [] op ++ jlit "','path':'" ++
           default [] path ++ jlit "'}")) d
    else d
  else if streq source (lit "libc") then
    let op := match drift_attr_func attrs with Some v => Some v | None => json_object_get_string o "name" end in
    set_drift (retrace_drift_claim (drift d) pid op (drift_attr_path attrs) (t_time tick)) d
  else d.

Definition count_observation (id : bytes) (d : Daemon) : Daemon :=
  match retraced_registry_find (reg d) (Some id) with
  | Some i => set_reg (upd i (λ e, set_obs (u64 (kernel_obs e + 1)) (kernel_obs_last e) e) (reg d)) d
  | None => d
  end.

Definition agent_pid (id : bytes) (d : Daemon) : Z :=
  match retraced_registry_find (reg d) (Some id) with
  | Some i => match agents (reg d) !! i with Some e => pid e | None => 0 end
  | None => 0
  end.

Definition handle_event (tick : Tick) (c : conn) (payload : bytes) (d : Daemon) : Daemon :=
  match json_parse_string payload with
  | None => d
  | Some v =>
      let o := json_value_get_object (Some v) in
      let d := journal (t_time tick) (agent_id c) (d_u64 (json_object_get_number o "seq")) payload d in
      match json_object_get_string o "source" with
      | None => d
      | Some source =>
          let d := if streq source (lit "kernel") then count_observation (agent_id c) d else d in
          grade_event tick o source (agent_pid (agent_id c) d) d
      end
  end.

Definition handle_ack (tick : Tick) (c : conn) (payload : bytes) (d : Daemon) : Daemon :=
  let d :=
    match json_parse_string payload with
    | None => d
    | Some v =>
        let o := json_value_get_object (Some v) in
        match retraced_registry_find (reg d) (Some (agent_id c)) with
        | Some i => set_reg (upd i (set_epoch (d_u64 (json_object_get_number o "policy_epoch"))) (reg d)) d
        | None => d
        end
    end in
  journal (t_time tick) (agent_id c) 0 payload d.

Definition daemon_frame_handle (tick : Tick) (type : Z) (payload : bytes) (c : conn) (d : Daemon)
    : Z * (conn * Daemon) :=
  if (type =? Rpc.RETRACE_RPC_MSG_HEARTBEAT)%Z then
    if negb (helloed c) then (0%Z, (c, d))
    else
      match json_parse_string payload with
      | None => (0%Z, (c, d))
      | Some v =>
          let seq := d_u64 (json_object_get_number (json_value_get_object (Some v)) "seq") in
          (0%Z, (c, set_reg (snd (retraced_registry_heartbeat (reg d) (agent_id c) seq (t_ms tick))) d))
      end
  else if (type =? Rpc.RETRACE_RPC_MSG_EVENT)%Z then
    (0%Z, (c, if helloed c then handle_event tick c payload d else d))
  else if (type =? Rpc.RETRACE_RPC_MSG_POLICY_ACK)%Z then
    (0%Z, (c, if helloed c then handle_ack tick c payload d else d))
  else if (type =? Rpc.RETRACE_RPC_MSG_PING)%Z then
    (0%Z, (write_frame Rpc.RETRACE_RPC_MSG_PING (lit "{}") c, d))
  else if (type =? Rpc.RETRACE_RPC_MSG_BYE)%Z then
    (1%Z, (mkConn (agent_id c) false (c_spectator c) (out c), set_reg (retraced_registry_bye (reg d) (agent_id c)) d))
  else (0%Z, (c, d)).

(** The registration of the Windows daemon; [daemon_nonce] may be absent. *)
Definition daemon_frame_hello (tick : Tick) (payload : bytes) (daemon_nonce : option bytes) (c : conn) (d : Daemon)
    : option nat * (conn * Daemon) :=
  match json_parse_string payload with
  | None => (None, (c, d))
  | Some v =>
      let o := json_value_get_object (Some v) in
      let n := jstr o "nonce" 128 in
      let spectator := match daemon_nonce with Some x => negb (streq n x) | None => false end in
      let c := mkConn (agent_id c) (helloed c) spectator (out c) in
      let '(r, e) := retraced_registry_hello (reg d) None (d_i64 (json_object_get_number o "pid"))
                       (d_i64 (json_object_get_number o "ppid"))
                       (Some (jstr o "session_token" 128)) (Some (jstr o "cmdline" 256)) in
      match e with
      | None => (None, (c, set_reg r d))
      | Some i =>
          let id := match agents r !! i with Some e => ae_id e | None => [] end in
          let c := mkConn (snprintf RETRACED_AGENT_ID_MAX id) true spectator (out c) in
          (Some i, daemon_frame_welcome tick c (set_reg (upd i (set_spectator spectator) r) d))
      end
  end.

(** ** main.c: the agent plane *)

(** The session of a new agent [i]: an agent without a token inherits that of its
    parent, or gets a new one; both are journalled. *)
Definition resolve_session (tick : Tick) (i : nat) (d : Daemon) : Daemon :=
  let '(r, parent) := retraced_registry_link_parent (reg d) i in
  let d := set_reg r d in
  match agents r !! i with
  | None => d
  | Some e =>
      let inherited := match parent with
                       | Some k => match agents r !! k with Some p => session p | None => [] end
                       | None => [] end in
      let note name s := snprintf 256 (jlit "{'name':'" ++ name ++ jlit "','agent':'" ++ ae_id e ++
                           jlit "','session':'" ++ s ++ jlit "'}") in
      if bool_decide (session e = []) && negb (bool_decide (inherited = [])) then
        let s := snprintf RETRACED_SESSION_MAX inherited in
        journal (t_time tick) (lit "daemon") 0 (note (lit "retrace.session.scrubbed") s)
          (set_reg (upd i (set_session s) r) d)
      else if bool_decide (session e = []) then
        let s := retraced_registry_mint_session (t_raw tick) (t_time_pid tick) in
        journal (t_time tick) (lit "daemon") 0 (note (lit "retrace.session.minted") s)
          (set_reg (upd i (set_session s) r) d)
      else d
  end.

Definition welcome_text (id session : bytes) (epoch : Z) (spectator : bool) : bytes :=
  snprintf 512 (jlit "{'agent_id':'" ++ id ++ jlit "','session_token':'" ++ session ++ jlit "','policy_epoch':" ++
    fmt_ld epoch ++ jlit ",'heartbeat_ms':1000,'role':'" ++ role spectator ++ jlit "'}").

(** The frames a registration is answered with. *)
Definition greet (i : nat) (c : conn) (d : Daemon) : conn :=
  let '(id, s) := match agents (reg d) !! i with Some e => (ae_id e, session e) | None => ([], []) end in
  let c := write_frame Rpc.RETRACE_RPC_MSG_WELCOME (welcome_text id s (ctl_epoch d) (c_spectator c)) c in
  match policy_blob d with
  | Some blob => if c_spectator c then c else write_frame Rpc.RETRACE_RPC_MSG_POLICY_SET blob c
  | None => c
  end.

Definition handle_hello (tick : Tick) (payload : bytes) (c : conn) (d : Daemon) : conn * Daemon :=
  match json_parse_string payload with
  | None => (c, d)
  | Some v =>
      let o := json_value_get_object (Some v) in
      let presented := jstr o "nonce" 80 in
      let spectator := negb (retraced_nonce_matches (Some presented) (nonce d)) in
      let c := mkConn (agent_id c) (helloed c) spectator (out c) in
      let '(r, e) := retraced_registry_hello (reg d) None (d_i64 (json_object_get_number o "pid"))
                       (d_i64 (json_object_get_number o "ppid"))
                       (Some (jstr o "session_token" RETRACED_SESSION_MAX))
                       (Some (jstr o "cmdline" RETRACED_CMDLINE_MAX)) in
      match e with
      | None => (c, set_reg r d)
      | Some i =>
          let id := match agents r !! i with Some e => ae_id e | None => [] end in
          let c := mkConn (snprintf RETRACED_AGENT_ID_MAX id) true spectator (out c) in
          let r := upd i (λ e, set_seq (last_seq e) (t_ms tick) (set_spectator spectator e)) r in
          let d := resolve_session tick i (set_reg r d) in
          let c := greet i c d in
          let ev := snprintf 224 (jlit "{'name':'retrace.auth.agent','agent':'" ++ id ++ jlit "','role':'" ++
                      role spectator ++ jlit "'}") in
          (c, journal (t_time tick) (lit "daemon") 0 ev d)
      end
  end.

(** The payload of a frame, as the string its handler reads. *)
Definition frame_payload (fr : Rpc.retrace_rpc_frame) (buf : bytes) : bytes :=
  cstr (take (Z.to_nat (Z.min (Rpc.len fr) (Rpc.RETRACE_RPC_PAYLOAD_MAX - 1)))
          (drop Rpc.RETRACE_RPC_HEADER_SZ buf)).

Definition handle_agent_frame (tick : Tick) (fr : Rpc.retrace_rpc_frame) (buf : bytes) (c : conn) (d : Daemon)
    : conn * Daemon :=
  let payload := frame_payload fr buf in
  if (Rpc.type fr =? Rpc.RETRACE_RPC_MSG_HELLO)%Z then handle_hello tick payload c d
  else (daemon_frame_handle tick (Rpc.type fr) payload c d).2.

(** The gate of a connection: the user of the peer when the system tells it. *)
Definition accept_gated (tick : Tick) (peer_uid : option Z) (euid : Z) (d : Daemon) : bool * Daemon :=
  match peer_uid with
  | None => (true, d)
  | Some puid =>
      if retraced_peer_allowed puid euid then (true, d)
      else (false, journal (t_time tick) (lit "daemon") 0
                     (snprintf 160 (jlit "{'name':'retrace.auth.refused','peer_uid':" ++ fmt_ld puid ++ lit "}")) d)
  end.

Definition new_conn : conn := mkConn [] false false [].

(** The end of a connection: its final summary and a flush. *)
Definition conn_closed (tick : Tick) (d : Daemon) : Daemon :=
  let d := daemon_frame_drift_summaries (t_time tick) d in
  set_journal (retraced_journal_flush (jr d) (disk d)) d.

Definition sweep (tick : Tick) (d : Daemon) : Daemon :=
  let d := daemon_frame_drift_summaries (t_time tick) d in
  set_reg (fst (retraced_registry_sweep (reg d) (t_ms tick) HB_TIMEOUT_MS)) d.

(** A workload's end, as the reaping loop records it. *)
Definition record_exit (tick : Tick) (pid code : Z) (signaled : bool) (d : Daemon) : Daemon :=
  journal (t_time tick) (lit "daemon") 0
    (snprintf 160 (jlit "{'name':'retrace.ctl.exit','pid':" ++ fmt_ld pid ++ jlit ",'how':'" ++
       (if signaled then lit "signaled" else lit "exited") ++ jlit "','code':" ++ fmt_ld code ++ lit "}")) d.

(** ** The connections of the daemon *)

Definition MAX_AGENTS : nat := 128.
Definition CONN_BUF : Z := Rpc.RETRACE_RPC_PAYLOAD_MAX + Z.of_nat Rpc.RETRACE_RPC_HEADER_SZ.

(** The slots with their buffers. *)
Notation Conns := (gmap nat (conn * bytes)).

Inductive daemon_step : Daemon * Conns → Daemon * Conns → Prop :=
  | step_refuse tick puid euid d d' cs :
      accept_gated tick puid euid d = (false, d') → daemon_step (d, cs) (d', cs)
  | step_accept tick puid euid d d' cs i :
      accept_gated tick puid euid d = (true, d') → i < MAX_AGENTS → cs !! i = None →
      daemon_step (d, cs) (d', <[i := (new_conn, [])]> cs)
  | step_read tick d cs i c buf chunk c' d' buf' :
      cs !! i = Some (c, buf) → chunk ≠ [] → (Z.of_nat (length (buf ++ chunk)) ≤ CONN_BUF)%Z →
      Rpc.conn_frames (λ s fr b, handle_agent_frame tick fr b s.1 s.2) false chunk ((c, d), buf) = ((c', d'), buf') →
      daemon_step (d, cs) (d', <[i := (c', buf')]> cs)
  | step_close tick d cs i c :
      cs !! i = Some c → daemon_step (d, cs) (conn_closed tick d, delete i cs)
  | step_sweep tick d cs : daemon_step (d, cs) (sweep tick d, cs)
  | step_reap tick pid code signaled d cs : daemon_step (d, cs) (record_exit tick pid code signaled d, cs).

(** ** What never changes back *)

Definition ids (r : retraced_registry) : list bytes := map ae_id (agents r).

(** From one state of the daemon to a later one: identifiers stay distinct and
    known, the journal at [p] only grows, and the policy is not an agent's to
    change. *)
Record evolves (p : bytes) (d d' : Daemon) : Prop := mkEvolves {
  ev_wf : wf (reg d) → wf (reg d');
  ev_ids : wf (reg d) → ids (reg d) ⊆ ids (reg d');
  ev_journal : ∀ es k, JournalChain.holds p es k (jr d, disk d) →
    ∃ es' k', JournalChain.holds p (es ++ es') k' (jr d', disk d');
  ev_policy : policy_blob d' = policy_blob d ∧ ctl_epoch d' = ctl_epoch d ∧ nonce d' = nonce d;
}.

Lemma evolves_refl p d : evolves p d d.
Proof. split; try done. intros es k H. exists [], k. by rewrite app_nil_r. Qed.

Lemma evolves_trans p d1 d2 d3 : evolves p d1 d2 → evolves p d2 d3 → evolves p d1 d3.
Proof.
  intros [W1 I1 J1 P1] [W2 I2 J2 P2]. split.
  - auto.
  - intros W x Hx. by apply I2, I1; [apply W1| |].
  - intros es k H. destruct (J1 _ _ H) as (e1 & k1 & H1). destruct (J2 _ _ H1) as (e2 & k2 & H2).
    exists (e1 ++ e2), k2. by rewrite app_assoc.
  - destruct P1 as (<- & <- & <-). done.
Qed.

Lemma write_frame_keeps type payload c :
  agent_id (write_frame type payload c) = agent_id c ∧ helloed (write_frame type payload c) = helloed c ∧
  c_spectator (write_frame type payload c) = c_spectator c ∧
  (out (write_frame type payload c) = out c ∨ out (write_frame type payload c) = out c ++ [(type, payload)]).
Proof using Type. unfold write_frame. destruct (Rpc.retrace_rpc_frame_encode _ _ _ _ _); cbn; split_and!; auto. Qed.

Lemma greet_keeps i c d :
  agent_id (greet i c d) = agent_id c ∧ helloed (greet i c d) = helloed c ∧ c_spectator (greet i c d) = c_spectator c.
Proof using Type.
  unfold greet. destruct (match agents (reg d) !! i with Some _ => _ | None => _ end) as [id s].
  set (c1 := write_frame _ _ c). pose proof (write_frame_keeps Rpc.RETRACE_RPC_MSG_WELCOME
    (welcome_text id s (ctl_epoch d) (c_spectator c)) c) as (E1 & E2 & E3 & _). fold c1 in E1, E2, E3.
  rewrite <- E1, <- E2, <- E3. destruct (policy_blob d) as [blob|]; [|done]. destruct (c_spectator c1) eqn:Es; [done|].
  pose proof (write_frame_keeps Rpc.RETRACE_RPC_MSG_POLICY_SET blob c1) as (-> & -> & -> & _). by rewrite Es.
Qed.

Section invariant.
Context (p : bytes) (Hopen : fopen_ok p = true).

Lemma journal_evolves ts agent seq payload d : evolves p d (journal ts agent seq payload d).
Proof.
  split; try done. intros es k H. set (e := JournalChain.mkEvent ts agent seq (Some payload)).
  change (jr (journal ts agent seq payload d), disk (journal ts agent seq payload d)) with
    ((JournalChain.write_event fopen_ok remove_ok (jr d, disk d) e).1,
     (JournalChain.write_event fopen_ok remove_ok (jr d, disk d) e).2).
  rewrite <- surjective_pairing. destruct (JournalChain.fits e) eqn:Ef.
  - exists [e]. eexists. by apply JournalChain.write_holds.
  - exists [], k. rewrite app_nil_r. by rewrite (JournalChain.reject_holds _ _ p es k).
Qed.

Lemma reg_evolves r d : (wf (reg d) → wf r ∧ ids (reg d) ⊆ ids r) → evolves p d (set_reg r d).
Proof.
  intros H. split; [by intros W; apply H|by intros W; apply H| |done].
  intros es k Hh. exists [], k. by rewrite app_nil_r.
Qed.

Lemma drift_evolves x d : evolves p d (set_drift x d).
Proof. split; try done. intros es k Hh. exists [], k. by rewrite app_nil_r. Qed.

Lemma upd_ids i f r : keeps_id f → ids (upd i f r) = ids r.
Proof. intros Hf. unfold ids, upd. cbn. by apply map_ids_alter. Qed.

Lemma upd_evolves i f r d :
  keeps_id f → (wf (reg d) → wf r ∧ ids (reg d) ⊆ ids r) → evolves p d (set_reg (upd i f r) d).
Proof.
  intros Hf H. apply reg_evolves. intros W. destruct (H W) as [Wr Hi]. split; [by apply upd_wf|]. by rewrite upd_ids.
Qed.

Lemma upd_own_evolves i f d : keeps_id f → evolves p d (set_reg (upd i f (reg d)) d).
Proof. intros Hf. by apply upd_evolves. Qed.

Lemma summary_evolves ts i d : evolves p d (drift_summary ts i d).
Proof.
  unfold drift_summary. destruct (agents (reg d) !! i) as [e|]; [|apply evolves_refl].
  case_if; [apply evolves_refl|]. eapply evolves_trans; [apply journal_evolves|]. by apply upd_own_evolves.
Qed.

Lemma summaries_evolve ts d : evolves p d (daemon_frame_drift_summaries ts d).
Proof.
  unfold daemon_frame_drift_summaries. generalize (seq 0 (length (agents (reg d)))) as l. intros l. revert d.
  induction l as [|i l IH]; intros d; [apply evolves_refl|]. cbn [foldl].
  eapply evolves_trans; [apply summary_evolves|apply IH].
Qed.

Lemma grade_evolves tick o source q d : evolves p d (grade_event tick o source q d).
Proof.
  unfold grade_event. case_if.
  - destruct (retrace_drift_observe _ _ _ _ _) as [[] x].
    + eapply evolves_trans; [apply drift_evolves|apply journal_evolves].
    + apply drift_evolves.
  - case_if; [apply drift_evolves|apply evolves_refl].
Qed.

Lemma event_evolves tick c payload d : evolves p d (handle_event tick c payload d).
Proof.
  unfold handle_event. destruct (json_parse_string payload) as [v|]; [|apply evolves_refl]. cbv zeta.
  eapply evolves_trans; [apply journal_evolves|].
  destruct (json_object_get_string _ "source") as [source|]; [|apply evolves_refl].
  eapply evolves_trans; [|apply grade_evolves]. case_if; [|apply evolves_refl].
  unfold count_observation. destruct (retraced_registry_find _ _); [|apply evolves_refl]. by apply upd_own_evolves.
Qed.

Lemma ack_evolves tick c payload d : evolves p d (handle_ack tick c payload d).
Proof.
  unfold handle_ack. cbv zeta. eapply evolves_trans; [|apply journal_evolves].
  destruct (json_parse_string payload) as [v|]; [|apply evolves_refl].
  destruct (retraced_registry_find _ _); [|apply evolves_refl]. by apply upd_own_evolves.
Qed.

(** A greeted connection has its agent. *)
Definition registered (c : conn) (d : Daemon) : Prop := helloed c = true → agent_id c ∈ ids (reg d).

Lemma frame_evolves tick type payload c d :
  let '(c', d') := (daemon_frame_handle tick type payload c d).2 in
  evolves p d d' ∧ (wf (reg d) → registered c d → registered c' d').
Proof.
  unfold daemon_frame_handle.
  assert (∀ c d d', evolves p d d' → evolves p d d' ∧ (wf (reg d) → registered c d → registered c d')) as Hsame.
  { intros c1 d1 d1' He. split; [done|]. intros W Hr Hh. by apply (ev_ids _ _ _ He), Hr. }
  case_if.
  { case_if; [by apply Hsame, evolves_refl|]. destruct (json_parse_string payload); [|by apply Hsame, evolves_refl].
    apply Hsame. unfold retraced_registry_heartbeat. destruct (retraced_registry_find _ _); cbn [snd].
    - by apply upd_own_evolves.
    - by apply reg_evolves. }
  case_if. { apply Hsame. destruct (helloed c); [apply event_evolves|apply evolves_refl]. }
  case_if. { apply Hsame. destruct (helloed c); [apply ack_evolves|apply evolves_refl]. }
  case_if.
  { cbn [snd]. split; [apply evolves_refl|]. intros W Hr Hh.
    pose proof (write_frame_keeps Rpc.RETRACE_RPC_MSG_PING (lit "{}") c) as (-> & E & _). rewrite E in Hh. by apply Hr. }
  case_if; [|by apply Hsame, evolves_refl].
  cbn [snd]. split; [|done]. unfold retraced_registry_bye. destruct (retraced_registry_find _ _); [by apply upd_own_evolves|].
  by apply reg_evolves.
Qed.

Lemma hello_ids r id_in q qq s c : ids r ⊆ ids (retraced_registry_hello r id_in q qq s c).1.
Proof.
  unfold retraced_registry_hello. set (mint := match id_in with None | Some [] => true | _ => false end).
  set (r1 := if mint then _ else r). assert (ids r1 = ids r) as <- by (unfold r1; by destruct mint).
  destruct (retraced_registry_find _ _); cbn [fst]; [by rewrite upd_ids|]. case_if; [done|]. unfold ids. cbn.
  rewrite map_app. intros x Hx. apply elem_of_app. by left.
Qed.

Lemma link_parent_ids r i : wf r → wf (retraced_registry_link_parent r i).1 ∧ ids (retraced_registry_link_parent r i).1 = ids r.
Proof.
  intros W. unfold retraced_registry_link_parent. destruct (agents r !! i) as [e|]; [|done].
  case_if; [done|]. destruct (parent_from _ _ _ _); cbn [fst]; by split; [apply upd_wf|apply upd_ids].
Qed.

Lemma session_evolves tick i d : evolves p d (resolve_session tick i d).
Proof.
  unfold resolve_session. pose proof (link_parent_ids (reg d) i) as Hl.
  destruct (retraced_registry_link_parent (reg d) i) as [r parent]. cbn [fst] in Hl.
  assert (wf (reg d) → wf r ∧ ids (reg d) ⊆ ids r) as Hr by (intros W; destruct (Hl W) as [? ->]; done).
  destruct (agents r !! i) as [e|]; [|by apply reg_evolves]. cbv zeta.
  assert (∀ f s, keeps_id f → evolves p d (journal (t_time tick) (lit "daemon") 0 s (set_reg (upd i f r) (set_reg r d)))) as Hj.
  { intros f s Hf. eapply evolves_trans; [|apply journal_evolves]. by apply (upd_evolves i f r d). }
  case_if; [by apply Hj|]. case_if; [by apply Hj|]. by apply reg_evolves.
Qed.

Lemma hello_evolves tick payload c d :
  let '(c', d') := handle_hello tick payload c d in
  evolves p d d' ∧ (wf (reg d) → registered c d → registered c' d').
Proof.
  unfold handle_hello. destruct (json_parse_string payload) as [v|]; [|by split; [apply evolves_refl|]]. cbv zeta.
  set (o := json_value_get_object (Some v)). set (spectator := negb _).
  set (pid := d_i64 (json_object_get_number o "pid")). set (ppid := d_i64 (json_object_get_number o "ppid")).
  set (token := jstr o "session_token" _). set (cmd := jstr o "cmdline" _).
  assert (wf (reg d) → let '(r', res) := retraced_registry_hello (reg d) None pid ppid (Some token) (Some cmd) in
    (wf r' ∧ ids (reg d) ⊆ ids r') ∧
    match res with Some i => ∃ e, agents r' !! i = Some e ∧ length (ae_id e) < RETRACED_AGENT_ID_MAX | None => True end) as Hh.
  { intros W. pose proof (hello_refines (reg d) None pid ppid (Some token) (Some cmd) W (minted_fits _ _)) as H.
    pose proof (hello_ids (reg d) None pid ppid (Some token) (Some cmd)) as Hi.
    destruct (retraced_registry_hello _ _ _ _ _ _) as [r' res]. destruct H as (W' & _ & Hres). split; [done|].
    destruct res as [i|]; [|done]. destruct Hres as (e & He & Hid & _). exists e. split; [done|]. rewrite Hid. apply minted_fits. }
  destruct (retraced_registry_hello _ _ _ _ _ _) as [r res].
  destruct res as [i|].
  2: { split; [apply reg_evolves; intros W; by apply Hh|]. intros W Hr Hhe. cbn in *. apply (Hh W), Hr. done. }
  set (r1 := upd i _ r).
  assert (wf (reg d) → wf r1 ∧ ids (reg d) ⊆ ids r1) as Hr1.
  { intros W. destruct (Hh W) as [[Wr Hi] _]. split; [by apply upd_wf|]. unfold r1. by rewrite upd_ids. }
  set (d1 := resolve_session tick i (set_reg r1 d)).
  assert (evolves p (set_reg r1 d) d1) as He1 by apply session_evolves.
  assert (evolves p d d1) as He by (eapply evolves_trans; [by apply reg_evolves|exact He1]).
  split; [eapply evolves_trans; [exact He|apply journal_evolves]|].
  intros W Hr Hhe. destruct (Hh W) as [[Wr Hi] (e & Hei & Hlen)].
  set (c1 := mkConn _ true spectator _). pose proof (greet_keeps i c1 d1) as (-> & _). cbn [agent_id c1].
  change (ids (reg (journal _ _ _ _ d1))) with (ids (reg d1)). apply (ev_ids _ _ _ He1); [by apply Hr1|].
  cbn [set_reg reg]. unfold r1. rewrite upd_ids by done. rewrite Hei. unfold snprintf.
  rewrite firstn_all2 by lia. unfold ids. apply list_elem_of_fmap. exists e. split; [done|].
  by eapply list_elem_of_lookup_2.
Qed.

Lemma agent_frame_evolves tick fr buf c d :
  let '(c', d') := handle_agent_frame tick fr buf c d in
  evolves p d d' ∧ (wf (reg d) → registered c d → registered c' d').
Proof. unfold handle_agent_frame. case_if; [apply hello_evolves|apply frame_evolves]. Qed.

Lemma read_evolves tick c d buf chunk c' d' buf' :
  Rpc.conn_frames (λ s fr b, handle_agent_frame tick fr b s.1 s.2) false chunk ((c, d), buf) = ((c', d'), buf') →
  evolves p d d' ∧ (wf (reg d) → registered c d → registered c' d').
Proof.
  unfold Rpc.conn_frames. cbn [fst snd]. intros E.
  pose proof (Rpc.frame_loop_keeps (λ s fr b, handle_agent_frame tick fr b s.1 s.2)
    (λ s, evolves p d s.2 ∧ (wf (reg d) → registered c d → registered s.1 s.2)) false
    (S (length (buf ++ chunk))) (buf ++ chunk) (c, d)) as H.
  rewrite E in H. apply H; cbn [fst snd].
  - intros [c1 d1] fr b [He Hr]. cbn [fst snd] in *. pose proof (agent_frame_evolves tick fr b c1 d1) as H1.
    destruct (handle_agent_frame tick fr b c1 d1) as [c2 d2]. destruct H1 as [He1 Hr1].
    split; [by eapply evolves_trans|]. intros W Hc. apply Hr1; [by apply (ev_wf _ _ _ He)|by apply Hr].
  - by split; [apply evolves_refl|].
Qed.

Lemma flush_evolves d : evolves p d (set_journal (retraced_journal_flush (jr d) (disk d)) d).
Proof.
  split; try done. intros es k H. exists []. rewrite app_nil_r. destruct H as [Hp Hh Hn Hf Hd Hdisk Hs].
  unfold retraced_journal_flush, fflush. cbn [set_journal jr disk fst snd] in *.
  destruct (stream (jr d)) as [[q buf]|] eqn:Es; [|exists k; by split; cbn; rewrite ?Es].
  destruct Hs as (-> & -> & Hsome). exists (length es).
  split; cbn [fst snd set_stream path prev_hash rotate_bytes rotate_seconds stream]; try done.
  - intros i e Hi _. by eapply lookup_lt_Some.
  - unfold content in *. rewrite lookup_insert_eq. cbn [default]. rewrite Hdisk, <- concat_app, take_drop.
    by rewrite firstn_all2 by (by rewrite JournalChain.lines_length).
  - split; [done|]. split; [by rewrite skipn_all2; [|rewrite JournalChain.lines_length]|].
    rewrite lookup_insert_eq. by eexists.
Qed.

Lemma closed_evolves tick d : evolves p d (conn_closed tick d).
Proof. unfold conn_closed. eapply evolves_trans; [apply summaries_evolve|apply flush_evolves]. Qed.

Lemma sweep_evolves tick d : evolves p d (sweep tick d).
Proof.
  unfold sweep. cbv zeta. eapply evolves_trans; [apply summaries_evolve|]. apply reg_evolves. intros W.
  pose proof (sweep_refines _ (t_ms tick) HB_TIMEOUT_MS W) as H.
  set (d1 := daemon_frame_drift_summaries _ d) in *.
  destruct (retraced_registry_sweep (reg d1) (t_ms tick) HB_TIMEOUT_MS) as [r n] eqn:E. cbn [fst]. destruct H as (Wr & _). split; [done|].
  unfold retraced_registry_sweep in E. injection E as <- _. unfold ids. cbn [agents]. rewrite map_map.
  intros x (e & -> & He)%list_elem_of_fmap. apply list_elem_of_fmap. exists e. split; [|done].
  by destruct (overdue _ _ _).
Qed.

Lemma gate_evolves tick puid euid d b d' : accept_gated tick puid euid d = (b, d') → evolves p d d'.
Proof.
  unfold accept_gated. destruct puid as [puid|]; [|by intros [= _ <-]; apply evolves_refl].
  destruct (retraced_peer_allowed puid euid); intros [= _ <-]; [apply evolves_refl|apply journal_evolves].
Qed.

(** All connections of the daemon. *)
Definition conns_ok (s : Daemon * Conns) : Prop :=
  ∀ i c buf, s.2 !! i = Some (c, buf) → i < MAX_AGENTS ∧ registered c s.1.

Lemma step_evolves s s' :
  daemon_step s s' → evolves p s.1 s'.1 ∧ (wf (reg s.1) → conns_ok s → conns_ok s').
Proof.
  assert (∀ d d' cs, evolves p d d' → wf (reg d) → conns_ok (d, cs) → conns_ok (d', cs)) as Hsame.
  { intros d d' cs He W Hc i c buf Hi. destruct (Hc i c buf Hi) as [Hm Hr]. split; [done|].
    intros Hh. by apply (ev_ids _ _ _ He), Hr. }
  destruct 1 as [tick puid euid d d' cs Hg|tick puid euid d d' cs i Hg Hi Hn|tick d cs i c buf chunk c' d' buf' Hi _ _ Hf
    |tick d cs i c Hi|tick d cs|tick q code signaled d cs]; cbn [fst snd].
  - apply gate_evolves in Hg. split; [done|]. by apply Hsame.
  - apply gate_evolves in Hg. split; [done|]. intros W Hc j c buf. cbn [snd]. destruct (decide (j = i)) as [->|Hj].
    + rewrite lookup_insert_eq. intros [= <- <-]. by split.
    + rewrite lookup_insert_ne by done. intros E. exact (Hsame _ _ _ Hg W Hc j c buf E).
  - apply read_evolves in Hf as [He Hr]. split; [done|]. intros W Hc j c1 buf1. cbn [snd].
    destruct (decide (j = i)) as [->|Hj].
    + rewrite lookup_insert_eq. intros [= <- <-]. destruct (Hc i c buf Hi) as [Hm Hreg]. split; [done|]. by apply Hr.
    + rewrite lookup_insert_ne by done. intros E. exact (Hsame _ _ _ He W Hc j c1 buf1 E).
  - pose proof (closed_evolves tick d) as He. split; [done|]. intros W Hc j c1 buf1. cbn [snd].
    intros [_ E]%lookup_delete_Some. exact (Hsame _ _ _ He W Hc j c1 buf1 E).
  - pose proof (sweep_evolves tick d) as He. split; [done|]. by apply Hsame.
  - split; [apply journal_evolves|]. apply Hsame, journal_evolves.
Qed.

(** Whatever the agents send and whenever they connect and
    leave, every state the daemon reaches has distinct identifiers within the
    bound of its registry, an agent for each greeted connection, at most 128
    connections, and a journal that is the chain of its records and extends the
    one it started from; the policy is the one it started with. *)
Theorem daemon_reachable_ok d0 d cs es0 k0 :
  rtc daemon_step (d0, ∅) (d, cs) → wf (reg d0) → JournalChain.holds p es0 k0 (jr d0, disk d0) →
  wf (reg d) ∧ conns_ok (d, cs) ∧
  (∃ es k, JournalChain.holds p (es0 ++ es) k (jr d, disk d)) ∧
  policy_blob d = policy_blob d0 ∧ nonce d = nonce d0.
Proof.
  intros Hr W Hh. assert (evolves p d0 d ∧ conns_ok (d, cs)) as [He Hc].
  { remember (d, cs) as s eqn:Es. change d with (d, cs).1. rewrite <- Es. clear d cs Es Hh.
    refine (rtc_ind_r (λ s, evolves p d0 s.1 ∧ conns_ok s) (d0, ∅) _ _ s Hr).
    - split; [apply evolves_refl|]. intros i c buf Hi. cbn in Hi. by rewrite lookup_empty in Hi.
    - intros s1 s2 _ Hs [He Hc]. apply step_evolves in Hs as [He2 Hc2].
      split; [by eapply evolves_trans|]. apply Hc2; [|done]. by apply (ev_wf _ _ _ He). }
  destruct He as [HW _ HJ HP]. destruct HP as (? & _ & ?). split_and!; try done; [by apply HW|]. by apply (HJ es0 k0).
Qed.

End invariant.

(** ** Policies and the nonce *)

(** The frames written, and the policies among them. *)
Definition writes_policy (c c' : conn) (allowed : bytes → Prop) : Prop :=
  ∃ new, out c' = out c ++ new ∧ ∀ blob, (Rpc.RETRACE_RPC_MSG_POLICY_SET, blob) ∈ new → allowed blob.

Lemma writes_same c c' allowed : out c' = out c → writes_policy c c' allowed.
Proof. intros E. exists []. rewrite E, app_nil_r. split; [done|]. intros blob H. by apply not_elem_of_nil in H. Qed.

Lemma writes_frame type payload c allowed :
  (type = Rpc.RETRACE_RPC_MSG_POLICY_SET → allowed payload) → writes_policy c (write_frame type payload c) allowed.
Proof.
  intros H. destruct (write_frame_keeps type payload c) as (_ & _ & _ & [E|E]); [by apply writes_same|].
  exists [(type, payload)]. split; [done|]. intros blob [= <- <-]%list_elem_of_singleton. by apply H.
Qed.

Lemma writes_trans c1 c2 c3 allowed :
  writes_policy c1 c2 allowed → writes_policy c2 c3 allowed → writes_policy c1 c3 allowed.
Proof.
  intros (n1 & E1 & H1) (n2 & E2 & H2). exists (n1 ++ n2). rewrite E2, E1, app_assoc. split; [done|].
  intros blob [H|H]%elem_of_app; auto.
Qed.

Lemma greet_writes i c d :
  writes_policy c (greet i c d) (λ blob, policy_blob d = Some blob ∧ c_spectator c = false).
Proof.
  unfold greet. destruct (match agents (reg d) !! i with Some _ => _ | None => _ end) as [id s].
  set (w := welcome_text id s (ctl_epoch d) (c_spectator c)).
  pose proof (write_frame_keeps Rpc.RETRACE_RPC_MSG_WELCOME w c) as (_ & _ & Es & _).
  eapply writes_trans; [by apply (writes_frame Rpc.RETRACE_RPC_MSG_WELCOME w)|].
  destruct (policy_blob d) as [blob|]; [|by apply writes_same]. rewrite Es.
  destruct (c_spectator c); [by apply writes_same|]. by apply writes_frame.
Qed.

Lemma frame_writes tick type payload c d :
  writes_policy c (daemon_frame_handle tick type payload c d).2.1 (λ _, False).
Proof.
  unfold daemon_frame_handle.
  case_if; [case_if; [|destruct (json_parse_string payload)]; by apply writes_same|].
  case_if; [by apply writes_same|]. case_if; [by apply writes_same|].
  case_if; [by apply writes_frame|]. case_if; by apply writes_same.
Qed.

Lemma session_policy tick i d : policy_blob (resolve_session tick i d) = policy_blob d.
Proof.
  unfold resolve_session. destruct (retraced_registry_link_parent _ _) as [r parent].
  destruct (agents r !! i) as [e|]; [|done]. cbv zeta. case_if; [done|]. by case_if.
Qed.

(** A policy is sent only in answer to a greeting that presents the
    daemon's nonce, and it is the policy the daemon holds: whatever else an agent
    sends, and to an agent without the nonce whatever it sends, no policy
    leaves. *)
Theorem policy_needs_nonce tick fr buf c d :
  let '(c', _) := handle_agent_frame tick fr buf c d in
  ∃ new, out c' = out c ++ new ∧
    ∀ blob, (Rpc.RETRACE_RPC_MSG_POLICY_SET, blob) ∈ new →
      policy_blob d = Some blob ∧ Rpc.type fr = Rpc.RETRACE_RPC_MSG_HELLO ∧ c_spectator c' = false ∧
      ∃ v, json_parse_string (frame_payload fr buf) = Some v ∧
           jstr (json_value_get_object (Some v)) "nonce" 80 = nonce d.
Proof.
  assert (∀ c', out c' = out c → ∃ new, out c' = out c ++ new ∧
    ∀ blob, (Rpc.RETRACE_RPC_MSG_POLICY_SET, blob) ∈ new →
      policy_blob d = Some blob ∧ Rpc.type fr = Rpc.RETRACE_RPC_MSG_HELLO ∧ c_spectator c' = false ∧
      ∃ v, json_parse_string (frame_payload fr buf) = Some v ∧
           jstr (json_value_get_object (Some v)) "nonce" 80 = nonce d) as Hsame.
  { intros c' E. destruct (writes_same c c' (λ _, False) E) as (new & En & Hn). exists new. split; [done|].
    intros blob Hb. by destruct (Hn blob Hb). }
  unfold handle_agent_frame. destruct (Z.eqb_spec (Rpc.type fr) Rpc.RETRACE_RPC_MSG_HELLO) as [Ht|Ht].
  2: { destruct (frame_writes tick (Rpc.type fr) (frame_payload fr buf) c d) as (new & En & Hn).
       destruct (daemon_frame_handle _ _ _ _ _) as [rc [c' d']]. exists new. split; [done|]. by intros blob ?%Hn. }
  unfold handle_hello. destruct (json_parse_string _) as [v|]; [|by apply Hsame]. cbv zeta.
  set (o := json_value_get_object (Some v)).
  destruct (retraced_registry_hello _ _ _ _ _ _) as [r [i|]]; [|by apply Hsame].
  match goal with |- context [greet i ?x ?y] => set (c1 := x); set (d1 := y) end.
  destruct (greet_writes i c1 d1) as (new & En & Hn). pose proof (greet_keeps i c1 d1) as (_ & _ & Es).
  exists new. split; [exact En|]. intros blob Hb. destruct (Hn blob Hb) as [Hp Hs].
  assert (policy_blob d1 = policy_blob d) as Ed by (unfold d1; by rewrite session_policy).
  rewrite Es. split; [by rewrite <- Ed|]. split; [done|]. split; [done|].
  exists v. split; [done|]. unfold c1 in Hs. cbn [c_spectator] in Hs. apply negb_false_iff, nonce_exact in Hs.
  by apply (inj Some) in Hs.
Qed.

End daemon.

(** ** A concrete daemon *)

#[local] Existing Instance JsonRoundTrip.whole_numbers.

Definition toy_nonce : bytes := lit "0123456789abcdef0123456789abcdef".

Definition toy_daemon : Daemon :=
  mkDaemon retraced_registry_init (retraced_journal_open JournalChain.sample_path) ∅ retrace_drift_hits_reset
    (Some (jlit "{'policy':{'epoch':1},'intercept_scripts':[]}")) 1 toy_nonce.

Definition toy_tick : Tick := mkTick 1700000000 5000 (repeat 171%Z 16) 0.

Definition toy_hello : Rpc.message :=
  Rpc.mkMessage 1 Rpc.RETRACE_RPC_MSG_HELLO
    (jlit "{'session_token':'','nonce':'" ++ toy_nonce ++ jlit "','pid':7,'ppid':1}").

Definition toy_handle (s : conn * Daemon) (fr : Rpc.retrace_rpc_frame) (b : bytes) : conn * Daemon :=
  handle_agent_frame (λ _, true) (λ _, true) (λ _, 0%Z) toy_tick fr b s.1 s.2.

Definition toy_greeted : conn * Daemon * bytes :=
  Rpc.conn_frames toy_handle false (Rpc.frame_bytes toy_hello) ((new_conn, toy_daemon), []).

Lemma toy_steps :
  rtc (daemon_step (λ _, true) (λ _, true) (λ _, 0%Z)) (toy_daemon, ∅)
    (toy_greeted.1.2, <[0 := (toy_greeted.1.1, toy_greeted.2)]> (<[0 := (new_conn, [])]> ∅)).
Proof.
  eapply rtc_l; [apply (step_accept _ _ _ toy_tick (Some 0%Z) 7 _ toy_daemon ∅ 0); [done|unfold MAX_AGENTS; lia|done]|].
  eapply rtc_l; [|apply rtc_refl].
  eapply (step_read _ _ _ toy_tick toy_daemon _ 0 new_conn [] (Rpc.frame_bytes toy_hello)).
  - apply lookup_insert_eq.
  - done.
  - vm_compute. congruence.
  - unfold toy_greeted, toy_handle. by destruct (Rpc.conn_frames _ _ _ _) as [[c d] b].
Qed.

Lemma daemon_reachable_ok_witness :
  let d := toy_greeted.1.2 in
  wf (reg d) ∧ conns_ok (d, <[0 := (toy_greeted.1.1, toy_greeted.2)]> (<[0 := (new_conn, [])]> ∅)) ∧
  (∃ es k, JournalChain.holds JournalChain.sample_path ([] ++ es) k (jr d, disk d)) ∧
  policy_blob d = policy_blob toy_daemon ∧ nonce d = nonce toy_daemon.
Proof.
  apply (daemon_reachable_ok (λ _, true) (λ _, true) (λ _, 0%Z) JournalChain.sample_path eq_refl toy_daemon _ _ [] 0).
  - exact toy_steps.
  - split; [constructor|cbn; lia].
  - apply JournalChain.empty_holds. vm_compute. lia.
Defined.

(** The greeting is answered with the welcome and the policy. *)
Lemma toy_greeting :
  map fst (out toy_greeted.1.1) = [Rpc.RETRACE_RPC_MSG_WELCOME; Rpc.RETRACE_RPC_MSG_POLICY_SET].
Proof. vm_compute. reflexivity. Qed.

(** ** What an agent can do to the journal *)

(** What the next start makes of the journal this daemon leaves. *)
Definition next_boot (d : Daemon) : Z * Z * Z :=
  JournalChain.boot (content (disk d) JournalChain.sample_path ++ JournalChain.buffered (jr d)).

Definition toy_frame (type : Z) (payload : bytes) : Daemon :=
  (daemon_frame_handle (λ _, true) (λ _, true) (λ _, 0%Z) toy_tick type payload toy_greeted.1.1 toy_greeted.1.2).2.2.

Lemma toy_boots : next_boot toy_greeted.1.2 = (0, -1, 2)%Z.
Proof. vm_compute. reflexivity. Qed.

(** An acknowledgement is journalled unread: one that is no JSON ends what later
    starts recover. *)
Lemma bad_ack_ends_journal :
  next_boot (journal (λ _, true) (λ _, true) 1700000000 (lit "daemon") 0 (lit "{}")
    (toy_frame Rpc.RETRACE_RPC_MSG_POLICY_ACK (lit "applied"))) = (0, -1, 2)%Z.
Proof. vm_compute. reflexivity. Qed.

(** An event that closes its record and opens another makes the next start
    refuse the journal. *)
Lemma forged_event_refused :
  next_boot (toy_frame Rpc.RETRACE_RPC_MSG_EVENT (lit "{}}" ++ [NL] ++ jlit "{'prev':'0'")) = (-1, 4, 3)%Z.
Proof. vm_compute. reflexivity. Qed.

(** A long path of a kernel observation cuts the record of the hit, and ends
    what later starts recover. *)
Lemma long_hit_ends_journal :
  next_boot (journal (λ _, true) (λ _, true) 1700000000 (lit "daemon") 0 (lit "{}")
    (toy_frame Rpc.RETRACE_RPC_MSG_EVENT
       (jlit "{'source':'kernel','attrs':{'syscall':'openat','path':'" ++ repeat "a"%char 300 ++ jlit "'}}")))
  = (0, -1, 3)%Z.
Proof. vm_compute. reflexivity. Qed.

End Daemon.
