(* ===== verification/Ctl.v ===== *)
(** * The controller plane

    [tools/retraced/retraced_ctl.c] with the scopes of [tools/retraced/tls_gate.c]:
    the verbs of the control socket over the daemon's state, the gate that
    compares the scope of a verb with the claims of the peer, policy pushes,
    freezes and thaws, and the session tree. A peer without the claim of a verb
    changes nothing but the journal; the session tree has every agent once; a
    thaw restores the policy that was pushed; every greeted agent was last sent
    the policy the daemon holds. *)

From S2P Require Import Prelude Numerals Libc Stdio Json JsonText JsonRoundTrip JsonObject JsonPrint.
From S2P Require Import AgentRegistry Journal JournalChain Rpc PolicySig Daemon JsonSize.

Module Ctl.

Import Numerals Libc Stdio Json JsonText JsonObject AgentRegistry Journal.

Notation conn := Daemon.conn.
Notation Daemon := Daemon.Daemon.

(** ** Scopes *)

Definition RETRACED_SCOPE_STATUS : Z := 1.
Definition RETRACED_SCOPE_PS : Z := 2.
Definition RETRACED_SCOPE_POLICY : Z := 4.
Definition RETRACED_SCOPE_KILL : Z := 8.
Definition RETRACED_SCOPE_SPAWN : Z := 16.
Definition RETRACED_SCOPE_ALL : Z := 31.

Definition scope_of_claim (tok : bytes) : Z :=
  if streq tok (lit "status") then RETRACED_SCOPE_STATUS
  else if streq tok (lit "ps") then RETRACED_SCOPE_PS
  else if streq tok (lit "policy") || streq tok (lit "policy_push") || streq tok (lit "freeze")
          || streq tok (lit "thaw") then RETRACED_SCOPE_POLICY
  else if streq tok (lit "kill") then RETRACED_SCOPE_KILL
  else if streq tok (lit "spawn") then RETRACED_SCOPE_SPAWN
  else if streq tok (lit "all") then RETRACED_SCOPE_ALL
  else 0.

Definition claim_sep (c : ascii) : bool := ceq c "," || ceq c "+" || ceq c " ".

(** The token at the head of the claims, at most [n] bytes, and the rest. *)
Fixpoint claim_token (n : nat) (s : bytes) : bytes * bytes :=
  match n, s with
  | S n, c :: s' => if claim_sep c then ([], s) else let '(t, r) := claim_token n s' in (c :: t, r)
  | _, _ => ([], s)
  end.

Fixpoint parse_scopes (fuel : nat) (s : bytes) (acc : Z) : Z :=
  match fuel, s with
  | S fuel, _ :: _ =>
      let '(tok, rest) := claim_token 31 s in
      parse_scopes fuel (skip claim_sep rest) (Z.lor acc (scope_of_claim tok))
  | _, _ => acc
  end.

Definition retraced_tls_parse_scopes (csv : option bytes) : Z :=
  match csv with
  | None => 0
  | Some csv => parse_scopes (S (length csv)) csv 0
  end.

(** ** The verb table *)

Inductive verb := V_status | V_ps | V_sessions | V_events | V_drift | V_policy_push | V_freeze | V_thaw | V_kill | V_spawn.

Record retraced_ctl_verb := mkVerb { v_name : bytes; v_scope : Z; v_fn : verb }.

Definition ctl_verbs : list retraced_ctl_verb :=
  [mkVerb (lit "status") RETRACED_SCOPE_STATUS V_status;
   mkVerb (lit "ps") RETRACED_SCOPE_PS V_ps;
   mkVerb (lit "sessions") RETRACED_SCOPE_PS V_sessions;
   mkVerb (lit "events") RETRACED_SCOPE_STATUS V_events;
   mkVerb (lit "drift") RETRACED_SCOPE_PS V_drift;
   mkVerb (lit "policy_push") RETRACED_SCOPE_POLICY V_policy_push;
   mkVerb (lit "freeze") RETRACED_SCOPE_POLICY V_freeze;
   mkVerb (lit "thaw") RETRACED_SCOPE_POLICY V_thaw;
   mkVerb (lit "kill") RETRACED_SCOPE_KILL V_kill;
   mkVerb (lit "spawn") RETRACED_SCOPE_SPAWN V_spawn].

Fixpoint verb_from (vs : list retraced_ctl_verb) (name : bytes) : option retraced_ctl_verb :=
  match vs with
  | [] => None
  | v :: vs => if streq (v_name v) name then Some v else verb_from vs name
  end.

Definition ctl_verb_find (name : bytes) : option retraced_ctl_verb := verb_from ctl_verbs name.

Definition retraced_tls_scope_for_cmd (cmd : option bytes) : Z :=
  match cmd with
  | Some cmd => match ctl_verb_find cmd with Some v => v_scope v | None => 0 end
  | None => 0
  end.

(** ** State *)

(** [struct retraced_ctl_ctx]. The policy and its epoch, the registry and the
    journal are the daemon's. [replies] is what went to the reply sink, [kills]
    the processes that were sent a signal and [spawns] the calls of the spawn
    seam. *)
Record Ctl := mkCtl {
  dm : Daemon;
  slots : gmap nat (conn * bytes);
  frozen : bool;
  thaw_blob : option bytes;
  scopes : Z;
  replies : list bytes;
  kills : list Z;
  spawns : list (list (option bytes) * option bytes);
}.

(** What a line finds: the clock, the process id, and the spawn seam with its
    result and its reason. *)
Record Env := mkEnv {
  e_time : Z;
  e_pid : Z;
  e_spawn : option (list (option bytes) → option bytes → Z * bytes);
}.

Definition set_dm (d : Daemon) (c : Ctl) : Ctl :=
  mkCtl d (slots c) (frozen c) (thaw_blob c) (scopes c) (replies c) (kills c) (spawns c).
Definition set_slots (s : gmap nat (conn * bytes)) (c : Ctl) : Ctl :=
  mkCtl (dm c) s (frozen c) (thaw_blob c) (scopes c) (replies c) (kills c) (spawns c).
Definition set_frozen (b : bool) (c : Ctl) : Ctl :=
  mkCtl (dm c) (slots c) b (thaw_blob c) (scopes c) (replies c) (kills c) (spawns c).
Definition set_thaw (t : bytes) (c : Ctl) : Ctl :=
  mkCtl (dm c) (slots c) (frozen c) (Some t) (scopes c) (replies c) (kills c) (spawns c).
Definition set_scopes (s : Z) (c : Ctl) : Ctl :=
  mkCtl (dm c) (slots c) (frozen c) (thaw_blob c) s (replies c) (kills c) (spawns c).

Definition ctl_reply (text : bytes) (c : Ctl) : Ctl :=
  mkCtl (dm c) (slots c) (frozen c) (thaw_blob c) (scopes c) (replies c ++ [snprintf 1024 text]) (kills c) (spawns c).

Section ctl.
Context (fopen_ok remove_ok : bytes → bool).
Context (out_of_range : double → Z).
Context {DT : DoubleText}.

Notation d_i64 := (PolicySig.d_i64 out_of_range).
Notation d_u64 := (PolicySig.d_u64 out_of_range).

Definition record (env : Env) (text : bytes) (c : Ctl) : Ctl :=
  set_dm (Daemon.journal fopen_ok remove_ok (e_time env) (lit "daemon") 0 text (dm c)) c.

(** ** Policies *)

(** The blob to hold and its epoch. *)
Definition retraced_policy_load (text : bytes) : option (bytes * Z) :=
  v ← json_parse_string text;
  v ← match json_object_get_string (json_value_get_object (Some v)) "blob" with
      | Some b => json_parse_string b
      | None => Some v
      end;
  let root := json_value_get_object (Some v) in
  let epoch := match json_object_get_object root "policy" with
               | Some pol => json_object_get_number (Some pol) "epoch"
               | None => d_zero
               end in
  if PolicySig.d_lt_one epoch
     || match root with Some r => bool_decide (json_object_get_array (Some r) "intercept_scripts" = None) | None => false end
  then None else Some (text, d_i64 epoch).

Definition retraced_ctl_set_policy (blob : bytes) (epoch : Z) (c : Ctl) : Ctl :=
  let d := dm c in
  set_dm (Daemon.mkDaemon (Daemon.reg d) (Daemon.jr d) (Daemon.disk d) (Daemon.drift d) (Some blob) epoch (Daemon.nonce d)) c.

Definition POLICY_MAX_BYTES : nat := 4000.

(** The policy file the daemon is started with; nothing when it does not start. *)
Definition load_policy (file : option bytes) (c : Ctl) : option Ctl :=
  text ← file;
  if (length text =? 0) || (POLICY_MAX_BYTES <? length text) then None
  else
    '(blob, epoch) ← retraced_policy_load (cstr text);
    Some (retraced_ctl_set_policy blob epoch c).

(** The connections a policy goes to. *)
Definition takes_policy (c : conn) : bool := Daemon.helloed c && negb (Daemon.c_spectator c).

Definition retraced_ctl_push_policy (blob : bytes) (c : Ctl) : nat * Ctl :=
  (size (filter (λ x, takes_policy x.2.1 = true) (slots c)),
   set_slots ((λ x, (if takes_policy x.1 then Daemon.write_frame Rpc.RETRACE_RPC_MSG_POLICY_SET blob x.1 else x.1, x.2))
              <$> slots c) c).

Definition pushed_text (epoch : Z) (n : nat) : bytes :=
  jlit "{'ok':1,'epoch':" ++ fmt_ld epoch ++ jlit ",'pushed':" ++ fmt_ld (Z.of_nat n) ++ lit "}" ++ [NL].

Definition policy_event (name : bytes) (epoch : Z) (n : nat) : bytes :=
  jlit "{'name':'" ++ name ++ jlit "','epoch':" ++ fmt_ld epoch ++ jlit ",'agents':" ++ fmt_ld (Z.of_nat n) ++ lit "}".

Definition refuse (reason : bytes) (c : Ctl) : Ctl :=
  ctl_reply (jlit "{'ok':0,'error':'" ++ reason ++ jlit "'}" ++ [NL]) c.

Definition verb_policy_push (env : Env) (o : option JSON_Object) (c : Ctl) : Ctl :=
  match json_object_get_string o "blob" with
  | None => refuse (lit "no blob") c
  | Some in_blob =>
      match retraced_policy_load in_blob with
      | None => refuse (lit "bad policy (need policy.epoch + scripts)") c
      | Some (blob, epoch) =>
          let c := set_thaw blob (set_frozen false (retraced_ctl_set_policy blob epoch c)) in
          let '(n, c) := retraced_ctl_push_policy blob c in
          let c := record env (snprintf 160 (policy_event (lit "retrace.policy.pushed") epoch n)) c in
          ctl_reply (pushed_text epoch n) c
      end
  end.

Definition freeze_blob (epoch : Z) : bytes :=
  jlit "{'policy':{'epoch':" ++ fmt_ld epoch ++
  jlit "},'intercept_scripts':[{'func_name':'*','actions':[{'action_name':'freeze'}]}]}".

Definition verb_freeze (env : Env) (c : Ctl) : Ctl :=
  let epoch := (Daemon.ctl_epoch (dm c) + 1)%Z in
  let blob := snprintf 256 (freeze_blob epoch) in
  let c := set_frozen true (retraced_ctl_set_policy blob epoch c) in
  let '(n, c) := retraced_ctl_push_policy blob c in
  let c := record env (snprintf 128 (policy_event (lit "retrace.policy.freeze") epoch n)) c in
  ctl_reply (pushed_text epoch n) c.

(** The value with its policy's epoch replaced, where it has a policy. *)
Definition restamp (epoch : Z) (v : JSON_Value) : JSON_Value :=
  match v with
  | JSONObject root =>
      match json_object_get_object (Some root) "policy" with
      | Some pol =>
          JSONObject (replace_value root (lit "policy") (JSONObject (put_number "epoch" epoch pol)))
      | None => v
      end
  | _ => v
  end.

Definition empty_policy : bytes := jlit "{'policy':{'epoch':1},'intercept_scripts':[]}".

Definition thaw_text (epoch : Z) (c : Ctl) : bytes :=
  let src := default empty_policy (thaw_blob c) in
  match json_parse_string src with
  | Some v => default src (json_serialize_to_string false (restamp epoch v))
  | None => src
  end.

Definition verb_thaw (env : Env) (c : Ctl) : Ctl :=
  let epoch := (Daemon.ctl_epoch (dm c) + 1)%Z in
  let thawed := snprintf 8192 (thaw_text epoch c) in
  let c := set_frozen false (retraced_ctl_set_policy thawed epoch c) in
  let '(n, c) := retraced_ctl_push_policy thawed c in
  let c := record env (snprintf 128 (policy_event (lit "retrace.policy.thaw") epoch n)) c in
  ctl_reply (pushed_text epoch n) c.

(** ** Processes *)

Definition pid_text (pid : Z) : bytes := jlit "{'ok':1,'pid':" ++ fmt_ld pid ++ lit "}" ++ [NL].

Definition verb_kill (env : Env) (o : option JSON_Object) (c : Ctl) : Ctl :=
  let pid := d_i64 (json_object_get_number o "pid") in
  if (pid <=? 0)%Z then refuse (lit "no pid") c
  else
    let c := mkCtl (dm c) (slots c) (frozen c) (thaw_blob c) (scopes c) (replies c) (kills c ++ [pid]) (spawns c) in
    let c := record env (snprintf 128 (jlit "{'name':'retrace.ctl.kill','pid':" ++ fmt_ld pid ++ lit "}")) c in
    ctl_reply (pid_text pid) c.

(** The loop of [json_escape] with [o] bytes written. *)
Fixpoint escape_from (cap o : nat) (s : bytes) : bytes :=
  match s with
  | [] => []
  | c :: s =>
      if cap <=? o + 3 then []
      else if ceq c "034" || ceq c "\" then "\"%char :: c :: escape_from cap (o + 2) s
      else c :: escape_from cap (o + 1) s
  end.

Definition json_escape (s : bytes) (cap : nat) : bytes := ["034"%char] ++ escape_from cap 1 s ++ ["034"%char].

Definition verb_spawn (env : Env) (o : option JSON_Object) (c : Ctl) : Ctl :=
  match e_spawn env with
  | None => refuse (lit "spawn: not on this platform -- use retrace-win-run") c
  | Some spawn =>
      let argv_a := json_object_get_array o "argv" in
      let n := json_array_get_count argv_a in
      if n =? 0 then refuse (lit "no argv") c
      else if 128 <? n then refuse (lit "argv > 128") c
      else
        let argv := map (json_array_get_string argv_a) (seq 0 n) in
        let preload := json_object_get_string o "preload" in
        let '(pid, err) := spawn argv preload in
        let c := mkCtl (dm c) (slots c) (frozen c) (thaw_blob c) (scopes c) (replies c) (kills c)
                   (spawns c ++ [(argv, preload)]) in
        if (pid <=? 0)%Z then
          refuse (lit "spawn failed" ++ (if decide (err = []) then [] else lit ": ") ++ err) c
        else
          let argv0 := json_escape (default [] (json_array_get_string argv_a 0)) 256 in
          let c := record env (snprintf 512 (jlit "{'name':'retrace.ctl.spawn','pid':" ++ fmt_ld pid ++
                                             jlit ",'argv0':" ++ argv0 ++ lit "}")) c in
          ctl_reply (pid_text pid) c
  end.

(** ** Views *)

Definition verb_status (env : Env) (c : Ctl) : Ctl :=
  ctl_reply (jlit "{'ok':1,'pid':" ++ fmt_ld (e_pid env) ++ jlit ",'agents':" ++
             fmt_llu (Z.of_nat (length (agents (Daemon.reg (dm c))))) ++ jlit ",'policy_epoch':" ++
             fmt_ld (Daemon.ctl_epoch (dm c)) ++ jlit ",'frozen':" ++ fmt_ld (Z.b2z (frozen c)) ++ lit "}" ++ [NL]) c.

Definition verb_ps (c : Ctl) : Ctl :=
  ctl_reply (jlit "{'ok':1,'registry':" ++
             default (lit "null") (json_serialize_to_string false (retraced_registry_to_json (Daemon.reg (dm c)))) ++
             lit "}" ++ [NL]) c.

(** *** The evidence reader *)

(** [ev_sink_append]: the text so far, the room left and whether a record is
    there. *)
Definition ev_sink_append (line : bytes) (sc : bytes * nat * bool) : bytes * nat * bool :=
  let '(p, room, first) := sc in
  let '(p, room) := if negb first && (1 <? room) then (p ++ lit ",", room - 1) else (p, room) in
  let n := Nat.min (length line) (room - 1) in
  (p ++ take n line, room - n, false).

Definition verb_events (o : option JSON_Object) (c : Ctl) : option Ctl :=
  let last_d := json_object_get_number o "last" in
  let last_n := if PolicySig.d_positive last_d then d_u64 last_d else 20%Z in
  if (128 <? last_n)%Z then Some (refuse (lit "last > 128") c)
  else
    let cap := Z.to_nat last_n * 2100 + 64 in
    let answer chain text :=
      ctl_reply (jlit "{'ok':1,'chain':'" ++ (if (chain =? 0)%Z then lit "verified" else lit "broken") ++
                 jlit "','broken_at':" ++ fmt_ld chain ++ jlit ",'events':[" ++ text ++ lit "]}" ++ [NL]) c in
    match retraced_journal_tail (Daemon.disk (dm c) !! path (Daemon.jr (dm c))) (Z.to_nat last_n) with
    | None => Some (answer 0%Z [])
    | Some Tail_crash => None
    | Some (Tail_ok kept chain) =>
        Some (answer chain (foldl (λ sc l, ev_sink_append l sc) ([], cap, true) kept).1.1)
    end.

(** *** The session tree *)

Definition token_of (s : JSON_Object) : option bytes := json_object_get_string (Some s) "token".

Definition token_is (tok : bytes) (s : JSON_Object) : bool :=
  match token_of s with Some t => streq t tok | None => false end.

(** The distinct sessions of the agents, each made with [mk]. *)
Definition collect (mk : bytes → JSON_Object) (es : list agent_entry) : list JSON_Object :=
  foldl (λ ss e, if existsb (token_is (session e)) ss then ss else ss ++ [mk (session e)]) [] es.

(** The index of the session with the token; nothing when a session before it
    has none, whose name is compared as a null pointer. *)
Fixpoint find_session (ss : list JSON_Object) (tok : bytes) : option (option nat) :=
  match ss with
  | [] => Some None
  | s :: ss =>
      t ← token_of s;
      if streq t tok then Some (Some 0) else r ← find_session ss tok; Some (option_map S r)
  end.

(** The first node that takes the child. *)
Definition place_any (place : JSON_Object → option (bool * JSON_Object)) : JSON_Array → option (bool * JSON_Array) :=
  fix go a :=
    match a with
    | [] => Some (false, [])
    | JSONObject n :: a =>
        '(placed, n) ← place n;
        if placed : bool then Some (true, JSONObject n :: a)
        else '(placed, a) ← go a; Some (placed, JSONObject n :: a)
    | _ :: _ => None
    end.

Definition children (node : JSON_Object) : JSON_Array := default [] (json_object_get_array (Some node) "children").

Definition set_children (a : JSON_Array) (node : JSON_Object) : JSON_Object :=
  replace_value node (lit "children") (JSONArray a).

Fixpoint place_agent (fuel : nat) (parent : bytes) (child : JSON_Value) (node : JSON_Object) : option (bool * JSON_Object) :=
  match fuel with
  | O => None
  | S fuel =>
      id ← json_object_get_string (Some node) "id";
      if streq id parent then Some (true, set_children (children node ++ [child]) node)
      else
        '(placed, a) ← place_any (place_agent fuel parent child) (children node);
        Some (placed, set_children a node)
  end.

Definition agent_node (e : agent_entry) : JSON_Object :=
  let o := put_string "id" (ae_id e) [] in
  let o := put_string "cmdline" (cmdline e) o in
  let o := put_number "pid" (pid e) o in
  let o := put_number "spectator" (Z.b2z (spectator e)) o in
  let o := if parent_hole e then put_number "parent_hole" 1 o else o in
  put_value "children" (JSONArray []) o.

Definition session_agents (s : JSON_Object) : JSON_Array := default [] (json_object_get_array (Some s) "agents").

Definition set_agents (a : JSON_Array) (s : JSON_Object) : JSON_Object := replace_value s (lit "agents") (JSONArray a).

Definition empty_session (tok : bytes) : JSON_Object :=
  put_value "agents" (JSONArray []) (put_string "token" tok []).

Definition nest (fuel : nat) (ss : list JSON_Object) (e : agent_entry) : option (list JSON_Object) :=
  k ← find_session ss (session e);
  match k with
  | None => Some ss
  | Some k =>
      s ← ss !! k;
      let a := session_agents s in
      let node := JSONObject (agent_node e) in
      '(placed, a) ← (if streq (parent_id e) [] then Some (false, a) else place_any (place_agent fuel (parent_id e) node) a);
      Some (<[k := set_agents (if placed : bool then a else a ++ [node]) s]> ss)
  end.

Fixpoint nest_all (fuel : nat) (ss : list JSON_Object) (es : list agent_entry) : option (list JSON_Object) :=
  match es with
  | [] => Some ss
  | e :: es => ss ← nest fuel ss e; nest_all fuel ss es
  end.

Definition session_tree (r : retraced_registry) : option (list JSON_Object) :=
  nest_all (S (length (agents r))) (collect empty_session (agents r)) (agents r).

Definition sessions_reply (ss : list JSON_Object) (c : Ctl) : Ctl :=
  let root := put_value "sessions" (JSONArray (JSONObject <$> ss))
                (put_number "sessions_count" (Z.of_nat (length ss)) (put_number "ok" 1 [])) in
  ctl_reply (default (lit "{}") (json_serialize_to_string false (JSONObject root)) ++ [NL]) c.

Definition verb_sessions (c : Ctl) : option Ctl :=
  ss ← session_tree (Daemon.reg (dm c)); Some (sessions_reply ss c).

(** *** Kernel observations per session *)

Definition add_number (n : string) (z : Z) (o : JSON_Object) : JSON_Object :=
  try_set o (json_object_set_number o (lit n) (d_add (json_object_get_number (Some o) n) (d_of_int z))).

Definition empty_drift (tok : bytes) : JSON_Object :=
  put_number "delta" 0 (put_number "kernel_obs" 0 (put_number "spectators" 0
    (put_value "libc" (JSONArray []) (put_string "token" tok [])))).

Definition tally_entry (e : agent_entry) (s : JSON_Object) : JSON_Object :=
  if spectator e then
    add_number "delta" (u64 (kernel_obs e - kernel_obs_last e))
      (add_number "kernel_obs" (kernel_obs e) (add_number "spectators" 1 s))
  else
    let a := default [] (json_object_get_array (Some s) "libc") in
    replace_value s (lit "libc") (JSONArray (default a (json_array_append_string a (ae_id e)))).

Fixpoint tally (ss : list JSON_Object) (es : list agent_entry) : option (list JSON_Object) :=
  match es with
  | [] => Some ss
  | e :: es =>
      k ← find_session ss (session e);
      tally (match k with Some k => alter (tally_entry e) k ss | None => ss end) es
  end.

Definition verb_drift (c : Ctl) : option Ctl :=
  let es := agents (Daemon.reg (dm c)) in
  ss ← tally (collect empty_drift es) es; Some (sessions_reply ss c).

(** ** The dispatcher *)

Definition verb_run (v : verb) (env : Env) (o : option JSON_Object) (c : Ctl) : option Ctl :=
  match v with
  | V_status => Some (verb_status env c)
  | V_ps => Some (verb_ps c)
  | V_sessions => verb_sessions c
  | V_events => verb_events o c
  | V_drift => verb_drift c
  | V_policy_push => Some (verb_policy_push env o c)
  | V_freeze => Some (verb_freeze env c)
  | V_thaw => Some (verb_thaw env c)
  | V_kill => Some (verb_kill env o c)
  | V_spawn => Some (verb_spawn env o c)
  end.

(** One line. The result is nothing when a null pointer is read. *)
Definition retraced_ctl_handle_line (env : Env) (line : bytes) (c : Ctl) : option Ctl :=
  match json_parse_string line with
  | None => Some (refuse (lit "malformed json") c)
  | Some v =>
      let o := json_value_get_object (Some v) in
      match json_object_get_string o "cmd" with
      | None => Some (refuse (lit "no cmd") c)
      | Some cmd =>
          match ctl_verb_find cmd with
          | None => Some (refuse (lit "unknown cmd") c)
          | Some vb =>
              if negb (Z.land (scopes c) (v_scope vb) =? v_scope vb)%Z then
                let ev := snprintf 160 (jlit "{'name':'retrace.auth.overscope','cmd':'" ++ cmd ++ jlit "','have':" ++
                            fmt_llu (scopes c) ++ jlit ",'need':" ++ fmt_llu (v_scope vb) ++ lit "}") in
                Some (refuse (lit "scope denied") (record env ev c))
              else verb_run (v_fn vb) env o c
          end
      end
  end.

(** ** What a line may change *)

Definition may (c : Ctl) (scope : Z) : Prop := Z.land (scopes c) scope = scope.

Definition same_policy (c c' : Ctl) : Prop :=
  Daemon.policy_blob (dm c') = Daemon.policy_blob (dm c) ∧ Daemon.ctl_epoch (dm c') = Daemon.ctl_epoch (dm c) ∧
  frozen c' = frozen c ∧ thaw_blob c' = thaw_blob c ∧ slots c' = slots c.

(** The effects of a verb: one reply, nothing of the registry, the nonce and the
    claims, and each of the policy, the signals and the spawns only for its
    verbs. *)
Record effects (scope : Z) (c c' : Ctl) : Prop := mkEffects {
  ef_reply : ∃ r, replies c' = replies c ++ [r];
  ef_scopes : scopes c' = scopes c;
  ef_daemon : Daemon.reg (dm c') = Daemon.reg (dm c) ∧ Daemon.nonce (dm c') = Daemon.nonce (dm c) ∧
              Daemon.drift (dm c') = Daemon.drift (dm c);
  ef_policy : scope = RETRACED_SCOPE_POLICY ∨ same_policy c c';
  ef_kill : scope = RETRACED_SCOPE_KILL ∨ kills c' = kills c;
  ef_spawn : scope = RETRACED_SCOPE_SPAWN ∨ spawns c' = spawns c;
}.

(** A frame to a connection leaves it a receiver of policies or not. *)
Lemma write_takes type payload c : takes_policy (Daemon.write_frame type payload c) = takes_policy c.
Proof using Type. destruct (Daemon.write_frame_keeps type payload c) as (_ & Eh & Es & _). unfold takes_policy. by rewrite Eh, Es. Qed.

Lemma reply_effects scope text c : effects scope c (ctl_reply text c).
Proof. split; cbn; try done; [by eexists|by right..]. Qed.

Lemma refuse_effects scope reason c : effects scope c (refuse reason c).
Proof. apply reply_effects. Qed.

(** The journal is beside what is compared. *)
Lemma record_effects scope env text c c' : effects scope (record env text c) c' → effects scope c c'.
Proof. intros [H1 H2 H3 H4 H5 H6]. by split. Qed.

Lemma policy_effects blob epoch frz t c n c2 env text reply :
  retraced_ctl_push_policy blob (set_frozen frz (retraced_ctl_set_policy blob epoch c)) = (n, c2) ∨
  retraced_ctl_push_policy blob (set_thaw t (set_frozen frz (retraced_ctl_set_policy blob epoch c))) = (n, c2) →
  effects RETRACED_SCOPE_POLICY c (ctl_reply reply (record env text c2)).
Proof. unfold retraced_ctl_push_policy. intros [[= <- <-]|[= <- <-]]; (split; cbn; try done; [by eexists|by left|by right..]). Qed.

Lemma push_effects env o c : effects RETRACED_SCOPE_POLICY c (verb_policy_push env o c).
Proof.
  unfold verb_policy_push. destruct (json_object_get_string o "blob") as [b|]; [|apply refuse_effects].
  destruct (retraced_policy_load b) as [[blob epoch]|]; [|apply refuse_effects].
  destruct (retraced_ctl_push_policy _ _) as [n c2] eqn:E. eapply policy_effects. by right.
Qed.

Lemma freeze_effects env c : effects RETRACED_SCOPE_POLICY c (verb_freeze env c).
Proof.
  unfold verb_freeze. cbv zeta. destruct (retraced_ctl_push_policy _ _) as [n c2] eqn:E.
  eapply (policy_effects _ _ _ []). by left.
Qed.

Lemma thaw_effects env c : effects RETRACED_SCOPE_POLICY c (verb_thaw env c).
Proof.
  unfold verb_thaw. cbv zeta. destruct (retraced_ctl_push_policy _ _) as [n c2] eqn:E.
  eapply (policy_effects _ _ _ []). by left.
Qed.

Lemma kill_effects env o c : effects RETRACED_SCOPE_KILL c (verb_kill env o c).
Proof.
  unfold verb_kill. cbv zeta. case_if; [apply refuse_effects|].
  split; cbn; try done; [by eexists|by right|by left|by right].
Qed.

Lemma spawn_effects env o c : effects RETRACED_SCOPE_SPAWN c (verb_spawn env o c).
Proof.
  unfold verb_spawn. destruct (e_spawn env) as [spawn|]; [|apply refuse_effects]. cbv zeta.
  case_if; [apply refuse_effects|]. case_if; [apply refuse_effects|].
  destruct (spawn _ _) as [pid err]. case_if; (split; cbn; try done; [by eexists|by right|by right|by left]).
Qed.

Lemma verb_effects vb env o c c' :
  vb ∈ ctl_verbs → verb_run (v_fn vb) env o c = Some c' → effects (v_scope vb) c c'.
Proof.
  intros Hv. repeat (apply elem_of_cons in Hv as [->|Hv]); [..|by apply elem_of_nil in Hv]; cbn [v_fn v_scope verb_run].
  - intros [= <-]. apply reply_effects.
  - intros [= <-]. apply reply_effects.
  - unfold verb_sessions. destruct (session_tree _) as [ss|]; [|done]. intros [= <-]. apply reply_effects.
  - unfold verb_events. cbv zeta. case_if; [intros [= <-]; apply refuse_effects|].
    destruct (retraced_journal_tail _ _) as [[kept chain|]|]; try done; intros [= <-]; apply reply_effects.
  - unfold verb_drift. cbv zeta. destruct (tally _ _) as [ss|]; [|done]. intros [= <-]. apply reply_effects.
  - intros [= <-]. apply push_effects.
  - intros [= <-]. apply freeze_effects.
  - intros [= <-]. apply thaw_effects.
  - intros [= <-]. apply kill_effects.
  - intros [= <-]. apply spawn_effects.
Qed.

Lemma verb_from_elem vs name vb : verb_from vs name = Some vb → vb ∈ vs ∧ v_name vb = name.
Proof.
  induction vs as [|v vs IH]; cbn [verb_from]; [done|]. case_if.
  - intros [= <-]. split; [by left|]. unfold streq in *. by bool_to_prop.
  - intros [? ?]%IH. split; [by right|done].
Qed.

(** C9 (safety). A line changes the policy, the connections' frames, the freeze
    or the saved policy only for a peer with the policy claim, signals a process
    only for one with the kill claim and starts one only with the spawn claim; no
    line touches the registry, the nonce or the claims, and every line has
    exactly one reply. *)
Theorem ctl_scope_gate env line c c' :
  retraced_ctl_handle_line env line c = Some c' →
  (may c RETRACED_SCOPE_POLICY ∨ same_policy c c') ∧
  (may c RETRACED_SCOPE_KILL ∨ kills c' = kills c) ∧ (may c RETRACED_SCOPE_SPAWN ∨ spawns c' = spawns c) ∧
  scopes c' = scopes c ∧ Daemon.reg (dm c') = Daemon.reg (dm c) ∧ Daemon.nonce (dm c') = Daemon.nonce (dm c) ∧
  ∃ r, replies c' = replies c ++ [r].
Proof.
  assert (∀ scope, effects scope c c' → may c scope ∨ scope = 0%Z →
    (may c RETRACED_SCOPE_POLICY ∨ same_policy c c') ∧
    (may c RETRACED_SCOPE_KILL ∨ kills c' = kills c) ∧ (may c RETRACED_SCOPE_SPAWN ∨ spawns c' = spawns c) ∧
    scopes c' = scopes c ∧ Daemon.reg (dm c') = Daemon.reg (dm c) ∧ Daemon.nonce (dm c') = Daemon.nonce (dm c) ∧
    ∃ r, replies c' = replies c ++ [r]) as Hef.
  { intros scope [H1 H2 (H3 & H4 & _) H5 H6 H7] Hm. split_and!; try done.
    - destruct H5 as [->|]; [|by right]. destruct Hm as [|Hm]; [by left|done].
    - destruct H6 as [->|]; [|by right]. destruct Hm as [|Hm]; [by left|done].
    - destruct H7 as [->|]; [|by right]. destruct Hm as [|Hm]; [by left|done]. }
  unfold retraced_ctl_handle_line.
  destruct (json_parse_string line) as [v|]; [|intros [= <-]; by apply (Hef 0%Z (refuse_effects _ _ _)); right].
  cbv zeta. destruct (json_object_get_string _ "cmd") as [cmd|]; [|intros [= <-]; by apply (Hef 0%Z (refuse_effects _ _ _)); right].
  destruct (ctl_verb_find cmd) as [vb|] eqn:Ev; [|intros [= <-]; by apply (Hef 0%Z (refuse_effects _ _ _)); right].
  apply verb_from_elem in Ev as [Hvb _]. destruct (Z.eqb_spec (Z.land (scopes c) (v_scope vb)) (v_scope vb)) as [Es|Es]; cbn [negb].
  - intros E. apply (Hef (v_scope vb)); [by eapply verb_effects|by left].
  - intros [= <-]. apply (Hef 0%Z); [|by right]. eapply record_effects, refuse_effects.
Qed.

End ctl.

(** ** Instances *)

#[local] Existing Instance JsonRoundTrip.whole_numbers.

Notation run_line := (retraced_ctl_handle_line (λ _, true) (λ _, true) (λ _, 0%Z) (mkEnv 1700000100 42 None)).

(** An auditor with the status claim asks for a freeze, which is refused. *)
Definition auditor : Ctl :=
  mkCtl Daemon.toy_daemon ∅ false None (retraced_tls_parse_scopes (Some (lit "status"))) [] [] [].

Definition refused : Ctl := default auditor (run_line (jlit "{'cmd':'freeze'}") auditor).

Lemma ctl_scope_gate_witness :
  same_policy auditor refused ∧ kills refused = [] ∧ replies refused = [jlit "{'ok':0,'error':'scope denied'}" ++ [NL]].
Proof.
  assert (run_line (jlit "{'cmd':'freeze'}") auditor = Some refused) as E by (apply default_some; by vm_compute).
  destruct (ctl_scope_gate _ _ _ _ _ _ _ E) as ([H|H] & [H'|H'] & _); [discriminate H|discriminate H|discriminate H'|].
  split; [exact H|]. split; [exact H'|by vm_compute].
Defined.

(** A claim list whose only name has 34 characters: the name is cut after 31 of
    them and the rest is read as a claim of its own. *)
Lemma long_claim_split :
  retraced_tls_parse_scopes (Some (lit "retrace.read-only-dashboards-ofall")) =
  retraced_tls_parse_scopes (Some (lit "all")).
Proof. by vm_compute. Qed.

(** An agent whose session token is not UTF-8: the session has no token, and the
    next comparison reads a null pointer. *)
Definition odd_token : retraced_registry :=
  mkRegistry [fresh_agent (lit "a-1-1") 1 0 (Some ["255"%char]) None] 1.

Lemma sessions_null : session_tree odd_token = None.
Proof. by vm_compute. Qed.

End Ctl.
