(* ===== verification/Fleet.v ===== *)
(** * The daemon as a whole

    The agent plane of [tools/retraced/main.c] and the controller plane of
    [tools/retraced/retraced_ctl.c] as one transition system. Whatever agents and
    controllers do, every registered agent that presented the nonce was last sent
    the policy the daemon holds. *)

From S2P Require Import Prelude Libc Stdio Json JsonText JsonRoundTrip JsonSize AgentRegistry Journal CtlFeed Rpc PolicySig Daemon Ctl.

Module Fleet.

Import Libc Stdio Json JsonText AgentRegistry Journal Ctl.

Section fleet.
Context (fopen_ok remove_ok : bytes → bool).
Context (out_of_range : double → Z).
Context {DT : DoubleText}.

Notation handle_line := (retraced_ctl_handle_line fopen_ok remove_ok out_of_range).

(** The state of both planes: [g_ctl], its framing state, and whether a
    controller is connected. *)
Record retraced := mkRetraced { ctl : Ctl; fr : CtlFeed.framing; attached : bool }.

Definition ctl_drop (r : retraced) : retraced :=
  mkRetraced (set_scopes RETRACED_SCOPE_ALL (ctl r)) (CtlFeed.retraced_ctl_conn_reset (fr r)) false.

(** [got] is what the read returned, nothing at the end of the connection. *)
Definition handle_ctl_readable (env : Env) (got : bytes) (r : retraced) : option retraced :=
  match got with
  | [] => Some (ctl_drop r)
  | _ =>
      '(rc, (c, f)) ← CtlFeed.retraced_ctl_feed (λ c line, c ≫= handle_line env line) got (Some (ctl r)) (fr r);
      c ← c;
      let r := mkRetraced c f true in
      Some (if (rc =? 0)%Z then r else ctl_drop r)
  end.

Definition tls_event (cn : bytes) (sc : Z) : bytes :=
  snprintf 256 (jlit "{'name':'retrace.auth.tls','cn':'" ++ cn ++ jlit "','scopes':" ++ fmt_llu sc ++ lit "}").

(** A local controller has all claims, one with a certificate those of the
    certificate. There is one controller at a time. *)
Inductive retraced_step : retraced → retraced → Prop :=
  | step_agents r d s :
      Daemon.daemon_step fopen_ok remove_ok out_of_range (dm (ctl r), slots (ctl r)) (d, s) →
      retraced_step r (mkRetraced (set_slots s (set_dm d (ctl r))) (fr r) (attached r))
  | step_local tick puid euid r ok d :
      attached r = false → Daemon.accept_gated fopen_ok remove_ok tick puid euid (dm (ctl r)) = (ok, d) →
      retraced_step r
        (mkRetraced (set_scopes RETRACED_SCOPE_ALL (set_dm d (ctl r))) (CtlFeed.retraced_ctl_conn_reset (fr r)) ok)
  | step_tls env cn sc r :
      attached r = false →
      retraced_step r
        (mkRetraced (record fopen_ok remove_ok env (tls_event cn sc) (set_scopes sc (ctl r)))
           (CtlFeed.retraced_ctl_conn_reset (fr r)) true)
  | step_tls_refused env r :
      attached r = false →
      retraced_step r
        (mkRetraced (record fopen_ok remove_ok env (jlit "{'name':'retrace.auth.tls_refused'}") (ctl r)) (fr r) false)
  | step_controller env got r r' :
      attached r = true → length got ≤ 2048 → handle_ctl_readable env got r = Some r' → retraced_step r r'.

(** ** Growth of the registry *)

(** The registry has no fewer agents, and the policy and the nonce are the
    same. *)
Definition grows (d d' : Daemon) : Prop :=
  (length (agents (Daemon.reg d)) ≤ length (agents (Daemon.reg d')) ∧ Daemon.nonce d' = Daemon.nonce d) ∧
  Daemon.policy_blob d' = Daemon.policy_blob d.

#[local] Instance grows_preorder : PreOrder grows.
Proof. split; [done|]. intros d1 d2 d3 [[H1 N1] E1] [[H2 N2] E2]. split; [split; [lia|]|]; congruence. Qed.

Lemma journal_grows ts a q text d : grows d (Daemon.journal fopen_ok remove_ok ts a q text d).
Proof. done. Qed.

Lemma reg_grows r d : length (agents (Daemon.reg d)) ≤ length (agents r) → grows d (Daemon.set_reg r d).
Proof. done. Qed.

Lemma upd_grows i f d : grows d (Daemon.set_reg (upd i f (Daemon.reg d)) d).
Proof. apply reg_grows. cbn. by rewrite length_alter. Qed.

Lemma summaries_grow ts d : grows d (Daemon.daemon_frame_drift_summaries fopen_ok remove_ok ts d).
Proof.
  unfold Daemon.daemon_frame_drift_summaries. generalize (seq 0 (length (agents (Daemon.reg d)))) as l. intros l. revert d.
  induction l as [|i l IH]; intros d; [done|]. cbn [foldl]. etransitivity; [|apply IH].
  unfold Daemon.drift_summary. destruct (agents (Daemon.reg d) !! i) as [e|]; [|done]. case_if; [done|].
  etransitivity; [apply journal_grows|apply upd_grows].
Qed.

Lemma grade_grows tick o source q d : grows d (Daemon.grade_event fopen_ok remove_ok tick o source q d).
Proof.
  unfold Daemon.grade_event. case_if; [|case_if; done]. by destruct (retrace_drift_observe _ _ _ _ _) as [[] x].
Qed.

Lemma event_grows tick c payload d : grows d (Daemon.handle_event fopen_ok remove_ok out_of_range tick c payload d).
Proof.
  unfold Daemon.handle_event. destruct (json_parse_string payload) as [v|]; [|done]. cbv zeta.
  etransitivity; [apply journal_grows|]. destruct (json_object_get_string _ "source") as [source|]; [|done].
  etransitivity; [|apply grade_grows]. case_if; [|done]. unfold Daemon.count_observation.
  destruct (retraced_registry_find _ _); [apply upd_grows|done].
Qed.

Lemma ack_grows tick c payload d : grows d (Daemon.handle_ack fopen_ok remove_ok out_of_range tick c payload d).
Proof.
  unfold Daemon.handle_ack. cbv zeta. etransitivity; [|apply journal_grows].
  destruct (json_parse_string payload) as [v|]; [|done]. destruct (retraced_registry_find _ _); [apply upd_grows|done].
Qed.

Lemma hello_length r id_in q qq s c :
  length (agents r) ≤ length (agents (retraced_registry_hello r id_in q qq s c).1) ∧
  ((retraced_registry_hello r id_in q qq s c).2 = None → RETRACED_REGISTRY_MAX ≤ length (agents r)).
Proof.
  unfold retraced_registry_hello. cbv zeta. set (r1 := if match id_in with None | Some [] => true | _ => false end then _ else r).
  assert (agents r1 = agents r) as E by (unfold r1; by destruct id_in as [[|]|]).
  destruct (retraced_registry_find r1 _) as [i|]; cbn [fst snd agents upd].
  { rewrite length_alter, E. done. }
  destruct (Nat.leb_spec RETRACED_REGISTRY_MAX (length (agents r1))); cbn [fst snd agents]; rewrite E in *; [done|].
  rewrite length_app. split; [lia|done].
Qed.

Lemma link_parent_length r i : length (agents (retraced_registry_link_parent r i).1) = length (agents r).
Proof.
  unfold retraced_registry_link_parent. destruct (agents r !! i) as [e|]; [|done]. case_if; [done|].
  destruct (parent_from _ _ _ _); cbn; by rewrite length_alter.
Qed.

Lemma session_grows tick i d : grows d (Daemon.resolve_session fopen_ok remove_ok tick i d).
Proof.
  unfold Daemon.resolve_session. pose proof (link_parent_length (Daemon.reg d) i) as El.
  destruct (retraced_registry_link_parent _ _) as [r parent]. cbn [fst] in El.
  destruct (agents r !! i) as [e|]; [|apply reg_grows; lia]. cbv zeta.
  assert (∀ s, grows d (Daemon.set_reg (upd i (set_session s) r) (Daemon.set_reg r d))) as Hs.
  { intros s. split; [split; [|done]|done]. cbn. rewrite length_alter. lia. }
  case_if; [etransitivity; [apply Hs|apply journal_grows]|]. case_if; [etransitivity; [apply Hs|apply journal_grows]|].
  apply reg_grows. lia.
Qed.

Definition full (d : Daemon) : Prop := RETRACED_REGISTRY_MAX ≤ length (agents (Daemon.reg d)).

Lemma full_grows d d' : grows d d' → full d → full d'.
Proof. unfold full. intros [[? _] _]. lia. Qed.

(** ** What a connection was told *)

(** The policies that were written to a connection. *)
Definition policies (c : conn) : list bytes :=
  snd <$> filter (λ x, x.1 = Rpc.RETRACE_RPC_MSG_POLICY_SET) (Daemon.out c).

Definition last_policy (c : conn) : option bytes := last (policies c).

Definition fits (pb : option bytes) : Prop :=
  ∀ blob, pb = Some blob → (Z.of_nat (length blob) ≤ Rpc.RETRACE_RPC_PAYLOAD_MAX)%Z.

(** A registered agent was last told the policy [pb], and nobody was told one
    while there was none. *)
Definition told (pb : option bytes) (c : conn) : Prop :=
  (takes_policy c = true → last_policy c = pb) ∧ (pb = None → last_policy c = None).

Lemma told_flags pb c c' :
  Daemon.out c' = Daemon.out c → (takes_policy c' = true → takes_policy c = true) → told pb c → told pb c'.
Proof. intros E Ht [H1 H2]. unfold told, last_policy, policies. rewrite E. split; [|done]. intros H. by apply H1, Ht. Qed.

Lemma policies_write type payload c :
  type ≠ Rpc.RETRACE_RPC_MSG_POLICY_SET → policies (Daemon.write_frame type payload c) = policies c.
Proof.
  intros Hne. destruct (Daemon.write_frame_keeps type payload c) as (_ & _ & _ & [Eo|Eo]); unfold policies; rewrite Eo; [done|].
  rewrite filter_app, filter_cons_False by done. by rewrite filter_nil, app_nil_r.
Qed.

Lemma told_write pb type payload c :
  type ≠ Rpc.RETRACE_RPC_MSG_POLICY_SET → told pb c → told pb (Daemon.write_frame type payload c).
Proof. intros Hne. unfold told, last_policy. by rewrite policies_write, write_takes. Qed.

Lemma told_policy blob c :
  (Z.of_nat (length blob) ≤ Rpc.RETRACE_RPC_PAYLOAD_MAX)%Z →
  told (Some blob) (Daemon.write_frame Rpc.RETRACE_RPC_MSG_POLICY_SET blob c).
Proof.
  intros Hl. split; [|done]. intros _. unfold Daemon.write_frame, Rpc.retrace_rpc_frame_encode.
  rewrite (proj2 (Z.ltb_ge _ _)) by lia. rewrite bool_decide_eq_false_2, andb_false_r by done.
  rewrite (proj2 (Z.ltb_ge _ _)) by lia. unfold last_policy, policies. cbn [Daemon.out].
  rewrite filter_app, filter_cons_True by done. rewrite filter_nil, fmap_app. apply last_snoc.
Qed.

(** The answer to a greeting. *)
Lemma greet_told i c d :
  fits (Daemon.policy_blob d) → (Daemon.policy_blob d = None → last_policy c = None) →
  told (Daemon.policy_blob d) (Daemon.greet i c d).
Proof.
  intros Hf Hn. unfold Daemon.greet. destruct (match agents (Daemon.reg d) !! i with Some _ => _ | None => _ end) as [id s].
  set (c1 := Daemon.write_frame Rpc.RETRACE_RPC_MSG_WELCOME _ c).
  assert (last_policy c1 = last_policy c) as E1 by (unfold last_policy, c1; by rewrite policies_write).
  destruct (Daemon.policy_blob d) as [blob|].
  - destruct (Daemon.c_spectator c1) eqn:Es; [|apply told_policy; by apply Hf].
    split; [|done]. unfold takes_policy. rewrite Es, andb_false_r. done.
  - split; intros _; rewrite E1; by apply Hn.
Qed.

(** ** Frames of the agents *)

Definition frame_ok (s : conn * Daemon) : Prop :=
  full s.2 ∨ fits (Daemon.policy_blob s.2) ∧ told (Daemon.policy_blob s.2) s.1.

Lemma hello_ok tick payload c d :
  let '(c', d') := Daemon.handle_hello fopen_ok remove_ok out_of_range tick payload c d in
  grows d d' ∧ (frame_ok (c, d) → frame_ok (c', d')).
Proof.
  unfold Daemon.handle_hello. destruct (json_parse_string payload) as [v|]; [|done]. cbv zeta.
  set (o := json_value_get_object (Some v)).
  destruct (hello_length (Daemon.reg d) None (PolicySig.d_i64 out_of_range (json_object_get_number o "pid"))
    (PolicySig.d_i64 out_of_range (json_object_get_number o "ppid"))
    (Some (Daemon.jstr o "session_token" RETRACED_SESSION_MAX)) (Some (Daemon.jstr o "cmdline" RETRACED_CMDLINE_MAX))) as [Hl Hn].
  destruct (retraced_registry_hello _ _ _ _ _ _) as [r [i|]]; cbn [fst snd] in *.
  2: { split; [by apply reg_grows|]. intros _. left. unfold full. cbn. specialize (Hn eq_refl). lia. }
  match goal with |- context [Daemon.greet i ?x ?y] => set (c1 := x); set (d1 := y) end.
  assert (grows d d1) as Hg.
  { unfold d1. etransitivity; [|apply session_grows]. apply reg_grows. cbn. by rewrite length_alter. }
  split; [etransitivity; [exact Hg|apply journal_grows]|].
  intros [Hf|[Hf Ht]]; [left; eapply full_grows; [|exact Hf]; etransitivity; [exact Hg|apply journal_grows]|]. right.
  cbn [fst snd] in *. destruct Hg as [_ Ep]. split; [by rewrite (proj2 (journal_grows _ _ _ _ d1)), Ep|].
  rewrite (proj2 (journal_grows _ _ _ _ d1)). apply greet_told; rewrite Ep; [done|]. apply Ht.
Qed.

Lemma agent_frame_ok tick fr b c d :
  let '(c', d') := Daemon.handle_agent_frame fopen_ok remove_ok out_of_range tick fr b c d in
  grows d d' ∧ (frame_ok (c, d) → frame_ok (c', d')).
Proof.
  assert (∀ c' d', grows d d' → (∀ pb, told pb c → told pb c') → grows d d' ∧ (frame_ok (c, d) → frame_ok (c', d'))) as Hk.
  { intros c' d' Hg Ht. split; [done|]. intros [Hf|[Hf Hp]]; [left; by eapply full_grows|]. right.
    cbn [fst snd] in *. rewrite (proj2 Hg). split; [done|by apply Ht]. }
  unfold Daemon.handle_agent_frame. case_if; [apply hello_ok|]. unfold Daemon.daemon_frame_handle.
  case_if.
  { destruct (negb _); [by apply Hk|]. destruct (json_parse_string _) as [v|]; [|by apply Hk]. apply Hk; [|done].
    apply reg_grows. unfold retraced_registry_heartbeat. destruct (retraced_registry_find _ _); cbn; [by rewrite length_alter|done]. }
  case_if; [apply Hk; [case_if; [apply event_grows|done]|done]|].
  case_if; [apply Hk; [case_if; [apply ack_grows|done]|done]|].
  case_if; [apply Hk; [done|]; intros pb; by apply told_write|].
  case_if; [|by apply Hk]. apply Hk.
  - apply reg_grows. unfold retraced_registry_bye. destruct (retraced_registry_find _ _); cbn; [by rewrite length_alter|done].
  - intros pb. apply told_flags; [done|]. done.
Qed.

Lemma read_ok tick c d buf chunk c' d' buf' :
  Rpc.conn_frames (λ s fr b, Daemon.handle_agent_frame fopen_ok remove_ok out_of_range tick fr b s.1 s.2) false chunk
    ((c, d), buf) = ((c', d'), buf') →
  grows d d' ∧ (frame_ok (c, d) → frame_ok (c', d')).
Proof.
  intros E.
  assert ((λ s, grows d s.2 ∧ (frame_ok (c, d) → frame_ok s)) (c', d')) as H; [|exact H].
  replace (c', d') with (Rpc.conn_frames (λ s fr b, Daemon.handle_agent_frame fopen_ok remove_ok out_of_range tick fr b s.1 s.2)
    false chunk ((c, d), buf)).1 by (by rewrite E).
  apply (Rpc.frame_loop_keeps _ (λ s, grows d s.2 ∧ (frame_ok (c, d) → frame_ok s))); [|done].
  intros [c1 d1] fr b [Hg Hf]. cbn [fst snd] in *. pose proof (agent_frame_ok tick fr b c1 d1) as H.
  destruct (Daemon.handle_agent_frame _ _ _ _ _ _ _ _) as [c2 d2]. destruct H as [Hg2 Hf2].
  split; [by etransitivity|]. intros H. by apply Hf2, Hf.
Qed.

(** ** The invariant of the daemon *)

Definition state_ok (c : Ctl) : Prop :=
  full (dm c) ∨
  fits (Daemon.policy_blob (dm c)) ∧ ∀ i x b, slots c !! i = Some (x, b) → told (Daemon.policy_blob (dm c)) x.

Lemma agents_ok d cs d' cs' :
  Daemon.daemon_step fopen_ok remove_ok out_of_range (d, cs) (d', cs') →
  full d ∨ fits (Daemon.policy_blob d) ∧ (∀ i x b, cs !! i = Some (x, b) → told (Daemon.policy_blob d) x) →
  full d' ∨ fits (Daemon.policy_blob d') ∧ (∀ i x b, cs' !! i = Some (x, b) → told (Daemon.policy_blob d') x).
Proof.
  assert (∀ d' (cs' : gmap nat (conn * bytes)), grows d d' →
    (∀ i x b, cs' !! i = Some (x, b) → cs !! i = Some (x, b) ∨ x = Daemon.new_conn) →
    full d ∨ fits (Daemon.policy_blob d) ∧ (∀ i x b, cs !! i = Some (x, b) → told (Daemon.policy_blob d) x) →
    full d' ∨ fits (Daemon.policy_blob d') ∧ (∀ i x b, cs' !! i = Some (x, b) → told (Daemon.policy_blob d') x)) as Hk.
  { intros d1 cs1 Hg Hcs [Hf|[Hf Ht]]; [left; by eapply full_grows|]. right. rewrite (proj2 Hg). split; [done|].
    intros i x b [H| ->]%Hcs; [by eapply Ht|]. by split. }
  inversion 1; subst.
  - apply Hk; [|by left]. unfold Daemon.accept_gated in *. repeat case_match; simplify_eq; done.
  - apply Hk; [unfold Daemon.accept_gated in *; repeat case_match; simplify_eq; done|].
    intros k x b. destruct (decide (k = i)) as [->|]; [rewrite lookup_insert_eq; intros [= <- _]; by right|].
    rewrite lookup_insert_ne by done. by left.
  - match goal with E : Rpc.conn_frames _ _ _ _ = _ |- _ => apply read_ok in E as [Hg Hf] end.
    intros [Hfull|[Hfit Ht]]; [left; by eapply full_grows|].
    destruct Hf as [Hfull|[_ Ht']]; [right; split; [done|by eapply Ht]|by left|]. right. cbn [fst snd] in Ht'.
    rewrite (proj2 Hg) in *. split; [done|]. intros k x b. destruct (decide (k = i)) as [->|].
    + rewrite lookup_insert_eq. by intros [= <- _].
    + rewrite lookup_insert_ne by done. apply Ht.
  - apply Hk; [|intros k x b [_ ?]%lookup_delete_Some; by left].
    unfold Daemon.conn_closed. cbv zeta. etransitivity; [apply (summaries_grow (Daemon.t_time tick))|by split].
  - apply Hk; [|by left]. unfold Daemon.sweep. etransitivity; [apply (summaries_grow (Daemon.t_time tick))|].
    apply reg_grows. cbn. by rewrite length_map.
  - apply Hk; [done|by left].
Qed.

(** A policy that is set and pushed. *)
Lemma pushed_ok blob c0 n c1 :
  (Z.of_nat (length blob) ≤ Rpc.RETRACE_RPC_PAYLOAD_MAX)%Z → Daemon.policy_blob (dm c0) = Some blob →
  retraced_ctl_push_policy blob c0 = (n, c1) → state_ok c1.
Proof.
  intros Hl Hb. unfold retraced_ctl_push_policy. intros [= _ <-]. right. cbn [set_slots dm slots]. rewrite Hb.
  split; [by intros b [= <-]|]. intros i x b. rewrite lookup_fmap.
  destruct (slots c0 !! i) as [[x0 b0]|]; [|done]. cbn. intros [= <- <-].
  destruct (takes_policy x0) eqn:Et; [by apply told_policy|]. split; [by rewrite Et|done].
Qed.

Lemma record_ok env text reply c : state_ok c → state_ok (ctl_reply reply (record fopen_ok remove_ok env text c)).
Proof. done. Qed.

Lemma same_ok c c' :
  same_policy c c' → Daemon.reg (dm c') = Daemon.reg (dm c) → state_ok c → state_ok c'.
Proof.
  intros (Eb & _ & _ & _ & Es) Er. unfold state_ok, full. by rewrite Eb, Er, Es.
Qed.

Lemma push_blob_short text blob epoch : retraced_policy_load out_of_range text = Some (blob, epoch) → blob = text.
Proof.
  unfold retraced_policy_load. destruct (json_parse_string text) as [v|]; [|done]. cbn [mbind option_bind].
  destruct (match json_object_get_string _ _ with Some _ => _ | None => _ end) as [w|]; [|done]. cbn [mbind option_bind].
  cbv zeta. destruct (PolicySig.d_lt_one _ || _); [done|]. by intros [= <- _].
Qed.

(** What fits the buffers of the controller plane fits a frame. *)
Lemma buffer_fits n : n ≤ 8192 → (Z.of_nat n ≤ Rpc.RETRACE_RPC_PAYLOAD_MAX)%Z.
Proof. intros Hn%Nat2Z.inj_le. etransitivity; [exact Hn|]. by vm_compute. Qed.

Lemma snprintf_fits cap s : cap ≤ 8192 → (Z.of_nat (length (snprintf cap s)) ≤ Rpc.RETRACE_RPC_PAYLOAD_MAX)%Z.
Proof. intros Hc. apply buffer_fits. etransitivity; [|exact Hc]. unfold snprintf. rewrite length_take. lia. Qed.

Lemma freeze_ok env c : state_ok (verb_freeze fopen_ok remove_ok env c).
Proof.
  unfold verb_freeze. cbv zeta. destruct (retraced_ctl_push_policy _ _) as [n c2] eqn:E. apply record_ok.
  refine (pushed_ok _ _ n c2 _ _ E); [|done]. apply snprintf_fits, Nat.leb_le. reflexivity.
Qed.

Lemma thaw_ok env c : state_ok (verb_thaw fopen_ok remove_ok env c).
Proof.
  unfold verb_thaw. cbv zeta. destruct (retraced_ctl_push_policy _ _) as [n c2] eqn:E. apply record_ok.
  refine (pushed_ok _ _ n c2 _ _ E); [|done]. apply snprintf_fits, Nat.leb_le. reflexivity.
Qed.

Lemma push_ok env v c L :
  JsonSize.short L v → (Z.of_nat L ≤ Rpc.RETRACE_RPC_PAYLOAD_MAX)%Z → state_ok c →
  state_ok (verb_policy_push fopen_ok remove_ok out_of_range env (json_value_get_object (Some v)) c).
Proof.
  intros Hv HL Hc. unfold verb_policy_push.
  destruct (json_object_get_string _ "blob") as [b|] eqn:Eb; [|done]. apply (JsonSize.string_short L) in Eb; [|done].
  destruct (retraced_policy_load _ b) as [[blob epoch]|] eqn:El; [|done]. apply push_blob_short in El as ->.
  destruct (retraced_ctl_push_policy _ _) as [n c2] eqn:E. apply record_ok. refine (pushed_ok _ _ n c2 _ _ E); [lia|done].
Qed.

Lemma line_ok env line c c' :
  length line < 8192 → handle_line env line c = Some c' → state_ok c → state_ok c'.
Proof.
  intros Hl. unfold retraced_ctl_handle_line.
  destruct (json_parse_string line) as [v|] eqn:Ev; [|by intros [= <-]]. cbv zeta.
  destruct (json_object_get_string _ "cmd") as [cmd|]; [|by intros [= <-]].
  destruct (ctl_verb_find cmd) as [vb|] eqn:Evb; [|by intros [= <-]]. apply verb_from_elem in Evb as [Hvb _].
  case_if; [by intros [= <-]|]. intros E Hok.
  pose proof (verb_effects _ _ _ vb env _ c c' Hvb E) as [_ _ (Er & _) [Ep|Ep] _ _]; [|by eapply same_ok].
  apply JsonSize.parsed_short in Ev. revert Ep E.
  repeat (apply elem_of_cons in Hvb as [->|Hvb]); [..|by apply elem_of_nil in Hvb]; cbn [v_fn v_scope verb_run]; intros Ep; try done;
    intros [= <-].
  - eapply push_ok; [exact Ev|apply buffer_fits; by apply Nat.lt_le_incl|done].
  - apply freeze_ok.
  - apply thaw_ok.
Qed.

Definition both_ok (r : retraced) : Prop := state_ok (ctl r) ∧ CtlFeed.framed (fr r).

Lemma reset_framed f : CtlFeed.framed f → CtlFeed.framed (CtlFeed.retraced_ctl_conn_reset f).
Proof. intros [? ?]. split; [done|]. cbn. lia. Qed.

Lemma readable_ok env got r r' : handle_ctl_readable env got r = Some r' → both_ok r → both_ok r'.
Proof.
  assert (∀ r, both_ok r → both_ok (ctl_drop r)) as Hdrop by (intros r0 [? ?]; split; [done|by apply reset_framed]).
  unfold handle_ctl_readable. destruct got as [|c0 got]; [intros [= <-]; by apply Hdrop|].
  destruct (CtlFeed.retraced_ctl_feed _ _ _ _) as [[rc [c f]]|] eqn:E; [|done]. cbn [mbind option_bind].
  destruct c as [c|]; [|done]. cbn [mbind option_bind]. intros [= <-] [Hok Hf].
  apply (CtlFeed.feed_keeps _ (λ c, ∀ x, c = Some x → state_ok x)) in E as [Hc Hf']; [| |by intros x [= <-]|done].
  - assert (both_ok (mkRetraced c f true)) as H by (split; [by apply Hc|done]). destruct (rc =? 0)%Z; [done|by apply Hdrop].
  - intros [c1|] line Hc1 Hl x; [|done]. cbn [mbind option_bind]. intros Ex. eapply line_ok; [exact Hl|exact Ex|by apply Hc1].
Qed.

Lemma step_ok r r' : retraced_step r r' → both_ok r → both_ok r'.
Proof.
  destruct 1 as [r d s Hs|tick puid euid r ok d _ Hg|env cn sc r _|env r _|env got r r' _ _ E].
  - intros [Hok Hf]. split; [|done]. unfold state_ok. cbn. by eapply agents_ok.
  - intros [Hok Hf]. split; [|by apply reset_framed]. unfold Daemon.accept_gated in Hg.
    repeat case_match; simplify_eq; exact Hok.
  - intros [Hok Hf]. split; [exact Hok|by apply reset_framed].
  - done.
  - by eapply readable_ok.
Qed.

(** C8 (invariant). Whatever agents and controllers do, and in whatever order,
    every registered agent that presented the nonce was last sent exactly the
    policy the daemon holds, and none if it holds none, as long as the registry
    has room for a registration. *)
Theorem fleet_policy_current r0 r i x b :
  rtc retraced_step r0 r → slots (ctl r0) = ∅ → CtlFeed.framed (fr r0) → fits (Daemon.policy_blob (dm (ctl r0))) →
  length (agents (Daemon.reg (dm (ctl r)))) < RETRACED_REGISTRY_MAX →
  slots (ctl r) !! i = Some (x, b) → Daemon.helloed x = true → Daemon.c_spectator x = false →
  last_policy x = Daemon.policy_blob (dm (ctl r)).
Proof.
  intros Hrun He Hb Hf Hroom Hx Hh Hs.
  assert (both_ok r) as [[Hfull|[_ Ht]] _].
  { assert (both_ok r0) as H0 by (split; [right; split; [done|]; intros k y by0; by rewrite He, lookup_empty|done]).
    revert H0. clear -Hrun. induction Hrun as [|c c1 c2 Hs _ IH]; [done|]. intros H. by apply IH, (step_ok c). }
  - unfold full in Hfull. lia.
  - apply (proj1 (Ht i x b Hx)). unfold takes_policy. by rewrite Hh, Hs.
Qed.

(** ** Who is sent a policy *)

(** A connection that has a policy, or takes the next one. *)
Definition owes (c : conn) : Prop := policies c ≠ [] ∨ takes_policy c = true.

Definition nonce_in (n payload : bytes) : bool :=
  match json_parse_string payload with
  | Some v => streq (Daemon.jstr (json_value_get_object (Some v)) "nonce" 80) n
  | None => false
  end.

(** The frame is a greeting with the nonce [n]. *)
Definition presents (n : bytes) (fr : Rpc.retrace_rpc_frame) (b : bytes) : bool :=
  (Rpc.type fr =? Rpc.RETRACE_RPC_MSG_HELLO)%Z && nonce_in n (Daemon.frame_payload fr b).

Lemma hello_owes tick payload c d :
  let '(c', d') := Daemon.handle_hello fopen_ok remove_ok out_of_range tick payload c d in
  owes c' → owes c ∨ nonce_in (Daemon.nonce d) payload.
Proof.
  unfold Daemon.handle_hello, nonce_in. destruct (json_parse_string payload) as [v|]; [|by left]. cbv zeta.
  set (o := json_value_get_object (Some v)).
  set (sp := negb (retraced_nonce_matches _ _)).
  assert (sp = false → streq (Daemon.jstr o "nonce" 80) (Daemon.nonce d)) as Hsp.
  { intros Hs%negb_false_iff. apply nonce_exact, (inj Some) in Hs. by apply Is_true_true, streq_true. }
  destruct sp; [clear Hsp|destruct (retraced_registry_hello _ _ _ _ _ _) as [r [i|]]; intros _; right; by apply Hsp].
  destruct (retraced_registry_hello _ _ _ _ _ _) as [r [i|]].
  2: { intros [Hp|Hp]; [by left; left|]. unfold takes_policy in Hp. cbn in Hp. by rewrite andb_false_r in Hp. }
  match goal with |- context [Daemon.greet i ?x ?y] => set (c1 := x); set (d1 := y) end.
  destruct (Daemon.greet_keeps i c1 d1) as (_ & _ & Es).
  intros [Hp|Hp]; [|unfold takes_policy in Hp; rewrite Es in Hp; cbn in Hp; by rewrite andb_false_r in Hp].
  left. left. intros Hc. apply Hp. unfold Daemon.greet.
  destruct (match agents (Daemon.reg d1) !! i with Some _ => _ | None => _ end) as [id s].
  set (c2 := Daemon.write_frame Rpc.RETRACE_RPC_MSG_WELCOME _ c1).
  assert (policies c2 = []) as E2 by (unfold c2; by rewrite policies_write).
  destruct (Daemon.policy_blob d1) as [blob|]; [|done].
  assert (Daemon.c_spectator c2 = true) as -> by (unfold c2; destruct (Daemon.write_frame_keeps Rpc.RETRACE_RPC_MSG_WELCOME
    (Daemon.welcome_text id s (Daemon.ctl_epoch d1) (Daemon.c_spectator c1)) c1) as (_ & _ & -> & _); done). done.
Qed.
Lemma frame_owes tick fr b c d :
  let '(c', d') := Daemon.handle_agent_frame fopen_ok remove_ok out_of_range tick fr b c d in
  owes c' → owes c ∨ presents (Daemon.nonce d) fr b.
Proof.
  assert (∀ c', policies c' = policies c → (takes_policy c' = true → takes_policy c = true) → owes c' → owes c) as Hk.
  { intros c' Ep Et [H|H]; [left; by rewrite <- Ep|right; by apply Et]. }
  unfold Daemon.handle_agent_frame, presents. destruct (_ =? Rpc.RETRACE_RPC_MSG_HELLO)%Z; cbn [andb]; [apply hello_owes|].
  unfold Daemon.daemon_frame_handle.
  case_if; [destruct (negb _); [by left|]; destruct (json_parse_string _); by left|].
  case_if; [by left|]. case_if; [by left|].
  case_if; [intros H; left; revert H; apply Hk; [by apply policies_write|by rewrite write_takes]|].
  case_if; [|by left]. intros H; left; revert H. by apply Hk.
Qed.

Lemma frames_owe tick l c d :
  let s := foldl (λ s x, Daemon.handle_agent_frame fopen_ok remove_ok out_of_range tick x.1 x.2 s.1 s.2) (c, d) l in
  owes s.1 → owes c ∨ ∃ fr b, (fr, b) ∈ l ∧ presents (Daemon.nonce d) fr b.
Proof.
  revert c d. induction l as [|[fr b] l IH]; intros c d; cbn [foldl fst snd]; [by left|].
  pose proof (agent_frame_ok tick fr b c d) as Hg. pose proof (frame_owes tick fr b c d) as Ho.
  destruct (Daemon.handle_agent_frame _ _ _ _ _ _ _ _) as [c1 d1]. destruct Hg as [[[_ En] _] _]. cbn [fst snd].
  intros [H|(fr' & b' & Hin & H)]%IH.
  - destruct (Ho H) as [?|?]; [by left|]. right. exists fr, b. by split; [left|].
  - right. exists fr', b'. rewrite <- En. by split; [right|].
Qed.

(** The read of a greeting with the nonce [n] on the connection of slot [i]. *)
Inductive greets (n : bytes) (i : nat) : retraced → retraced → Prop :=
  | greets_read tick r c buf chunk c' d' buf' fr0 b0 :
      slots (ctl r) !! i = Some (c, buf) →
      Rpc.conn_frames (λ s fr b, Daemon.handle_agent_frame fopen_ok remove_ok out_of_range tick fr b s.1 s.2) false chunk
        ((c, dm (ctl r)), buf) = ((c', d'), buf') →
      (fr0, b0) ∈ Rpc.frames_read false chunk buf → presents n fr0 b0 →
      greets n i r (mkRetraced (set_slots (<[i := (c', buf')]> (slots (ctl r))) (set_dm d' (ctl r))) (fr r) (attached r)).

(** A line of a controller sends policies only to those that take them. *)
Definition fed (c c' : Ctl) : Prop :=
  Daemon.nonce (dm c') = Daemon.nonce (dm c) ∧
  ∀ i x b, slots c' !! i = Some (x, b) → ∃ y, slots c !! i = Some (y, b) ∧ (owes x → owes y).

#[local] Instance fed_preorder : PreOrder fed.
Proof.
  split; [by split; eauto|]. intros c1 c2 c3 [N1 H1] [N2 H2]. split; [congruence|].
  intros i x b (y & Hy & Hxy)%H2. destruct (H1 _ _ _ Hy) as (z & Hz & Hyz). exists z. split; [done|]. by intros ?%Hxy%Hyz.
Qed.

Lemma same_fed c c' : Daemon.nonce (dm c') = Daemon.nonce (dm c) → slots c' = slots c → fed c c'.
Proof. intros En Es. split; [done|]. rewrite Es. eauto. Qed.

Lemma pushed_fed blob c n c1 : retraced_ctl_push_policy blob c = (n, c1) → fed c c1.
Proof.
  unfold retraced_ctl_push_policy. intros [= _ <-]. split; [done|]. intros i x b. cbn [set_slots slots]. rewrite lookup_fmap.
  destruct (slots c !! i) as [[x0 b0]|]; [|done]. cbn. intros [= <- <-]. exists x0. split; [done|].
  destruct (takes_policy x0) eqn:Et; [|done]. intros _. by right.
Qed.

Lemma verb_fed vb env o c c' :
  vb ∈ ctl_verbs → verb_run fopen_ok remove_ok out_of_range (v_fn vb) env o c = Some c' → fed c c'.
Proof.
  intros Hvb E. pose proof (verb_effects _ _ _ vb env _ c c' Hvb E) as [_ _ (_ & En & _) [Ep|Ep] _ _].
  2: { apply same_fed; [done|apply Ep]. }
  revert Ep E.
  repeat (apply elem_of_cons in Hvb as [->|Hvb]); [..|by apply elem_of_nil in Hvb]; cbn [v_fn v_scope verb_run]; intros Ep; try done;
    intros [= <-]; clear En.
  - unfold verb_policy_push. destruct (json_object_get_string _ "blob") as [b|]; [|by apply same_fed].
    destruct (retraced_policy_load _ b) as [[blob epoch]|]; [|by apply same_fed].
    destruct (retraced_ctl_push_policy _ _) as [n c2] eqn:E. apply pushed_fed in E. exact E.
  - unfold verb_freeze. cbv zeta. destruct (retraced_ctl_push_policy _ _) as [n c2] eqn:E. apply pushed_fed in E. exact E.
  - unfold verb_thaw. cbv zeta. destruct (retraced_ctl_push_policy _ _) as [n c2] eqn:E. apply pushed_fed in E. exact E.
Qed.

Lemma line_fed env line c c' : handle_line env line c = Some c' → fed c c'.
Proof.
  unfold retraced_ctl_handle_line. destruct (json_parse_string line) as [v|]; [|by intros [= <-]; apply same_fed]. cbv zeta.
  destruct (json_object_get_string _ "cmd") as [cmd|]; [|by intros [= <-]; apply same_fed].
  destruct (ctl_verb_find cmd) as [vb|] eqn:Evb; [|by intros [= <-]; apply same_fed]. apply verb_from_elem in Evb as [Hvb _].
  case_if; [by intros [= <-]; apply same_fed|]. by apply verb_fed.
Qed.

Lemma readable_fed env got r r' :
  handle_ctl_readable env got r = Some r' → CtlFeed.framed (fr r) → fed (ctl r) (ctl r') ∧ CtlFeed.framed (fr r').
Proof.
  unfold handle_ctl_readable. destruct got as [|c0 got]; [intros [= <-] ?; by split; [apply same_fed|apply reset_framed]|].
  destruct (CtlFeed.retraced_ctl_feed _ _ _ _) as [[rc [c f]]|] eqn:E; [|done]. cbn [mbind option_bind].
  destruct c as [c|]; [|done]. cbn [mbind option_bind]. intros [= <-] Hf.
  apply (CtlFeed.feed_keeps _ (λ c, ∀ x, c = Some x → fed (ctl r) x)) in E as [Hc Hf']; [| |by intros x [= <-]|done].
  - specialize (Hc _ eq_refl). destruct (rc =? 0)%Z; (split; [exact Hc|]); [done|by apply reset_framed].
  - intros [c1|] line Hc1 _ x; [|done]. cbn [mbind option_bind]. intros Ex%line_fed. etransitivity; [by apply Hc1|done].
Qed.

(** Where a connection that has or takes a policy comes from in one step. *)
Definition traced_to (r r' : retraced) : Prop :=
  Daemon.nonce (dm (ctl r')) = Daemon.nonce (dm (ctl r)) ∧ CtlFeed.framed (fr r') ∧
  ∀ i x b, slots (ctl r') !! i = Some (x, b) → owes x →
    (∃ y b', slots (ctl r) !! i = Some (y, b') ∧ owes y) ∨ greets (Daemon.nonce (dm (ctl r))) i r r'.

Lemma fed_traced r r' : fed (ctl r) (ctl r') → CtlFeed.framed (fr r') → traced_to r r'.
Proof.
  intros [En Hs] Hf. split; [done|]. split; [done|]. intros i x b (y & Hy & Hxy)%Hs Hx. left. exists y, b. eauto.
Qed.

Lemma gate_nonce tick puid euid d ok d' :
  Daemon.accept_gated fopen_ok remove_ok tick puid euid d = (ok, d') → Daemon.nonce d' = Daemon.nonce d.
Proof. unfold Daemon.accept_gated. repeat case_match; by intros [= _ <-]. Qed.

Lemma agents_traced r d s :
  Daemon.daemon_step fopen_ok remove_ok out_of_range (dm (ctl r), slots (ctl r)) (d, s) → CtlFeed.framed (fr r) →
  traced_to r (mkRetraced (set_slots s (set_dm d (ctl r))) (fr r) (attached r)).
Proof.
  intros Hs Hf.
  assert (Daemon.nonce d = Daemon.nonce (dm (ctl r)) →
    (∀ i x b, s !! i = Some (x, b) → slots (ctl r) !! i = Some (x, b) ∨ x = Daemon.new_conn) →
    traced_to r (mkRetraced (set_slots s (set_dm d (ctl r))) (fr r) (attached r))) as Hk.
  { intros En Hsl. split; [done|]. split; [done|]. cbn. intros i x b [H| ->]%Hsl Ho; [left; eauto|].
    by destruct Ho as [[]|]. }
  inversion Hs; subst.
  - apply Hk; [by eapply gate_nonce|by left].
  - apply Hk; [by eapply gate_nonce|]. intros k x b.
    destruct (decide (k = i)) as [->|]; [rewrite lookup_insert_eq; intros [= <- _]; by right|].
    rewrite lookup_insert_ne by done. by left.
  - match goal with E : Rpc.conn_frames _ _ _ _ = _ |- _ => rename E into Ef end.
    destruct (read_ok _ _ _ _ _ _ _ _ Ef) as [[[_ En] _] _]. split; [done|]. split; [done|]. cbn. intros k x b.
    destruct (decide (k = i)) as [->|]; [|rewrite lookup_insert_ne by done; left; eauto].
    rewrite lookup_insert_eq. intros [= <- _] Ho. pose proof (frames_owe tick (Rpc.frames_read false chunk buf) c (dm (ctl r))) as H.
    rewrite <- (Rpc.conn_frames_read (λ s fr b, Daemon.handle_agent_frame fopen_ok remove_ok out_of_range tick fr b s.1 s.2)), Ef in H.
    destruct (H Ho) as [Hc|(fr0 & b0 & Hin & Hp)]; [left; eauto|]. right. by econstructor.
  - apply Hk; [|intros k x b [_ ?]%lookup_delete_Some; by left].
    exact (proj2 (proj1 (summaries_grow (Daemon.t_time tick) (dm (ctl r))))).
  - apply Hk; [exact (proj2 (proj1 (summaries_grow (Daemon.t_time tick) (dm (ctl r)))))|by left].
  - apply Hk; [done|by left].
Qed.

Lemma step_traced r r' : retraced_step r r' → CtlFeed.framed (fr r) → traced_to r r'.
Proof.
  destruct 1 as [r d s Hs|tick puid euid r ok d _ Hg|env cn sc r _|env r _|env got r r' _ _ E]; intros Hf.
  - by apply agents_traced.
  - apply fed_traced; [|by apply reset_framed]. apply same_fed; [|done]. by eapply gate_nonce.
  - apply fed_traced; [by apply same_fed|by apply reset_framed].
  - by apply fed_traced; [apply same_fed|].
  - by apply readable_fed in E as [? ?]; [apply fed_traced|].
Qed.

(** C7 (safety). Whatever agents and controllers do, and in whatever order: if a
    connection was sent a policy, in answer to a greeting or pushed by a
    controller, then a greeting with the daemon's nonce was read before on this
    very connection, which stayed open since. *)
Theorem policies_need_nonce r0 r i x b :
  rtc retraced_step r0 r → slots (ctl r0) = ∅ → CtlFeed.framed (fr r0) →
  slots (ctl r) !! i = Some (x, b) → policies x ≠ [] →
  ∃ r1 r2, rtc retraced_step r0 r1 ∧ retraced_step r1 r2 ∧ greets (Daemon.nonce (dm (ctl r0))) i r1 r2 ∧
    rtc (λ a b, retraced_step a b ∧ is_Some (slots (ctl b) !! i)) r2 r.
Proof.
  intros Hrun He Hf Hx Hp. assert (owes x) as Ho by (by left). clear Hp. revert x b Hx Ho.
  enough (Daemon.nonce (dm (ctl r)) = Daemon.nonce (dm (ctl r0)) ∧ CtlFeed.framed (fr r) ∧
    ∀ x b, slots (ctl r) !! i = Some (x, b) → owes x →
    ∃ r1 r2, rtc retraced_step r0 r1 ∧ retraced_step r1 r2 ∧ greets (Daemon.nonce (dm (ctl r0))) i r1 r2 ∧
      rtc (λ a b, retraced_step a b ∧ is_Some (slots (ctl b) !! i)) r2 r) by naive_solver.
  revert r Hrun. apply rtc_ind_r; [|intros r1 r2 Hrun Hs (En & Hf1 & IH)].
  { split; [done|]. split; [done|]. intros x b. by rewrite He, lookup_empty. }
  destruct (step_traced _ _ Hs Hf1) as (En1 & Hf2 & Ht). split; [congruence|]. split; [done|]. intros x b Hx Ho.
  destruct (Ht _ _ _ Hx Ho) as [(y & b' & Hy & Hoy)|Hg].
  - destruct (IH _ _ Hy Hoy) as (a1 & a2 & H1 & H2 & H3 & H4). exists a1, a2. do 3 (split; [done|]).
    eapply rtc_r; [exact H4|]. by split; [|rewrite Hx].
  - exists r1, r2. split; [done|]. split; [done|]. rewrite <- En. by split; [|apply rtc_refl].
Qed.

Lemma agents_run d s d' s' c f a :
  rtc (Daemon.daemon_step fopen_ok remove_ok out_of_range) (d, s) (d', s') →
  rtc retraced_step (mkRetraced (set_slots s (set_dm d c)) f a) (mkRetraced (set_slots s' (set_dm d' c)) f a).
Proof.
  remember (d, s) as x eqn:Ex. remember (d', s') as y eqn:Ey. intros H. revert d s Ex.
  induction H as [x|x [d1 s1] y Hs _ IH]; intros d s ->; [by injection Ey as -> ->|].
  eapply rtc_l; [|by apply IH]. by apply (step_agents (mkRetraced (set_slots s (set_dm d c)) f a)).
Qed.

End fleet.

(** ** An agent, a controller and a freeze *)

#[local] Existing Instance JsonRoundTrip.whole_numbers.

Definition toy_ctl : Ctl := mkCtl Daemon.toy_daemon ∅ false None RETRACED_SCOPE_ALL [] [] [].

Definition toy_slots : gmap nat (conn * bytes) :=
  <[0 := (Daemon.toy_greeted.1.1, Daemon.toy_greeted.2)]> (<[0 := (Daemon.new_conn, [])]> ∅).

Definition toy_joined : Ctl := set_slots toy_slots (set_dm Daemon.toy_greeted.1.2 toy_ctl).

Definition toy_start : retraced := mkRetraced toy_ctl CtlFeed.empty_framing false.

(** A local controller of the daemon's user. *)
Definition toy_attached : retraced := mkRetraced toy_joined CtlFeed.empty_framing true.

Definition toy_env : Env := mkEnv 1700000100 42 None.

Definition toy_chunk : bytes := jlit "{'cmd':'freeze'}" ++ [NL].

Definition toy_frozen : retraced :=
  default toy_attached (handle_ctl_readable (λ _, true) (λ _, true) (λ _, 0%Z) toy_env toy_chunk toy_attached).

Definition toy_agent : conn := match slots (ctl toy_frozen) !! 0 with Some (x, _) => x | None => Daemon.new_conn end.

Lemma toy_run : rtc (retraced_step (λ _, true) (λ _, true) (λ _, 0%Z)) toy_start toy_frozen.
Proof.
  etransitivity; [apply (agents_run _ _ _ _ _ _ _ toy_ctl CtlFeed.empty_framing false Daemon.toy_steps)|].
  eapply rtc_l; [apply (step_local _ _ _ (Daemon.mkTick 0 0 [] 0) None 0 _ true Daemon.toy_greeted.1.2); reflexivity|].
  eapply rtc_l; [|apply rtc_refl].
  apply (step_controller _ _ _ toy_env toy_chunk); [reflexivity|apply Nat.leb_le; vm_compute; reflexivity|].
  apply default_some. vm_compute. reflexivity.
Qed.

Lemma fleet_policy_current_witness : last_policy toy_agent = Daemon.policy_blob (dm (ctl toy_frozen)).
Proof.
  apply (fleet_policy_current (λ _, true) (λ _, true) (λ _, 0%Z) toy_start toy_frozen 0 toy_agent []).
  - exact toy_run.
  - reflexivity.
  - split; [apply repeat_length|apply Nat.ltb_lt; reflexivity].
  - intros blob [= <-]. by vm_compute.
  - apply Nat.ltb_lt. vm_compute. reflexivity.
  - vm_compute. reflexivity.
  - vm_compute. reflexivity.
  - vm_compute. reflexivity.
Defined.

Lemma policies_need_nonce_witness :
  ∃ r1 r2, rtc (retraced_step (λ _, true) (λ _, true) (λ _, 0%Z)) toy_start r1 ∧
    retraced_step (λ _, true) (λ _, true) (λ _, 0%Z) r1 r2 ∧
    greets (λ _, true) (λ _, true) (λ _, 0%Z) Daemon.toy_nonce 0 r1 r2 ∧
    rtc (λ a b, retraced_step (λ _, true) (λ _, true) (λ _, 0%Z) a b ∧ is_Some (slots (ctl b) !! 0)) r2 toy_frozen.
Proof.
  apply (policies_need_nonce (λ _, true) (λ _, true) (λ _, 0%Z) toy_start toy_frozen 0 toy_agent []).
  - exact toy_run.
  - reflexivity.
  - split; [apply repeat_length|apply Nat.ltb_lt; reflexivity].
  - vm_compute. reflexivity.
  - vm_compute. discriminate.
Defined.

(** The agent has the policy of its greeting and the freeze. *)
Lemma toy_told : policies toy_agent = [jlit "{'policy':{'epoch':1},'intercept_scripts':[]}"; freeze_blob 2].
Proof. vm_compute. reflexivity. Qed.

End Fleet.
