(* ===== verification/CtlTree.v ===== *)
(** * The session tree

    The answer to [sessions] of [tools/retraced/retraced_ctl.c]: the JSON tree the
    verb builds is the forest of the agents of every session, each agent once,
    below its parent where the parent registered before it. *)

From S2P Require Import Prelude Libc Stdio Json JsonText JsonObject AgentRegistry Ctl.

Module CtlTree.

Import Libc Stdio Json JsonText JsonObject AgentRegistry Ctl.

(** ** Trees of agents *)

Inductive tree := Node (e : agent_entry) (below : list tree).

Definition entry (t : tree) : agent_entry := match t with Node e _ => e end.

Fixpoint members (t : tree) : list agent_entry :=
  match t with Node e ts => e :: concat (map members ts) end.

Definition forest_members (ts : list tree) : list agent_entry := concat (map members ts).

(** Every agent but the root is below the agent it names as its parent. *)
Fixpoint nested (t : tree) : Prop :=
  match t with
  | Node e ts => (fix all ts := match ts with
                                | [] => True
                                | c :: ts => (parent_id (entry c) = ae_id e ∧ nested c) ∧ all ts
                                end) ts
  end.

Lemma nested_node e ts : nested (Node e ts) ↔ Forall (λ c, parent_id (entry c) = ae_id e ∧ nested c) ts.
Proof. cbn [nested]. induction ts as [|c ts IH]; [split; [constructor|done]|]. rewrite Forall_cons, <- IH. done. Qed.

Fixpoint height (t : tree) : nat :=
  match t with Node _ ts => S (fold_right (λ c n, Nat.max (height c) n) 0 ts) end.

(** An induction principle for trees with lists of subtrees. *)
Lemma tree_rect_strong (P : tree → Prop) : (∀ e ts, Forall P ts → P (Node e ts)) → ∀ t, P t.
Proof.
  intros H. fix IH 1. intros [e ts]. apply H. induction ts as [|t ts IHts]; constructor; [apply IH|exact IHts].
Qed.

Lemma height_members t : height t ≤ length (members t).
Proof.
  induction t as [e ts IH] using tree_rect_strong. cbn [height members length]. apply le_n_S.
  induction IH as [|t ts Ht _ IHts]; [done|]. cbn [fold_right map concat]. rewrite length_app. lia.
Qed.

(** The first place below an agent of the name. *)
Definition place_first (place : tree → bool * tree) : list tree → bool * list tree :=
  fix go ts :=
    match ts with
    | [] => (false, [])
    | t :: ts => let '(b, t') := place t in if b then (true, t' :: ts) else let '(b, ts') := go ts in (b, t' :: ts')
    end.

Fixpoint place (parent : bytes) (new : tree) (t : tree) : bool * tree :=
  match t with
  | Node e ts =>
      if streq (ae_id e) parent then (true, Node e (ts ++ [new]))
      else let '(b, ts) := place_first (place parent new) ts in (b, Node e ts)
  end.

Definition add_agent (e : agent_entry) (ts : list tree) : list tree :=
  let '(b, ts') := if streq (parent_id e) [] then (false, ts) else place_first (place (parent_id e) (Node e [])) ts in
  if b : bool then ts' else ts' ++ [Node e []].

(** What a placement does: a failed one changes nothing and there is no agent of
    the name; a successful one adds one agent. *)
Definition placed (parent : bytes) (new : tree) (ms ms' : list agent_entry) (b : bool) (same : Prop) : Prop :=
  if b then ms' ≡ₚ ms ++ members new else same ∧ parent ∉ map ae_id ms.

Definition place_ok (parent : bytes) (new t : tree) : Prop :=
  let '(b, t') := place parent new t in
  entry t' = entry t ∧ placed parent new (members t) (members t') b (t' = t) ∧ (nested t → nested t').

Lemma place_first_spec parent new ts :
  Forall (place_ok parent new) ts →
  let '(b, ts') := place_first (place parent new) ts in
  map entry ts' = map entry ts ∧ placed parent new (forest_members ts) (forest_members ts') b (ts' = ts) ∧
  (Forall nested ts → Forall nested ts').
Proof.
  unfold place_ok, forest_members. induction 1 as [|t ts Ht _ IH]; cbn [place_first].
  { split; [done|]. split; [|done]. split; [done|]. by apply not_elem_of_nil. }
  destruct (place parent new t) as [b t']. destruct Ht as (Ee & Hpl & Hnest). destruct b.
  - cbn [map]. rewrite Ee. split; [done|]. split; [|intros [? ?]%Forall_cons; constructor; auto].
    unfold placed in *. cbn [concat]. rewrite Hpl, <- !app_assoc. f_equiv. by rewrite (Permutation_app_comm (members new)).
  - destruct Hpl as [-> Hno]. destruct (place_first (place parent new) ts) as [b ts']. destruct IH as (Em & Hpl & Hn2).
    cbn [map]. rewrite Em. split; [done|]. split; [|intros [? ?]%Forall_cons; constructor; auto].
    unfold placed in *. cbn [concat]. destruct b; [by rewrite Hpl, app_assoc|].
    destruct Hpl as [-> Hno2]. split; [done|]. rewrite map_app, elem_of_app. tauto.
Qed.

Lemma placing_spec parent new t : parent_id (entry new) = parent → nested new → place_ok parent new t.
Proof.
  intros Hp Hn. induction t as [e ts IH] using tree_rect_strong. unfold place_ok. cbn [place].
  destruct (streq (ae_id e) parent) eqn:Eid; unfold streq in Eid; bool_to_prop.
  - split; [done|]. split.
    + unfold placed. cbn [members app]. rewrite map_app, concat_app. cbn. by rewrite app_nil_r.
    + rewrite !nested_node. intros H. apply Forall_app. split; [done|]. constructor; [|constructor]. split; [congruence|done].
  - pose proof (place_first_spec parent new ts IH) as Hts.
    destruct (place_first (place parent new) ts) as [b ts']. destruct Hts as (Em & Hpl & Hnest).
    split; [done|]. split.
    + unfold placed, forest_members in *. cbn [members]. destruct b; [by rewrite Hpl|].
      destruct Hpl as [-> Hno]. split; [done|]. cbn [map]. rewrite elem_of_cons. intros [->|?]; [done|by apply Hno].
    + rewrite !nested_node, !Forall_and. intros [Hq Hk]. split; [|by apply Hnest].
      apply (proj1 (List.Forall_map entry (λ x, parent_id x = ae_id e) ts')). rewrite Em. by apply List.Forall_map.
Qed.

(** The forest after one more agent. *)
Lemma add_spec e ts :
  forest_members (add_agent e ts) ≡ₚ forest_members ts ++ [e] ∧ (Forall nested ts → Forall nested (add_agent e ts)) ∧
  (map entry (add_agent e ts) = map entry ts ∨
   map entry (add_agent e ts) = map entry ts ++ [e] ∧
   (parent_id e = [] ∨ parent_id e ∉ map ae_id (forest_members ts))).
Proof.
  assert (∀ ts', ts' = ts → forest_members (ts' ++ [Node e []]) ≡ₚ forest_members ts ++ [e] ∧
    (Forall nested ts → Forall nested (ts' ++ [Node e []])) ∧ map entry (ts' ++ [Node e []]) = map entry ts ++ [e]) as Hroot.
  { intros ts' ->. unfold forest_members. rewrite !map_app, concat_app. split; [done|]. split; [|done].
    intros H. apply Forall_app. split; [done|]. by constructor. }
  unfold add_agent. destruct (streq (parent_id e) []) eqn:Ep; unfold streq in Ep; bool_to_prop.
  { destruct (Hroot ts eq_refl) as (H1 & H2 & H3). split; [done|]. split; [done|]. right. split; [done|by left]. }
  pose proof (place_first_spec (parent_id e) (Node e []) ts) as Hpl.
  destruct (place_first _ ts) as [b ts'].
  destruct Hpl as (Em & Hpl & Hn); [apply Forall_forall; intros t _; by apply placing_spec|]. destruct b.
  - split; [exact Hpl|]. split; [done|by left].
  - destruct Hpl as [E Hno]. destruct (Hroot ts' E) as (H1 & H2 & H3). split; [done|]. split; [done|]. right.
    split; [done|by right].
Qed.

(** ** The trees in JSON *)

Fixpoint tree_json (t : tree) : JSON_Object :=
  match t with Node e ts => set_children (map (λ c, JSONObject (tree_json c)) ts) (agent_node e) end.

Lemma node_facts e a :
  is_valid_utf8 (ae_id e) = true →
  json_object_get_string (Some (set_children a (agent_node e))) "id" = Some (ae_id e) ∧
  children (set_children a (agent_node e)) = a ∧
  (∀ b, set_children b (set_children a (agent_node e)) = set_children b (agent_node e)) ∧
  set_children [] (agent_node e) = agent_node e.
Proof.
  intros Hid. unfold agent_node, put_string, put_number, json_object_set_string, json_value_init_string. rewrite Hid.
  generalize (d_of_int (pid e)), (d_of_int (Z.b2z (spectator e))), (d_of_int 1).
  destruct (is_valid_utf8 (cmdline e)), (parent_hole e); intros d1 d2 d3; by vm_compute.
Qed.

Notation forest_json ts := (map (λ c, JSONObject (tree_json c)) ts).

Lemma tree_leaf e : is_valid_utf8 (ae_id e) = true → tree_json (Node e []) = agent_node e.
Proof. intros H. cbn [tree_json map]. by apply (node_facts e []). Qed.

(** [place_agent] on the nodes is [place] on the trees. *)
Lemma place_any_json f g ts :
  Forall (λ t, f (tree_json t) = let '(b, t') := g t in Some (b, tree_json t')) ts →
  place_any f (forest_json ts) = let '(b, ts') := place_first g ts in Some (b, forest_json ts').
Proof.
  induction 1 as [|t ts Ht _ IH]; [done|]. cbn [map place_any place_first]. rewrite Ht.
  destruct (g t) as [[] t']; cbn [mbind option_bind]; [done|]. rewrite IH. by destruct (place_first g ts) as [b ts'].
Qed.

Lemma place_agent_json fuel parent new t :
  Forall (λ e, is_valid_utf8 (ae_id e) = true) (members t) → height t ≤ fuel →
  place_agent fuel parent (JSONObject (tree_json new)) (tree_json t) =
  let '(b, t') := place parent new t in Some (b, tree_json t').
Proof.
  revert t. induction fuel as [|fuel IH]; intros [e ts] Hv Hf; [cbn in Hf; lia|].
  cbn [members] in Hv. apply Forall_cons in Hv as [He Hts]. cbn [place place_agent tree_json].
  destruct (node_facts e (forest_json ts) He) as (-> & -> & Hset & _). cbn [mbind option_bind].
  destruct (streq (ae_id e) parent); [cbn [tree_json]; by rewrite Hset, map_app|].
  rewrite (place_any_json _ (place parent new)).
  - destruct (place_first (place parent new) ts) as [b ts']. cbn [mbind option_bind tree_json]. by rewrite Hset.
  - clear Hset. cbn [height] in Hf. apply le_S_n in Hf. induction ts as [|t ts IHts]; [constructor|].
    cbn [map concat fold_right] in Hts, Hf. apply Forall_app in Hts as [? ?].
    constructor; [apply IH; [done|lia]|apply IHts; [done|lia]].
Qed.

(** ** Sessions *)

Notation session_t := (bytes * list tree)%type.

Definition session_json (s : session_t) : JSON_Object := set_agents (forest_json s.2) (empty_session s.1).

Lemma session_facts tok ts :
  is_valid_utf8 tok = true →
  token_of (session_json (tok, ts)) = Some tok ∧ session_agents (session_json (tok, ts)) = forest_json ts ∧
  (∀ ts', set_agents (forest_json ts') (session_json (tok, ts)) = session_json (tok, ts')) ∧
  empty_session tok = session_json (tok, []).
Proof.
  intros H. unfold session_json. cbn [fst snd].
  assert (∀ a b, token_of (set_agents a (empty_session tok)) = Some tok ∧
    session_agents (set_agents a (empty_session tok)) = a ∧
    set_agents b (set_agents a (empty_session tok)) = set_agents b (empty_session tok) ∧
    empty_session tok = set_agents [] (empty_session tok)) as Hs.
  { unfold empty_session, put_string, json_object_set_string, json_value_init_string. rewrite H. by vm_compute. }
  destruct (Hs (forest_json ts) []) as (? & ? & _ & ?). split; [done|]. split; [done|]. split; [|done].
  intros ts'. apply Hs.
Qed.

(** The tokens of the sessions, in the order of their first agents, and the
    forest of one session. *)
Definition tokens (es : list agent_entry) : list bytes :=
  foldl (λ ts e, if decide (session e ∈ ts) then ts else ts ++ [session e]) [] es.

Definition of_session (tok : bytes) (es : list agent_entry) : list agent_entry := filter (λ e, session e = tok) es.

Definition forest (es : list agent_entry) : list tree := foldl (λ ts e, add_agent e ts) [] es.

Definition sessions (toks : list bytes) (es : list agent_entry) : list session_t :=
  map (λ tok, (tok, forest (of_session tok es))) toks.

Definition roots_ok (es : list agent_entry) (roots : list agent_entry) : Prop :=
  ∀ e, e ∈ roots → ∃ l1 l2, es = l1 ++ e :: l2 ∧ (parent_id e = [] ∨ parent_id e ∉ map ae_id l1).

Lemma forest_spec es :
  forest_members (forest es) ≡ₚ es ∧ Forall nested (forest es) ∧ roots_ok es (map entry (forest es)).
Proof.
  unfold forest. induction es as [|e es IH] using rev_ind.
  { split; [done|]. split; [constructor|]. intros e H. by apply not_elem_of_nil in H. }
  rewrite foldl_app. cbn [foldl]. destruct IH as (Hm & Hn & Hr).
  destruct (add_spec e (foldl (λ ts e, add_agent e ts) [] es)) as (Hm' & Hn' & Hroots).
  split; [by rewrite Hm', Hm|]. split; [auto|].
  assert (∀ x, x ∈ map entry (foldl (λ ts e, add_agent e ts) [] es) →
    ∃ l1 l2, es ++ [e] = l1 ++ x :: l2 ∧ (parent_id x = [] ∨ parent_id x ∉ map ae_id l1)) as Hold.
  { intros x (l1 & l2 & -> & Hp)%Hr. exists l1, (l2 ++ [e]). by rewrite <- app_assoc. }
  intros x. destruct Hroots as [->|[-> Hp]]; [apply Hold|]. rewrite elem_of_app, list_elem_of_singleton.
  intros [?| ->]; [by apply Hold|]. exists es, []. split; [done|]. by rewrite <- Hm.
Qed.

Lemma tokens_spec es : NoDup (tokens es) ∧ (∀ tok, tok ∈ tokens es ↔ tok ∈ map session es).
Proof.
  unfold tokens. induction es as [|e es [IHn IH]] using rev_ind; [split; [constructor|done]|].
  rewrite foldl_app. cbn [foldl]. setoid_rewrite map_app. setoid_rewrite elem_of_app. cbn [map].
  setoid_rewrite list_elem_of_singleton. case_decide as Hd.
  - split; [done|]. intros tok. rewrite IH. split; [tauto|]. intros [?| ->]; [done|by apply IH].
  - split; [|intros tok; rewrite elem_of_app, IH, list_elem_of_singleton; done].
    apply NoDup_app. split; [done|]. split; [|apply NoDup_singleton]. intros x Hx ->%list_elem_of_singleton. done.
Qed.

(** Collecting the sessions. *)
Lemma collect_tokens es :
  Forall (λ e, is_valid_utf8 (session e) = true) es →
  collect empty_session es = map session_json (sessions (tokens es) []).
Proof.
  unfold collect, tokens. induction es as [|e es IH] using rev_ind; [done|]. intros [Hes He]%Forall_app.
  rewrite !foldl_app, IH by done. cbn [foldl]. apply Forall_cons in He as [He _].
  fold (tokens es). assert (∀ tok, tok ∈ tokens es → is_valid_utf8 tok = true) as Hv.
  { intros tok. rewrite (proj2 (tokens_spec es)). intros (x & -> & Hx)%list_elem_of_fmap.
    rewrite Forall_forall in Hes. by apply Hes. }
  assert (existsb (token_is (session e)) (map session_json (sessions (tokens es) [])) = bool_decide (session e ∈ tokens es)) as ->.
  { clear IH. induction (tokens es) as [|tok toks IHt]; [done|]. cbn [sessions map existsb]. unfold token_is at 1.
    rewrite (proj1 (session_facts tok _ (Hv tok ltac:(by left)))). unfold sessions in IHt. rewrite IHt by (intros; apply Hv; by right).
    apply Bool.eq_iff_eq_true. rewrite orb_true_iff, !bool_decide_eq_true, elem_of_cons. unfold streq. rewrite bool_decide_eq_true.
    by intuition. }
  case_bool_decide as H; (destruct (decide (session e ∈ tokens es)); try done).
  unfold sessions. rewrite !map_app. f_equal. cbn [map]. f_equal.
  exact (proj2 (proj2 (proj2 (session_facts (session e) [] He)))).
Qed.

(** One more agent. *)
Lemma find_session_json tok toks es :
  Forall (λ t, is_valid_utf8 t = true) toks → tok ∈ toks →
  ∃ k, find_session (map session_json (sessions toks es)) tok = Some (Some k) ∧ toks !! k = Some tok.
Proof.
  induction 1 as [|t toks Ht _ IH]; intros Hin; [by apply not_elem_of_nil in Hin|]. cbn [sessions map find_session].
  rewrite (proj1 (session_facts t _ Ht)). cbn [mbind option_bind]. unfold streq. case_bool_decide as E.
  - exists 0. by subst.
  - apply elem_of_cons in Hin as [->|Hin]; [done|]. destruct (IH Hin) as (k & Ek & Hk). exists (S k).
    unfold sessions in Ek. by rewrite Ek.
Qed.

Lemma add_agent_json fuel e ts :
  Forall (λ x, is_valid_utf8 (ae_id x) = true) (forest_members ts) → is_valid_utf8 (ae_id e) = true →
  length (forest_members ts) ≤ fuel →
  ('(placed, a) ← (if streq (parent_id e) [] then Some (false, forest_json ts)
                   else place_any (place_agent fuel (parent_id e) (JSONObject (agent_node e))) (forest_json ts));
   Some (if placed : bool then a else a ++ [JSONObject (agent_node e)])) = Some (forest_json (add_agent e ts)).
Proof.
  intros Hts He Hf. unfold add_agent. rewrite <- (tree_leaf e He).
  assert (∀ ts', forest_json ts' ++ [JSONObject (tree_json (Node e []))] = forest_json (ts' ++ [Node e []])) as Happ
    by (intros; by rewrite map_app).
  destruct (streq (parent_id e) []); cbn [mbind option_bind]; [by rewrite Happ|].
  rewrite (place_any_json _ (place (parent_id e) (Node e []))).
  - destruct (place_first _ ts) as [[] ts']; cbn [mbind option_bind]; [done|by rewrite Happ].
  - clear Happ. induction ts as [|t ts IH]; [constructor|]. unfold forest_members in *. cbn [map concat] in Hts, Hf.
    apply Forall_app in Hts as [? ?]. rewrite length_app in Hf.
    constructor; [apply place_agent_json; [done|pose proof (height_members t); lia]|apply IH; [done|lia]].
Qed.

Lemma sessions_snoc toks es e k :
  NoDup toks → toks !! k = Some (session e) →
  sessions toks (es ++ [e]) = <[k := (session e, add_agent e (forest (of_session (session e) es)))]> (sessions toks es).
Proof.
  intros Hnd Hk. apply list_eq. intros i. unfold sessions. rewrite list_lookup_fmap.
  destruct (decide (i = k)) as [->|Hne].
  - rewrite Hk. rewrite list_lookup_insert_eq by (rewrite length_map; by eapply lookup_lt_Some). cbn [fmap option_fmap option_map].
    unfold of_session. rewrite filter_app, filter_cons_True by done. unfold forest. by rewrite foldl_app.
  - rewrite list_lookup_insert_ne, list_lookup_fmap by done. destruct (toks !! i) as [tok|] eqn:Ei; [|done].
    cbn [fmap option_fmap option_map]. unfold of_session. rewrite filter_app, filter_cons_False, app_nil_r; [done|].
    intros <-. apply Hne. by eapply NoDup_lookup.
Qed.

Notation names_ok := (λ e, is_valid_utf8 (ae_id e) = true ∧ is_valid_utf8 (session e) = true).

Lemma of_session_ok P tok es : Forall P es → Forall P (of_session tok es).
Proof. rewrite !Forall_forall. intros H x [_ Hx]%list_elem_of_filter. auto. Qed.

Lemma nest_json fuel toks es e :
  NoDup toks → Forall (λ t, is_valid_utf8 t = true) toks → session e ∈ toks → Forall names_ok (es ++ [e]) →
  length es ≤ fuel →
  nest fuel (map session_json (sessions toks es)) e = Some (map session_json (sessions toks (es ++ [e]))).
Proof.
  intros Hnd Hv Hin [Hes He]%Forall_app Hf. apply Forall_cons in He as [[He Hse] _].
  destruct (find_session_json (session e) toks es Hv Hin) as (k & Ek & Hk). unfold nest. rewrite Ek. cbn [mbind option_bind].
  rewrite (sessions_snoc toks es e k Hnd Hk). set (ts := forest (of_session (session e) es)).
  assert (map session_json (sessions toks es) !! k = Some (session_json (session e, ts))) as ->.
  { unfold sessions. by rewrite !list_lookup_fmap, Hk. }
  cbn [mbind option_bind]. destruct (session_facts (session e) ts Hse) as (_ & -> & Hset & _).
  destruct (forest_spec (of_session (session e) es)) as (Hm & _ & _). fold ts in Hm.
  assert (Forall (λ x, is_valid_utf8 (ae_id x) = true) (forest_members ts)) as Hids.
  { rewrite Hm. apply of_session_ok. exact (Forall_impl _ _ _ Hes (λ x H, proj1 H)). }
  assert (length (forest_members ts) ≤ fuel) as Hlen by (rewrite Hm; etrans; [apply length_filter|done]).
  pose proof (add_agent_json fuel e ts Hids He Hlen) as Hadd.
  destruct (if streq _ _ then _ else _) as [[b a]|]; [|done]. cbn [mbind option_bind] in *. injection Hadd as ->.
  rewrite Hset. f_equal. unfold fmap. symmetry. apply (list_fmap_insert session_json).
Qed.

Lemma nest_all_json fuel toks es2 es1 :
  NoDup toks → Forall (λ t, is_valid_utf8 t = true) toks → (∀ e, e ∈ es2 → session e ∈ toks) → Forall names_ok (es1 ++ es2) →
  length (es1 ++ es2) ≤ fuel →
  nest_all fuel (map session_json (sessions toks es1)) es2 = Some (map session_json (sessions toks (es1 ++ es2))).
Proof.
  intros Hnd Hv. revert es1. induction es2 as [|e es2 IH]; intros es1 Hin Hok Hf; [by rewrite app_nil_r|].
  change (es1 ++ e :: es2) with (es1 ++ [e] ++ es2) in *. rewrite app_assoc in *. cbn [nest_all].
  rewrite nest_json; [|done|done|apply Hin; by left|by apply Forall_app in Hok as [? _]|rewrite !length_app in Hf; lia].
  cbn [mbind option_bind]. apply IH; [|done|done]. intros x Hx. apply Hin. by right.
Qed.

(** C11 (functional). The answer to sessions holds every agent of the registry
    exactly once: where the names of the agents and of their sessions are UTF-8,
    building the tree dereferences no null pointer, there is one entry per
    session and no other, its trees hold the agents of that session, every agent
    below another one is below its parent, and an agent is at the root only
    where it names no parent or one that had not registered in its session
    before it. *)
Theorem sessions_tree_complete r :
  Forall (λ e, is_valid_utf8 (ae_id e) = true ∧ is_valid_utf8 (session e) = true) (agents r) →
  ∃ forests, session_tree r = Some (map session_json forests) ∧ NoDup (map fst forests) ∧
    (∀ e, e ∈ agents r → session e ∈ map fst forests) ∧
    ∀ tok ts, (tok, ts) ∈ forests →
      of_session tok (agents r) ≠ [] ∧ forest_members ts ≡ₚ of_session tok (agents r) ∧ Forall nested ts ∧
      roots_ok (of_session tok (agents r)) (map entry ts).
Proof.
  intros Hok. destruct (tokens_spec (agents r)) as [Hnd Hin]. set (toks := tokens (agents r)) in *.
  exists (sessions toks (agents r)). assert (map fst (sessions toks (agents r)) = toks) as Hfst.
  { unfold sessions. rewrite map_map. apply map_id. }
  rewrite Hfst. assert (∀ e, e ∈ agents r → session e ∈ toks) as Hall.
  { intros e He. apply Hin. by apply list_elem_of_fmap_2. }
  split; [|split; [done|split; [done|]]].
  - unfold session_tree. rewrite collect_tokens by (apply (Forall_impl _ _ _ Hok); tauto).
    apply (nest_all_json _ toks (agents r) []); [done| |done|done|cbn; lia].
    apply Forall_forall. intros tok (e & -> & He)%Hin%list_elem_of_fmap. rewrite Forall_forall in Hok. by apply Hok.
  - intros tok ts (tok' & [= <- ->] & Htok)%list_elem_of_fmap. split; [|by apply forest_spec].
    apply Hin, list_elem_of_fmap in Htok as (e & -> & He). intros E.
    assert (e ∈ of_session (session e) (agents r)) as H by (by apply list_elem_of_filter). rewrite E in H.
    by apply not_elem_of_nil in H.
Qed.

(** ** An instance *)

(** A shell, its child and its grandchild, and an agent of another session that
    names the shell as its parent. *)
Definition family : retraced_registry :=
  let e id parent tok := set_parent (lit parent) false (fresh_agent (lit id) 7 1 (Some (lit tok)) None) in
  mkRegistry [e "a-1-1" "" "s1"; e "a-2-2" "a-1-1" "s1"; e "a-3-3" "a-2-2" "s1"; e "a-4-4" "a-1-1" "s2"] 4.

Lemma sessions_tree_complete_witness :
  ∃ forests, session_tree family = Some (map session_json forests) ∧ lit "s1" ∈ map fst forests ∧
    ∀ ts, (lit "s1", ts) ∈ forests → Forall nested ts ∧ length (forest_members ts) = 3.
Proof.
  destruct (sessions_tree_complete family) as (fs & E & _ & Hin & Hall); [by repeat constructor|].
  exists fs. split; [exact E|]. split; [apply (Hin (fresh_agent (lit "a-1-1") 7 1 (Some (lit "s1")) None)); by left|].
  intros ts Hts. destruct (Hall (lit "s1") ts Hts) as (_ & Hm & Hn & _). split; [exact Hn|]. by rewrite Hm.
Defined.

(** The tree of the shell's session. *)
Lemma family_tree :
  map (λ s, (s.1, map (λ t, (ae_id (entry t), map ae_id (members t))) s.2)) (sessions (tokens (agents family)) (agents family)) =
  [(lit "s1", [(lit "a-1-1", [lit "a-1-1"; lit "a-2-2"; lit "a-3-3"])]); (lit "s2", [(lit "a-4-4", [lit "a-4-4"])])].
Proof. by vm_compute. Qed.

End CtlTree.
