(* ===== verification/CtlThaw.v ===== *)
(** * Holding and releasing the fleet

    [policy_push], [freeze] and [thaw] of [tools/retraced/retraced_ctl.c] in a
    row: releasing a hold puts the pushed policy back in force, under a fresh
    epoch and otherwise unchanged. *)

From S2P Require Import Prelude Libc Stdio Json JsonText Numerals JsonRoundTrip JsonPrint JsonObject AgentRegistry Rpc PolicySig Daemon Ctl.

Module CtlThaw.

Import Libc Stdio Json JsonText JsonRoundTrip JsonPrint JsonObject AgentRegistry Ctl.

Section thaw.
Context (fopen_ok remove_ok : bytes → bool).
Context (out_of_range : double → Z).
Context {DT : DoubleText}.

Notation push := (verb_policy_push fopen_ok remove_ok out_of_range).
Notation freeze := (verb_freeze fopen_ok remove_ok).
Notation thaw := (verb_thaw fopen_ok remove_ok).
Notation load := (retraced_policy_load out_of_range).

(** ** Replaced members *)

Lemma set_forall (P : JSON_Value → Prop) o n v o' :
  Forall P (map snd o) → P v → json_object_set_value o n (Some v) = Some o' → Forall P (map snd o').
Proof.
  intros Ho Hv. unfold json_object_set_value, object_add. destruct (json_object_nget_value o n); intros [= <-].
  - induction o as [|[m w] o IH]; [constructor|]. cbn [map snd] in Ho. apply Forall_cons in Ho as [? ?].
    cbn [replace_value]. case_if; cbn [map snd]; constructor; auto.
  - rewrite map_app. apply Forall_app. split; [done|]. by constructor.
Qed.

Lemma set_names (P : bytes → Prop) o n v o' :
  Forall P (names o) → P n → json_object_set_value o n (Some v) = Some o' → Forall P (names o').
Proof.
  intros Ho Hn. unfold json_object_set_value, object_add. destruct (json_object_nget_value o n); intros [= <-].
  - by rewrite replace_names.
  - unfold names. rewrite map_app. apply Forall_app. split; [done|]. by constructor.
Qed.

(** The values a depth apart that the serialiser writes. *)
Definition fit (levels : nat) (v : JSON_Value) : Prop := json_ok v ∧ json_depth v ≤ levels.

Lemma fit_object levels o :
  fit (S levels) (JSONObject o) ↔ NoDup (names o) ∧ Forall no_nul (names o) ∧ Forall (fit levels) (map snd o).
Proof.
  unfold fit. rewrite ok_object, depth_object. unfold members_depth, names.
  assert (S (items_depth (map snd o)) ≤ S levels ↔ Forall (λ v, json_depth v ≤ levels) (map snd o)) as ->; [|rewrite Forall_and; tauto].
  rewrite <- Nat.succ_le_mono. induction (map snd o) as [|v l IH]; [split; [constructor|cbn; lia]|].
  rewrite Forall_cons, <- IH. cbn [items_depth foldr]. fold (items_depth l). lia.
Qed.

Lemma set_fit levels o n v :
  fit (S levels) (JSONObject o) → no_nul n → fit levels v →
  ∃ o', json_object_set_value o n (Some v) = Some o' ∧ fit (S levels) (JSONObject o') ∧ obj_map o' = <[n := v]> (obj_map o).
Proof.
  rewrite fit_object. intros (Hnd & Hn & Hv) Hn' Hv'. destruct (set_refines o n v Hnd) as (o' & E & Hnd' & Hm).
  exists o'. split; [done|]. split; [|done]. apply fit_object. split; [done|].
  split; [by eapply set_names|by eapply set_forall].
Qed.

(** [restamp] on a policy file: the epoch is the new one, all else is as before. *)
Definition restamped (e : Z) (root root' : JSON_Object) : Prop :=
  ∃ pol pol', json_object_nget_value root (lit "policy") = Some (JSONObject pol) ∧
    obj_map root' = <[lit "policy" := JSONObject pol']> (obj_map root) ∧
    obj_map pol' = <[lit "epoch" := JSONNumber (d_of_int e)]> (obj_map pol).

Lemma restamp_spec e root pol :
  fit (S MAX_NESTING) (JSONObject root) → json_object_get_object (Some root) "policy" = Some pol → number_ok (d_of_int e) →
  ∃ root', restamp e (JSONObject root) = JSONObject root' ∧ fit (S MAX_NESTING) (JSONObject root') ∧ restamped e root root'.
Proof.
  intros Hroot Hpol Hnum. unfold restamp. rewrite Hpol. unfold json_object_get_object, json_object_get_value in Hpol.
  destruct (json_object_nget_value root (lit "policy")) as [[| | |p| |]|] eqn:Ep; try done. injection Hpol as ->.
  assert (fit MAX_NESTING (JSONObject pol)) as Hp.
  { apply fit_object in Hroot as (_ & _ & Hv). rewrite Forall_forall in Hv. apply Hv.
    rewrite nget_lookup in Ep. apply elem_of_list_to_map_2 in Ep. by apply (list_elem_of_fmap_2 snd) in Ep. }
  destruct (set_fit 2047 pol (lit "epoch") (JSONNumber (d_of_int e))) as (pol' & E & Hfit & Hm); [done|by repeat constructor|by split; [|cbn; lia]|].
  unfold put_number, json_object_set_number. rewrite E. cbn [try_set default].
  destruct (set_fit 2048 root (lit "policy") (JSONObject pol')) as (root' & Er & Hfit' & Hm'); [done|by repeat constructor|done|].
  unfold json_object_set_value in Er. rewrite Ep in Er. injection Er as Er.
  exists root'. split; [by rewrite <- Er|]. split; [done|]. exists pol, pol'. done.
Qed.

(** What the push, the hold and the release leave. *)
Lemma push_state env o c blob e :
  json_object_get_string o "blob" = Some blob → load blob = Some (blob, e) →
  let c' := push env o c in
  Daemon.ctl_epoch (dm c') = e ∧ thaw_blob c' = Some blob ∧ slots c' = slots (retraced_ctl_push_policy blob c).2.
Proof. intros Hb Hl. unfold verb_policy_push. by rewrite Hb, Hl. Qed.

Lemma freeze_state env c :
  let c' := freeze env c in
  Daemon.ctl_epoch (dm c') = (Daemon.ctl_epoch (dm c) + 1)%Z ∧ thaw_blob c' = thaw_blob c ∧ frozen c' = true ∧
  slots c' = slots (retraced_ctl_push_policy (snprintf 256 (freeze_blob (Daemon.ctl_epoch (dm c) + 1))) c).2.
Proof. done. Qed.

Lemma thaw_state env c :
  let e := (Daemon.ctl_epoch (dm c) + 1)%Z in let text := snprintf 8192 (thaw_text e c) in let c' := thaw env c in
  Daemon.ctl_epoch (dm c') = e ∧ Daemon.policy_blob (dm c') = Some text ∧ frozen c' = false ∧
  slots c' = slots (retraced_ctl_push_policy text c).2.
Proof. done. Qed.

(** The policies sent to a connection, in order. *)
Definition sent (texts : list bytes) (x : conn * bytes) : conn * bytes :=
  if takes_policy x.1 then (foldl (λ c t, Daemon.write_frame Rpc.RETRACE_RPC_MSG_POLICY_SET t c) x.1 texts, x.2) else x.

Lemma push_sent blob texts (c : Ctl) m :
  slots c = sent texts <$> m → slots (retraced_ctl_push_policy blob c).2 = sent (texts ++ [blob]) <$> m.
Proof.
  intros E. unfold retraced_ctl_push_policy. cbn [snd slots set_slots]. rewrite E, <- map_fmap_compose.
  apply map_fmap_ext. intros k [x r] _. unfold sent, compose. cbn [fst snd].
  destruct (takes_policy x) eqn:Ex; cbn [fst snd]; [|by rewrite Ex].
  assert (takes_policy (foldl (λ c t, Daemon.write_frame Rpc.RETRACE_RPC_MSG_POLICY_SET t c) x texts) = true) as ->;
    [|by rewrite foldl_app].
  clear E. revert x Ex. induction texts as [|t texts IH]; intros x Ex; [done|]. apply IH. by rewrite write_takes.
Qed.


End thaw.

(** ** Instances *)

#[local] Existing Instance JsonRoundTrip.whole_numbers.

Notation toy_push := (verb_policy_push (λ _, true) (λ _, true) (λ _, 0%Z) (mkEnv 1700000100 42 None)).
Notation toy_freeze := (verb_freeze (λ _, true) (λ _, true) (mkEnv 1700000101 42 None)).
Notation toy_thaw := (verb_thaw (λ _, true) (λ _, true) (mkEnv 1700000102 42 None)).

Definition policy_object (epoch : Z) : JSON_Object :=
  [(lit "epoch", JSONNumber (d_int epoch)); (lit "id", JSONString (lit "p/1"))].
Definition policy_root (epoch : Z) : JSON_Object :=
  [(lit "policy", JSONObject (policy_object epoch)); (lit "intercept_scripts", JSONArray [])].
Definition policy_text : bytes := jlit "{'policy':{'epoch':3,'id':'p/1'},'intercept_scripts':[]}".
Definition thawed_text : bytes := jlit "{'policy':{'epoch':5,'id':'p\/1'},'intercept_scripts':[]}".

Definition operator : Ctl :=
  mkCtl Daemon.toy_daemon {[ 0 := (Daemon.mkConn (lit "a-1-1") true false [], []) ]} false None RETRACED_SCOPE_ALL [] [] [].

Lemma digit_number z c : (0 ≤ z < 10)%Z → fmt_g17 (d_int z) = [c] → c ≠ "-"%char → isdigit c = true → Numerals.read_num 10 [c] = z →
  number_ok (d_int z).
Proof.
  intros Hz E Hc Hd Hr. split.
  - rewrite E. exists [] c [] [] []; try done; try (by left); by repeat constructor.
  - rewrite E. unfold dec_value, whole_numbers. change (deref [c]) with c. unfold ceq. rewrite bool_decide_eq_false_2 by done. by rewrite Hr.
Qed.

Lemma policy_root_ok : json_ok (JSONObject (policy_root 3)).
Proof.
  assert (number_ok (d_int 3)) by (by apply (digit_number 3 "3")).
  cbn. split_and!; try done; try (by repeat constructor); (apply (bool_decide_eq_true_1 _); by vm_compute).
Qed.


(** A signed policy keeps its own epoch, so that the agents, which hold the
    freeze of a greater one, do not take it. *)
Definition signed_text : bytes :=
  jlit "{'blob':'{\'policy\':{\'epoch\':3},\'intercept_scripts\':[]}','signature':'c2ln'}".

Lemma thaw_signed :
  let c' := toy_thaw (toy_freeze (toy_push (Some [(lit "blob", JSONString signed_text)]) operator)) in
  Daemon.ctl_epoch (dm c') = 5%Z ∧ Daemon.policy_blob (dm c') = Some signed_text ∧
  retraced_policy_load (λ _, 0%Z) signed_text = Some (signed_text, 3%Z).
Proof. by vm_compute. Qed.

(** The policy the daemon was started with is not what a thaw restores. *)
Lemma thaw_startup :
  let c := default operator (load_policy (λ _, 0%Z) (Some policy_text) operator) in
  Daemon.policy_blob (dm c) = Some policy_text ∧
  Daemon.policy_blob (dm (toy_thaw (toy_freeze c))) = Some (jlit "{'policy':{'epoch':5},'intercept_scripts':[]}").
Proof. by vm_compute. Qed.

End CtlThaw.
