(* ===== verification/Supervisor.v ===== *)
(** * From a call in the traced program to the journal

    The composition of the agent ([src/supervisor/agent_posix.c]), the frame
    protocol ([src/supervisor/protocol.c]), the daemon's agent plane
    ([tools/retraced/daemon_frame.c], [main.c]) and its journal
    ([tools/retraced/journal.c]): the events a program emits are, in their order
    and with their numbers, the records that a start of the daemon recovers after
    a crash. *)

From S2P Require Import Prelude Numerals Libc Stdio Json JsonText JsonRoundTrip JsonPrint AgentRegistry.
From S2P Require Import Journal JournalChain Redact Rpc AgentRing PolicySig AgentEvent Agent Daemon.

Module Supervisor.

Import Libc Stdio Json JsonText JsonRoundTrip JsonPrint AgentRegistry Journal.


Notation conn := Daemon.conn.
Notation Daemon := Daemon.Daemon.

(** ** The program's calls *)

(** A call of [retrace_agent_emit_event]. *)
Record call := mkCall { c_ts : Z; c_name : bytes; c_kv : list (bytes * bytes) }.

(** The calls with the numbers the agent gives them. *)
Fixpoint numbered (id : bytes) (seq : Z) (calls : list call) : list (call * Z) :=
  match calls with
  | [] => []
  | c :: calls =>
      let n := (AgentEvent.emit_payload id seq (c_ts c) (c_name c) (c_kv c)).2 in
      (c, n) :: numbered id n calls
  end.

(** The text of a numbered event. *)
Definition text (id : bytes) (e : call * Z) : bytes :=
  AgentEvent.event_text id e.2 (c_ts e.1) (AgentEvent.jesc (c_name e.1)) (AgentEvent.jesc_kv (c_kv e.1)).

(** Events that reach the journal whole: the agent's buffers have room for the
    escaped text, and the journal's line for the record. *)
Record deliverable (id : bytes) (e : call * Z) : Prop := mkDeliverable {
  dl_wf : AgentEvent.wf_emit id e.2 (c_ts e.1) (c_name e.1) (c_kv e.1);
  dl_number : (e.2 ≤ 2 ^ 53)%Z;
  dl_room : length (text id e) < AgentEvent.event_total (AgentEvent.jesc (c_name e.1)) (c_kv e.1);
  dl_line : length (text id e) ≤ 1850;
}.

Definition calls_of (acts : list (call + Z)) : list call :=
  omap (λ x, match x with inl c => Some c | inr _ => None end) acts.

(** Every call finds a free place in the queue, [n] of them taken at the start. *)
Fixpoint room (n : nat) (acts : list (call + Z)) : bool :=
  match acts with
  | [] => true
  | inl _ :: acts => (n <? AgentRing.AGENT_RING_CAP) && room (S n) acts
  | inr ts :: acts => (0 <=? ts)%Z && room 0 acts
  end.

Section supervisor.
Context {EVP_PKEY : Type}.
Context (rc_send : bytes → bytes → Z).
Context (fopen_ok remove_ok : bytes → bool).
Context (out_of_range : double → Z).
Context {DT : DoubleText} {IT : IntText}.

Notation agent_state := (Agent.agent_state (EVP_PKEY := EVP_PKEY)).

(** An armed agent of this process with its thread. *)
Definition ready (pid : Z) (a : agent_state) : Prop :=
  Agent.armed a = true ∧ Agent.thread_spawned a = true ∧ Agent.spawner_pid a = pid.

Definition emit (pid : Z) (c : call) (a : agent_state) : option agent_state :=
  '(_, a) ← Agent.retrace_agent_emit_event [] (c_ts c) pid true true true (Some (c_name c)) (Some (c_kv c)) a;
  Some a.

(** What the program and the thread of the agent do: a call, or a drain of the
    queue at a time. *)
Fixpoint run (pid : Z) (acts : list (call + Z)) (a : agent_state) : option agent_state :=
  match acts with
  | [] => Some a
  | inl c :: acts => a ← emit pid c a; run pid acts a
  | inr ts :: acts => a ← Agent.drain_queue rc_send ts a; run pid acts a
  end.

Lemma push_queue malloc_ok item t (a : agent_state) q d :
  Agent.queue_is a q d → no_nul t → length q < AgentRing.AGENT_RING_CAP →
  (item = inl t ∧ malloc_ok = true ∨ item = inr t) →
  ∃ rm, Agent.queue_push malloc_ok item a = Some (0%Z, Agent.set_ring rm a) ∧
    AgentRing.ring_is rm.1 rm.2 (q ++ [t]) d.
Proof.
  intros Hq Ht Hroom%Nat.ltb_lt Hitem. unfold Agent.queue_push. destruct Hitem as [[-> ->]| ->].
  - destruct (AgentRing.push_copy_simulates t true _ _ _ _ Hq Ht) as (r & m & E & Hr).
    unfold AgentRing.ring_do, AgentRing.queue_do, AgentRing.accepts in *. rewrite Hroom in E, Hr. cbn [andb orb] in *.
    destruct (AgentRing.agent_ring_push_copy _ _ _ _ _) as [[rc rm]|]; [|done]. cbn in E. simplify_eq. by eexists.
  - destruct (AgentRing.push_heap_simulates t _ _ _ _ Hq Ht) as (r & m & E & Hr).
    unfold AgentRing.ring_do, AgentRing.queue_do, AgentRing.accepts in *. rewrite Hroom in E, Hr.
    destruct (AgentRing.malloc _ _) as [x mm].
    destruct (AgentRing.agent_ring_push_heap _ _ _ _) as [[rc rm]|]; [|done]. cbn in E. simplify_eq. by eexists.
Qed.

(** A call puts its text behind the queue. *)
Lemma emit_queues pid c (a : agent_state) q d :
  ready pid a → Agent.queue_is a q d → length q < AgentRing.AGENT_RING_CAP →
  let '(t, n) := AgentEvent.emit_payload (Agent.agent_id a) (Agent.seq a) (c_ts c) (c_name c) (c_kv c) in
  no_nul t →
  ∃ a', emit pid c a = Some a' ∧ ready pid a' ∧ Agent.queue_is a' (q ++ [t]) d ∧
    Agent.agent_id a' = Agent.agent_id a ∧ Agent.seq a' = n ∧ Agent.wire a' = Agent.wire a ∧
    Agent.drops_reported a' = Agent.drops_reported a ∧ Agent.connected a' = Agent.connected a.
Proof.
  intros (Ha & Hs & Hp) Hq Hroom. unfold AgentEvent.emit_payload, emit, Agent.retrace_agent_emit_event.
  rewrite Ha. cbn [negb]. cbv zeta.
  assert (∀ item t n, no_nul t → (item = inl t ∨ item = inr t) →
    ∃ a', ('(_, a) ← '(_, a) ← Agent.queue_push true item (Agent.set_seq n a);
             (let '(rc, a) := Agent.spawn_agent_thread pid true (Agent.adopt pid a) in Some (rc, a)); Some a) = Some a' ∧
      ready pid a' ∧ Agent.queue_is a' (q ++ [t]) d ∧ Agent.agent_id a' = Agent.agent_id a ∧ Agent.seq a' = n ∧
      Agent.wire a' = Agent.wire a ∧ Agent.drops_reported a' = Agent.drops_reported a ∧
      Agent.connected a' = Agent.connected a) as Hpush.
  { intros item t n Ht Hitem. destruct (push_queue true item t (Agent.set_seq n a) q d Hq Ht Hroom) as (rm & -> & Hr);
      [tauto|]. cbn [mbind option_bind]. unfold Agent.adopt, Agent.spawn_agent_thread.
    cbn [Agent.set_seq Agent.set_ring Agent.thread_spawned Agent.spawner_pid]. rewrite Hs, Hp, Z.eqb_refl. cbn [negb andb].
    cbn [Agent.set_seq Agent.set_ring Agent.thread_spawned]. rewrite Hs. eexists. split; [done|]. by split_and!. }
  destruct (AgentEvent.retrace_agent_format_event_stack _ _ _ _ _ _) as [t|]; intros Ht.
  - apply (Hpush _ _ _ Ht). by left.
  - replace (u64 (u64 (Agent.seq a + 1) + 1)) with (u64 (Agent.seq a + 2)).
    2: { unfold u64, wrap_u. rewrite Z.add_mod_idemp_l by lia. f_equal. lia. }
    apply (Hpush _ _ _ Ht). by right.
Qed.

Lemma text_no_nul id e : deliverable id e → no_nul (text id e).
Proof.
  intros [Hwf _ _ _]. eapply Forall_impl; [by apply AgentEvent.emitted_one_line|]. by intros c [_ ?].
Qed.

Lemma drain_all pid ts (a : agent_state) q :
  Agent.whole_sends rc_send → ready pid a → Agent.queue_is a q (Agent.drops_reported a) → no_nul (Agent.agent_id a) →
  (0 ≤ ts)%Z → (0 ≤ Agent.drops_reported a)%Z →
  ∃ a', Agent.drain_queue rc_send ts a = Some a' ∧ ready pid a' ∧
    Agent.agent_id a' = Agent.agent_id a ∧ Agent.seq a' = Agent.seq a ∧
    (Agent.connected a' = true → Agent.drops_reported a' = Agent.drops_reported a ∧
       Agent.queue_is a' [] (Agent.drops_reported a') ∧
       Agent.wire a' = Agent.wire a ++ Rpc.stream_bytes (Agent.event_message <$> q)).
Proof.
  intros Hw (Ha & Hs & Hp) Hq Hid Hts Hd.
  destruct (Agent.drain_queue_in_order rc_send ts a q _ Hw Hq Hid Hts Hd) as (k & a' & E & _ & Hwire & Hend).
  destruct (Agent.drain_queue_kept _ _ _ _ E) as (Ea & Et & Ep & Ei & En & _).
  exists a'. unfold ready. rewrite Ea, Et, Ep. do 4 (split; [done|]). intros Hc.
  destruct Hend as [(? & _)|(-> & Ed & Hq')]; [congruence|]. rewrite Ed. split; [done|].
  rewrite decide_True in Hq' by done. split; [done|]. by rewrite firstn_all in Hwire.
Qed.

Lemma emit_disconnected pid c (a a' : agent_state) :
  emit pid c a = Some a' → Agent.connected a = false → Agent.connected a' = false.
Proof.
  unfold emit, Agent.retrace_agent_emit_event. destruct (negb _); [by intros [= <-]|]. cbv zeta.
  assert (∀ item n, ('(_, a) ← '(_, a) ← Agent.queue_push true item (Agent.set_seq n a);
    (let '(rc, a) := Agent.spawn_agent_thread pid true (Agent.adopt pid a) in Some (rc, a)); Some a) = Some a' →
    Agent.connected a = false → Agent.connected a' = false) as Hp.
  { intros item n E Hc. destruct (Agent.queue_push _ _ _) as [[rc a1]|] eqn:Eq; [|done]. cbn [mbind option_bind] in E.
    assert (Agent.connected a1 = false) as Hc1.
    { unfold Agent.queue_push in Eq. destruct item as [t|t].
      - destruct (AgentRing.agent_ring_push_copy _ _ _ _ _) as [[? ?]|]; cbn in Eq; by simplify_eq.
      - destruct (AgentRing.malloc _ _). destruct (AgentRing.agent_ring_push_heap _ _ _ _) as [[? ?]|]; cbn in Eq; by simplify_eq. }
    revert E. unfold Agent.spawn_agent_thread, Agent.adopt. repeat case_if; cbn; by intros [= <-]. }
  destruct (AgentEvent.retrace_agent_format_event_stack _ _ _ _ _ _); apply Hp.
Qed.

Lemma run_disconnected pid acts (a a' : agent_state) :
  run pid acts a = Some a' → Agent.connected a = false → Agent.connected a' = false.
Proof.
  revert a. induction acts as [|[c|ts] acts IH]; intros a; cbn [run]; [by intros [= <-]| |].
  - destruct (emit pid c a) as [a1|] eqn:E; [|done]. cbn [mbind option_bind]. intros Hr Hc.
    by apply (IH a1), (emit_disconnected _ _ _ _ E).
  - destruct (Agent.drain_queue rc_send ts a) as [a1|] eqn:E; [|done]. cbn [mbind option_bind]. intros Hr Hc.
    apply (IH a1); [done|]. by apply (Agent.drain_queue_kept _ _ _ _ E).
Qed.

(** While the connection lasts, what the agent sent and what waits are the texts
    of the calls in their order. *)
Lemma run_sends pid acts (a a' : agent_state) q :
  let id := Agent.agent_id a in
  let es := numbered id (Agent.seq a) (calls_of acts) in
  Agent.whole_sends rc_send → ready pid a → Agent.queue_is a q (Agent.drops_reported a) → no_nul id →
  (0 ≤ Agent.drops_reported a)%Z → room (length q) acts = true → Forall (deliverable id) es →
  run pid acts a = Some a' → Agent.connected a' = true →
  ∃ q', Agent.queue_is a' q' (Agent.drops_reported a') ∧
    Agent.wire a' ++ Rpc.stream_bytes (Agent.event_message <$> q') =
      Agent.wire a ++ Rpc.stream_bytes (Agent.event_message <$> (q ++ (text id <$> es))) ∧
    (∀ acts' ts, acts = acts' ++ [inr ts] → q' = []).
Proof.
  intros id es Hw. unfold es, id. clear es id. revert a q.
  induction acts as [|[c|ts] acts IH]; intros a q Hrd Hq Hid Hd Hroom Hok Hrun Hconn; cbn [run room calls_of omap list_omap] in *.
  { simplify_eq. exists q. cbn. rewrite app_nil_r. do 2 (split; [done|]). by intros [|? ?] ?. }
  - apply andb_true_iff in Hroom as [Hlt%Nat.ltb_lt Hroom]. fold (calls_of acts) in *. cbn [numbered] in *.
    apply Forall_cons in Hok as [He Hok]. pose proof (emit_queues pid c a q _ Hrd Hq Hlt) as Hemit.
    pose proof (AgentEvent.emit_payload_text (Agent.agent_id a) (Agent.seq a) (c_ts c) (c_name c) (c_kv c)) as Ht.
    destruct (AgentEvent.emit_payload _ _ _ _ _) as [t n]. cbn [snd] in *.
    rewrite (Ht (dl_room _ _ He)) in Hemit. clear Ht.
    destruct (Hemit (text_no_nul _ _ He)) as (a1 & E1 & Hrd1 & Hq1 & Ei & En & Ew & Ed & _). clear Hemit.
    rewrite E1 in Hrun. cbn [mbind option_bind] in Hrun. rewrite <- Ed in Hq1, Hd. rewrite <- Ei in Hid.
    destruct (IH a1 _ Hrd1 Hq1 Hid Hd) as (q' & Hq' & Ew' & Hl); [by rewrite length_app, Nat.add_1_r|by rewrite Ei, En|done|done|].
    exists q'. split; [done|]. rewrite Ew', Ew, Ei, En. cbn [fmap list_fmap]. rewrite <- app_assoc. split; [done|].
    intros [|x acts'] ts E; simplify_eq/=; by eapply Hl.
  - apply andb_true_iff in Hroom as [Hts%Z.leb_le Hroom]. fold (calls_of acts) in *.
    destruct (drain_all pid ts a q Hw Hrd Hq Hid Hts Hd) as (a1 & E1 & Hrd1 & Ei & En & Hc).
    rewrite E1 in Hrun. cbn [mbind option_bind] in Hrun.
    assert (Agent.connected a1 = true) as Hc1.
    { destruct (Agent.connected a1) eqn:Ec; [done|]. by rewrite (run_disconnected _ _ _ _ Hrun Ec) in Hconn. }
    destruct (Hc Hc1) as (Ed & Hq1 & Ew). rewrite <- Ed in Hd. rewrite <- Ei in Hid. rewrite <- Ei, <- En in Hok.
    destruct (IH a1 [] Hrd1 Hq1 Hid Hd Hroom Hok Hrun Hconn) as (q' & Hq' & Ew' & Hl).
    exists q'. split; [done|]. rewrite Ew', Ew, Ei, En, <- app_assoc, <- Rpc.stream_app, <- fmap_app. split; [done|].
    intros [|x acts'] ts' E; simplify_eq/=; [|by eapply Hl].
    by destruct q'.
Qed.

(** ** The daemon's end *)

(** A frame of the connection, with the clock at each frame. *)
Definition handle (ticks : nat → Daemon.Tick) (s : nat * (conn * Daemon)) (fr : Rpc.retrace_rpc_frame) (b : bytes)
    : nat * (conn * Daemon) :=
  (S s.1, Daemon.handle_agent_frame fopen_ok remove_ok out_of_range (ticks s.1) fr b s.2.1 s.2.2).

Definition deliver (ticks : nat → Daemon.Tick) (s : nat * (conn * Daemon)) (m : Rpc.message) : nat * (conn * Daemon) :=
  handle ticks s (Rpc.frame_of m) (Rpc.frame_bytes m).

Lemma payload_drop m rest : drop Rpc.RETRACE_RPC_HEADER_SZ (Rpc.frame_bytes m ++ rest) = Rpc.m_payload m ++ rest.
Proof. done. Qed.

Lemma handle_message ticks s m rest :
  Rpc.wf_message m → handle ticks s (Rpc.frame_of m) (Rpc.frame_bytes m ++ rest) = deliver ticks s m.
Proof.
  intros _. unfold deliver, handle, Daemon.handle_agent_frame, Daemon.frame_payload.
  rewrite payload_drop, <- (app_nil_r (Rpc.frame_bytes m)), payload_drop, app_nil_r.
  rewrite take_app_le; [done|]. cbn [Rpc.frame_of Rpc.len]. unfold Rpc.m_len. lia.
Qed.

Lemma frame_payload_message m :
  no_nul (Rpc.m_payload m) → (Rpc.m_len m < Rpc.RETRACE_RPC_PAYLOAD_MAX)%Z →
  Daemon.frame_payload (Rpc.frame_of m) (Rpc.frame_bytes m) = Rpc.m_payload m.
Proof.
  intros Hn Hl. unfold Daemon.frame_payload. rewrite <- (app_nil_r (Rpc.frame_bytes _)), payload_drop, app_nil_r.
  cbn [Rpc.frame_of Rpc.len]. unfold Rpc.m_len in *. rewrite firstn_all2 by lia. by apply cstr_id.
Qed.

Lemma event_payload t : length t ≤ 2048 → Rpc.m_payload (Agent.event_message t) = t.
Proof. intros Ht. by apply firstn_all2. Qed.

(** The record the daemon makes of an event. *)
Definition received (tick : Daemon.Tick) (c : conn) (id : bytes) (e : call * Z) : JournalChain.event :=
  JournalChain.mkEvent (Daemon.t_time tick) (Daemon.agent_id c) e.2 (Some (text id e)).

Lemma deliver_event ticks n c d id e :
  Daemon.helloed c = true → deliverable id e →
  ∃ d', deliver ticks (n, (c, d)) (Agent.event_message (text id e)) = (S n, (c, d')) ∧
    (Daemon.jr d', Daemon.disk d') =
      JournalChain.write_event fopen_ok remove_ok (Daemon.jr d, Daemon.disk d) (received (ticks n) c id e) ∧
    Daemon.reg d' = Daemon.reg d.
Proof.
  intros Hc He. pose proof (text_no_nul _ _ He) as Hn. destruct He as [Hwf Hnum _ Hline].
  destruct (AgentEvent.event_reads _ _ _ _ _ Hwf) as (dseq & dts & Hd & Hr). fold (text id e) in Hr.
  pose proof (event_payload (text id e) ltac:(lia)) as Em.
  pose proof (frame_payload_message (Agent.event_message (text id e))) as Ep. unfold Rpc.m_len in Ep. rewrite Em in Ep.
  specialize (Ep Hn ltac:(unfold Rpc.RETRACE_RPC_PAYLOAD_MAX; lia)).
  unfold deliver, handle, Daemon.handle_agent_frame. cbn [fst snd]. rewrite Ep.
  change (Rpc.type (Rpc.frame_of (Agent.event_message (text id e)))) with Rpc.RETRACE_RPC_MSG_EVENT.
  unfold Daemon.daemon_frame_handle. cbn [Z.eqb Pos.eqb]. rewrite Hc. cbn [negb].
  unfold Daemon.handle_event. rewrite <- (app_nil_r (text id e)), (reads_parse _ _ _ Hr) by
    (done || apply Nat.le_le_succ_r, AgentEvent.event_depth). rewrite app_nil_r.
  change (json_object_get_string _ "source") with (@None bytes).
  change (json_object_get_number _ "seq") with dseq.
  replace (PolicySig.d_u64 out_of_range dseq) with e.2.
  2: { unfold PolicySig.d_u64. rewrite (Hd Hnum). destruct Hwf as [_ Hs _ _ _ _]. by rewrite (proj2 (Z.leb_le _ _)), (proj2 (Z.ltb_lt _ _)) by lia. }
  eexists. split; [done|]. split; [|done]. unfold JournalChain.write_event, received.
  cbn [fst snd JournalChain.ev_ts JournalChain.ev_agent JournalChain.ev_seq JournalChain.ev_payload Daemon.journal Daemon.set_journal Daemon.jr Daemon.disk].
  by destruct (retraced_journal_event _ _ _ _ _ _ _ _) as [rc [j dk]].
Qed.

(** The records of a stream of events that starts with frame [n]. *)
Definition records (ticks : nat → Daemon.Tick) (n : nat) (c : conn) (id : bytes) (es : list (call * Z))
    : list JournalChain.event :=
  imap (λ i e, received (ticks (n + i)) c id e) es.

Lemma deliver_events ticks n c d id es :
  Daemon.helloed c = true → Forall (deliverable id) es →
  ∃ d', foldl (deliver ticks) (n, (c, d)) (Agent.event_message <$> (text id <$> es)) = (n + length es, (c, d')) ∧
    (Daemon.jr d', Daemon.disk d') =
      foldl (JournalChain.write_event fopen_ok remove_ok) (Daemon.jr d, Daemon.disk d) (records ticks n c id es) ∧
    Daemon.reg d' = Daemon.reg d.
Proof.
  intros Hc Hes. revert n d. induction Hes as [|e es He _ IH]; intros n d.
  { exists d. cbn. by rewrite Nat.add_0_r. }
  destruct (deliver_event ticks n c d id e Hc He) as (d1 & E1 & Ej & Er).
  destruct (IH (S n) d1) as (d' & E' & Ej' & Er'). exists d'. cbn [fmap list_fmap foldl length].
  rewrite E1. split; [by rewrite Nat.add_succ_r|]. split; [|by rewrite Er'].
  rewrite Ej'. unfold records. cbn [imap foldl]. rewrite Nat.add_0_r, <- Ej. f_equal. apply imap_ext.
  intros i x _. cbn. by rewrite Nat.add_succ_r.
Qed.

Lemma record_fits tick c id e :
  length (Daemon.agent_id c) < RETRACED_AGENT_ID_MAX → deliverable id e → JournalChain.fits (received tick c id e) = true.
Proof.
  intros Hc [_ _ _ Hl]. apply Nat.ltb_lt. unfold JournalChain.event_line, record_line, received. rewrite !length_app.
  cbn [JournalChain.ev_ts JournalChain.ev_agent JournalChain.ev_seq JournalChain.ev_payload].
  change (default (lit "{}") (Some (text id e))) with (text id e). rewrite fmt_hex_length.
  pose proof (fmt_ld_length (Daemon.t_time tick)). assert (length (fmt_llu e.2) ≤ 20) as Hd by apply (digits_length 10 20 e.2 []).
  unfold RETRACED_AGENT_ID_MAX, LINE_MAX in *.
  repeat match goal with
  | |- context [length (jlit ?t)] => let k := eval vm_compute in (length (jlit t)) in change (length (jlit t)) with k
  | |- context [length (lit ?t)] => let k := eval vm_compute in (length (lit t)) in change (length (lit t)) with k
  end. cbn [length]. lia.
Qed.

Lemma record_wf tick c id e :
  raw_text (Daemon.agent_id c) → (0 ≤ Daemon.t_time tick < 2 ^ 63)%Z → deliverable id e →
  ∃ v, JournalChain.wf_event (received tick c id e) v.
Proof.
  intros Hc Ht [Hwf Hn _ _]. destruct (AgentEvent.event_reads _ _ _ _ _ Hwf) as (dseq & dts & _ & Hr).
  eexists. split; [done|done| |exact Hr|apply AgentEvent.event_depth|by apply AgentEvent.emitted_one_line].
  destruct Hwf as [_ ? _ _ _ _]. cbn. lia.
Qed.

(** Messages of the queue fit the protocol and the daemon's buffer. *)
Lemma event_message_fits id e :
  deliverable id e →
  Rpc.wf_message (Agent.event_message (text id e)) ∧
  (Z.of_nat (length (Rpc.frame_bytes (Agent.event_message (text id e)))) ≤ Daemon.CONN_BUF)%Z.
Proof.
  intros [_ _ _ Hl]. unfold Rpc.wf_message, Daemon.CONN_BUF. rewrite Rpc.frame_bytes_length. unfold Rpc.m_len.
  rewrite event_payload by lia.
  split; [|unfold Rpc.RETRACE_RPC_PAYLOAD_MAX, Rpc.RETRACE_RPC_HEADER_SZ; lia].
  split; [by vm_compute|]. split; [by vm_compute|]. unfold Rpc.RETRACE_RPC_PAYLOAD_MAX. lia.
Qed.

Lemma records_wf ticks n c id es :
  raw_text (Daemon.agent_id c) → (∀ i, 0 ≤ Daemon.t_time (ticks i) < 2 ^ 63)%Z → Forall (deliverable id) es →
  Forall (λ e, ∃ v, JournalChain.wf_event e v) (records ticks n c id es).
Proof.
  intros Hc Ht Hes. unfold records. revert n. induction Hes as [|e es He _ IH]; intros n; cbn [imap]; constructor.
  - by apply record_wf.
  - erewrite imap_ext; [apply (IH (S n))|]. intros i x _. cbn. by rewrite Nat.add_succ_r.
Qed.

Lemma records_fit ticks n c id es :
  length (Daemon.agent_id c) < RETRACED_AGENT_ID_MAX → Forall (deliverable id) es →
  filter (λ e, JournalChain.fits e = true) (records ticks n c id es) = records ticks n c id es.
Proof.
  intros Hc Hes. unfold records. revert n. induction Hes as [|e es He _ IH]; intros n; [done|]. cbn [imap].
  rewrite filter_cons_True by (by apply record_fits). f_equal.
  rewrite (imap_ext _ (λ i e, received (ticks (S n + i)) c id e)); [apply (IH (S n))|].
  intros i x _. cbn. by rewrite Nat.add_succ_r.
Qed.

(** C4 (safety). What a program emits survives a crash of the daemon. Let calls
    and drains of the agent's queue alternate in any way, with a free place for
    every call, and let the connection last to a last drain. If every event fits
    (its escaped text the buffers of the agent, its record the line of the
    journal), no redaction is configured, the socket takes each frame whole or
    fails, and the journal does not rotate, then the next start of the daemon
    recovers the events in the order of the calls and with the numbers the agent
    gave them, whatever pieces the stream arrives in and wherever the crash cuts
    the part of the journal that was not flushed: what is lost is a tail of them,
    none when nothing was cut. *)
Theorem supervised_events_recovered pid acts (a a2 : agent_state) ts ticks ns c d p es0 cut :
  let id := Agent.agent_id a in
  let es := numbered id (Agent.seq a) (calls_of acts) in
  let all := es0 ++ records ticks 0 c id es in
  Agent.whole_sends rc_send →
  ready pid a → Agent.queue_is a [] (Agent.drops_reported a) → Agent.wire a = [] → no_nul id →
  (0 ≤ Agent.drops_reported a)%Z → room 0 (acts ++ [inr ts]) = true → Forall (deliverable id) es →
  run pid (acts ++ [inr ts]) a = Some a2 → Agent.connected a2 = true →
  Daemon.helloed c = true → raw_text (Daemon.agent_id c) → length (Daemon.agent_id c) < RETRACED_AGENT_ID_MAX →
  (∀ i, 0 ≤ Daemon.t_time (ticks i) < 2 ^ 63)%Z →
  Forall (λ n, 0 < n) ns → length (Agent.wire a2) ≤ length ns →
  fopen_ok p = true → length p < 512 → Forall JournalChain.good es0 →
  JournalChain.holds p es0 (length es0) (Daemon.jr d, Daemon.disk d) →
  ∃ d', Rpc.pump (handle ticks) false Daemon.CONN_BUF ns ((0, (c, d)), []) (Agent.wire a2)
        = (((length es, (c, d')), []), []) ∧
    ∃ m, length es0 ≤ m ≤ length all ∧ (length (JournalChain.buffered (Daemon.jr d')) ≤ cut → m = length all) ∧
      (JournalChain.journal_head 0 (take m all) ≠ BAD_HEAD →
       JournalChain.recovered (take m all)
         (retraced_journal_replay
            (<[p := content (Daemon.disk d') p ++ take cut (JournalChain.buffered (Daemon.jr d'))]> (Daemon.disk d'))
            (retraced_journal_open p) retraced_registry_init)).
Proof.
  intros id es all Hw Hrd Hq Ewire Hid Hd Hroom Hes Hrun Hconn Hc Hraw Hlen Hclock Hns Hall Hopen Hp Hgood Hh.
  destruct (run_sends pid (acts ++ [inr ts]) a a2 [] Hw Hrd Hq Hid Hd Hroom) as (q' & _ & Hwire & Hlast); [|done|done|].
  { unfold calls_of. by rewrite omap_app, app_nil_r. }
  assert (numbered id (Agent.seq a) (calls_of (acts ++ [inr ts])) = es) as Ees
    by (unfold es, calls_of; by rewrite omap_app, app_nil_r).
  rewrite (Hlast acts ts eq_refl), Ewire in Hwire. fold id in Hwire. rewrite Ees, !app_nil_l in Hwire.
  change (Rpc.stream_bytes (_ <$> [])) with (@nil ascii) in Hwire. rewrite app_nil_r in Hwire.
  rewrite Hwire in Hall |- *.
  destruct (Rpc.pump_delivers (handle ticks) (deliver ticks) false Daemon.CONN_BUF
    (Agent.event_message <$> (text id <$> es)) ns (0, (c, d)) (handle_message ticks))
    as (k & s & buf & pending & Epump & _ & _ & _ & Hend); [| |done|done|].
  1, 2: rewrite !Forall_fmap; eapply Forall_impl; [exact Hes|]; intros e He; apply (event_message_fits id e He).
  destruct (Hend Hall) as (-> & -> & ->). rewrite Epump. clear Hend Epump.
  destruct (deliver_events ticks 0 c d id es Hc Hes) as (d' & -> & Ej & _). exists d'. split; [done|].
  pose proof (JournalChain.crash_recovers fopen_ok remove_ok p es0 (records ticks 0 c id es) (Daemon.jr d, Daemon.disk d) cut
    Hopen Hp (records_wf _ _ _ _ _ Hraw Hclock Hes) Hgood Hh) as Hrec.
  rewrite <- Ej, records_fit in Hrec by done. destruct Hrec as (m & Hm & _ & Hn & Hr). by exists m.
Qed.

End supervisor.

(** ** A program with two events *)

#[local] Existing Instance JsonRoundTrip.whole_numbers.

Definition toy_calls : list call :=
  [mkCall 1700000000 (lit "retrace.call.open") [(lit "path", lit "/etc/hosts")];
   mkCall 1700000001 (lit "retrace.jail.denied") [(lit "path", lit "/a" ++ ["034"; "010"]%char)]].

Definition toy_agent : Agent.agent_state (EVP_PKEY := bytes) :=
  Agent.mkAgent true (lit "boot.7.1") AgentRing.agent_ring_init (AgentRing.mkMem ∅ 0) 0 0 0 true false true true 7 []
    None None (PolicySig.mkPins [] false) None [].

(** The first event is sent before the second is emitted. *)
Definition toy_acts : list (call + Z) :=
  match toy_calls with [c1; c2] => [inl c1; inr 1700000001%Z; inl c2] | _ => [] end.

Definition toy_after : Agent.agent_state (EVP_PKEY := bytes) :=
  default toy_agent (run Agent.open_socket 7 (toy_acts ++ [inr 1700000002%Z]) toy_agent).

Lemma toy_drains :
  run Agent.open_socket 7 (toy_acts ++ [inr 1700000002%Z]) toy_agent = Some toy_after.
Proof. unfold toy_after. apply default_some. vm_compute. reflexivity. Qed.

Definition toy_conn : conn := Daemon.mkConn (lit "boot.7.1") true false [].

Lemma toy_deliverable : Forall (deliverable (lit "boot.7.1")) (numbered (lit "boot.7.1") 0 toy_calls).
Proof.
  repeat (apply Forall_cons; split); [..|constructor].
  all: split; [|vm_compute; congruence|apply Nat.ltb_lt; vm_compute; reflexivity|apply Nat.leb_le; vm_compute; reflexivity].
  all: split; try (vm_compute; by repeat split); try (apply (bool_decide_eq_true_1 _); vm_compute; reflexivity).
Qed.

Lemma supervised_events_recovered_witness :
  let es := numbered (lit "boot.7.1") 0 toy_calls in
  let all := records (λ _, Daemon.toy_tick) 0 toy_conn (lit "boot.7.1") es in
  ∃ d', Rpc.pump (handle (λ _, true) (λ _, true) (λ _, 0%Z) (λ _, Daemon.toy_tick)) false Daemon.CONN_BUF (repeat 7 1000)
          ((0, (toy_conn, Daemon.toy_daemon)), []) (Agent.wire toy_after) = (((length es, (toy_conn, d')), []), []) ∧
    ∃ m, 0 ≤ m ≤ length all ∧ (length (JournalChain.buffered (Daemon.jr d')) ≤ 100 → m = length all) ∧
      (JournalChain.journal_head 0 (take m all) ≠ BAD_HEAD →
       JournalChain.recovered (take m all)
         (retraced_journal_replay
            (<[JournalChain.sample_path := content (Daemon.disk d') JournalChain.sample_path ++
                 take 100 (JournalChain.buffered (Daemon.jr d'))]> (Daemon.disk d'))
            (retraced_journal_open JournalChain.sample_path) retraced_registry_init)).
Proof.
  apply (supervised_events_recovered Agent.open_socket (λ _, true) (λ _, true) (λ _, 0%Z) 7 toy_acts toy_agent toy_after
    1700000002 (λ _, Daemon.toy_tick) (repeat 7 1000) toy_conn Daemon.toy_daemon JournalChain.sample_path [] 100).
  - intros w out. by left.
  - done.
  - apply AgentRing.ring_is_init.
  - done.
  - by repeat constructor.
  - done.
  - vm_compute. reflexivity.
  - exact toy_deliverable.
  - exact toy_drains.
  - vm_compute. reflexivity.
  - done.
  - apply (bool_decide_eq_true_1 _). vm_compute. reflexivity.
  - apply Nat.ltb_lt. vm_compute. reflexivity.
  - intros _. vm_compute. split; congruence.
  - apply (bool_decide_eq_true_1 _). vm_compute. reflexivity.
  - apply Nat.leb_le. vm_compute. reflexivity.
  - done.
  - apply Nat.ltb_lt. vm_compute. reflexivity.
  - constructor.
  - apply JournalChain.empty_holds. apply Nat.ltb_lt. vm_compute. reflexivity.
Defined.

End Supervisor.
