(* ===== verification/ScriptResolver.v ===== *)
(** * Finding the script of a call

    [src/core/caller_cache.c] (the cache of [dladdr] results),
    [src/core/caller_match.c] (the tests on a call's return address) and
    [src/core/script_resolver.c] (the choice of the intercept script), on top
    of the configuration cache. [dladdr] itself is a parameter. *)

From S2P Require Import Prelude Json OpenAddr ConfigCache.
Import Json ConfigCache.

Module ScriptResolver.

(** [rc_dl_info_t]: the module's file and base address, and the symbol. *)
Record dl_info := mkDl {
  dli_fname : option bytes;
  dli_fbase : Z;
  dli_sname : option bytes;
}.

Definition no_info : dl_info := mkDl None 0 None.

(** ** The cache of caller addresses *)

Definition CALLER_CACHE_SIZE : nat := 256.

(** The table of [(ret_addr, info)], empty where the address is NULL, with
    the counters. *)
Record caller_cache := mkCallers {
  g_cache : list (Z * dl_info);
  g_cache_hits : Z;
  g_cache_misses : Z;
}.

Definition empty_cache : caller_cache :=
  mkCallers (replicate CALLER_CACHE_SIZE (0%Z, no_info)) 0 0.

(** The loops over the table: the first slot that holds the address. *)
Definition find_addr (a : Z) (l : list (Z * dl_info)) : option nat :=
  fst <$> list_find (λ e, e.1 = a) l.

Definition retrace_caller_cache_lookup (ret_addr : Z) (st : caller_cache) : option dl_info * caller_cache :=
  if (ret_addr =? 0)%Z then (None, st)
  else
    match find_addr ret_addr (g_cache st) with
    | Some i =>
        (snd <$> g_cache st !! i,
         mkCallers (g_cache st) (g_cache_hits st + 1) (g_cache_misses st))
    | None => (None, mkCallers (g_cache st) (g_cache_hits st) (g_cache_misses st + 1))
    end.

Definition retrace_caller_cache_insert (ret_addr : Z) (info : dl_info) (st : caller_cache) : caller_cache :=
  if (ret_addr =? 0)%Z then st
  else
    let slot :=
      match find_addr ret_addr (g_cache st) with
      | Some i => i
      | None => default 0 (find_addr 0 (g_cache st))
      end in
    mkCallers (<[slot := (ret_addr, info)]> (g_cache st)) (g_cache_hits st) (g_cache_misses st).

Definition retrace_caller_cache_clear (st : caller_cache) : caller_cache :=
  mkCallers ((λ e, (0%Z, e.2)) <$> g_cache st) 0 0.

Definition retrace_caller_cache_stats (st : caller_cache) : Z * Z :=
  (g_cache_hits st, g_cache_misses st).

(** ** The tests on the return address *)

(** The characters after the last slash. *)
Fixpoint basename_from (best p : bytes) : bytes :=
  match p with
  | [] => best
  | c :: p => basename_from (if ceq c "/" then p else best) p
  end.
Definition path_basename (path : bytes) : bytes := basename_from path path.

Inductive caller_match_kind :=
  | RETRACE_CALLER_MATCH_UNKNOWN
  | RETRACE_CALLER_MATCH_ADDRESS
  | RETRACE_CALLER_MATCH_SYMBOL
  | RETRACE_CALLER_MATCH_MODULE_OFFSET.

Definition retrace_caller_match_kind_from_string (s : option bytes) : caller_match_kind :=
  match s with
  | None => RETRACE_CALLER_MATCH_UNKNOWN
  | Some s =>
      if streq s (lit "address") then RETRACE_CALLER_MATCH_ADDRESS
      else if streq s (lit "symbol") then RETRACE_CALLER_MATCH_SYMBOL
      else if streq s (lit "offset_in_module") then RETRACE_CALLER_MATCH_MODULE_OFFSET
      else RETRACE_CALLER_MATCH_UNKNOWN
  end.

(** 1 for a match, 0 for none, -1 when it cannot be told. *)
Definition retrace_caller_match_address (ret_addr expected : Z) : Z :=
  if (ret_addr =? 0)%Z then -1 else if (ret_addr =? expected)%Z then 1 else 0.

Section Resolver.
Variable rc_dladdr : Z → option dl_info.

Definition cached_dladdr (ret_addr : Z) (st : caller_cache) : option dl_info * caller_cache :=
  let '(hit, st) := retrace_caller_cache_lookup ret_addr st in
  match hit with
  | Some info => (Some info, st)
  | None =>
      match rc_dladdr ret_addr with
      | None => (None, st)
      | Some info => (Some info, retrace_caller_cache_insert ret_addr info st)
      end
  end.

(** An absent or empty string. *)
Definition no_string (s : option bytes) : bool :=
  match s with None | Some [] => true | _ => false end.

Definition retrace_caller_match_symbol (ret_addr : Z) (expected : option bytes) (st : caller_cache)
  : Z * caller_cache :=
  match expected with
  | None | Some [] => ((-1)%Z, st)
  | Some sym =>
      if (ret_addr =? 0)%Z then ((-1)%Z, st)
      else
        let '(info, st) := cached_dladdr ret_addr st in
        match info with
        | None => ((-1)%Z, st)
        | Some info =>
            match dli_sname info with
            | None | Some [] => (0%Z, st)
            | Some name => (if streq name sym then 1 else 0, st)%Z
            end
        end
  end.

Definition retrace_caller_match_module_offset (ret_addr : Z) (module : option bytes) (offset : Z)
    (st : caller_cache) : Z * caller_cache :=
  match module with
  | None | Some [] => ((-1)%Z, st)
  | Some m =>
      if (ret_addr =? 0)%Z then ((-1)%Z, st)
      else
        let '(info, st) := cached_dladdr ret_addr st in
        match info with
        | None => ((-1)%Z, st)
        | Some info =>
            match dli_fname info with
            | None => (0%Z, st)
            | Some f =>
                if (dli_fbase info =? 0)%Z then (0%Z, st)
                else if negb (streq (path_basename f) m) then (0%Z, st)
                else (if (u64 (ret_addr - dli_fbase info) =? offset)%Z then 1 else 0, st)%Z
            end
        end
  end.

(** ** [src/core/script_resolver.c] *)

Definition eval_caller_match_entry (ret_addr : Z) (entry : option JSON_Object) (st : caller_cache)
  : Z * caller_cache :=
  match entry with
  | None => ((-1)%Z, st)
  | Some _ =>
      match retrace_caller_match_kind_from_string (json_object_get_string entry "match_type") with
      | RETRACE_CALLER_MATCH_ADDRESS =>
          (retrace_caller_match_address ret_addr (u64 (d_trunc (json_object_get_number entry "value"))), st)
      | RETRACE_CALLER_MATCH_SYMBOL =>
          retrace_caller_match_symbol ret_addr (json_object_get_string entry "value") st
      | RETRACE_CALLER_MATCH_MODULE_OFFSET =>
          retrace_caller_match_module_offset ret_addr (json_object_get_string entry "module")
            (u64 (d_trunc (json_object_get_number entry "offset"))) st
      | RETRACE_CALLER_MATCH_UNKNOWN => ((-1)%Z, st)
      end
  end.

Fixpoint eval_entries (ret_addr : Z) (l : JSON_Array) (any : bool) (st : caller_cache) : Z * caller_cache :=
  match l with
  | [] => (if any then 0 else -1, st)%Z
  | v :: l =>
      let '(rc, st) := eval_caller_match_entry ret_addr (json_value_get_object (Some v)) st in
      if (rc =? 1)%Z then (1%Z, st)
      else eval_entries ret_addr l (any || negb (rc =? -1)%Z) st
  end.

Definition eval_caller_matches (ret_addr : Z) (script : JSON_Object) (st : caller_cache) : Z * caller_cache :=
  match json_object_get_array (Some script) "caller_matches" with
  | None => ((-1)%Z, st)
  | Some l => eval_entries ret_addr l false st
  end.

(** The walk over the scripts; [cand] is the name-only candidate so far. *)
Fixpoint find_loop (scripts : JSON_Array) (func_name : bytes) (ret_addr : Z)
    (cand : option JSON_Object) (st : caller_cache) : option JSON_Object * caller_cache :=
  match scripts with
  | [] => (cand, st)
  | v :: scripts =>
      let i_script := json_value_get_object (Some v) in
      match i_script, json_object_get_string i_script "func_name" with
      | Some script, Some i_func =>
          if streq i_func (lit "*") then (Some script, st)
          else if streq i_func func_name then
            let '(rc, st) := eval_caller_matches ret_addr script st in
            if (rc =? 1)%Z then (Some script, st)
            else if (rc =? 0)%Z then find_loop scripts func_name ret_addr cand st
            else if (ret_addr =? 0)%Z then (Some script, st)
            else
              let i_ret_addr := json_object_get_number (Some script) "return_addr" in
              if d_is_zero i_ret_addr then
                find_loop scripts func_name ret_addr
                  (match cand with None => Some script | Some _ => cand end) st
              else if (i64 ret_addr =? i64 (d_trunc i_ret_addr))%Z then (Some script, st)
              else find_loop scripts func_name ret_addr cand st
          else find_loop scripts func_name ret_addr cand st
      | _, _ => find_loop scripts func_name ret_addr cand st
      end
  end.

(** [retrace_script_find]; the outer [None] is a lookup that does not end. *)
Definition retrace_script_find (g_snap : option cache_snap) (scripts : JSON_Array) (func_name : bytes)
    (ret_addr : Z) (st : caller_cache) : option (option JSON_Object * caller_cache) :=
  match retrace_config_cache_lookup g_snap (Some func_name) with
  | None => None
  | Some cached =>
      match cached with
      | Some script =>
          match json_object_get_array (Some script) "caller_matches" with
          | None =>
              if d_is_zero (json_object_get_number (Some script) "return_addr")
              then Some (Some script, st)
              else Some (find_loop scripts func_name ret_addr None st)
          | Some _ => Some (find_loop scripts func_name ret_addr None st)
          end
      | None => Some (find_loop scripts func_name ret_addr None st)
      end
  end.

(** ** The caller cache is transparent *)

(** Every address in the table has the information [dladdr] gives. *)
Definition coherent (st : caller_cache) : Prop :=
  length (g_cache st) = CALLER_CACHE_SIZE ∧
  ∀ i a info, g_cache st !! i = Some (a, info) → a ≠ 0%Z → rc_dladdr a = Some info.

Lemma find_addr_Some a l i : find_addr a l = Some i → ∃ info, l !! i = Some (a, info).
Proof.
  unfold find_addr. destruct (list_find _ l) as [[j [a' info]]|] eqn:E; [|done].
  intros [= <-]. apply list_find_Some in E as (H & Ha & _). cbn in Ha. subst. eauto.
Qed.

Lemma insert_coherent ret_addr info st :
  coherent st → rc_dladdr ret_addr = Some info → coherent (retrace_caller_cache_insert ret_addr info st).
Proof.
  intros [Hl Hc] Hd. unfold retrace_caller_cache_insert. case_if; [done|].
  split; [cbn; by rewrite length_insert|]. cbn. intros i a info' Hi Ha.
  apply list_lookup_insert_Some in Hi as [(_ & E & _)|[_ Hi]]; [by simplify_eq|by eapply Hc].
Qed.

Lemma cached_dladdr_coherent ret_addr st :
  coherent st → ret_addr ≠ 0%Z →
  ∃ st', cached_dladdr ret_addr st = (rc_dladdr ret_addr, st') ∧ coherent st'.
Proof.
  intros Hco Hr. unfold cached_dladdr, retrace_caller_cache_lookup.
  destruct (Z.eqb_spec ret_addr 0); [done|]. destruct (find_addr ret_addr (g_cache st)) as [i|] eqn:E.
  - apply find_addr_Some in E as [info Hi]. rewrite Hi. cbn.
    rewrite (proj2 Hco i ret_addr info Hi Hr). eexists; split; [done|exact Hco].
  - destruct (rc_dladdr ret_addr) as [info|] eqn:Ed.
    + eexists; split; [done|]. by apply insert_coherent.
    + eexists; split; [done|exact Hco].
Qed.

(** ** The choice of a script, by its rules *)

(** The same tests without a cache. *)
Definition entry_verdict (ret_addr : Z) (v : JSON_Value) : Z :=
  let entry := json_value_get_object (Some v) in
  match entry, retrace_caller_match_kind_from_string (json_object_get_string entry "match_type") with
  | None, _ | _, RETRACE_CALLER_MATCH_UNKNOWN => -1
  | _, RETRACE_CALLER_MATCH_ADDRESS =>
      retrace_caller_match_address ret_addr (u64 (d_trunc (json_object_get_number entry "value")))
  | _, RETRACE_CALLER_MATCH_SYMBOL =>
      let sym := json_object_get_string entry "value" in
      if no_string sym || (ret_addr =? 0)%Z then -1
      else match rc_dladdr ret_addr with
           | None => -1
           | Some info =>
               if negb (no_string (dli_sname info)) && bool_decide (dli_sname info = sym) then 1 else 0
           end
  | _, RETRACE_CALLER_MATCH_MODULE_OFFSET =>
      let m := json_object_get_string entry "module" in
      if no_string m || (ret_addr =? 0)%Z then -1
      else match rc_dladdr ret_addr with
           | None => -1
           | Some info =>
               if bool_decide (path_basename <$> dli_fname info = m) && negb (dli_fbase info =? 0)%Z &&
                  (u64 (ret_addr - dli_fbase info) =? u64 (d_trunc (json_object_get_number entry "offset")))%Z
               then 1 else 0
           end
  end%Z.

(** Any entry that matches wins; without one, -1 when none could be told. *)
Definition matches_verdict (ret_addr : Z) (script : JSON_Object) : Z :=
  match json_object_get_array (Some script) "caller_matches" with
  | None => -1
  | Some l =>
      let vs := entry_verdict ret_addr <$> l in
      if bool_decide (1 ∈ vs) then 1
      else if bool_decide (Forall (λ v, v = -1) vs) then -1 else 0
  end%Z.

Inductive choice := Skip | Candidate | Take.

(** What one script is to a call. *)
Definition script_choice (func_name : bytes) (ret_addr : Z) (v : JSON_Value) : choice :=
  match v with
  | JSONObject script =>
      match json_object_get_string (Some script) "func_name" with
      | None => Skip
      | Some i_func =>
          let ra := json_object_get_number (Some script) "return_addr" in
          if streq i_func (lit "*") then Take
          else if negb (streq i_func func_name) then Skip
          else match matches_verdict ret_addr script with
               | 1 => Take
               | 0 => Skip
               | _ =>
                   if (ret_addr =? 0)%Z then Take
                   else if d_is_zero ra then Candidate
                   else if (i64 ret_addr =? i64 (d_trunc ra))%Z then Take else Skip
               end%Z
      end
  | _ => Skip
  end.

#[export] Instance choice_eq_dec : EqDecision choice.
Proof. solve_decision. Defined.

(** The first script that is taken, else the first candidate. *)
Definition chosen (scripts : JSON_Array) (func_name : bytes) (ret_addr : Z) : option JSON_Object :=
  let first c := list_find (λ v, script_choice func_name ret_addr v = c) scripts in
  match first Take with
  | Some (_, v) => json_value_get_object (Some v)
  | None => match first Candidate with
            | Some (_, v) => json_value_get_object (Some v)
            | None => None
            end
  end.

(** ** The walk follows the rules *)

Lemma symbol_verdict ret_addr sym st :
  coherent st →
  ∃ st', retrace_caller_match_symbol ret_addr sym st =
    ((if no_string sym || (ret_addr =? 0)%Z then -1
      else match rc_dladdr ret_addr with
           | None => -1
           | Some info =>
               if negb (no_string (dli_sname info)) && bool_decide (dli_sname info = sym) then 1 else 0
           end)%Z, st') ∧ coherent st'.
Proof.
  intros Hco. unfold retrace_caller_match_symbol.
  destruct sym as [[|c s]|]; [by eexists| |by eexists]. cbn [no_string orb].
  destruct (Z.eqb_spec ret_addr 0); [by eexists|].
  destruct (cached_dladdr_coherent ret_addr st Hco n) as (st' & -> & Hco').
  exists st'. destruct (rc_dladdr ret_addr) as [info|]; [|done]. split; [|done].
  destruct (dli_sname info) as [[|d w]|]; [done| |done]. cbn [no_string negb andb]. f_equal.
  unfold streq. by rewrite (bool_decide_ext (Some (d :: w) = Some (c :: s)) (d :: w = c :: s))
    by (split; congruence).
Qed.

Lemma module_verdict ret_addr m off st :
  coherent st →
  ∃ st', retrace_caller_match_module_offset ret_addr m off st =
    ((if no_string m || (ret_addr =? 0)%Z then -1
      else match rc_dladdr ret_addr with
           | None => -1
           | Some info =>
               if bool_decide (path_basename <$> dli_fname info = m) && negb (dli_fbase info =? 0)%Z &&
                  (u64 (ret_addr - dli_fbase info) =? off)%Z
               then 1 else 0
           end)%Z, st') ∧ coherent st'.
Proof.
  intros Hco. unfold retrace_caller_match_module_offset.
  destruct m as [[|c s]|]; [by eexists| |by eexists]. cbn [no_string orb].
  destruct (Z.eqb_spec ret_addr 0); [by eexists|].
  destruct (cached_dladdr_coherent ret_addr st Hco n) as (st' & -> & Hco').
  exists st'. destruct (rc_dladdr ret_addr) as [info|]; [|done].
  destruct (dli_fname info) as [f|]; [|done]. split; [|done]. cbn [fmap option_fmap option_map].
  rewrite (bool_decide_ext (Some (path_basename f) = Some (c :: s)) (path_basename f = c :: s))
    by (split; congruence).
  unfold streq. destruct (dli_fbase info =? 0)%Z; cbn [negb andb].
  - by rewrite andb_false_r.
  - by destruct (bool_decide (path_basename f = c :: s)); cbn [negb andb].
Qed.

Lemma entry_coherent ret_addr v st :
  coherent st →
  ∃ st', eval_caller_match_entry ret_addr (json_value_get_object (Some v)) st =
         (entry_verdict ret_addr v, st') ∧ coherent st'.
Proof.
  intros Hco. unfold eval_caller_match_entry, entry_verdict.
  destruct (json_value_get_object (Some v)) as [o|]; [|by eexists].
  destruct (retrace_caller_match_kind_from_string _); [by eexists|by eexists| |].
  - by apply symbol_verdict.
  - by apply module_verdict.
Qed.

Lemma entries_coherent ret_addr l any st :
  coherent st →
  ∃ st', eval_entries ret_addr l any st =
    ((if bool_decide (1 ∈ (entry_verdict ret_addr <$> l)) then 1
      else if any then 0
      else if bool_decide (Forall (λ v, v = -1) (entry_verdict ret_addr <$> l)) then -1 else 0)%Z, st') ∧
    coherent st'.
Proof.
  revert any st. induction l as [|v l IH]; intros any st Hco; cbn [eval_entries].
  - exists st. split; [|done]. rewrite bool_decide_false by set_solver.
    by destruct any.
  - destruct (entry_coherent ret_addr v st Hco) as (st1 & -> & Hco1). rewrite fmap_cons.
    destruct (Z.eqb_spec (entry_verdict ret_addr v) 1) as [E|E].
    { exists st1. rewrite bool_decide_true by (rewrite E; set_solver). done. }
    destruct (IH (any || negb (entry_verdict ret_addr v =? -1)%Z) st1 Hco1) as (st2 & -> & Hco2).
    exists st2. split; [|done]. f_equal.
    rewrite (bool_decide_ext (1%Z ∈ entry_verdict ret_addr v :: _) (1%Z ∈ (entry_verdict ret_addr <$> l)))
      by (rewrite elem_of_cons; naive_solver).
    destruct (bool_decide (1%Z ∈ _)); [done|]. destruct any; [done|]. cbn [orb].
    destruct (Z.eqb_spec (entry_verdict ret_addr v) (-1)) as [E1|E1]; cbn [negb].
    + erewrite bool_decide_ext; [reflexivity|]. rewrite Forall_cons. tauto.
    + rewrite bool_decide_false; [done|]. rewrite Forall_cons. tauto.
Qed.

Lemma matches_coherent ret_addr script st :
  coherent st →
  ∃ st', eval_caller_matches ret_addr script st = (matches_verdict ret_addr script, st') ∧ coherent st'.
Proof.
  intros Hco. unfold eval_caller_matches, matches_verdict.
  destruct (json_object_get_array _ _) as [l|]; [|by eexists].
  by apply (entries_coherent ret_addr l false).
Qed.

Lemma verdict_range ret_addr script :
  matches_verdict ret_addr script = 1%Z ∨ matches_verdict ret_addr script = 0%Z ∨
  matches_verdict ret_addr script = (-1)%Z.
Proof. unfold matches_verdict. repeat case_match; auto. Qed.

(** [chosen] with a candidate at hand, one script at a time. *)
Definition chosen_from (cand : option JSON_Object) (scripts : JSON_Array) (func_name : bytes) (ret_addr : Z)
  : option JSON_Object :=
  match list_find (λ v, script_choice func_name ret_addr v = Take) scripts, cand with
  | None, Some c => Some c
  | _, _ => chosen scripts func_name ret_addr
  end.

Lemma chosen_from_None scripts func_name ret_addr :
  chosen_from None scripts func_name ret_addr = chosen scripts func_name ret_addr.
Proof. unfold chosen_from. by destruct (list_find _ _). Qed.

Lemma chosen_from_cons cand v scripts func_name ret_addr :
  chosen_from cand (v :: scripts) func_name ret_addr =
  match script_choice func_name ret_addr v with
  | Take => json_value_get_object (Some v)
  | Skip => chosen_from cand scripts func_name ret_addr
  | Candidate =>
      chosen_from (match cand with None => json_value_get_object (Some v) | Some _ => cand end)
        scripts func_name ret_addr
  end.
Proof.
  unfold chosen_from, chosen. cbn [list_find].
  destruct (script_choice func_name ret_addr v) eqn:E; repeat case_decide; try congruence.
  - destruct (list_find (λ v, _ = Take) scripts) as [[i x]|]; cbn; [done|].
    destruct cand; [done|]. by destruct (list_find (λ v, _ = Candidate) scripts) as [[i x]|].
  - destruct (list_find (λ v, _ = Take) scripts) as [[i x]|]; cbn; [done|].
    destruct cand; [done|]. unfold script_choice in E. destruct v; done.
Qed.

Lemma find_loop_chosen scripts func_name ret_addr cand st :
  coherent st →
  ∃ st', find_loop scripts func_name ret_addr cand st =
         (chosen_from cand scripts func_name ret_addr, st') ∧ coherent st'.
Proof.
  revert cand st. induction scripts as [|v scripts IH]; intros cand st Hco.
  { exists st. split; [|done]. by destruct cand. }
  cbn [find_loop]. rewrite chosen_from_cons. unfold script_choice.
  destruct v as [| | |script| |]; try (by apply IH). cbn [json_value_get_object].
  destruct (json_object_get_string (Some script) "func_name") as [i_func|]; [|by apply IH].
  destruct (streq i_func (lit "*")); [by eexists|].
  destruct (streq i_func func_name); cbn [negb]; [|by apply IH].
  destruct (matches_coherent ret_addr script st Hco) as (st1 & -> & Hco1).
  destruct (verdict_range ret_addr script) as [-> | [-> | ->]]; cbn [Z.eqb]; [by eexists|by apply IH|].
  destruct (ret_addr =? 0)%Z; [by eexists|].
  destruct (d_is_zero _); [by apply IH|]. destruct (_ =? _)%Z; [by eexists|by apply IH].
Qed.

(** A script without a constraint on the caller. *)
Definition simple (script : JSON_Object) : bool :=
  match json_object_get_array (Some script) "caller_matches" with
  | None => d_is_zero (json_object_get_number (Some script) "return_addr")
  | Some _ => false
  end.

(** What [retrace_script_find] gives: the first cached script of the name if
    it is simple, else what the rules choose. *)
Definition resolved (es : list cache_entry) (scripts : JSON_Array) (func_name : bytes) (ret_addr : Z)
  : option JSON_Object :=
  match first_of es func_name with
  | Some script => if simple script then Some script else chosen scripts func_name ret_addr
  | None => chosen scripts func_name ret_addr
  end.

Lemma script_find_resolved snap scripts func_name ret_addr st :
  snap_ok snap → coherent st →
  ∃ st', retrace_script_find (Some snap) scripts func_name ret_addr st =
         Some (resolved (entries snap) scripts func_name ret_addr, st') ∧ coherent st'.
Proof.
  intros Hs Hco. unfold retrace_script_find. rewrite lookup_first by done.
  destruct (find_loop_chosen scripts func_name ret_addr None st Hco) as (st' & E & Hco').
  rewrite chosen_from_None in E. unfold resolved, simple.
  destruct (first_of _ _) as [script|]; [|rewrite E; by eexists].
  destruct (json_object_get_array _ _); [rewrite E; by eexists|].
  destruct (d_is_zero _); [by eexists|rewrite E; by eexists].
Qed.

Lemma first_of_cons e es name :
  first_of (e :: es) name = if streq (ce_name e) name then Some (ce_script e) else first_of es name.
Proof. by rewrite <- !scan_first. Qed.

(** A simple script is at least a candidate for its name. *)
Lemma simple_choice func_name ret_addr script :
  json_object_get_string (Some script) "func_name" = Some func_name → simple script = true →
  streq func_name (lit "*") = false →
  script_choice func_name ret_addr (JSONObject script) = if (ret_addr =? 0)%Z then Take else Candidate.
Proof.
  intros Hn Hs Hw. unfold script_choice. rewrite Hn, Hw, streq_refl. cbn [negb].
  unfold simple in Hs. unfold matches_verdict.
  destruct (json_object_get_array _ _); [done|]. rewrite Hs. by destruct (ret_addr =? 0)%Z.
Qed.

(** No cached script has the empty name. *)
Lemma first_of_empty n scripts : first_of (take n (omap named scripts)) [] = None.
Proof.
  revert n. induction scripts as [|v scripts IH]; intros n; [by destruct n|].
  cbn [omap list_omap]. destruct (named v) as [e|] eqn:En; [|apply IH].
  destruct n as [|n]; [done|]. cbn [take]. rewrite first_of_cons.
  destruct (streq (ce_name e) []) eqn:E; [|apply IH]. apply streq_true in E.
  unfold named in En. destruct v as [| | |o| |]; try done.
  destruct (json_object_get_string _ _) as [w|]; [|done]. destruct (streq w []) eqn:Ew; [done|].
  cbn [orb] in En. destruct (streq w (lit "*")); [done|]. injection En as <-. cbn in E. by subst.
Qed.

(** Without a script that is taken, the first simple script of the name is
    the first candidate. *)
Lemma first_simple_chosen n scripts func_name ret_addr script :
  first_of (take n (omap named scripts)) func_name = Some script → simple script = true →
  Forall (λ v, script_choice func_name ret_addr v ≠ Take) scripts →
  chosen scripts func_name ret_addr = Some script.
Proof.
  intros Hf Hs Hno. rewrite <- chosen_from_None. revert n Hf.
  induction Hno as [|v scripts Hv Hno IH]; intros n Hf; [by destruct n|].
  rewrite chosen_from_cons. cbn [omap list_omap] in Hf. destruct (named v) as [e|] eqn:En.
  - destruct n as [|n]; [done|]. cbn [take] in Hf. rewrite first_of_cons in Hf.
    unfold named in En. destruct v as [| | |o| |]; try done.
    destruct (json_object_get_string (Some o) "func_name") as [w|] eqn:Ew; [|done].
    destruct (streq w [] || streq w (lit "*")) eqn:Eb; [done|]. injection En as <-. cbn in Hf.
    apply orb_false_iff in Eb as [_ Eb]. destruct (streq w func_name) eqn:Ef.
    + apply streq_true in Ef as ->. injection Hf as ->.
      pose proof (simple_choice func_name ret_addr script Ew Hs Eb) as Hc. rewrite Hc in Hv |- *.
      destruct (ret_addr =? 0)%Z; [done|]. unfold chosen_from.
      rewrite (proj2 (list_find_None _ _)); [done|exact Hno].
    + destruct (script_choice func_name ret_addr (JSONObject o)) eqn:Ec; [by apply (IH n)| |done].
      unfold script_choice in Ec. rewrite Ew, Eb, Ef in Ec. done.
  - destruct (script_choice func_name ret_addr v) eqn:Ec; [by apply (IH n)| |done].
    exfalso. unfold script_choice in Ec. unfold named in En. destruct v as [| | |o| |]; try done.
    destruct (json_object_get_string (Some o) "func_name") as [w|] eqn:Ew; [|done].
    destruct (streq w (lit "*")) eqn:Eb; [done|]. destruct (streq w []) eqn:Ee; [|done].
    apply streq_true in Ee as ->. destruct (streq [] func_name) eqn:Ef; [|done].
    apply streq_true in Ef as <-. by rewrite first_of_empty in Hf.
Qed.

(** Asking for a sequence of callers through the cache of
    256 addresses, from any coherent state and whatever is evicted, gives what
    [dladdr] gives for each, and every question is counted as a hit or a
    miss. *)
Theorem caller_cache_transparent addrs st :
  coherent st → Forall (λ a, a ≠ 0%Z) addrs →
  let run := foldl (λ '(out, st) a, let '(r, st) := cached_dladdr a st in (out ++ [r], st)) ([], st) addrs in
  run.1 = rc_dladdr <$> addrs ∧ coherent run.2 ∧
  (g_cache_hits run.2 + g_cache_misses run.2 = g_cache_hits st + g_cache_misses st + Z.of_nat (length addrs))%Z.
Proof.
  intros Hco Ha. cbv zeta.
  assert (∀ out st, coherent st →
    let run := foldl (λ '(out, st) a, let '(r, st) := cached_dladdr a st in (out ++ [r], st)) (out, st) addrs in
    run.1 = out ++ (rc_dladdr <$> addrs) ∧ coherent run.2 ∧
    (g_cache_hits run.2 + g_cache_misses run.2 = g_cache_hits st + g_cache_misses st + Z.of_nat (length addrs))%Z)
    as H; [|by apply (H [])].
  clear st Hco. induction Ha as [|a addrs Ha0 Ha IH]; intros out st Hco; cbn [foldl].
  - cbn. rewrite app_nil_r. split_and!; [done|done|lia].
  - assert (g_cache_hits (cached_dladdr a st).2 + g_cache_misses (cached_dladdr a st).2 =
            g_cache_hits st + g_cache_misses st + 1)%Z as Hc.
    { unfold cached_dladdr, retrace_caller_cache_lookup, retrace_caller_cache_insert.
      destruct (Z.eqb_spec a 0); [done|]. destruct (find_addr a (g_cache st)) as [i|].
      - destruct (snd <$> _); [cbn; lia|]. destruct (rc_dladdr a); cbn; lia.
      - destruct (rc_dladdr a); cbn; lia. }
    destruct (cached_dladdr_coherent a st Hco Ha0) as (st' & E & Hco'). rewrite E in Hc |- *. cbn in Hc.
    destruct (IH (out ++ [rc_dladdr a]) st' Hco') as (-> & ? & Hn). rewrite <- app_assoc.
    split_and!; [done|done|]. rewrite Hn. cbn [length]. lia.
Qed.

(** With a published snapshot and a coherent caller cache,
    the resolver ends and gives the script the rules choose: the first script
    that is taken (the wildcard, a caller that matches, a return address that
    matches), else the first that names the function only - unless the
    first cached script of that name has no constraint, which is then given
    at once. *)
Theorem script_find_by_rules snap scripts func_name ret_addr st :
  snap_ok snap → coherent st →
  ∃ st', retrace_script_find (Some snap) scripts func_name ret_addr st =
         Some (resolved (entries snap) scripts func_name ret_addr, st') ∧ coherent st'.
Proof. apply script_find_resolved. Qed.

(** The shortcut through the configuration cache changes
    nothing for a call that no script of the configuration takes outright:
    the resolver gives what the walk over the scripts alone gives. *)
Theorem script_find_shortcut_sound snap_alloc buckets_alloc conf g0 g scripts func_name ret_addr st :
  retrace_config_cache_build snap_alloc buckets_alloc conf g0 = Some (0%Z, g) →
  json_object_get_array conf "intercept_scripts" = Some scripts →
  coherent st →
  Forall (λ v, script_choice func_name ret_addr v ≠ Take) scripts →
  ∃ st', retrace_script_find g scripts func_name ret_addr st =
         Some (chosen scripts func_name ret_addr, st') ∧ coherent st'.
Proof.
  intros Hb Hs Hco Hno. destruct (build_published _ _ _ _ _ _ Hb Hs) as (snap & -> & Hok & He).
  destruct (script_find_resolved snap scripts func_name ret_addr st Hok Hco) as (st' & -> & Hco').
  exists st'. split; [|done]. do 2 f_equal. unfold resolved. rewrite He.
  destruct (first_of _ _) as [script|] eqn:E; [|done]. destruct (simple script) eqn:Hsim; [|done].
  symmetry. by eapply first_simple_chosen.
Qed.

End Resolver.


(** ** Concrete configurations *)

Definition script_of (name : string) (more : JSON_Object) : JSON_Object :=
  (lit "func_name", JSONString (lit name)) :: more.
Definition conf_of (scripts : list JSON_Object) : JSON_Object :=
  [(lit "intercept_scripts", JSONArray (JSONObject <$> scripts))].

Definition wild : JSON_Object := script_of "*" [].
Definition plain : JSON_Object := script_of "open" [].
Definition bound : JSON_Object := script_of "open" [(lit "return_addr", JSONNumber (d_int 4096))].
Definition by_symbol : JSON_Object :=
  script_of "open" [(lit "caller_matches", JSONArray [JSONObject
    [(lit "match_type", JSONString (lit "symbol")); (lit "value", JSONString (lit "main"))]])].
Definition bad_match : JSON_Object :=
  script_of "open" [(lit "caller_matches", JSONArray [JSONObject
    [(lit "match_type", JSONString (lit "regex")); (lit "value", JSONString (lit "main"))]])].

Definition demo_dladdr (a : Z) : option dl_info :=
  if (a =? 4096)%Z then Some (mkDl (Some (lit "/bin/app")) 4000 (Some (lit "main"))) else None.

(** The shortcut skips scripts the rules prefer: a script that
    names the function is run although a wildcard stands before it in the
    configuration, and although a later script of the same name is bound to
    the very return address of the call. *)
Theorem script_find_shadows rc_dladdr st :
  (∃ g, retrace_config_cache_build true true (Some (conf_of [wild; plain])) None = Some (0%Z, g) ∧
        retrace_script_find rc_dladdr g (JSONObject <$> [wild; plain]) (lit "open") 4096 st =
          Some (Some plain, st)) ∧
  chosen rc_dladdr (JSONObject <$> [wild; plain]) (lit "open") 4096 = Some wild ∧
  (∃ g, retrace_config_cache_build true true (Some (conf_of [plain; bound])) None = Some (0%Z, g) ∧
        retrace_script_find rc_dladdr g (JSONObject <$> [plain; bound]) (lit "open") 4096 st =
          Some (Some plain, st)) ∧
  chosen rc_dladdr (JSONObject <$> [plain; bound]) (lit "open") 4096 = Some bound.
Proof.
  split_and!; [eexists; split; [vm_compute; reflexivity|]| |eexists; split; [vm_compute; reflexivity|]|];
    vm_compute; reflexivity.
Qed.

(** A script bound to a return address applies to a call whose caller is not
    known. *)
Theorem bound_applies_unknown_caller rc_dladdr st :
  retrace_script_find rc_dladdr (Some (mkSnap [] [])) [JSONObject bound] (lit "open") 0 st = Some (Some bound, st).
Proof. reflexivity. Qed.

(** A script whose caller tests are all of an unknown kind applies to every
    caller. *)
Lemma unknown_match_applies rc_dladdr ret_addr :
  ret_addr ≠ 0%Z → chosen rc_dladdr [JSONObject bad_match] (lit "open") ret_addr = Some bad_match.
Proof.
  intros H. rewrite <- chosen_from_None, chosen_from_cons. unfold chosen_from, chosen. cbn [list_find].
  assert (script_choice rc_dladdr (lit "open") ret_addr (JSONObject bad_match) = Candidate) as ->; [|done].
  apply Z.eqb_neq in H. unfold script_choice. cbn -[Z.eqb]. unfold matches_verdict. cbn -[Z.eqb]. by rewrite H.
Qed.

Lemma empty_coherent rc_dladdr : coherent rc_dladdr empty_cache.
Proof.
  split; [done|]. intros i a info Hi Ha. apply lookup_replicate in Hi as [[= -> ->] _]. done.
Qed.

Lemma caller_cache_transparent_witness :
  let run := foldl (λ '(out, st) a, let '(r, st) := cached_dladdr demo_dladdr a st in (out ++ [r], st))
               ([], empty_cache) [4096; 8192; 4096]%Z in
  run.1 = demo_dladdr <$> [4096; 8192; 4096]%Z ∧ coherent demo_dladdr run.2 ∧
  (g_cache_hits run.2 + g_cache_misses run.2 = 0 + 0 + 3)%Z.
Proof.
  apply (caller_cache_transparent demo_dladdr [4096; 8192; 4096]%Z empty_cache).
  - apply empty_coherent.
  - repeat constructor; lia.
Defined.

Lemma script_find_by_rules_witness :
  ∃ st', retrace_script_find demo_dladdr (Some (mkSnap [mkEntry (lit "open") by_symbol] []))
           (JSONObject <$> [by_symbol; plain]) (lit "open") 4096 empty_cache =
         Some (resolved demo_dladdr [mkEntry (lit "open") by_symbol] (JSONObject <$> [by_symbol; plain])
                 (lit "open") 4096, st') ∧ coherent demo_dladdr st'.
Proof.
  apply (script_find_by_rules demo_dladdr (mkSnap [mkEntry (lit "open") by_symbol] [])).
  - by left.
  - apply empty_coherent.
Defined.

Lemma script_find_shortcut_sound_witness :
  ∃ st', retrace_script_find demo_dladdr
           (Some (mkSnap [mkEntry (lit "open") plain; mkEntry (lit "open") by_symbol] []))
           (JSONObject <$> [plain; by_symbol]) (lit "open") 8 empty_cache =
         Some (chosen demo_dladdr (JSONObject <$> [plain; by_symbol]) (lit "open") 8, st') ∧
         coherent demo_dladdr st'.
Proof.
  apply (script_find_shortcut_sound demo_dladdr true false (Some (conf_of [plain; by_symbol])) None).
  - vm_compute. reflexivity.
  - vm_compute. reflexivity.
  - apply empty_coherent.
  - apply (bool_decide_eq_true_1 _). vm_compute. reflexivity.
Defined.

End ScriptResolver.
