(* ===== verification/Sandbox.v ===== *)
(** * The sandbox action

    [src/core/actions/sandbox.c]: the file, environment and write-class
    policies, with the compiled path sets and their registry. Addresses are
    integers; [mem] gives the C string at an address, [malloc] the address of
    the decoy's buffer. The reports of a denial (log, telemetry, agent) are not
    modelled. *)

From S2P Require Import Prelude Context Json.
Import Context Json.

Module Sandbox.

(** ** Matching a path against an entry *)

Definition is_sep (c : ascii) : bool := ceq c "/" || ceq c "\".

Definition path_matches (path_arg entry : bytes) : bool :=
  match last entry with
  | None => false
  | Some c =>
      if is_sep c then bool_decide (take (length entry) path_arg = entry)
      else streq path_arg entry
  end.

(** ** Compiled path sets *)

Definition PATH_BUCKETS : nat := 32.
Definition PATH_SETS_MAX : nat := 8.

Record path_set := mkSet {
  ps_count : nat;
  ps_first_copy : option bytes;
  ps_last_copy : option bytes;
  ps_off : list nat;
  ps_idx : list nat;
}.

(** [g_path_sets] (the array's address and its set) and [g_path_set_next]. *)
Record registry := mkRegistry {
  g_path_sets : list (Z * option path_set);
  g_path_set_next : nat;
}.

Definition empty_registry : registry := mkRegistry (replicate PATH_SETS_MAX (0%Z, None)) 0.

Definition path_set_valid (set : option path_set) (l : JSON_Array) (n : nat) : bool :=
  match set with
  | None => false
  | Some set =>
      if negb (ps_count set =? n) then false
      else if n =? 0 then true
      else
        match json_array_get_string (Some l) 0, json_array_get_string (Some l) (n - 1),
              ps_first_copy set, ps_last_copy set with
        | Some first, Some last, Some fc, Some lc => streq first fc && streq last lc
        | _, _, _, _ => false
        end
  end.

Fixpoint comp_hash (h : Z) (p : bytes) : Z :=
  match p with
  | [] => h
  | c :: p => if is_sep c then h else comp_hash (u32 (Z.lxor h (uchar c) * 16777619)) p
  end.

Definition first_comp_hash (s : bytes) : Z :=
  comp_hash 2166136261 (match s with c :: s' => if ceq c "/" then s' else s | [] => [] end).

Definition hash_bucket (s : bytes) : nat := Z.to_nat (first_comp_hash s mod 32).

Definition entry_bucket (entry : bytes) : nat :=
  match entry with
  | [] => PATH_BUCKETS
  | c :: entry' =>
      if negb (ceq c "/") then PATH_BUCKETS
      else if (match last entry with Some c => is_sep c | None => false end) && (length entry =? 1)
      then PATH_BUCKETS
      else hash_bucket entry
  end.

(** The bucket of an element of the list. *)
Definition value_bucket (v : JSON_Value) : nat :=
  match json_value_get_string (Some v) with
  | Some e => entry_bucket e
  | None => PATH_BUCKETS
  end.

Definition incr (l : list nat) (b : nat) : list nat := <[b := S (l !!! b)]> l.

(** The counting loop. *)
Definition counts (l : JSON_Array) : list nat :=
  foldl (λ cs v, incr cs (value_bucket v)) (replicate (PATH_BUCKETS + 1) 0) l.

(** The prefix sums, with the total at the end. *)
Fixpoint offsets (off : nat) (cs : list nat) : list nat :=
  match cs with
  | [] => [off]
  | c :: cs => off :: offsets (off + c) cs
  end.

(** The loop that places the indices, from element [i] on. *)
Fixpoint place (i : nat) (l : JSON_Array) (cursor idx : list nat) : list nat :=
  match l with
  | [] => idx
  | v :: l =>
      let b := value_bucket v in
      place (S i) l (incr cursor b) (<[cursor !!! b := i]> idx)
  end.

(** What the process's memory holds at an address, as a C string. *)
Abbreviation memory := (Z → bytes).

Section Alloc.
(** Whether the allocations of the set and of its two boundary copies
    succeed. *)
Variables set_alloc first_alloc last_alloc : bool.

Definition path_set_strndup (alloc : bool) (s : option bytes) : option bytes :=
  if alloc then s else None.

Definition path_set_build (l : JSON_Array) : option path_set :=
  let n := length l in
  let off := offsets 0 (counts l) in
  let idx := place 0 l (take (PATH_BUCKETS + 1) off) (replicate n 0) in
  if negb set_alloc then None
  else if n =? 0 then Some (mkSet 0 None None off idx)
  else
    match path_set_strndup first_alloc (json_array_get_string (Some l) 0),
          path_set_strndup last_alloc (json_array_get_string (Some l) (n - 1)) with
    | Some fc, Some lc => Some (mkSet n (Some fc) (Some lc) off idx)
    | _, _ => None
    end.

(** One element compared. *)
Definition hit (path_arg : bytes) (v : option JSON_Value) : bool :=
  match json_value_get_string v with
  | Some e => path_matches path_arg e
  | None => false
  end.

(** The walk over the whole list. *)
Definition walk (path_arg : bytes) (l : JSON_Array) : bool :=
  existsb (λ v, hit path_arg (Some v)) l.

(** The walk over one bucket. *)
Definition bucket_walk (path_arg : bytes) (l : JSON_Array) (set : path_set) (b : nat) : bool :=
  let lo := ps_off set !!! b in
  let hi := ps_off set !!! (b + 1) in
  existsb (λ i, hit path_arg (l !! i)) (take (hi - lo) (drop lo (ps_idx set))).

Definition registry_find (addr : Z) (l : JSON_Array) (r : registry) : option path_set :=
  match list_find (λ e, e.1 = addr ∧ path_set_valid e.2 l (length l) = true) (g_path_sets r) with
  | Some (_, (_, set)) => set
  | None => None
  end.

(** [list_contains]: the list at address [addr]. *)
Definition list_contains (path_arg : bytes) (addr : Z) (l : JSON_Array) (r : registry) : bool * registry :=
  let look set := bucket_walk path_arg l set (hash_bucket path_arg) ||
                  bucket_walk path_arg l set PATH_BUCKETS in
  match registry_find addr l r with
  | Some set => (look set, r)
  | None =>
      match path_set_build l with
      | None => (walk path_arg l, r)
      | Some set =>
          let slot := g_path_set_next r in
          (look set,
           mkRegistry (<[slot := (addr, Some set)]> (g_path_sets r)) ((slot + 1) mod PATH_SETS_MAX))
      end
  end.

(** ** Classes of calls *)

Definition g_write_funcs : list bytes := lit <$>
  ["unlink"; "unlinkat"; "rename"; "renameat"; "renameat2"; "remove"; "link"; "linkat";
   "symlink"; "symlinkat"; "mkdir"; "mkdirat"; "rmdir"; "truncate"; "ftruncate"; "creat";
   "chmod"; "fchmod"; "fchmodat"; "chown"; "lchown"; "fchownat"; "NtWriteFile"]%string.

Definition is_write_func (name : bytes) : bool :=
  existsb (λ w, ceq (deref w) (deref name) && streq name w) g_write_funcs.

Definition g_env_funcs : list bytes := lit <$>
  ["getenv"; "setenv"; "putenv"; "unsetenv"; "_putenv"]%string.

Definition is_env_func (name : bytes) : bool := existsb (streq name) g_env_funcs.

(** The name of the intercepted function: the engine runs an action only for
    a call that has a prototype. *)
Definition proto_name (t : ThreadContext) : bytes :=
  match prototype t with Some p => fp_name p | None => [] end.

Definition call_is_write (mem : memory) (t : ThreadContext) : bool :=
  let name := proto_name t in
  if is_write_func name then true
  else
    match params t !! 1 with
    | Some p =>
        if streq name (lit "fopen") then
          has_mod (pm_modifiers (param_meta p)) CDM_POINTER && negb (val p =? 0)%Z &&
          existsb (λ c, ceq c "w" || ceq c "a" || ceq c "+") (mem (val p))
        else if streq name (lit "open") || streq name (lit "openat") then
          let flags := Z.land (val p) 3 in (flags =? 1)%Z || (flags =? 2)%Z
        else false
    | None => false
    end.

Definition classes_deny (mem : memory) (t : ThreadContext) (deny_classes : JSON_Array) : bool :=
  call_is_write mem t &&
  existsb (λ v, match json_value_get_string (Some v) with
                | Some c => streq c (lit "write")
                | None => false
                end) deny_classes.

Definition deny_ret (t : ThreadContext) : Z :=
  match prototype t with
  | Some p => if streq (fp_type_name p) (lit "ptr") then 0 else -1
  | None => -1
  end%Z.

Definition EACCES : Z := 13.

(** [deny]: the context it leaves; the action's return code is -1. *)
Definition deny (t : ThreadContext) : ThreadContext :=
  let t := set_ret_errno EACCES t in set_ret_val (deny_ret t) t.

(** The characters after the last separator. *)
Fixpoint base_from (base scan : bytes) : bytes :=
  match scan with
  | [] => base
  | c :: scan => base_from (if is_sep c then scan else base) scan
  end.

Definition decoy_path (decoy_dir path_arg : bytes) : bytes :=
  decoy_dir ++ "/"%char :: base_from path_arg path_arg.

(** [decoy]: the parameter made to point at the new string at [fake]; [None]
    when [fake] is NULL. *)
Definition decoy (fake : Z) (mem : memory) (t : ThreadContext) (i : nat) (path_arg decoy_dir : bytes)
  : option (ThreadContext * memory) :=
  if (fake =? 0)%Z then None
  else
    Some (set_params (alter (λ p, mkParam (param_meta p) fake true) i (params t)) t,
          λ a, if (a =? fake)%Z then decoy_path decoy_dir path_arg else mem a).

(** The loop that finds the string argument among the first two. *)
Definition find_path (mem : memory) (t : ThreadContext) : option (nat * bytes) :=
  match list_find (λ p, is_sz_param p = true) (take 2 (params t)) with
  | Some (i, p) => Some (i, mem (val p))
  | None => None
  end.

(** ** The action *)

(** Where the arrays of the policy live. *)
Definition array_of (o : option JSON_Object) (name : string) (addr : string → Z) : option (Z * JSON_Array) :=
  match json_object_get_array o name with Some a => Some (addr name, a) | None => None end.

Definition opt_contains (path_arg : bytes) (a : option (Z * JSON_Array)) (default : bool) (r : registry)
  : bool * registry :=
  match a with
  | None => (default, r)
  | Some (addr, l) => list_contains path_arg addr l r
  end.

(** The result of the action: its return code, the context, the memory, the
    registry. *)
Record outcome := mkOutcome {
  out_code : Z; out_ctx : ThreadContext; out_mem : memory; out_reg : registry;
}.

Definition refuse (mem : memory) (t : ThreadContext) (r : registry) : outcome :=
  mkOutcome (-1) (deny t) mem r.

(** A path the lists do not allow: a decoy for a read, else a denial. *)
Definition off_limits (fake : Z) (mem : memory) (t : ThreadContext) (i : nat) (path_arg : bytes)
    (decoy_dir : option bytes) (r : registry) : outcome :=
  match decoy_dir with
  | Some d =>
      if negb (call_is_write mem t) then
        match decoy fake mem t i path_arg d with
        | Some (t, mem) => mkOutcome 0 t mem r
        | None => refuse mem t r
        end
      else refuse mem t r
  | None => refuse mem t r
  end.

(** The path lists. *)
Definition police_path (fake : Z) (mem : memory) (t : ThreadContext) (i : nat) (path_arg : bytes)
    (allow_paths deny_paths : option (Z * JSON_Array)) (decoy_dir : option bytes) (r : registry) : outcome :=
  let '(allowed, r) := opt_contains path_arg allow_paths true r in
  if negb allowed then off_limits fake mem t i path_arg decoy_dir r
  else
    let '(denied, r) := opt_contains path_arg deny_paths false r in
    if denied then off_limits fake mem t i path_arg decoy_dir r
    else mkOutcome 0 t mem r.

(** The environment lists: whether the name is refused. *)
Definition police_env (t : ThreadContext) (name : bytes) (allow_env deny_env : option (Z * JSON_Array))
    (r : registry) : bool * registry :=
  if is_env_func (proto_name t) then
    let '(denied, r) := opt_contains name deny_env false r in
    if denied then (true, r)
    else let '(allowed, r) := opt_contains name allow_env true r in (negb allowed, r)
  else (false, r).

Definition is_none {A} (o : option A) : bool := match o with None => true | _ => false end.

Definition ia_sandbox (fake : Z) (addr : string → Z) (mem : memory) (t : ThreadContext)
    (action_params : option JSON_Object) (r : registry) : outcome :=
  let arr name := array_of action_params name addr in
  let deny_paths := arr "deny_paths"%string in
  let allow_paths := arr "allow_paths"%string in
  let deny_classes := arr "deny_classes"%string in
  let allow_env := arr "allow_env"%string in
  let deny_env := arr "deny_env"%string in
  if is_none deny_paths && is_none allow_paths && is_none deny_classes &&
     is_none allow_env && is_none deny_env
  then mkOutcome (-1) (set_ret_val (-1) t) mem r
  else
    let path := find_path mem t in
    if match deny_classes with Some (_, l) => classes_deny mem t l | None => false end
    then refuse mem t r
    else
      match path with
      | None => mkOutcome 0 t mem r
      | Some (i, path_arg) =>
          let '(refused, r) := police_env t path_arg allow_env deny_env r in
          if refused then refuse mem t r
          else police_path fake mem t i path_arg allow_paths deny_paths
                 (json_object_get_string action_params "decoy_dir") r
      end.
End Alloc.


(** ** The compiled sets give the answers of the walk *)

Lemma u32_mod z : (0 ≤ u32 z < 2 ^ 32)%Z.
Proof. unfold u32. apply wrap_u_range. lia. Qed.

Lemma hash_bucket_lt s : hash_bucket s < PATH_BUCKETS.
Proof.
  unfold hash_bucket, PATH_BUCKETS. pose proof (Z.mod_pos_bound (first_comp_hash s) 32). lia.
Qed.

Lemma value_bucket_le v : value_bucket v ≤ PATH_BUCKETS.
Proof.
  unfold value_bucket, entry_bucket. repeat case_match; try done;
    apply Nat.lt_le_incl, hash_bucket_lt.
Qed.

(** The first component of a rule that ends in a separator is the first
    component of every path under it. *)
Lemma comp_hash_app h s r : Exists (λ c, is_sep c = true) s → comp_hash h (s ++ r) = comp_hash h s.
Proof.
  intros Hs. revert h. induction s as [|c s IH]; intros h; [by inversion Hs|]. cbn.
  destruct (is_sep c) eqn:E; [done|]. apply IH. inversion Hs as [? ? Hc|]; [congruence|done].
Qed.

Lemma matches_bucket path e :
  path_matches path e = true → entry_bucket e = PATH_BUCKETS ∨ entry_bucket e = hash_bucket path.
Proof.
  unfold path_matches. destruct (last e) as [x|] eqn:El; [|done].
  apply last_Some in El as [e' ->]. destruct (is_sep x) eqn:Ex.
  - intros H. bool_to_prop. rewrite <- (take_drop (length (e' ++ [x])) path), H.
    generalize (drop (length (e' ++ [x])) path). intros r. unfold entry_bucket.
    destruct e' as [|c e']; cbn [app]; [left; destruct (negb _); [done|]; cbn; by rewrite Ex|].
    destruct (ceq c "/") eqn:Ec; cbn [negb]; [|by left]. right.
    rewrite last_cons, last_snoc. cbn [length]. rewrite length_app. cbn [length].
    replace (S (length e' + 1) =? 1) with false by (symmetry; apply Nat.eqb_neq; lia). rewrite andb_false_r.
    unfold hash_bucket, first_comp_hash. cbn [app]. rewrite Ec.
    rewrite (comp_hash_app _ (e' ++ [x]) r); [done|]. apply Exists_app. right. by constructor.
  - intros H. bool_to_prop. subst. unfold entry_bucket. destruct (e' ++ [x]) as [|c s]; [by left|].
    repeat case_if; auto.
Qed.

(** Elements of a list by their bucket. *)
Abbreviation in_bucket b := (λ v, value_bucket v = b).
Abbreviation below b := (λ v, value_bucket v < b).
Definition cnt (b : nat) (l : JSON_Array) : nat := length (filter (in_bucket b) l).
Definition cnt_below (b : nat) (l : JSON_Array) : nat := length (filter (below b) l).

Lemma cnt_cons b v l : cnt b (v :: l) = (if decide (value_bucket v = b) then 1 else 0) + cnt b l.
Proof. unfold cnt. rewrite filter_cons. by case_decide. Qed.

Lemma cnt_app b l k : cnt b (l ++ k) = cnt b l + cnt b k.
Proof. unfold cnt. by rewrite filter_app, length_app. Qed.

Lemma cnt_below_S b l : cnt_below (S b) l = cnt_below b l + cnt b l.
Proof.
  unfold cnt_below, cnt. induction l as [|v l IH]; [done|].
  rewrite !filter_cons. repeat case_decide; cbn; lia.
Qed.

Lemma cnt_below_mono b b' l : b ≤ b' → cnt_below b l ≤ cnt_below b' l.
Proof. induction 1; [done|]. rewrite cnt_below_S. lia. Qed.

Lemma cnt_below_all l : cnt_below (S PATH_BUCKETS) l = length l.
Proof.
  unfold cnt_below. induction l as [|v l IH]; [done|].
  rewrite filter_cons_True; [cbn; lia|]. pose proof (value_bucket_le v). lia.
Qed.

Lemma incr_length l b : length (incr l b) = length l.
Proof. apply length_insert. Qed.

Lemma incr_total l b b' :
  b < length l → incr l b !!! b' = (if decide (b = b') then 1 else 0) + l !!! b'.
Proof.
  intros Hb. unfold incr. case_decide as E; subst.
  - by rewrite list_lookup_total_insert_eq.
  - by rewrite list_lookup_total_insert_ne.
Qed.

Lemma counts_spec l : length (counts l) = S PATH_BUCKETS ∧ ∀ b, counts l !!! b = cnt b l.
Proof.
  unfold counts. assert (∀ cs, length cs = S PATH_BUCKETS →
    let r := foldl (λ cs v, incr cs (value_bucket v)) cs l in
    length r = S PATH_BUCKETS ∧ ∀ b, r !!! b = cs !!! b + cnt b l) as H.
  { induction l as [|v l IH]; intros cs Hl; [split; [done|]; intros; cbn; lia|]. cbn [foldl].
    destruct (IH (incr cs (value_bucket v))) as [H1 H2]; [by rewrite incr_length|]. split; [done|].
    intros b. rewrite H2, cnt_cons, incr_total by (pose proof (value_bucket_le v); lia). lia. }
  destruct (H (replicate (PATH_BUCKETS + 1) 0)) as [H1 H2]; [done|]. split; [done|].
  intros b. rewrite H2. assert (replicate (PATH_BUCKETS + 1) 0 !!! b = 0) as ->; [|done].
  destruct (decide (b < PATH_BUCKETS + 1)); [by rewrite lookup_total_replicate_2|].
  rewrite list_lookup_total_alt, lookup_ge_None_2; [done|].
  rewrite length_replicate. lia.
Qed.

Lemma offsets_spec off cs b : b ≤ length cs → offsets off cs !!! b = off + sum_list (take b cs).
Proof.
  revert off b. induction cs as [|c cs IH]; intros off [|b] Hb; cbn in *; try lia.
  change ((off :: offsets (off + c) cs) !!! S b) with (offsets (off + c) cs !!! b).
  rewrite IH by lia. lia.
Qed.

Lemma off_below l b : b ≤ S PATH_BUCKETS → offsets 0 (counts l) !!! b = cnt_below b l.
Proof.
  destruct (counts_spec l) as [Hlen Hc]. intros Hb. rewrite offsets_spec by lia. cbn.
  induction b as [|b IH].
  - unfold cnt_below. symmetry. apply length_zero_iff_nil. clear. induction l as [|v l IH]; [done|].
    rewrite filter_cons_False; [done|lia].
  - rewrite cnt_below_S, <- IH by lia. rewrite <- Hc.
    destruct (lookup_lt_is_Some_2 (counts l) b ltac:(lia)) as [x Hx].
    rewrite (take_S_r _ _ x Hx), sum_list_with_app. cbn. rewrite (list_lookup_total_correct _ _ _ Hx). lia.
Qed.


(** Where the index of element [j] is put. *)
Definition spot (l : JSON_Array) (j : nat) (v : JSON_Value) : nat :=
  cnt_below (value_bucket v) l + cnt (value_bucket v) (take j l).

Lemma cnt_take_lt l j v : l !! j = Some v → cnt (value_bucket v) (take j l) < cnt (value_bucket v) l.
Proof.
  intros H. rewrite <- (take_drop_middle l j v H) at 2. rewrite cnt_app, cnt_cons.
  case_decide; [lia|done].
Qed.

Lemma cnt_take_mono b l i j : i ≤ j → cnt b (take i l) ≤ cnt b (take j l).
Proof.
  intros H. rewrite <- (take_drop i (take j l)), take_take, Nat.min_l, cnt_app by lia. lia.
Qed.

Lemma spot_range l j v :
  l !! j = Some v →
  cnt_below (value_bucket v) l ≤ spot l j v < cnt_below (S (value_bucket v)) l.
Proof. intros H. unfold spot. rewrite cnt_below_S. pose proof (cnt_take_lt l j v H). lia. Qed.

Lemma spot_lt l j v : l !! j = Some v → spot l j v < length l.
Proof.
  intros H. pose proof (spot_range l j v H). rewrite <- (cnt_below_all l).
  pose proof (cnt_below_mono (S (value_bucket v)) (S PATH_BUCKETS) l). pose proof (value_bucket_le v). lia.
Qed.

Lemma spot_inj l i j v w : l !! i = Some v → l !! j = Some w → i < j → spot l i v ≠ spot l j w.
Proof.
  intros Hi Hj Hlt. pose proof (spot_range l i v Hi). pose proof (spot_range l j w Hj).
  destruct (lt_eq_lt_dec (value_bucket v) (value_bucket w)) as [[Hb|Hb]|Hb].
  - pose proof (cnt_below_mono (S (value_bucket v)) (value_bucket w) l Hb). lia.
  - unfold spot. rewrite Hb. pose proof (cnt_take_mono (value_bucket w) l (S i) j Hlt) as Hm.
    rewrite (take_S_r _ _ _ Hi), cnt_app, cnt_cons in Hm. case_decide; [lia|done].
  - pose proof (cnt_below_mono (S (value_bucket w)) (value_bucket v) l Hb). lia.
Qed.

Lemma place_spec l l1 l2 cursor idx :
  l = l1 ++ l2 → length cursor = S PATH_BUCKETS → length idx = length l →
  (∀ b, b ≤ PATH_BUCKETS → cursor !!! b = cnt_below b l + cnt b l1) →
  let r := place (length l1) l2 cursor idx in
  (∀ j v, length l1 ≤ j → l !! j = Some v → r !! spot l j v = Some j) ∧
  (∀ p x, idx !! p = Some x → (∀ j v, length l1 ≤ j → l !! j = Some v → spot l j v ≠ p) → r !! p = Some x).
Proof.
  revert l1 cursor idx. induction l2 as [|v l2 IH]; intros l1 cursor idx Hl Hcl Hil Hc; cbn [place].
  { split; [|done]. intros j v Hj Hv. apply lookup_lt_Some in Hv. rewrite Hl, app_nil_r in Hv. lia. }
  assert (l !! length l1 = Some v) as Hv by (rewrite Hl; apply list_lookup_middle; done).
  assert (cursor !!! value_bucket v = spot l (length l1) v) as Hspot.
  { unfold spot. rewrite Hc by apply value_bucket_le. do 2 f_equal. by rewrite Hl, take_app_length. }
  destruct (IH (l1 ++ [v]) (incr cursor (value_bucket v)) (<[cursor !!! value_bucket v := length l1]> idx))
    as [H1 H2].
  - by rewrite <- app_assoc.
  - by rewrite incr_length.
  - by rewrite length_insert.
  - intros b Hb. rewrite incr_total by (pose proof (value_bucket_le v); lia).
    rewrite Hc, cnt_app, cnt_cons by done. unfold cnt at 3. cbn. lia.
  - rewrite length_app in H1, H2. cbn in H1, H2. rewrite Nat.add_1_r in H1, H2. split.
    + intros j w Hj Hw. destruct (decide (j = length l1)) as [-> | Hne]; [|apply H1; [lia|done]].
      assert (w = v) as -> by congruence. rewrite <- Hspot. apply H2.
      * apply list_lookup_insert_eq. rewrite Hil, Hspot. by apply spot_lt.
      * intros j w' Hj' Hw'. rewrite Hspot. intros E. symmetry in E. revert E. apply spot_inj; done || lia.
    + intros p x Hp Hfree. apply H2.
      * rewrite list_lookup_insert_ne; [done|]. rewrite Hspot. by apply Hfree.
      * intros j w Hj Hw. apply Hfree; [lia|done].
Qed.

(** A set built from [l], whatever its boundary copies. *)
Definition compiled (l : JSON_Array) (set : path_set) : Prop :=
  ps_off set = offsets 0 (counts l) ∧
  ps_idx set = place 0 l (take (PATH_BUCKETS + 1) (offsets 0 (counts l))) (replicate (length l) 0).

Lemma offsets_length off cs : length (offsets off cs) = S (length cs).
Proof. revert off. induction cs as [|c cs IH]; intros off; cbn; [done|]. by rewrite IH. Qed.

Lemma compiled_bucket l set j v :
  compiled l set → l !! j = Some v →
  let b := value_bucket v in
  j ∈ take (ps_off set !!! (b + 1) - ps_off set !!! b) (drop (ps_off set !!! b) (ps_idx set)).
Proof.
  intros [Ho Hi] Hj. cbv zeta. pose proof (value_bucket_le v) as Hb.
  destruct (counts_spec l) as [Hcl _].
  rewrite Ho, Nat.add_1_r, !off_below by lia. rewrite Hi.
  destruct (place_spec l [] l (take (PATH_BUCKETS + 1) (offsets 0 (counts l))) (replicate (length l) 0)) as [H1 _].
  - done.
  - rewrite length_take, offsets_length, Hcl. unfold PATH_BUCKETS. lia.
  - by rewrite length_replicate.
  - intros b Hle. rewrite list_lookup_total_alt, lookup_take_lt, <- list_lookup_total_alt by lia.
    rewrite off_below by lia. unfold cnt. cbn. lia.
  - specialize (H1 j v (Nat.le_0_l _) Hj). pose proof (spot_range l j v Hj) as Hr.
    apply (list_elem_of_lookup_2 _ (spot l j v - cnt_below (value_bucket v) l)).
    rewrite lookup_take_lt by lia. rewrite lookup_drop. rewrite <- H1. f_equal. lia.
Qed.

Lemma compiled_walk path_arg l set :
  compiled l set →
  bucket_walk path_arg l set (hash_bucket path_arg) || bucket_walk path_arg l set PATH_BUCKETS =
  walk path_arg l.
Proof.
  intros Hc. apply eq_bool_prop_intro; split; intros H%Is_true_true; apply Is_true_true.
  - assert (∀ b, bucket_walk path_arg l set b = true → walk path_arg l = true) as Hw.
    { intros b. unfold bucket_walk, walk. rewrite !existsb_exists. intros (i & _ & Hi).
      destruct (l !! i) as [v|] eqn:E; [|done]. exists v. split; [|done].
      apply list_elem_of_In. by eapply list_elem_of_lookup_2. }
    apply orb_true_iff in H as [H|H]; by eapply Hw.
  - unfold walk in H. apply existsb_exists in H as (v & Hv & Hh).
    apply list_elem_of_In, list_elem_of_lookup in Hv as [j Hj].
    pose proof (compiled_bucket l set j v Hc Hj) as Hin. cbv zeta in Hin.
    assert (value_bucket v = PATH_BUCKETS ∨ value_bucket v = hash_bucket path_arg) as Hb.
    { unfold hit, value_bucket in *. destruct (json_value_get_string (Some v)) as [e|]; [|done].
      by apply matches_bucket. }
    assert (bucket_walk path_arg l set (value_bucket v) = true) as Hbw.
    { unfold bucket_walk. apply existsb_exists. exists j. split; [by apply list_elem_of_In|by rewrite Hj]. }
    apply orb_true_iff. destruct Hb as [E|E]; rewrite E in Hbw; auto.
Qed.


(** ** The registry *)

Section Policy.
(** The policy arrays, immutable while their address is in use. *)
Variable content : Z → JSON_Array.

(** Every set of the registry was compiled from the array at its address. *)
Definition truthful (r : registry) : Prop :=
  Forall (λ e, ∀ set, e.2 = Some set → compiled (content e.1) set) (g_path_sets r).

Variables set_alloc first_alloc last_alloc : bool.

Lemma build_compiled l set :
  path_set_build set_alloc first_alloc last_alloc l = Some set → compiled l set.
Proof.
  unfold path_set_build. destruct set_alloc; [|done]. cbn [negb].
  destruct (length l =? 0) eqn:E; [|repeat case_match; try done]; intros [= <-]; split; try done.
Qed.

Lemma list_contains_walk path_arg addr r :
  truthful r →
  ∃ r', list_contains set_alloc first_alloc last_alloc path_arg addr (content addr) r =
        (walk path_arg (content addr), r') ∧ truthful r'.
Proof.
  intros Hr. unfold list_contains. destruct (registry_find addr (content addr) r) as [set|] eqn:E.
  - exists r. split; [|done]. rewrite compiled_walk; [done|]. unfold registry_find in E.
    destruct (list_find _ _) as [[i [a o]]|] eqn:El; [|done]. subst o.
    apply list_find_Some in El as (Hi & [Ha _] & _). cbn in Ha. subst a.
    by apply (Forall_lookup_1 _ _ _ _ Hr Hi).
  - destruct (path_set_build _ _ _ _) as [set|] eqn:Eb; [|by exists r]. apply build_compiled in Eb.
    eexists. split; [by rewrite compiled_walk|]. apply Forall_insert; [done|]. cbn. by intros ? [= <-].
Qed.

(** ** What the policy says *)

Variables (fake : Z) (addr : string → Z) (mem : memory) (t : ThreadContext) (ap : option JSON_Object).

(** The answer of a list, [d] when the policy does not have it. *)
Definition listed (name : string) (p : bytes) (d : bool) : bool :=
  match json_object_get_array ap name with Some l => walk p l | None => d end.

Definition has_policy : bool :=
  existsb (λ n, negb (is_none (json_object_get_array ap n)))
    ["deny_paths"; "allow_paths"; "deny_classes"; "allow_env"; "deny_env"]%string.

Definition class_refused : bool :=
  match json_object_get_array ap "deny_classes" with Some l => classes_deny mem t l | None => false end.

Definition env_permitted (p : bytes) : bool :=
  negb (is_env_func (proto_name t)) ||
  (negb (listed "deny_env" p false) && listed "allow_env" p true).

Definition path_permitted (p : bytes) : bool :=
  listed "allow_paths" p true && negb (listed "deny_paths" p false).

(** The call goes through, with the parameter and the memory it sees. *)
Definition decoyed (i : nat) (p : bytes) : option (ThreadContext * memory) :=
  match json_object_get_string ap "decoy_dir" with
  | Some d => if negb (call_is_write mem t) then decoy fake mem t i p d else None
  | None => None
  end.

Definition sandbox_spec : Z * ThreadContext * memory :=
  let refused := ((-1)%Z, deny t, mem) in
  if negb has_policy then ((-1)%Z, set_ret_val (-1) t, mem)
  else if class_refused then refused
  else
    match find_path mem t with
    | None => (0%Z, t, mem)
    | Some (i, p) =>
        if negb (env_permitted p) then refused
        else if path_permitted p then (0%Z, t, mem)
        else match decoyed i p with
             | Some (t, mem) => (0%Z, t, mem)
             | None => refused
             end
    end.

(** The addresses are those of the arrays. *)
Definition at_home : Prop :=
  ∀ name l, json_object_get_array ap name = Some l → content (addr name) = l.

Lemma opt_contains_listed name p d r :
  at_home → truthful r →
  ∃ r', opt_contains set_alloc first_alloc last_alloc p (array_of ap name addr) d r = (listed name p d, r') ∧
        truthful r'.
Proof.
  intros Hh Hr. unfold opt_contains, array_of, listed.
  destruct (json_object_get_array ap name) as [l|] eqn:E; [|by exists r].
  rewrite <- (Hh name l E). by apply list_contains_walk.
Qed.

Definition result (o : outcome) : Z * ThreadContext * memory := (out_code o, out_ctx o, out_mem o).

Lemma off_limits_spec i p r :
  result (off_limits fake mem t i p (json_object_get_string ap "decoy_dir") r) =
    (match decoyed i p with Some (t, mem) => (0%Z, t, mem) | None => ((-1)%Z, deny t, mem) end) ∧
  out_reg (off_limits fake mem t i p (json_object_get_string ap "decoy_dir") r) = r.
Proof.
  unfold off_limits, decoyed. destruct (json_object_get_string ap _); [|done].
  destruct (negb _); [|done]. by destruct (decoy _ _ _ _ _ _) as [[? ?]|].
Qed.

Lemma is_none_array name : is_none (array_of ap name addr) = is_none (json_object_get_array ap name).
Proof. unfold array_of. by destruct (json_object_get_array ap name). Qed.

Lemma police_env_spec p r :
  at_home → truthful r →
  ∃ r', police_env set_alloc first_alloc last_alloc t p (array_of ap "allow_env" addr)
          (array_of ap "deny_env" addr) r = (negb (env_permitted p), r') ∧ truthful r'.
Proof.
  intros Hh Hr. unfold police_env, env_permitted. destruct (is_env_func _); cbn [negb orb]; [|by exists r].
  destruct (opt_contains_listed "deny_env" p false r Hh Hr) as (r1 & -> & Hr1).
  destruct (listed "deny_env" p false); [by exists r1|].
  destruct (opt_contains_listed "allow_env" p true r1 Hh Hr1) as (r2 & -> & Hr2). by exists r2.
Qed.

Lemma police_path_spec i p r :
  at_home → truthful r →
  let o := police_path set_alloc first_alloc last_alloc fake mem t i p (array_of ap "allow_paths" addr)
             (array_of ap "deny_paths" addr) (json_object_get_string ap "decoy_dir") r in
  result o = (if path_permitted p then (0%Z, t, mem)
              else match decoyed i p with
                   | Some (t, mem) => (0%Z, t, mem)
                   | None => ((-1)%Z, deny t, mem)
                   end) ∧ truthful (out_reg o).
Proof.
  intros Hh Hr. cbv zeta. unfold police_path, path_permitted.
  destruct (opt_contains_listed "allow_paths" p true r Hh Hr) as (r1 & -> & Hr1).
  destruct (listed "allow_paths" p true); cbn [negb andb];
    [|destruct (off_limits_spec i p r1) as [-> ->]; done].
  destruct (opt_contains_listed "deny_paths" p false r1 Hh Hr1) as (r2 & -> & Hr2).
  destruct (listed "deny_paths" p false); cbn [negb]; [|done].
  destruct (off_limits_spec i p r2) as [-> ->]; done.
Qed.

Lemma no_policy :
  let none n := is_none (json_object_get_array ap n) in
  none "deny_paths"%string && none "allow_paths"%string && none "deny_classes"%string &&
  none "allow_env"%string && none "deny_env"%string = negb has_policy.
Proof.
  cbv zeta. unfold has_policy. cbn [existsb].
  by repeat match goal with |- context [is_none ?x] => destruct (is_none x) end.
Qed.

Lemma sandbox_refines r :
  at_home → truthful r →
  let o := ia_sandbox set_alloc first_alloc last_alloc fake addr mem t ap r in
  result o = sandbox_spec ∧ truthful (out_reg o).
Proof.
  intros Hh Hr. cbv zeta. unfold ia_sandbox, sandbox_spec. rewrite !is_none_array, no_policy.
  destruct (negb has_policy); [done|].
  assert (match array_of ap "deny_classes" addr with Some (_, l) => classes_deny mem t l | None => false end =
          class_refused) as ->.
  { unfold array_of, class_refused. by destruct (json_object_get_array ap _). }
  destruct class_refused; [done|]. destruct (find_path mem t) as [[i p]|]; [|done].
  destruct (police_env_spec p r Hh Hr) as (r1 & -> & Hr1).
  destruct (env_permitted p); cbn [negb]; [|done].
  by apply police_path_spec.
Qed.
End Policy.

(** ** Theorems *)

(** Through the compiled sets, the registry of eight of
    them and whatever allocations fail, a policy list answers for every path
    what the walk over all its entries answers. *)
Theorem path_list_equals_walk content set_alloc first_alloc last_alloc path_arg addr r :
  truthful content r →
  ∃ r', list_contains set_alloc first_alloc last_alloc path_arg addr (content addr) r =
        (walk path_arg (content addr), r') ∧ truthful content r'.
Proof. apply list_contains_walk. Qed.

(** Under a list of allowed paths, without a decoy, no call goes
    through unless an entry of the list matches its path, and a call that is
    refused returns NULL where the function returns a pointer, else -1, with
    the error EACCES. *)
Theorem sandbox_jail content set_alloc first_alloc last_alloc fake addr mem t ap r l i p :
  at_home content addr ap → truthful content r →
  json_object_get_array ap "allow_paths" = Some l →
  json_object_get_string ap "decoy_dir" = None →
  find_path mem t = Some (i, p) →
  let o := ia_sandbox set_alloc first_alloc last_alloc fake addr mem t ap r in
  (out_code o = 0%Z ∧ out_ctx o = t ∧ ∃ v, v ∈ l ∧ hit p (Some v) = true) ∨
  (out_code o = (-1)%Z ∧ ret_errno (out_ctx o) = EACCES ∧ params (out_ctx o) = params t ∧
   ret_val (out_ctx o) = if bool_decide (fp_type_name <$> prototype t = Some (lit "ptr")) then 0%Z else (-1)%Z).
Proof.
  intros Hh Hr Hl Hd Hp. cbv zeta.
  destruct (sandbox_refines content set_alloc first_alloc last_alloc fake addr mem t ap r Hh Hr) as [Ho _].
  set (o := ia_sandbox _ _ _ _ _ _ _ _ _) in *. unfold result in Ho. clearbody o.
  assert (∀ o, (out_code o, out_ctx o, out_mem o) = ((-1)%Z, deny t, mem) →
    out_code o = (-1)%Z ∧ ret_errno (out_ctx o) = EACCES ∧ params (out_ctx o) = params t ∧
    ret_val (out_ctx o) = if bool_decide (fp_type_name <$> prototype t = Some (lit "ptr")) then 0%Z else (-1)%Z)
    as Hdeny.
  { intros o' [= -> -> _]. split_and!; [done..|]. unfold deny, deny_ret.
    cbn [ret_val set_ret_val prototype set_ret_errno]. destruct (prototype t) as [pr|]; [|done].
    cbn [fmap option_fmap option_map]. unfold streq.
    by rewrite (bool_decide_ext (Some (fp_type_name pr) = Some (lit "ptr")) (fp_type_name pr = lit "ptr"))
      by (split; congruence). }
  unfold sandbox_spec in Ho. assert (has_policy ap = true) as Hpol.
  { unfold has_policy. cbn [existsb]. rewrite Hl. cbn. by rewrite orb_true_r. }
  rewrite Hpol in Ho. cbn [negb] in Ho. destruct (class_refused _ _ _); [right; by apply Hdeny|].
  rewrite Hp in Ho. destruct (env_permitted _ _ _); cbn [negb] in Ho; [|right; by apply Hdeny].
  unfold path_permitted, listed in Ho. rewrite Hl in Ho. unfold decoyed in Ho. rewrite Hd in Ho.
  destruct (walk p l) eqn:Ew; [|right; by apply Hdeny]. cbn [andb] in Ho.
  destruct (negb _); [left|right; by apply Hdeny]. injection Ho as -> -> _. split_and!; [done..|].
  unfold walk in Ew. apply existsb_exists in Ew as (v & Hv & Hh'). exists v. by rewrite list_elem_of_In.
Qed.

(** A parameter of a call of [openat]. *)
Definition openat_context (dirfd path flags : Z) : ThreadContext :=
  let int n := mkMeta (lit n) (lit "int") CDM_NOMOD PDIR_IN [] [] in
  let sz n := mkMeta (lit n) (lit "ptr") (Z.lor CDM_POINTER CDM_CONST) PDIR_IN (lit "sz") [] in
  let proto := mkProto (lit "openat") CC_SYSTEM_V [int "dirfd"; sz "path"; int "flags"]%string 3
                 (lit "int") FAT_NOVARARGS 0 in
  mkContext (Some proto) 1 0 0
    [mkParam (int "dirfd"%string) dirfd false; mkParam (sz "path"%string) path false;
     mkParam (int "flags"%string) flags false] 1 0 None 1.

Definition deny_writes : option JSON_Object :=
  Some [(lit "deny_classes", JSONArray [JSONString (lit "write")])].

(** The write class of [openat] is read from its second
    parameter, which is the path and not the flags: whether a policy that
    denies the class of writes lets the call through depends on the address
    of the path's string alone. *)
Theorem openat_class_by_address set_alloc first_alloc last_alloc fake addr mem r dirfd path flags :
  let o := ia_sandbox set_alloc first_alloc last_alloc fake addr mem
             (openat_context dirfd path flags) deny_writes r in
  out_code o = if bool_decide (Z.land path 3 = 1 ∨ Z.land path 3 = 2)%Z then (-1)%Z else 0%Z.
Proof.
  cbv zeta. unfold ia_sandbox.
  assert (classes_deny mem (openat_context dirfd path flags) [JSONString (lit "write")] =
          bool_decide (Z.land path 3 = 1 ∨ Z.land path 3 = 2)%Z) as E.
  { unfold classes_deny. cbn [existsb json_value_get_string]. rewrite streq_refl. cbn [orb]. rewrite andb_true_r.
    unfold call_is_write. change (is_write_func _) with false. cbn [params openat_context]. cbv iota.
    change (proto_name _) with (lit "openat"). cbn [list_lookup lookup].
    change (streq (lit "openat") (lit "fopen")) with false. cbv iota.
    change (streq (lit "openat") (lit "open") || streq (lit "openat") (lit "openat")) with true. cbv iota.
    cbn [val]. symmetry. destruct (Z.eqb_spec (Z.land path 3) 1); [by apply bool_decide_true; left|].
    destruct (Z.eqb_spec (Z.land path 3) 2); [by apply bool_decide_true; right|].
    apply bool_decide_false. by intros [?|?]. }
  change (array_of deny_writes "deny_paths" addr) with (@None (Z * JSON_Array)).
  change (array_of deny_writes "allow_paths" addr) with (@None (Z * JSON_Array)).
  change (array_of deny_writes "allow_env" addr) with (@None (Z * JSON_Array)).
  change (array_of deny_writes "deny_env" addr) with (@None (Z * JSON_Array)).
  change (array_of deny_writes "deny_classes" addr) with (Some (addr "deny_classes"%string, [JSONString (lit "write")])).
  cbn [is_none andb]. cbv iota zeta. rewrite E. destruct (bool_decide _); [done|].
  unfold find_path, openat_context. cbn. unfold is_sz_param. cbn.
  by destruct (negb (path =? 0)%Z).
Qed.

(** The registry does not notice an array that was replaced at
    its address by one of the same length and the same first and last entry:
    the list then answers for a middle entry of the new array that it is not
    there. *)
Theorem path_registry_aliases :
  let entry s := JSONString (lit s) in
  let before := [entry "/a"; entry "/b"; entry "/z"]%string in
  let after := [entry "/a"; entry "/etc/shadow"; entry "/z"]%string in
  let r := (list_contains true true true (lit "/a") 4096 before empty_registry).2 in
  (list_contains true true true (lit "/etc/shadow") 4096 after r).1 = false ∧
  walk (lit "/etc/shadow") after = true.
Proof. vm_compute. split; reflexivity. Qed.

(** ** Witnesses *)

Definition jail : option JSON_Object :=
  Some [(lit "allow_paths", JSONArray [JSONString (lit "/tmp/"); JSONString (lit "/etc/hosts")])].
Definition jail_list : JSON_Array := [JSONString (lit "/tmp/"); JSONString (lit "/etc/hosts")].

Lemma empty_truthful content : truthful content empty_registry.
Proof. apply Forall_replicate. done. Qed.

Lemma jail_at_home : at_home (λ _, jail_list) (λ _, 4096%Z) jail.
Proof.
  intros name l H. unfold json_object_get_array, json_object_get_value, jail in H. cbn -[streq lit] in H.
  destruct (streq _ _); [injection H as <-; reflexivity|done].
Qed.

Definition demo_mem (a : Z) : bytes := if (a =? 64)%Z then lit "/tmp/x" else lit "/etc/shadow".

Lemma path_list_equals_walk_witness :
  ∃ r', list_contains true true true (lit "/tmp/x") 4096 jail_list empty_registry =
        (walk (lit "/tmp/x") jail_list, r') ∧ truthful (λ _, jail_list) r'.
Proof.
  apply (path_list_equals_walk (λ _, jail_list) true true true (lit "/tmp/x") 4096 empty_registry).
  apply empty_truthful.
Defined.

Lemma sandbox_jail_witness :
  let o := ia_sandbox true true true 0 (λ _, 4096%Z) demo_mem (openat_context 3 128 0) jail empty_registry in
  (out_code o = 0%Z ∧ out_ctx o = openat_context 3 128 0 ∧
   ∃ v, v ∈ jail_list ∧ hit (lit "/etc/shadow") (Some v) = true) ∨
  (out_code o = (-1)%Z ∧ ret_errno (out_ctx o) = EACCES ∧
   params (out_ctx o) = params (openat_context 3 128 0) ∧ ret_val (out_ctx o) = (-1)%Z).
Proof.
  apply (sandbox_jail (λ _, jail_list) true true true 0 (λ _, 4096%Z) demo_mem (openat_context 3 128 0)
           jail empty_registry jail_list 1 (lit "/etc/shadow")).
  - apply jail_at_home.
  - apply empty_truthful.
  - reflexivity.
  - reflexivity.
  - vm_compute. reflexivity.
Defined.

End Sandbox.
