(* ===== verification/SandboxPolicy.v ===== *)
(** * The policy of the sandbox, as it is documented

    The head comment of [src/core/actions/sandbox.c] states what a policy says of
    a call: [says] writes it down in terms of the call and of the lists, apart from
    what the code computes, and the action is shown to do it. *)

From S2P Require Import Prelude Context Json Sandbox.
Import Context Json Sandbox.

Module SandboxPolicy.

(** ** The contract *)

(** An entry names a path exactly, or is a directory above it. *)
Definition covers (entry path : bytes) : Prop :=
  (∃ dir c, entry = dir ++ [c] ∧ (c = "/"%char ∨ c = "\"%char) ∧ entry `prefix_of` path) ∨
  (entry ≠ [] ∧ path = entry ∧ last entry ≠ Some "/"%char ∧ last entry ≠ Some "\"%char).

Definition on_list (ap : option JSON_Object) (name : string) (path : bytes) : Prop :=
  ∃ l entry, json_object_get_array ap name = Some l ∧ JSONString entry ∈ l ∧ covers entry path.

(** The path is on the list, where there is one. *)
Definition passes (ap : option JSON_Object) (name : string) (path : bytes) : Prop :=
  json_object_get_array ap name = None ∨ on_list ap name path.

Definition function_is (t : ThreadContext) (name : bytes) : Prop := fp_name <$> prototype t = Some name.

(** The functions that change files, and those of the environment. *)
Definition writers : list bytes := lit <$>
  ["unlink"; "unlinkat"; "rename"; "renameat"; "renameat2"; "remove"; "link"; "linkat"; "symlink"; "symlinkat";
   "mkdir"; "mkdirat"; "rmdir"; "truncate"; "ftruncate"; "creat"; "chmod"; "fchmod"; "fchmodat"; "chown"; "lchown";
   "fchownat"; "NtWriteFile"]%string.

Definition env_functions : list bytes := lit <$> ["getenv"; "setenv"; "putenv"; "unsetenv"; "_putenv"]%string.

(** The call writes: by its function, by the mode of [fopen], or by the access
    mode in the flags of [open]. *)
Definition writes_files (mem : memory) (t : ThreadContext) : Prop :=
  (∃ name, name ∈ writers ∧ function_is t name) ∨
  (function_is t (lit "fopen") ∧ ∃ mode c, params t !! 1 = Some mode ∧
     has_mod (pm_modifiers (param_meta mode)) CDM_POINTER = true ∧ val mode ≠ 0%Z ∧
     c ∈ mem (val mode) ∧ (c = "w" ∨ c = "a" ∨ c = "+")%char) ∨
  (function_is t (lit "open") ∧ ∃ flags, params t !! 1 = Some flags ∧ (Z.land (val flags) 3 = 1 ∨ Z.land (val flags) 3 = 2)%Z).

(** The first string among the first two parameters. *)
Definition path_argument (mem : memory) (t : ThreadContext) (i : nat) (path : bytes) : Prop :=
  i < 2 ∧ ∃ p, params t !! i = Some p ∧ is_sz_param p = true ∧ path = mem (val p) ∧
    ∀ j q, j < i → params t !! j = Some q → is_sz_param q = false.

Definition class_denied (mem : memory) (t : ThreadContext) (ap : option JSON_Object) : Prop :=
  writes_files mem t ∧ ∃ l, json_object_get_array ap "deny_classes" = Some l ∧ JSONString (lit "write") ∈ l.

(** The lists of variables, for the functions of the environment. *)
Definition env_denied (t : ThreadContext) (ap : option JSON_Object) (name : bytes) : Prop :=
  (∃ f, f ∈ env_functions ∧ function_is t f) ∧ (on_list ap "deny_env" name ∨ ¬ passes ap "allow_env" name).

(** A path must pass both checks. *)
Definition path_denied (ap : option JSON_Object) (path : bytes) : Prop :=
  ¬ passes ap "allow_paths" path ∨ on_list ap "deny_paths" path.

Definition lists : list string := ["deny_paths"; "allow_paths"; "deny_classes"; "allow_env"; "deny_env"]%string.

Definition configured (ap : option JSON_Object) : Prop := ∃ name, name ∈ lists ∧ json_object_get_array ap name ≠ None.

(** The last component of a path. *)
Definition base_name (path base : bytes) : Prop :=
  ∃ above, path = above ++ base ∧ Forall (λ c, is_sep c = false) base ∧
    (above = [] ∨ ∃ up c, above = up ++ [c] ∧ is_sep c = true).

Inductive verdict :=
  | Misconfigured
  | Through
  | Refused
  | Redirected (i : nat) (path : bytes).

Section says.
(** [fake] is the address of a new string, or null. *)
Variables (fake : Z) (mem : memory) (t : ThreadContext) (ap : option JSON_Object).

Inductive says : verdict → Prop :=
  | says_nothing : ¬ configured ap → says Misconfigured
  | says_class : class_denied mem t ap → says Refused
  | says_no_path : configured ap → ¬ class_denied mem t ap → (∀ i path, ¬ path_argument mem t i path) → says Through
  | says_env i path : path_argument mem t i path → env_denied t ap path → says Refused
  | says_through i path :
      configured ap → ¬ class_denied mem t ap → path_argument mem t i path → ¬ env_denied t ap path →
      ¬ path_denied ap path → says Through
  | says_refused i path :
      path_argument mem t i path → path_denied ap path →
      json_object_get_string ap "decoy_dir" = None ∨ writes_files mem t ∨ fake = 0%Z → says Refused
  | says_decoy i path dir base :
      ¬ class_denied mem t ap → path_argument mem t i path → ¬ env_denied t ap path → path_denied ap path →
      json_object_get_string ap "decoy_dir" = Some dir → ¬ writes_files mem t → fake ≠ 0%Z → base_name path base →
      says (Redirected i (dir ++ "/"%char :: base)).

(** How a verdict shows: the code of the action, the context and the memory. *)
Definition shows (v : verdict) : Z * ThreadContext * memory :=
  match v with
  | Misconfigured => ((-1)%Z, set_ret_val (-1) t, mem)
  | Through => (0%Z, t, mem)
  | Refused =>
      ((-1)%Z, set_ret_val (if decide (fp_type_name <$> prototype t = Some (lit "ptr")) then 0%Z else (-1)%Z)
                 (set_ret_errno EACCES t), mem)
  | Redirected i path =>
      (0%Z, set_params (alter (λ p, mkParam (param_meta p) fake true) i (params t)) t,
       λ a, if (a =? fake)%Z then path else mem a)
  end.

End says.

(** ** The tests of the code *)

Lemma sep_chars c : is_sep c = true ↔ c = "/"%char ∨ c = "\"%char.
Proof. unfold is_sep. by rewrite orb_true_iff, !ceq_true. Qed.

Lemma matches_covers path entry : path_matches path entry = true ↔ covers entry path.
Proof.
  unfold path_matches, covers. destruct (last entry) as [c|] eqn:El.
  2: { apply last_None in El as ->. split; [done|]. intros [(dir & c & E & _)|[]]; [by destruct dir|done]. }
  pose proof El as [dir ->]%last_Some. destruct (is_sep c) eqn:Ec.
  - rewrite bool_decide_eq_true. split.
    + intros H. left. exists dir, c. split_and!; [done|by apply sep_chars|]. rewrite <- H at 1. apply prefix_take.
    + intros [(d & c' & _ & _ & [r ->])|(_ & _ & H1 & H2)]; [by rewrite take_app_length|].
      exfalso. apply sep_chars in Ec as [-> | ->]; congruence.
  - rewrite streq_true. split.
    + intros ->. right. split_and!; [by destruct dir|done|..]; intros [= ->]; by vm_compute in Ec.
    + intros [(d & c' & [-> ->]%app_inj_tail & H & _)|(_ & H & _)]; [|done]. apply sep_chars in H. congruence.
Qed.

Lemma walk_on_list path l : walk path l = true ↔ ∃ entry, JSONString entry ∈ l ∧ covers entry path.
Proof.
  unfold walk. rewrite existsb_exists. split.
  - intros (v & Hv & Hh). apply list_elem_of_In in Hv. destruct v as [|e| | | |]; try done.
    exists e. split; [done|]. by apply matches_covers.
  - intros (e & He & Hc). exists (JSONString e). split; [by apply list_elem_of_In|]. cbn. by apply matches_covers.
Qed.

Lemma listed_on ap name path : listed ap name path false = true ↔ on_list ap name path.
Proof. unfold listed, on_list. destruct (json_object_get_array ap name) as [l|]; [rewrite walk_on_list|]; naive_solver. Qed.

Lemma listed_passes ap name path : listed ap name path true = true ↔ passes ap name path.
Proof. unfold listed, passes, on_list. destruct (json_object_get_array ap name) as [l|]; [rewrite walk_on_list|]; naive_solver. Qed.

Lemma function_name t name : name ≠ [] → proto_name t = name ↔ function_is t name.
Proof. intros Hn. unfold proto_name, function_is. destruct (prototype t); cbn; [split; congruence|naive_solver]. Qed.

(** The name of the function is one of a list. *)
Lemma name_among t (l : list bytes) : [] ∉ l → proto_name t ∈ l ↔ ∃ f, f ∈ l ∧ function_is t f.
Proof.
  intros Hl. split.
  - intros H. exists (proto_name t). split; [done|]. apply function_name; [|done]. intros E. by rewrite E in H.
  - intros (f & Hf & Hn). apply function_name in Hn; [by rewrite Hn|]. intros ->. done.
Qed.

Lemma writer_spec t : is_write_func (proto_name t) = true ↔ ∃ f, f ∈ writers ∧ function_is t f.
Proof.
  rewrite <- name_among by (apply (bool_decide_eq_true_1 _); by vm_compute). unfold is_write_func.
  change g_write_funcs with writers. rewrite existsb_exists. split.
  - intros (w & Hw & [_ Ew%streq_true]%andb_true_iff). rewrite Ew. by apply list_elem_of_In.
  - intros H. exists (proto_name t). split; [by apply list_elem_of_In|]. by rewrite ceq_refl, streq_refl.
Qed.

Lemma env_func_spec t : is_env_func (proto_name t) = true ↔ ∃ f, f ∈ env_functions ∧ function_is t f.
Proof.
  rewrite <- name_among by (apply (bool_decide_eq_true_1 _); by vm_compute). unfold is_env_func.
  change g_env_funcs with env_functions. rewrite existsb_exists. split.
  - intros (f & Hf & Ef%streq_true). rewrite Ef. by apply list_elem_of_In.
  - intros H. exists (proto_name t). split; [by apply list_elem_of_In|]. by apply streq_refl.
Qed.

Lemma named_spec t s : lit s ≠ [] → streq (proto_name t) (lit s) = true ↔ function_is t (lit s).
Proof. intros Hs. rewrite streq_true. by apply function_name. Qed.

Lemma write_spec mem t : ¬ function_is t (lit "openat") → call_is_write mem t = true ↔ writes_files mem t.
Proof.
  intros Hat. unfold call_is_write, writes_files. rewrite <- writer_spec.
  destruct (is_write_func (proto_name t)); [split; [by left|done]|].
  rewrite <- !named_spec in * by discriminate. apply not_true_is_false in Hat. rewrite Hat, orb_false_r.
  destruct (params t !! 1) as [p|]; [|naive_solver].
  destruct (streq (proto_name t) (lit "fopen")) eqn:Ef.
  - assert (streq (proto_name t) (lit "open") = false) as -> by (apply streq_true in Ef; rewrite Ef; by vm_compute).
    rewrite !andb_true_iff, negb_true_iff, Z.eqb_neq, existsb_exists. setoid_rewrite orb_true_iff. setoid_rewrite orb_true_iff.
    setoid_rewrite ceq_true. setoid_rewrite <- list_elem_of_In. naive_solver.
  - destruct (streq (proto_name t) (lit "open")); [|naive_solver]. rewrite orb_true_iff, !Z.eqb_eq. naive_solver.
Qed.

Lemma class_spec mem t ap : ¬ function_is t (lit "openat") → class_refused mem t ap = true ↔ class_denied mem t ap.
Proof.
  intros Hat. unfold class_refused, class_denied. destruct (json_object_get_array ap _) as [l|]; [|naive_solver].
  unfold classes_deny. rewrite andb_true_iff, write_spec, existsb_exists by done. split.
  - intros [Hw (v & Hv & Hc)]. split; [done|]. exists l. split; [done|]. apply list_elem_of_In in Hv.
    destruct v as [|c| | | |]; try done. apply streq_true in Hc. by subst.
  - intros (Hw & l' & [= <-] & Hl). split; [done|]. exists (JSONString (lit "write")). split; [by apply list_elem_of_In|].
    cbn. apply streq_refl.
Qed.

Lemma argument_spec mem t i path : find_path mem t = Some (i, path) ↔ path_argument mem t i path.
Proof.
  unfold find_path, path_argument. split.
  - destruct (list_find _ _) as [[j p]|] eqn:E; [|done]. intros [= <- <-]. apply list_find_Some in E as (Hj & Hs & Hb).
    apply lookup_take_Some in Hj as [Hj Hlt]. split; [done|]. exists p. split_and!; [done|done|done|].
    intros k q Hk Hq. apply not_true_is_false. apply (Hb k q); [|done]. apply lookup_take_Some. split; [done|lia].
  - intros (Hi & p & Hp & Hs & -> & Hb).
    assert (list_find (λ p, is_sz_param p = true) (take 2 (params t)) = Some (i, p)) as ->; [|done].
    apply list_find_Some. split_and!; [by apply lookup_take_Some|done|]. intros k q Hq Hk. apply lookup_take_Some in Hq as [Hq _].
    by rewrite (Hb k q).
Qed.

Lemma env_spec t ap p : env_permitted t ap p = false ↔ env_denied t ap p.
Proof.
  unfold env_permitted, env_denied. rewrite <- env_func_spec, <- listed_on, <- listed_passes.
  destruct (is_env_func _), (listed ap "deny_env" p false), (listed ap "allow_env" p true); cbn; naive_solver.
Qed.

Lemma path_spec ap p : path_permitted ap p = false ↔ path_denied ap p.
Proof.
  unfold path_permitted, path_denied. rewrite <- listed_on, <- listed_passes.
  destruct (listed ap "allow_paths" p true), (listed ap "deny_paths" p false); cbn; naive_solver.
Qed.

Lemma configured_spec ap : has_policy ap = true ↔ configured ap.
Proof.
  unfold has_policy, configured. change ["deny_paths"; _; _; _; _]%string with lists. rewrite existsb_exists.
  setoid_rewrite <- list_elem_of_In. split; intros (n & Hn & H); exists n; (split; [done|]);
    by destruct (json_object_get_array ap n).
Qed.

Lemma deny_shown fake mem t : ((-1)%Z, deny t, mem) = shows fake mem t Refused.
Proof.
  cbn [shows]. do 2 f_equal. unfold deny. f_equal. unfold deny_ret. cbn [prototype set_ret_errno].
  destruct (prototype t) as [p|]; cbn; [|done]. destruct (streq _ _) eqn:E.
  - apply streq_true in E. by rewrite E, decide_True.
  - apply streq_false in E. by rewrite decide_False by congruence.
Qed.

(** *** The last component *)

Lemma base_from_plain b s : Forall (λ c, is_sep c = false) s → base_from b s = b.
Proof. induction 1 as [|c s Hc _ IH]; cbn; [done|]. by rewrite Hc. Qed.

Lemma base_from_sep b up c s : is_sep c = true → base_from b (up ++ c :: s) = base_from s s.
Proof. intros Hc. revert b. induction up as [|x up IH]; intros b; cbn; [by rewrite Hc|]. apply IH. Qed.

Lemma base_from_name path base : base_name path base → base_from path path = base.
Proof.
  intros (above & -> & Hb & [->|(up & c & -> & Hc)]); [by apply base_from_plain|].
  rewrite <- app_assoc. cbn [app]. rewrite base_from_sep by done. by apply base_from_plain.
Qed.

Lemma base_name_exists path : ∃ base, base_name path base.
Proof.
  induction path as [|c path IH] using rev_ind.
  - exists [], []. split_and!; [done|constructor|by left].
  - destruct (is_sep c) eqn:Ec.
    + exists [], (path ++ [c]). split_and!; [by rewrite app_nil_r|constructor|]. right. by exists path, c.
    + destruct IH as (base & above & -> & Hb & Ha). exists (base ++ [c]), above.
      split_and!; [by rewrite app_assoc|apply Forall_app; split; [done|by apply Forall_singleton]|done].
Qed.

(** ** The action does what the policy says *)

Lemma denied_configured t ap p : path_denied ap p ∨ env_denied t ap p → configured ap.
Proof.
  intros [[H|(l & e & H & _)]|[_ [(l & e & H & _)|H]]].
  - exists "allow_paths"%string. split; [set_solver|]. intros E. apply H. by left.
  - exists "deny_paths"%string. split; [set_solver|congruence].
  - exists "deny_env"%string. split; [set_solver|congruence].
  - exists "allow_env"%string. split; [set_solver|]. intros E. apply H. by left.
Qed.

Section shown.
Variables (fake : Z) (mem : memory) (t : ThreadContext) (ap : option JSON_Object).
Hypothesis not_openat : ¬ function_is t (lit "openat").

(** The specification of the code, past its first two tests. *)
Lemma spec_at i p :
  configured ap → path_argument mem t i p →
  sandbox_spec fake mem t ap =
    if class_refused mem t ap then shows fake mem t Refused
    else if negb (env_permitted t ap p) then shows fake mem t Refused
    else if path_permitted ap p then shows fake mem t Through
    else match decoyed fake mem t ap i p with
         | Some (t, mem) => (0%Z, t, mem)
         | None => shows fake mem t Refused
         end.
Proof.
  intros Hc%configured_spec Hp%argument_spec. unfold sandbox_spec. rewrite (deny_shown fake), Hc, Hp. done.
Qed.

Lemma no_decoy i p :
  json_object_get_string ap "decoy_dir" = None ∨ writes_files mem t ∨ fake = 0%Z → decoyed fake mem t ap i p = None.
Proof.
  unfold decoyed, decoy. destruct (json_object_get_string ap _) as [d|]; [|done]. intros [H|[H|H]]; [done|..].
  - apply write_spec in H; [|done]. by rewrite H.
  - rewrite H. by destruct (negb _).
Qed.

Lemma some_decoy i p dir base :
  json_object_get_string ap "decoy_dir" = Some dir → ¬ writes_files mem t → fake ≠ 0%Z → base_name p base →
  ∃ t' mem', decoyed fake mem t ap i p = Some (t', mem') ∧
    (0%Z, t', mem') = shows fake mem t (Redirected i (dir ++ "/"%char :: base)).
Proof.
  intros Hd Hw Hf Hb%base_from_name. unfold decoyed, decoy. rewrite Hd.
  assert (call_is_write mem t = false) as -> by (apply not_true_is_false; by rewrite write_spec).
  cbn [negb]. rewrite (proj2 (Z.eqb_neq _ _) Hf). eexists _, _. split; [done|]. unfold decoy_path. by rewrite Hb.
Qed.

Lemma spec_shows v : says fake mem t ap v → sandbox_spec fake mem t ap = shows fake mem t v.
Proof.
  assert (¬ class_denied mem t ap → class_refused mem t ap = false) as Hcl
    by (intros H; apply not_true_is_false; by rewrite class_spec).
  assert (∀ p, ¬ env_denied t ap p → env_permitted t ap p = true) as Hen
    by (intros p H; apply not_false_is_true; by rewrite env_spec).
  destruct 1 as [H|[Hw (l & Hl & Hin)]|Hc Hn Hp|i p Hp He|i p Hc Hn Hp He Hpd|i p Hp Hpd Hnd|i p dir base Hn Hp He Hpd Hd Hw Hf Hb].
  - unfold sandbox_spec. assert (has_policy ap = false) as ->; [|done]. apply not_true_is_false. by rewrite configured_spec.
  - unfold sandbox_spec. rewrite (deny_shown fake), (proj2 (configured_spec ap)), (proj2 (class_spec mem t ap not_openat)); [done|..].
    + by split; [|exists l].
    + exists "deny_classes"%string. split; [set_solver|congruence].
  - unfold sandbox_spec. rewrite (proj2 (configured_spec ap) Hc), Hcl by done. cbn [negb].
    destruct (find_path mem t) as [[i p]|] eqn:E; [|done]. by apply argument_spec, Hp in E.
  - rewrite (spec_at i p); [|by eapply denied_configured; right|done]. apply env_spec in He. rewrite He. by destruct (class_refused _ _ _).
  - rewrite (spec_at i p), Hcl, Hen by done. cbn [negb].
    assert (path_permitted ap p = true) as ->; [|done]. apply not_false_is_true. by rewrite path_spec.
  - rewrite (spec_at i p), no_decoy; [|done|by eapply (denied_configured t); left|done].
    apply path_spec in Hpd. rewrite Hpd. by destruct (class_refused mem t ap), (env_permitted t ap p).
  - rewrite (spec_at i p), Hcl, Hen; [|done|done|by eapply (denied_configured t); left|done]. cbn [negb].
    apply path_spec in Hpd. rewrite Hpd. destruct (some_decoy i p dir base Hd Hw Hf Hb) as (t' & mem' & -> & E). exact E.
Qed.

Lemma always_says : ∃ v, says fake mem t ap v.
Proof.
  destruct (has_policy ap) eqn:Hc; [apply configured_spec in Hc|].
  2: { exists Misconfigured. apply says_nothing. rewrite <- configured_spec. by rewrite Hc. }
  destruct (class_refused mem t ap) eqn:Hcl; [exists Refused; apply says_class, class_spec; done|].
  assert (¬ class_denied mem t ap) as Hn by (rewrite <- class_spec by done; by rewrite Hcl).
  destruct (find_path mem t) as [[i p]|] eqn:Hp.
  2: { exists Through. apply says_no_path; [done|done|]. intros i p. rewrite <- argument_spec. by rewrite Hp. }
  apply argument_spec in Hp. destruct (env_permitted t ap p) eqn:He; [|apply env_spec in He; exists Refused; by eapply says_env].
  assert (¬ env_denied t ap p) as Hen by (rewrite <- env_spec; by rewrite He).
  destruct (path_permitted ap p) eqn:Hpp.
  { exists Through. eapply says_through; [done|done|exact Hp|done|]. rewrite <- path_spec. by rewrite Hpp. }
  apply path_spec in Hpp. destruct (call_is_write mem t) eqn:Hw; [apply write_spec in Hw; [|done]; exists Refused; eapply says_refused; eauto|].
  assert (¬ writes_files mem t) as Hnw by (rewrite <- write_spec by done; by rewrite Hw).
  destruct (decide (fake = 0%Z)) as [Hf|Hf]; [exists Refused; eapply says_refused; eauto|].
  destruct (json_object_get_string ap "decoy_dir") as [dir|] eqn:Hd; [|exists Refused; eapply says_refused; eauto].
  destruct (base_name_exists p) as [base Hb]. eexists. by eapply says_decoy.
Qed.

End shown.


(** ** A jail *)

(** A call of [open]. *)
Definition open_context (path flags : Z) : ThreadContext :=
  let int n := mkMeta (lit n) (lit "int") CDM_NOMOD PDIR_IN [] [] in
  let sz n := mkMeta (lit n) (lit "ptr") (Z.lor CDM_POINTER CDM_CONST) PDIR_IN (lit "sz") [] in
  let proto := mkProto (lit "open") CC_SYSTEM_V [sz "path"; int "flags"]%string 2 (lit "int") FAT_NOVARARGS 0 in
  mkContext (Some proto) 1 0 0
    [mkParam (sz "path"%string) path false; mkParam (int "flags"%string) flags false] 1 0 None 1.

Lemma demo_refused : says 0 demo_mem (open_context 128 0) jail Refused.
Proof.
  eapply (says_refused _ _ _ _ 0 (lit "/etc/shadow")).
  - apply argument_spec. vm_compute. reflexivity.
  - apply path_spec. vm_compute. reflexivity.
  - by left.
Qed.


End SandboxPolicy.
