(* ===== verification/Sockaddr.v ===== *)
(** * Socket addresses and the addr_deny action

    [src/core/sockaddr_inspect.c] (a flat view of a [struct sockaddr] and the
    matching of [host:port] specifications) and
    [src/core/actions/addr_deny.c]. A sockaddr is the bytes at its address, in
    the layout of Linux on a little-endian machine: the family in the first
    two bytes, the port in network order. *)

From S2P Require Import Prelude Numerals Context Json.
Import Numerals Context Json.

Module Sockaddr.

Definition RETRACE_SOCKADDR_IP_LEN : nat := 64.
Definition RETRACE_SOCKADDR_PATH_LEN : nat := 108.

Inductive family_group := RETRACE_SAF_UNKNOWN | RETRACE_SAF_INET | RETRACE_SAF_INET6 | RETRACE_SAF_UNIX.

#[export] Instance family_group_eq_dec : EqDecision family_group.
Proof. solve_decision. Defined.

Record sockaddr_info := mkInfo {
  si_family : Z;
  si_group : family_group;
  si_expected_len : nat;
  si_ip : bytes;
  si_port : Z;
  si_path : bytes;
}.

Definition zero_info : sockaddr_info := mkInfo 0 RETRACE_SAF_UNKNOWN 0 [] 0 [].

Definition AF_UNIX : Z := 1.
Definition AF_INET : Z := 2.
Definition AF_INET6 : Z := 10.

(** Sizes of [sa_family_t], [sockaddr_in], [sockaddr_in6], [sockaddr_un] and
    its path. *)
Definition sizeof_family : nat := 2.
Definition sizeof_in : nat := 16.
Definition sizeof_in6 : nat := 28.
Definition sizeof_un : nat := 110.
Definition sizeof_sun_path : nat := 108.

(** ** Reading the bytes *)

Definition byte_at (sa : bytes) (i : nat) : Z := uchar (char_at sa i).

(** [ntohs] of the two bytes at [i]. *)
Definition ntohs_at (sa : bytes) (i : nat) : Z := (byte_at sa i * 256 + byte_at sa (i + 1))%Z.

Definition sa_family (sa : bytes) : Z := (byte_at sa 0 + 256 * byte_at sa 1)%Z.

Fixpoint find_byte (s : bytes) (c : ascii) : option nat :=
  match s with
  | [] => None
  | x :: s => if ceq x c then Some 0 else S <$> find_byte s c
  end.

Definition find_char (s : bytes) (c : ascii) : bool :=
  match find_byte s c with Some _ => true | None => false end.

Fixpoint port_loop (v : Z) (s : bytes) : option (Z * bytes) :=
  match s with
  | c :: s' =>
      if (uchar "0" <=? uchar c)%Z && (uchar c <=? uchar "9")%Z then
        let v := (v * 10 + (uchar c - 48))%Z in
        if (65535 <? v)%Z then None else port_loop v s'
      else Some (v, s)
  | [] => Some (v, [])
  end.

Definition parse_port (s : bytes) : option Z :=
  if (uchar (deref s) <? uchar "0")%Z || (uchar "9" <? uchar (deref s))%Z then None
  else match port_loop 0 s with
       | Some (v, []) => Some v
       | _ => None
       end.

(** ** Addresses as text *)

Definition dot : ascii := ".".
Definition colon : ascii := ":".

Definition format_ipv4 (p0 p1 p2 p3 : Z) (buflen : nat) : bytes :=
  if buflen <? 16 then []
  else fmt_u p0 ++ dot :: fmt_u p1 ++ dot :: fmt_u p2 ++ dot :: fmt_u p3.

(** The loop of [format_ipv6]: group [i] on, [out] being written. *)
Fixpoint ipv6_loop (groups : list Z) (first : bool) (out : bytes) (buflen : nat) : bytes :=
  match groups with
  | [] => out
  | v :: groups =>
      let piece := if first then fmt_x v else colon :: fmt_x v in
      let room := buflen - length out in
      if room <=? length piece then out ++ take (room - 1) piece
      else ipv6_loop groups false (out ++ piece) buflen
  end.

Definition format_ipv6 (groups : list Z) (buflen : nat) : bytes :=
  if buflen <? 40 then [] else ipv6_loop groups true [] buflen.

(** ** [retrace_sockaddr_inspect] *)

(** The path up to its terminator. *)
Fixpoint upto_nul (s : bytes) : bytes :=
  match s with
  | [] => []
  | c :: s => if ceq c NUL then [] else c :: upto_nul s
  end.

(** [n] bytes from [i] on. *)
Definition copy_bytes (sa : bytes) (i n : nat) : bytes := char_at sa <$> seq i n.

Definition inspect_unix (sa : bytes) (addrlen : nat) (family : Z) : Z * sockaddr_info :=
  if negb (addrlen =? 0) && (addrlen <? sizeof_family) then
    ((-1)%Z, mkInfo family RETRACE_SAF_UNKNOWN 0 [] 0 [])
  else
    let pathlen :=
      if negb (addrlen =? 0) && (addrlen - sizeof_family <? sizeof_sun_path)
      then addrlen - sizeof_family else sizeof_sun_path in
    let pathlen :=
      if RETRACE_SOCKADDR_PATH_LEN - 1 <? pathlen then RETRACE_SOCKADDR_PATH_LEN - 1 else pathlen in
    (0%Z, mkInfo family RETRACE_SAF_UNIX sizeof_un [] 0 (upto_nul (copy_bytes sa 2 pathlen))).

Definition in6_groups (sa : bytes) : list Z := ntohs_at sa <$> [8; 10; 12; 14; 16; 18; 20; 22].

(** The return code and the info filled in; [None] is a NULL sockaddr. *)
Definition retrace_sockaddr_inspect (sa : option bytes) (addrlen : nat) : Z * sockaddr_info :=
  match sa with
  | None => ((-1)%Z, zero_info)
  | Some sa =>
      let short n := negb (addrlen =? 0) && (addrlen <? n) in
      if short sizeof_family then ((-1)%Z, zero_info)
      else
        let family := sa_family sa in
        let unknown := mkInfo family RETRACE_SAF_UNKNOWN 0 [] 0 [] in
        if (family =? AF_INET)%Z then
          if short sizeof_in then ((-1)%Z, unknown)
          else
            (0%Z, mkInfo family RETRACE_SAF_INET sizeof_in
              (format_ipv4 (byte_at sa 4) (byte_at sa 5) (byte_at sa 6) (byte_at sa 7) RETRACE_SOCKADDR_IP_LEN)
              (ntohs_at sa 2) [])
        else if (family =? AF_INET6)%Z then
          if short sizeof_in6 then ((-1)%Z, unknown)
          else
            (0%Z, mkInfo family RETRACE_SAF_INET6 sizeof_in6
              (format_ipv6 (in6_groups sa) RETRACE_SOCKADDR_IP_LEN) (ntohs_at sa 2) [])
        else if (family =? AF_UNIX)%Z then inspect_unix sa addrlen family
        else (0%Z, unknown)
  end.

(** ** [retrace_sockaddr_match] *)

(** The port of a specification: [Some None] for the wildcard. *)
Definition spec_port (s : bytes) : option (option Z) :=
  if streq s (lit "*") then Some None
  else match parse_port s with Some p => Some (Some p) | None => None end.

(** [parse_host_port]: the host and the port, if one is given. *)
Definition parse_host_port (spec : bytes) (host_cap : nat) : option (bytes * option Z) :=
  let parts :=
    if ceq (deref spec) "[" then
      match find_byte spec "]" with
      | None => None
      | Some close =>
          let host := take (close - 1) (drop 1 spec) in
          match drop (S close) spec with
          | [] => Some (host, Some None)
          | c :: rest => if ceq c ":" then Some (host, spec_port rest) else None
          end
      end
    else
      match find_byte spec ":" with
      | None => Some (spec, Some None)
      | Some i => Some (take i spec, spec_port (drop (S i) spec))
      end in
  match parts with
  | Some (host, Some port) =>
      if (length host =? 0) || (host_cap <=? length host) then None else Some (host, port)
  | _ => None
  end.

Definition retrace_sockaddr_match (info : sockaddr_info) (spec : bytes) : Z :=
  if streq spec (lit "*") then 1
  else
    match si_group info with
    | RETRACE_SAF_UNIX =>
        if find_char spec ":" then 0 else if streq spec (si_path info) then 1 else 0
    | g =>
        if bool_decide (g = RETRACE_SAF_UNKNOWN) && negb (find_char spec ":") then 0
        else
          match parse_host_port spec RETRACE_SOCKADDR_IP_LEN with
          | None => -1
          | Some (host, port) =>
              if negb (streq host (lit "*")) && negb (streq host (si_ip info)) then 0
              else match port with
                   | Some p => if (si_port info =? p)%Z then 1 else 0
                   | None => 1
                   end
          end
    end%Z.

(** ** The action *)

Definition is_addr_param_name (name : bytes) : bool :=
  streq name (lit "addr") || streq name (lit "dest_addr") || streq name (lit "src_addr").

(** The address of the sockaddr, 0 when there is none. *)
Definition find_sockaddr (t : ThreadContext) : Z :=
  match list_find (λ p, is_addr_param_name (pm_name (param_meta p)) = true) (params t) with
  | Some (_, p) => val p
  | None => 0
  end.

Definition ECONNREFUSED : Z := 111.

Definition denies (info : sockaddr_info) (v : JSON_Value) : bool :=
  match json_value_get_string (Some v) with
  | None => false
  | Some spec =>
      let m := retrace_sockaddr_match info spec in
      if (m <? 0)%Z then false else negb (m =? 0)%Z
  end.

Section AddrDeny.
(** The bytes at an address. *)
Variable raw : Z → bytes.

(** The return code and the context. *)
Definition ia_addr_deny (t : ThreadContext) (action_params : option JSON_Object) : Z * ThreadContext :=
  match action_params with
  | None => ((-1)%Z, t)
  | Some _ =>
      match json_object_get_array action_params "deny_addrs" with
      | None => ((-1)%Z, t)
      | Some deny_addrs =>
          let sa := find_sockaddr t in
          if (sa =? 0)%Z then (0%Z, t)
          else
            let '(rc, info) := retrace_sockaddr_inspect (Some (raw sa)) 0 in
            if negb (rc =? 0)%Z then (0%Z, t)
            else if existsb (denies info) deny_addrs
            then ((-1)%Z, set_ret_val (- ECONNREFUSED) t)
            else (0%Z, t)
      end
  end.
End AddrDeny.

(** ** Specifications and what they mean *)

(** An IPv4 address. *)
Record octets := mkOctets { o0 : Z; o1 : Z; o2 : Z; o3 : Z }.

#[export] Instance octets_eq_dec : EqDecision octets.
Proof. solve_decision. Defined.

Definition octet (z : Z) : Prop := (0 ≤ z < 256)%Z.
Definition octets_ok (a : octets) : Prop := octet (o0 a) ∧ octet (o1 a) ∧ octet (o2 a) ∧ octet (o3 a).

Definition v4_text (a : octets) : bytes := format_ipv4 (o0 a) (o1 a) (o2 a) (o3 a) RETRACE_SOCKADDR_IP_LEN.

(** [host:port] with wildcards. *)
Record spec4 := mkSpec4 { s_host : option octets; s_port : option Z }.

Definition spec4_ok (s : spec4) : Prop :=
  match s_host s with Some a => octets_ok a | None => True end ∧
  match s_port s with Some p => (0 ≤ p < 65536)%Z | None => True end.

Definition port_text (p : option Z) : bytes := match p with Some p => fmt_u p | None => lit "*" end.

Definition spec4_text (s : spec4) : bytes :=
  match s_host s with Some a => v4_text a | None => lit "*" end ++ colon :: port_text (s_port s).

(** The specification covers an address and a port. *)
Definition covers (s : spec4) (a : octets) (p : Z) : bool :=
  match s_host s with Some b => bool_decide (b = a) | None => true end &&
  match s_port s with Some q => (p =? q)%Z | None => true end.

Definition is_v4 (sa : bytes) (a : octets) (p : Z) : Prop :=
  sa_family sa = AF_INET ∧ p = ntohs_at sa 2 ∧
  a = mkOctets (byte_at sa 4) (byte_at sa 5) (byte_at sa 6) (byte_at sa 7).

(** ** Lemmas *)

(** The range of a given character. *)
Ltac char_range :=
  match goal with
  | |- context [uchar ?c] => let v := eval vm_compute in (uchar c) in change (uchar c) with v
  end; lia.

Lemma find_byte_app s c r : c ∉ s → find_byte (s ++ c :: r) c = Some (length s).
Proof.
  induction s as [|x s IH]; intros Hc; cbn; [by rewrite ceq_refl|].
  rewrite (proj2 (ceq_false x c)) by set_solver. rewrite IH by set_solver. done.
Qed.

Lemma port_loop_digits fuel z acc :
  (0 ≤ z < 10 ^ Z.of_nat fuel)%Z → fuel ≠ 0 → (z ≤ 65535)%Z →
  port_loop 0 (digits 10 fuel z acc) = port_loop z acc.
Proof.
  revert z acc. induction fuel as [|fuel IH]; intros z acc Hz Hf Hp; [done|]. cbn [digits].
  assert (∀ v d acc, (0 ≤ v)%Z → (0 ≤ d < 10)%Z → (v * 10 + d ≤ 65535)%Z →
    port_loop v (digit d :: acc) = port_loop (v * 10 + d) acc) as Hstep.
  { intros v d acc' Hv Hd Hle. cbn [port_loop]. destruct (digit_ok d ltac:(lia)) as (Hval & _ & Hr).
    specialize (Hr ltac:(lia)). change (uchar "0") with 48%Z. change (uchar "9") with 57%Z.
    rewrite (proj2 (Z.leb_le _ _)), (proj2 (Z.leb_le _ _)) by lia. cbn [andb].
    unfold digit_val in Hval. rewrite (proj2 (Z.ltb_lt _ _)) in Hval by lia. rewrite Hval.
    by rewrite (proj2 (Z.ltb_ge _ _)) by lia. }
  destruct (Z.ltb_spec z 10); [by rewrite Hstep by lia|].
  rewrite Nat2Z.inj_succ, Z.pow_succ_r in Hz by lia.
  assert (fuel ≠ 0) by (intros ->; cbn in Hz; lia).
  assert (z / 10 ≤ z)%Z by (apply Z.div_le_upper_bound; lia).
  pose proof (Z.mod_pos_bound z 10 ltac:(lia)). pose proof (Z.div_mod z 10 ltac:(lia)).
  rewrite IH; [|split; [apply Z.div_pos; lia|apply Z.div_lt_upper_bound; lia]|done|lia].
  rewrite Hstep; [f_equal; lia|apply Z.div_pos; lia|lia|lia].
Qed.

Lemma parse_port_text p : (0 ≤ p < 65536)%Z → parse_port (fmt_u p) = Some p.
Proof.
  intros Hp. unfold parse_port. pose proof (fmt_u_digits p ltac:(lia)) as Hd.
  destruct (fmt_u p) as [|c s] eqn:E; [by destruct (fmt_u_nonempty p)|].
  apply Forall_cons in Hd as [Hc _]. change (deref (c :: s)) with c.
  change (uchar "0") with 48%Z. change (uchar "9") with 57%Z.
  rewrite !(proj2 (Z.ltb_ge _ _)) by lia. cbn [orb]. rewrite <- E. unfold fmt_u.
  rewrite port_loop_digits by lia. done.
Qed.

Lemma fmt_u_not c z : (0 ≤ z)%Z → ¬ (48 ≤ uchar c ≤ 57)%Z → c ∉ fmt_u z.
Proof. intros Hz. apply (not_in_digits (λ c, (48 ≤ uchar c ≤ 57)%Z)), fmt_u_digits, Hz. Qed.

Lemma port_text_spec p :
  match p with Some p => (0 ≤ p < 65536)%Z | None => True end → spec_port (port_text p) = Some p.
Proof.
  destruct p as [p|]; [|done]. intros Hp. unfold port_text, spec_port.
  assert (streq (fmt_u p) (lit "*") = false) as ->.
  { apply streq_false. intros E. apply (fmt_u_not "*" p); [lia|char_range|]. rewrite E. set_solver. }
  by rewrite parse_port_text.
Qed.

Lemma fmt_u_short z : octet z → length (fmt_u z) ≤ 3.
Proof.
  unfold octet, fmt_u. intros H. cbn [digits].
  destruct (Z.ltb_spec z 10); [cbn; lia|]. destruct (Z.ltb_spec (z / 10) 10); [cbn; lia|].
  assert (z / 10 / 10 < 10)%Z.
  { apply Z.div_lt_upper_bound; [lia|]. apply Z.div_lt_upper_bound; lia. }
  rewrite (proj2 (Z.ltb_lt _ _)) by lia. cbn. lia.
Qed.

Lemma v4_text_app a :
  v4_text a = fmt_u (o0 a) ++ dot :: fmt_u (o1 a) ++ dot :: fmt_u (o2 a) ++ dot :: fmt_u (o3 a).
Proof. done. Qed.

Lemma v4_text_props a :
  octets_ok a → 0 < length (v4_text a) < RETRACE_SOCKADDR_IP_LEN ∧
                Forall (λ c, (48 ≤ uchar c ≤ 57)%Z ∨ c = dot) (v4_text a).
Proof.
  intros (H0 & H1 & H2 & H3). rewrite v4_text_app. split.
  - repeat (rewrite length_app; cbn [length]).
    pose proof (fmt_u_short _ H0). pose proof (fmt_u_short _ H1). pose proof (fmt_u_short _ H2).
    pose proof (fmt_u_short _ H3). unfold RETRACE_SOCKADDR_IP_LEN. lia.
  - assert (∀ z, octet z → Forall (λ c, (48 ≤ uchar c ≤ 57)%Z ∨ c = dot) (fmt_u z)) as Hf.
    { intros z [Hz _]. eapply Forall_impl; [by apply fmt_u_digits|]. cbn; auto. }
    repeat (apply Forall_app; split; [by apply Hf|]; constructor; [by right|]). by apply Hf.
Qed.

Lemma v4_text_not a c : octets_ok a → ¬ (48 ≤ uchar c ≤ 57)%Z → c ≠ dot → c ∉ v4_text a.
Proof.
  intros Ha Hc Hd. eapply not_in_digits; [by apply v4_text_props|]. by intros [?|?].
Qed.

Lemma v4_text_inj a b : octets_ok a → octets_ok b → v4_text a = v4_text b → a = b.
Proof.
  intros (A0 & A1 & A2 & A3) (B0 & B1 & B2 & B3). rewrite !v4_text_app.
  assert (∀ z, octet z → dot ∉ fmt_u z) as Hd by (intros z [Hz _]; apply fmt_u_not; [done|char_range]).
  assert (∀ x y, octet x → octet y → fmt_u x = fmt_u y → x = y) as Hi
    by (unfold octet; intros; apply fmt_u_inj; lia || done).
  intros E. apply sep_inj in E as [E0 E]; [|by apply Hd..].
  apply sep_inj in E as [E1 E]; [|by apply Hd..].
  apply sep_inj in E as [E2 E3]; [|by apply Hd..].
  apply Hi in E0, E1, E2, E3; try done. destruct a, b; cbn in *; congruence.
Qed.

Lemma parse_spec4 s :
  spec4_ok s →
  parse_host_port (spec4_text s) RETRACE_SOCKADDR_IP_LEN =
  Some (match s_host s with Some a => v4_text a | None => lit "*" end, s_port s).
Proof.
  intros [Hh Hp]. unfold spec4_text.
  set (h := match s_host s with Some a => v4_text a | None => lit "*" end).
  assert (colon ∉ h ∧ "["%char ∉ h ∧ 0 < length h < RETRACE_SOCKADDR_IP_LEN) as (Hc & Hb & Hl).
  { unfold h. destruct (s_host s) as [a|]; [|split_and!; set_solver || (cbn; unfold RETRACE_SOCKADDR_IP_LEN; lia)].
    split_and!; [by apply v4_text_not; [|char_range|]..|by apply v4_text_props|by apply v4_text_props]. }
  clearbody h. unfold parse_host_port. destruct h as [|c h]; [cbn in Hl; lia|].
  change (deref ((c :: h) ++ _)) with c. rewrite (proj2 (ceq_false c "[")) by set_solver.
  rewrite find_byte_app by done. rewrite take_app_length.
  replace (drop (S (length (c :: h))) ((c :: h) ++ colon :: port_text (s_port s)))
    with (port_text (s_port s)).
  2:{ rewrite drop_app_ge by lia. replace (S (length (c :: h)) - length (c :: h)) with 1 by lia. done. }
  rewrite port_text_spec by done.
  destruct (Nat.eqb_spec (length (c :: h)) 0); [lia|].
  by destruct (Nat.leb_spec RETRACE_SOCKADDR_IP_LEN (length (c :: h))); [lia|].
Qed.

Lemma byte_octet sa i : octet (byte_at sa i).
Proof. apply uchar_range. Qed.

Lemma inspect_v4 sa a p :
  is_v4 sa a p →
  retrace_sockaddr_inspect (Some sa) 0 = (0%Z, mkInfo AF_INET RETRACE_SAF_INET sizeof_in (v4_text a) p []).
Proof. intros (Hf & -> & ->). unfold retrace_sockaddr_inspect. by rewrite Hf. Qed.

(** An IPv4 address matches exactly the specifications that cover it. *)
Lemma match_spec4 sa a p s :
  is_v4 sa a p → spec4_ok s →
  retrace_sockaddr_match (retrace_sockaddr_inspect (Some sa) 0).2 (spec4_text s) =
  if covers s a p then 1%Z else 0%Z.
Proof.
  intros Hsa Hs. assert (octets_ok a) as Hok by (destruct Hsa as (_ & _ & ->); split_and!; apply byte_octet).
  rewrite (inspect_v4 sa a p Hsa). unfold retrace_sockaddr_match.
  assert (streq (spec4_text s) (lit "*") = false) as ->.
  { apply streq_false. unfold spec4_text. intros E. apply (f_equal (λ l, bool_decide (colon ∈ l))) in E.
    rewrite bool_decide_true in E by set_solver. by vm_compute in E. }
  rewrite parse_spec4 by done. cbn [snd si_group si_ip si_port].
  change (bool_decide (RETRACE_SAF_INET = RETRACE_SAF_UNKNOWN)) with false. cbn [andb].
  unfold covers. destruct Hs as [Hh _]. destruct (s_host s) as [b|].
  - assert (streq (v4_text b) (lit "*") = false) as ->.
    { apply streq_false. intros E. apply (v4_text_not b "*"); [done|char_range|done|]. rewrite E. set_solver. }
    cbn [negb andb]. destruct (bool_decide (b = a)) eqn:Eb; bool_to_prop.
    + rewrite Eb, streq_refl. by destruct (s_port s).
    + assert (streq (v4_text b) (v4_text a) = false) as ->; [|done].
      apply streq_false. intros E. by apply Eb, v4_text_inj.
  - change (streq (lit "*") (lit "*")) with true. by destruct (s_port s).
Qed.

(** ** IPv6 *)

Definition v6_text (groups : list Z) : bytes := format_ipv6 groups RETRACE_SOCKADDR_IP_LEN.

Definition groups_ok (g : list Z) : Prop := length g = 8 ∧ Forall (λ v, (0 ≤ v < 65536)%Z) g.

(** The groups without the bound of the buffer. *)
Fixpoint join6 (first : bool) (g : list Z) : bytes :=
  match g with
  | [] => []
  | v :: g => (if first then fmt_x v else colon :: fmt_x v) ++ join6 false g
  end.

Lemma fmt_x_short z : (0 ≤ z < 65536)%Z → 0 < length (fmt_x z) ≤ 4.
Proof.
  intros H. split; [pose proof (fmt_x_nonempty z); destruct (fmt_x z); [done|cbn; lia]|].
  unfold fmt_x. cbn [digits]. destruct (Z.ltb_spec z 16); [cbn; lia|].
  destruct (Z.ltb_spec (z / 16) 16); [cbn; lia|]. destruct (Z.ltb_spec (z / 16 / 16) 16); [cbn; lia|].
  assert (z / 16 / 16 / 16 < 16)%Z.
  { repeat (apply Z.div_lt_upper_bound; [lia|]). lia. }
  rewrite (proj2 (Z.ltb_lt _ _)) by lia. cbn. lia.
Qed.

Lemma ipv6_loop_join g first out buflen :
  Forall (λ v, (0 ≤ v < 65536)%Z) g → length out + 5 * length g < buflen →
  ipv6_loop g first out buflen = out ++ join6 first g.
Proof.
  intros Hg. revert first out. induction Hg as [|v g Hv Hg IH]; intros first out Hl; cbn [ipv6_loop join6 length] in *.
  - by rewrite app_nil_r.
  - pose proof (fmt_x_short v Hv) as Hs.
    assert (length (if first then fmt_x v else colon :: fmt_x v) ≤ 5) by (destruct first; cbn [length]; lia).
    destruct (Nat.leb_spec (buflen - length out) (length (if first then fmt_x v else colon :: fmt_x v))); [lia|].
    rewrite IH by (rewrite length_app; lia). by rewrite <- app_assoc.
Qed.

Lemma v6_text_join g : groups_ok g → v6_text g = join6 true g.
Proof.
  intros [Hl Hg]. unfold v6_text, format_ipv6. cbn [Nat.ltb].
  change (RETRACE_SOCKADDR_IP_LEN <? 40) with false. cbv iota.
  by rewrite ipv6_loop_join by (rewrite ?Hl; unfold RETRACE_SOCKADDR_IP_LEN; cbn; lia || done).
Qed.

Lemma fmt_x_no_colon v : (0 ≤ v)%Z → colon ∉ fmt_x v.
Proof. intros Hv. apply (not_in_digits (λ c, is_hex c = true)); [by apply fmt_x_hex|done]. Qed.

(** Two addresses of the same text have the same groups. *)
Lemma join6_inj g1 g2 :
  Forall (λ v, (0 ≤ v < 65536)%Z) g1 → Forall (λ v, (0 ≤ v < 65536)%Z) g2 → length g1 = length g2 →
  join6 false g1 = join6 false g2 → g1 = g2.
Proof.
  intros H1. revert g2. induction H1 as [|v g1 Hv H1 IH]; intros [|w g2] H2 Hl E; try done.
  apply Forall_cons in H2 as [Hw H2]. cbn [join6] in E. injection E as E. injection Hl as Hl.
  assert (fmt_x v = fmt_x w ∧ join6 false g1 = join6 false g2) as [Ev Er].
  { destruct g1 as [|v' g1], g2 as [|w' g2]; try done.
    - cbn in E. by rewrite !app_nil_r in E.
    - cbn [join6 app] in E. apply sep_inj in E as [? Er]; [|apply fmt_x_no_colon; lia..].
      cbn [join6 app]. by rewrite Er. }
  f_equal; [apply fmt_x_inj; lia || done|by apply IH].
Qed.

Lemma v6_text_inj g1 g2 : groups_ok g1 → groups_ok g2 → v6_text g1 = v6_text g2 → g1 = g2.
Proof.
  intros H1 H2 E. rewrite !v6_text_join in E by done. destruct H1 as [L1 F1], H2 as [L2 F2].
  apply join6_inj; [done|done|lia|]. destruct g1 as [|v g1], g2 as [|w g2]; try done.
  cbn [join6 app] in *. by rewrite E.
Qed.

(** No two colons stand next to each other. *)
Lemma join6_no_gap first g s1 s2 :
  Forall (λ v, (0 ≤ v < 65536)%Z) g → join6 first g ≠ s1 ++ colon :: colon :: s2.
Proof.
  intros Hg. revert first s1. induction Hg as [|v g Hv Hg IH]; intros first s1 E; [by destruct s1|].
  cbn [join6] in E. pose proof (fmt_x_no_colon v ltac:(lia)) as Hc. pose proof (fmt_x_nonempty v) as Hne.
  assert (∀ s1, fmt_x v ++ join6 false g ≠ s1 ++ colon :: colon :: s2) as Hx.
  { clear E s1. intros s1 E. apply app_eq_inv in E as [(k & E1 & E2)|(k & -> & E2)]; [|by eapply IH].
    destruct k as [|c k]; [by symmetry in E2; apply (IH false []) in E2|].
    injection E2 as <- _. rewrite E1 in Hc. set_solver. }
  destruct first; [by eapply Hx|]. destruct s1 as [|c s1].
  - cbn [app] in E. injection E as E. destruct (fmt_x v) as [|x y]; [done|]. injection E as -> _. set_solver.
  - cbn [app] in E. injection E as <- E. by eapply Hx.
Qed.


Lemma join6_not first g c :
  Forall (λ v, (0 ≤ v < 65536)%Z) g → is_hex c = false → c ≠ colon → c ∉ join6 first g.
Proof.
  intros Hg Hc Hn. revert first. induction Hg as [|v g Hv Hg IH]; intros first; cbn [join6]; [set_solver|].
  assert (c ∉ fmt_x v).
  { apply (not_in_digits (λ c, is_hex c = true)); [apply fmt_x_hex; lia|congruence]. }
  specialize (IH false). destruct first; set_solver.
Qed.

Lemma join6_length g : groups_ok g → 0 < length (join6 true g) < RETRACE_SOCKADDR_IP_LEN.
Proof.
  intros [Hl Hg].
  assert (∀ first g, Forall (λ v, (0 ≤ v < 65536)%Z) g → length (join6 first g) ≤ 5 * length g) as Hb.
  { clear. intros first g Hg. revert first. induction Hg as [|v g Hv Hg IH]; intros first; cbn [join6 length]; [lia|].
    rewrite length_app. pose proof (fmt_x_short v Hv). specialize (IH false).
    destruct first; cbn [length]; lia. }
  pose proof (Hb true g Hg). unfold RETRACE_SOCKADDR_IP_LEN. split; [|lia].
  destruct g as [|v g]; [done|]. apply Forall_cons in Hg as [Hv _]. cbn [join6]. rewrite length_app.
  pose proof (fmt_x_short v Hv). lia.
Qed.

(** ** Theorems *)

Definition is_v6 (sa : bytes) : Prop := sa_family sa = AF_INET6.

Lemma in6_groups_ok sa : groups_ok (in6_groups sa).
Proof.
  split; [done|]. unfold in6_groups. apply Forall_fmap, Forall_true. intros i. cbn. unfold ntohs_at.
  pose proof (byte_octet sa i) as H1. pose proof (byte_octet sa (i + 1)) as H2. unfold octet in *. lia.
Qed.

Lemma inspect_v6 sa :
  is_v6 sa →
  retrace_sockaddr_inspect (Some sa) 0 =
  (0%Z, mkInfo AF_INET6 RETRACE_SAF_INET6 sizeof_in6 (v6_text (in6_groups sa)) (ntohs_at sa 2) []).
Proof. intros Hf. unfold retrace_sockaddr_inspect. by rewrite Hf. Qed.

(** The bracketed specification of an IPv6 address. *)
Definition spec6_text (host : bytes) (port : option Z) : bytes :=
  "["%char :: host ++ "]"%char :: colon :: port_text port.

Lemma parse_spec6 host port :
  "]"%char ∉ host → 0 < length host < RETRACE_SOCKADDR_IP_LEN →
  match port with Some p => (0 ≤ p < 65536)%Z | None => True end →
  parse_host_port (spec6_text host port) RETRACE_SOCKADDR_IP_LEN = Some (host, port).
Proof.
  intros Hc Hl Hp. unfold parse_host_port, spec6_text. change (ceq (deref ("["%char :: _)) "[") with true. cbv iota.
  cbn [find_byte]. change (ceq "[" "]") with false. cbv iota. rewrite find_byte_app by done.
  cbn [fmap option_fmap option_map drop]. cbv iota. rewrite drop_0, Nat.sub_succ, Nat.sub_0_r, take_app_length.
  rewrite drop_app_ge by lia. replace (S (length host) - length host) with 1 by lia. cbn [drop].
  change (ceq colon ":") with true. cbv iota. rewrite port_text_spec by done.
  destruct (Nat.eqb_spec (length host) 0); [lia|].
  by destruct (Nat.leb_spec RETRACE_SOCKADDR_IP_LEN (length host)); [lia|].
Qed.

(** A bracketed host matches an IPv6 address exactly when it is its text. *)
Lemma match_spec6 sa host port :
  is_v6 sa → "]"%char ∉ host → host ≠ lit "*" → 0 < length host < RETRACE_SOCKADDR_IP_LEN →
  match port with Some p => (0 ≤ p < 65536)%Z | None => True end →
  retrace_sockaddr_match (retrace_sockaddr_inspect (Some sa) 0).2 (spec6_text host port) =
  if streq host (v6_text (in6_groups sa)) &&
     match port with Some p => (ntohs_at sa 2 =? p)%Z | None => true end then 1%Z else 0%Z.
Proof.
  intros Hsa Hb Hw Hl Hp. rewrite inspect_v6 by done. unfold retrace_sockaddr_match.
  change (streq (spec6_text host port) (lit "*")) with false. cbv iota.
  rewrite parse_spec6 by done. cbn [snd si_group si_ip si_port].
  change (bool_decide (RETRACE_SAF_INET6 = RETRACE_SAF_UNKNOWN)) with false. cbn [andb]. cbv iota.
  apply streq_false in Hw. rewrite Hw. cbn [negb andb].
  destruct (streq host (v6_text (in6_groups sa))); [|done]. by destruct port.
Qed.

(** A deny list of IPv4 specifications blocks a call exactly
    when one of them covers the destination: the same four octets or any
    host, and the same port or any port. A call that is blocked returns
    -ECONNREFUSED and aborts the script, any other goes on with its context
    unchanged. *)
Theorem addr_deny_exact raw t specs more a p :
  find_sockaddr t ≠ 0%Z → is_v4 (raw (find_sockaddr t)) a p → Forall spec4_ok specs →
  let list := JSONArray ((λ s, JSONString (spec4_text s)) <$> specs) in
  ia_addr_deny raw t (Some ((lit "deny_addrs", list) :: more)) =
  if existsb (λ s, covers s a p) specs then ((-1)%Z, set_ret_val (- ECONNREFUSED) t) else (0%Z, t).
Proof.
  intros Hn Hsa Hs. cbv zeta. unfold ia_addr_deny.
  change (json_object_get_array (Some ((lit "deny_addrs", JSONArray ?l) :: _)) "deny_addrs") with (Some l).
  cbv iota. rewrite (proj2 (Z.eqb_neq _ _) Hn). cbv iota.
  pose proof (inspect_v4 _ _ _ Hsa) as Hi.
  destruct (retrace_sockaddr_inspect _ _) as [rc info] eqn:E. injection Hi as -> Hi.
  change ((0 =? 0)%Z) with true. cbn [negb]. cbv iota.
  assert (existsb (denies info) ((λ s, JSONString (spec4_text s)) <$> specs) =
          existsb (λ s, covers s a p) specs) as ->; [|done].
  induction Hs as [|s specs Hok Hs IH]; [done|]. cbn [existsb fmap list_fmap]. rewrite IH. f_equal.
  unfold denies. cbn [json_value_get_string]. pose proof (match_spec4 _ _ _ s Hsa Hok) as Hm.
  rewrite E in Hm. cbn [snd] in Hm. rewrite Hm. by destruct (covers s a p).
Qed.

(** An IPv6 destination matches the bracketed text of eight
    groups exactly when the groups are its own and the port agrees. *)
Theorem sockaddr_v6_exact sa g port :
  is_v6 sa → groups_ok g →
  match port with Some p => (0 ≤ p < 65536)%Z | None => True end →
  retrace_sockaddr_match (retrace_sockaddr_inspect (Some sa) 0).2 (spec6_text (join6 true g) port) =
  if bool_decide (g = in6_groups sa) &&
     match port with Some p => (ntohs_at sa 2 =? p)%Z | None => true end then 1%Z else 0%Z.
Proof.
  intros Hsa Hg Hp. rewrite <- (v6_text_join g Hg). rewrite match_spec6; [|done|..|done].
  - unfold streq. rewrite (bool_decide_ext (v6_text g = _) (g = in6_groups sa)); [done|].
    split; [|by intros ->]. apply v6_text_inj; [done|apply in6_groups_ok].
  - rewrite v6_text_join by done. apply join6_not; [apply Hg|done|done].
  - rewrite v6_text_join by done. intros E. apply (join6_not true g "*"); [apply Hg|done|done|].
    rewrite E. set_solver.
  - rewrite v6_text_join by done. by apply join6_length.
Qed.

(** The compressed form of an IPv6 address that the module and
    the action document, as in [::1]:443, matches no destination: the text of
    an address never has two colons in a row. *)
Theorem sockaddr_v6_compressed sa s1 s2 port :
  is_v6 sa → let host := s1 ++ colon :: colon :: s2 in
  "]"%char ∉ host → length host < RETRACE_SOCKADDR_IP_LEN →
  match port with Some p => (0 ≤ p < 65536)%Z | None => True end →
  retrace_sockaddr_match (retrace_sockaddr_inspect (Some sa) 0).2 (spec6_text host port) = 0%Z.
Proof.
  intros Hsa host Hb Hl Hp. assert (length host ≠ 0) by (unfold host; rewrite length_app; cbn; lia).
  rewrite match_spec6; [|done|done| |lia|done].
  - assert (streq host (v6_text (in6_groups sa)) = false) as ->; [|done].
    apply streq_false. rewrite v6_text_join by apply in6_groups_ok. intros E. symmetry in E.
    revert E. apply join6_no_gap, in6_groups_ok.
  - intros E. apply (f_equal length) in E. unfold host in E. rewrite length_app in E. cbn in E. lia.
Qed.

(** ** Witnesses *)

(** A [connect] to 10.0.0.1:443. *)
Definition demo_sa : bytes :=
  ["002"; "000"; "001"; "187"; "010"; "000"; "000"; "001"]%char.
Definition demo_sa6 : bytes :=
  ["010"; "000"; "001"; "187"]%char ++ replicate 19 NUL ++ ["001"%char].
Definition demo_ctx : ThreadContext :=
  let m n := mkMeta (lit n) (lit "ptr") CDM_POINTER PDIR_IN [] [] in
  mkContext None 1 0 0 [mkParam (m "sockfd"%string) 3 false; mkParam (m "addr"%string) 64 false] 1 0 None 1.

Lemma addr_deny_exact_witness :
  ia_addr_deny (λ _, demo_sa) demo_ctx
    (Some [(lit "deny_addrs", JSONArray [JSONString (lit "192.168.0.1:*"); JSONString (lit "*:443")])]) =
  ((-1)%Z, set_ret_val (- ECONNREFUSED) demo_ctx).
Proof.
  apply (addr_deny_exact (λ _, demo_sa) demo_ctx
    [mkSpec4 (Some (mkOctets 192 168 0 1)) None; mkSpec4 None (Some 443%Z)] [] (mkOctets 10 0 0 1) 443).
  - vm_compute. congruence.
  - vm_compute. split_and!; reflexivity.
  - apply Forall_cons; split; [|apply Forall_cons; split; [|apply Forall_nil; exact I]];
      vm_compute; repeat split; congruence.
Defined.

Lemma sockaddr_v6_exact_witness :
  retrace_sockaddr_match (retrace_sockaddr_inspect (Some demo_sa6) 0).2 (lit "[0:0:0:0:0:0:0:1]:443") = 1%Z.
Proof.
  apply (sockaddr_v6_exact demo_sa6 [0; 0; 0; 0; 0; 0; 0; 1]%Z (Some 443%Z)).
  - vm_compute. reflexivity.
  - split; [reflexivity|]. apply (bool_decide_eq_true_1 _). vm_compute. reflexivity.
  - lia.
Defined.

Lemma sockaddr_v6_compressed_witness :
  retrace_sockaddr_match (retrace_sockaddr_inspect (Some demo_sa6) 0).2 (lit "[::1]:443") = 0%Z.
Proof.
  apply (sockaddr_v6_compressed demo_sa6 [] (lit "1") (Some 443%Z)).
  - vm_compute. reflexivity.
  - apply (bool_decide_eq_true_1 _). vm_compute. reflexivity.
  - vm_compute. lia.
  - lia.
Defined.

End Sockaddr.
