(* ===== verification/Registry.v ===== *)
(** * The registries of prototypes and of actions

    [src/core/funcs.c] and [src/core/actions.c] index the elements of a linker
    section by name in a table of chains, with the same code. The table is
    developed once over the number of its slots and the names of its elements,
    and instantiated for the prototypes (128 slots) and the actions (32). *)

From S2P Require Import Prelude Context.
Import Context.

Module Registry.

(** [hash_string] before the reduction to the table: [unsigned long] is 64
    bits wide, and a [char] is added with its sign. *)
Definition hash_string (char_signed : bool) (s : bytes) : Z :=
  foldl (λ h c, u64 (h * 31 + char_val char_signed c)) 7%Z s.

Section Chains.
Context {A : Type}.
Variable name : A → bytes.
Variable slots : nat.
Variable char_signed : bool.

Definition slot_of (s : bytes) : nat := Z.to_nat (hash_string char_signed s mod Z.of_nat slots).

(** A chain is the list of its elements; an empty slot is the empty chain. *)
Abbreviation table := (list (list A)).

Definition empty_table : table := replicate slots [].

(** The walk along a chain up to the name or the end. *)
Fixpoint chain_find (l : list A) (s : bytes) : option A :=
  match l with
  | [] => None
  | x :: l => if streq (name x) s then Some x else chain_find l s
  end.

(** The loop over the section: the return code and the table. *)
Fixpoint init_loop (l : list A) (t : table) : Z * table :=
  match l with
  | [] => (0%Z, t)
  | p :: l =>
      let h := slot_of (name p) in
      let chain := t !!! h in
      match chain_find chain (name p) with
      | Some _ => ((-1)%Z, t)
      | None => init_loop l (<[h := chain ++ [p]]> t)
      end
  end.

Definition init (section : list A) : Z * table := init_loop section empty_table.

Definition get (t : table) (s : bytes) : option A := chain_find (t !!! slot_of s) s.

(** ** What the table holds *)

Hypothesis slots_pos : 0 < slots.

Lemma slot_of_lt s : slot_of s < slots.
Proof.
  unfold slot_of. pose proof (Z.mod_pos_bound (hash_string char_signed s) (Z.of_nat slots)). lia.
Qed.

Lemma chain_find_first l s : chain_find l s = snd <$> list_find (λ x, name x = s) l.
Proof.
  induction l as [|x l IH]; [done|]. cbn. destruct (streq (name x) s) eqn:E; bool_to_prop.
  - by rewrite decide_True.
  - rewrite decide_False by done. rewrite IH. by destruct (list_find _ l) as [[i y]|].
Qed.

Lemma chain_find_None l s : chain_find l s = None ↔ s ∉ (name <$> l).
Proof.
  induction l as [|x l IH]; cbn; [set_solver|]. destruct (streq (name x) s) eqn:E; bool_to_prop.
  - split; [done|]. set_solver.
  - rewrite IH. set_solver.
Qed.

Lemma chain_find_app l k s :
  chain_find (l ++ k) s = match chain_find l s with Some x => Some x | None => chain_find k s end.
Proof. induction l as [|x l IH]; [done|]. cbn. by destruct (streq _ _). Qed.

(** The table holds exactly the elements [l], each in its slot. *)
Definition holds (l : list A) (t : table) : Prop :=
  length t = slots ∧ ∀ s, get t s = chain_find l s.

Lemma holds_empty : holds [] empty_table.
Proof.
  split; [apply length_replicate|]. intros s. unfold get, empty_table.
  by rewrite lookup_total_replicate_2 by apply slot_of_lt.
Qed.

Lemma holds_snoc l t p :
  holds l t → chain_find (t !!! slot_of (name p)) (name p) = None →
  holds (l ++ [p]) (<[slot_of (name p) := (t !!! slot_of (name p)) ++ [p]]> t).
Proof.
  intros [Hl Hg] Hn. split; [by rewrite length_insert|]. intros s. unfold get.
  pose proof (slot_of_lt (name p)) as Hp. rewrite chain_find_app, <- Hg. unfold get.
  destruct (decide (slot_of s = slot_of (name p))) as [E|E].
  - rewrite E, list_lookup_total_insert_eq by lia. apply chain_find_app.
  - rewrite list_lookup_total_insert_ne by done.
    destruct (chain_find (t !!! slot_of s) s); [done|]. cbn.
    destruct (streq (name p) s) eqn:Es; [|done]. apply streq_true in Es. by subst.
Qed.

Lemma init_loop_spec l l0 t :
  holds l0 t → NoDup (name <$> l0) →
  let '(rc, t') := init_loop l t in
  (rc = 0%Z ↔ NoDup (name <$> (l0 ++ l))) ∧ (rc = 0%Z → holds (l0 ++ l) t').
Proof.
  revert l0 t. induction l as [|p l IH]; intros l0 t Ht Hd; cbn [init_loop].
  { by rewrite app_nil_r. }
  destruct (chain_find (t !!! slot_of (name p)) (name p)) as [x|] eqn:E.
  - split; [|done]. split; [done|]. intros Hdup. exfalso.
    destruct Ht as [_ Hg]. specialize (Hg (name p)). unfold get in Hg. rewrite E in Hg. symmetry in Hg.
    rewrite fmap_app in Hdup. cbn in Hdup. apply NoDup_app in Hdup as (_ & Hno & _).
    assert (name p ∈ (name <$> l0)) as Hin.
    { destruct (decide (name p ∈ (name <$> l0))) as [H|H]; [done|].
      apply chain_find_None in H. congruence. }
    apply (Hno _ Hin). set_solver.
  - specialize (IH (l0 ++ [p]) (<[slot_of (name p) := (t !!! slot_of (name p)) ++ [p]]> t)).
    rewrite <- app_assoc in IH. cbn [app] in IH. apply IH; [by apply holds_snoc|].
    rewrite fmap_app. apply NoDup_app. split_and!; [done| |apply NoDup_singleton].
    destruct Ht as [_ Hg]. specialize (Hg (name p)). unfold get in Hg. rewrite E in Hg. symmetry in Hg.
    apply chain_find_None in Hg. intros x Hx. cbn. set_solver.
Qed.

Lemma init_spec l :
  (init l).1 = 0%Z ↔ NoDup (name <$> l).
Proof.
  pose proof (init_loop_spec l [] empty_table holds_empty (NoDup_nil_2)) as H. unfold init.
  destruct (init_loop l empty_table) as [rc t]. apply H.
Qed.

Lemma get_spec l s :
  NoDup (name <$> l) → get (init l).2 s = snd <$> list_find (λ x, name x = s) l.
Proof.
  intros Hd. pose proof (init_loop_spec l [] empty_table holds_empty (NoDup_nil_2)) as H. unfold init.
  destruct (init_loop l empty_table) as [rc t]. destruct H as [Hrc Hh].
  apply Hrc in Hd. destruct (Hh Hd) as [_ Hg]. cbn. by rewrite Hg, chain_find_first.
Qed.
End Chains.

(** ** The two registries *)

Definition MAXCOUNT_FUNCS_HASH_ENTRIES : nat := 128.
Definition MAXCOUNT_ACTS_HASH_ENTRIES : nat := 32.

Definition retrace_funcs_init (char_signed : bool) (section : list FuncPrototype)
  : Z * list (list FuncPrototype) :=
  init fp_name MAXCOUNT_FUNCS_HASH_ENTRIES char_signed section.

Definition retrace_func_get (char_signed : bool) (t : list (list FuncPrototype)) (s : bytes)
  : option FuncPrototype :=
  get fp_name MAXCOUNT_FUNCS_HASH_ENTRIES char_signed t s.

(** [struct Action]: a name and what it runs. *)
Record Action (F : Type) := mkAction { act_name : bytes; action : F }.
Arguments mkAction {F} _ _.
Arguments act_name {F} _.
Arguments action {F} _.

Definition retrace_actions_init {F} (char_signed : bool) (section : list (Action F))
  : Z * list (list (Action F)) :=
  init act_name MAXCOUNT_ACTS_HASH_ENTRIES char_signed section.

Definition retrace_actions_get {F} (char_signed : bool) (t : list (list (Action F))) (s : bytes) : option F :=
  action <$> get act_name MAXCOUNT_ACTS_HASH_ENTRIES char_signed t s.

(** The registries of prototypes and of actions accept their
    section exactly when no two elements have the same name, and then find
    by a name the one element that has it, or nothing. *)
Theorem registries_by_name {F} char_signed (protos : list FuncPrototype) (acts : list (Action F)) :
  ((retrace_funcs_init char_signed protos).1 = 0%Z ↔ NoDup (fp_name <$> protos)) ∧
  ((retrace_actions_init char_signed acts).1 = 0%Z ↔ NoDup (act_name <$> acts)) ∧
  (NoDup (fp_name <$> protos) → ∀ s,
     retrace_func_get char_signed (retrace_funcs_init char_signed protos).2 s =
     snd <$> list_find (λ p, fp_name p = s) protos) ∧
  (NoDup (act_name <$> acts) → ∀ s,
     retrace_actions_get char_signed (retrace_actions_init char_signed acts).2 s =
     (λ p, action p.2) <$> list_find (λ a, act_name a = s) acts).
Proof.
  split_and!.
  - apply init_spec. unfold MAXCOUNT_FUNCS_HASH_ENTRIES. lia.
  - apply init_spec. unfold MAXCOUNT_ACTS_HASH_ENTRIES. lia.
  - intros Hd s. apply get_spec; [unfold MAXCOUNT_FUNCS_HASH_ENTRIES; lia|done].
  - intros Hd s. unfold retrace_actions_get, retrace_actions_init.
    rewrite get_spec; [|unfold MAXCOUNT_ACTS_HASH_ENTRIES; lia|done].
    by destruct (list_find _ acts) as [[i x]|].
Qed.

End Registry.
