(* ===== verification/RealCache.v ===== *)
(** * The cache of real implementations

    The table of [src/core/engine.c] from a function's name to its real
    implementation and its prototype: [name_slot_lookup], [slot_proto] and the
    lookups built from them, with the normalisation of Darwin's variant
    symbols. The symbol lookup of the platform is a parameter. One thread at a
    time. *)

From S2P Require Import Prelude Context OpenAddr.
Import Context OpenAddr.

Module RealCache.

(** [strip_darwin_extsn]: the name without the suffix, when the buffer of
    [bufsz] bytes can hold it. *)
Definition darwin_suffix : bytes := lit "$DARWIN_EXTSN".

Definition strip_darwin_extsn (name : bytes) (bufsz : nat) : bytes :=
  let n := length name in
  let slen := length darwin_suffix in
  if n <=? slen then name
  else if negb (streq (drop (n - slen) name) darwin_suffix) then name
  else if bufsz <=? n - slen then name
  else take (n - slen) name.

Definition REAL_CACHE_SLOTS : nat := 2048.

(** A slot; it is empty when its hash is 0. *)
Record real_cache_el := mkEl {
  el_hash : Z;
  el_real : Z;
  el_name : bytes;
  el_proto : option FuncPrototype;
}.

Definition empty_el : real_cache_el := mkEl 0 0 [] None.
Definition empty_cache : list real_cache_el := replicate REAL_CACHE_SLOTS empty_el.

(** 64-bit FNV-1a. *)
Definition real_name_hash (s : bytes) : Z :=
  foldl (λ h c, u64 (Z.lxor h (uchar c) * 1099511628211)) 14695981039346656037%Z s.

Section Cache.
(** [retrace_as_get_real_safe], the members of [retrace_real_impls] (0 before
    they are resolved) and [retrace_func_get]. *)
Variable get_real_safe : bytes → Z.
Variables impl_strcmp impl_free impl_malloc : Z.
Variable func_get : bytes → option FuncPrototype.

Definition retrace_real_impl_resolve (func_name : bytes) : Z :=
  if negb (impl_strcmp =? 0)%Z && negb (impl_free =? 0)%Z && streq func_name (lit "free") then impl_free
  else if negb (impl_strcmp =? 0)%Z && negb (impl_malloc =? 0)%Z && streq func_name (lit "malloc")
  then impl_malloc
  else get_real_safe func_name.

Definition el_at (t : list real_cache_el) (i : nat) : real_cache_el := default empty_el (t !! i).

(** The name as the slot's array keeps it. *)
Definition kept_name (func_name : bytes) : bytes := take (MAXLEN_FUNC_NAME - 1) func_name.

(** The probe loop: the slot, the implementation and the table; [None] when
    it does not end. *)
Fixpoint slot_loop (fuel : nat) (func_name : bytes) (h : Z) (i : nat) (t : list real_cache_el)
  : option (nat * Z * list real_cache_el) :=
  match fuel with
  | O => None
  | S fuel =>
      let el := el_at t i in
      if (el_hash el =? h)%Z && streq (el_name el) func_name then Some (i, el_real el, t)
      else if (el_hash el =? 0)%Z then
        let real := retrace_real_impl_resolve func_name in
        Some (i, real, <[i := mkEl h real (kept_name func_name) None]> t)
      else slot_loop fuel func_name h (next_slot REAL_CACHE_SLOTS i) t
  end.

(** [name_slot_lookup]: no slot before the initialisation. *)
Definition name_slot_lookup (inited : bool) (func_name : bytes) (t : list real_cache_el)
  : option (option nat * Z * list real_cache_el) :=
  if negb inited then Some (None, get_real_safe func_name, t)
  else
    let h := real_name_hash func_name in
    match slot_loop REAL_CACHE_SLOTS func_name h (slot REAL_CACHE_SLOTS h) t with
    | None => None
    | Some (i, real, t) => Some (Some i, real, t)
    end.

Definition slot_proto (el : option nat) (func_name : bytes) (t : list real_cache_el)
  : option FuncPrototype * list real_cache_el :=
  match el with
  | None => (func_get func_name, t)
  | Some i =>
      match el_proto (el_at t i) with
      | Some p => (Some p, t)
      | None =>
          let p := func_get func_name in
          (p, alter (λ e, mkEl (el_hash e) (el_real e) (el_name e) p) i t)
      end
  end.

Definition retrace_name_lookup (inited : bool) (func_name : bytes) (t : list real_cache_el)
  : option (Z * option FuncPrototype * list real_cache_el) :=
  match name_slot_lookup inited func_name t with
  | None => None
  | Some (el, real, t) => let '(p, t) := slot_proto el func_name t in Some (real, p, t)
  end.

(** ** Lemmas *)

(** A name that fits its slot. *)
Definition short (s : bytes) : Prop := length s < MAXLEN_FUNC_NAME - 1.

(** What is in the table was resolved, and by its own name. *)
Definition el_ok (e : real_cache_el) : Prop :=
  el_hash e ≠ 0%Z → short (el_name e) →
  el_hash e = real_name_hash (el_name e) ∧ el_real e = retrace_real_impl_resolve (el_name e) ∧
  (el_proto e = None ∨ el_proto e = func_get (el_name e)).

Definition cache_ok (t : list real_cache_el) : Prop :=
  length t = REAL_CACHE_SLOTS ∧ Forall el_ok t.

Lemma pow2_slots : ∃ k, REAL_CACHE_SLOTS = 2 ^ k.
Proof. exists 11. reflexivity. Qed.

Lemma kept_short s : short (kept_name s) → kept_name s = s ∧ short s.
Proof.
  unfold short, kept_name, MAXLEN_FUNC_NAME. rewrite length_take. intros H.
  assert (length s < 63) by lia. split; [|lia]. by apply take_ge; lia.
Qed.

Lemma kept_of_short s : short s → kept_name s = s.
Proof. unfold short, kept_name. intros H. apply take_ge. lia. Qed.

Lemma el_at_ok t i : cache_ok t → el_ok (el_at t i).
Proof.
  intros [_ H]. unfold el_at. destruct (t !! i) as [e|] eqn:E; [by eapply Forall_lookup_1|].
  by intros ?.
Qed.

Lemma el_at_insert t i j e : i < length t → el_at (<[i := e]> t) j = if decide (i = j) then e else el_at t j.
Proof.
  intros Hi. unfold el_at. case_decide; subst.
  - by rewrite list_lookup_insert_eq.
  - by rewrite list_lookup_insert_ne.
Qed.

Lemma new_el_ok s : el_ok (mkEl (real_name_hash s) (retrace_real_impl_resolve s) (kept_name s) None).
Proof.
  intros _ Hs. destruct (kept_short s Hs) as [E _]. cbn [el_hash el_name el_real el_proto]. rewrite E. auto.
Qed.

(** A name the table can hold. *)
Definition hashable (s : bytes) : Prop := short s ∧ real_name_hash s ≠ 0%Z.

Abbreviation probe s d := (pos REAL_CACHE_SLOTS (slot REAL_CACHE_SLOTS (real_name_hash s)) d).

Definition is_el (s : bytes) (e : real_cache_el) : Prop :=
  el_hash e = real_name_hash s ∧ el_name e = s.

(** [s] is in slot [i], reached on its probe sequence. *)
Definition present (s : bytes) (i : nat) (t : list real_cache_el) : Prop :=
  ∃ d, d < REAL_CACHE_SLOTS ∧ i = probe s d ∧ is_el s (el_at t i) ∧
       ∀ k, k < d → el_hash (el_at t (probe s k)) ≠ 0%Z ∧ ¬ is_el s (el_at t (probe s k)).

Lemma probe_next s d : next_slot REAL_CACHE_SLOTS (probe s d) = probe s (S d).
Proof. apply next_pos, pow2_slots. Qed.

Lemma probe_lt s d : probe s d < REAL_CACHE_SLOTS.
Proof. apply pos_lt, pow2_slots. Qed.

Lemma probe_0 s : probe s 0 = slot REAL_CACHE_SLOTS (real_name_hash s).
Proof. apply pos_0, slot_lt, pow2_slots. Qed.

(** The test of the loop. *)
Lemma is_el_test s e :
  (el_hash e =? real_name_hash s)%Z && streq (el_name e) s = bool_decide (is_el s e).
Proof.
  unfold is_el, streq. destruct (Z.eqb_spec (el_hash e) (real_name_hash s)); cbn [andb].
  - apply bool_decide_ext. tauto.
  - symmetry. apply bool_decide_false. tauto.
Qed.

(** The loop from the [d]th probe on, when the slot of [s] is the [n]th. *)
Lemma slot_loop_hit fuel s t d n :
  d ≤ n → n < d + fuel → is_el s (el_at t (probe s n)) →
  (∀ k, d ≤ k < n → el_hash (el_at t (probe s k)) ≠ 0%Z ∧ ¬ is_el s (el_at t (probe s k))) →
  slot_loop fuel s (real_name_hash s) (probe s d) t = Some (probe s n, el_real (el_at t (probe s n)), t).
Proof.
  revert d. induction fuel as [|fuel IH]; intros d Hd Hn Hi Hb; [lia|]. cbn [slot_loop]. rewrite is_el_test.
  destruct (decide (d = n)) as [-> | Hne]; [by rewrite bool_decide_true|].
  destruct (Hb d) as [Hz Hno]; [lia|]. rewrite bool_decide_false by done.
  rewrite (proj2 (Z.eqb_neq _ _) Hz). rewrite probe_next. apply IH; [lia|lia|done|].
  intros k Hk. apply Hb. lia.
Qed.

(** ... and when the first slot that stops it is the empty [n]th. *)
Lemma slot_loop_new fuel s t d n :
  d ≤ n → n < d + fuel → el_hash (el_at t (probe s n)) = 0%Z → real_name_hash s ≠ 0%Z →
  (∀ k, d ≤ k < n → el_hash (el_at t (probe s k)) ≠ 0%Z ∧ ¬ is_el s (el_at t (probe s k))) →
  slot_loop fuel s (real_name_hash s) (probe s d) t =
  Some (probe s n, retrace_real_impl_resolve s,
        <[probe s n := mkEl (real_name_hash s) (retrace_real_impl_resolve s) (kept_name s) None]> t).
Proof.
  revert d. induction fuel as [|fuel IH]; intros d Hd Hn Hz Hh Hb; [lia|]. cbn [slot_loop]. rewrite is_el_test.
  destruct (decide (d = n)) as [-> | Hne].
  - rewrite bool_decide_false, Hz; [done|]. unfold is_el. rewrite Hz. intros [? _]. congruence.
  - destruct (Hb d) as [Hz' Hno]; [lia|]. rewrite bool_decide_false by done.
    rewrite (proj2 (Z.eqb_neq _ _) Hz'). rewrite probe_next. apply IH; [lia|lia|done|done|].
    intros k Hk. apply Hb. lia.
Qed.

Lemma present_lookup s i t :
  present s i t → name_slot_lookup true s t = Some (Some i, el_real (el_at t i), t).
Proof.
  intros (d & Hd & -> & Hi & Hb). unfold name_slot_lookup. cbn [negb].
  pose proof (slot_loop_hit REAL_CACHE_SLOTS s t 0 d) as H. rewrite probe_0 in H.
  rewrite H; [done|lia|lia|done|]. intros k Hk. apply Hb. lia.
Qed.

(** There is an empty slot. *)
Definition has_room (t : list real_cache_el) : Prop :=
  ∃ i, i < REAL_CACHE_SLOTS ∧ el_hash (el_at t i) = 0%Z.

(** The first slot on the probe sequence that stops the loop. *)
Lemma probe_stop s t :
  has_room t →
  ∃ n, n < REAL_CACHE_SLOTS ∧
    (el_hash (el_at t (probe s n)) = 0%Z ∨ is_el s (el_at t (probe s n))) ∧
    ∀ k, k < n → el_hash (el_at t (probe s k)) ≠ 0%Z ∧ ¬ is_el s (el_at t (probe s k)).
Proof.
  intros (i & Hi & Hz).
  destruct (pos_surj REAL_CACHE_SLOTS _ i (slot_lt _ pow2_slots (real_name_hash s)) Hi) as (d & Hd & <-).
  set (stop n := el_hash (el_at t (probe s n)) = 0%Z ∨ is_el s (el_at t (probe s n))).
  assert (∀ n, Decision (stop n)) as Hdec by (intros; unfold stop, is_el; solve_decision).
  assert (stop d) as Hs by (by left). clear Hz Hi.
  revert Hd Hs. induction (lt_wf d) as [d _ IH]. intros Hd Hs.
  destruct (decide (Exists stop (seq 0 d))) as [He|He].
  - apply Exists_exists in He as (k & Hk & Hks). apply elem_of_seq in Hk as [_ Hk].
    apply (IH k); [exact Hk|exact (Nat.lt_trans _ _ _ Hk Hd)|done].
  - exists d. split_and!; [done|done|]. intros k Hk. split; intros Hx; apply He, Exists_exists;
      exists k; (split; [apply elem_of_seq; lia|unfold stop; auto]).
Qed.

Lemma insert_ok s i t :
  cache_ok t →
  cache_ok (<[i := mkEl (real_name_hash s) (retrace_real_impl_resolve s) (kept_name s) None]> t).
Proof.
  intros [Hl Hf]. split; [by rewrite length_insert|]. apply Forall_insert; [done|apply new_el_ok].
Qed.

(** A lookup of a name that fits ends, gives what the platform resolves, and
    leaves the name in the table. *)
Lemma lookup_ok s t :
  cache_ok t → has_room t → hashable s →
  ∃ i t', name_slot_lookup true s t = Some (Some i, retrace_real_impl_resolve s, t') ∧
          cache_ok t' ∧ present s i t' ∧ el_real (el_at t' i) = retrace_real_impl_resolve s.
Proof.
  intros Hok Hroom [Hs Hh]. destruct (probe_stop s t Hroom) as (n & Hn & [Hz|Hi] & Hb).
  - unfold name_slot_lookup. cbn [negb].
    pose proof (slot_loop_new REAL_CACHE_SLOTS s t 0 n) as H. rewrite probe_0 in H.
    rewrite H; [clear H|lia|lia|done|done|intros k Hk; apply Hb; lia].
    pose proof (probe_lt s n) as Hp. destruct (Hok) as [Hl _].
    eexists _, _. split_and!; [done|by apply insert_ok| |].
    + exists n. split_and!; [done|done| |].
      * rewrite el_at_insert, decide_True by (lia || done). split; [done|]. by apply kept_of_short.
      * intros k Hk. rewrite el_at_insert by lia. destruct (Hb k Hk) as [? ?].
        rewrite decide_False; [done|]. intros E. rewrite <- E in *. done.
    + by rewrite el_at_insert, decide_True by (lia || done).
  - assert (present s (probe s n) t) as Hp by (exists n; split_and!; done).
    destruct (el_at_ok t (probe s n) Hok) as (_ & Hr & _).
    { destruct Hi as [-> _]. done. }
    { destruct Hi as [_ ->]. done. }
    destruct Hi as [_ Hin]. rewrite Hin in Hr.
    exists (probe s n), t. rewrite (present_lookup s _ t Hp), Hr. done.
Qed.

(** The prototype of a name in its slot. *)
Lemma proto_ok s i t :
  cache_ok t → present s i t → hashable s →
  ∃ t', slot_proto (Some i) s t = (func_get s, t') ∧ cache_ok t'.
Proof.
  intros Hok (d & _ & _ & [Hh Hn] & _) [Hs Hz]. cbn. destruct (el_at_ok t i Hok) as (_ & _ & Hp); [congruence|by rewrite Hn|].
  rewrite Hn in Hp. destruct (el_proto (el_at t i)) as [p|] eqn:Ep.
  - exists t. destruct Hp as [? | <-]; [done|]. done.
  - eexists. split; [done|]. destruct Hok as [Hl Hf]. split; [by rewrite length_alter|].
    apply Forall_lookup. intros j e He. unfold el_at in *. destruct (decide (i = j)) as [<- | Hne].
    + rewrite list_lookup_alter_eq in He. destruct (t !! i) as [e0|] eqn:E0; [|done]. cbn in *. simplify_eq.
      pose proof (proj1 (Forall_lookup _ _) Hf i e0 E0) as H0. intros A B. destruct (H0 A B) as (? & ? & _). cbn in *.
      split_and!; [done|done|]. by right.
    + rewrite list_lookup_alter_ne in He by done. by apply (proj1 (Forall_lookup _ _) Hf j).
Qed.

(** What other lookups do to the table. *)
Inductive cache_step : list real_cache_el → list real_cache_el → Prop :=
  | step_lookup s el real t t' :
      name_slot_lookup true s t = Some (el, real, t') → cache_step t t'
  | step_proto el s t : cache_step t (slot_proto el s t).2.

(** A lookup changes the table at most in a slot that was empty. *)
Lemma lookup_changes s el real t t' :
  name_slot_lookup true s t = Some (el, real, t') →
  t' = t ∨ ∃ i e, el_hash (el_at t i) = 0%Z ∧ t' = <[i := e]> t.
Proof.
  unfold name_slot_lookup. cbn [negb].
  assert (∀ fuel h b, slot_loop fuel s h b t = Some (default 0 el, real, t') →
    t' = t ∨ ∃ i e, el_hash (el_at t i) = 0%Z ∧ t' = <[i := e]> t) as H.
  { induction fuel as [|fuel IH]; intros h b; [done|]. cbn [slot_loop].
    destruct (_ && _); [intros [= _ _ <-]; by left|].
    destruct (Z.eqb_spec (el_hash (el_at t b)) 0); [|apply IH].
    intros [= _ _ <-]. right. eauto. }
  destruct (slot_loop _ _ _ _ _) as [[[i r] t1]|] eqn:E; [|done]. intros [= <- <- <-]. by eapply H.
Qed.

Lemma present_step s i t t' :
  present s i t → real_name_hash s ≠ 0%Z → cache_step t t' →
  present s i t' ∧ el_real (el_at t' i) = el_real (el_at t i).
Proof.
  intros Hp Hh Hstep.
  assert (∀ t', (∀ j, el_hash (el_at t j) ≠ 0%Z →
      el_hash (el_at t' j) = el_hash (el_at t j) ∧ el_name (el_at t' j) = el_name (el_at t j) ∧
      el_real (el_at t' j) = el_real (el_at t j)) →
    present s i t' ∧ el_real (el_at t' i) = el_real (el_at t i)) as Hkeep.
  { clear t' Hstep. intros t' Hsame. destruct Hp as (d & Hd & -> & [Hi1 Hi2] & Hb).
    destruct (Hsame (probe s d)) as (H1 & H2 & H3); [congruence|]. split; [|done].
    exists d. split_and!; [done|done|split; congruence|]. intros k Hk. destruct (Hb k Hk) as [Hz Hno].
    destruct (Hsame (probe s k) Hz) as (K1 & K2 & _). unfold is_el in *. rewrite K1, K2. auto. }
  destruct Hstep as [s' el real t t' Hl|el s' t].
  - apply lookup_changes in Hl as [-> | (j & e & Hz & ->)]; apply Hkeep; [done|].
    intros k Hk. unfold el_at in *. destruct (decide (k = j)) as [-> | Hne]; [done|].
    by rewrite list_lookup_insert_ne.
  - apply Hkeep. intros k _. destruct el as [j|]; [|done]. cbn.
    destruct (el_proto (el_at t j)); [done|]. cbn. unfold el_at.
    destruct (decide (k = j)) as [-> | Hne].
    + rewrite list_lookup_alter_eq. by destruct (t !! j).
    + by rewrite list_lookup_alter_ne.
Qed.

(** While the table has room, the lookup of a name that fits
    its slot ends with the implementation the platform resolves, and from
    then on, whatever else is looked up in between, the name is found in the
    same slot and nothing is resolved again. *)
Theorem real_impl_resolved_once s t :
  cache_ok t → has_room t → hashable s →
  ∃ i t', name_slot_lookup true s t = Some (Some i, retrace_real_impl_resolve s, t') ∧ cache_ok t' ∧
  ∀ t'', rtc cache_step t' t'' →
    name_slot_lookup true s t'' = Some (Some i, retrace_real_impl_resolve s, t'').
Proof.
  intros Hok Hroom Hs. destruct (lookup_ok s t Hok Hroom Hs) as (i & t' & E & Hok' & Hp & Hr).
  exists i, t'. split_and!; [done|done|]. intros t'' Hrtc. rewrite <- Hr.
  assert (present s i t'' ∧ el_real (el_at t'' i) = el_real (el_at t' i)) as [Hp' <-].
  { clear -Hrtc Hp Hs. induction Hrtc as [t|t1 t2 t3 Hst _ IH]; [done|].
    destruct (present_step s i t1 t2 Hp (proj2 Hs) Hst) as [Hp2 Hr2].
    destruct (IH Hp2) as [? ?]. split; [done|congruence]. }
  by apply present_lookup.
Qed.
End Cache.

Lemma empty_cache_ok g f1 f2 f3 fg : cache_ok g f1 f2 f3 fg empty_cache ∧ has_room empty_cache.
Proof.
  split.
  - split; [apply length_replicate|]. apply Forall_replicate. by intros ?.
  - exists 0. split; [unfold REAL_CACHE_SLOTS; lia|reflexivity].
Qed.

Lemma real_impl_resolved_once_witness :
  let g := λ s, Z.of_nat (length s) in
  ∃ i t', name_slot_lookup g 1 2 3 true (lit "open") empty_cache =
            Some (Some i, retrace_real_impl_resolve g 1 2 3 (lit "open"), t') ∧
  cache_ok g 1 2 3 (λ _, None) t' ∧
  ∀ t'', rtc (cache_step g 1 2 3 (λ _, None)) t' t'' →
    name_slot_lookup g 1 2 3 true (lit "open") t'' =
    Some (Some i, retrace_real_impl_resolve g 1 2 3 (lit "open"), t'').
Proof.
  apply (real_impl_resolved_once (λ s, Z.of_nat (length s)) 1 2 3 (λ _, None) (lit "open") empty_cache).
  - apply empty_cache_ok.
  - apply (empty_cache_ok (λ _, 0%Z) 0 0 0 (λ _, None)).
  - split; [unfold short, MAXLEN_FUNC_NAME; cbn; lia|vm_compute; congruence].
Defined.

(** A name of 64 characters, which a prototype may have, is never found again:
    its copy in the slot is cut, so every lookup takes one more slot. *)
Theorem long_name_leaks g f1 f2 f3 s t i real t' :
  MAXLEN_FUNC_NAME ≤ length s → name_slot_lookup g f1 f2 f3 true s t = Some (Some i, real, t') →
  Forall (λ e, el_name e ≠ s) t →
  Forall (λ e, el_name e ≠ s) t' ∧ ∃ j e, el_hash (el_at t j) = 0%Z ∧ t' = <[j := e]> t.
Proof.
  intros Hs E Ht. unfold name_slot_lookup in E. cbn [negb] in E.
  destruct (slot_loop _ _ _ _ _ _ _ _ _) as [[[i' r] t1]|] eqn:El; [|done]. injection E as -> -> ->.
  revert El. generalize (slot REAL_CACHE_SLOTS (real_name_hash s)). generalize (real_name_hash s).
  induction REAL_CACHE_SLOTS as [|fuel IH]; intros h b; [done|]. cbn [slot_loop].
  destruct (_ && _) eqn:Eb.
  - exfalso. bool_to_prop. unfold el_at in *. destruct (t !! b) as [e|] eqn:Ee.
    + by apply (Forall_lookup_1 _ _ _ _ Ht Ee).
    + subst s. cbn in Hs. unfold MAXLEN_FUNC_NAME in Hs. lia.
  - destruct (Z.eqb_spec (el_hash (el_at t b)) 0); [|apply IH]. intros [= <- <- <-]. split; [|eauto].
    apply Forall_insert; [done|]. cbn. unfold kept_name, MAXLEN_FUNC_NAME in *. intros Ek.
    apply (f_equal length) in Ek. rewrite length_take in Ek. lia.
Qed.

End RealCache.
