(* ===== verification/CallHash.v ===== *)
(** * The rolling hash of a thread's calls

    [src/core/call_hash.c]: a hash for each thread over the names and argument
    counts of its intercepted calls, kept in a registry that outlives the
    threads, and the exported value of the last update. *)

From S2P Require Import Prelude.

Module CallHash.

Definition FNV_OFFSET : Z := 14695981039346656037.
Definition FNV_PRIME : Z := 1099511628211.

Record ThreadHash := mkHash { hash : Z; observed : bool }.

(** The state: the nodes of the registry, newest first, each with the thread
    whose key points at it, if any. *)
Record hash_state := mkState {
  enabled : bool;
  nodes : list (option nat * ThreadHash);
  retrace_call_hash_last : Z;
}.

(** [retrace_call_hash_init], given the value of the variable and the success
    of the mutex and of the key. *)
Definition retrace_call_hash_init (env : option bytes) (mutex_ok key_ok : bool) (st : hash_state) : Z * hash_state :=
  let on := match env with Some (c :: _) => negb (ceq c "0") | _ => false end in
  if negb mutex_ok || negb key_ok then ((-1)%Z, mkState on (nodes st) (retrace_call_hash_last st))
  else (0%Z, mkState on [] (retrace_call_hash_last st)).

(** The position of the thread's node. *)
Definition node_of (tid : nat) (l : list (option nat * ThreadHash)) : option nat :=
  fst <$> list_find (λ e, e.1 = Some tid) l.

Section Observe.
(** Whether the allocation of a node and the setting of the key succeed. *)
Variables malloc_ok tss_ok : bool.

(** [thread_hash_get]: the position of the thread's node. *)
Definition thread_hash_get (tid : nat) (st : hash_state) : option nat * hash_state :=
  match node_of tid (nodes st) with
  | Some i => (Some i, st)
  | None =>
      if negb malloc_ok then (None, st)
      else
        let new := mkHash FNV_OFFSET false in
        if tss_ok
        then (Some 0, mkState (enabled st) ((Some tid, new) :: nodes st) (retrace_call_hash_last st))
        else (None, mkState (enabled st) ((None, new) :: nodes st) (retrace_call_hash_last st))
  end.

Definition mix (h x : Z) : Z := u64 (Z.lxor h x * FNV_PRIME).

(** The hash after a call. *)
Definition mix_call (h : Z) (func_name : bytes) (arg_count : Z) : Z :=
  mix (foldl (λ h c, mix h (uchar c)) h func_name) (u64 arg_count).

Definition retrace_call_hash_observe (tid : nat) (func_name : option bytes) (arg_count : Z) (st : hash_state)
  : hash_state :=
  match func_name with
  | None => st
  | Some name =>
      if negb (enabled st) then st
      else
        let '(node, st) := thread_hash_get tid st in
        match node with
        | None => st
        | Some i =>
            match nodes st !! i with
            | None => st
            | Some (owner, th) =>
                let h := mix_call (hash th) name arg_count in
                mkState (enabled st) (<[i := (owner, mkHash h true)]> (nodes st)) h
            end
        end
  end.

Definition retrace_call_hash_get (tid : nat) (st : hash_state) : Z * hash_state :=
  let '(node, st) := thread_hash_get tid st in
  match node with
  | None => (0%Z, st)
  | Some i =>
      match nodes st !! i with
      | Some (_, th) => (if observed th then hash th else 0%Z, st)
      | None => (0%Z, st)
      end
  end.
End Observe.

(** The destructor of the key, at the end of a thread: its node stays in the
    registry and is no thread's. *)
Definition hash_key_destructor (tid : nat) (st : hash_state) : hash_state :=
  mkState (enabled st)
    ((λ e : option nat * ThreadHash, (if bool_decide (e.1 = Some tid) then None else e.1, e.2)) <$> nodes st)
    (retrace_call_hash_last st).

(** The hashes the walk reports, in its order. *)
Definition retrace_call_hash_walk (st : hash_state) : list Z :=
  omap (λ e : option nat * ThreadHash, if observed e.2 then Some (hash e.2) else None) (nodes st).

Definition retrace_call_hash_deinit (st : hash_state) : hash_state :=
  mkState (enabled st) [] (retrace_call_hash_last st).

(** ** What the hash is *)

(** The calls of one thread, in order. *)
Abbreviation call := (bytes * Z)%type.
Definition hash_calls (l : list call) : Z := foldl (λ h c, mix_call h c.1 c.2) FNV_OFFSET l.

(** The calls of a trace that a thread made. *)
Definition calls_of (tid : nat) (trace : list (nat * call)) : list call :=
  snd <$> filter (λ e, e.1 = tid) trace.

Definition run (trace : list (nat * call)) (st : hash_state) : hash_state :=
  foldl (λ st e, retrace_call_hash_observe true true e.1 (Some e.2.1) e.2.2 st) st trace.

(** The registry has, for each thread that called, one node with the hash of
    its calls. *)
Definition tracks (trace : list (nat * call)) (st : hash_state) : Prop :=
  enabled st = true ∧
  ∀ tid, match node_of tid (nodes st) with
         | Some i => calls_of tid trace ≠ [] ∧
                     nodes st !! i = Some (Some tid, mkHash (hash_calls (calls_of tid trace)) true)
         | None => calls_of tid trace = []
         end.

Lemma node_of_Some tid l i : node_of tid l = Some i → ∃ th, l !! i = Some (Some tid, th) ∧
  ∀ j e, j < i → l !! j = Some e → e.1 ≠ Some tid.
Proof.
  unfold node_of. destruct (list_find _ l) as [[j [o th]]|] eqn:E; [|done]. intros [= <-].
  apply list_find_Some in E as (H & Ho & Hn). cbn in Ho. subst. exists th. split; [done|].
  intros k e Hk He. by apply (Hn k).
Qed.

Lemma node_of_insert tid l i o th th' :
  l !! i = Some (o, th) → node_of tid (<[i := (o, th')]> l) = node_of tid l.
Proof.
  revert i. induction l as [|x l IH]; intros [|i] H; cbn in H; [done|done|..].
  - injection H as ->. unfold node_of. cbn. by case_decide.
  - unfold node_of in *. cbn. case_decide; [done|]. specialize (IH i H).
    destruct (list_find _ (<[i := _]> l)) as [[? ?]|], (list_find _ l) as [[? ?]|]; cbn in *; congruence.
Qed.

Lemma node_of_cons tid o th l :
  node_of tid ((o, th) :: l) = if decide (o = Some tid) then Some 0 else S <$> node_of tid l.
Proof.
  unfold node_of. cbn. case_decide; [done|]. by destruct (list_find _ l) as [[? ?]|].
Qed.

Lemma calls_of_snoc tid trace e :
  calls_of tid (trace ++ [e]) = calls_of tid trace ++ (if decide (e.1 = tid) then [e.2] else []).
Proof.
  unfold calls_of. rewrite filter_app, fmap_app. f_equal. cbn. by case_decide.
Qed.

Lemma hash_calls_snoc l c : hash_calls (l ++ [c]) = mix_call (hash_calls l) c.1 c.2.
Proof. unfold hash_calls. by rewrite foldl_app. Qed.

Lemma observe_tracks trace st e :
  tracks trace st →
  let st' := retrace_call_hash_observe true true e.1 (Some e.2.1) e.2.2 st in
  tracks (trace ++ [e]) st' ∧ retrace_call_hash_last st' = hash_calls (calls_of e.1 (trace ++ [e])).
Proof.
  intros [Hen Ht]. destruct e as [tid [name argc]]. cbn [fst snd]. unfold retrace_call_hash_observe. rewrite Hen.
  cbn [negb]. unfold thread_hash_get. pose proof (Ht tid) as Htid.
  destruct (node_of tid (nodes st)) as [i|] eqn:En; cbn [negb nodes].
  - destruct Htid as [_ Hi]. rewrite Hi. cbn [nodes enabled retrace_call_hash_last hash]. split.
    + split; [done|]. intros tid'. cbn [nodes]. rewrite (node_of_insert _ _ _ _ _ _ Hi), calls_of_snoc.
      specialize (Ht tid'). cbn [fst snd]. destruct (decide (tid = tid')) as [<- | Hne].
      * rewrite En. split; [by destruct (calls_of tid trace)|].
        rewrite list_lookup_insert_eq by (by eapply lookup_lt_Some). by rewrite hash_calls_snoc.
      * rewrite app_nil_r. destruct (node_of tid' (nodes st)) as [j|] eqn:Ej; [|done].
        destruct Ht as [? Hj]. split; [done|]. rewrite list_lookup_insert_ne; [done|].
        intros ->. rewrite Hi in Hj. congruence.
    + rewrite calls_of_snoc, decide_True by done. by rewrite hash_calls_snoc.
  - cbn [lookup list_lookup]. split.
    + split; [done|]. intros tid'. cbn [nodes enabled]. cbn [list_insert insert]. rewrite calls_of_snoc. cbn [fst snd].
      change (<[0 := ?x]> (_ :: ?l)) with (x :: l). rewrite node_of_cons.
      destruct (decide (tid = tid')) as [<- | Hne].
      * rewrite decide_True by done. split; [by destruct (calls_of tid trace)|]. cbn. by rewrite Htid.
      * rewrite decide_False by congruence. rewrite app_nil_r. specialize (Ht tid').
        by destruct (node_of tid' (nodes st)).
    + cbn. rewrite calls_of_snoc, decide_True by done. cbn. by rewrite Htid.
Qed.

(** Over any interleaving of the calls of any number of
    threads, each thread's hash is the hash of its own calls in their order,
    a thread without calls reports 0, and the exported value is the hash of
    the thread that called last. *)
Theorem call_hash_per_thread trace :
  let st := run trace (mkState true [] 0) in
  (∀ tid, (retrace_call_hash_get true true tid st).1 =
          match calls_of tid trace with [] => 0%Z | l => hash_calls l end) ∧
  (∀ e, last trace = Some e → retrace_call_hash_last st = hash_calls (calls_of e.1 trace)).
Proof.
  assert (∀ trace, let st := run trace (mkState true [] 0) in tracks trace st ∧
    ∀ e, last trace = Some e → retrace_call_hash_last st = hash_calls (calls_of e.1 trace)) as H.
  { intros tr. induction tr as [|e tr IH] using rev_ind; [done|].
    unfold run. rewrite foldl_app. cbn [foldl]. destruct IH as [IH _].
    destruct (observe_tracks tr _ e IH) as [H1 H2]. split; [exact H1|].
    intros e'. rewrite last_snoc. intros [= <-]. exact H2. }
  destruct (H trace) as [[Hen Ht] Hlast]. split; [|exact Hlast]. intros tid. specialize (Ht tid).
  unfold retrace_call_hash_get, thread_hash_get.
  destruct (node_of tid _) as [i|]; cbn [negb].
  - destruct Ht as [Hne Hi]. rewrite Hi. cbn. by destruct (calls_of tid trace).
  - rewrite Ht. done.
Qed.

End CallHash.
