(* ===== verification/PrintfFormat.v ===== *)
(** * printf formats and the data types of their arguments

    [src/core/printf_compat.h], the format parser used where the C library has
    no printf.h, and the mapping from an argument type to a data type of
    [src/core/data_types.c]. *)

From S2P Require Import Prelude.

Module PrintfFormat.

Local Open Scope Z_scope.

(** ** The parser *)

Definition PA_INT : Z := 0.
Definition PA_CHAR : Z := 1.
Definition PA_WCHAR : Z := 2.
Definition PA_STRING : Z := 3.
Definition PA_WSTRING : Z := 4.
Definition PA_POINTER : Z := 5.
Definition PA_FLOAT : Z := 6.
Definition PA_DOUBLE : Z := 7.
Definition PA_LAST : Z := 8.

(** The flags: the values differ between the headers. *)
Record printf_flags := mkFlags {
  PA_FLAG_SHORT : Z;
  PA_FLAG_LONG : Z;
  PA_FLAG_LONG_LONG : Z;
  PA_FLAG_LONG_DOUBLE : Z;
  PA_FLAG_PTR : Z;
  PA_FLAG_MASK : Z;
}.

(** Those of [printf_compat.h]. *)
Definition compat : printf_flags :=
  let short := 4 in let long := 8 in let long_long := 16 in let long_double := 32 in let ptr := 256 in
  mkFlags short long long_long long_double ptr
    (Z.lor (Z.lor (Z.lor (Z.lor ptr long_double) long_long) long) short).

(** Those of glibc's printf.h. *)
Definition glibc : printf_flags := mkFlags 1024 512 256 256 2048 65280.

(** A pointer moved past the characters of a class. *)
Fixpoint skip (f : ascii → bool) (p : bytes) : bytes :=
  match p with
  | [] => []
  | c :: p' => if f c then skip f p' else p
  end.

Definition is_flag (c : ascii) : bool :=
  ceq c "-" || ceq c "+" || ceq c " " || ceq c "#" || ceq c "0" || ceq c "'".
Definition is_num (c : ascii) : bool := (48 <=? uchar c) && (uchar c <=? 57).

(** The width: an asterisk takes an int argument. *)
Definition scan_width (p : bytes) : list Z * bytes :=
  if ceq (deref p) "*" then ([PA_INT], tail p) else ([], skip is_num p).

Definition scan_precision (p : bytes) : list Z * bytes :=
  if ceq (deref p) "." then scan_width (tail p) else ([], p).

Section Flags.
Variable fl : printf_flags.

Definition scan_length (p : bytes) : Z * bytes :=
  if ceq (char_at p 0) "h" && ceq (char_at p 1) "h" then (PA_FLAG_SHORT fl, drop 2 p)
  else if ceq (char_at p 0) "l" && ceq (char_at p 1) "l" then (PA_FLAG_LONG_LONG fl, drop 2 p)
  else if ceq (deref p) "h" then (PA_FLAG_SHORT fl, tail p)
  else if ceq (deref p) "l" then (PA_FLAG_LONG fl, tail p)
  else if ceq (deref p) "L" then (PA_FLAG_LONG_DOUBLE fl, tail p)
  else if ceq (deref p) "j" || ceq (deref p) "z" || ceq (deref p) "t" || ceq (deref p) "q"
  then (PA_FLAG_LONG_LONG fl, tail p)
  else (0, p).

(** The conversions that take a floating-point argument. *)
Definition is_fp (c : ascii) : bool :=
  ceq c "f" || ceq c "F" || ceq c "e" || ceq c "E" || ceq c "g" || ceq c "G" || ceq c "a" || ceq c "A".

(** The conversion of a specifier other than those: its base type. *)
Definition base_of (c : ascii) : Z :=
  if ceq c "c" then PA_CHAR
  else if ceq c "C" then PA_WCHAR
  else if ceq c "s" then PA_STRING
  else if ceq c "S" then PA_WSTRING
  else if ceq c "p" then PA_POINTER
  else if ceq c "n" then Z.lor PA_POINTER (PA_FLAG_PTR fl)
  else PA_INT.

(** How the loop ended: at the end of the format, or at a directive the end
    cuts. *)
Inductive ending := Whole (has_fp : bool) | Malformed.

(** The loop: the argument types, and the ending. A floating-point conversion
    leaves the pointer at its letter. *)
Fixpoint parse_loop (fuel : nat) (p : bytes) (has_fp : bool) : option (list Z * ending) :=
  match fuel with
  | O => None
  | S fuel =>
      match p with
      | [] => Some ([], Whole has_fp)
      | c :: p =>
          if negb (ceq c "%") then parse_loop fuel p has_fp
          else if ceq (deref p) "%" then parse_loop fuel (tail p) has_fp
          else
            let p := skip is_flag p in
            let '(w, p) := scan_width p in
            let '(q, p) := scan_precision p in
            let '(flag, p) := scan_length p in
            match p with
            | [] => Some (w ++ q, Malformed)
            | c :: p' =>
                let '(base, fp, p) :=
                  if is_fp c then (PA_DOUBLE, true, p) else (base_of c, has_fp, p') in
                match parse_loop fuel p fp with
                | None => None
                | Some (ts, e) => Some (w ++ q ++ Z.lor base flag :: ts, e)
                end
            end
      end
  end.

(** [parse_printf_format]: the result, and what it stores in an array of [n]
    elements. *)
Definition parse_printf_format (fmt : bytes) (n : nat) : option (nat * list Z) :=
  match parse_loop (S (length fmt)) fmt false with
  | None => None
  | Some (ts, Whole true) => Some (0%nat, take n ts)
  | Some (ts, _) => Some (length ts, take n ts)
  end.

(** ** Data types *)

(** [enum PrintfFmtBasicTypes] and [enum PrintfFmtMods]. *)
Inductive PrintfFmtBasicTypes :=
  PBT_UNK | PBT_INT | PBT_CHAR | PBT_STRING | PBT_POINTER | PBT_FLOAT | PBT_DOUBLE.
Inductive PrintfFmtMods := PFM_UNK | PFM_PTR | PFM_SHORT | PFM_LONG | PFM_LONG_LONG.

#[export] Instance pbt_eq_dec : EqDecision PrintfFmtBasicTypes.
Proof. solve_decision. Defined.
#[export] Instance pfm_eq_dec : EqDecision PrintfFmtMods.
Proof. solve_decision. Defined.

Definition gnu_fmt_to_pbt : list PrintfFmtBasicTypes :=
  [PBT_INT; PBT_CHAR; PBT_UNK; PBT_POINTER; PBT_UNK; PBT_POINTER; PBT_UNK; PBT_UNK].

Definition gnu_modflag_to_pfm (pa_flag : Z) : PrintfFmtMods :=
  if (pa_flag =? PA_FLAG_LONG_LONG fl) || (pa_flag =? PA_FLAG_LONG_DOUBLE fl) then PFM_LONG_LONG
  else if pa_flag =? PA_FLAG_LONG fl then PFM_LONG
  else if pa_flag =? PA_FLAG_SHORT fl then PFM_SHORT
  else if pa_flag =? PA_FLAG_PTR fl then PFM_PTR
  else PFM_UNK.

(** A data type, as far as the mapping reads it. *)
Record DataType := mkDataType {
  dt_name : bytes;
  pa_basic_type : PrintfFmtBasicTypes;
  pa_flag : PrintfFmtMods;
}.

Definition unk_dt : DataType := mkDataType (lit "unknown_type") PBT_UNK PFM_UNK.

(** [gnu_fmt_to_dt], filled from the registered types by
    [retrace_datatypes_init]. *)
Definition gnu_fmt_to_dt (registered : list DataType) (b : PrintfFmtBasicTypes) (f : PrintfFmtMods)
  : option DataType :=
  if decide (b = PBT_UNK) then None
  else snd <$> list_find (λ d, pa_basic_type d = b ∧ pa_flag d = f) registered.

(** [retrace_datatype_printf_to_dt]; [None] for the read past the table, one
    element after its end. *)
Definition retrace_datatype_printf_to_dt (registered : list DataType) (argtype : Z) : option DataType :=
  let basic_type := Z.land argtype (Z.lnot (PA_FLAG_MASK fl)) in
  let flag_mod := Z.land argtype (PA_FLAG_MASK fl) in
  if PA_LAST <? basic_type then Some unk_dt
  else
    match gnu_fmt_to_pbt !! Z.to_nat basic_type with
    | None => None
    | Some b => Some (default unk_dt (gnu_fmt_to_dt registered b (gnu_modflag_to_pfm flag_mod)))
    end.
End Flags.

(** The types of [src/core/datatypes/basic.c], in order. *)
Definition basic_types : list DataType :=
  [ mkDataType (lit "int") PBT_INT PFM_UNK; mkDataType (lit "unsigned int") PBT_UNK PFM_UNK;
    mkDataType (lit "int16_t") PBT_INT PFM_SHORT; mkDataType (lit "long") PBT_INT PFM_LONG;
    mkDataType (lit "unsigned long") PBT_UNK PFM_UNK; mkDataType (lit "long long") PBT_INT PFM_LONG_LONG;
    mkDataType (lit "sz") PBT_UNK PFM_UNK; mkDataType (lit "size_t") PBT_UNK PFM_UNK;
    mkDataType (lit "char") PBT_CHAR PFM_UNK; mkDataType (lit "ptr") PBT_POINTER PFM_UNK;
    mkDataType (lit "intptr_t") PBT_UNK PFM_UNK ].

(** ** Formats as they are written *)

Inductive count := Star | Number (ds : bytes).
Inductive len := NoLen | HH | LL | H | L | LD | J | Zl | Tl | Ql.

Record directive := mkDirective {
  d_flags : bytes;
  d_width : count;
  d_prec : option count;
  d_len : len;
  d_conv : ascii;
}.

Inductive item := Text (s : bytes) | Percent | Directive (d : directive).

Definition print_count (c : count) : bytes := match c with Star => lit "*" | Number ds => ds end.
Definition print_len (l : len) : bytes :=
  match l with
  | NoLen => [] | HH => lit "hh" | LL => lit "ll" | H => lit "h" | L => lit "l" | LD => lit "L"
  | J => lit "j" | Zl => lit "z" | Tl => lit "t" | Ql => lit "q"
  end.
Definition print_directive (d : directive) : bytes :=
  d_flags d ++ print_count (d_width d) ++
  match d_prec d with None => [] | Some c => "."%char :: print_count c end ++
  print_len (d_len d) ++ [d_conv d].
Definition print_item (i : item) : bytes :=
  match i with
  | Text s => s
  | Percent => lit "%%"
  | Directive d => "%"%char :: print_directive d
  end.
Definition print_items (l : list item) : bytes := concat (print_item <$> l).

Definition conversions : bytes := lit "diuxXocCsSpnfFeEgGaA".
Definition numeral (c : count) : bool :=
  match c with Star => true | Number ds => forallb is_num ds end.
Definition wf_directive (d : directive) : bool :=
  forallb is_flag (d_flags d) && numeral (d_width d) &&
  match d_width d with Number (c :: _) => negb (ceq c "0") | _ => true end &&
  match d_prec d with None => true | Some c => numeral c end &&
  bool_decide (d_conv d ∈ conversions).
Definition wf_item (i : item) : bool :=
  match i with
  | Text s => forallb (λ c, negb (ceq c "%")) s
  | Percent => true
  | Directive d => wf_directive d
  end.

Definition count_types (c : count) : list Z := match c with Star => [PA_INT] | Number _ => [] end.
Definition len_flag (fl : printf_flags) (l : len) : Z :=
  match l with
  | NoLen => 0
  | HH | H => PA_FLAG_SHORT fl
  | L => PA_FLAG_LONG fl
  | LD => PA_FLAG_LONG_DOUBLE fl
  | LL | J | Zl | Tl | Ql => PA_FLAG_LONG_LONG fl
  end.
Definition directive_types (fl : printf_flags) (d : directive) : list Z :=
  count_types (d_width d) ++ from_option count_types [] (d_prec d) ++
  [Z.lor (if is_fp (d_conv d) then PA_DOUBLE else base_of fl (d_conv d)) (len_flag fl (d_len d))].
Definition item_types (fl : printf_flags) (i : item) : list Z :=
  match i with Directive d => directive_types fl d | _ => [] end.
Definition item_fp (i : item) : bool :=
  match i with Directive d => is_fp (d_conv d) | _ => false end.

(** ** Lemmas *)

Lemma skip_stop f a p : forallb f a = true → f (deref p) = false ∨ p = [] → skip f (a ++ p) = p.
Proof.
  induction a as [|c a IH]; cbn.
  - intros _ [H | ->]; [|done]. destruct p as [|c p]; [done|]. cbn in *. by rewrite H.
  - intros [H1 H2]%andb_prop Hp. rewrite H1. auto.
Qed.

Lemma skip_digits_length f p : (length (skip f p) ≤ length p)%nat.
Proof. induction p as [|c p IH]; cbn; [lia|]. destruct (f c); cbn; lia. Qed.

Lemma scan_width_length p : (length (scan_width p).2 ≤ length p)%nat.
Proof.
  unfold scan_width. destruct (ceq _ _); cbn; [destruct p; cbn; lia|apply skip_digits_length].
Qed.

Lemma scan_precision_length p : (length (scan_precision p).2 ≤ length p)%nat.
Proof.
  unfold scan_precision. destruct (ceq _ _); cbn; [|lia].
  pose proof (scan_width_length (tail p)). destruct p; cbn in *; lia.
Qed.

Lemma scan_length_length fl p : (length (scan_length fl p).2 ≤ length p)%nat.
Proof.
  unfold scan_length. repeat case_match; cbn; rewrite ?length_drop; try (destruct p; cbn); lia.
Qed.

(** Enough fuel: the loop consumes a character each time. *)
Lemma parse_loop_total fl fuel p fp : (length p < fuel)%nat → ∃ r, parse_loop fl fuel p fp = Some r.
Proof.
  revert p fp. induction fuel as [|fuel IH]; intros p fp Hf; [lia|]. cbn.
  destruct p as [|c p]; [eauto|]. cbn in Hf. destruct (negb _); [apply IH; lia|].
  destruct (ceq (deref p) "%"); [apply IH; destruct p; cbn in *; lia|].
  pose proof (skip_digits_length is_flag p). destruct (scan_width _) as [w p1] eqn:E1.
  pose proof (scan_width_length (skip is_flag p)) as H1. rewrite E1 in H1.
  destruct (scan_precision p1) as [q p2] eqn:E2. pose proof (scan_precision_length p1) as H2. rewrite E2 in H2.
  destruct (scan_length fl p2) as [g p3] eqn:E3. pose proof (scan_length_length fl p2) as H3. rewrite E3 in H3.
  cbn in *. destruct p3 as [|d p3]; [eauto|]. cbn in *. destruct (is_fp d).
  - destruct (IH (d :: p3) true) as [[ts e] ->]; cbn; [lia|eauto].
  - destruct (IH p3 fp) as [[ts e] ->]; cbn; [lia|eauto].
Qed.

(** More fuel gives the same result. *)
Lemma parse_loop_mono fl f1 f2 p fp r :
  parse_loop fl f1 p fp = Some r → (f1 ≤ f2)%nat → parse_loop fl f2 p fp = Some r.
Proof.
  revert f2 p fp r. induction f1 as [|f1 IH]; intros [|f2] p fp r H Hle; [done|done|lia|].
  cbn in *. destruct p as [|c p]; [done|]. destruct (negb _); [eapply IH; [done|lia]|].
  destruct (ceq (deref p) "%"); [eapply IH; [done|lia]|].
  destruct (scan_width _) as [w p1], (scan_precision p1) as [q p2], (scan_length fl p2) as [g p3].
  destruct p3 as [|d p3]; [done|]. destruct (is_fp d).
  - destruct (parse_loop fl f1 (d :: p3) true) as [r'|] eqn:E; [|done]. by rewrite (IH f2 _ _ _ E) by lia.
  - destruct (parse_loop fl f1 p3 fp) as [r'|] eqn:E; [|done]. by rewrite (IH f2 _ _ _ E) by lia.
Qed.

Definition parses (fl : printf_flags) (p : bytes) (fp : bool) (r : list Z * ending) : Prop :=
  ∃ fuel, parse_loop fl fuel p fp = Some r.

(** What may follow the width. *)
Definition follows : bytes := lit ".hlLjztq" ++ conversions.

Lemma follows_plain c : c ∈ follows → is_num c = false ∧ is_flag c = false ∧ c ≠ "*"%char ∧ c ≠ "%"%char.
Proof.
  intros H. pattern c. revert c H. apply Forall_forall.
  apply (bool_decide_eq_true_1 _). vm_compute. reflexivity.
Qed.

Lemma conv_plain c :
  c ∈ conversions → c ∈ follows ∧ c ∉ lit "hlLjztq" ∧ c ≠ "."%char ∧ c ≠ "%"%char.
Proof.
  intros H. pattern c. revert c H. apply Forall_forall.
  apply (bool_decide_eq_true_1 _). vm_compute. reflexivity.
Qed.

Lemma num_not_flag c : is_num c = true → c ≠ "0"%char → is_flag c = false ∧ c ≠ "%"%char ∧ c ≠ "*"%char.
Proof.
  unfold is_num, is_flag. intros H Hz. assert (c ≠ "-" ∧ c ≠ "+" ∧ c ≠ " " ∧ c ≠ "#" ∧ c ≠ "'" ∧ c ≠ "%" ∧ c ≠ "*")%char.
  { split_and!; intros ->; by vm_compute in H. }
  split_and!; [|tauto..]. rewrite !orb_false_iff, !ceq_false. tauto.
Qed.

Lemma scan_width_print w c p :
  numeral w = true → c ∈ follows → scan_width (print_count w ++ c :: p) = (count_types w, c :: p).
Proof.
  intros Hw (Hn & _ & Hs & _)%follows_plain. destruct w as [|ds]; [done|]. cbn [print_count count_types].
  unfold scan_width. cbn in Hw. destruct ds as [|d ds].
  - change (deref ([] ++ c :: p)) with c. rewrite (proj2 (ceq_false _ _) Hs). cbn. by rewrite Hn.
  - assert (ceq (deref ((d :: ds) ++ c :: p)) "*" = false) as ->.
    { apply ceq_false. cbn. intros ->. by vm_compute in Hw. }
    f_equal. apply skip_stop; [done|]. by left.
Qed.

Lemma scan_precision_print q c p :
  from_option numeral true q = true → c ∈ follows → c ≠ "."%char →
  scan_precision (match q with None => [] | Some w => "."%char :: print_count w end ++ c :: p) =
  (from_option count_types [] q, c :: p).
Proof.
  intros Hq Hc Hd. unfold scan_precision. destruct q as [w|]; cbn [app].
  - exact (scan_width_print w c p Hq Hc).
  - change (deref (c :: p)) with c. by rewrite (proj2 (ceq_false _ _) Hd).
Qed.

Lemma scan_length_print fl l c p :
  c ∈ conversions → scan_length fl (print_len l ++ c :: p) = (len_flag fl l, c :: p).
Proof.
  intros (_ & Hc & _)%conv_plain. change (lit "hlLjztq") with ["h"; "l"; "L"; "j"; "z"; "t"; "q"]%char in Hc.
  rewrite !not_elem_of_cons in Hc. destruct Hc as (? & ? & ? & ? & ? & ? & ? & _).
  assert (∀ d, c ≠ d → ceq c d = false) as Hf by (intros d; apply ceq_false).
  unfold scan_length, char_at, deref. destruct l; cbn [print_len lit list_ascii_of_string app lookup list_lookup default
    from_option head tail drop len_flag andb ceq]; rewrite ?Hf by done; try reflexivity.
Qed.

(** The characters between the width and the conversion. *)
Lemma rest_head q l c p : c ∈ conversions →
  ∃ d p', match q with None => [] | Some w => "."%char :: print_count w end ++ print_len l ++ c :: p = d :: p' ∧
          d ∈ follows.
Proof.
  intros (Hc & _)%conv_plain. destruct q as [w|]; [|destruct l]; cbn; do 2 eexists; split; try reflexivity; try exact Hc;
    apply (bool_decide_eq_true_1 _); vm_compute; reflexivity.
Qed.

(** The character after the flags is neither a flag nor a percent sign. *)
Lemma count_head w d p :
  numeral w = true → match w with Number (c :: _) => negb (ceq c "0") | _ => true end = true → d ∈ follows →
  is_flag (deref (print_count w ++ d :: p)) = false ∧ deref (print_count w ++ d :: p) ≠ "%"%char.
Proof.
  intros Hw Hz (_ & Hf & _ & Hp)%follows_plain. destruct w as [|[|c ds]]; [by vm_compute|done|].
  cbn in Hw. apply andb_prop in Hw as [Hc _]. apply negb_true_iff, ceq_false in Hz.
  destruct (num_not_flag c Hc Hz) as (? & ? & _). done.
Qed.

Lemma flag_not_percent c : is_flag c = true → c ≠ "%"%char.
Proof. intros H ->. by vm_compute in H. Qed.

(** One directive of the loop. *)
Lemma parse_directive fl d rest fp r :
  wf_directive d = true →
  parses fl rest (fp || is_fp (d_conv d)) r →
  parses fl ("%"%char :: print_directive d ++ rest) fp (directive_types fl d ++ r.1, r.2).
Proof.
  destruct d as [fs w q l c]. unfold wf_directive, print_directive, directive_types.
  cbn [d_flags d_width d_prec d_len d_conv]. intros Hwf [fuel Hr].
  apply andb_prop in Hwf as [Hwf Hc%bool_decide_eq_true]. apply andb_prop in Hwf as [Hwf Hq].
  apply andb_prop in Hwf as [Hwf Hz]. apply andb_prop in Hwf as [Hfs Hw].
  destruct (conv_plain c Hc) as (Hfol & _ & Hdot & Hpc).
  rewrite <- !app_assoc. cbn [app].
  destruct (rest_head q l c rest Hc) as (d & p' & Hd & Hdf).
  destruct (count_head w d p' Hw Hz Hdf) as [Hnf Hnp].
  exists (S (S fuel)). cbn [parse_loop]. rewrite ceq_refl. cbn [negb]. rewrite Hd.
  assert (ceq (deref (fs ++ print_count w ++ d :: p')) "%" = false) as ->.
  { apply ceq_false. destruct fs as [|f fs]; [exact Hnp|]. cbn in Hfs |- *.
    apply andb_prop in Hfs as [Hf _]. by apply flag_not_percent. }
  rewrite (skip_stop is_flag fs _ Hfs) by (by left). rewrite (scan_width_print w d p' Hw Hdf). rewrite <- Hd.
  assert (∃ e p'', print_len l ++ c :: rest = e :: p'' ∧ e ∈ follows ∧ e ≠ "."%char) as (e & p'' & He & Hef & Hed).
  { destruct l; cbn; do 2 eexists; split; try reflexivity; split; try done;
      apply (bool_decide_eq_true_1 _); vm_compute; reflexivity. }
  rewrite He, (scan_precision_print q e p'') by (done || by destruct q). rewrite <- He, (scan_length_print fl l c rest Hc).
  destruct (is_fp c); destruct r as [ts en].
  - rewrite orb_true_r in Hr. cbn [parse_loop]. rewrite (proj2 (ceq_false _ _) Hpc). cbn [negb]. rewrite Hr.
    done.
  - rewrite orb_false_r in Hr. pose proof (parse_loop_mono fl fuel (S fuel) rest fp _ Hr ltac:(lia)) as Hr'.
    cbn [parse_loop] in Hr'. by rewrite Hr'.
Qed.

Lemma parse_text fl s rest fp r :
  forallb (λ c, negb (ceq c "%")) s = true → parses fl rest fp r → parses fl (s ++ rest) fp r.
Proof.
  intros Hs [fuel Hr]. exists (length s + fuel)%nat. revert Hs. induction s as [|c s IH]; cbn; [done|].
  intros [-> H]%andb_prop. auto.
Qed.

Lemma parse_items fl l fp :
  forallb wf_item l = true →
  parses fl (print_items l) fp (concat (item_types fl <$> l), Whole (fp || existsb item_fp l)).
Proof.
  revert fp. induction l as [|i l IH]; intros fp; cbn [forallb].
  - exists 1%nat. cbn. by rewrite orb_false_r.
  - intros [Hi Hl]%andb_prop. unfold print_items. cbn [fmap list_fmap concat existsb].
    fold (print_items l). destruct i as [s| |d]; cbn [print_item item_types item_fp app orb].
    + by apply parse_text; [|apply IH].
    + destruct (IH fp Hl) as [fuel H]. exists (S fuel). exact H.
    + rewrite orb_assoc. exact (parse_directive fl d (print_items l) fp _ Hi (IH _ Hl)).
Qed.

(** The result of the function is that of any number of iterations. *)
Lemma parses_format fl fmt n r : parses fl fmt false r →
  parse_printf_format fl fmt n =
  Some (match r.2 with Whole true => 0%nat | _ => length r.1 end, take n r.1).
Proof.
  intros [fuel H]. unfold parse_printf_format.
  destruct (parse_loop_total fl (S (length fmt)) fmt false) as [r' H']; [lia|].
  assert (r' = r) as ->.
  { pose proof (parse_loop_mono _ _ (fuel + S (length fmt)) _ _ _ H ltac:(lia)) as E1.
    pose proof (parse_loop_mono _ _ (fuel + S (length fmt)) _ _ _ H' ltac:(lia)) as E2. congruence. }
  rewrite H'. by destruct r as [ts [[]|]].
Qed.

(** The two calls of the protocol on a format: the parser
    returns on every format; on the text of directives with any flags, width,
    precision, length modifier and conversion, with other text between them,
    the first call gives the number of their arguments, asterisks included,
    and the second stores their types in order; with a floating-point
    conversion the count is 0. *)
Theorem printf_format_types fl l :
  (∀ fmt n, ∃ r, parse_printf_format fl fmt n = Some r) ∧
  (forallb wf_item l = true →
   let ts := concat (item_types fl <$> l) in
   let cnt := if existsb item_fp l then 0%nat else length ts in
   fst <$> parse_printf_format fl (print_items l) 0 = Some cnt ∧
   (cnt ≠ 0%nat → parse_printf_format fl (print_items l) cnt = Some (cnt, ts))).
Proof.
  split.
  - intros fmt n. destruct (parse_loop_total fl (S (length fmt)) fmt false) as [r H]; [lia|].
    eexists. apply parses_format. by exists (S (length fmt)).
  - intros Hwf. pose proof (parse_items fl l false Hwf) as H. cbn [orb] in H.
    rewrite (parses_format _ _ _ _ H). cbn [fst snd fmap option_fmap option_map].
    destruct (existsb item_fp l); (split; [done|]); intros Hn; [congruence|].
    rewrite (parses_format _ _ _ _ H). cbn [fst snd]. by rewrite take_ge.
Qed.

(** What [%-*.3ld: %p] is parsed as. *)
Definition demo_items : list item :=
  [Directive (mkDirective (lit "-") Star (Some (Number (lit "3"))) L "d"); Text (lit ": ");
   Directive (mkDirective [] (Number []) None NoLen "p")].

Lemma printf_format_types_witness :
  parse_printf_format glibc (print_items demo_items) 3 = Some (3%nat, [PA_INT; 512; PA_POINTER]).
Proof. exact (proj2 (proj2 (printf_format_types glibc demo_items) eq_refl) ltac:(discriminate)). Defined.

(** With the flags of [printf_compat.h], which share bits with the base
    types, the argument of a [%p] loses its data type: with glibc's it is a
    pointer. *)
Theorem compat_pointer_lost :
  retrace_datatype_printf_to_dt compat basic_types PA_POINTER = Some unk_dt ∧
  dt_name <$> retrace_datatype_printf_to_dt glibc basic_types PA_POINTER = Some (lit "ptr").
Proof. by vm_compute. Qed.

(** An argument type one past the last is read past the end of the table. *)
Theorem printf_to_dt_overread : retrace_datatype_printf_to_dt glibc basic_types PA_LAST = None.
Proof. by vm_compute. Qed.

End PrintfFormat.
