(* ===== verification/Lanes.v ===== *)
(** * Call frames and the tables of operations on them

    An intercepted call is a frame the engine decides on: whether the real
    implementation runs after the engine returns, and what is returned when it
    does not. The frames of two lanes are modelled: the x86-64 trampoline
    ([src/backends/preload_elf/x86_64/arch_spec_bottom.c], with
    [src/core/as_call_real.c]) and the traced system call
    ([src/backends/ptrace/as_ptrace.c]). [Lanes] is the interface the
    dispatcher of [src/backends/as_ops.c] and the engine are verified against,
    [LaneLaws] what they rely on, and the last part shows that the two lanes
    provide it. *)

From stdpp Require Import gmap.
From S2P Require Import Prelude Numerals Context PrintfFormat.
Import Numerals Context PrintfFormat.

Module Lanes.

Local Open Scope Z_scope.

(** ** The interface *)

(** [struct retrace_as_ops]: the operations of a table ([None] for
    [retrace_as_ops_default]) on the frame at an address; an operation that
    reads the context's [ret_errno] takes it. A setup that gives [None] is
    undefined; otherwise it gives its result and the parameters. *)
Class Lanes (W : Type) := {
  op_sched_real : option nat → Z → Z → W → W;
  op_cancel_sched_real : option nat → Z → W → W;
  op_set_ret_val : option nat → Z → Z → Z → W → W;
  op_setup_params : option nat → Z → FuncPrototype → nat → W → option (bool * list FuncParam);
  op_call_real : option nat → Z → Z → list FuncParam → W → Z * W;
  (** The frame at the address is one of the table's. *)
  fits : option nat → Z → W → Prop;
  (** The real implementation runs when the engine returns. *)
  runs_real : Z → W → bool;
  (** What the caller gets when it does not. *)
  answer : Z → W → Z;
}.

(** An operation on a frame leaves the others alone. *)
Definition only {W} `{Lanes W} (f : Z) (w w' : W) : Prop :=
  (∀ o g, fits o g w' ↔ fits o g w) ∧
  (∀ g, g ≠ f → runs_real g w' = runs_real g w ∧ answer g w' = answer g w).

Class LaneLaws (W : Type) `{Lanes W} := {
  sched_only o f r w : only f w (op_sched_real o f r w);
  cancel_only o f w : only f w (op_cancel_sched_real o f w);
  set_ret_only o f v e w : only f w (op_set_ret_val o f v e w);
  sched_runs o f r w : fits o f w → runs_real f (op_sched_real o f r w) = true;
  cancel_runs o f w : fits o f w → runs_real f (op_cancel_sched_real o f w) = false;
  set_ret_runs o f v e w : fits o f w → runs_real f (op_set_ret_val o f v e w) = runs_real f w;
  set_ret_answer o f v e w :
    fits o f w → runs_real f w = false → o = None ∨ v ≠ -1 → answer f (op_set_ret_val o f v e w) = v;
}.

(** ** The frames *)

(** [struct WrapperSystemVFrame]; the saved floating-point registers are
    written and read by the trampoline only. *)
Record WrapperSystemVFrame := mkWrapper {
  call_real_flag : Z;
  wf_real_impl : Z;
  wf_ret_val : Z;
  real_r9 : Z; real_r8 : Z; real_rcx : Z; real_rdx : Z; real_rsi : Z; real_rdi : Z; real_rsp : Z;
}.

Definition RETRACE_PTRACE_MAX_ARGS : nat := 6.

(** [struct retrace_ptrace_frame], the members the operations use. *)
Record retrace_ptrace_frame := mkPtrace {
  tracee_pid : Z;
  arg_in : list Z;
  skip_real : bool;
  forced_retval : Z;
  exit_override : bool;
  exit_retval : Z;
}.

Inductive frame := Wrapper (f : WrapperSystemVFrame) | Traced (f : retrace_ptrace_frame).

(** The first [params_cnt] elements of the prototype's array: those its
    initialiser leaves out are zero. *)
Definition zero_meta : ParamMeta := mkMeta [] [] CDM_NOMOD PDIR_IN [] [].
Definition proto_params (p : FuncPrototype) : list ParamMeta :=
  take (fp_params_cnt p) (fp_params p ++ replicate (fp_params_cnt p) zero_meta).

(** What the operations call: the types [parse_printf_format] gives for the
    format at an address, the header's flags and the registered data types,
    the success of malloc, the string allocator, the reads of the tracee, the
    errno of the thread, and the functions called. *)
Section Frames.
Variable printf_types : Z → list Z.
Variable fl : printf_flags.
Variable registered : list DataType.
Variable malloc_ok : bool.
Variable new_sz : bytes → Z.
Variable tracee_read : Z → Z → nat → bytes.
Variable errno : Z.
Variable call : Z → list Z → Z.

(** *** Real calls: as_call_real.c *)

Definition retrace_as_call_real_dispatch (real_impl : Z) (params : list FuncParam) : Z :=
  if negb malloc_ok && (0 <? length params)%nat then -1
  else
    let vals := val <$> params in
    if (length params <=? 12)%nat then call real_impl vals else -1.

Definition retrace_as_call_real_variadic (real_impl : Z) (params : list FuncParam) (named_count : nat) : Z :=
  let named := if (length params <? named_count)%nat then length params else named_count in
  if negb malloc_ok && (0 <? length params)%nat then -1
  else
    let vals := val <$> params in
    match named with
    | 1%nat => if (1 <=? length params)%nat && (length params <=? 6)%nat then call real_impl vals else -1
    | 2%nat => if (2 <=? length params)%nat && (length params <=? 6)%nat then call real_impl vals else -1
    | _ => -1
    end.

(** *** The trampoline *)

Definition trampoline_sched_real (real : Z) (f : WrapperSystemVFrame) : WrapperSystemVFrame :=
  mkWrapper 1 real (wf_ret_val f) (real_r9 f) (real_r8 f) (real_rcx f) (real_rdx f) (real_rsi f) (real_rdi f)
    (real_rsp f).

Definition trampoline_cancel_sched_real (f : WrapperSystemVFrame) : WrapperSystemVFrame :=
  mkWrapper 0 (wf_real_impl f) (wf_ret_val f) (real_r9 f) (real_r8 f) (real_rcx f) (real_rdx f) (real_rsi f)
    (real_rdi f) (real_rsp f).

Definition trampoline_set_ret_val (v : Z) (f : WrapperSystemVFrame) : WrapperSystemVFrame :=
  mkWrapper (call_real_flag f) (wf_real_impl f) v (real_r9 f) (real_r8 f) (real_rcx f) (real_rdx f) (real_rsi f)
    (real_rdi f) (real_rsp f).

(** The value of parameter [idx]: a register, or for the seventh on an
    address computed from the stack pointer. *)
Definition param_value (f : WrapperSystemVFrame) (params_on_stack : Z) (idx : nat) : Z :=
  match idx with
  | 0 => real_rdi f | 1 => real_rsi f | 2 => real_rdx f | 3 => real_rcx f | 4 => real_r8 f | 5 => real_r9 f
  | _ => i64 (u64 (real_rsp f + u64 (8 * (params_on_stack - Z.of_nat idx))))
  end%nat.

Definition is_fp_type (t : Z) : bool :=
  let basic := Z.land t (Z.lnot (PA_FLAG_MASK fl)) in
  (basic =? PA_FLOAT) || (basic =? PA_DOUBLE).

(** The name of a variable argument: ["vararg%02d"]. *)
Definition vararg_name (i : nat) : bytes :=
  lit "vararg" ++ (if (i <? 10)%nat then lit "0" else []) ++ fmt_u (Z.of_nat i).

(** The parameter for variable argument [i] of type [t]. *)
Definition vararg (f : WrapperSystemVFrame) (cnt : nat) (i : nat) (t : Z) : option FuncParam :=
  match retrace_datatype_printf_to_dt fl registered t with
  | None => None
  | Some dt =>
      let str := Z.land t (Z.lnot (PA_FLAG_MASK fl)) =? PA_STRING in
      Some (mkParam
        (mkMeta (vararg_name i) (dt_name dt) (if str then CDM_POINTER else CDM_NOMOD) PDIR_IN
           (if str then lit "sz" else []) [])
        (param_value f (Z.of_nat cnt - 6) (cnt + i)) false)
  end.

(** Setting up the parameters: [None] when a format index names no parameter,
    when the array for the types is not allocated, when a type is read past
    the mapping's table, and when the arguments do not fit the array. *)
Definition trampoline_setup_params (f : WrapperSystemVFrame) (proto : FuncPrototype) (room : nat)
  : option (bool * list FuncParam) :=
  let cnt := fp_params_cnt proto in
  if (room <? cnt)%nat then Some (false, [])
  else
    let ps := imap (λ i m, mkParam m (param_value f (Z.of_nat cnt - 6) i) false) (proto_params proto) in
    match fp_fmt proto with
    | FAT_NOVARARGS => Some (true, ps)
    | FAT_STRFTIME => Some (false, ps)
    | FAT_PRINTF | FAT_SCANF =>
        match ps !! Z.to_nat (fp_fmt_param_idx proto) with
        | None => None
        | Some p =>
            let types := printf_types (val p) in
            if (length types =? 0)%nat then Some (true, ps)
            else if negb malloc_ok then None
            else if existsb is_fp_type types then Some (false, ps)
            else if (room <? cnt + length types)%nat then None
            else
              match mapM id (imap (vararg f cnt) types) with
              | None => None
              | Some vs => Some (true, ps ++ vs)
              end
        end
    end.

(** *** The traced call *)

Definition PTRACE_SZ_CAP : nat := 4096.
Definition PTRACE_SZ_CHUNK : nat := 256.
Definition PTRACE_RET_DEFERRED : Z := 4503599627370497.
Definition ENOSYS : Z := 38.
Definition EPERM : Z := 1.

(** The text before the first NUL, if there is one. *)
Fixpoint before_nul (s : bytes) : option bytes :=
  match s with
  | [] => None
  | c :: s => if ceq c NUL then Some [] else cons c <$> before_nul s
  end.

(** The loop of [tracee_read_sz], [buf] read so far: the string, [None] for
    a read that gave nothing at all. *)
Fixpoint read_loop (fuel : nat) (pid addr : Z) (buf : bytes) : option bytes :=
  let stop := match buf with [] => None | _ => Some buf end in
  match fuel with
  | O => stop
  | S fuel =>
      if (PTRACE_SZ_CAP <=? length buf)%nat then stop
      else
        let want := (PTRACE_SZ_CAP - length buf)%nat in
        let chunk := if (want <? PTRACE_SZ_CHUNK)%nat then want else PTRACE_SZ_CHUNK in
        let got := tracee_read pid (addr + Z.of_nat (length buf)) chunk in
        match got with
        | [] => stop
        | _ =>
            match before_nul got with
            | Some s => Some (buf ++ s)
            | None =>
                let buf := buf ++ got in
                if (length got <? chunk)%nat then Some buf else read_loop fuel pid addr buf
            end
        end
  end.

Definition tracee_read_sz (pid addr : Z) : Z :=
  if negb malloc_ok then 0
  else match read_loop PTRACE_SZ_CAP pid addr [] with None => 0 | Some s => new_sz s end.

Definition ptrace_sched_real (f : retrace_ptrace_frame) : retrace_ptrace_frame :=
  mkPtrace (tracee_pid f) (arg_in f) false (forced_retval f) (exit_override f) (exit_retval f).

Definition ptrace_cancel_sched_real (f : retrace_ptrace_frame) : retrace_ptrace_frame :=
  mkPtrace (tracee_pid f) (arg_in f) true (- ENOSYS) (exit_override f) (exit_retval f).

Definition ptrace_set_ret_val (ret_val ctx_errno : Z) (f : retrace_ptrace_frame) : retrace_ptrace_frame :=
  if negb (skip_real f) then
    if ret_val =? PTRACE_RET_DEFERRED then f
    else mkPtrace (tracee_pid f) (arg_in f) (skip_real f) (forced_retval f) true ret_val
  else
    let forced :=
      if ret_val =? -1 then
        - (if (0 <? ctx_errno) && (ctx_errno <? 4096) then ctx_errno
           else if (errno <=? 0) || (4096 <=? errno) then EPERM else errno)
      else ret_val in
    mkPtrace (tracee_pid f) (arg_in f) (skip_real f) forced (exit_override f) (exit_retval f).

(** One parameter of [ptrace_setup_params]. *)
Definition ptrace_param (f : retrace_ptrace_frame) (i : nat) (m : ParamMeta) : FuncParam :=
  let v := if (i <? RETRACE_PTRACE_MAX_ARGS)%nat then i64 (default 0 (arg_in f !! i)) else 0 in
  if has_mod (pm_modifiers m) CDM_POINTER && negb (v =? 0) && streq (pm_ref_type_name m) (lit "sz") then
    let local := tracee_read_sz (tracee_pid f) (u64 v) in
    if local =? 0 then mkParam m 0 false else mkParam m local true
  else if has_mod (pm_modifiers m) CDM_POINTER then mkParam m 0 false
  else mkParam m v false.

Definition ptrace_setup_params (f : retrace_ptrace_frame) (proto : FuncPrototype) (room : nat)
  : bool * list FuncParam :=
  let cnt := fp_params_cnt proto in
  if (room <? cnt)%nat then (false, [])
  else
    match fp_fmt proto with
    | FAT_NOVARARGS => (true, imap (ptrace_param f) (proto_params proto))
    | _ => (false, [])
    end.

Definition ptrace_call_real (f : retrace_ptrace_frame) : Z * retrace_ptrace_frame :=
  (PTRACE_RET_DEFERRED, ptrace_sched_real f).

(** *** The lanes over a memory of frames *)

(** The table of the lane, [retrace_as_ops_default] or
    [retrace_as_ops_ptrace]. *)
Definition PTRACE_OPS : nat := 0.

(** An operation of a table on the frame at an address; on a frame of the
    other lane it is not defined and the model leaves the frame. *)
Definition on_frame (o : option nat) (wrapper : WrapperSystemVFrame → WrapperSystemVFrame)
    (traced : retrace_ptrace_frame → retrace_ptrace_frame) (fr : frame) : frame :=
  match o, fr with
  | None, Wrapper f => Wrapper (wrapper f)
  | Some _, Traced f => Traced (traced f)
  | _, _ => fr
  end.

#[export] Instance frame_lanes : Lanes (gmap Z frame) := {|
  op_sched_real o a r w := alter (on_frame o (trampoline_sched_real r) ptrace_sched_real) a w;
  op_cancel_sched_real o a w := alter (on_frame o trampoline_cancel_sched_real ptrace_cancel_sched_real) a w;
  op_set_ret_val o a v e w := alter (on_frame o (trampoline_set_ret_val v) (ptrace_set_ret_val v e)) a w;
  op_setup_params o a p room w :=
    match o, w !! a with
    | None, Some (Wrapper f) => trampoline_setup_params f p room
    | Some _, Some (Traced f) => Some (ptrace_setup_params f p room)
    | _, _ => None
    end;
  op_call_real o a real ps w :=
    match o, w !! a with
    | Some _, Some (Traced f) =>
        let '(v, f') := ptrace_call_real f in (v, <[a := Traced f']> w)
    | _, _ => (retrace_as_call_real_dispatch real ps, w)
    end;
  fits o a w := match o, w !! a with
                | None, Some (Wrapper _) | Some _, Some (Traced _) => True
                | _, _ => False
                end;
  runs_real a w := match w !! a with
                   | Some (Wrapper f) => negb (call_real_flag f =? 0)
                   | Some (Traced f) => negb (skip_real f)
                   | None => false
                   end;
  answer a w := match w !! a with
                | Some (Wrapper f) => wf_ret_val f
                | Some (Traced f) => forced_retval f
                | None => 0
                end;
|}.

(** ** The lanes provide the interface *)

Lemma on_frame_only o h1 h2 a (w : gmap Z frame) : only a w (alter (on_frame o h1 h2) a w).
Proof.
  split.
  - intros o' g. cbn. destruct (decide (a = g)) as [<- | Hne]; [|by rewrite lookup_alter_ne].
    rewrite lookup_alter_eq. destruct (w !! a) as [[f|f]|], o, o'; done.
  - intros g Hg. cbn. by rewrite lookup_alter_ne.
Qed.

#[export] Instance frame_lane_laws : LaneLaws (gmap Z frame).
Proof.
  refine {| sched_only o f r w := on_frame_only o _ _ f w; cancel_only o f w := on_frame_only o _ _ f w;
            set_ret_only o f v e w := on_frame_only o _ _ f w |};
    intros; cbn in *; rewrite lookup_alter_eq; destruct (w !! f) as [[fr|fr]|], o; cbn; try done.
  - unfold ptrace_set_ret_val. repeat case_match; cbn; congruence.
  - unfold ptrace_set_ret_val. destruct (skip_real fr); cbn; [|done].
    destruct (Z.eqb_spec v (-1)); cbn; naive_solver.
Qed.

(** ** Parameters *)

(** The argument registers, in the order of the parameters. *)
Definition registers (f : WrapperSystemVFrame) : list Z :=
  [real_rdi f; real_rsi f; real_rdx f; real_rcx f; real_r8 f; real_r9 f].

Lemma param_value_register f n i : (i < 6)%nat → registers f !! i = Some (param_value f n i).
Proof. intros H. do 6 (destruct i as [|i]; [done|]). lia. Qed.

Lemma proto_params_length p : length (proto_params p) = fp_params_cnt p.
Proof. unfold proto_params. rewrite length_take, length_app, length_replicate. lia. Qed.

Lemma imap_values f n l : (length l ≤ 6)%nat →
  val <$> imap (λ i m, mkParam m (param_value f n i) false) l = take (length l) (registers f).
Proof.
  intros Hl. apply list_eq. intros i. rewrite list_lookup_fmap, list_lookup_imap.
  destruct (decide (i < length l)%nat) as [H|H].
  - destruct (lookup_lt_is_Some_2 l i H) as [m Hm]. rewrite Hm. cbn.
    rewrite lookup_take_lt by done. by rewrite param_value_register with (n := n) by lia.
  - rewrite (lookup_ge_None_2 l) by lia. cbn. symmetry. apply lookup_ge_None_2. rewrite length_take. lia.
Qed.

Lemma imap_metas f n l :
  param_meta <$> imap (λ i m, mkParam m (param_value f n i) false) l = l.
Proof.
  apply list_eq. intros i. rewrite list_lookup_fmap, list_lookup_imap. by destruct (l !! i).
Qed.

Lemma setup_registers f p room :
  fp_fmt p = FAT_NOVARARGS →
  ((fp_params_cnt p ≤ room)%nat →
   ∃ ps, trampoline_setup_params f p room = Some (true, ps) ∧
     param_meta <$> ps = proto_params p ∧ Forall (λ q, free_val q = false) ps ∧
     ((fp_params_cnt p ≤ 6)%nat → val <$> ps = take (fp_params_cnt p) (registers f))) ∧
  ((room < fp_params_cnt p)%nat → trampoline_setup_params f p room = Some (false, [])).
Proof.
  intros Hf. unfold trampoline_setup_params. rewrite Hf. split; intros H.
  - rewrite (proj2 (Nat.ltb_ge _ _) H). eexists. split; [done|]. split_and!.
    + apply imap_metas.
    + apply Forall_forall. intros q Hq. apply list_elem_of_lookup in Hq as [i Hi].
      rewrite list_lookup_imap in Hi. by destruct (proto_params p !! i); simplify_eq/=.
    + intros H6. rewrite imap_values by (by rewrite proto_params_length). by rewrite proto_params_length.
  - by rewrite (proj2 (Nat.ltb_lt _ _) H).
Qed.

(** Setting up the parameters of a call without variable
    arguments on the trampoline: one for each parameter of the prototype, in
    order, with its description, and for a function of at most six the values
    of the argument registers, none of them to be freed; a prototype with more
    parameters than there is room for is refused. *)
Theorem setup_params_registers f p room :
  fp_fmt p = FAT_NOVARARGS →
  ((fp_params_cnt p ≤ room)%nat →
   ∃ ps, trampoline_setup_params f p room = Some (true, ps) ∧
     param_meta <$> ps = proto_params p ∧ Forall (λ q, free_val q = false) ps ∧
     ((fp_params_cnt p ≤ 6)%nat → val <$> ps = take (fp_params_cnt p) (registers f))) ∧
  ((room < fp_params_cnt p)%nat → trampoline_setup_params f p room = Some (false, [])).
Proof. apply setup_registers. Qed.

(** The value of a seventh parameter is the stack pointer less 40, whatever
    the stack holds. *)
Theorem seventh_param_value f : param_value f (7 - 6) 6 = i64 (u64 (real_rsp f - 40)).
Proof.
  unfold param_value, u64, wrap_u. f_equal. rewrite Zplus_mod_idemp_r. reflexivity.
Qed.

(** Integer arguments that a format asks for past the end of the parameter
    array are written past its end. *)
Theorem varargs_overflow f p q :
  fp_fmt p = FAT_PRINTF → proto_params p !! Z.to_nat (fp_fmt_param_idx p) = Some q → malloc_ok = true →
  (∀ a, printf_types a = replicate 32 PA_INT) → PA_FLAG_MASK fl = PA_FLAG_MASK glibc →
  (1 ≤ fp_params_cnt p ≤ 32)%nat → trampoline_setup_params f p 32 = None.
Proof.
  intros Hf Hq Hm Ht Hfl Hc. unfold trampoline_setup_params. rewrite Hf, (proj2 (Nat.ltb_ge _ _)) by lia.
  rewrite list_lookup_imap, Hq. cbn [fmap option_fmap option_map]. rewrite Ht, Hm. cbn [negb length replicate Nat.eqb].
  assert (existsb is_fp_type (replicate 32 PA_INT) = false) as E.
  { unfold is_fp_type. rewrite Hfl. by vm_compute. }
  unfold is_fp_type in *. cbn [replicate] in E. rewrite E.
  by rewrite (proj2 (Nat.ltb_lt _ _)) by lia.
Qed.

(** ** Strings of the traced process *)

Lemma before_nul_app s r : no_nul s → before_nul (s ++ NUL :: r) = Some s.
Proof.
  induction s as [|c s IH]; [done|]. intros [Hc Hs]%no_nul_cons. cbn. rewrite (proj2 (ceq_false _ _) Hc).
  by rewrite IH.
Qed.

Lemma before_nul_None s : no_nul s → before_nul s = None.
Proof.
  induction s as [|c s IH]; [done|]. intros [Hc Hs]%no_nul_cons. cbn. rewrite (proj2 (ceq_false _ _) Hc).
  by rewrite IH.
Qed.

(** What the loop reads of a string from a mapped memory, after [j] chunks. *)
Lemma read_loop_string pid addr s m rest :
  m = s ++ NUL :: rest → no_nul s → (256 * S (length s / 256) ≤ length m)%nat →
  (∀ k n, (k + n ≤ length m)%nat → tracee_read pid (addr + Z.of_nat k) n = take n (drop k m)) →
  ∀ fuel j, (16 - j < fuel)%nat → (j ≤ 16)%nat → (256 * j ≤ length s)%nat →
  read_loop fuel pid addr (take (256 * j) s) = Some (take 4096 s).
Proof.
  intros Hm Hs Hlen Hread. induction fuel as [|fuel IH]; intros j Hf Hj Hle; [lia|].
  cbn [read_loop]. rewrite length_take, Nat.min_l by lia. unfold PTRACE_SZ_CAP.
  destruct (Nat.leb_spec 4096 (256 * j)).
  { assert (j = 16)%nat as -> by lia. change (256 * 16)%nat with 4096%nat in *.
    destruct (take 4096 s) eqn:Et; [|done]. apply (f_equal length) in Et. rewrite length_take in Et. cbn [length] in Et. lia. }
  assert ((if 4096 - 256 * j <? PTRACE_SZ_CHUNK then 4096 - 256 * j else PTRACE_SZ_CHUNK) = 256)%nat as ->.
  { unfold PTRACE_SZ_CHUNK. destruct (Nat.ltb_spec (4096 - 256 * j) 256); lia. }
  assert (j ≤ length s / 256)%nat by (apply Nat.div_le_lower_bound; lia).
  rewrite Hread by lia. subst m. rewrite drop_app_le by lia.
  set (t := drop (256 * j) s). assert (length t = length s - 256 * j)%nat as Ht by apply length_drop.
  assert (no_nul t) by (by apply no_nul_drop). destruct (decide (length t < 256)%nat) as [Hlt|Hge].
  - rewrite take_app_ge by lia. destruct (256 - length t)%nat as [|n] eqn:En; [lia|]. cbn [take].
    rewrite before_nul_app by done. destruct (t ++ _) eqn:Ee; [by apply app_nil in Ee as [_ ?]|].
    subst t. rewrite take_drop. rewrite take_ge; [done|lia].
  - rewrite take_app_le by lia. rewrite before_nul_None by (by apply no_nul_take).
    rewrite length_take, Nat.min_l, Nat.ltb_irrefl by lia.
    destruct (take 256 t) as [|c g] eqn:Eg; [by apply (f_equal length) in Eg; rewrite length_take, Ht in Eg; cbn [length] in Eg; lia|].
    rewrite <- Eg. subst t.
    replace (take (256 * j) s ++ take 256 (drop (256 * j) s)) with (take (256 * S j) s);
      [|by rewrite take_take_drop; f_equal; lia].
    apply IH; lia.
Qed.

(** The string parameter of a traced call: from a memory
    mapped to the end of the chunk its terminator is in, the string at the
    address is read whole, up to the cap. *)
Theorem tracee_string_read pid addr s m rest :
  m = s ++ NUL :: rest → no_nul s → malloc_ok = true →
  (PTRACE_SZ_CHUNK * S (length s / PTRACE_SZ_CHUNK) ≤ length m)%nat →
  (∀ k n, (k + n ≤ length m)%nat → tracee_read pid (addr + Z.of_nat k) n = take n (drop k m)) →
  tracee_read_sz pid addr = new_sz (take PTRACE_SZ_CAP s).
Proof.
  intros Hm Hs Hok Hlen Hread. unfold tracee_read_sz. rewrite Hok. cbn [negb].
  change (@nil ascii) with (take (256 * 0) s).
  by rewrite (read_loop_string pid addr s m rest Hm Hs Hlen Hread) by (unfold PTRACE_SZ_CAP; lia).
Qed.

End Frames.

(** *** Witnesses *)

Definition demo_wrapper : WrapperSystemVFrame := mkWrapper 0 0 0 16 15 14 13 12 11 4096.
Definition demo_proto : FuncPrototype :=
  mkProto (lit "close") CC_SYSTEM_V [mkMeta (lit "fd") (lit "int") CDM_NOMOD PDIR_IN [] []] 1 (lit "int")
    FAT_NOVARARGS 0.

Lemma setup_params_registers_witness :
  ∃ ps, trampoline_setup_params (λ _, []) glibc [] true demo_wrapper demo_proto 32 = Some (true, ps) ∧
    val <$> ps = [11].
Proof.
  destruct (proj1 (setup_params_registers (λ _, []) glibc [] true demo_wrapper demo_proto 32 eq_refl))
    as (ps & H1 & _ & _ & H2); [cbn; lia|].
  exists ps. split; [exact H1|]. apply H2. cbn. lia.
Defined.

Definition demo_memory : bytes := lit "/etc/motd" ++ NUL :: replicate 300 "x"%char.
Definition demo_read (pid addr : Z) (n : nat) : bytes := take n (drop (Z.to_nat (addr - 4096)) demo_memory).

Lemma tracee_string_read_witness :
  tracee_read_sz true (λ s, Z.of_nat (length s)) demo_read 1 4096 = 9.
Proof.
  rewrite (tracee_string_read true (λ s, Z.of_nat (length s)) demo_read 1 4096 (lit "/etc/motd") demo_memory
             (replicate 300 "x"%char)).
  - reflexivity.
  - reflexivity.
  - apply (bool_decide_eq_true_1 _). vm_compute. reflexivity.
  - reflexivity.
  - apply (bool_decide_eq_true_1 _). vm_compute. reflexivity.
  - intros k n _. unfold demo_read. do 2 f_equal. lia.
Defined.

End Lanes.
