(* ===== verification/Faults.v ===== *)
(** * Fault injection

    The actions of [src/core/actions] that decide whether a call reaches the
    real function: [call_count_limit.c], [fail_first.c], [freeze.c] and
    [incomplete_io.c]. Two of them keep a table in static storage; [beside]
    puts such storage beside the frames of any lane, so that the theorems of
    the engine apply to the actions that use it. *)

From stdpp Require Import gmap.
From S2P Require Import Prelude Context Json PolicySig Lanes.

Module Faults.

Import Context Json Lanes.

(** ** Static storage beside the frames *)

Section beside.
Context {W S : Type} `{LW : Lanes W}.

#[export] Instance beside : Lanes (W * S) := {
  op_sched_real o f r w := (op_sched_real o f r w.1, w.2);
  op_cancel_sched_real o f w := (op_cancel_sched_real o f w.1, w.2);
  op_set_ret_val o f v e w := (op_set_ret_val o f v e w.1, w.2);
  op_setup_params o f p n w := op_setup_params o f p n w.1;
  op_call_real o f r ps w := let '(v, w1) := op_call_real o f r ps w.1 in (v, (w1, w.2));
  fits o f w := fits o f w.1;
  runs_real f w := runs_real f w.1;
  answer f w := answer f w.1;
}.

#[export] Instance beside_laws `{!LaneLaws W} : LaneLaws (W * S).
Proof.
  split; cbn.
  - intros o f r w. destruct (sched_only o f r w.1) as [H1 H2]. by split.
  - intros o f w. destruct (cancel_only o f w.1) as [H1 H2]. by split.
  - intros o f v e w. destruct (set_ret_only o f v e w.1) as [H1 H2]. by split.
  - intros o f r w. apply sched_runs.
  - intros o f w. apply cancel_runs.
  - intros o f v e w. apply set_ret_runs.
  - intros o f v e w. apply set_ret_answer.
Qed.

End beside.

(** ** The table of counted functions *)

(** [struct count_entry] and [struct fail_entry]: the bound is the limit or the
    number of failures, and [fail_entry] has a return value more. An entry is
    free as long as its name is empty. *)
Record entry {A : Type} := mkEntry { en_name : bytes; en_count : Z; en_bound : Z; en_extra : A }.
Arguments entry : clear implicits.
Arguments mkEntry {A}.

Definition MAX_TRACKED_FUNCS : nat := 64.

Definition count_entry : Type := entry unit.
Definition fail_entry : Type := entry Z.

Definition free_entry {A} (x : A) : entry A := mkEntry [] 0 0 x.
Definition empty_table {A} (x : A) : list (entry A) := replicate MAX_TRACKED_FUNCS (free_entry x).

(** The loop of [find_or_claim]: the entry of the name, or the first free one. *)
Fixpoint search {A} (g : list (entry A)) (name : bytes) (i : nat) (first_empty : option nat) : nat + option nat :=
  match g with
  | [] => inr first_empty
  | e :: g =>
      if negb (streq (en_name e) []) && streq (en_name e) name then inl i
      else
        search g name (S i)
          (match first_empty with
           | None => if streq (en_name e) [] then Some i else None
           | Some k => Some k
           end)
  end.

Definition find_or_claim {A} (name : bytes) (bound : Z) (g : list (entry A)) : option nat * list (entry A) :=
  match search g name 0 None with
  | inl i => (Some i, g)
  | inr None => (None, g)
  | inr (Some i) => (Some i, alter (λ e, mkEntry name 0 bound (en_extra e)) i g)
  end.

(** [entry->count++] with the write of the return value, and the entry after it. *)
Definition count_call {A} (name : bytes) (bound : Z) (x : A) (g : list (entry A)) : option (entry A) * list (entry A) :=
  let '(i, g) := find_or_claim name bound g in
  match i with
  | None => (None, g)
  | Some i =>
      let g := alter (λ e, mkEntry (en_name e) (en_count e + 1) (en_bound e) x) i g in
      (g !! i, g)
  end.

(** ** The actions *)

Section actions.
Context (out_of_range : double → Z).

Notation d_i64 := (PolicySig.d_i64 out_of_range).

Definition has_value (o : JSON_Object) (name : string) : bool :=
  match json_object_get_value (Some o) name with Some _ => true | None => false end.

(** The name of the function, where there is one. *)
Definition function_name (t : ThreadContext) : option bytes :=
  match prototype t with
  | Some p => if streq (fp_name p) [] then None else Some (fp_name p)
  | None => None
  end.

Definition ia_call_count_limit (t : ThreadContext) (action_params : option JSON_Object) (g : list count_entry)
    : Z * ThreadContext * list count_entry :=
  match action_params with
  | None => ((-1)%Z, t, g)
  | Some o =>
      if negb (has_value o "limit") then ((-1)%Z, t, g)
      else
        let limit := d_i64 (json_object_get_number (Some o) "limit") in
        match function_name t with
        | None => ((-1)%Z, t, g)
        | Some func_name =>
            let '(e, g) := count_call func_name limit tt g in
            match e with
            | None => (0%Z, t, g)
            | Some e => (if (en_bound e <? en_count e)%Z then (-1)%Z else 0%Z, t, g)
            end
        end
  end.

Definition ia_fail_first (t : ThreadContext) (action_params : option JSON_Object) (g : list fail_entry)
    : Z * ThreadContext * list fail_entry :=
  match action_params with
  | None => ((-1)%Z, t, g)
  | Some o =>
      if negb (has_value o "fails") || negb (has_value o "retval_int") then ((-1)%Z, t, g)
      else
        let fails := d_i64 (json_object_get_number (Some o) "fails") in
        let retval := d_i64 (json_object_get_number (Some o) "retval_int") in
        match function_name t with
        | None => ((-1)%Z, t, g)
        | Some func_name =>
            let '(e, g) := count_call func_name fails retval g in
            match e with
            | None => (0%Z, t, g)
            | Some e =>
                if (en_count e <=? en_bound e)%Z then ((-1)%Z, set_ret_val (en_extra e) t, g) else (0%Z, t, g)
            end
        end
  end.

Definition is_pure_timeout (name : bytes) : bool := existsb (streq name) [lit "sleep"; lit "usleep"].

Definition ia_freeze (t : ThreadContext) : Z * ThreadContext :=
  match prototype t with
  | None => ((-1)%Z, set_ret_val (-1) t)
  | Some p =>
      if is_pure_timeout (fp_name p) then (0%Z, t)
      else ((-1)%Z, set_ret_val (if streq (fp_type_name p) (lit "ptr") then 0%Z else (-1)%Z) t)
  end.

Definition d_one : double := d_int 1.

Definition ia_incomplete_io (t : ThreadContext) (action_params : option JSON_Object) : Z * ThreadContext :=
  match action_params with
  | None => ((-1)%Z, t)
  | Some o =>
      if negb (has_value o "rate") then ((-1)%Z, t)
      else
        let rate := json_object_get_number (Some o) "rate" in
        let rate := if negb (d_leb d_zero rate) then d_zero else if negb (d_leb rate d_one) then d_one else rate in
        let real_ret := ret_val t in
        if (real_ret <=? 0)%Z then (0%Z, t) else (0%Z, set_ret_val (d_i64 (d_mul (d_of_int real_ret) rate)) t)
  end.

(** ** The table as a map *)

Definition used {A} (g : list (entry A)) : list (entry A) := filter (λ e, en_name e ≠ []) g.

Definition table {A} (g : list (entry A)) : gmap bytes (Z * Z) :=
  list_to_map ((λ e, (en_name e, (en_bound e, en_count e))) <$> used g).

Definition wf {A} (g : list (entry A)) : Prop := NoDup (en_name <$> used g).

(** One more call of a function. *)
Definition counted (m : gmap bytes (Z * Z)) (name : bytes) (bound : Z) : gmap bytes (Z * Z) :=
  match m !! name with
  | Some (b, c) => <[name := (b, (c + 1)%Z)]> m
  | None => <[name := (bound, 1%Z)]> m
  end.

Lemma search_spec {A} (g : list (entry A)) name i fe :
  name ≠ [] →
  match search g name i fe with
  | inl k => ∃ g1 e g2, g = g1 ++ e :: g2 ∧ k = i + length g1 ∧ en_name e = name
  | inr k => name ∉ en_name <$> g ∧
      match fe with
      | Some j => k = Some j
      | None => match k with
                | Some k => ∃ g1 e g2, g = g1 ++ e :: g2 ∧ k = i + length g1 ∧ en_name e = []
                | None => used g = g
                end
      end
  end.
Proof.
  intros Hn. revert i fe. induction g as [|e g IH]; intros i fe; cbn [search].
  { split; [apply not_elem_of_nil|]. by destruct fe. }
  destruct (negb (streq (en_name e) []) && streq (en_name e) name) eqn:E.
  { unfold streq in E. bool_to_prop. exists [], e, g. split; [done|]. split; [cbn; lia|done]. }
  assert (en_name e ≠ name) as Hne.
  { intros <-. unfold streq in E. rewrite (bool_decide_eq_true_2 (en_name e = en_name e)) in E by done.
    rewrite andb_true_r, negb_false_iff, bool_decide_eq_true in E. done. }
  set (fe' := match fe with None => _ | Some k => _ end). specialize (IH (S i) fe').
  destruct (search g name (S i) fe') as [k|k].
  - destruct IH as (g1 & e' & g2 & -> & -> & Hen). exists (e :: g1), e', g2. split; [done|]. split; [cbn; lia|done].
  - destruct IH as [Hnot IH]. split; [cbn; rewrite not_elem_of_cons; by split; [congruence|]|].
    unfold fe' in IH. destruct fe as [j|]; [done|]. unfold streq in IH. case_bool_decide as Ee.
    + subst k. exists [], e, g. split; [done|]. split; [cbn; lia|done].
    + destruct k as [k|].
      * destruct IH as (g1 & e' & g2 & -> & -> & Hen). exists (e :: g1), e', g2. split; [done|]. split; [cbn; lia|done].
      * unfold used in *. rewrite filter_cons_True by done. by rewrite IH.
Qed.

Lemma table_perm {A} (g g' : list (entry A)) : g ≡ₚ g' → wf g → wf g' ∧ table g = table g'.
Proof.
  unfold wf, table, used. intros Hp Hg.
  assert (filter (λ e, en_name e ≠ []) g ≡ₚ filter (λ e, en_name e ≠ []) g') as Hf by (by rewrite Hp).
  split; [by rewrite <- Hf|]. apply list_to_map_proper; [|by rewrite Hf]. by rewrite <- list_fmap_compose.
Qed.

Lemma table_named {A} (e : entry A) g :
  en_name e ≠ [] → table (e :: g) = <[en_name e := (en_bound e, en_count e)]> (table g).
Proof. intros He. unfold table, used. by rewrite filter_cons_True. Qed.

Lemma wf_named {A} (e : entry A) g : en_name e ≠ [] → wf (e :: g) ↔ table g !! en_name e = None ∧ wf g.
Proof.
  intros He. unfold wf, table, used. rewrite filter_cons_True by done. cbn [fmap list_fmap]. rewrite NoDup_cons.
  rewrite <- not_elem_of_list_to_map, <- list_fmap_compose. done.
Qed.

Lemma table_free {A} (e : entry A) g : en_name e = [] → table (e :: g) = table g ∧ (wf (e :: g) ↔ wf g).
Proof. intros He. unfold table, wf, used. rewrite filter_cons_False by (by rewrite He; intros []). done. Qed.

Lemma table_absent {A} (g : list (entry A)) name : name ∉ en_name <$> g → table g !! name = None.
Proof.
  intros H. apply not_elem_of_list_to_map. rewrite <- list_fmap_compose. intros (e & -> & He)%list_elem_of_fmap.
  apply list_elem_of_filter in He as [_ He]. apply H. by apply list_elem_of_fmap_2.
Qed.

Lemma table_size {A} (g : list (entry A)) : wf g → size (table g) = length (used g).
Proof.
  intros Hg. unfold table. rewrite map_size_list_to_map; [by rewrite length_fmap|]. by rewrite <- list_fmap_compose.
Qed.

(** The entry of a name is replaced by another one of the name. *)
Lemma table_swap {A} (g1 g2 : list (entry A)) e e' :
  wf (g1 ++ e :: g2) → en_name e ≠ [] → en_name e' = en_name e →
  table (g1 ++ e :: g2) !! en_name e = Some (en_bound e, en_count e) ∧ wf (g1 ++ e' :: g2) ∧
  table (g1 ++ e' :: g2) = <[en_name e := (en_bound e', en_count e')]> (table (g1 ++ e :: g2)).
Proof.
  intros Hg He He'. destruct (table_perm (g1 ++ e :: g2) (e :: g1 ++ g2)) as [Hg1 ->]; [by rewrite <- Permutation_middle|done|].
  apply wf_named in Hg1 as Hg2; [|done]. rewrite table_named by done. split; [by rewrite lookup_insert_eq|].
  destruct (table_perm (e' :: g1 ++ g2) (g1 ++ e' :: g2)) as [Hg3 <-]; [by rewrite <- Permutation_middle| |].
  - apply wf_named; by rewrite He'.
  - split; [done|]. rewrite table_named by (by rewrite He'). by rewrite He', insert_insert_eq.
Qed.

(** A free entry is claimed. *)
Lemma table_claim {A} (g1 g2 : list (entry A)) e e' :
  wf (g1 ++ e :: g2) → en_name e = [] → en_name e' ≠ [] → table (g1 ++ e :: g2) !! en_name e' = None →
  wf (g1 ++ e' :: g2) ∧ table (g1 ++ e' :: g2) = <[en_name e' := (en_bound e', en_count e')]> (table (g1 ++ e :: g2)).
Proof.
  intros Hg He He' Hnone. destruct (table_perm (g1 ++ e :: g2) (e :: g1 ++ g2)) as [Hg1 E]; [by rewrite <- Permutation_middle|done|].
  rewrite E in *. destruct (table_free e (g1 ++ g2) He) as [E2 Hw]. rewrite E2 in *. apply Hw in Hg1.
  destruct (table_perm (e' :: g1 ++ g2) (g1 ++ e' :: g2)) as [Hg3 <-]; [by rewrite <- Permutation_middle|by apply wf_named|].
  split; [done|]. by rewrite table_named.
Qed.

Lemma alter_at {A} (f : entry A → entry A) g1 e g2 : alter f (length g1) (g1 ++ e :: g2) = g1 ++ f e :: g2.
Proof. induction g1 as [|x g1 IH]; cbn; [done|]. by rewrite IH. Qed.

Lemma count_call_spec {A} (g : list (entry A)) name bound x :
  wf g → name ≠ [] →
  let '(e, g') := count_call name bound x g in
  length g' = length g ∧ wf g' ∧
  if decide (is_Some (table g !! name) ∨ size (table g) < length g) then
    table g' = counted (table g) name bound ∧
    ∃ e', e = Some e' ∧ en_extra e' = x ∧ table g' !! name = Some (en_bound e', en_count e')
  else e = None ∧ g' = g.
Proof.
  intros Hg Hn. unfold count_call, find_or_claim. pose proof (search_spec g name 0 None Hn) as Hs.
  destruct (search g name 0 None) as [k|k].
  - destruct Hs as (g1 & e & g2 & -> & -> & He). cbn [Nat.add]. rewrite alter_at, lookup_app_r, Nat.sub_diag by done. cbn [lookup list_lookup].
    set (e' := mkEntry (en_name e) (en_count e + 1) (en_bound e) x).
    destruct (table_swap g1 g2 e e' Hg) as (Hl & Hg' & Ht); [congruence|done|]. rewrite He in *.
    split; [by rewrite !length_app|]. split; [done|]. rewrite decide_True by (left; by eexists).
    unfold counted. rewrite Hl. split; [done|]. exists e'. split; [done|]. split; [done|]. rewrite Ht. by rewrite lookup_insert_eq.
  - destruct Hs as [Hnot Hk]. pose proof (table_absent g name Hnot) as Hnone. destruct k as [k|].
    + destruct Hk as (g1 & e & g2 & -> & -> & He). cbn [Nat.add]. rewrite !alter_at, lookup_app_r, Nat.sub_diag by done. cbn [lookup list_lookup].
      cbn [en_name en_count en_bound]. set (e' := mkEntry name (0 + 1) bound x).
      destruct (table_claim g1 g2 e e' Hg He Hn Hnone) as [Hg' Ht]. split; [by rewrite !length_app|]. split; [done|].
      rewrite decide_True.
      * unfold counted. rewrite Hnone. split; [done|]. exists e'. split; [done|]. split; [done|]. rewrite Ht. by rewrite lookup_insert_eq.
      * right. rewrite table_size by done. unfold used. rewrite filter_app, filter_cons_False by (by rewrite He; intros []).
        rewrite !length_app. cbn [length]. pose proof (length_filter (λ e, en_name e ≠ []) g1). pose proof (length_filter (λ e, en_name e ≠ []) g2). lia.
    + split; [done|]. split; [done|]. rewrite decide_False; [done|]. rewrite table_size by done. rewrite Hk, Hnone. intros [[? ?]|?]; [done|lia].
Qed.

(** ** Sequences of calls *)

(** The table after the calls of a history, and what it says: the bound of the
    first call of a function and the number of its calls. *)
Definition seen (hist : list (bytes * Z)) : gmap bytes (Z * Z) := foldl (λ m c, counted m c.1 c.2) ∅ hist.

Definition calls_of (name : bytes) (hist : list (bytes * Z)) : nat := length (filter (λ c, c.1 = name) hist).

Definition first_bound (name : bytes) (hist : list (bytes * Z)) : option Z := snd <$> head (filter (λ c, c.1 = name) hist).

Lemma seen_spec hist name :
  seen hist !! name = (λ b, (b, Z.of_nat (calls_of name hist))) <$> first_bound name hist.
Proof.
  unfold seen, calls_of, first_bound. induction hist as [|[n b] hist IH] using rev_ind; [done|].
  rewrite foldl_app, filter_app. cbn [foldl fst snd]. unfold counted at 1.
  set (m := foldl _ _ _) in *. destruct (decide (n = name)) as [->|Hne].
  - rewrite filter_cons_True by done. cbn [filter list_filter]. rewrite length_app. cbn [length]. rewrite IH.
    destruct (filter (λ c, c.1 = name) hist) as [|c l]; cbn; rewrite lookup_insert_eq; [done|].
    f_equal. f_equal. lia.
  - rewrite filter_cons_False, app_nil_r by done. rewrite <- IH. destruct (m !! n) as [[b' c]|]; by rewrite lookup_insert_ne.
Qed.

Lemma seen_dom hist : dom (seen hist) = list_to_set (hist.*1).
Proof.
  apply set_eq. intros n. rewrite elem_of_dom, elem_of_list_to_set, seen_spec, fmap_is_Some. unfold first_bound.
  rewrite fmap_is_Some, list_elem_of_fmap. split.
  - intros [c Hc]. destruct (filter _ hist) as [|c' l] eqn:E; [done|]. exists c'.
    assert (c' ∈ filter (λ c, c.1 = n) hist) as [<- ?]%list_elem_of_filter by (rewrite E; by left). done.
  - intros ([n' b] & -> & H). destruct (filter _ hist) as [|c' l] eqn:E; [|by eexists].
    assert ((n', b) ∈ filter (λ c, c.1 = n') hist) as H' by (by apply list_elem_of_filter). cbn [fst] in E. rewrite E in H'.
    by apply not_elem_of_nil in H'.
Qed.

(** The table holds the history of the calls. *)
Definition tracks {A} (g : list (entry A)) (hist : list (bytes * Z)) : Prop :=
  length g = MAX_TRACKED_FUNCS ∧ wf g ∧ table g = seen hist.

Lemma empty_tracks {A} (x : A) : tracks (empty_table x) [].
Proof.
  split; [apply length_replicate|]. unfold wf, table, used, empty_table.
  assert (filter (λ e : entry A, en_name e ≠ []) (replicate MAX_TRACKED_FUNCS (free_entry x)) = []) as ->; [|by split; [constructor|]].
  induction MAX_TRACKED_FUNCS as [|n IH]; [done|]. cbn [replicate]. by rewrite filter_cons_False by (by intros []).
Qed.

(** A call of a history within the table: its entry says how often the function
    was called, with the bound of its first call. *)
Lemma count_call_tracks {A} (g : list (entry A)) hist name bound x :
  tracks g hist → name ≠ [] → size (list_to_set (hist ++ [(name, bound)]).*1 : gset bytes) ≤ MAX_TRACKED_FUNCS →
  ∃ e g', count_call name bound x g = (Some e, g') ∧ tracks g' (hist ++ [(name, bound)]) ∧ en_extra e = x ∧
    first_bound name (hist ++ [(name, bound)]) = Some (en_bound e) ∧ en_count e = Z.of_nat (S (calls_of name hist)).
Proof.
  intros (Hl & Hw & Ht) Hn Hsize. pose proof (count_call_spec g name bound x Hw Hn) as Hc.
  destruct (count_call name bound x g) as [e g']. destruct Hc as (Hl' & Hw' & Hc). rewrite Ht, Hl in Hc.
  rewrite decide_True in Hc.
  - destruct Hc as (Ht' & e' & -> & Hx & Hlook). exists e', g'. split; [done|].
    assert (tracks g' (hist ++ [(name, bound)])) as Htr.
    { split; [congruence|]. split; [done|]. rewrite Ht'. unfold seen. by rewrite foldl_app. }
    split; [done|]. split; [done|]. destruct Htr as (_ & _ & E). rewrite E, seen_spec in Hlook.
    destruct (first_bound name _) as [b|] eqn:Eb; [|done]. cbn in Hlook. injection Hlook as -> <-. split; [done|].
    unfold calls_of. rewrite filter_app, filter_cons_True by done. cbn [filter list_filter]. rewrite length_app. cbn [length]. lia.
  - destruct (seen hist !! name) as [v|] eqn:Es; [left; by eexists|right].
    rewrite fmap_app, list_to_set_app_L in Hsize. cbn [fmap list_fmap fst list_to_set] in Hsize.
    rewrite <- size_dom, seen_dom. rewrite size_union in Hsize.
    + rewrite union_empty_r_L, size_singleton in Hsize. lia.
    + rewrite <- seen_dom. apply not_elem_of_dom in Es. set_solver.
Qed.

Notation call := (ThreadContext * JSON_Object)%type.

(** The results of a sequence of runs of an action. *)
Fixpoint run_all {G} (act : ThreadContext → option JSON_Object → G → Z * ThreadContext * G) (cs : list call) (g : G)
    : list (Z * ThreadContext) :=
  match cs with
  | [] => []
  | (t, o) :: cs => let '(rc, t, g) := act t (Some o) g in (rc, t) :: run_all act cs g
  end.

Definition call_name (c : call) : bytes := default [] (function_name c.1).

Definition history (key : string) (cs : list call) : list (bytes * Z) :=
  (λ c : call, (call_name c, d_i64 (json_object_get_number (Some c.2) key))) <$> cs.

Definition few_names (cs : list call) : Prop :=
  Forall (λ c, is_Some (function_name c.1)) cs ∧ size (list_to_set (call_name <$> cs) : gset bytes) ≤ MAX_TRACKED_FUNCS.

Lemma function_name_some t name : function_name t = Some name → name ≠ [].
Proof. unfold function_name. destruct (prototype t) as [p|]; [|done]. unfold streq. case_bool_decide; [done|]. by intros [= <-]. Qed.

(** What a run decides from the entry of its function. *)
Lemma run_all_spec {A} (act : ThreadContext → option JSON_Object → list (entry A) → Z * ThreadContext * list (entry A))
    key (x : JSON_Object → A) (verdict : entry A → ThreadContext → Z * ThreadContext) (ok : JSON_Object → Prop) cs :
  (∀ t o name g e g', ok o → function_name t = Some name →
    count_call name (d_i64 (json_object_get_number (Some o) key)) (x o) g = (Some e, g') →
    act t (Some o) g = ((verdict e t).1, (verdict e t).2, g')) →
  ∀ pre g, tracks g (history key pre) → few_names (pre ++ cs) → Forall (λ c, ok c.2) cs →
  ∀ k t o, cs !! k = Some (t, o) →
  ∃ e, run_all act cs g !! k = Some (verdict e t) ∧ en_extra e = x o ∧
    first_bound (call_name (t, o)) (history key (pre ++ cs)) = Some (en_bound e) ∧
    en_count e = Z.of_nat (S (calls_of (call_name (t, o)) (history key (pre ++ take k cs)))).
Proof.
  intros Hact. induction cs as [|[t0 o0] cs IH]; intros pre g Htr [Hnamed Hsize] Hok k t o Hk; [done|].
  apply Forall_cons in Hok as [Hok0 Hok]. cbn [run_all].
  assert (∃ name, function_name t0 = Some name) as [name Hname].
  { apply Forall_app in Hnamed as [_ Hn]. apply Forall_cons in Hn as [[name Hn] _]. by exists name. }
  assert (call_name (t0, o0) = name) as Ecn by (unfold call_name; cbn [fst]; by rewrite Hname).
  destruct (count_call_tracks g (history key pre) name (d_i64 (json_object_get_number (Some o0) key)) (x o0))
    as (e & g' & Ec & Htr' & Hx & Hb & Hcnt); [done|by eapply function_name_some| |].
  { etransitivity; [|exact Hsize]. apply subseteq_size. unfold history. rewrite !fmap_app, <- list_fmap_compose. cbn [fmap list_fmap fst].
    rewrite Ecn. set_solver. }
  rewrite (Hact t0 o0 name g e g' Hok0 Hname Ec). destruct k as [|k].
  - cbn in Hk. injection Hk as <- <-. exists e. cbn [lookup list_lookup]. split; [by destruct (verdict e t0)|]. split; [done|].
    rewrite Ecn, take_0, app_nil_r. split; [|done]. unfold history in *. rewrite fmap_app. cbn [fmap list_fmap]. rewrite Ecn.
    unfold first_bound in *. rewrite filter_app in *. cbn [snd]. rewrite filter_cons_True in * by done.
    destruct (filter _ (_ <$> pre)); done.
  - cbn [lookup list_lookup]. destruct (IH (pre ++ [(t0, o0)]) g') with (k := k) (t := t) (o := o) as (e1 & H1 & H2 & H3 & H4).
    + unfold history. rewrite fmap_app. cbn [fmap list_fmap]. by rewrite Ecn.
    + split; [|rewrite <- app_assoc]; by rewrite <- app_assoc || done.
    + done.
    + done.
    + exists e1. split; [done|]. split; [done|]. rewrite <- app_assoc in H3, H4. done.
Qed.

(** C22 (functional). [fail_first] fails the first calls of each function, as many
    as its first call asked for, with the return value asked for, and lets every
    later one through; [call_count_limit] lets that many through and stops every
    later one. The counts are per function, in the order of the calls, for any
    interleaving of the calls of at most 64 functions. *)
Theorem fault_windows cs k t o name :
  few_names cs → cs !! k = Some (t, o) → function_name t = Some name →
  let before key := Z.of_nat (calls_of name (history key (take k cs))) in
  (Forall (λ c : call, has_value c.2 "fails" && has_value c.2 "retval_int" = true) cs →
   ∃ fails, first_bound name (history "fails" cs) = Some fails ∧
     run_all ia_fail_first cs (empty_table 0%Z) !! k =
     Some (if (before "fails" <? fails)%Z
           then ((-1)%Z, set_ret_val (d_i64 (json_object_get_number (Some o) "retval_int")) t) else (0%Z, t))) ∧
  (Forall (λ c : call, has_value c.2 "limit" = true) cs →
   ∃ limit, first_bound name (history "limit" cs) = Some limit ∧
     run_all ia_call_count_limit cs (empty_table tt) !! k =
     Some (if (before "limit" <? limit)%Z then 0%Z else (-1)%Z, t)).
Proof.
  intros Hfew Hk Hname before. assert (call_name (t, o) = name) as Ecn by (unfold call_name; cbn [fst]; by rewrite Hname). split; intros Hok.
  - destruct (run_all_spec ia_fail_first "fails" (λ o, d_i64 (json_object_get_number (Some o) "retval_int"))
      (λ e t, if (en_count e <=? en_bound e)%Z then ((-1)%Z, set_ret_val (en_extra e) t) else (0%Z, t))
      (λ o, has_value o "fails" && has_value o "retval_int" = true) cs) with (pre := @nil call) (g := empty_table 0%Z) (k := k) (t := t) (o := o)
      as (e & Hr & Hx & Hb & Hc); try done; [|apply empty_tracks|].
    + intros t1 o1 n1 g1 e1 g1' H1 Hn1 Hc1. bool_to_prop. unfold ia_fail_first. rewrite H, H0, Hn1, Hc1. cbn [negb orb]. by case_if.
    + rewrite Ecn in Hb, Hc. exists (en_bound e). split; [done|]. etransitivity; [exact Hr|]. rewrite Hx, Hc. unfold before. cbn [app].
      destruct (Z.leb_spec (Z.of_nat (S (calls_of name (history "fails" (take k cs))))) (en_bound e));
      destruct (Z.ltb_spec (Z.of_nat (calls_of name (history "fails" (take k cs)))) (en_bound e)); done || lia.
  - destruct (run_all_spec ia_call_count_limit "limit" (λ _, tt)
      (λ e t, (if (en_bound e <? en_count e)%Z then (-1)%Z else 0%Z, t)) (λ o, has_value o "limit" = true) cs)
      with (pre := @nil call) (g := empty_table tt) (k := k) (t := t) (o := o) as (e & Hr & Hx & Hb & Hc); try done; [|apply empty_tracks|].
    + intros t1 o1 n1 g1 e1 g1' H1 Hn1 Hc1. unfold ia_call_count_limit. by rewrite H1, Hn1, Hc1.
    + rewrite Ecn in Hb, Hc. exists (en_bound e). split; [done|]. etransitivity; [exact Hr|]. rewrite Hc. unfold before. cbn [app].
      destruct (Z.ltb_spec (en_bound e) (Z.of_nat (S (calls_of name (history "limit" (take k cs))))));
      destruct (Z.ltb_spec (Z.of_nat (calls_of name (history "limit" (take k cs)))) (en_bound e)); done || lia.
Qed.

(** ** Short reads and writes *)

(** Rounding to 53 bits does not pass a number that needs no rounding. *)
Lemma round_le a n k :
  (0 ≤ a)%Z → (0 ≤ n ≤ 2 ^ 53)%Z → (0 ≤ k)%Z → (a ≤ n * 2 ^ k)%Z →
  (0 ≤ d_man (d_of_int a) ∧ 0 ≤ d_exp (d_of_int a) ∧ d_man (d_of_int a) * 2 ^ d_exp (d_of_int a) ≤ n * 2 ^ k)%Z.
Proof.
  intros Ha Hn Hk Hle. unfold d_of_int. rewrite Z.abs_eq by done. destruct (Z.leb_spec a (2 ^ 53)) as [Hs|Hs].
  { cbn [d_int d_man d_exp]. lia. }
  cbv zeta. cbn [d_man d_exp]. rewrite Z.sgn_pos by lia. rewrite Z.mul_1_l.
  assert (53 ≤ Z.log2 a)%Z as Hlog by (apply Z.log2_le_pow2; lia).
  destruct (Z.log2_spec a) as [Hlo Hhi]; [lia|]. set (s := (Z.log2 a - 52)%Z) in *.
  assert (0 < 2 ^ s)%Z as Hp by (apply Z.pow_pos_nonneg; lia).
  pose proof (Z.div_mod a (2 ^ s) ltac:(lia)) as Hdm. pose proof (Z.mod_pos_bound a (2 ^ s) Hp) as Hm.
  assert (0 ≤ a / 2 ^ s)%Z as Hq by (apply Z.div_pos; lia).
  assert (∃ c, n * 2 ^ k = c * 2 ^ s)%Z as [c Hc].
  { destruct (Z.le_gt_cases s k) as [Hsk|Hsk].
    - exists (n * 2 ^ (k - s))%Z. rewrite <- Z.mul_assoc, <- Z.pow_add_r by lia. f_equal. f_equal. lia.
    - exists (2 ^ 52)%Z. rewrite <- Z.pow_add_r by lia. apply Z.le_antisymm.
      + transitivity (2 ^ 53 * 2 ^ (s - 1))%Z.
        * apply Z.mul_le_mono_nonneg; [lia|lia|apply Z.pow_nonneg; lia|apply Z.pow_le_mono_r; lia].
        * rewrite <- Z.pow_add_r by lia. apply Z.eq_le_incl. f_equal. lia.
      + transitivity a; [|done]. replace (52 + s)%Z with (Z.log2 a) by lia. done. }
  split; [by case_if; lia|]. split; [lia|]. rewrite Hc in Hle |- *. apply Z.mul_le_mono_nonneg_r; [lia|].
  match goal with |- context [if ?b then _ else _] => destruct b eqn:Hr end; [|nia]. assert (0 < a mod 2 ^ s)%Z; [|nia].
  assert (0 < 2 ^ (s - 1))%Z by (apply Z.pow_pos_nonneg; lia).
  rewrite orb_true_iff, andb_true_iff, Z.ltb_lt, Z.eqb_eq in Hr. lia.
Qed.

Lemma trunc_le d n k :
  (0 ≤ d_man d)%Z → (0 ≤ d_exp d)%Z → (0 ≤ k)%Z → (d_man d * 2 ^ d_exp d ≤ n * 2 ^ k)%Z →
  (0 ≤ d_trunc (d_scale (- k) d) ≤ n)%Z.
Proof.
  intros Hm He Hk Hle. unfold d_trunc, d_scale. cbn [d_man d_exp].
  assert (0 < 2 ^ k)%Z by (apply Z.pow_pos_nonneg; lia). destruct (Z.leb_spec 0 (d_exp d + - k)) as [Hp|Hp].
  - assert (d_man d * 2 ^ d_exp d = d_man d * 2 ^ (d_exp d + - k) * 2 ^ k)%Z as E.
    { rewrite <- Z.mul_assoc, <- Z.pow_add_r by lia. do 2 f_equal. lia. }
    rewrite E in Hle. assert (0 < 2 ^ (d_exp d + - k))%Z by (apply Z.pow_pos_nonneg; lia). nia.
  - assert (0 < 2 ^ (- (d_exp d + - k)))%Z as Hq by (apply Z.pow_pos_nonneg; lia).
    rewrite Z.quot_div_nonneg by lia. split; [apply Z.div_pos; lia|].
    apply Z.div_le_upper_bound; [done|]. rewrite Z.mul_comm.
    assert (2 ^ k = 2 ^ (- (d_exp d + - k)) * 2 ^ d_exp d)%Z as E by (rewrite <- Z.pow_add_r by lia; f_equal; lia).
    rewrite E, Z.mul_assoc in Hle. assert (0 < 2 ^ d_exp d)%Z by (apply Z.pow_pos_nonneg; lia). nia.
Qed.

Lemma unit_cases rate :
  d_leb d_zero rate = true → d_leb rate d_one = true →
  d_man rate = 0%Z ∨ ∃ k, (0 ≤ k ∧ d_exp rate = - k ∧ 0 ≤ d_man rate ≤ 2 ^ k)%Z.
Proof.
  unfold d_leb, d_zero, d_one, d_int. cbn [d_man d_exp]. rewrite !Z.leb_le, Z.mul_0_l, Z.mul_1_l. intros H0 H1.
  destruct (Z.le_gt_cases 0 (d_exp rate)) as [He|He].
  - rewrite Z.min_l in H0 by done. rewrite Z.min_r in H1 by done. rewrite Z.sub_0_r in *. cbn in H1.
    destruct (Z.eq_dec (d_man rate) 0%Z) as [|Hm]; [by left|right]. exists 0%Z.
    assert (0 < 2 ^ d_exp rate)%Z by (apply Z.pow_pos_nonneg; lia).
    destruct (Z.eq_dec (d_exp rate) 0%Z) as [E|E]; [rewrite E in *; cbn in *; lia|].
    assert (2 ^ 1 ≤ 2 ^ d_exp rate)%Z by (apply Z.pow_le_mono_r; lia). nia.
  - right. exists (- d_exp rate)%Z. rewrite Z.min_r in H0 by lia. rewrite Z.min_l in H1 by lia.
    rewrite Z.sub_diag, Z.mul_1_r in *. rewrite Z.sub_0_l in H1. lia.
Qed.

Lemma scaled_io r rate :
  (0 < r ≤ 2 ^ 53)%Z → d_leb d_zero rate = true → d_leb rate d_one = true →
  (0 ≤ d_i64 (d_mul (d_of_int r) rate) ≤ r)%Z.
Proof.
  intros Hr H0 H1. assert (0 ≤ d_trunc (d_mul (d_of_int r) rate) ≤ r)%Z as Ht.
  { unfold d_mul. assert (d_of_int r = d_int r) as ->.
    { unfold d_of_int. rewrite Z.abs_eq by lia. by rewrite (proj2 (Z.leb_le _ _)) by lia. }
    cbn [d_man d_exp d_int]. rewrite Z.add_0_l. destruct (unit_cases rate H0 H1) as [->|(k & Hk & -> & Hm)].
    - rewrite Z.mul_0_r. change (d_of_int 0) with (d_int 0). unfold d_trunc, d_scale.
      cbn [d_man d_exp d_int]. rewrite Z.mul_0_l. destruct (Z.leb_spec 0 (0 + d_exp rate)); [lia|].
      rewrite Z.quot_0_l; [lia|]. apply Z.pow_nonzero; lia.
    - destruct (round_le (r * d_man rate) r k) as (H2 & H3 & H4); [nia|lia|done|nia|]. by apply trunc_le. }
  unfold PolicySig.d_i64. destruct (_ && _) eqn:E; [done|]. exfalso. apply andb_false_iff in E. rewrite Z.leb_gt, Z.ltb_ge in E. lia.
Qed.

(** Whatever the rate in the configuration, [incomplete_io] leaves an
    error or an end of file alone and turns a count of bytes into one between
    zero and itself, touching nothing else of the call. *)
Theorem incomplete_io_bounds t o :
  (ret_val t ≤ 2 ^ 53)%Z → has_value o "rate" = true →
  let '(rc, t') := ia_incomplete_io t (Some o) in
  rc = 0%Z ∧ t' = set_ret_val (ret_val t') t ∧
  if (ret_val t <=? 0)%Z then ret_val t' = ret_val t else (0 ≤ ret_val t' ≤ ret_val t)%Z.
Proof.
  intros Hr Ho. unfold ia_incomplete_io. rewrite Ho. cbn [negb]. destruct (Z.leb_spec (ret_val t) 0) as [Hz|Hz].
  { by destruct t. }
  split; [done|]. split; [done|]. cbn [ret_val set_ret_val]. apply scaled_io; [lia|..];
    destruct (d_leb d_zero (json_object_get_number (Some o) "rate")) eqn:E0; cbn [negb]; try done;
    destruct (d_leb (json_object_get_number (Some o) "rate") d_one) eqn:E1; cbn [negb]; done.
Qed.

End actions.

(** ** Instances *)

Definition toy_proto (name : string) : FuncPrototype :=
  mkProto (lit name) CC_SYSTEM_V [] 0 (lit "int") FAT_NOVARARGS 0.

Definition toy_context (name : string) : ThreadContext := set_prototype (Some (toy_proto name)) zero_context.

(** Two failures for open, then one for read. *)
Definition toy_params (fails retval : Z) : JSON_Object :=
  [(lit "fails", JSONNumber (d_int fails)); (lit "retval_int", JSONNumber (d_int retval)); (lit "limit", JSONNumber (d_int fails))].

Definition toy_calls : list (ThreadContext * JSON_Object) :=
  [(toy_context "open", toy_params 2 (-11)); (toy_context "read", toy_params 1 (-4)); (toy_context "open", toy_params 7 (-11));
   (toy_context "open", toy_params 2 (-11))].

Lemma fault_windows_witness :
  run_all (ia_fail_first (λ _, 0%Z)) toy_calls (empty_table 0%Z) !! 3 = Some (0%Z, toy_context "open") ∧
  run_all (ia_call_count_limit (λ _, 0%Z)) toy_calls (empty_table tt) !! 3 = Some ((-1)%Z, toy_context "open").
Proof.
  destruct (fault_windows (λ _, 0%Z) toy_calls 3 (toy_context "open") (toy_params 2 (-11)) (lit "open")) as [H1 H2].
  - split; [|apply Nat.leb_le; by vm_compute]. by repeat constructor; eexists.
  - reflexivity.
  - reflexivity.
  - split.
    + destruct H1 as (fails & Hf & ->); [by repeat constructor|]. vm_compute in Hf. injection Hf as <-. by vm_compute.
    + destruct H2 as (limit & Hl & ->); [by repeat constructor|]. vm_compute in Hl. injection Hl as <-. by vm_compute.
Defined.

(** Half of the bytes of a read. *)
Definition half_params : JSON_Object := [(lit "rate", JSONNumber (mkDouble 1 (-1)))].

Lemma incomplete_io_bounds_witness :
  let '(rc, t') := ia_incomplete_io (λ _, 0%Z) (set_ret_val 101 zero_context) (Some half_params) in
  rc = 0%Z ∧ (0 ≤ ret_val t' ≤ 101)%Z.
Proof.
  pose proof (incomplete_io_bounds (λ _, 0%Z) (set_ret_val 101 zero_context) half_params) as H.
  destruct (ia_incomplete_io _ _ _) as [rc t']. destruct H as (Hrc & _ & Hb); [by vm_compute|reflexivity|]. split; [exact Hrc|exact Hb].
Defined.

Lemma half_read : ia_incomplete_io (λ _, 0%Z) (set_ret_val 101 zero_context) (Some half_params) = (0%Z, set_ret_val 50 zero_context).
Proof. by vm_compute. Qed.

End Faults.
