(* ===== verification/Replay.v ===== *)
(** * Record and replay

    [src/core/replay.c]: a run with random outcomes writes its seed and each
    outcome to a record, and a later run is given the seed back and compares
    its outcomes with the record. A record that fits the buffer it is read
    into is followed exactly. *)

From S2P Require Import Prelude Numerals Libc Stdio.

Module Replay.

Import Numerals Libc Stdio.

Definition REPLAY_LINE_MAX : nat := 512.
Definition REPLAY_RECORDS_MAX : Z := 65536.

(** The size of the buffer the record is read into. *)
Definition REPLAY_BIG : nat := REPLAY_LINE_MAX * 16.

(** ** State *)

Inductive mode := Unresolved | Off | Record_ | Replay_.

(** The statics of the file. [g_out] is what was written to the record,
    [g_lines] the record that is followed, nothing where its memory could not
    be had or was released. *)
Record replay := mkReplay {
  g_mode : mode;
  g_out : bytes;
  g_open : bool;
  g_seed : Z;
  g_seed_seen : bool;
  g_lines : option (list bytes);
  g_line_next : nat;
  g_matched : nat;
  g_diverged : nat;
}.

Definition fresh : replay := mkReplay Unresolved [] false 0 false None 0 0 0.

(** RETRACE_REPLAY_OUT with whether the file opens, RETRACE_REPLAY_IN with what
    is in the file, and the two allocations. *)
Record Env := mkEnv {
  e_out : option bool;
  e_in : option (option bytes);
  big_alloc : bool;
  lines_alloc : bool;
}.

Definition set_mode (m : mode) (r : replay) : replay :=
  mkReplay m (g_out r) (g_open r) (g_seed r) (g_seed_seen r) (g_lines r) (g_line_next r) (g_matched r) (g_diverged r).

(** ** The record *)

(** The loop that reads the file in pieces of 8192 bytes. *)
Fixpoint slurp (fuel : nat) (big rest : bytes) : bytes :=
  match fuel with
  | O => big
  | S fuel =>
      let chunk := take 8192 rest in
      match chunk with
      | [] => big
      | _ =>
          if REPLAY_BIG <=? length (cstr big) + length chunk then big
          else slurp fuel (cstr big ++ chunk) (drop 8192 rest)
      end
  end.

(** The loop over the lines. *)
Fixpoint split_lines (fuel : nat) (count : Z) (cur : bytes) : list bytes :=
  match fuel with
  | O => []
  | S fuel =>
      match cur with
      | [] => []
      | _ =>
          if (REPLAY_RECORDS_MAX <=? count)%Z then []
          else
            match strchr cur NL with
            | None => []
            | Some nl =>
                snprintf REPLAY_LINE_MAX (take (length cur - length nl) cur) :: split_lines fuel (count + 1) (drop 1 nl)
            end
      end
  end.

Definition read_record (file : bytes) : list bytes :=
  let big := cstr (slurp (S (length file)) [] file) in
  split_lines (S (length big)) 0 big.

Definition resolve_mode (env : Env) (r : replay) : replay :=
  match g_mode r with
  | Unresolved =>
      match e_out env, e_in env with
      | Some _, Some _ => set_mode Off r
      | Some opens, None =>
          if opens then
            mkReplay Record_ (g_out r) true (g_seed r) (g_seed_seen r) (g_lines r) (g_line_next r) (g_matched r) (g_diverged r)
          else set_mode Off r
      | None, Some file =>
          match file with
          | None => set_mode Off r
          | Some file =>
              if big_alloc env then
                mkReplay Replay_ (g_out r) (g_open r) (g_seed r) (g_seed_seen r)
                  (if lines_alloc env then Some (read_record file) else None) (g_line_next r) (g_matched r) (g_diverged r)
              else set_mode Off r
          end
      | None, None => set_mode Off r
      end
  | _ => r
  end.

Definition retrace_replay_mode (env : Env) (r : replay) : Z * replay :=
  let r := resolve_mode env r in
  (match g_mode r with Record_ => 1 | Replay_ => 2 | _ => 0 end%Z, r).

(** [strtoul (s, NULL, 10)]. *)
Fixpoint dec_run (s : bytes) (acc : Z) : Z :=
  match s with
  | [] => acc
  | c :: s => if isdigit c then dec_run s (acc * 10 + (uchar c - 48)) else acc
  end.

Definition strtoul10 (s : bytes) : Z :=
  let s := skip isspace s in
  let neg := ceq (deref s) "-" in
  let s := if ceq (deref s) "-" || ceq (deref s) "+" then drop 1 s else s in
  let v := dec_run s 0 in
  if (2 ^ 64 - 1 <? v)%Z then 2 ^ 64 - 1 else if neg then u64 (- v) else v.

(** The first line of a record. *)
Definition seed_line (seed : Z) : bytes := lit "seed " ++ fmt_llu seed.

Definition retrace_replay_seed (env : Env) (chosen : Z) (r : replay) : Z * replay :=
  let r := resolve_mode env r in
  match g_mode r, g_seed_seen r with
  | Record_, false =>
      (chosen, mkReplay Record_ (g_out r ++ seed_line chosen ++ [NL]) (g_open r) chosen true (g_lines r) (g_line_next r) (g_matched r) (g_diverged r))
  | Replay_, false =>
      let '(seed, next) :=
        match default [] (g_lines r) with
        | l :: _ => if has_prefix (lit "seed ") l then (u32 (strtoul10 (drop 5 l)), 1) else (chosen, g_line_next r)
        | [] => (chosen, g_line_next r)
        end in
      (seed, mkReplay Replay_ (g_out r) (g_open r) seed true (g_lines r) next (g_matched r) (g_diverged r))
  | _, _ => (g_seed r, r)
  end.

Definition or_what (s : option bytes) : bytes := default (lit "?") s.

Definition note_line (func kind value : option bytes) : bytes :=
  or_what func ++ lit " " ++ or_what kind ++ lit " " ++ or_what value.

Definition retrace_replay_note (env : Env) (func kind value : option bytes) (r : replay) : replay :=
  let r := resolve_mode env r in
  match g_mode r with
  | Record_ =>
      if negb (g_open r) then r
      else
      mkReplay Record_ (g_out r ++ note_line func kind value ++ [NL]) true (g_seed r) (g_seed_seen r) (g_lines r) (g_line_next r)
        (g_matched r) (g_diverged r)
  | Replay_ =>
      match g_lines r with
      | None => r
      | Some lines =>
          let want := snprintf REPLAY_LINE_MAX (note_line func kind value) in
          match lines !! g_line_next r with
          | None => mkReplay Replay_ (g_out r) (g_open r) (g_seed r) (g_seed_seen r) (Some lines) (g_line_next r) (g_matched r) (S (g_diverged r))
          | Some l =>
              if streq want l
              then mkReplay Replay_ (g_out r) (g_open r) (g_seed r) (g_seed_seen r) (Some lines) (S (g_line_next r)) (S (g_matched r)) (g_diverged r)
              else mkReplay Replay_ (g_out r) (g_open r) (g_seed r) (g_seed_seen r) (Some lines) (S (g_line_next r)) (g_matched r) (S (g_diverged r))
          end
      end
  | _ => r
  end.

(** The verdict, of a replay: matched, diverged and unconsumed lines. *)
Definition retrace_replay_report (env : Env) (r : replay) : option (nat * nat * nat) * replay :=
  let r := resolve_mode env r in
  match g_mode r with
  | Record_ =>
      (None, mkReplay Record_ (g_out r) false (g_seed r) (g_seed_seen r) (g_lines r) (g_line_next r) (g_matched r) (g_diverged r))
  | Replay_ =>
      (Some (g_matched r, g_diverged r, length (default [] (g_lines r)) - g_line_next r),
       mkReplay Replay_ (g_out r) (g_open r) (g_seed r) (g_seed_seen r) None (g_line_next r) (g_matched r) (g_diverged r))
  | _ => (None, r)
  end.

(** ** What a record is read as *)

Notation line_text := (Forall (λ c, c ≠ NL ∧ c ≠ NUL)).

Definition unlines (ls : list bytes) : bytes := concat (map (λ l, l ++ [NL]) ls).

Lemma line_first l r : line_text l → strchr (l ++ NL :: r) NL = Some (NL :: r).
Proof. intros Hl. apply strchr_app. intros H. by destruct (proj1 (Forall_forall _ _) Hl NL H). Qed.

Lemma split_unlines ls fuel count :
  Forall (λ l, line_text l) ls → length ls < fuel → (count + Z.of_nat (length ls) ≤ REPLAY_RECORDS_MAX)%Z →
  split_lines fuel count (unlines ls) = snprintf REPLAY_LINE_MAX <$> ls.
Proof.
  intros Hls. revert fuel count. induction Hls as [|l ls Hl _ IH]; intros fuel count Hf Hc.
  { by destruct fuel. }
  destruct fuel as [|fuel]; [cbn in Hf; lia|]. cbn [length] in Hf, Hc. unfold unlines. cbn [map concat]. fold (unlines ls).
  rewrite <- app_assoc. cbn [app]. cbn [split_lines]. rewrite line_first by done.
  destruct (Z.leb_spec REPLAY_RECORDS_MAX count); [lia|].
  destruct (l ++ NL :: unlines ls) as [|c0 rest] eqn:E; [by apply app_eq_nil in E as [_ ?]|]. rewrite <- E.
  rewrite length_app. replace (length l + _ - _) with (length l) by lia. rewrite take_app_length. cbn [fmap list_fmap drop].
  f_equal. apply IH; lia.
Qed.

Lemma unlines_no_nul ls : Forall (λ l, line_text l) ls → no_nul (unlines ls).
Proof.
  induction 1 as [|l ls Hl _ IH]; [constructor|]. unfold unlines. cbn [map concat]. apply Forall_app. split; [|exact IH].
  apply Forall_app. split; [eapply Forall_impl; [exact Hl|by intros c []]|by repeat constructor].
Qed.

Lemma unlines_count ls : length ls ≤ length (unlines ls).
Proof. induction ls as [|l ls IH]; [done|]. unfold unlines. cbn [map concat length]. fold (unlines ls). rewrite !length_app. cbn. lia. Qed.

Lemma slurp_whole file : no_nul file → length file < REPLAY_BIG → slurp (S (length file)) [] file = file.
Proof.
  intros Hn Hl. assert (take 8192 file = file) as Et by (apply take_ge, Nat.lt_le_incl; exact Hl).
  assert (drop 8192 file = []) as Ed by (apply drop_ge, Nat.lt_le_incl; exact Hl).
  cbn [slurp]. rewrite Et. destruct file as [|c file]; [done|]. cbn [cstr length Nat.add].
  rewrite (proj2 (Nat.leb_gt _ _)) by exact Hl. rewrite Ed. by destruct (length file).
Qed.

Lemma read_unlines ls :
  Forall (λ l, line_text l) ls → length (unlines ls) < REPLAY_BIG → read_record (unlines ls) = snprintf REPLAY_LINE_MAX <$> ls.
Proof.
  intros Hls Hl. unfold read_record. pose proof (unlines_no_nul ls Hls) as Hn. rewrite slurp_whole, cstr_id by done.
  pose proof (unlines_count ls) as Hc. apply split_unlines; [done|lia|].
  assert (length ls ≤ REPLAY_BIG) as Hb%Nat2Z.inj_le by lia. etransitivity; [exact Hb|]. by vm_compute.
Qed.

(** ** The seed *)

Lemma digit_runs c : (48 ≤ uchar c ≤ 57)%Z → isdigit c = true ∧ digit_val c = (uchar c - 48)%Z.
Proof.
  intros H. split; [unfold isdigit, in_range; rewrite !(proj2 (Z.leb_le _ _)) by lia; done|].
  destruct c as [[] [] [] [] [] [] [] []]; vm_compute in H |- *; by destruct H.
Qed.

Lemma dec_run_num s acc :
  Forall (λ c, (48 ≤ uchar c ≤ 57)%Z) s → dec_run s acc = foldl (λ v c, v * 10 + digit_val c)%Z acc s.
Proof.
  intros Hs. revert acc. induction Hs as [|c s Hc _ IH]; intros acc; [done|]. cbn [dec_run foldl].
  destruct (digit_runs c Hc) as [-> ->]. apply IH.
Qed.

Lemma strtoul_fmt z : (0 ≤ z < 2 ^ 64)%Z → strtoul10 (fmt_llu z) = z.
Proof.
  intros Hz. assert (Forall (λ c, (48 ≤ uchar c ≤ 57)%Z) (fmt_llu z)) as Hd by (apply fmt_llu_digits; lia).
  assert (dec_run (fmt_llu z) 0 = z) as Hr.
  { rewrite dec_run_num by done. unfold fmt_llu. apply read_digits; [lia|lia|done|done]. }
  unfold strtoul10. destruct (fmt_llu z) as [|c s] eqn:E; [done|]. apply Forall_cons in Hd as [Hc _].
  assert (isspace c = false ∧ ceq c "-" = false ∧ ceq c "+" = false) as (H1 & H2 & H3).
  { clear -Hc. destruct c as [[] [] [] [] [] [] [] []]; vm_compute in Hc |- *; done || by destruct Hc. }
  cbn [skip]. rewrite H1. change (deref (c :: s)) with c. rewrite H2, H3. cbn [orb]. rewrite Hr.
  by rewrite (proj2 (Z.ltb_ge _ _)) by lia.
Qed.

(** ** A recorded run *)

Notation note := (bytes * bytes * bytes)%type.

Definition note_text (n : note) : bytes := note_line (Some n.1.1) (Some n.1.2) (Some n.2).

Definition write_note (env : Env) (r : replay) (n : note) : replay :=
  retrace_replay_note env (Some n.1.1) (Some n.1.2) (Some n.2) r.

Definition recording : Env := mkEnv (Some true) None true true.
Definition replaying (file : bytes) : Env := mkEnv None (Some (Some file)) true true.

(** A run that has written its seed and notes, and one that has followed them. *)
Definition recorded (seed : Z) (ns : list note) : replay :=
  mkReplay Record_ (unlines (seed_line seed :: (note_text <$> ns))) true seed true None 0 0 0.

Definition followed (lines : list bytes) (seed : Z) (k : nat) : replay :=
  mkReplay Replay_ [] false seed true (Some lines) (S k) k 0.

Lemma unlines_app ls ls' : unlines (ls ++ ls') = unlines ls ++ unlines ls'.
Proof. unfold unlines. by rewrite map_app, concat_app. Qed.

Lemma record_seed chosen : retrace_replay_seed recording chosen fresh = (chosen, recorded chosen []).
Proof. unfold recorded, unlines. cbn [fmap list_fmap map concat]. by rewrite app_nil_r. Qed.

Lemma record_note seed ns n : write_note recording (recorded seed ns) n = recorded seed (ns ++ [n]).
Proof.
  unfold write_note, recorded, retrace_replay_note. cbn [resolve_mode g_mode g_open negb]. f_equal. cbn [g_out].
  rewrite fmap_app. cbn [fmap list_fmap]. rewrite app_comm_cons, unlines_app. unfold unlines at 3. cbn [map concat]. by rewrite app_nil_r.
Qed.

Lemma seed_text seed : (0 ≤ seed)%Z → line_text (seed_line seed).
Proof.
  intros H. unfold seed_line. apply Forall_app. split; [by repeat constructor|].
  eapply Forall_impl; [apply fmt_llu_digits; lia|]. cbn. intros c [Hc _]. split; intros ->; by vm_compute in Hc.
Qed.

Lemma seed_fits seed : snprintf REPLAY_LINE_MAX (seed_line seed) = seed_line seed.
Proof.
  unfold snprintf. apply take_ge. unfold seed_line. rewrite length_app. pose proof (digits_length 10 20 seed []) as H.
  fold (fmt_llu seed) in H. cbn [length lit list_ascii_of_string] in H |- *. unfold REPLAY_LINE_MAX. lia.
Qed.

(** The record that a run leaves. *)
Definition record_lines (seed : Z) (ns : list note) : list bytes := snprintf REPLAY_LINE_MAX <$> (seed_line seed :: (note_text <$> ns)).

Lemma replay_seed seed ns chosen :
  (0 ≤ seed < 2 ^ 32)%Z → Forall (λ n, line_text (note_text n)) ns → length (g_out (recorded seed ns)) < REPLAY_BIG →
  retrace_replay_seed (replaying (g_out (recorded seed ns))) chosen fresh = (seed, followed (record_lines seed ns) seed 0).
Proof.
  intros Hs Hns Hl. unfold retrace_replay_seed. cbn [resolve_mode fresh g_mode e_out e_in replaying big_alloc lines_alloc g_seed_seen].
  cbn [recorded g_out] in *. rewrite read_unlines; [|constructor; [apply seed_text; lia|by apply Forall_fmap]|done].
  fold (record_lines seed ns). cbn [g_lines default].
  assert (record_lines seed ns = seed_line seed :: tail (record_lines seed ns)) as Hh.
  { unfold record_lines. cbn [fmap list_fmap tail]. by rewrite seed_fits. }
  destruct (record_lines seed ns) as [|l tl]; [done|]. injection Hh as ->. unfold id. cbv beta iota.
  change (has_prefix (lit "seed ") (seed_line seed)) with true.
  change (drop 5 (seed_line seed)) with (fmt_llu seed).
  rewrite strtoul_fmt by lia.
  assert (u32 seed = seed) as -> by (unfold u32, wrap_u; apply Z.mod_small; lia). done.
Qed.

Lemma replay_note seed ns k n env :
  ns !! k = Some n → write_note env (followed (record_lines seed ns) seed k) n = followed (record_lines seed ns) seed (S k).
Proof.
  intros Hk. unfold write_note, retrace_replay_note, followed. cbn [resolve_mode g_mode g_lines g_line_next].
  assert (record_lines seed ns !! S k = Some (snprintf REPLAY_LINE_MAX (note_text n))) as ->.
  { unfold record_lines. rewrite list_lookup_fmap. change ((seed_line seed :: (note_text <$> ns)) !! S k) with ((note_text <$> ns) !! k).
    by rewrite list_lookup_fmap, Hk. }
  unfold note_text. by rewrite streq_refl.
Qed.

Lemma replay_report seed ns env :
  (retrace_replay_report env (followed (record_lines seed ns) seed (length ns))).1 = Some (length ns, 0, 0).
Proof.
  change (Some (length ns, 0, length (record_lines seed ns) - S (length ns)) = Some (length ns, 0, 0)).
  unfold record_lines. rewrite length_fmap, length_cons, length_fmap. do 3 f_equal. lia.

Qed.

Lemma record_all seed pre post : foldl (write_note recording) (recorded seed pre) post = recorded seed (pre ++ post).
Proof.
  revert pre. induction post as [|n post IH]; intros pre; cbn [foldl]; [by rewrite app_nil_r|].
  rewrite record_note, IH. by rewrite <- app_assoc.
Qed.

Lemma follow_all seed ns env :
  foldl (write_note env) (followed (record_lines seed ns) seed 0) ns = followed (record_lines seed ns) seed (length ns).
Proof.
  assert (∀ k, k ≤ length ns → foldl (write_note env) (followed (record_lines seed ns) seed 0) (take k ns)
    = followed (record_lines seed ns) seed k) as H.
  { induction k as [|k IH]; intros Hk; [done|]. destruct (lookup_lt_is_Some_2 ns k) as [n Hn]; [lia|].
    rewrite (take_S_r ns k n Hn), foldl_app, IH by lia. cbn [foldl]. by apply replay_note. }
  rewrite <- (firstn_all ns) at 2. by apply H.
Qed.

(** A record of less than 8192 bytes is followed exactly: the
    replay is given the recorded seed whatever it would have chosen, and when it
    reports the same outcomes in the same order, all of them match and none is
    left over. *)
Theorem replay_follows_record seed chosen ns :
  (0 ≤ seed < 2 ^ 32)%Z → Forall (λ n, line_text (note_text n)) ns →
  let file := g_out (foldl (write_note recording) (retrace_replay_seed recording seed fresh).2 ns) in
  length file < REPLAY_BIG →
  let run := retrace_replay_seed (replaying file) chosen fresh in
  run.1 = seed ∧
  (retrace_replay_report (replaying file) (foldl (write_note (replaying file)) run.2 ns)).1 = Some (length ns, 0, 0).
Proof.
  intros Hs Hns. rewrite record_seed. cbn [snd].
  rewrite record_all. cbn [app]. intros Hl. rewrite replay_seed by done. split; [done|]. cbn [snd].
  rewrite follow_all. apply replay_report.
Qed.

Definition toy_notes : list note := [(lit "malloc", lit "memfuzz", lit "fail"); (lit "malloc", lit "memfuzz", lit "ok")].

Definition toy_file : bytes := unlines [lit "seed 7"; lit "malloc memfuzz fail"; lit "malloc memfuzz ok"].

Lemma replay_follows_record_witness :
  (retrace_replay_seed (replaying toy_file) 99 fresh).1 = 7%Z ∧
  (retrace_replay_report (replaying toy_file)
     (foldl (write_note (replaying toy_file)) (retrace_replay_seed (replaying toy_file) 99 fresh).2 toy_notes)).1 = Some (2, 0, 0).
Proof.
  apply (replay_follows_record 7 99 toy_notes); [lia|by repeat (apply Forall_cons; split)|].
  apply Nat.ltb_lt. by vm_compute.
Defined.

(** Without a record the seed that was chosen is not used: every run gets 0. *)
Lemma seed_ignored chosen : (retrace_replay_seed (mkEnv None None true true) chosen fresh).1 = 0%Z.
Proof. done. Qed.

(** A record of 8192 bytes is read as an empty one. *)
Lemma long_record_lost : read_record (concat (replicate 1024 (lit "f k ok!" ++ [NL]))) = [].
Proof. by vm_compute. Qed.

End Replay.
