(* ===== verification/Fuzz.v ===== *)
(** * Fuzzing

    The actions of [src/core/actions/memfuzz.c] and
    [src/core/actions/fuzzing_seed.c], with the dictionaries of
    [src/core/actions/fuzz_dict.c], over the record of [Replay]. The generator of
    the C library, its [malloc] and the files are arguments. *)

From stdpp Require Import gmap.
From S2P Require Import Prelude Context Numerals Libc Stdio Json LogRing Replay Lanes Faults.

Module Fuzz.

Import Context Numerals Libc Stdio Json Replay Faults.

(** ** Dictionaries *)

Definition FUZZ_DICT_MAX : nat := 256.
Definition FUZZ_DICT_TOKEN_MAX : nat := 4096.

(** [expand_template]: [o] bytes are in [out] already. *)
Fixpoint expand_template (fuel : nat) (p : bytes) (out : bytes) (out_max : nat) (tokens : list bytes) : option bytes :=
  match fuel, p with
  | _, [] => Some out
  | O, _ => None
  | S fuel, c :: p' =>
      if ceq c "%" && in_range 49 57 (deref p') && ceq (deref (drop 1 p')) "%"
      then
        match tokens !! Z.to_nat (uchar (deref p') - 49) with
        | None => None
        | Some tok =>
            if out_max <=? length out + length tok then None
            else expand_template fuel (drop 3 p) (out ++ tok) out_max tokens
        end
      else if out_max <=? length out + 1 then None
      else expand_template fuel p' (out ++ [c]) out_max tokens
  end.

(** The size of [g_fuzz_str_path]. *)
Definition FUZZ_STR_PATH_MAX : nat := 512.

Definition is_blank (c : ascii) : bool := ceq c " " || ceq c "009" || ceq c "013".

(** The bytes of a line: up to a newline or a terminator. *)
Fixpoint line_of (raw : bytes) : bytes :=
  match raw with
  | [] => []
  | c :: raw => if ceq c NUL || ceq c NL then [] else c :: line_of raw
  end.

(** The loop over trailing blanks. *)
Fixpoint trim_right (s : bytes) : bytes :=
  match s with
  | [] => []
  | c :: s => match trim_right s with [] => if is_blank c then [] else [c] | s' => c :: s' end
  end.

(** [memcpy (templates[n], line + lead + 1, len - 1)]: the length is that of the
    line with its leading blanks, so the copy runs on behind the line; [None]
    when it leaves the allocated bytes, which end with a terminator. *)
Definition copy_template (raw : bytes) (lead len : nat) : option bytes :=
  let l := if FUZZ_DICT_TOKEN_MAX <=? len - 1 then FUZZ_DICT_TOKEN_MAX - 1 else len - 1 in
  let src := drop (lead + 1) (raw ++ [NUL]) in
  if length src <? l then None else Some (cstr (take l src)).

(** The scan: the flat tokens and the templates. *)
Fixpoint scan (fuel : nat) (raw : bytes) (tokens templates : list bytes) : option (list bytes * list bytes) :=
  match fuel, raw with
  | _, [] => Some (tokens, templates)
  | O, _ => Some (tokens, templates)
  | S fuel, _ =>
      if FUZZ_DICT_MAX <=? length tokens then Some (tokens, templates)
      else
        let line := line_of raw in
        let body := skip is_blank line in
        let lead := length line - length body in
        let next := drop (length line + 1) raw in
        match body with
        | [] => scan fuel next tokens templates
        | c :: _ =>
            if ceq c "#" then scan fuel next tokens templates
            else if ceq c "@" then
              if length templates <? FUZZ_DICT_MAX then
                match copy_template raw lead (length line) with
                | None => None
                | Some tmpl => scan fuel next tokens (templates ++ [tmpl])
                end
              else scan fuel next tokens templates
            else
              scan fuel next (tokens ++ [take (FUZZ_DICT_TOKEN_MAX - 1) (trim_right body)]) templates
        end
  end.

(** The expansions behind the flat tokens. *)
Fixpoint expand_all (templates tokens : list bytes) (flat : list bytes) : option (list bytes) :=
  match templates with
  | [] => Some tokens
  | tmpl :: templates =>
      if FUZZ_DICT_MAX <=? length tokens then Some tokens
      else
        match expand_template (length tmpl) tmpl [] FUZZ_DICT_TOKEN_MAX flat with
        | None => None
        | Some e => expand_all templates (tokens ++ [e]) flat
        end
  end.

(** The result and the tokens of the dictionary; [None] outside is a read out of
    bounds. The argument is what the file holds, where it can be opened, measured
    and given a buffer. *)
Definition fuzz_dict_load (file : option bytes) : option (Z * list bytes) :=
  match file with
  | None => Some ((-1)%Z, [])
  | Some content =>
      let raw := take (FUZZ_DICT_MAX * FUZZ_DICT_TOKEN_MAX) content in
      match scan (length raw) raw [] [] with
      | None => None
      | Some (flat, templates) =>
          match expand_all templates flat flat with
          | None => Some ((-1)%Z, [])
          | Some tokens => Some (0%Z, tokens)
          end
      end
  end.

(** *** What a dictionary can hold *)

Definition token_ok (t : bytes) : Prop := length t < FUZZ_DICT_TOKEN_MAX.

Lemma expand_bound fuel p out max tokens e :
  length out < max → expand_template fuel p out max tokens = Some e → length e < max.
Proof.
  revert p out. induction fuel as [|fuel IH]; intros [|c p] out Ho; cbn [expand_template]; [by intros [= <-]|done|by intros [= <-]|].
  destruct (_ && _ && _).
  - destruct (tokens !! _) as [tok|]; [|done]. destruct (Nat.leb_spec max (length out + length tok)); [done|].
    apply IH. rewrite length_app. lia.
  - destruct (Nat.leb_spec max (length out + 1)); [done|]. apply IH. rewrite length_app. cbn. lia.
Qed.

Lemma scan_bound fuel raw tokens templates flat ts :
  length tokens ≤ FUZZ_DICT_MAX → Forall token_ok tokens →
  scan fuel raw tokens templates = Some (flat, ts) → length flat ≤ FUZZ_DICT_MAX ∧ Forall token_ok flat.
Proof.
  revert raw tokens templates. induction fuel as [|fuel IH]; intros [|c raw] tokens templates Hl Hok; cbn [scan];
    [by intros [= <- _]|by intros [= <- _]|by intros [= <- _]|].
  destruct (Nat.leb_spec FUZZ_DICT_MAX (length tokens)); [by intros [= <- _]|].
  destruct (skip is_blank _) as [|d body]; [by apply IH|].
  destruct (ceq d "#"); [by apply IH|]. destruct (ceq d "@").
  - destruct (_ <? _); [|by apply IH]. destruct (copy_template _ _ _); [by apply IH|done].
  - apply IH; [rewrite length_app; cbn; lia|]. apply Forall_app. split; [done|]. apply Forall_singleton.
    unfold token_ok, FUZZ_DICT_TOKEN_MAX. rewrite length_take. lia.
Qed.

Lemma expand_all_bound templates tokens flat ts :
  length tokens ≤ FUZZ_DICT_MAX → Forall token_ok tokens →
  expand_all templates tokens flat = Some ts → length ts ≤ FUZZ_DICT_MAX ∧ Forall token_ok ts.
Proof.
  revert tokens. induction templates as [|tmpl templates IH]; intros tokens Hl Hok; cbn [expand_all]; [by intros [= <-]|].
  destruct (Nat.leb_spec FUZZ_DICT_MAX (length tokens)); [by intros [= <-]|].
  destruct (expand_template _ _ _ _ _) as [e|] eqn:E; [|done].
  apply IH; [rewrite length_app; cbn; lia|]. apply Forall_app. split; [done|]. apply Forall_singleton.
  eapply expand_bound; [|exact E]. apply Nat.lt_0_succ.
Qed.

(** The tokens fit the array of the dictionary. *)
Lemma fuzz_dict_bounds file rc tokens :
  fuzz_dict_load file = Some (rc, tokens) → length tokens ≤ FUZZ_DICT_MAX ∧ Forall token_ok tokens.
Proof.
  assert (length (@nil bytes) ≤ FUZZ_DICT_MAX) as H0 by apply Nat.le_0_l.
  unfold fuzz_dict_load. destruct file as [content|]; [|by intros [= _ <-]].
  destruct (scan _ _ [] []) as [[flat ts]|] eqn:E; [|done].
  destruct (scan_bound _ _ _ _ _ _ H0 (Forall_nil_2 _) E) as [Hl Hf].
  destruct (expand_all ts flat flat) as [tokens'|] eqn:E'; intros [= <- <-]; [|done].
  by apply (expand_all_bound _ _ _ _ Hl Hf E').
Qed.

(** *** Flat dictionaries are read as written *)

Definition flat_token (t : bytes) : Prop :=
  Forall (λ c, c ≠ NL ∧ c ≠ NUL) t ∧ length t < FUZZ_DICT_TOKEN_MAX ∧
  ∃ c t', t = c :: t' ∧ is_blank c = false ∧ c ≠ "#"%char ∧ c ≠ "@"%char ∧ is_blank (List.last t c) = false.

Lemma line_of_line t rest : Forall (λ c, c ≠ NL ∧ c ≠ NUL) t → line_of (t ++ NL :: rest) = t.
Proof.
  induction 1 as [|c t [Hn H0] Ht IH]; cbn; [done|].
  apply ceq_false in Hn, H0. by rewrite Hn, H0, IH.
Qed.

Lemma trim_right_id t c : t ≠ [] → is_blank (List.last t c) = false → trim_right t = t.
Proof.
  induction t as [|d t IH]; [done|]. intros _ H. destruct t as [|e t]; [cbn in *; by rewrite H|].
  change (List.last (d :: e :: t) c) with (List.last (e :: t) c) in H.
  change (trim_right (d :: e :: t)) with (match trim_right (e :: t) with [] => if is_blank d then [] else [d] | s' => d :: s' end).
  by rewrite IH.
Qed.

Lemma scan_flat toks fuel tokens :
  Forall flat_token toks → length (unlines toks) ≤ fuel → length tokens + length toks ≤ FUZZ_DICT_MAX →
  scan fuel (unlines toks) tokens [] = Some (tokens ++ toks, []).
Proof.
  intros H. revert fuel tokens. induction H as [|t toks Ht Htoks IH]; intros fuel tokens Hf Hl.
  { rewrite app_nil_r. by destruct fuel. }
  destruct Ht as (Hline & Hlen & c & t' & -> & Hb & Hh & Ha & Hlast).
  change (unlines ((c :: t') :: toks)) with (((c :: t') ++ [NL]) ++ unlines toks) in *. rewrite <- app_assoc in *. cbn [app] in *.
  destruct fuel as [|fuel]; [cbn in Hf; lia|]. cbn [length] in *.
  cbn [scan]. destruct (Nat.leb_spec FUZZ_DICT_MAX (length tokens)); [lia|].
  pose proof (line_of_line (c :: t') (unlines toks) Hline) as Hlo. cbn [app] in Hlo. rewrite Hlo.
  cbn [skip]. rewrite Hb. apply ceq_false in Hh, Ha. rewrite Hh, Ha.
  rewrite (trim_right_id (c :: t') c) by done. rewrite take_ge by (cbn [length]; unfold FUZZ_DICT_TOKEN_MAX in *; lia).
  assert (drop (length (c :: t') + 1) (c :: t' ++ NL :: unlines toks) = unlines toks) as ->.
  { cbn [length Nat.add drop]. rewrite drop_app_ge by lia. replace (length t' + 1 - length t') with 1 by lia. done. }
  rewrite IH; [by rewrite <- app_assoc|rewrite length_app in Hf; cbn [length] in Hf; lia|rewrite length_app; cbn; lia].
Qed.

Lemma fuzz_dict_reads toks :
  Forall flat_token toks → length toks ≤ FUZZ_DICT_MAX → length (unlines toks) ≤ FUZZ_DICT_MAX * FUZZ_DICT_TOKEN_MAX →
  fuzz_dict_load (Some (unlines toks)) = Some (0%Z, toks).
Proof.
  intros Ht Hl Hb. unfold fuzz_dict_load. rewrite take_ge by done. by rewrite scan_flat.
Qed.

(** ** The actions *)

Section fuzz.
Context {R : Type} (srand : Z → R) (rand : R → Z * R) (RAND_MAX : Z).
Context (out_of_range : double → Z) (files : bytes → option bytes) (malloc : gmap Z bytes → nat → Z) (dict_alloc : bool).

(** The static storage of the two files and of the replay, the generator, [errno]
    and the strings in memory. *)
Record fuzz := mkFuzz {
  initialized : bool;
  g_fuzzing_seed : option Z;
  g_fuzz_str_dict : option (list bytes);
  g_fuzz_str_path : bytes;
  rng : R;
  errno : Z;
  heap : gmap Z bytes;
  rp : replay;
}.

Definition set_rng (r : R) (s : fuzz) : fuzz :=
  mkFuzz (initialized s) (g_fuzzing_seed s) (g_fuzz_str_dict s) (g_fuzz_str_path s) r (errno s) (heap s) (rp s).
Definition set_fuzzing_seed (seed : Z) (s : fuzz) : fuzz :=
  mkFuzz (initialized s) (Some seed) (g_fuzz_str_dict s) (g_fuzz_str_path s) (srand seed) (errno s) (heap s) (rp s).
Definition set_dict (d : option (list bytes)) (path : bytes) (s : fuzz) : fuzz :=
  mkFuzz (initialized s) (g_fuzzing_seed s) d path (rng s) (errno s) (heap s) (rp s).
Definition set_errno (e : Z) (s : fuzz) : fuzz :=
  mkFuzz (initialized s) (g_fuzzing_seed s) (g_fuzz_str_dict s) (g_fuzz_str_path s) (rng s) e (heap s) (rp s).
Definition set_heap (h : gmap Z bytes) (s : fuzz) : fuzz :=
  mkFuzz (initialized s) (g_fuzzing_seed s) (g_fuzz_str_dict s) (g_fuzz_str_path s) (rng s) (errno s) h (rp s).
Definition set_rp (r : replay) (s : fuzz) : fuzz :=
  mkFuzz (initialized s) (g_fuzzing_seed s) (g_fuzz_str_dict s) (g_fuzz_str_path s) (rng s) (errno s) (heap s) r.

(** What a process finds in its environment. *)
Record Proc := mkProc { p_replay : Env; p_seed : option bytes; p_time : Z }.

Definition d_uint (d : double) : Z :=
  if (0 <=? d_trunc d)%Z && (d_trunc d <? 2 ^ 32)%Z then d_trunc d else u32 (out_of_range d).

Definition chosen_seed (env : Proc) (action_params : JSON_Object) : Z :=
  if has_value action_params "fuzz_seed" then d_uint (json_object_get_number (Some action_params) "fuzz_seed")
  else match p_seed env with
       | Some v => u32 (LogRing.atoi v)
       | None => u32 (p_time env)
       end.

Definition fuzz_seed_init (env : Proc) (action_params : JSON_Object) (s : fuzz) : fuzz :=
  if initialized s then s
  else
    let '(seed, r) := retrace_replay_seed (p_replay env) (chosen_seed env action_params) (rp s) in
    mkFuzz true (g_fuzzing_seed s) (g_fuzz_str_dict s) (g_fuzz_str_path s) (srand seed) (errno s) (heap s) r.

Definition retrace_actions_fuzzing_seed_maybe_apply (s : fuzz) : fuzz :=
  match g_fuzzing_seed s with
  | Some seed => set_rng (srand seed) s
  | None => s
  end.

Definition ia_fuzzing_seed (env : Proc) (t : ThreadContext) (action_params : option JSON_Object) (s : fuzz)
    : option (Z * ThreadContext * fuzz) :=
  match action_params with
  | None => Some ((-1)%Z, t, s)
  | Some o =>
      if negb (has_value o "seed") then Some ((-1)%Z, t, s)
      else
        let seed := d_uint (json_object_get_number (Some o) "seed") in
        Some (0%Z, t, set_fuzzing_seed seed s)
  end.

Definition ENOMEM : Z := 12.

(** [retrace_replay_note (t_ctx->prototype->name, kind, value)]; without a
    prototype the name is read through NULL. *)
Definition note_call (env : Proc) (t : ThreadContext) (kind value : bytes) (s : fuzz) : option fuzz :=
  match prototype t with
  | None => None
  | Some p => Some (set_rp (retrace_replay_note (p_replay env) (Some (fp_name p)) (Some kind) (Some value) (rp s)) s)
  end.

Definition ia_memory_fuzz (env : Proc) (t : ThreadContext) (action_params : option JSON_Object) (s : fuzz)
    : option (Z * ThreadContext * fuzz) :=
  match action_params with
  | None => Some ((-1)%Z, t, s)
  | Some o =>
      let s := fuzz_seed_init env o s in
      let s := retrace_actions_fuzzing_seed_maybe_apply s in
      if negb (has_value o "fail_rate") then Some ((-1)%Z, t, s)
      else
        let fail_rate := json_object_get_number (Some o) "fail_rate" in
        let '(random_value, r) := rand (rng s) in
        let s := set_rng r s in
        if d_leb (d_of_int random_value) (d_mul (d_of_int RAND_MAX) fail_rate) then
          match note_call env t (lit "memfuzz") (lit "fail") (set_errno ENOMEM s) with
          | None => None
          | Some s => Some (0%Z, set_ret_val 0 t, s)
          end
        else
          match note_call env t (lit "memfuzz") (lit "ok") s with
          | None => None
          | Some s => Some (0%Z, t, s)
          end
  end.

Definition reload (dict_path : bytes) (s : fuzz) : option (fuzz + fuzz) :=
  match fuzz_dict_load (files dict_path) with
  | None => None
  | Some (rc, tokens) =>
      if negb (rc =? 0)%Z then Some (inr (set_dict (Some tokens) (g_fuzz_str_path s) s))
      else if FUZZ_STR_PATH_MAX <=? length dict_path then None
      else Some (inl (set_dict (Some tokens) dict_path s))
  end.

(** The dictionary of the action: loaded when there is none yet or the path is
    another one. [inr] is a failure with what it leaves, [None] a path that
    does not fit its buffer or a read out of bounds. *)
Definition dict_for (dict_path : bytes) (s : fuzz) : option (fuzz + fuzz) :=
  match g_fuzz_str_dict s with
  | Some _ => if streq (g_fuzz_str_path s) dict_path then Some (inl s) else reload dict_path s
  | None => if dict_alloc then reload dict_path s else Some (inr s)
  end.

(** [fuzz_dict_pick]. *)
Definition fuzz_dict_pick (tokens : list bytes) (s : fuzz) : option bytes * fuzz :=
  match tokens with
  | [] => (None, s)
  | _ => let '(v, r) := rand (rng s) in (tokens !! Z.to_nat (v mod Z.of_nat (length tokens)), set_rng r s)
  end.

(** The new value of the parameter, in memory of its own. *)
Definition put_token (i : nat) (p : FuncParam) (token : bytes) (t : ThreadContext) (s : fuzz) : option (ThreadContext * fuzz) :=
  let h := if free_val p then delete (val p) (heap s) else heap s in
  let a := malloc h (S (length token)) in
  if (a =? 0)%Z then None
  else Some (set_params (<[i := mkParam (param_meta p) a true]> (params t)) t, set_heap (<[a := token]> h) s).

(** The end of the action: the pick, the write and the note. *)
Definition fuzz_param (env : Proc) (i : nat) (p : FuncParam) (t : ThreadContext) (s : fuzz) : option (Z * ThreadContext * fuzz) :=
  match fuzz_dict_pick (default [] (g_fuzz_str_dict s)) s with
  | (None, s) => Some ((-1)%Z, t, s)
  | (Some token, s) =>
      match put_token i p token t s with
      | None => None
      | Some (t, s) =>
          match note_call env t (lit "fuzz_str") token s with
          | None => None
          | Some s => Some (0%Z, t, s)
          end
      end
  end.

(** The action once its dictionary is there. *)
Definition fuzz_target (env : Proc) (t : ThreadContext) (o : JSON_Object) (param_name : bytes) (s : fuzz)
    : option (Z * ThreadContext * fuzz) :=
  match retrace_action_find_param t param_name ≫= λ i, (i,.) <$> params t !! i with
  | None => Some ((-1)%Z, t, s)
  | Some (i, p) =>
      if negb (bool_decide (pm_direction (param_meta p) = PDIR_IN)) then Some ((-1)%Z, t, s)
      else if negb (has_mod (pm_modifiers (param_meta p)) CDM_POINTER)
              || negb (streq (pm_ref_type_name (param_meta p)) (lit "sz")) then Some ((-1)%Z, t, s)
      else
        match json_object_get_string (Some o) "match_str" with
        | None => fuzz_param env i p t s
        | Some match_str =>
            match heap s !! val p with
            | None => None
            | Some v => if streq match_str v then fuzz_param env i p t s else Some (0%Z, t, s)
            end
        end
  end.

(** The action after its seed is settled. *)
Definition fuzz_str (env : Proc) (t : ThreadContext) (o : JSON_Object) (s : fuzz) : option (Z * ThreadContext * fuzz) :=
  match json_object_get_string (Some o) "param_name", json_object_get_string (Some o) "dict" with
  | None, _ | _, None => Some ((-1)%Z, t, s)
  | Some param_name, Some dict_path =>
      match dict_for dict_path s with
      | None => None
      | Some (inr s) => Some ((-1)%Z, t, s)
      | Some (inl s) =>
          fuzz_target env t o param_name s
      end
  end.

Definition ia_fuzz_str (env : Proc) (t : ThreadContext) (action_params : option JSON_Object) (s : fuzz)
    : option (Z * ThreadContext * fuzz) :=
  match action_params with
  | None => Some ((-1)%Z, t, s)
  | Some o => fuzz_str env t o (retrace_actions_fuzzing_seed_maybe_apply (fuzz_seed_init env o s))
  end.

(** ** A run *)

Inductive action := FuzzingSeed | MemoryFuzz | FuzzStr.

Definition act (a : action) : Proc → ThreadContext → option JSON_Object → fuzz → option (Z * ThreadContext * fuzz) :=
  match a with FuzzingSeed => ia_fuzzing_seed | MemoryFuzz => ia_memory_fuzz | FuzzStr => ia_fuzz_str end.

(** The actions of a run one after the other, with what each of them returned
    and left in the context of its call. *)
Fixpoint run (env : Proc) (calls : list (action * ThreadContext * option JSON_Object)) (s : fuzz)
    : option (list (Z * ThreadContext) * fuzz) :=
  match calls with
  | [] => Some ([], s)
  | (a, t, o) :: calls =>
      match act a env t o s with
      | None => None
      | Some (rc, t, s) =>
          match run env calls s with
          | None => None
          | Some (outs, s) => Some ((rc, t) :: outs, s)
          end
      end
  end.

(** ** A run and its record *)

(** The result of an action whose notes have been taken out of it. *)
Definition emit (env : Proc) (r : replay) (x : option (Z * ThreadContext * fuzz * list note)) : option (Z * ThreadContext * fuzz) :=
  match x with
  | None => None
  | Some (rc, t, s, ns) => Some (rc, t, set_rp (foldl (write_note (p_replay env)) r ns) s)
  end.

(** The seed is set, and the tokens of the dictionary are lines. *)
Definition good (s : fuzz) : Prop := initialized s = true ∧ Forall line_text (default [] (g_fuzz_str_dict s)).

Definition name_ok (t : ThreadContext) : Prop := match prototype t with Some p => line_text (fp_name p) | None => True end.

(** Once the seed is set, an action does the same whatever the environment and
    the record, but for the notes it adds to the record. *)
Definition steady (f : Proc → fuzz → option (Z * ThreadContext * fuzz)) (s : fuzz) : Prop :=
  ∃ x, (∀ env r, f env (set_rp r s) = emit env r x) ∧
       ∀ y, x = Some y → good y.1.2 ∧ Forall (λ n, line_text (note_text n)) y.2.

Lemma steady_quiet f s rc t s' :
  (∀ env r, f env (set_rp r s) = Some (rc, t, set_rp r s')) → good s' → steady f s.
Proof. intros H Hi. exists (Some (rc, t, s', [])). split; [exact H|]. intros y [= <-]. by split. Qed.

Lemma steady_crash f s : (∀ env r, f env (set_rp r s) = None) → steady f s.
Proof. intros H. exists None. by split. Qed.

Lemma steady_note f s rc u t s' kind value :
  (∀ env r, f env (set_rp r s) =
     match note_call env u kind value (set_rp r s') with None => None | Some s => Some (rc, t, s) end) →
  good s' → name_ok u → line_text kind → line_text value → steady f s.
Proof.
  intros H Hi Hu Hk Hv. unfold note_call in H. unfold name_ok in Hu. destruct (prototype u) as [p|]; [|by apply steady_crash].
  exists (Some (rc, t, s', [(fp_name p, kind, value)])). split; [exact H|]. intros y [= <-]. split; [done|].
  apply Forall_singleton. unfold note_text, note_line. cbn [fst snd or_what default].
  repeat (apply Forall_app; split); try done; by apply Forall_singleton.
Qed.

Lemma lit_line x : forallb (λ c, negb (ceq c NL || ceq c NUL)) (lit x) = true → line_text (lit x).
Proof.
  intros H. apply Forall_forall. intros c Hc. apply forallb_forall with (x := c) in H; [|by apply list_elem_of_In].
  bool_to_prop. split; intros ->; done.
Qed.

(** The storage that the actions prepare before they decide. *)
Definition prepared (s : fuzz) : fuzz := retrace_actions_fuzzing_seed_maybe_apply s.

Lemma prepare env o r s :
  good s → retrace_actions_fuzzing_seed_maybe_apply (fuzz_seed_init env o (set_rp r s)) = set_rp r (prepared s).
Proof.
  intros [Hi _]. unfold fuzz_seed_init. cbn [set_rp initialized]. rewrite Hi.
  unfold prepared, retrace_actions_fuzzing_seed_maybe_apply. cbn [set_rp g_fuzzing_seed]. by destruct (g_fuzzing_seed s).
Qed.

Lemma prepared_good s : good s → good (prepared s).
Proof. unfold prepared, retrace_actions_fuzzing_seed_maybe_apply. by destruct (g_fuzzing_seed s). Qed.

Lemma memory_fuzz_steady t o s : good s → name_ok t → steady (λ env, ia_memory_fuzz env t (Some o)) s.
Proof.
  intros Hi Ht. pose proof (prepared_good s Hi) as Hi'. set (s0 := prepared s) in *.
  destruct (has_value o "fail_rate") eqn:Hf.
  2:{ eapply steady_quiet with (s' := s0); [|exact Hi']. intros env r. unfold ia_memory_fuzz.
      rewrite (prepare env o r s Hi). by rewrite Hf. }
  destruct (rand (rng s0)) as [v r0] eqn:Hr.
  destruct (d_leb (d_of_int v) (d_mul (d_of_int RAND_MAX) (json_object_get_number (Some o) "fail_rate"))) eqn:Hd.
  - eapply steady_note with (s' := set_errno ENOMEM (set_rng r0 s0)) (u := t) (kind := lit "memfuzz");
      [|exact Hi'|exact Ht|by apply lit_line|by apply (lit_line "fail")].
    intros env r. unfold ia_memory_fuzz. rewrite (prepare env o r s Hi), Hf.
    fold s0. change (rng (set_rp r s0)) with (rng s0). cbn [negb]. rewrite Hr, Hd. reflexivity.
  - eapply steady_note with (s' := set_rng r0 s0) (u := t) (kind := lit "memfuzz");
      [|exact Hi'|exact Ht|by apply lit_line|by apply (lit_line "ok")].
    intros env r. unfold ia_memory_fuzz. rewrite (prepare env o r s Hi), Hf.
    fold s0. change (rng (set_rp r s0)) with (rng s0). cbn [negb]. rewrite Hr, Hd. reflexivity.
Qed.

Lemma pick_rp ts r s : fuzz_dict_pick ts (set_rp r s) = let '(tok, s1) := fuzz_dict_pick ts s in (tok, set_rp r s1).
Proof.
  unfold fuzz_dict_pick. destruct ts; [done|]. change (rng (set_rp r s)) with (rng s). by destruct (rand (rng s)).
Qed.

Lemma pick_good s tok s1 :
  good s → fuzz_dict_pick (default [] (g_fuzz_str_dict s)) s = (tok, s1) → good s1 ∧ from_option line_text True tok.
Proof.
  unfold fuzz_dict_pick. intros [Hi Hd] H. destruct (default [] (g_fuzz_str_dict s)) as [|x ts] eqn:E.
  { simplify_eq. split; [|done]. split; [done|]. by rewrite E. }
  destruct (rand (rng s)) as [v r0]. simplify_eq. split; [split; [done|]; cbn [set_rng g_fuzz_str_dict]; by rewrite E|].
  destruct ((x :: ts) !! _) as [w|] eqn:Hl; [|done]. cbn. by apply (Forall_lookup_1 _ _ _ _ Hd Hl).
Qed.

Lemma put_rp i p token t r s :
  put_token i p token t (set_rp r s) = match put_token i p token t s with None => None | Some (t, s2) => Some (t, set_rp r s2) end.
Proof. unfold put_token. cbn [set_rp heap]. by repeat case_match. Qed.

Lemma put_good i p token t s t2 s2 :
  good s → name_ok t → put_token i p token t s = Some (t2, s2) → good s2 ∧ name_ok t2.
Proof. intros Hs Ht H. unfold put_token in H. repeat case_match; by simplify_eq. Qed.

Lemma fuzz_param_steady i p t s : good s → name_ok t → steady (λ env, fuzz_param env i p t) s.
Proof.
  intros Hi Ht. destruct (fuzz_dict_pick (default [] (g_fuzz_str_dict s)) s) as [tok s1] eqn:Hp.
  destruct (pick_good s tok s1 Hi Hp) as [Hi1 Htok].
  assert (∀ env r, fuzz_param env i p t (set_rp r s) =
    match tok with
    | None => Some ((-1)%Z, t, set_rp r s1)
    | Some token =>
        match put_token i p token t s1 with
        | None => None
        | Some (t, s2) => match note_call env t (lit "fuzz_str") token (set_rp r s2) with None => None | Some s => Some (0%Z, t, s) end
        end
    end) as Hf.
  { intros env r. unfold fuzz_param. change (g_fuzz_str_dict (set_rp r s)) with (g_fuzz_str_dict s). rewrite pick_rp, Hp.
    destruct tok as [token|]; [|done]. rewrite put_rp. by destruct (put_token i p token t s1) as [[? ?]|]. }
  destruct tok as [token|]; [|by apply steady_quiet with (s' := s1) (rc := (-1)%Z) (t := t)].
  destruct (put_token i p token t s1) as [[t2 s2]|] eqn:Hput; [|by apply steady_crash].
  destruct (put_good i p token t s1 t2 s2 Hi1 Ht Hput).
  eapply steady_note; [exact Hf|done|done|by apply lit_line|done].
Qed.

Definition both (f : fuzz → fuzz) (x : fuzz + fuzz) : fuzz + fuzz := match x with inl s => inl (f s) | inr s => inr (f s) end.

Lemma dict_for_rp path r s : dict_for path (set_rp r s) = both (set_rp r) <$> dict_for path s.
Proof.
  unfold dict_for, reload. cbn [set_rp g_fuzz_str_dict g_fuzz_str_path]. destruct (g_fuzz_str_dict s); repeat (case_match; try done).
Qed.

(** What is loaded consists of lines. *)
Hypothesis files_lines : ∀ path rc tokens, fuzz_dict_load (files path) = Some (rc, tokens) → Forall line_text tokens.

Lemma reload_good path s x : good s → reload path s = Some x → match x with inl s | inr s => good s end.
Proof.
  intros [Hi _] H. unfold reload in H. destruct (fuzz_dict_load (files path)) as [[rc tokens]|] eqn:E; [|done].
  pose proof (files_lines path rc tokens E) as Hf. destruct (negb _); [by simplify_eq|]. destruct (_ <=? _); by simplify_eq.
Qed.

Lemma dict_for_good path s x : good s → dict_for path s = Some x → match x with inl s | inr s => good s end.
Proof.
  intros Hi H. unfold dict_for in H. destruct (g_fuzz_str_dict s).
  - destruct (streq _ _); [by simplify_eq|by eapply reload_good].
  - destruct dict_alloc; [by eapply reload_good|by simplify_eq].
Qed.

Lemma steady_then f g s s0 : (∀ env r, f env (set_rp r s) = g env (set_rp r s0)) → steady g s0 → steady f s.
Proof. intros H (x & Hx & Hi). exists x. split; [|done]. intros env r. by rewrite H. Qed.

Lemma fuzz_target_steady t o name s : good s → name_ok t → steady (λ env, fuzz_target env t o name) s.
Proof.
  intros Hi Ht. assert (∀ rc, steady (λ (_ : Proc) s, Some (rc, t, s)) s) as Hq.
  { intros rc. by apply steady_quiet with (s' := s) (rc := rc) (t := t). }
  unfold fuzz_target. destruct (_ ≫= _) as [[i p]|]; [|apply Hq].
  destruct (negb _); [apply Hq|]. destruct (_ || _); [apply Hq|].
  destruct (json_object_get_string (Some o) "match_str") as [m|]; [|by apply fuzz_param_steady].
  apply steady_then with (g := λ env s', match heap s !! val p with
    | None => None | Some v => if streq m v then fuzz_param env i p t s' else Some (0%Z, t, s') end) (s0 := s); [done|].
  destruct (heap s !! val p) as [v|]; [|by apply steady_crash].
  destruct (streq m v); [by apply fuzz_param_steady|apply Hq].
Qed.

Lemma fuzz_str_steady t o s : good s → name_ok t → steady (λ env, ia_fuzz_str env t (Some o)) s.
Proof.
  intros Hi Ht. apply steady_then with (g := λ env, fuzz_str env t o) (s0 := prepared s).
  { intros env r. unfold ia_fuzz_str. by rewrite (prepare env o r s Hi). }
  apply prepared_good in Hi. set (s0 := prepared s) in *. clearbody s0. clear s. rename s0 into s. unfold fuzz_str.
  destruct (json_object_get_string (Some o) "param_name") as [name|];
    [|by apply steady_quiet with (s' := s) (rc := (-1)%Z) (t := t)].
  destruct (json_object_get_string (Some o) "dict") as [path|];
    [|by apply steady_quiet with (s' := s) (rc := (-1)%Z) (t := t)].
  pose proof (dict_for_good path s) as Hg. pose proof (λ r, dict_for_rp path r s) as Hr.
  destruct (dict_for path s) as [[s1|s1]|]; cbn in Hr.
  2:{ apply steady_quiet with (s' := s1) (rc := (-1)%Z) (t := t); [|exact (Hg (inr s1) Hi eq_refl)]. intros env r. by rewrite Hr. }
  2:{ apply steady_crash. intros env r. by rewrite Hr. }
  specialize (Hg _ Hi eq_refl). cbn in Hg.
  apply steady_then with (g := λ env, fuzz_target env t o name) (s0 := s1); [intros env r; by rewrite Hr|].
  by apply fuzz_target_steady.
Qed.

Lemma act_steady a t o s : good s → name_ok t → steady (λ env, act a env t o) s.
Proof.
  intros Hi Ht. destruct o as [o|].
  2:{ apply steady_quiet with (s' := s) (rc := (-1)%Z) (t := t); [|done]. by destruct a. }
  destruct a; [|by apply memory_fuzz_steady|by apply fuzz_str_steady].
  cbn. unfold ia_fuzzing_seed. destruct (has_value o "seed"); cbn [negb].
  - by apply steady_quiet with (s' := set_fuzzing_seed (d_uint (json_object_get_number (Some o) "seed")) s) (rc := 0%Z) (t := t).
  - by apply steady_quiet with (s' := s) (rc := (-1)%Z) (t := t).
Qed.

Lemma run_steady calls s :
  good s → Forall (λ c, name_ok c.1.2) calls →
  ∃ x : option (list (Z * ThreadContext) * fuzz * list note),
    (∀ env r, run env calls (set_rp r s) =
       match x with None => None | Some (outs, s', ns) => Some (outs, set_rp (foldl (write_note (p_replay env)) r ns) s') end) ∧
    ∀ y, x = Some y → Forall (λ n, line_text (note_text n)) y.2.
Proof.
  intros Hs Hc. revert s Hs. induction Hc as [|[[a t] o] calls Ht Hc IH]; intros s Hs.
  { exists (Some ([], s, [])). split; [done|]. by intros y [= <-]. }
  destruct (act_steady a t o s Hs Ht) as ([[[[rc t'] s'] ns]|] & Hx & Hg).
  2:{ exists None. split; [|done]. intros env r. cbn [run]. by rewrite Hx. }
  destruct (Hg _ eq_refl) as [Hs' Hn]. cbn in Hs', Hn.
  destruct (IH s' Hs') as ([[[outs s2] ns2]|] & Hr & Hg2).
  - exists (Some ((rc, t') :: outs, s2, ns ++ ns2)). split.
    + intros env r. cbn [run]. rewrite Hx. cbn [emit]. rewrite Hr. by rewrite foldl_app.
    + intros y [= <-]. cbn. apply Forall_app. split; [done|]. by apply (Hg2 (outs, s2, ns2)).
  - exists None. split; [|done]. intros env r. cbn [run]. rewrite Hx. cbn [emit]. by rewrite Hr.
Qed.

Lemma seed_range env o : (0 ≤ chosen_seed env o < 2 ^ 32)%Z.
Proof.
  assert (∀ z, 0 ≤ u32 z < 2 ^ 32)%Z as H by (intros z; unfold u32, wrap_u; apply Z.mod_pos_bound; lia).
  unfold chosen_seed, d_uint. destruct (has_value o "fuzz_seed"); [|by destruct (p_seed env)].
  destruct (_ && _) eqn:E; [|done]. apply andb_true_iff in E as [?%Z.leb_le ?%Z.ltb_lt]. lia.
Qed.

(** The storage once the generator has its seed. *)
Definition seeded (seed : Z) (s : fuzz) : fuzz :=
  mkFuzz true (g_fuzzing_seed s) (g_fuzz_str_dict s) (g_fuzz_str_path s) (srand seed) (errno s) (heap s) (rp s).

(** Before the seed is chosen an action either does the same in every
    environment and still leaves it open, or chooses it. *)
Definition cold (s : fuzz) : Prop :=
  initialized s = false ∧ rp s = fresh ∧ Forall line_text (default [] (g_fuzz_str_dict s)).

Lemma act_cold a t o s :
  cold s →
  (∃ rc s', (∀ env, act a env t o s = Some (rc, t, s')) ∧ cold s') ∨
  (∃ o', o = Some o' ∧ ∀ env seed r, retrace_replay_seed (p_replay env) (chosen_seed env o') fresh = (seed, r) →
     act a env t o s = act a env t o (set_rp r (seeded seed s))).
Proof.
  intros Hs. destruct o as [o|]; [|left; exists (-1)%Z, s; by split; [destruct a|]].
  destruct a.
  - left. cbn. unfold ia_fuzzing_seed. destruct (has_value o "seed"); cbn [negb].
    + by eexists 0%Z, (set_fuzzing_seed _ s).
    + by exists (-1)%Z, s.
  - right. exists o. split; [done|]. intros env seed r H. cbn. unfold ia_memory_fuzz, fuzz_seed_init.
    destruct Hs as (-> & Hr & _). rewrite Hr, H. reflexivity.
  - right. exists o. split; [done|]. intros env seed r H. cbn. unfold ia_fuzz_str, fuzz_seed_init.
    destruct Hs as (-> & Hr & _). rewrite Hr, H. reflexivity.
Qed.

Lemma cold_seeded seed s : cold s → good (seeded seed s).
Proof. intros (_ & _ & H). by split. Qed.

(** C21 (roundtrip). A fuzzing run that was recorded is reproduced. It starts
    before the seed is chosen, and the names of functions and the tokens of the
    dictionary are of one line. With the record, less than 8192 bytes long, and
    the same calls, every action returns
    and leaves in the context of its call what it did in the recorded run, and
    the memory, the error number and the state of the generator are the same,
    whatever the seed of the environment and the time; the replay reports that
    all outcomes matched and that none was left over. *)
Theorem fuzz_run_reproduced calls s outs s1 env_seed time env_seed' time' :
  cold s → Forall (λ c, name_ok c.1.2) calls →
  run (mkProc recording env_seed time) calls s = Some (outs, s1) →
  length (g_out (rp s1)) < REPLAY_BIG →
  ∃ s2, let again := mkProc (replaying (g_out (rp s1))) env_seed' time' in
    run again calls s = Some (outs, s2) ∧ set_rp fresh s2 = set_rp fresh s1 ∧
    ∃ n, (retrace_replay_report (p_replay again) (rp s2)).1 = Some (n, 0, 0).
Proof.
  intros Hs Hc. revert s outs Hs. induction Hc as [|[[a t] o] calls Ht Hc IH]; intros s outs Hs Hrun Hl.
  { cbn in Hrun. simplify_eq. exists s1. destruct Hs as (_ & -> & _). split; [done|]. split; [done|]. by exists 0. }
  destruct (act_cold a t o s Hs) as [(rc & s' & Hact & Hs')|(o' & -> & Hact)].
  { cbn [run] in Hrun |- *. rewrite Hact in *.
    destruct (run _ calls s') as [[outs' s'']|] eqn:E; [|done]. simplify_eq.
    destruct (IH s' outs' Hs' E Hl) as (s2 & Hr & Hrest). exists s2. cbn zeta. split; [|exact Hrest]. by rewrite Hr. }
  set (e1 := mkProc recording env_seed time) in *. pose proof (seed_range e1 o') as Hrange.
  set (seed := chosen_seed e1 o') in *.
  destruct (run_steady ((a, t, Some o') :: calls) (seeded seed s)) as ([[[outs' s3] ns]|] & Hx & Hn);
    [by apply cold_seeded|by constructor| |].
  all: assert (∀ env r, retrace_replay_seed (p_replay env) (chosen_seed env o') fresh = (seed, r) →
    run env ((a, t, Some o') :: calls) s = run env ((a, t, Some o') :: calls) (set_rp r (seeded seed s))) as Hwarm
    by (intros env r H; cbn [run]; by rewrite (Hact env seed r H)).
  all: rewrite (Hwarm e1 (recorded seed [])), Hx in Hrun by apply record_seed.
  2: done.
  simplify_eq. cbn [rp set_rp p_replay e1] in Hl |- *. rewrite record_all in Hl |- *. cbn [app] in *.
  set (e2 := mkProc _ env_seed' time').
  pose proof (replay_seed seed ns (chosen_seed e2 o') Hrange (Hn _ eq_refl) Hl) as Hseed.
  eexists. cbn zeta. split; [by rewrite (Hwarm e2 _ Hseed), Hx|]. split; [done|].
  exists (length ns). cbn [rp set_rp]. rewrite follow_all. apply replay_report.
Qed.

(** With [fuzzing_seed] set every decision starts from the same state of the
    generator, so that a rate that is neither none nor all never mixes. *)
Lemma reseeded_decision env t o s r :
  initialized s = true → g_fuzzing_seed s ≠ None → ia_memory_fuzz env t (Some o) (set_rng r s) = ia_memory_fuzz env t (Some o) s.
Proof.
  intros Hi Hg. unfold ia_memory_fuzz, fuzz_seed_init. cbn [set_rng initialized]. rewrite Hi.
  unfold retrace_actions_fuzzing_seed_maybe_apply. cbn [set_rng g_fuzzing_seed]. by destruct (g_fuzzing_seed s).
Qed.

End fuzz.

(** ** Examples *)

Definition toy_srand (seed : Z) : Z := seed.
Definition toy_rand (r : Z) : Z * Z := (((r * 1103515245 + 12345) / 65536) mod 32768, (r * 1103515245 + 12345) mod 2 ^ 31)%Z.
Definition toy_RAND_MAX : Z := 32767.
Definition toy_dict : bytes := unlines [lit "# words"; lit "left"; lit " right "; lit "@%1%-%2%"].
Definition toy_files (path : bytes) : option bytes := if streq path (lit "words") then Some toy_dict else None.
Definition toy_malloc (h : gmap Z bytes) (n : nat) : Z := (4096 + Z.of_nat (size h))%Z.
Definition toy_fuzz : fuzz (R := Z) := mkFuzz false None None [] 1%Z 0 {[16%Z := lit "middle"]} fresh.

Definition toy_param : FuncParam := mkParam (mkMeta (lit "s") (lit "ptr") CDM_POINTER PDIR_IN (lit "sz") []) 16 false.
Definition toy_call : ThreadContext :=
  set_params [toy_param] (set_prototype (Some (mkProto (lit "strdup") CC_SYSTEM_V [] 0 (lit "ptr") FAT_NOVARARGS 0)) zero_context).

Definition toy_rate : JSON_Object := [(lit "fail_rate", JSONNumber (mkDouble 1 (-1)))].
Definition toy_words : JSON_Object := [(lit "param_name", JSONString (lit "s")); (lit "dict", JSONString (lit "words"))].
Definition toy_calls : list (action * ThreadContext * option JSON_Object) :=
  [(MemoryFuzz, toy_call, Some toy_rate); (FuzzStr, toy_call, Some toy_words); (MemoryFuzz, toy_call, None);
   (FuzzStr, toy_call, Some toy_words); (MemoryFuzz, toy_call, Some toy_rate)].

Lemma toy_tokens : fuzz_dict_load (Some toy_dict) = Some (0%Z, [lit "left"; lit "right"; lit "left-right"]).
Proof. by vm_compute. Qed.

Lemma toy_files_lines path rc tokens : fuzz_dict_load (toy_files path) = Some (rc, tokens) → Forall line_text tokens.
Proof.
  unfold toy_files. destruct (streq path _); [rewrite toy_tokens|]; intros [= <- <-]; [|done].
  by repeat (apply Forall_cons; split).
Qed.

Notation toy_run env s := (run toy_srand toy_rand toy_RAND_MAX (λ _, 0%Z) toy_files toy_malloc true env toy_calls s).

Definition toy_recorded : list (Z * ThreadContext) * fuzz :=
  default ([], toy_fuzz) (toy_run (mkProc recording (Some (lit "42")) 0) toy_fuzz).

Lemma fuzz_run_reproduced_witness :
  ∃ s2, toy_run (mkProc (replaying (g_out (rp toy_recorded.2))) None 1700000000) toy_fuzz = Some (toy_recorded.1, s2).
Proof.
  assert (toy_run (mkProc recording (Some (lit "42")) 0) toy_fuzz = Some (toy_recorded.1, toy_recorded.2)) as H
    by (rewrite <- surjective_pairing; apply default_some; by vm_compute).
  destruct (fuzz_run_reproduced toy_srand toy_rand toy_RAND_MAX (λ _, 0%Z) toy_files toy_malloc true toy_files_lines
    toy_calls toy_fuzz toy_recorded.1 toy_recorded.2 (Some (lit "42")) 0 None 1700000000) as (s2 & Hr & _); [|  |exact H| |by exists s2].
  - repeat split. apply Forall_nil_2.
  - assert (name_ok toy_call) by (apply (lit_line "strdup"); by vm_compute). by repeat constructor.
  - apply Nat.ltb_lt. by vm_compute.
Defined.

(** A dictionary that cannot be loaded empties the one that is in use, which is
    then not loaded again. *)
Definition toy_bad : JSON_Object := [(lit "param_name", JSONString (lit "s")); (lit "dict", JSONString (lit "missing"))].

Lemma failed_load_empties :
  option_map (λ x, map fst x.1)
    (run toy_srand toy_rand toy_RAND_MAX (λ _, 0%Z) toy_files toy_malloc true (mkProc recording None 0)
       [(FuzzStr, toy_call, Some toy_words); (FuzzStr, toy_call, Some toy_bad); (FuzzStr, toy_call, Some toy_words)] toy_fuzz)
  = Some [0; -1; -1]%Z.
Proof. by vm_compute. Qed.

(** The copy of an indented template takes bytes of the lines behind it. *)
Lemma indented_template : fuzz_dict_load (Some (unlines [lit "a"; lit "  @%1%"; lit "b"])) = Some (0%Z, [lit "a"; lit "b"; lit "a" ++ [NL] ++ lit "b"]).
Proof. by vm_compute. Qed.

(** At the end of the file it leaves the buffer. *)
Lemma indented_template_overread : fuzz_dict_load (Some (lit "a" ++ [NL] ++ lit "  @%1%")) = None.
Proof. by vm_compute. Qed.

End Fuzz.
