(* ===== verification/LogFilter.v ===== *)
(** * The function filter of the logger

    [src/core/logger.c]: the two lists of function names read from environment
    variables, and the test of a function against them. *)

From S2P Require Import Prelude.

Module LogFilter.

Definition LOGGER_FUNC_FILTER_MAX : nat := 64.
Definition LOGGER_MAXLEN_FUNC_NAME : nat := 64.

(** [struct LoggerFuncFilter]: the names. *)
Abbreviation LoggerFuncFilter := (list bytes).

(** A name stored, when there is one and room for it. *)
Definition store (names : LoggerFuncFilter) (word : bytes) : LoggerFuncFilter :=
  if (0 <? length word) && (length names <? LOGGER_FUNC_FILTER_MAX)
  then names ++ [take LOGGER_MAXLEN_FUNC_NAME word]
  else names.

(** The loop, [word] the characters between the start and the pointer. *)
Fixpoint parse_loop (p word : bytes) (names : LoggerFuncFilter) : LoggerFuncFilter :=
  match p with
  | [] => store names word
  | c :: p => if ceq c "," then parse_loop p [] (store names word) else parse_loop p (word ++ [c]) names
  end.

Definition logger_parse_func_filter (env_val : option bytes) (filter : LoggerFuncFilter) : LoggerFuncFilter :=
  match env_val with None => filter | Some v => parse_loop v [] [] end.

Fixpoint logger_filter_contains (filter : LoggerFuncFilter) (name : bytes) : bool :=
  match filter with
  | [] => false
  | n :: filter => if streq n name then true else logger_filter_contains filter name
  end.

Definition retrace_logger_func_loggable (allowed excluded : LoggerFuncFilter) (func_name : bytes) : bool :=
  if (0 <? length allowed) && negb (logger_filter_contains allowed func_name) then false
  else negb (logger_filter_contains excluded func_name).

(** The comma-separated text of names. *)
Fixpoint join (names : list bytes) : bytes :=
  match names with
  | [] => []
  | [n] => n
  | n :: names => n ++ ","%char :: join names
  end.

Definition plain_name (n : bytes) : Prop :=
  n ≠ [] ∧ length n ≤ LOGGER_MAXLEN_FUNC_NAME ∧ ","%char ∉ n.

Lemma filter_contains_elem l n : logger_filter_contains l n = true ↔ n ∈ l.
Proof.
  induction l as [|m l IH]; cbn; [by split; [|intros ?%not_elem_of_nil]|].
  rewrite elem_of_cons. destruct (streq m n) eqn:E.
  - apply streq_true in E. naive_solver.
  - apply streq_false in E. rewrite IH. naive_solver.
Qed.

Lemma parse_word n p word names :
  ","%char ∉ n → parse_loop (n ++ p) word names = parse_loop p (word ++ n) names.
Proof.
  revert word. induction n as [|c n IH]; intros word Hn; cbn [app]; [by rewrite app_nil_r|].
  apply not_elem_of_cons in Hn as [Hc Hn]. cbn.
  rewrite (proj2 (ceq_false c ",") ltac:(congruence)), (IH (word ++ [c]) Hn). by rewrite <- app_assoc.
Qed.

Lemma store_plain names n : plain_name n → length names < LOGGER_FUNC_FILTER_MAX → store names n = names ++ [n].
Proof.
  intros (Hne & Hlen & _) Hr. unfold store. rewrite (proj2 (Nat.ltb_lt _ _) Hr), (proj2 (Nat.ltb_lt _ _)).
  - cbn [andb]. by rewrite take_ge.
  - destruct n; [done|]. cbn. lia.
Qed.

Lemma parse_join l names :
  Forall plain_name l → length names + length l ≤ LOGGER_FUNC_FILTER_MAX →
  parse_loop (join l) [] names = names ++ l.
Proof.
  revert names. induction l as [|n l IH]; intros names Hl Hr.
  - cbn. by rewrite app_nil_r.
  - inversion Hl as [|? ? Hn Hl']; subst. cbn [length] in Hr. destruct l as [|m l].
    + cbn [join]. rewrite <- (app_nil_r n) at 1. rewrite parse_word by apply Hn. cbn.
      apply store_plain; [done|lia].
    + change (join (n :: m :: l)) with (n ++ ","%char :: join (m :: l)). rewrite parse_word by apply Hn.
      cbn [app parse_loop]. rewrite ceq_refl, store_plain by (done || lia).
      rewrite IH; [by rewrite <- app_assoc|done|]. rewrite length_app. cbn [length] in *. lia.
Qed.

(** The filters given as comma-separated names, at most as
    many as a filter holds: a function is intercepted when it is in the list
    of the allowed ones, or that list is empty, and it is not in the list of
    the excluded ones. *)
Theorem log_filter_names allowed excluded f0 f1 name :
  Forall plain_name allowed → Forall plain_name excluded →
  length allowed ≤ LOGGER_FUNC_FILTER_MAX → length excluded ≤ LOGGER_FUNC_FILTER_MAX →
  retrace_logger_func_loggable (logger_parse_func_filter (Some (join allowed)) f0)
    (logger_parse_func_filter (Some (join excluded)) f1) name = true ↔
  (allowed = [] ∨ name ∈ allowed) ∧ name ∉ excluded.
Proof.
  intros Ha He La Le. cbn [logger_parse_func_filter]. rewrite !parse_join by done. cbn [app].
  unfold retrace_logger_func_loggable. rewrite <- !filter_contains_elem.
  destruct (logger_filter_contains allowed name), (logger_filter_contains excluded name), allowed; cbn;
    naive_solver.
Qed.

Lemma log_filter_names_witness :
  retrace_logger_func_loggable (logger_parse_func_filter (Some (lit "open,read")) [])
    (logger_parse_func_filter (Some (lit "free")) []) (lit "read") = true.
Proof.
  apply (log_filter_names [lit "open"; lit "read"] [lit "free"] [] [] (lit "read"));
    apply (bool_decide_eq_true_1 _); vm_compute; reflexivity.
Defined.

End LogFilter.
