(* ===== verification/Engine.v ===== *)
(** * The engine: one intercepted call

    [src/core/engine.c], [retrace_engine_wrapper], with the dispatcher of
    [src/backends/as_ops.c], the thread context of
    [src/core/thread_context.c], the runner of [src/core/action_runner.c] and
    the basic actions on integers of [src/core/actions/basic.c]. The frames are
    those of any instance of [Lanes]; the caches, the resolver, the filters and
    the hash are the components of the other files. *)

From stdpp Require Import gmap.
From S2P Require Import Prelude PrintfFormat Context Json ConfigCache ScriptResolver RealCache CallHash LogFilter Lanes.
Import Context Json ConfigCache RealCache CallHash LogFilter Lanes.
Import ScriptResolver (caller_cache, dl_info, retrace_script_find).

Module Engine.

Definition ENGINE_MAXCOUNT_PARAMS : nat := 32.

Section Engine.
Context {W : Type} `{LW : Lanes W}.

(** ** The dispatcher *)

Definition lane_ops_for (t : option ThreadContext) : option nat :=
  match t with
  | Some t => if (dispatch_depth t <=? 1)%Z then lane_ops t else None
  | None => None
  end.

Definition retrace_as_sched_real (t : option ThreadContext) (frame real : Z) (w : W) : W :=
  op_sched_real (lane_ops_for t) frame real w.

Definition retrace_as_cancel_sched_real (t : option ThreadContext) (frame : Z) (w : W) : W :=
  op_cancel_sched_real (lane_ops_for t) frame w.

(** The value a lane is given for a return value. *)
Definition lane_value (t : option ThreadContext) (v : Z) : Z :=
  match lane_ops_for t, t with
  | Some _, Some t =>
      if (v =? -1)%Z && (0 <? ret_errno t)%Z && (ret_errno t <? 4096)%Z then (- ret_errno t)%Z else v
  | _, _ => v
  end.

Definition retrace_as_set_ret_val (t : option ThreadContext) (frame v : Z) (w : W) : W :=
  op_set_ret_val (lane_ops_for t) frame (lane_value t v) (from_option ret_errno 0%Z t) w.

Definition retrace_as_setup_params (t : ThreadContext) (frame : Z) (p : FuncPrototype) (room : nat) (w : W)
  : option (bool * list FuncParam) :=
  op_setup_params (lane_ops_for (Some t)) frame p room w.

Definition retrace_as_call_real (t : ThreadContext) (frame real : Z) (ps : list FuncParam) (w : W) : Z * W :=
  op_call_real (lane_ops_for (Some t)) frame real ps w.

(** ** Actions *)

(** An action: its result, the context and the frames after it. *)
Definition action_fn : Type := ThreadContext → option JSON_Object → W → Z * ThreadContext * W.

(** The call of a variadic function, [retrace_as_call_real_variadic]. *)
Variable call_variadic : Z → list FuncParam → nat → Z.

Definition ia_call_real : action_fn := λ t _ w,
  let variadic :=
    match prototype t with
    | Some p => match fp_fmt p with FAT_PRINTF | FAT_SCANF => Some (fp_params_cnt p) | _ => None end
    | None => None
    end in
  match variadic with
  | Some named => (0%Z, set_ret_val (call_variadic (real_impl t) (params t) named) t, w)
  | None =>
      let '(v, w) := retrace_as_call_real t (arch_spec_ctx t) (real_impl t) (params t) w in
      (0%Z, set_ret_val v t, w)
  end.

Definition ia_modify_return_value_int : action_fn := λ t action_params w,
  match action_params with
  | None => ((-1)%Z, t, w)
  | Some o =>
      match json_object_get_value (Some o) "retval_int" with
      | None => ((-1)%Z, t, w)
      | Some _ => (0%Z, set_ret_val (d_trunc (json_object_get_number (Some o) "retval_int")) t, w)
      end
  end.

(** The conversion to [int]. *)
Definition to_int (z : Z) : Z :=
  let u := u32 z in if (u <? 2 ^ 31)%Z then u else (u - 2 ^ 32)%Z.

Definition ia_modify_in_param_int : action_fn := λ t action_params w,
  match action_params with
  | None => ((-1)%Z, t, w)
  | Some o =>
      match json_object_get_string (Some o) "param_name" with
      | None => ((-1)%Z, t, w)
      | Some name =>
          match retrace_action_find_param t name with
          | None => ((-1)%Z, t, w)
          | Some i =>
              match params t !! i with
              | None => ((-1)%Z, t, w)
              | Some p =>
                  if negb (bool_decide (pm_direction (param_meta p) = PDIR_IN)) then ((-1)%Z, t, w)
                  else
                    match json_object_get_value (Some o) "new_int" with
                    | None => ((-1)%Z, t, w)
                    | Some _ =>
                        let set := set_params (<[i := mkParam (param_meta p)
                          (d_trunc (json_object_get_number (Some o) "new_int")) (free_val p)]> (params t)) t in
                        match json_object_get_value (Some o) "match_int" with
                        | Some _ =>
                            if (to_int (val p) =? d_trunc (json_object_get_number (Some o) "match_int"))%Z
                            then (0%Z, set, w) else (0%Z, t, w)
                        | None => (0%Z, set, w)
                        end
                    end
              end
          end
      end
  end.

(** The registered actions. *)
Variable actions_get : bytes → option action_fn.

(** The loop of the runner. *)
Fixpoint run_actions (l : JSON_Array) (t : ThreadContext) (w : W) : ThreadContext * W :=
  match l with
  | [] => (t, w)
  | v :: l =>
      let i_action := json_value_get_object (Some v) in
      match json_object_get_string i_action "action_name" with
      | None => (t, w)
      | Some name =>
          match actions_get name with
          | None => (t, w)
          | Some f =>
              let '(rc, t, w) := f t (json_object_get_object i_action "action_params") w in
              if negb (rc =? 0)%Z then (t, w) else run_actions l t w
          end
      end
  end.

Definition retrace_action_runner_run (t : ThreadContext) (script : JSON_Object) (w : W) : ThreadContext * W :=
  match json_object_get_array (Some script) "actions" with
  | None => (t, w)
  | Some l => run_actions l t w
  end.

(** ** The wrapper *)

(** The state a call of one thread reads and changes: the flag of the
    initialisation, the cache of names, the context of the thread (none
    before its first call), the caller cache, the hashes, what was freed, and
    the frames. *)
Record engine := mkEngine {
  retrace_inited : bool;
  names : list real_cache_el;
  tls : option ThreadContext;
  callers : caller_cache;
  hashes : hash_state;
  freed : list Z;
  world : W;
}.

Definition with_world (w : W) (e : engine) : engine :=
  mkEngine (retrace_inited e) (names e) (tls e) (callers e) (hashes e) (freed e) w.
Definition with_tls (t : ThreadContext) (e : engine) : engine :=
  mkEngine (retrace_inited e) (names e) (Some t) (callers e) (hashes e) (freed e) (world e).
Definition with_names (l : list real_cache_el) (e : engine) : engine :=
  mkEngine (retrace_inited e) l (tls e) (callers e) (hashes e) (freed e) (world e).
Definition with_callers (c : caller_cache) (e : engine) : engine :=
  mkEngine (retrace_inited e) (names e) (tls e) c (hashes e) (freed e) (world e).
Definition with_hashes (h : hash_state) (e : engine) : engine :=
  mkEngine (retrace_inited e) (names e) (tls e) (callers e) h (freed e) (world e).

(** What the wrapper calls that other components provide: the loader, the
    resolved members of the table of real functions, the prototypes, dladdr,
    the configuration and its snapshot, the filters of the logger; and the
    success of the allocations of the context and of the hash. *)
Variable get_real_safe : bytes → Z.
Variables impl_strcmp impl_free impl_malloc : Z.
Variable func_get : bytes → option FuncPrototype.
Variable rc_dladdr : Z → option dl_info.
Variable retrace_conf : option JSON_Object.
Variable g_snap : option cache_snap.
Variables allowed excluded : LoggerFuncFilter.
Variables ctx_malloc ctx_tss hash_malloc hash_tss : bool.
Variable tid : nat.

(** [retrace_thread_context_get]: the context of the thread. *)
Definition retrace_thread_context_get (e : engine) : option ThreadContext :=
  match tls e with
  | Some t => Some t
  | None => if ctx_malloc && ctx_tss then Some zero_context else None
  end.

(** The label [clean_up]: the strings freed and the context zeroed. *)
Definition clean_up (t : ThreadContext) (e : engine) : engine :=
  let '(fr, t) := retrace_thread_context_clear t in
  mkEngine (retrace_inited e) (names e) (Some t) (callers e) (hashes e) (freed e ++ fr) (world e).

(** The label [out] with a context: the dispatch is no longer counted. *)
Definition out (t : ThreadContext) (e : engine) : engine :=
  with_tls (set_depth (dispatch_depth t - 1) t) e.

(** After the parameters are set up: the script and its actions. [None] when
    the lookup does not return. *)
Definition dispatch_script (func_name : bytes) (frame : Z) (t : ThreadContext) (e : engine) : option engine :=
  match json_object_get_array retrace_conf "intercept_scripts" with
  | None => Some (clean_up t e)
  | Some i_scripts =>
      match retrace_script_find rc_dladdr g_snap i_scripts func_name (ret_addr t) (callers e) with
      | None => None
      | Some (i_script, callers) =>
          let e := with_callers callers e in
          match i_script with
          | None => Some (clean_up t e)
          | Some script =>
              let w := retrace_as_cancel_sched_real (Some t) frame (world e) in
              let '(t, w) := retrace_action_runner_run t script w in
              let w := retrace_as_set_ret_val (Some t) frame (ret_val t) w in
              Some (clean_up t (with_world w e))
          end
      end
  end.

(** After the guard is entered. *)
Definition dispatch_guarded (func_name : bytes) (frame : Z) (name_slot : option nat) (t : ThreadContext)
    (e : engine) : option engine :=
  let '(proto, names) := slot_proto func_get name_slot func_name (names e) in
  let t := set_prototype proto t in
  let e := with_names names e in
  let e := if enabled (hashes e)
           then with_hashes (retrace_call_hash_observe hash_malloc hash_tss tid (Some func_name)
                  (from_option (λ p, Z.of_nat (fp_params_cnt p)) 0%Z proto) (hashes e)) e
           else e in
  match proto with
  | None => Some (clean_up t e)
  | Some p =>
      if negb (retrace_logger_func_loggable allowed excluded func_name) then Some (clean_up t e)
      else
        match retrace_as_setup_params t (arch_spec_ctx t) p ENGINE_MAXCOUNT_PARAMS (world e) with
        | None => None
        | Some (ok, ps) =>
            let t := set_params ps t in
            if negb ok then Some (clean_up t e) else dispatch_script func_name frame t e
        end
  end.

(** [retrace_engine_wrapper]; [None] where it does not return or its
    behaviour is undefined. The first dispatch also starts the supervisor's
    thread, which is not part of the state here, and on Android calls from
    outside the executable are passed on before anything else. *)
Definition retrace_engine_wrapper (func_name : bytes) (frame : Z) (e : engine) : option engine :=
  let func_name := strip_darwin_extsn func_name 64 in
  match name_slot_lookup get_real_safe impl_strcmp impl_free impl_malloc (retrace_inited e) func_name (names e) with
  | None => None
  | Some (name_slot, real, names) =>
      let e := with_names names e in
      if negb (retrace_inited e) then Some (with_world (retrace_as_sched_real None frame real (world e)) e)
      else
        match retrace_thread_context_get e with
        | None => Some e
        | Some t =>
            let t := set_depth (dispatch_depth t + 1) t in
            if (real =? 0)%Z
            then Some (out t (with_world (retrace_as_set_ret_val (Some t) frame (-1) (world e)) e))
            else
              let e := with_world (retrace_as_sched_real (Some t) frame real (world e)) e in
              if retrace_reentrance_guard_active t then Some (out t e)
              else
                let t := retrace_reentrance_guard_enter t real frame in
                dispatch_guarded func_name frame name_slot t e
        end
  end.

(** ** What a dispatch does *)

(** Between two calls of the program the context is at rest. *)
Definition at_rest (t : ThreadContext) : Prop := real_impl t = 0%Z ∧ dispatch_depth t = 0%Z.

Definition engine_ok (e : engine) : Prop :=
  retrace_inited e = true ∧
  cache_ok get_real_safe impl_strcmp impl_free impl_malloc func_get (names e) ∧
  ScriptResolver.coherent rc_dladdr (callers e) ∧
  ∀ t, tls e = Some t → at_rest t.

(** The context of a dispatch to [real], after the guard. *)
Definition entered (t : ThreadContext) (real frame : Z) (p : FuncPrototype) : ThreadContext :=
  set_prototype (Some p) (retrace_reentrance_guard_enter (set_depth 1 t) real frame).

(** The script that applies to a call, with the parameters: the function has
    a prototype and is not filtered, its parameters can be set up, and the
    rules of the resolver choose the script. *)
Definition script_for (es : list cache_entry) (name : bytes) (frame real : Z) (t : ThreadContext) (w : W)
  : option (FuncPrototype * list FuncParam * JSON_Object) :=
  p ← func_get name;
  if negb (retrace_logger_func_loggable allowed excluded name) then None
  else
    match retrace_as_setup_params (entered t real frame p) frame p ENGINE_MAXCOUNT_PARAMS w with
    | Some (true, ps) =>
        scripts ← json_object_get_array retrace_conf "intercept_scripts";
        script ← ScriptResolver.resolved rc_dladdr es scripts name (ret_addr t);
        Some (p, ps, script)
    | _ => None
    end.

(** The frames after a call. *)
Definition outcome (es : list cache_entry) (name : bytes) (frame : Z) (t : ThreadContext) (w : W) : W :=
  let real := retrace_real_impl_resolve get_real_safe impl_strcmp impl_free impl_malloc name in
  let d := set_depth 1 t in
  if (real =? 0)%Z then retrace_as_set_ret_val (Some d) frame (-1) w
  else
    let w := retrace_as_sched_real (Some d) frame real w in
    match script_for es name frame real t w with
    | None => w
    | Some (p, ps, script) =>
        let t := set_params ps (entered t real frame p) in
        let w := retrace_as_cancel_sched_real (Some t) frame w in
        let '(t, w) := retrace_action_runner_run t script w in
        retrace_as_set_ret_val (Some t) frame (ret_val t) w
    end.

(** The parameters can be set up or are refused. *)
Definition setup_defined (name : bytes) (frame : Z) (t : ThreadContext) (w : W) : Prop :=
  ∀ real p, func_get name = Some p →
  retrace_as_setup_params (entered t real frame p) frame p ENGINE_MAXCOUNT_PARAMS
    (retrace_as_sched_real (Some (set_depth 1 t)) frame real w) ≠ None.

Lemma clean_up_ok t e :
  engine_ok (mkEngine (retrace_inited e) (names e) None (callers e) (hashes e) (freed e) (world e)) →
  engine_ok (clean_up t e).
Proof. intros (H1 & H2 & H3 & _). split_and!; try done. cbn. intros ? [= <-]. done. Qed.

Lemma observe_same name argc e :
  let e' := if enabled (hashes e)
            then with_hashes (retrace_call_hash_observe hash_malloc hash_tss tid (Some name) argc (hashes e)) e
            else e in
  world e' = world e ∧ names e' = names e ∧ callers e' = callers e ∧ retrace_inited e' = retrace_inited e.
Proof. cbn. by destruct (enabled (hashes e)). Qed.

Lemma dispatch_script_ok snap name frame p ps t real e :
  g_snap = Some snap → snap_ok snap →
  engine_ok (mkEngine (retrace_inited e) (names e) None (callers e) (hashes e) (freed e) (world e)) →
  let t1 := set_params ps (entered t real frame p) in
  ∃ e', dispatch_script name frame t1 e = Some e' ∧ engine_ok e' ∧
    tls e' = Some zero_context ∧
    world e' =
      match scripts ← json_object_get_array retrace_conf "intercept_scripts";
            ScriptResolver.resolved rc_dladdr (entries snap) scripts name (ret_addr t) with
      | None => world e
      | Some script =>
          let w := retrace_as_cancel_sched_real (Some t1) frame (world e) in
          let '(t2, w) := retrace_action_runner_run t1 script w in
          retrace_as_set_ret_val (Some t2) frame (ret_val t2) w
      end.
Proof.
  intros Hsn Hsok Hok t1. unfold dispatch_script.
  destruct (json_object_get_array retrace_conf "intercept_scripts") as [scripts|]; cbn [mbind option_bind].
  2:{ eexists. split; [done|]. split; [by apply clean_up_ok|done]. }
  rewrite Hsn. destruct Hok as (H1 & H2 & H3 & H4).
  destruct (ScriptResolver.script_find_resolved rc_dladdr snap scripts name (ret_addr t) (callers e) Hsok H3)
    as (cs & E & Hcs).
  change (ret_addr t1) with (ret_addr t). rewrite E.
  destruct (ScriptResolver.resolved _ _ _ _ _) as [script|].
  - destruct (retrace_action_runner_run _ _ _) as [t2 w2]. eexists. split; [done|].
    split; [apply clean_up_ok; by split_and!|done].
  - eexists. split; [done|]. split; [apply clean_up_ok; by split_and!|done].
Qed.

Lemma dispatch_outcome snap func_name frame e t :
  let name := strip_darwin_extsn func_name 64 in
  engine_ok e → has_room (names e) → hashable name → g_snap = Some snap → snap_ok snap →
  retrace_thread_context_get e = Some t → setup_defined name frame t (world e) →
  ∃ e', retrace_engine_wrapper func_name frame e = Some e' ∧ engine_ok e' ∧
    (∃ t', tls e' = Some t') ∧ world e' = outcome (entries snap) name frame t (world e).
Proof.
  intros name (Hin & Hca & Hco & Hrest) Hroom Hh Hsn Hsok Hget Hset.
  destruct (lookup_ok _ _ _ _ _ name (names e) Hca Hroom Hh) as (i & l & El & Hca' & Hp & _).
  assert (at_rest t) as [Hr Hd].
  { unfold retrace_thread_context_get in Hget. destruct (tls e); [simplify_eq; by apply Hrest|].
    destruct (_ && _); by simplify_eq. }
  unfold retrace_engine_wrapper, outcome. fold name. rewrite Hin, El. cbn [negb retrace_inited with_names]. rewrite Hin.
  cbn [negb]. change (retrace_thread_context_get (with_names l e)) with (retrace_thread_context_get e). rewrite Hget.
  rewrite Hd. change (0 + 1)%Z with 1%Z. set (real := retrace_real_impl_resolve _ _ _ _ name).
  destruct (real =? 0)%Z.
  { eexists. split; [done|]. split; [|by split; [eexists|]]. split_and!; [done..|]. cbn. intros ? [= <-]. done. }
  unfold retrace_reentrance_guard_active. cbn [real_impl set_depth]. rewrite Hr. cbn [Z.eqb negb].
  unfold dispatch_guarded. cbn [names with_world with_names].
  destruct (proto_ok _ _ _ _ _ name i l Hca' Hp Hh) as (l' & -> & Hca''). cbn zeta.
  set (e1 := if enabled _ then _ else _).
  match goal with e1 := if enabled (hashes ?e0) then with_hashes (retrace_call_hash_observe _ _ _ (Some ?n) ?a _) _ else _ |- _ =>
    destruct (observe_same n a e0) as (Hw1 & Hn1 & Hc1 & Hi1) end.
  fold e1 in Hw1, Hn1, Hc1, Hi1. cbn in Hw1, Hn1, Hc1, Hi1. clearbody e1.
  assert (engine_ok (mkEngine (retrace_inited e1) (names e1) None (callers e1) (hashes e1) (freed e1) (world e1))) as Hok1.
  { split_and!; cbn; congruence || done || idtac. }
  unfold script_for. destruct (func_get name) as [p|] eqn:Ef; cbn [mbind option_bind].
  2:{ eexists. split; [done|]. split; [by apply clean_up_ok|]. by split; [eexists|]. }
  destruct (negb (retrace_logger_func_loggable allowed excluded name)).
  { eexists. split; [done|]. split; [by apply clean_up_ok|]. by split; [eexists|]. }
  rewrite Hw1. change (set_prototype (Some p) _) with (entered t real frame p).
  change (arch_spec_ctx (entered t real frame p)) with frame.
  pose proof (Hset real p Ef) as Hdef.
  destruct (retrace_as_setup_params _ _ _ _ _) as [[[|] ps]|]; [|cbn [negb]|done].
  - cbn [negb]. destruct (dispatch_script_ok snap name frame p ps t real e1 Hsn Hsok Hok1) as (e' & -> & Hok' & Htl & Hw).
    eexists. split; [done|]. split; [done|]. split; [by eexists|]. rewrite Hw, Hw1.
    destruct (json_object_get_array _ _) as [scripts|]; cbn [mbind option_bind]; [|done].
    by destruct (ScriptResolver.resolved _ _ _ _ _).
  - eexists. split; [done|]. split; [by apply clean_up_ok|]. by split; [eexists|].
Qed.

(** C1 (refinement). A dispatch from rest returns, leaves the engine's
    invariant and a context at rest, and the frames are as its specification
    gives them: without a real implementation the call returns -1; otherwise
    the real implementation is scheduled, and when the function has a
    prototype, passes the filter, its parameters are set up and a script is
    chosen by the rules, the schedule is cancelled, the script's actions run
    and the context's return value is given to the frame. *)
Theorem engine_dispatch snap func_name frame e t :
  let name := strip_darwin_extsn func_name 64 in
  engine_ok e → has_room (names e) → hashable name → g_snap = Some snap → snap_ok snap →
  retrace_thread_context_get e = Some t → setup_defined name frame t (world e) →
  ∃ e', retrace_engine_wrapper func_name frame e = Some e' ∧ engine_ok e' ∧
    (∃ t', tls e' = Some t') ∧ world e' = outcome (entries snap) name frame t (world e).
Proof. apply dispatch_outcome. Qed.

(** ** What the caller sees *)

Section Laws.
Context `{!LaneLaws W}.

(** An action that, when it runs in a dispatch on a lane, leaves the schedule of
    the frame and the lane alone. *)
Definition quiet (ops : option nat) (frame : Z) (f : action_fn) : Prop :=
  ∀ t o w, lane_ops t = ops → dispatch_depth t = 1%Z →
  let '(_, t', w') := f t o w in
  (∀ o', fits o' frame w' ↔ fits o' frame w) ∧ runs_real frame w' = runs_real frame w ∧
  lane_ops t' = ops ∧ dispatch_depth t' = 1%Z.

(** All actions that an array names are such. *)
Definition quiet_actions (ops : option nat) (frame : Z) (l : JSON_Array) : Prop :=
  ∀ v n f, v ∈ l → json_object_get_string (json_value_get_object (Some v)) "action_name" = Some n → actions_get n = Some f →
    quiet ops frame f.

Definition quiet_script (ops : option nat) (frame : Z) (script : JSON_Object) : Prop :=
  ∀ l, json_object_get_array (Some script) "actions" = Some l → quiet_actions ops frame l.

Lemma run_actions_quiet ops frame l t w :
  quiet_actions ops frame l → lane_ops t = ops → dispatch_depth t = 1%Z →
  let '(t', w') := run_actions l t w in
  (∀ o', fits o' frame w' ↔ fits o' frame w) ∧ runs_real frame w' = runs_real frame w ∧
  lane_ops t' = ops ∧ dispatch_depth t' = 1%Z.
Proof.
  intros Hq. revert t w. induction l as [|v l IH]; intros t w Hl Hd; cbn; [done|].
  destruct (json_object_get_string _ _) as [n|] eqn:En; [|done]. destruct (actions_get n) as [f|] eqn:Ef; [|done].
  assert (quiet ops frame f) as Hf by (eapply (Hq v); [by left|done..]).
  specialize (Hf t (json_object_get_object (json_value_get_object (Some v)) "action_params") w Hl Hd).
  destruct (f _ _ _) as [[rc t1] w1]. destruct Hf as (H1 & H2 & H3 & H4).
  destruct (negb _); [done|]. specialize (IH ltac:(intros x ? ? ?; apply Hq; by right) t1 w1 H3 H4).
  destruct (run_actions l t1 w1) as [t2 w2].
  destruct IH as (K1 & K2 & K3 & K4). split_and!; [|congruence..]. intros o'. by rewrite K1.
Qed.

(** The integer actions are, on every lane. *)
Lemma modify_return_quiet ops frame : quiet ops frame ia_modify_return_value_int.
Proof.
  intros t o w Hl Hd. unfold ia_modify_return_value_int. destruct o as [o|]; [|done]. by destruct (json_object_get_value _ _).
Qed.

Lemma modify_param_quiet ops frame : quiet ops frame ia_modify_in_param_int.
Proof. intros t o w Hl Hd. unfold ia_modify_in_param_int. by repeat case_match; simplify_eq. Qed.

Lemma lane_at_entry t : lane_ops_for (Some (set_depth 1 t)) = lane_ops t.
Proof. done. Qed.

(** C2 (functional). What the caller of an intercepted function sees, on any
    lane that keeps the laws of the interface. Without a script the real
    implementation runs when the engine returns, and the frames of other calls
    are as they were. With a script of which all actions leave the schedule
    alone on this lane, as the integer actions do on every lane and call_real on
    the trampoline, the real implementation does not run after the engine, and
    the caller gets the context's return value as the lane translates it; on the
    traced lane only if this is not -1. Without a real implementation a call
    through the trampoline gets -1. *)
Theorem engine_verdict snap func_name frame e t :
  let name := strip_darwin_extsn func_name 64 in
  let real := retrace_real_impl_resolve get_real_safe impl_strcmp impl_free impl_malloc name in
  let w1 := retrace_as_sched_real (Some (set_depth 1 t)) frame real (world e) in
  engine_ok e → has_room (names e) → hashable name → g_snap = Some snap → snap_ok snap →
  retrace_thread_context_get e = Some t → setup_defined name frame t (world e) →
  fits (lane_ops t) frame (world e) →
  ∃ e', retrace_engine_wrapper func_name frame e = Some e' ∧
    if (real =? 0)%Z then
      runs_real frame (world e) = false → lane_ops t = None →
      runs_real frame (world e') = false ∧ answer frame (world e') = (-1)%Z
    else
      match script_for (entries snap) name frame real t w1 with
      | None => runs_real frame (world e') = true ∧
                ∀ g, g ≠ frame → runs_real g (world e') = runs_real g (world e) ∧
                                  answer g (world e') = answer g (world e)
      | Some (p, ps, script) =>
          let t1 := set_params ps (entered t real frame p) in
          let t2 := (retrace_action_runner_run t1 script (retrace_as_cancel_sched_real (Some t1) frame w1)).1 in
          quiet_script (lane_ops t) frame script →
          runs_real frame (world e') = false ∧
          (lane_ops t = None ∨ lane_value (Some t2) (ret_val t2) ≠ (-1)%Z →
           answer frame (world e') = lane_value (Some t2) (ret_val t2))
      end.
Proof.
  intros name real w1 Hok Hroom Hh Hsn Hsok Hget Hset Hfit.
  destruct (dispatch_outcome snap func_name frame e t Hok Hroom Hh Hsn Hsok Hget Hset) as (e' & He & _ & _ & Hw).
  exists e'. split; [exact He|]. rewrite Hw. unfold outcome. fold name real w1.
  destruct (real =? 0)%Z.
  { intros Hr Hl. unfold retrace_as_set_ret_val, lane_value. rewrite lane_at_entry. rewrite Hl in *.
    split; [by rewrite set_ret_runs|]. apply set_ret_answer; auto. }
  assert (fits (lane_ops t) frame w1) as Hf1 by (by apply sched_only).
  destruct (script_for _ _ _ _ _ _) as [[[p ps] script]|].
  2:{ split; [by apply sched_runs|]. apply (sched_only (lane_ops t) frame real (world e)). }
  set (t1 := set_params ps (entered t real frame p)). intros Hq.
  set (w2 := retrace_as_cancel_sched_real (Some t1) frame w1).
  assert (fits (lane_ops t) frame w2) as Hf2 by (by apply cancel_only).
  assert (runs_real frame w2 = false) as Hr2 by (by apply cancel_runs).
  unfold retrace_action_runner_run.
  unfold quiet_script in Hq. set (l := json_object_get_array (Some script) "actions") in *.
  assert (∃ t2 w3, match l with None => (t1, w2) | Some l => run_actions l t1 w2 end = (t2, w3) ∧
    fits (lane_ops t) frame w3 ∧ runs_real frame w3 = false ∧ lane_ops t2 = lane_ops t ∧ dispatch_depth t2 = 1%Z)
    as (t2 & w3 & -> & Hf3 & Hr3 & Hl3 & Hd3).
  { destruct l as [l|]; [|by do 2 eexists]. pose proof (run_actions_quiet (lane_ops t) frame l t1 w2 (Hq l eq_refl) eq_refl eq_refl) as H.
    destruct (run_actions l t1 w2) as [t2 w3]. destruct H as (H1 & H2 & H3 & H4). do 2 eexists. split; [done|].
    split_and!; [by apply H1|congruence|done|done]. }
  assert (lane_ops_for (Some t2) = lane_ops t) as Hl2 by (by cbn; rewrite Hd3, Hl3).
  cbn [fst]. unfold retrace_as_set_ret_val. rewrite Hl2. split; [by rewrite set_ret_runs|].
  intros Hor. by apply set_ret_answer.
Qed.

(** C34 (safety). A call the tracer makes while it handles another one, on the
    same thread: the guard lets it through. The real function is scheduled on
    the nested frame through the default table, whatever lane the outer call
    runs under, and the context, the caller cache, the hashes and the frames
    of other calls are left as they are. *)
Theorem nested_call_transparent func_name frame e t :
  let name := strip_darwin_extsn func_name 64 in
  let real := retrace_real_impl_resolve get_real_safe impl_strcmp impl_free impl_malloc name in
  retrace_inited e = true →
  cache_ok get_real_safe impl_strcmp impl_free impl_malloc func_get (names e) →
  has_room (names e) → hashable name → real ≠ 0%Z →
  tls e = Some t → real_impl t ≠ 0%Z → (1 ≤ dispatch_depth t)%Z → fits None frame (world e) →
  ∃ e', retrace_engine_wrapper func_name frame e = Some e' ∧
    tls e' = Some t ∧ callers e' = callers e ∧ hashes e' = hashes e ∧ freed e' = freed e ∧
    runs_real frame (world e') = true ∧
    ∀ g, g ≠ frame → runs_real g (world e') = runs_real g (world e) ∧ answer g (world e') = answer g (world e).
Proof.
  intros name real Hin Hca Hroom Hh Hreal Htls Hg Hd Hfit.
  destruct (lookup_ok _ _ _ _ _ name (names e) Hca Hroom Hh) as (i & l & El & _).
  unfold retrace_engine_wrapper. fold name. rewrite Hin, El. cbn [negb retrace_inited with_names]. rewrite Hin.
  cbn [negb]. unfold retrace_thread_context_get. cbn [tls with_names]. rewrite Htls.
  fold real. rewrite (proj2 (Z.eqb_neq _ _) Hreal). unfold retrace_reentrance_guard_active. cbn [real_impl set_depth].
  rewrite (proj2 (Z.eqb_neq _ _) Hg). cbn [negb]. eexists. split; [done|]. cbn [tls out with_tls callers hashes freed].
  assert (lane_ops_for (Some (set_depth (dispatch_depth t + 1) t)) = None) as Hl.
  { cbn. by rewrite (proj2 (Z.leb_gt _ _)) by lia. }
  split_and!; try done.
  - cbn. replace (dispatch_depth t + 1 - 1)%Z with (dispatch_depth t) by lia. by destruct t.
  - cbn [world out with_tls with_world]. unfold retrace_as_sched_real. rewrite Hl. by apply sched_runs.
  - cbn [world out with_tls with_world]. unfold retrace_as_sched_real. rewrite Hl.
    apply (sched_only None frame _ (world e)).
Qed.
End Laws.

(** ** The order of the actions *)

(** What the runner finds in an element: the action and its parameters. *)
Definition usable (v : JSON_Value) : option (action_fn * option JSON_Object) :=
  let o := json_value_get_object (Some v) in
  name ← json_object_get_string o "action_name";
  f ← actions_get name;
  Some (f, json_object_get_object o "action_params").

(** Actions run one after the other, each returning 0. *)
Inductive ran : JSON_Array → ThreadContext → W → ThreadContext → W → Prop :=
  | ran_nil t w : ran [] t w t w
  | ran_cons v l f o t w t1 w1 t2 w2 :
      usable v = Some (f, o) → f t o w = (0%Z, t1, w1) → ran l t1 w1 t2 w2 → ran (v :: l) t w t2 w2.

(** The runner runs the actions of a script in order, each
    on the context and the frames the one before it left, and stops after the
    last one, at the first element that is no known action, or after the first
    action that fails. *)
Theorem runner_in_order l t w :
  ∃ l1 l2 t1 w1, l = l1 ++ l2 ∧ ran l1 t w t1 w1 ∧
    match l2 with
    | [] => run_actions l t w = (t1, w1)
    | v :: _ =>
        match usable v with
        | None => run_actions l t w = (t1, w1)
        | Some (f, o) => ∃ rc t2 w2, f t1 o w1 = (rc, t2, w2) ∧ rc ≠ 0%Z ∧ run_actions l t w = (t2, w2)
        end
    end.
Proof.
  revert t w. induction l as [|v l IH]; intros t w.
  - exists [], [], t, w. split_and!; [done|constructor|done].
  - destruct (usable v) as [[f o]|] eqn:Eu.
    + destruct (f t o w) as [[rc t1] w1] eqn:Ef. pose proof Eu as Eu'. unfold usable in Eu'.
      destruct (json_object_get_string _ _) as [n|] eqn:En; [|done]. cbn in Eu'.
      destruct (actions_get n) as [f'|] eqn:Ea; [|done]. cbn in Eu'. simplify_eq.
      destruct (Z.eqb_spec rc 0) as [-> | Hrc].
      * destruct (IH t1 w1) as (l1 & l2 & t2 & w2 & -> & Hran & H). exists (v :: l1), l2, t2, w2.
        split_and!; [done|by econstructor|].
        assert (run_actions (v :: l1 ++ l2) t w = run_actions (l1 ++ l2) t1 w1) as E.
        { cbn. cbn in En. rewrite En, Ea. cbn in Ef. by rewrite Ef. }
        cbn [app]. by rewrite E.
      * exists [], (v :: l), t, w. split_and!; [done|constructor|]. rewrite Eu. exists rc, t1, w1.
        split_and!; [done|done|]. cbn. cbn in En. rewrite En, Ea. cbn in Ef. rewrite Ef.
        by rewrite (proj2 (Z.eqb_neq _ _) Hrc).
    + exists [], (v :: l), t, w. split_and!; [done|constructor|]. rewrite Eu. unfold usable in Eu.
      cbn in Eu |- *. destruct (json_object_get_string _ _) as [n|]; [|done]. cbn in Eu.
      by destruct (actions_get n).
Qed.

(** No dispatch records the address of the caller: it stays 0, the address
    the scripts are looked up for. *)
Theorem caller_address_never_set func_name frame e e' :
  (∀ t, tls e = Some t → ret_addr t = 0%Z) → retrace_engine_wrapper func_name frame e = Some e' →
  ∀ t, tls e' = Some t → ret_addr t = 0%Z.
Proof.
  intros He. unfold retrace_engine_wrapper.
  destruct (name_slot_lookup _ _ _ _ _ _ _) as [[[i real] l]|]; [|done].
  destruct (negb _); [intros [= <-]; exact He|].
  destruct (retrace_thread_context_get (with_names l e)) as [t|] eqn:Eg; [|by intros [= <-]].
  assert (ret_addr t = 0%Z) as Ht.
  { unfold retrace_thread_context_get in Eg. cbn in Eg. destruct (tls e); [by simplify_eq; apply He|].
    destruct (_ && _); by simplify_eq. }
  destruct (real =? 0)%Z; [by intros [= <-] ? [= <-]|].
  destruct (retrace_reentrance_guard_active _); [by intros [= <-] ? [= <-]|].
  unfold dispatch_guarded, dispatch_script. intros H t'.
  repeat (case_match; simplify_eq; try (by intros [= <-])).
Qed.

End Engine.

(** ** The engine on the trampoline *)

(** A script element that calls the real function. *)
Definition call_real_element : JSON_Value := JSONObject [(lit "action_name", JSONString (lit "call_real"))].

Section OnTrampoline.
Variable printf_types : Z → list Z.
Variable fl : PrintfFormat.printf_flags.
Variable registered : list PrintfFormat.DataType.
Variable new_sz : bytes → Z.
Variable tracee_read : Z → Z → nat → bytes.
Variable errno : Z.
Variable call : Z → list Z → Z.
#[local] Instance lanes : Lanes (gmap Z Lanes.frame) :=
  frame_lanes printf_types fl registered true new_sz tracee_read errno call.

Variable call_variadic : Z → list FuncParam → nat → Z.
Variable actions_get : bytes → option (action_fn (W := gmap Z Lanes.frame)).
Variable get_real_safe : bytes → Z.
Variables impl_strcmp impl_free impl_malloc : Z.
Variable func_get : bytes → option FuncPrototype.
Variable rc_dladdr : Z → option dl_info.
Variable retrace_conf : option JSON_Object.
Variables allowed excluded : LoggerFuncFilter.
Variables ctx_malloc ctx_tss hash_malloc hash_tss : bool.
Variable tid : nat.

(** C35 (equivalence). A script that only calls the real function is
    transparent: for a function of at most six parameters, not variadic, called
    through the trampoline, the engine's call takes place with the values of the
    argument registers in order, the caller gets what that call returns, and the
    real function is not run again. *)
Theorem call_real_transparent snap func_name frame e t f p scripts script :
  let name := strip_darwin_extsn func_name 64 in
  let real := retrace_real_impl_resolve get_real_safe impl_strcmp impl_free impl_malloc name in
  engine_ok get_real_safe impl_strcmp impl_free impl_malloc func_get rc_dladdr e → has_room (names e) →
  hashable name → snap_ok snap → real ≠ 0%Z →
  retrace_thread_context_get ctx_malloc ctx_tss e = Some t → lane_ops t = None →
  world e !! frame = Some (Wrapper f) →
  func_get name = Some p → fp_fmt p = FAT_NOVARARGS → fp_params_cnt p ≤ 6 →
  retrace_logger_func_loggable allowed excluded name = true →
  json_object_get_array retrace_conf "intercept_scripts" = Some scripts →
  ScriptResolver.resolved rc_dladdr (entries snap) scripts name (ret_addr t) = Some script →
  json_object_get_array (Some script) "actions" = Some [call_real_element] →
  actions_get (lit "call_real") = Some (ia_call_real call_variadic) →
  ∃ e', retrace_engine_wrapper actions_get get_real_safe impl_strcmp impl_free impl_malloc func_get rc_dladdr
          retrace_conf (Some snap) allowed excluded ctx_malloc ctx_tss hash_malloc hash_tss tid func_name frame e
        = Some e' ∧
    runs_real frame (world e') = false ∧
    answer frame (world e') = call real (take (fp_params_cnt p) (registers f)).
Proof.
  intros name real Hok Hroom Hh Hsok Hreal Hget Hlane Hf Hp Hfmt Hcnt Hlog Hconf Hres Hact Hcr.
  assert (∀ r t0, lane_ops t0 = None → retrace_as_sched_real (Some t0) frame r (world e) !! frame =
    Some (Wrapper (trampoline_sched_real r f))) as Hsched.
  { intros r t0 Hl0. unfold retrace_as_sched_real, lane_ops_for. rewrite Hl0. cbn. rewrite lookup_alter_eq, Hf.
    by case_match. }
  assert (∀ r p0, func_get name = Some p0 → retrace_as_setup_params (entered t r frame p0) frame p0 ENGINE_MAXCOUNT_PARAMS
      (retrace_as_sched_real (Some (set_depth 1 t)) frame r (world e)) =
    trampoline_setup_params printf_types fl registered true (trampoline_sched_real r f) p0 32) as Hsetup.
  { intros r p0 Hp0. unfold retrace_as_setup_params. cbn [lane_ops_for dispatch_depth entered]. cbn. rewrite Hlane.
    specialize (Hsched r (set_depth 1 t) Hlane). unfold retrace_as_sched_real in Hsched. cbn in Hsched.
    rewrite Hlane in Hsched. by rewrite Hsched. }
  destruct (proj1 (setup_registers printf_types fl registered true (trampoline_sched_real real f) p 32 Hfmt))
    as (ps & Hps & _ & _ & Hvals); [lia|].
  destruct (dispatch_outcome actions_get get_real_safe impl_strcmp impl_free impl_malloc func_get rc_dladdr
    retrace_conf (Some snap) allowed excluded ctx_malloc ctx_tss hash_malloc hash_tss tid snap func_name frame e t)
    as (e' & He & _ & _ & Hw); try done.
  { intros r p0 Hp0. fold name in Hp0. rewrite Hsetup by done. rewrite Hp in Hp0. simplify_eq.
    destruct (proj1 (setup_registers printf_types fl registered true (trampoline_sched_real r f) p0 32 Hfmt))
      as (ps' & -> & _); [lia|done]. }
  exists e'. split; [exact He|]. rewrite Hw. unfold outcome. fold name real.
  rewrite (proj2 (Z.eqb_neq _ _) Hreal). unfold script_for. rewrite Hp. cbn [mbind option_bind]. rewrite Hlog.
  cbn [negb]. rewrite Hsetup, Hps, Hconf by done. cbn [mbind option_bind]. rewrite Hres. cbn [mbind option_bind].
  unfold retrace_action_runner_run. rewrite Hact. unfold call_real_element. cbn [run_actions].
  change (json_object_get_string _ "action_name") with (Some (lit "call_real")). cbn [mbind]. rewrite Hcr.
  unfold ia_call_real. cbn [prototype entered set_prototype set_params]. rewrite Hfmt.
  unfold retrace_as_call_real, retrace_as_cancel_sched_real, retrace_as_set_ret_val, lane_value, lane_ops_for.
  cbn [lane_ops dispatch_depth entered set_params set_prototype retrace_reentrance_guard_enter set_depth].
  assert (Z.leb 1 1 = true) as -> by done. rewrite Hlane. cbn [op_call_real op_cancel_sched_real lanes frame_lanes].
  specialize (Hsched real (set_depth 1 t) Hlane).
  change (registers (trampoline_sched_real real f)) with (registers f) in Hvals.
  assert (length ps = fp_params_cnt p) as Hlen.
  { rewrite <- (length_fmap val), Hvals by done. rewrite length_take. cbn. lia. }
  set (w := retrace_as_sched_real _ _ _ _) in *. clearbody w.
  cbn. rewrite Hlane, !lookup_alter_eq, Hsched. cbn.
  unfold retrace_as_call_real_dispatch. cbn [negb andb]. rewrite Hlen, (proj2 (Nat.leb_le _ _)), Hvals by lia. done.
Qed.

(** Through the trampoline the call of the real function leaves the schedule
    alone. *)
Lemma call_real_quiet frame : quiet None frame (ia_call_real call_variadic).
Proof.
  intros t o w Hl Hd. unfold ia_call_real, retrace_as_call_real, lane_ops_for. rewrite Hd, Hl. cbn [Z.leb Z.compare Pos.compare Pos.compare_cont op_call_real frame_lanes].
  destruct (match prototype t with Some _ => _ | None => _ end) as [n|]; [done|].
  destruct (w !! arch_spec_ctx t) as [[]|]; done.
Qed.
End OnTrampoline.

(** *** Witnesses *)

Definition demo_call (real : Z) (vals : list Z) : Z := (real + foldr Z.add 0 vals)%Z.
#[local] Instance demo_lanes : Lanes (gmap Z Lanes.frame) :=
  frame_lanes (λ _, []) PrintfFormat.glibc [] true (λ _, 1%Z) (λ _ _ _, []) 0%Z demo_call.

Definition demo_real (s : bytes) : Z := if streq s (lit "close") then 5000%Z else 0%Z.
Definition demo_protos (s : bytes) : option FuncPrototype :=
  if streq s (lit "close") then Some demo_proto else None.
Definition demo_dladdr : Z → option dl_info := λ _, None.
Definition modify_element : JSON_Value :=
  JSONObject [(lit "action_name", JSONString (lit "modify_return_value_int"));
              (lit "action_params", JSONObject [(lit "retval_int", JSONNumber (d_int 7))])].
Definition demo_script (v : JSON_Value) : JSON_Object :=
  [(lit "func_name", JSONString (lit "close")); (lit "actions", JSONArray [v])].
Definition demo_conf (v : JSON_Value) : option JSON_Object :=
  Some [(lit "intercept_scripts", JSONArray [JSONObject (demo_script v)])].
Definition demo_actions (n : bytes) : option (action_fn (W := gmap Z Lanes.frame)) :=
  if streq n (lit "modify_return_value_int") then Some ia_modify_return_value_int else None.
Definition demo_call_actions (n : bytes) : option (action_fn (W := gmap Z Lanes.frame)) :=
  if streq n (lit "call_real") then Some (ia_call_real (λ _ _ _, 0%Z)) else None.
Definition demo_snap : cache_snap := mkSnap [] [].
Definition demo_frames : gmap Z Lanes.frame :=
  <[4096%Z := Wrapper demo_wrapper]> (<[8192%Z := Wrapper demo_wrapper]> ∅).
Definition demo_engine (t : option ThreadContext) : engine (W := gmap Z Lanes.frame) :=
  mkEngine true RealCache.empty_cache t ScriptResolver.empty_cache (CallHash.mkState false [] 0) [] demo_frames.

Lemma demo_engine_ok : engine_ok demo_real 1 2 3 demo_protos demo_dladdr (demo_engine None).
Proof.
  split_and!; [done|apply empty_cache_ok|apply ScriptResolver.empty_coherent|done].
Qed.

Lemma demo_hashable : hashable (lit "close").
Proof. apply (bool_decide_eq_true_1 _). vm_compute. reflexivity. Qed.

Lemma demo_setup : setup_defined demo_protos (lit "close") 4096 zero_context demo_frames.
Proof. intros real p Hp. vm_compute in Hp. by simplify_eq. Qed.

Lemma engine_dispatch_witness :
  ∃ e', retrace_engine_wrapper demo_actions demo_real 1 2 3 demo_protos demo_dladdr (demo_conf modify_element)
          (Some demo_snap) [] [] true true true true 0 (lit "close") 4096 (demo_engine None) = Some e' ∧
    answer 4096%Z (world e') = 7%Z.
Proof.
  destruct (engine_dispatch demo_actions demo_real 1 2 3 demo_protos demo_dladdr (demo_conf modify_element)
    (Some demo_snap) [] [] true true true true 0 demo_snap (lit "close") 4096 (demo_engine None) zero_context)
    as (e' & H & _ & _ & Hw).
  - exact demo_engine_ok.
  - apply (empty_cache_ok demo_real 1 2 3 demo_protos).
  - exact demo_hashable.
  - reflexivity.
  - by left.
  - reflexivity.
  - exact demo_setup.
  - exists e'. split; [exact H|]. rewrite Hw. vm_compute. reflexivity.
Defined.

(** A table with the actions of both kinds, and a script that calls the real
    function and then replaces its result. *)
Definition demo_both (n : bytes) : option (action_fn (W := gmap Z Lanes.frame)) :=
  match demo_call_actions n with Some f => Some f | None => demo_actions n end.
Definition demo_both_conf : option JSON_Object :=
  Some [(lit "intercept_scripts", JSONArray [JSONObject
    [(lit "func_name", JSONString (lit "close")); (lit "actions", JSONArray [call_real_element; modify_element])]])].

Lemma demo_quiet l : quiet_actions demo_both None 4096 l.
Proof.
  intros v n f _ _. unfold demo_both, demo_call_actions, demo_actions. destruct (streq n (lit "call_real")).
  - intros [= <-]. apply call_real_quiet.
  - destruct (streq _ _); [|done]. intros [= <-]. apply modify_return_quiet.
Qed.

Lemma engine_verdict_witness :
  ∃ e', retrace_engine_wrapper demo_both demo_real 1 2 3 demo_protos demo_dladdr demo_both_conf
          (Some demo_snap) [] [] true true true true 0 (lit "close") 4096 (demo_engine None) = Some e' ∧
    runs_real 4096%Z (world e') = false ∧ answer 4096%Z (world e') = 7%Z.
Proof.
  destruct (engine_verdict demo_both demo_real 1 2 3 demo_protos demo_dladdr demo_both_conf
    (Some demo_snap) [] [] true true true true 0
    (LaneLaws0 := frame_lane_laws (λ _, []) PrintfFormat.glibc [] true (λ _, 1%Z) (λ _ _ _, []) 0%Z demo_call)
    demo_snap (lit "close") 4096 (demo_engine None) zero_context)
    as (e' & H & Hv).
  - exact demo_engine_ok.
  - apply (empty_cache_ok demo_real 1 2 3 demo_protos).
  - exact demo_hashable.
  - reflexivity.
  - by left.
  - reflexivity.
  - exact demo_setup.
  - vm_compute. exact I.
  - exists e'. split; [exact H|].
    match type of Hv with if ?b then _ else _ => change b with false in Hv end. cbv iota in Hv.
    match type of Hv with match ?x with None => _ | Some _ => _ end => destruct x as [[[p ps] script]|] eqn:E; [|by vm_compute in E] end.
    destruct Hv as [H1 H2]; [intros l _; apply demo_quiet|]. split; [exact H1|].
    refine (eq_trans (H2 (or_introl eq_refl)) _). vm_compute in E. injection E as <- <- <-. vm_compute. reflexivity.
Defined.

Definition demo_busy : ThreadContext := retrace_reentrance_guard_enter (set_depth 1 zero_context) 77 8192.

Lemma nested_call_transparent_witness :
  ∃ e', retrace_engine_wrapper demo_actions demo_real 1 2 3 demo_protos demo_dladdr (demo_conf modify_element)
          (Some demo_snap) [] [] true true true true 0 (lit "close") 4096 (demo_engine (Some demo_busy)) = Some e' ∧
    tls e' = Some demo_busy ∧ runs_real 4096%Z (world e') = true.
Proof.
  destruct (nested_call_transparent demo_actions demo_real 1 2 3 demo_protos demo_dladdr (demo_conf modify_element)
    (Some demo_snap) [] [] true true true true 0
    (LaneLaws0 := frame_lane_laws (λ _, []) PrintfFormat.glibc [] true (λ _, 1%Z) (λ _ _ _, []) 0%Z demo_call)
    (lit "close") 4096 (demo_engine (Some demo_busy)) demo_busy)
    as (e' & H & H1 & _ & _ & _ & H2 & _).
  - reflexivity.
  - apply empty_cache_ok.
  - apply (empty_cache_ok demo_real 1 2 3 demo_protos).
  - exact demo_hashable.
  - vm_compute. discriminate.
  - reflexivity.
  - discriminate.
  - discriminate.
  - vm_compute. exact I.
  - exists e'. auto.
Defined.

Lemma call_real_transparent_witness :
  ∃ e', retrace_engine_wrapper demo_call_actions demo_real 1 2 3 demo_protos demo_dladdr
          (demo_conf call_real_element) (Some demo_snap) [] [] true true true true 0 (lit "close") 4096
          (demo_engine None) = Some e' ∧
    answer 4096%Z (world e') = 5011%Z.
Proof.
  destruct (call_real_transparent (λ _, []) PrintfFormat.glibc [] (λ _, 1%Z) (λ _ _ _, []) 0%Z demo_call
    (λ _ _ _, 0%Z) demo_call_actions demo_real 1 2 3 demo_protos demo_dladdr (demo_conf call_real_element) [] []
    true true true true 0 demo_snap (lit "close") 4096 (demo_engine None) zero_context demo_wrapper demo_proto
    [JSONObject (demo_script call_real_element)] (demo_script call_real_element)) as (e' & H & _ & Ha).
  all: try exact demo_engine_ok; try exact demo_hashable; try reflexivity.
  - apply (empty_cache_ok demo_real 1 2 3 demo_protos).
  - by left.
  - vm_compute. discriminate.
  - cbn. lia.
  - exists e'. auto.
Defined.

End Engine.
