(* ===== verification/Freeze.v ===== *)
(** * Holding a fleet, end to end

    From the [freeze] command of a controller ([tools/retraced/retraced_ctl.c])
    through the policy the agent applies ([src/supervisor/agent_posix.c]) to
    the calls of the traced program ([src/core/engine.c],
    [src/core/actions/freeze.c]): the text the daemon writes is the policy the
    agent puts in force, and under it no intercepted function runs, even those
    that [freeze.c] means to let pass. *)

From stdpp Require Import gmap.
From S2P Require Import Prelude Numerals Libc Stdio Context Json JsonText JsonRoundTrip JsonPrint ConfigCache.
From S2P Require Import AgentRegistry PolicySig Agent Rpc Daemon Ctl ScriptResolver RealCache CallHash LogFilter PrintfFormat Lanes Engine Faults.

Module Freeze.

Import Libc Stdio Context Json JsonText JsonRoundTrip JsonPrint Lanes.

(** ** The policy *)

Definition freeze_script : JSON_Object :=
  [(lit "func_name", JSONString (lit "*"));
   (lit "actions", JSONArray [JSONObject [(lit "action_name", JSONString (lit "freeze"))]])].

Definition freeze_root (epoch : double) : JSON_Object :=
  [(lit "policy", JSONObject [(lit "epoch", JSONNumber epoch)]);
   (lit "intercept_scripts", JSONArray [JSONObject freeze_script])].

Section text.
Context {DT : DoubleText} {IT : IntText}.

(** What the daemon writes is read as this policy. *)
Lemma freeze_text_reads e :
  (0 ≤ e < 2 ^ 63)%Z →
  ∃ d, ((e ≤ 2 ^ 53)%Z → d_trunc d = e) ∧ json_parse_string (Ctl.freeze_blob e) = Some (JSONObject (freeze_root d)).
Proof.
  intros He. destruct (int_reads e) as (d & Rd & Hd); [lia|]. exists d. split; [done|].
  set (inner := [mkField (lit "epoch") (fmt_llu e) (JSONNumber d)]).
  assert (reads (JSONObject (fields_object inner)) (lit "{" ++ join_fields inner ++ lit "}")) as Hin.
  { apply fields_read; [by apply NoDup_singleton|]. apply Forall_singleton. split; [by repeat constructor|done]. }
  set (scripts := jlit "[{'func_name':'*','actions':[{'action_name':'freeze'}]}]").
  assert (reads (JSONArray [JSONObject freeze_script]) scripts) as Hs.
  { apply serialized_reads; [|by vm_compute]. cbn. split_and!; try done; try (by repeat constructor);
      (apply (bool_decide_eq_true_1 _); by vm_compute). }
  set (fs := [mkField (lit "policy") (lit "{" ++ join_fields inner ++ lit "}") (JSONObject (fields_object inner));
              mkField (lit "intercept_scripts") scripts (JSONArray [JSONObject freeze_script])]).
  assert (reads (JSONObject (fields_object fs)) (lit "{" ++ join_fields fs ++ lit "}")) as Hr.
  { apply fields_read; [apply (bool_decide_eq_true_1 _); by vm_compute|].
    unfold fs. repeat apply Forall_cons_2; [..|apply Forall_nil_2]; (split; [by repeat constructor|]); done. }
  replace (Ctl.freeze_blob e) with ((lit "{" ++ join_fields fs ++ lit "}") ++ []).
  - change (freeze_root d) with (fields_object fs). apply reads_parse; [exact Hr|done|]. apply Nat.leb_le. by vm_compute.
  - unfold fs, inner, scripts, Ctl.freeze_blob, fmt_ld. rewrite (proj2 (Z.ltb_ge _ _)) by lia.
    cbn [join_fields]. unfold field_text. cbn [f_key f_text]. rewrite !app_nil_r, <- !app_assoc. reflexivity.
Qed.

Lemma freeze_text_fits e : snprintf 256 (Ctl.freeze_blob e) = Ctl.freeze_blob e.
Proof.
  unfold snprintf. apply take_ge. unfold Ctl.freeze_blob. rewrite !length_app.
  pose proof (fmt_ld_length e). cbn [length]. set (n := length (fmt_ld e)) in *.
  match goal with |- ?a + (_ + ?b) ≤ ?c => let a' := eval vm_compute in a in let b' := eval vm_compute in b in
    change a with a'; change b with b' end. lia.
Qed.

Lemma trunc_not_lt_one d : (1 ≤ d_trunc d)%Z → PolicySig.d_lt_one d = false.
Proof.
  unfold d_trunc, PolicySig.d_lt_one. destruct (Z.leb_spec 0 (d_exp d)) as [He|He]; intros H; apply Z.ltb_ge; [done|].
  assert (0 < 2 ^ (- d_exp d))%Z as Hp by (apply Z.pow_pos_nonneg; lia).
  destruct (Z.le_gt_cases 0 (d_man d)) as [Hm|Hm].
  - rewrite Z.quot_div_nonneg in H by lia. pose proof (Z.div_mod (d_man d) (2 ^ (- d_exp d)) ltac:(lia)).
    pose proof (Z.mod_pos_bound (d_man d) (2 ^ (- d_exp d)) Hp). nia.
  - pose proof (Z.quot_opp_l (- d_man d) (2 ^ (- d_exp d)) ltac:(lia)) as E. rewrite Z.opp_involutive in E.
    assert (0 ≤ (- d_man d) ÷ 2 ^ (- d_exp d))%Z by (apply Z.quot_pos; lia). lia.
Qed.

(** ** The agent *)

Context {EVP_PKEY : Type}.
Context (pem_file : bytes → option (option EVP_PKEY)) (pem_bio : bytes → option EVP_PKEY).
Context (decode_block : bytes → option bytes) (digest_verify : EVP_PKEY → bytes → bytes → bool).
Context (out_of_range : double → Z).

Notation apply_one := (Agent.apply_one pem_file pem_bio decode_block digest_verify out_of_range).

(** An agent that holds an older policy puts the freeze in force. *)
Lemma agent_freezes e aenv a :
  (0 < e ≤ 2 ^ 53)%Z → (Agent.policy_epoch a < e)%Z → Agent.snap_alloc aenv = true →
  ∃ d snap a', apply_one aenv (Ctl.freeze_blob e) a = Some (0%Z, EmptyString, a') ∧
    Agent.policy_epoch a' = e ∧ Agent.retrace_conf a' = Some (freeze_root d) ∧ Agent.g_snap a' = Some snap ∧
    ConfigCache.snap_ok snap ∧ ConfigCache.entries snap = [].
Proof.
  intros He Hold Halloc. destruct (freeze_text_reads e) as (d & Hd & Hparse); [lia|]. specialize (Hd ltac:(lia)). exists d.
  unfold Agent.apply_one, Agent.retrace_agent_policy_apply, PolicySig.retrace_policy_validate.
  set (g := snd (PolicySig.retrace_policy_sig_init _ _ _ _)).
  rewrite (PolicySig.bare_policy_not_verified _ _ g _ _ 8192 Hparse) by done.
  assert (snprintf 8192 (Ctl.freeze_blob e) = Ctl.freeze_blob e) as ->.
  { unfold snprintf. apply take_ge. rewrite <- (freeze_text_fits e). unfold snprintf. rewrite length_take.
    etransitivity; [apply Nat.le_min_l|]. apply Nat.leb_le. by vm_compute. }
  unfold PolicySig.validate_document. rewrite Hparse. cbv zeta. cbn [json_value_get_object].
  change (json_object_get_object (Some (freeze_root d)) "policy") with (Some [(lit "epoch", JSONNumber d)]).
  cbv beta iota. change (json_object_get_number (Some [(lit "epoch", JSONNumber d)]) "epoch") with d.
  change (json_object_get_number (Some [(lit "epoch", JSONNumber d)]) "expires") with d_zero.
  change (json_object_get_array (Some (freeze_root d)) "intercept_scripts") with (Some [JSONObject freeze_script]).
  rewrite trunc_not_lt_one by lia.
  assert (PolicySig.d_u64 out_of_range d = e) as ->.
  { unfold PolicySig.d_u64. rewrite Hd. destruct (_ && _) eqn:E; [done|]. apply andb_false_iff in E. rewrite Z.leb_gt, Z.ltb_ge in E. lia. }
  rewrite (proj2 (Z.eqb_neq e _)), (proj2 (Z.ltb_ge e _)) by lia. cbn [PolicySig.d_positive d_zero d_man Z.ltb Z.compare andb].
  rewrite bool_decide_eq_false_2 by done.
  destruct (ConfigCache.build_serves (Agent.snap_alloc aenv) (Agent.buckets_alloc aenv) (Some (freeze_root d)) (Agent.g_snap a))
    as (rc & snap & E & _ & Hok). rewrite E. cbn [mbind option_bind].
  assert (rc = 0%Z) as ->.
  { revert E. rewrite Halloc. unfold ConfigCache.retrace_config_cache_build.
    change (json_object_get_array (Some (freeze_root d)) "intercept_scripts") with (Some [JSONObject freeze_script]). cbn [negb].
    destruct (Agent.buckets_alloc aenv); [|by intros [= <- _]]. destruct (ConfigCache.index _); [by intros [= <- _]|done]. }
  destruct (ConfigCache.build_published _ _ _ _ _ [JSONObject freeze_script] E) as (snap' & -> & Hs & Hent); [done|].
  eexists snap', _. split; [done|]. split; [done|]. split; [done|]. split; [done|]. split; [done|]. by rewrite Hent.
Qed.

(** ** The calls of the program *)

Context {W : Type} `{LW : Lanes W} `{!LaneLaws W}.

(** [ia_freeze] as the engine runs it. *)
Definition freeze_action : Engine.action_fn (W := W) := λ t _ w, let '(rc, t) := Faults.ia_freeze t in (rc, t, w).

Context (actions_get : bytes → option (Engine.action_fn (W := W))).
Context (get_real_safe : bytes → Z) (impl_strcmp impl_free impl_malloc : Z).
Context (func_get : bytes → option FuncPrototype) (rc_dladdr : Z → option ScriptResolver.dl_info).
Context (allowed excluded : LogFilter.LoggerFuncFilter) (ctx_malloc ctx_tss hash_malloc hash_tss : bool) (tid : nat).

Notation engine_ok := (Engine.engine_ok get_real_safe impl_strcmp impl_free impl_malloc func_get rc_dladdr).
Notation wrapper conf snap :=
  (Engine.retrace_engine_wrapper actions_get get_real_safe impl_strcmp impl_free impl_malloc func_get rc_dladdr
     conf snap allowed excluded ctx_malloc ctx_tss hash_malloc hash_tss tid).

(** A call of the program that the engine can intercept: there is a real
    function and a prototype, the function is not filtered, and the parameters
    can be set up on its frame. *)
Record interceptable (func_name : bytes) (frame : Z) (en : Engine.engine) (t : ThreadContext) (p : FuncPrototype) : Prop := {
  ic_ok : engine_ok en;
  ic_room : RealCache.has_room (Engine.names en);
  ic_hash : RealCache.hashable (RealCache.strip_darwin_extsn func_name 64);
  ic_ctx : Engine.retrace_thread_context_get ctx_malloc ctx_tss en = Some t;
  ic_real : RealCache.retrace_real_impl_resolve get_real_safe impl_strcmp impl_free impl_malloc
              (RealCache.strip_darwin_extsn func_name 64) ≠ 0%Z;
  ic_proto : func_get (RealCache.strip_darwin_extsn func_name 64) = Some p;
  ic_logged : LogFilter.retrace_logger_func_loggable allowed excluded (RealCache.strip_darwin_extsn func_name 64) = true;
  ic_fits : fits (lane_ops t) frame (Engine.world en);
  ic_params : ∀ real, ∃ ps,
    Engine.retrace_as_setup_params (Engine.entered t real frame p) frame p Engine.ENGINE_MAXCOUNT_PARAMS
      (Engine.retrace_as_sched_real (Some (set_depth 1 t)) frame real (Engine.world en)) = Some (true, ps);
}.

(** What a held call gives its caller. *)
Definition held_value (p : FuncPrototype) (t : ThreadContext) : Z :=
  if Faults.is_pure_timeout (fp_name p) then ret_val t
  else if streq (fp_type_name p) (lit "ptr") then 0%Z else (-1)%Z.

Lemma held_call d snap func_name frame en t p :
  actions_get (lit "freeze") = Some freeze_action → ConfigCache.snap_ok snap → ConfigCache.entries snap = [] →
  interceptable func_name frame en t p →
  ∃ en', wrapper (Some (freeze_root d)) (Some snap) func_name frame en = Some en' ∧ engine_ok en' ∧
    runs_real frame (Engine.world en') = false ∧
    (lane_ops t = None → answer frame (Engine.world en') = held_value p t).
Proof.
  intros Hact Hsnap Hent [Hok Hroom Hh Hctx Hreal Hp Hlog Hfit Hps]. set (name := RealCache.strip_darwin_extsn func_name 64) in *.
  destruct (Engine.dispatch_outcome actions_get get_real_safe impl_strcmp impl_free impl_malloc func_get rc_dladdr
    (Some (freeze_root d)) (Some snap) allowed excluded ctx_malloc ctx_tss hash_malloc hash_tss tid snap func_name frame en t)
    as (en' & He & Hok' & _ & Hw); try done.
  { intros real p0 Hp0. fold name in Hp0. rewrite Hp in Hp0. injection Hp0 as <-. destruct (Hps real) as (ps & ->). done. }
  exists en'. split; [exact He|]. split; [done|]. rewrite Hw. unfold Engine.outcome. fold name.
  set (real := RealCache.retrace_real_impl_resolve _ _ _ _ name) in *. rewrite (proj2 (Z.eqb_neq _ _) Hreal).
  set (w1 := Engine.retrace_as_sched_real _ _ _ _). destruct (Hps real) as (ps & Hsetup). fold w1 in Hsetup.
  unfold Engine.script_for. rewrite Hp. cbn [mbind option_bind]. rewrite Hlog. cbn [negb]. rewrite Hsetup, Hent.
  change (json_object_get_array (Some (freeze_root d)) "intercept_scripts") with (Some [JSONObject freeze_script]).
  cbn [mbind option_bind].
  assert (ScriptResolver.resolved rc_dladdr [] [JSONObject freeze_script] name (ret_addr t) = Some freeze_script) as -> by done.
  cbn [mbind option_bind]. unfold Engine.retrace_action_runner_run.
  change (json_object_get_array (Some freeze_script) "actions")
    with (Some [JSONObject [(lit "action_name", JSONString (lit "freeze"))]]). cbn [Engine.run_actions json_value_get_object].
  change (json_object_get_string (Some [(lit "action_name", JSONString (lit "freeze"))]) "action_name") with (Some (lit "freeze")).
  cbv beta iota. rewrite Hact. unfold freeze_action, Faults.ia_freeze, held_value.
  set (t1 := set_params ps (Engine.entered t real frame p)). change (prototype t1) with (Some p). cbv beta iota.
  assert (fits (lane_ops t) frame w1) as Hf1 by (by apply sched_only).
  set (w2 := Engine.retrace_as_cancel_sched_real (Some t1) frame w1).
  assert (fits (lane_ops t) frame w2) as Hf2 by (by apply cancel_only).
  assert (runs_real frame w2 = false) as Hr2 by (by apply cancel_runs).
  assert (∀ v, runs_real frame (Engine.retrace_as_set_ret_val (Some (set_ret_val v t1)) frame v w2) = false ∧
    (lane_ops t = None → answer frame (Engine.retrace_as_set_ret_val (Some (set_ret_val v t1)) frame v w2) = v)) as Hset.
  { intros v. unfold Engine.retrace_as_set_ret_val. change (Engine.lane_ops_for (Some (set_ret_val v t1))) with (lane_ops t).
    split; [by rewrite set_ret_runs|]. intros Hl. unfold Engine.lane_value.
    change (Engine.lane_ops_for (Some (set_ret_val v t1))) with (lane_ops t). rewrite Hl in *. apply set_ret_answer; auto. }
  destruct (Faults.is_pure_timeout (fp_name p)); cbn [negb Z.eqb].
  - specialize (Hset (ret_val t)). change (set_ret_val (ret_val t) t1) with t1 in Hset. exact Hset.
  - apply Hset.
Qed.

Context (fopen_ok remove_ok : bytes → bool).

(** [sleep] and [usleep] are meant to pass, and are held like the others: the
    action lets the script go on, and its end has no real call. The caller gets
    what the context of the thread holds from an earlier call. *)
Lemma frozen_sleep_held d snap func_name frame en t p :
  actions_get (lit "freeze") = Some freeze_action → ConfigCache.snap_ok snap → ConfigCache.entries snap = [] →
  interceptable func_name frame en t p → Faults.is_pure_timeout (fp_name p) = true →
  ∃ en', wrapper (Some (freeze_root d)) (Some snap) func_name frame en = Some en' ∧
    runs_real frame (Engine.world en') = false ∧ (lane_ops t = None → answer frame (Engine.world en') = ret_val t).
Proof.
  intros Hact Hsnap Hent Hi Ht. destruct (held_call d snap func_name frame en t p Hact Hsnap Hent Hi) as (en' & H & _ & Hr & Ha).
  unfold held_value in Ha. rewrite Ht in Ha. by exists en'.
Qed.

(** C20 (safety). A freeze holds the fleet: the text the daemon sends for it is a
    policy that every agent with an older one, and memory for it, puts in force
    (the epoch is at most 2^53), and from then on no function that the engine intercepts runs, whoever calls it, other than
    [sleep] and [usleep], of which nothing is said here; a function that returns
    a pointer and was entered through the trampoline gives NULL, and every other
    one there -1. *)
Theorem freeze_holds_fleet env c aenv a :
  let e := (Daemon.ctl_epoch (Ctl.dm c) + 1)%Z in
  (0 < e ≤ 2 ^ 53)%Z → (Agent.policy_epoch a < e)%Z → Agent.snap_alloc aenv = true →
  actions_get (lit "freeze") = Some freeze_action →
  ∃ blob a', Daemon.policy_blob (Ctl.dm (Ctl.verb_freeze fopen_ok remove_ok env c)) = Some blob ∧
    apply_one aenv blob a = Some (0%Z, EmptyString, a') ∧ Agent.policy_epoch a' = e ∧
    ∀ func_name frame en t p, interceptable func_name frame en t p → Faults.is_pure_timeout (fp_name p) = false →
    ∃ en', wrapper (Agent.retrace_conf a') (Agent.g_snap a') func_name frame en = Some en' ∧ engine_ok en' ∧
      runs_real frame (Engine.world en') = false ∧
      (lane_ops t = None → answer frame (Engine.world en') = if streq (fp_type_name p) (lit "ptr") then 0%Z else (-1)%Z).
Proof.
  intros e He Hold Halloc Hact. destruct (agent_freezes e aenv a He Hold Halloc) as (d & snap & a' & Ha & Hep & Hc & Hs & Hsnap & Hent).
  exists (Ctl.freeze_blob e), a'. split; [|split; [exact Ha|]].
  - change (Some (snprintf 256 (Ctl.freeze_blob e)) = Some (Ctl.freeze_blob e)). by rewrite freeze_text_fits.
  - split; [done|]. intros func_name frame en t p Hi Ht. rewrite Hc, Hs.
    destruct (held_call d snap func_name frame en t p Hact Hsnap Hent Hi) as (en' & H). exists en'. unfold held_value in H. by rewrite Ht in H.
Qed.

End text.

(** ** An instance *)

(** A program that calls close through the trampoline. *)
#[local] Instance toy_lanes : Lanes (gmap Z Lanes.frame) := Engine.demo_lanes.
#[local] Instance toy_laws : LaneLaws (gmap Z Lanes.frame) :=
  frame_lane_laws (λ _, []) PrintfFormat.glibc [] true (λ _, 1%Z) (λ _ _ _, []) 0%Z Engine.demo_call.

Definition toy_actions (n : bytes) : option (Engine.action_fn (W := gmap Z Lanes.frame)) :=
  if streq n (lit "freeze") then Some freeze_action else None.

Lemma toy_interceptable :
  interceptable Engine.demo_real 1 2 3 Engine.demo_protos Engine.demo_dladdr [] [] true true
    (lit "close") 4096 (Engine.demo_engine None) zero_context Lanes.demo_proto.
Proof.
  split.
  - exact Engine.demo_engine_ok.
  - apply (RealCache.empty_cache_ok Engine.demo_real 1 2 3 Engine.demo_protos).
  - exact Engine.demo_hashable.
  - reflexivity.
  - vm_compute. discriminate.
  - reflexivity.
  - reflexivity.
  - vm_compute. exact I.
  - intros real. eexists. vm_compute. reflexivity.
Qed.

#[local] Existing Instance JsonRoundTrip.whole_numbers.

Definition toy_ctl : Ctl.Ctl := Ctl.mkCtl Daemon.toy_daemon ∅ false None Ctl.RETRACED_SCOPE_ALL [] [] [].

Lemma freeze_holds_fleet_witness :
  ∃ blob a', Daemon.policy_blob (Ctl.dm (Ctl.verb_freeze (λ _, true) (λ _, true) (Ctl.mkEnv 0 1 None) toy_ctl)) = Some blob ∧
    Agent.policy_epoch a' = 2%Z ∧
    ∃ en', Engine.retrace_engine_wrapper toy_actions Engine.demo_real 1 2 3 Engine.demo_protos Engine.demo_dladdr
             (Agent.retrace_conf (EVP_PKEY := bytes) a') (Agent.g_snap a') [] [] true true true true 0 (lit "close") 4096
             (Engine.demo_engine None) = Some en' ∧
      runs_real 4096%Z (Engine.world en') = false ∧ answer 4096%Z (Engine.world en') = (-1)%Z.
Proof.
  destruct (freeze_holds_fleet (λ _, None) (λ _, None) (λ _, None) (λ _ _ _, false) (λ _, 0%Z) toy_actions
    Engine.demo_real 1 2 3 Engine.demo_protos Engine.demo_dladdr [] [] true true true true 0 (λ _, true) (λ _, true)
    (Ctl.mkEnv 0 1 None) toy_ctl (Agent.mkEnv None true 0 true true) Agent.toy_agent) as (blob & a' & Hb & _ & He & Hall).
  - vm_compute. split; [done|discriminate].
  - by vm_compute.
  - reflexivity.
  - reflexivity.
  - exists blob, a'. split; [exact Hb|]. split; [exact He|].
    destruct (Hall _ _ _ _ _ toy_interceptable eq_refl) as (en' & H & _ & Hr & Ha). exists en'. split; [exact H|]. split; [exact Hr|].
    rewrite Ha by reflexivity. by vm_compute.
Defined.

End Freeze.
