(* ===== verification/ProtoLibc.v ===== *)
(** * Prototypes: the C library

    The tables of [src/core/prototypes/] for stdio.c, stdlib.c, string.c,
    ctype.c, locale.c and time.c. *)

From S2P Require Import Prelude Context.
Import Context.

Module ProtoLibc.

(** ** stdio.c *)

Definition proto_fclose : FuncPrototype :=
  mkProto (lit "fclose") CC_SYSTEM_V
    [mkMeta (lit "stream") (lit "ptr") CDM_NOMOD PDIR_IN [] []]
    1 (lit "int") FAT_NOVARARGS 0.
Definition proto_clearerr : FuncPrototype :=
  mkProto (lit "clearerr") CC_SYSTEM_V
    [mkMeta (lit "stream") (lit "ptr") CDM_NOMOD PDIR_IN [] []]
    1 (lit "void") FAT_NOVARARGS 0.
Definition proto_feof : FuncPrototype :=
  mkProto (lit "feof") CC_SYSTEM_V
    [mkMeta (lit "stream") (lit "ptr") CDM_NOMOD PDIR_IN [] []]
    1 (lit "int") FAT_NOVARARGS 0.
Definition proto_ferror : FuncPrototype :=
  mkProto (lit "ferror") CC_SYSTEM_V
    [mkMeta (lit "stream") (lit "ptr") CDM_NOMOD PDIR_IN [] []]
    1 (lit "int") FAT_NOVARARGS 0.
Definition proto_fflush : FuncPrototype :=
  mkProto (lit "fflush") CC_SYSTEM_V
    [mkMeta (lit "stream") (lit "ptr") CDM_NOMOD PDIR_IN [] []]
    1 (lit "int") FAT_NOVARARGS 0.
Definition proto_fgetpos : FuncPrototype :=
  mkProto (lit "fgetpos") CC_SYSTEM_V
    [mkMeta (lit "stream") (lit "ptr") CDM_NOMOD PDIR_IN [] [];
     mkMeta (lit "pos") (lit "ptr") CDM_NOMOD PDIR_IN [] []]
    2 (lit "int") FAT_NOVARARGS 0.
Definition proto_fopen : FuncPrototype :=
  mkProto (lit "fopen") CC_SYSTEM_V
    [mkMeta (lit "filename") (lit "ptr") (Z.lor CDM_POINTER CDM_CONST) PDIR_IN (lit "sz") [];
     mkMeta (lit "mode") (lit "ptr") (Z.lor CDM_POINTER CDM_CONST) PDIR_IN (lit "sz") []]
    2 (lit "ptr") FAT_NOVARARGS 0.
Definition proto_fread : FuncPrototype :=
  mkProto (lit "fread") CC_SYSTEM_V
    [mkMeta (lit "ptr") (lit "ptr") CDM_NOMOD PDIR_OUT [] [];
     mkMeta (lit "size") (lit "size_t") CDM_NOMOD PDIR_IN [] [];
     mkMeta (lit "nmemb") (lit "size_t") CDM_NOMOD PDIR_IN [] [];
     mkMeta (lit "stream") (lit "ptr") CDM_NOMOD PDIR_IN [] []]
    4 (lit "size_t") FAT_NOVARARGS 0.
Definition proto_freopen : FuncPrototype :=
  mkProto (lit "freopen") CC_SYSTEM_V
    [mkMeta (lit "filename") (lit "ptr") (Z.lor CDM_POINTER CDM_CONST) PDIR_IN (lit "sz") [];
     mkMeta (lit "mode") (lit "ptr") (Z.lor CDM_POINTER CDM_CONST) PDIR_IN (lit "sz") [];
     mkMeta (lit "stream") (lit "ptr") CDM_NOMOD PDIR_IN [] []]
    3 (lit "ptr") FAT_NOVARARGS 0.
Definition proto_fseek : FuncPrototype :=
  mkProto (lit "fseek") CC_SYSTEM_V
    [mkMeta (lit "stream") (lit "ptr") CDM_NOMOD PDIR_IN [] [];
     mkMeta (lit "offset") (lit "long") CDM_NOMOD PDIR_IN [] [];
     mkMeta (lit "whence") (lit "int") CDM_NOMOD PDIR_IN [] []]
    3 (lit "int") FAT_NOVARARGS 0.
Definition proto_fsetpos : FuncPrototype :=
  mkProto (lit "fsetpos") CC_SYSTEM_V
    [mkMeta (lit "stream") (lit "ptr") CDM_NOMOD PDIR_IN [] [];
     mkMeta (lit "pos") (lit "ptr") CDM_NOMOD PDIR_IN [] []]
    2 (lit "int") FAT_NOVARARGS 0.
Definition proto_ftell : FuncPrototype :=
  mkProto (lit "ftell") CC_SYSTEM_V
    [mkMeta (lit "stream") (lit "ptr") CDM_NOMOD PDIR_IN [] []]
    1 (lit "long") FAT_NOVARARGS 0.
Definition proto_fwrite : FuncPrototype :=
  mkProto (lit "fwrite") CC_SYSTEM_V
    [mkMeta (lit "ptr") (lit "ptr") CDM_NOMOD PDIR_IN [] [];
     mkMeta (lit "size") (lit "size_t") CDM_NOMOD PDIR_IN [] [];
     mkMeta (lit "nmemb") (lit "size_t") CDM_NOMOD PDIR_IN [] [];
     mkMeta (lit "stream") (lit "ptr") CDM_NOMOD PDIR_IN [] []]
    4 (lit "size_t") FAT_NOVARARGS 0.
Definition proto_remove : FuncPrototype :=
  mkProto (lit "remove") CC_SYSTEM_V
    [mkMeta (lit "filename") (lit "ptr") (Z.lor CDM_POINTER CDM_CONST) PDIR_IN (lit "sz") []]
    1 (lit "int") FAT_NOVARARGS 0.
Definition proto_rename : FuncPrototype :=
  mkProto (lit "rename") CC_SYSTEM_V
    [mkMeta (lit "old_filename") (lit "ptr") (Z.lor CDM_POINTER CDM_CONST) PDIR_IN (lit "sz") [];
     mkMeta (lit "new_filename") (lit "ptr") (Z.lor CDM_POINTER CDM_CONST) PDIR_IN (lit "sz") []]
    2 (lit "int") FAT_NOVARARGS 0.
Definition proto_rewind : FuncPrototype :=
  mkProto (lit "rewind") CC_SYSTEM_V
    [mkMeta (lit "stream") (lit "ptr") CDM_NOMOD PDIR_IN [] []]
    1 (lit "void") FAT_NOVARARGS 0.
Definition proto_setbuf : FuncPrototype :=
  mkProto (lit "setbuf") CC_SYSTEM_V
    [mkMeta (lit "stream") (lit "ptr") CDM_NOMOD PDIR_IN [] [];
     mkMeta (lit "buffer") (lit "ptr") CDM_NOMOD PDIR_IN [] []]
    2 (lit "void") FAT_NOVARARGS 0.
Definition proto_setvbuf : FuncPrototype :=
  mkProto (lit "setvbuf") CC_SYSTEM_V
    [mkMeta (lit "stream") (lit "ptr") CDM_NOMOD PDIR_IN [] [];
     mkMeta (lit "buffer") (lit "ptr") CDM_NOMOD PDIR_IN [] [];
     mkMeta (lit "mode") (lit "int") CDM_NOMOD PDIR_IN [] [];
     mkMeta (lit "size") (lit "size_t") CDM_NOMOD PDIR_IN [] []]
    4 (lit "int") FAT_NOVARARGS 0.
Definition proto_tmpfile : FuncPrototype :=
  mkProto (lit "tmpfile") CC_SYSTEM_V
    []
    0 (lit "ptr") FAT_NOVARARGS 0.
Definition proto_tmpnam : FuncPrototype :=
  mkProto (lit "tmpnam") CC_SYSTEM_V
    [mkMeta (lit "str") (lit "ptr") CDM_POINTER PDIR_IN (lit "sz") []]
    1 (lit "ptr") FAT_NOVARARGS 0.
Definition proto_printf : FuncPrototype :=
  mkProto (lit "printf") CC_SYSTEM_V
    [mkMeta (lit "format") (lit "ptr") (Z.lor CDM_POINTER CDM_CONST) PDIR_IN (lit "sz") []]
    1 (lit "int") FAT_PRINTF 0.
Definition proto_fprintf : FuncPrototype :=
  mkProto (lit "fprintf") CC_SYSTEM_V
    [mkMeta (lit "stream") (lit "ptr") CDM_NOMOD PDIR_IN [] [];
     mkMeta (lit "format") (lit "ptr") (Z.lor CDM_POINTER CDM_CONST) PDIR_IN (lit "sz") []]
    2 (lit "int") FAT_PRINTF 1.
Definition proto_sprintf : FuncPrototype :=
  mkProto (lit "sprintf") CC_SYSTEM_V
    [mkMeta (lit "str") (lit "ptr") CDM_POINTER PDIR_OUT (lit "sz") [];
     mkMeta (lit "format") (lit "ptr") (Z.lor CDM_POINTER CDM_CONST) PDIR_IN (lit "sz") []]
    2 (lit "int") FAT_PRINTF 1.
Definition proto_snprintf : FuncPrototype :=
  mkProto (lit "snprintf") CC_SYSTEM_V
    [mkMeta (lit "str") (lit "ptr") CDM_POINTER PDIR_OUT (lit "sz") [];
     mkMeta (lit "size") (lit "size_t") CDM_NOMOD PDIR_IN [] [];
     mkMeta (lit "format") (lit "ptr") (Z.lor CDM_POINTER CDM_CONST) PDIR_IN (lit "sz") []]
    3 (lit "int") FAT_PRINTF 2.
Definition proto_dprintf : FuncPrototype :=
  mkProto (lit "dprintf") CC_SYSTEM_V
    [mkMeta (lit "fd") (lit "int") CDM_NOMOD PDIR_IN [] [];
     mkMeta (lit "format") (lit "ptr") (Z.lor CDM_POINTER CDM_CONST) PDIR_IN (lit "sz") []]
    2 (lit "int") FAT_PRINTF 1.
Definition proto_vprintf : FuncPrototype :=
  mkProto (lit "vprintf") CC_SYSTEM_V
    [mkMeta (lit "format") (lit "ptr") (Z.lor CDM_POINTER CDM_CONST) PDIR_IN (lit "sz") [];
     mkMeta (lit "arg") (lit "ptr") CDM_NOMOD PDIR_IN [] []]
    2 (lit "int") FAT_NOVARARGS 0.
Definition proto_vfprintf : FuncPrototype :=
  mkProto (lit "vfprintf") CC_SYSTEM_V
    [mkMeta (lit "stream") (lit "ptr") CDM_NOMOD PDIR_IN [] [];
     mkMeta (lit "format") (lit "ptr") (Z.lor CDM_POINTER CDM_CONST) PDIR_IN (lit "sz") [];
     mkMeta (lit "arg") (lit "ptr") CDM_NOMOD PDIR_IN [] []]
    3 (lit "int") FAT_NOVARARGS 0.
Definition proto_vsprintf : FuncPrototype :=
  mkProto (lit "vsprintf") CC_SYSTEM_V
    [mkMeta (lit "str") (lit "ptr") CDM_POINTER PDIR_OUT (lit "sz") [];
     mkMeta (lit "format") (lit "ptr") (Z.lor CDM_POINTER CDM_CONST) PDIR_IN (lit "sz") [];
     mkMeta (lit "arg") (lit "ptr") CDM_NOMOD PDIR_IN [] []]
    3 (lit "int") FAT_NOVARARGS 0.
Definition proto_vsnprintf : FuncPrototype :=
  mkProto (lit "vsnprintf") CC_SYSTEM_V
    [mkMeta (lit "str") (lit "ptr") CDM_POINTER PDIR_OUT (lit "sz") [];
     mkMeta (lit "size") (lit "size_t") CDM_NOMOD PDIR_IN [] [];
     mkMeta (lit "format") (lit "ptr") (Z.lor CDM_POINTER CDM_CONST) PDIR_IN (lit "sz") [];
     mkMeta (lit "arg") (lit "ptr") CDM_NOMOD PDIR_IN [] []]
    4 (lit "int") FAT_NOVARARGS 0.
Definition proto_vdprintf : FuncPrototype :=
  mkProto (lit "vdprintf") CC_SYSTEM_V
    [mkMeta (lit "fd") (lit "int") CDM_NOMOD PDIR_IN [] [];
     mkMeta (lit "format") (lit "ptr") (Z.lor CDM_POINTER CDM_CONST) PDIR_IN (lit "sz") [];
     mkMeta (lit "arg") (lit "ptr") CDM_NOMOD PDIR_IN [] []]
    3 (lit "int") FAT_NOVARARGS 0.
Definition proto_scanf : FuncPrototype :=
  mkProto (lit "scanf") CC_SYSTEM_V
    [mkMeta (lit "format") (lit "ptr") (Z.lor CDM_POINTER CDM_CONST) PDIR_IN (lit "sz") []]
    1 (lit "int") FAT_SCANF 0.
Definition proto_fscanf : FuncPrototype :=
  mkProto (lit "fscanf") CC_SYSTEM_V
    [mkMeta (lit "stream") (lit "ptr") CDM_NOMOD PDIR_IN [] [];
     mkMeta (lit "format") (lit "ptr") (Z.lor CDM_POINTER CDM_CONST) PDIR_IN (lit "sz") []]
    2 (lit "int") FAT_SCANF 1.
Definition proto_sscanf : FuncPrototype :=
  mkProto (lit "sscanf") CC_SYSTEM_V
    [mkMeta (lit "str") (lit "ptr") (Z.lor CDM_POINTER CDM_CONST) PDIR_IN (lit "sz") [];
     mkMeta (lit "format") (lit "ptr") (Z.lor CDM_POINTER CDM_CONST) PDIR_IN (lit "sz") []]
    2 (lit "int") FAT_SCANF 1.
Definition proto_vscanf : FuncPrototype :=
  mkProto (lit "vscanf") CC_SYSTEM_V
    [mkMeta (lit "format") (lit "ptr") (Z.lor CDM_POINTER CDM_CONST) PDIR_IN (lit "sz") [];
     mkMeta (lit "arg") (lit "ptr") CDM_NOMOD PDIR_IN [] []]
    2 (lit "int") FAT_NOVARARGS 0.
Definition proto_vsscanf : FuncPrototype :=
  mkProto (lit "vsscanf") CC_SYSTEM_V
    [mkMeta (lit "str") (lit "ptr") (Z.lor CDM_POINTER CDM_CONST) PDIR_IN (lit "sz") [];
     mkMeta (lit "format") (lit "ptr") (Z.lor CDM_POINTER CDM_CONST) PDIR_IN (lit "sz") [];
     mkMeta (lit "arg") (lit "ptr") CDM_NOMOD PDIR_IN [] []]
    3 (lit "int") FAT_NOVARARGS 0.
Definition proto_vfscanf : FuncPrototype :=
  mkProto (lit "vfscanf") CC_SYSTEM_V
    [mkMeta (lit "stream") (lit "ptr") CDM_NOMOD PDIR_IN [] [];
     mkMeta (lit "format") (lit "ptr") (Z.lor CDM_POINTER CDM_CONST) PDIR_IN (lit "sz") [];
     mkMeta (lit "arg") (lit "ptr") CDM_NOMOD PDIR_IN [] []]
    3 (lit "int") FAT_NOVARARGS 0.
Definition proto___isoc99_scanf : FuncPrototype :=
  mkProto (lit "__isoc99_scanf") CC_SYSTEM_V
    [mkMeta (lit "format") (lit "ptr") (Z.lor CDM_POINTER CDM_CONST) PDIR_IN (lit "sz") []]
    1 (lit "int") FAT_SCANF 0.
Definition proto___isoc99_fscanf : FuncPrototype :=
  mkProto (lit "__isoc99_fscanf") CC_SYSTEM_V
    [mkMeta (lit "stream") (lit "ptr") CDM_NOMOD PDIR_IN [] [];
     mkMeta (lit "format") (lit "ptr") (Z.lor CDM_POINTER CDM_CONST) PDIR_IN (lit "sz") []]
    2 (lit "int") FAT_SCANF 1.
Definition proto___isoc99_sscanf : FuncPrototype :=
  mkProto (lit "__isoc99_sscanf") CC_SYSTEM_V
    [mkMeta (lit "str") (lit "ptr") (Z.lor CDM_POINTER CDM_CONST) PDIR_IN (lit "sz") [];
     mkMeta (lit "format") (lit "ptr") (Z.lor CDM_POINTER CDM_CONST) PDIR_IN (lit "sz") []]
    2 (lit "int") FAT_SCANF 1.
Definition proto___isoc99_vscanf : FuncPrototype :=
  mkProto (lit "__isoc99_vscanf") CC_SYSTEM_V
    [mkMeta (lit "format") (lit "ptr") (Z.lor CDM_POINTER CDM_CONST) PDIR_IN (lit "sz") [];
     mkMeta (lit "arg") (lit "ptr") CDM_NOMOD PDIR_IN [] []]
    2 (lit "int") FAT_NOVARARGS 0.
Definition proto___isoc99_vsscanf : FuncPrototype :=
  mkProto (lit "__isoc99_vsscanf") CC_SYSTEM_V
    [mkMeta (lit "str") (lit "ptr") (Z.lor CDM_POINTER CDM_CONST) PDIR_IN (lit "sz") [];
     mkMeta (lit "format") (lit "ptr") (Z.lor CDM_POINTER CDM_CONST) PDIR_IN (lit "sz") [];
     mkMeta (lit "arg") (lit "ptr") CDM_NOMOD PDIR_IN [] []]
    3 (lit "int") FAT_NOVARARGS 0.
Definition proto___isoc99_vfscanf : FuncPrototype :=
  mkProto (lit "__isoc99_vfscanf") CC_SYSTEM_V
    [mkMeta (lit "stream") (lit "ptr") CDM_NOMOD PDIR_IN [] [];
     mkMeta (lit "format") (lit "ptr") (Z.lor CDM_POINTER CDM_CONST) PDIR_IN (lit "sz") [];
     mkMeta (lit "arg") (lit "ptr") CDM_NOMOD PDIR_IN [] []]
    3 (lit "int") FAT_NOVARARGS 0.
Definition proto_fgetc : FuncPrototype :=
  mkProto (lit "fgetc") CC_SYSTEM_V
    [mkMeta (lit "stream") (lit "ptr") CDM_NOMOD PDIR_IN [] []]
    1 (lit "int") FAT_NOVARARGS 0.
Definition proto_fgets : FuncPrototype :=
  mkProto (lit "fgets") CC_SYSTEM_V
    [mkMeta (lit "str") (lit "ptr") CDM_POINTER PDIR_OUT (lit "sz") [];
     mkMeta (lit "n") (lit "int") CDM_NOMOD PDIR_IN [] [];
     mkMeta (lit "stream") (lit "ptr") CDM_NOMOD PDIR_IN [] []]
    3 (lit "ptr") FAT_NOVARARGS 0.
Definition proto_fputc : FuncPrototype :=
  mkProto (lit "fputc") CC_SYSTEM_V
    [mkMeta (lit "char") (lit "int") CDM_NOMOD PDIR_IN [] [];
     mkMeta (lit "stream") (lit "ptr") CDM_NOMOD PDIR_IN [] []]
    2 (lit "int") FAT_NOVARARGS 0.
Definition proto_fputs : FuncPrototype :=
  mkProto (lit "fputs") CC_SYSTEM_V
    [mkMeta (lit "str") (lit "ptr") (Z.lor CDM_POINTER CDM_CONST) PDIR_IN (lit "sz") [];
     mkMeta (lit "stream") (lit "ptr") CDM_NOMOD PDIR_IN [] []]
    2 (lit "int") FAT_NOVARARGS 0.
Definition proto_getc : FuncPrototype :=
  mkProto (lit "getc") CC_SYSTEM_V
    [mkMeta (lit "stream") (lit "ptr") CDM_NOMOD PDIR_IN [] []]
    1 (lit "int") FAT_NOVARARGS 0.
Definition proto_getchar : FuncPrototype :=
  mkProto (lit "getchar") CC_SYSTEM_V
    []
    0 (lit "int") FAT_NOVARARGS 0.
Definition proto_gets : FuncPrototype :=
  mkProto (lit "gets") CC_SYSTEM_V
    [mkMeta (lit "str") (lit "ptr") CDM_POINTER PDIR_OUT (lit "sz") []]
    1 (lit "ptr") FAT_NOVARARGS 0.
Definition proto_putc : FuncPrototype :=
  mkProto (lit "putc") CC_SYSTEM_V
    [mkMeta (lit "char") (lit "int") CDM_NOMOD PDIR_IN [] [];
     mkMeta (lit "stream") (lit "ptr") CDM_NOMOD PDIR_IN [] []]
    2 (lit "int") FAT_NOVARARGS 0.
Definition proto_putchar : FuncPrototype :=
  mkProto (lit "putchar") CC_SYSTEM_V
    [mkMeta (lit "char") (lit "int") CDM_NOMOD PDIR_IN [] [];
     mkMeta (lit "stream") (lit "ptr") CDM_NOMOD PDIR_IN [] []]
    2 (lit "int") FAT_NOVARARGS 0.
Definition proto_puts : FuncPrototype :=
  mkProto (lit "puts") CC_SYSTEM_V
    [mkMeta (lit "str") (lit "ptr") (Z.lor CDM_POINTER CDM_CONST) PDIR_IN (lit "sz") []]
    1 (lit "int") FAT_NOVARARGS 0.
Definition proto_ungetc : FuncPrototype :=
  mkProto (lit "ungetc") CC_SYSTEM_V
    [mkMeta (lit "char") (lit "int") CDM_NOMOD PDIR_IN [] [];
     mkMeta (lit "stream") (lit "ptr") CDM_NOMOD PDIR_IN [] []]
    2 (lit "int") FAT_NOVARARGS 0.
Definition proto_perror : FuncPrototype :=
  mkProto (lit "perror") CC_SYSTEM_V
    [mkMeta (lit "str") (lit "ptr") (Z.lor CDM_POINTER CDM_CONST) PDIR_IN (lit "sz") []]
    1 (lit "void") FAT_NOVARARGS 0.
Definition proto_popen : FuncPrototype :=
  mkProto (lit "popen") CC_SYSTEM_V
    [mkMeta (lit "command") (lit "ptr") (Z.lor CDM_POINTER CDM_CONST) PDIR_IN (lit "sz") [];
     mkMeta (lit "type") (lit "ptr") (Z.lor CDM_POINTER CDM_CONST) PDIR_IN (lit "sz") []]
    2 (lit "ptr") FAT_NOVARARGS 0.
Definition proto_pclose : FuncPrototype :=
  mkProto (lit "pclose") CC_SYSTEM_V
    [mkMeta (lit "stream") (lit "ptr") CDM_NOMOD PDIR_IN [] []]
    1 (lit "int") FAT_NOVARARGS 0.

Definition retrace_proto_stdio_1 : list FuncPrototype :=
  [proto_fclose; proto_clearerr; proto_feof; proto_ferror; proto_fflush; proto_fgetpos;
   proto_fopen].
Definition retrace_proto_stdio_2 : list FuncPrototype :=
  [proto_fread; proto_freopen; proto_fseek; proto_fsetpos; proto_ftell].
Definition retrace_proto_stdio_3 : list FuncPrototype :=
  [proto_fwrite; proto_remove; proto_rename; proto_rewind; proto_setbuf].
Definition retrace_proto_stdio_4 : list FuncPrototype :=
  [proto_setvbuf; proto_tmpfile; proto_tmpnam; proto_printf; proto_fprintf; proto_sprintf].
Definition retrace_proto_stdio_5 : list FuncPrototype :=
  [proto_snprintf; proto_dprintf; proto_vprintf; proto_vfprintf; proto_vsprintf].
Definition retrace_proto_stdio_6 : list FuncPrototype :=
  [proto_vsnprintf; proto_vdprintf; proto_scanf; proto_fscanf; proto_sscanf].
Definition retrace_proto_stdio_7 : list FuncPrototype :=
  [proto_vscanf; proto_vsscanf; proto_vfscanf; proto___isoc99_scanf; proto___isoc99_fscanf].
Definition retrace_proto_stdio_8 : list FuncPrototype :=
  [proto___isoc99_sscanf; proto___isoc99_vscanf; proto___isoc99_vsscanf; proto___isoc99_vfscanf;
   proto_fgetc].
Definition retrace_proto_stdio_9 : list FuncPrototype :=
  [proto_fgets; proto_fputc; proto_fputs; proto_getc; proto_getchar; proto_gets; proto_putc].
Definition retrace_proto_stdio_10 : list FuncPrototype :=
  [proto_putchar; proto_puts; proto_ungetc; proto_perror; proto_popen; proto_pclose].

Definition retrace_proto_stdio : list FuncPrototype :=
  retrace_proto_stdio_1 ++ retrace_proto_stdio_2 ++ retrace_proto_stdio_3 ++
  retrace_proto_stdio_4 ++ retrace_proto_stdio_5 ++ retrace_proto_stdio_6 ++
  retrace_proto_stdio_7 ++ retrace_proto_stdio_8 ++ retrace_proto_stdio_9 ++
  retrace_proto_stdio_10.

(** ** stdlib.c *)

Definition proto_atoi : FuncPrototype :=
  mkProto (lit "atoi") CC_SYSTEM_V
    [mkMeta (lit "str") (lit "ptr") (Z.lor CDM_POINTER CDM_CONST) PDIR_IN (lit "sz") []]
    1 (lit "int") FAT_NOVARARGS 0.
Definition proto_atol : FuncPrototype :=
  mkProto (lit "atol") CC_SYSTEM_V
    [mkMeta (lit "str") (lit "ptr") (Z.lor CDM_POINTER CDM_CONST) PDIR_IN (lit "sz") []]
    1 (lit "long") FAT_NOVARARGS 0.
Definition proto_strtol : FuncPrototype :=
  mkProto (lit "strtol") CC_SYSTEM_V
    [mkMeta (lit "str") (lit "ptr") (Z.lor CDM_POINTER CDM_CONST) PDIR_IN (lit "sz") [];
     mkMeta (lit "endptr") (lit "ptr") CDM_POINTER PDIR_OUT (lit "ptr") [];
     mkMeta (lit "base") (lit "int") CDM_NOMOD PDIR_IN [] []]
    3 (lit "long") FAT_NOVARARGS 0.
Definition proto_strtoul : FuncPrototype :=
  mkProto (lit "strtoul") CC_SYSTEM_V
    [mkMeta (lit "str") (lit "ptr") (Z.lor CDM_POINTER CDM_CONST) PDIR_IN (lit "sz") [];
     mkMeta (lit "endptr") (lit "ptr") CDM_POINTER PDIR_OUT (lit "ptr") [];
     mkMeta (lit "base") (lit "int") CDM_NOMOD PDIR_IN [] []]
    3 (lit "unsigned long") FAT_NOVARARGS 0.
Definition proto_calloc : FuncPrototype :=
  mkProto (lit "calloc") CC_SYSTEM_V
    [mkMeta (lit "nitems") (lit "size_t") CDM_NOMOD PDIR_IN [] [];
     mkMeta (lit "size") (lit "size_t") CDM_NOMOD PDIR_IN [] []]
    2 (lit "ptr") FAT_NOVARARGS 0.
Definition proto_free : FuncPrototype :=
  mkProto (lit "free") CC_SYSTEM_V
    [mkMeta (lit "ptr") (lit "ptr") CDM_NOMOD PDIR_IN [] []]
    1 (lit "void") FAT_NOVARARGS 0.
Definition proto_malloc : FuncPrototype :=
  mkProto (lit "malloc") CC_SYSTEM_V
    [mkMeta (lit "size") (lit "size_t") CDM_NOMOD PDIR_IN [] []]
    1 (lit "ptr") FAT_NOVARARGS 0.
Definition proto_realloc : FuncPrototype :=
  mkProto (lit "realloc") CC_SYSTEM_V
    [mkMeta (lit "ptr") (lit "ptr") CDM_NOMOD PDIR_IN [] [];
     mkMeta (lit "size") (lit "size_t") CDM_NOMOD PDIR_IN [] []]
    2 (lit "ptr") FAT_NOVARARGS 0.
Definition proto_abort : FuncPrototype :=
  mkProto (lit "abort") CC_SYSTEM_V
    []
    0 (lit "void") FAT_NOVARARGS 0.
Definition proto_atexit : FuncPrototype :=
  mkProto (lit "atexit") CC_SYSTEM_V
    [mkMeta (lit "func") (lit "ptr") CDM_NOMOD PDIR_IN [] []]
    1 (lit "int") FAT_NOVARARGS 0.
Definition proto_exit : FuncPrototype :=
  mkProto (lit "exit") CC_SYSTEM_V
    [mkMeta (lit "status") (lit "int") CDM_NOMOD PDIR_IN [] []]
    1 (lit "void") FAT_NOVARARGS 0.
Definition proto_getenv : FuncPrototype :=
  mkProto (lit "getenv") CC_SYSTEM_V
    [mkMeta (lit "name") (lit "ptr") (Z.lor CDM_POINTER CDM_CONST) PDIR_IN (lit "sz") []]
    1 (lit "ptr") FAT_NOVARARGS 0.
Definition proto_system : FuncPrototype :=
  mkProto (lit "system") CC_SYSTEM_V
    [mkMeta (lit "string") (lit "ptr") (Z.lor CDM_POINTER CDM_CONST) PDIR_IN (lit "sz") []]
    1 (lit "int") FAT_NOVARARGS 0.
Definition proto_bsearch : FuncPrototype :=
  mkProto (lit "bsearch") CC_SYSTEM_V
    [mkMeta (lit "key") (lit "ptr") CDM_NOMOD PDIR_IN [] [];
     mkMeta (lit "base") (lit "ptr") CDM_NOMOD PDIR_IN [] [];
     mkMeta (lit "nitems") (lit "size_t") CDM_NOMOD PDIR_IN [] [];
     mkMeta (lit "size") (lit "size_t") CDM_NOMOD PDIR_IN [] [];
     mkMeta (lit "compar") (lit "ptr") CDM_NOMOD PDIR_IN [] []]
    5 (lit "ptr") FAT_NOVARARGS 0.
Definition proto_qsort : FuncPrototype :=
  mkProto (lit "qsort") CC_SYSTEM_V
    [mkMeta (lit "base") (lit "ptr") CDM_NOMOD PDIR_IN [] [];
     mkMeta (lit "nitems") (lit "size_t") CDM_NOMOD PDIR_IN [] [];
     mkMeta (lit "size") (lit "size_t") CDM_NOMOD PDIR_IN [] [];
     mkMeta (lit "compar") (lit "ptr") CDM_NOMOD PDIR_IN [] []]
    4 (lit "void") FAT_NOVARARGS 0.
Definition proto_abs : FuncPrototype :=
  mkProto (lit "abs") CC_SYSTEM_V
    [mkMeta (lit "x") (lit "int") CDM_NOMOD PDIR_IN [] []]
    1 (lit "int") FAT_NOVARARGS 0.
Definition proto_div : FuncPrototype :=
  mkProto (lit "div") CC_SYSTEM_V
    [mkMeta (lit "numer") (lit "int") CDM_NOMOD PDIR_IN [] [];
     mkMeta (lit "denom") (lit "int") CDM_NOMOD PDIR_IN [] []]
    2 (lit "ptr") FAT_NOVARARGS 0.
Definition proto_labs : FuncPrototype :=
  mkProto (lit "labs") CC_SYSTEM_V
    [mkMeta (lit "x") (lit "long") CDM_NOMOD PDIR_IN [] []]
    1 (lit "long") FAT_NOVARARGS 0.
Definition proto_ldiv : FuncPrototype :=
  mkProto (lit "ldiv") CC_SYSTEM_V
    [mkMeta (lit "numer") (lit "long") CDM_NOMOD PDIR_IN [] [];
     mkMeta (lit "denom") (lit "long") CDM_NOMOD PDIR_IN [] []]
    2 (lit "ptr") FAT_NOVARARGS 0.
Definition proto_rand : FuncPrototype :=
  mkProto (lit "rand") CC_SYSTEM_V
    []
    0 (lit "int") FAT_NOVARARGS 0.
Definition proto_srand : FuncPrototype :=
  mkProto (lit "srand") CC_SYSTEM_V
    [mkMeta (lit "seed") (lit "unsigned int") CDM_NOMOD PDIR_IN [] []]
    1 (lit "void") FAT_NOVARARGS 0.
Definition proto_mblen : FuncPrototype :=
  mkProto (lit "mblen") CC_SYSTEM_V
    [mkMeta (lit "str") (lit "ptr") (Z.lor CDM_POINTER CDM_CONST) PDIR_IN (lit "sz") [];
     mkMeta (lit "n") (lit "size_t") CDM_NOMOD PDIR_IN [] []]
    2 (lit "int") FAT_NOVARARGS 0.
Definition proto_mbstowcs : FuncPrototype :=
  mkProto (lit "mbstowcs") CC_SYSTEM_V
    [mkMeta (lit "pwcs") (lit "ptr") CDM_NOMOD PDIR_OUT [] [];
     mkMeta (lit "str") (lit "ptr") (Z.lor CDM_POINTER CDM_CONST) PDIR_IN (lit "sz") [];
     mkMeta (lit "n") (lit "size_t") CDM_NOMOD PDIR_IN [] []]
    3 (lit "size_t") FAT_NOVARARGS 0.
Definition proto_mbtowc : FuncPrototype :=
  mkProto (lit "mbtowc") CC_SYSTEM_V
    [mkMeta (lit "pwcs") (lit "ptr") CDM_NOMOD PDIR_OUT [] [];
     mkMeta (lit "str") (lit "ptr") (Z.lor CDM_POINTER CDM_CONST) PDIR_IN (lit "sz") [];
     mkMeta (lit "n") (lit "size_t") CDM_NOMOD PDIR_IN [] []]
    3 (lit "int") FAT_NOVARARGS 0.
Definition proto_wcstombs : FuncPrototype :=
  mkProto (lit "wcstombs") CC_SYSTEM_V
    [mkMeta (lit "str") (lit "ptr") CDM_POINTER PDIR_OUT (lit "sz") [];
     mkMeta (lit "pwcs") (lit "ptr") CDM_NOMOD PDIR_IN [] [];
     mkMeta (lit "n") (lit "size_t") CDM_NOMOD PDIR_IN [] []]
    3 (lit "size_t") FAT_NOVARARGS 0.
Definition proto_wctomb : FuncPrototype :=
  mkProto (lit "wctomb") CC_SYSTEM_V
    [mkMeta (lit "str") (lit "ptr") CDM_POINTER PDIR_OUT (lit "sz") [];
     mkMeta (lit "wchar") (lit "int16_t") CDM_NOMOD PDIR_IN [] []]
    2 (lit "int") FAT_NOVARARGS 0.

Definition retrace_proto_stdlib_1 : list FuncPrototype :=
  [proto_atoi; proto_atol; proto_strtol; proto_strtoul; proto_calloc; proto_free].
Definition retrace_proto_stdlib_2 : list FuncPrototype :=
  [proto_malloc; proto_realloc; proto_abort; proto_atexit; proto_exit; proto_getenv;
   proto_system; proto_bsearch].
Definition retrace_proto_stdlib_3 : list FuncPrototype :=
  [proto_qsort; proto_abs; proto_div; proto_labs; proto_ldiv; proto_rand; proto_srand;
   proto_mblen].
Definition retrace_proto_stdlib_4 : list FuncPrototype :=
  [proto_mbstowcs; proto_mbtowc; proto_wcstombs; proto_wctomb].

Definition retrace_proto_stdlib : list FuncPrototype :=
  retrace_proto_stdlib_1 ++ retrace_proto_stdlib_2 ++ retrace_proto_stdlib_3 ++
  retrace_proto_stdlib_4.

(** ** string.c *)

Definition proto_strlen : FuncPrototype :=
  mkProto (lit "strlen") CC_SYSTEM_V
    [mkMeta (lit "s") (lit "ptr") (Z.lor CDM_POINTER CDM_CONST) PDIR_IN (lit "sz") []]
    1 (lit "size_t") FAT_NOVARARGS 0.
Definition proto_strcmp : FuncPrototype :=
  mkProto (lit "strcmp") CC_SYSTEM_V
    [mkMeta (lit "s1") (lit "ptr") (Z.lor CDM_POINTER CDM_CONST) PDIR_IN (lit "sz") [];
     mkMeta (lit "s2") (lit "ptr") (Z.lor CDM_POINTER CDM_CONST) PDIR_IN (lit "sz") []]
    2 (lit "int") FAT_NOVARARGS 0.
Definition proto_strncmp : FuncPrototype :=
  mkProto (lit "strncmp") CC_SYSTEM_V
    [mkMeta (lit "s1") (lit "ptr") (Z.lor CDM_POINTER CDM_CONST) PDIR_IN (lit "sz") [];
     mkMeta (lit "s2") (lit "ptr") (Z.lor CDM_POINTER CDM_CONST) PDIR_IN (lit "sz") [];
     mkMeta (lit "n") (lit "size_t") CDM_NOMOD PDIR_IN [] []]
    3 (lit "int") FAT_NOVARARGS 0.
Definition proto_strcoll : FuncPrototype :=
  mkProto (lit "strcoll") CC_SYSTEM_V
    [mkMeta (lit "s1") (lit "ptr") (Z.lor CDM_POINTER CDM_CONST) PDIR_IN (lit "sz") [];
     mkMeta (lit "s2") (lit "ptr") (Z.lor CDM_POINTER CDM_CONST) PDIR_IN (lit "sz") []]
    2 (lit "int") FAT_NOVARARGS 0.
Definition proto_strerror : FuncPrototype :=
  mkProto (lit "strerror") CC_SYSTEM_V
    [mkMeta (lit "errnum") (lit "int") CDM_NOMOD PDIR_IN [] []]
    1 (lit "ptr") FAT_NOVARARGS 0.
Definition proto_strxfrm : FuncPrototype :=
  mkProto (lit "strxfrm") CC_SYSTEM_V
    [mkMeta (lit "dst") (lit "ptr") CDM_POINTER PDIR_OUT (lit "sz") [];
     mkMeta (lit "src") (lit "ptr") (Z.lor CDM_POINTER CDM_CONST) PDIR_IN (lit "sz") [];
     mkMeta (lit "n") (lit "size_t") CDM_NOMOD PDIR_IN [] []]
    3 (lit "size_t") FAT_NOVARARGS 0.
Definition proto_strchr : FuncPrototype :=
  mkProto (lit "strchr") CC_SYSTEM_V
    [mkMeta (lit "s") (lit "ptr") (Z.lor CDM_POINTER CDM_CONST) PDIR_IN (lit "sz") [];
     mkMeta (lit "c") (lit "int") CDM_NOMOD PDIR_IN [] []]
    2 (lit "ptr") FAT_NOVARARGS 0.
Definition proto_strrchr : FuncPrototype :=
  mkProto (lit "strrchr") CC_SYSTEM_V
    [mkMeta (lit "s") (lit "ptr") (Z.lor CDM_POINTER CDM_CONST) PDIR_IN (lit "sz") [];
     mkMeta (lit "c") (lit "int") CDM_NOMOD PDIR_IN [] []]
    2 (lit "ptr") FAT_NOVARARGS 0.
Definition proto_strstr : FuncPrototype :=
  mkProto (lit "strstr") CC_SYSTEM_V
    [mkMeta (lit "haystack") (lit "ptr") (Z.lor CDM_POINTER CDM_CONST) PDIR_IN (lit "sz") [];
     mkMeta (lit "needle") (lit "ptr") (Z.lor CDM_POINTER CDM_CONST) PDIR_IN (lit "sz") []]
    2 (lit "ptr") FAT_NOVARARGS 0.
Definition proto_strpbrk : FuncPrototype :=
  mkProto (lit "strpbrk") CC_SYSTEM_V
    [mkMeta (lit "s") (lit "ptr") (Z.lor CDM_POINTER CDM_CONST) PDIR_IN (lit "sz") [];
     mkMeta (lit "accept") (lit "ptr") (Z.lor CDM_POINTER CDM_CONST) PDIR_IN (lit "sz") []]
    2 (lit "ptr") FAT_NOVARARGS 0.
Definition proto_strcspn : FuncPrototype :=
  mkProto (lit "strcspn") CC_SYSTEM_V
    [mkMeta (lit "s") (lit "ptr") (Z.lor CDM_POINTER CDM_CONST) PDIR_IN (lit "sz") [];
     mkMeta (lit "reject") (lit "ptr") (Z.lor CDM_POINTER CDM_CONST) PDIR_IN (lit "sz") []]
    2 (lit "size_t") FAT_NOVARARGS 0.
Definition proto_strspn : FuncPrototype :=
  mkProto (lit "strspn") CC_SYSTEM_V
    [mkMeta (lit "s") (lit "ptr") (Z.lor CDM_POINTER CDM_CONST) PDIR_IN (lit "sz") [];
     mkMeta (lit "accept") (lit "ptr") (Z.lor CDM_POINTER CDM_CONST) PDIR_IN (lit "sz") []]
    2 (lit "size_t") FAT_NOVARARGS 0.
Definition proto_strtok : FuncPrototype :=
  mkProto (lit "strtok") CC_SYSTEM_V
    [mkMeta (lit "s") (lit "ptr") (Z.lor CDM_POINTER CDM_CONST) PDIR_IN (lit "sz") [];
     mkMeta (lit "delim") (lit "ptr") (Z.lor CDM_POINTER CDM_CONST) PDIR_IN (lit "sz") []]
    2 (lit "ptr") FAT_NOVARARGS 0.
Definition proto_strcpy : FuncPrototype :=
  mkProto (lit "strcpy") CC_SYSTEM_V
    [mkMeta (lit "dst") (lit "ptr") CDM_POINTER PDIR_OUT (lit "sz") [];
     mkMeta (lit "src") (lit "ptr") (Z.lor CDM_POINTER CDM_CONST) PDIR_IN (lit "sz") []]
    2 (lit "ptr") FAT_NOVARARGS 0.
Definition proto_strncpy : FuncPrototype :=
  mkProto (lit "strncpy") CC_SYSTEM_V
    [mkMeta (lit "dst") (lit "ptr") CDM_POINTER PDIR_OUT (lit "sz") [];
     mkMeta (lit "src") (lit "ptr") (Z.lor CDM_POINTER CDM_CONST) PDIR_IN (lit "sz") [];
     mkMeta (lit "n") (lit "size_t") CDM_NOMOD PDIR_IN [] []]
    3 (lit "ptr") FAT_NOVARARGS 0.
Definition proto_strcat : FuncPrototype :=
  mkProto (lit "strcat") CC_SYSTEM_V
    [mkMeta (lit "dst") (lit "ptr") CDM_POINTER PDIR_INOUT (lit "sz") [];
     mkMeta (lit "src") (lit "ptr") (Z.lor CDM_POINTER CDM_CONST) PDIR_IN (lit "sz") []]
    2 (lit "ptr") FAT_NOVARARGS 0.
Definition proto_strncat : FuncPrototype :=
  mkProto (lit "strncat") CC_SYSTEM_V
    [mkMeta (lit "dst") (lit "ptr") CDM_POINTER PDIR_INOUT (lit "sz") [];
     mkMeta (lit "src") (lit "ptr") (Z.lor CDM_POINTER CDM_CONST) PDIR_IN (lit "sz") [];
     mkMeta (lit "n") (lit "size_t") CDM_NOMOD PDIR_IN [] []]
    3 (lit "ptr") FAT_NOVARARGS 0.
Definition proto_memchr : FuncPrototype :=
  mkProto (lit "memchr") CC_SYSTEM_V
    [mkMeta (lit "s") (lit "ptr") CDM_NOMOD PDIR_IN [] [];
     mkMeta (lit "c") (lit "int") CDM_NOMOD PDIR_IN [] [];
     mkMeta (lit "n") (lit "size_t") CDM_NOMOD PDIR_IN [] []]
    3 (lit "ptr") FAT_NOVARARGS 0.
Definition proto_memcmp : FuncPrototype :=
  mkProto (lit "memcmp") CC_SYSTEM_V
    [mkMeta (lit "s1") (lit "ptr") CDM_NOMOD PDIR_IN [] [];
     mkMeta (lit "s2") (lit "ptr") CDM_NOMOD PDIR_IN [] [];
     mkMeta (lit "n") (lit "size_t") CDM_NOMOD PDIR_IN [] []]
    3 (lit "int") FAT_NOVARARGS 0.
Definition proto_memcpy : FuncPrototype :=
  mkProto (lit "memcpy") CC_SYSTEM_V
    [mkMeta (lit "dst") (lit "ptr") CDM_NOMOD PDIR_OUT [] [];
     mkMeta (lit "src") (lit "ptr") CDM_NOMOD PDIR_IN [] [];
     mkMeta (lit "n") (lit "size_t") CDM_NOMOD PDIR_IN [] []]
    3 (lit "ptr") FAT_NOVARARGS 0.
Definition proto_memmove : FuncPrototype :=
  mkProto (lit "memmove") CC_SYSTEM_V
    [mkMeta (lit "dst") (lit "ptr") CDM_NOMOD PDIR_OUT [] [];
     mkMeta (lit "src") (lit "ptr") CDM_NOMOD PDIR_IN [] [];
     mkMeta (lit "n") (lit "size_t") CDM_NOMOD PDIR_IN [] []]
    3 (lit "ptr") FAT_NOVARARGS 0.
Definition proto_memset : FuncPrototype :=
  mkProto (lit "memset") CC_SYSTEM_V
    [mkMeta (lit "s") (lit "ptr") CDM_NOMOD PDIR_OUT [] [];
     mkMeta (lit "c") (lit "int") CDM_NOMOD PDIR_IN [] [];
     mkMeta (lit "n") (lit "size_t") CDM_NOMOD PDIR_IN [] []]
    3 (lit "ptr") FAT_NOVARARGS 0.

Definition retrace_proto_string_1 : list FuncPrototype :=
  [proto_strlen; proto_strcmp; proto_strncmp; proto_strcoll; proto_strerror; proto_strxfrm].
Definition retrace_proto_string_2 : list FuncPrototype :=
  [proto_strchr; proto_strrchr; proto_strstr; proto_strpbrk; proto_strcspn; proto_strspn].
Definition retrace_proto_string_3 : list FuncPrototype :=
  [proto_strtok; proto_strcpy; proto_strncpy; proto_strcat; proto_strncat].
Definition retrace_proto_string_4 : list FuncPrototype :=
  [proto_memchr; proto_memcmp; proto_memcpy; proto_memmove; proto_memset].

Definition retrace_proto_string : list FuncPrototype :=
  retrace_proto_string_1 ++ retrace_proto_string_2 ++ retrace_proto_string_3 ++
  retrace_proto_string_4.

(** ** ctype.c *)

Definition proto_isalnum : FuncPrototype :=
  mkProto (lit "isalnum") CC_SYSTEM_V
    [mkMeta (lit "c") (lit "int") CDM_NOMOD PDIR_IN [] []]
    1 (lit "int") FAT_NOVARARGS 0.
Definition proto_isalpha : FuncPrototype :=
  mkProto (lit "isalpha") CC_SYSTEM_V
    [mkMeta (lit "c") (lit "int") CDM_NOMOD PDIR_IN [] []]
    1 (lit "int") FAT_NOVARARGS 0.
Definition proto_isblank : FuncPrototype :=
  mkProto (lit "isblank") CC_SYSTEM_V
    [mkMeta (lit "c") (lit "int") CDM_NOMOD PDIR_IN [] []]
    1 (lit "int") FAT_NOVARARGS 0.
Definition proto_iscntrl : FuncPrototype :=
  mkProto (lit "iscntrl") CC_SYSTEM_V
    [mkMeta (lit "c") (lit "int") CDM_NOMOD PDIR_IN [] []]
    1 (lit "int") FAT_NOVARARGS 0.
Definition proto_isdigit : FuncPrototype :=
  mkProto (lit "isdigit") CC_SYSTEM_V
    [mkMeta (lit "c") (lit "int") CDM_NOMOD PDIR_IN [] []]
    1 (lit "int") FAT_NOVARARGS 0.
Definition proto_isgraph : FuncPrototype :=
  mkProto (lit "isgraph") CC_SYSTEM_V
    [mkMeta (lit "c") (lit "int") CDM_NOMOD PDIR_IN [] []]
    1 (lit "int") FAT_NOVARARGS 0.
Definition proto_islower : FuncPrototype :=
  mkProto (lit "islower") CC_SYSTEM_V
    [mkMeta (lit "c") (lit "int") CDM_NOMOD PDIR_IN [] []]
    1 (lit "int") FAT_NOVARARGS 0.
Definition proto_isprint : FuncPrototype :=
  mkProto (lit "isprint") CC_SYSTEM_V
    [mkMeta (lit "c") (lit "int") CDM_NOMOD PDIR_IN [] []]
    1 (lit "int") FAT_NOVARARGS 0.
Definition proto_ispunct : FuncPrototype :=
  mkProto (lit "ispunct") CC_SYSTEM_V
    [mkMeta (lit "c") (lit "int") CDM_NOMOD PDIR_IN [] []]
    1 (lit "int") FAT_NOVARARGS 0.
Definition proto_isspace : FuncPrototype :=
  mkProto (lit "isspace") CC_SYSTEM_V
    [mkMeta (lit "c") (lit "int") CDM_NOMOD PDIR_IN [] []]
    1 (lit "int") FAT_NOVARARGS 0.
Definition proto_isupper : FuncPrototype :=
  mkProto (lit "isupper") CC_SYSTEM_V
    [mkMeta (lit "c") (lit "int") CDM_NOMOD PDIR_IN [] []]
    1 (lit "int") FAT_NOVARARGS 0.
Definition proto_isxdigit : FuncPrototype :=
  mkProto (lit "isxdigit") CC_SYSTEM_V
    [mkMeta (lit "c") (lit "int") CDM_NOMOD PDIR_IN [] []]
    1 (lit "int") FAT_NOVARARGS 0.
Definition proto_toupper : FuncPrototype :=
  mkProto (lit "toupper") CC_SYSTEM_V
    [mkMeta (lit "c") (lit "int") CDM_NOMOD PDIR_IN [] []]
    1 (lit "int") FAT_NOVARARGS 0.
Definition proto_tolower : FuncPrototype :=
  mkProto (lit "tolower") CC_SYSTEM_V
    [mkMeta (lit "c") (lit "int") CDM_NOMOD PDIR_IN [] []]
    1 (lit "int") FAT_NOVARARGS 0.

Definition retrace_proto_ctype_1 : list FuncPrototype :=
  [proto_isalnum; proto_isalpha; proto_isblank; proto_iscntrl; proto_isdigit; proto_isgraph;
   proto_islower; proto_isprint; proto_ispunct; proto_isspace; proto_isupper].
Definition retrace_proto_ctype_2 : list FuncPrototype :=
  [proto_isxdigit; proto_toupper; proto_tolower].

Definition retrace_proto_ctype : list FuncPrototype :=
  retrace_proto_ctype_1 ++ retrace_proto_ctype_2.

(** ** locale.c *)

Definition proto_setlocale : FuncPrototype :=
  mkProto (lit "setlocale") CC_SYSTEM_V
    [mkMeta (lit "category") (lit "int") CDM_NOMOD PDIR_IN [] [];
     mkMeta (lit "locale") (lit "ptr") (Z.lor CDM_POINTER CDM_CONST) PDIR_IN (lit "sz") []]
    2 (lit "ptr") FAT_NOVARARGS 0.
Definition proto_localeconv : FuncPrototype :=
  mkProto (lit "localeconv") CC_SYSTEM_V
    []
    0 (lit "ptr") FAT_NOVARARGS 0.

Definition retrace_proto_locale : list FuncPrototype :=
  [proto_setlocale;
   proto_localeconv].

(** ** time.c *)

Definition proto_time : FuncPrototype :=
  mkProto (lit "time") CC_SYSTEM_V
    [mkMeta (lit "tloc") (lit "ptr") CDM_POINTER PDIR_OUT (lit "long") []]
    1 (lit "long") FAT_NOVARARGS 0.
Definition proto_ctime_r : FuncPrototype :=
  mkProto (lit "ctime_r") CC_SYSTEM_V
    [mkMeta (lit "time") (lit "ptr") (Z.lor CDM_POINTER CDM_CONST) PDIR_IN (lit "long") [];
     mkMeta (lit "buf") (lit "ptr") CDM_POINTER PDIR_OUT (lit "sz") []]
    2 (lit "ptr") FAT_NOVARARGS 0.
Definition proto_localtime_r : FuncPrototype :=
  mkProto (lit "localtime_r") CC_SYSTEM_V
    [mkMeta (lit "timep") (lit "ptr") (Z.lor CDM_POINTER CDM_CONST) PDIR_IN (lit "long") [];
     mkMeta (lit "result") (lit "ptr") CDM_NOMOD PDIR_OUT [] []]
    2 (lit "ptr") FAT_NOVARARGS 0.

Definition retrace_proto_time : list FuncPrototype :=
  [proto_time;
   proto_ctime_r;
   proto_localtime_r].

End ProtoLibc.
