(* ===== verification/ProtoSystem.v ===== *)
(** * Prototypes: system calls

    The tables of [src/core/prototypes/] for unistd.c, dirent.c, mman.c,
    signal.c and uio.c. *)

From S2P Require Import Prelude Context.
Import Context.

Module ProtoSystem.

(** ** unistd.c *)

Definition proto_dlopen : FuncPrototype :=
  mkProto (lit "dlopen") CC_SYSTEM_V
    [mkMeta (lit "filename") (lit "ptr") (Z.lor CDM_POINTER CDM_CONST) PDIR_IN (lit "sz") [];
     mkMeta (lit "flags") (lit "int") CDM_NOMOD PDIR_IN [] []]
    2 (lit "ptr") FAT_NOVARARGS 0.
Definition proto_dlclose : FuncPrototype :=
  mkProto (lit "dlclose") CC_SYSTEM_V
    [mkMeta (lit "handle") (lit "ptr") CDM_NOMOD PDIR_IN [] []]
    1 (lit "int") FAT_NOVARARGS 0.
Definition proto_open : FuncPrototype :=
  mkProto (lit "open") CC_SYSTEM_V
    [mkMeta (lit "path") (lit "ptr") (Z.lor CDM_POINTER CDM_CONST) PDIR_IN (lit "sz") [];
     mkMeta (lit "flags") (lit "int") CDM_NOMOD PDIR_IN [] []]
    2 (lit "int") FAT_NOVARARGS 0.
Definition proto_openat : FuncPrototype :=
  mkProto (lit "openat") CC_SYSTEM_V
    [mkMeta (lit "dirfd") (lit "int") CDM_NOMOD PDIR_IN [] [];
     mkMeta (lit "path") (lit "ptr") (Z.lor CDM_POINTER CDM_CONST) PDIR_IN (lit "sz") [];
     mkMeta (lit "flags") (lit "int") CDM_NOMOD PDIR_IN [] []]
    3 (lit "int") FAT_NOVARARGS 0.
Definition proto_access : FuncPrototype :=
  mkProto (lit "access") CC_SYSTEM_V
    [mkMeta (lit "pathname") (lit "ptr") (Z.lor CDM_POINTER CDM_CONST) PDIR_IN (lit "sz") [];
     mkMeta (lit "mode") (lit "int") CDM_NOMOD PDIR_IN [] []]
    2 (lit "int") FAT_NOVARARGS 0.
Definition proto_alarm : FuncPrototype :=
  mkProto (lit "alarm") CC_SYSTEM_V
    [mkMeta (lit "seconds") (lit "unsigned int") CDM_NOMOD PDIR_IN [] []]
    1 (lit "unsigned int") FAT_NOVARARGS 0.
Definition proto_brk : FuncPrototype :=
  mkProto (lit "brk") CC_SYSTEM_V
    [mkMeta (lit "addr") (lit "ptr") CDM_NOMOD PDIR_OUT [] []]
    1 (lit "int") FAT_NOVARARGS 0.
Definition proto_chdir : FuncPrototype :=
  mkProto (lit "chdir") CC_SYSTEM_V
    [mkMeta (lit "path") (lit "ptr") (Z.lor CDM_POINTER CDM_CONST) PDIR_IN (lit "sz") []]
    1 (lit "int") FAT_NOVARARGS 0.
Definition proto_chroot : FuncPrototype :=
  mkProto (lit "chroot") CC_SYSTEM_V
    [mkMeta (lit "path") (lit "ptr") (Z.lor CDM_POINTER CDM_CONST) PDIR_IN (lit "sz") []]
    1 (lit "int") FAT_NOVARARGS 0.
Definition proto_chown : FuncPrototype :=
  mkProto (lit "chown") CC_SYSTEM_V
    [mkMeta (lit "pathname") (lit "ptr") (Z.lor CDM_POINTER CDM_CONST) PDIR_IN (lit "sz") [];
     mkMeta (lit "owner") (lit "uid_t") CDM_NOMOD PDIR_IN [] [];
     mkMeta (lit "group") (lit "gid_t") CDM_NOMOD PDIR_IN [] []]
    3 (lit "int") FAT_NOVARARGS 0.
Definition proto_close : FuncPrototype :=
  mkProto (lit "close") CC_SYSTEM_V
    [mkMeta (lit "fd") (lit "int") CDM_NOMOD PDIR_IN [] []]
    1 (lit "int") FAT_NOVARARGS 0.
Definition proto_confstr : FuncPrototype :=
  mkProto (lit "confstr") CC_SYSTEM_V
    [mkMeta (lit "name") (lit "int") CDM_NOMOD PDIR_IN [] [];
     mkMeta (lit "buf") (lit "ptr") CDM_POINTER PDIR_OUT (lit "sz") (lit "len");
     mkMeta (lit "len") (lit "size_t") CDM_NOMOD PDIR_IN [] []]
    3 (lit "size_t") FAT_NOVARARGS 0.
Definition proto_crypt : FuncPrototype :=
  mkProto (lit "crypt") CC_SYSTEM_V
    [mkMeta (lit "key") (lit "ptr") (Z.lor CDM_POINTER CDM_CONST) PDIR_IN (lit "sz") [];
     mkMeta (lit "salt") (lit "ptr") (Z.lor CDM_POINTER CDM_CONST) PDIR_IN (lit "sz") []]
    2 (lit "ptr") FAT_NOVARARGS 0.
Definition proto_ctermid : FuncPrototype :=
  mkProto (lit "ctermid") CC_SYSTEM_V
    [mkMeta (lit "s") (lit "ptr") CDM_POINTER PDIR_OUT (lit "sz") []]
    1 (lit "ptr") FAT_NOVARARGS 0.
Definition proto_cuserid : FuncPrototype :=
  mkProto (lit "cuserid") CC_SYSTEM_V
    [mkMeta (lit "string") (lit "ptr") CDM_POINTER PDIR_OUT (lit "sz") []]
    1 (lit "ptr") FAT_NOVARARGS 0.
Definition proto_dup : FuncPrototype :=
  mkProto (lit "dup") CC_SYSTEM_V
    [mkMeta (lit "oldfd") (lit "int") CDM_NOMOD PDIR_IN [] []]
    1 (lit "int") FAT_NOVARARGS 0.
Definition proto_dup2 : FuncPrototype :=
  mkProto (lit "dup2") CC_SYSTEM_V
    [mkMeta (lit "oldfd") (lit "int") CDM_NOMOD PDIR_IN [] [];
     mkMeta (lit "newfd") (lit "int") CDM_NOMOD PDIR_IN [] []]
    2 (lit "int") FAT_NOVARARGS 0.
Definition proto_encrypt : FuncPrototype :=
  mkProto (lit "encrypt") CC_SYSTEM_V
    [mkMeta (lit "block") (lit "ptr") CDM_NOMOD PDIR_INOUT [] [];
     mkMeta (lit "edflag") (lit "int") CDM_NOMOD PDIR_IN [] []]
    2 (lit "void") FAT_NOVARARGS 0.
Definition proto_execv : FuncPrototype :=
  mkProto (lit "execv") CC_SYSTEM_V
    [mkMeta (lit "path") (lit "ptr") (Z.lor CDM_POINTER CDM_CONST) PDIR_IN (lit "sz") [];
     mkMeta (lit "argv") (lit "ptr") CDM_NOMOD PDIR_IN [] []]
    2 (lit "int") FAT_NOVARARGS 0.
Definition proto_execve : FuncPrototype :=
  mkProto (lit "execve") CC_SYSTEM_V
    [mkMeta (lit "filename") (lit "ptr") (Z.lor CDM_POINTER CDM_CONST) PDIR_IN (lit "sz") [];
     mkMeta (lit "argv") (lit "ptr") CDM_NOMOD PDIR_IN [] [];
     mkMeta (lit "envp") (lit "ptr") CDM_NOMOD PDIR_IN [] []]
    3 (lit "int") FAT_NOVARARGS 0.
Definition proto_execl : FuncPrototype :=
  mkProto (lit "execl") CC_SYSTEM_V
    [mkMeta (lit "path") (lit "ptr") (Z.lor CDM_POINTER CDM_CONST) PDIR_IN (lit "sz") [];
     mkMeta (lit "arg0") (lit "ptr") (Z.lor CDM_POINTER CDM_CONST) PDIR_IN (lit "sz") []]
    2 (lit "int") FAT_NOVARARGS 0.
Definition proto_execle : FuncPrototype :=
  mkProto (lit "execle") CC_SYSTEM_V
    [mkMeta (lit "path") (lit "ptr") (Z.lor CDM_POINTER CDM_CONST) PDIR_IN (lit "sz") [];
     mkMeta (lit "arg0") (lit "ptr") (Z.lor CDM_POINTER CDM_CONST) PDIR_IN (lit "sz") []]
    2 (lit "int") FAT_NOVARARGS 0.
Definition proto_execlp : FuncPrototype :=
  mkProto (lit "execlp") CC_SYSTEM_V
    [mkMeta (lit "file") (lit "ptr") (Z.lor CDM_POINTER CDM_CONST) PDIR_IN (lit "sz") [];
     mkMeta (lit "arg0") (lit "ptr") (Z.lor CDM_POINTER CDM_CONST) PDIR_IN (lit "sz") []]
    2 (lit "int") FAT_NOVARARGS 0.
Definition proto_fdatasync : FuncPrototype :=
  mkProto (lit "fdatasync") CC_SYSTEM_V
    [mkMeta (lit "fd") (lit "int") CDM_NOMOD PDIR_IN [] []]
    1 (lit "int") FAT_NOVARARGS 0.
Definition proto_tcsetpgrp : FuncPrototype :=
  mkProto (lit "tcsetpgrp") CC_SYSTEM_V
    [mkMeta (lit "fd") (lit "int") CDM_NOMOD PDIR_IN [] [];
     mkMeta (lit "pgrp_id") (lit "int") CDM_NOMOD PDIR_IN [] []]
    2 (lit "int") FAT_NOVARARGS 0.
Definition proto_execvp : FuncPrototype :=
  mkProto (lit "execvp") CC_SYSTEM_V
    [mkMeta (lit "file") (lit "ptr") (Z.lor CDM_POINTER CDM_CONST) PDIR_IN (lit "sz") [];
     mkMeta (lit "argv") (lit "ptr") CDM_NOMOD PDIR_IN [] []]
    2 (lit "int") FAT_NOVARARGS 0.
Definition proto__exit : FuncPrototype :=
  mkProto (lit "_exit") CC_SYSTEM_V
    [mkMeta (lit "status") (lit "int") CDM_NOMOD PDIR_IN [] []]
    1 (lit "void") FAT_NOVARARGS 0.
Definition proto_fchown : FuncPrototype :=
  mkProto (lit "fchown") CC_SYSTEM_V
    [mkMeta (lit "fd") (lit "int") CDM_NOMOD PDIR_IN [] [];
     mkMeta (lit "owner") (lit "uid_t") CDM_NOMOD PDIR_IN [] [];
     mkMeta (lit "group") (lit "gid_t") CDM_NOMOD PDIR_IN [] []]
    3 (lit "int") FAT_NOVARARGS 0.
Definition proto_fchdir : FuncPrototype :=
  mkProto (lit "fchdir") CC_SYSTEM_V
    [mkMeta (lit "fd") (lit "int") CDM_NOMOD PDIR_IN [] []]
    1 (lit "int") FAT_NOVARARGS 0.
Definition proto_fork : FuncPrototype :=
  mkProto (lit "fork") CC_SYSTEM_V
    []
    0 (lit "pid_t") FAT_NOVARARGS 0.
Definition proto_fpathconf : FuncPrototype :=
  mkProto (lit "fpathconf") CC_SYSTEM_V
    [mkMeta (lit "fd") (lit "int") CDM_NOMOD PDIR_IN [] [];
     mkMeta (lit "name") (lit "int") CDM_NOMOD PDIR_IN [] []]
    2 (lit "long") FAT_NOVARARGS 0.
Definition proto_fsync : FuncPrototype :=
  mkProto (lit "fsync") CC_SYSTEM_V
    [mkMeta (lit "fd") (lit "int") CDM_NOMOD PDIR_IN [] []]
    1 (lit "int") FAT_NOVARARGS 0.
Definition proto_ftruncate : FuncPrototype :=
  mkProto (lit "ftruncate") CC_SYSTEM_V
    [mkMeta (lit "fd") (lit "int") CDM_NOMOD PDIR_IN [] [];
     mkMeta (lit "length") (lit "off_t") CDM_NOMOD PDIR_IN [] []]
    2 (lit "int") FAT_NOVARARGS 0.
Definition proto_getcwd : FuncPrototype :=
  mkProto (lit "getcwd") CC_SYSTEM_V
    [mkMeta (lit "buf") (lit "ptr") CDM_POINTER PDIR_OUT (lit "sz") [];
     mkMeta (lit "size") (lit "size_t") CDM_NOMOD PDIR_IN [] []]
    2 (lit "ptr") FAT_NOVARARGS 0.
Definition proto_getdtablesize : FuncPrototype :=
  mkProto (lit "getdtablesize") CC_SYSTEM_V
    []
    0 (lit "int") FAT_NOVARARGS 0.
Definition proto_getegid : FuncPrototype :=
  mkProto (lit "getegid") CC_SYSTEM_V
    []
    0 (lit "gid_t") FAT_NOVARARGS 0.
Definition proto_geteuid : FuncPrototype :=
  mkProto (lit "geteuid") CC_SYSTEM_V
    []
    0 (lit "uid_t") FAT_NOVARARGS 0.
Definition proto_getgid : FuncPrototype :=
  mkProto (lit "getgid") CC_SYSTEM_V
    []
    0 (lit "gid_t") FAT_NOVARARGS 0.
Definition proto_getgroups : FuncPrototype :=
  mkProto (lit "getgroups") CC_SYSTEM_V
    [mkMeta (lit "size") (lit "size_t") CDM_NOMOD PDIR_IN [] [];
     mkMeta (lit "list") (lit "gid_t") (Z.lor CDM_POINTER CDM_ARRAY) PDIR_OUT [] (lit "size")]
    2 (lit "int") FAT_NOVARARGS 0.
Definition proto_gethostid : FuncPrototype :=
  mkProto (lit "gethostid") CC_SYSTEM_V
    []
    0 (lit "long") FAT_NOVARARGS 0.
Definition proto_getlogin : FuncPrototype :=
  mkProto (lit "getlogin") CC_SYSTEM_V
    []
    0 (lit "ptr") FAT_NOVARARGS 0.
Definition proto_getlogin_r : FuncPrototype :=
  mkProto (lit "getlogin_r") CC_SYSTEM_V
    [mkMeta (lit "buf") (lit "ptr") CDM_POINTER PDIR_OUT [] [];
     mkMeta (lit "bufsize") (lit "size_t") CDM_NOMOD PDIR_IN [] []]
    2 (lit "int") FAT_NOVARARGS 0.
Definition proto_getopt : FuncPrototype :=
  mkProto (lit "getopt") CC_SYSTEM_V
    [mkMeta (lit "argc") (lit "int") CDM_NOMOD PDIR_IN [] [];
     mkMeta (lit "argv") (lit "ptr") CDM_ARRAY PDIR_IN (lit "ptr") (lit "argc");
     mkMeta (lit "optstring") (lit "ptr") (Z.lor CDM_POINTER CDM_CONST) PDIR_IN (lit "sz") []]
    3 (lit "int") FAT_NOVARARGS 0.
Definition proto_getpagesize : FuncPrototype :=
  mkProto (lit "getpagesize") CC_SYSTEM_V
    []
    0 (lit "int") FAT_NOVARARGS 0.
Definition proto_getpass : FuncPrototype :=
  mkProto (lit "getpass") CC_SYSTEM_V
    [mkMeta (lit "prompt") (lit "ptr") (Z.lor CDM_POINTER CDM_CONST) PDIR_IN (lit "sz") []]
    1 (lit "ptr") FAT_NOVARARGS 0.
Definition proto_getpgid : FuncPrototype :=
  mkProto (lit "getpgid") CC_SYSTEM_V
    [mkMeta (lit "pid") (lit "pid_t") CDM_NOMOD PDIR_IN [] []]
    1 (lit "pid_t") FAT_NOVARARGS 0.
Definition proto_getpgrp : FuncPrototype :=
  mkProto (lit "getpgrp") CC_SYSTEM_V
    []
    0 (lit "pid_t") FAT_NOVARARGS 0.
Definition proto_getpid : FuncPrototype :=
  mkProto (lit "getpid") CC_SYSTEM_V
    []
    0 (lit "pid_t") FAT_NOVARARGS 0.
Definition proto_getppid : FuncPrototype :=
  mkProto (lit "getppid") CC_SYSTEM_V
    []
    0 (lit "pid_t") FAT_NOVARARGS 0.
Definition proto_getsid : FuncPrototype :=
  mkProto (lit "getsid") CC_SYSTEM_V
    [mkMeta (lit "pid") (lit "pid_t") CDM_NOMOD PDIR_IN [] []]
    1 (lit "pid_t") FAT_NOVARARGS 0.
Definition proto_getuid : FuncPrototype :=
  mkProto (lit "getuid") CC_SYSTEM_V
    []
    0 (lit "uid_t") FAT_NOVARARGS 0.
Definition proto_getwd : FuncPrototype :=
  mkProto (lit "getwd") CC_SYSTEM_V
    [mkMeta (lit "buf") (lit "ptr") CDM_POINTER PDIR_OUT (lit "sz") []]
    1 (lit "ptr") FAT_NOVARARGS 0.
Definition proto_isatty : FuncPrototype :=
  mkProto (lit "isatty") CC_SYSTEM_V
    [mkMeta (lit "fd") (lit "int") CDM_NOMOD PDIR_IN [] []]
    1 (lit "int") FAT_NOVARARGS 0.
Definition proto_lchown : FuncPrototype :=
  mkProto (lit "lchown") CC_SYSTEM_V
    [mkMeta (lit "path") (lit "ptr") (Z.lor CDM_POINTER CDM_CONST) PDIR_IN (lit "sz") [];
     mkMeta (lit "owner") (lit "uid_t") CDM_NOMOD PDIR_IN [] [];
     mkMeta (lit "group") (lit "gid_t") CDM_NOMOD PDIR_IN [] []]
    3 (lit "int") FAT_NOVARARGS 0.
Definition proto_link : FuncPrototype :=
  mkProto (lit "link") CC_SYSTEM_V
    [mkMeta (lit "oldpath") (lit "ptr") (Z.lor CDM_POINTER CDM_CONST) PDIR_IN (lit "sz") [];
     mkMeta (lit "newpath") (lit "ptr") (Z.lor CDM_POINTER CDM_CONST) PDIR_IN (lit "sz") [];
     mkMeta (lit "owner") (lit "uid_t") CDM_NOMOD PDIR_IN [] []]
    3 (lit "int") FAT_NOVARARGS 0.
Definition proto_lockf : FuncPrototype :=
  mkProto (lit "lockf") CC_SYSTEM_V
    [mkMeta (lit "fd") (lit "int") CDM_NOMOD PDIR_IN [] [];
     mkMeta (lit "cmd") (lit "int") CDM_NOMOD PDIR_IN [] [];
     mkMeta (lit "len") (lit "off_t") CDM_NOMOD PDIR_IN [] []]
    3 (lit "int") FAT_NOVARARGS 0.
Definition proto_lseek : FuncPrototype :=
  mkProto (lit "lseek") CC_SYSTEM_V
    [mkMeta (lit "fd") (lit "int") CDM_NOMOD PDIR_IN [] [];
     mkMeta (lit "len") (lit "off_t") CDM_NOMOD PDIR_IN [] [];
     mkMeta (lit "whence") (lit "int") CDM_NOMOD PDIR_IN [] []]
    3 (lit "off_t") FAT_NOVARARGS 0.
Definition proto_nice : FuncPrototype :=
  mkProto (lit "nice") CC_SYSTEM_V
    [mkMeta (lit "fd") (lit "int") CDM_NOMOD PDIR_IN [] [];
     mkMeta (lit "inc") (lit "int") CDM_NOMOD PDIR_IN [] []]
    2 (lit "int") FAT_NOVARARGS 0.
Definition proto_pathconf : FuncPrototype :=
  mkProto (lit "pathconf") CC_SYSTEM_V
    [mkMeta (lit "path") (lit "ptr") (Z.lor CDM_POINTER CDM_CONST) PDIR_IN (lit "sz") [];
     mkMeta (lit "name") (lit "int") CDM_NOMOD PDIR_IN [] []]
    2 (lit "long") FAT_NOVARARGS 0.
Definition proto_pause : FuncPrototype :=
  mkProto (lit "pause") CC_SYSTEM_V
    []
    0 (lit "int") FAT_NOVARARGS 0.
Definition proto_pipe : FuncPrototype :=
  mkProto (lit "pipe") CC_SYSTEM_V
    [mkMeta (lit "pipefd") (lit "ptr") CDM_NOMOD PDIR_IN [] []]
    1 (lit "int") FAT_NOVARARGS 0.
Definition proto_pread : FuncPrototype :=
  mkProto (lit "pread") CC_SYSTEM_V
    [mkMeta (lit "fd") (lit "int") CDM_NOMOD PDIR_IN [] [];
     mkMeta (lit "buf") (lit "ptr") (Z.lor CDM_POINTER CDM_ARRAY) PDIR_OUT (lit "char") (lit "count");
     mkMeta (lit "count") (lit "size_t") CDM_NOMOD PDIR_IN [] [];
     mkMeta (lit "offset") (lit "off_t") CDM_NOMOD PDIR_IN [] []]
    4 (lit "ssize_t") FAT_NOVARARGS 0.
Definition proto_pthread_atfork : FuncPrototype :=
  mkProto (lit "pthread_atfork") CC_SYSTEM_V
    [mkMeta (lit "prepare") (lit "ptr") CDM_NOMOD PDIR_IN [] [];
     mkMeta (lit "parent") (lit "ptr") CDM_NOMOD PDIR_IN [] [];
     mkMeta (lit "child") (lit "ptr") CDM_NOMOD PDIR_IN [] []]
    3 (lit "int") FAT_NOVARARGS 0.
Definition proto_pwrite : FuncPrototype :=
  mkProto (lit "pwrite") CC_SYSTEM_V
    [mkMeta (lit "fd") (lit "int") CDM_NOMOD PDIR_IN [] [];
     mkMeta (lit "buf") (lit "ptr") (Z.lor CDM_POINTER CDM_ARRAY) PDIR_IN (lit "char") (lit "count");
     mkMeta (lit "count") (lit "size_t") CDM_NOMOD PDIR_IN [] [];
     mkMeta (lit "offset") (lit "off_t") CDM_NOMOD PDIR_IN [] []]
    4 (lit "ssize_t") FAT_NOVARARGS 0.
Definition proto_read : FuncPrototype :=
  mkProto (lit "read") CC_SYSTEM_V
    [mkMeta (lit "fd") (lit "int") CDM_NOMOD PDIR_IN [] [];
     mkMeta (lit "buf") (lit "ptr") (Z.lor CDM_POINTER CDM_ARRAY) PDIR_OUT (lit "char") (lit "count");
     mkMeta (lit "count") (lit "size_t") CDM_NOMOD PDIR_IN [] []]
    3 (lit "ssize_t") FAT_NOVARARGS 0.
Definition proto_readlink : FuncPrototype :=
  mkProto (lit "readlink") CC_SYSTEM_V
    [mkMeta (lit "path") (lit "ptr") (Z.lor CDM_POINTER CDM_CONST) PDIR_IN (lit "sz") [];
     mkMeta (lit "buf") (lit "ptr") CDM_POINTER PDIR_OUT (lit "sz") [];
     mkMeta (lit "bufsiz") (lit "size_t") CDM_NOMOD PDIR_IN [] []]
    3 (lit "int") FAT_NOVARARGS 0.
Definition proto_rmdir : FuncPrototype :=
  mkProto (lit "rmdir") CC_SYSTEM_V
    [mkMeta (lit "pathname") (lit "ptr") (Z.lor CDM_POINTER CDM_CONST) PDIR_IN (lit "sz") []]
    1 (lit "int") FAT_NOVARARGS 0.
Definition proto_sbrk : FuncPrototype :=
  mkProto (lit "sbrk") CC_SYSTEM_V
    [mkMeta (lit "increment") (lit "intptr_t") CDM_NOMOD PDIR_IN [] []]
    1 (lit "ptr") FAT_NOVARARGS 0.
Definition proto_setgid : FuncPrototype :=
  mkProto (lit "setgid") CC_SYSTEM_V
    [mkMeta (lit "gid") (lit "gid_t") CDM_NOMOD PDIR_IN [] []]
    1 (lit "int") FAT_NOVARARGS 0.
Definition proto_setpgid : FuncPrototype :=
  mkProto (lit "setpgid") CC_SYSTEM_V
    [mkMeta (lit "pid") (lit "pid_t") CDM_NOMOD PDIR_IN [] [];
     mkMeta (lit "pgid") (lit "pid_t") CDM_NOMOD PDIR_IN [] []]
    2 (lit "int") FAT_NOVARARGS 0.
Definition proto_setpgrp : FuncPrototype :=
  mkProto (lit "setpgrp") CC_SYSTEM_V
    []
    0 (lit "pid_t") FAT_NOVARARGS 0.
Definition proto_setregid : FuncPrototype :=
  mkProto (lit "setregid") CC_SYSTEM_V
    [mkMeta (lit "rgid") (lit "gid_t") CDM_NOMOD PDIR_IN [] [];
     mkMeta (lit "egid") (lit "gid_t") CDM_NOMOD PDIR_IN [] []]
    2 (lit "int") FAT_NOVARARGS 0.
Definition proto_setreuid : FuncPrototype :=
  mkProto (lit "setreuid") CC_SYSTEM_V
    [mkMeta (lit "ruid") (lit "uid_t") CDM_NOMOD PDIR_IN [] [];
     mkMeta (lit "euid") (lit "uid_t") CDM_NOMOD PDIR_IN [] []]
    2 (lit "int") FAT_NOVARARGS 0.
Definition proto_setsid : FuncPrototype :=
  mkProto (lit "setsid") CC_SYSTEM_V
    []
    0 (lit "pid_t") FAT_NOVARARGS 0.
Definition proto_setuid : FuncPrototype :=
  mkProto (lit "setuid") CC_SYSTEM_V
    [mkMeta (lit "uid") (lit "uid_t") CDM_NOMOD PDIR_IN [] []]
    1 (lit "int") FAT_NOVARARGS 0.
Definition proto_sleep : FuncPrototype :=
  mkProto (lit "sleep") CC_SYSTEM_V
    [mkMeta (lit "seconds") (lit "unsigned int") CDM_NOMOD PDIR_IN [] []]
    1 (lit "unsigned int ") FAT_NOVARARGS 0.
Definition proto_swab : FuncPrototype :=
  mkProto (lit "swab") CC_SYSTEM_V
    [mkMeta (lit "from") (lit "ptr") (Z.lor (Z.lor CDM_POINTER CDM_CONST) CDM_ARRAY) PDIR_IN (lit "char") (lit "n");
     mkMeta (lit "to") (lit "ptr") (Z.lor CDM_POINTER CDM_ARRAY) PDIR_OUT (lit "char") (lit "n");
     mkMeta (lit "n") (lit "size_t") CDM_NOMOD PDIR_IN [] []]
    3 (lit "void") FAT_NOVARARGS 0.
Definition proto_symlink : FuncPrototype :=
  mkProto (lit "symlink") CC_SYSTEM_V
    [mkMeta (lit "path1") (lit "ptr") (Z.lor CDM_POINTER CDM_CONST) PDIR_IN (lit "sz") [];
     mkMeta (lit "path2") (lit "ptr") (Z.lor CDM_POINTER CDM_CONST) PDIR_IN (lit "sz") []]
    2 (lit "int") FAT_NOVARARGS 0.
Definition proto_sync : FuncPrototype :=
  mkProto (lit "sync") CC_SYSTEM_V
    []
    0 (lit "void") FAT_NOVARARGS 0.
Definition proto_sysconf : FuncPrototype :=
  mkProto (lit "sysconf") CC_SYSTEM_V
    [mkMeta (lit "name") (lit "int") CDM_NOMOD PDIR_IN [] []]
    1 (lit "long") FAT_NOVARARGS 0.
Definition proto_tcgetpgrp : FuncPrototype :=
  mkProto (lit "tcgetpgrp") CC_SYSTEM_V
    [mkMeta (lit "fd") (lit "int") CDM_NOMOD PDIR_IN [] []]
    1 (lit "pid_t") FAT_NOVARARGS 0.
Definition proto_truncate : FuncPrototype :=
  mkProto (lit "truncate") CC_SYSTEM_V
    [mkMeta (lit "path") (lit "ptr") (Z.lor CDM_POINTER CDM_CONST) PDIR_IN (lit "sz") [];
     mkMeta (lit "length") (lit "off_t") CDM_NOMOD PDIR_IN [] []]
    2 (lit "int") FAT_NOVARARGS 0.
Definition proto_ttyname : FuncPrototype :=
  mkProto (lit "ttyname") CC_SYSTEM_V
    [mkMeta (lit "fd") (lit "int") CDM_NOMOD PDIR_IN [] []]
    1 (lit "ptr") FAT_NOVARARGS 0.
Definition proto_ttyname_r : FuncPrototype :=
  mkProto (lit "ttyname_r") CC_SYSTEM_V
    [mkMeta (lit "fd") (lit "int") CDM_NOMOD PDIR_IN [] [];
     mkMeta (lit "buf") (lit "ptr") CDM_POINTER PDIR_OUT (lit "sz") [];
     mkMeta (lit "buflen") (lit "size_t") CDM_NOMOD PDIR_IN [] []]
    3 (lit "int") FAT_NOVARARGS 0.
Definition proto_ualarm : FuncPrototype :=
  mkProto (lit "ualarm") CC_SYSTEM_V
    [mkMeta (lit "usecs") (lit "useconds_t") CDM_NOMOD PDIR_IN [] [];
     mkMeta (lit "interval") (lit "useconds_t") CDM_NOMOD PDIR_IN [] []]
    2 (lit "useconds_t") FAT_NOVARARGS 0.
Definition proto_unlink : FuncPrototype :=
  mkProto (lit "unlink") CC_SYSTEM_V
    [mkMeta (lit "pathname") (lit "ptr") (Z.lor CDM_POINTER CDM_CONST) PDIR_IN (lit "sz") []]
    1 (lit "int") FAT_NOVARARGS 0.
Definition proto_usleep : FuncPrototype :=
  mkProto (lit "usleep") CC_SYSTEM_V
    [mkMeta (lit "usec") (lit "useconds_t") CDM_NOMOD PDIR_IN [] []]
    1 (lit "int") FAT_NOVARARGS 0.
Definition proto_vfork : FuncPrototype :=
  mkProto (lit "vfork") CC_SYSTEM_V
    []
    0 (lit "pid_t") FAT_NOVARARGS 0.
Definition proto_write : FuncPrototype :=
  mkProto (lit "write") CC_SYSTEM_V
    [mkMeta (lit "fd") (lit "int") CDM_NOMOD PDIR_IN [] [];
     mkMeta (lit "buf") (lit "ptr") (Z.lor (Z.lor CDM_POINTER CDM_ARRAY) CDM_CONST) PDIR_IN (lit "char") (lit "count");
     mkMeta (lit "count") (lit "size_t") CDM_NOMOD PDIR_IN [] []]
    3 (lit "ssize_t") FAT_NOVARARGS 0.

Definition retrace_proto_unistd_1 : list FuncPrototype :=
  [proto_dlopen; proto_dlclose; proto_open; proto_openat; proto_access; proto_alarm; proto_brk;
   proto_chdir].
Definition retrace_proto_unistd_2 : list FuncPrototype :=
  [proto_chroot; proto_chown; proto_close; proto_confstr; proto_crypt; proto_ctermid;
   proto_cuserid; proto_dup].
Definition retrace_proto_unistd_3 : list FuncPrototype :=
  [proto_dup2; proto_encrypt; proto_execv; proto_execve; proto_execl].
Definition retrace_proto_unistd_4 : list FuncPrototype :=
  [proto_execle; proto_execlp; proto_fdatasync; proto_tcsetpgrp; proto_execvp; proto__exit;
   proto_fchown].
Definition retrace_proto_unistd_5 : list FuncPrototype :=
  [proto_fchdir; proto_fork; proto_fpathconf; proto_fsync; proto_ftruncate; proto_getcwd;
   proto_getdtablesize; proto_getegid; proto_geteuid; proto_getgid; proto_getgroups].
Definition retrace_proto_unistd_6 : list FuncPrototype :=
  [proto_gethostid; proto_getlogin; proto_getlogin_r; proto_getopt; proto_getpagesize;
   proto_getpass; proto_getpgid; proto_getpgrp; proto_getpid; proto_getppid; proto_getsid;
   proto_getuid].
Definition retrace_proto_unistd_7 : list FuncPrototype :=
  [proto_getwd; proto_isatty; proto_lchown; proto_link; proto_lockf; proto_lseek].
Definition retrace_proto_unistd_8 : list FuncPrototype :=
  [proto_nice; proto_pathconf; proto_pause; proto_pipe; proto_pread; proto_pthread_atfork].
Definition retrace_proto_unistd_9 : list FuncPrototype :=
  [proto_pwrite; proto_read; proto_readlink; proto_rmdir; proto_sbrk; proto_setgid].
Definition retrace_proto_unistd_10 : list FuncPrototype :=
  [proto_setpgid; proto_setpgrp; proto_setregid; proto_setreuid; proto_setsid; proto_setuid;
   proto_sleep; proto_swab].
Definition retrace_proto_unistd_11 : list FuncPrototype :=
  [proto_symlink; proto_sync; proto_sysconf; proto_tcgetpgrp; proto_truncate; proto_ttyname;
   proto_ttyname_r; proto_ualarm].
Definition retrace_proto_unistd_12 : list FuncPrototype :=
  [proto_unlink; proto_usleep; proto_vfork; proto_write].

Definition retrace_proto_unistd : list FuncPrototype :=
  retrace_proto_unistd_1 ++ retrace_proto_unistd_2 ++ retrace_proto_unistd_3 ++
  retrace_proto_unistd_4 ++ retrace_proto_unistd_5 ++ retrace_proto_unistd_6 ++
  retrace_proto_unistd_7 ++ retrace_proto_unistd_8 ++ retrace_proto_unistd_9 ++
  retrace_proto_unistd_10 ++ retrace_proto_unistd_11 ++ retrace_proto_unistd_12.

(** ** dirent.c *)

Definition proto_opendir : FuncPrototype :=
  mkProto (lit "opendir") CC_SYSTEM_V
    [mkMeta (lit "name") (lit "ptr") (Z.lor CDM_POINTER CDM_CONST) PDIR_IN (lit "sz") []]
    1 (lit "ptr") FAT_NOVARARGS 0.
Definition proto_fdopendir : FuncPrototype :=
  mkProto (lit "fdopendir") CC_SYSTEM_V
    [mkMeta (lit "fd") (lit "int") CDM_NOMOD PDIR_IN [] []]
    1 (lit "ptr") FAT_NOVARARGS 0.
Definition proto_readdir : FuncPrototype :=
  mkProto (lit "readdir") CC_SYSTEM_V
    [mkMeta (lit "dirp") (lit "ptr") CDM_POINTER PDIR_IN [] []]
    1 (lit "ptr") FAT_NOVARARGS 0.
Definition proto_telldir : FuncPrototype :=
  mkProto (lit "telldir") CC_SYSTEM_V
    [mkMeta (lit "dirp") (lit "ptr") CDM_NOMOD PDIR_IN [] []]
    1 (lit "long") FAT_NOVARARGS 0.
Definition proto_seekdir : FuncPrototype :=
  mkProto (lit "seekdir") CC_SYSTEM_V
    [mkMeta (lit "dirp") (lit "ptr") CDM_NOMOD PDIR_IN [] [];
     mkMeta (lit "loc") (lit "long") CDM_NOMOD PDIR_IN [] []]
    2 (lit "long") FAT_NOVARARGS 0.
Definition proto_rewinddir : FuncPrototype :=
  mkProto (lit "rewinddir") CC_SYSTEM_V
    [mkMeta (lit "dirp") (lit "ptr") CDM_NOMOD PDIR_IN [] []]
    1 (lit "void") FAT_NOVARARGS 0.

Definition retrace_proto_dirent : list FuncPrototype :=
  [proto_opendir;
   proto_fdopendir;
   proto_readdir;
   proto_telldir;
   proto_seekdir;
   proto_rewinddir].

(** ** mman.c *)

Definition proto_mmap : FuncPrototype :=
  mkProto (lit "mmap") CC_SYSTEM_V
    [mkMeta (lit "addr") (lit "ptr") CDM_NOMOD PDIR_IN [] [];
     mkMeta (lit "length") (lit "size_t") CDM_NOMOD PDIR_IN [] [];
     mkMeta (lit "prot") (lit "int") CDM_NOMOD PDIR_IN [] [];
     mkMeta (lit "flags") (lit "int") CDM_NOMOD PDIR_IN [] [];
     mkMeta (lit "fd") (lit "int") CDM_NOMOD PDIR_IN [] [];
     mkMeta (lit "offset") (lit "off_t") CDM_NOMOD PDIR_IN [] []]
    6 (lit "ptr") FAT_NOVARARGS 0.
Definition proto_munmap : FuncPrototype :=
  mkProto (lit "munmap") CC_SYSTEM_V
    [mkMeta (lit "addr") (lit "ptr") CDM_NOMOD PDIR_IN [] [];
     mkMeta (lit "length") (lit "size_t") CDM_NOMOD PDIR_IN [] []]
    2 (lit "int") FAT_NOVARARGS 0.

Definition retrace_proto_mman : list FuncPrototype :=
  [proto_mmap;
   proto_munmap].

(** ** signal.c *)

Definition proto_signal : FuncPrototype :=
  mkProto (lit "signal") CC_SYSTEM_V
    [mkMeta (lit "sig") (lit "int") CDM_NOMOD PDIR_IN [] [];
     mkMeta (lit "func") (lit "ptr") CDM_NOMOD PDIR_IN [] []]
    2 (lit "ptr") FAT_NOVARARGS 0.
Definition proto_raise : FuncPrototype :=
  mkProto (lit "raise") CC_SYSTEM_V
    [mkMeta (lit "sig") (lit "int") CDM_NOMOD PDIR_IN [] []]
    1 (lit "int") FAT_NOVARARGS 0.

Definition retrace_proto_signal : list FuncPrototype :=
  [proto_signal;
   proto_raise].

(** ** uio.c *)

Definition proto_writev : FuncPrototype :=
  mkProto (lit "writev") CC_SYSTEM_V
    [mkMeta (lit "fd") (lit "int") CDM_NOMOD PDIR_IN [] [];
     mkMeta (lit "iovec") (lit "ptr") (Z.lor (Z.lor CDM_POINTER CDM_CONST) CDM_ARRAY) PDIR_IN (lit "iovec") (lit "iovcnt");
     mkMeta (lit "iovcnt") (lit "int") CDM_NOMOD PDIR_IN [] []]
    3 (lit "size_t") FAT_NOVARARGS 0.
Definition proto_readv : FuncPrototype :=
  mkProto (lit "readv") CC_SYSTEM_V
    [mkMeta (lit "fd") (lit "int") CDM_NOMOD PDIR_IN [] [];
     mkMeta (lit "iovec") (lit "ptr") (Z.lor (Z.lor CDM_POINTER CDM_CONST) CDM_ARRAY) PDIR_IN (lit "iovec") (lit "iovcnt");
     mkMeta (lit "iovcnt") (lit "int") CDM_NOMOD PDIR_IN [] []]
    3 (lit "size_t") FAT_NOVARARGS 0.

Definition retrace_proto_uio : list FuncPrototype :=
  [proto_writev;
   proto_readv].

End ProtoSystem.
