(* ===== verification/ProtoNet.v ===== *)
(** * Prototypes: sockets, threads, TLS and the NT calls

    The tables of [src/core/prototypes/] for sys_socket.c, pthread.c,
    openssl.c and, on Windows, ntdll.c. *)

From S2P Require Import Prelude Context.
Import Context.

Module ProtoNet.

(** ** sys_socket.c *)

Definition proto_socket : FuncPrototype :=
  mkProto (lit "socket") CC_SYSTEM_V
    [mkMeta (lit "domain") (lit "int") CDM_NOMOD PDIR_IN [] [];
     mkMeta (lit "type") (lit "int") CDM_NOMOD PDIR_IN [] [];
     mkMeta (lit "protocol") (lit "int") CDM_NOMOD PDIR_IN [] []]
    3 (lit "int") FAT_NOVARARGS 0.
Definition proto_connect : FuncPrototype :=
  mkProto (lit "connect") CC_SYSTEM_V
    [mkMeta (lit "sockfd") (lit "int") CDM_NOMOD PDIR_IN [] [];
     mkMeta (lit "addr") (lit "ptr") CDM_POINTER PDIR_IN (lit "void") [];
     mkMeta (lit "addrlen") (lit "int") CDM_NOMOD PDIR_IN [] []]
    3 (lit "int") FAT_NOVARARGS 0.
Definition proto_bind : FuncPrototype :=
  mkProto (lit "bind") CC_SYSTEM_V
    [mkMeta (lit "sockfd") (lit "int") CDM_NOMOD PDIR_IN [] [];
     mkMeta (lit "addr") (lit "ptr") CDM_POINTER PDIR_IN (lit "void") [];
     mkMeta (lit "addrlen") (lit "int") CDM_NOMOD PDIR_IN [] []]
    3 (lit "int") FAT_NOVARARGS 0.
Definition proto_listen : FuncPrototype :=
  mkProto (lit "listen") CC_SYSTEM_V
    [mkMeta (lit "sockfd") (lit "int") CDM_NOMOD PDIR_IN [] [];
     mkMeta (lit "backlog") (lit "int") CDM_NOMOD PDIR_IN [] []]
    2 (lit "int") FAT_NOVARARGS 0.
Definition proto_accept : FuncPrototype :=
  mkProto (lit "accept") CC_SYSTEM_V
    [mkMeta (lit "sockfd") (lit "int") CDM_NOMOD PDIR_IN [] [];
     mkMeta (lit "addr") (lit "ptr") CDM_POINTER PDIR_OUT (lit "void") [];
     mkMeta (lit "addrlen") (lit "ptr") CDM_POINTER PDIR_INOUT (lit "int") []]
    3 (lit "int") FAT_NOVARARGS 0.
Definition proto_send : FuncPrototype :=
  mkProto (lit "send") CC_SYSTEM_V
    [mkMeta (lit "sockfd") (lit "int") CDM_NOMOD PDIR_IN [] [];
     mkMeta (lit "buf") (lit "ptr") CDM_POINTER PDIR_IN (lit "void") [];
     mkMeta (lit "len") (lit "sz") CDM_NOMOD PDIR_IN [] [];
     mkMeta (lit "flags") (lit "int") CDM_NOMOD PDIR_IN [] []]
    4 (lit "int") FAT_NOVARARGS 0.
Definition proto_recv : FuncPrototype :=
  mkProto (lit "recv") CC_SYSTEM_V
    [mkMeta (lit "sockfd") (lit "int") CDM_NOMOD PDIR_IN [] [];
     mkMeta (lit "buf") (lit "ptr") CDM_POINTER PDIR_OUT (lit "void") [];
     mkMeta (lit "len") (lit "sz") CDM_NOMOD PDIR_IN [] [];
     mkMeta (lit "flags") (lit "int") CDM_NOMOD PDIR_IN [] []]
    4 (lit "int") FAT_NOVARARGS 0.
Definition proto_sendto : FuncPrototype :=
  mkProto (lit "sendto") CC_SYSTEM_V
    [mkMeta (lit "sockfd") (lit "int") CDM_NOMOD PDIR_IN [] [];
     mkMeta (lit "buf") (lit "ptr") CDM_POINTER PDIR_IN (lit "void") [];
     mkMeta (lit "len") (lit "sz") CDM_NOMOD PDIR_IN [] [];
     mkMeta (lit "flags") (lit "int") CDM_NOMOD PDIR_IN [] [];
     mkMeta (lit "dest_addr") (lit "ptr") CDM_POINTER PDIR_IN (lit "void") [];
     mkMeta (lit "addrlen") (lit "int") CDM_NOMOD PDIR_IN [] []]
    6 (lit "int") FAT_NOVARARGS 0.
Definition proto_recvfrom : FuncPrototype :=
  mkProto (lit "recvfrom") CC_SYSTEM_V
    [mkMeta (lit "sockfd") (lit "int") CDM_NOMOD PDIR_IN [] [];
     mkMeta (lit "buf") (lit "ptr") CDM_POINTER PDIR_OUT (lit "void") [];
     mkMeta (lit "len") (lit "sz") CDM_NOMOD PDIR_IN [] [];
     mkMeta (lit "flags") (lit "int") CDM_NOMOD PDIR_IN [] [];
     mkMeta (lit "src_addr") (lit "ptr") CDM_POINTER PDIR_OUT (lit "void") [];
     mkMeta (lit "addrlen") (lit "ptr") CDM_POINTER PDIR_INOUT (lit "int") []]
    6 (lit "int") FAT_NOVARARGS 0.
Definition proto_setsockopt : FuncPrototype :=
  mkProto (lit "setsockopt") CC_SYSTEM_V
    [mkMeta (lit "sockfd") (lit "int") CDM_NOMOD PDIR_IN [] [];
     mkMeta (lit "level") (lit "int") CDM_NOMOD PDIR_IN [] [];
     mkMeta (lit "optname") (lit "int") CDM_NOMOD PDIR_IN [] [];
     mkMeta (lit "optval") (lit "ptr") CDM_POINTER PDIR_IN (lit "void") []]
    4 (lit "int") FAT_NOVARARGS 0.
Definition proto_getsockopt : FuncPrototype :=
  mkProto (lit "getsockopt") CC_SYSTEM_V
    [mkMeta (lit "sockfd") (lit "int") CDM_NOMOD PDIR_IN [] [];
     mkMeta (lit "level") (lit "int") CDM_NOMOD PDIR_IN [] [];
     mkMeta (lit "optname") (lit "int") CDM_NOMOD PDIR_IN [] [];
     mkMeta (lit "optval") (lit "ptr") CDM_POINTER PDIR_OUT (lit "void") []]
    4 (lit "int") FAT_NOVARARGS 0.
Definition proto_socketpair : FuncPrototype :=
  mkProto (lit "socketpair") CC_SYSTEM_V
    [mkMeta (lit "domain") (lit "int") CDM_NOMOD PDIR_IN [] [];
     mkMeta (lit "type") (lit "int") CDM_NOMOD PDIR_IN [] [];
     mkMeta (lit "protocol") (lit "int") CDM_NOMOD PDIR_IN [] [];
     mkMeta (lit "sv") (lit "ptr") CDM_POINTER PDIR_OUT (lit "int") []]
    4 (lit "int") FAT_NOVARARGS 0.
Definition proto_accept4 : FuncPrototype :=
  mkProto (lit "accept4") CC_SYSTEM_V
    [mkMeta (lit "sockfd") (lit "int") CDM_NOMOD PDIR_IN [] [];
     mkMeta (lit "addr") (lit "ptr") CDM_POINTER PDIR_OUT (lit "void") [];
     mkMeta (lit "addrlen") (lit "ptr") CDM_POINTER PDIR_INOUT (lit "int") [];
     mkMeta (lit "flags") (lit "int") CDM_NOMOD PDIR_IN [] []]
    4 (lit "int") FAT_NOVARARGS 0.
Definition proto_shutdown : FuncPrototype :=
  mkProto (lit "shutdown") CC_SYSTEM_V
    [mkMeta (lit "sockfd") (lit "int") CDM_NOMOD PDIR_IN [] [];
     mkMeta (lit "how") (lit "int") CDM_NOMOD PDIR_IN [] []]
    2 (lit "int") FAT_NOVARARGS 0.
Definition proto_sendmsg : FuncPrototype :=
  mkProto (lit "sendmsg") CC_SYSTEM_V
    [mkMeta (lit "sockfd") (lit "int") CDM_NOMOD PDIR_IN [] [];
     mkMeta (lit "msg") (lit "ptr") CDM_POINTER PDIR_IN (lit "void") [];
     mkMeta (lit "flags") (lit "int") CDM_NOMOD PDIR_IN [] []]
    3 (lit "int") FAT_NOVARARGS 0.
Definition proto_recvmsg : FuncPrototype :=
  mkProto (lit "recvmsg") CC_SYSTEM_V
    [mkMeta (lit "sockfd") (lit "int") CDM_NOMOD PDIR_IN [] [];
     mkMeta (lit "msg") (lit "ptr") CDM_POINTER PDIR_INOUT (lit "void") [];
     mkMeta (lit "flags") (lit "int") CDM_NOMOD PDIR_IN [] []]
    3 (lit "int") FAT_NOVARARGS 0.
Definition proto_gethostbyname : FuncPrototype :=
  mkProto (lit "gethostbyname") CC_SYSTEM_V
    [mkMeta (lit "name") (lit "ptr") (Z.lor CDM_POINTER CDM_CONST) PDIR_IN (lit "sz") []]
    1 (lit "ptr") FAT_NOVARARGS 0.
Definition proto_getaddrinfo : FuncPrototype :=
  mkProto (lit "getaddrinfo") CC_SYSTEM_V
    [mkMeta (lit "node") (lit "ptr") (Z.lor CDM_POINTER CDM_CONST) PDIR_IN (lit "sz") [];
     mkMeta (lit "service") (lit "ptr") (Z.lor CDM_POINTER CDM_CONST) PDIR_IN (lit "sz") [];
     mkMeta (lit "hints") (lit "ptr") (Z.lor CDM_POINTER CDM_CONST) PDIR_IN (lit "void") [];
     mkMeta (lit "res") (lit "ptr") CDM_POINTER PDIR_OUT (lit "ptr") []]
    4 (lit "int") FAT_NOVARARGS 0.
Definition proto_freeaddrinfo : FuncPrototype :=
  mkProto (lit "freeaddrinfo") CC_SYSTEM_V
    [mkMeta (lit "res") (lit "ptr") CDM_POINTER PDIR_IN (lit "void") []]
    1 (lit "void") FAT_NOVARARGS 0.
Definition proto_gai_strerror : FuncPrototype :=
  mkProto (lit "gai_strerror") CC_SYSTEM_V
    [mkMeta (lit "errcode") (lit "int") CDM_NOMOD PDIR_IN [] []]
    1 (lit "ptr") FAT_NOVARARGS 0.
Definition proto_inet_pton : FuncPrototype :=
  mkProto (lit "inet_pton") CC_SYSTEM_V
    [mkMeta (lit "af") (lit "int") CDM_NOMOD PDIR_IN [] [];
     mkMeta (lit "src") (lit "ptr") (Z.lor CDM_POINTER CDM_CONST) PDIR_IN (lit "sz") [];
     mkMeta (lit "dst") (lit "ptr") CDM_POINTER PDIR_OUT (lit "void") []]
    3 (lit "int") FAT_NOVARARGS 0.
Definition proto_inet_ntop : FuncPrototype :=
  mkProto (lit "inet_ntop") CC_SYSTEM_V
    [mkMeta (lit "af") (lit "int") CDM_NOMOD PDIR_IN [] [];
     mkMeta (lit "src") (lit "ptr") (Z.lor CDM_POINTER CDM_CONST) PDIR_IN (lit "void") [];
     mkMeta (lit "dst") (lit "ptr") CDM_POINTER PDIR_OUT (lit "sz") [];
     mkMeta (lit "size") (lit "sz") CDM_NOMOD PDIR_IN [] []]
    4 (lit "ptr") FAT_NOVARARGS 0.
Definition proto_inet_addr : FuncPrototype :=
  mkProto (lit "inet_addr") CC_SYSTEM_V
    [mkMeta (lit "cp") (lit "ptr") (Z.lor CDM_POINTER CDM_CONST) PDIR_IN (lit "sz") []]
    1 (lit "unsigned int") FAT_NOVARARGS 0.
Definition proto_inet_aton : FuncPrototype :=
  mkProto (lit "inet_aton") CC_SYSTEM_V
    [mkMeta (lit "cp") (lit "ptr") (Z.lor CDM_POINTER CDM_CONST) PDIR_IN (lit "sz") [];
     mkMeta (lit "inp") (lit "ptr") CDM_POINTER PDIR_OUT (lit "void") []]
    2 (lit "int") FAT_NOVARARGS 0.
Definition proto_inet_network : FuncPrototype :=
  mkProto (lit "inet_network") CC_SYSTEM_V
    [mkMeta (lit "cp") (lit "ptr") (Z.lor CDM_POINTER CDM_CONST) PDIR_IN (lit "sz") []]
    1 (lit "unsigned int") FAT_NOVARARGS 0.
Definition proto_getpeername : FuncPrototype :=
  mkProto (lit "getpeername") CC_SYSTEM_V
    [mkMeta (lit "sockfd") (lit "int") CDM_NOMOD PDIR_IN [] [];
     mkMeta (lit "addr") (lit "ptr") CDM_POINTER PDIR_OUT (lit "void") [];
     mkMeta (lit "addrlen") (lit "ptr") CDM_POINTER PDIR_INOUT (lit "int") []]
    3 (lit "int") FAT_NOVARARGS 0.
Definition proto_getsockname : FuncPrototype :=
  mkProto (lit "getsockname") CC_SYSTEM_V
    [mkMeta (lit "sockfd") (lit "int") CDM_NOMOD PDIR_IN [] [];
     mkMeta (lit "addr") (lit "ptr") CDM_POINTER PDIR_OUT (lit "void") [];
     mkMeta (lit "addrlen") (lit "ptr") CDM_POINTER PDIR_INOUT (lit "int") []]
    3 (lit "int") FAT_NOVARARGS 0.

Definition retrace_proto_sys_socket_1 : list FuncPrototype :=
  [proto_socket; proto_connect; proto_bind; proto_listen; proto_accept].
Definition retrace_proto_sys_socket_2 : list FuncPrototype :=
  [proto_send; proto_recv; proto_sendto].
Definition retrace_proto_sys_socket_3 : list FuncPrototype :=
  [proto_recvfrom; proto_setsockopt; proto_getsockopt].
Definition retrace_proto_sys_socket_4 : list FuncPrototype :=
  [proto_socketpair; proto_accept4; proto_shutdown; proto_sendmsg; proto_recvmsg].
Definition retrace_proto_sys_socket_5 : list FuncPrototype :=
  [proto_gethostbyname; proto_getaddrinfo; proto_freeaddrinfo; proto_gai_strerror;
   proto_inet_pton; proto_inet_ntop].
Definition retrace_proto_sys_socket_6 : list FuncPrototype :=
  [proto_inet_addr; proto_inet_aton; proto_inet_network; proto_getpeername; proto_getsockname].

Definition retrace_proto_sys_socket : list FuncPrototype :=
  retrace_proto_sys_socket_1 ++ retrace_proto_sys_socket_2 ++ retrace_proto_sys_socket_3 ++
  retrace_proto_sys_socket_4 ++ retrace_proto_sys_socket_5 ++ retrace_proto_sys_socket_6.

(** ** pthread.c *)

(** The prototypes of the attribute getters and setters. *)
Definition ATTR_GET_INT (fname field : bytes) : FuncPrototype :=
  mkProto fname CC_SYSTEM_V
    [mkMeta (lit "attr") (lit "ptr") CDM_NOMOD PDIR_IN [] [];
     mkMeta field (lit "ptr") CDM_POINTER PDIR_OUT (lit "int") []]
    2 (lit "int") FAT_NOVARARGS 0.
Definition ATTR_SET_INT (fname field : bytes) : FuncPrototype :=
  mkProto fname CC_SYSTEM_V
    [mkMeta (lit "attr") (lit "ptr") CDM_NOMOD PDIR_IN [] [];
     mkMeta field (lit "int") CDM_NOMOD PDIR_IN [] []]
    2 (lit "int") FAT_NOVARARGS 0.

Definition proto_pthread_mutex_init : FuncPrototype :=
  mkProto (lit "pthread_mutex_init") CC_SYSTEM_V
    [mkMeta (lit "mutex") (lit "ptr") CDM_NOMOD PDIR_IN [] [];
     mkMeta (lit "attr") (lit "ptr") CDM_NOMOD PDIR_IN [] []]
    2 (lit "int") FAT_NOVARARGS 0.
Definition proto_pthread_mutex_destroy : FuncPrototype :=
  mkProto (lit "pthread_mutex_destroy") CC_SYSTEM_V
    [mkMeta (lit "mutex") (lit "ptr") CDM_NOMOD PDIR_IN [] []]
    1 (lit "int") FAT_NOVARARGS 0.
Definition proto_pthread_mutex_lock : FuncPrototype :=
  mkProto (lit "pthread_mutex_lock") CC_SYSTEM_V
    [mkMeta (lit "mutex") (lit "ptr") CDM_NOMOD PDIR_IN [] []]
    1 (lit "int") FAT_NOVARARGS 0.
Definition proto_pthread_mutex_trylock : FuncPrototype :=
  mkProto (lit "pthread_mutex_trylock") CC_SYSTEM_V
    [mkMeta (lit "mutex") (lit "ptr") CDM_NOMOD PDIR_IN [] []]
    1 (lit "int") FAT_NOVARARGS 0.
Definition proto_pthread_mutex_unlock : FuncPrototype :=
  mkProto (lit "pthread_mutex_unlock") CC_SYSTEM_V
    [mkMeta (lit "mutex") (lit "ptr") CDM_NOMOD PDIR_IN [] []]
    1 (lit "int") FAT_NOVARARGS 0.
Definition proto_pthread_mutex_getprioceiling : FuncPrototype :=
  mkProto (lit "pthread_mutex_getprioceiling") CC_SYSTEM_V
    [mkMeta (lit "mutex") (lit "ptr") CDM_NOMOD PDIR_IN [] [];
     mkMeta (lit "prioceiling") (lit "ptr") CDM_POINTER PDIR_OUT (lit "int") []]
    2 (lit "int") FAT_NOVARARGS 0.
Definition proto_pthread_mutex_setprioceiling : FuncPrototype :=
  mkProto (lit "pthread_mutex_setprioceiling") CC_SYSTEM_V
    [mkMeta (lit "mutex") (lit "ptr") CDM_NOMOD PDIR_IN [] [];
     mkMeta (lit "prioceiling") (lit "int") CDM_NOMOD PDIR_IN [] [];
     mkMeta (lit "old_ceiling") (lit "ptr") CDM_POINTER PDIR_OUT (lit "int") []]
    3 (lit "int") FAT_NOVARARGS 0.
Definition proto_pthread_mutexattr_init : FuncPrototype :=
  mkProto (lit "pthread_mutexattr_init") CC_SYSTEM_V
    [mkMeta (lit "attr") (lit "ptr") CDM_NOMOD PDIR_IN [] []]
    1 (lit "int") FAT_NOVARARGS 0.
Definition proto_pthread_mutexattr_destroy : FuncPrototype :=
  mkProto (lit "pthread_mutexattr_destroy") CC_SYSTEM_V
    [mkMeta (lit "attr") (lit "ptr") CDM_NOMOD PDIR_IN [] []]
    1 (lit "int") FAT_NOVARARGS 0.
Definition proto_pthread_mutexattr_getprioceiling : FuncPrototype :=
  ATTR_GET_INT (lit "pthread_mutexattr_getprioceiling") (lit "prioceiling").
Definition proto_pthread_mutexattr_setprioceiling : FuncPrototype :=
  ATTR_SET_INT (lit "pthread_mutexattr_setprioceiling") (lit "prioceiling").
Definition proto_pthread_mutexattr_getprotocol : FuncPrototype :=
  ATTR_GET_INT (lit "pthread_mutexattr_getprotocol") (lit "protocol").
Definition proto_pthread_mutexattr_setprotocol : FuncPrototype :=
  ATTR_SET_INT (lit "pthread_mutexattr_setprotocol") (lit "protocol").
Definition proto_pthread_mutexattr_getpshared : FuncPrototype :=
  ATTR_GET_INT (lit "pthread_mutexattr_getpshared") (lit "pshared").
Definition proto_pthread_mutexattr_setpshared : FuncPrototype :=
  ATTR_SET_INT (lit "pthread_mutexattr_setpshared") (lit "pshared").
Definition proto_pthread_mutexattr_gettype : FuncPrototype :=
  ATTR_GET_INT (lit "pthread_mutexattr_gettype") (lit "type").
Definition proto_pthread_mutexattr_settype : FuncPrototype :=
  ATTR_SET_INT (lit "pthread_mutexattr_settype") (lit "type").
Definition proto_pthread_cond_init : FuncPrototype :=
  mkProto (lit "pthread_cond_init") CC_SYSTEM_V
    [mkMeta (lit "cond") (lit "ptr") CDM_NOMOD PDIR_IN [] [];
     mkMeta (lit "attr") (lit "ptr") CDM_NOMOD PDIR_IN [] []]
    2 (lit "int") FAT_NOVARARGS 0.
Definition proto_pthread_cond_destroy : FuncPrototype :=
  mkProto (lit "pthread_cond_destroy") CC_SYSTEM_V
    [mkMeta (lit "cond") (lit "ptr") CDM_NOMOD PDIR_IN [] []]
    1 (lit "int") FAT_NOVARARGS 0.
Definition proto_pthread_cond_signal : FuncPrototype :=
  mkProto (lit "pthread_cond_signal") CC_SYSTEM_V
    [mkMeta (lit "cond") (lit "ptr") CDM_NOMOD PDIR_IN [] []]
    1 (lit "int") FAT_NOVARARGS 0.
Definition proto_pthread_cond_broadcast : FuncPrototype :=
  mkProto (lit "pthread_cond_broadcast") CC_SYSTEM_V
    [mkMeta (lit "cond") (lit "ptr") CDM_NOMOD PDIR_IN [] []]
    1 (lit "int") FAT_NOVARARGS 0.
Definition proto_pthread_cond_wait : FuncPrototype :=
  mkProto (lit "pthread_cond_wait") CC_SYSTEM_V
    [mkMeta (lit "cond") (lit "ptr") CDM_NOMOD PDIR_IN [] [];
     mkMeta (lit "mutex") (lit "ptr") CDM_NOMOD PDIR_IN [] []]
    2 (lit "int") FAT_NOVARARGS 0.
Definition proto_pthread_cond_timedwait : FuncPrototype :=
  mkProto (lit "pthread_cond_timedwait") CC_SYSTEM_V
    [mkMeta (lit "cond") (lit "ptr") CDM_NOMOD PDIR_IN [] [];
     mkMeta (lit "mutex") (lit "ptr") CDM_NOMOD PDIR_IN [] [];
     mkMeta (lit "abstime") (lit "ptr") CDM_NOMOD PDIR_IN [] []]
    3 (lit "int") FAT_NOVARARGS 0.
Definition proto_pthread_condattr_init : FuncPrototype :=
  mkProto (lit "pthread_condattr_init") CC_SYSTEM_V
    [mkMeta (lit "attr") (lit "ptr") CDM_NOMOD PDIR_IN [] []]
    1 (lit "int") FAT_NOVARARGS 0.
Definition proto_pthread_condattr_destroy : FuncPrototype :=
  mkProto (lit "pthread_condattr_destroy") CC_SYSTEM_V
    [mkMeta (lit "attr") (lit "ptr") CDM_NOMOD PDIR_IN [] []]
    1 (lit "int") FAT_NOVARARGS 0.
Definition proto_pthread_condattr_getpshared : FuncPrototype :=
  ATTR_GET_INT (lit "pthread_condattr_getpshared") (lit "pshared").
Definition proto_pthread_condattr_setpshared : FuncPrototype :=
  ATTR_SET_INT (lit "pthread_condattr_setpshared") (lit "pshared").
Definition proto_pthread_rwlock_init : FuncPrototype :=
  mkProto (lit "pthread_rwlock_init") CC_SYSTEM_V
    [mkMeta (lit "rwlock") (lit "ptr") CDM_NOMOD PDIR_IN [] [];
     mkMeta (lit "attr") (lit "ptr") CDM_NOMOD PDIR_IN [] []]
    2 (lit "int") FAT_NOVARARGS 0.
Definition proto_pthread_rwlock_destroy : FuncPrototype :=
  mkProto (lit "pthread_rwlock_destroy") CC_SYSTEM_V
    [mkMeta (lit "rwlock") (lit "ptr") CDM_NOMOD PDIR_IN [] []]
    1 (lit "int") FAT_NOVARARGS 0.
Definition proto_pthread_rwlock_rdlock : FuncPrototype :=
  mkProto (lit "pthread_rwlock_rdlock") CC_SYSTEM_V
    [mkMeta (lit "rwlock") (lit "ptr") CDM_NOMOD PDIR_IN [] []]
    1 (lit "int") FAT_NOVARARGS 0.
Definition proto_pthread_rwlock_tryrdlock : FuncPrototype :=
  mkProto (lit "pthread_rwlock_tryrdlock") CC_SYSTEM_V
    [mkMeta (lit "rwlock") (lit "ptr") CDM_NOMOD PDIR_IN [] []]
    1 (lit "int") FAT_NOVARARGS 0.
Definition proto_pthread_rwlock_wrlock : FuncPrototype :=
  mkProto (lit "pthread_rwlock_wrlock") CC_SYSTEM_V
    [mkMeta (lit "rwlock") (lit "ptr") CDM_NOMOD PDIR_IN [] []]
    1 (lit "int") FAT_NOVARARGS 0.
Definition proto_pthread_rwlock_trywrlock : FuncPrototype :=
  mkProto (lit "pthread_rwlock_trywrlock") CC_SYSTEM_V
    [mkMeta (lit "rwlock") (lit "ptr") CDM_NOMOD PDIR_IN [] []]
    1 (lit "int") FAT_NOVARARGS 0.
Definition proto_pthread_rwlock_unlock : FuncPrototype :=
  mkProto (lit "pthread_rwlock_unlock") CC_SYSTEM_V
    [mkMeta (lit "rwlock") (lit "ptr") CDM_NOMOD PDIR_IN [] []]
    1 (lit "int") FAT_NOVARARGS 0.
Definition proto_pthread_rwlockattr_init : FuncPrototype :=
  mkProto (lit "pthread_rwlockattr_init") CC_SYSTEM_V
    [mkMeta (lit "attr") (lit "ptr") CDM_NOMOD PDIR_IN [] []]
    1 (lit "int") FAT_NOVARARGS 0.
Definition proto_pthread_rwlockattr_destroy : FuncPrototype :=
  mkProto (lit "pthread_rwlockattr_destroy") CC_SYSTEM_V
    [mkMeta (lit "attr") (lit "ptr") CDM_NOMOD PDIR_IN [] []]
    1 (lit "int") FAT_NOVARARGS 0.
Definition proto_pthread_rwlockattr_getpshared : FuncPrototype :=
  ATTR_GET_INT (lit "pthread_rwlockattr_getpshared") (lit "pshared").
Definition proto_pthread_rwlockattr_setpshared : FuncPrototype :=
  ATTR_SET_INT (lit "pthread_rwlockattr_setpshared") (lit "pshared").
Definition proto_pthread_create : FuncPrototype :=
  mkProto (lit "pthread_create") CC_SYSTEM_V
    [mkMeta (lit "thread") (lit "ptr") CDM_POINTER PDIR_OUT (lit "long") [];
     mkMeta (lit "attr") (lit "ptr") CDM_NOMOD PDIR_IN [] [];
     mkMeta (lit "start_routine") (lit "ptr") CDM_NOMOD PDIR_IN [] [];
     mkMeta (lit "arg") (lit "ptr") CDM_NOMOD PDIR_IN [] []]
    4 (lit "int") FAT_NOVARARGS 0.
Definition proto_pthread_join : FuncPrototype :=
  mkProto (lit "pthread_join") CC_SYSTEM_V
    [mkMeta (lit "thread") (lit "long") CDM_NOMOD PDIR_IN [] [];
     mkMeta (lit "retval") (lit "ptr") CDM_POINTER PDIR_OUT (lit "ptr") []]
    2 (lit "int") FAT_NOVARARGS 0.
Definition proto_pthread_detach : FuncPrototype :=
  mkProto (lit "pthread_detach") CC_SYSTEM_V
    [mkMeta (lit "thread") (lit "long") CDM_NOMOD PDIR_IN [] []]
    1 (lit "int") FAT_NOVARARGS 0.
Definition proto_pthread_exit : FuncPrototype :=
  mkProto (lit "pthread_exit") CC_SYSTEM_V
    [mkMeta (lit "retval") (lit "ptr") CDM_NOMOD PDIR_IN [] []]
    1 (lit "void") FAT_NOVARARGS 0.
Definition proto_pthread_self : FuncPrototype :=
  mkProto (lit "pthread_self") CC_SYSTEM_V
    [mkMeta [] (lit "ptr") CDM_NOMOD PDIR_IN [] []]
    0 (lit "long") FAT_NOVARARGS 0.
Definition proto_pthread_equal : FuncPrototype :=
  mkProto (lit "pthread_equal") CC_SYSTEM_V
    [mkMeta (lit "t1") (lit "long") CDM_NOMOD PDIR_IN [] [];
     mkMeta (lit "t2") (lit "long") CDM_NOMOD PDIR_IN [] []]
    2 (lit "int") FAT_NOVARARGS 0.
Definition proto_pthread_cancel : FuncPrototype :=
  mkProto (lit "pthread_cancel") CC_SYSTEM_V
    [mkMeta (lit "thread") (lit "long") CDM_NOMOD PDIR_IN [] []]
    1 (lit "int") FAT_NOVARARGS 0.
Definition proto_pthread_setcancelstate : FuncPrototype :=
  mkProto (lit "pthread_setcancelstate") CC_SYSTEM_V
    [mkMeta (lit "state") (lit "int") CDM_NOMOD PDIR_IN [] [];
     mkMeta (lit "oldstate") (lit "ptr") CDM_POINTER PDIR_OUT (lit "int") []]
    2 (lit "int") FAT_NOVARARGS 0.
Definition proto_pthread_setcanceltype : FuncPrototype :=
  mkProto (lit "pthread_setcanceltype") CC_SYSTEM_V
    [mkMeta (lit "type") (lit "int") CDM_NOMOD PDIR_IN [] [];
     mkMeta (lit "oldtype") (lit "ptr") CDM_POINTER PDIR_OUT (lit "int") []]
    2 (lit "int") FAT_NOVARARGS 0.
Definition proto_pthread_testcancel : FuncPrototype :=
  mkProto (lit "pthread_testcancel") CC_SYSTEM_V
    [mkMeta [] (lit "ptr") CDM_NOMOD PDIR_IN [] []]
    0 (lit "void") FAT_NOVARARGS 0.
Definition proto_pthread_attr_init : FuncPrototype :=
  mkProto (lit "pthread_attr_init") CC_SYSTEM_V
    [mkMeta (lit "attr") (lit "ptr") CDM_NOMOD PDIR_IN [] []]
    1 (lit "int") FAT_NOVARARGS 0.
Definition proto_pthread_attr_destroy : FuncPrototype :=
  mkProto (lit "pthread_attr_destroy") CC_SYSTEM_V
    [mkMeta (lit "attr") (lit "ptr") CDM_NOMOD PDIR_IN [] []]
    1 (lit "int") FAT_NOVARARGS 0.
Definition proto_pthread_attr_getdetachstate : FuncPrototype :=
  ATTR_GET_INT (lit "pthread_attr_getdetachstate") (lit "detachstate").
Definition proto_pthread_attr_setdetachstate : FuncPrototype :=
  ATTR_SET_INT (lit "pthread_attr_setdetachstate") (lit "detachstate").
Definition proto_pthread_attr_getguardsize : FuncPrototype :=
  mkProto (lit "pthread_attr_getguardsize") CC_SYSTEM_V
    [mkMeta (lit "attr") (lit "ptr") CDM_NOMOD PDIR_IN [] [];
     mkMeta (lit "guardsize") (lit "ptr") CDM_POINTER PDIR_OUT (lit "size_t") []]
    2 (lit "int") FAT_NOVARARGS 0.
Definition proto_pthread_attr_setguardsize : FuncPrototype :=
  mkProto (lit "pthread_attr_setguardsize") CC_SYSTEM_V
    [mkMeta (lit "attr") (lit "ptr") CDM_NOMOD PDIR_IN [] [];
     mkMeta (lit "guardsize") (lit "size_t") CDM_NOMOD PDIR_IN [] []]
    2 (lit "int") FAT_NOVARARGS 0.
Definition proto_pthread_attr_getinheritsched : FuncPrototype :=
  ATTR_GET_INT (lit "pthread_attr_getinheritsched") (lit "inheritsched").
Definition proto_pthread_attr_setinheritsched : FuncPrototype :=
  ATTR_SET_INT (lit "pthread_attr_setinheritsched") (lit "inheritsched").
Definition proto_pthread_attr_getschedpolicy : FuncPrototype :=
  ATTR_GET_INT (lit "pthread_attr_getschedpolicy") (lit "schedpolicy").
Definition proto_pthread_attr_setschedpolicy : FuncPrototype :=
  ATTR_SET_INT (lit "pthread_attr_setschedpolicy") (lit "schedpolicy").
Definition proto_pthread_attr_getscope : FuncPrototype :=
  ATTR_GET_INT (lit "pthread_attr_getscope") (lit "scope").
Definition proto_pthread_attr_setscope : FuncPrototype :=
  ATTR_SET_INT (lit "pthread_attr_setscope") (lit "scope").
Definition proto_pthread_attr_getstackaddr : FuncPrototype :=
  mkProto (lit "pthread_attr_getstackaddr") CC_SYSTEM_V
    [mkMeta (lit "attr") (lit "ptr") CDM_NOMOD PDIR_IN [] [];
     mkMeta (lit "stackaddr") (lit "ptr") CDM_POINTER PDIR_OUT (lit "ptr") []]
    2 (lit "int") FAT_NOVARARGS 0.
Definition proto_pthread_attr_setstackaddr : FuncPrototype :=
  mkProto (lit "pthread_attr_setstackaddr") CC_SYSTEM_V
    [mkMeta (lit "attr") (lit "ptr") CDM_NOMOD PDIR_IN [] [];
     mkMeta (lit "stackaddr") (lit "ptr") CDM_NOMOD PDIR_IN [] []]
    2 (lit "int") FAT_NOVARARGS 0.
Definition proto_pthread_attr_getstacksize : FuncPrototype :=
  mkProto (lit "pthread_attr_getstacksize") CC_SYSTEM_V
    [mkMeta (lit "attr") (lit "ptr") CDM_NOMOD PDIR_IN [] [];
     mkMeta (lit "stacksize") (lit "ptr") CDM_POINTER PDIR_OUT (lit "size_t") []]
    2 (lit "int") FAT_NOVARARGS 0.
Definition proto_pthread_attr_setstacksize : FuncPrototype :=
  mkProto (lit "pthread_attr_setstacksize") CC_SYSTEM_V
    [mkMeta (lit "attr") (lit "ptr") CDM_NOMOD PDIR_IN [] [];
     mkMeta (lit "stacksize") (lit "size_t") CDM_NOMOD PDIR_IN [] []]
    2 (lit "int") FAT_NOVARARGS 0.
Definition proto_pthread_once : FuncPrototype :=
  mkProto (lit "pthread_once") CC_SYSTEM_V
    [mkMeta (lit "once") (lit "ptr") CDM_NOMOD PDIR_IN [] [];
     mkMeta (lit "init_routine") (lit "ptr") CDM_NOMOD PDIR_IN [] []]
    2 (lit "int") FAT_NOVARARGS 0.
Definition proto_pthread_getschedparam : FuncPrototype :=
  mkProto (lit "pthread_getschedparam") CC_SYSTEM_V
    [mkMeta (lit "thread") (lit "long") CDM_NOMOD PDIR_IN [] [];
     mkMeta (lit "policy") (lit "ptr") CDM_POINTER PDIR_OUT (lit "int") [];
     mkMeta (lit "param") (lit "ptr") CDM_NOMOD PDIR_IN [] []]
    3 (lit "int") FAT_NOVARARGS 0.
Definition proto_pthread_setschedparam : FuncPrototype :=
  mkProto (lit "pthread_setschedparam") CC_SYSTEM_V
    [mkMeta (lit "thread") (lit "long") CDM_NOMOD PDIR_IN [] [];
     mkMeta (lit "policy") (lit "int") CDM_NOMOD PDIR_IN [] [];
     mkMeta (lit "param") (lit "ptr") CDM_NOMOD PDIR_IN [] []]
    3 (lit "int") FAT_NOVARARGS 0.
Definition proto_pthread_getconcurrency : FuncPrototype :=
  mkProto (lit "pthread_getconcurrency") CC_SYSTEM_V
    [mkMeta [] (lit "ptr") CDM_NOMOD PDIR_IN [] []]
    0 (lit "int") FAT_NOVARARGS 0.
Definition proto_pthread_setconcurrency : FuncPrototype :=
  mkProto (lit "pthread_setconcurrency") CC_SYSTEM_V
    [mkMeta (lit "level") (lit "int") CDM_NOMOD PDIR_IN [] []]
    1 (lit "int") FAT_NOVARARGS 0.
Definition proto_pthread_key_create : FuncPrototype :=
  mkProto (lit "pthread_key_create") CC_SYSTEM_V
    [mkMeta (lit "key") (lit "ptr") CDM_POINTER PDIR_OUT (lit "int") [];
     mkMeta (lit "destructor") (lit "ptr") CDM_NOMOD PDIR_IN [] []]
    2 (lit "int") FAT_NOVARARGS 0.
Definition proto_pthread_key_delete : FuncPrototype :=
  mkProto (lit "pthread_key_delete") CC_SYSTEM_V
    [mkMeta (lit "key") (lit "int") CDM_NOMOD PDIR_IN [] []]
    1 (lit "int") FAT_NOVARARGS 0.
Definition proto_pthread_setspecific : FuncPrototype :=
  mkProto (lit "pthread_setspecific") CC_SYSTEM_V
    [mkMeta (lit "key") (lit "int") CDM_NOMOD PDIR_IN [] [];
     mkMeta (lit "value") (lit "ptr") CDM_NOMOD PDIR_IN [] []]
    2 (lit "int") FAT_NOVARARGS 0.
Definition proto_pthread_getspecific : FuncPrototype :=
  mkProto (lit "pthread_getspecific") CC_SYSTEM_V
    [mkMeta (lit "key") (lit "int") CDM_NOMOD PDIR_IN [] []]
    1 (lit "ptr") FAT_NOVARARGS 0.

Definition retrace_proto_pthread_1 : list FuncPrototype :=
  [proto_pthread_mutex_init; proto_pthread_mutex_destroy; proto_pthread_mutex_lock;
   proto_pthread_mutex_trylock; proto_pthread_mutex_unlock; proto_pthread_mutex_getprioceiling;
   proto_pthread_mutex_setprioceiling; proto_pthread_mutexattr_init;
   proto_pthread_mutexattr_destroy; proto_pthread_mutexattr_getprioceiling;
   proto_pthread_mutexattr_setprioceiling; proto_pthread_mutexattr_getprotocol;
   proto_pthread_mutexattr_setprotocol; proto_pthread_mutexattr_getpshared;
   proto_pthread_mutexattr_setpshared; proto_pthread_mutexattr_gettype;
   proto_pthread_mutexattr_settype; proto_pthread_cond_init; proto_pthread_cond_destroy;
   proto_pthread_cond_signal].
Definition retrace_proto_pthread_2 : list FuncPrototype :=
  [proto_pthread_cond_broadcast; proto_pthread_cond_wait; proto_pthread_cond_timedwait;
   proto_pthread_condattr_init; proto_pthread_condattr_destroy;
   proto_pthread_condattr_getpshared; proto_pthread_condattr_setpshared;
   proto_pthread_rwlock_init; proto_pthread_rwlock_destroy; proto_pthread_rwlock_rdlock;
   proto_pthread_rwlock_tryrdlock; proto_pthread_rwlock_wrlock; proto_pthread_rwlock_trywrlock;
   proto_pthread_rwlock_unlock; proto_pthread_rwlockattr_init; proto_pthread_rwlockattr_destroy;
   proto_pthread_rwlockattr_getpshared; proto_pthread_rwlockattr_setpshared;
   proto_pthread_create; proto_pthread_join; proto_pthread_detach; proto_pthread_exit;
   proto_pthread_self; proto_pthread_equal].
Definition retrace_proto_pthread_3 : list FuncPrototype :=
  [proto_pthread_cancel; proto_pthread_setcancelstate; proto_pthread_setcanceltype;
   proto_pthread_testcancel; proto_pthread_attr_init; proto_pthread_attr_destroy;
   proto_pthread_attr_getdetachstate; proto_pthread_attr_setdetachstate;
   proto_pthread_attr_getguardsize; proto_pthread_attr_setguardsize;
   proto_pthread_attr_getinheritsched; proto_pthread_attr_setinheritsched;
   proto_pthread_attr_getschedpolicy; proto_pthread_attr_setschedpolicy;
   proto_pthread_attr_getscope; proto_pthread_attr_setscope; proto_pthread_attr_getstackaddr;
   proto_pthread_attr_setstackaddr; proto_pthread_attr_getstacksize;
   proto_pthread_attr_setstacksize; proto_pthread_once; proto_pthread_getschedparam;
   proto_pthread_setschedparam; proto_pthread_getconcurrency; proto_pthread_setconcurrency].
Definition retrace_proto_pthread_4 : list FuncPrototype :=
  [proto_pthread_key_create; proto_pthread_key_delete; proto_pthread_setspecific;
   proto_pthread_getspecific].

Definition retrace_proto_pthread : list FuncPrototype :=
  retrace_proto_pthread_1 ++ retrace_proto_pthread_2 ++ retrace_proto_pthread_3 ++
  retrace_proto_pthread_4.

(** ** openssl.c *)

Definition proto_SSL_CTX_new : FuncPrototype :=
  mkProto (lit "SSL_CTX_new") CC_SYSTEM_V
    [mkMeta (lit "method") (lit "ptr") CDM_NOMOD PDIR_IN [] []]
    1 (lit "ptr") FAT_NOVARARGS 0.
Definition proto_SSL_read : FuncPrototype :=
  mkProto (lit "SSL_read") CC_SYSTEM_V
    [mkMeta (lit "ssl") (lit "ptr") CDM_NOMOD PDIR_IN [] [];
     mkMeta (lit "buf") (lit "ptr") CDM_POINTER PDIR_IN (lit "void") [];
     mkMeta (lit "num") (lit "sz") CDM_NOMOD PDIR_IN [] []]
    3 (lit "int") FAT_NOVARARGS 0.
Definition proto_SSL_read_ex : FuncPrototype :=
  mkProto (lit "SSL_read_ex") CC_SYSTEM_V
    [mkMeta (lit "ssl") (lit "ptr") CDM_NOMOD PDIR_IN [] [];
     mkMeta (lit "buf") (lit "ptr") CDM_POINTER PDIR_IN (lit "void") [];
     mkMeta (lit "num") (lit "sz") CDM_NOMOD PDIR_IN [] [];
     mkMeta (lit "readbytes") (lit "ptr") CDM_NOMOD PDIR_OUT [] []]
    4 (lit "int") FAT_NOVARARGS 0.
Definition proto_SSL_write : FuncPrototype :=
  mkProto (lit "SSL_write") CC_SYSTEM_V
    [mkMeta (lit "ssl") (lit "ptr") CDM_NOMOD PDIR_IN [] [];
     mkMeta (lit "buf") (lit "ptr") CDM_POINTER PDIR_IN (lit "void") [];
     mkMeta (lit "num") (lit "sz") CDM_NOMOD PDIR_IN [] []]
    3 (lit "int") FAT_NOVARARGS 0.
Definition proto_SSL_write_ex : FuncPrototype :=
  mkProto (lit "SSL_write_ex") CC_SYSTEM_V
    [mkMeta (lit "ssl") (lit "ptr") CDM_NOMOD PDIR_IN [] [];
     mkMeta (lit "buf") (lit "ptr") CDM_POINTER PDIR_IN (lit "void") [];
     mkMeta (lit "num") (lit "sz") CDM_NOMOD PDIR_IN [] [];
     mkMeta (lit "written") (lit "ptr") CDM_NOMOD PDIR_OUT [] []]
    4 (lit "int") FAT_NOVARARGS 0.

Definition retrace_proto_openssl : list FuncPrototype :=
  [proto_SSL_CTX_new;
   proto_SSL_read;
   proto_SSL_read_ex;
   proto_SSL_write;
   proto_SSL_write_ex].

(** ** ntdll.c *)

Definition proto_NtCreateFile : FuncPrototype :=
  mkProto (lit "NtCreateFile") CC_MICROSOFT
    [mkMeta (lit "filehandle") (lit "ptr") CDM_POINTER PDIR_OUT (lit "void") [];
     mkMeta (lit "desiredaccess") (lit "unsigned int") CDM_NOMOD PDIR_IN [] [];
     mkMeta (lit "objectattributes") (lit "ptr") (Z.lor CDM_POINTER CDM_CONST) PDIR_IN (lit "ntoa") [];
     mkMeta (lit "iostatusblock") (lit "ptr") CDM_POINTER PDIR_OUT (lit "void") [];
     mkMeta (lit "allocationsize") (lit "ptr") (Z.lor CDM_POINTER CDM_CONST) PDIR_IN (lit "void") [];
     mkMeta (lit "fileattributes") (lit "unsigned int") CDM_NOMOD PDIR_IN [] [];
     mkMeta (lit "shareaccess") (lit "unsigned int") CDM_NOMOD PDIR_IN [] [];
     mkMeta (lit "createdisposition") (lit "unsigned int") CDM_NOMOD PDIR_IN [] [];
     mkMeta (lit "createoptions") (lit "unsigned int") CDM_NOMOD PDIR_IN [] [];
     mkMeta (lit "eabuffer") (lit "ptr") (Z.lor CDM_POINTER CDM_CONST) PDIR_IN (lit "void") [];
     mkMeta (lit "ealength") (lit "unsigned int") CDM_NOMOD PDIR_IN [] []]
    11 (lit "int") FAT_NOVARARGS 0.
Definition proto_NtOpenFile : FuncPrototype :=
  mkProto (lit "NtOpenFile") CC_MICROSOFT
    [mkMeta (lit "filehandle") (lit "ptr") CDM_POINTER PDIR_OUT (lit "void") [];
     mkMeta (lit "desiredaccess") (lit "unsigned int") CDM_NOMOD PDIR_IN [] [];
     mkMeta (lit "objectattributes") (lit "ptr") (Z.lor CDM_POINTER CDM_CONST) PDIR_IN (lit "ntoa") [];
     mkMeta (lit "iostatusblock") (lit "ptr") CDM_POINTER PDIR_OUT (lit "void") [];
     mkMeta (lit "shareaccess") (lit "unsigned int") CDM_NOMOD PDIR_IN [] [];
     mkMeta (lit "openoptions") (lit "unsigned int") CDM_NOMOD PDIR_IN [] []]
    6 (lit "int") FAT_NOVARARGS 0.
Definition proto_NtQueryAttributesFile : FuncPrototype :=
  mkProto (lit "NtQueryAttributesFile") CC_MICROSOFT
    [mkMeta (lit "objectattributes") (lit "ptr") (Z.lor CDM_POINTER CDM_CONST) PDIR_IN (lit "ntoa") [];
     mkMeta (lit "fileinformation") (lit "ptr") CDM_POINTER PDIR_OUT (lit "void") []]
    2 (lit "int") FAT_NOVARARGS 0.
Definition proto_NtClose : FuncPrototype :=
  mkProto (lit "NtClose") CC_MICROSOFT
    [mkMeta (lit "handle") (lit "ptr") CDM_NOMOD PDIR_IN [] []]
    1 (lit "int") FAT_NOVARARGS 0.
Definition proto_LdrLoadDll : FuncPrototype :=
  mkProto (lit "LdrLoadDll") CC_MICROSOFT
    [mkMeta (lit "pathtofile") (lit "ptr") (Z.lor CDM_POINTER CDM_CONST) PDIR_IN (lit "void") [];
     mkMeta (lit "flags") (lit "ptr") CDM_POINTER PDIR_OUT (lit "void") [];
     mkMeta (lit "modulename") (lit "ptr") (Z.lor CDM_POINTER CDM_CONST) PDIR_IN (lit "ntus") [];
     mkMeta (lit "modulehandle") (lit "ptr") CDM_POINTER PDIR_OUT (lit "void") []]
    4 (lit "int") FAT_NOVARARGS 0.
Definition proto_NtWriteFile : FuncPrototype :=
  mkProto (lit "NtWriteFile") CC_MICROSOFT
    [mkMeta (lit "filehandle") (lit "ptr") CDM_NOMOD PDIR_IN [] [];
     mkMeta (lit "event") (lit "ptr") CDM_NOMOD PDIR_IN [] [];
     mkMeta (lit "apcroutine") (lit "ptr") CDM_NOMOD PDIR_IN [] [];
     mkMeta (lit "apccontext") (lit "ptr") CDM_NOMOD PDIR_IN [] [];
     mkMeta (lit "iostatusblock") (lit "ptr") CDM_POINTER PDIR_OUT (lit "void") [];
     mkMeta (lit "buffer") (lit "ptr") (Z.lor CDM_POINTER CDM_CONST) PDIR_IN (lit "void") [];
     mkMeta (lit "length") (lit "unsigned int") CDM_NOMOD PDIR_IN [] [];
     mkMeta (lit "byteoffset") (lit "ptr") (Z.lor CDM_POINTER CDM_CONST) PDIR_IN (lit "void") [];
     mkMeta (lit "key") (lit "ptr") (Z.lor CDM_POINTER CDM_CONST) PDIR_IN (lit "void") []]
    9 (lit "int") FAT_NOVARARGS 0.
Definition proto_NtReadFile : FuncPrototype :=
  mkProto (lit "NtReadFile") CC_MICROSOFT
    [mkMeta (lit "filehandle") (lit "ptr") CDM_NOMOD PDIR_IN [] [];
     mkMeta (lit "event") (lit "ptr") CDM_NOMOD PDIR_IN [] [];
     mkMeta (lit "apcroutine") (lit "ptr") CDM_NOMOD PDIR_IN [] [];
     mkMeta (lit "apccontext") (lit "ptr") CDM_NOMOD PDIR_IN [] [];
     mkMeta (lit "iostatusblock") (lit "ptr") CDM_POINTER PDIR_OUT (lit "void") [];
     mkMeta (lit "buffer") (lit "ptr") CDM_POINTER PDIR_OUT (lit "void") [];
     mkMeta (lit "length") (lit "unsigned int") CDM_NOMOD PDIR_IN [] [];
     mkMeta (lit "byteoffset") (lit "ptr") (Z.lor CDM_POINTER CDM_CONST) PDIR_IN (lit "void") [];
     mkMeta (lit "key") (lit "ptr") (Z.lor CDM_POINTER CDM_CONST) PDIR_IN (lit "void") []]
    9 (lit "int") FAT_NOVARARGS 0.
Definition proto_NtQueryDirectoryFile : FuncPrototype :=
  mkProto (lit "NtQueryDirectoryFile") CC_MICROSOFT
    [mkMeta (lit "filehandle") (lit "ptr") CDM_NOMOD PDIR_IN [] [];
     mkMeta (lit "event") (lit "ptr") CDM_NOMOD PDIR_IN [] [];
     mkMeta (lit "apcroutine") (lit "ptr") CDM_NOMOD PDIR_IN [] [];
     mkMeta (lit "apccontext") (lit "ptr") CDM_NOMOD PDIR_IN [] [];
     mkMeta (lit "fileinformation") (lit "ptr") CDM_POINTER PDIR_OUT (lit "void") [];
     mkMeta (lit "length") (lit "unsigned int") CDM_NOMOD PDIR_IN [] [];
     mkMeta (lit "fileinformationclass") (lit "unsigned int") CDM_NOMOD PDIR_IN [] [];
     mkMeta (lit "returnsingleentry") (lit "unsigned int") CDM_NOMOD PDIR_IN [] [];
     mkMeta (lit "filename") (lit "ptr") (Z.lor CDM_POINTER CDM_CONST) PDIR_IN (lit "ntus") [];
     mkMeta (lit "restartscan") (lit "unsigned int") CDM_NOMOD PDIR_IN [] []]
    10 (lit "int") FAT_NOVARARGS 0.

Definition retrace_proto_ntdll_1 : list FuncPrototype :=
  [proto_NtCreateFile; proto_NtOpenFile].
Definition retrace_proto_ntdll_2 : list FuncPrototype :=
  [proto_NtQueryAttributesFile; proto_NtClose; proto_LdrLoadDll].
Definition retrace_proto_ntdll_3 : list FuncPrototype :=
  [proto_NtWriteFile; proto_NtReadFile].
Definition retrace_proto_ntdll_4 : list FuncPrototype :=
  [proto_NtQueryDirectoryFile].

Definition retrace_proto_ntdll : list FuncPrototype :=
  retrace_proto_ntdll_1 ++ retrace_proto_ntdll_2 ++ retrace_proto_ntdll_3 ++
  retrace_proto_ntdll_4.

End ProtoNet.
