(* ===== verification/ProtoTables.v ===== *)
(** * The prototype tables of a POSIX build

    The tables that [src/core/CMakeLists.txt] links, as the section the engine
    registers, and what holds of all of them. *)

From S2P Require Import Prelude Context PrintfFormat Registry Lanes ProtoLibc ProtoSystem ProtoNet.
Import Context Registry ProtoLibc ProtoSystem ProtoNet.

Module ProtoTables.

(** The tables, in the order of the source list; the linker may place them in
    another. *)
Definition retrace_protos : list FuncPrototype :=
  retrace_proto_locale ++ retrace_proto_ctype ++ retrace_proto_signal ++ retrace_proto_stdio ++
  retrace_proto_stdlib ++ retrace_proto_uio ++ retrace_proto_unistd ++ retrace_proto_dirent ++
  retrace_proto_sys_socket ++ retrace_proto_mman ++ retrace_proto_string ++ retrace_proto_pthread ++
  retrace_proto_time ++ retrace_proto_openssl.

(** The data types registered beside the basic ones. *)
Definition type_names : list bytes :=
  (PrintfFormat.dt_name <$> PrintfFormat.basic_types) ++
  [lit "iovec"; lit "useconds_t"; lit "gid_t"; lit "pid_t"; lit "uid_t"; lit "off_t"].

(** A parameter description among those of its function. *)
Definition wf_meta (names : list bytes) (m : ParamMeta) : bool :=
  (length (pm_name m) <=? MAXLEN_PARAM_NAME) && negb (streq (pm_name m) []) &&
  bool_decide (pm_type_name m ∈ type_names) &&
  (streq (pm_array_cnt_param m) [] || bool_decide (pm_array_cnt_param m ∈ names)).

Definition wf_proto (p : FuncPrototype) : bool :=
  let ps := take (fp_params_cnt p) (fp_params p) in
  (length (fp_name p) <? MAXLEN_FUNC_NAME - 1) && negb (streq (fp_name p) []) &&
  (length ps =? fp_params_cnt p) && (fp_params_cnt p <=? 6) &&
  bool_decide (NoDup (pm_name <$> ps)) && forallb (wf_meta (pm_name <$> ps)) ps &&
  match fp_fmt p with
  | FAT_NOVARARGS => true
  | _ => match ps !! Z.to_nat (fp_fmt_param_idx p) with
         | Some m => streq (pm_ref_type_name m) (lit "sz") && has_mod (pm_modifiers m) CDM_POINTER
         | None => false
         end
  end.

Lemma protos_distinct : NoDup (fp_name <$> retrace_protos).
Proof. apply (bool_decide_eq_true_1 _). vm_compute. reflexivity. Qed.

Lemma protos_wf : forallb wf_proto retrace_protos = true.
Proof. vm_compute. reflexivity. Qed.

Lemma find_by_name l p :
  NoDup (fp_name <$> l) → p ∈ l → snd <$> list_find (λ q, fp_name q = fp_name p) l = Some p.
Proof.
  intros Hd Hp. destruct (list_find _ l) as [[i q]|] eqn:E.
  - apply list_find_Some in E as (Hq & Hn & _). apply list_elem_of_lookup in Hp as [j Hj].
    assert (i = j) as ->.
    { apply (NoDup_lookup (fp_name <$> l) i j (fp_name p)); [done| |];
        rewrite list_lookup_fmap; [by rewrite Hq, <- Hn|by rewrite Hj]. }
    cbn. congruence.
  - apply list_find_None in E. exfalso. by apply (proj1 (Forall_forall _ _) E p Hp).
Qed.

(** In whatever order the linker places the tables, every
    prototype is registered and found by its name, and every one is well
    formed: the names fit their arrays and the cache of names, the parameters
    are as many as counted, distinct, named and of registered types, and few
    enough for the argument registers, an array's count is one of them, and
    the format of a variadic function is one of its string parameters. *)
Theorem prototypes_registered char_signed l :
  Permutation l retrace_protos →
  (retrace_funcs_init char_signed l).1 = 0%Z ∧
  ∀ p, p ∈ retrace_protos →
    wf_proto p = true ∧ retrace_func_get char_signed (retrace_funcs_init char_signed l).2 (fp_name p) = Some p.
Proof.
  intros Hl. assert (NoDup (fp_name <$> l)) as Hd by (rewrite Hl; apply protos_distinct).
  split; [apply init_spec; [unfold MAXCOUNT_FUNCS_HASH_ENTRIES; lia|done]|]. intros p Hp. split.
  - apply (proj1 (forallb_forall _ _) protos_wf). by apply list_elem_of_In.
  - unfold retrace_func_get, retrace_funcs_init. rewrite get_spec by (done || (unfold MAXCOUNT_FUNCS_HASH_ENTRIES; lia)).
    apply find_by_name; [done|]. by rewrite Hl.
Qed.

Lemma prototypes_registered_witness :
  retrace_func_get true (retrace_funcs_init true retrace_protos).2 (lit "setlocale") = Some proto_setlocale.
Proof.
  apply (proj2 (prototypes_registered true retrace_protos (Permutation_refl _)) proto_setlocale).
  apply list_elem_of_lookup. exists 0. reflexivity.
Defined.

(** A call of [snprintf] by the action that calls the real function is never
    made: it has three named parameters, and the variadic call is made for one
    or two. *)
Theorem snprintf_never_called malloc_ok call real ps :
  fp_fmt proto_snprintf = FAT_PRINTF ∧
  (3 ≤ length ps →
   Lanes.retrace_as_call_real_variadic malloc_ok call real ps (fp_params_cnt proto_snprintf) = (-1)%Z).
Proof.
  split; [done|]. intros H. unfold Lanes.retrace_as_call_real_variadic. change (fp_params_cnt proto_snprintf) with 3.
  rewrite (proj2 (Nat.ltb_ge (length ps) 3) H). by destruct (_ && _).
Qed.

End ProtoTables.
