(* ===== verification/SortedTable.v ===== *)
(** * Sorted tables of C strings

    The tools keep names and paths in arrays that are sorted by [strcmp] and
    searched by halving: the sets and records of [tools/correlate/match.c] and
    the names, accesses and timings of [tools/profiler/aggregate.c]. The search
    and the insertion are written once, and a sorted array is a finite map. *)

From stdpp Require Import sorting gmap.
From S2P Require Import Prelude.

Module SortedTable.

(** ** The order of strings *)

Fixpoint strcmp (a b : bytes) : comparison :=
  match a, b with
  | [], [] => Eq
  | [], _ => Lt
  | _, [] => Gt
  | c :: a, d :: b =>
      match Z.compare (uchar c) (uchar d) with
      | Eq => strcmp a b
      | r => r
      end
  end.

Lemma uchar_same c d : uchar c = uchar d → c = d.
Proof.
  unfold uchar. intros H%N2Z.inj. rewrite <- (ascii_N_embedding c), <- (ascii_N_embedding d). by rewrite H.
Qed.

Lemma strcmp_eq a b : strcmp a b = Eq ↔ a = b.
Proof.
  split; [|intros <-; induction a as [|c a IH]; cbn; [done|by rewrite Z.compare_refl]].
  revert b. induction a as [|c a IH]; intros [|d b]; cbn; try done.
  destruct (Z.compare_spec (uchar c) (uchar d)) as [E| |]; try done.
  intros H. by rewrite (uchar_same c d E), (IH b H).
Qed.

Lemma strcmp_antisym a b : strcmp b a = CompOpp (strcmp a b).
Proof.
  revert b. induction a as [|c a IH]; intros [|d b]; cbn; try done.
  rewrite Z.compare_antisym. destruct (Z.compare (uchar c) (uchar d)); [apply IH|done..].
Qed.

Lemma strcmp_trans a b c : strcmp a b = Lt → strcmp b c = Lt → strcmp a c = Lt.
Proof.
  revert b c. induction a as [|x a IH]; intros [|y b] [|z c]; cbn; try done.
  destruct (Z.compare_spec (uchar x) (uchar y)), (Z.compare_spec (uchar y) (uchar z)),
    (Z.compare_spec (uchar x) (uchar z)); try done; try lia. by apply IH.
Qed.

(** [a] comes before [b]. *)
Definition before (a b : bytes) : Prop := strcmp a b = Lt.

#[export] Instance before_dec a b : Decision (before a b).
Proof. unfold before. solve_decision. Defined.

#[export] Instance before_strict : StrictOrder before.
Proof.
  split; [|intros a b c; apply strcmp_trans].
  intros a H. unfold before in H. by rewrite (proj2 (strcmp_eq a a)) in H.
Qed.

Lemma before_asym a b : before a b → before b a → False.
Proof. intros H1 H2. exact (irreflexivity before a (transitivity H1 H2)). Qed.

Lemma before_gt a b : strcmp a b = Gt ↔ before b a.
Proof. unfold before. rewrite (strcmp_antisym a b). by destruct (strcmp a b). Qed.

(** ** The search *)

(** The loop [while (lo < hi)] over an array whose element [i] compares to the
    key as [cmp i]: the index of an equal element, or the place for the key. *)
Fixpoint bsearch (fuel : nat) (cmp : nat → comparison) (lo hi : nat) : nat + nat :=
  match fuel with
  | 0 => inr lo
  | S fuel =>
      if lo <? hi then
        let mid := lo + (hi - lo) / 2 in
        match cmp mid with
        | Eq => inl mid
        | Lt => bsearch fuel cmp (mid + 1) hi
        | Gt => bsearch fuel cmp lo mid
        end
      else inr lo
  end.

(** The same loop without the exit on equality: the first element that is not
    below the key. *)
Fixpoint lower_bound (fuel : nat) (below : nat → bool) (lo hi : nat) : nat :=
  match fuel with
  | 0 => lo
  | S fuel =>
      if lo <? hi then
        let mid := lo + (hi - lo) / 2 in
        if below mid then lower_bound fuel below (mid + 1) hi else lower_bound fuel below lo mid
      else lo
  end.

Lemma mid_bounds lo hi : lo < hi → lo ≤ lo + (hi - lo) / 2 < hi.
Proof. intros H. pose proof (Nat.div_lt (hi - lo) 2). pose proof (Nat.div_le_mono 0 (hi - lo) 2). destruct (decide (hi - lo = 0)); lia. Qed.

Lemma bsearch_spec fuel cmp lo hi n :
  hi - lo ≤ fuel → lo ≤ hi ≤ n →
  (∀ i j, i < j → j < n → cmp j ≠ Gt → cmp i = Lt) →
  (∀ i, i < lo → cmp i = Lt) → (∀ i, hi ≤ i → i < n → cmp i = Gt) →
  match bsearch fuel cmp lo hi with
  | inl i => i < n ∧ cmp i = Eq
  | inr p => p ≤ n ∧ (∀ i, i < p → cmp i = Lt) ∧ ∀ i, p ≤ i → i < n → cmp i = Gt
  end.
Proof.
  intros Hf Hn Hs. revert lo hi Hf Hn. induction fuel as [|fuel IH]; intros lo hi Hf Hn Hlo Hhi; cbn [bsearch].
  { assert (lo = hi) as -> by lia. split_and!; [lia|done..]. }
  destruct (Nat.ltb_spec lo hi) as [H|H]; [|assert (lo = hi) as -> by lia; split_and!; [lia|done..]].
  pose proof (mid_bounds lo hi H) as Hm. set (mid := lo + (hi - lo) / 2) in *.
  destruct (cmp mid) eqn:E; [split; [lia|done]| |].
  - apply IH; [lia|lia| |done]. intros i Hi. destruct (decide (i = mid)) as [->|]; [done|].
    apply (Hs i mid); [lia..|by rewrite E].
  - apply IH; [lia|lia|done|]. intros i Hi1 Hi2. destruct (cmp i) eqn:Ei; [| |done].
    all: destruct (decide (i = mid)) as [->|]; [congruence|].
    all: rewrite (Hs mid i) in E; [done|lia|done|by rewrite Ei].
Qed.

Lemma lower_bound_spec fuel below lo hi n :
  hi - lo ≤ fuel → lo ≤ hi ≤ n →
  (∀ i j, i < j → j < n → below j = true → below i = true) →
  (∀ i, i < lo → below i = true) → (∀ i, hi ≤ i → i < n → below i = false) →
  let p := lower_bound fuel below lo hi in
  p ≤ n ∧ (∀ i, i < p → below i = true) ∧ ∀ i, p ≤ i → i < n → below i = false.
Proof.
  intros Hf Hn Hs. revert lo hi Hf Hn. induction fuel as [|fuel IH]; intros lo hi Hf Hn Hlo Hhi; cbn [lower_bound].
  { assert (lo = hi) as -> by lia. split_and!; [lia|done..]. }
  destruct (Nat.ltb_spec lo hi) as [H|H]; [|assert (lo = hi) as -> by lia; split_and!; [lia|done..]].
  pose proof (mid_bounds lo hi H) as Hm. set (mid := lo + (hi - lo) / 2) in *.
  destruct (below mid) eqn:E.
  - apply IH; [lia|lia| |done]. intros i Hi. destruct (decide (i = mid)) as [->|]; [done|]. apply (Hs i mid); [lia..|done].
  - apply IH; [lia|lia|done|]. intros i Hi1 Hi2. destruct (below i) eqn:Ei; [|done].
    destruct (decide (i = mid)) as [->|]; [congruence|]. rewrite (Hs mid i) in E; [done|lia|done|done].
Qed.

(** ** Tables *)

Section table.
Context {A : Type}.
Implicit Types (t : list (bytes * A)) (k : bytes).

(** The comparison of the element [i] of an array with the key. *)
Definition cmp_at (t : list (bytes * A)) (k : bytes) (i : nat) : comparison :=
  match t !! i with Some e => strcmp e.1 k | None => Gt end.

Definition find (t : list (bytes * A)) (k : bytes) : nat + nat := bsearch (length t) (cmp_at t k) 0 (length t).

Definition get (t : list (bytes * A)) (k : bytes) : option A :=
  match find t k with inl i => snd <$> t !! i | inr _ => None end.

(** The element of the key changed, or a new one at its place. *)
Definition update (f : A → A) (fresh : A) (t : list (bytes * A)) (k : bytes) : list (bytes * A) :=
  match find t k with
  | inl i => alter (λ e, (e.1, f e.2)) i t
  | inr p => take p t ++ (k, f fresh) :: drop p t
  end.

Definition sorted (t : list (bytes * A)) : Prop := StronglySorted before (map fst t).

Lemma sorted_lookup t i j a b :
  sorted t → t !! i = Some a → t !! j = Some b → i < j → before a.1 b.1.
Proof.
  unfold sorted. revert i j. induction t as [|e t IH]; intros i j Hs Hi Hj Hlt; [done|].
  cbn in Hs. apply StronglySorted_inv in Hs as [Hs He].
  destruct j as [|j]; [lia|]. cbn in Hj. destruct i as [|i]; cbn in Hi.
  - simplify_eq. rewrite Forall_forall in He. apply He. apply list_elem_of_fmap.
    exists b. split; [done|]. by eapply list_elem_of_lookup_2.
  - apply (IH i j); [done..|lia].
Qed.

Lemma cmp_at_mono t k i j :
  sorted t → i < j → j < length t → cmp_at t k j ≠ Gt → cmp_at t k i = Lt.
Proof.
  intros Hs Hij Hj. unfold cmp_at. destruct (lookup_lt_is_Some_2 t j Hj) as [b Eb].
  destruct (lookup_lt_is_Some_2 t i ltac:(lia)) as [a Ea]. rewrite Ea, Eb.
  pose proof (sorted_lookup t i j a b Hs Ea Eb Hij) as H. intros Hc.
  destruct (strcmp b.1 k) eqn:Ec; [apply strcmp_eq in Ec; by subst|by apply (strcmp_trans _ b.1)|done].
Qed.

Lemma find_spec t k :
  sorted t →
  match find t k with
  | inl i => ∃ a, t !! i = Some (k, a)
  | inr p => p ≤ length t ∧ (∀ i e, t !! i = Some e → i < p → before e.1 k) ∧
             ∀ i e, t !! i = Some e → p ≤ i → before k e.1
  end.
Proof.
  intros Hs. unfold find.
  pose proof (bsearch_spec (length t) (cmp_at t k) 0 (length t) (length t) ltac:(lia) ltac:(lia)
    (λ i j, cmp_at_mono t k i j Hs) ltac:(lia) ltac:(lia)) as H.
  destruct (bsearch _ _ _ _) as [i|p]; unfold cmp_at in H.
  - destruct H as [Hi Hc]. destruct (t !! i) as [[k' a]|] eqn:E; [|done].
    apply strcmp_eq in Hc. cbn in Hc. subst. by exists a.
  - destruct H as (Hp & Hlo & Hhi). split; [done|]. split; intros i e He Hi.
    + specialize (Hlo i Hi). by rewrite He in Hlo.
    + specialize (Hhi i Hi (lookup_lt_Some _ _ _ He)). rewrite He in Hhi. by apply before_gt.
Qed.

(** *** A sorted table is a map *)

Definition tmap (t : list (bytes * A)) : gmap bytes A := list_to_map t.

Lemma sorted_nodup t : sorted t → NoDup t.*1.
Proof.
  unfold sorted. change (map fst t) with (t.*1). induction 1 as [|k ks _ IH H]; constructor; [|done].
  intros Hk. rewrite Forall_forall in H. by apply (irreflexivity before k), H.
Qed.

Lemma sorted_filter (P : bytes * A → Prop) `{∀ e, Decision (P e)} t : sorted t → sorted (filter P t).
Proof.
  unfold sorted. change (map fst ?l) with (l.*1). induction t as [|e t IH]; [done|].
  rewrite fmap_cons. intros [Ht He]%StronglySorted_inv. specialize (IH Ht).
  destruct (decide (P e)); [rewrite filter_cons_True by done|by rewrite filter_cons_False].
  rewrite fmap_cons. constructor; [done|]. apply Forall_forall. intros x (e' & -> & [_ He']%list_elem_of_filter)%list_elem_of_fmap.
  rewrite Forall_forall in He. by apply He, list_elem_of_fmap_2.
Qed.

Lemma tmap_elem t k a : sorted t → tmap t !! k = Some a ↔ (k, a) ∈ t.
Proof. intros Hs. symmetry. apply elem_of_list_to_map. by apply sorted_nodup. Qed.

Lemma find_absent t k p : sorted t → find t k = inr p → tmap t !! k = None.
Proof.
  intros Hs Hf. pose proof (find_spec t k Hs) as H. rewrite Hf in H. destruct H as (_ & Hlo & Hhi).
  destruct (tmap t !! k) as [a|] eqn:E; [exfalso|done]. apply tmap_elem in E; [|done].
  apply list_elem_of_lookup in E as [i Hi]. destruct (decide (i < p)) as [Hp|Hp].
  - exact (irreflexivity before k (Hlo i (k, a) Hi Hp)).
  - exact (irreflexivity before k (Hhi i (k, a) Hi ltac:(lia))).
Qed.

Lemma get_map t k : sorted t → get t k = tmap t !! k.
Proof.
  intros Hs. unfold get. pose proof (find_spec t k Hs) as H. destruct (find t k) as [i|p] eqn:Hf.
  - destruct H as [a Ha]. rewrite Ha. cbn. symmetry. apply tmap_elem; [done|]. by eapply list_elem_of_lookup_2.
  - symmetry. by eapply find_absent.
Qed.

Lemma sorted_app l r :
  StronglySorted before l → StronglySorted before r → (∀ a b, a ∈ l → b ∈ r → before a b) → StronglySorted before (l ++ r).
Proof.
  induction 1 as [|a l _ IH Ha]; intros Hr H; cbn; [done|]. constructor.
  - apply IH; [done|]. intros x y Hx Hy. apply H; [by right|done].
  - apply Forall_app. split; [done|]. apply Forall_forall. intros b Hb. apply H; [by left|done].
Qed.

Lemma sorted_take_drop t p : sorted t → sorted (take p t) ∧ sorted (drop p t).
Proof.
  unfold sorted. rewrite <- firstn_map, <- skipn_map. generalize (map fst t) as l. intros l. revert p.
  induction l as [|k l IH]; intros p H; [by rewrite firstn_nil, skipn_nil|].
  destruct p as [|p]; cbn; [split; [constructor|done]|]. apply StronglySorted_inv in H as [Hs Hk]. destruct (IH p Hs) as [H1 H2]. split; [|done].
  constructor; [done|]. by apply Forall_take.
Qed.

Lemma alter_fst (f : A → A) i t : (alter (λ e : bytes * A, (e.1, f e.2)) i t).*1 = t.*1.
Proof. revert i. induction t as [|e t IH]; intros [|i]; cbn; [done..|]. f_equal. apply IH. Qed.

Lemma update_sorted f x t k : sorted t → sorted (update f x t k).
Proof.
  intros Hs. unfold update. pose proof (find_spec t k Hs) as H. destruct (find t k) as [i|p].
  - unfold sorted. change (map fst (alter _ i t)) with ((alter (λ e : bytes * A, (e.1, f e.2)) i t).*1).
    by rewrite alter_fst.
  - destruct H as (_ & Hlo & Hhi). destruct (sorted_take_drop t p Hs) as [H1 H2].
    unfold sorted. rewrite map_app. cbn. apply sorted_app; [exact H1| |].
    + constructor; [exact H2|]. apply Forall_forall. intros b Hb. apply list_elem_of_fmap in Hb as (e & -> & He).
      apply list_elem_of_lookup in He as [i Hi]. rewrite lookup_drop in Hi. apply (Hhi (p + i)); [done|lia].
    + intros a b Ha Hb. apply list_elem_of_fmap in Ha as (e & -> & He).
      apply list_elem_of_lookup in He as [i Hi]. apply lookup_take_Some in Hi as [Hi Hp].
      pose proof (Hlo i e Hi Hp) as Hek. apply elem_of_cons in Hb as [->|Hb]; [done|].
      transitivity k; [done|]. apply list_elem_of_fmap in Hb as (e' & -> & He').
      apply list_elem_of_lookup in He' as [j Hj]. rewrite lookup_drop in Hj. apply (Hhi (p + j)); [done|lia].
Qed.

Lemma update_map f x t k : sorted t → tmap (update f x t k) = <[k := f (default x (tmap t !! k))]> (tmap t).
Proof.
  intros Hs. apply map_eq. intros k'. pose proof (update_sorted f x t k Hs) as Hu.
  unfold update in *. pose proof (find_spec t k Hs) as H. destruct (find t k) as [i|p] eqn:Hf.
  - destruct H as [a Ha]. assert (tmap t !! k = Some a) as -> by (apply tmap_elem; [done|by eapply list_elem_of_lookup_2]).
    apply option_eq. intros b. rewrite tmap_elem by done. cbn [default from_option id].
    rewrite lookup_insert_Some, tmap_elem by done. rewrite !list_elem_of_lookup. split.
    + intros [j Hj]. destruct (decide (i = j)) as [<-|Hij].
      * rewrite list_lookup_alter, decide_True, Ha in Hj by done. cbn in Hj. simplify_eq. by left.
      * rewrite list_lookup_alter_ne in Hj by done. right. split; [|by exists j].
        intros ->. destruct (decide (i < j)).
        -- apply (irreflexivity before k'), (sorted_lookup t i j _ _ Hs Ha Hj). done.
        -- apply (irreflexivity before k'), (sorted_lookup t j i _ _ Hs Hj Ha). lia.
    + intros [[<- <-]|[Hne [j Hj]]].
      * exists i. by rewrite list_lookup_alter, decide_True, Ha by done.
      * exists j. rewrite list_lookup_alter_ne; [done|]. intros ->. rewrite Ha in Hj. by simplify_eq.
  - rewrite (find_absent t k p) by done. cbn [default from_option id]. unfold tmap.
    rewrite list_to_map_app, list_to_map_cons. rewrite <- insert_union_r; [by rewrite <- list_to_map_app, take_drop|].
    apply not_elem_of_list_to_map_1.
    intros Hk. apply list_elem_of_fmap in Hk as (e & -> & He). pose proof (find_absent t e.1 p Hs Hf) as Hn.
    apply not_elem_of_list_to_map_2 in Hn. apply Hn. apply list_elem_of_fmap. exists e. split; [done|].
    apply elem_of_take in He as (i & Hi & _). by eapply list_elem_of_lookup_2.
Qed.

(** Two sorted tables of the same map are the same. *)
Lemma sorted_ext t t' : sorted t → sorted t' → tmap t = tmap t' → t = t'.
Proof.
  intros Hs Hs' Hm. assert (t ≡ₚ t') as Hp.
  { rewrite <- (map_to_list_to_map (M := gmap bytes) t), <- (map_to_list_to_map (M := gmap bytes) t') by by apply sorted_nodup.
    unfold tmap in Hm. by rewrite Hm. }
  assert (t.*1 = t'.*1) as Hk.
  { apply (StronglySorted_unique_strong before); [|done|done|by rewrite Hp].
    intros a b _ _ Hab Hba. destruct (before_asym a b Hab Hba). }
  apply list_eq. intros i. pose proof (f_equal (.!! i) Hk) as Hi. cbn in Hi. rewrite !list_lookup_fmap in Hi.
  destruct (t !! i) as [[k a]|] eqn:Ei, (t' !! i) as [[k' a']|] eqn:Ei'; cbn in Hi; simplify_eq; [|done].
  f_equal. f_equal. apply list_elem_of_lookup_2 in Ei, Ei'. rewrite <- tmap_elem in Ei, Ei' by done. congruence.
Qed.

Lemma get_update f x t k k' :
  sorted t → get (update f x t k) k' = if decide (k = k') then Some (f (default x (get t k))) else get t k'.
Proof.
  intros Hs. rewrite !get_map, update_map by (try done; by apply update_sorted). case_decide as E; [subst|].
  - by rewrite lookup_insert_eq.
  - by rewrite lookup_insert_ne.
Qed.

Lemma find_updated f x t k : sorted t → ∃ i, find (update f x t k) k = inl i.
Proof.
  intros Hs. destruct (find (update f x t k) k) as [i|p] eqn:E; [by exists i|]. exfalso.
  apply find_absent in E; [|by apply update_sorted]. rewrite update_map in E by done. by rewrite lookup_insert_eq in E.
Qed.

(** An element that is found is changed in place. *)
Lemma alter_found h x t k i :
  find t k = inl i → alter (λ e : bytes * A, (e.1, h e.2)) i t = update h x t k.
Proof. intros E. unfold update. by rewrite E. Qed.

(** A table filled one key after the other, in any order. *)
Lemma rebuild {B} (step : list (bytes * A) → bytes * B → list (bytes * A)) (g : B → A) (l u : list (bytes * B)) :
  l ≡ₚ u → StronglySorted before u.*1 →
  (∀ t e, e ∈ l → sorted t → tmap t !! e.1 = None → sorted (step t e) ∧ tmap (step t e) = <[e.1 := g e.2]> (tmap t)) →
  foldl step [] l = (λ e, (e.1, g e.2)) <$> u.
Proof.
  intros Hp Hu Hstep. set (img := λ e : bytes * B, (e.1, g e.2)).
  assert (∀ u : list (bytes * B), (img <$> u).*1 = u.*1) as Hfst by (intros v; by rewrite <- list_fmap_compose).
  assert (NoDup l.*1) as Hnd.
  { rewrite Hp. clear -Hu. induction Hu as [|k ks _ IH H]; constructor; [|done].
    intros Hk. rewrite Forall_forall in H. by apply (irreflexivity before k), H. }
  assert (∀ l' t, l' ⊆ l → NoDup l'.*1 → sorted t → (∀ e, e ∈ l' → tmap t !! e.1 = None) →
    sorted (foldl step t l') ∧ tmap (foldl step t l') = list_to_map (img <$> l') ∪ tmap t) as H.
  { clear Hnd Hp Hu. induction l' as [|e l' IH]; intros t Hsub Hnd Ht Hn.
    { split; [done|]. cbn. by rewrite (left_id_L ∅ (∪)). }
    cbn [foldl]. cbn in Hnd. apply NoDup_cons in Hnd as [He Hnd].
    destruct (Hstep t e) as [S1 S2]; [apply Hsub; left|done|apply Hn; left|].
    destruct (IH (step t e)) as [I1 I2]; [intros y Hy; apply Hsub; by right|done|done| |].
    { intros y Hy. rewrite S2, lookup_insert_ne; [apply Hn; by right|]. intros Heq. apply He. rewrite Heq. by apply list_elem_of_fmap_2. }
    split; [done|]. rewrite I2, S2. cbn. rewrite <- insert_union_r; [by rewrite insert_union_l|].
    apply not_elem_of_list_to_map_1. by rewrite Hfst. }
  destruct (H l []) as [H1 H2]; [done|done|constructor|by intros; apply lookup_empty|].
  apply sorted_ext; [done| |].
  { unfold sorted. change (map fst (img <$> u)) with ((img <$> u).*1). by rewrite Hfst. }
  rewrite H2. unfold tmap at 2. cbn. rewrite (right_id_L ∅ (∪)). apply list_to_map_proper; [by rewrite Hfst|by rewrite Hp].
Qed.

(** *** Two sorted arrays walked together *)

(** The loop over two sorted arrays: the lesser head alone, or both when their
    keys are the same. *)
Fixpoint merge_walk {S} (only_a only_b : bytes * A → S → S) (both : bytes * A → bytes * A → S → S)
    (a : list (bytes * A)) : list (bytes * A) → S → S :=
  fix go (b : list (bytes * A)) (s : S) : S :=
    match a, b with
    | [], [] => s
    | x :: a, [] => merge_walk only_a only_b both a [] (only_a x s)
    | [], y :: b => go b (only_b y s)
    | x :: a, y :: b' =>
        match strcmp x.1 y.1 with
        | Lt => merge_walk only_a only_b both a b (only_a x s)
        | Gt => go b' (only_b y s)
        | Eq => merge_walk only_a only_b both a b' (both x y s)
        end
    end.

(** The outer join: each key with what it has in the two arrays. *)
Abbreviation joined := (bytes * (option A * option A))%type.

Fixpoint join (a : list (bytes * A)) : list (bytes * A) → list joined :=
  fix go (b : list (bytes * A)) : list joined :=
    match a, b with
    | [], [] => []
    | x :: a, [] => (x.1, (Some x.2, None)) :: join a []
    | [], y :: b => (y.1, (None, Some y.2)) :: go b
    | x :: a, y :: b' =>
        match strcmp x.1 y.1 with
        | Lt => (x.1, (Some x.2, None)) :: join a b
        | Gt => (y.1, (None, Some y.2)) :: go b'
        | Eq => (x.1, (Some x.2, Some y.2)) :: join a b'
        end
    end.

Lemma merge_walk_join {S} only_a only_b both a b (s : S) (step : S → joined → S) :
  (∀ x s, only_a x s = step s (x.1, (Some x.2, None))) → (∀ y s, only_b y s = step s (y.1, (None, Some y.2))) →
  (∀ x y s, x.1 = y.1 → both x y s = step s (x.1, (Some x.2, Some y.2))) →
  merge_walk only_a only_b both a b s = foldl step s (join a b).
Proof.
  intros Ha Hb Hab. revert b s. induction a as [|x a IHa]; intros b; induction b as [|y b IHb]; intros s.
  - done.
  - cbn. rewrite Hb. apply IHb.
  - cbn. rewrite Ha. apply IHa.
  - cbn. destruct (strcmp x.1 y.1) eqn:E; cbn.
    + rewrite Hab by by apply strcmp_eq. apply IHa.
    + rewrite Ha. apply IHa.
    + rewrite Hb. apply IHb.
Qed.

Lemma tmap_above k t : Forall (before k) t.*1 → tmap t !! k = None.
Proof.
  intros Hk. apply not_elem_of_list_to_map_1. intros Hin. rewrite Forall_forall in Hk.
  by apply (irreflexivity before k), Hk.
Qed.

Lemma sorted_cons x t : sorted (x :: t) → sorted t ∧ Forall (before x.1) t.*1.
Proof. intros H. by inversion H. Qed.

Lemma tmap_cons k x t : tmap (x :: t) !! k = if decide (x.1 = k) then Some x.2 else tmap t !! k.
Proof.
  unfold tmap. destruct x as [i v]. cbn. destruct (decide (i = k)) as [->|Hne]; [by rewrite lookup_insert_eq|by rewrite lookup_insert_ne].
Qed.

Lemma before_all x y (t : list bytes) : before x y → Forall (before y) t → Forall (before x) (y :: t).
Proof. intros H Ht. constructor; [done|]. eapply Forall_impl; [exact Ht|]. intros z. by apply strcmp_trans. Qed.

(** What a key has on both sides. *)
Definition sides (a b : list (bytes * A)) (k : bytes) : option A * option A := (tmap a !! k, tmap b !! k).

Lemma join_spec a b k o :
  sorted a → sorted b → (k, o) ∈ join a b ↔ o = sides a b k ∧ o ≠ (None, None).
Proof.
  unfold sides. revert b. induction a as [|x a IHa]; intros b Ha; induction b as [|y b IHb]; intros Hb.
  - cbn. split; [by intros ?%not_elem_of_nil|]. by intros [-> []].
  - apply sorted_cons in Hb as [Hb Hy]. cbn [join]. rewrite elem_of_cons, IHb by done. rewrite tmap_cons.
    case_decide as E; [subst k; rewrite (tmap_above y.1 b) by done|]; naive_solver.
  - apply sorted_cons in Ha as [Ha Hx]. cbn [join]. rewrite elem_of_cons, IHa by done. rewrite tmap_cons.
    case_decide as E; [subst k; rewrite (tmap_above x.1 a) by done|]; naive_solver.
  - pose proof (sorted_cons _ _ Ha) as [Ha' Hx]. pose proof (sorted_cons _ _ Hb) as [Hb' Hy]. cbn [join].
    destruct (strcmp x.1 y.1) eqn:E; rewrite elem_of_cons.
    + apply strcmp_eq in E. rewrite IHa by done. rewrite !tmap_cons, <- E. case_decide as Ek; [|naive_solver].
      subst k. rewrite (tmap_above x.1 a) by done. rewrite (tmap_above x.1 b) by by rewrite E. naive_solver.
    + rewrite IHa by done. rewrite (tmap_cons k x a). case_decide as Ek; [|naive_solver].
      subst k. rewrite (tmap_above x.1 a), (tmap_above x.1 (y :: b)) by (try done; by apply before_all). naive_solver.
    + apply before_gt in E. rewrite IHb by done. rewrite (tmap_cons k y b). case_decide as Ek; [|naive_solver].
      subst k. rewrite (tmap_above y.1 b), (tmap_above y.1 (x :: a)) by (try done; by apply before_all). naive_solver.
Qed.

Lemma join_sorted a b : sorted a → sorted b → StronglySorted before (join a b).*1.
Proof.
  assert (∀ a b k, sorted a → sorted b → Forall (before k) a.*1 → Forall (before k) b.*1 → Forall (before k) (join a b).*1) as Hall.
  { clear. intros a b k Ha Hb Hka Hkb. apply Forall_fmap, Forall_forall. intros [i o] Hin. apply join_spec in Hin as [Ho Hn]; [|done..]. cbn.
    destruct (tmap a !! i) as [v|] eqn:Ea.
    - apply tmap_elem in Ea; [|done]. rewrite Forall_forall in Hka. apply Hka. by apply (list_elem_of_fmap_2 fst _ (i, v)).
    - destruct (tmap b !! i) as [v|] eqn:Eb; [|unfold sides in Ho; rewrite Ea, Eb in Ho; done].
      apply tmap_elem in Eb; [|done]. rewrite Forall_forall in Hkb. apply Hkb. by apply (list_elem_of_fmap_2 fst _ (i, v)). }
  revert b. induction a as [|x a IHa]; intros b Ha; induction b as [|y b IHb]; intros Hb; [constructor|..].
  - apply sorted_cons in Hb as [Hb Hy]. cbn. constructor; [by apply IHb|]. by apply (Hall [] b).
  - apply sorted_cons in Ha as [Ha Hx]. cbn. constructor; [by apply IHa|]. by apply (Hall a []).
  - pose proof (sorted_cons _ _ Ha) as [Ha' Hx]. pose proof (sorted_cons _ _ Hb) as [Hb' Hy]. cbn [join].
    destruct (strcmp x.1 y.1) eqn:E; cbn; constructor.
    + by apply IHa.
    + apply strcmp_eq in E. apply Hall; try done. by rewrite E.
    + by apply IHa.
    + apply Hall; try done. by apply before_all.
    + by apply IHb.
    + apply before_gt in E. apply (Hall (x :: a) b); try done. by apply before_all.
Qed.

End table.

End SortedTable.
