(* ===== verification/Correlate.v ===== *)
(** * Escapes from a virtual file system

    [tools/correlate/match.c]: the normal form of paths, their order, the sets and
    the index of the inside stream, the classes of calls and the decision whether
    an event of the outside stream escaped, and [tools/correlate/correlate.c],
    which joins two trace files. [qsort] is an argument with the law of the C
    library: a sorted permutation, if the comparison orders the elements. *)

From stdpp Require Import sorting.
From S2P Require Import Prelude Libc Stdio Json JsonText PolicySig JsonBudget JsonRoundTrip JsonObject TraceStream SortedTable.

Module Correlate.

Import Libc Stdio Json JsonText TraceStream SortedTable.

(** ** Paths *)

Definition CORR_PATH_MAX : nat := 1024.

Definition backslash : ascii := "\".

Definition corr_is_path_like (s : bytes) : bool :=
  match s with
  | [] => false
  | c :: s' =>
      ceq c "/" || ceq c backslash || (isalpha c && ceq (deref s') ":")
      || bool_decide ("/"%char ∈ s) || bool_decide (backslash ∈ s)
  end.

(** The digits behind [HarddiskVolume]. *)
Fixpoint volume (v : bytes) (vol : Z) : Z * bytes :=
  match v with
  | c :: v' => if isdigit c then volume v' (vol * 10 + (uchar c - 48)) else (vol, v)
  | [] => (vol, [])
  end.

Fixpoint dec_digits (s : bytes) (acc : Z) : Z :=
  match s with
  | c :: s => if isdigit c then dec_digits s (acc * 10 + (uchar c - 48)) else acc
  | [] => acc
  end.

(** [atol] and [atoll]: white space, a sign, digits; the limits of the type where
    the number is out of its range. *)
Definition atol (s : bytes) : Z :=
  let s := skip isspace s in
  let v := if ceq (deref s) "-" then (- dec_digits (drop 1 s) 0)%Z
           else if ceq (deref s) "+" then dec_digits (drop 1 s) 0
           else dec_digits s 0 in
  Z.max (- 2 ^ 63) (Z.min v (2 ^ 63 - 1)).

Definition byte_of (z : Z) : ascii := ascii_of_N (Z.to_N z).

(** The prefix that replaces an NT form, and the rest of the path. *)
Definition strip_nt (p : bytes) : bytes * bytes :=
  if has_prefix (lit "\??\") p then ([], drop 4 p)
  else if has_prefix (lit "//?/") p && negb (ceq (char_at p 4) NUL) && negb (ceq (char_at p 4) "/") then ([], drop 4 p)
  else if has_prefix (lit "\\?\") p then ([], drop 4 p)
  else if has_prefix (lit "\Device\HarddiskVolume") p then
    let '(vol, v) := volume (drop 22 p) 0 in
    if ((1 <=? vol) && (vol <=? 26))%Z then ([byte_of (65 + vol - 1); ":"%char], v) else ([], v)
  else ([], p).

Definition unify_slash (c : ascii) : ascii := if ceq c backslash then "/"%char else c.

(** The last character dropped if it is a slash and not the whole path. *)
Definition drop_slash (out : bytes) : bytes :=
  if (1 <? length out) && ceq (List.last out NUL) "/" then take (length out - 1) out else out.

Definition corr_normalize (s : bytes) (outsz : nat) : option bytes :=
  let '(drive, p) := strip_nt s in
  if outsz <? length drive + length p + 1 then None
  else
    let out := drop_slash (drive ++ map unify_slash p) in
    if corr_is_path_like out then Some out else None.

Definition is_drive (s : bytes) : bool :=
  match s with c :: d :: _ => isalpha c && ceq d ":" | _ => false end.

Definition to_upper (c : ascii) : ascii := if islower c then byte_of (uchar c - 32) else c.

Definition corr_pathcmp (a b : bytes) : comparison :=
  if is_drive a && is_drive b then
    match Z.compare (uchar (to_upper (deref a))) (uchar (to_upper (deref b))) with
    | Eq => strcmp (drop 2 a) (drop 2 b)
    | r => r
    end
  else strcmp a b.

(** ** Sorting *)

(** What a comparison has to be on the elements of an array. *)
Definition orders {A} (cmp : A → A → comparison) (l : list A) : Prop :=
  (∀ a b, a ∈ l → b ∈ l → cmp b a = CompOpp (cmp a b)) ∧
  (∀ a b c, a ∈ l → b ∈ l → c ∈ l → cmp a b ≠ Gt → cmp b c ≠ Gt → cmp a c ≠ Gt).

Definition ascending {A} (cmp : A → A → comparison) (l : list A) : Prop := StronglySorted (λ a b, cmp a b ≠ Gt) l.

Class Qsort := {
  qsort {A} : (A → A → comparison) → list A → list A;
  qsort_sorts {A} (cmp : A → A → comparison) l : orders cmp l → qsort cmp l ≡ₚ l ∧ ascending cmp (qsort cmp l);
}.

(** ** Sets of paths *)

Abbreviation CorrSet := (list bytes).

Definition corr_set_add (s : CorrSet) (path : bytes) : CorrSet :=
  if existsb (λ i, bool_decide (corr_pathcmp i path = Eq)) s then s else s ++ [path].

Definition corr_set_finish `{Qsort} (s : CorrSet) : CorrSet :=
  if 1 <? length s then qsort corr_pathcmp s else s.

Definition path_at {A} (l : list A) (path_of : A → bytes) (path : bytes) (i : nat) : comparison :=
  match l !! i with Some e => corr_pathcmp (path_of e) path | None => Gt end.

Definition corr_set_contains (s : CorrSet) (path : bytes) : bool :=
  match bsearch (length s) (path_at s (λ x, x) path) 0 (length s) with inl _ => true | inr _ => false end.

(** ** Classes *)

Inductive CorrClass := CORR_CLS_NONE | CORR_CLS_PROBE | CORR_CLS_READ | CORR_CLS_WRITE.

#[export] Instance CorrClass_eq_dec : EqDecision CorrClass.
Proof. solve_decision. Defined.

Definition fold (bufsz : nat) (s : bytes) : bytes := take (bufsz - 1) (map tolower s).

Definition name_in (func : bytes) (names : list string) : bool := existsb (λ n, streq func (lit n)) names.

Definition g_probe_funcs : list string :=
  ["queryopen"; "getfileattributesw"; "getfileattributesa"; "ntqueryattributesfile"; "stat"; "lstat"; "fstatat";
   "access"; "faccessat"; "stat64"]%string.

Definition g_write_funcs : list string :=
  ["writefile"; "ntwritefile"; "deletefilew"; "deletefilea"; "movefilew"; "movefileexw"; "copyfilew"; "rename"; "unlink";
   "rmdir"; "truncate"; "ftruncate"; "mkdir"; "mkdirat"; "creat"]%string.

Definition is_some {A} (o : option A) : bool := match o with Some _ => true | None => false end.

Definition corr_classify (func detail : option bytes) : CorrClass :=
  match func with
  | None | Some [] => CORR_CLS_NONE
  | Some func =>
      let folded := fold 128 func in
      if name_in folded g_probe_funcs then CORR_CLS_PROBE
      else if name_in folded g_write_funcs then CORR_CLS_WRITE
      else
        match detail with
        | None => CORR_CLS_READ
        | Some detail =>
            let d := fold 256 detail in
            if (streq folded (lit "createfile") || streq folded (lit "ntcreatefile")) && is_some (strstr d (lit "write"))
            then CORR_CLS_WRITE
            else if streq folded (lit "fopen") && (is_some (strchr d "w") || is_some (strchr d "a"))
            then CORR_CLS_WRITE
            else CORR_CLS_READ
        end
  end.

Definition corr_class_str (c : CorrClass) : bytes :=
  match c with
  | CORR_CLS_PROBE => lit "probe"
  | CORR_CLS_READ => lit "read"
  | CORR_CLS_WRITE => lit "write"
  | CORR_CLS_NONE => lit "none"
  end.

(** ** The index of the inside stream *)

Section index.
Context `{Qsort} (out_of_range : double → Z).

Notation d_i64 := (PolicySig.d_i64 out_of_range).

Record CorrRec := mkRec { rec_path : bytes; rec_pid : Z; rec_time : double }.

Record CorrIndex := mkIndex { recs : list CorrRec; set : CorrSet }.

Definition corr_index_init : CorrIndex := mkIndex [] [].

Definition index_add_record (pid : Z) (t : double) (idx : CorrIndex) (path : bytes) : CorrIndex :=
  mkIndex (recs idx ++ [mkRec path pid t]) (corr_set_add (set idx) path).

(** The paths [walk_paths] gives to its sink, in order. *)
Fixpoint walk_paths (v : JSON_Value) : list bytes :=
  match v with
  | JSONString s =>
      if corr_is_path_like s then
        match corr_normalize s CORR_PATH_MAX with Some p => [p] | None => [] end
      else []
  | JSONObject o =>
      (fix members (o : JSON_Object) : list bytes := match o with [] => [] | (_, v) :: o => walk_paths v ++ members o end) o
  | JSONArray a =>
      (fix items (a : JSON_Array) : list bytes := match a with [] => [] | v :: a => walk_paths v ++ items a end) a
  | _ => []
  end.

Definition corr_index_add_entry (entry : JSON_Object) (idx : CorrIndex) : CorrIndex :=
  let pid := d_i64 (json_object_get_number (Some entry) "pid") in
  let t := json_object_get_number (Some entry) "time" in
  foldl (index_add_record pid t) idx (walk_paths (JSONObject entry)).

Definition d_cmp (a b : double) : comparison :=
  let e := Z.min (d_exp a) (d_exp b) in
  Z.compare (d_man a * 2 ^ (d_exp a - e)) (d_man b * 2 ^ (d_exp b - e)).

Definition cmp_rec (a b : CorrRec) : comparison :=
  match corr_pathcmp (rec_path a) (rec_path b) with
  | Eq => d_cmp (rec_time a) (rec_time b)
  | r => r
  end.

Definition corr_index_finish (idx : CorrIndex) : CorrIndex :=
  mkIndex (if 1 <? length (recs idx) then qsort cmp_rec (recs idx) else recs idx) (corr_set_finish (set idx)).

(** ** The decision *)

Definition pid_covers (rec_pid pid : Z) : bool := (rec_pid =? 0)%Z || (pid =? 0)%Z || (rec_pid =? pid)%Z.

Definition d_opp (d : double) : double := mkDouble (- d_man d) (d_exp d).

Definition d_positive (d : double) : bool := (0 <? d_man d)%Z.

Definition in_time (r : CorrRec) (t window : double) : bool :=
  if d_positive window then
    let d := d_add (rec_time r) (d_opp t) in
    let d := if (d_man d <? 0)%Z then d_opp d else d in
    d_leb d window
  else true.

(** The loop over the records of the path. *)
Fixpoint covered_from (l : list CorrRec) (path : bytes) (pid : Z) (t window : double) : bool :=
  match l with
  | [] => false
  | r :: l =>
      match corr_pathcmp (rec_path r) path with
      | Eq =>
          if negb (pid_covers (rec_pid r) pid) then covered_from l path pid t window
          else if in_time r t window then true
          else covered_from l path pid t window
      | _ => false
      end
  end.

Definition covered (idx : CorrIndex) (path : bytes) (pid : Z) (t window : double) : bool :=
  if negb (corr_set_contains (set idx) path) then false
  else
    let n := length (recs idx) in
    let lo := lower_bound n (λ i, bool_decide (path_at (recs idx) rec_path path i = Lt)) 0 n in
    covered_from (drop lo (recs idx)) path pid t window.

Record CorrCriteria := mkCriteria { prefix : bytes; c_pid : Z; window : double; exclude_probes : bool }.

Record CorrEscape := mkEscape {
  esc_path : bytes; esc_func : option bytes; esc_tid : Z; esc_pid : Z; esc_time : double; esc_cls : CorrClass }.

(** The prefix is a directory above the path, or the path itself. *)
Definition under (prefix path : bytes) : bool :=
  has_prefix prefix path &&
  (ceq (char_at path (length prefix)) NUL || ceq (char_at path (length prefix)) "/").

(** The loop over the paths of the entry, with the test whether one is covered. *)
Fixpoint first_escape (cov : bytes → bool) (entry : JSON_Object) (c : CorrCriteria) (seen : list bytes) : option CorrEscape :=
  match seen with
  | [] => None
  | path :: seen =>
      if negb (under (prefix c) path) then first_escape cov entry c seen
      else if cov path then first_escape cov entry c seen
      else
        let msg := json_object_get_object (Some entry) "message" in
        let func := json_object_get_string msg "func" in
        let cls := corr_classify func (json_object_get_string msg "detail") in
        if exclude_probes c && bool_decide (cls = CORR_CLS_PROBE) then first_escape cov entry c seen
        else
          Some (mkEscape path func (d_i64 (json_object_get_number (Some entry) "tid"))
                  (d_i64 (json_object_get_number (Some entry) "pid")) (json_object_get_number (Some entry) "time") cls)
  end.

Definition corr_entry_is_escape (entry : JSON_Object) (c : CorrCriteria) (inside : CorrIndex) : option CorrEscape :=
  let pid := d_i64 (json_object_get_number (Some entry) "pid") in
  if negb (c_pid c =? 0)%Z && negb (c_pid c =? pid)%Z then None
  else
    let seen := foldl corr_set_add [] (walk_paths (JSONObject entry)) in
    first_escape (λ path, covered inside path pid (json_object_get_number (Some entry) "time") (window c)) entry c seen.

(** ** The tool *)

(** [corr_stream_scan] with a callback on the objects: the values it parses are
    objects. *)
Definition entries_of {DT : DoubleText} (text : bytes) : list JSON_Object :=
  omap (λ v, json_value_get_object (Some v)) (corr_stream_scan text).1.

Definition inside_index {DT : DoubleText} (text : bytes) : CorrIndex :=
  corr_index_finish (foldl (λ idx e, corr_index_add_entry e idx) corr_index_init (entries_of text)).

(** The escapes of the report, in order. *)
Definition report {DT : DoubleText} (inside outside : bytes) (c : CorrCriteria) : list CorrEscape :=
  omap (λ e, corr_entry_is_escape e c (inside_index inside)) (entries_of outside).

(** *** The command line *)

Record opts := mkOpts {
  inside_path : option bytes; outside_path : option bytes; prefix_arg : option bytes;
  o_pid : Z; o_window : double; o_probes : bool }.

(** [atof]; the doubles of the model are finite. *)
Context (atof : bytes → double).

Fixpoint parse_args (args : list bytes) (o : opts) : option opts :=
  match args with
  | [] => Some o
  | a :: args =>
      let flag :=
        if streq a (lit "--exclude-probes") then
          Some (mkOpts (inside_path o) (outside_path o) (prefix_arg o) (o_pid o) (o_window o) true)
        else if streq a (lit "--json") then Some o
        else None in
      match args with
      | v :: rest =>
          if streq a (lit "--inside") then
            parse_args rest (mkOpts (Some v) (outside_path o) (prefix_arg o) (o_pid o) (o_window o) (o_probes o))
          else if streq a (lit "--outside") then
            parse_args rest (mkOpts (inside_path o) (Some v) (prefix_arg o) (o_pid o) (o_window o) (o_probes o))
          else if streq a (lit "--prefix") then
            parse_args rest (mkOpts (inside_path o) (outside_path o) (Some v) (o_pid o) (o_window o) (o_probes o))
          else if streq a (lit "--pid") then
            parse_args rest (mkOpts (inside_path o) (outside_path o) (prefix_arg o) (atol v) (o_window o) (o_probes o))
          else if streq a (lit "--window") then
            parse_args rest (mkOpts (inside_path o) (outside_path o) (prefix_arg o) (o_pid o) (atof v) (o_probes o))
          else match flag with Some o => parse_args args o | None => None end
      | [] => flag
      end
  end.

(** The exit code and the escapes that are printed; [files] is what can be
    read. *)
Definition correlate_main {DT : DoubleText} (files : bytes → option bytes) (args : list bytes) : Z * list CorrEscape :=
  match parse_args args (mkOpts None None None 0 d_zero false) with
  | Some (mkOpts (Some inside) (Some outside) (Some pre) pid win probes) =>
      match corr_normalize pre CORR_PATH_MAX with
      | None => (2%Z, [])
      | Some norm =>
          match files inside, files outside with
          | Some inside, Some outside =>
              let escapes := report inside outside (mkCriteria norm pid win probes) in
              (if 0 <? length escapes then 1%Z else 0%Z, escapes)
          | _, _ => (2%Z, [])
          end
      end
  | _ => (2%Z, [])
  end.

End index.

(** ** The order of absolute paths *)

Definition absolute (p : bytes) : bool := ceq (deref p) "/" || is_drive p.

(** The key by which absolute paths are compared. *)
Definition fold_drive (p : bytes) : bytes := if is_drive p then to_upper (deref p) :: drop 1 p else p.

Definition letter_facts (c : ascii) : bool :=
  implb (isalpha c) ((47 <? uchar c)%Z && (47 <? uchar (to_upper c))%Z).

Lemma letter_facts_all c : letter_facts c = true.
Proof. by destruct c as [[] [] [] [] [] [] [] []]. Qed.

Lemma pathcmp_key a b :
  absolute a = true → absolute b = true → corr_pathcmp a b = strcmp (fold_drive a) (fold_drive b).
Proof.
  assert (∀ c r, is_drive (c :: r) = true → (47 < uchar c ∧ 47 < uchar (to_upper c))%Z) as Hl.
  { intros c [|d r] Hd; cbn in Hd; [done|]. apply andb_true_iff in Hd as [Hc _].
    pose proof (letter_facts_all c) as H. unfold letter_facts in H. rewrite Hc in H. cbn in H. bool_to_prop.
    split; by apply Z.ltb_lt. }
  unfold absolute, corr_pathcmp, fold_drive.
  destruct (is_drive a) eqn:Da, (is_drive b) eqn:Db; rewrite ?orb_true_r, ?orb_false_r; cbn [andb]; intros Ha Hb.
  - destruct a as [|c [|d a]], b as [|c' [|d' b]]; try done. cbn in Da, Db |- *. bool_to_prop. subst. by rewrite Z.compare_refl.
  - destruct a as [|c a]; [done|]. destruct b as [|c' b]; [by vm_compute in Hb|]. cbn in Hb. bool_to_prop. subst.
    destruct (Hl c a Da) as [H1 H2]. cbn [strcmp deref head default from_option id].
    change (uchar "/") with 47%Z. by rewrite !(proj2 (Z.compare_gt_iff _ _)).
  - destruct b as [|c b]; [done|]. destruct a as [|c' a]; [by vm_compute in Ha|]. cbn in Ha. bool_to_prop. subst.
    destruct (Hl c b Db) as [H1 H2]. cbn [strcmp deref head default from_option id].
    change (uchar "/") with 47%Z. by rewrite !(proj2 (Z.compare_lt_iff _ _)).
  - done.
Qed.

Lemma pathcmp_refl a : corr_pathcmp a a = Eq.
Proof. unfold corr_pathcmp. rewrite Z.compare_refl. destruct (_ && _); by apply strcmp_eq. Qed.

(** [strcmp] up to equality. *)
Lemma strcmp_le_trans a b c : strcmp a b ≠ Gt → strcmp b c ≠ Gt → strcmp a c ≠ Gt.
Proof.
  intros H1 H2 H. apply before_gt in H. destruct (strcmp a b) eqn:E1; [|destruct (strcmp b c) eqn:E2|done].
  - apply strcmp_eq in E1. subst. by apply H2, before_gt.
  - apply strcmp_eq in E2. subst. exact (before_asym _ _ E1 H).
  - exact (before_asym a c (strcmp_trans _ _ _ E1 E2) H).
  - done.
Qed.

Lemma pathcmp_orders l : Forall (λ p, absolute p = true) l → orders corr_pathcmp l.
Proof.
  intros Hl. rewrite Forall_forall in Hl. split.
  - intros a b Ha Hb. rewrite !pathcmp_key by by apply Hl. apply strcmp_antisym.
  - intros a b c Ha Hb Hc. rewrite !pathcmp_key by by apply Hl. apply strcmp_le_trans.
Qed.

(** ** The order of times *)

Lemma d_cmp_scale a b e : (e ≤ d_exp a)%Z → (e ≤ d_exp b)%Z →
  d_cmp a b = Z.compare (d_man a * 2 ^ (d_exp a - e)) (d_man b * 2 ^ (d_exp b - e)).
Proof.
  intros Ha Hb. unfold d_cmp. set (m := Z.min (d_exp a) (d_exp b)).
  assert (∀ d, (m ≤ d_exp d)%Z → (d_man d * 2 ^ (d_exp d - e) = d_man d * 2 ^ (d_exp d - m) * 2 ^ (m - e))%Z) as Hs.
  { intros d Hd. rewrite <- Z.mul_assoc, <- Z.pow_add_r by lia. do 2 f_equal. lia. }
  rewrite (Hs a), (Hs b) by lia. apply Zmult_compare_compat_r with (p := (2 ^ (m - e))%Z). apply Z.lt_gt, Z.pow_pos_nonneg; lia.
Qed.

Lemma d_cmp_antisym a b : d_cmp b a = CompOpp (d_cmp a b).
Proof. unfold d_cmp. rewrite (Z.min_comm (d_exp b)). apply Z.compare_antisym. Qed.

Lemma d_cmp_le_trans a b c : d_cmp a b ≠ Gt → d_cmp b c ≠ Gt → d_cmp a c ≠ Gt.
Proof.
  set (e := Z.min (d_exp a) (Z.min (d_exp b) (d_exp c))).
  rewrite (d_cmp_scale a b e), (d_cmp_scale b c e), (d_cmp_scale a c e) by lia.
  rewrite !Z.compare_le_iff. lia.
Qed.

Lemma cmp_rec_orders l : Forall (λ r, absolute (rec_path r) = true) l → orders cmp_rec l.
Proof.
  intros Hl. rewrite Forall_forall in Hl. unfold cmp_rec. split.
  - intros a b Ha Hb. rewrite !pathcmp_key by by apply Hl. rewrite (strcmp_antisym (fold_drive (rec_path a))).
    destruct (strcmp _ _); [apply d_cmp_antisym|done..].
  - intros a b c Ha Hb Hc. rewrite !pathcmp_key by by apply Hl.
    destruct (strcmp (fold_drive (rec_path a)) (fold_drive (rec_path b))) eqn:E1; [|intros _|done].
    + apply strcmp_eq in E1. rewrite E1. destruct (strcmp _ (fold_drive (rec_path c))); [apply d_cmp_le_trans|done..].
    + destruct (strcmp (fold_drive (rec_path b)) (fold_drive (rec_path c))) eqn:E2; [intros _|intros _|done].
      * apply strcmp_eq in E2. rewrite <- E2, E1. done.
      * by rewrite (strcmp_trans _ _ _ E1 E2).
Qed.

(** ** Searching a sorted array of paths *)

Section search.
Context {A : Type} (path_of : A → bytes).

Notation key e := (fold_drive (path_of e)).

Definition keys_ascend (l : list A) : Prop := StronglySorted (λ a b, strcmp (key a) (key b) ≠ Gt) l.
Definition all_absolute (l : list A) : Prop := Forall (λ e, absolute (path_of e) = true) l.

Lemma keys_lookup l i j a b : keys_ascend l → l !! i = Some a → l !! j = Some b → i < j → strcmp (key a) (key b) ≠ Gt.
Proof.
  unfold keys_ascend. revert i j. induction l as [|e l IH]; intros i j Hs Hi Hj Hlt; [done|].
  apply StronglySorted_inv in Hs as [Hs He]. destruct j as [|j]; [lia|]. cbn in Hj. destruct i as [|i]; cbn in Hi.
  - simplify_eq. rewrite Forall_forall in He. apply He. by eapply list_elem_of_lookup_2.
  - apply (IH i j); [done..|lia].
Qed.

Lemma path_at_key l path i e :
  all_absolute l → absolute path = true → l !! i = Some e → path_at l path_of path i = strcmp (key e) (fold_drive path).
Proof.
  intros Hl Hp Hi. unfold path_at. rewrite Hi. apply pathcmp_key; [|done]. by apply (Forall_lookup_1 _ _ _ _ Hl Hi).
Qed.

(** Where an element of the key is. *)
Lemma lower_bound_key l path (n := length l) (p := lower_bound n (λ i, bool_decide (path_at l path_of path i = Lt)) 0 n) :
  keys_ascend l → all_absolute l → absolute path = true →
  p ≤ n ∧ (∀ i e, l !! i = Some e → i < p → strcmp (key e) (fold_drive path) = Lt) ∧
  ∀ i e, l !! i = Some e → p ≤ i → strcmp (key e) (fold_drive path) ≠ Lt.
Proof.
  intros Hs Hl Hp. destruct (lower_bound_spec n (λ i, bool_decide (path_at l path_of path i = Lt)) 0 n n) as (H1 & H2 & H3);
    [lia|lia| |lia|lia|].
  - intros i j Hij Hj Hb. apply bool_decide_eq_true in Hb. apply bool_decide_eq_true.
    destruct (lookup_lt_is_Some_2 l i ltac:(unfold n in *; lia)) as [a Ea]. destruct (lookup_lt_is_Some_2 l j Hj) as [b Eb].
    rewrite (path_at_key l path j b) in Hb by done. rewrite (path_at_key l path i a) by done.
    pose proof (keys_lookup l i j a b Hs Ea Eb Hij) as Hab.
    destruct (strcmp (key a) (key b)) eqn:E; [|by apply (strcmp_trans _ (key b))|done]. apply strcmp_eq in E. by rewrite E.
  - split; [done|]. split; intros i e He Hi.
    + specialize (H2 i Hi). apply bool_decide_eq_true in H2. by rewrite (path_at_key l path i e) in H2.
    + specialize (H3 i Hi (lookup_lt_Some _ _ _ He)). apply bool_decide_eq_false in H3. by rewrite (path_at_key l path i e) in H3.
Qed.

End search.

Lemma ascending_keys l : Forall (λ p, absolute p = true) l → ascending corr_pathcmp l → keys_ascend (λ p, p) l.
Proof.
  intros Hl. unfold ascending, keys_ascend. induction 1 as [|a l _ IH Ha]; constructor.
  - apply IH. by inversion Hl.
  - inversion_clear Hl. rewrite Forall_forall in *. intros b Hb. rewrite <- pathcmp_key by auto. by apply Ha.
Qed.

(** Without duplicates the order is strict. *)
Lemma keys_strict s path :
  keys_ascend (λ p, p) s → NoDup (fold_drive <$> s) → Forall (λ p, absolute p = true) s → absolute path = true →
  ∀ i j, i < j → j < length s → path_at s (λ x, x) path j ≠ Gt → path_at s (λ x, x) path i = Lt.
Proof.
  intros Hasc Hn Habs Hp i j Hij Hj Hc.
  destruct (lookup_lt_is_Some_2 s i ltac:(lia)) as [a Ea]. destruct (lookup_lt_is_Some_2 s j Hj) as [b Eb].
  rewrite (path_at_key (λ x, x) s path j b) in Hc by done. rewrite (path_at_key (λ x, x) s path i a) by done.
  pose proof (keys_lookup (λ x, x) s i j a b Hasc Ea Eb Hij) as Hab. cbn in Hab.
  destruct (strcmp (fold_drive a) (fold_drive b)) eqn:E; [exfalso| |done].
  - apply strcmp_eq in E. assert (i = j); [|lia]. apply (NoDup_lookup _ i j (fold_drive a) Hn); rewrite list_lookup_fmap.
    + by rewrite Ea.
    + by rewrite Eb, E.
  - destruct (strcmp (fold_drive b) (fold_drive path)) eqn:E2; [|by apply (strcmp_trans _ (fold_drive b))|done].
    apply strcmp_eq in E2. by rewrite <- E2.
Qed.

Section finished.
Context `{QS : Qsort}.

Lemma set_finished s :
  Forall (λ p, absolute p = true) s →
  corr_set_finish s ≡ₚ s ∧ keys_ascend (λ p, p) (corr_set_finish s) ∧ Forall (λ p, absolute p = true) (corr_set_finish s).
Proof.
  intros Hs. unfold corr_set_finish. destruct (Nat.ltb_spec 1 (length s)).
  - destruct (qsort_sorts corr_pathcmp s (pathcmp_orders s Hs)) as [Hp Ha].
    assert (Forall (λ p, absolute p = true) (qsort corr_pathcmp s)) as Hf by by rewrite Hp.
    split; [done|]. split; [by apply ascending_keys|done].
  - split; [done|]. split; [|done]. destruct s as [|a [|b s]]; cbn in *; [constructor|repeat constructor|lia].
Qed.

(** Membership in a finished set. *)
Lemma set_contains s path :
  NoDup (fold_drive <$> s) → Forall (λ p, absolute p = true) s → absolute path = true →
  corr_set_contains (corr_set_finish s) path = true ↔ fold_drive path ∈ fold_drive <$> s.
Proof.
  intros Hn Hs Hp. destruct (set_finished s Hs) as (Hperm & Hasc & Habs).
  set (s' := corr_set_finish s) in *. clearbody s'.
  assert (NoDup (fold_drive <$> s')) as Hn' by by rewrite Hperm.
  assert (∀ i e, s' !! i = Some e → path_at s' (λ x, x) path i = strcmp (fold_drive e) (fold_drive path)) as Hat.
  { intros i e He. by apply (path_at_key (λ x, x)). }
  rewrite <- Hperm. unfold corr_set_contains.
  pose proof (bsearch_spec (length s') (path_at s' (λ x, x) path) 0 (length s') (length s') ltac:(lia) ltac:(lia)
    (keys_strict s' path Hasc Hn' Habs Hp) ltac:(lia) ltac:(lia)) as H.
  destruct (bsearch _ _ _ _) as [i|p].
  - destruct H as [Hi Hc]. split; [intros _|done]. destruct (lookup_lt_is_Some_2 s' i Hi) as [e He].
    rewrite (Hat i e He) in Hc. apply strcmp_eq in Hc. rewrite <- Hc. apply list_elem_of_fmap.
    exists e. split; [done|]. by eapply list_elem_of_lookup_2.
  - destruct H as (_ & Hlo & Hhi). split; [done|]. intros Hin. exfalso.
    apply list_elem_of_fmap in Hin as (e & He & Hin). apply list_elem_of_lookup in Hin as [i Hi].
    assert (path_at s' (λ x, x) path i = Eq) as HE by (rewrite (Hat i e Hi); by apply strcmp_eq).
    destruct (decide (i < p)); [by rewrite Hlo in HE|]. rewrite Hhi in HE; [done|lia|by eapply lookup_lt_Some].
Qed.

(** ** The index *)

Context (out_of_range : double → Z).

Notation d_i64 := (PolicySig.d_i64 out_of_range).

Record idx_ok (idx : CorrIndex) : Prop := {
  ok_nodup : NoDup (fold_drive <$> set idx);
  ok_set : Forall (λ p, absolute p = true) (set idx);
  ok_recs : Forall (λ r, absolute (rec_path r) = true) (recs idx);
  ok_same : ∀ k, k ∈ fold_drive <$> set idx ↔ k ∈ (λ r, fold_drive (rec_path r)) <$> recs idx;
}.

Lemma init_ok : idx_ok corr_index_init.
Proof. split; cbn; [constructor|constructor|constructor|done]. Qed.

Lemma add_record_ok pid t idx path : absolute path = true → idx_ok idx → idx_ok (index_add_record pid t idx path).
Proof.
  intros Hp [Hn Hs Hr Hk]. unfold index_add_record, corr_set_add.
  assert (existsb (λ i, bool_decide (corr_pathcmp i path = Eq)) (set idx) = true ↔ fold_drive path ∈ fold_drive <$> set idx) as He.
  { rewrite existsb_exists, list_elem_of_fmap. rewrite Forall_forall in Hs. split.
    - intros (x & Hx & E). apply list_elem_of_In in Hx. apply bool_decide_eq_true in E. exists x.
      rewrite pathcmp_key in E by auto. apply strcmp_eq in E. done.
    - intros (x & E & Hx). exists x. rewrite <- list_elem_of_In. split; [done|]. apply bool_decide_eq_true.
      rewrite pathcmp_key by auto. by apply strcmp_eq. }
  destruct (existsb _ _) eqn:E; split; cbn [set recs]; try done.
  - by apply Forall_app; split; [|by apply Forall_singleton].
  - intros k. rewrite Hk, fmap_app, elem_of_app. cbn. rewrite list_elem_of_singleton. split; [by left|].
    intros [H| ->]; [done|]. rewrite <- Hk. by apply He.
  - rewrite fmap_app. cbn. apply NoDup_app. split; [done|]. split; [|apply NoDup_singleton].
    intros k Hk' ->%list_elem_of_singleton. by apply He in Hk'.
  - by apply Forall_app; split; [|by apply Forall_singleton].
  - by apply Forall_app; split; [|by apply Forall_singleton].
  - intros k. rewrite !fmap_app, !elem_of_app, Hk. cbn. by rewrite !list_elem_of_singleton.
Qed.

(** The records of an entry. *)
Definition entry_records (e : JSON_Object) : list CorrRec :=
  (λ p, mkRec p (d_i64 (json_object_get_number (Some e) "pid")) (json_object_get_number (Some e) "time"))
    <$> walk_paths (JSONObject e).

Definition absolute_entry (e : JSON_Object) : Prop := Forall (λ p, absolute p = true) (walk_paths (JSONObject e)).

Lemma add_records_ok pid t ps idx :
  Forall (λ p, absolute p = true) ps → idx_ok idx →
  idx_ok (foldl (index_add_record pid t) idx ps) ∧
  recs (foldl (index_add_record pid t) idx ps) = recs idx ++ ((λ p, mkRec p pid t) <$> ps).
Proof.
  intros Hps. revert idx. induction Hps as [|p ps Hp _ IH]; intros idx Hi; cbn [foldl]; [by rewrite app_nil_r|].
  destruct (IH _ (add_record_ok pid t idx p Hp Hi)) as [H1 H2]. split; [done|]. rewrite H2. cbn. by rewrite <- app_assoc.
Qed.

Lemma add_entries_ok es idx :
  Forall absolute_entry es → idx_ok idx →
  idx_ok (foldl (λ idx e, corr_index_add_entry out_of_range e idx) idx es) ∧
  recs (foldl (λ idx e, corr_index_add_entry out_of_range e idx) idx es) = recs idx ++ (es ≫= entry_records).
Proof.
  intros Hes. revert idx. induction Hes as [|e es He _ IH]; intros idx Hi; cbn [foldl]; [by rewrite app_nil_r|].
  destruct (add_records_ok (d_i64 (json_object_get_number (Some e) "pid")) (json_object_get_number (Some e) "time") _ idx He Hi) as [H1 H2].
  destruct (IH _ H1) as [H3 H4]. split; [exact H3|]. etransitivity; [exact H4|].
  unfold corr_index_add_entry. rewrite H2. cbn [mbind list_bind]. by rewrite <- app_assoc.
Qed.

(** ** Coverage *)

(** Some record of the same path, of a process that covers and in time. *)
Definition covered_by (records : list CorrRec) (path : bytes) (pid : Z) (t window : double) : bool :=
  existsb (λ r, bool_decide (fold_drive (rec_path r) = fold_drive path) && pid_covers (rec_pid r) pid && in_time r t window) records.

Lemma rec_keys l : Forall (λ r, absolute (rec_path r) = true) l → ascending cmp_rec l → keys_ascend rec_path l.
Proof.
  intros Hl. unfold ascending, keys_ascend. induction 1 as [|a l _ IH Ha]; constructor.
  - apply IH. by inversion Hl.
  - inversion_clear Hl. rewrite Forall_forall in *. intros b Hb. specialize (Ha b Hb). unfold cmp_rec in Ha.
    rewrite pathcmp_key in Ha by auto. by destruct (strcmp _ _).
Qed.

Lemma recs_finished idx :
  idx_ok idx →
  recs (corr_index_finish idx) ≡ₚ recs idx ∧ keys_ascend rec_path (recs (corr_index_finish idx)) ∧
  Forall (λ r, absolute (rec_path r) = true) (recs (corr_index_finish idx)).
Proof.
  intros [_ _ Hr _]. unfold corr_index_finish. cbn [recs]. destruct (Nat.ltb_spec 1 (length (recs idx))).
  - destruct (qsort_sorts cmp_rec (recs idx) (cmp_rec_orders _ Hr)) as [Hp Ha].
    assert (Forall (λ r, absolute (rec_path r) = true) (qsort cmp_rec (recs idx))) as Hf by by rewrite Hp.
    split; [done|]. split; [by apply rec_keys|done].
  - split; [done|]. split; [|done]. destruct (recs idx) as [|a [|b l]]; cbn in *; [constructor|repeat constructor|lia].
Qed.

(** The loop stops at the first record of another path; none of those behind it
    has the path. *)
Lemma covered_from_spec l path pid t w :
  keys_ascend rec_path l → Forall (λ r, absolute (rec_path r) = true) l → absolute path = true →
  (∀ r, r ∈ l → strcmp (fold_drive (rec_path r)) (fold_drive path) ≠ Lt) →
  covered_from l path pid t w = covered_by l path pid t w.
Proof.
  intros Hs Hl Hp Hlo. unfold keys_ascend in Hs. induction Hs as [|r l Hs IH Hr]; [done|].
  inversion_clear Hl. cbn [covered_from]. unfold covered_by. cbn [existsb]. fold (covered_by l path pid t w).
  rewrite pathcmp_key by done. pose proof (Hlo r ltac:(by left)) as Hr0.
  assert (covered_from l path pid t w = covered_by l path pid t w) as IH'.
  { apply IH; [done|]. intros r' Hr'. apply Hlo. by right. }
  destruct (strcmp (fold_drive (rec_path r)) (fold_drive path)) eqn:E; [|done|].
  - apply strcmp_eq in E. rewrite bool_decide_true by done. rewrite IH'.
    destruct (pid_covers _ _); cbn [negb andb orb]; [|done]. by destruct (in_time r t w).
  - rewrite bool_decide_false by (intros H'; apply strcmp_eq in H'; congruence). cbn [andb orb]. symmetry.
    apply not_true_iff_false. unfold covered_by. rewrite existsb_exists. intros (r' & Hin & Hb).
    apply list_elem_of_In in Hin. bool_to_prop. rewrite Forall_forall in Hr. specialize (Hr r' Hin). cbn in Hr.
    apply before_gt in E. match goal with H : fold_drive (rec_path r') = _ |- _ => rewrite H in Hr end.
    apply Hr, before_gt. done.
Qed.

Lemma covered_spec idx path pid t w :
  idx_ok idx → absolute path = true →
  covered (corr_index_finish idx) path pid t w = covered_by (recs idx) path pid t w.
Proof.
  intros Hi Hp. destruct (recs_finished idx Hi) as (Hperm & Hasc & Habs).
  assert (covered_by (recs idx) path pid t w = covered_by (recs (corr_index_finish idx)) path pid t w) as ->.
  { unfold covered_by. apply eq_true_iff_eq. rewrite !existsb_exists. split; intros (r & Hr & Hb); exists r;
      (split; [|done]); apply list_elem_of_In; apply list_elem_of_In in Hr; by rewrite ?Hperm in *. }
  unfold covered. change (set (corr_index_finish idx)) with (corr_set_finish (set idx)).
  pose proof (set_contains (set idx) path (ok_nodup _ Hi) (ok_set _ Hi) Hp) as Hc.
  destruct (corr_set_contains _ _); cbn [negb].
  - destruct (lower_bound_key rec_path _ path Hasc Habs Hp) as (Hle & Hlo & Hhi).
    set (lo := lower_bound _ _ _ _) in *. set (l := recs (corr_index_finish idx)) in *.
    rewrite covered_from_spec; [| | |done|].
    + unfold covered_by. rewrite <- (take_drop lo l) at 2. rewrite existsb_app.
      assert (existsb (λ r, bool_decide (fold_drive (rec_path r) = fold_drive path) && pid_covers (rec_pid r) pid && in_time r t w) (take lo l) = false) as ->; [|done].
      apply not_true_iff_false. rewrite existsb_exists. intros (r & Hin & Hb). apply list_elem_of_In in Hin. bool_to_prop.
      apply elem_of_take in Hin as (i & Hr & Hlt). specialize (Hlo i r Hr Hlt).
      match goal with H : fold_drive (rec_path r) = _ |- _ => apply strcmp_eq in H; congruence end.
    + unfold keys_ascend in *. rewrite <- (take_drop lo l) in Hasc. clear -Hasc. induction (take lo l) as [|x xs IH]; [done|].
      apply IH. by apply StronglySorted_inv in Hasc as [].
    + by apply Forall_drop.
    + intros r Hin. apply list_elem_of_lookup in Hin as [i Hr]. rewrite lookup_drop in Hr. apply (Hhi (lo + i)); [done|lia].
  - symmetry. apply not_true_iff_false. intros Hb. assert (false = true); [|done]. apply Hc, (ok_same _ Hi).
    unfold covered_by in Hb. apply existsb_exists in Hb as (r & Hin & Hb). apply list_elem_of_In in Hin. bool_to_prop.
    apply list_elem_of_fmap. exists r. split; [done|]. by rewrite <- Hperm.
Qed.

(** ** The decision *)

Lemma under_absolute pre path : absolute pre = true → under pre path = true → absolute path = true.
Proof.
  unfold under. intros Ha [Hp _]%andb_true_iff. apply has_prefix_spec in Hp as [r ->].
  unfold absolute in *. destruct pre as [|c pre]; [by vm_compute in Ha|]. cbn [app deref head default from_option id] in *.
  apply orb_true_iff in Ha as [Ha|Ha]; [by rewrite Ha|]. destruct pre as [|d pre]; [done|]. cbn in *. by rewrite Ha, orb_true_r.
Qed.

Lemma pathcmp_eq_key a b : corr_pathcmp a b = Eq → fold_drive a = fold_drive b.
Proof.
  unfold corr_pathcmp, fold_drive. destruct (is_drive a) eqn:Da, (is_drive b) eqn:Db; cbn [andb].
  all: try (intros ->%strcmp_eq; congruence).
  destruct a as [|c [|d a]], b as [|c' [|d' b]]; try done. cbn in *. bool_to_prop. subst.
  destruct (Z.compare_spec (uchar (to_upper c)) (uchar (to_upper c'))) as [E| |]; try done.
  intros E'%strcmp_eq. rewrite !drop_0 in E'. by rewrite (uchar_same _ _ E), E'.
Qed.

(** The paths of an entry whose drive letters are capitals are all looked at. *)
Lemma seen_paths ps acc p :
  Forall (λ p, fold_drive p = p) (acc ++ ps) → p ∈ foldl corr_set_add acc ps ↔ p ∈ acc ∨ p ∈ ps.
Proof.
  revert acc. induction ps as [|q ps IH]; intros acc Hf; cbn [foldl].
  { split; [by left|]. intros [H|H]; [done|by apply not_elem_of_nil in H]. }
  assert (Forall (λ p, fold_drive p = p) (corr_set_add acc q ++ ps)) as Hf'.
  { apply Forall_app in Hf as [H1 H2]. inversion_clear H2. unfold corr_set_add. destruct (existsb _ _); apply Forall_app; [done|].
    split; [|done]. apply Forall_app. split; [done|by apply Forall_singleton]. }
  rewrite IH by done. rewrite elem_of_cons. unfold corr_set_add. destruct (existsb _ _) eqn:E.
  - split; [tauto|]. intros [H|[->|H]]; [by left| |by right]. left.
    apply existsb_exists in E as (x & Hx & E). apply list_elem_of_In in Hx. apply bool_decide_eq_true in E.
    apply pathcmp_eq_key in E. rewrite Forall_forall in Hf.
    rewrite (Hf x), (Hf q) in E; [by subst| |]; apply elem_of_app; [right; by left|by left].
  - rewrite elem_of_app, list_elem_of_singleton. tauto.
Qed.

(** A probe that the report leaves out. *)
Definition left_out (c : CorrCriteria) (entry : JSON_Object) : bool :=
  let msg := json_object_get_object (Some entry) "message" in
  exclude_probes c && bool_decide (corr_classify (json_object_get_string msg "func") (json_object_get_string msg "detail") = CORR_CLS_PROBE).

Lemma first_escape_spec cov entry c seen :
  match first_escape out_of_range cov entry c seen with
  | Some e => esc_path e ∈ seen ∧ under (prefix c) (esc_path e) = true ∧ cov (esc_path e) = false ∧ left_out c entry = false
  | None => left_out c entry = true ∨ ∀ p, p ∈ seen → under (prefix c) p = true → cov p = true
  end.
Proof.
  induction seen as [|p seen IH]; cbn [first_escape]; [right; by intros p ?%not_elem_of_nil|].
  fold (left_out c entry). set (r := first_escape out_of_range cov entry c seen) in *.
  assert (under (prefix c) p = false ∨ cov p = true ∨ left_out c entry = true →
    match r with
    | Some e => esc_path e ∈ p :: seen ∧ under (prefix c) (esc_path e) = true ∧ cov (esc_path e) = false ∧ left_out c entry = false
    | None => left_out c entry = true ∨ ∀ q, q ∈ p :: seen → under (prefix c) q = true → cov q = true
    end) as Hskip.
  { intros Hp. destruct r as [e|].
    - destruct IH as (? & ? & ? & ?). split_and!; try done. by right.
    - destruct IH as [IH|IH]; [by left|]. destruct Hp as [Hp|[Hp|Hp]]; [right|right|by left];
        intros q [->|Hq]%elem_of_cons Hu; try congruence; by apply IH. }
  destruct (under (prefix c) p) eqn:Hu; cbn [negb]; [|apply Hskip; by left].
  destruct (cov p) eqn:Hc; [apply Hskip; by right; left|].
  destruct (left_out c entry) eqn:Ho; [apply Hskip; by right; right|].
  split_and!; try done. by left.
Qed.

(** The path is the directory, or in it or below it. *)
Definition below (dir path : bytes) : Prop :=
  path = dir ∨ ∃ rest, path = (if decide (dir = lit "/") then dir else dir ++ lit "/") ++ rest.

Lemma under_below pre path : no_nul path → pre ≠ lit "/" → under pre path = true ↔ below pre path.
Proof.
  intros Hn Hpre. unfold under, below. rewrite andb_true_iff, orb_true_iff, has_prefix_spec, decide_False by done.
  split.
  - intros [[r ->] Hc]. destruct r as [|c r]; [left; by rewrite app_nil_r|right].
    unfold char_at in Hc. rewrite lookup_app_r, Nat.sub_diag in Hc by done. cbn in Hc.
    destruct Hc as [->%ceq_true| ->%ceq_true]; [|exists r; by rewrite <- app_assoc].
    apply Forall_app in Hn as [_ Hn]. by inversion Hn.
  - intros [->|[rest ->]].
    + split; [by exists []; rewrite app_nil_r|]. left. unfold char_at. by rewrite lookup_ge_None_2.
    + rewrite <- app_assoc. split; [by eexists|]. right. unfold char_at. by rewrite lookup_app_r, Nat.sub_diag.
Qed.

(** The event is one of the processes that are looked at. *)
Definition pid_wanted (c : CorrCriteria) (entry : JSON_Object) : Prop :=
  c_pid c = 0%Z ∨ c_pid c = d_i64 (json_object_get_number (Some entry) "pid").

(** C18 (equivalence). The decision over the sorted and searched index is the
    comparison with all records of the inside stream: an escape that is reported
    is a path of an event of a process that is looked at, at or below the prefix,
    which no inside record of a covering process in the window has; and an event
    without report has none such, unless it is a probe and probes are left out.
    This is so if every string of the inside stream that looks like a path is
    absolute, if the prefix is absolute and not the root directory, and if the
    drive letters in the event are capitals. *)
Theorem correlate_exact inside c entry :
  Forall absolute_entry inside → absolute (prefix c) = true → prefix c ≠ lit "/" →
  Forall (λ p, fold_drive p = p ∧ no_nul p) (walk_paths (JSONObject entry)) →
  let idx := corr_index_finish (foldl (λ idx e, corr_index_add_entry out_of_range e idx) corr_index_init inside) in
  let escapes p := pid_wanted c entry ∧ p ∈ walk_paths (JSONObject entry) ∧ below (prefix c) p ∧
    covered_by (inside ≫= entry_records) p (d_i64 (json_object_get_number (Some entry) "pid"))
      (json_object_get_number (Some entry) "time") (window c) = false in
  match corr_entry_is_escape out_of_range entry c idx with
  | Some e => escapes (esc_path e) ∧ left_out c entry = false
  | None => left_out c entry = true ∨ ∀ p, ¬ escapes p
  end.
Proof.
  intros Hin Hpre Hroot Hcap idx escapes. unfold corr_entry_is_escape.
  destruct (negb (c_pid c =? 0)%Z && negb (c_pid c =? d_i64 (json_object_get_number (Some entry) "pid"))%Z) eqn:Epid.
  { right. intros p ([H|H] & _); rewrite H, Z.eqb_refl in Epid; [done|by rewrite andb_false_r in Epid]. }
  assert (pid_wanted c entry) as Hpid.
  { apply andb_false_iff in Epid. rewrite !negb_false_iff, !Z.eqb_eq in Epid. exact Epid. }
  destruct (add_entries_ok inside corr_index_init Hin init_ok) as [Hok Hrecs]. cbn [recs corr_index_init app] in Hrecs.
  set (cov := λ path, covered idx path _ _ _). pose proof (first_escape_spec cov entry c (foldl corr_set_add [] (walk_paths (JSONObject entry)))) as H.
  assert (∀ p, under (prefix c) p = true → cov p = covered_by (inside ≫= entry_records) p
    (d_i64 (json_object_get_number (Some entry) "pid")) (json_object_get_number (Some entry) "time") (window c)) as Hcov.
  { intros p Hu. unfold cov, idx. rewrite covered_spec; [by rewrite Hrecs|done|by eapply under_absolute]. }
  assert (∀ p, p ∈ foldl corr_set_add [] (walk_paths (JSONObject entry)) ↔ p ∈ walk_paths (JSONObject entry)) as Hseen.
  { intros p. rewrite (seen_paths _ []); [split; [intros [?%not_elem_of_nil|]; done|by right]|].
    eapply Forall_impl; [exact Hcap|]. by intros q []. }
  assert (∀ p, p ∈ walk_paths (JSONObject entry) → under (prefix c) p = true ↔ below (prefix c) p) as Hbelow.
  { intros p Hp. rewrite Forall_forall in Hcap. apply under_below; [by apply Hcap|done]. }
  destruct (first_escape _ _ _ _ _) as [e|].
  - destruct H as (H1%Hseen & H2 & H3 & H4). split; [|done]. split_and!; [done|done|by apply Hbelow|by rewrite <- Hcov].
  - destruct H as [H|H]; [by left|right]. intros p (_ & H1 & H2%Hbelow & H3); [|done]. rewrite <- Hcov in H3 by done.
    rewrite H in H3; [done|by apply Hseen|done].
Qed.

End finished.

(** ** A sort *)

Fixpoint insert {A} (cmp : A → A → comparison) (x : A) (l : list A) : list A :=
  match l with
  | [] => [x]
  | y :: l => match cmp x y with Gt => y :: insert cmp x l | _ => x :: y :: l end
  end.

Fixpoint isort {A} (cmp : A → A → comparison) (l : list A) : list A :=
  match l with [] => [] | x :: l => insert cmp x (isort cmp l) end.

Lemma insert_perm {A} (cmp : A → A → comparison) x l : insert cmp x l ≡ₚ x :: l.
Proof. induction l as [|y l IH]; cbn; [done|]. destruct (cmp x y); [done..|]. rewrite IH. constructor. Qed.

Lemma isort_perm {A} (cmp : A → A → comparison) l : isort cmp l ≡ₚ l.
Proof. induction l as [|x l IH]; cbn; [done|]. by rewrite insert_perm, IH. Qed.

Lemma insert_sorted {A} (cmp : A → A → comparison) x l : orders cmp (x :: l) → ascending cmp l → ascending cmp (insert cmp x l).
Proof.
  intros [Ha Ht] Hs. unfold ascending in *. induction Hs as [|y l Hs IH Hy]; cbn; [repeat constructor|].
  assert (orders cmp (x :: l)) as [Ha' Ht'].
  { split; [intros a b ? ?; apply Ha|intros a b c ? ? ?; apply Ht]; set_solver. }
  destruct (cmp x y) eqn:E.
  1,2: assert (cmp x y ≠ Gt) as Hxy by (by rewrite E); apply SSorted_cons; [by apply SSorted_cons|]; apply Forall_cons; (split; [done|]);
    rewrite Forall_forall in *; intros z Hz; apply (Ht x y z); [set_solver|set_solver|set_solver|done|by apply Hy].
  constructor; [by apply IH|]. rewrite Forall_forall in *. intros z. rewrite insert_perm. intros [->|Hz]%elem_of_cons; [|by apply Hy].
  rewrite (Ha x y) by set_solver. by rewrite E.
Qed.

Lemma isort_sorts {A} (cmp : A → A → comparison) l : orders cmp l → isort cmp l ≡ₚ l ∧ ascending cmp (isort cmp l).
Proof.
  intros Ho. split; [apply isort_perm|]. induction l as [|x l IH]; cbn; [constructor|].
  apply insert_sorted.
  - destruct Ho as [Ha Ht]. split; intros *; rewrite !(isort_perm cmp l); [apply Ha|apply Ht].
  - apply IH. destruct Ho as [Ha Ht]. split; intros *; intros; [apply Ha|eapply Ht]; set_solver.
Qed.

#[export] Instance insertion_sort : Qsort := { qsort A := isort; qsort_sorts A := isort_sorts }.

(** ** Examples *)

Definition toy_entry (pid : Z) (func : string) (path : string) : JSON_Object :=
  [(lit "pid", JSONNumber (d_int pid)); (lit "time", JSONNumber d_zero);
   (lit "message", JSONObject [(lit "func", JSONString (lit func)); (lit "path", JSONString (lit path))])].

Definition toy_inside : list JSON_Object := [toy_entry 7 "open" "/v/b"; toy_entry 8 "open" "/v/a"].
Definition toy_criteria : CorrCriteria := mkCriteria (lit "/v") 0 d_zero false.

Lemma correlate_exact_witness :
  match corr_entry_is_escape (λ _, 0%Z) (toy_entry 7 "open" "/v/a") toy_criteria
    (corr_index_finish (foldl (λ idx e, corr_index_add_entry (λ _, 0%Z) e idx) corr_index_init toy_inside)) with
  | Some e => esc_path e ∈ walk_paths (JSONObject (toy_entry 7 "open" "/v/a"))
  | None => False
  end.
Proof.
  pose proof (correlate_exact (λ _, 0%Z) toy_inside toy_criteria (toy_entry 7 "open" "/v/a")) as H.
  specialize (H ltac:(by repeat constructor) ltac:(by vm_compute) ltac:(discriminate) ltac:(by repeat constructor)).
  cbn zeta in H. destruct (corr_entry_is_escape _ _ _ _) as [e|] eqn:E; [apply H|by vm_compute in E].
Defined.

(** Drive letters are compared without case and other paths with it: there are
    three paths each of which comes before the next, the last before the
    first. *)
Lemma pathcmp_cycle :
  corr_pathcmp (lit "c:/x") (lit "C:/y") = Lt ∧ corr_pathcmp (lit "C:/y") (lit "Z/z") = Lt ∧
  corr_pathcmp (lit "Z/z") (lit "c:/x") = Lt.
Proof. by vm_compute. Qed.

(** Under the root directory as prefix nothing but the root itself is looked at. *)
Lemma root_prefix_empty :
  corr_entry_is_escape (λ _, 0%Z) (toy_entry 7 "open" "/etc/passwd") (mkCriteria (lit "/") 0 d_zero false) corr_index_init = None.
Proof. by vm_compute. Qed.

(** A second spelling of a path hides the first from the test of the prefix. *)
Lemma other_spelling_hides :
  corr_entry_is_escape (λ _, 0%Z)
    [(lit "message", JSONArray [JSONString (lit "c:/v/a"); JSONString (lit "C:/v/a")])]
    (mkCriteria (lit "C:/v") 0 d_zero false) corr_index_init = None.
Proof. by vm_compute. Qed.

End Correlate.
