(* ===== verification/Profile.v ===== *)
(** * The profile of a trace

    [tools/profiler/aggregate.c]: a trace is reduced to the functions that were
    called, the paths that were accessed with the class of the access, the names
    of the environment and the addresses that were used, and the durations of
    calls; the profile is written as JSON and read back. Allocation succeeds;
    [qsort] is that of [Correlate]. *)

From S2P Require Import Prelude Libc Stdio Json JsonText PolicySig JsonRoundTrip JsonObject SortedTable Correlate.

Module Profile.

Import Libc Stdio Json SortedTable Correlate.

(** ** Names *)

Abbreviation ProfNames := (list (bytes * nat)).

Definition prof_names_add (n : ProfNames) (name : option bytes) : ProfNames :=
  match name with
  | None | Some [] => n
  | Some name => update S 0 n name
  end.

Definition prof_names_get (n : ProfNames) (name : bytes) : nat := default 0 (get n name).

(** The insertion sort of [names_finish]: an element moves down below the
    greater ones of the part that is sorted, which is given from its end. *)
Fixpoint sink (e : bytes * nat) (done : ProfNames) : ProfNames :=
  match done with
  | p :: done => match strcmp p.1 e.1 with Gt => p :: sink e done | _ => e :: p :: done end
  | [] => [e]
  end.

Definition names_finish (n : ProfNames) : ProfNames := rev (foldl (λ done e, sink e done) [] n).

(** ** Accesses *)

Record ProfAccess := mkAccess { class_write : bool; class_read : bool; class_probe : bool; hits : nat }.

Definition fresh_access : ProfAccess := mkAccess false false false 0.

Definition count_access (cls : CorrClass) (a : ProfAccess) : ProfAccess :=
  match cls with
  | CORR_CLS_WRITE => mkAccess true (class_read a) (class_probe a) (S (hits a))
  | CORR_CLS_READ => mkAccess (class_write a) true (class_probe a) (S (hits a))
  | CORR_CLS_PROBE => mkAccess (class_write a) (class_read a) true (S (hits a))
  | CORR_CLS_NONE => mkAccess (class_write a) (class_read a) (class_probe a) (S (hits a))
  end.

(** ** Timings *)

Definition PROF_TIMING_SAMPLES_MAX : nat := 4096.

Record ProfTiming := mkTiming { t_calls : nat; total_us : double; max_us : double; samples : list double }.

Definition fresh_timing : ProfTiming := mkTiming 0 d_zero d_zero [].

Definition d_ltb (a b : double) : bool := bool_decide (d_cmp a b = Lt).

Definition count_timing (us : double) (t : ProfTiming) : ProfTiming :=
  mkTiming (S (t_calls t)) (d_add (total_us t) us) (if d_ltb (max_us t) us then us else max_us t)
    (if length (samples t) <? PROF_TIMING_SAMPLES_MAX then samples t ++ [us] else samples t).

(** ** The profile *)

Record Profile := mkProfile {
  functions : ProfNames;
  env : ProfNames;
  net : ProfNames;
  accesses : list (bytes * ProfAccess);
  timings : list (bytes * ProfTiming);
  entries : nat;
  no_pid : nat;
}.

Definition prof_init : Profile := mkProfile [] [] [] [] [] 0 0.

Definition set_functions (n : ProfNames) (p : Profile) : Profile :=
  mkProfile n (env p) (net p) (accesses p) (timings p) (entries p) (no_pid p).
Definition set_env (n : ProfNames) (p : Profile) : Profile :=
  mkProfile (functions p) n (net p) (accesses p) (timings p) (entries p) (no_pid p).
Definition set_net (n : ProfNames) (p : Profile) : Profile :=
  mkProfile (functions p) (env p) n (accesses p) (timings p) (entries p) (no_pid p).
Definition set_accesses (a : list (bytes * ProfAccess)) (p : Profile) : Profile :=
  mkProfile (functions p) (env p) (net p) a (timings p) (entries p) (no_pid p).
Definition set_timings (t : list (bytes * ProfTiming)) (p : Profile) : Profile :=
  mkProfile (functions p) (env p) (net p) (accesses p) t (entries p) (no_pid p).

Definition prof_timing_add (func : bytes) (us : double) (p : Profile) : Profile :=
  set_timings (update (count_timing us) fresh_timing (timings p) func) p.

Definition prof_access_get (p : Profile) (path : bytes) : option ProfAccess := get (accesses p) path.

Definition access_add (cls : CorrClass) (p : Profile) (path : bytes) : Profile :=
  set_accesses (update (count_access cls) fresh_access (accesses p) path) p.

(** ** An entry of the trace *)

Definition nonempty (s : option bytes) : option bytes := match s with Some [] => None | _ => s end.

Definition collect_env (msg : JSON_Object) (p : Profile) : Profile :=
  match json_object_get_array (Some msg) "*name" with
  | Some deref =>
      if 0 <? length deref then set_env (prof_names_add (env p) (nonempty (json_array_get_string (Some deref) 0))) p else p
  | None => set_env (prof_names_add (env p) (nonempty (json_object_get_string (Some msg) "name"))) p
  end.

Definition collect_net (msg : JSON_Object) (p : Profile) : Profile :=
  match nonempty (json_object_get_string (Some msg) "addr"), nonempty (json_object_get_string (Some msg) "host") with
  | Some addr, _ => set_net (prof_names_add (net p) (Some addr)) p
  | None, Some host =>
      let buf :=
        match nonempty (json_object_get_string (Some msg) "port") with
        | Some port => snprintf 256 (host ++ lit ":" ++ port)
        | None => snprintf 256 host
        end in
      set_net (prof_names_add (net p) (Some buf)) p
  | None, None => p
  end.

Fixpoint collect_msg (v : JSON_Value) (func detail : option bytes) (p : Profile) : Profile :=
  match v with
  | JSONString s =>
      if corr_is_path_like s then
        match corr_normalize s CORR_PATH_MAX with
        | Some norm => access_add (corr_classify func detail) p norm
        | None => p
        end
      else p
  | JSONObject o =>
      (fix members (o : JSON_Object) (p : Profile) : Profile :=
         match o with [] => p | (_, v) :: o => members o (collect_msg v func detail p) end) o p
  | JSONArray a =>
      (fix items (a : JSON_Array) (p : Profile) : Profile :=
         match a with [] => p | v :: a => items a (collect_msg v func detail p) end) a p
  | _ => p
  end.

Definition has_value (o : JSON_Object) (name : string) : bool :=
  match json_object_get_value (Some o) name with Some _ => true | None => false end.

Definition prof_add_entry (entry : JSON_Object) (p : Profile) : Profile :=
  let p := mkProfile (functions p) (env p) (net p) (accesses p) (timings p) (S (entries p))
             (if (d_man (json_object_get_number (Some entry) "pid") =? 0)%Z then S (no_pid p) else no_pid p) in
  match json_object_get_object (Some entry) "message" with
  | None => p
  | Some msg =>
      if is_some (json_object_get_string (Some msg) "text") then p
      else if has_value msg "call_duration_us" then
        match nonempty (json_object_get_string (Some msg) "func") with
        | Some tf => prof_timing_add tf (json_object_get_number (Some msg) "call_duration_us") p
        | None => p
        end
      else
        let func := json_object_get_string (Some msg) "func" in
        let detail := json_object_get_string (Some msg) "detail" in
        let p := set_functions (prof_names_add (functions p) func) p in
        let p := collect_env msg p in
        let p := collect_net msg p in
        collect_msg (JSONObject msg) func detail p
  end.

Definition prof_finish (p : Profile) : Profile :=
  mkProfile (names_finish (functions p)) (names_finish (env p)) (names_finish (net p))
    (accesses p) (timings p) (entries p) (no_pid p).

(** ** Writing *)

(** A member set; a failure leaves the object as it is. *)
Definition set_string (o : JSON_Object) (name : string) (s : bytes) : JSON_Object :=
  default o (JsonObject.json_object_set_string o (lit name) s).
Definition set_number (o : JSON_Object) (name : string) (d : double) : JSON_Object :=
  default o (JsonObject.json_object_set_number o (lit name) d).
Definition set_value (o : JSON_Object) (name : string) (v : JSON_Value) : JSON_Object :=
  default o (JsonObject.json_object_set_value o (lit name) (Some v)).

Definition d_nat (n : nat) : double := d_of_int (Z.of_nat n).

Definition name_to_json (e : bytes * nat) : JSON_Value :=
  JSONObject (set_number (set_string [] "name" e.1) "count" (d_nat e.2)).

Definition names_to_json (n : ProfNames) (root : JSON_Object) (key : string) : JSON_Object :=
  set_value root key (JSONArray (map name_to_json n)).

Definition access_class (a : ProfAccess) : bytes :=
  if class_write a then lit "write"
  else if class_read a then lit "read"
  else if class_probe a then lit "probe"
  else lit "none".

Definition access_to_json (e : bytes * ProfAccess) : JSON_Value :=
  JSONObject (set_number (set_string (set_string [] "path" e.1) "class" (access_class e.2)) "hits" (d_nat (hits e.2))).

Section json.
Context `{Qsort} (out_of_range : double → Z).

Definition prof_timing_p99 (t : ProfTiming) : double :=
  match samples t with
  | [] => d_zero
  | _ =>
      let n := length (samples t) in
      let sorted := qsort d_cmp (samples t) in
      let idx := if 100 <=? n then n - n / 100 else n - 1 in
      default d_zero (sorted !! idx)
  end.

(** The index of the first element with the greatest total. *)
Fixpoint best_of (l : list (bytes * ProfTiming)) (i best : nat) (total : double) : nat :=
  match l with
  | [] => best
  | t :: l =>
      if d_ltb total (total_us t.2) then best_of l (S i) i (total_us t.2) else best_of l (S i) best total
  end.

(** The selection over the first [top] places of the array, with its swaps. *)
Fixpoint select (top : nat) (order : list (bytes * ProfTiming)) : list (bytes * ProfTiming) :=
  match top, order with
  | S top, x :: rest =>
      match best_of rest 0 (length rest) (total_us x.2) with
      | best =>
          match rest !! best with
          | Some y => y :: select top (<[best := x]> rest)
          | None => x :: select top rest
          end
      end
  | _, _ => []
  end.

Definition timing_to_json (e : bytes * ProfTiming) : JSON_Value :=
  let t := e.2 in
  JSONObject
    (set_number (set_number (set_number (set_number (set_string [] "func" e.1)
       "calls" (d_nat (t_calls t))) "total_us" (total_us t)) "max_us" (max_us t)) "p99_us" (prof_timing_p99 t)).

Definition prof_to_json (p : Profile) : JSON_Object :=
  let root := set_number [] "entries" (d_nat (entries p)) in
  let root := names_to_json (functions p) root "functions" in
  let root := names_to_json (env p) root "env" in
  let root := names_to_json (net p) root "net" in
  let root := set_value root "accesses" (JSONArray (map access_to_json (accesses p))) in
  match timings p with
  | [] => root
  | _ => set_value root "timings" (JSONArray (map timing_to_json (select (Nat.min (length (timings p)) 20) (timings p))))
  end.

(** ** Reading *)

Definition d_size (d : double) : nat := Z.to_nat (PolicySig.d_u64 out_of_range d).

Definition d_one : double := d_int 1.

Definition name_from_json (n : ProfNames) (v : JSON_Value) : ProfNames :=
  let o := json_value_get_object (Some v) in
  let count := json_object_get_number o "count" in
  match nonempty (json_object_get_string o "name") with
  | None => n
  | Some name =>
      let n := prof_names_add n (Some name) in
      match find n name with
      | inl idx => if d_ltb d_one count then alter (λ e, (e.1, d_size count)) idx n else n
      | inr _ => n
      end
  end.

Definition names_from_json (n : ProfNames) (root : JSON_Object) (key : string) : ProfNames :=
  foldl name_from_json n (default [] (json_object_get_array (Some root) key)).

Definition class_from_str (s : option bytes) : CorrClass :=
  match s with
  | None => CORR_CLS_NONE
  | Some s =>
      if streq s (lit "write") then CORR_CLS_WRITE
      else if streq s (lit "read") then CORR_CLS_READ
      else if streq s (lit "probe") then CORR_CLS_PROBE
      else CORR_CLS_NONE
  end.

Definition timing_from_json (p : Profile) (v : JSON_Value) : Profile :=
  let o := json_value_get_object (Some v) in
  match json_object_get_string o "func" with
  | None => p
  | Some func =>
      let p := prof_timing_add func (json_object_get_number o "max_us") p in
      match find (timings p) func with
      | inl idx =>
          set_timings (alter (λ e, (e.1, mkTiming (d_size (json_object_get_number o "calls"))
            (json_object_get_number o "total_us") (max_us e.2) (samples e.2))) idx (timings p)) p
      | inr _ => p
      end
  end.

Definition access_from_json (p : Profile) (v : JSON_Value) : Profile :=
  let o := json_value_get_object (Some v) in
  let hits := json_object_get_number o "hits" in
  match nonempty (json_object_get_string o "path") with
  | None => p
  | Some path =>
      let p := access_add (class_from_str (json_object_get_string o "class")) p path in
      match find (accesses p) path with
      | inl idx =>
          if d_ltb d_zero hits then
            set_accesses (alter (λ e, (e.1, mkAccess (class_write e.2) (class_read e.2) (class_probe e.2) (d_size hits))) idx (accesses p)) p
          else p
      | inr _ => p
      end
  end.

Definition prof_from_json (root : option JSON_Object) : option Profile :=
  match root with
  | None => None
  | Some root =>
      let p := mkProfile [] [] [] [] [] (d_size (json_object_get_number (Some root) "entries")) 0 in
      let p := set_functions (names_from_json (functions p) root "functions") p in
      let p := set_env (names_from_json (env p) root "env") p in
      let p := foldl timing_from_json p (default [] (json_object_get_array (Some root) "timings")) in
      let p := set_net (names_from_json (net p) root "net") p in
      let p := foldl access_from_json p (default [] (json_object_get_array (Some root) "accesses")) in
      Some (prof_finish p)
  end.

End json.

(** ** What a profile says of its trace *)

(** The message of an entry that is a call: no progress text and no summary of
    a return. *)
Definition call_of (entry : JSON_Object) : option JSON_Object :=
  match json_object_get_object (Some entry) "message" with
  | Some msg =>
      if is_some (json_object_get_string (Some msg) "text") || has_value msg "call_duration_us" then None else Some msg
  | None => None
  end.

Definition calls (es : list JSON_Object) : list JSON_Object := omap call_of es.

Definition msg_func (msg : JSON_Object) : option bytes := json_object_get_string (Some msg) "func".

Definition msg_class (msg : JSON_Object) : CorrClass :=
  corr_classify (msg_func msg) (json_object_get_string (Some msg) "detail").

(** The accesses of a message, in order: its path-like strings at any depth. *)
Definition msg_events (msg : JSON_Object) : list (bytes * CorrClass) :=
  (λ p, (p, msg_class msg)) <$> walk_paths (JSONObject msg).

Definition path_events (es : list JSON_Object) : list (bytes * CorrClass) := calls es ≫= msg_events.

Definition at_path (path : bytes) (evs : list (bytes * CorrClass)) : list CorrClass :=
  omap (λ e : bytes * CorrClass, if decide (e.1 = path) then Some e.2 else None) evs.

(** The access that a path with these events has. *)
Definition access_spec (cs : list CorrClass) : option ProfAccess :=
  match cs with
  | [] => None
  | _ => Some (mkAccess (bool_decide (CORR_CLS_WRITE ∈ cs)) (bool_decide (CORR_CLS_READ ∈ cs)) (bool_decide (CORR_CLS_PROBE ∈ cs)) (length cs))
  end.

Definition add_event (p : Profile) (e : bytes * CorrClass) : Profile := access_add e.2 p e.1.

(** The recursion over the message is the loop over its events. *)
Lemma collect_msg_events v func detail p :
  collect_msg v func detail p = foldl add_event p ((λ x, (x, corr_classify func detail)) <$> walk_paths v).
Proof.
  revert p. induction v as [|str|d|o IH|arr IH|b] using JsonRoundTrip.JSON_Value_nested_ind; intros p; try done.
  - cbn. destruct (corr_is_path_like str); [|done]. by destruct (corr_normalize str CORR_PATH_MAX).
  - revert p. induction o as [|[k v] o IHo]; intros p; [done|]. inversion_clear IH as [|? ? Hv Ho]. cbn.
    rewrite fmap_app, foldl_app, <- Hv. by apply IHo.
  - revert p. induction IH as [|v arr Hv _ IHa]; intros p; [done|]. cbn. rewrite fmap_app, foldl_app, <- Hv. apply IHa.
Qed.

(** *** The tables *)

(** All tables of a profile are sorted. *)
Record prof_ok (p : Profile) : Prop := {
  ok_functions : sorted (functions p);
  ok_env : sorted (env p);
  ok_net : sorted (net p);
  ok_accesses : sorted (accesses p);
  ok_timings : sorted (timings p);
}.

Lemma names_add_sorted n name : sorted n → sorted (prof_names_add n name).
Proof. intros H. destruct name as [[|c name]|]; [done| |done]. by apply update_sorted. Qed.

Lemma names_add_get n name f :
  sorted n → prof_names_get (prof_names_add n name) f = prof_names_get n f + (if decide (nonempty name = Some f) then 1 else 0).
Proof.
  intros H. unfold prof_names_get. destruct name as [[|c name]|]; cbn [prof_names_add nonempty]; [by rewrite decide_False; [lia|]| |by rewrite decide_False; [lia|]].
  rewrite get_update by done. destruct (decide (c :: name = f)) as [->|Hne].
  - rewrite decide_True by done. cbn. lia.
  - rewrite decide_False by (intros [= E]; done). lia.
Qed.

(** An array that is kept sorted is left as it is. *)
Lemma names_finish_id n : sorted n → names_finish n = n.
Proof.
  intros Hs. unfold names_finish. assert (∀ done, sorted (rev done ++ n) → foldl (λ done e, sink e done) done n = rev n ++ done) as H.
  { clear Hs. induction n as [|e n IH]; intros acc Hs; cbn; [done|].
    assert (sink e acc = e :: acc) as ->.
    { destruct acc as [|p acc]; [done|]. cbn. replace (strcmp p.1 e.1) with Lt; [done|]. symmetry.
      cbn in Hs. rewrite <- !app_assoc in Hs. apply (sorted_lookup _ (length (rev acc)) (S (length (rev acc))) p e Hs); [| |lia].
      - by rewrite lookup_app_r, Nat.sub_diag by lia.
      - rewrite lookup_app_r by lia. by replace (S (length (rev acc)) - length (rev acc)) with 1 by lia. }
    rewrite IH; [by rewrite <- app_assoc|]. cbn. by rewrite <- app_assoc. }
  rewrite (H []) by done. by rewrite app_nil_r, rev_involutive.
Qed.

Lemma finish_id p : prof_ok p → prof_finish p = p.
Proof. intros []. unfold prof_finish. rewrite !names_finish_id by done. by destruct p. Qed.

(** *** Accesses *)

Definition bump (o : option ProfAccess) (cs : list CorrClass) : option ProfAccess :=
  foldl (λ o c, Some (count_access c (default fresh_access o))) o cs.

Lemma bump_spec cs : bump None cs = access_spec cs.
Proof.
  induction cs as [|c cs IH] using rev_ind; [done|]. unfold bump in *. rewrite foldl_app. cbn [foldl]. rewrite IH.
  assert (default fresh_access (access_spec cs) = mkAccess (bool_decide (CORR_CLS_WRITE ∈ cs)) (bool_decide (CORR_CLS_READ ∈ cs))
    (bool_decide (CORR_CLS_PROBE ∈ cs)) (length cs)) as -> by by destruct cs.
  assert (∀ x, bool_decide (x ∈ cs ++ [c]) = bool_decide (x ∈ cs) || bool_decide (x = c)) as Hin.
  { intros x. apply eq_true_iff_eq. rewrite orb_true_iff, !bool_decide_eq_true. by rewrite elem_of_app, list_elem_of_singleton. }
  assert (access_spec (cs ++ [c]) = Some (mkAccess (bool_decide (CORR_CLS_WRITE ∈ cs ++ [c])) (bool_decide (CORR_CLS_READ ∈ cs ++ [c]))
    (bool_decide (CORR_CLS_PROBE ∈ cs ++ [c])) (length (cs ++ [c])))) as -> by by destruct cs.
  rewrite !Hin, length_app. cbn [length]. rewrite Nat.add_1_r. f_equal.
  destruct c; unfold count_access; cbn [class_write class_read class_probe hits];
    repeat (rewrite bool_decide_false by done || rewrite bool_decide_true by done);
    by rewrite ?orb_false_r, ?orb_true_r.
Qed.

Lemma at_path_app path a b : at_path path (a ++ b) = at_path path a ++ at_path path b.
Proof. apply omap_app. Qed.

Lemma events_added evs p :
  prof_ok p →
  let p' := foldl add_event p evs in
  prof_ok p' ∧ (∀ path, prof_access_get p' path = bump (prof_access_get p path) (at_path path evs)) ∧
  functions p' = functions p ∧ env p' = env p ∧ net p' = net p ∧ timings p' = timings p ∧ entries p' = entries p.
Proof.
  revert p. induction evs as [|[x c] evs IH]; intros p Hp; [done|]. cbn [foldl].
  assert (prof_ok (add_event p (x, c))) as Hp'.
  { destruct Hp. split; try done. by apply update_sorted. }
  destruct (IH _ Hp') as (H1 & H2 & H3). split; [done|]. split; [|done].
  intros path. rewrite H2. unfold prof_access_get, add_event, access_add. cbn [accesses set_accesses fst snd].
  rewrite get_update by apply Hp. cbn [at_path omap list_omap fst snd]. by destruct (decide (x = path)) as [->|].
Qed.

(** *** An entry *)

Lemma collect_env_ok msg p : prof_ok p → prof_ok (collect_env msg p).
Proof.
  intros [? ? ? ? ?]. unfold collect_env. destruct (json_object_get_array _ _) as [l|]; [destruct (0 <? length l); [|done]|];
    split; try done; by apply names_add_sorted.
Qed.

Lemma collect_net_ok msg p : prof_ok p → prof_ok (collect_net msg p).
Proof.
  intros [? ? ? ? ?]. unfold collect_net. repeat case_match; try done; split; try done; by apply names_add_sorted.
Qed.

Lemma collect_env_rest msg p :
  functions (collect_env msg p) = functions p ∧ accesses (collect_env msg p) = accesses p ∧ entries (collect_env msg p) = entries p.
Proof. unfold collect_env. destruct (json_object_get_array _ _) as [l|]; [destruct (0 <? length l)|]; done. Qed.

Lemma collect_net_rest msg p :
  functions (collect_net msg p) = functions p ∧ accesses (collect_net msg p) = accesses p ∧ entries (collect_net msg p) = entries p.
Proof. unfold collect_net. by repeat case_match. Qed.

Definition func_calls (f : bytes) (es : list JSON_Object) : nat :=
  length (filter (λ msg, nonempty (msg_func msg) = Some f) (calls es)).

Lemma entry_added e p :
  prof_ok p →
  let p' := prof_add_entry e p in
  prof_ok p' ∧ (∀ path, prof_access_get p' path = bump (prof_access_get p path) (at_path path (path_events [e]))) ∧
  (∀ f, prof_names_get (functions p') f = prof_names_get (functions p) f + func_calls f [e]) ∧
  entries p' = S (entries p).
Proof.
  intros Hp. unfold prof_add_entry. set (p0 := mkProfile _ _ _ _ _ (S _) _).
  assert (prof_ok p0) as Hp0 by (destruct Hp; by split).
  unfold path_events, func_calls, calls. cbn [omap list_omap]. unfold call_of.
  destruct (json_object_get_object (Some e) "message") as [msg|]; cbn zeta; [|split; [done|]; split; [done|]; split; [|done]; intros f; cbn; lia].
  destruct (is_some (json_object_get_string (Some msg) "text")); cbn [orb].
  { split; [done|]. split; [done|]. split; [|done]. intros f. cbn. lia. }
  destruct (has_value msg "call_duration_us").
  { destruct (nonempty _) as [tf|].
    - split; [destruct Hp0; split; try done; by apply update_sorted|]. split; [done|]. split; [|done]. intros f. cbn. lia.
    - split; [done|]. split; [done|]. split; [|done]. intros f. cbn. lia. }
  set (p1 := set_functions (prof_names_add (functions p0) (json_object_get_string (Some msg) "func")) p0).
  assert (prof_ok p1) as Hp1 by (destruct Hp0; split; try done; by apply names_add_sorted).
  set (p2 := collect_net msg (collect_env msg p1)).
  assert (prof_ok p2) as Hp2 by by apply collect_net_ok, collect_env_ok.
  rewrite collect_msg_events. change (_ <$> walk_paths (JSONObject msg)) with (msg_events msg).
  destruct (events_added (msg_events msg) p2 Hp2) as (H1 & H2 & H3 & _ & _ & _ & H7).
  destruct (collect_env_rest msg p1) as (E1 & E2 & E3). destruct (collect_net_rest msg (collect_env msg p1)) as (N1 & N2 & N3).
  split; [done|]. split; [|split].
  - intros path. rewrite H2. cbn [mbind list_bind]. rewrite app_nil_r. unfold prof_access_get, p2. by rewrite N2, E2.
  - intros f. rewrite H3. unfold p2. rewrite N1, E1. unfold p1. cbn [set_functions functions].
    rewrite names_add_get by apply Hp0. unfold msg_func. cbn [functions p0]. rewrite filter_cons. by destruct (decide _).
  - rewrite H7. unfold p2. by rewrite N3, E3.
Qed.

Lemma calls_cons e es : calls (e :: es) = calls [e] ++ calls es.
Proof. unfold calls. by rewrite <- omap_app. Qed.

Lemma prof_init_ok : prof_ok prof_init.
Proof. split; constructor. Qed.

Lemma entries_added es p :
  prof_ok p →
  let p' := foldl (λ p e, prof_add_entry e p) p es in
  prof_ok p' ∧ (∀ path, prof_access_get p' path = bump (prof_access_get p path) (at_path path (path_events es))) ∧
  (∀ f, prof_names_get (functions p') f = prof_names_get (functions p) f + func_calls f es) ∧
  entries p' = entries p + length es.
Proof.
  revert p. induction es as [|e es IH]; intros p Hp; cbn [foldl].
  { split; [done|]. split; [done|]. split; [intros f; cbn; lia|cbn; lia]. }
  destruct (entry_added e p Hp) as (H1 & H2 & H3 & H4). destruct (IH _ H1) as (I1 & I2 & I3 & I4).
  split; [done|]. split; [|split].
  - intros path. rewrite I2, H2. unfold path_events. rewrite (calls_cons e es), bind_app, at_path_app. unfold bump. by rewrite foldl_app.
  - intros f. rewrite I3, H3. unfold func_calls. rewrite (calls_cons e es), filter_app, length_app. lia.
  - rewrite I4, H4. cbn. lia.
Qed.

(** The profile of a trace. *)
Definition profile_of (es : list JSON_Object) : Profile := prof_finish (foldl (λ p e, prof_add_entry e p) prof_init es).

Lemma profile_of_ok es : prof_ok (profile_of es).
Proof. destruct (entries_added es prof_init prof_init_ok) as [H _]. unfold profile_of. by rewrite finish_id. Qed.

(** C17 (refinement). The profile of a trace says exactly what the trace holds: a
    function is counted once for each call entry that names it, and a path is
    accessed as often, and in the classes, as call entries hold it, at any depth
    and in normal form; all arrays are sorted without duplicates. *)
Theorem profile_exact es :
  let p := profile_of es in
  prof_ok p ∧ entries p = length es ∧
  (∀ f, prof_names_get (functions p) f = func_calls f es) ∧
  (∀ path, prof_access_get p path = access_spec (at_path path (path_events es))).
Proof.
  destruct (entries_added es prof_init prof_init_ok) as (H1 & H2 & H3 & H4). unfold profile_of. cbn zeta. rewrite finish_id by done.
  split; [done|]. split; [by rewrite H4|]. split; [intros f; by rewrite H3|]. intros path. rewrite H2. apply bump_spec.
Qed.

(** ** Writing and reading again *)

Section round_trip.
Context `{Qsort} (out_of_range : double → Z).

(** A count that a double holds. *)
Definition fits (n : nat) : Prop := (Z.of_nat n ≤ 2 ^ 53)%Z.

Lemma d_nat_int n : fits n → d_nat n = d_int (Z.of_nat n).
Proof. intros Hn. unfold d_nat, d_of_int. rewrite Z.abs_eq by lia. by rewrite (proj2 (Z.leb_le _ _) Hn). Qed.

Lemma d_size_nat n : fits n → d_size out_of_range (d_nat n) = n.
Proof.
  intros Hn. rewrite d_nat_int by done. unfold d_size, PolicySig.d_u64, d_trunc, d_int. cbn [d_exp d_man]. cbn [Z.leb Z.compare].
  rewrite Z.pow_0_r, Z.mul_1_r. unfold fits in Hn.
  rewrite (proj2 (Z.leb_le _ _)), (proj2 (Z.ltb_lt _ _)) by lia. cbn. apply Nat2Z.id.
Qed.

Lemma d_ltb_int a b : d_ltb (d_int a) (d_int b) = (a <? b)%Z.
Proof.
  unfold d_ltb, d_cmp, d_int. cbn [d_exp d_man]. rewrite Z.min_id, Z.sub_diag, Z.pow_0_r, !Z.mul_1_r.
  apply eq_true_iff_eq. by rewrite bool_decide_eq_true, Z.ltb_lt.
Qed.

(** Text that a JSON string takes. *)
Record json_name (s : bytes) : Prop := { jn_some : s ≠ []; jn_utf8 : JsonObject.is_valid_utf8 s = true }.

Lemma set_string_valid o name s :
  JsonObject.is_valid_utf8 s = true → set_string o name s = set_value o name (JSONString s).
Proof. intros Hs. unfold set_string, JsonObject.json_object_set_string, JsonObject.json_value_init_string. by rewrite Hs. Qed.

Lemma nonempty_some s : s ≠ [] → nonempty (Some s) = Some s.
Proof. by destruct s. Qed.

(** A table that an element is added to, and set. *)
Lemma add_set {A} (f h : A → A) (x : A) t k :
  sorted t → let t' := update h x (update f x t k) k in
  sorted t' ∧ tmap t' = <[k := h (f (default x (tmap t !! k)))]> (tmap t).
Proof.
  intros Ht. cbn. split; [by apply update_sorted, update_sorted|].
  rewrite update_map, update_map by (try done; by apply update_sorted). by rewrite lookup_insert_eq, insert_insert_eq.
Qed.

Lemma foldl_map {A B C} (f : A → B → A) (g : C → B) a l : foldl f a (map g l) = foldl (λ a x, f a (g x)) a l.
Proof. revert a. induction l as [|x l IH]; intros a; [done|]. apply IH. Qed.

(** *** Names *)

Definition names_fit (n : ProfNames) : Prop := Forall (λ e : bytes * nat, json_name e.1 ∧ 1 ≤ e.2 ∧ fits e.2) n.

Lemma name_step t (e : bytes * nat) :
  json_name e.1 → 1 ≤ e.2 → fits e.2 → sorted t → tmap t !! e.1 = None →
  let t' := name_from_json out_of_range t (name_to_json e) in sorted t' ∧ tmap t' = <[e.1 := e.2]> (tmap t).
Proof.
  intros [Hne Hu] H1 Hf Ht Hn. cbn zeta. unfold name_to_json. rewrite set_string_valid by done.
  unfold name_from_json. cbn zeta.
  set (o := json_value_get_object _).
  assert (json_object_get_string o "name" = Some e.1) as -> by done.
  assert (json_object_get_number o "count" = d_nat e.2) as -> by done. clear o.
  rewrite nonempty_some by done.
  assert (prof_names_add t (Some e.1) = update S 0 t e.1) as -> by by destruct e as [[|c k] n].
  destruct (find_updated S 0 t e.1 Ht) as [i Hi]. rewrite Hi. rewrite d_size_nat, d_nat_int by done. unfold d_one. rewrite d_ltb_int.
  destruct (Z.ltb_spec 1 (Z.of_nat e.2)).
  - rewrite (alter_found (λ _, e.2) 0 _ _ _ Hi). by apply add_set.
  - split; [by apply update_sorted|]. rewrite update_map by done. rewrite Hn. cbn. by replace e.2 with 1 by lia.
Qed.

Lemma names_round_trip n root key :
  sorted n → names_fit n → json_object_get_array (Some root) key = Some (map name_to_json n) →
  names_from_json out_of_range [] root key = n.
Proof.
  intros Hs Hn Hk. unfold names_from_json. rewrite Hk. cbn [default]. unfold id. rewrite foldl_map.
  rewrite (rebuild (λ t e, name_from_json out_of_range t (name_to_json e)) id n n).
  - rewrite <- (list_fmap_id n) at 2. apply list_fmap_ext. by intros i [].
  - done.
  - done.
  - intros t e He Ht Hnone. unfold names_fit in Hn. rewrite Forall_forall in Hn. destruct (Hn e He) as (? & ? & ?). by apply name_step.
Qed.

(** *** Accesses *)

(** What the file keeps of an access: its first class in the order write, read,
    probe, and its hits. *)
Definition main_class (a : ProfAccess) : ProfAccess :=
  mkAccess (class_write a) (negb (class_write a) && class_read a)
    (negb (class_write a) && negb (class_read a) && class_probe a) (hits a).

Definition accesses_fit (l : list (bytes * ProfAccess)) : Prop :=
  Forall (λ e : bytes * ProfAccess, json_name e.1 ∧ 1 ≤ hits e.2 ∧ fits (hits e.2)) l.

Definition set_hits (n : nat) (a : ProfAccess) : ProfAccess := mkAccess (class_write a) (class_read a) (class_probe a) n.

Definition access_step (t : list (bytes * ProfAccess)) (e : bytes * ProfAccess) : list (bytes * ProfAccess) :=
  update (set_hits (hits e.2)) fresh_access (update (count_access (class_from_str (Some (access_class e.2)))) fresh_access t e.1) e.1.

Lemma access_from_step p (e : bytes * ProfAccess) :
  json_name e.1 → 1 ≤ hits e.2 → fits (hits e.2) → sorted (accesses p) →
  access_from_json out_of_range p (access_to_json e) = set_accesses (access_step (accesses p) e) p.
Proof.
  intros [Hne Hu] H1 Hf Ht. unfold access_to_json. rewrite !set_string_valid by (try done; unfold access_class; repeat case_match; done).
  unfold access_from_json. cbn zeta. set (o := json_value_get_object _).
  assert (json_object_get_string o "path" = Some e.1) as -> by done.
  assert (json_object_get_string o "class" = Some (access_class e.2)) as -> by done.
  assert (json_object_get_number o "hits" = d_nat (hits e.2)) as -> by done. clear o.
  rewrite nonempty_some by done. unfold access_add. cbn [accesses set_accesses].
  set (f := count_access _). destruct (find_updated f fresh_access (accesses p) e.1 Ht) as [i Hi]. rewrite Hi.
  rewrite d_size_nat, d_nat_int by done. change d_zero with (d_int 0). rewrite d_ltb_int.
  rewrite (proj2 (Z.ltb_lt _ _)) by lia. unfold access_step. fold f. by rewrite <- (alter_found (set_hits (hits e.2)) fresh_access _ _ _ Hi).
Qed.

Lemma main_class_step n a : n = hits a → set_hits n (count_access (class_from_str (Some (access_class a))) fresh_access) = main_class a.
Proof. intros ->. by destruct a as [[] [] [] n]. Qed.

Lemma access_step_map t (e : bytes * ProfAccess) :
  sorted t → tmap t !! e.1 = None → sorted (access_step t e) ∧ tmap (access_step t e) = <[e.1 := main_class e.2]> (tmap t).
Proof.
  intros Ht Hn. unfold access_step. set (f := count_access _).
  destruct (add_set f (set_hits (hits e.2)) fresh_access t e.1 Ht) as [H1 H2]. split; [done|]. rewrite H2, Hn. cbn [default].
  unfold f, id. by rewrite main_class_step.
Qed.

Lemma accesses_fold l p :
  accesses_fit l → sorted (accesses p) →
  foldl (access_from_json out_of_range) p (map access_to_json l) = set_accesses (foldl access_step (accesses p) l) p.
Proof.
  intros Hl. revert p. induction Hl as [|e l (H1 & H2 & H3) _ IH]; intros p Hp; [by destruct p|].
  cbn [map foldl]. rewrite access_from_step, IH by (try done; apply update_sorted; by apply update_sorted). done.
Qed.

Lemma accesses_rebuilt l : accesses_fit l → sorted l → foldl access_step [] l = (λ e, (e.1, main_class e.2)) <$> l.
Proof. intros Hf Hl. apply rebuild; [done|done|]. intros t e _ Ht Hn. by apply access_step_map. Qed.

(** *** Timings *)

Definition timings_fit (l : list (bytes * ProfTiming)) : Prop :=
  Forall (λ e : bytes * ProfTiming, JsonObject.is_valid_utf8 e.1 = true ∧ fits (t_calls e.2) ∧
    (max_us e.2 = d_zero ∨ d_ltb d_zero (max_us e.2) = true)) l.

(** What the file keeps of a timing: all but the samples, whose greatest is
    taken for the only one. *)
Definition summary (t : ProfTiming) : ProfTiming := mkTiming (t_calls t) (total_us t) (max_us t) [max_us t].

Definition set_totals (t t' : ProfTiming) : ProfTiming := mkTiming (t_calls t) (total_us t) (max_us t') (samples t').

Definition timing_step (l : list (bytes * ProfTiming)) (e : bytes * ProfTiming) : list (bytes * ProfTiming) :=
  update (set_totals e.2) fresh_timing (update (count_timing (max_us e.2)) fresh_timing l e.1) e.1.

Lemma timing_from_step p (e : bytes * ProfTiming) :
  JsonObject.is_valid_utf8 e.1 = true → fits (t_calls e.2) → sorted (timings p) →
  timing_from_json out_of_range p (timing_to_json e) = set_timings (timing_step (timings p) e) p.
Proof.
  intros Hu Hf Ht. unfold timing_to_json. cbn zeta. rewrite set_string_valid by done.
  unfold timing_from_json. cbn zeta. generalize (prof_timing_p99 e.2). intros p99. set (o := json_value_get_object _).
  assert (json_object_get_string o "func" = Some e.1) as -> by done.
  assert (json_object_get_number o "calls" = d_nat (t_calls e.2)) as -> by done.
  assert (json_object_get_number o "total_us" = total_us e.2) as -> by done.
  assert (json_object_get_number o "max_us" = max_us e.2) as -> by done. clear o.
  unfold prof_timing_add. cbn [timings set_timings]. set (f := count_timing _).
  destruct (find_updated f fresh_timing (timings p) e.1 Ht) as [i Hi]. rewrite Hi. rewrite d_size_nat by done.
  unfold timing_step. fold f. by rewrite <- (alter_found (set_totals e.2) fresh_timing _ _ _ Hi).
Qed.

Lemma timing_step_map l (e : bytes * ProfTiming) :
  max_us e.2 = d_zero ∨ d_ltb d_zero (max_us e.2) = true → sorted l → tmap l !! e.1 = None →
  sorted (timing_step l e) ∧ tmap (timing_step l e) = <[e.1 := summary e.2]> (tmap l).
Proof.
  intros Hm Ht Hn. unfold timing_step. destruct (add_set (count_timing (max_us e.2)) (set_totals e.2) fresh_timing l e.1 Ht) as [H1 H2].
  split; [done|]. rewrite H2, Hn. cbn [default]. unfold id, set_totals, count_timing, summary, fresh_timing. cbn [max_us samples].
  f_equal. f_equal. destruct Hm as [->| ->]; done.
Qed.

Lemma timings_fold l p :
  timings_fit l → sorted (timings p) →
  foldl (timing_from_json out_of_range) p (map timing_to_json l) = set_timings (foldl timing_step (timings p) l) p.
Proof.
  intros Hl. revert p. induction Hl as [|e l (H1 & H2 & H3) _ IH]; intros p Hp; [by destruct p|].
  cbn [map foldl]. rewrite timing_from_step, IH by (try done; apply update_sorted; by apply update_sorted). done.
Qed.

Lemma filter_first {A} (P : A → Prop) `{∀ x, Decision (P x)} l1 l2 :
  Forall P l1 → Forall (λ x, ¬ P x) l2 → filter P (l1 ++ l2) = l1.
Proof.
  intros H1 H2. induction H1 as [|x l1 Hx _ IH]; cbn [app].
  - induction H2 as [|x l2 Hx _ IH]; [done|]. by rewrite filter_cons_False.
  - rewrite filter_cons_True by done. by rewrite IH.
Qed.

(** The selection takes elements of the array, each once. *)
Lemma select_sub top order : ∃ rest, select top order ++ rest ≡ₚ order.
Proof.
  revert order. induction top as [|top IH]; intros [|x rest]; [by exists []|by exists (x :: rest)|by exists []|].
  cbn [select]. destruct (rest !! _) as [y|] eqn:E; [|destruct (IH rest) as [r Hr]; exists r; cbn; by rewrite Hr].
  set (i := best_of _ _ _ _) in *. clearbody i. destruct (IH (<[i := x]> rest)) as [r Hr]. exists r. cbn. rewrite Hr.
  pose proof (lookup_lt_Some _ _ _ E). rewrite insert_take_drop by done.
  rewrite <- (take_drop_middle rest i y E) at 3. rewrite <- !Permutation_middle. constructor.
Qed.

(** The timings that a file keeps: the 20 that the selection takes. *)
Definition kept_timings (l : list (bytes * ProfTiming)) : list (bytes * ProfTiming) :=
  filter (λ e, e.1 ∈ (select (length l `min` 20) l).*1) l.

Lemma kept_perm l : sorted l → select (length l `min` 20) l ≡ₚ kept_timings l.
Proof.
  intros Hs. unfold kept_timings. destruct (select_sub (length l `min` 20) l) as [rest Hr].
  assert (NoDup l.*1) as Hn by by apply sorted_nodup. set (sel := select _ l) in *. clearbody sel.
  rewrite <- Hr, fmap_app in Hn. apply NoDup_app in Hn as (_ & Hd & _). rewrite <- Hr, filter_first; [done|..].
  - apply Forall_forall. intros e He. by apply list_elem_of_fmap_2.
  - apply Forall_forall. intros e He Hin. by eapply Hd, list_elem_of_fmap_2.
Qed.

Lemma timings_rebuilt l :
  timings_fit l → sorted l →
  foldl timing_step [] (select (length l `min` 20) l) = (λ e, (e.1, summary e.2)) <$> kept_timings l.
Proof.
  intros Hf Hl. pose proof (kept_perm l Hl) as Hp. apply rebuild; [done|by apply sorted_filter|].
  intros t e He Ht Hnone. rewrite Hp in He. apply list_elem_of_filter in He as [_ He].
  unfold timings_fit in Hf. rewrite Forall_forall in Hf. destruct (Hf e He) as (_ & _ & ?). by apply timing_step_map.
Qed.

(** *** The profile *)

Record prof_fits (p : Profile) : Prop := {
  fit_entries : fits (entries p);
  fit_functions : names_fit (functions p);
  fit_env : names_fit (env p);
  fit_net : names_fit (net p);
  fit_accesses : accesses_fit (accesses p);
  fit_timings : timings_fit (timings p);
}.

Lemma prof_to_json_members p :
  let root := Some (prof_to_json p) in
  json_object_get_number root "entries" = d_nat (entries p) ∧
  json_object_get_array root "functions" = Some (map name_to_json (functions p)) ∧
  json_object_get_array root "env" = Some (map name_to_json (env p)) ∧
  json_object_get_array root "net" = Some (map name_to_json (net p)) ∧
  json_object_get_array root "accesses" = Some (map access_to_json (accesses p)) ∧
  default [] (json_object_get_array root "timings") =
    map timing_to_json (select (length (timings p) `min` 20) (timings p)).
Proof.
  unfold prof_to_json, names_to_json. cbn zeta.
  generalize (d_nat (entries p)), (map name_to_json (functions p)), (map name_to_json (env p)), (map name_to_json (net p)),
    (map access_to_json (accesses p)). intros d a1 a2 a3 a4.
  destruct (timings p) as [|t ts]; [done|]. by generalize (map timing_to_json (select (length (t :: ts) `min` 20) (t :: ts))).
Qed.

(** What is left of a profile after a file. *)
Definition reread (p : Profile) : Profile :=
  mkProfile (functions p) (env p) (net p) ((λ e, (e.1, main_class e.2)) <$> accesses p)
    ((λ e, (e.1, summary e.2)) <$> kept_timings (timings p)) (entries p) 0.

Lemma from_to_json p : prof_ok p → prof_fits p → prof_from_json out_of_range (Some (prof_to_json p)) = Some (reread p).
Proof.
  intros [O1 O2 O3 O4 O5] [F1 F2 F3 F4 F5 F6]. destruct (prof_to_json_members p) as (E1 & E2 & E3 & E4 & E5 & E6).
  unfold prof_from_json. cbn zeta. rewrite E1, E5, E6, d_size_nat by done. cbn [functions env net set_functions set_env].
  rewrite (names_round_trip (functions p) _ _ O1 F2 E2), (names_round_trip (env p) _ _ O2 F3 E3).
  rewrite timings_fold; [|apply Forall_forall; intros e He; rewrite kept_perm in He by done; apply list_elem_of_filter in He as [_ He]; unfold timings_fit in F6; rewrite Forall_forall in F6; by apply F6|constructor].
  cbn [timings set_timings set_env set_functions]. rewrite timings_rebuilt by done. cbn [net set_timings set_env set_functions].
  rewrite (names_round_trip (net p) _ _ O3 F4 E4). cbn [default]. unfold id. rewrite accesses_fold by (try done; constructor).
  cbn [accesses set_net set_timings set_env set_functions]. rewrite accesses_rebuilt by done.
  unfold prof_finish. cbn [functions env net accesses timings entries no_pid set_functions set_env set_net set_timings set_accesses].
  by rewrite !names_finish_id.
Qed.

(** A profile that is written and read again is the profile:
    names, counts and entries are kept, an access keeps its hits and the strongest
    of its classes, and the 20 timings of the greatest totals their calls, total
    and maximum. *)
Theorem profile_round_trip p :
  prof_ok p → prof_fits p → prof_from_json out_of_range (Some (prof_to_json p)) = Some (reread p).
Proof. apply from_to_json. Qed.

(** The quantile of a timing that was read is the maximum. *)
Lemma p99_read t : prof_timing_p99 (summary t) = max_us t.
Proof.
  unfold prof_timing_p99, summary. cbn [samples length]. destruct (qsort_sorts d_cmp [max_us t]) as [Hp _].
  { split; intros; [apply d_cmp_antisym|by eapply d_cmp_le_trans]. }
  apply Permutation_singleton_r in Hp. by rewrite Hp.
Qed.

(** *** What is read is sorted *)

Lemma alter_sorted {A} (f : A → A) i (t : list (bytes * A)) : sorted t → sorted (alter (λ e : bytes * A, (e.1, f e.2)) i t).
Proof. unfold sorted. intros Ht. change (map fst ?l) with (l.*1). by rewrite alter_fst. Qed.

Lemma name_from_sorted n v : sorted n → sorted (name_from_json out_of_range n v).
Proof.
  intros Hn. unfold name_from_json. cbn zeta. destruct (nonempty _) as [name|]; [|done]. pose proof (names_add_sorted n (Some name) Hn).
  destruct (find _ _); [|done]. destruct (d_ltb _ _); [|done]. by apply (alter_sorted (λ _, _)).
Qed.

Lemma names_from_sorted n root key : sorted n → sorted (names_from_json out_of_range n root key).
Proof.
  unfold names_from_json. generalize (default [] (json_object_get_array (Some root) key)). intros l. revert n.
  induction l as [|v l IH]; intros n Hn; [done|]. cbn. by apply IH, name_from_sorted.
Qed.

Lemma timing_from_ok p v : prof_ok p → prof_ok (timing_from_json out_of_range p v).
Proof.
  intros [? ? ? ? ?]. unfold timing_from_json. cbn zeta. destruct (json_object_get_string _ _) as [f|]; [|by split].
  unfold prof_timing_add. cbn [timings set_timings]. destruct (find _ _); split; try done; cbn; [|by apply update_sorted].
  apply (alter_sorted (λ t, mkTiming _ _ (max_us t) (samples t))). by apply update_sorted.
Qed.

Lemma access_from_ok p v : prof_ok p → prof_ok (access_from_json out_of_range p v).
Proof.
  intros [? ? ? ? ?]. unfold access_from_json. cbn zeta. destruct (nonempty _) as [f|]; [|by split].
  unfold access_add. cbn [accesses set_accesses]. destruct (find _ _); [destruct (d_ltb _ _)|]; split; try done; cbn; try by apply update_sorted.
  apply (alter_sorted (λ a, mkAccess (class_write a) (class_read a) (class_probe a) _)). by apply update_sorted.
Qed.

Lemma fold_ok (f : Profile → JSON_Value → Profile) l p : (∀ p v, prof_ok p → prof_ok (f p v)) → prof_ok p → prof_ok (foldl f p l).
Proof. intros Hf. revert p. induction l as [|v l IH]; intros p Hp; [done|]. cbn. by apply IH, Hf. Qed.

Lemma from_json_ok root p : prof_from_json out_of_range root = Some p → prof_ok p.
Proof.
  destruct root as [root|]; [|done]. unfold prof_from_json. cbn zeta. intros [= <-]. rewrite finish_id.
  all: apply fold_ok; [apply access_from_ok|]; set (q := foldl _ _ _); assert (prof_ok q) as [? ? ? ? ?]
    by (apply fold_ok; [apply timing_from_ok|]; split; cbn; try constructor; apply names_from_sorted; constructor);
    split; try done; apply names_from_sorted; done.
Qed.

End round_trip.

(** A trace of three calls, one of them timed. *)
Definition sample_trace : list JSON_Object :=
  [[(lit "pid", JSONNumber (d_int 7)); (lit "message", JSONObject [(lit "func", JSONString (lit "open")); (lit "path", JSONString (lit "/etc/hosts"))])];
   [(lit "message", JSONObject [(lit "func", JSONString (lit "unlink")); (lit "path", JSONString (lit "/tmp/x"))])];
   [(lit "message", JSONObject [(lit "func", JSONString (lit "open")); (lit "call_duration_us", JSONNumber (d_int 12))])];
   [(lit "message", JSONObject [(lit "func", JSONString (lit "getenv")); (lit "name", JSONString (lit "HOME"))])]].

Lemma profile_round_trip_witness :
  prof_from_json (λ _, 0%Z) (Some (prof_to_json (profile_of sample_trace))) =
    Some (mkProfile [(lit "getenv", 1); (lit "open", 1); (lit "unlink", 1)] [(lit "HOME", 1)] []
            [(lit "/etc/hosts", mkAccess false true false 1); (lit "/tmp/x", mkAccess true false false 1)]
            [(lit "open", mkTiming 1 (d_int 12) (d_int 12) [d_int 12])] 4 0).
Proof.
  apply (profile_round_trip (λ _, 0%Z) (profile_of sample_trace)).
  - apply profile_of_ok.
  - replace (profile_of sample_trace) with (mkProfile [(lit "getenv", 1); (lit "open", 1); (lit "unlink", 1)] [(lit "HOME", 1)] []
      [(lit "/etc/hosts", mkAccess false true false 1); (lit "/tmp/x", mkAccess true false false 1)]
      [(lit "open", mkTiming 1 (d_int 12) (d_int 12) [d_int 12])] 4 3) by reflexivity.
    split; try done; repeat (apply Forall_cons || apply Forall_nil || split); try done; cbn; try lia; by right.
Defined.

End Profile.
