(* ===== verification/ProfileDiff.v ===== *)
(** * What changed between two profiles

    [tools/profiler/diff.c]: the drift from a baseline to a candidate, over
    their sorted arrays, and its JSON; and the grading of
    [tools/profiler/profile.c] of the paths the kernel saw against those that
    the libc layer claims. A class of -1 is [None]. Allocations succeed. *)

From stdpp Require Import sorting.
From S2P Require Import Prelude Libc Stdio Json JsonText PolicySig JsonObject SortedTable Correlate Profile.
Import Libc Stdio Json JsonText SortedTable Correlate Profile.

Module ProfileDiff.

(** ** The drift *)

Record ProfPathChange := mkChange {
  c_path : bytes; class_from : option CorrClass; class_to : option CorrClass; hits_from : nat; hits_to : nat }.

Record ProfDiff := mkDiff {
  changes : list ProfPathChange; new_functions : list bytes; new_env : list bytes; new_net : list bytes }.

Definition prof_diff_init : ProfDiff := mkDiff [] [] [] [].

Definition change_add (d : ProfDiff) (path : bytes) (from to : option CorrClass) (hits_from hits_to : nat) : ProfDiff :=
  mkDiff (changes d ++ [mkChange path from to hits_from hits_to]) (new_functions d) (new_env d) (new_net d).

Definition path_class (a : ProfAccess) : CorrClass :=
  if class_write a then CORR_CLS_WRITE
  else if class_read a then CORR_CLS_READ
  else if class_probe a then CORR_CLS_PROBE
  else CORR_CLS_NONE.

Definition name_add (arr : list bytes) (name : bytes) : list bytes := arr ++ [name].

Definition new_function_add (d : ProfDiff) (name : bytes) : ProfDiff :=
  mkDiff (changes d) (name_add (new_functions d) name) (new_env d) (new_net d).

(** The loop over the paths, with the drift found so far. *)
Definition diff_paths : list (bytes * ProfAccess) → list (bytes * ProfAccess) → ProfDiff * bool → ProfDiff * bool :=
  merge_walk
    (λ a s, (change_add s.1 a.1 (Some (path_class a.2)) None (hits a.2) 0, true))
    (λ b s, (change_add s.1 b.1 None (Some (path_class b.2)) 0 (hits b.2), true))
    (λ a b s,
       let from := path_class a.2 in
       let to := path_class b.2 in
       if bool_decide (from ≠ to) then (change_add s.1 a.1 (Some from) (Some to) (hits a.2) (hits b.2), true) else s).

(** The loop over the functions. *)
Definition diff_functions : ProfNames → ProfNames → ProfDiff * bool → ProfDiff * bool :=
  merge_walk (λ _ s, s) (λ fc s, (new_function_add s.1 fc.1, true)) (λ _ _ s, s).

Definition diff_env (baseline candidate : ProfNames) (s : ProfDiff * bool) : ProfDiff * bool :=
  foldl (λ s e, if prof_names_get baseline e.1 =? 0 then
                  (mkDiff (changes s.1) (new_functions s.1) (name_add (new_env s.1) e.1) (new_net s.1), true) else s) s candidate.

Definition diff_net (baseline candidate : ProfNames) (s : ProfDiff * bool) : ProfDiff * bool :=
  foldl (λ s e, if prof_names_get baseline e.1 =? 0 then
                  (mkDiff (changes s.1) (new_functions s.1) (new_env s.1) (name_add (new_net s.1) e.1), true) else s) s candidate.

Definition prof_diff_compute (baseline candidate : Profile) : ProfDiff * bool :=
  let s := diff_paths (accesses baseline) (accesses candidate) (prof_diff_init, false) in
  let s := diff_functions (functions baseline) (functions candidate) s in
  let s := diff_env (env baseline) (env candidate) s in
  diff_net (net baseline) (net candidate) s.

(** ** Its JSON *)

Definition cls_str (cls : option CorrClass) : bytes :=
  match cls with None => lit "-" | Some cls => corr_class_str cls end.

Definition change_to_json (c : ProfPathChange) : JSON_Value :=
  let obj := set_string [] "path" (c_path c) in
  let obj :=
    match class_from c, class_to c with
    | None, _ => set_string obj "change" (lit "added")
    | _, None => set_string obj "change" (lit "removed")
    | _, _ =>
        set_string (set_string (set_string obj "change" (lit "class")) "from" (cls_str (class_from c))) "to" (cls_str (class_to c))
    end in
  JSONObject (set_number (set_number obj "hits_from" (d_nat (hits_from c))) "hits_to" (d_nat (hits_to c))).

(** The strings that an array takes. *)
Definition append_strings (l : list bytes) : JSON_Array :=
  foldl (λ a s, default a (JsonObject.json_array_append_string a s)) [] l.

Definition prof_diff_to_json (d : ProfDiff) : JSON_Object :=
  let any := (0 <? length (changes d)) || (0 <? length (new_functions d)) in
  let root := set_value [] "path_changes" (JSONArray (map change_to_json (changes d))) in
  let root := set_value root "new_functions" (JSONArray (map (λ n, JSONObject (set_string [] "name" n)) (new_functions d))) in
  let root := set_value root "new_env" (JSONArray (append_strings (new_env d))) in
  let root := set_value root "new_net" (JSONArray (append_strings (new_net d))) in
  default root (JsonObject.json_object_set_boolean root (lit "drift") any).

(** ** The kernel's paths against libc's *)

Record Delta := mkDelta { agreed : Z; libc_only : Z; kernel_only : Z; risk_arr : JSON_Array }.

Definition delta_step (libc : Profile) (d : Delta) (ka : bytes * ProfAccess) : Delta :=
  match prof_access_get libc ka.1 with
  | Some _ => mkDelta (u64 (agreed d + 1)) (u64 (libc_only d - 1)) (kernel_only d) (risk_arr d)
  | None =>
      mkDelta (agreed d) (libc_only d) (u64 (kernel_only d + 1))
        (risk_arr d ++ [JSONObject (set_number (set_string [] "path" ka.1) "hits" (d_nat (hits ka.2)))])
  end.

Definition delta_compute (libc kernel : Profile) : Delta :=
  foldl (delta_step libc) (mkDelta 0 (Z.of_nat (length (accesses libc))) 0 []) (accesses kernel).

(** ** What the drift is *)

(** The change of a path that has [oa] in the baseline and [ob] in the
    candidate. *)
Definition change_of (e : bytes * (option ProfAccess * option ProfAccess)) : option ProfPathChange :=
  match e.2 with
  | (Some a, None) => Some (mkChange e.1 (Some (path_class a)) None (hits a) 0)
  | (None, Some b) => Some (mkChange e.1 None (Some (path_class b)) 0 (hits b))
  | (Some a, Some b) =>
      if decide (path_class a = path_class b) then None
      else Some (mkChange e.1 (Some (path_class a)) (Some (path_class b)) (hits a) (hits b))
  | (None, None) => None
  end.

Lemma change_of_path e c : change_of e = Some c → c_path c = e.1.
Proof. unfold change_of. intros H. repeat case_match; by simplify_eq. Qed.

Definition is_cons {A} (l : list A) : bool := 0 <? length l.

Definition only_new (e : bytes * (option nat * option nat)) : option bytes :=
  match e.2 with (None, Some _) => Some e.1 | _ => None end.

Lemma is_cons_app {A} (l r : list A) : is_cons (l ++ r) = is_cons l || is_cons r.
Proof. by destruct l. Qed.

Lemma diff_paths_join a b d drift :
  diff_paths a b (d, drift) =
    (mkDiff (changes d ++ omap change_of (join a b)) (new_functions d) (new_env d) (new_net d),
     drift || is_cons (omap change_of (join a b))).
Proof.
  set (add := λ (s : ProfDiff * bool) e, match change_of e with
     | Some c => (mkDiff (changes s.1 ++ [c]) (new_functions s.1) (new_env s.1) (new_net s.1), true) | None => s end).
  unfold diff_paths. rewrite (merge_walk_join _ _ _ _ _ _ add); [|done|done|].
  - generalize (join a b). intros l. revert d drift. induction l as [|e l IH]; intros d drift.
    { cbn. destruct d. by rewrite app_nil_r, orb_false_r. }
    cbn [foldl omap list_omap]. unfold add at 2. destruct (change_of e) as [c|]; [|apply IH].
    cbn [fst snd]. rewrite IH. cbn. by rewrite <- app_assoc, orb_true_r.
  - intros x y s _. unfold add, change_of. cbn. case_decide as E; [by rewrite bool_decide_false by auto|].
    by rewrite bool_decide_true by done.
Qed.

Lemma diff_functions_join a b d drift :
  diff_functions a b (d, drift) =
    (mkDiff (changes d) (new_functions d ++ omap only_new (join a b)) (new_env d) (new_net d),
     drift || is_cons (omap only_new (join a b))).
Proof.
  set (add := λ (s : ProfDiff * bool) e, match only_new e with Some f => (new_function_add s.1 f, true) | None => s end).
  unfold diff_functions. rewrite (merge_walk_join _ _ _ _ _ _ add) by done.
  generalize (join a b). intros l. revert d drift. induction l as [|e l IH]; intros d drift.
  { cbn. destruct d. by rewrite app_nil_r, orb_false_r. }
  cbn [foldl omap list_omap]. unfold add at 2. destruct (only_new e) as [c|]; [|apply IH].
  cbn [fst snd]. rewrite IH. cbn. unfold name_add. by rewrite <- app_assoc, orb_true_r.
Qed.

(** The names of the candidate that the baseline has not. *)
Definition unseen (baseline candidate : ProfNames) : list bytes :=
  (filter (λ e : bytes * nat, prof_names_get baseline e.1 = 0) candidate).*1.

Lemma diff_env_unseen a b d drift :
  diff_env a b (d, drift) =
    (mkDiff (changes d) (new_functions d) (new_env d ++ unseen a b) (new_net d), drift || is_cons (unseen a b)).
Proof.
  unfold diff_env, unseen. revert d drift. induction b as [|e b IH]; intros d drift.
  { cbn. destruct d. by rewrite app_nil_r, orb_false_r. }
  cbn [foldl]. rewrite filter_cons. case_decide as E.
  - rewrite (proj2 (Nat.eqb_eq _ _) E). cbn [fst snd]. rewrite IH. cbn. unfold name_add. by rewrite <- app_assoc, orb_true_r.
  - rewrite (proj2 (Nat.eqb_neq _ _) E). apply IH.
Qed.

Lemma diff_net_unseen a b d drift :
  diff_net a b (d, drift) =
    (mkDiff (changes d) (new_functions d) (new_env d) (new_net d ++ unseen a b), drift || is_cons (unseen a b)).
Proof.
  unfold diff_net, unseen. revert d drift. induction b as [|e b IH]; intros d drift.
  { cbn. destruct d. by rewrite app_nil_r, orb_false_r. }
  cbn [foldl]. rewrite filter_cons. case_decide as E.
  - rewrite (proj2 (Nat.eqb_eq _ _) E). cbn [fst snd]. rewrite IH. cbn. unfold name_add. by rewrite <- app_assoc, orb_true_r.
  - rewrite (proj2 (Nat.eqb_neq _ _) E). apply IH.
Qed.

Lemma compute_eq b c :
  let paths := omap change_of (join (accesses b) (accesses c)) in
  let funcs := omap only_new (join (functions b) (functions c)) in
  prof_diff_compute b c =
    (mkDiff paths funcs (unseen (env b) (env c)) (unseen (net b) (net c)),
     is_cons paths || is_cons funcs || is_cons (unseen (env b) (env c)) || is_cons (unseen (net b) (net c))).
Proof. cbn. unfold prof_diff_compute. by rewrite diff_paths_join, diff_functions_join, diff_env_unseen, diff_net_unseen. Qed.

Lemma is_cons_elem {A} (l : list A) : is_cons l = false ↔ ∀ x, x ∉ l.
Proof.
  destruct l as [|y l]; cbn; [split; [intros _ x; apply not_elem_of_nil|done]|]. split; [done|]. intros H. destruct (H y). by left.
Qed.

Lemma unseen_elem a b f : sorted b → f ∈ unseen a b ↔ is_Some (get b f) ∧ prof_names_get a f = 0.
Proof.
  intros Hb. unfold unseen. rewrite list_elem_of_fmap, get_map by done. split.
  - intros ([k n] & -> & H). apply list_elem_of_filter in H as [H1 H2]. split; [|done]. exists n. by apply tmap_elem.
  - intros [[n Hn] H0]. exists (f, n). split; [done|]. apply list_elem_of_filter. split; [done|]. by apply tmap_elem.
Qed.

(** Whether a path is the same in both, up to hits. *)
Definition same_class (b c : Profile) (path : bytes) : Prop :=
  path_class <$> prof_access_get b path = path_class <$> prof_access_get c path.

Lemma same_class_change b c path :
  same_class b c path ↔ change_of (path, (prof_access_get b path, prof_access_get c path)) = None.
Proof.
  unfold same_class, change_of. cbn. destruct (prof_access_get b path), (prof_access_get c path); cbn; try by split.
  case_decide as E; [by rewrite E|]. split; [by intros [=]|done].
Qed.

Lemma changes_elem b c ch :
  prof_ok b → prof_ok c →
  ch ∈ omap change_of (join (accesses b) (accesses c)) ↔
    change_of (c_path ch, (prof_access_get b (c_path ch), prof_access_get c (c_path ch))) = Some ch.
Proof.
  intros [_ _ _ Hb _] [_ _ _ Hc _]. rewrite list_elem_of_omap. unfold prof_access_get. rewrite !get_map by done. split.
  - intros ([k o] & Hin & Hch). apply join_spec in Hin as [-> _]; [|done..]. pose proof (change_of_path _ _ Hch) as Hp. cbn in Hp. by rewrite Hp.
  - intros Hch. eexists. split; [|exact Hch]. apply join_spec; [done..|]. split; [done|]. intros E. by rewrite E in Hch.
Qed.

Lemma changes_sorted l : StronglySorted before l.*1 → StronglySorted before (c_path <$> omap change_of l).
Proof.
  induction l as [|e l IH]; cbn; [constructor|]. intros Hs. inversion_clear Hs as [|? ? Hl He].
  destruct (change_of e) as [ch|] eqn:E; [|by apply IH]. cbn. constructor; [by apply IH|].
  apply Forall_fmap, Forall_forall. intros ch' Hin. apply list_elem_of_omap in Hin as (e' & Hin & E').
  cbn. rewrite (change_of_path _ _ E), (change_of_path _ _ E'). rewrite Forall_forall in He. by apply He, list_elem_of_fmap_2.
Qed.

Lemma new_elem a b f : sorted a → sorted b → f ∈ omap only_new (join a b) ↔ get a f = None ∧ is_Some (get b f).
Proof.
  intros Ha Hb. rewrite list_elem_of_omap, !get_map by done. split.
  - intros ([k o] & Hin & Hf). apply join_spec in Hin as [-> _]; [|done..]. unfold only_new, sides in Hf. cbn in Hf.
    destruct (tmap a !! k) eqn:E1, (tmap b !! k) eqn:E2; simplify_eq. by rewrite E1, E2.
  - intros [Hn [n Hs]]. exists (f, (None, Some n)). split; [|done]. apply join_spec; [done..|]. unfold sides. by rewrite Hn, Hs.
Qed.

Lemma no_changes b c :
  prof_ok b → prof_ok c → is_cons (omap change_of (join (accesses b) (accesses c))) = false ↔ ∀ path, same_class b c path.
Proof.
  intros Hb Hc. rewrite is_cons_elem. split.
  - intros H path. apply same_class_change. destruct (change_of _) as [ch|] eqn:E; [exfalso|done].
    apply (H ch), changes_elem; [done..|]. pose proof (change_of_path _ _ E) as Hp. cbn in Hp. by rewrite Hp.
  - intros H ch Hin. apply changes_elem in Hin; [|done..]. pose proof (H (c_path ch)) as Hs. apply same_class_change in Hs. congruence.
Qed.

Lemma is_cons_nil {A} (l : list A) : is_cons l = false ↔ l = [].
Proof. by destruct l. Qed.

(** The report between two profiles is the difference of what
    they say: a path is in it exactly when it is new, gone or of another class,
    once and in order; a function is new exactly when only the candidate has it;
    an environment name or an address when the baseline does not count it. There
    is no drift exactly when nothing of this is. *)
Theorem profile_diff_exact b c :
  prof_ok b → prof_ok c →
  let d := (prof_diff_compute b c).1 in
  (∀ ch, ch ∈ changes d ↔
     change_of (c_path ch, (prof_access_get b (c_path ch), prof_access_get c (c_path ch))) = Some ch) ∧
  StronglySorted before (c_path <$> changes d) ∧
  (∀ f, f ∈ new_functions d ↔ get (functions b) f = None ∧ is_Some (get (functions c) f)) ∧
  (∀ n, n ∈ new_env d ↔ is_Some (get (env c) n) ∧ prof_names_get (env b) n = 0) ∧
  (∀ n, n ∈ new_net d ↔ is_Some (get (net c) n) ∧ prof_names_get (net b) n = 0) ∧
  ((prof_diff_compute b c).2 = false ↔
     (∀ path, same_class b c path) ∧ new_functions d = [] ∧ new_env d = [] ∧ new_net d = []).
Proof.
  intros Hb Hc. cbn zeta. rewrite (compute_eq b c). cbn [fst snd changes new_functions new_env new_net].
  split; [intros ch; by apply changes_elem|]. split; [apply changes_sorted, join_sorted; [apply Hb|apply Hc]|].
  split; [intros f; apply new_elem; [apply Hb|apply Hc]|]. split; [intros n; apply unseen_elem, Hc|]. split; [intros n; apply unseen_elem, Hc|].
  rewrite !orb_false_iff, no_changes, !is_cons_nil by done. tauto.
Qed.

Definition base_trace : list JSON_Object :=
  [[(lit "message", JSONObject [(lit "func", JSONString (lit "open")); (lit "path", JSONString (lit "/etc/hosts"))])];
   [(lit "message", JSONObject [(lit "func", JSONString (lit "open")); (lit "path", JSONString (lit "/tmp/x"))])]].

Lemma profile_diff_exact_witness :
  let d := (prof_diff_compute (profile_of base_trace) (profile_of sample_trace)).1 in
  changes d = [mkChange (lit "/tmp/x") (Some CORR_CLS_READ) (Some CORR_CLS_WRITE) 1 1] ∧
  new_functions d = [lit "getenv"; lit "unlink"] ∧
  (lit "HOME" ∈ new_env d ↔ is_Some (get (env (profile_of sample_trace)) (lit "HOME")) ∧
     prof_names_get (env (profile_of base_trace)) (lit "HOME") = 0).
Proof.
  split; [reflexivity|]. split; [reflexivity|].
  apply (profile_diff_exact (profile_of base_trace) (profile_of sample_trace)); apply profile_of_ok.
Defined.

(** A new name in the environment is drift, and the report says there is none. *)
Lemma json_misses_env :
  let b := profile_of [] in
  let c := profile_of [[(lit "message", JSONObject [(lit "name", JSONString (lit "HOME"))])]] in
  (prof_diff_compute b c).2 = true ∧
  json_object_get_boolean (Some (prof_diff_to_json (prof_diff_compute b c).1)) "drift" = 0%Z.
Proof. done. Qed.

(** ** What the grading is *)

(** The number of keys of a table that another has, or has not. *)
Definition count_in {A B} (t : list (bytes * A)) (u : list (bytes * B)) : nat :=
  length (filter (λ e : bytes * A, is_Some (get u e.1)) t).
Definition count_out {A B} (t : list (bytes * A)) (u : list (bytes * B)) : nat :=
  length (filter (λ e : bytes * A, get u e.1 = None) t).

Lemma count_split {A B} (t : list (bytes * A)) (u : list (bytes * B)) : count_in t u + count_out t u = length t.
Proof.
  unfold count_in, count_out. induction t as [|e t IH]; [done|]. rewrite !filter_cons. cbn [length].
  destruct (get u e.1) eqn:E; repeat case_decide; cbn [length]; try lia; naive_solver.
Qed.

Lemma count_in_dom {A B} (t : list (bytes * A)) (u : list (bytes * B)) :
  sorted t → sorted u → count_in t u = size (dom (tmap t) ∩ dom (tmap u)).
Proof.
  intros Ht Hu. unfold count_in. set (l := filter _ t).
  assert (NoDup l.*1) as Hnd. { apply (sublist_NoDup _ t.*1); [by apply sorted_nodup|apply fmap_sublist, sublist_filter]. }
  rewrite <- (length_fmap fst l), <- (size_list_to_set (C := gset bytes) l.*1) by done. f_equal. apply set_eq. intros k.
  rewrite elem_of_list_to_set, list_elem_of_fmap, elem_of_intersection, !elem_of_dom. split.
  - intros ([k' a] & -> & Hin). apply list_elem_of_filter in Hin as [Hs Hin]. cbn in *. rewrite get_map in Hs by done.
    split; [|done]. exists a. by apply tmap_elem.
  - intros [[a Ha] Hs]. exists (k, a). split; [done|]. apply list_elem_of_filter. cbn. rewrite get_map by done.
    split; [done|]. by apply tmap_elem.
Qed.

Lemma count_in_comm {A B} (t : list (bytes * A)) (u : list (bytes * B)) : sorted t → sorted u → count_in t u = count_in u t.
Proof. intros Ht Hu. rewrite !count_in_dom by done. by rewrite (comm_L (∩)). Qed.

Definition risk_of (ka : bytes * ProfAccess) : JSON_Value :=
  JSONObject (set_number (set_string [] "path" ka.1) "hits" (d_nat (hits ka.2))).

Lemma delta_fold libc ks d :
  let n := count_in ks (accesses libc) in
  let m := count_out ks (accesses libc) in
  (0 ≤ agreed d ∧ agreed d + Z.of_nat n < 2 ^ 64)%Z → (Z.of_nat n ≤ libc_only d < 2 ^ 64)%Z →
  (0 ≤ kernel_only d ∧ kernel_only d + Z.of_nat m < 2 ^ 64)%Z →
  foldl (delta_step libc) d ks =
    mkDelta (agreed d + Z.of_nat n) (libc_only d - Z.of_nat n) (kernel_only d + Z.of_nat m)
      (risk_arr d ++ map risk_of (filter (λ e : bytes * ProfAccess, get (accesses libc) e.1 = None) ks)).
Proof.
  unfold count_in, count_out. revert d. induction ks as [|k ks IH]; intros d; cbn zeta; cbn [foldl].
  { cbn. intros _ _ _. destruct d. cbn. rewrite app_nil_r. f_equal; lia. }
  rewrite !filter_cons. unfold delta_step at 2, prof_access_get. destruct (get (accesses libc) k.1) as [a|] eqn:E.
  - rewrite decide_True by done. rewrite decide_False by done. cbn [length]. rewrite !Nat2Z.inj_succ. intros H1 H2 H3.
    rewrite IH; cbn [agreed libc_only kernel_only risk_arr]; unfold u64, wrap_u; rewrite ?Z.mod_small by lia; [apply f_equal4; (lia || done)|lia..].
  - rewrite decide_False by (by intros []). rewrite decide_True by done. cbn [length map]. rewrite !Nat2Z.inj_succ. intros H1 H2 H3.
    rewrite IH; cbn [agreed libc_only kernel_only risk_arr]; unfold u64, wrap_u; rewrite ?Z.mod_small by lia; [rewrite <- app_assoc; apply f_equal4; (lia || done)|lia..].
Qed.

(** The grading counts each path once on the side it belongs:
    the paths both layers have, those only libc has, those only the kernel saw; the
    last are listed, in order, and there are none exactly when libc claims all. *)
Theorem kernel_delta_exact libc kernel :
  prof_ok libc → prof_ok kernel →
  (Z.of_nat (length (accesses libc)) < 2 ^ 64)%Z → (Z.of_nat (length (accesses kernel)) < 2 ^ 64)%Z →
  let d := delta_compute libc kernel in
  agreed d = Z.of_nat (count_in (accesses kernel) (accesses libc)) ∧
  libc_only d = Z.of_nat (count_out (accesses libc) (accesses kernel)) ∧
  kernel_only d = Z.of_nat (count_out (accesses kernel) (accesses libc)) ∧
  risk_arr d = map risk_of (filter (λ e : bytes * ProfAccess, get (accesses libc) e.1 = None) (accesses kernel)) ∧
  (kernel_only d = 0%Z ↔ ∀ path, is_Some (prof_access_get kernel path) → is_Some (prof_access_get libc path)).
Proof.
  intros Hl Hk Hnl Hnk. cbn zeta. pose proof (count_in_comm _ _ (ok_accesses _ Hl) (ok_accesses _ Hk)) as Hc.
  pose proof (count_split (accesses libc) (accesses kernel)) as S1. pose proof (count_split (accesses kernel) (accesses libc)) as S2.
  unfold delta_compute. rewrite delta_fold by (cbn; lia). cbn [agreed libc_only kernel_only risk_arr].
  split; [lia|]. split; [lia|]. split; [lia|]. split; [done|].
  transitivity (count_out (accesses kernel) (accesses libc) = 0); [lia|]. unfold count_out. rewrite length_zero_iff_nil.
  unfold prof_access_get. split.
  - intros Hnil path [a Ha]. destruct (get (accesses libc) path) eqn:E; [done|]. exfalso.
    assert ((path, a) ∈ filter (λ e : bytes * ProfAccess, get (accesses libc) e.1 = None) (accesses kernel)) as Hin.
    { apply list_elem_of_filter. split; [done|]. rewrite get_map in Ha by apply Hk. apply tmap_elem; [apply Hk|done]. }
    rewrite Hnil in Hin. by apply not_elem_of_nil in Hin.
  - intros Hall. apply elem_of_nil_inv. intros [path a] Hin. apply list_elem_of_filter in Hin as [Hn Hin]. cbn in Hn.
    apply tmap_elem in Hin; [|apply Hk]. rewrite <- get_map in Hin by apply Hk. destruct (Hall path) as [x Hx]; [by rewrite Hin|]. congruence.
Qed.

Lemma kernel_delta_exact_witness :
  let d := delta_compute (profile_of base_trace) (profile_of sample_trace) in
  agreed d = 2%Z ∧ (kernel_only d = 0%Z ↔ ∀ path, is_Some (prof_access_get (profile_of sample_trace) path) → is_Some (prof_access_get (profile_of base_trace) path)).
Proof.
  split; [reflexivity|].
  apply (kernel_delta_exact (profile_of base_trace) (profile_of sample_trace)); [apply profile_of_ok|apply profile_of_ok|vm_compute; done|vm_compute; done].
Defined.

End ProfileDiff.
