(* ===== verification/Jail.v ===== *)
(** * Jails made from profiles

    [tools/profiler/jail.c] (the configuration that confines a program to what a
    profile observed), [build_spec] of [tools/profiler/enforce.c] (the same for
    the kernel: Landlock rules, denied system calls, a container) and
    [tools/profiler/harden.c] (a fragment of a compose file). Then the whole way:
    a trace is profiled, the profile becomes a configuration, and the engine runs
    a call under it. Allocations succeed; the part of [build_spec] that is only
    compiled on macOS is left out. *)

From S2P Require Import Prelude Libc Stdio Context Json JsonText PolicySig JsonRoundTrip JsonObject ScriptResolver Sandbox Engine.
From S2P Require Import SortedTable Correlate Profile ProfileDiff.
Import Libc Stdio Context Json JsonText SortedTable Correlate Profile ProfileDiff.

Module Jail.

(** ** The configuration *)

Record ProfJailOpts := mkJailOpts {
  read_only : bool; decoy_dir : option bytes; pin_clock : Z; pin_clock_set : bool }.

Definition no_opts : ProfJailOpts := mkJailOpts false None 0 false.

Definition jail_params (paths_src : Profile) (opts : ProfJailOpts) : JSON_Object :=
  let params_o := set_value [] "allow_paths" (JSONArray (append_strings (accesses paths_src).*1)) in
  let params_o := if read_only opts then set_value params_o "deny_classes" (JSONArray (append_strings [lit "write"])) else params_o in
  match decoy_dir opts with Some dir => set_string params_o "decoy_dir" dir | None => params_o end.

Definition jail_script (paths_src : Profile) (opts : ProfJailOpts) (name : bytes) : JSON_Value :=
  let action_o := set_string [] "action_name" (lit "sandbox") in
  let action_o := set_value action_o "action_params" (JSONObject (jail_params paths_src opts)) in
  let cr := set_string [] "action_name" (lit "call_real") in
  let script_o := set_string [] "func_name" name in
  JSONObject (set_value script_o "actions" (JSONArray [JSONObject action_o; JSONObject cr])).

Definition clock_script (epoch : Z) : JSON_Value :=
  let mr := set_string [] "action_name" (lit "modify_return_value_int") in
  let mr := set_number mr "new_int" (d_of_int epoch) in
  let script_o := set_string [] "func_name" (lit "time") in
  JSONObject (set_value script_o "actions" (JSONArray [JSONObject mr])).

Definition prof_jail_config (funcs_src paths_src : Profile) (opts : ProfJailOpts) : JSON_Object :=
  let scripts := map (jail_script paths_src opts) (functions funcs_src).*1 in
  let scripts := if pin_clock_set opts then scripts ++ [clock_script (pin_clock opts)] else scripts in
  set_value [] "intercept_scripts" (JSONArray scripts).

(** ** The kernel's filters *)

Definition g_sys_prefixes : list bytes :=
  map lit ["/usr"; "/lib"; "/lib64"; "/bin"; "/sbin"; "/opt"; "/etc/ld.so.cache"; "/etc/ld.so.preload"; "/proc/self"]%string.

Definition g_unsafe_syscalls : list bytes :=
  map lit ["socket"; "socketpair"; "connect"; "accept"; "accept4"; "sendto"; "recvfrom"; "bind"; "listen"; "shutdown";
           "ptrace"; "mount"; "umount2"; "reboot"; "swapon"; "swapoff"; "setuid"; "setgid"; "unshare"; "setns"; "bpf";
           "keyctl"; "request_key"; "add_key"; "pivot_root"; "kexec_load"; "perf_event_open"; "fanotify_init";
           "userfaultfd"; "init_module"; "finit_module"; "delete_module"]%string.

Definition profile_uses (p : Profile) (fn : bytes) : bool := existsb (λ n, streq n fn) (functions p).*1.

Definition landlock_rule (path : bytes) (access : list bytes) : JSON_Value :=
  JSONObject (set_value (set_string [] "path" path) "access" (JSONArray (append_strings access))).

Definition landlock_rules (allow_src : Profile) (exec_path : option bytes) : JSON_Array :=
  map (λ a : bytes * ProfAccess,
         landlock_rule a.1 ([lit "rd"] ++ (if class_write a.2 then [lit "wr"] else []) ++ [lit "x"])) (accesses allow_src) ++
  map (λ r, landlock_rule r [lit "rd"; lit "x"]) g_sys_prefixes ++
  match exec_path with Some e => [landlock_rule e [lit "rd"; lit "x"]] | None => [] end.

Definition seccomp_deny (usage_src : Profile) : list bytes :=
  filter (λ fn, profile_uses usage_src (snprintf 32 fn) = false) g_unsafe_syscalls.

Fixpoint seed_hash (seed : bytes) (h : Z) : Z :=
  match seed with
  | [] => h
  | c :: seed => seed_hash seed (u64 (Z.lxor h (uchar c) * 1099511628211))
  end.

Definition container_name (exec_path : option bytes) : bytes :=
  let seed := default (lit "retrace") exec_path in
  snprintf 128 (lit "retrace." ++ fmt_hex 16 (seed_hash seed 1469598103934665603)).

(** The paths of the two lists, in order. *)
Definition container_paths (allow_src : Profile) (write : bool) : list bytes :=
  omap (λ a : bytes * ProfAccess,
          if bool_decide (a.1 = []) then None
          else if class_write a.2 then (if write then Some a.1 else None)
          else if class_read a.2 then (if write then None else Some a.1)
          else None) (accesses allow_src).

Definition build_spec (allow_src usage_src : Profile) (exec_path : option bytes)
    (want_landlock want_seccomp want_ac : bool) : JSON_Object :=
  let root := default [] (JsonObject.json_object_set_boolean [] (lit "no_new_privs") true) in
  let root :=
    if want_landlock then
      set_value root "landlock" (JSONObject (set_value [] "rules" (JSONArray (landlock_rules allow_src exec_path)))) else root in
  let root :=
    if want_seccomp then
      set_value root "seccomp" (JSONObject (set_value [] "deny" (JSONArray (append_strings (seccomp_deny usage_src))))) else root in
  if want_ac then
    let ac := set_string [] "name" (container_name exec_path) in
    let ac := set_value ac "read_paths" (JSONArray (append_strings (container_paths allow_src false))) in
    let ac := set_value ac "write_paths" (JSONArray (append_strings (container_paths allow_src true))) in
    set_value root "appcontainer" (JSONObject ac)
  else root.

(** ** The compose fragment *)

Definition DQ : ascii := "034".
Definition TAB : ascii := "009".

Fixpoint yaml_chars (dstsz : nat) (s dst : bytes) : bytes :=
  match s with
  | [] => dst
  | c :: s =>
      if length dst + 7 <? dstsz then
        let esc :=
          if ceq c DQ || ceq c "\" then ["\"%char; c]
          else if ceq c NL then ["\"%char; "n"%char]
          else if ceq c TAB then ["\"%char; "t"%char]
          else [c] in
        yaml_chars dstsz s (dst ++ esc)
      else dst
  end.

Definition yaml_q (s : bytes) (dstsz : nat) : bytes := yaml_chars dstsz s [DQ] ++ [DQ].

Definition line (s : bytes) : bytes := s ++ [NL].

Definition volume_line (a : bytes * ProfAccess) : bytes :=
  if bool_decide (a.1 = []) then []
  else
    let q := yaml_q a.1 1024 in
    line (lit "      - " ++ q ++ lit ":" ++ q ++ (if class_write a.2 then lit ":rw" else lit ":ro")).

Definition env_line (e : bytes * nat) : bytes := line (lit "      " ++ yaml_q e.1 1024 ++ lit ": " ++ [DQ; DQ]).

Definition prof_harden_compose (p : Profile) : bytes :=
  line (lit "# retrace harden: the jail as container policy") ++
  line (lit "# derived from the observed profile -- bind paths as") ++
  line (lit "# your deployment requires; classes are observed") ++
  line (lit "services:") ++ line (lit "  app:") ++ line (lit "    image: REPLACE_ME") ++ line (lit "    read_only: true") ++
  line (lit "    cap_drop:") ++ line (lit "      - ALL") ++
  line (lit "    security_opt:") ++ line (lit "      - no-new-privileges:true") ++
  (if 0 <? length (net p) then
     line (lit "    # profile observed network activity --") ++ line (lit "    # constrain it with your platform's policy")
   else line (lit "    network_mode: " ++ [DQ] ++ lit "none" ++ [DQ])) ++
  line (lit "    volumes:") ++ concat (map volume_line (accesses p)) ++
  (if 0 <? length (env p) then
     line (lit "    # env whitelist: fill the values") ++ line (lit "    environment:") ++ concat (map env_line (env p))
   else []).

(** ** A call under the jail *)

Abbreviation valid s := (JsonObject.is_valid_utf8 s = true).

Lemma append_strings_valid l : append_strings l = JSONString <$> filter (λ s, valid s) l.
Proof.
  unfold append_strings. assert (∀ a, foldl (λ a s, default a (JsonObject.json_array_append_string a s)) a l =
    a ++ (JSONString <$> filter (λ s, valid s) l)) as H; [|apply H].
  induction l as [|s l IH]; intros a; [by rewrite app_nil_r|]. cbn [foldl]. rewrite IH, filter_cons.
  unfold JsonObject.json_array_append_string, JsonObject.json_value_init_string.
  destruct (JsonObject.is_valid_utf8 s) eqn:E; [rewrite decide_True by done|rewrite decide_False by done]; cbn; [|done].
  by rewrite <- app_assoc.
Qed.

Section run.
Context {W : Type} (mem_of : W → Sandbox.memory) (reg_of : W → Sandbox.registry)
  (put : Sandbox.memory → Sandbox.registry → W → W).

(** What fails of the allocations, the decoy's buffer and the addresses of the
    arrays. *)
Context (set_alloc first_alloc last_alloc : bool) (fake : Z) (addr : string → Z) (content : Z → JSON_Array).

(** The sandbox as an action of the engine. *)
Definition sandbox_action : Engine.action_fn (W := W) := λ t action_params w,
  let o := Sandbox.ia_sandbox set_alloc first_alloc last_alloc fake addr (mem_of w) t action_params (reg_of w) in
  (Sandbox.out_code o, Sandbox.out_ctx o, put (Sandbox.out_mem o) (Sandbox.out_reg o) w).

Context (actions_get : bytes → option (Engine.action_fn (W := W))) (call_real : Engine.action_fn (W := W)).
Context (rc_dladdr : Z → option ScriptResolver.dl_info).

Hypothesis has_sandbox : actions_get (lit "sandbox") = Some sandbox_action.
Hypothesis has_call_real : actions_get (lit "call_real") = Some call_real.

Definition script_object (paths : Profile) (opts : ProfJailOpts) (f : bytes) : JSON_Object :=
  default [] (json_value_get_object (Some (jail_script paths opts f))).

Lemma script_members paths opts f :
  let s := Some (script_object paths opts f) in
  json_object_get_string s "func_name" = (if JsonObject.is_valid_utf8 f then Some f else None) ∧
  json_object_get_array s "caller_matches" = None ∧ json_object_get_number s "return_addr" = d_zero ∧
  json_object_get_array s "actions" =
    Some [JSONObject [(lit "action_name", JSONString (lit "sandbox")); (lit "action_params", JSONObject (jail_params paths opts))];
          JSONObject [(lit "action_name", JSONString (lit "call_real"))]].
Proof.
  unfold script_object, jail_script. cbn zeta. generalize (jail_params paths opts). intros params.
  assert (set_string [] "func_name" f = if JsonObject.is_valid_utf8 f then [(lit "func_name", JSONString f)] else []) as ->.
  { unfold set_string, JsonObject.json_object_set_string, JsonObject.json_value_init_string. by destruct (JsonObject.is_valid_utf8 f). }
  by destruct (JsonObject.is_valid_utf8 f).
Qed.

Lemma script_choice_of paths opts g f ra :
  g ≠ lit "*" →
  ScriptResolver.script_choice rc_dladdr f ra (jail_script paths opts g) =
    if decide (g = f ∧ valid g) then (if (ra =? 0)%Z then ScriptResolver.Take else ScriptResolver.Candidate) else ScriptResolver.Skip.
Proof.
  intros Hg. destruct (script_members paths opts g) as (H1 & H2 & H3 & _).
  change (jail_script paths opts g) with (JSONObject (script_object paths opts g)). unfold ScriptResolver.script_choice.
  rewrite H1, H3. destruct (JsonObject.is_valid_utf8 g) eqn:Hv; [|by rewrite decide_False by naive_solver].
  unfold streq at 1. rewrite bool_decide_false by done. unfold streq. destruct (decide (g = f)) as [->|Hne].
  - rewrite bool_decide_true by done. rewrite decide_True by done. cbn [negb]. unfold ScriptResolver.matches_verdict.
    rewrite H2. by destruct (ra =? 0)%Z.
  - rewrite bool_decide_false by done. by rewrite decide_False by naive_solver.
Qed.

Lemma all_skip paths opts cand l f ra :
  lit "*" ∉ l → f ∉ l → ScriptResolver.chosen_from rc_dladdr cand (map (jail_script paths opts) l) f ra = cand.
Proof.
  induction l as [|g l IH]; intros Hs Hf.
  { unfold ScriptResolver.chosen_from. by destruct cand. }
  cbn [map]. rewrite not_elem_of_cons in Hs, Hf. destruct Hs, Hf.
  rewrite ScriptResolver.chosen_from_cons, script_choice_of by done. rewrite decide_False by naive_solver. by apply IH.
Qed.

(** The script of a function that the profile has is chosen for it. *)
Lemma jail_script_chosen paths opts l f ra :
  lit "*" ∉ l → NoDup l → f ∈ l → valid f →
  ScriptResolver.chosen rc_dladdr (map (jail_script paths opts) l) f ra = Some (script_object paths opts f).
Proof.
  intros Hs Hnd Hf Hv. rewrite <- ScriptResolver.chosen_from_None. induction l as [|g l IH]; [by apply not_elem_of_nil in Hf|].
  cbn [map]. rewrite not_elem_of_cons in Hs. destruct Hs as [Hg Hs]. apply NoDup_cons in Hnd as [Hn Hnd].
  rewrite ScriptResolver.chosen_from_cons, script_choice_of by done. destruct (decide (g = f)) as [->|Hne].
  - rewrite decide_True by done. destruct (ra =? 0)%Z; [done|]. by rewrite all_skip.
  - rewrite decide_False by naive_solver. apply elem_of_cons in Hf as [->|Hf]; [done|]. by apply IH.
Qed.

(** The entries of the list that match an argument. *)
Lemma walk_allowed arg l :
  Sandbox.walk arg (append_strings l) = true ↔ ∃ q, q ∈ l ∧ valid q ∧ Sandbox.path_matches arg q = true.
Proof.
  rewrite append_strings_valid. unfold Sandbox.walk. rewrite existsb_exists. split.
  - intros (v & Hv & Hh). apply list_elem_of_In, list_elem_of_fmap in Hv as (q & -> & Hq). apply list_elem_of_filter in Hq as [? ?].
    by exists q.
  - intros (q & Hq & Hv & Hm). exists (JSONString q). split; [|done]. apply list_elem_of_In, list_elem_of_fmap_2, list_elem_of_filter. done.
Qed.

Lemma run_cons v l name f o t w :
  json_object_get_string (json_value_get_object (Some v)) "action_name" = Some name → actions_get name = Some f →
  json_object_get_object (json_value_get_object (Some v)) "action_params" = o →
  Engine.run_actions actions_get (v :: l) t w =
    let '(rc, t, w) := f t o w in if negb (rc =? 0)%Z then (t, w) else Engine.run_actions actions_get l t w.
Proof. intros Hn Hf <-. cbn -[json_value_get_object]. by rewrite Hn, Hf. Qed.

Lemma jail_run paths f t w arg i :
  Sandbox.at_home content addr (Some (jail_params paths no_opts)) → Sandbox.truthful content (reg_of w) →
  Sandbox.find_path (mem_of w) t = Some (i, arg) →
  ∃ r, Sandbox.truthful content r ∧
    Engine.retrace_action_runner_run actions_get t (script_object paths no_opts f) w =
      let w' := put (mem_of w) r w in
      if Sandbox.walk arg (append_strings (accesses paths).*1)
      then let '(_, t', w'') := call_real t None w' in (t', w'')
      else (Sandbox.deny t, w').
Proof.
  intros Hh Hr Hf. unfold Engine.retrace_action_runner_run. destruct (script_members paths no_opts f) as (_ & _ & _ & ->).
  set (ps := jail_params paths no_opts) in *.
  destruct (Sandbox.sandbox_refines content set_alloc first_alloc last_alloc fake addr (mem_of w) t (Some ps) (reg_of w) Hh Hr) as [Hres Ht].
  set (o := Sandbox.ia_sandbox _ _ _ _ _ _ _ _ _) in *. exists (Sandbox.out_reg o). split; [done|].
  assert (json_object_get_array (Some ps) "allow_paths" = Some (append_strings (accesses paths).*1)) as Ha.
  { unfold ps, jail_params. cbn. by generalize (append_strings (accesses paths).*1). }
  assert (Forall (λ n, json_object_get_array (Some ps) n = None) ["deny_paths"; "deny_classes"; "allow_env"; "deny_env"]%string ∧
          json_object_get_string (Some ps) "decoy_dir" = None) as [Hn Hd].
  { unfold ps, jail_params. cbn [decoy_dir read_only no_opts]. generalize (append_strings (accesses paths).*1). intros l.
    split; [|done]. by repeat (apply Forall_cons; split). }
  rewrite !Forall_cons in Hn. destruct Hn as (Hn1 & Hn2 & Hn3 & Hn4 & _).
  unfold Sandbox.sandbox_spec, Sandbox.has_policy, Sandbox.class_refused, Sandbox.env_permitted, Sandbox.path_permitted, Sandbox.listed,
    Sandbox.decoyed, Sandbox.result in Hres.
  cbn [existsb] in Hres. rewrite Ha, Hn1, Hn2, Hn3, Hn4, Hd, Hf in Hres.
  cbn [Sandbox.is_none negb orb andb] in Hres. rewrite orb_true_r in Hres. cbn [negb] in Hres. rewrite andb_true_r in Hres.
  cbn zeta. rewrite (run_cons _ _ (lit "sandbox") sandbox_action (Some ps)) by done.
  unfold sandbox_action. fold o.
  destruct (Sandbox.walk arg _); injection Hres as -> -> ->; [|done]. cbn [Z.eqb negb].
  rewrite (run_cons _ _ (lit "call_real") call_real None) by done.
  destruct (call_real _ _ _) as [[rc t'] w'']. by destruct (negb _).
Qed.

(** ** From the trace to the call *)

(** The path is in a call of the trace, in normal form. *)
Definition observed (es : list JSON_Object) (q : bytes) : Prop := ∃ msg, msg ∈ calls es ∧ q ∈ walk_paths (JSONObject msg).

Lemma observed_access es q : observed es q ↔ q ∈ (accesses (profile_of es)).*1.
Proof.
  pose proof (profile_of_ok es) as Hok. transitivity (is_Some (prof_access_get (profile_of es) q)).
  - destruct (entries_added es prof_init prof_init_ok) as (H1 & H2 & _). unfold profile_of. rewrite finish_id by done. rewrite H2.
    change (prof_access_get prof_init q) with (@None ProfAccess). rewrite bump_spec.
    assert (observed es q ↔ at_path q (path_events es) ≠ []) as ->.
    { unfold observed, path_events. split.
      - intros (msg & Hm & Hq) Hnil. assert (msg_class msg ∈ at_path q (calls es ≫= msg_events)) as Hin.
        { apply list_elem_of_omap. exists (q, msg_class msg). split; [|cbn; by rewrite decide_True].
          apply list_elem_of_bind. exists msg. split; [|done]. apply list_elem_of_fmap. by exists q. }
        rewrite Hnil in Hin. by apply not_elem_of_nil in Hin.
      - intros Hne. destruct (at_path q _) as [|c cs] eqn:E; [done|]. assert (c ∈ at_path q (calls es ≫= msg_events)) as Hin by (rewrite E; left).
        apply list_elem_of_omap in Hin as ([q' c'] & Hin & Hc). cbn in Hc. case_decide; [|done]. simplify_eq.
        apply list_elem_of_bind in Hin as (msg & Hin & Hm). apply list_elem_of_fmap in Hin as (? & ? & ?). simplify_eq. eauto. }
    destruct (at_path q (path_events es)); cbn; split; try done; by intros [].
  - unfold prof_access_get. rewrite get_map by apply Hok. rewrite list_elem_of_fmap. split.
    + intros [a Ha]. apply tmap_elem in Ha; [|apply Hok]. by exists (q, a).
    + intros ([q' a] & -> & Hin). exists a. by apply tmap_elem; [apply Hok|].
Qed.

Lemma normalize_path_like str n p : corr_normalize str n = Some p → corr_is_path_like p = true.
Proof. unfold corr_normalize. cbn zeta. intros E. repeat case_match; by simplify_eq. Qed.

Lemma walk_paths_some v q : q ∈ walk_paths v → q ≠ [].
Proof.
  induction v as [|str|d|o IH|arr IH|b] using JsonRoundTrip.JSON_Value_nested_ind; cbn; try by intros ?%not_elem_of_nil.
  - destruct (corr_is_path_like str); [|by intros ?%not_elem_of_nil].
    destruct (corr_normalize str CORR_PATH_MAX) as [p|] eqn:E; [|by intros ?%not_elem_of_nil]. intros ->%list_elem_of_singleton ->.
    by apply normalize_path_like in E.
  - induction o as [|[k v] o IHo]; [by intros ?%not_elem_of_nil|]. inversion_clear IH as [|? ? Hv Ho].
    rewrite elem_of_app. intros [H|H]; [by apply Hv|by apply IHo].
  - induction IH as [|v arr Hv _ IHa]; [by intros ?%not_elem_of_nil|]. rewrite elem_of_app. intros [H|H]; [by apply Hv|by apply IHa].
Qed.

Lemma matches_itself q : q ≠ [] → Sandbox.path_matches q q = true.
Proof.
  intros Hq. unfold Sandbox.path_matches. destruct (last q) eqn:E; [|by apply last_None in E]. rewrite streq_refl.
  case_match; [|done]. rewrite take_ge by done. by apply bool_decide_true.
Qed.

Lemma func_observed es f : 0 < func_calls f es → f ∈ (functions (profile_of es)).*1.
Proof.
  intros Hf. pose proof (profile_of_ok es) as Hok. destruct (entries_added es prof_init prof_init_ok) as (H1 & _ & H3 & _).
  assert (prof_names_get (functions (profile_of es)) f = func_calls f es) as Hg.
  { unfold profile_of. rewrite finish_id by done. by rewrite H3. }
  unfold prof_names_get in Hg. rewrite get_map in Hg by apply Hok. destruct (tmap _ !! f) as [n|] eqn:E; [|cbn in Hg; lia].
  apply tmap_elem in E; [|apply Hok]. by apply (list_elem_of_fmap_2 fst _ (f, n)).
Qed.

(** C16 (safety). A program jailed to its own trace: the configuration has, for
    each function of the trace, a script that the resolver chooses for it. Under
    the script the first string among the first two arguments of a call decides,
    as a sequence of bytes: if the calls of the trace have it as the normal form
    of a string that looks like a path, the call goes to the real function with
    its context as it is; if no such normal form equals it, nor ends in a
    separator and begins it, the call is refused and does not reach the function.
    So other spellings of a path are refused ([trailing_slash_refused]), and so are
    names without a slash, which the trace never has; the variable of getenv
    counts as a path ([getenv_refused]). No function of the trace is called [*],
    and the arrays of the configuration are those that the compiled sets of the
    sandbox were made from. *)
Theorem self_jail es f t w arg i ra :
  let p := profile_of es in
  Forall (λ n, n ≠ lit "*") (functions p).*1 → 0 < func_calls f es → valid f →
  Sandbox.at_home content addr (Some (jail_params p no_opts)) → Sandbox.truthful content (reg_of w) →
  Sandbox.find_path (mem_of w) t = Some (i, arg) →
  ∃ scripts script r,
    json_object_get_array (Some (prof_jail_config p p no_opts)) "intercept_scripts" = Some scripts ∧
    ScriptResolver.chosen rc_dladdr scripts f ra = Some script ∧ Sandbox.truthful content r ∧
    let run := Engine.retrace_action_runner_run actions_get t script w in
    let w' := put (mem_of w) r w in
    (observed es arg → valid arg → run = ((call_real t None w').1.2, (call_real t None w').2)) ∧
    ((∀ q, observed es q → Sandbox.path_matches arg q = false) → run = (Sandbox.deny t, w')).
Proof.
  intros p Hs Hf Hv Hh Hr Hp. destruct (jail_run p f t w arg i Hh Hr Hp) as (r & Hr' & Hrun).
  eexists _, (script_object p no_opts f), r. split; [reflexivity|]. split.
  { apply jail_script_chosen; [|apply sorted_nodup, profile_of_ok|by apply func_observed|done].
    intros Hin. rewrite Forall_forall in Hs. by apply (Hs (lit "*")). }
  split; [done|]. cbn zeta. rewrite Hrun. cbn zeta. split.
  - intros Ho Hva. rewrite (proj2 (walk_allowed arg (accesses p).*1)); [by destruct (call_real _ _ _) as [[? ?] ?]|].
    exists arg. split; [by apply observed_access|]. split; [done|]. apply matches_itself. destruct Ho as (msg & _ & Hq). by eapply walk_paths_some.
  - intros Hno. destruct (Sandbox.walk arg _) eqn:E; [exfalso|done]. apply walk_allowed in E as (q & Hq & _ & Hm).
    apply observed_access in Hq. by rewrite (Hno q Hq) in Hm.
Qed.

End run.

(** The action that has the call return 3, and the two actions of the jail. *)
Definition demo_real : Engine.action_fn (W := Sandbox.memory * Sandbox.registry) := λ t _ w, (0%Z, set_ret_val 3 t, w).

Definition demo_sandbox : Engine.action_fn (W := Sandbox.memory * Sandbox.registry) :=
  sandbox_action fst snd (λ m r _, (m, r)) true true true 0 (λ _, 4096%Z).

Definition demo_actions (n : bytes) : option (Engine.action_fn (W := Sandbox.memory * Sandbox.registry)) :=
  if streq n (lit "sandbox") then Some demo_sandbox else if streq n (lit "call_real") then Some demo_real else None.

Definition demo_mem (a : Z) : bytes := if (a =? 64)%Z then lit "/tmp/x" else lit "/etc/shadow".

Lemma demo_at_home p : Sandbox.at_home (λ _, append_strings (accesses p).*1) (λ _, 4096%Z) (Some (jail_params p no_opts)).
Proof.
  intros name l. unfold jail_params. cbn [read_only decoy_dir no_opts]. generalize (append_strings (accesses p).*1). intros a.
  unfold json_object_get_array, json_object_get_value. cbn -[streq lit]. destruct (streq _ _); [by intros [= <-]|done].
Qed.

(** A call of the trace's [unlink] on a path of the trace goes through; one on
    another path does not. *)
Lemma self_jail_witness :
  let p := profile_of sample_trace in
  ∃ scripts script r,
    json_object_get_array (Some (prof_jail_config p p no_opts)) "intercept_scripts" = Some scripts ∧
    ScriptResolver.chosen (λ _, None) scripts (lit "unlink") 0 = Some script ∧
    Sandbox.truthful (λ _, append_strings (accesses p).*1) r ∧
    let t := Sandbox.openat_context 3 64 0 in
    let w := (demo_mem, Sandbox.empty_registry) in
    let run := Engine.retrace_action_runner_run demo_actions t script w in
    (observed sample_trace (lit "/tmp/x") → valid (lit "/tmp/x") → run = (set_ret_val 3 t, (demo_mem, r))) ∧
    ((∀ q, observed sample_trace q → Sandbox.path_matches (lit "/tmp/x") q = false) → run = (Sandbox.deny t, (demo_mem, r))).
Proof.
  apply (self_jail fst snd (λ m r _, (m, r)) true true true 0 (λ _, 4096%Z) (λ _, append_strings (accesses (profile_of sample_trace)).*1)
    demo_actions demo_real (λ _, None) eq_refl eq_refl sample_trace (lit "unlink") (Sandbox.openat_context 3 64 0)
    (demo_mem, Sandbox.empty_registry) (lit "/tmp/x") 1 0).
  - by repeat (apply Forall_cons; split).
  - vm_compute. lia.
  - reflexivity.
  - apply demo_at_home.
  - apply Sandbox.empty_truthful.
  - reflexivity.
Defined.

(** ** Where the jail is not the trace *)

(** The name of an environment variable is taken for a path: the jail refuses
    [getenv] the variables of its own trace. *)
Lemma getenv_refused q : observed sample_trace q → Sandbox.path_matches (lit "HOME") q = false.
Proof.
  rewrite observed_access. change ((accesses (profile_of sample_trace)).*1) with [lit "/etc/hosts"; lit "/tmp/x"].
  rewrite !elem_of_cons. by intros [->|[->|?%not_elem_of_nil]].
Qed.

(** A path that was given with a slash at its end is listed without, and the list
    does not match it. *)
Lemma trailing_slash_refused :
  corr_normalize (lit "/tmp/") CORR_PATH_MAX = Some (lit "/tmp") ∧ Sandbox.path_matches (lit "/tmp/") (lit "/tmp") = false.
Proof. done. Qed.

(** The root directory in the list allows every absolute path. *)
Lemma root_allows_all arg : Sandbox.path_matches ("/"%char :: arg) (lit "/") = true.
Proof. done. Qed.

(** The script of the pinned clock has its number where the action does not look:
    the call returns what the context held. *)
Lemma clock_not_pinned {W} (actions_get : bytes → option (Engine.action_fn (W := W))) epoch t w :
  actions_get (lit "modify_return_value_int") = Some Engine.ia_modify_return_value_int →
  Engine.retrace_action_runner_run actions_get t (default [] (json_value_get_object (Some (clock_script epoch)))) w = (t, w).
Proof.
  intros Ha. unfold clock_script. generalize (d_of_int epoch). intros d. unfold Engine.retrace_action_runner_run.
  change (json_object_get_array _ "actions") with
    (Some [JSONObject [(lit "action_name", JSONString (lit "modify_return_value_int")); (lit "new_int", JSONNumber d)]]).
  cbv iota beta. by rewrite (run_cons actions_get _ _ (lit "modify_return_value_int") Engine.ia_modify_return_value_int None).
Qed.

(** ** Quoting *)

(** The quoted scalar and its terminator fit the buffer. *)
Lemma yaml_q_fits s n : 8 ≤ n → length (yaml_q s n) < n.
Proof.
  intros Hn. unfold yaml_q. rewrite length_app. cbn [length]. assert (∀ dst, length dst + 6 ≤ n → length (yaml_chars n s dst) + 6 ≤ n) as H.
  { induction s as [|c s IH]; intros dst Hd; cbn [yaml_chars]; [done|]. destruct (Nat.ltb_spec (length dst + 7) n) as [Hl|Hl]; [|done].
    apply IH. rewrite length_app. repeat case_match; cbn; lia. }
  specialize (H [DQ]). cbn in H. lia.
Qed.

End Jail.
