(* ===== verification/Capability.v ===== *)
(** * What a binary could do

    [tools/profiler/capability.c]: the scan of the executable parts of an ELF,
    Mach-O or PE file for instructions that enter the kernel, and of the imports
    from ntdll. A pointer into the file is its offset, of the width of [size_t];
    a read outside of the file is [None]. *)

From S2P Require Import Prelude Libc Stdio.
Import Libc Stdio.

Module Capability.

Record ProfCapability := mkCap {
  syscall_gadgets : Z; has_syscall_gadget : bool; ntdll_imports : Z; ntdll_names : list bytes }.

Definition prof_capability_init : ProfCapability := mkCap 0 false 0 [].

Definition add_gadgets (n : Z) (c : ProfCapability) : ProfCapability :=
  mkCap (u64 (syscall_gadgets c + n)) (has_syscall_gadget c) (ntdll_imports c) (ntdll_names c).

(** The flag that the scanners set at their end. *)
Definition set_has (c : ProfCapability) : ProfCapability :=
  mkCap (syscall_gadgets c) (0 <? syscall_gadgets c)%Z (ntdll_imports c) (ntdll_names c).

(** ** Reading *)

Definition byte_at (b : bytes) (p : Z) : option Z :=
  if (0 <=? p)%Z && (p <? Z.of_nat (length b))%Z then uchar <$> b !! Z.to_nat p else None.

Definition rd16 (b : bytes) (p : Z) : option Z :=
  x ← byte_at b p; y ← byte_at b (p + 1); Some (Z.lor x (Z.shiftl y 8)).

Definition rd32 (b : bytes) (p : Z) : option Z :=
  x ← rd16 b p; y ← byte_at b (p + 2); z ← byte_at b (p + 3);
  Some (Z.lor (Z.lor x (Z.shiftl y 16)) (Z.shiftl z 24)).

Definition rd64 (b : bytes) (p : Z) : option Z :=
  lo ← rd32 b p; hi ← rd32 b (p + 4); Some (Z.lor lo (Z.shiftl hi 32)).

(** ** Counting a pattern *)

(** The comparison at one place. *)
Fixpoint match_at (s pat : bytes) : option bool :=
  match pat with
  | [] => Some true
  | p :: pat => match s with [] => None | c :: s => if ceq c p then match_at s pat else Some false end
  end.

(** The next [k] places of [s]. *)
Fixpoint count_from (pat s : bytes) (k hits : Z) : option Z :=
  if (k <=? 0)%Z then Some hits
  else match s with
       | [] => None
       | _ :: s' =>
           m ← match_at s pat;
           count_from pat s' (k - 1) (if (m : bool) then hits + 1 else hits)%Z
       end.

Definition count_pattern (b : bytes) (off n : Z) (pat : bytes) : option Z :=
  if (n <? Z.of_nat (length pat))%Z then Some 0%Z
  else count_from pat (drop (Z.to_nat off) b) (n - Z.of_nat (length pat) + 1) 0.

Definition sys64 : bytes := ["015"%char; "005"%char].
Definition sys32 : bytes := ["205"%char; "128"%char].
Definition svc : bytes := ["001"%char; "000"%char; "000"%char; "212"%char].

Definition count_in (b : bytes) (off n : Z) (pat : bytes) (c : ProfCapability) : option ProfCapability :=
  k ← count_pattern b off n pat; Some (add_gadgets k c).

(** ** ELF *)

Inductive machine := machine_x86 | machine_arm | machine_other.

Record elf_header := mkElf { is64 : bool; phoff : Z; phentsize : Z; phnum : Z; mach : machine }.

Definition elf_read_header (b : bytes) (is64 : bool) : option elf_header :=
  e_machine ← rd16 b 18;
  if is64 then
    phoff ← rd64 b 32; phentsize ← rd16 b 54; phnum ← rd16 b 56;
    Some (mkElf true phoff phentsize phnum
      (if (e_machine =? 0x3e)%Z then machine_x86
       else if (e_machine =? 0xb7)%Z || (e_machine =? 0x28)%Z then machine_arm else machine_other))
  else
    phoff ← rd32 b 28; phentsize ← rd16 b 42; phnum ← rd16 b 44;
    Some (mkElf false phoff phentsize phnum
      (if (e_machine =? 3)%Z then machine_x86
       else if (e_machine =? 0x28)%Z || (e_machine =? 0xb7)%Z then machine_arm else machine_other)).

Record segment := mkSeg { p_type : Z; p_flags : Z; off : Z; filesz : Z }.

Definition elf_segment (b : bytes) (is64 : bool) (ph : Z) : option segment :=
  p_type ← rd32 b ph;
  if is64 then
    p_flags ← rd32 b (ph + 4); off ← rd64 b (ph + 8); filesz ← rd64 b (ph + 32); Some (mkSeg p_type p_flags off filesz)
  else
    off ← rd32 b (ph + 4); filesz ← rd32 b (ph + 16); p_flags ← rd32 b (ph + 24); Some (mkSeg p_type p_flags off filesz).

Definition size (b : bytes) : Z := Z.of_nat (length b).

(** The part of a file that is there. *)
Definition clip (b : bytes) (off n : Z) : Z := if (size b <? u64 (off + n))%Z then (size b - off)%Z else n.

Definition elf_scan_segment (b : bytes) (m : machine) (s : segment) (c : ProfCapability) : option ProfCapability :=
  if negb (p_type s =? 1)%Z then Some c
  else if (Z.land (p_flags s) 1 =? 0)%Z then Some c
  else if (size b <=? off s)%Z || (filesz s =? 0)%Z then Some c
  else
    let n := clip b (off s) (filesz s) in
    match m with
    | machine_x86 => c ← count_in b (off s) n sys64 c; count_in b (off s) n sys32 c
    | machine_arm => count_in b (off s) n svc c
    | machine_other => Some c
    end.

Fixpoint elf_loop (b : bytes) (h : elf_header) (n : nat) (i : Z) (c : ProfCapability) : option ProfCapability :=
  match n with
  | O => Some c
  | S n =>
      let ph := u64 (phoff h + i * phentsize h) in
      if (size b <? u64 (ph + (if is64 h then 56 else 32)))%Z then Some c
      else
        s ← elf_segment b (is64 h) ph;
        c ← elf_scan_segment b (mach h) s c;
        elf_loop b h n (i + 1) c
  end.

Definition scan_elf (b : bytes) (c : ProfCapability) : option ProfCapability :=
  class ← byte_at b 4; data ← byte_at b 5;
  if negb (data =? 1)%Z then Some c
  else
    h ← elf_read_header b (class =? 2)%Z;
    c ← elf_loop b h (Z.to_nat (phnum h)) 0 c;
    Some (set_has c).

(** ** Mach-O *)

Definition macho_scan_section (b : bytes) (is_x86 is_arm : bool) (so : Z) (c : ProfCapability) : option ProfCapability :=
  flags ← rd32 b (so + 64); soff ← rd64 b (so + 48); ssize ← rd64 b (so + 56);
  if has_prefix (lit "__TEXT") (cstr (drop (Z.to_nat so) b)) && negb (Z.land flags 0x80000000 =? 0)%Z then
    if (soff <? size b)%Z && (0 <? ssize)%Z then
      let n := clip b soff ssize in
      if is_x86 then count_in b soff n sys64 c
      else if is_arm then count_in b soff n svc c
      else Some c
    else Some c
  else Some c.

(** The sections from [so] on; an iteration goes at least a byte further, so that
    the size of the file bounds them too. *)
Fixpoint macho_sections (b : bytes) (is_x86 is_arm : bool) (n : nat) (so : Z) (c : ProfCapability) : option ProfCapability :=
  match n with
  | O => Some c
  | S n =>
      if (so + 80 <=? size b)%Z then
        c ← macho_scan_section b is_x86 is_arm so c; macho_sections b is_x86 is_arm n (so + 80) c
      else Some c
  end.

Definition bounded (b : bytes) (n : Z) : nat := Z.to_nat (Z.min n (size b)).

Fixpoint macho_commands (b : bytes) (is_x86 is_arm : bool) (n : nat) (off : Z) (c : ProfCapability) : option ProfCapability :=
  match n with
  | O => Some c
  | S n =>
      if (off + 8 <=? size b)%Z then
        cmd ← rd32 b off; cmdsize ← rd32 b (off + 4);
        if (cmdsize =? 0)%Z then Some c
        else
          c ← (if (cmd =? 0x19)%Z then
                 nsects ← rd32 b (off + 64);
                 macho_sections b is_x86 is_arm (bounded b nsects) (off + 72) c
               else Some c);
          macho_commands b is_x86 is_arm n (off + cmdsize) c
      else Some c
  end.

Definition scan_macho (b : bytes) (c : ProfCapability) : option ProfCapability :=
  b6 ← byte_at b 6;
  b7 ← (if negb (b6 =? 0)%Z then Some b6 else byte_at b 7);
  if negb (b7 =? 0)%Z then Some c
  else
    cputype ← rd32 b 4;
    ncmds ← rd32 b 16;
    c ← macho_commands b (cputype =? 0x01000007)%Z (cputype =? 0x0100000c)%Z (bounded b ncmds) 32 c;
    Some (set_has c).

(** ** PE *)

Record pe_header := mkPe { nsects : Z; opt_magic : Z; sect_off : Z; opt : Z }.

Definition pe_sect (h : pe_header) (i : Z) : Z := u64 (sect_off h + i * 40).

Fixpoint pe_gadgets (b : bytes) (h : pe_header) (n : nat) (i : Z) (c : ProfCapability) : option ProfCapability :=
  match n with
  | O => Some c
  | S n =>
      let sect := pe_sect h i in
      if (size b <? u64 (sect + 40))%Z then Some c
      else
        chars ← rd32 b (sect + 36); soff ← rd32 b (sect + 20); ssize ← rd32 b (sect + 16);
        c ← (if (Z.land chars 0x20000000 =? 0)%Z then Some c
             else if (size b <=? soff)%Z || (ssize =? 0)%Z then Some c
             else if (opt_magic h =? 0x20b)%Z then count_in b soff (clip b soff ssize) sys64 c
             else Some c);
        pe_gadgets b h n (i + 1) c
  end.

(** A section's addresses and where they are in the file. *)
Record pe_section := mkSection { vaddr : Z; rawoff : Z; rawsz : Z }.

Definition within (s : pe_section) (rva : Z) : bool := (vaddr s <=? rva)%Z && (rva <? vaddr s + rawsz s)%Z.

(** The C string at an offset; [None] if the file ends before it does. *)
Definition string_at (b : bytes) (p : Z) : option bytes :=
  if existsb (λ c, ceq c NUL) (drop (Z.to_nat p) b) then Some (cstr (drop (Z.to_nat p) b)) else None.

(** One import more; the place of a name that is not copied stays empty. *)
Definition add_import (name : option bytes) (c : ProfCapability) : ProfCapability :=
  mkCap (syscall_gadgets c) (has_syscall_gadget c) (u64 (ntdll_imports c + 1))
    (if (ntdll_imports c <? 16)%Z then ntdll_names c ++ [match name with Some s => snprintf 24 s | None => [] end] else ntdll_names c).

(** The names that a descriptor imports, from the thunk [t] on. *)
Fixpoint pe_thunks (b : bytes) (h : pe_header) (s : pe_section) (thunk_rva : Z) (n : nat) (t : Z) (c : ProfCapability)
    : option ProfCapability :=
  match n with
  | O => Some c
  | S n =>
      if negb (within s thunk_rva) then Some c
      else
        let wide := (opt_magic h =? 0x20b)%Z in
        let th := (rawoff s + (thunk_rva - vaddr s) + t * (if wide then 8 else 4))%Z in
        if (size b <? th + 8)%Z then Some c
        else
          hint_rva ← (if wide then rd64 b th else rd32 b th);
          if (hint_rva =? 0)%Z then Some c
          else if negb (Z.shiftr hint_rva (if wide then 63 else 31) =? 0)%Z then pe_thunks b h s thunk_rva n (t + 1) c
          else if negb (within s hint_rva) then pe_thunks b h s thunk_rva n (t + 1) c
          else
            let nm := (rawoff s + (hint_rva - vaddr s) + 2)%Z in
            c ← (if (nm + 24 <? size b)%Z && (ntdll_imports c <? 16)%Z then
                   name ← string_at b nm; Some (add_import (Some name) c)
                 else Some (add_import None c));
            pe_thunks b h s thunk_rva n (t + 1) c
  end.

(** The first letters of a name without regard to case. *)
Definition is_ntdll (b : bytes) (p : Z) : option bool :=
  foldr (λ '(i, ch) rest, x ← byte_at b (p + i); if (Z.lor x 0x20 =? ch)%Z then rest else Some false) (Some true)
    [(0, 110); (1, 116); (2, 100); (3, 108); (4, 108)]%Z.

(** The import descriptors from [d] on. *)
Fixpoint pe_descriptors (b : bytes) (h : pe_header) (s : pe_section) (idd : Z) (n : nat) (d : Z) (c : ProfCapability)
    : option ProfCapability :=
  match n with
  | O => Some c
  | S n =>
      let desc := (idd + d * 20)%Z in
      if (size b <? desc + 20)%Z then Some c
      else
        name_rva ← rd32 b (desc + 12);
        if (name_rva =? 0)%Z then Some c
        else if negb (within s name_rva) then pe_descriptors b h s idd n (d + 1) c
        else
          let name_off := (rawoff s + (name_rva - vaddr s))%Z in
          if (size b <=? name_off)%Z then pe_descriptors b h s idd n (d + 1) c
          else if (size b - name_off <? 10)%Z then pe_descriptors b h s idd n (d + 1) c
          else
            ntdll ← is_ntdll b name_off;
            c ← (if (ntdll : bool) then
                   oft_rva ← rd32 b desc; ft_rva ← rd32 b (desc + 16);
                   pe_thunks b h s (if negb (oft_rva =? 0)%Z then oft_rva else ft_rva) 64 0 c
                 else Some c);
            pe_descriptors b h s idd n (d + 1) c
  end.

(** The section that holds the import directory, and its descriptors. *)
Fixpoint pe_imports (b : bytes) (h : pe_header) (impdir_rva : Z) (n : nat) (i : Z) (c : ProfCapability) : option ProfCapability :=
  match n with
  | O => Some c
  | S n =>
      let sect := pe_sect h i in
      if (size b <? u64 (sect + 40))%Z then Some c
      else
        vaddr ← rd32 b (sect + 12); rawoff ← rd32 b (sect + 20); rawsz ← rd32 b (sect + 16);
        let s := mkSection vaddr rawoff rawsz in
        if negb (within s impdir_rva) then pe_imports b h impdir_rva n (i + 1) c
        else pe_descriptors b h s (rawoff + (impdir_rva - vaddr)) 32 0 c
  end.

Definition scan_pe (b : bytes) (c : ProfCapability) : option ProfCapability :=
  pe_off ← rd32 b 0x3c;
  if (size b <? pe_off + 24)%Z then Some c
  else
    sig ← rd32 b pe_off;
    if negb (sig =? 0x00004550)%Z then Some c
    else
      let coff := (pe_off + 4)%Z in
      nsects ← rd16 b (coff + 2); opt_size ← rd16 b (coff + 16); opt_magic ← rd16 b (coff + 20);
      let h := mkPe nsects opt_magic (pe_off + 4 + 20 + opt_size) (coff + 20) in
      c ← pe_gadgets b h (Z.to_nat nsects) 0 c;
      impdir_rva ← rd32 b (opt h + (if (opt_magic =? 0x20b)%Z then 120 else 96));
      _ ← rd32 b (opt h + (if (opt_magic =? 0x20b)%Z then 124 else 100));
      if (impdir_rva =? 0)%Z then Some c
      else
        c ← pe_imports b h impdir_rva (Z.to_nat nsects) 0 c;
        Some (set_has c).

(** ** The scan of a file *)

(** [prof_capability_scan]: the outer [None] is an access outside of the file; the
    inner one the return of -1, when the file cannot be read. *)
Definition prof_capability_scan (file : option bytes) : option (option ProfCapability) :=
  match file with
  | None => Some None
  | Some b =>
      let c := prof_capability_init in
      let magic := map uchar (take 4 b) in
      if bool_decide (magic = [0x7f; 69; 76; 70]%Z) then Some <$> scan_elf b c
      else if bool_decide (magic = [0xfe; 0xed; 0xfa; 0xcf]%Z) then Some <$> scan_macho b c
      else if bool_decide (take 2 magic = [77; 90]%Z) then Some <$> scan_pe b c
      else Some (Some c)
  end.

(** ** The count is of the places where the pattern is *)

Definition occurrences (pat seg : bytes) : nat :=
  length (filter (λ i, has_prefix pat (drop i seg) = true) (seq 0 (length seg))).

Lemma occurrences_cons pat c seg :
  occurrences pat (c :: seg) = (if has_prefix pat (c :: seg) then 1 else 0) + occurrences pat seg.
Proof.
  unfold occurrences. cbn [length seq]. rewrite <- fmap_S_seq, filter_cons. change (drop 0 (c :: seg)) with (c :: seg).
  assert (∀ l, length (filter (λ i, has_prefix pat (drop i (c :: seg)) = true) (S <$> l)) =
               length (filter (λ i, has_prefix pat (drop i seg) = true) l)) as H.
  { induction l as [|i l IH]; [done|]. rewrite fmap_cons, !filter_cons. change (drop (S i) (c :: seg)) with (drop i seg).
    case_decide; cbn; by rewrite IH. }
  destruct (has_prefix pat (c :: seg)) eqn:E; [rewrite decide_True by done|rewrite decide_False by done]; cbn; by rewrite H.
Qed.

Lemma occurrences_short pat seg : length seg < length pat → occurrences pat seg = 0.
Proof.
  induction seg as [|c seg IH]; intros Hl; [done|]. cbn in Hl. rewrite occurrences_cons, IH by lia.
  destruct (has_prefix pat (c :: seg)) eqn:E; [|done]. apply has_prefix_spec, prefix_length in E. cbn in E. lia.
Qed.

Lemma occurrences_le pat seg : occurrences pat seg ≤ length seg.
Proof. unfold occurrences. etrans; [apply length_filter|]. by rewrite length_seq. Qed.

Lemma match_at_prefix s pat : length pat ≤ length s → match_at s pat = Some (has_prefix pat s).
Proof.
  revert s. induction pat as [|p pat IH]; intros [|c s] Hl; cbn in *; try done; [lia|].
  assert (ceq p c = ceq c p) as -> by (unfold ceq; apply bool_decide_ext; split; congruence). destruct (ceq c p); [apply IH; lia|done].
Qed.

Lemma has_prefix_take pat s n : length pat ≤ n → has_prefix pat (take n s) = has_prefix pat s.
Proof.
  revert s n. induction pat as [|p pat IH]; intros [|c s] [|n] Hn; cbn in *; try done; [lia|]. by rewrite IH by lia.
Qed.

Lemma count_from_exact pat n s hits :
  pat ≠ [] → n ≤ length s →
  count_from pat s (Z.of_nat n - Z.of_nat (length pat) + 1) hits = Some (hits + Z.of_nat (occurrences pat (take n s)))%Z.
Proof.
  intros Hp. assert (0 < length pat) as Hl by (destruct pat; [done|cbn; lia]). revert n hits.
  induction s as [|c s IH]; intros n hits Hn; destruct n as [|n]; cbn in Hn; try lia.
  - cbn [count_from]. rewrite (proj2 (Z.leb_le _ _)) by lia. cbn. f_equal. lia.
  - cbn [count_from]. rewrite (proj2 (Z.leb_le _ _)) by lia. cbn. f_equal. lia.
  - cbn [count_from]. destruct (Z.leb_spec (Z.of_nat (S n) - Z.of_nat (length pat) + 1) 0) as [Hk|Hk].
    + rewrite occurrences_short; [f_equal; lia|]. rewrite length_take. lia.
    + rewrite match_at_prefix by (cbn; lia). cbn [mbind option_bind]. cbn [take]. rewrite occurrences_cons.
      change (c :: take n s) with (take (S n) (c :: s)). rewrite has_prefix_take by lia.
      replace (Z.of_nat (S n) - Z.of_nat (length pat) + 1 - 1)%Z with (Z.of_nat n - Z.of_nat (length pat) + 1)%Z by lia.
      rewrite IH by lia. f_equal. destruct (has_prefix pat (c :: s)); lia.
Qed.

(** A part of the file. *)
Definition part (b : bytes) (off n : Z) : bytes := take (Z.to_nat n) (drop (Z.to_nat off) b).

Lemma count_pattern_part b off n pat :
  pat ≠ [] → (0 ≤ off)%Z → (0 ≤ n)%Z → (off + n ≤ size b)%Z →
  count_pattern b off n pat = Some (Z.of_nat (occurrences pat (part b off n))).
Proof.
  intros Hp Ho Hn Hs. unfold count_pattern, part, size in *. destruct (Z.ltb_spec n (Z.of_nat (length pat))) as [Hlt|Hge].
  - rewrite occurrences_short; [done|]. rewrite length_take. lia.
  - rewrite <- (Z2Nat.id n) at 1 by done. apply count_from_exact; [done|]. rewrite length_drop. lia.
Qed.

(** ** ELF files *)

Definition executable (b : bytes) (s : segment) : Prop :=
  p_type s = 1%Z ∧ Z.land (p_flags s) 1 ≠ 0%Z ∧ (off s < size b)%Z ∧ filesz s ≠ 0%Z.

#[global] Instance executable_dec b s : Decision (executable b s).
Proof. unfold executable. apply _. Defined.

(** What is in the file of a segment. *)
Definition seg_part (b : bytes) (s : segment) : bytes := part b (off s) (Z.min (filesz s) (size b - off s)).

(** The instructions that enter the kernel, by machine; the code takes 32-bit ARM
    for AArch64. *)
Definition gadgets (b : bytes) (m : machine) (s : segment) : nat :=
  match m with
  | machine_x86 => occurrences sys64 (seg_part b s) + occurrences sys32 (seg_part b s)
  | machine_arm => occurrences svc (seg_part b s)
  | machine_other => 0
  end.

Definition seg_gadgets (b : bytes) (m : machine) (s : segment) : nat := if decide (executable b s) then gadgets b m s else 0.

Record seg_fits (s : segment) : Prop := { sf_off : (0 ≤ off s)%Z; sf_size : (0 ≤ filesz s)%Z; sf_end : (off s + filesz s < 2 ^ 64)%Z }.

Lemma count_in_part b off n pat c :
  pat ≠ [] → (0 ≤ off)%Z → (0 ≤ n)%Z → (off + n ≤ size b)%Z →
  count_in b off n pat c = Some (add_gadgets (Z.of_nat (occurrences pat (part b off n))) c).
Proof. intros. unfold count_in. by rewrite count_pattern_part. Qed.

Lemma seg_part_le b s : (Z.of_nat (length (seg_part b s)) ≤ size b)%Z.
Proof. unfold seg_part, part, size. rewrite length_take, length_drop. lia. Qed.

Lemma seg_gadgets_le b m s : (Z.of_nat (seg_gadgets b m s) ≤ 2 * size b)%Z.
Proof.
  unfold seg_gadgets, gadgets. pose proof (seg_part_le b s). assert (0 ≤ size b)%Z by (unfold size; lia).
  pose proof (occurrences_le sys64 (seg_part b s)). pose proof (occurrences_le sys32 (seg_part b s)).
  pose proof (occurrences_le svc (seg_part b s)). case_decide; [|lia]. destruct m; lia.
Qed.

Lemma add_gadgets_add a d c :
  (0 ≤ syscall_gadgets c)%Z → (0 ≤ a)%Z → (0 ≤ d)%Z → (syscall_gadgets c + a + d < 2 ^ 64)%Z →
  add_gadgets d (add_gadgets a c) = add_gadgets (a + d) c.
Proof.
  intros. unfold add_gadgets. cbn. unfold u64, wrap_u. rewrite !Z.mod_small by (rewrite ?Z.mod_small by lia; lia). f_equal. lia.
Qed.

Lemma scan_segment_exact b m s c :
  seg_fits s → (0 ≤ syscall_gadgets c)%Z → (syscall_gadgets c + 2 * size b < 2 ^ 64)%Z →
  elf_scan_segment b m s c = Some (add_gadgets (Z.of_nat (seg_gadgets b m s)) c).
Proof.
  intros [H1 H2 H3] Hc Hs. pose proof (seg_gadgets_le b m s) as Hle. unfold elf_scan_segment, seg_gadgets in *.
  assert (add_gadgets (Z.of_nat 0) c = c) as H0.
  { unfold add_gadgets, u64, wrap_u. destruct c. cbn in *. rewrite Z.mod_small by (unfold size in Hs; lia). f_equal. lia. }
  destruct (Z.eqb_spec (p_type s) 1) as [E1|E1]; cbn [negb]; [|rewrite decide_False by (intros []; done); by rewrite H0].
  destruct (Z.eqb_spec (Z.land (p_flags s) 1) 0) as [E2|E2]; [rewrite decide_False by (intros (_ & ? & _); done); by rewrite H0|].
  destruct (Z.leb_spec (size b) (off s)) as [E3|E3]; cbn [orb]; [rewrite decide_False by (intros (_ & _ & ? & _); lia); by rewrite H0|].
  destruct (Z.eqb_spec (filesz s) 0) as [E4|E4]; [rewrite decide_False by (intros (_ & _ & _ & ?); done); by rewrite H0|].
  rewrite decide_True in * by done.
  assert (clip b (off s) (filesz s) = Z.min (filesz s) (size b - off s)) as ->.
  { unfold clip, u64, wrap_u. rewrite Z.mod_small by lia. destruct (Z.ltb_spec (size b) (off s + filesz s)); lia. }
  unfold gadgets in *. destruct m; [| |by rewrite H0]; rewrite !count_in_part by (try done; lia); [|done].
  cbn [mbind option_bind]. rewrite count_in_part by (try done; lia). fold (seg_part b s). rewrite add_gadgets_add by (try lia; cbn in Hle; lia).
  f_equal. f_equal. lia.
Qed.

Definition header_size (h : elf_header) : Z := if is64 h then 56 else 32.

(** The table of the program headers lies in the file and reads as [segs], whose
    ends do not overflow. *)
Definition elf_table (b : bytes) (h : elf_header) (i : Z) (segs : list segment) : Prop :=
  ∀ j s, segs !! j = Some s →
    let ph := (phoff h + (i + Z.of_nat j) * phentsize h)%Z in
    (0 ≤ ph)%Z ∧ (ph + header_size h ≤ size b)%Z ∧ elf_segment b (is64 h) ph = Some s ∧ seg_fits s.

Definition total (b : bytes) (h : elf_header) (segs : list segment) : Z := Z.of_nat (sum_list_with (seg_gadgets b (mach h)) segs).

Lemma elf_loop_exact b h segs i c :
  elf_table b h i segs → (0 ≤ syscall_gadgets c)%Z → (size b < 2 ^ 62)%Z →
  (syscall_gadgets c + Z.of_nat (length segs) * (2 * size b) + 2 * size b < 2 ^ 64)%Z →
  elf_loop b h (length segs) i c = Some (add_gadgets (total b h segs) c).
Proof.
  unfold total. revert i c. induction segs as [|s segs IH]; intros i c Ht Hc Hb Hn; cbn [length elf_loop sum_list_with].
  { unfold add_gadgets, u64, wrap_u. rewrite Z.mod_small by (unfold size in *; lia). destruct c. cbn. f_equal. f_equal. lia. }
  destruct (Ht 0 s eq_refl) as (H1 & H2 & H3 & H4). rewrite Z.add_0_r in H1, H2, H3. cbn [length] in Hn.
  assert (0 ≤ size b)%Z by (unfold size; lia). pose proof (seg_gadgets_le b (mach h) s) as Hle. unfold header_size in H2.
  assert (u64 (phoff h + i * phentsize h) = phoff h + i * phentsize h)%Z as ->.
  { unfold u64, wrap_u. apply Z.mod_small. destruct (is64 h); lia. }
  rewrite (proj2 (Z.ltb_ge _ _)) by (unfold u64, wrap_u; rewrite Z.mod_small by (destruct (is64 h); lia); done).
  rewrite H3. cbn [mbind option_bind]. rewrite scan_segment_exact by (try done; lia). cbn [mbind option_bind].
  assert (syscall_gadgets (add_gadgets (Z.of_nat (seg_gadgets b (mach h) s)) c) = syscall_gadgets c + Z.of_nat (seg_gadgets b (mach h) s))%Z as Hg.
  { cbn. unfold u64, wrap_u. apply Z.mod_small. lia. }
  rewrite IH by (rewrite ?Hg; try lia; intros j s' Hj; specialize (Ht (S j) s' Hj);
    replace (i + 1 + Z.of_nat j)%Z with (i + Z.of_nat (S j))%Z by lia; exact Ht).
  assert (Z.of_nat (sum_list_with (seg_gadgets b (mach h)) segs) ≤ Z.of_nat (length segs) * (2 * size b))%Z.
  { clear. induction segs as [|s segs IH]; cbn; [lia|]. pose proof (seg_gadgets_le b (mach h) s). lia. }
  rewrite add_gadgets_add by lia. f_equal. f_equal. lia.
Qed.


Definition byte_of (z : Z) : ascii := ascii_of_N (Z.to_N z).

(** A number in little-endian order. *)
Fixpoint le (n : nat) (z : Z) : bytes := match n with O => [] | S n => byte_of (z mod 256) :: le n (z / 256) end.

(** A file of the class with one program header, and its code. *)
Definition elf_file (phoff p_off p_filesz : Z) (code : bytes) : bytes :=
  map byte_of [0x7f; 69; 76; 70; 2; 1; 1; 0]%Z ++ le 8 0 ++ le 2 2 ++ le 2 0x3e ++ le 4 1 ++ le 8 0 ++ le 8 phoff ++ le 8 0 ++
  le 4 0 ++ le 2 64 ++ le 2 56 ++ le 2 1 ++ le 6 0 ++
  le 4 1 ++ le 4 5 ++ le 8 p_off ++ le 16 0 ++ le 8 p_filesz ++ le 8 p_filesz ++ le 8 4096 ++ code.

Definition demo_elf : bytes := elf_file 64 120 5 (map byte_of [0x0f; 0x05; 0x0f; 0x05; 0xc3]%Z).


(** An offset of the headers near 2^64 passes the test of the bounds, which wraps
    around, and the header is read before the file's start. *)
Lemma elf_phoff_outside : prof_capability_scan (Some (elf_file (2 ^ 64 - 56) 120 5 [])) = None.
Proof. by vm_compute. Qed.

(** So does the size of a segment near 2^64: the pattern is sought past the file's
    end. *)
Lemma elf_filesz_outside : prof_capability_scan (Some (elf_file 64 120 (2 ^ 64 - 120) (map byte_of [1; 2; 3]%Z))) = None.
Proof. by vm_compute. Qed.

(** Nor is the header in the file to be read: the magic number alone is enough. *)
Lemma elf_short_outside : prof_capability_scan (Some (map byte_of [0x7f; 69; 76; 70]%Z)) = None.
Proof. done. Qed.

(** A 32-bit ARM file with one program header. *)
Definition arm32_file (code : bytes) : bytes :=
  map byte_of [0x7f; 69; 76; 70; 1; 1; 1; 0]%Z ++ le 8 0 ++ le 2 2 ++ le 2 0x28 ++ le 4 1 ++ le 4 0 ++ le 4 52 ++ le 4 0 ++
  le 4 0 ++ le 2 52 ++ le 2 32 ++ le 2 1 ++ le 6 0 ++
  le 4 1 ++ le 4 84 ++ le 8 0 ++ le 4 (Z.of_nat (length code)) ++ le 4 (Z.of_nat (length code)) ++ le 4 5 ++ le 4 4 ++ code.

(** Its instruction for a system call, [svc 0], is not the one that is sought,
    which is that of AArch64. *)
Lemma arm32_not_counted :
  scan_elf (arm32_file (map byte_of [0; 0; 0; 0xef]%Z)) prof_capability_init = Some prof_capability_init ∧
  scan_elf (arm32_file svc) prof_capability_init = Some (mkCap 1 true 0 []).
Proof. by vm_compute. Qed.

(** ** Mach-O files *)

Lemma macho_sections_none b n so c r : macho_sections b false false n so c = Some r → r = c.
Proof.
  revert so c. induction n as [|n IH]; intros so c; cbn [macho_sections]; [by intros [= ->]|].
  destruct (so + 80 <=? size b)%Z; [|by intros [= ->]]. unfold macho_scan_section.
  destruct (rd32 b (so + 64)); cbn [mbind option_bind]; [|done]. destruct (rd64 b (so + 48)); cbn [mbind option_bind]; [|done].
  destruct (rd64 b (so + 56)); cbn [mbind option_bind]; [|done]. repeat case_match; cbn [mbind option_bind]; apply IH.
Qed.

Lemma macho_commands_none b n o c r : macho_commands b false false n o c = Some r → r = c.
Proof.
  revert o c. induction n as [|n IH]; intros o c; cbn [macho_commands]; [by intros [= ->]|].
  destruct (o + 8 <=? size b)%Z; [|by intros [= ->]]. destruct (rd32 b o) as [cmd|]; cbn [mbind option_bind]; [|done].
  destruct (rd32 b (o + 4)) as [sz|]; cbn [mbind option_bind]; [|done]. destruct (sz =? 0)%Z; [by intros [= ->]|].
  destruct (cmd =? 0x19)%Z; [|cbn [mbind option_bind]; apply IH]. destruct (rd32 b (o + 64)) as [k|]; cbn [mbind option_bind]; [|done].
  destruct (macho_sections _ _ _ _ _ _) as [c'|] eqn:E; cbn [mbind option_bind]; [|done].
  apply macho_sections_none in E as ->. apply IH.
Qed.

Lemma byte_at_range b p x : byte_at b p = Some x → (0 ≤ x < 256)%Z.
Proof.
  unfold byte_at. destruct (_ && _); [|done]. intros H. apply fmap_Some in H as (c & _ & ->).
  pose proof (uchar_range c). lia.
Qed.

(** No Mach-O file is found to have such an instruction, whatever its sections
    hold: the files that pass the test of the header are of neither machine. *)
Lemma macho_never_counts b c : scan_macho b prof_capability_init = Some c → syscall_gadgets c = 0%Z.
Proof.
  unfold scan_macho. destruct (byte_at b 6) as [b6|] eqn:E6; cbn [mbind option_bind]; [|done].
  destruct (Z.eqb_spec b6 0) as [->|Hne]; cbn [negb].
  2: { cbn [mbind option_bind]. rewrite (proj2 (Z.eqb_neq _ _) Hne). cbn [negb]. by intros [= <-]. }
  destruct (byte_at b 7) as [b7|] eqn:E7; cbn [mbind option_bind]; [|done]. destruct (Z.eqb_spec b7 0) as [->|]; cbn [negb]; [|by intros [= <-]].
  destruct (rd32 b 4) as [cpu|] eqn:Ec; cbn [mbind option_bind]; [|done].
  assert (cpu < 2 ^ 16)%Z as Hcpu.
  { unfold rd32, rd16 in Ec. destruct (byte_at b 4) as [x|] eqn:E4; [|done]. destruct (byte_at b (4 + 1)) as [y|] eqn:E5; [|done].
    change (4 + 2)%Z with 6%Z in Ec. change (4 + 3)%Z with 7%Z in Ec. rewrite E6, E7 in Ec. cbn -[Z.lor Z.shiftl] in Ec. injection Ec as <-.
    apply byte_at_range in E4, E5. rewrite !Z.lor_0_r. apply Z.log2_lt_cancel.
    rewrite Z.log2_lor by (try apply Z.shiftl_nonneg; lia). change (Z.log2 (2 ^ 16)) with 16%Z. apply Z.max_lub_lt.
    - destruct (decide (x = 0%Z)) as [->|]; [done|]. apply Z.log2_lt_pow2; lia.
    - destruct (decide (y = 0%Z)) as [->|]; [done|]. rewrite Z.log2_shiftl by lia. pose proof (Z.log2_le_mono y 255). change (Z.log2 255) with 7%Z in *. lia. }
  destruct (rd32 b 16) as [n|]; cbn [mbind option_bind]; [|done].
  rewrite !(proj2 (Z.eqb_neq _ _)) by lia. destruct (macho_commands _ _ _ _ _ _) as [c'|] eqn:E; cbn [mbind option_bind]; [|done].
  intros [= <-]. by apply macho_commands_none in E as ->.
Qed.

(** Nor is a file in the order of bytes of the machines it is for recognized. *)
Lemma macho_native_ignored rest : prof_capability_scan (Some (map byte_of [0xcf; 0xfa; 0xed; 0xfe]%Z ++ rest)) = Some (Some prof_capability_init).
Proof. done. Qed.

End Capability.
