(* ===== verification/ProfileDoc.v ===== *)
(** * The profiler's documents

    [tools/profiler/validate.c] (the contract of a profile document) and the
    modes of [tools/profiler/profile.c] and [enforce_mode] of
    [tools/profiler/enforce.c]: a trace or a document is loaded, and a profile, a
    drift report, a jail, filters of the kernel or a compose fragment is written.
    [files] is what can be read, [writable] what can be opened for writing;
    outputs are texts with the file they go to, [None] for the standard output.
    Messages on the standard error are left out, and allocations succeed. The
    modes [capture] and [export], which run a command and talk to a collector,
    are parameters. *)

From stdpp Require Import sorting.
From S2P Require Import Prelude Libc Stdio Json JsonText PolicySig JsonBudget JsonRoundTrip JsonPrint JsonObject TraceStream.
From S2P Require Import SortedTable Correlate Profile ProfileDiff Context ScriptResolver Sandbox Engine Jail Capability.
Import Libc Stdio Json JsonText TraceStream SortedTable Correlate Profile ProfileDiff Jail.

Module ProfileDoc.

(** ** Validation *)

Record vctx := mkVctx { err : bytes; violations : Z }.

Definition violate (errsz : nat) (msg : bytes) (c : vctx) : vctx :=
  let n := (violations c + 1)%Z in
  if errsz <=? length (err c) + 2 then mkVctx (err c) n
  else
    let e := if 0 <? length (err c) then err c ++ [NL] else err c in
    mkVctx (e ++ snprintf (errsz - length e) msg) n.

(** A test with its message. *)
Definition require (errsz : nat) (ok : bool) (msg : bytes) (c : vctx) : vctx := if ok then c else violate errsz msg c.

Definition has_name (s : option bytes) : bool := match s with None | Some [] => false | _ => true end.

Definition at_least (o : JSON_Object) (name : string) (least : double) : bool :=
  has_value o name && negb (d_ltb (json_object_get_number (Some o) name) least).

Definition index_text (i : nat) : bytes := lit "[" ++ fmt_llu (Z.of_nat i) ++ lit "]".

(** The loop over an array, with its index. *)
Fixpoint check_items (check : nat → JSON_Value → vctx → vctx) (i : nat) (a : JSON_Array) (c : vctx) : vctx :=
  match a with
  | [] => c
  | v :: a => check_items check (S i) a (check i v c)
  end.

Definition check_name_count (errsz : nat) (key : bytes) (i : nat) (v : JSON_Value) (c : vctx) : vctx :=
  let pre := lit "profile." ++ key ++ index_text i in
  match json_value_get_object (Some v) with
  | None => violate errsz (pre ++ lit ": object required") c
  | Some o =>
      let c := require errsz (has_name (json_object_get_string (Some o) "name")) (pre ++ lit ".name: non-empty string required") c in
      require errsz (at_least o "count" d_one) (pre ++ lit ".count: number >= 1 required") c
  end.

Definition check_name_count_array (errsz : nat) (root : JSON_Object) (key : string) (c : vctx) : vctx :=
  match json_object_get_array (Some root) key with
  | None => violate errsz (lit "profile." ++ lit key ++ lit ": array required") c
  | Some arr => check_items (check_name_count errsz (lit key)) 0 arr c
  end.

Definition str_in (s : bytes) (set : list bytes) : bool := existsb (λ x, streq s x) set.

Definition is_one_of (s : option bytes) (set : list bytes) : bool := match s with Some s => str_in s set | None => false end.

Definition classes : list bytes := map lit ["read"; "write"; "probe"; "none"]%string.
Definition layers : list bytes := map lit ["captured"; "ABSENT"]%string.
Definition verdicts : list bytes := map lit ["clean"; "SUBLIBC_ACCESS_FOUND"]%string.

Definition check_access (errsz : nat) (i : nat) (v : JSON_Value) (c : vctx) : vctx :=
  let pre := lit "profile.accesses" ++ index_text i in
  match json_value_get_object (Some v) with
  | None => violate errsz (pre ++ lit ": object required") c
  | Some o =>
      let c := require errsz (has_name (json_object_get_string (Some o) "path")) (pre ++ lit ".path: non-empty string required") c in
      let c := require errsz (is_one_of (json_object_get_string (Some o) "class") classes)
                 (pre ++ lit ".class: read|write|probe|none required") c in
      require errsz (at_least o "hits" d_one) (pre ++ lit ".hits: number >= 1 required") c
  end.

Definition check_profile (errsz : nat) (root : JSON_Object) (c : vctx) : vctx :=
  match json_object_get_object (Some root) "profile" with
  | None => violate errsz (lit "profile: object required") c
  | Some prof =>
      let c := require errsz (at_least prof "entries" d_zero) (lit "profile.entries: number >= 0 required") c in
      let c := check_name_count_array errsz prof "functions" c in
      let c := check_name_count_array errsz prof "env" c in
      let c := check_name_count_array errsz prof "net" c in
      match json_object_get_array (Some prof) "accesses" with
      | None => violate errsz (lit "profile.accesses: array required") c
      | Some acc => check_items (check_access errsz) 0 acc c
      end
  end.

(** The coverage, and whether the kernel's layer was captured. *)
Definition check_coverage (errsz : nat) (root : JSON_Object) (c : vctx) : vctx * bool :=
  match json_object_get_object (Some root) "coverage" with
  | None => (violate errsz (lit "coverage: object required") c, false)
  | Some cov =>
      let c := require errsz (is_one_of (json_object_get_string (Some cov) "libc_layer") layers)
                 (lit "coverage.libc_layer: captured|ABSENT required") c in
      let l := json_object_get_string (Some cov) "kernel_layer" in
      (require errsz (is_one_of l layers) (lit "coverage.kernel_layer: captured|ABSENT required") c,
       is_one_of l layers && match l with Some l => streq l (lit "captured") | None => false end)
  end.

Definition check_risk (errsz : nat) (root : JSON_Object) (kernel_captured : bool) (c : vctx) : vctx :=
  if has_value root "risk" then
    let c := require errsz kernel_captured (lit "risk: present but coverage.kernel_layer is ABSENT") c in
    match json_object_get_object (Some root) "risk" with
    | None => violate errsz (lit "risk: object required") c
    | Some risk =>
        let c := require errsz (is_one_of (json_object_get_string (Some risk) "verdict") verdicts)
                   (lit "risk.verdict: clean|SUBLIBC_ACCESS_FOUND required") c in
        foldl (λ c n, require errsz (at_least risk n d_zero) (lit "risk." ++ lit n ++ lit ": number >= 0 required") c) c
          ["agreed"; "libc_only"; "kernel_only"]%string
    end
  else require errsz (negb kernel_captured) (lit "risk: required when coverage.kernel_layer is captured") c.

Definition check_capability (errsz : nat) (root : JSON_Object) (c : vctx) : vctx :=
  if has_value root "static_capability" then
    match json_object_get_object (Some root) "static_capability" with
    | None => violate errsz (lit "static_capability: object required") c
    | Some cap =>
        let c := require errsz (at_least cap "raw_syscall_gadgets" d_zero)
                   (lit "static_capability.raw_syscall_gadgets: number >= 0 required") c in
        require errsz (at_least cap "ntdll_imports" d_zero) (lit "static_capability.ntdll_imports: number >= 0 required") c
    end
  else c.

Definition validate_root (errsz : nat) (root : JSON_Object) : vctx :=
  let c := check_profile errsz root (mkVctx [] 0) in
  let '(c, kernel_captured) := check_coverage errsz root c in
  check_capability errsz root (check_risk errsz root kernel_captured c).

(** The number of violations, -1 if there is no object to check, and the text. *)
Definition prof_validate (errsz : nat) (v : option JSON_Value) : Z * bytes :=
  match v with
  | None => ((-1)%Z, err (violate errsz (lit "not parseable JSON") (mkVctx [] 0)))
  | Some v =>
      match json_value_get_object (Some v) with
      | None => ((-1)%Z, err (violate errsz (lit "root: object required") (mkVctx [] 0)))
      | Some root => let c := validate_root errsz root in (violations c, err c)
      end
  end.

(** ** The document *)

Definition coverage (have_kernel : bool) : JSON_Object :=
  set_string (set_string [] "libc_layer" (lit "captured")) "kernel_layer" (if have_kernel then lit "captured" else lit "ABSENT").

Definition risk_object (d : Delta) : JSON_Object :=
  let ro := set_number [] "agreed" (d_of_int (agreed d)) in
  let ro := set_number ro "libc_only" (d_of_int (libc_only d)) in
  let ro := set_number ro "kernel_only" (d_of_int (kernel_only d)) in
  let ro := set_string ro "verdict" (if (0 <? kernel_only d)%Z then lit "SUBLIBC_ACCESS_FOUND" else lit "clean") in
  set_value ro "kernel_only_accesses" (JSONArray (risk_arr d)).

Definition capability_to_json (root : JSON_Object) (c : Capability.ProfCapability) : JSON_Object :=
  let cap := set_number [] "raw_syscall_gadgets" (d_of_int (Capability.syscall_gadgets c)) in
  let cap := set_number cap "ntdll_imports" (d_of_int (Capability.ntdll_imports c)) in
  let cap := set_value cap "ntdll_names" (JSONArray (append_strings (take 16 (Capability.ntdll_names c)))) in
  set_value root "static_capability" (JSONObject cap).

Section tool.
Context {DT : DoubleText} `{Qsort} (out_of_range : double → Z).

Definition profile_doc (libc : Profile) (kernel : option Profile) (cap : option Capability.ProfCapability) : JSON_Object :=
  let root := set_value [] "profile" (JSONObject (prof_to_json libc)) in
  let root := set_value root "coverage" (JSONObject (coverage (is_some kernel))) in
  let root := match kernel with
              | Some kernel => set_value root "risk" (JSONObject (risk_object (delta_compute libc kernel)))
              | None => root
              end in
  match cap with Some c => capability_to_json root c | None => root end.

(** ** Loading *)

Record ProfFeed := mkFeed { prof : Profile; skipped : nat }.

Definition scan_feed (text : bytes) : ProfFeed := mkFeed (profile_of (entries_of text)) (corr_stream_scan text).2.

Definition load_profile (files : bytes → option bytes) (path : bytes) : option ProfFeed :=
  match files path with Some text => Some (scan_feed text) | None => None end.

Definition load_text (text : bytes) : option ProfFeed :=
  match json_parse_string_with_comments (cstr text) with
  | Some v =>
      match json_object_get_object (json_value_get_object (Some v)) "profile" with
      | Some p => (λ p, mkFeed p 0) <$> prof_from_json out_of_range (Some p)
      | None => Some (scan_feed text)
      end
  | None => Some (scan_feed text)
  end.

Definition load_any (files : bytes → option bytes) (path : bytes) : option ProfFeed :=
  match files path with Some text => load_text text | None => None end.

(** ** What a mode does *)

Record run := mkRun { exit_code : Z; outputs : list (option bytes * bytes) }.

Definition usage : run := mkRun 2 [].

(** The pretty text of a value and a line end, to a file or the standard output. *)
Definition pretty (v : JSON_Value) : bytes := default [] (json_serialize_to_string true v) ++ [NL].

Context (files : bytes → option bytes) (writable : bytes → bool).

(** A text to a file that may not open; [None] goes to the standard output. *)
Definition emit (dest : option bytes) (text : bytes) : option (list (option bytes * bytes)) :=
  match dest with
  | Some path => if writable path then Some [(Some path, text)] else None
  | None => Some [(None, text)]
  end.

(** An option in the sense of the modes: a dash and more. *)
Definition is_flag (a : bytes) : bool := ceq (deref a) "-" && negb (ceq (char_at a 1) NUL).

(** *** diff *)

Record diff_opts := mkDiffOpts { baseline_path : option bytes; candidate_path : option bytes; json_out : bool }.

Fixpoint diff_args (args : list bytes) (o : diff_opts) : option diff_opts :=
  match args with
  | [] => Some o
  | a :: args =>
      if streq a (lit "--json") then diff_args args (mkDiffOpts (baseline_path o) (candidate_path o) true)
      else if is_flag a then None
      else match baseline_path o, candidate_path o with
           | None, _ => diff_args args (mkDiffOpts (Some a) (candidate_path o) (json_out o))
           | _, None => diff_args args (mkDiffOpts (baseline_path o) (Some a) (json_out o))
           | _, _ => diff_args args o
           end
  end.

Definition count_text (n : nat) : bytes := fmt_llu (Z.of_nat n).

Definition change_text (c : ProfPathChange) : bytes :=
  match class_from c, class_to c with
  | None, to => line (lit "  + " ++ c_path c ++ lit " (added, " ++ cls_str to ++ lit ", " ++ count_text (hits_to c) ++ lit " hits)")
  | _, None => line (lit "  - " ++ c_path c ++ lit " (removed)")
  | from, to => line (lit "  ! " ++ c_path c ++ lit " (" ++ cls_str from ++ lit " -> " ++ cls_str to ++ lit ")")
  end.

Definition diff_text (baseline candidate : Profile) (d : ProfDiff) (drift : bool) : bytes :=
  line (lit "profile-diff: baseline " ++ count_text (entries baseline) ++ lit " entries, candidate "
        ++ count_text (entries candidate) ++ lit " entries") ++
  concat (map change_text (changes d)) ++
  concat (map (λ f, line (lit "  + fn " ++ f ++ lit " (new)")) (new_functions d)) ++
  concat (map (λ f, line (lit "  + env " ++ f ++ lit " (new -- supply-chain signal)")) (new_env d)) ++
  concat (map (λ f, line (lit "  + net " ++ f ++ lit " (new -- supply-chain signal)")) (new_net d)) ++
  line (if drift then lit "profile-diff: DRIFT FOUND" else lit "profile-diff: no drift").

Definition diff_mode (args : list bytes) : run :=
  match diff_args args (mkDiffOpts None None false) with
  | Some (mkDiffOpts (Some bp) (Some cp) json_out) =>
      match load_any files bp with
      | None => usage
      | Some baseline =>
          match load_any files cp with
          | None => usage
          | Some candidate =>
              let '(d, drift) := prof_diff_compute (prof baseline) (prof candidate) in
              mkRun (if (drift : bool) then 1 else 0)
                [(None, if (json_out : bool) then pretty (JSONObject (prof_diff_to_json d))
                        else diff_text (prof baseline) (prof candidate) d drift)]
          end
      end
  | _ => usage
  end.

(** *** jail *)

Record jail_opts := mkJail { j_in : option bytes; j_inside : option bytes; j_out : option bytes; j_opts : ProfJailOpts }.

Fixpoint jail_args (args : list bytes) (o : jail_opts) : option jail_opts :=
  match args with
  | [] => Some o
  | a :: args =>
      let single :=
        if streq a (lit "--read-only") then
          Some (mkJail (j_in o) (j_inside o) (j_out o)
                  (mkJailOpts true (decoy_dir (j_opts o)) (pin_clock (j_opts o)) (pin_clock_set (j_opts o))))
        else if is_flag a then None
        else match j_in o with
             | None => Some (mkJail (Some a) (j_inside o) (j_out o) (j_opts o))
             | Some _ => Some o
             end in
      match args with
      | v :: rest =>
          if streq a (lit "--inside") then jail_args rest (mkJail (j_in o) (Some v) (j_out o) (j_opts o))
          else if streq a (lit "-o") then jail_args rest (mkJail (j_in o) (j_inside o) (Some v) (j_opts o))
          else if streq a (lit "--decoy") then
            jail_args rest (mkJail (j_in o) (j_inside o) (j_out o)
              (mkJailOpts (read_only (j_opts o)) (Some v) (pin_clock (j_opts o)) (pin_clock_set (j_opts o))))
          else if streq a (lit "--pin-clock") then
            jail_args rest (mkJail (j_in o) (j_inside o) (j_out o)
              (mkJailOpts (read_only (j_opts o)) (decoy_dir (j_opts o)) (atol v) true))
          else match single with Some o => jail_args args o | None => None end
      | [] => single
      end
  end.

(** The declared set, when one is given, or the observed accesses. *)
Definition allow_source (inside : option bytes) (feed : ProfFeed) : option Profile :=
  match inside with
  | Some path => prof <$> load_any files path
  | None => Some (prof feed)
  end.

Definition written (o : option (list (option bytes * bytes))) : run :=
  match o with Some out => mkRun 0 out | None => usage end.

Definition jail_mode (args : list bytes) : run :=
  match jail_args args (mkJail None None None no_opts) with
  | Some (mkJail (Some inp) inside out jopts) =>
      match load_any files inp with
      | None => usage
      | Some feed =>
          match functions (prof feed) with
          | [] => usage
          | _ =>
              match allow_source inside feed with
              | None => usage
              | Some allow_src => written (emit out (pretty (JSONObject (prof_jail_config (prof feed) allow_src jopts))))
              end
          end
      end
  | _ => usage
  end.

(** *** enforce *)

Record enforce_opts := mkEnforce { e_in : option bytes; e_inside : option bytes; e_out : option bytes; e_exec : option bytes; e_backend : bytes }.

Fixpoint enforce_args (args : list bytes) (o : enforce_opts) : option enforce_opts :=
  match args with
  | [] => Some o
  | a :: args =>
      let single :=
        if is_flag a then None
        else match e_in o with
             | None => Some (mkEnforce (Some a) (e_inside o) (e_out o) (e_exec o) (e_backend o))
             | Some _ => Some o
             end in
      match args with
      | v :: rest =>
          if streq a (lit "--inside") then enforce_args rest (mkEnforce (e_in o) (Some v) (e_out o) (e_exec o) (e_backend o))
          else if streq a (lit "-o") then enforce_args rest (mkEnforce (e_in o) (e_inside o) (Some v) (e_exec o) (e_backend o))
          else if streq a (lit "--exec") then enforce_args rest (mkEnforce (e_in o) (e_inside o) (e_out o) (Some v) (e_backend o))
          else if streq a (lit "--backend") then enforce_args rest (mkEnforce (e_in o) (e_inside o) (e_out o) (e_exec o) v)
          else match single with Some o => enforce_args args o | None => None end
      | [] => single
      end
  end.

(** The planes a backend asks for: Landlock, seccomp, AppContainer. *)
Definition backend_planes (backend : bytes) : option (bool * bool * bool) :=
  if streq backend (lit "landlock") then Some (true, false, false)
  else if streq backend (lit "seccomp") then Some (false, true, false)
  else if streq backend (lit "sandbox-exec") then Some (false, false, false)
  else if streq backend (lit "appcontainer") then Some (false, false, true)
  else if streq backend (lit "all") then Some (true, true, true)
  else if streq backend (lit "both") then Some (true, true, false)
  else None.

Definition enforce_mode (args : list bytes) : run :=
  match enforce_args args (mkEnforce None None None None (lit "both")) with
  | Some (mkEnforce (Some inp) inside out exec backend) =>
      match backend_planes backend with
      | None => usage
      | Some (want_ll, want_sc, want_ac) =>
          match load_any files inp with
          | None => usage
          | Some feed =>
              match allow_source inside feed with
              | None => usage
              | Some allow_src => written (emit out (pretty (JSONObject (build_spec allow_src (prof feed) exec want_ll want_sc want_ac))))
              end
          end
      end
  | _ => usage
  end.

(** *** harden *)

Fixpoint harden_args (args : list bytes) (hp ho : option bytes) : option (option bytes * option bytes) :=
  match args with
  | [] => Some (hp, ho)
  | a :: args =>
      let single := if negb (ceq (deref a) "-") then Some (Some a) else None in
      match args with
      | v :: rest =>
          if streq a (lit "-o") then harden_args rest hp (Some v)
          else match single with Some hp => harden_args args hp ho | None => None end
      | [] => match single with Some hp => Some (hp, ho) | None => None end
      end
  end.

Definition harden_mode (args : list bytes) : run :=
  match harden_args args None None with
  | Some (Some hp, ho) =>
      match load_any files hp with
      | None => usage
      | Some feed => written (emit ho (prof_harden_compose (prof feed)))
      end
  | _ => usage
  end.

(** *** validate *)

Definition validate_mode (args : list bytes) : run :=
  match args with
  | [path] =>
      let '(n, err) := prof_validate 2048 (text ← files path; json_parse_string (cstr text)) in
      if (n =? 0)%Z then mkRun 0 [(None, line (lit "profile: valid"))]
      else if (n <? 0)%Z then mkRun 1 [(None, line (lit "profile: NOT PARSEABLE") ++ line err)]
      else mkRun 1 [(None, line (lit "profile: " ++ fmt_ld n ++ lit " violation" ++ (if (n =? 1)%Z then [] else lit "s")) ++ line err)]
  | _ => usage
  end.

(** *** The profile itself *)

Record main_opts := mkMain {
  libc_path : option bytes; kernel_path : option bytes; binary_path : option bytes;
  out_path : option bytes; jail_path : option bytes; m_inside : option bytes }.

Fixpoint main_args (args : list bytes) (o : main_opts) : option main_opts :=
  match args with
  | [] => Some o
  | a :: v :: rest =>
      if streq a (lit "--libc") then
        main_args rest (mkMain (Some v) (kernel_path o) (binary_path o) (out_path o) (jail_path o) (m_inside o))
      else if streq a (lit "--kernel") then
        main_args rest (mkMain (libc_path o) (Some v) (binary_path o) (out_path o) (jail_path o) (m_inside o))
      else if streq a (lit "--binary") then
        main_args rest (mkMain (libc_path o) (kernel_path o) (Some v) (out_path o) (jail_path o) (m_inside o))
      else if streq a (lit "-o") then
        main_args rest (mkMain (libc_path o) (kernel_path o) (binary_path o) (Some v) (jail_path o) (m_inside o))
      else if streq a (lit "--jail-out") then
        main_args rest (mkMain (libc_path o) (kernel_path o) (binary_path o) (out_path o) (Some v) (m_inside o))
      else if streq a (lit "--inside") then
        main_args rest (mkMain (libc_path o) (kernel_path o) (binary_path o) (out_path o) (jail_path o) (Some v))
      else None
  | [_] => None
  end.

(** An optional input: not given, or loaded. *)
Definition optional {A} (load : bytes → option A) (path : option bytes) : option (option A) :=
  match path with None => Some None | Some p => Some <$> load p end.

(** The scan of a binary; an access outside of the file is no result either. *)
Definition scan_binary (path : bytes) : option Capability.ProfCapability := mjoin (Capability.prof_capability_scan (files path)).

Definition profile_mode (args : list bytes) : run :=
  match main_args args (mkMain None None None None None None) with
  | Some (mkMain (Some libc) kernel binary out jail inside) =>
      match load_any files libc, optional (load_profile files) inside, optional (load_profile files) kernel, optional scan_binary binary with
      | Some feed, Some inside_feed, Some kernel_feed, Some cap =>
          let doc := profile_doc (prof feed) (prof <$> kernel_feed) cap in
          match (match jail with
                 | Some path =>
                     let allow_src := default feed inside_feed in
                     emit (Some path) (pretty (JSONObject (prof_jail_config (prof feed) (prof allow_src) no_opts)))
                 | None => Some []
                 end) with
          | None => usage
          | Some jail_out =>
              match emit out (pretty (JSONObject doc)) with
              | Some profile_out => mkRun 0 (jail_out ++ profile_out)
              | None => mkRun 2 jail_out
              end
          end
      | _, _, _, _ => usage
      end
  | _ => usage
  end.

Context (capture_mode export_mode : list bytes → run).

(** [main], on the arguments after the name of the program. *)
Definition main (argv : list bytes) : run :=
  match argv with
  | a :: args =>
      if streq a (lit "diff") then diff_mode args
      else if streq a (lit "capture") then capture_mode args
      else if streq a (lit "jail") then jail_mode args
      else if streq a (lit "enforce") then enforce_mode args
      else if streq a (lit "export") then export_mode args
      else if streq a (lit "harden") then harden_mode args
      else if streq a (lit "validate") then validate_mode args
      else profile_mode argv
  | [] => profile_mode []
  end.

End tool.

(** ** A text and a line end read back *)

Section text.
Context {DT : DoubleText}.

Lemma strip_line token en v text :
  JsonRoundTrip.json_ok v → json_serialize_to_buffer_r true v 0 = Some text → length en ≠ 0 →
  remove_comments (text ++ [NL]) ("/"%char :: token) en = Some (text ++ [NL]).
Proof.
  intros Hok Ht Hen. pose proof (JsonRoundTrip.value_closed (JsonRoundTrip.transparent token en) true v Hok 0 text Ht 2 [NL]) as H.
  unfold remove_comments. rewrite (proj2 (Nat.eqb_neq (length en) 0)) by done. cbn [length Nat.eqb orb].
  rewrite length_app. cbn [length]. replace (S (length text + 1)) with (length text + 2) by lia. rewrite H. cbn. done.
Qed.

Lemma pretty_back v :
  JsonRoundTrip.json_ok v → JsonRoundTrip.json_depth v ≤ S MAX_NESTING →
  json_parse_string (cstr (pretty v)) = Some v ∧ json_parse_string_with_comments (cstr (pretty v)) = Some v.
Proof.
  intros Hok Hd. destruct (JsonRoundTrip.written_text true v Hok) as (text & Hs & Ht & Hr). unfold pretty. rewrite Hs. cbn [default].
  unfold id. rewrite cstr_id.
  2: { apply JsonRoundTrip.nul_free_app. split; [|by repeat (apply Forall_cons; split)].
       by apply (JsonRoundTrip.value_closed no_nul true v Hok 0 text Ht). }
  split; [by apply JsonPrint.reads_parse|].
  rewrite JsonBudget.json_budget_equiv. unfold JsonBudget.parse_stripped, strip_comments.
  change (lit "/*") with ("/"%char :: lit "*"). change (lit "//") with ("/"%char :: lit "/").
  rewrite (strip_line _ _ v), (strip_line _ _ v) by done. destruct Hr as [_ Hr]. specialize (Hr (S MAX_NESTING) [NL] 0%Z eq_refl).
  unfold JsonRoundTrip.outcome in Hr. rewrite (proj2 (Nat.leb_le _ _) Hd) in Hr. destruct Hr as [t' ->]. done.
Qed.

End text.

(** ** The depth of a document *)

Abbreviation depth := JsonRoundTrip.json_depth.

Lemma array_depth a n : Forall (λ v, depth v ≤ n) a → depth (JSONArray a) ≤ S n.
Proof. 
  intros Ha. rewrite JsonRoundTrip.depth_array. apply le_n_S. unfold JsonRoundTrip.items_depth.
  induction Ha as [|v a Hv _ IH]; cbn [foldr]; [lia|by apply Nat.max_lub].
Qed.

Lemma object_depth o n : Forall (λ m : bytes * JSON_Value, depth m.2 ≤ n) o → depth (JSONObject o) ≤ S n.
Proof. 
  intros Ho. rewrite JsonRoundTrip.depth_object. apply le_n_S. unfold JsonRoundTrip.members_depth, JsonRoundTrip.items_depth.
  induction Ho as [|v a Hv _ IH]; cbn [foldr map]; [lia|by apply Nat.max_lub].
Qed.

(** Members keep below a depth. *)
Abbreviation flat n o := (Forall (λ m : bytes * JSON_Value, depth m.2 ≤ n) o).

Lemma replace_flat n o k v : flat n o → depth v ≤ n → flat n (JsonObject.replace_value o k v).
Proof.
  intros Ho Hv. induction Ho as [|[k' v'] o Hv' Ho IH]; cbn; [constructor|]. by destruct (streq k' k); constructor.
Qed.

Lemma set_flat n o k v : flat n o → depth v ≤ n → flat n (set_value o k v).
Proof.
  intros Ho Hv. unfold set_value, JsonObject.json_object_set_value, JsonObject.object_add.
  destruct (json_object_nget_value o (lit k)); cbn; [by apply replace_flat|]. apply Forall_app. split; [done|]. by apply Forall_singleton.
Qed.

Lemma set_string_flat n o k s : 1 ≤ n → flat n o → flat n (set_string o k s).
Proof.
  intros Hn Ho. unfold set_string, JsonObject.json_object_set_string, JsonObject.json_value_init_string.
  destruct (JsonObject.is_valid_utf8 s); cbn [negb]; [by apply set_flat|done].
Qed.

Lemma set_number_flat n o k d : 1 ≤ n → flat n o → flat n (set_number o k d).
Proof. intros Hn Ho. by apply set_flat. Qed.

Create HintDb depth.
#[local] Hint Resolve set_flat set_string_flat set_number_flat array_depth object_depth Forall_nil_2 : depth.

Lemma map_depth {A} (f : A → JSON_Value) l n : (∀ x, depth (f x) ≤ n) → depth (JSONArray (map f l)) ≤ S n.
Proof. intros Hf. apply array_depth, Forall_forall. intros v Hv. apply list_elem_of_fmap in Hv as (x & -> & _). apply Hf. Qed.

Lemma strings_depth l : depth (JSONArray (append_strings l)) ≤ 2.
Proof. rewrite append_strings_valid. apply array_depth, Forall_fmap, Forall_forall. cbn. lia. Qed.

Section docs.
Context {DT : DoubleText} `{Qsort} (out_of_range : double → Z).

Lemma prof_depth p : flat 3 (prof_to_json p).
Proof.
  assert (∀ e, depth (name_to_json e) ≤ 2) as Hn by (intros e; apply object_depth; eauto with depth).
  assert (∀ e, depth (access_to_json e) ≤ 2) as Ha by (intros e; apply object_depth; eauto 6 with depth).
  assert (∀ e, depth (timing_to_json e) ≤ 2) as Ht.
  { intros e. unfold timing_to_json. cbn zeta. generalize (prof_timing_p99 e.2). intros q. apply object_depth; eauto 8 with depth. }
  unfold prof_to_json, names_to_json. cbn zeta.
  assert (flat 3 (set_value (set_value (set_value (set_value (set_number [] "entries" (d_nat (entries p))) "functions" (JSONArray (map name_to_json (functions p))))
    "env" (JSONArray (map name_to_json (env p)))) "net" (JSONArray (map name_to_json (net p)))) "accesses" (JSONArray (map access_to_json (accesses p))))) as Hf.
  { repeat apply set_flat; try (by apply map_depth); [constructor|cbn; lia]. }
  destruct (timings p); [done|]. apply set_flat; [done|]. by apply map_depth.
Qed.

Lemma doc_depth p kernel cap : depth (JSONObject (profile_doc p kernel cap)) ≤ 5.
Proof.
  apply object_depth. unfold profile_doc. cbn zeta.
  set (root := set_value (set_value [] _ _) "coverage" _).
  assert (flat 4 root) as Hroot.
  { unfold root. apply set_flat; [apply set_flat; [constructor|apply object_depth, prof_depth]|].
    etrans; [apply (object_depth _ 1); unfold coverage; apply set_string_flat; [lia|]; apply set_string_flat; [lia|constructor]|lia]. }
  set (root' := match kernel with Some _ => _ | None => root end).
  assert (flat 4 root') as Hroot'.
  { unfold root'. destruct kernel as [k|]; [|done]. apply set_flat; [done|]. apply object_depth. unfold risk_object. cbn zeta.
    apply set_flat; [repeat (apply set_string_flat || apply set_number_flat); try lia; constructor|]. apply array_depth, Forall_forall.
    assert (∀ l d, Forall (λ v, depth v ≤ 2) (risk_arr d) → Forall (λ v, depth v ≤ 2) (risk_arr (foldl (delta_step p) d l))) as Hd.
    { induction l as [|ka l IH]; intros d Hd; [done|]. cbn [foldl]. apply IH. unfold delta_step. destruct (prof_access_get p ka.1); [done|].
      apply Forall_app. split; [done|]. apply Forall_singleton. apply object_depth. apply set_number_flat; [lia|]. apply set_string_flat; [lia|constructor]. }
    apply Forall_forall, Hd. constructor. }
  destruct cap as [c|]; [|done]. unfold capability_to_json. cbn zeta. apply set_flat; [done|]. apply object_depth.
  apply set_flat; [repeat apply set_number_flat; try lia; constructor|]. etrans; [apply strings_depth|lia].
Qed.

(** ** A document that was written is valid *)

Definition cap_ok (c : Capability.ProfCapability) : Prop := (0 ≤ Capability.syscall_gadgets c ∧ 0 ≤ Capability.ntdll_imports c)%Z.

Lemma doc_members p kernel cap :
  let doc := profile_doc p kernel cap in
  json_object_get_object (Some doc) "profile" = Some (prof_to_json p) ∧
  json_object_get_object (Some doc) "coverage" = Some (coverage (is_some kernel)) ∧
  has_value doc "risk" = is_some kernel ∧
  json_object_get_object (Some doc) "risk" = (λ k, risk_object (delta_compute p k)) <$> kernel ∧
  has_value doc "static_capability" = is_some cap ∧
  json_object_get_object (Some doc) "static_capability" =
    (λ c, default [] (json_object_get_object (Some (capability_to_json [] c)) "static_capability")) <$> cap.
Proof.
  unfold profile_doc, capability_to_json. cbn zeta. generalize (prof_to_json p). intros o.
  destruct kernel as [k|]; [cbn [is_some fmap option_fmap option_map]; generalize (risk_object (delta_compute p k)); intros r|];
    (destruct cap as [c|]; [|done]); cbn [fmap option_fmap option_map];
    generalize (d_of_int (Capability.syscall_gadgets c)), (d_of_int (Capability.ntdll_imports c)), (append_strings (take 16 (Capability.ntdll_names c)));
    done.
Qed.

Lemma check_items_ok check i a c : (∀ i v c, v ∈ a → check i v c = c) → check_items check i a c = c.
Proof.
  revert i c. induction a as [|v a IH]; intros i c Hc; [done|]. cbn. rewrite (Hc i v c) by left.
  apply IH. intros j w d Hw. apply Hc. by right.
Qed.

Lemma at_least_count o k n d :
  json_object_get_value (Some o) k = Some (JSONNumber (d_nat n)) → fits n → (d <= Z.of_nat n)%Z → at_least o k (d_int d) = true.
Proof.
  intros Ho Hn Hd. unfold at_least, has_value. rewrite Ho. unfold json_object_get_number. rewrite Ho. cbn [json_value_get_number].
  rewrite d_nat_int by done. rewrite d_ltb_int. cbn. by rewrite (proj2 (Z.ltb_ge _ _)).
Qed.

Lemma of_int_nonneg z : (0 ≤ z)%Z → d_ltb (d_of_int z) d_zero = false.
Proof.
  intros Hz. assert (0 ≤ d_man (d_of_int z))%Z as Hm.
  { unfold d_of_int. cbv zeta. rewrite Z.abs_eq by done. destruct (Z.leb_spec z (2 ^ 53)) as [|Hbig]; [done|]. cbn [d_man].
    apply Z.mul_nonneg_nonneg; [lia|]. pose proof (Z.log2_le_mono (2 ^ 53) z ltac:(lia)) as Hl. change (Z.log2 (2 ^ 53)) with 53%Z in Hl.
    assert (0 ≤ z / 2 ^ (Z.log2 z - 52))%Z by (apply Z.div_pos; [done|]; apply Z.pow_pos_nonneg; lia).
    case_match; lia. }
  unfold d_ltb. apply bool_decide_false. unfold d_cmp, d_zero. cbn [d_man d_exp]. rewrite Z.mul_0_l. rewrite Z.compare_lt_iff.
  apply Z.nlt_ge, Z.mul_nonneg_nonneg; [done|]. apply Z.pow_nonneg. lia.
Qed.

Lemma at_least_zero o k z :
  json_object_get_value (Some o) k = Some (JSONNumber (d_of_int z)) → (0 ≤ z)%Z → at_least o k d_zero = true.
Proof.
  intros Ho Hz. unfold at_least, has_value. rewrite Ho. unfold json_object_get_number. rewrite Ho. cbn [json_value_get_number].
  by rewrite of_int_nonneg.
Qed.

Lemma named_some s : s ≠ [] → has_name (Some s) = true.
Proof. by destruct s. Qed.

Lemma check_names_ok errsz n root key c :
  names_fit n → json_object_get_array (Some root) key = Some (map name_to_json n) → check_name_count_array errsz root key c = c.
Proof.
  intros Hn Ha. unfold check_name_count_array. rewrite Ha. apply check_items_ok. intros i v c' Hv.
  apply list_elem_of_fmap in Hv as (e & -> & He). unfold names_fit in Hn. rewrite Forall_forall in Hn. destruct (Hn e He) as ([Hne Hu] & H1 & Hf).
  unfold check_name_count, name_to_json. rewrite set_string_valid by done. cbn [json_value_get_object].
  set (o := set_number _ _ _). assert (json_object_get_string (Some o) "name" = Some e.1) as -> by done.
  rewrite (named_some e.1) by done. change d_one with (d_int 1). rewrite (at_least_count o "count" e.2 1) by (try done; lia). done.
Qed.

Lemma check_accesses_ok errsz l c :
  accesses_fit l → check_items (check_access errsz) 0 (map access_to_json l) c = c.
Proof.
  intros Hl. apply check_items_ok. intros i v c' Hv. apply list_elem_of_fmap in Hv as (e & -> & He).
  unfold accesses_fit in Hl. rewrite Forall_forall in Hl. destruct (Hl e He) as ([Hne Hu] & H1 & Hf).
  unfold check_access, access_to_json. rewrite !set_string_valid by (try done; unfold access_class; repeat case_match; done).
  cbn [json_value_get_object]. set (o := set_number _ _ _).
  assert (json_object_get_string (Some o) "path" = Some e.1) as -> by done.
  assert (json_object_get_string (Some o) "class" = Some (access_class e.2)) as -> by done.
  rewrite (named_some e.1) by done. change d_one with (d_int 1). rewrite (at_least_count o "hits" (hits e.2) 1) by (try done; lia).
  assert (is_one_of (Some (access_class e.2)) classes = true) as ->; [|done].
  unfold access_class. by repeat case_match.
Qed.

Lemma delta_nonneg libc kernel :
  let d := delta_compute libc kernel in (0 ≤ agreed d ∧ 0 ≤ libc_only d ∧ 0 ≤ kernel_only d)%Z.
Proof.
  cbn zeta. unfold delta_compute. assert (∀ z, 0 ≤ u64 z)%Z as Hu by (intros z; apply Z.mod_pos_bound; lia).
  assert (∀ l d, (0 ≤ agreed d ∧ 0 ≤ libc_only d ∧ 0 ≤ kernel_only d)%Z →
    let d := foldl (delta_step libc) d l in (0 ≤ agreed d ∧ 0 ≤ libc_only d ∧ 0 ≤ kernel_only d)%Z) as Hd; [|apply Hd; cbn; lia].
  induction l as [|ka l IH]; intros d Hd; [done|]. cbn [foldl]. apply IH. unfold delta_step.
  destruct (prof_access_get libc ka.1); cbn; repeat split; try apply Hu; apply Hd.
Qed.

Lemma check_risk_ok errsz p kernel cap c :
  check_risk errsz (profile_doc p kernel cap) (is_some kernel) c = c.
Proof.
  destruct (doc_members p kernel cap) as (_ & _ & E3 & E4 & _). unfold check_risk. rewrite E3, E4.
  destruct kernel as [k|]; [|done]. cbn [is_some fmap option_fmap option_map]. destruct (delta_nonneg p k) as (H1 & H2 & H3).
  generalize dependent (delta_compute p k). intros d ? ? ?. unfold risk_object. cbn zeta. generalize (risk_arr d). intros arr.
  rewrite set_string_valid by by destruct (0 <? kernel_only d)%Z. set (o := set_value _ "kernel_only_accesses" _).
  assert (is_one_of (json_object_get_string (Some o) "verdict") verdicts = true) as ->.
  { change (json_object_get_string (Some o) "verdict") with (Some (if (0 <? kernel_only d)%Z then lit "SUBLIBC_ACCESS_FOUND" else lit "clean")).
    by destruct (0 <? kernel_only d)%Z. }
  cbn [foldl]. rewrite (at_least_zero o "agreed" (agreed d)), (at_least_zero o "libc_only" (libc_only d)), (at_least_zero o "kernel_only" (kernel_only d)) by done.
  done.
Qed.

Lemma check_capability_ok errsz p kernel cap c :
  match cap with Some c => cap_ok c | None => True end → check_capability errsz (profile_doc p kernel cap) c = c.
Proof.
  intros Hc. destruct (doc_members p kernel cap) as (_ & _ & _ & _ & E5 & E6). unfold check_capability. rewrite E5, E6.
  destruct cap as [cp|]; [|done]. cbn [is_some fmap option_fmap option_map]. destruct Hc as [Hc1 Hc2].
  unfold capability_to_json. cbn zeta. generalize (append_strings (take 16 (Capability.ntdll_names cp))). intros arr.
  set (o := default [] _). rewrite (at_least_zero o "raw_syscall_gadgets" (Capability.syscall_gadgets cp)), (at_least_zero o "ntdll_imports" (Capability.ntdll_imports cp)) by done.
  done.
Qed.

Lemma doc_validates errsz p kernel cap :
  prof_fits p → match cap with Some c => cap_ok c | None => True end →
  prof_validate errsz (Some (JSONObject (profile_doc p kernel cap))) = (0%Z, []).
Proof.
  intros [F1 F2 F3 F4 F5 _] Hc. destruct (doc_members p kernel cap) as (E1 & E2 & _). destruct (prof_to_json_members p) as (P1 & P2 & P3 & P4 & P5 & _).
  unfold prof_validate. cbn [json_value_get_object]. unfold validate_root.
  assert (∀ c, check_profile errsz (profile_doc p kernel cap) c = c) as Hp.
  { intros c. unfold check_profile. rewrite E1, P5.
    assert (at_least (prof_to_json p) "entries" d_zero = true) as ->.
    { unfold at_least. rewrite P1. change d_zero with (d_int 0). rewrite d_nat_int, d_ltb_int by done. rewrite (proj2 (Z.ltb_ge _ _)) by lia.
      cbn [negb]. rewrite andb_true_r. unfold prof_to_json, names_to_json. cbn zeta. generalize (d_nat (entries p)), (map name_to_json (functions p)),
        (map name_to_json (env p)), (map name_to_json (net p)), (map access_to_json (accesses p)). intros.
      destruct (timings p) as [|t ts]; [done|].
      by generalize (map timing_to_json (select (length (t :: ts) `min` 20) (t :: ts))). }
    cbn [require]. rewrite (check_names_ok errsz (functions p) _ "functions"), (check_names_ok errsz (env p) _ "env"), (check_names_ok errsz (net p) _ "net") by done.
    by apply check_accesses_ok. }
  rewrite Hp. assert (∀ c, check_coverage errsz (profile_doc p kernel cap) c = (c, is_some kernel)) as Hcov.
  { intros c. unfold check_coverage. rewrite E2. by destruct kernel. }
  rewrite Hcov, check_risk_ok, check_capability_ok by done. done.
Qed.

(** ** A document that was written is read again *)

Lemma load_doc p kernel cap :
  prof_ok p → prof_fits p → JsonRoundTrip.json_ok (JSONObject (profile_doc p kernel cap)) →
  load_text out_of_range (pretty (JSONObject (profile_doc p kernel cap))) = Some (mkFeed (reread p) 0).
Proof.
  intros Hok Hfit Hj. unfold load_text. destruct (pretty_back _ Hj) as [_ ->]; [pose proof (doc_depth p kernel cap); unfold MAX_NESTING; lia|].
  destruct (doc_members p kernel cap) as (E1 & _). cbn [json_value_get_object]. rewrite E1. by rewrite from_to_json.
Qed.

Lemma load_ok text feed : load_text out_of_range text = Some feed → prof_ok (prof feed).
Proof.
  unfold load_text. repeat case_match; try (intros [= <-]; apply profile_of_ok).
  intros H'. apply fmap_Some in H' as (p & Hp & ->). by eapply from_json_ok.
Qed.

Lemma reread_class a : path_class (main_class a) = path_class a.
Proof. by destruct a as [[] [] [] n]. Qed.

Lemma reread_ok p : prof_ok p → prof_ok (reread p).
Proof.
  intros [? ? ? Ha Ht]. apply (sorted_filter (λ e, e.1 ∈ (select (length (timings p) `min` 20) (timings p)).*1)) in Ht.
  split; try done; unfold sorted in *; cbn; change (map fst ?l) with (l.*1) in *; by rewrite <- list_fmap_compose.
Qed.

Lemma get_fmap {A B} (g : A → B) (t : list (bytes * A)) k :
  sorted t → get ((λ e, (e.1, g e.2)) <$> t) k = g <$> get t k.
Proof.
  intros Ht. assert (sorted ((λ e : bytes * A, (e.1, g e.2)) <$> t)) as Ht'.
  { unfold sorted in *. change (map fst ?l) with (l.*1) in *. by rewrite <- list_fmap_compose. }
  rewrite !get_map by done. unfold tmap. induction t as [|[i x] t IH]; [done|]. cbn. destruct (decide (i = k)) as [->|Hne].
  - by rewrite !lookup_insert_eq.
  - rewrite !lookup_insert_ne by done. apply sorted_cons in Ht as [Ht _], Ht' as [Ht' _]. by apply IH.
Qed.

Lemma no_unseen n : sorted n → names_fit n → unseen n n = [].
Proof.
  intros Hs Hf. apply elem_of_nil_inv. intros f Hin. apply unseen_elem in Hin as [[c Hc] H0]; [|done].
  unfold prof_names_get in H0. rewrite Hc in H0. cbn in H0. rewrite get_map in Hc by done. apply tmap_elem in Hc; [|done].
  unfold names_fit in Hf. rewrite Forall_forall in Hf. destruct (Hf _ Hc) as (_ & Hc1 & _). cbn in Hc1. unfold id in H0. lia.
Qed.

(** There is no drift to a profile from what was written of it. *)
Lemma no_drift p : prof_ok p → prof_fits p → (prof_diff_compute (reread p) p).2 = false.
Proof.
  intros Hok Hfit. pose proof (reread_ok p Hok) as Hok'. rewrite (compute_eq (reread p) p). cbn [snd].
  rewrite (proj2 (no_changes (reread p) p Hok' Hok)).
  - cbn [orb functions env net reread]. destruct Hok, Hfit. rewrite !no_unseen by done.
    rewrite (proj2 (is_cons_nil (omap only_new _))); [done|]. apply elem_of_nil_inv. intros f Hf. apply new_elem in Hf as [Hn [x Hx]]; [|done..].
    congruence.
  - intros path. unfold same_class, prof_access_get. cbn [accesses reread]. rewrite get_fmap by apply Hok.
    destruct (get (accesses p) path) as [a|]; [|done]. cbn. by rewrite reread_class.
Qed.

(** A jail made from what was written is the jail made from the profile. *)
Lemma same_jail p opts : prof_jail_config (reread p) (reread p) opts = prof_jail_config p p opts.
Proof.
  assert ((accesses (reread p)).*1 = (accesses p).*1) as Ha by (cbn; by rewrite <- list_fmap_compose).
  unfold prof_jail_config. cbn [functions reread]. assert (jail_script (reread p) opts = jail_script p opts) as ->; [|done].
  unfold jail_script, jail_params. by rewrite Ha.
Qed.

Lemma not_flag a s : is_flag a = false → is_flag s = true → streq a s = false.
Proof. intros Ha Hs. unfold streq. apply bool_decide_false. intros ->. congruence. Qed.

(** C15 (roundtrip). The profile of a trace is written, and the file is what the
    other modes need: it is valid, a comparison of it with the trace finds no
    drift, and the jail made from it is, to the byte, the one made from the
    trace. The names of the profile are UTF-8 and not empty, its counts are at
    least one and held exactly by a double, and its numbers print exactly. There
    may be any number of timings, of which the file keeps 20. *)
Theorem profile_pipeline files writable libc out feed :
  is_flag libc = false → is_flag out = false → writable out = true →
  load_any out_of_range files libc = Some feed → prof_fits (prof feed) →
  JsonRoundTrip.json_ok (JSONObject (profile_doc (prof feed) None None)) →
  ∃ text, profile_mode out_of_range files writable [lit "--libc"; libc; lit "-o"; out] = mkRun 0 [(Some out, text)] ∧
    ∀ files', files' out = Some text → files' libc = files libc →
      exit_code (validate_mode files' [out]) = 0%Z ∧
      exit_code (diff_mode out_of_range files' [out; libc]) = 0%Z ∧
      jail_mode out_of_range files' writable [out] = jail_mode out_of_range files writable [libc].
Proof.
  intros Hl Ho Hw Hfeed Hfit Hj. set (doc := profile_doc (prof feed) None None) in *. exists (pretty (JSONObject doc)).
  assert (prof_ok (prof feed)) as Hok.
  { unfold load_any in Hfeed. destruct (files libc); [|done]. by eapply load_ok. }
  split.
  { unfold profile_mode. change (main_args _ _) with (Some (mkMain (Some libc) None None (Some out) None None)).
    cbn iota. rewrite Hfeed. cbn. by rewrite Hw. }
  intros files' Ho' Hl'. assert (load_any out_of_range files' out = Some (mkFeed (reread (prof feed)) 0)) as Hdoc.
  { unfold load_any. rewrite Ho'. by apply load_doc. }
  assert (load_any out_of_range files' libc = Some feed) as Hfeed' by (unfold load_any in *; by rewrite Hl').
  split; [|split].
  - unfold validate_mode. rewrite Ho'. cbn [mbind option_bind]. destruct (pretty_back _ Hj) as [-> _].
    { pose proof (doc_depth (prof feed) None None). fold doc in H0. unfold MAX_NESTING. lia. }
    unfold doc. by rewrite doc_validates.
  - unfold diff_mode. cbn [diff_args baseline_path candidate_path]. rewrite !(not_flag _ (lit "--json")), Ho, Hl by done.
    cbn [baseline_path candidate_path json_out]. rewrite Hdoc, Hfeed'. cbn [prof].
    pose proof (no_drift (prof feed) Hok Hfit) as Hd. destruct (prof_diff_compute _ _) as [d drift]. cbn in Hd. by subst.
  - unfold jail_mode. cbn [jail_args j_in j_inside j_out j_opts]. rewrite !(not_flag _ (lit "--read-only")), Ho, Hl by done.
    rewrite Hdoc, Hfeed. cbn [prof]. cbn [functions reread allow_source prof]. destruct (functions (prof feed)); [done|]. by rewrite same_jail.
Qed.

End docs.

(** ** A trace of one call *)

#[local] Existing Instance JsonRoundTrip.whole_numbers.

Definition demo_trace : bytes := jlit "{'message':{'func':'open','path':'/etc/hosts'}}" ++ [NL].
Definition demo_files (path : bytes) : option bytes := if streq path (lit "trace.json") then Some demo_trace else None.
Definition demo_profile : Profile :=
  mkProfile [(lit "open", 1)] [] [] [(lit "/etc/hosts", mkAccess false true false 1)] [] 1 1.

Lemma number_one : JsonRoundTrip.number_ok (d_int 1).
Proof. split; [|reflexivity]. exists [] "1"%char [] [] []; try done; try (by left); by repeat constructor. Qed.

Lemma demo_doc_ok : JsonRoundTrip.json_ok (JSONObject (profile_doc demo_profile None None)).
Proof.
  replace (profile_doc demo_profile None None) with
    [(lit "profile", JSONObject
        [(lit "entries", JSONNumber (d_int 1));
         (lit "functions", JSONArray [JSONObject [(lit "name", JSONString (lit "open")); (lit "count", JSONNumber (d_int 1))]]);
         (lit "env", JSONArray []); (lit "net", JSONArray []);
         (lit "accesses", JSONArray [JSONObject [(lit "path", JSONString (lit "/etc/hosts")); (lit "class", JSONString (lit "read")); (lit "hits", JSONNumber (d_int 1))]])]);
     (lit "coverage", JSONObject [(lit "libc_layer", JSONString (lit "captured")); (lit "kernel_layer", JSONString (lit "ABSENT"))])] by (by vm_compute).
  pose proof number_one. cbn. split_and!; try done; try (by repeat constructor); (apply (bool_decide_eq_true_1 _); by vm_compute).
Qed.

Lemma profile_pipeline_witness :
  ∃ text, profile_mode (λ _, 0%Z) demo_files (λ _, true) [lit "--libc"; lit "trace.json"; lit "-o"; lit "p.json"] = mkRun 0 [(Some (lit "p.json"), text)] ∧
    ∀ files', files' (lit "p.json") = Some text → files' (lit "trace.json") = demo_files (lit "trace.json") →
      exit_code (validate_mode files' [lit "p.json"]) = 0%Z ∧
      exit_code (diff_mode (λ _, 0%Z) files' [lit "p.json"; lit "trace.json"]) = 0%Z ∧
      jail_mode (λ _, 0%Z) files' (λ _, true) [lit "p.json"] = jail_mode (λ _, 0%Z) demo_files (λ _, true) [lit "trace.json"].
Proof.
  apply (profile_pipeline (λ _, 0%Z) demo_files (λ _, true) (lit "trace.json") (lit "p.json") (mkFeed demo_profile 0)).
  - reflexivity.
  - reflexivity.
  - reflexivity.
  - by vm_compute.
  - split; try done; repeat (apply Forall_cons || apply Forall_nil || split); try done; cbn; lia.
  - exact demo_doc_ok.
Defined.

End ProfileDoc.
