(* ===== verification/DataTypes.v ===== *)
(** * The data types of parameters

    [src/core/data_types.c] and the printers of [src/core/datatypes/basic.c],
    [uio.c] and [unistd.c]. A printer is given a pointer, which is modelled by
    the bytes that can be read from there on: reading behind them is undefined.
    A parameter's value is the eight bytes of its slot. The model is that of an
    LP64 system and of glibc's [%p]; the byte order and the sign of [char] are
    arguments. *)

From S2P Require Import Prelude Numerals Libc Stdio Context Json JsonText JsonObject PrintfFormat Registry.

Module DataTypes.

Import Context Numerals Libc Stdio Json JsonText JsonObject.
Import PrintfFormat (PrintfFmtBasicTypes (..), PrintfFmtMods (..)).
#[local] Existing Instances PrintfFormat.pbt_eq_dec PrintfFormat.pfm_eq_dec.

(** ** Objects in memory *)

Definition byte_of (z : Z) : ascii := ascii_of_N (Z.to_N z).

(** The [n] bytes of a number, the least significant one first. *)
Fixpoint le_bytes (n : nat) (z : Z) : bytes :=
  match n with O => [] | S n => byte_of (z mod 256) :: le_bytes n (z / 256) end.

Definition le_val (l : bytes) : Z := foldr (λ c v, uchar c + 256 * v)%Z 0%Z l.

(** A number taken as a signed one of [w] bits. *)
Definition signed (w : Z) (z : Z) : Z := if (z <? 2 ^ (w - 1))%Z then z else (z - 2 ^ w)%Z.

Section machine.
Context (big_endian char_signed : bool).

Definition in_order (l : bytes) : bytes := if big_endian then rev l else l.

(** A load of [n] bytes. *)
Definition load (n : nat) (data : bytes) : option Z :=
  if length data <? n then None else Some (le_val (in_order (take n data))).

(** The slot of a parameter. *)
Definition slot (val : Z) : bytes := in_order (le_bytes 8 val).

(** [strlen] and the string: there is a terminator within what can be read. *)
Definition string_at (data : bytes) : option bytes := if decide (NUL ∈ data) then Some (cstr data) else None.

(** ** The types *)

Record StructMember := mkMember {
  sm_name : bytes;
  sm_type : bytes;
  sm_modifiers : Z;
  sm_ref_type_name : bytes;
  sm_array_cnt : nat;
}.

(** [struct DataType]. The functions are [None] where they are undefined; of
    [to_size_t] and [get_size] the inner [None] is an error. *)
Record DataType := mkType {
  dt : PrintfFormat.DataType;
  struct_members : list StructMember;
  value_size : nat;
  to_sz : bytes → option bytes;
  get_sz_size : bytes → option nat;
  to_size_t : bytes → option (option Z);
  get_size : bytes → option (option nat);
}.

Definition name (t : DataType) : bytes := PrintfFormat.dt_name (dt t).

(** [retrace_datatype_val_addr]. *)
Definition retrace_datatype_val_addr (val_slot : bytes) (t : DataType) : bytes :=
  if big_endian then
    if negb (value_size t =? 0) && (value_size t <? 8) then drop (8 - value_size t) val_slot else val_slot
  else val_slot.

(** *** Integers *)

Definition retrace_int_to_sz (data : bytes) : option bytes := (λ z, fmt_ld (signed 32 z)) <$> load 4 data.
Definition retrace_int_get_sz_size (data : bytes) : option nat := (λ z, length (fmt_ld (signed 32 z))) <$> load 4 data.
Definition retrace_int_to_size_t (data : bytes) : option (option Z) := Some <$> load 8 data.
Definition retrace_int_get_size (data : bytes) : option (option nat) := Some (Some 4).

Definition retrace_uint_to_sz (data : bytes) : option bytes := fmt_llu <$> load 4 data.
Definition retrace_uint_get_sz_size (data : bytes) : option nat := (λ z, length (fmt_llu z)) <$> load 4 data.
Definition retrace_uint_to_size_t (data : bytes) : option (option Z) := Some <$> load 4 data.
Definition retrace_uint_get_size (data : bytes) : option (option nat) := Some (Some 4).

Definition retrace_int16_to_sz (data : bytes) : option bytes := (λ z, fmt_ld (signed 16 z)) <$> load 2 data.
Definition retrace_int16_get_sz_size (data : bytes) : option nat := (λ z, length (fmt_ld (signed 16 z))) <$> load 2 data.
Definition retrace_int16_to_size_t (data : bytes) : option (option Z) := (λ z, Some (u64 (signed 16 z))) <$> load 2 data.
Definition retrace_int16_get_size (data : bytes) : option (option nat) := Some (Some 2).

Definition retrace_longint_to_sz (data : bytes) : option bytes := (λ z, fmt_ld (signed 64 z)) <$> load 8 data.
Definition retrace_longint_get_sz_size (data : bytes) : option nat := (λ z, length (fmt_ld (signed 64 z))) <$> load 8 data.
Definition retrace_longint_to_size_t (data : bytes) : option (option Z) := Some <$> load 8 data.
Definition retrace_longint_get_size (data : bytes) : option (option nat) := Some (Some 8).

Definition retrace_ulong_to_sz (data : bytes) : option bytes := fmt_llu <$> load 8 data.
Definition retrace_ulong_get_sz_size (data : bytes) : option nat := (λ z, length (fmt_llu z)) <$> load 8 data.
Definition retrace_ulong_to_size_t (data : bytes) : option (option Z) := Some <$> load 8 data.
Definition retrace_ulong_get_size (data : bytes) : option (option nat) := Some (Some 8).

(** The format is ["%ll"]: a directive without a conversion is undefined. *)
Definition retrace_longlong_to_sz (data : bytes) : option bytes := None.
Definition retrace_longlong_get_sz_size (data : bytes) : option nat := None.
Definition retrace_longlong_to_size_t (data : bytes) : option (option Z) := Some <$> load 8 data.
Definition retrace_longlong_get_size (data : bytes) : option (option nat) := Some (Some 8).

(** *** Strings, characters, sizes and pointers *)

(** The callers pass no NULL. *)
Definition retrace_sz_to_sz (data : bytes) : option bytes := string_at data.
Definition retrace_sz_get_sz_size (data : bytes) : option nat := length <$> string_at data.
Definition retrace_sz_to_size_t (data : bytes) : option (option Z) := Some None.
Definition retrace_sz_get_size (data : bytes) : option (option nat) := (λ s, Some (S (length s))) <$> string_at data.

(** ["0x%02x"] of a [char], which is promoted with its sign. *)
Definition fmt_02x (z : Z) : bytes :=
  let d := fmt_x z in if length d <? 2 then "0"%char :: d else d.
Definition char_text (data : bytes) : option bytes :=
  (λ z, lit "0x" ++ fmt_02x (u32 (if char_signed then signed 8 z else z))) <$> load 1 data.
Definition retrace_char_to_sz (data : bytes) : option bytes := char_text data.
Definition retrace_char_get_sz_size (data : bytes) : option nat := length <$> char_text data.
Definition retrace_char_to_size_t (data : bytes) : option (option Z) := Some None.
Definition retrace_char_get_size (data : bytes) : option (option nat) := Some (Some 1).

Definition retrace_size_t_to_sz (data : bytes) : option bytes := fmt_llu <$> load 8 data.
Definition retrace_size_t_get_sz_size (data : bytes) : option nat := (λ z, length (fmt_llu z)) <$> load 8 data.
Definition retrace_size_t_to_size_t (data : bytes) : option (option Z) := Some <$> load 8 data.
Definition retrace_size_t_get_size (data : bytes) : option (option nat) := Some (Some 8).

(** ["%p"]. *)
Definition fmt_p (z : Z) : bytes := if (z =? 0)%Z then lit "(nil)" else lit "0x" ++ digits 16 16 z [].
Definition retrace_ptr_to_sz (data : bytes) : option bytes := fmt_p <$> load 8 data.
Definition retrace_ptr_get_sz_size (data : bytes) : option nat := (λ z, length (fmt_p z)) <$> load 8 data.
Definition retrace_ptr_to_size_t (data : bytes) : option (option Z) := Some None.
Definition retrace_ptr_get_size (data : bytes) : option (option nat) := Some (Some 8).

(** ** Printing an object *)

(** The buffer of [get_sz_size + 1] bytes and the text written to it: a longer
    one is undefined. *)
Definition printed (t : DataType) (data : bytes) : option bytes :=
  n ← get_sz_size t data; s ← to_sz t data; if length s <=? n then Some s else None.

(** The loop over the elements of an array, and whether it reached its end: an
    error of [get_size] stops it, and a text that is not UTF-8 is not appended. *)
Fixpoint array_texts (n : nat) (t : DataType) (data : bytes) (arr : JSON_Array) : option (JSON_Array * bool) :=
  match n with
  | O => Some (arr, true)
  | S n =>
      s ← printed t data;
      let arr := default arr (json_array_append_string arr s) in
      size ← get_size t data;
      match size with
      | None => Some (arr, false)
      | Some k => array_texts n t (drop k data) arr
      end
  end.

(** ** Structures *)

Section struct.
Context {DT : DoubleText} (retrace_datatype_get : bytes → option DataType).

(** [get_member]: the type and the place of a member. The end of the list is
    the member without a name; [Some None] is an error. *)
Fixpoint get_member (m_struct : list StructMember) (m_data : bytes) (member_name : bytes)
    : option (option (DataType * bytes)) :=
  let '(type, nm, rest) :=
    match m_struct with [] => ([], [], []) | m :: rest => (sm_type m, sm_name m, rest) end in
  match retrace_datatype_get type with
  | None => Some None
  | Some m_type =>
      if streq nm [] || streq nm member_name then Some (Some (m_type, m_data))
      else
        match m_struct with
        | [] => Some None
        | _ :: rest =>
            size ← get_size m_type m_data;
            match size with
            | None => Some None
            | Some m_size => get_member rest (drop m_size m_data) member_name
            end
        end
  end.

(** The loop over the members. *)
Fixpoint struct_object (members : list StructMember) (all : list StructMember) (data : bytes) (root : JSON_Object)
    : option JSON_Object :=
  match members with
  | [] => Some root
  | m :: members =>
      if streq (sm_name m) [] then Some root
      else
        found ← get_member all data (sm_name m);
        match found with
        | None => Some root
        | Some (member_type, member_data) =>
            if has_mod (sm_modifiers m) CDM_ARRAY then
              arr ← array_texts (sm_array_cnt m) member_type member_data [];
              struct_object members all data (default root (json_object_set_value root (sm_name m) (Some (JSONArray arr.1))))
            else
              s ← printed member_type member_data;
              struct_object members all data (default root (json_object_set_string root (sm_name m) s))
        end
  end.

Definition retrace_struct_to_sz (members : list StructMember) (data : bytes) : option bytes :=
  root ← struct_object members members data []; json_serialize_to_string true (JSONObject root).

Definition retrace_struct_get_sz_size (members : list StructMember) (data : bytes) : option nat :=
  length <$> retrace_struct_to_sz members data.

Definition retrace_struct_to_size_t (data : bytes) : option (option Z) := Some None.

Fixpoint struct_size (members : list StructMember) (all : list StructMember) (data : bytes) (dst : nat)
    : option (option nat) :=
  match members with
  | [] => Some (Some dst)
  | m :: members =>
      if streq (sm_name m) [] then Some (Some dst)
      else
        found ← get_member all data (sm_name m);
        match found with
        | None => Some None
        | Some (member_type, member_data) =>
            size ← get_size member_type member_data;
            match size with
            | None => Some None
            | Some member_size =>
                struct_size members all data
                  (dst + if has_mod (sm_modifiers m) CDM_ARRAY then sm_array_cnt m * member_size else member_size)
            end
        end
  end.

Definition retrace_struct_get_size (members : list StructMember) (data : bytes) : option (option nat) :=
  struct_size members members data 0.

End struct.

(** ** The tables *)

Definition scalar (nm : string) (b : PrintfFmtBasicTypes) (f : PrintfFmtMods) (size : nat)
    (to_sz : bytes → option bytes) (get_sz_size : bytes → option nat) (to_size_t : bytes → option (option Z))
    (get_size : bytes → option (option nat)) : DataType :=
  mkType (PrintfFormat.mkDataType (lit nm) b f) [] size to_sz get_sz_size to_size_t get_size.

Definition retrace_dt_basic : list DataType := [
  scalar "int" PBT_INT PFM_UNK 4 retrace_int_to_sz retrace_int_get_sz_size retrace_int_to_size_t retrace_int_get_size;
  scalar "unsigned int" PBT_UNK PFM_UNK 4 retrace_uint_to_sz retrace_uint_get_sz_size retrace_uint_to_size_t retrace_uint_get_size;
  scalar "int16_t" PBT_INT PFM_SHORT 2 retrace_int16_to_sz retrace_int16_get_sz_size retrace_int16_to_size_t retrace_int16_get_size;
  scalar "long" PBT_INT PFM_LONG 8 retrace_longint_to_sz retrace_longint_get_sz_size retrace_longint_to_size_t retrace_longint_get_size;
  scalar "unsigned long" PBT_UNK PFM_UNK 8 retrace_ulong_to_sz retrace_ulong_get_sz_size retrace_ulong_to_size_t retrace_ulong_get_size;
  scalar "long long" PBT_INT PFM_LONG_LONG 8 retrace_longlong_to_sz retrace_longlong_get_sz_size retrace_longlong_to_size_t retrace_longlong_get_size;
  scalar "sz" PBT_UNK PFM_UNK 8 retrace_sz_to_sz retrace_sz_get_sz_size retrace_sz_to_size_t retrace_sz_get_size;
  scalar "size_t" PBT_UNK PFM_UNK 8 retrace_size_t_to_sz retrace_size_t_get_sz_size retrace_size_t_to_size_t retrace_size_t_get_size;
  scalar "char" PBT_CHAR PFM_UNK 1 retrace_char_to_sz retrace_char_get_sz_size retrace_char_to_size_t retrace_char_get_size;
  scalar "ptr" PBT_POINTER PFM_UNK 8 retrace_ptr_to_sz retrace_ptr_get_sz_size retrace_ptr_to_size_t retrace_ptr_get_size;
  scalar "intptr_t" PBT_UNK PFM_UNK 8 retrace_ptr_to_sz retrace_ptr_get_sz_size retrace_ptr_to_size_t retrace_ptr_get_size ].

Definition retrace_dt_unistd : list DataType := [
  scalar "useconds_t" PBT_UNK PFM_UNK 8 retrace_ulong_to_sz retrace_ulong_get_sz_size retrace_ulong_to_size_t retrace_ulong_get_size;
  scalar "gid_t" PBT_UNK PFM_UNK 4 retrace_uint_to_sz retrace_uint_get_sz_size retrace_uint_to_size_t retrace_uint_get_size;
  scalar "pid_t" PBT_UNK PFM_UNK 4 retrace_uint_to_sz retrace_uint_get_sz_size retrace_uint_to_size_t retrace_uint_get_size;
  scalar "uid_t" PBT_UNK PFM_UNK 4 retrace_uint_to_sz retrace_uint_get_sz_size retrace_uint_to_size_t retrace_uint_get_size;
  scalar "off_t" PBT_UNK PFM_UNK 4 retrace_int_to_sz retrace_int_get_sz_size retrace_int_to_size_t retrace_int_get_size ].

Definition iovec_members : list StructMember :=
  [mkMember (lit "iov_base") (lit "ptr") CDM_NOMOD [] 0; mkMember (lit "iov_len") (lit "size_t") CDM_NOMOD [] 0].

(** The members of the one structure are of basic types, so that is where it
    finds them. *)
Definition basic_get (s : bytes) : option DataType := snd <$> list_find (λ t, name t = s) retrace_dt_basic.

Definition retrace_dt_uio {DT : DoubleText} : list DataType := [
  mkType (PrintfFormat.mkDataType (lit "iovec") PBT_UNK PFM_UNK) iovec_members 0
    (retrace_struct_to_sz basic_get iovec_members) (retrace_struct_get_sz_size basic_get iovec_members)
    retrace_struct_to_size_t (retrace_struct_get_size basic_get iovec_members) ].

Definition unk_to_sz (data : bytes) : option bytes := Some (lit "?").
Definition unk_get_sz_size (data : bytes) : option nat := Some (length (lit "?")).
Definition unk_to_size_t (data : bytes) : option (option Z) := Some None.
Definition unk_get_size (data : bytes) : option (option nat) := Some (Some 2).

Definition unk_dt : DataType := mkType PrintfFormat.unk_dt [] 0 unk_to_sz unk_get_sz_size unk_to_size_t unk_get_size.

(** ** The registry *)

Definition MAXCOUNT_DT_HASH_ENTRIES : nat := 16.

(** The chains by name, and the types with a printf mapping in the order of
    their registration, at most one for a mapping. *)
Record datatypes := mkTypes { dts_hash : list (list DataType); gnu_fmt_to_dt : list DataType }.

Fixpoint datatypes_loop (section : list DataType) (d : datatypes) : Z * datatypes :=
  match section with
  | [] => (0%Z, d)
  | p :: section =>
      let h := Registry.slot_of MAXCOUNT_DT_HASH_ENTRIES char_signed (name p) in
      let chain := dts_hash d !!! h in
      match Registry.chain_find name chain (name p) with
      | Some _ => ((-1)%Z, d)
      | None =>
          let hash := <[h := chain ++ [p]]> (dts_hash d) in
          if bool_decide (PrintfFormat.pa_basic_type (dt p) = PBT_UNK) then datatypes_loop section (mkTypes hash (gnu_fmt_to_dt d))
          else
            match PrintfFormat.gnu_fmt_to_dt (dt <$> gnu_fmt_to_dt d) (PrintfFormat.pa_basic_type (dt p)) (PrintfFormat.pa_flag (dt p)) with
            | Some _ => ((-1)%Z, mkTypes hash (gnu_fmt_to_dt d))
            | None => datatypes_loop section (mkTypes hash (gnu_fmt_to_dt d ++ [p]))
            end
      end
  end.

Definition retrace_datatypes_init (section : list DataType) : Z * datatypes :=
  datatypes_loop section (mkTypes (Registry.empty_table MAXCOUNT_DT_HASH_ENTRIES) []).

Definition retrace_datatype_get (d : datatypes) (s : bytes) : option DataType :=
  Registry.get name MAXCOUNT_DT_HASH_ENTRIES char_signed (dts_hash d) s.

(** The tables of a POSIX build; the linker may place them in another order. *)
Definition retrace_dts {DT : DoubleText} : list DataType := retrace_dt_basic ++ retrace_dt_uio ++ retrace_dt_unistd.

(** ** The registry finds every type *)

Definition mapped (t : DataType) : bool := negb (bool_decide (PrintfFormat.pa_basic_type (dt t) = PBT_UNK)).
Definition mapping (t : DataType) : PrintfFmtBasicTypes * PrintfFmtMods :=
  (PrintfFormat.pa_basic_type (dt t), PrintfFormat.pa_flag (dt t)).

Lemma loop_ok l l0 d :
  Registry.holds name MAXCOUNT_DT_HASH_ENTRIES char_signed l0 (dts_hash d) → gnu_fmt_to_dt d = List.filter mapped l0 →
  NoDup (name <$> l0 ++ l) → NoDup (mapping <$> List.filter mapped (l0 ++ l)) →
  ∃ d', datatypes_loop l d = (0%Z, d') ∧
    Registry.holds name MAXCOUNT_DT_HASH_ENTRIES char_signed (l0 ++ l) (dts_hash d') ∧
    gnu_fmt_to_dt d' = List.filter mapped (l0 ++ l).
Proof.
  revert l0 d. induction l as [|p l IH]; intros l0 d Hh Hg Hn Hm; cbn [datatypes_loop].
  { exists d. by rewrite app_nil_r. }
  assert (Registry.chain_find name (dts_hash d !!! Registry.slot_of MAXCOUNT_DT_HASH_ENTRIES char_signed (name p)) (name p) = None) as Hf.
  { change (Registry.get name MAXCOUNT_DT_HASH_ENTRIES char_signed (dts_hash d) (name p) = None).
    rewrite (proj2 Hh). apply (Registry.chain_find_None name 1); [lia|]. rewrite fmap_app in Hn. apply NoDup_app in Hn as (_ & Hn & _).
    intros Hin. apply (Hn _ Hin). cbn. set_solver. }
  rewrite Hf. apply Registry.holds_snoc with (p := p) in Hh; [|unfold MAXCOUNT_DT_HASH_ENTRIES; lia|done].
  replace (l0 ++ p :: l) with ((l0 ++ [p]) ++ l) in * by by rewrite <- app_assoc.
  case_bool_decide as Hu.
  - apply IH; [done| |done|done]. cbn. rewrite List.filter_app, Hg. cbn. unfold mapped at 3.
    rewrite bool_decide_true by done. by rewrite app_nil_r.
  - assert (PrintfFormat.gnu_fmt_to_dt (dt <$> gnu_fmt_to_dt d) (PrintfFormat.pa_basic_type (dt p)) (PrintfFormat.pa_flag (dt p)) = None) as ->.
    { unfold PrintfFormat.gnu_fmt_to_dt. rewrite decide_False by done. apply fmap_None, list_find_None.
      rewrite Hg. apply Forall_fmap, Forall_forall. intros q Hq [H1 H2].
      rewrite !List.filter_app, !fmap_app in Hm. apply NoDup_app in Hm as (Hm & _ & _). apply NoDup_app in Hm as (_ & Hm & _).
      apply (Hm (mapping q)); [by apply list_elem_of_fmap_2|]. cbn. unfold mapped. rewrite bool_decide_false by done. cbn.
      apply list_elem_of_singleton. unfold mapping. cbn in H1, H2. by rewrite H1, H2. }
    apply IH; [done| |done|done]. cbn. rewrite List.filter_app, Hg. cbn. unfold mapped at 3. by rewrite bool_decide_false.
Qed.

Section registered.
Context {DT : DoubleText}.

Lemma dts_distinct : NoDup (name <$> retrace_dts).
Proof. apply (bool_decide_eq_true_1 _). vm_compute. reflexivity. Qed.

Lemma dts_mappings : NoDup (mapping <$> List.filter mapped retrace_dts).
Proof. apply (bool_decide_eq_true_1 _). vm_compute. reflexivity. Qed.

(** In whatever order the tables are linked, they are accepted, and a name finds
    the type that has it. *)
Lemma datatypes_init_ok l :
  Permutation l retrace_dts →
  ∃ d, retrace_datatypes_init l = (0%Z, d) ∧
    (∀ s, retrace_datatype_get d s = snd <$> list_find (λ t, name t = s) l) ∧
    ∀ t, t ∈ retrace_dts → retrace_datatype_get d (name t) = Some t.
Proof.
  intros Hl. assert (NoDup (name <$> l)) as Hn by (rewrite Hl; apply dts_distinct).
  destruct (loop_ok l [] (mkTypes (Registry.empty_table MAXCOUNT_DT_HASH_ENTRIES) [])) as (d & Hd & Hh & _).
  - apply Registry.holds_empty. unfold MAXCOUNT_DT_HASH_ENTRIES. lia.
  - done.
  - done.
  - cbn [app]. assert (Permutation (List.filter mapped l) (List.filter mapped retrace_dts)) as ->; [|apply dts_mappings].
    clear -Hl. induction Hl as [| | |? ? ? ? IH1 ? IH2]; cbn; repeat case_match; try done; try by constructor.
    by rewrite IH1.
  - exists d. split; [done|]. assert (∀ s, retrace_datatype_get d s = snd <$> list_find (λ t, name t = s) l) as Hg.
    { intros s. unfold retrace_datatype_get. rewrite (proj2 Hh). apply Registry.chain_find_first. }
    split; [done|]. intros t Ht. rewrite Hg, <- Registry.chain_find_first. rewrite <- Hl in Ht. clear -Hn Ht.
    induction l as [|x l IH]; [by apply not_elem_of_nil in Ht|]. apply NoDup_cons in Hn as [Hx Hn]. cbn.
    apply elem_of_cons in Ht as [->|Ht]; [by rewrite streq_refl|].
    destruct (streq (name x) (name t)) eqn:E; [|by apply IH]. apply streq_true in E. exfalso. apply Hx. rewrite E.
    by apply list_elem_of_fmap_2.
Qed.

(** ** The buffer of a text is as long as the text *)

Definition fits (t : DataType) : Prop := ∀ data s, to_sz t data = Some s → get_sz_size t data = Some (length s).

Lemma fits_printed t data : fits t → printed t data = to_sz t data.
Proof.
  intros Hf. unfold printed. destruct (to_sz t data) as [s|] eqn:E.
  - rewrite (Hf data s E). cbn. by rewrite Nat.leb_refl.
  - by destruct (get_sz_size t data).
Qed.

Lemma all_fit t : t ∈ unk_dt :: retrace_dts → fits t.
Proof.
  intros Ht. assert (∀ (o : option Z) f s, f <$> o = Some s → (λ z, length (f z)) <$> o = Some (length (s : bytes))) as Hint.
  { intros [z|] f s; cbn; [|done]. by intros [= <-]. }
  assert (∀ (o : option bytes) s, o = Some s → length <$> o = Some (length s)) as Hstr by by intros ? s ->.
  cbn in Ht. repeat (apply elem_of_cons in Ht as [->|Ht]; [intros data s H; cbn in *; auto; try (by apply Hint)|]).
  all: try by injection H as <-.
  all: try by apply Hstr.
  - done.
  - by apply not_elem_of_nil in Ht.
Qed.

End registered.

(** ** Values of any byte order *)

Lemma uchar_byte_mod z : uchar (byte_of (z mod 256)) = (z mod 256)%Z.
Proof.
  pose proof (Z.mod_pos_bound z 256). unfold uchar, byte_of. rewrite N_ascii_embedding by lia. lia.
Qed.

Lemma le_val_bytes n z : le_val (le_bytes n z) = (z mod 256 ^ Z.of_nat n)%Z.
Proof.
  revert z. induction n as [|n IH]; intros z; cbn [le_bytes]; [by rewrite Z.mod_1_r|].
  cbn [le_val foldr]. fold (le_val (le_bytes n (z / 256))). rewrite IH, uchar_byte_mod.
  rewrite Nat2Z.inj_succ, Z.pow_succ_r by lia. rewrite (Z.rem_mul_r z 256 (256 ^ Z.of_nat n)) by (try apply Z.pow_pos_nonneg; lia). lia.
Qed.

Lemma le_bytes_length n z : length (le_bytes n z) = n.
Proof. revert z. induction n as [|n IH]; intros z; cbn; [done|]. by rewrite IH. Qed.

Lemma take_le_bytes n m z : n ≤ m → take n (le_bytes m z) = le_bytes n z.
Proof.
  revert m z. induction n as [|n IH]; intros m z Hm; [done|]. destruct m as [|m]; [lia|]. cbn. by rewrite IH by lia.
Qed.

(** The value that a printer of [n] bytes finds in a slot, at the address that
    [retrace_datatype_val_addr] gives it, is the value modulo its width. *)
Lemma load_slot t val n :
  0 < n ≤ 8 → (value_size t = n ∨ n = 8 ∧ value_size t = 0) →
  load n (retrace_datatype_val_addr (slot val) t) = Some (val mod 256 ^ Z.of_nat n)%Z.
Proof.
  intros Hn Hv. unfold retrace_datatype_val_addr, slot, in_order.
  unfold load, in_order. destruct big_endian.
  - assert ((if negb (value_size t =? 0) && (value_size t <? 8) then drop (8 - value_size t) (rev (le_bytes 8 val)) else rev (le_bytes 8 val))
      = rev (le_bytes n val)) as ->.
    { rewrite <- (take_le_bytes n 8 val) by lia. destruct Hv as [->|[-> ->]]; [|done].
      destruct (Nat.eqb_spec n 0); [lia|]. destruct (Nat.ltb_spec n 8); cbn [negb andb].
      - rewrite <- (take_drop n (le_bytes 8 val)) at 1. rewrite rev_app_distr, drop_app_ge;
          rewrite length_rev, length_drop, le_bytes_length; [|lia]. by rewrite Nat.sub_diag.
      - rewrite take_ge; [done|]. rewrite le_bytes_length. lia. }
    rewrite length_rev, le_bytes_length, Nat.ltb_irrefl. rewrite take_ge by (rewrite length_rev, le_bytes_length; lia).
    by rewrite rev_involutive, le_val_bytes.
  - rewrite le_bytes_length, (proj2 (Nat.ltb_ge _ _)) by lia. rewrite take_le_bytes by lia. by rewrite le_val_bytes.
Qed.

(** ** The texts of numbers *)

(** The characters of numbers and addresses. *)
Definition number_char (c : ascii) : bool := isalnum c || ceq c "-" || ceq c "(" || ceq c ")" || ceq c "?".
Definition number_text (s : bytes) : Prop := Forall (λ c, number_char c = true) s.

Lemma number_char_facts c :
  number_char c = true →
  num_bytes_in_utf8_sequence (uchar c) = 1 ∧ (uchar c <? 128)%Z = true ∧ c ≠ "/"%char ∧ c ≠ "\"%char ∧ c ≠ ":"%char ∧ c ≠ NUL.
Proof. destruct c as [[] [] [] [] [] [] [] []]; intros H; try discriminate H; split_and!; done. Qed.

Lemma number_text_valid s : number_text s → is_valid_utf8 s = true.
Proof.
  unfold is_valid_utf8. induction 1 as [|c s Hc _ IH]; [done|]. destruct (number_char_facts c Hc) as (Hn & Hu & _).
  cbn [length utf8_loop]. unfold verify_utf8_sequence. change (char_at (c :: s) 0) with c. rewrite Hn. cbn [Nat.eqb].
  apply Z.ltb_lt in Hu. pose proof (uchar_range c). rewrite (proj2 (Z.ltb_ge 1114111 (uchar c))) by lia.
  rewrite !andb_false_r. cbn [orb]. rewrite (proj2 (Z.leb_gt 55296 (uchar c))) by lia. cbn [andb]. exact IH.
Qed.

Lemma digit_number_char c : (48 ≤ uchar c ≤ 57)%Z → number_char c = true.
Proof. intros H. unfold number_char, isalnum, isdigit, in_range. rewrite !(proj2 (Z.leb_le _ _)) by lia. by rewrite orb_true_r. Qed.

Lemma hex_number_char c : is_hex c = true → number_char c = true.
Proof. destruct c as [[] [] [] [] [] [] [] []]; intros H; try discriminate H; done. Qed.

Lemma fmt_llu_number z : (0 ≤ z)%Z → number_text (fmt_llu z).
Proof. intros Hz. eapply Forall_impl; [by apply fmt_llu_digits|]. apply digit_number_char. Qed.

Lemma digits_number b fuel z : (1 < b ≤ 16)%Z → (0 ≤ z)%Z → number_text (digits b fuel z []).
Proof.
  intros Hb Hz. apply (digits_forall b ltac:(lia)); [|done|constructor]. intros d Hd. apply hex_number_char, digit_ok. lia.
Qed.

Lemma fmt_ld_number z : number_text (fmt_ld z).
Proof.
  unfold fmt_ld. case_match; [constructor; [done|]|]; apply digits_number; lia.
Qed.

Lemma load_nonneg n data z : load n data = Some z → (0 ≤ z)%Z.
Proof.
  unfold load. destruct (_ <? n); [done|]. intros [= <-]. induction (in_order (take n data)) as [|c l IH]; cbn; [lia|].
  pose proof (uchar_range c). unfold le_val in IH. lia.
Qed.

Lemma fmt_p_number z : (0 ≤ z)%Z → number_text (fmt_p z).
Proof.
  intros Hz. unfold fmt_p. destruct (z =? 0)%Z; [by repeat constructor|]. apply Forall_app. split; [by repeat constructor|]. apply digits_number; lia.
Qed.

Lemma char_text_number data s : char_text data = Some s → number_text s.
Proof.
  unfold char_text. destruct (load 1 data) as [z|] eqn:E; [|done]. intros [= <-]. constructor; [done|]. constructor; [done|].
  unfold fmt_02x. set (d := fmt_x _). assert (number_text d) as Hd; [|case_match; [by constructor|done]].
  apply digits_number; [lia|]. apply Z.mod_pos_bound. lia.
Qed.

(** All types but strings and structures print numbers. *)
Lemma prints_number {DT : DoubleText} t data s :
  t ∈ unk_dt :: retrace_dts → name t ≠ lit "sz" → name t ≠ lit "iovec" → to_sz t data = Some s → number_text s.
Proof.
  intros Ht Hsz Hio.
  assert (∀ n f, (∀ z, number_text (f z)) → f <$> load n data = Some s → number_text s) as Hs.
  { intros n f Hf. destruct (load n data); [|done]. by intros [= <-]. }
  assert (∀ n f, (∀ z, (0 ≤ z)%Z → number_text (f z)) → f <$> load n data = Some s → number_text s) as Hu.
  { intros n f Hf. destruct (load n data) eqn:E; [|done]. apply load_nonneg in E. intros [= <-]. by apply Hf. }
  cbn in Ht. repeat (apply elem_of_cons in Ht as [->|Ht]; [cbn [to_sz scalar unk_dt]; intros H|]).
  all: try (by eapply Hu, H; first [apply fmt_llu_number|apply fmt_p_number]).
  all: try (by eapply Hs, H; intros z; apply fmt_ld_number).
  - injection H as <-. by repeat constructor.
  - discriminate H.
  - done.
  - by eapply char_text_number.
  - done.
  - by apply not_elem_of_nil in Ht.
Qed.

End machine.
End DataTypes.
