(* ===== verification/FilterAction.v ===== *)
(** * The filter action

    [src/core/actions/filter.c], the guard of a script, with the resolver of
    [src/core/filter_dsl.c] that answers the names of an expression from the
    intercepted call. The action keeps the predicates it compiled in a table
    keyed by the address of the expression's text. As long as the texts of the
    configuration stay where they are, filters before the other actions of a
    script are their conjunction; once a text is replaced in place they need
    not be. *)

From S2P Require Import Prelude Json Context PolicySig Glob FilterDsl FilterGrammar FilterEval FilterCompile.
From S2P Require Import ScriptResolver Engine Jail.

Module FilterAction.

Import Context Json FilterDsl FilterGrammar FilterEval FilterCompile.

(** ** The call as a domain of values *)

Section call.
Context (char_signed : bool) (mem : Z → bytes) (callers : ScriptResolver.caller_cache).

(** The loop of both functions: the parameter of a name. *)
Definition param_named (t : ThreadContext) (name : bytes) : option FuncParam :=
  retrace_action_find_param t name ≫= λ i, params t !! i.

(** [tctx_str]: [Some None] is a name that is known but not a string. Of the
    table of callers it changes the two counters only. *)
Definition tctx_str (t : ThreadContext) (func_name : option bytes) (name : bytes) : option (option bytes) :=
  if streq name (lit "func") then Some func_name
  else if streq name (lit "caller") then
    if (ret_addr t =? 0)%Z then Some None
    else
      match (ScriptResolver.retrace_caller_cache_lookup (ret_addr t) callers).1 with
      | None => Some None
      | Some info => Some (ScriptResolver.dli_sname info)
      end
  else
    match param_named t name with
    | Some fp => Some (if is_sz_param fp then Some (mem (val fp)) else None)
    | None => None
    end.

(** [tctx_num]. *)
Definition tctx_num (t : ThreadContext) (name : bytes) : option Z :=
  if streq name (lit "ret") then Some (ret_val t)
  else
    match param_named t name with
    | Some fp => if is_sz_param fp then None else Some (val fp)
    | None => None
    end.

Definition tctx_resolver (t : ThreadContext) (func_name : option bytes) : retrace_filter_resolver :=
  mkResolver (tctx_num t) (tctx_str t func_name).

Definition retrace_filter_eval (ast : option retrace_filter_ast) (t : option ThreadContext) (func_name : option bytes)
    : res bool :=
  match t with
  | None => Ok false
  | Some t => retrace_filter_eval_resolved char_signed (tctx_resolver t func_name) ast
  end.

(** ** The table of compiled predicates *)

Record filter_expr_cache_el := mkEl {
  expr_ptr : Z;
  expr_len : nat;
  first : ascii;
  last : ascii;
  ast : retrace_filter_ast;
}.

Definition FILTER_EXPR_CACHE_MAX : nat := 16.

(** [expr[len - 1]]; the empty expression does not compile, so an entry whose
    length is equal has a last character. *)
Definition last_char (expr : bytes) : ascii := char_at expr (length expr - 1).

Definition expr_cache_get (at_ : Z) (expr : bytes) (expr_cache : list filter_expr_cache_el) : option retrace_filter_ast :=
  match
    list_find (λ el, expr_ptr el = at_ ∧ expr_len el = length expr ∧ first el = deref expr ∧ last el = last_char expr)
      expr_cache
  with
  | Some (_, el) => Some (ast el)
  | None => None
  end.

(** A full table loses its oldest entry. *)
Definition expr_compile_cached (alloc_ok : nat → bool) (at_ : Z) (expr : bytes) (expr_cache : list filter_expr_cache_el)
    : res (option retrace_filter_ast * list filter_expr_cache_el) :=
  let! (a, err) := retrace_filter_compile alloc_ok (Some expr) in
  match a with
  | None => Ok (None, expr_cache)
  | Some a =>
      let kept := if length expr_cache =? FILTER_EXPR_CACHE_MAX then drop 1 expr_cache else expr_cache in
      Ok (Some a, kept ++ [mkEl at_ (length expr) (deref expr) (last_char expr) a])
  end.

(** ** The action *)

Definition eval_op (actual : Z) (op : bytes) (expected : Z) : Z :=
  let b x := if x : bool then 1%Z else 0%Z in
  if streq op (lit "==") then b (actual =? expected)%Z
  else if streq op (lit "!=") then b (negb (actual =? expected)%Z)
  else if streq op (lit ">") then b (expected <? actual)%Z
  else if streq op (lit "<") then b (actual <? expected)%Z
  else if streq op (lit ">=") then b (expected <=? actual)%Z
  else if streq op (lit "<=") then b (actual <=? expected)%Z
  else (-1)%Z.

(** Where the configuration keeps the text of the expression, the allocations
    of a compilation, and the conversion of a double that does not fit. *)
Context (expr_at : JSON_Object → Z) (alloc_ok : nat → bool) (out_of_range : double → Z).

(** The single comparison. *)
Definition filter_triple (t : ThreadContext) (o : JSON_Object) : Z :=
  match json_object_get_string (Some o) "param_name", json_object_get_string (Some o) "op",
        json_object_get_value (Some o) "value" with
  | Some param_name, Some op, Some _ =>
      let expected := PolicySig.d_i64 out_of_range (json_object_get_number (Some o) "value") in
      match param_named t param_name with
      | None => (-1)%Z
      | Some p =>
          let result := eval_op (val p) op expected in
          if (result <? 0)%Z then (-1)%Z else if negb (result =? 0)%Z then 0%Z else (-1)%Z
      end
  | _, _, _ => (-1)%Z
  end.

Definition ia_filter (t : ThreadContext) (action_params : option JSON_Object) (expr_cache : list filter_expr_cache_el)
    : res (Z * ThreadContext * list filter_expr_cache_el) :=
  match action_params with
  | None => Ok ((-1)%Z, t, expr_cache)
  | Some o =>
      match json_object_get_string (Some o) "expr" with
      | Some expr =>
          let! (a, expr_cache) :=
            match expr_cache_get (expr_at o) expr expr_cache with
            | Some a => Ok (Some a, expr_cache)
            | None => expr_compile_cached alloc_ok (expr_at o) expr expr_cache
            end in
          match a with
          | None => Ok ((-1)%Z, t, expr_cache)
          | Some a =>
              let! b := retrace_filter_eval (Some a) (Some t) (fp_name <$> prototype t) in
              Ok (if b then 0%Z else (-1)%Z, t, expr_cache)
          end
      | None => Ok (filter_triple t o, t, expr_cache)
      end
  end.

(** ** What a filter decides *)

(** The comparison a triple states: false unless it is complete, its parameter
    is in the call and its operator is known. *)
Definition triple_holds (t : ThreadContext) (o : JSON_Object) : Prop :=
  ∃ name op p c,
    json_object_get_string (Some o) "param_name" = Some name ∧
    json_object_get_string (Some o) "op" = Some (print_op op) ∧ globbing op = false ∧
    json_object_get_value (Some o) "value" = Some c ∧
    param_named t name = Some p ∧
    compare op (val p) (PolicySig.d_i64 out_of_range (json_value_get_number (Some c))) = true.

(** Whether the parameters of a filter let the script go on. *)
Inductive filter_says (t : ThreadContext) (o : JSON_Object) : bool → Prop :=
  | says_expr expr tree :
      json_object_get_string (Some o) "expr" = Some expr → no_nul expr → parse_tree expr = Some tree →
      filter_says t o (eval_tree char_signed (tctx_resolver t (fp_name <$> prototype t)) tree)
  | says_yes : json_object_get_string (Some o) "expr" = None → triple_holds t o → filter_says t o true
  | says_no : json_object_get_string (Some o) "expr" = None → ¬ triple_holds t o → filter_says t o false.

(** The texts of the configuration, and entries that are what their address
    holds. *)
Context (texts : Z → bytes).

Definition current (expr_cache : list filter_expr_cache_el) : Prop :=
  length expr_cache ≤ FILTER_EXPR_CACHE_MAX ∧
  Forall (λ el, ∃ tree, parse_tree (texts (expr_ptr el)) = Some tree ∧
                ∀ rc, retrace_filter_eval_resolved char_signed rc (Some (ast el)) = Ok (eval_tree char_signed rc tree))
    expr_cache.

Definition in_place (o : JSON_Object) : Prop :=
  ∀ expr, json_object_get_string (Some o) "expr" = Some expr → texts (expr_at o) = expr.

Lemma cache_get_current at_ expr g a tree :
  current g → texts at_ = expr → parse_tree expr = Some tree → expr_cache_get at_ expr g = Some a →
  ∀ rc, retrace_filter_eval_resolved char_signed rc (Some a) = Ok (eval_tree char_signed rc tree).
Proof.
  intros [_ Hg] Ht Hp H rc. unfold expr_cache_get in H. destruct (list_find _ g) as [[i el]|] eqn:E; [|done].
  injection H as <-. apply list_find_Some in E as (Hi & (<- & _) & _).
  rewrite Forall_lookup in Hg. destruct (Hg i el Hi) as (tree' & Hp' & He). rewrite Ht, Hp in Hp'. by injection Hp' as ->.
Qed.

Lemma compile_cached_current at_ expr g tree :
  allocs_ok alloc_ok → current g → texts at_ = expr → no_nul expr → parse_tree expr = Some tree →
  ∃ a g', expr_compile_cached alloc_ok at_ expr g = Ok (Some a, g') ∧ current g' ∧
    ∀ rc, retrace_filter_eval_resolved char_signed rc (Some a) = Ok (eval_tree char_signed rc tree).
Proof.
  intros Ha [Hl Hg] Ht Hn Hp. destruct (compile_eval alloc_ok expr tree Ha Hn Hp) as (a & Hc & He).
  unfold expr_compile_cached. rewrite Hc. cbn [rbind]. eexists a, _. split; [done|]. split; [|done]. split.
  - rewrite length_app. cbn [length]. destruct (Nat.eqb_spec (length g) FILTER_EXPR_CACHE_MAX); [rewrite length_drop|]; unfold FILTER_EXPR_CACHE_MAX in *; lia.
  - apply Forall_app. split; [case_match; [by apply Forall_drop|done]|]. apply Forall_singleton. exists tree.
    cbn [expr_ptr ast]. by rewrite Ht.
Qed.

Lemma op_of_text op :
  (∃ k, globbing k = false ∧ op = print_op k) ∨ ∀ a e, eval_op a op e = (-1)%Z.
Proof.
  unfold eval_op. unfold streq. repeat (case_bool_decide as H; [left|clear H]); [..|by right].
  - by exists FO_EQ.
  - by exists FO_NE.
  - by exists FO_GT.
  - by exists FO_LT.
  - by exists FO_GE.
  - by exists FO_LE.
Qed.

Lemma eval_op_compare k a e :
  globbing k = false → eval_op a (print_op k) e = if compare k a e then 1%Z else 0%Z.
Proof. by destruct k. Qed.

Lemma triple_decides t o b :
  (if b : bool then triple_holds t o else ¬ triple_holds t o) → filter_triple t o = if b then 0%Z else (-1)%Z.
Proof.
  intros Hb. assert (filter_triple t o = 0%Z ∧ triple_holds t o ∨ filter_triple t o = (-1)%Z ∧ ¬ triple_holds t o) as H.
  2: { destruct b, H as [[H1 H2]|[H1 H2]]; try done. }
  clear b Hb. unfold filter_triple.
  destruct (json_object_get_string (Some o) "param_name") as [name|] eqn:En.
  2: { right. split; [done|]. intros (? & ? & ? & ? & H & _). congruence. }
  destruct (json_object_get_string (Some o) "op") as [op|] eqn:Eo.
  2: { right. split; [done|]. intros (? & ? & ? & ? & _ & H & _). congruence. }
  destruct (json_object_get_value (Some o) "value") as [c|] eqn:Ev.
  2: { right. split; [done|]. intros (? & ? & ? & ? & _ & _ & _ & H & _). congruence. }
  destruct (param_named t name) as [p|] eqn:Ep.
  2: { right. split; [done|]. intros (? & ? & ? & ? & H1 & _ & _ & _ & H2 & _). congruence. }
  unfold json_object_get_number. rewrite Ev. destruct (op_of_text op) as [(k & Hk & ->)|Hu].
  - rewrite eval_op_compare by done. set (e := PolicySig.d_i64 _ _). destruct (compare k (val p) e) eqn:Ec; cbn.
    + left. split; [done|]. by exists name, k, p, c.
    + right. split; [done|]. intros (n' & k' & p' & c' & H1 & H2 & H3 & H4 & H5 & H6). simplify_eq.
      assert (k' = k) as -> by (by destruct k, k'). fold e in H6. congruence.
  - right. rewrite Hu. split; [done|]. intros (n' & k' & p' & c' & H1 & H2 & H3 & H4 & H5 & H6). simplify_eq.
    specialize (Hu 0%Z 0%Z). rewrite eval_op_compare in Hu by done. by destruct (compare _ _ _).
Qed.

Lemma filter_decides t o b g :
  allocs_ok alloc_ok → current g → in_place o → filter_says t o b →
  ∃ g', ia_filter t (Some o) g = Ok (if b then 0%Z else (-1)%Z, t, g') ∧ current g'.
Proof.
  intros Ha Hg Hp Hs. unfold ia_filter. destruct Hs as [expr tree He Hn Ht|He Ht|He Ht]; rewrite He.
  - destruct (expr_cache_get (expr_at o) expr g) as [a|] eqn:Eg; cbn [rbind].
    + exists g. split; [|done]. unfold retrace_filter_eval. by rewrite (cache_get_current _ _ _ _ _ Hg (Hp _ He) Ht Eg).
    + destruct (compile_cached_current (expr_at o) expr g tree Ha Hg (Hp _ He) Hn Ht) as (a & g' & -> & Hg' & Hev).
      cbn [rbind]. exists g'. split; [|done]. unfold retrace_filter_eval. by rewrite Hev.
  - exists g. split; [|done]. by rewrite (triple_decides t o true).
  - exists g. split; [|done]. by rewrite (triple_decides t o false).
Qed.

(** ** Filters of a script *)

Section script.
Context {W : Type} (cache_of : W → list filter_expr_cache_el) (put : list filter_expr_cache_el → W → W).
Hypothesis put_get : ∀ g w, cache_of (put g w) = g.
Hypothesis put_put : ∀ g g' w, put g (put g' w) = put g w.

(** What a run does where the behaviour of the filter is undefined. *)
Context (wild : ThreadContext → W → Z * ThreadContext * W).

Definition filter_action : Engine.action_fn (W := W) := λ t action_params w,
  match ia_filter t action_params (cache_of w) with
  | Ok (rc, t, g) => (rc, t, put g w)
  | _ => wild t w
  end.

Context (actions_get : bytes → option (Engine.action_fn (W := W))).
Hypothesis has_filter : actions_get (lit "filter") = Some filter_action.

(** An element of [actions] that is a filter. *)
Definition filter_element (v : JSON_Value) (o : JSON_Object) : Prop :=
  json_object_get_string (json_value_get_object (Some v)) "action_name" = Some (lit "filter") ∧
  json_object_get_object (json_value_get_object (Some v)) "action_params" = Some o.

Lemma filters_run vs os bs rest t w :
  allocs_ok alloc_ok → current (cache_of w) → Forall in_place os → Forall2 filter_element vs os →
  Forall2 (filter_says t) os bs → vs ≠ [] →
  ∃ g, current g ∧
    Engine.run_actions actions_get (vs ++ rest) t w =
      if forallb id bs then Engine.run_actions actions_get rest t (put g w) else (t, put g w).
Proof.
  intros Ha Hc Hp Hv. revert bs w Hc Hp.
  induction Hv as [|v o vs os [Hn Ho] Hv IH]; intros bs w Hc Hp Hs Hne; [done|]. clear Hne.
  apply Forall_cons in Hp as [Hp Hps]. inversion Hs as [|? b ? bs' Hb Hbs E1 E2]; subst.
  destruct (filter_decides t o b (cache_of w) Ha Hc Hp Hb) as (g & Hf & Hg).
  cbn [app]. rewrite (Jail.run_cons actions_get v (vs ++ rest) (lit "filter") filter_action (Some o)) by done.
  unfold filter_action. rewrite Hf. destruct b; cbn [Z.eqb negb forallb id andb]; [|by exists g].
  destruct vs as [|v' vs].
  { inversion Hv; subst. inversion Hbs; subst. by exists g. }
  destruct (IH bs' (put g w)) as (g' & Hg' & Hr); [by rewrite put_get|done..|].
  exists g'. split; [done|]. rewrite Hr. by rewrite put_put.
Qed.


End script.

(** ** Where the action differs from its documentation *)

(** Two parameters that are no strings are known but not as strings, so they
    compare as two missing strings: equal, whatever their values are. *)
Lemma two_params_equal t func a b n m pa pb :
  a ∉ [lit "func"; lit "caller"] → b ∉ [lit "func"; lit "caller"] →
  param_named t a = Some pa → param_named t b = Some pb → is_sz_param pa = false → is_sz_param pb = false →
  let cmp op := TCmp op (mkOperand FO_PARAM 0 (Some a) n) (mkOperand FO_PARAM 0 (Some b) m) in
  eval_tree char_signed (tctx_resolver t func) (cmp FO_EQ) = true ∧
  eval_tree char_signed (tctx_resolver t func) (cmp FO_NE) = false.
Proof.
  intros Ha Hb Hpa Hpb Hsa Hsb cmp.
  assert (∀ x p, x ∉ [lit "func"; lit "caller"] → param_named t x = Some p → is_sz_param p = false →
    tctx_str t func x = Some None) as H.
  { intros x p Hx Hp Hs. rewrite !not_elem_of_cons in Hx. destruct Hx as (H1 & H2 & _). unfold tctx_str, streq.
    rewrite !bool_decide_false by done. by rewrite Hp, Hs. }
  cbn. unfold str_val, text. cbn. by rewrite (H a pa), (H b pb).
Qed.

(** The caller is looked up among the callers that are known already; dladdr is
    not asked. *)
Lemma caller_not_asked t func : callers = ScriptResolver.empty_cache → tctx_str t func (lit "caller") = Some None.
Proof.
  intros Hc. unfold tctx_str. change (streq (lit "caller") (lit "func")) with false.
  change (streq (lit "caller") (lit "caller")) with true. cbv iota.
  destruct (Z.eqb_spec (ret_addr t) 0) as [|Hra]; [done|]. unfold ScriptResolver.retrace_caller_cache_lookup.
  destruct (Z.eqb_spec (ret_addr t) 0) as [|_]; [done|].
  destruct (ScriptResolver.find_addr _ _) as [i|] eqn:E; [|done].
  apply ScriptResolver.find_addr_Some in E as [info Hi]. rewrite Hc in Hi.
  by apply lookup_replicate in Hi as [[= H0 _] _].
Qed.

End call.

(** The text of an expression is replaced where it stands by one of the same
    length with the same ends: the old predicate still decides. *)
Definition fd_params : ThreadContext :=
  set_params [mkParam (mkMeta (lit "fd") (lit "int") 0 PDIR_IN [] []) 10 false] zero_context.

Definition expr_object (s : string) : JSON_Object := [(lit "expr", JSONString (lit s))].

Lemma filter_stale :
  let run := ia_filter true (λ _, []) ScriptResolver.empty_cache (λ _, 4096%Z) (λ _, true) (λ _, 0%Z) fd_params in
  (∃ g, run (Some (expr_object "fd == 10")) [] = Ok (0%Z, fd_params, g) ∧
        run (Some (expr_object "fd == 20")) g = Ok (0%Z, fd_params, g)) ∧
  ∃ g, run (Some (expr_object "fd == 20")) [] = Ok ((-1)%Z, fd_params, g).
Proof. split; eexists; [split; [vm_compute; reflexivity|]|]; vm_compute; reflexivity. Qed.

(** Of two scripts of a function the second is not tried when the filter of the
    first fails: scripts are chosen before their actions run. *)
Lemma filter_no_fallthrough rc_dladdr f a b rest :
  f ≠ lit "*" →
  json_object_get_string (Some a) "func_name" = Some f → json_object_get_array (Some a) "caller_matches" = None →
  ScriptResolver.chosen rc_dladdr (JSONObject a :: b :: rest) f 0 = Some a.
Proof.
  intros Hf Hn Hm. rewrite <- ScriptResolver.chosen_from_None, ScriptResolver.chosen_from_cons.
  unfold ScriptResolver.script_choice. rewrite Hn. unfold streq. rewrite bool_decide_false by done.
  rewrite bool_decide_true by done. cbn [negb]. unfold ScriptResolver.matches_verdict. by rewrite Hm.
Qed.

(** ** Witness *)

Abbreviation demo_world := (list filter_expr_cache_el).
Definition demo_wild : ThreadContext → demo_world → Z * ThreadContext * demo_world := λ t w, (1%Z, t, w).
Definition demo_filter : Engine.action_fn (W := demo_world) :=
  filter_action true (λ _, lit "/etc/passwd") ScriptResolver.empty_cache (λ o, Z.of_nat (length o)) (λ _, true) (λ _, 0%Z)
    id (λ g _, g) demo_wild.
Definition demo_actions (n : bytes) : option (Engine.action_fn (W := demo_world)) :=
  if streq n (lit "filter") then Some demo_filter
  else if streq n (lit "refuse") then Some (λ t _ w, (0%Z, set_ret_val (-1) t, w)) else None.
Definition demo_element (name : string) (o : JSON_Object) : JSON_Value :=
  JSONObject [(lit "action_name", JSONString (lit name)); (lit "action_params", JSONObject o)].
Definition demo_expr : JSON_Object := expr_object "fd == 10 and not fd > 11".
Definition demo_expr_tree : ftree :=
  let cmp op z := TCmp op (mkOperand FO_PARAM 0 (Some (lit "fd")) 2) (mkOperand FO_NUM z None 0) in
  TAnd (cmp FO_EQ 10%Z) (TNot (cmp FO_GT 11%Z)).
Definition demo_triple : JSON_Object :=
  [(lit "param_name", JSONString (lit "fd")); (lit "op", JSONString (lit "<=")); (lit "value", JSONNumber (d_int 10))].
Definition demo_script : JSON_Object :=
  [(lit "actions", JSONArray [demo_element "filter" demo_expr; demo_element "filter" demo_triple; demo_element "refuse" []])].

Lemma demo_triple_holds : triple_holds (λ _, 0%Z) fd_params demo_triple.
Proof.
  exists (lit "fd"), FO_LE, (mkParam (mkMeta (lit "fd") (lit "int") 0 PDIR_IN [] []) 10 false), (JSONNumber (d_int 10)).
  split_and!; vm_compute; reflexivity.
Qed.


End FilterAction.
