(* ===== verification/Logger.v ===== *)
(** * The logger: from messages to the document

    [src/core/logger.c]: the configuration read at start-up, the envelope of a
    message, the two ways of an entry to the outputs (at once, or through the
    ring of its thread and the flusher), the framing of the document, the sinks
    and the end of the log, over the rings of [LogRing] and [LogFlusher]. The
    flusher's thread can be created, the functions of the C library the logger
    prints with are resolved, and outputs are the texts written to them. *)

From stdpp Require Import gmap sorting functions.
From S2P Require Import Prelude Libc Stdio Json JsonText JsonBudget JsonRoundTrip JsonObject LogRing LogFlusher LogFilter Redact TraceStream.

Module Logger.

Import Libc Stdio Json JsonText JsonRoundTrip JsonObject LogRing LogFlusher.

Inductive Modules := ACTIONS | CONF | DATA_TYPES | ENGINE | FUNCS | MAIN | ARCH.
Inductive Severity := SEVERITY_DEBUG | SEVERITY_INFO | SEVERITY_WARN | SEVERITY_ERROR.

Definition module_nr (m : Modules) : Z :=
  match m with ACTIONS => 0 | CONF => 1 | DATA_TYPES => 2 | ENGINE => 3 | FUNCS => 4 | MAIN => 5 | ARCH => 6 end.
Definition severity_nr (s : Severity) : Z :=
  match s with SEVERITY_DEBUG => 0 | SEVERITY_INFO => 1 | SEVERITY_WARN => 2 | SEVERITY_ERROR => 3 end.

(** The static part of [g_logger_config]. *)
Definition severities_ena (s : Severity) : bool := match s with SEVERITY_DEBUG => false | _ => true end.
Definition modules_ena (m : Modules) : bool := true.

Definition g_retrace_module_pref (m : Modules) : bytes :=
  lit match m with
      | ACTIONS => "ACT" | CONF => "CONF" | DATA_TYPES => "TYPES" | ENGINE => "ENGINE" | FUNCS => "FUNCS" | MAIN => "MAIN"
      | ARCH => "ARCH"
      end.
Definition g_retrace_severities (s : Severity) : bytes :=
  lit match s with SEVERITY_DEBUG => "DEBUG" | SEVERITY_INFO => "INFO" | SEVERITY_WARN => "WARN" | SEVERITY_ERROR => "ERROR" end.

(** ** The outputs *)

Definition RETRACE_LOG_SINKS_MAX : nat := 4.

(** What the emitting side reads and writes. A sink is a number, and
    [delivered] the calls of sinks with their texts. *)
Record Out := mkOut {
  g_logger_fmt_jsonl : bool;
  g_first_json : bool;
  stdout_ena : bool;
  g_stdout : bytes;
  logfile : option bytes;
  g_log_sinks : list (option nat);
  delivered : list (nat * bytes);
}.

Definition logger_write_entry_line (o : Out) (text : bytes) : bytes :=
  if g_logger_fmt_jsonl o then text ++ [NL]
  else if g_first_json o then [","%char; NL] ++ text ++ [NL]
  else text ++ [NL].

(** A text appended to the outputs that are open. *)
Definition put (text : bytes) (o : Out) : Out :=
  mkOut (g_logger_fmt_jsonl o) (g_first_json o) (stdout_ena o)
    (if stdout_ena o then g_stdout o ++ text else g_stdout o) ((λ f, f ++ text) <$> logfile o) (g_log_sinks o) (delivered o).

Definition put_entry (text : bytes) (o : Out) : Out :=
  let o := put (logger_write_entry_line o text) o in
  mkOut (g_logger_fmt_jsonl o) true (stdout_ena o) (g_stdout o) (logfile o) (g_log_sinks o) (delivered o).

Definition call_sinks (text : bytes) (o : Out) : Out :=
  mkOut (g_logger_fmt_jsonl o) (g_first_json o) (stdout_ena o) (g_stdout o) (logfile o) (g_log_sinks o)
    (delivered o ++ omap (fmap (λ f, (f, text))) (g_log_sinks o)).

Section logger.
Context {DT : DoubleText}.

(** The compiled patterns of the redaction. *)
Context (patterns : list bytes).

(** The callback of the flusher; its sinks see the entry before it counts as
    the first one, which they do not read. *)
Definition logger_emit_entry (entry : LogEntry) (text : option bytes) (o : Out) : bool * Out :=
  match text with
  | None => (false, o)
  | Some text =>
      let text :=
        if Redact.retrace_redact_active patterns then default text (Redact.retrace_redact_apply patterns (Some text)) else text in
      (false, call_sinks text (put_entry text o))
  end.

(** [retrace_log_sink_register]: the place of the sink, or [None]. *)
Definition retrace_log_sink_register (fn : option nat) (o : Out) : option nat * Out :=
  match fn, list_find (λ s, s = None) (g_log_sinks o) with
  | Some f, Some (i, _) =>
      (Some i, mkOut (g_logger_fmt_jsonl o) (g_first_json o) (stdout_ena o) (g_stdout o) (logfile o)
                 (<[i := Some f]> (g_log_sinks o)) (delivered o))
  | _, _ => (None, o)
  end.

(** ** The logger *)

Record logger := mkLogger {
  out : Out;
  ena : bool;
  g_logger_active : bool;
  g_logger_ring_enabled : bool;
  g_logger_ring_ready : bool;
  g_flusher_spawned : bool;
  retrace_inited : bool;
  disabled : gset nat;
  rings : world;
}.

Definition set_out (o : Out) (l : logger) : logger :=
  mkLogger o (ena l) (g_logger_active l) (g_logger_ring_enabled l) (g_logger_ring_ready l) (g_flusher_spawned l)
    (retrace_inited l) (disabled l) (rings l).
Definition set_rings (w : world) (l : logger) : logger :=
  mkLogger (out l) (ena l) (g_logger_active l) (g_logger_ring_enabled l) (g_logger_ring_ready l) (g_flusher_spawned l)
    (retrace_inited l) (disabled l) w.

Definition ensure_flusher_running (l : logger) : logger :=
  mkLogger (out l) (ena l) (g_logger_active l) (g_logger_ring_enabled l) (g_logger_ring_ready l) true
    (retrace_inited l) (disabled l) (rings l).

Definition retrace_logger_disable_for_this_thread (tid : nat) (l : logger) : logger :=
  mkLogger (out l) (ena l) (g_logger_active l) (g_logger_ring_enabled l) (g_logger_ring_ready l) (g_flusher_spawned l)
    (retrace_inited l) ({[tid]} ∪ disabled l) (rings l).

Definition any_output (o : Out) : bool := stdout_ena o || match logfile o with Some _ => true | None => false end.

(** The tests before an entry is built. *)
Definition wanted (tid : nat) (module : Modules) (sev : Severity) (l : logger) : bool :=
  negb (bool_decide (tid ∈ disabled l)) && g_logger_active l && (ena l && any_output (out l))
  && (modules_ena module && severities_ena sev).

Definition set_number (o : JSON_Object) (name : string) (z : Z) : JSON_Object :=
  default o (json_object_set_number o (lit name) (d_of_int z)).
Definition set_string (o : JSON_Object) (name : string) (s : bytes) : JSON_Object :=
  default o (json_object_set_string o (lit name) s).

Definition entry_object (rawtime pid : Z) (tid : nat) (module : Modules) (sev : Severity) (msg : JSON_Value) : JSON_Object :=
  let root := set_number [] "time" rawtime in
  let root := set_number root "pid" pid in
  let root := set_number root "tid" (Z.of_nat tid) in
  let root := set_string root "module" (g_retrace_module_pref module) in
  let root := set_string root "severity" (g_retrace_severities sev) in
  default root (json_object_set_value root (lit "message") (Some msg)).

Lemma entry_members rawtime pid tid module sev msg :
  entry_object rawtime pid tid module sev msg =
    [(lit "time", JSONNumber (d_of_int rawtime)); (lit "pid", JSONNumber (d_of_int pid)); (lit "tid", JSONNumber (d_of_int (Z.of_nat tid)));
     (lit "module", JSONString (g_retrace_module_pref module)); (lit "severity", JSONString (g_retrace_severities sev)); (lit "message", msg)].
Proof.
  unfold entry_object, set_number. generalize (d_of_int rawtime) (d_of_int pid) (d_of_int (Z.of_nat tid)). intros. by destruct module, sev.
Qed.

(** An entry that the tools can read back. *)
Definition readable (o : JSON_Object) : Prop := json_ok (JSONObject o) ∧ json_depth (JSONObject o) ≤ S MAX_NESTING.

Lemma entry_readable rawtime pid tid module sev msg :
  number_ok (d_of_int rawtime) → number_ok (d_of_int pid) → number_ok (d_of_int (Z.of_nat tid)) →
  json_ok msg → json_depth msg ≤ MAX_NESTING → readable (entry_object rawtime pid tid module sev msg).
Proof.
  intros H1 H2 H3 Hm Hd. rewrite entry_members. split.
  - apply ok_object. split; [|split].
    + apply (bool_decide_eq_true_1 _). vm_compute. reflexivity.
    + by repeat constructor.
    + cbn [map snd]. repeat (apply Forall_cons; split; [first [exact H1|exact H2|exact H3|exact Hm|by destruct module; repeat constructor|
        by destruct sev; repeat constructor]|]). constructor.
  - unfold MAX_NESTING in *. cbn -[Nat.max]. lia.
Qed.

(** A call of the logger: the thread and the time, and the outcomes of the
    allocations for its ring and for the copy of the text. *)
Record call := mkCall {
  c_tid : nat;
  c_time : Z;
  c_module : Modules;
  c_sev : Severity;
  c_msg : JSON_Value;
  c_alloc : outcomes;
  c_copy : bool;
  c_junk : LogEntry;
}.

Context (pid : Z).

Definition call_entry (c : call) : JSON_Object := entry_object (c_time c) pid (c_tid c) (c_module c) (c_sev c) (c_msg c).

(** The push into the ring of the thread; whether it was accepted. *)
Definition push_text (c : call) (text : option bytes) (w : world) : bool * world :=
  let '(ring, w) := retrace_log_ring_get (c_alloc c) (c_junk c) (c_tid c) w in
  match ring with
  | None => (false, w)
  | Some r =>
      let '(ret, ring, m) :=
        retrace_log_ring_push (c_copy c) (w_rings w !! r) (w_heap w) (module_nr (c_module c)) (severity_nr (c_sev c))
          (u32 (c_time c)) text in
      ((ret =? 0)%Z,
       mkWorld (match ring with Some ring => <[r := ring]> (w_rings w) | None => w_rings w end)
         (w_registry w) (w_tss w) m (w_cap w))
  end.

(** An entry that could not be serialised is printed as glibc prints a NULL
    string, or refused by the ring. *)
Definition retrace_logger_log_json (c : call) (l : logger) : logger :=
  if negb (wanted (c_tid c) (c_module c) (c_sev c) l) then l
  else
    let text := json_serialize_to_string (negb (g_logger_fmt_jsonl (out l))) (JSONObject (call_entry c)) in
    if g_logger_ring_ready l && g_logger_ring_enabled l && retrace_inited l then
      let l := ensure_flusher_running l in set_rings (push_text c text (rings l)).2 l
    else if any_output (out l) then set_out (put_entry (default (lit "(null)") text) (out l)) l
    else l.

(** [retrace_logger_log]: the message with a text that was formatted. *)
Definition text_message (text : bytes) : JSON_Value := JSONObject (set_string [] "text" text).

(** A round of the flusher. *)
Definition flush (l : logger) : logger :=
  let '(_, w, o) := retrace_log_flusher_drain_all logger_emit_entry (rings l) (out l) in
  set_out o (set_rings w l).

(** ** Start and end *)

Definition ENVAR_LOGGER_DEF_ENA : string := "RETRACE_LOGGER_DEF_ENA".
Definition ENVAR_LOGGER_DEF_STDOUT_ENA : string := "RETRACE_LOGGER_DEF_STDOUT_ENA".
Definition ENVAR_LOGGER_DEF_FN : string := "RETRACE_LOGGER_DEF_FN".
Definition ENVAR_LOGGER_FMT : string := "RETRACE_LOGGER_FMT".

(** A number of the environment, with its default. *)
Definition env_flag (v : option bytes) : bool := match v with Some v => negb (atoi v =? 0)%Z | None => true end.

(** The state after the start; [fopen] is what the file holds when it can be
    opened, [ring_init] the outcome of the initialisation of the rings, and
    [sinks] those registered before. The decoration, which nothing reads, is left out, and
    the filters of functions are those of [LogFilter]. *)
Definition retrace_logger_init (getenv : string → option bytes) (fopen : bytes → option bytes) (ring_init : bool)
    (sinks : list (option nat)) : logger :=
  let ena := env_flag (getenv ENVAR_LOGGER_DEF_ENA) in
  let file := getenv ENVAR_LOGGER_DEF_FN ≫= fopen in
  let jsonl := match getenv ENVAR_LOGGER_FMT with Some v => streq v (lit "jsonl") | None => false end in
  let o := mkOut jsonl false (env_flag (getenv ENVAR_LOGGER_DEF_STDOUT_ENA)) [] file sinks [] in
  let on := ena && any_output o in
  let o := if on && negb jsonl then put ["["%char; NL] o else o in
  let enabled := on && match getenv "RETRACE_LOGGER_RING" with Some v => negb (ceq (deref v) "0") | None => true end in
  let ready := enabled && ring_init in
  mkLogger o ena true ready ready false false ∅
    (mkWorld ∅ [] ∅ ∅ (if enabled then ring_configured_cap (getenv "RETRACE_LOGGER_RING_CAP") else 0%Z)).

(** The flag that the constructor sets when everything is initialised. *)
Definition set_inited (l : logger) : logger :=
  mkLogger (out l) (ena l) (g_logger_active l) (g_logger_ring_enabled l) (g_logger_ring_ready l) (g_flusher_spawned l)
    true (disabled l) (rings l).

(** The end: late callers are declined, the flusher's thread is joined after its
    last round, the rings are freed, and the array is closed. *)
Definition retrace_logger_deinit (l : logger) : logger :=
  let ring_was_ready := g_logger_ring_ready l in
  let l := mkLogger (out l) (ena l) false (g_logger_ring_enabled l) false (g_flusher_spawned l) (retrace_inited l)
             (disabled l) (rings l) in
  let l := if ring_was_ready && g_flusher_spawned l then flush l else l in
  let l := if ring_was_ready then set_rings (retrace_log_ring_deinit (rings l)).1 l else l in
  if negb (g_logger_fmt_jsonl (out l)) && ena l && any_output (out l) then set_out (put ["]"%char; NL] (out l)) l else l.

(** ** The rings under the calls of the logger *)

Lemma repr_insert ring m q ls l text :
  m !! l = None → repr ring m q ls → repr ring (<[l := text]> m) q ls.
Proof.
  intros Hl (Hp & Hq & Hnd & C & Ht & Hh & Hs). split_and!; [done..|]. exists C. split_and!; [done..|].
  by apply slots_heap_insert.
Qed.

(** One ring of several replaced, in a heap in which the others are as before. *)
Lemma rings_replace w rs1 r rs2 qs1 q qs2 q' ring' m' :
  length rs1 = length qs1 → rings_repr w (rs1 ++ r :: rs2) (qs1 ++ q :: qs2) →
  repr ring' m' q'.*1 q'.*2 → NoDup (concat (qs1 ++ q' :: qs2)).*2 →
  (∀ ring q, repr ring (w_heap w) q.*1 q.*2 → repr ring m' q.*1 q.*2) →
  rings_repr (mkWorld (<[r := ring']> (w_rings w)) (w_registry w) (w_tss w) m' (w_cap w)) (rs1 ++ r :: rs2) (qs1 ++ q' :: qs2).
Proof.
  intros Hl (Hn & _ & Hf) Hr Hd Hfr. split_and!; [done..|].
  apply Forall2_app_inv in Hf as [Hf1 Hf2]; [|done]. apply Forall2_cons in Hf2 as [_ Hf2].
  apply NoDup_app in Hn as (_ & Hn1 & Hn2). apply NoDup_cons in Hn2 as [Hn2 _].
  apply Forall2_app; [|apply Forall2_cons; split; [exists ring'; split; [apply lookup_insert_eq|done]|]].
  - eapply Forall2_impl; [|by intros r' q0 H; exact H]. apply Forall2_same_length_lookup. split; [done|].
    intros i r' q0 Hr' Hq0. destruct (Forall2_lookup_lr _ _ _ _ _ _ Hf1 Hr' Hq0) as (rg & Hrg & Hrep). exists rg. split; [|by apply Hfr].
    cbn. rewrite lookup_insert_ne; [done|]. intros ->. apply (Hn1 r'); [by eapply list_elem_of_lookup_2|set_solver].
  - apply Forall2_same_length_lookup. split; [by eapply Forall2_length|]. intros i r' q0 Hr' Hq0.
    destruct (Forall2_lookup_lr _ _ _ _ _ _ Hf2 Hr' Hq0) as (rg & Hrg & Hrep). exists rg. split; [|by apply Hfr].
    cbn. rewrite lookup_insert_ne; [done|]. intros ->. apply Hn2. by eapply list_elem_of_lookup_2.
Qed.

Lemma queued_in_heap w rs qs l : rings_repr w rs qs → l ∈ (concat qs).*2 → is_Some (w_heap w !! l).
Proof.
  intros (_ & _ & Hf) Hl. apply list_elem_of_fmap in Hl as ([x l'] & -> & Hl). apply list_elem_of_In, in_concat in Hl as (q & Hq & Hx).
  apply list_elem_of_In in Hq, Hx. apply list_elem_of_lookup in Hq as [i Hi].
  destruct (Forall2_lookup_r _ _ _ _ _ Hf Hi) as (r & _ & ring & _ & (_ & _ & _ & C & _ & _ & Hs)).
  eapply slots_dom; [exact Hs|]. cbn. apply list_elem_of_fmap. by exists (x, l').
Qed.

(** A push into one of the rings: it is full, or it has one more. *)
Lemma push_rings w rs1 r rs2 qs1 q qs2 module sev ts text ring :
  length rs1 = length qs1 → rings_repr w (rs1 ++ r :: rs2) (qs1 ++ q :: qs2) → w_rings w !! r = Some ring →
  let '(ret, ring', m) := retrace_log_ring_push true (Some ring) (w_heap w) module sev ts (Some text) in
  let w' := mkWorld (match ring' with Some x => <[r := x]> (w_rings w) | None => w_rings w end) (w_registry w) (w_tss w) m (w_cap w) in
  (∃ x, ring' = Some x ∧ r_mask x = r_mask ring) ∧
  (ret = (-1)%Z ∧ length q = r_mask ring ∧ rings_repr w' (rs1 ++ r :: rs2) (qs1 ++ q :: qs2) ∨
   ret = 0%Z ∧ ∃ l, rings_repr w' (rs1 ++ r :: rs2) (qs1 ++ (q ++ [(mkMsg ts module sev text, l)]) :: qs2)).
Proof.
  intros Hl Hw Hring. pose proof Hw as (_ & Hd & Hf). apply Forall2_app_inv in Hf as [_ Hf]; [|done].
  apply Forall2_cons in Hf as [(ring0 & Hr0 & Hrep) _]. rewrite Hring in Hr0. injection Hr0 as <-.
  pose proof (push_spec ring (w_heap w) q.*1 q.*2 module sev ts text Hrep) as Hp. cbn zeta in Hp.
  destruct (retrace_log_ring_push _ _ _ _ _ _ _) as [[ret ring'] m].
  assert (w_heap w !! fresh (dom (w_heap w)) = None) as Hfr by apply not_elem_of_dom, is_fresh.
  rewrite length_fmap in Hp. destruct Hp as [(Hq & -> & -> & -> & Hb)|(_ & -> & -> & r1 & -> & Hm & _ & Hb)].
  - split; [by eexists|]. left. split_and!; [done..|]. by eapply rings_replace.
  - split; [by eexists|]. right. split; [done|]. exists (fresh (dom (w_heap w))).
    eapply rings_replace; [done|exact Hw|by rewrite !fmap_app| |].
    + assert (∀ q', (concat (qs1 ++ q' :: qs2)).*2 = (concat qs1).*2 ++ q'.*2 ++ (concat qs2).*2) as Hcat.
      { intros q'. rewrite concat_app. cbn. by rewrite !fmap_app. }
      rewrite Hcat, fmap_app. cbn [fmap list_fmap snd]. rewrite <- app_assoc. cbn [app].
      rewrite app_assoc, <- Permutation_middle, <- app_assoc, <- Hcat. apply NoDup_cons. split; [|done]. intros Hin.
      destruct (queued_in_heap w _ _ _ Hw Hin) as [? H]. congruence.
    + intros rg q0. by apply repr_insert.
Qed.

(** A thread without a ring gets an empty one, in front of the others. *)
Lemma new_ring w junk tid qs :
  w_tss w !! tid = None → rings_repr w (w_registry w) qs → (∀ r, r ∈ w_registry w → is_Some (w_rings w !! r)) →
  (0 < w_cap w < 2 ^ 32)%Z → is_Some (ring_alloc true true junk (w_cap w)) →
  ∃ r ring w', retrace_log_ring_get (mkOutcomes true true true true) junk tid w = (Some r, w') ∧
    w_registry w' = r :: w_registry w ∧ w_tss w' = <[tid := r]> (w_tss w) ∧ w_cap w' = w_cap w ∧ r ∉ w_registry w ∧
    w_rings w' = <[r := ring]> (w_rings w) ∧ Z.of_nat (S (r_mask ring)) = w_cap w ∧ rings_repr w' (r :: w_registry w) ([] :: qs).
Proof.
  intros Ht (Hn & Hd & Hf) Hreg Hc [ring Hr]. unfold retrace_log_ring_get. rewrite Ht.
  destruct (Z.eqb_spec (w_cap w) 0); [lia|]. cbn [ring_ok entries_ok]. rewrite Hr. cbn.
  assert (fresh (dom (w_rings w)) ∉ w_registry w) as Hfr.
  { intros Hin. apply Hreg in Hin. apply elem_of_dom in Hin. by apply is_fresh in Hin. }
  apply ring_alloc_some in Hr as (_ & He & Hcap); [|lia].
  exists (fresh (dom (w_rings w))), ring. eexists. split; [done|]. split_and!; try done.
  split_and!; [by constructor|done|]. constructor.
  - exists ring. split; [apply lookup_insert_eq|]. cbn. destruct He as (Hp & Hh & Htl & _).
    split_and!; [done|apply Nat.le_0_l|apply NoDup_nil_2|]. exists 0. rewrite Hh, Htl. unfold cap.
    rewrite !Nat.mod_0_l by lia. split_and!; [done..|]. by split; [constructor|].
  - apply Forall2_same_length_lookup. split; [by eapply Forall2_length|]. intros i r' q Hr' Hq.
    destruct (Forall2_lookup_lr _ _ _ _ _ _ Hf Hr' Hq) as (rg & Hrg & Hrep). exists rg. split; [|done]. cbn.
    rewrite lookup_insert_ne; [done|]. intros <-. apply Hfr. by eapply list_elem_of_lookup_2.
Qed.

(** A drain keeps the rings' sizes and their threads. *)
Lemma drain_loop_mask {ctx} (cb : LogEntry → option bytes → ctx → bool * ctx) fuel r m c t h n :
  r_mask (drain_loop cb fuel r m c t h n).1.1.1.1 = r_mask r.
Proof.
  revert r m c t n. induction fuel as [|fuel IH]; intros r m c t n; cbn [drain_loop]; [by destruct (t =? h)|].
  destruct (t =? h); [done|]. destruct (r_entries r !! t) as [e|]; [|done]. destruct (cb _ _ _) as [[] c']; [done|]. by rewrite IH.
Qed.

Definition same_shape (w w' : world) : Prop :=
  w_tss w' = w_tss w ∧ w_cap w' = w_cap w ∧ w_registry w' = w_registry w ∧
  ∀ r, r_mask <$> w_rings w' !! r = r_mask <$> w_rings w !! r.

Lemma walk_shape {ctx} (emit : LogEntry → option bytes → ctx → bool * ctx) nodes w a :
  same_shape w (walk (ring_walk_drain emit) nodes (w, a)).1.
Proof.
  revert w a. induction nodes as [|r nodes IH]; intros w a; cbn [walk]; [done|].
  unfold ring_walk_drain at 2. destruct (a_stop a); [apply IH|]. destruct (w_rings w !! r) as [ring|] eqn:E; [|apply IH].
  destruct (retrace_log_ring_drain _ ring (w_heap w) a) as [[[n ring'] m] a'] eqn:Ed.
  assert (r_mask ring' = r_mask ring) as Hm.
  { unfold retrace_log_ring_drain in Ed. pose proof (drain_loop_mask (drain_adapter emit) (S (r_mask ring)) ring (w_heap w) a (r_tail ring) (r_head ring) 0) as Hm.
    destruct (drain_loop _ _ _ _ _ _ _ _) as [[[[rg ?] ?] ?] ?]. cbn in Hm. injection Ed as _ <- _ _. done. }
  match goal with |- same_shape _ (walk _ _ (?w1, ?a1)).1 => destruct (IH w1 a1) as (H1 & H2 & H3 & H4) end.
  split_and!; [done..|]. intros r'. rewrite H4. cbn. destruct (decide (r = r')) as [<-|Hne].
  - rewrite lookup_insert_eq, E. cbn. by rewrite Hm.
  - by rewrite lookup_insert_ne.
Qed.

(** ** A run of the logger *)

(** The calls of the threads and the rounds of the flusher, in the order in
    which they take effect. *)
Inductive event := Log (c : call) | Flush.

Definition step (l : logger) (e : event) : logger :=
  match e with Log c => retrace_logger_log_json c l | Flush => flush l end.

Definition run (l : logger) (evs : list event) : logger := foldl step l evs.

(** The entries that the calls make, with their threads. *)
Definition logged_by (e : event) : option (nat * JSON_Object) :=
  match e with
  | Log c => if modules_ena (c_module c) && severities_ena (c_sev c) then Some (c_tid c, call_entry c) else None
  | Flush => None
  end.

Definition logged (evs : list event) : list (nat * JSON_Object) := omap logged_by evs.

Definition of_thread (tid : nat) (es : list (nat * JSON_Object)) : list JSON_Object := (filter (λ e, e.1 = tid) es).*2.

Lemma of_thread_app tid es es' : of_thread tid (es ++ es') = of_thread tid es ++ of_thread tid es'.
Proof. unfold of_thread. by rewrite filter_app, fmap_app. Qed.

Lemma of_thread_one tid t e : of_thread tid [(t, e)] = if decide (t = tid) then [e] else [].
Proof. unfold of_thread. case_decide; [by rewrite filter_cons_True|by rewrite filter_cons_False]. Qed.

(** No thread logs as many entries as a ring has places ([cap]) between two rounds
    of the flusher; [n] are the entries of each thread since the last round. *)
Fixpoint paced (cap : Z) (n : nat → nat) (evs : list event) : bool :=
  match evs with
  | [] => true
  | e :: evs =>
      match e, logged_by e with
      | Flush, _ => paced cap (λ _, 0) evs
      | Log _, None => paced cap n evs
      | Log _, Some (tid, _) => (Z.of_nat (S (n tid)) <? cap)%Z && paced cap (<[tid := S (n tid)]> n) evs
      end
  end.

Lemma paced_few cap evs : ∀ n,
  (∀ tid, (Z.of_nat (n tid + length (logged evs)) < cap)%Z) → paced cap n evs = true.
Proof.
  unfold logged. induction evs as [|e evs IH]; intros n Hn; [done|]. cbn [paced].
  destruct e as [c|]; [|apply IH; intros tid; specialize (Hn tid); cbn in *; lia]. cbn [omap list_omap] in Hn.
  destruct (logged_by (Log c)) as [[tid o]|]; [|by apply IH]. cbn [length] in Hn. apply andb_true_iff. split.
  - apply Z.ltb_lt. specialize (Hn tid). lia.
  - apply IH. intros t. destruct (decide (tid = t)) as [<-|Hne].
    + rewrite fn_lookup_insert. specialize (Hn tid). lia.
    + rewrite fn_lookup_insert_ne by done. specialize (Hn t). lia.
Qed.

(** A ring with its thread and the entries that wait in it. *)
Record owned := mkOwned { g_ring : nat; g_tid : nat; g_items : list (JSON_Object * (msg * nat)) }.

Definition queue (g : owned) : list (msg * nat) := (g_items g).*2.
Definition labelled (g : owned) : list (nat * JSON_Object) := (λ i, (g_tid g, i.1)) <$> g_items g.
Definition waiting (gs : list owned) : list (nat * JSON_Object) := gs ≫= labelled.

(** *** The text of the document *)

Fixpoint lines (jsonl first : bool) (ts : list bytes) : bytes :=
  match ts with
  | [] => []
  | t :: ts => (if jsonl then t ++ [NL] else if first then [","%char; NL] ++ t ++ [NL] else t ++ [NL]) ++ lines jsonl true ts
  end.

(** What stands before, between and behind the entries. *)
Definition opening (jsonl : bool) : bytes := if jsonl then [] else ["["%char; NL].
Definition closing (jsonl : bool) : bytes := if jsonl then [] else ["]"%char; NL].
Definition between (jsonl : bool) : bytes := if jsonl then [NL] else [NL; ","%char; NL].

Lemma write_rest jsonl os ts rest :
  Forall2 (λ o t, json_serialize_to_string (negb jsonl) (JSONObject o) = Some t) os ts →
  TraceStream.write_log (negb jsonl) ((λ o, (between jsonl, o)) <$> os) (NL :: rest) = Some (NL :: lines jsonl true ts ++ rest).
Proof.
  induction 1 as [|o t os ts Ht _ IH]; cbn [fmap list_fmap TraceStream.write_log lines]; [done|]. rewrite Ht, IH. cbn. do 2 f_equal.
  destruct jsonl; cbn; by rewrite <- ?app_assoc.
Qed.

Lemma write_document jsonl os ts :
  Forall2 (λ o t, json_serialize_to_string (negb jsonl) (JSONObject o) = Some t) os ts →
  ∃ log tail, TraceStream.write_log (negb jsonl) log tail = Some (opening jsonl ++ lines jsonl false ts ++ closing jsonl) ∧
    log.*2 = os ∧ Forall (λ e, "{"%char ∉ e.1) log ∧ "{"%char ∉ tail.
Proof.
  intros H. destruct H as [|o t os ts Ht Hr].
  - exists [], (opening jsonl ++ closing jsonl). split_and!; [by destruct jsonl|done|done|by destruct jsonl; set_solver].
  - exists ((opening jsonl, o) :: ((λ o, (between jsonl, o)) <$> os)), (NL :: closing jsonl). split_and!.
    + cbn [TraceStream.write_log]. rewrite Ht, (write_rest _ _ _ _ Hr). cbn. do 2 f_equal. destruct jsonl; cbn; by rewrite <- ?app_assoc.
    + cbn. f_equal. rewrite <- list_fmap_compose. clear. induction os as [|x os IH]; cbn; [done|]. by f_equal.
    + constructor; [by destruct jsonl; set_solver|]. apply Forall_fmap, Forall_true. intros x. by destruct jsonl; set_solver.
    + destruct jsonl; set_solver.
Qed.

Section document.
(** The format, and the outputs after the start. *)
Context (o0 : Out).

Definition serialised (o : JSON_Object) (text : bytes) : Prop :=
  json_serialize_to_string (negb (g_logger_fmt_jsonl o0)) (JSONObject o) = Some text.

Definition emit_text (o : Out) (text : bytes) : Out := call_sinks text (put_entry text o).

Lemma emit_jsonl ts o : g_logger_fmt_jsonl (foldl emit_text o ts) = g_logger_fmt_jsonl o.
Proof. revert o. induction ts as [|t ts IH]; intros o; cbn; [done|]. by rewrite IH. Qed.

(** All that was accepted and is not yet written waits in the ring of its
    thread. *)
Record consistent (l : logger) (accepted written : list (nat * JSON_Object)) (texts : list bytes) (gs : list owned) : Prop := {
  co_out : out l = foldl emit_text o0 texts;
  co_texts : Forall2 (λ e t, serialised e.2 t) written texts;
  co_items : Forall (λ g, Forall (λ i, serialised i.1 (m_text i.2.1)) (g_items g)) gs;
  co_order : ∀ tid, of_thread tid accepted = of_thread tid written ++ of_thread tid (waiting gs);
  co_registry : w_registry (rings l) = g_ring <$> gs;
  co_rings : rings_repr (rings l) (g_ring <$> gs) (queue <$> gs);
  co_sizes : Forall (λ g, ∃ ring, w_rings (rings l) !! g_ring g = Some ring ∧ Z.of_nat (S (r_mask ring)) = w_cap (rings l)) gs;
  co_tss : ∀ tid r, w_tss (rings l) !! tid = Some r ↔ ∃ g, g ∈ gs ∧ g_tid g = tid ∧ g_ring g = r;
}.

(** The flags of a logger that works with rings. *)
Record working (l : logger) : Prop := {
  wo_ena : ena l = true;
  wo_active : g_logger_active l = true;
  wo_ready : g_logger_ring_ready l = true;
  wo_enabled : g_logger_ring_enabled l = true;
  wo_inited : retrace_inited l = true;
  wo_disabled : disabled l = ∅;
  wo_cap : (0 < w_cap (rings l) < 2 ^ 32)%Z;
  wo_alloc : ∀ junk, is_Some (ring_alloc true true junk (w_cap (rings l)));
}.

(** A call whose allocations succeed and whose entry can be serialised. *)
Definition sound_call (c : call) : Prop :=
  c_alloc c = mkOutcomes true true true true ∧ c_copy c = true ∧ is_Some (json_serialize_to_string (negb (g_logger_fmt_jsonl o0)) (JSONObject (call_entry c))).

(** The ring of a thread, made at its first call. *)
Lemma get_consistent l acc wr ts gs tid junk :
  working l → consistent l acc wr ts gs →
  ∃ g w' gs1 gs2, retrace_log_ring_get (mkOutcomes true true true true) junk tid (rings l) = (Some (g_ring g), w') ∧
    g_tid g = tid ∧ consistent (set_rings w' l) acc wr ts (gs1 ++ g :: gs2) ∧ working (set_rings w' l).
Proof.
  intros Hw Hc. destruct (w_tss (rings l) !! tid) as [r|] eqn:Et.
  - destruct (proj1 (co_tss _ _ _ _ _ Hc tid r) Et) as (g & Hg & <- & <-). apply list_elem_of_split in Hg as (gs1 & gs2 & ->).
    exists g, (rings l), gs1, gs2. unfold retrace_log_ring_get. rewrite Et. split; [done|]. destruct l. done.
  - destruct (new_ring (rings l) junk tid (queue <$> gs)) as (r & ring & w' & Hg & Hreg & Htss & Hcap & Hr & Hrings & Hm & Hrep);
      [done|rewrite (co_registry _ _ _ _ _ Hc); apply Hc| |apply Hw|apply Hw|].
    { intros r. rewrite (co_registry _ _ _ _ _ Hc). intros (g & -> & Hg)%list_elem_of_fmap.
      destruct (proj1 (Forall_forall _ _) (co_sizes _ _ _ _ _ Hc) g Hg) as (rg & -> & _). by eexists. }
    exists (mkOwned r tid []), w', [], gs. split; [done|]. split; [done|]. rewrite (co_registry _ _ _ _ _ Hc) in Hreg, Hr, Hrep.
    split.
    + destruct Hc. split; cbn [app set_rings rings out fmap list_fmap g_ring]; try done.
      * by constructor.
      * apply Forall_cons. rewrite Hrings, Hcap. cbn. split; [exists ring; by rewrite lookup_insert_eq|].
        apply Forall_forall. intros g Hg'. destruct (proj1 (Forall_forall _ _) co_sizes0 g Hg') as (rg & Hrg & Hsz).
        exists rg. split; [|done]. rewrite lookup_insert_ne; [done|]. intros E. apply Hr. rewrite E. by apply list_elem_of_fmap_2.
      * intros tid' r'. rewrite Htss, lookup_insert. case_decide as Hd.
        -- subst tid'. split; [intros [= <-]; by exists (mkOwned r tid []); rewrite elem_of_cons; auto|].
           intros (g & [->|Hin]%elem_of_cons & H1 & H2); [by rewrite <- H2|].
           rewrite (proj2 (co_tss0 tid r')) in Et by eauto. done.
        -- rewrite co_tss0. split; intros (g & Hin & H1 & H2); exists g.
           ++ rewrite elem_of_cons. auto.
           ++ apply elem_of_cons in Hin as [->|Hin]; [cbn in H1; congruence|auto].
    + destruct Hw. split; cbn; try done; by rewrite Hcap.
Qed.

Lemma waiting_app gs gs' : waiting (gs ++ gs') = waiting gs ++ waiting gs'.
Proof. unfold waiting. apply bind_app. Qed.

Lemma of_thread_labelled tid g : of_thread tid (labelled g) = if decide (g_tid g = tid) then (g_items g).*1 else [].
Proof.
  unfold labelled, of_thread. destruct (decide (g_tid g = tid)) as [E|E].
  - induction (g_items g) as [|i its IH]; [done|]. rewrite fmap_cons, filter_cons_True by done. cbn. by rewrite IH.
  - induction (g_items g) as [|i its IH]; [done|]. by rewrite fmap_cons, filter_cons_False.
Qed.

Lemma of_thread_others tid gs : (∀ g, g ∈ gs → g_tid g ≠ tid) → of_thread tid (waiting gs) = [].
Proof.
  induction gs as [|g gs IH]; intros H; [done|]. change (waiting (g :: gs)) with (labelled g ++ waiting gs).
  rewrite of_thread_app, of_thread_labelled, decide_False by (apply H; set_solver). apply IH. set_solver.
Qed.

(** No other ring has the thread of a ring. *)
Lemma one_ring l acc wr ts gs1 g gs2 g' :
  consistent l acc wr ts (gs1 ++ g :: gs2) → g' ∈ gs1 ++ gs2 → g_tid g' ≠ g_tid g.
Proof.
  intros Hc Hg E. assert (g_ring g' = g_ring g) as Er.
  { assert (Some (g_ring g') = Some (g_ring g)) as [= H]; [|done].
    rewrite <- (proj2 (co_tss _ _ _ _ _ Hc (g_tid g) (g_ring g'))), <- (proj2 (co_tss _ _ _ _ _ Hc (g_tid g) (g_ring g))); [done|..].
    - exists g. split; [set_solver|done].
    - exists g'. split; [set_solver|done]. }
  destruct (co_rings _ _ _ _ _ Hc) as (Hn & _ & _). rewrite fmap_app, fmap_cons in Hn.
  rewrite <- Permutation_middle in Hn. apply NoDup_cons in Hn as [Hn _]. apply Hn. rewrite <- Er, <- fmap_app. by apply list_elem_of_fmap_2.
Qed.

Lemma push_consistent l acc wr ts gs1 g gs2 c text :
  working l → consistent l acc wr ts (gs1 ++ g :: gs2) → serialised (call_entry c) text → c_tid c = g_tid g →
  ∃ ring ret ring' m gs',
    w_rings (rings l) !! g_ring g = Some ring ∧
    retrace_log_ring_push true (Some ring) (w_heap (rings l)) (module_nr (c_module c)) (severity_nr (c_sev c)) (u32 (c_time c)) (Some text)
      = (ret, Some ring', m) ∧
    (let w := mkWorld (<[g_ring g := ring']> (w_rings (rings l))) (w_registry (rings l)) (w_tss (rings l)) m (w_cap (rings l)) in
     consistent (set_rings w l) (if (ret =? 0)%Z then acc ++ [(c_tid c, call_entry c)] else acc) wr ts gs') ∧
    (ret ≠ 0%Z → (w_cap (rings l) - 1 ≤ Z.of_nat (length (of_thread (c_tid c) (waiting (gs1 ++ g :: gs2)))))%Z) ∧
    (∀ tid, length (of_thread tid (waiting gs')) ≤
            length (of_thread tid (waiting (gs1 ++ g :: gs2))) + if decide (c_tid c = tid) then 1 else 0).
Proof.
  intros Hw Hc Hs Ht. destruct (proj1 (Forall_forall _ _) (co_sizes _ _ _ _ _ Hc) g ltac:(set_solver)) as (ring & Hring & Hsz).
  pose proof (co_rings _ _ _ _ _ Hc) as Hrep. rewrite !fmap_app, !fmap_cons in Hrep.
  pose proof (push_rings (rings l) (g_ring <$> gs1) (g_ring g) (g_ring <$> gs2) (queue <$> gs1) (queue g) (queue <$> gs2)
    (module_nr (c_module c)) (severity_nr (c_sev c)) (u32 (c_time c)) text ring ltac:(by rewrite !length_fmap) Hrep Hring) as Hp.
  destruct (retrace_log_ring_push _ _ _ _ _ _ _) as [[ret ring'] m] eqn:Ep. cbn zeta in Hp.
  destruct Hp as ((x & -> & Hm) & Hp). exists ring, ret, x, m.
  assert (∀ tid, of_thread tid (waiting (gs1 ++ g :: gs2)) = of_thread tid (waiting gs1) ++ of_thread tid (labelled g) ++ of_thread tid (waiting gs2)) as Hwait.
  { intros tid. rewrite waiting_app. change (waiting (g :: gs2)) with (labelled g ++ waiting gs2). by rewrite !of_thread_app. }
  assert (∀ gs', g_ring <$> gs' = g_ring <$> gs1 ++ g :: gs2 →
    Forall (λ g0, ∃ ring0, <[g_ring g := x]> (w_rings (rings l)) !! g_ring g0 = Some ring0 ∧ Z.of_nat (S (r_mask ring0)) = w_cap (rings l)) gs') as Hsizes.
  { intros gs' E. apply Forall_forall. intros g1 Hg1. assert (g_ring g1 ∈ g_ring <$> gs1 ++ g :: gs2) as Hin by (rewrite <- E; by apply list_elem_of_fmap_2).
    apply list_elem_of_fmap in Hin as (g0 & -> & Hg0). destruct (proj1 (Forall_forall _ _) (co_sizes _ _ _ _ _ Hc) g0 Hg0) as (r0 & Hr0 & Hs0).
    destruct (decide (g_ring g = g_ring g0)) as [<-|Hne]; [rewrite lookup_insert_eq; exists x; split; [done|lia]|].
    rewrite lookup_insert_ne by done. eauto. }
  assert (of_thread (c_tid c) (waiting gs2) = []) as Hgs2.
  { apply of_thread_others. intros g0 Hg0. rewrite Ht. eapply one_ring; [exact Hc|set_solver]. }
  destruct Hp as [(-> & Hfull & Hr)|(-> & loc & Hr)].
  - exists (gs1 ++ g :: gs2). split; [done|]. split; [done|]. split.
    + destruct Hc. split; try done; cbn; [by rewrite !fmap_app, !fmap_cons|by apply Hsizes].
    + split; [|intros tid; case_decide; lia].
      intros _. rewrite Hwait, !length_app, of_thread_labelled, decide_True by done. rewrite length_fmap.
      unfold queue in Hfull. rewrite length_fmap in Hfull. lia.
  - pose (g' := mkOwned (g_ring g) (g_tid g) (g_items g ++ [(call_entry c, (mkMsg (u32 (c_time c)) (module_nr (c_module c)) (severity_nr (c_sev c)) text, loc))])).
    assert (g_ring <$> gs1 ++ g' :: gs2 = g_ring <$> gs1 ++ g :: gs2) as Hsame by by rewrite !fmap_app.
    assert (∀ tid, of_thread tid (waiting (gs1 ++ g' :: gs2)) =
      of_thread tid (waiting gs1) ++ of_thread tid (labelled g') ++ of_thread tid (waiting gs2)) as Hwait'.
    { intros tid. rewrite waiting_app. change (waiting (g' :: gs2)) with (labelled g' ++ waiting gs2). by rewrite !of_thread_app. }
    exists (gs1 ++ g' :: gs2). split; [done|]. split; [done|]. split; [|split; [done|]].
    2: { intros tid. rewrite Hwait, Hwait', !length_app, !of_thread_labelled. cbn [g' g_tid g_items].
         rewrite Ht. case_decide; [rewrite fmap_app, length_app; cbn|]; lia. }
    destruct Hc as [H1 H2 H3 H4 H5 H6 H7 H8]. split; try done.
    + apply Forall_app in H3 as [H3 H3']. apply Forall_cons in H3' as [H3' H3'']. apply Forall_app. split; [done|]. apply Forall_cons.
      split; [|done]. cbn. apply Forall_app. split; [done|]. by apply Forall_singleton.
    + intros tid. change (0 =? 0)%Z with true. cbv iota. rewrite of_thread_app, H4, Hwait, Hwait'.
      rewrite !of_thread_labelled, of_thread_one. cbn [g_tid g_items g'].
      destruct (decide (c_tid c = tid)) as [<-|Hne].
      * rewrite !decide_True by done. rewrite Hgs2, !app_nil_r, fmap_app. cbn. by rewrite <- !app_assoc.
      * rewrite !decide_False by congruence. cbn. by rewrite app_nil_r.
    + cbn. by rewrite Hsame.
    + cbn. rewrite Hsame, !fmap_app, !fmap_cons. replace (queue g') with (queue g ++ [(mkMsg (u32 (c_time c)) (module_nr (c_module c)) (severity_nr (c_sev c)) text, loc)]); [done|].
      unfold queue. cbn. by rewrite fmap_app.
    + by apply Hsizes.
    + intros tid r. cbn. rewrite H8. split; intros (g0 & Hg0 & E1 & E2).
      * apply elem_of_app in Hg0 as [?|[->|?]%elem_of_cons]; [exists g0; set_solver|exists g'; set_solver|exists g0; set_solver].
      * apply elem_of_app in Hg0 as [?|[->|?]%elem_of_cons]; [exists g0; set_solver|exists g; set_solver|exists g0; set_solver].
Qed.

(** *** The flusher *)

Hypothesis no_patterns : patterns = [].

Lemma emit_all_texts q o :
  emit_all logger_emit_entry q o = (length q, false, foldl emit_text o ((λ i, m_text i.1) <$> q)).
Proof.
  revert o. induction q as [|[x loc] q IH]; intros o; cbn [emit_all]; [done|]. unfold logger_emit_entry at 1. rewrite no_patterns. cbn.
  rewrite IH. done.
Qed.

Definition emptied (g : owned) : owned := mkOwned (g_ring g) (g_tid g) [].

Lemma emptied_waiting gs : waiting (emptied <$> gs) = [].
Proof. by induction gs. Qed.

Lemma texts_of_items gs :
  Forall (λ g, Forall (λ i, serialised i.1 (m_text i.2.1)) (g_items g)) gs →
  Forall2 (λ e t, serialised e.2 t) (waiting gs) ((λ i, m_text i.1) <$> concat (queue <$> gs)).
Proof.
  induction 1 as [|g gs Hg _ IH]; [constructor|]. change (waiting (g :: gs)) with (labelled g ++ waiting gs). cbn. rewrite fmap_app.
  apply Forall2_app; [|done]. unfold labelled, queue. by induction Hg; constructor.
Qed.

Lemma flush_consistent l acc wr ts gs :
  working l → consistent l acc wr ts gs →
  consistent (flush l) acc (wr ++ waiting gs) (ts ++ ((λ i, m_text i.1) <$> concat (queue <$> gs))) (emptied <$> gs) ∧ working (flush l).
Proof.
  intros Hw Hc. pose proof (walk_drain_spec logger_emit_entry _ _ _ (out l) 0 (co_rings _ _ _ _ _ Hc)) as Hd.
  rewrite emit_all_texts in Hd. destruct Hd as (w' & qs' & Hrun & Hrep & Hcat & Hreg & _).
  pose proof (walk_shape logger_emit_entry (g_ring <$> gs) (rings l) (mkAdapter (out l) 0 false)) as Hsh. rewrite Hrun in Hsh.
  destruct Hsh as (Ht & Hcap & _ & Hm). cbn [fst] in *.
  assert (flush l = set_out (foldl emit_text (out l) ((λ i, m_text i.1) <$> concat (queue <$> gs))) (set_rings w' l)) as ->.
  { unfold flush, retrace_log_flusher_drain_all, retrace_log_ring_walk. cbn [fst]. rewrite (co_registry _ _ _ _ _ Hc), Hrun. done. }
  rewrite drop_ge in Hcat by done. assert (qs' = queue <$> (emptied <$> gs)) as Hq.
  { destruct Hrep as (_ & _ & Hf). apply Forall2_length in Hf. rewrite length_fmap in Hf. clear -Hf Hcat.
    revert gs Hf. induction qs' as [|q qs' IH]; intros [|g gs] Hf; try done. cbn in *. apply app_nil in Hcat as [-> Hcat]. f_equal. apply IH; [done|lia]. }
  assert (g_ring <$> (emptied <$> gs) = g_ring <$> gs) as Hg by by rewrite <- list_fmap_compose.
  split.
  - destruct Hc as [H1 H2 H3 H4 H5 H6 H7 H8]. split; cbn.
    + by rewrite H1, foldl_app.
    + apply Forall2_app; [done|]. by apply texts_of_items.
    + apply Forall_fmap, Forall_true. intros g. constructor.
    + intros tid. rewrite of_thread_app, H4. by rewrite emptied_waiting, app_nil_r.
    + by rewrite Hreg, H5, Hg.
    + by rewrite Hg, <- Hq.
    + apply Forall_fmap. eapply Forall_impl; [exact H7|]. intros g (ring & Hring & Hsz). specialize (Hm (g_ring g)). rewrite Hring in Hm. cbn in Hm.
      destruct (w_rings w' !! g_ring g) as [ring'|] eqn:E; [|done]. injection Hm as Hm. exists ring'. cbn. rewrite E, Hm. split; [done|lia].
    + intros tid r. rewrite Ht, H8. split; intros (g & Hin & E1 & E2).
      * exists (emptied g). split; [by apply list_elem_of_fmap_2|done].
      * apply list_elem_of_fmap in Hin as (g0 & -> & Hin). by exists g0.
  - destruct Hw. split; cbn; try done; by rewrite Hcap.
Qed.

Lemma emit_any ts o : any_output (foldl emit_text o ts) = any_output o.
Proof. revert o. induction ts as [|t ts IH]; intros o; cbn; [done|]. rewrite IH. unfold any_output. cbn. by destruct (logfile o). Qed.

Hypothesis outputs : any_output o0 = true.

Definition sound_event (e : event) : Prop := match e with Log c => is_Some (logged_by e) → sound_call c | Flush => True end.

Lemma ring_get_cap outcomes junk tid w r w' : retrace_log_ring_get outcomes junk tid w = (r, w') → w_cap w' = w_cap w.
Proof. unfold retrace_log_ring_get, registry_add. repeat case_match; intros E; by simplify_eq/=. Qed.

(** No more entries of a thread wait than [n] says. *)
Definition pending (n : nat → nat) (gs : list owned) : Prop := ∀ tid, length (of_thread tid (waiting gs)) ≤ n tid.

(** The count of the entries since the last round, after an event. *)
Definition count_event (n : nat → nat) (e : event) : nat → nat :=
  match e, logged_by e with
  | Flush, _ => λ _, 0
  | Log _, None => n
  | Log _, Some (tid, _) => <[tid := S (n tid)]> n
  end.

(** What a step adds to the accepted entries. *)
Lemma step_consistent l acc wr ts gs n e :
  working l → consistent l acc wr ts gs → pending n gs → sound_event e →
  ∃ new wr' ts' gs', working (step l e) ∧ consistent (step l e) (acc ++ new) wr' ts' gs' ∧
    new `sublist_of` option_list (logged_by e) ∧
    (paced (w_cap (rings l)) n [e] = true → new = option_list (logged_by e)) ∧ pending (count_event n e) gs' ∧
    w_cap (rings (step l e)) = w_cap (rings l) ∧
    (g_flusher_spawned l = true ∨ new ≠ [] → g_flusher_spawned (step l e) = true).
Proof.
  intros Hw Hc Hn He. destruct e as [c|]; cbn [step].
  2: { destruct (flush_consistent l acc wr ts gs Hw Hc) as [H1 H2]. exists []. rewrite app_nil_r. eexists _, _, _. split; [done|]. split; [exact H1|].
       split; [done|]. split; [done|].
       split; [intros tid; rewrite emptied_waiting; cbn; lia|]. unfold flush. destruct (retrace_log_flusher_drain_all _ _ _) as [[k w] o] eqn:E. cbn. split; [|naive_solver].
       pose proof (walk_shape logger_emit_entry (w_registry (rings l)) (rings l) (mkAdapter (out l) 0 false)) as (_ & Hcap & _).
       unfold retrace_log_flusher_drain_all, retrace_log_ring_walk in E. cbn [fst] in E. destruct (walk _ _ _) as [w1 a]. injection E as _ <- _. exact Hcap. }
  unfold retrace_logger_log_json.
  assert (wanted (c_tid c) (c_module c) (c_sev c) l = modules_ena (c_module c) && severities_ena (c_sev c)) as ->.
  { unfold wanted. destruct Hw as [-> -> _ _ _ -> _ _]. rewrite bool_decide_false by set_solver. rewrite (co_out _ _ _ _ _ Hc), emit_any, outputs. done. }
  unfold count_event. cbn [sound_event logged_by paced] in *. destruct (modules_ena _ && severities_ena _) eqn:Een; cbn [negb].
  2: { exists [], wr, ts, gs. rewrite app_nil_r. split_and!; try done. naive_solver. }
  destruct He as (Ha & Hcp & text & Htext); [done|]. rewrite (co_out _ _ _ _ _ Hc), emit_jsonl, Htext. rewrite (wo_ready _ Hw), (wo_enabled _ Hw), (wo_inited _ Hw). cbn [andb].
  assert (working (ensure_flusher_running l)) as Hw1 by by destruct Hw.
  assert (consistent (ensure_flusher_running l) acc wr ts gs) as Hc1 by by destruct Hc.
  destruct (get_consistent _ _ _ _ _ (c_tid c) (c_junk c) Hw1 Hc1) as (g & w' & gs1 & gs2 & Hget & Hg & Hc2 & Hw2).
  destruct (push_consistent _ _ _ _ _ _ _ c text Hw2 Hc2 Htext ltac:(done)) as (ring & ret & ring' & m & gs' & Hring & Hpush & Hc3 & Hfull & Hgrow).
  assert (∀ tid, length (of_thread tid (waiting (gs1 ++ g :: gs2))) ≤ n tid) as Hn2.
  { intros tid. specialize (Hn tid). pose proof (co_order _ _ _ _ _ Hc tid) as E. rewrite (co_order _ _ _ _ _ Hc2 tid) in E.
    apply (inj (app _)) in E. by rewrite E. }
  unfold push_text. rewrite Ha, Hget, Hcp. cbn [rings set_rings] in *. rewrite Hring, Hpush. cbn [snd].
  exists (if (ret =? 0)%Z then [(c_tid c, call_entry c)] else []), wr, ts, gs'. split_and!.
  - destruct Hw2. split; done.
  - destruct (ret =? 0)%Z; [exact Hc3|]. rewrite app_nil_r. exact Hc3.
  - destruct (ret =? 0)%Z; cbn; [done|]. by constructor.
  - rewrite andb_true_r. intros Hlen%Z.ltb_lt. destruct (Z.eqb_spec ret 0) as [|Hne]; [done|]. specialize (Hfull Hne). exfalso.
    specialize (Hn2 (c_tid c)). apply ring_get_cap in Hget. cbn in Hget. lia.
  - intros tid. specialize (Hgrow tid). specialize (Hn2 tid). destruct (decide (c_tid c = tid)) as [<-|Hne].
    + rewrite fn_lookup_insert. lia.
    + rewrite fn_lookup_insert_ne by done. lia.
  - by apply ring_get_cap in Hget.
  - done.
Qed.

Lemma paced_cons cap n e evs : paced cap n (e :: evs) = paced cap n [e] && paced cap (count_event n e) evs.
Proof. unfold count_event. cbn [paced]. destruct e as [c|]; [|done]. destruct (logged_by _) as [[tid o]|]; [by rewrite andb_true_r|done]. Qed.

Lemma run_consistent evs l acc wr ts gs n :
  working l → consistent l acc wr ts gs → pending n gs → Forall sound_event evs →
  ∃ new wr' ts' gs', working (run l evs) ∧ consistent (run l evs) (acc ++ new) wr' ts' gs' ∧
    new `sublist_of` logged evs ∧
    (paced (w_cap (rings l)) n evs = true → new = logged evs) ∧
    (g_flusher_spawned l = true ∨ new ≠ [] → g_flusher_spawned (run l evs) = true).
Proof.
  intros Hw Hc Hn Hs. revert l acc wr ts gs n Hw Hc Hn. induction Hs as [|e evs He _ IH]; intros l acc wr ts gs n Hw Hc Hn.
  { exists [], wr, ts, gs. rewrite app_nil_r. split_and!; try done. naive_solver. }
  destruct (step_consistent l acc wr ts gs n e Hw Hc Hn He) as (n1 & wr1 & ts1 & gs1 & Hw1 & Hc1 & Hsub & Hall & Hn1 & Hcap & Hsp).
  destruct (IH _ _ _ _ _ _ Hw1 Hc1 Hn1) as (n2 & wr2 & ts2 & gs2 & Hw2 & Hc2 & Hsub2 & Hall2 & Hsp2).
  assert (logged (e :: evs) = option_list (logged_by e) ++ logged evs) as Hlog by (unfold logged; cbn; by destruct (logged_by e)).
  exists (n1 ++ n2), wr2, ts2, gs2. rewrite app_assoc. split_and!; [done..| | |].
  - rewrite Hlog. by apply sublist_app.
  - rewrite Hlog, paced_cons. intros [He1 He2]%andb_true_iff. rewrite Hall, Hall2; [done|by rewrite Hcap|done].
  - intros H. change (run l (e :: evs)) with (run (step l e) evs). apply Hsp2. destruct n2; [left|by right]. apply Hsp.
    destruct H as [H|H]; [by left|right]. by rewrite app_nil_r in H.
Qed.

Lemma empty_by_thread es : (∀ tid, of_thread tid es = []) → es = [].
Proof.
  intros H. destruct es as [|[t e] es]; [done|]. specialize (H t). change ((t, e) :: es) with ([(t, e)] ++ es) in H.
  rewrite of_thread_app, of_thread_one, decide_True in H by done. done.
Qed.

(** At the end everything that was accepted is written. *)
Lemma deinit_out l acc wr ts gs :
  working l → consistent l acc wr ts gs → (acc ≠ [] → g_flusher_spawned l = true) →
  ∃ written texts, Forall2 (λ e t, serialised e.2 t) written texts ∧ (∀ tid, of_thread tid written = of_thread tid acc) ∧
    out (retrace_logger_deinit l) =
      if negb (g_logger_fmt_jsonl o0) then put ["]"%char; NL] (foldl emit_text o0 texts) else foldl emit_text o0 texts.
Proof.
  intros Hw Hc Hsp.
  assert (∃ written texts, Forall2 (λ e t, serialised e.2 t) written texts ∧ (∀ tid, of_thread tid written = of_thread tid acc) ∧
    (if g_flusher_spawned l then out (flush l) else out l) = foldl emit_text o0 texts) as (written & texts & H1 & H2 & H3).
  { destruct (flush_consistent l acc wr ts gs Hw Hc) as [[E1 E2 _ E4 _ _ _ _] _].
    assert (∀ tid, of_thread tid acc = of_thread tid (wr ++ waiting gs)) as Eo.
    { intros tid. by rewrite E4, emptied_waiting, app_nil_r. }
    destruct (g_flusher_spawned l); [by eexists _, _|]. destruct acc as [|a acc]; [|by discriminate Hsp].
    assert (wr ++ waiting gs = []) as [-> _]%app_nil by (apply empty_by_thread; intros tid; by rewrite <- Eo).
    pose proof (co_texts _ _ _ _ _ Hc) as Ht. apply Forall2_nil_inv_l in Ht as ->. exists [], []. split_and!; [constructor|done|apply Hc]. }
  exists written, texts. split_and!; [done..|]. unfold retrace_logger_deinit. rewrite (wo_ready _ Hw).
  cbn [g_flusher_spawned andb]. assert (∀ l', out (set_rings (retrace_log_ring_deinit (rings l')).1 l') = out l') as Hd by done.
  set (l1 := mkLogger _ _ _ _ _ _ _ _ _). assert (out (if g_flusher_spawned l then flush l1 else l1) = foldl emit_text o0 texts) as Ho.
  { rewrite <- H3. destruct (g_flusher_spawned l); [|done]. unfold flush. cbn. by destruct (retrace_log_flusher_drain_all _ _ _) as [[? ?] ?]. }
  assert (ena (if g_flusher_spawned l then flush l1 else l1) = true) as He.
  { destruct (g_flusher_spawned l); [|apply Hw]. unfold flush. cbn. destruct (retrace_log_flusher_drain_all _ _ _) as [[? ?] ?]. apply Hw. }
  set (l2 := if g_flusher_spawned l then flush l1 else l1) in *. rewrite Hd, Ho, emit_jsonl, emit_any, outputs.
  cbn [ena set_rings]. rewrite He, !andb_true_r. by destruct (negb _).
Qed.

Lemma emit_file ts o f :
  logfile o = Some f → logfile (foldl emit_text o ts) = Some (f ++ lines (g_logger_fmt_jsonl o) (g_first_json o) ts).
Proof.
  revert o f. induction ts as [|t ts IH]; intros o f Hf; cbn [foldl lines]; [by rewrite app_nil_r|].
  rewrite (IH _ (f ++ logger_write_entry_line o t)); [|cbn; by rewrite Hf]. cbn. by rewrite <- app_assoc.
Qed.

End document.

(** ** The document of a run *)

(** A call gets its memory, and if it makes an entry the tools can read it back. *)
Definition good_event (e : event) : Prop :=
  match e with
  | Log c => c_alloc c = mkOutcomes true true true true ∧ c_copy c = true ∧ (is_Some (logged_by e) → readable (call_entry c))
  | Flush => True
  end.

Lemma good_sound o0 e : good_event e → sound_event o0 e.
Proof.
  destruct e as [c|]; [|done]. intros (H1 & H2 & H3) H. destruct (H3 H) as [H4 _]. split_and!; [done..|].
  destruct (written_back (negb (g_logger_fmt_jsonl o0)) _ H4) as (text & Ht & _). by eexists.
Qed.

Lemma ring_cap_ok env junk :
  let v := ring_configured_cap env in (0 < v < 2 ^ 32)%Z ∧ is_Some (ring_alloc true true junk v).
Proof.
  destruct (ring_capacity junk 1 env) as (_ & _ & [H1 H2] & H3); [lia|]. cbn zeta. split; [|done].
  unfold LOG_RING_CAP_MIN, LOG_RING_CAP_MAX in *. lia.
Qed.

Lemma of_thread_elem tid o es : o ∈ of_thread tid es ↔ (tid, o) ∈ es.
Proof.
  unfold of_thread. rewrite list_elem_of_fmap. split.
  - intros ([t x] & -> & [E H]%list_elem_of_filter). cbn in E. by subst.
  - intros H. exists (tid, o). by rewrite list_elem_of_filter.
Qed.

Lemma init_working getenv fopen sinks file :
  env_flag (getenv ENVAR_LOGGER_DEF_ENA) = true → getenv ENVAR_LOGGER_DEF_FN = Some file → fopen file = Some [] →
  (∀ v, getenv "RETRACE_LOGGER_RING" = Some v → deref v ≠ "0"%char) →
  let l := set_inited (retrace_logger_init getenv fopen true sinks) in
  working l ∧ consistent (out l) l [] [] [] [] ∧ any_output (out l) = true ∧ g_first_json (out l) = false ∧
  logfile (out l) = Some (opening (g_logger_fmt_jsonl (out l))).
Proof.
  intros He Hf Ho Hr. cbn zeta. unfold retrace_logger_init. rewrite He, Hf. cbn [mbind option_bind]. rewrite Ho.
  set (jsonl := match getenv ENVAR_LOGGER_FMT with Some v => _ | None => _ end).
  set (o := mkOut _ _ _ _ _ _ _). assert (any_output o = true) as Ha by (unfold any_output; cbn; by rewrite orb_true_r).
  assert (match getenv "RETRACE_LOGGER_RING" with Some v => negb (ceq (deref v) "0") | None => true end = true) as ->.
  { destruct (getenv "RETRACE_LOGGER_RING") as [v|]; [|done]. specialize (Hr v eq_refl). apply ceq_false in Hr. by rewrite Hr. }
  rewrite Ha. cbn [andb]. split_and!.
  - split; cbn; try done; [|intros junk]; apply ring_cap_ok. exact (mkEntry 0 0 0 0 None).
  - split; cbn; try done. + split_and!; [apply NoDup_nil_2|apply NoDup_nil_2|constructor].
    + intros tid r. rewrite lookup_empty. split; [done|]. by intros (g & ?%not_elem_of_nil & _).
  - cbn. by destruct jsonl.
  - cbn. by destruct jsonl.
  - cbn. by destruct jsonl.
Qed.

(** What the scanner finds in the file that a run leaves. *)
Lemma document_scanned getenv fopen sinks file evs :
  patterns = [] → env_flag (getenv ENVAR_LOGGER_DEF_ENA) = true →
  getenv ENVAR_LOGGER_DEF_FN = Some file → fopen file = Some [] →
  (∀ v, getenv "RETRACE_LOGGER_RING" = Some v → deref v ≠ "0"%char) → Forall good_event evs →
  let l := set_inited (retrace_logger_init getenv fopen true sinks) in
  ∃ accepted written text,
    accepted `sublist_of` logged evs ∧
    (paced (w_cap (rings l)) (λ _, 0) evs = true → accepted = logged evs) ∧
    (∀ tid, of_thread tid written = of_thread tid accepted) ∧
    logfile (out (retrace_logger_deinit (run l evs))) = Some text ∧
    TraceStream.corr_stream_scan text = (map JSONObject written.*2, 0) ∧ Forall readable written.*2.
Proof.
  intros Hp He Hf Ho Hr Hg l. destruct (init_working getenv fopen sinks file He Hf Ho Hr) as (Hw & Hc & Ha & Hfirst & Hfile). fold l in Hw, Hc, Ha, Hfirst, Hfile. clearbody l.
  destruct (run_consistent (out l) Hp Ha evs l [] [] [] [] (λ _, 0) Hw Hc ltac:(by intros tid)) as (accepted & wr & ts & gs & Hw' & Hc' & Hsub & Hall & Hsp).
  { eapply Forall_impl; [exact Hg|]. intros e. apply good_sound. }
  destruct (deinit_out (out l) Hp Ha _ _ _ _ _ Hw' Hc') as (written & texts & Htexts & Hord & Hout); [naive_solver|].
  set (jsonl := g_logger_fmt_jsonl (out l)) in *.
  assert (Forall readable written.*2) as Hread.
  { apply Forall_forall. intros o ([tid x] & -> & Hx)%list_elem_of_fmap. apply of_thread_elem in Hx. rewrite Hord in Hx. apply of_thread_elem in Hx.
    eapply elem_of_sublist in Hx; [|exact Hsub].
    apply list_elem_of_omap in Hx as (e & He' & Hlb). destruct e as [c|]; [|done].
    destruct (proj1 (Forall_forall _ _) Hg (Log c) He') as (_ & _ & Hrd). unfold logged_by in Hlb, Hrd.
    destruct (modules_ena _ && _); [|done]. injection Hlb as <- <-. by apply Hrd. }
  exists accepted, written, (opening jsonl ++ lines jsonl false texts ++ closing jsonl). split_and!; [done|exact Hall|done| | |done].
  - rewrite Hout. pose proof (emit_file texts (out l) _ Hfile) as Hlf. fold jsonl in Hlf. rewrite Hfirst in Hlf.
    destruct jsonl; cbn [negb]; [rewrite Hlf; by rewrite app_nil_r|]. cbn. rewrite Hlf. cbn. by rewrite <- ?app_assoc.
  - destruct (write_document jsonl written.*2 texts) as (log & tail & Hwl & Hlog & Hsep & Htail).
    { apply Forall2_fmap_l. exact Htexts. }
    set (text := opening jsonl ++ _) in *. assert (Forall TraceStream.entry_ok log) as Hok.
    { apply Forall_forall. intros [sep o] Hin. split; [by apply (proj1 (Forall_forall _ _) Hsep _ Hin)|].
      apply (proj1 (Forall_forall _ _) Hread). rewrite <- Hlog. by apply (list_elem_of_fmap_2 snd _ (sep, o)). }
    destruct (TraceStream.log_scanned (negb jsonl) text [] log tail text (TraceStream.mkScan 0 0 false false [] 0) Hok Htail Hwl eq_refl eq_refl) as [H1 H2].
    unfold TraceStream.corr_stream_scan. cbn [length] in H1, H2. rewrite H1, H2. cbn [TraceStream.sc_found TraceStream.sc_skipped app].
    unfold TraceStream.entries. rewrite <- Hlog. f_equal. clear. induction log as [|e log IH]; cbn; [done|]. by f_equal.
Qed.

(** C14 (safety). Whatever threads log and whenever the flusher runs, the file that
    a run leaves is one document: the scanner of the tools reads from it, with
    nothing skipped, exactly the entries that the rings accepted, each once, and
    those of a thread in the order in which it logged them. The rings accept
    entries that the calls made, and all of them as long as there are fewer than a
    ring has places. This is so in both formats, without patterns of redaction. *)
Theorem logger_document getenv fopen sinks file evs :
  patterns = [] → env_flag (getenv ENVAR_LOGGER_DEF_ENA) = true →
  getenv ENVAR_LOGGER_DEF_FN = Some file → fopen file = Some [] →
  (∀ v, getenv "RETRACE_LOGGER_RING" = Some v → deref v ≠ "0"%char) → Forall good_event evs →
  let l := set_inited (retrace_logger_init getenv fopen true sinks) in
  ∃ accepted written text,
    accepted `sublist_of` logged evs ∧
    ((Z.of_nat (length (logged evs)) < w_cap (rings l))%Z → accepted = logged evs) ∧
    (∀ tid, of_thread tid written = of_thread tid accepted) ∧
    logfile (out (retrace_logger_deinit (run l evs))) = Some text ∧
    TraceStream.trace_load text = (JSONArray (map JSONObject written.*2), 0).
Proof.
  intros Hp He Hf Ho Hr Hg l.
  destruct (document_scanned getenv fopen sinks file evs Hp He Hf Ho Hr Hg) as (acc & wr & text & H1 & H2 & H3 & H4 & H5 & H6).
  exists acc, wr, text. split_and!; try done; [intros Hfew; by apply H2, paced_few|]. unfold TraceStream.trace_load. rewrite H5, TraceStream.collect_all; [done|].
  apply Forall_map. eapply Forall_impl; [exact H6|]. intros o [Ho' _]. by apply ok_shape.
Qed.

End logger.

(** ** Where the logger differs from its comments *)

(** Without the rings entries are written as they are: neither the patterns nor
    the sinks see them. *)
Lemma sync_not_redacted {DT : DoubleText} pid c l text :
  g_logger_ring_ready l = false → wanted (c_tid c) (c_module c) (c_sev c) l = true →
  json_serialize_to_string (negb (g_logger_fmt_jsonl (out l))) (JSONObject (call_entry pid c)) = Some text →
  let o := out (retrace_logger_log_json pid c l) in
  (∀ f, logfile (out l) = Some f → logfile o = Some (f ++ logger_write_entry_line (out l) text)) ∧ delivered o = delivered (out l).
Proof.
  intros Hr Hw Ht. cbn zeta. unfold retrace_logger_log_json. rewrite Hw, Ht, Hr. cbn [negb andb].
  assert (any_output (out l) = true) as -> by (unfold wanted in Hw; by bool_to_prop). split; [|done]. intros f Hf. cbn. by rewrite Hf.
Qed.

(** ** Two threads *)

#[local] Existing Instance whole_numbers.

Definition demo_call (tid : nat) (func : string) : call :=
  mkCall tid 5 ACTIONS SEVERITY_INFO (JSONObject [(lit "func", JSONString (lit func))]) (mkOutcomes true true true true) true
    (mkEntry 0 0 0 0 None).
Definition demo_env (v : string) : option bytes := if bool_decide (v = ENVAR_LOGGER_DEF_FN) then Some (lit "t.json") else None.
Definition demo_events : list event := [Log (demo_call 1 "open"); Log (demo_call 2 "read"); Flush; Log (demo_call 1 "close")].

Lemma demo_numbers :
  number_ok (d_of_int 7) ∧ number_ok (d_of_int 5) ∧ number_ok (d_of_int 1) ∧ number_ok (d_of_int 2) ∧ number_ok (d_of_int 6).
Proof.
  split_and!; (split; [|reflexivity]).
  - by exists [] "7"%char [] [] []; try (by left); repeat constructor.
  - by exists [] "5"%char [] [] []; try (by left); repeat constructor.
  - by exists [] "1"%char [] [] []; try (by left); repeat constructor.
  - by exists [] "2"%char [] [] []; try (by left); repeat constructor.
  - by exists [] "6"%char [] [] []; try (by left); repeat constructor.
Qed.

Lemma demo_good : Forall (good_event 7) demo_events.
Proof.
  destruct demo_numbers as (H7 & H5 & H1 & H2 & _).
  assert (∀ s, no_nul (lit s) → json_ok (JSONObject [(lit "func", JSONString (lit s))])) as Hm.
  { intros s Hs. apply ok_object. split_and!; [apply NoDup_singleton|by repeat constructor|by repeat constructor]. }
  assert (∀ tid f, number_ok (d_of_int (Z.of_nat tid)) → no_nul (lit f) → good_event 7 (Log (demo_call tid f))) as Hg.
  { intros tid f Ht Hf. split; [reflexivity|]. split; [reflexivity|]. intros _.
    change (readable (entry_object 5 7 tid ACTIONS SEVERITY_INFO (JSONObject [(lit "func", JSONString (lit f))]))).
    apply entry_readable; [exact H5|exact H7|exact Ht|by apply Hm|].
    apply Nat.leb_le. vm_compute. reflexivity. }
  constructor; [apply Hg; [exact H1|by repeat constructor]|]. constructor; [apply Hg; [exact H2|by repeat constructor]|].
  constructor; [exact I|]. constructor; [apply Hg; [exact H1|by repeat constructor]|]. constructor.
Qed.

Lemma logger_document_witness :
  let l := set_inited (retrace_logger_init demo_env (λ _, Some []) true []) in
  ∃ accepted written text,
    accepted `sublist_of` logged 7 demo_events ∧
    ((Z.of_nat (length (logged 7 demo_events)) < w_cap (rings l))%Z → accepted = logged 7 demo_events) ∧
    (∀ tid, of_thread tid written = of_thread tid accepted) ∧
    logfile (out (retrace_logger_deinit [] (run [] 7 l demo_events))) = Some text ∧
    TraceStream.trace_load text = (JSONArray (map JSONObject written.*2), 0).
Proof.
  apply (logger_document [] 7 demo_env (λ _, Some []) [] (lit "t.json") demo_events).
  - reflexivity.
  - reflexivity.
  - reflexivity.
  - reflexivity.
  - intros v H. discriminate H.
  - exact demo_good.
Defined.

End Logger.
