(* ===== verification/LogParams.v ===== *)
(** * Logging the parameters of a call

    [ia_log_params] of [src/core/actions/basic.c]: a message with the name of
    the function, every parameter printed by its data type, and what its pointers
    lead to. The memory of the process is a function from addresses to the bytes
    that can be read there; allocations succeed. *)

From S2P Require Import Prelude Libc Stdio Numerals Context Json JsonText JsonRoundTrip JsonObject PrintfFormat Registry DataTypes Logger ProtoLibc ProtoSystem ProtoNet.

Module LogParams.

Import Stdio Context Json JsonText JsonObject DataTypes Logger.

Definition ARR_MAX_COUNT : nat := 64.

(** A message for the logger. *)
Abbreviation record := (Modules * Severity * JSON_Value)%type.

Definition log_err (text : bytes) : record := (FUNCS, SEVERITY_ERROR, text_message text).
Definition log_info (text : bytes) : record := (FUNCS, SEVERITY_INFO, text_message text).
Definition log_dbg (text : bytes) : record := (FUNCS, SEVERITY_DEBUG, text_message text).

Definition quoted (before : string) (name : bytes) (after : string) : bytes := lit before ++ name ++ lit after.

(** The loop over [omit_params]: an element that is no string is compared through
    NULL. *)
Fixpoint omitted (omit_params : JSON_Array) (name : bytes) : option bool :=
  match omit_params with
  | [] => Some false
  | v :: omit_params =>
      match json_value_get_string (Some v) with
      | None => None
      | Some s => if streq name s then Some true else omitted omit_params name
      end
  end.

Section log_params.
Context {DT : DoubleText} (big_endian char_signed : bool) (types : datatypes) (mem : Z → bytes).

Definition type_named (s : bytes) : option DataType := retrace_datatype_get char_signed types s.

(** [param->data_type], as the lanes set it up: a variable argument of a type
    that is not supported has the unknown one. *)
Definition data_type (p : FuncParam) : option DataType :=
  let s := pm_type_name (param_meta p) in
  if streq s (lit "unknown_type") then Some unk_dt else type_named s.

Definition value_of (p : FuncParam) (t : DataType) : bytes := retrace_datatype_val_addr big_endian (slot big_endian (val p)) t.

(** The number of elements behind a pointer: [inr] is the message of an error
    that ends the loop, [None] undefined. *)
Definition element_count (t_ctx : ThreadContext) (p : FuncParam) : option (Z + bytes) :=
  if has_mod (pm_modifiers (param_meta p)) CDM_ARRAY then
    match retrace_action_find_param t_ctx (pm_array_cnt_param (param_meta p)) ≫= λ i, params t_ctx !! i with
    | None => Some (inr (quoted "wrong array_cnt_param for param '" (pm_name (param_meta p)) "'"))
    | Some cnt =>
        t ← data_type cnt;
        r ← to_size_t t (value_of cnt t);
        match r with
        | None => Some (inr (quoted "to_size_t() failed for " (pm_name (param_meta cnt)) ", error -1"))
        | Some n => Some (inl n)
        end
    end
  else Some (inl 1%Z).

Definition set_text (root : JSON_Object) (name s : bytes) : JSON_Object := default root (json_object_set_string root name s).

(** The members for what the pointer leads to. *)
Definition set_pointee (root : JSON_Object) (m : ParamMeta) (arr : JSON_Array) : JSON_Object :=
  let root := default root (json_object_set_value root (snprintf (MAXLEN_PARAM_NAME + 2) ("*"%char :: pm_name m)) (Some (JSONArray arr))) in
  if streq (pm_ref_type_name m) (lit "ntoa") then
    match json_array_get_string (Some arr) 0 with
    | Some decoded => set_text root (pm_name m) decoded
    | None => root
    end
  else root.

(** What the loop does after a parameter. *)
Inductive next := Next | Break.

(** One parameter that is not omitted. *)
Definition log_param (t_ctx : ThreadContext) (p : FuncParam) (root : JSON_Object) : option (next * JSON_Object * list record) :=
  let m := param_meta p in
  t ← data_type p;
  s ← printed t (value_of p t);
  let root := set_text root (pm_name m) s in
  if has_mod (pm_modifiers m) CDM_POINTER then
    if (val p =? 0)%Z then Some (Next, root, [log_dbg (quoted "NULL pointer for param '" (pm_name m) "' -- skip deref")])
    else
      match type_named (pm_ref_type_name m) with
      | None =>
          Some (Next, root, [log_dbg (quoted "no deref type for param '" (pm_name m) "' (" ++ pm_ref_type_name m ++ lit ") -- skip deref")])
      | Some rt =>
          count ← element_count t_ctx p;
          match count with
          | inr message => Some (Break, root, [log_err message])
          | inl n =>
              texts ← array_texts (Z.to_nat (Z.min n (Z.of_nat ARR_MAX_COUNT))) rt (mem (val p)) [];
              let '(arr, complete) := texts in
              Some (Next, set_pointee root m arr,
                if complete : bool then [] else [log_err (quoted "get_size() failed for type " (name rt) ", error -1")])
          end
      end
  else Some (Next, root, []).

Fixpoint log_params_loop (t_ctx : ThreadContext) (omit_params : option JSON_Array) (ps : list FuncParam) (root : JSON_Object)
    (log : list record) : option (JSON_Object * list record) :=
  match ps with
  | [] => Some (root, log)
  | p :: ps =>
      skip ← (match omit_params with Some l => omitted l (pm_name (param_meta p)) | None => Some false end);
      if skip : bool then
        log_params_loop t_ctx omit_params ps root (log ++ [log_info (quoted "omitting param '" (pm_name (param_meta p)) "'")])
      else
        step ← log_param t_ctx p root;
        match step with
        | (Break, root, new) => Some (root, log ++ new)
        | (Next, root, new) => log_params_loop t_ctx omit_params ps root (log ++ new)
        end
  end.

(** The result and what it logs; [None] where it is undefined. The name of the
    prototype is read before the prototype is tested. *)
Definition ia_log_params (t_ctx : ThreadContext) (action_params : option JSON_Object) : option (Z * list record) :=
  p ← prototype t_ctx;
  let root := set_text [] (lit "func") (fp_name p) in
  let omit_params := match action_params with Some o => json_object_get_array (Some o) "omit_params" | None => None end in
  r ← log_params_loop t_ctx omit_params (params t_ctx) root [];
  let '(root, log) := r in Some (0%Z, log ++ [(ACTIONS, SEVERITY_INFO, JSONObject root)]).

(** ** What the message says *)

(** The texts of [n] objects one after the other, if their sizes are known. *)
Fixpoint elements (n : nat) (t : DataType) (data : bytes) : option (list bytes) :=
  match n with
  | O => Some []
  | S n =>
      s ← printed t data;
      size ← get_size t data;
      match size with
      | None => None
      | Some k => rest ← elements n t (drop k data); Some (s :: rest)
      end
  end.

Definition valid_strings (l : list bytes) : JSON_Array := JSONString <$> filter (λ s, is_valid_utf8 s = true) l.

Definition valid_string (s : bytes) : JSON_Array := if is_valid_utf8 s then [JSONString s] else [].

Lemma valid_strings_cons s l : valid_strings (s :: l) = valid_string s ++ valid_strings l.
Proof.
  unfold valid_strings, valid_string. destruct (is_valid_utf8 s) eqn:E; [by rewrite filter_cons_True|].
  rewrite filter_cons_False; [done|]. by rewrite E.
Qed.

Lemma append_valid arr s : default arr (json_array_append_string arr s) = arr ++ valid_string s.
Proof.
  unfold json_array_append_string, json_value_init_string, valid_string. destruct (is_valid_utf8 s); [done|]. by rewrite app_nil_r.
Qed.

Lemma array_elements n t data arr l :
  elements n t data = Some l → array_texts n t data arr = Some (arr ++ valid_strings l, true).
Proof.
  revert data arr l. induction n as [|n IH]; intros data arr l; cbn [array_texts elements]; [intros [= <-]; by rewrite app_nil_r|].
  destruct (printed t data) as [s|]; [|done]. cbn [mbind option_bind]. rewrite append_valid.
  destruct (get_size t data) as [[k|]|]; cbn [mbind option_bind]; [|done..].
  destruct (elements n t (drop k data)) as [rest|] eqn:E; [|done]. intros [= <-]. rewrite (IH _ _ _ E). by rewrite valid_strings_cons, <- app_assoc.
Qed.

(** How a parameter is printed: its value, and the objects behind a pointer that
    is followed. *)
Record shown := mkShown { sh_text : bytes; sh_pointee : option (list bytes) }.

Definition describes (t_ctx : ThreadContext) (p : FuncParam) (d : shown) : Prop :=
  let m := param_meta p in
  (∃ t, data_type p = Some t ∧ printed t (value_of p t) = Some (sh_text d)) ∧
  match sh_pointee d with
  | None => has_mod (pm_modifiers m) CDM_POINTER = false ∨ val p = 0%Z ∨ type_named (pm_ref_type_name m) = None
  | Some l =>
      has_mod (pm_modifiers m) CDM_POINTER = true ∧ val p ≠ 0%Z ∧ pm_ref_type_name m ≠ lit "ntoa" ∧
      ∃ rt n, type_named (pm_ref_type_name m) = Some rt ∧ element_count t_ctx p = Some (inl n) ∧
              elements (Z.to_nat (Z.min n (Z.of_nat ARR_MAX_COUNT))) rt (mem (val p)) = Some l
  end.

Definition starred (name : bytes) : bytes := "*"%char :: name.

(** The members of the message for a parameter. *)
Definition members (p : FuncParam) (d : shown) : JSON_Object :=
  let name := pm_name (param_meta p) in
  (if is_valid_utf8 (sh_text d) then [(name, JSONString (sh_text d))] else []) ++
  match sh_pointee d with Some l => [(starred name, JSONArray (valid_strings l))] | None => [] end.

Definition param_names (ps : list FuncParam) : list bytes := (λ p, pm_name (param_meta p)) <$> ps.

(** Names that fit, and of which none is that of a value behind a pointer. *)
Definition plain_names (l : list bytes) : Prop := Forall (λ n, length n ≤ MAXLEN_PARAM_NAME ∧ deref n ≠ "*"%char) l.

Lemma set_absent root name v : name ∉ names root → json_object_set_value root name (Some v) = Some (root ++ [(name, v)]).
Proof. intros H. unfold json_object_set_value, object_add. by rewrite (proj2 (nget_absent root name) H). Qed.

Lemma set_text_absent root name s :
  name ∉ names root → set_text root name s = root ++ (if is_valid_utf8 s then [(name, JSONString s)] else []).
Proof.
  intros H. unfold set_text, json_object_set_string, json_value_init_string. destruct (is_valid_utf8 s); cbn [negb]; [|by rewrite app_nil_r].
  by rewrite set_absent.
Qed.

Lemma members_names p d n : n ∈ names (members p d) → n = pm_name (param_meta p) ∨ n = starred (pm_name (param_meta p)).
Proof. unfold members, names. rewrite map_app, elem_of_app. destruct (is_valid_utf8 _), (sh_pointee d); cbn; set_solver. Qed.

(** What is logged if the level for debugging is off. *)
Definition visible (log : list record) : list record := List.filter (λ r, severities_ena r.1.2) log.

Lemma visible_app a b : visible (a ++ b) = visible a ++ visible b.
Proof. apply List.filter_app. Qed.

(** A parameter that can be described adds its members. *)
Lemma log_param_shown t_ctx p d root :
  describes t_ctx p d → length (pm_name (param_meta p)) ≤ MAXLEN_PARAM_NAME →
  pm_name (param_meta p) ∉ names root → starred (pm_name (param_meta p)) ∉ names root → deref (pm_name (param_meta p)) ≠ "*"%char →
  ∃ log, log_param t_ctx p root = Some (Next, root ++ members p d, log) ∧ visible log = [].
Proof.
  intros [(t & Ht & Hs) Hp] Hl H1 H2 H3. unfold log_param. rewrite Ht. cbn [mbind option_bind]. rewrite Hs. cbn [mbind option_bind].
  rewrite set_text_absent by done. unfold members. destruct (sh_pointee d) as [l|].
  - destruct Hp as (Hm & Hv & Hn & rt & n & Hrt & Hc & He). rewrite Hm, (proj2 (Z.eqb_neq _ _) Hv), Hrt. cbn [mbind option_bind].
    rewrite Hc. cbn [mbind option_bind]. rewrite (array_elements _ _ _ _ _ He). cbn [mbind option_bind app].
    exists []. split; [|done]. do 3 f_equal. unfold set_pointee, streq. rewrite bool_decide_false by done.
    unfold snprintf. rewrite take_ge by (unfold MAXLEN_PARAM_NAME in *; cbn [length]; lia). rewrite set_absent; [by rewrite <- app_assoc|]. unfold names. rewrite map_app.
    intros [Hin|Hin]%elem_of_app; [done|]. destruct (is_valid_utf8 _); [|by apply not_elem_of_nil in Hin].
    apply list_elem_of_singleton in Hin. cbn in Hin. apply H3. by rewrite <- Hin.
  - rewrite app_nil_r. destruct (has_mod _ _) eqn:Hm; [|by exists []]. destruct (Z.eqb_spec (val p) 0) as [|Hv]; [by eexists|].
    destruct Hp as [Hp|[Hp| ->]]; [congruence|done|]. by eexists.
Qed.

(** The parameters that are logged, and the messages for the others. *)
Definition kept (omit : list bytes) (ps : list FuncParam) : list FuncParam := filter (λ p, pm_name (param_meta p) ∉ omit) ps.
Definition omissions (omit : list bytes) (ps : list FuncParam) : list record :=
  (λ p, log_info (quoted "omitting param '" (pm_name (param_meta p)) "'")) <$> filter (λ p, pm_name (param_meta p) ∈ omit) ps.

Lemma omitted_spec omit name : omitted (JSONString <$> omit) name = Some (bool_decide (name ∈ omit)).
Proof.
  induction omit as [|s omit IH]; cbn; [done|]. destruct (streq name s) eqn:E.
  - apply streq_true in E as ->. rewrite bool_decide_true; [done|]. by left.
  - rewrite IH. f_equal. apply bool_decide_ext. rewrite elem_of_cons. split; [by right|]. intros [->|?]; [|done]. by rewrite streq_refl in E.
Qed.

Lemma kept_cons omit p ps :
  kept omit (p :: ps) = if bool_decide (pm_name (param_meta p) ∈ omit) then kept omit ps else p :: kept omit ps.
Proof. unfold kept. case_bool_decide; [by rewrite filter_cons_False by naive_solver|by rewrite filter_cons_True]. Qed.

Lemma omissions_cons omit p ps :
  omissions omit (p :: ps) =
  (if bool_decide (pm_name (param_meta p) ∈ omit) then [log_info (quoted "omitting param '" (pm_name (param_meta p)) "'")] else []) ++ omissions omit ps.
Proof. unfold omissions. case_bool_decide; [by rewrite filter_cons_True|by rewrite filter_cons_False]. Qed.

(** [omit_params] as the configuration has it. *)
Definition omit_list (omit_params : option JSON_Array) (omit : list bytes) : Prop :=
  match omit_params with Some l => l = JSONString <$> omit | None => omit = [] end.

Lemma log_loop_shown t_ctx omit_params omit ps ds root log :
  omit_list omit_params omit →
  Forall2 (describes t_ctx) (kept omit ps) ds → plain_names (param_names (kept omit ps)) → NoDup (param_names (kept omit ps)) →
  (∀ n, n ∈ param_names (kept omit ps) → n ∉ names root ∧ starred n ∉ names root) →
  ∃ new, log_params_loop t_ctx omit_params ps root log = Some (root ++ concat (zip_with members (kept omit ps) ds), log ++ new) ∧
    visible new = omissions omit ps.
Proof.
  intros Ho. revert ds root log. induction ps as [|p ps IH]; intros ds root log H Hl Hn Hr; cbn [log_params_loop].
  { exists []. by rewrite !app_nil_r. }
  assert (match omit_params with Some l => omitted l (pm_name (param_meta p)) | None => Some false end = Some (bool_decide (pm_name (param_meta p) ∈ omit))) as ->.
  { destruct omit_params; rewrite Ho; [apply omitted_spec|]. rewrite bool_decide_false; [done|]. apply not_elem_of_nil. }
  rewrite omissions_cons. rewrite kept_cons in *. cbn [mbind option_bind]. case_bool_decide.
  { destruct (IH ds root (log ++ [log_info (quoted "omitting param '" (pm_name (param_meta p)) "'")]) H Hl Hn Hr) as (new & -> & Hnew).
    eexists. split; [by rewrite <- app_assoc|]. rewrite visible_app. by rewrite Hnew. }
  inversion H as [|? d ? ds' Hd Hds]; subst. cbn [zip_with concat param_names fmap list_fmap] in *.
  apply Forall_cons in Hl as [[Hl Hs] Hls]. apply NoDup_cons in Hn as [Hnp Hn].
  destruct (Hr (pm_name (param_meta p))) as [H1 H2]; [by left|].
  destruct (log_param_shown t_ctx p d root Hd Hl H1 H2 Hs) as (new & -> & Hnew). cbn [mbind option_bind].
  destruct (IH ds' (root ++ members p d) (log ++ new) Hds Hls Hn) as (new' & -> & Hnew').
  - intros n Hin. destruct (Hr n) as [H3 H4]; [by right|]. unfold names in *. rewrite !map_app, !not_elem_of_app. split_and!; [done| |done|].
    + intros [->| ->]%members_names; [done|]. apply (proj1 (Forall_forall _ _) Hls) in Hin as [_ Hin]. done.
    + intros [E|E]%members_names; [by rewrite <- E in Hs|]. injection E as ->. done.
  - exists (new ++ new'). rewrite <- !app_assoc. split; [done|]. by rewrite visible_app, Hnew, Hnew'.
Qed.

(** The message for a call. *)
Definition message (proto : FuncPrototype) (ps : list FuncParam) (ds : list shown) : JSON_Object :=
  (lit "func", JSONString (fp_name proto)) :: concat (zip_with members ps ds).

Definition omit_params_of (action_params : option JSON_Object) : option JSON_Array :=
  match action_params with Some o => json_object_get_array (Some o) "omit_params" | None => None end.

Lemma log_params_message t_ctx proto omit ds action_params :
  prototype t_ctx = Some proto → is_valid_utf8 (fp_name proto) = true → omit_list (omit_params_of action_params) omit →
  let ps := kept omit (params t_ctx) in
  Forall2 (describes t_ctx) ps ds → plain_names (param_names ps) → NoDup (lit "func" :: param_names ps) →
  ∃ log, ia_log_params t_ctx action_params = Some (0%Z, log ++ [(ACTIONS, SEVERITY_INFO, JSONObject (message proto ps ds))]) ∧
    visible log = omissions omit (params t_ctx).
Proof.
  intros Hp Hv Ho ps Hd Hl Hn. apply NoDup_cons in Hn as [Hf Hn]. unfold ia_log_params. fold (omit_params_of action_params). rewrite Hp.
  cbn [mbind option_bind]. rewrite set_text_absent, Hv by apply not_elem_of_nil. cbn [app].
  destruct (log_loop_shown t_ctx _ omit (params t_ctx) ds [(lit "func", JSONString (fp_name proto))] [] Ho Hd Hl Hn) as (log & -> & Hlog).
  - intros n Hin. cbn. rewrite !not_elem_of_cons. split_and!; try apply not_elem_of_nil; [by intros ->|].
    intros E. unfold starred in E. discriminate E.
  - exists log. by split.
Qed.

(** C23 (functional). A call whose parameters can be printed is logged with one
    message that says exactly what they are: the name of the function, and for
    every parameter in order that is not to be omitted its value and, behind a
    pointer that is followed, its elements, at most 64. The names of the
    parameters are distinct, none is [func] (else see [signal_loses_name]), begins
    with a star or is longer than its buffer. Texts that are not UTF-8 are left
    out. Apart from texts for debugging only a note for each parameter that is
    omitted goes before the message. *)
Theorem log_params_exact t_ctx proto omit ds action_params :
  prototype t_ctx = Some proto → is_valid_utf8 (fp_name proto) = true → omit_list (omit_params_of action_params) omit →
  let ps := kept omit (params t_ctx) in
  Forall2 (describes t_ctx) ps ds → plain_names (param_names ps) → NoDup (lit "func" :: param_names ps) →
  ∃ log, ia_log_params t_ctx action_params = Some (0%Z, log) ∧
    visible log = omissions omit (params t_ctx) ++ [(ACTIONS, SEVERITY_INFO, JSONObject (message proto ps ds))].
Proof.
  intros Hp Hv Ho ps Hd Hl Hn. destruct (log_params_message t_ctx proto omit ds action_params Hp Hv Ho Hd Hl Hn) as (log & -> & Hlog).
  eexists. split; [done|]. by rewrite visible_app, Hlog.
Qed.

End log_params.

(** ** Calls *)

#[local] Existing Instance JsonRoundTrip.whole_numbers.

Definition demo_types : datatypes := (retrace_datatypes_init true (retrace_dts false true)).2.

Lemma demo_type i t : retrace_dts false true !! i = Some t → type_named true demo_types (name t) = Some t.
Proof.
  intros Ht%list_elem_of_lookup_2. destruct (datatypes_init_ok false true _ (Permutation_refl (retrace_dts false true))) as (d & Hd & _ & Hall).
  unfold demo_types. rewrite Hd. by apply Hall.
Qed.

(** The context of a call with these values. *)
Definition call_context (proto : FuncPrototype) (vals : list Z) : ThreadContext :=
  set_prototype (Some proto) (set_params (zip_with (λ m v, mkParam m v false) (fp_params proto) vals) zero_context).

Definition demo_memory (addr : Z) : bytes := if (addr =? 4096)%Z then lit "/etc/hosts" ++ [NUL] else [].

Lemma log_params_exact_witness :
  ∃ log, ia_log_params false true demo_types demo_memory (call_context ProtoSystem.proto_access [4096; 4]%Z)
      (Some [(lit "omit_params", JSONArray [JSONString (lit "mode")])]) = Some (0%Z, log) ∧
    visible log = [log_info (lit "omitting param 'mode'");
      (ACTIONS, SEVERITY_INFO, JSONObject [(lit "func", JSONString (lit "access")); (lit "pathname", JSONString (lit "0x1000"));
        (lit "*pathname", JSONArray [JSONString (lit "/etc/hosts")])])].
Proof.
  apply (log_params_exact false true demo_types demo_memory (call_context ProtoSystem.proto_access [4096; 4]%Z)
    ProtoSystem.proto_access [lit "mode"] [mkShown (lit "0x1000") (Some [lit "/etc/hosts"])]
    (Some [(lit "omit_params", JSONArray [JSONString (lit "mode")])])).
  - reflexivity.
  - reflexivity.
  - reflexivity.
  - change (kept [lit "mode"] (params (call_context ProtoSystem.proto_access [4096; 4]%Z))) with
      [mkParam (mkMeta (lit "pathname") (lit "ptr") (Z.lor CDM_POINTER CDM_CONST) PDIR_IN (lit "sz") []) 4096 false].
    constructor; [|constructor]. split; [eexists; split; [exact (demo_type 9 _ eq_refl)|reflexivity]|].
    split; [reflexivity|]. split; [done|]. split; [done|]. eexists _, 1%Z.
    split; [exact (demo_type 6 _ eq_refl)|]. split; reflexivity.
  - constructor; [|constructor]. split; [vm_compute; lia|done].
  - apply (bool_decide_eq_true_1 _). reflexivity.
Defined.

(** ** Calls that are not logged as they are made *)

(** [signal] has a parameter with the name [func], which replaces the name of the
    function. *)
Lemma signal_loses_name :
  (λ r, last r.2) <$> ia_log_params false true demo_types demo_memory (call_context ProtoSystem.proto_signal [2; 4096]%Z) None =
  Some (Some (ACTIONS, SEVERITY_INFO, JSONObject [(lit "func", JSONString (lit "0x1000")); (lit "sig", JSONString (lit "2"))])).
Proof. vm_compute. reflexivity. Qed.

(** The length that [send] is given is printed as a string in its own bytes. *)
Lemma send_length_is_text :
  (λ r, last r.2) <$> ia_log_params false true demo_types demo_memory (call_context ProtoNet.proto_send [3; 0; 47; 0]%Z) None =
  Some (Some (ACTIONS, SEVERITY_INFO, JSONObject [(lit "func", JSONString (lit "send")); (lit "sockfd", JSONString (lit "3"));
    (lit "buf", JSONString (lit "(nil)")); (lit "len", JSONString (lit "/")); (lit "flags", JSONString (lit "0"))])).
Proof. vm_compute. reflexivity. Qed.

(** A [long long] has no defined text. *)
Lemma long_long_undefined t_ctx p mem root :
  pm_type_name (param_meta p) = lit "long long" → log_param false true demo_types mem t_ctx p root = None.
Proof. intros H. unfold log_param, data_type. rewrite H. reflexivity. Qed.

(** On a big-endian machine the count of an array in an [int] is read past the end
    of its slot. *)
Lemma int_count_past_slot v t :
  name t = lit "int" → t ∈ retrace_dts true true → to_size_t t (retrace_datatype_val_addr true (slot true v) t) = None.
Proof.
  intros Hn Ht. cbn in Ht. repeat (apply elem_of_cons in Ht as [->|Ht]; [try (by vm_compute in Hn)|]).
  by apply not_elem_of_nil in Ht.
Qed.

End LogParams.
