(* ===== verification/CallTrace.v ===== *)
(** * From the calls of a program to its profile

    The parts of the path composed: the calls that [ia_log_params] logs, the rings
    and the document of the logger, the scanner of the tools and the profile that
    is made from what it finds. *)

From S2P Require Import Prelude Libc Stdio Context Json JsonText JsonRoundTrip JsonObject PrintfFormat Registry Lanes ProtoTables.
From S2P Require Import LogFlusher TraceStream SortedTable Correlate Profile ProfileDoc DataTypes Logger LogParams.

Module CallTrace.

Import Libc Stdio Context Json JsonText JsonRoundTrip JsonObject LogFlusher DataTypes Logger LogParams.

(** ** Prototypes that are logged as they are *)

(** Members that the tools give a meaning. *)
Definition reserved : list bytes := [lit "func"; lit "text"; lit "detail"; lit "call_duration_us"].

Definition plain_meta (m : ParamMeta) : bool :=
  (length (pm_name m) <=? MAXLEN_PARAM_NAME) && negb (ceq (deref (pm_name m)) "*") && forallb (λ c, negb (ceq c NUL)) (pm_name m) &&
  negb (bool_decide (pm_name m ∈ reserved)) &&
  negb (streq (pm_type_name m) (lit "sz")) && negb (streq (pm_type_name m) (lit "iovec")) &&
  negb (streq (pm_type_name m) (lit "unknown_type")) && negb (streq (pm_ref_type_name m) (lit "iovec")) &&
  negb (has_mod (pm_modifiers m) CDM_ARRAY && streq (pm_ref_type_name m) (lit "sz")).

Record plain_param (m : ParamMeta) : Prop := {
  pl_length : length (pm_name m) ≤ MAXLEN_PARAM_NAME;
  pl_star : deref (pm_name m) ≠ "*"%char;
  pl_nul : no_nul (pm_name m);
  pl_reserved : pm_name m ∉ reserved;
  pl_sz : pm_type_name m ≠ lit "sz";
  pl_iovec : pm_type_name m ≠ lit "iovec";
  pl_unknown : pm_type_name m ≠ lit "unknown_type";
  pl_ref : pm_ref_type_name m ≠ lit "iovec";
  pl_array : pm_ref_type_name m = lit "sz" → has_mod (pm_modifiers m) CDM_ARRAY = false;
}.

Lemma no_nul_bool s : forallb (λ c, negb (ceq c NUL)) s = true → no_nul s.
Proof. rewrite forallb_forall. intros H. apply Forall_forall. intros c Hc%list_elem_of_In%H. by bool_to_prop. Qed.

Lemma plain_meta_facts m : plain_meta m = true → plain_param m.
Proof.
  unfold plain_meta. intros H. rewrite !andb_true_iff in H. destruct H as ((((((((H1 & H2) & H3) & H4) & H5) & H6) & H7) & H8) & H9).
  apply Nat.leb_le in H1. apply no_nul_bool in H3. apply negb_true_iff, andb_false_iff in H9. bool_to_prop. split; try done.
  intros E. destruct H9 as [|H9]; [done|]. by apply streq_false in H9.
Qed.

Definition plain_proto (p : FuncPrototype) : bool :=
  forallb plain_meta (Lanes.proto_params p) && bool_decide (NoDup (pm_name <$> Lanes.proto_params p)) &&
  is_valid_utf8 (fp_name p) && forallb (λ c, negb (ceq c NUL)) (fp_name p) && negb (streq (fp_name p) []) &&
  negb (Correlate.corr_is_path_like (fp_name p)) &&
  match fp_fmt p with FAT_NOVARARGS => true | _ => false end.

(** The others: those with arguments after a format, with a parameter [func], with
    a length that has the type of strings, and with an array of structures. *)
Lemma tables_plain :
  fp_name <$> List.filter (λ p, negb (plain_proto p)) ProtoTables.retrace_protos =
  lit <$> ["signal"; "printf"; "fprintf"; "sprintf"; "snprintf"; "dprintf"; "scanf"; "fscanf"; "sscanf"; "__isoc99_scanf";
    "__isoc99_fscanf"; "__isoc99_sscanf"; "atexit"; "writev"; "readv"; "send"; "recv"; "sendto"; "recvfrom"; "inet_ntop";
    "SSL_read"; "SSL_read_ex"; "SSL_write"; "SSL_write_ex"]%string ∧
  length ProtoTables.retrace_protos = 329.
Proof. vm_compute. split; reflexivity. Qed.

(** ** Paths in messages *)

Lemma walk_object o : Correlate.walk_paths (JSONObject o) = o ≫= λ m, Correlate.walk_paths m.2.
Proof. induction o as [|[k v] o IH]; [done|]. cbn in *. by rewrite IH. Qed.

Lemma walk_array a : Correlate.walk_paths (JSONArray a) = a ≫= Correlate.walk_paths.
Proof. induction a as [|v a IH]; [done|]. cbn in *. by rewrite IH. Qed.

(** The paths that the tools see in a text. *)
Definition paths_of (s : bytes) : list bytes := if is_valid_utf8 s then Correlate.walk_paths (JSONString s) else [].

Lemma walk_strings l : valid_strings l ≫= Correlate.walk_paths = l ≫= paths_of.
Proof.
  induction l as [|s l IH]; [done|]. rewrite valid_strings_cons, bind_app, IH. cbn [mbind list_bind]. f_equal.
  unfold valid_string, paths_of. destruct (is_valid_utf8 s); [|done]. cbn. by rewrite app_nil_r.
Qed.

Lemma number_no_path s : number_text s → Correlate.corr_is_path_like s = false.
Proof.
  intros H. destruct s as [|c s]; [done|].
  assert (∀ x, x ∈ c :: s → x ≠ "/"%char ∧ x ≠ Correlate.backslash ∧ x ≠ ":"%char) as Hc.
  { intros x Hx. apply (proj1 (Forall_forall _ _) H), number_char_facts in Hx. naive_solver. }
  unfold Correlate.corr_is_path_like. destruct (Hc c) as (H1 & H2 & _); [by left|].
  rewrite (proj2 (ceq_false _ _) H1), (proj2 (ceq_false _ _) H2). rewrite !bool_decide_false by (intros Hx; by destruct (Hc _ Hx) as (? & ? & ?)).
  cbn [orb]. rewrite !orb_false_r. apply andb_false_intro2, ceq_false. destruct s as [|d s]; [done|]. apply Hc. right. by left.
Qed.

Lemma number_paths s : number_text s → paths_of s = [].
Proof. intros H. unfold paths_of. destruct (is_valid_utf8 s); [|done]. cbn. by rewrite number_no_path. Qed.

Lemma number_no_nul s : number_text s → no_nul s.
Proof. intros H. eapply Forall_impl; [exact H|]. intros c Hc. by apply number_char_facts in Hc as (_ & _ & _ & _ & _ & ?). Qed.

(** ** Orders *)

Lemma of_thread_cons tid t o es : of_thread tid ((t, o) :: es) = (if decide (t = tid) then [o] else []) ++ of_thread tid es.
Proof. change ((t, o) :: es) with ([(t, o)] ++ es). by rewrite of_thread_app, of_thread_one. Qed.

Lemma of_thread_split tid o rest es :
  of_thread tid es = o :: rest → ∃ es1 es2, es = es1 ++ (tid, o) :: es2 ∧ of_thread tid es1 = [] ∧ of_thread tid es2 = rest.
Proof.
  induction es as [|[t x] es IH]; [done|]. rewrite of_thread_cons. case_decide as Ht; cbn.
  - intros [= -> <-]. subst t. by exists [], es.
  - intros (es1 & es2 & -> & H1 & H2)%IH. exists ((t, x) :: es1), es2. split_and!; [done| |done]. by rewrite of_thread_cons, decide_False.
Qed.

(** Lists with the same elements for every thread have the same elements. *)
Lemma threads_permutation (a b : list (nat * JSON_Object)) : (∀ tid, of_thread tid a = of_thread tid b) → a ≡ₚ b.
Proof.
  revert b. induction a as [|[t o] a IH]; intros b H.
  { rewrite (empty_by_thread b); [done|]. intros tid. by rewrite <- H. }
  destruct (of_thread_split t o (of_thread t a) b) as (b1 & b2 & -> & H1 & H2).
  { rewrite <- H, of_thread_cons, decide_True by done. done. }
  rewrite <- Permutation_middle. constructor. apply IH. intros tid. specialize (H tid).
  rewrite of_thread_cons, of_thread_app, of_thread_cons in H. rewrite of_thread_app. case_decide; [|done]. subst.
  rewrite H1, H2. done.
Qed.

#[local] Existing Instance Correlate.CorrClass_eq_dec.

(** What a profile says depends on the entries and not on their order. *)
#[export] Instance access_spec_proper : Proper ((≡ₚ) ==> (=)) Profile.access_spec.
Proof.
  intros cs cs' H. assert (∀ c, bool_decide (c ∈ cs) = bool_decide (c ∈ cs')) as Hb by (intros c; apply bool_decide_ext; by rewrite H).
  unfold Profile.access_spec. destruct cs as [|c cs]; [by apply Permutation_nil_l in H as <-|].
  destruct cs' as [|c' cs']; [by apply Permutation_nil_r in H|]. by rewrite !Hb, (Permutation_length H).
Qed.

#[export] Instance at_path_proper path : Proper ((≡ₚ) ==> (≡ₚ)) (Profile.at_path path).
Proof. intros evs evs' H. unfold Profile.at_path. by rewrite H. Qed.

#[export] Instance path_events_proper : Proper ((≡ₚ) ==> (≡ₚ)) Profile.path_events.
Proof. intros es es' H. unfold Profile.path_events, Profile.calls. by rewrite H. Qed.

#[export] Instance func_calls_proper f : Proper ((≡ₚ) ==> (=)) (Profile.func_calls f).
Proof. intros es es' H. unfold Profile.func_calls, Profile.calls. by rewrite H. Qed.

Section trace.
Context {DT : DoubleText} (big_endian char_signed : bool) (types : datatypes).

(** The registry of a build. *)
Definition registered : Prop :=
  ∃ l, Permutation l (retrace_dts big_endian char_signed) ∧ retrace_datatypes_init char_signed l = (0%Z, types).

(** ** The text of a parameter *)

Lemma type_named_in s t :
  registered → type_named char_signed types s = Some t → t ∈ retrace_dts big_endian char_signed ∧ name t = s.
Proof.
  intros (l & Hl & Hi). destruct (datatypes_init_ok big_endian char_signed l Hl) as (d & Hd & Hget & _).
  rewrite Hd in Hi. injection Hi as <-. unfold type_named. rewrite Hget. destruct (list_find _ l) as [[i x]|] eqn:E; [|done].
  intros [= <-]. apply list_find_Some in E as (Hx & Hn & _). split; [|done]. rewrite <- Hl. by eapply list_elem_of_lookup_2.
Qed.

Lemma sz_type t : t ∈ retrace_dts big_endian char_signed → name t = lit "sz" → to_sz t = string_at.
Proof.
  intros Ht Hn. cbn in Ht. repeat (apply elem_of_cons in Ht as [->|Ht]; [try (by vm_compute in Hn)|]). by apply not_elem_of_nil in Ht.
Qed.

Lemma sz_named : registered → is_Some (type_named char_signed types (lit "sz")).
Proof.
  intros (l & Hl & Hi). destruct (datatypes_init_ok big_endian char_signed l Hl) as (d & Hd & _ & Hall).
  rewrite Hd in Hi. injection Hi as <-. destruct (list_find (λ t, name t = lit "sz") (retrace_dts big_endian char_signed)) as [[i t]|] eqn:E; [|done].
  apply list_find_Some in E as (Hx & Hn & _). exists t. unfold type_named. rewrite <- Hn. apply Hall. by eapply list_elem_of_lookup_2.
Qed.

Lemma printed_text t data s : t ∈ retrace_dts big_endian char_signed → printed t data = Some s → to_sz t data = Some s.
Proof. intros Ht. rewrite fits_printed; [done|]. apply (all_fit big_endian char_signed). by right. Qed.

Lemma printed_number t data s :
  t ∈ retrace_dts big_endian char_signed → name t ≠ lit "sz" → name t ≠ lit "iovec" → printed t data = Some s → number_text s.
Proof. intros Ht H1 H2 Hp. apply printed_text in Hp; [|done]. eapply prints_number; [|done..]. by right. Qed.

Lemma elements_number n t data l :
  t ∈ retrace_dts big_endian char_signed → name t ≠ lit "sz" → name t ≠ lit "iovec" → elements n t data = Some l → Forall number_text l.
Proof.
  intros Ht H1 H2. revert data l. induction n as [|n IH]; intros data l; cbn [elements]; [intros [= <-]; constructor|].
  destruct (printed t data) as [s|] eqn:Es; [|done]. cbn [mbind option_bind]. assert (number_text s) as Hs by by eapply printed_number.
  destruct (get_size t data) as [[k|]|]; cbn [mbind option_bind]; [|intros [= <-]; by repeat constructor|done].
  destruct (elements n t (drop k data)) as [rest|] eqn:Er; [|done]. intros [= <-]. constructor; [done|]. by eapply IH.
Qed.

Lemma elements_one t data l : elements 1 t data = Some l → ∃ s, printed t data = Some s ∧ l = [s].
Proof. cbn. destruct (printed t data) as [s|]; [|done]. cbn. destruct (get_size t data) as [[k|]|]; cbn; naive_solver. Qed.

(** The string that a parameter passes. *)
Definition passed (mem : Z → bytes) (p : FuncParam) : option bytes :=
  let m := param_meta p in
  if has_mod (pm_modifiers m) CDM_POINTER && negb (val p =? 0)%Z && streq (pm_ref_type_name m) (lit "sz") then string_at (mem (val p)) else None.

(** What is known of a plain parameter that is shown. *)
Lemma shown_plain mem t_ctx p d :
  registered → plain_meta (param_meta p) = true → describes big_endian char_signed types mem t_ctx p d →
  number_text (sh_text d) ∧
  match sh_pointee d with
  | None => passed mem p = None
  | Some l => (passed mem p = None ∧ Forall number_text l) ∨ ∃ s, no_nul s ∧ passed mem p = Some s ∧ l = [s]
  end.
Proof.
  intros Hreg Hm [(t & Ht & Hp) Hd]. destruct (plain_meta_facts _ Hm) as [_ _ _ _ Hsz Hio Hun Hrio Harr]. split.
  - unfold data_type in Ht. unfold streq in Ht. rewrite bool_decide_false in Ht by done. apply type_named_in in Ht as [Ht Hn]; [|done].
    by eapply (printed_number t); rewrite ?Hn.
  - unfold passed. destruct (sh_pointee d) as [l|].
    + destruct Hd as (Hptr & Hv & _ & rt & n & Hrt & Hc & Hl). apply type_named_in in Hrt as [Hrt Hn]; [|done].
      rewrite Hptr, (proj2 (Z.eqb_neq _ _) Hv). cbn [negb andb]. destruct (streq _ _) eqn:E.
      * apply streq_true in E. right. unfold element_count in Hc. rewrite (Harr E) in Hc. injection Hc as <-.
        apply elements_one in Hl as (s & Hs & ->). apply printed_text in Hs; [|done]. rewrite (sz_type rt) in Hs by congruence.
        exists s. split_and!; [|done..]. unfold string_at in Hs. case_decide; [|done]. injection Hs as <-. apply cstr_no_nul.
      * left. split; [done|]. apply streq_false in E. by eapply elements_number; [exact Hrt|congruence..|exact Hl].
    + destruct (streq (pm_ref_type_name _) _) eqn:E; [|by rewrite andb_false_r]. apply streq_true in E.
      destruct Hd as [->|[->|Hd]]; [done|by rewrite andb_false_r|]. destruct (sz_named Hreg) as [x Hx]. rewrite E, Hx in Hd. done.
Qed.

(** The paths in its members are those in the string it passes. *)
Lemma members_paths mem t_ctx p d :
  registered → plain_meta (param_meta p) = true → describes big_endian char_signed types mem t_ctx p d →
  (members p d ≫= λ m, Correlate.walk_paths m.2) = option_list (passed mem p) ≫= paths_of.
Proof.
  intros Hreg Hm Hd. destruct (shown_plain _ _ _ _ Hreg Hm Hd) as [Ht Hp]. unfold members. rewrite bind_app.
  assert (((if is_valid_utf8 (sh_text d) then [(pm_name (param_meta p), JSONString (sh_text d))] else []) ≫= λ m, Correlate.walk_paths m.2) = []) as ->.
  { apply number_paths in Ht. unfold paths_of in Ht. destruct (is_valid_utf8 _); [|done]. cbn in *. by rewrite Ht. }
  destruct (sh_pointee d) as [l|]; cbn [app]; [|by rewrite Hp].
  change ([(starred (pm_name (param_meta p)), JSONArray (valid_strings l))] ≫= λ m, Correlate.walk_paths m.2)
    with (Correlate.walk_paths (JSONArray (valid_strings l)) ++ []). rewrite app_nil_r, walk_array, walk_strings.
  destruct Hp as [[-> Hl]|(s & _ & -> & ->)]; [|done]. induction Hl as [|s l Hs _ IH]; [done|]. cbn in *. by rewrite number_paths.
Qed.

(** ** The message of a call *)

(** A call of a thread at a time, with the memory it was made in. *)
Record traced := mkTraced { tr_tid : nat; tr_time : Z; tr_ctx : ThreadContext; tr_mem : Z → bytes }.

(** A call of a plain prototype whose parameters can be read. *)
Record loggable (tr : traced) (proto : FuncPrototype) (ds : list shown) : Prop := {
  lo_proto : prototype (tr_ctx tr) = Some proto;
  lo_plain : plain_proto proto = true;
  lo_params : param_meta <$> params (tr_ctx tr) = Lanes.proto_params proto;
  lo_shown : Forall2 (describes big_endian char_signed types (tr_mem tr) (tr_ctx tr)) (params (tr_ctx tr)) ds;
}.

(** Its accesses: the paths in the strings that it is passed. *)
Definition accesses_of (proto : FuncPrototype) (tr : traced) : list (bytes * Correlate.CorrClass) :=
  (λ path, (path, Correlate.corr_classify (Some (fp_name proto)) None)) <$> (omap (passed (tr_mem tr)) (params (tr_ctx tr)) ≫= paths_of).

Lemma plain_params tr proto ds p : loggable tr proto ds → p ∈ params (tr_ctx tr) → plain_meta (param_meta p) = true.
Proof.
  intros [_ Hp Hm _] Hin. unfold plain_proto in Hp. rewrite !andb_true_iff in Hp. destruct Hp as ((((((Hp & _) & _) & _) & _) & _) & _).
  rewrite forallb_forall in Hp. apply Hp. rewrite <- Hm, <- list_elem_of_In. by apply list_elem_of_fmap_2.
Qed.

Record plain_function (p : FuncPrototype) : Prop := {
  pf_distinct : NoDup (pm_name <$> Lanes.proto_params p);
  pf_valid : is_valid_utf8 (fp_name p) = true;
  pf_nul : no_nul (fp_name p);
  pf_some : fp_name p ≠ [];
  pf_path : Correlate.corr_is_path_like (fp_name p) = false;
}.

Lemma plain_proto_facts p : plain_proto p = true → plain_function p.
Proof.
  unfold plain_proto. intros H. rewrite !andb_true_iff in H. destruct H as ((((((_ & H1) & H2) & H3) & H4) & H5) & _).
  apply no_nul_bool in H3. bool_to_prop. by split.
Qed.

Lemma names_distinct tr proto ds : loggable tr proto ds → NoDup (param_names (params (tr_ctx tr))).
Proof.
  intros H. destruct (plain_proto_facts _ (lo_plain _ _ _ H)) as [Hn _ _ _ _]. rewrite <- (lo_params _ _ _ H), <- list_fmap_compose in Hn. exact Hn.
Qed.

Lemma message_paths tr proto ds :
  registered → loggable tr proto ds →
  Correlate.walk_paths (JSONObject (message proto (params (tr_ctx tr)) ds)) = omap (passed (tr_mem tr)) (params (tr_ctx tr)) ≫= paths_of.
Proof.
  intros Hreg H. destruct (plain_proto_facts _ (lo_plain _ _ _ H)) as [_ _ _ _ Hf].
  rewrite walk_object. unfold message. cbn [mbind list_bind snd Correlate.walk_paths]. rewrite Hf. cbn [app].
  assert (∀ p, p ∈ params (tr_ctx tr) → plain_meta (param_meta p) = true) as Hp by by eintros p ?%plain_params.
  destruct H as [_ _ _ Hs]. revert Hp. induction Hs as [|p d ps ds' Hd _ IH]; intros Hp; [done|].
  cbn [zip_with concat]. rewrite bind_app, (members_paths _ _ _ _ Hreg (Hp p ltac:(by left)) Hd), IH by (intros q Hq; apply Hp; by right).
  cbn. destruct (passed (tr_mem tr) p); cbn; [|done]. by rewrite app_nil_r.
Qed.

(** A member that is written and read back. *)
Definition good_member (m : bytes * JSON_Value) : Prop := no_nul m.1 ∧ json_ok m.2 ∧ json_depth m.2 ≤ 2.

Lemma strings_good l : Forall no_nul l → json_ok (JSONArray (valid_strings l)) ∧ json_depth (JSONArray (valid_strings l)) ≤ 2.
Proof.
  intros H. unfold valid_strings. split.
  - apply ok_array, Forall_fmap, Forall_forall. intros s [_ Hs]%list_elem_of_filter. by apply (proj1 (Forall_forall _ _) H).
  - apply ProfileDoc.array_depth, Forall_fmap, Forall_true. intros s. apply Nat.le_refl.
Qed.

Lemma members_good mem t_ctx p d :
  registered → plain_meta (param_meta p) = true → describes big_endian char_signed types mem t_ctx p d → Forall good_member (members p d).
Proof.
  intros Hreg Hm Hd. destruct (shown_plain _ _ _ _ Hreg Hm Hd) as [Ht Hp]. pose proof (pl_nul _ (plain_meta_facts _ Hm)) as Hn.
  apply Forall_app. split.
  - destruct (is_valid_utf8 _); repeat constructor; cbn; [done|by apply number_no_nul].
  - destruct (sh_pointee d) as [l|]; [|constructor]. constructor; [|constructor]. split; [by constructor|]. apply strings_good.
    destruct Hp as [[_ Hl]|(s & Hs & _ & ->)]; [|by repeat constructor]. eapply Forall_impl; [exact Hl|]. apply number_no_nul.
Qed.

Lemma members_distinct p d : deref (pm_name (param_meta p)) ≠ "*"%char → NoDup (names (members p d)).
Proof.
  intros Hs. unfold members, names. rewrite map_app. apply NoDup_app. split_and!.
  - destruct (is_valid_utf8 _); [apply NoDup_singleton|apply NoDup_nil_2].
  - intros n Hn. destruct (is_valid_utf8 _); [|by apply not_elem_of_nil in Hn]. apply list_elem_of_singleton in Hn as ->.
    destruct (sh_pointee d); [|apply not_elem_of_nil]. cbn. rewrite list_elem_of_singleton. intros E. apply Hs. by rewrite E.
  - destruct (sh_pointee d); [apply NoDup_singleton|apply NoDup_nil_2].
Qed.

Lemma all_members_names ps ds n :
  n ∈ names (concat (zip_with members ps ds)) → n ∈ param_names ps ∨ ∃ m, m ∈ param_names ps ∧ n = starred m.
Proof.
  revert ds. induction ps as [|p ps IH]; intros [|d ds]; cbn; [set_solver..|]. unfold names in *. rewrite map_app, elem_of_app.
  intros [[->| ->]%members_names|[H|(m & H & ->)]%IH]; set_solver.
Qed.

Lemma all_members_distinct ps ds :
  NoDup (param_names ps) → (∀ n, n ∈ param_names ps → deref n ≠ "*"%char) → NoDup (names (concat (zip_with members ps ds))).
Proof.
  revert ds. induction ps as [|p ps IH]; intros [|d ds] Hn Hs; cbn; [apply NoDup_nil_2..|]. cbn in Hn, Hs. apply NoDup_cons in Hn as [Hp Hn].
  unfold names in *. rewrite map_app. apply NoDup_app. split_and!.
  - apply members_distinct, Hs. by left.
  - intros n [->| ->]%members_names [H|(m & H & E)]%all_members_names.
    + done.
    + assert (deref (pm_name (param_meta p)) ≠ "*"%char) as H0 by (apply Hs; by left). by rewrite E in H0.
    + by apply (Hs _ (list_elem_of_further _ _ _ H)).
    + injection E as <-. done.
  - apply IH; [done|]. intros n H. apply Hs. by right.
Qed.

Lemma message_good tr proto ds :
  registered → loggable tr proto ds →
  let msg := message proto (params (tr_ctx tr)) ds in
  json_ok (JSONObject msg) ∧ json_depth (JSONObject msg) ≤ MAX_NESTING ∧
  ∀ n, n ∈ names msg → n = lit "func" ∨ n ∉ reserved.
Proof.
  intros Hreg H msg. destruct (plain_proto_facts _ (lo_plain _ _ _ H)) as [_ _ Hnul _ _]. pose proof (names_distinct _ _ _ H) as Hdist.
  assert (∀ p, p ∈ params (tr_ctx tr) → plain_meta (param_meta p) = true) as Hp by by eintros p ?%plain_params.
  assert (∀ n, n ∈ param_names (params (tr_ctx tr)) → deref n ≠ "*"%char ∧ n ∉ reserved) as Hn.
  { intros n (p & -> & Hin)%list_elem_of_fmap. apply Hp, plain_meta_facts in Hin as []. done. }
  assert (∀ n, n ∈ names (concat (zip_with members (params (tr_ctx tr)) ds)) → n ∉ reserved) as Hres.
  { intros n [Hin|(m & Hin & ->)]%all_members_names; [by apply Hn|]. unfold starred, reserved. cbn. rewrite !not_elem_of_cons.
    split_and!; try discriminate. apply not_elem_of_nil. }
  assert (Forall good_member msg) as Hg.
  { constructor; [by split_and!; [repeat constructor|done|cbn; lia]|]. destruct H as [_ _ _ Hs]. clear -Hreg Hp Hs. revert Hp.
    induction Hs as [|p d ps ds' Hd _ IH]; intros Hp; cbn; [constructor|]. apply Forall_app. split.
    - eapply members_good; [done| |done]. apply Hp. by left.
    - apply IH. intros q Hq. apply Hp. by right. }
  split_and!.
  - apply ok_object. split_and!; [|apply Forall_map; eapply Forall_impl; [exact Hg|by intros m (? & ? & ?)]..].
    apply NoDup_cons. split; [intros Hf%Hres; apply Hf; by left|]. apply all_members_distinct; [done|]. intros n Hin. by apply Hn.
  - apply (Nat.le_trans _ 3); [|vm_compute; lia]. apply ProfileDoc.object_depth. eapply Forall_impl; [exact Hg|]. by intros m (? & ? & ?).
  - intros n [->|Hin]%elem_of_cons; [by left|right]. by apply Hres.
Qed.

(** ** What the tools read of a call *)

Definition call_record (pid : Z) (proto : FuncPrototype) (ds : list shown) (tr : traced) : JSON_Object :=
  entry_object (tr_time tr) pid (tr_tid tr) ACTIONS SEVERITY_INFO (JSONObject (message proto (params (tr_ctx tr)) ds)).

Lemma call_record_read pid tr proto ds :
  registered → loggable tr proto ds →
  let msg := message proto (params (tr_ctx tr)) ds in
  Profile.call_of (call_record pid proto ds tr) = Some msg ∧ Profile.msg_func msg = Some (fp_name proto) ∧
  Profile.msg_events msg = accesses_of proto tr.
Proof.
  intros Hreg H msg. destruct (message_good tr proto ds Hreg H) as (_ & _ & Hn). fold msg in Hn.
  assert (∀ n, lit n ∈ reserved → lit n ≠ lit "func" → json_object_get_value (Some msg) n = None) as Habs.
  { intros n Hr Hf. apply nget_absent. intros [?|?]%Hn; done. }
  assert (Profile.msg_func msg = Some (fp_name proto)) as Hf by reflexivity.
  assert (json_object_get_string (Some msg) "text" = None ∧ json_object_get_string (Some msg) "detail" = None) as [Ht Hd].
  { unfold json_object_get_string. rewrite !Habs; [done|..]; try discriminate; unfold reserved; set_solver. }
  assert (Profile.has_value msg "call_duration_us" = false) as Hc.
  { unfold Profile.has_value. rewrite Habs; [done| |discriminate]. unfold reserved. set_solver. }
  split_and!; [|done|].
  - unfold Profile.call_of, call_record. rewrite entry_members. fold msg.
    assert (∀ a b c d e, json_object_get_object (Some [(lit "time", a); (lit "pid", b); (lit "tid", c); (lit "module", d); (lit "severity", e);
      (lit "message", JSONObject msg)]) "message" = Some msg) as -> by done. rewrite Ht, Hc. done.
  - unfold Profile.msg_events, accesses_of, Profile.msg_class. rewrite Hf, Hd. unfold msg. by rewrite (message_paths tr proto ds).
Qed.

(** ** Calls and events *)

(** A call of the logger for a record of a traced call. *)
Definition made (tr : traced) (r : record) (c : call) : Prop :=
  c_tid c = tr_tid tr ∧ c_time c = tr_time tr ∧ (c_module c, c_sev c, c_msg c) = r ∧
  c_alloc c = mkOutcomes true true true true ∧ c_copy c = true.

Definition call_in (e : event) : option call := match e with Log c => Some c | Flush => None end.

(** The calls of the logger are those for the records of the traced calls, in any
    order, with the rounds of the flusher among them. *)
Definition traces (trs : list traced) (evs : list event) : Prop :=
  ∃ css, Forall2 (λ tr cs, ∃ ret log, ia_log_params big_endian char_signed types (tr_mem tr) (tr_ctx tr) None = Some (ret, log) ∧
                             Forall2 (made tr) log cs) trs css ∧
    omap call_in evs ≡ₚ concat css.

Definition logs (pid : Z) (c : call) : option (nat * JSON_Object) := logged_by pid (Log c).

Lemma logged_calls pid evs : logged pid evs = omap (logs pid) (omap call_in evs).
Proof.
  unfold logged. induction evs as [|[c|] evs IH]; cbn [omap list_omap call_in]; [done| |done]. unfold logs at 1. by rewrite IH.
Qed.

Lemma unseen_records pid tr log cs : Forall2 (made tr) log cs → visible log = [] → omap (logs pid) cs = [].
Proof.
  induction 1 as [|r c log cs (_ & _ & <- & _) _ IH]; [done|]. unfold visible. cbn [List.filter omap list_omap fst snd].
  destruct (severities_ena (c_sev c)) eqn:E; [done|]. intros H. unfold logs at 1, logged_by. rewrite E, andb_false_r. by apply IH.
Qed.

(** A traced call makes one entry. *)
Lemma traced_entry pid tr proto ds cs :
  loggable tr proto ds →
  (∃ ret log, ia_log_params big_endian char_signed types (tr_mem tr) (tr_ctx tr) None = Some (ret, log) ∧ Forall2 (made tr) log cs) →
  omap (logs pid) cs = [(tr_tid tr, call_record pid proto ds tr)].
Proof.
  intros H (ret & log & Hlog & Hcs). destruct (plain_proto_facts _ (lo_plain _ _ _ H)) as [_ Hv _ _ _].
  assert (kept [] (params (tr_ctx tr)) = params (tr_ctx tr)) as Hk.
  { clear. induction (params (tr_ctx tr)) as [|p ps IH]; [done|]. rewrite kept_cons, bool_decide_false by apply not_elem_of_nil. by rewrite IH. }
  assert (∀ p, p ∈ params (tr_ctx tr) → plain_param (param_meta p)) as Hp by (intros p ?; by eapply plain_meta_facts, plain_params).
  destruct (log_params_message big_endian char_signed types (tr_mem tr) (tr_ctx tr) proto [] ds None) as (log' & Hlog' & Hvis);
    rewrite ?Hk; try apply H; try done.
  - apply Forall_fmap, Forall_forall. intros p Hin. by destruct (Hp p Hin).
  - apply NoDup_cons. split; [|by eapply names_distinct]. intros (p & Hf & Hin)%list_elem_of_fmap. destruct (Hp p Hin) as [_ _ _ Hr _ _ _ _ _].
    apply Hr. rewrite <- Hf. by left.
  - rewrite Hlog in Hlog'. injection Hlog' as -> ->. apply Forall2_app_inv_l in Hcs as (cs1 & cs2 & H1 & H2 & ->).
    rewrite omap_app, (unseen_records _ _ _ _ H1); [|rewrite Hvis; unfold omissions; clear; by induction (params (tr_ctx tr))].
    inversion H2 as [|r c ? ? (Ht & Hti & Hr & _) H3]; subst. inversion H3; subst. injection Hr as Hm Hs Hmsg.
    cbn [omap list_omap app]. unfold logs, logged_by, call_entry, call_record. by rewrite Ht, Hti, Hm, Hs, Hmsg, ?Hk.
Qed.

(** ** The profile of the calls *)

Definition call_accesses (tr : traced) : list (bytes * Correlate.CorrClass) :=
  match prototype (tr_ctx tr) with Some proto => accesses_of proto tr | None => [] end.

Definition calls_named (f : bytes) (trs : list traced) : nat := length (filter (λ tr, fp_name <$> prototype (tr_ctx tr) = Some f) trs).

(** The entry of a call. *)
Definition entry_for (pid : Z) (tr : traced) (e : nat * JSON_Object) : Prop :=
  ∃ proto ds, loggable tr proto ds ∧ e = (tr_tid tr, call_record pid proto ds tr).

(** Numbers that the text of a trace holds. *)
Definition stamped (tr : traced) : Prop := number_ok (d_of_int (tr_time tr)) ∧ number_ok (d_of_int (Z.of_nat (tr_tid tr))).

Lemma entry_for_readable pid tr e :
  registered → number_ok (d_of_int pid) → stamped tr → entry_for pid tr e → readable e.2.
Proof.
  intros Hreg Hpid [Ht Hi] (proto & ds & Hl & ->). destruct (message_good tr proto ds Hreg Hl) as (H1 & H2 & _). cbn [snd].
  unfold call_record. by apply entry_readable.
Qed.

Lemma traced_entries pid trs css :
  Forall (λ tr, ∃ proto ds, loggable tr proto ds) trs →
  Forall2 (λ tr cs, ∃ ret log, ia_log_params big_endian char_signed types (tr_mem tr) (tr_ctx tr) None = Some (ret, log) ∧
                      Forall2 (made tr) log cs) trs css →
  Forall2 (entry_for pid) trs (omap (logs pid) (concat css)).
Proof.
  intros Hl H. induction H as [|tr cs trs css Hc _ IH]; cbn [concat]; [constructor|]. apply Forall_cons in Hl as [(proto & ds & Hl) Hls].
  rewrite omap_app, (traced_entry pid tr proto ds cs Hl Hc). constructor; [by exists proto, ds|by apply IH].
Qed.

Lemma calls_good pid trs css evs :
  registered → number_ok (d_of_int pid) → Forall stamped trs → Forall (λ tr, ∃ proto ds, loggable tr proto ds) trs →
  Forall2 (λ tr cs, ∃ ret log, ia_log_params big_endian char_signed types (tr_mem tr) (tr_ctx tr) None = Some (ret, log) ∧
                      Forall2 (made tr) log cs) trs css →
  omap call_in evs ≡ₚ concat css → Forall (good_event pid) evs.
Proof.
  intros Hreg Hpid Hst Hl Hcs Hp. apply Forall_forall. intros [c|] Hin; [|done].
  assert (c ∈ concat css) as Hc by (rewrite <- Hp; apply list_elem_of_omap; by exists (Log c)).
  split_and!; [clear -Hcs Hc..|].
  1,2: induction Hcs as [|tr cs trs css (ret & log & _ & Hm) _ IH]; [by apply not_elem_of_nil in Hc|];
    cbn in Hc; apply elem_of_app in Hc as [Hc|Hc]; [|by apply IH]; apply list_elem_of_lookup in Hc as [i Hi];
    destruct (Forall2_lookup_r _ _ _ _ _ Hm Hi) as (r & _ & (_ & _ & _ & ? & ?)); done.
  intros [[tid e] He]. assert ((tid, e) ∈ omap (logs pid) (concat css)) as Hin'.
  { apply list_elem_of_omap. by exists c. }
  pose proof (traced_entries pid trs css Hl Hcs) as Hes. apply list_elem_of_lookup in Hin' as [i Hi].
  destruct (Forall2_lookup_r _ _ _ _ _ Hes Hi) as (tr & Htr & Hef).
  assert (stamped tr) as Hs by (apply (proj1 (Forall_forall _ _) Hst); by eapply list_elem_of_lookup_2).
  apply (entry_for_readable pid tr _ Hreg Hpid Hs) in Hef. unfold logged_by in He. destruct (modules_ena _ && _); [|done].
  injection He as _ <-. exact Hef.
Qed.

(** What the entries say, in the order of the calls. *)
Lemma entries_say pid trs es :
  registered → Forall2 (entry_for pid) trs es →
  Profile.path_events es.*2 = trs ≫= call_accesses ∧ ∀ f, Profile.func_calls f es.*2 = calls_named f trs.
Proof.
  intros Hreg H. induction H as [|tr e trs es (proto & ds & Hl & ->) _ [IH1 IH2]]; [done|].
  destruct (call_record_read pid tr proto ds Hreg Hl) as (H1 & H2 & H3). destruct (plain_proto_facts _ (lo_plain _ _ _ Hl)) as [_ _ _ Hne _].
  rewrite fmap_cons. cbn [snd]. unfold Profile.path_events, Profile.func_calls, calls_named in *. rewrite Profile.calls_cons.
  unfold Profile.calls at 1 3. cbn [omap list_omap]. rewrite H1. split.
  - rewrite bind_app, IH1. cbn [mbind list_bind]. rewrite app_nil_r, H3. unfold call_accesses at 2. by rewrite (lo_proto _ _ _ Hl).
  - intros f. rewrite filter_app, length_app, IH2. change (tr :: trs) with ([tr] ++ trs). rewrite filter_app, length_app. f_equal.
    destruct (decide (fp_name proto = f)) as [E|E].
    + rewrite !filter_cons_True; [done|by rewrite (lo_proto _ _ _ Hl), <- E|]. rewrite H2, Profile.nonempty_some by done. by rewrite E.
    + rewrite !filter_cons_False; [done|rewrite (lo_proto _ _ _ Hl); cbn; congruence|]. rewrite H2, Profile.nonempty_some by done. congruence.
Qed.

(** C13 (refinement). Calls that are logged reach the profile exactly. For every
    plain prototype, if threads make calls whose arguments can be read and the
    records of the calls come to the logger in any order, with rounds of the
    flusher among them such that no thread logs as many records as a ring has
    places from one round to the next, and the file is empty at the start and no
    pattern of redaction is set, then the profile made from the file that the run
    leaves has skipped nothing and has one entry for a call; it counts each
    function as often as it was called; and a path is accessed as often, and in
    the classes, as it was passed to a function in a string. *)
Theorem calls_profiled pid getenv fopen sinks file trs evs :
  registered → env_flag (getenv ENVAR_LOGGER_DEF_ENA) = true →
  getenv ENVAR_LOGGER_DEF_FN = Some file → fopen file = Some [] →
  (∀ v, getenv "RETRACE_LOGGER_RING" = Some v → deref v ≠ "0"%char) →
  number_ok (d_of_int pid) → Forall stamped trs → Forall (λ tr, ∃ proto ds, loggable tr proto ds) trs → traces trs evs →
  let l := set_inited (retrace_logger_init getenv fopen true sinks) in
  paced pid (w_cap (rings l)) (λ _, 0) evs = true →
  ∃ text feed,
    logfile (out (retrace_logger_deinit [] (run [] pid l evs))) = Some text ∧
    (∀ files path, files path = Some text → ProfileDoc.load_profile files path = Some feed) ∧
    ProfileDoc.skipped feed = 0 ∧ Profile.entries (ProfileDoc.prof feed) = length trs ∧
    (∀ f, Profile.prof_names_get (Profile.functions (ProfileDoc.prof feed)) f = calls_named f trs) ∧
    (∀ path, Profile.prof_access_get (ProfileDoc.prof feed) path =
             Profile.access_spec (Profile.at_path path (trs ≫= call_accesses))).
Proof.
  intros Hreg He Hf Ho Hr Hpid Hst Hl (css & Hcs & Hp) l Hlen.
  destruct (document_scanned [] pid getenv fopen sinks file evs eq_refl He Hf Ho Hr) as (acc & wr & text & _ & Hall & Hord & Htext & Hscan & _).
  { by eapply calls_good. }
  fold l in Hall, Htext. pose proof (traced_entries pid trs css Hl Hcs) as Hes.
  assert (logged pid evs ≡ₚ omap (logs pid) (concat css)) as Hlog by (rewrite logged_calls; by rewrite Hp).
  assert (wr.*2 ≡ₚ (omap (logs pid) (concat css)).*2) as Hwr.
  { rewrite <- Hlog, <- Hall by done.
    apply fmap_Permutation. by apply threads_permutation. }
  destruct (entries_say pid trs _ Hreg Hes) as [Hev Hfc].
  assert (Correlate.entries_of text = wr.*2) as Hent.
  { unfold Correlate.entries_of. rewrite Hscan. cbn [fst]. clear. induction wr.*2 as [|o os IH]; cbn in *; [done|]. by rewrite IH. }
  exists text, (ProfileDoc.scan_feed text). split; [done|]. unfold ProfileDoc.load_profile, ProfileDoc.scan_feed.
  split; [by intros files path ->|]. cbn [ProfileDoc.skipped ProfileDoc.prof]. rewrite Hscan, Hent. split; [done|].
  destruct (Profile.entries_added wr.*2 Profile.prof_init Profile.prof_init_ok) as (H1 & H2 & H3 & H4).
  unfold Profile.profile_of. rewrite Profile.finish_id by done. split_and!.
  - rewrite H4. cbn. by rewrite (Permutation_length Hwr), length_fmap, <- (Forall2_length _ _ _ Hes).
  - intros f. by rewrite H3, Hwr, Hfc.
  - intros path. rewrite H2, <- Hev. cbn. by rewrite Profile.bump_spec, Hwr.
Qed.

End trace.

(** ** Two calls *)

#[local] Existing Instance whole_numbers.

Definition demo_calls : list traced :=
  [mkTraced 1 5 (call_context ProtoSystem.ProtoSystem.proto_access [4096; 4]%Z) demo_memory;
   mkTraced 2 6 (call_context ProtoSystem.ProtoSystem.proto_unlink [4096]%Z) demo_memory].

Definition demo_message (func path : string) (rest : JSON_Object) : JSON_Object :=
  (lit "func", JSONString (lit func)) :: (lit path, JSONString (lit "0x1000")) ::
  (starred (lit path), JSONArray [JSONString (lit "/etc/hosts")]) :: rest.

Definition demo_log (tid : nat) (time : Z) (msg : JSON_Object) : call :=
  mkCall tid time ACTIONS SEVERITY_INFO (JSONObject msg) (mkOutcomes true true true true) true (LogRing.LogRing.mkEntry 0 0 0 0 None).

Definition demo_access : call := demo_log 1 5 (demo_message "access" "pathname" [(lit "mode", JSONString (lit "4"))]).
Definition demo_unlink : call := demo_log 2 6 (demo_message "unlink" "pathname" []).

Lemma demo_registered : registered false true demo_types.
Proof.
  exists (retrace_dts false true). split; [reflexivity|]. destruct (datatypes_init_ok false true _ (Permutation_refl (retrace_dts false true))) as (d & Hd & _).
  unfold demo_types. rewrite Hd. reflexivity.
Qed.

Lemma demo_path p : val p = 4096%Z → param_meta p = mkMeta (lit "pathname") (lit "ptr") (Z.lor CDM_POINTER CDM_CONST) PDIR_IN (lit "sz") [] →
  ∀ t_ctx, describes false true demo_types demo_memory t_ctx p (mkShown (lit "0x1000") (Some [lit "/etc/hosts"])).
Proof.
  intros Hv Hm t_ctx. unfold describes, data_type, value_of, element_count. rewrite Hv, Hm.
  split; [eexists; split; [exact (demo_type 9 _ eq_refl)|reflexivity]|].
  split; [reflexivity|]. split; [done|]. split; [done|]. eexists _, 1%Z. split; [exact (demo_type 6 _ eq_refl)|]. split; reflexivity.
Qed.

Lemma demo_loggable : Forall (λ tr, ∃ proto ds, loggable false true demo_types tr proto ds) demo_calls.
Proof.
  constructor; [|constructor; [|constructor]].
  - exists ProtoSystem.ProtoSystem.proto_access, [mkShown (lit "0x1000") (Some [lit "/etc/hosts"]); mkShown (lit "4") None].
    split; [reflexivity..|]. constructor; [by apply demo_path|]. constructor; [|constructor].
    split; [eexists; split; [exact (demo_type 0 _ eq_refl)|reflexivity]|by left].
  - exists ProtoSystem.ProtoSystem.proto_unlink, [mkShown (lit "0x1000") (Some [lit "/etc/hosts"])].
    split; [reflexivity..|]. constructor; [by apply demo_path|]. constructor.
Qed.

Lemma demo_traces : traces false true demo_types demo_calls [Log demo_unlink; Flush; Log demo_access].
Proof.
  exists [[demo_access]; [demo_unlink]]. split; [|apply perm_swap].
  constructor; [|constructor; [|constructor]].
  - eexists _, [(ACTIONS, SEVERITY_INFO, c_msg demo_access)]. split; [vm_compute; reflexivity|]. by repeat constructor.
  - eexists _, [(ACTIONS, SEVERITY_INFO, c_msg demo_unlink)]. split; [vm_compute; reflexivity|]. by repeat constructor.
Qed.

Lemma demo_stamped : Forall stamped demo_calls.
Proof.
  destruct demo_numbers as (_ & H5 & H1 & H2 & H6). constructor; [split; [exact H5|exact H1]|]. constructor; [split; [exact H6|exact H2]|]. constructor.
Qed.

Lemma calls_profiled_witness :
  let l := set_inited (retrace_logger_init demo_env (λ _, Some []) true []) in
  ∃ text feed,
    logfile (out (retrace_logger_deinit [] (run [] 7 l [Log demo_unlink; Flush; Log demo_access]))) = Some text ∧
    (∀ files path, files path = Some text → ProfileDoc.load_profile files path = Some feed) ∧
    ProfileDoc.skipped feed = 0 ∧ Profile.entries (ProfileDoc.prof feed) = 2 ∧
    (∀ f, Profile.prof_names_get (Profile.functions (ProfileDoc.prof feed)) f = calls_named f demo_calls) ∧
    (∀ path, Profile.prof_access_get (ProfileDoc.prof feed) path =
             Profile.access_spec (Profile.at_path path (demo_calls ≫= call_accesses))).
Proof.
  apply (calls_profiled false true demo_types 7 demo_env (λ _, Some []) [] (lit "t.json") demo_calls).
  - exact demo_registered.
  - reflexivity.
  - reflexivity.
  - reflexivity.
  - intros v H. discriminate H.
  - exact (proj1 demo_numbers).
  - exact demo_stamped.
  - exact demo_loggable.
  - exact demo_traces.
  - vm_compute. reflexivity.
Defined.

(** The path is seen to be probed and written. *)
Lemma demo_accesses : demo_calls ≫= call_accesses = [(lit "/etc/hosts", Correlate.CORR_CLS_PROBE); (lit "/etc/hosts", Correlate.CORR_CLS_WRITE)].
Proof. vm_compute. reflexivity. Qed.

End CallTrace.
