(* ===== verification/ParamActions.v ===== *)
(** * Replacing what a parameter points to

    [modify_in_param_str] and [modify_in_param_arr] of [src/core/actions/basic.c]:
    a parameter is pointed to a new block with the text or the bytes of the
    configuration, and the context frees the block when it is cleared. The memory
    is the program's, which only holds the bytes that may be read, and the blocks
    of the actions; a read elsewhere, and a [free] of what is no block, are
    undefined. [malloc] succeeds; the texts that are logged are not part of the
    result. *)

From stdpp Require Import gmap.
From S2P Require Import Prelude Libc Stdio Context Json Lanes ProtoSystem ProtoTables Engine.

Module ParamActions.

Import Libc Stdio Context Json.

(** ** Memory *)

Abbreviation heap := (gmap Z bytes).

Definition free (a : Z) (m : heap) : option heap :=
  if (a =? 0)%Z then Some m else match m !! a with Some _ => Some (delete a m) | None => None end.

Fixpoint free_all (l : list Z) (m : heap) : option heap :=
  match l with [] => Some m | a :: l => m ← free a m; free_all l m end.

(** [strcmp] with a string that ends: whether it is the same, reading no further
    than the first difference. *)
Fixpoint str_matches (s data : bytes) : option bool :=
  match data with
  | [] => None
  | d :: data =>
      match s with
      | [] => Some (ceq d NUL)
      | c :: s => if ceq c d then str_matches s data else Some false
      end
  end.

(** The loop over the bytes to match. *)
Fixpoint bytes_match (l data : bytes) : option bool :=
  match l with
  | [] => Some true
  | c :: l =>
      match data with
      | [] => None
      | d :: data => if ceq d c then bytes_match l data else Some false
      end
  end.

Definition json_array_numbers (a : JSON_Array) : list double := (λ v, json_value_get_number (Some v)) <$> a.

Section actions.
Context (mem : Z → bytes) (malloc : heap → nat → Z) (char_signed : bool) (out_of_range : double → ascii).

Definition memory (m : heap) (a : Z) : bytes := match m !! a with Some b => b | None => mem a end.

(** The conversion to [char]; what does not fit is up to the machine. *)
Definition to_char (d : double) : ascii :=
  let z := d_trunc d in
  if (if char_signed then (-128 <=? z) && (z <=? 127) else (0 <=? z) && (z <=? 255))%Z
  then ascii_of_N (Z.to_N (z mod 256)) else out_of_range d.

(** A new block for a parameter, in the place of one it may have. *)
Definition replace_val (i : nat) (p : FuncParam) (content : bytes) (t : ThreadContext) (m : heap) : option (ThreadContext * heap) :=
  m ← (if free_val p then free (val p) m else Some m);
  let a := malloc m (length content) in
  Some (set_params (<[i := mkParam (param_meta p) a true]> (params t)) t, <[a := content]> m).

(** ** The actions *)

(** The parameter that both of them look for. *)
Definition input_param (t : ThreadContext) (action_params : option JSON_Object) : option (JSON_Object * nat * FuncParam) :=
  match action_params with
  | None => None
  | Some o =>
      match json_object_get_string (Some o) "param_name" with
      | None => None
      | Some param_name =>
          match retrace_action_find_param t param_name with
          | None => None
          | Some i =>
              match params t !! i with
              | Some p => if bool_decide (pm_direction (param_meta p) = PDIR_IN) then Some (o, i, p) else None
              | None => None
              end
          end
      end
  end.

Definition ia_modify_in_param_str (t : ThreadContext) (action_params : option JSON_Object) (m : heap)
    : option (Z * ThreadContext * heap) :=
  match input_param t action_params with
  | None => Some ((-1)%Z, t, m)
  | Some (o, i, p) =>
      if negb (has_mod (pm_modifiers (param_meta p)) CDM_POINTER) || negb (streq (pm_ref_type_name (param_meta p)) (lit "sz"))
      then Some ((-1)%Z, t, m)
      else
        match json_object_get_string (Some o) "new_str" with
        | None => Some ((-1)%Z, t, m)
        | Some new_str =>
            same ← (match json_object_get_string (Some o) "match_str" with
                    | Some match_str => str_matches (cstr match_str) (memory m (val p))
                    | None => Some true
                    end);
            if same : bool then
              r ← replace_val i p (cstr new_str ++ [NUL]) t m; Some (0%Z, r.1, r.2)
            else Some (0%Z, t, m)
        end
  end.

(** The count that goes with an array. *)
Definition set_count (p : FuncParam) (n : nat) (t : ThreadContext) : Z * ThreadContext :=
  if 0 <? length (pm_array_cnt_param (param_meta p)) then
    match retrace_action_find_param t (pm_array_cnt_param (param_meta p)) with
    | None => ((-1)%Z, t)
    | Some j =>
        match params t !! j with
        | Some c => (0%Z, set_params (<[j := mkParam (param_meta c) (Z.of_nat n) (free_val c)]> (params t)) t)
        | None => ((-1)%Z, t)
        end
    end
  else (0%Z, t).

Definition ia_modify_in_param_arr (t : ThreadContext) (action_params : option JSON_Object) (m : heap)
    : option (Z * ThreadContext * heap) :=
  match input_param t action_params with
  | None => Some ((-1)%Z, t, m)
  | Some (o, i, p) =>
      if negb (has_mod (pm_modifiers (param_meta p)) CDM_POINTER) then Some ((-1)%Z, t, m)
      else
        match json_object_get_array (Some o) "new_arr" with
        | None | Some [] => Some ((-1)%Z, t, m)
        | Some new_arr =>
            same ← (match json_object_get_array (Some o) "match_arr" with
                    | Some match_arr => bytes_match (to_char <$> json_array_numbers match_arr) (memory m (val p))
                    | None => Some true
                    end);
            if same : bool then
              r ← replace_val i p (to_char <$> json_array_numbers new_arr) t m;
              let '(ret, t) := set_count p (length new_arr) r.1 in Some (ret, t, r.2)
            else Some (0%Z, t, m)
        end
  end.

(** ** Sequences of actions *)

Inductive action := ModifyStr (o : option JSON_Object) | ModifyArr (o : option JSON_Object).

Definition act (a : action) (t : ThreadContext) (m : heap) : option (Z * ThreadContext * heap) :=
  match a with ModifyStr o => ia_modify_in_param_str t o m | ModifyArr o => ia_modify_in_param_arr t o m end.

Fixpoint run (l : list action) (t : ThreadContext) (m : heap) : option (ThreadContext * heap) :=
  match l with
  | [] => Some (t, m)
  | a :: l => r ← act a t m; run l r.1.2 r.2
  end.

(** ** Ownership *)

(** The blocks that clearing the context frees, in order. *)
Definition blocks_of (ps : list FuncParam) : list Z := val <$> filter (λ p, free_val p = true) ps.

Definition block (p : FuncParam) : list Z := if free_val p then [val p] else [].

Lemma blocks_app a b : blocks_of (a ++ b) = blocks_of a ++ blocks_of b.
Proof. unfold blocks_of. by rewrite filter_app, fmap_app. Qed.

Lemma blocks_cons p ps : blocks_of (p :: ps) = block p ++ blocks_of ps.
Proof. unfold blocks_of, block. destruct (free_val p) eqn:E; [by rewrite filter_cons_True|]. rewrite filter_cons_False; [done|]. by rewrite E. Qed.

Lemma blocks_insert ps i p :
  ps !! i = Some p →
  ∃ b1 b2, blocks_of ps = b1 ++ block p ++ b2 ∧ ∀ q, blocks_of (<[i := q]> ps) = b1 ++ block q ++ b2.
Proof.
  intros H. exists (blocks_of (take i ps)), (blocks_of (drop (S i) ps)). split.
  - rewrite <- (take_drop_middle ps i p H) at 1. by rewrite blocks_app, blocks_cons.
  - intros q. rewrite insert_take_drop by by eapply lookup_lt_Some. by rewrite blocks_app, blocks_cons.
Qed.

(** A list of blocks is all of the heap. *)
Record holds (l : list Z) (m : heap) : Prop := {
  ho_distinct : NoDup l;
  ho_null : 0%Z ∉ l;
  ho_all : ∀ a, a ∈ l ↔ is_Some (m !! a);
}.

Lemma free_holds l1 a l2 m : holds (l1 ++ a :: l2) m → free a m = Some (delete a m) ∧ holds (l1 ++ l2) (delete a m).
Proof.
  intros [Hd H0 Ha]. rewrite <- Permutation_middle in Hd. apply NoDup_cons in Hd as [Hn Hd].
  assert (a ≠ 0%Z) as Hz by set_solver. destruct (proj1 (Ha a)) as [b Hb]; [set_solver|]. split.
  - unfold free. by rewrite (proj2 (Z.eqb_neq _ _) Hz), Hb.
  - split; [done|set_solver|]. intros x. destruct (decide (a = x)) as [<-|Hne].
    + rewrite lookup_delete_eq. split; [done|]. by intros [? ?].
    + rewrite lookup_delete_ne by done. rewrite <- Ha. set_solver.
Qed.

Lemma free_all_holds l m : holds l m → free_all l m = Some ∅.
Proof.
  revert m. induction l as [|a l IH]; intros m H; cbn.
  - f_equal. apply map_eq. intros x. rewrite lookup_empty. destruct (m !! x) eqn:E; [|done].
    by destruct (not_elem_of_nil x (proj2 (ho_all _ _ H x) (mk_is_Some _ _ E))).
  - destruct (free_holds [] a l m H) as [-> H']. cbn. by apply IH.
Qed.

Hypothesis malloc_new : ∀ m n, malloc m n ≠ 0%Z ∧ m !! malloc m n = None.

Lemma malloc_holds l1 l2 m n content :
  holds (l1 ++ l2) m → holds (l1 ++ malloc m n :: l2) (<[malloc m n := content]> m).
Proof.
  destruct (malloc_new m n) as [Hz Hn]. intros [Hd H0 Ha].
  assert (malloc m n ∉ l1 ++ l2) as Hni by (rewrite Ha, Hn; by intros [? ?]). split.
  - rewrite <- Permutation_middle. by apply NoDup_cons.
  - set_solver.
  - intros x. destruct (decide (malloc m n = x)) as [<-|Hne].
    + rewrite lookup_insert_eq. split; [by eexists|set_solver].
    + rewrite lookup_insert_ne by done. rewrite <- Ha. set_solver.
Qed.

(** The parameters own their blocks; only pointers do. *)
Record owned (t : ThreadContext) (m : heap) : Prop := {
  ow_blocks : holds (blocks_of (params t)) m;
  ow_pointers : ∀ p, p ∈ params t → free_val p = true → has_mod (pm_modifiers (param_meta p)) CDM_POINTER = true;
}.

(** The count of an array is not a pointer. *)
Definition counts_plain (ms : list ParamMeta) : Prop :=
  ∀ p c, p ∈ ms → c ∈ ms → pm_name c = pm_array_cnt_param p → pm_array_cnt_param p ≠ [] → has_mod (pm_modifiers c) CDM_POINTER = false.

Lemma metas_insert t i p q :
  params t !! i = Some p → param_meta q = param_meta p → param_meta <$> <[i := q]> (params t) = param_meta <$> params t.
Proof. intros H E. rewrite list_fmap_insert, E. apply list_insert_id. by rewrite list_lookup_fmap, H. Qed.

Lemma replace_owned t m i p content :
  owned t m → params t !! i = Some p → has_mod (pm_modifiers (param_meta p)) CDM_POINTER = true →
  ∃ a m', replace_val i p content t m = Some (set_params (<[i := mkParam (param_meta p) a true]> (params t)) t, m') ∧
    owned (set_params (<[i := mkParam (param_meta p) a true]> (params t)) t) m' ∧ m' !! a = Some content.
Proof.
  intros [Hb Hp] Hi Hm. destruct (blocks_insert _ _ _ Hi) as (b1 & b2 & E & Eq). rewrite E in Hb.
  assert (∃ m1, (if free_val p then free (val p) m else Some m) = Some m1 ∧ holds (b1 ++ b2) m1) as (m1 & Hm1 & Hh).
  { unfold block in Hb. destruct (free_val p); [|by exists m]. apply free_holds in Hb as [-> Hb]. by eexists. }
  unfold replace_val. rewrite Hm1. cbn [mbind option_bind]. eexists _, _. split; [done|]. split; [|apply lookup_insert_eq].
  split; cbn [params set_params].
  - rewrite Eq. by apply malloc_holds.
  - intros q [j Hj]%list_elem_of_lookup Hf. destruct (decide (i = j)) as [<-|Hne].
    + rewrite list_lookup_insert_eq in Hj by by eapply lookup_lt_Some. by injection Hj as <-.
    + rewrite list_lookup_insert_ne in Hj by done. apply Hp; [by eapply list_elem_of_lookup_2|done].
Qed.

Lemma count_owned t m p n :
  owned t m → counts_plain (param_meta <$> params t) → param_meta p ∈ param_meta <$> params t →
  let t' := (set_count p n t).2 in owned t' m ∧ param_meta <$> params t' = param_meta <$> params t.
Proof.
  intros [Hb Hp] Hc Hin. cbn zeta. unfold set_count. destruct (Nat.ltb_spec 0 (length (pm_array_cnt_param (param_meta p)))) as [Hl|]; [|done].
  destruct (retrace_action_find_param t _) as [j|] eqn:Ej; [|done]. destruct (find_param_Some _ _ _ Ej) as (c & Hj & Hn & _). rewrite Hj. cbn.
  assert (free_val c = false) as Hf.
  { destruct (free_val c) eqn:E; [|done]. assert (c ∈ params t) as Hct by by eapply list_elem_of_lookup_2.
    specialize (Hp c Hct E). rewrite (Hc (param_meta p) (param_meta c)) in Hp; [done|done|by apply list_elem_of_fmap_2|done|].
    intros E0. rewrite E0 in Hl. cbn in Hl. lia. }
  split; [|by apply (metas_insert t j c)]. destruct (blocks_insert _ _ _ Hj) as (b1 & b2 & E & Eq). split; cbn [params set_params].
  - rewrite Eq. unfold block in *. cbn [free_val]. by rewrite Hf in *; rewrite <- E.
  - intros q [k Hk]%list_elem_of_lookup Hq. destruct (decide (j = k)) as [<-|Hne].
    + rewrite list_lookup_insert_eq in Hk by by eapply lookup_lt_Some. injection Hk as <-. cbn in Hq. congruence.
    + rewrite list_lookup_insert_ne in Hk by done. apply Hp; [by eapply list_elem_of_lookup_2|done].
Qed.

(** The read of an action for its match stays in memory that may be read. *)
Definition reads_ok (a : action) (t : ThreadContext) (m : heap) : Prop :=
  match a with
  | ModifyStr o =>
      ∀ o' i p s, input_param t o = Some (o', i, p) → json_object_get_string (Some o') "match_str" = Some s →
        is_Some (str_matches (cstr s) (memory m (val p)))
  | ModifyArr o =>
      ∀ o' i p l, input_param t o = Some (o', i, p) → json_object_get_array (Some o') "match_arr" = Some l →
        is_Some (bytes_match (to_char <$> json_array_numbers l) (memory m (val p)))
  end.

Lemma input_param_at t o o' i p : input_param t o = Some (o', i, p) → params t !! i = Some p.
Proof. unfold input_param. intros H. repeat case_match; simplify_eq; done. Qed.

(** The parameters still own their blocks, and are the same ones. *)
Definition keeps (t t' : ThreadContext) (m' : heap) : Prop := owned t' m' ∧ param_meta <$> params t' = param_meta <$> params t.

Lemma str_keeps t o m :
  owned t m →
  match ia_modify_in_param_str t o m with
  | Some (_, t', m') => keeps t t' m'
  | None => ¬ reads_ok (ModifyStr o) t m
  end.
Proof.
  intros Hw. unfold ia_modify_in_param_str, reads_ok. destruct (input_param t o) as [[[o' i] p]|] eqn:Ei; [|done].
  destruct (negb (has_mod _ _) || _) eqn:Hm; [done|]. bool_to_prop. destruct (json_object_get_string (Some o') "new_str") as [s|]; [|done].
  assert (∃ a m', replace_val i p (cstr s ++ [NUL]) t m = Some (set_params (<[i := mkParam (param_meta p) a true]> (params t)) t, m') ∧
    keeps t (set_params (<[i := mkParam (param_meta p) a true]> (params t)) t) m') as (a & m' & Hr & Hk).
  { apply input_param_at in Ei. destruct (replace_owned t m i p (cstr s ++ [NUL]) Hw Ei) as (a & m' & Hr & Ho & _); [done|].
    exists a, m'. split; [done|]. split; [done|]. by apply (metas_insert t i p). }
  destruct (json_object_get_string (Some o') "match_str") as [ms|] eqn:Em.
  - destruct (str_matches _ _) as [[]|] eqn:Es; cbn [mbind option_bind]; [by rewrite Hr|done|].
    intros Hrd. destruct (Hrd o' i p ms eq_refl Em) as [? ?]. congruence.
  - cbn [mbind option_bind]. by rewrite Hr.
Qed.

Lemma arr_keeps t o m :
  owned t m → counts_plain (param_meta <$> params t) →
  match ia_modify_in_param_arr t o m with
  | Some (_, t', m') => keeps t t' m'
  | None => ¬ reads_ok (ModifyArr o) t m
  end.
Proof.
  intros Hw Hc. unfold ia_modify_in_param_arr, reads_ok. destruct (input_param t o) as [[[o' i] p]|] eqn:Ei; [|done].
  destruct (negb (has_mod _ _)) eqn:Hm; [done|]. bool_to_prop. destruct (json_object_get_array (Some o') "new_arr") as [[|v l]|]; [done| |done].
  set (new := v :: l). assert (∃ t1 m', replace_val i p (to_char <$> json_array_numbers new) t m = Some (t1, m') ∧
    keeps t (set_count p (length new) t1).2 m') as (t1 & m' & Hr & Hk).
  { apply input_param_at in Ei. destruct (replace_owned t m i p (to_char <$> json_array_numbers new) Hw Ei) as (a & m' & Hr & Ho & _); [done|].
    eexists _, m'. split; [exact Hr|]. assert (param_meta <$> params (set_params (<[i := mkParam (param_meta p) a true]> (params t)) t) =
      param_meta <$> params t) as Hsame by by apply (metas_insert t i p).
    destruct (count_owned _ _ p (length new) Ho) as [H1 H2]; rewrite ?Hsame; [done| |by split; rewrite ?H2].
    by eapply list_elem_of_fmap_2, list_elem_of_lookup_2. }
  clearbody new. destruct (json_object_get_array (Some o') "match_arr") as [ms|] eqn:Em.
  - destruct (bytes_match _ _) as [[]|] eqn:Es; cbn [mbind option_bind]; [|done|].
    + rewrite Hr. cbn. by destruct (set_count p (length new) t1).
    + intros Hrd. destruct (Hrd o' i p ms eq_refl Em) as [? ?]. congruence.
  - cbn [mbind option_bind]. rewrite Hr. cbn. by destruct (set_count p (length new) t1).
Qed.

Lemma run_keeps l t m :
  owned t m → counts_plain (param_meta <$> params t) →
  match run l t m with
  | Some (t', m') => keeps t t' m'
  | None => ∃ l1 a l2 t1 m1, l = l1 ++ a :: l2 ∧ run l1 t m = Some (t1, m1) ∧ ¬ reads_ok a t1 m1
  end.
Proof.
  revert t m. induction l as [|a l IH]; intros t m Hw Hc; cbn [run]; [done|].
  assert (match act a t m with Some (_, t', m') => keeps t t' m' | None => ¬ reads_ok a t m end) as Ha.
  { destruct a as [o|o]; [by apply str_keeps|by apply arr_keeps]. }
  destruct (act a t m) as [[[ret t1] m1]|] eqn:Ea; cbn [mbind option_bind fst snd].
  - destruct Ha as [Hw1 Hs1]. specialize (IH t1 m1 Hw1). rewrite Hs1 in IH. specialize (IH Hc).
    destruct (run l t1 m1) as [[t2 m2]|]; [destruct IH; split; [done|congruence]|].
    destruct IH as (l1 & b & l2 & t2 & m2 & -> & Hr & Hb). exists (a :: l1), b, l2, t2, m2. split_and!; [done| |done]. cbn. by rewrite Ea.
  - exists [], a, l, t, m. split_and!; [done..|exact Ha].
Qed.

(** A string that is replaced is the one the real function gets. *)
Lemma str_replaced t m o i p s :
  owned t m → input_param t (Some o) = Some (o, i, p) → has_mod (pm_modifiers (param_meta p)) CDM_POINTER = true →
  pm_ref_type_name (param_meta p) = lit "sz" → json_object_get_string (Some o) "new_str" = Some s →
  (∀ ms, json_object_get_string (Some o) "match_str" = Some ms → str_matches (cstr ms) (memory m (val p)) = Some true) →
  ∃ a m', ia_modify_in_param_str t (Some o) m = Some (0%Z, set_params (<[i := mkParam (param_meta p) a true]> (params t)) t, m') ∧
    memory m' a = cstr s ++ [NUL].
Proof.
  intros Hw Hi Hm Hr Hs Hms. destruct (replace_owned t m i p (cstr s ++ [NUL]) Hw (input_param_at _ _ _ _ _ Hi) Hm) as (a & m' & Hrv & _ & Ha).
  exists a, m'. split; [|unfold memory; by rewrite Ha]. unfold ia_modify_in_param_str. rewrite Hi, Hm, Hr, streq_refl, Hs. cbn [negb orb].
  destruct (json_object_get_string (Some o) "match_str") as [ms|]; [rewrite (Hms ms eq_refl)|]; cbn [mbind option_bind]; by rewrite Hrv.
Qed.

(** The arrays of the tables are counted by numbers. *)
Definition counts_ok (p : FuncPrototype) : bool :=
  forallb (λ m, streq (pm_array_cnt_param m) [] ||
    forallb (λ c, negb (streq (pm_name c) (pm_array_cnt_param m)) || negb (has_mod (pm_modifiers c) CDM_POINTER)) (Lanes.proto_params p))
    (Lanes.proto_params p).

Lemma counts_ok_plain p : counts_ok p = true → counts_plain (Lanes.proto_params p).
Proof.
  unfold counts_ok. rewrite forallb_forall. intros H x c Hx%list_elem_of_In%H Hc%list_elem_of_In Hn Hne.
  apply orb_true_iff in Hx as [Hx|Hx]; [by apply streq_true in Hx|]. rewrite forallb_forall in Hx. specialize (Hx c Hc).
  rewrite Hn, streq_refl in Hx. cbn in Hx. by apply negb_true_iff in Hx.
Qed.

(** C25 (safety). Whatever sequence of replacements scripts make of the strings and
    arrays a function of the tables is given, the blocks stay in order: nothing is
    freed twice or without having been allocated, the run only fails if a match
    reads memory that the program may not read, and clearing the context frees
    every block once and leaves none. A parameter never points to a block that was
    freed. *)
Theorem modified_params_owned proto t l :
  proto ∈ ProtoTables.retrace_protos → param_meta <$> params t = Lanes.proto_params proto →
  Forall (λ p, free_val p = false) (params t) →
  match run l t ∅ with
  | Some (t', m') =>
      (∀ p, p ∈ params t' → free_val p = true → is_Some (m' !! val p)) ∧ free_all (retrace_thread_context_clear t').1 m' = Some ∅
  | None => ∃ l1 a l2 t1 m1, l = l1 ++ a :: l2 ∧ run l1 t ∅ = Some (t1, m1) ∧ ¬ reads_ok a t1 m1
  end.
Proof.
  intros Hp Hm Hf. assert (blocks_of (params t) = []) as Hb.
  { clear -Hf. induction Hf as [|p ps Hp _ IH]; [done|]. rewrite blocks_cons, IH. unfold block. by rewrite Hp. }
  assert (owned t ∅) as Hw.
  { split; [rewrite Hb; split; [apply NoDup_nil_2|apply not_elem_of_nil|]|].
    - intros a. rewrite lookup_empty. split; [by intros ?%not_elem_of_nil|by intros [? ?]].
    - intros p Hin. by rewrite (proj1 (Forall_forall _ _) Hf p Hin). }
  pose proof (run_keeps l t ∅ Hw) as H. rewrite Hm in H.
  assert (forallb counts_ok ProtoTables.retrace_protos = true) as Ht by (vm_compute; reflexivity).
  rewrite forallb_forall in Ht. specialize (H (counts_ok_plain _ (Ht proto (proj1 (list_elem_of_In _ _) Hp)))).
  destruct (run l t ∅) as [[t' m']|]; [|done]. destruct H as [[Hh _] _]. split; [|by apply free_all_holds].
  intros p Hin Hfv. apply (ho_all _ _ Hh), list_elem_of_fmap_2, list_elem_of_filter. done.
Qed.

End actions.

(** ** Two replacements *)

Definition demo_malloc (m : heap) (n : nat) : Z := fresh (dom m ∪ {[0%Z]}).

Lemma demo_malloc_new m n : demo_malloc m n ≠ 0%Z ∧ m !! demo_malloc m n = None.
Proof. unfold demo_malloc. pose proof (is_fresh (dom m ∪ {[0%Z]})) as H. split; [set_solver|]. apply not_elem_of_dom. set_solver. Qed.

Definition demo_context : ThreadContext :=
  set_params (zip_with (λ m v, mkParam m v false) (fp_params ProtoSystem.ProtoSystem.proto_access) [4096; 4]%Z) zero_context.

Definition demo_actions : list action :=
  [ModifyStr (Some [(lit "param_name", JSONString (lit "pathname")); (lit "new_str", JSONString (lit "/tmp/x"))]);
   ModifyStr (Some [(lit "param_name", JSONString (lit "pathname")); (lit "match_str", JSONString (lit "/tmp/x")); (lit "new_str", JSONString (lit "/y"))])].

Lemma modified_params_owned_witness :
  match run (λ _, []) demo_malloc true (λ _, NUL) demo_actions demo_context ∅ with
  | Some (t', m') =>
      (∀ p, p ∈ params t' → free_val p = true → is_Some (m' !! val p)) ∧ free_all (retrace_thread_context_clear t').1 m' = Some ∅
  | None => ∃ l1 a l2 t1 m1, demo_actions = l1 ++ a :: l2 ∧ run (λ _, []) demo_malloc true (λ _, NUL) l1 demo_context ∅ = Some (t1, m1) ∧
      ¬ reads_ok (λ _, []) true (λ _, NUL) a t1 m1
  end.
Proof.
  apply (modified_params_owned (λ _, []) demo_malloc true (λ _, NUL) demo_malloc_new ProtoSystem.ProtoSystem.proto_access demo_context demo_actions).
  - apply (list_elem_of_lookup_2 _ 106). vm_compute. reflexivity.
  - reflexivity.
  - repeat constructor.
Defined.

(** The run above is defined and the second text replaced the first one. *)
Lemma demo_replaced :
  (λ r, (map_to_list r.2).*2) <$> run (λ _, []) demo_malloc true (λ _, NUL) demo_actions demo_context ∅ = Some [lit "/y" ++ [NUL]].
Proof. vm_compute. reflexivity. Qed.

(** ** Where the blocks are lost *)

(** [modify_in_param_int] sets the value of a parameter that owns a block and
    leaves the mark: clearing the context then frees a number. *)
Lemma int_over_block :
  let o : JSON_Object := [(lit "param_name", JSONString (lit "pathname")); (lit "new_int", JSONNumber (d_int 7))] in
  (λ r, free_all (retrace_thread_context_clear (Engine.ia_modify_in_param_int r.1 (Some o) tt).1.2).1 r.2) <$>
    run (λ _, []) demo_malloc true (λ _, NUL) demo_actions demo_context ∅ = Some None.
Proof. vm_compute. reflexivity. Qed.

End ParamActions.
